(* ===== verification/_CoqProject ===== *)
-Q . S2P
Prelude.v
Int32.v
Store.v
Async.v
Steps.v
Trails.v
Pages.v
Json.v
JsNumber.v
Outbox.v
Dispatcher.v
DispatcherRuns.v
TenantTables.v
Tenancy.v
TenancyIsolation.v
TenantGuard.v
Tokens.v
Totp.v
Mfa.v
AuditLog.v
OutboundUrl.v
ViewPolicy.v
Impersonation.v
Money.v
Payments.v
Billing.v
BilledOnce.v
Timers.v
Calendar.v
Governance.v
AiControl.v
MfaEnforcement.v
ToolRegistry.v
ToolActions.v
ToolReceipts.v
ApiKeys.v
McpOAuth.v
McpOAuthLog.v
McpRequests.v
Inbound.v
InboundLog.v
InboundRuns.v
ClientText.v
ClientAgents.v
ClientMemory.v
ClientRuns.v
ClientRunLog.v
ClientRunSafety.v
ClientRunRequests.v
BreakGlass.v
Handoffs.v
HandoffLog.v
Audiences.v
Recurrence.v
RecurringTasks.v
RecurringInvoices.v
RecurringInvoiceLog.v
Trash.v
TrashLog.v
RecordCalculations.v
RecordSoundness.v
RecordInputs.v
WorkspaceRecords.v
WorkspaceRecordLog.v
