(* ===== verification/Prelude.v ===== *)
(** * Verification of the Ashbi Hub backend

    Ashbi Hub (src/) is an agency's work platform: a Fastify API over a Prisma
    client and PostgreSQL, with a worker, an AI layer and a web client.  This
    library models parts of the API's core logic (src/src/) and proves what makes
    them correct.  Definitions keep the names of the code, and each is preceded
    by a comment with the file, lines and symbol it models.

    ** Foundations

    - Prelude: results, the state-and-error monad [Eff] with [transaction], the
      automation ([bool_simplify], [case_hyp]), lists and the stable sort.
    - Store: [Table], the interface of a database table (find, select,
      conditional update, insert, delete with their laws) and its instance on
      finite maps; compare-and-set lemmas.
    - Async: an async function cut at its awaits ([prog]), what it guarantees
      under interference ([wp], and [owned] where a request relies on what it
      claimed being left alone), and the system of all requests ([step],
      [reachable_spec], [owned_spec]; [fresh_run] for marks a request has not yet
      left, [fresh_after] for requests that arrive once something is final).
    - Steps: such functions that throw ([and_then], [catch], transactions), with
      the rules of [owned] for them and for what a request is [told].  Trails: ghost logs whose every event is
      justified by its past.
    - Pages: cursor pagination and the reader that follows the cursors.
    - Int32, JsNumber, Calendar: JavaScript's 32-bit operators, its binary64
      numbers with correct rounding, and UTC dates.  Json: JSON values with
      their canonical text.

    ** Parts of the program

    - Outbox, Dispatcher, DispatcherRuns: domain-event-catalog.js,
      domain-event.service.js, domain-event-dispatcher.service.js.  State: the
      event table.  A step relation interleaves recording, claiming, settling,
      replaying; proved: per-aggregate order of delivery, idempotent recording,
      no write by a stale claim, refinement of the bookkeeping, and that an
      undisturbed run publishes everything due.
    - TenantTables, Tenancy, TenancyIsolation, TenantGuard: the scoped Prisma
      client (utils/prisma-tenant-proxy.js, tenant-relations.js),
      soft-delete.service.js and middleware/tenancy.js.  Proved: reads and writes
      are confined to the organization, nested writes link owned records only,
      evidence tables are kept, the guard fails closed.
    - Tokens: session and step-up cookies (auth/session.js, reauth.js).
    - Totp, Mfa: auth/totp.js, mfa.js and the handlers of routes/mfa.routes.js as
      interleaved requests.  Proved: the base32 round trip, which codes verify,
      that a code or recovery code is accepted once, that guesses are rationed
      per account, and the life of a challenge.
    - MfaEnforcement: auth/mfa-enforcement.js.
    - AuditLog: audit-event.service.js.  ViewPolicy, Impersonation:
      auth/impersonation.js and routes/privileged-access.routes.js.  BreakGlass:
      auth/break-glass.js.  Proved: who a support view may run as, what it may
      do, single-use recovery grants and what redeeming restores.
    - OutboundUrl: security/outbound-url-policy.js, safe-fetch.js.  Proved: the
      textual address checks are the numeric ranges, and a fetch only connects
      to public addresses even when the name resolves differently later.
    - Governance, AiControl: ai/governance.js, ai/pricing.js and
      routes/ai-connection.routes.js.  Proved: a provider is contacted only with
      switches read off within the cache's lifetime, by the organization's own
      connection within its budget, never falling back, and metered.
    - ToolRegistry, ToolActions, ToolReceipts: ai/tools/registry.js, executor.js,
      auth/mcp-action-authority.js and the receipts' triggers.  Proved: a tool
      that changes something is only carried out for a stored, approved action,
      once; receipts only move forward; what a caller is told is so.
    - ApiKeys, McpOAuth, McpOAuthLog, McpRequests: routes/api-key.routes.js,
      auth/api-key-scopes.js and auth/mcp-oauth-provider.js over one table of keys
      and Redis, every await a place where others run.  McpOAuthLog has the
      invariant and what each request guarantees; McpRequests the theorems: a
      token is accepted for what a member consented to, a code and a refresh token
      are used once, revocation is final, an API key gives its owner's scopes.
    - Inbound, InboundLog, InboundRuns: services/pipeline.service.js,
      inbound-delivery-key.js, assignment.service.js and the thread routes that
      touch the same rows.  Proved: a delivery has one record and each step of its
      pipeline happens once however it is retried, an answered delivery is
      complete, assignment is fair, redelivered mail has its key.
    - ClientText, ClientAgents, ClientMemory: the records of the client account
      manager, who may use it, and the memory it is given (text is UTF-16 here).
      ClientRuns, ClientRunLog, ClientRunSafety, ClientRunRequests: its runs
      (jobs/client-agent-run.js, client-agent-run-recovery.js, the services
      client-agent-run and workspace-account-manager) and the tables' triggers.
      ClientRuns has the code; ClientRunLog the invariant and what a request
      guarantees the others; ClientRunSafety the job; ClientRunRequests the sweep
      and the requests.  Proved: the provider is asked once per run, by its
      claimant, with exactly what was stored; finished runs stay; a start
      request's key names one run; the trigger admits the memory that is built.
    - Money, Payments: utils/invoice-balance.js, money-totals.js, the invoice
      settlement services.  Proved over binary64: totals and balances are integer
      arithmetic on cents, and payments refine integer bookkeeping.
    - Billing, BilledOnce: unbilled-invoice.service.js, utils/invoice.js,
      invoice-draft.service.js, void and undo of routes/invoice.routes.js.
      Proved: work is billed at most once, as reviewed; releases free exactly
      what was claimed; numbers are the first free ones.
    - Timers: timeTracking.service.js.  Recurrence, RecurringTasks:
      shared/task-recurrence.js and its service.  Proved: one entry per stopped
      timer, next occurrences, one copy per due date.
    - RecurringInvoices, RecurringInvoiceLog: jobs/recurring-invoices.js,
      tenant-iteration.js and the schedule side of routes/invoice.routes.js over
      Billing's books.  Proved: the next date is the first one after now, a due
      date is billed once whatever interleaves, and a run left alone bills or
      reports every invoice it found.
    - Trash, TrashLog: services/trash.service.js, trash-purge.service.js,
      jobs/trash-purge.js, routes/trash.routes.js and the delete routes of notes,
      milestones, expenses and proposals, with the foreign keys a purge follows.
      Proved: a row of the trash is settled once, a purge takes only hidden
      records of its own organization, and restoring gives records back as they
      were.
    - RecordCalculations, RecordSoundness: shared/record-calculations.js, the
      typed formulas and rollups of a collection's fields.  Proved: the checker
      always answers, what it accepts has no cycles and never goes wrong, and the
      evaluator, which remembers results, computes what a reference semantics
      without memory or order says.
    - RecordInputs, WorkspaceRecords, WorkspaceRecordLog: shared/record-inputs.js
      and services/workspace-records.service.js: what may be stored, changes of
      definitions, forms, and the transactions on collections, records and forms.
      Proved: whatever the transactions and their order, active records fit the
      current fields of their collections and reading them never fails.
    - Handoffs, HandoffLog: portal-handoff.service.js, auth/portal-principal.js
      and the trigger of the table's migration.  Proved: the service never writes
      what the trigger forbids, the audit log is a run of the state machine,
      contacts see their own requests, retries are idempotent, pages complete.
    - Audiences: shared/document-audiences.js, note-access.service.js,
      workspace-page-authorization.js.  Proved: rights are those of every
      audience on the path; a restored note keeps its audience.

    ** How components meet

    Payments record the outbox's [invoice.paid]; BreakGlass ends Impersonation's
    sessions, resets Mfa's state and appends to AuditLog; Tokens signs what
    Impersonation and Mfa carry; Timers, Payments, RecurringTasks and Handoffs
    are clients of Store's [Table]; Governance's budgets use JsNumber and
    Calendar; Trash asks Audiences what becomes of a note it deletes or restores;
    TenancyIsolation is proved against the database interface
    [Tenancy] states.

    ** Conventions, fuel and bounds

    Code outside src/ is a parameter: hashes and ciphers, random draws (assumed
    distinct, as hashes of distinct texts are, where connections rely on it), the
    URL parser, DNS, zod, the meaning of a [where].  Redis may drop an entry of a
    connection at any time; its TTLs are not represented otherwise.  A statement of the database is atomic; a
    serializable transaction acts on one state; an optimistic transaction takes
    the state it read and the state it commits to; elsewhere requests interleave
    at every await.  Ghost trails record what was read and written and are never
    read by the code modelled.  Fuel: [validate_row] gets the size of the data
    plus one, [load] walks 201 levels (the code's own limit is 200), monthly
    occurrences and invoice dates search two turns (a month that has the day is at most two away),
    number allocation has the code's 50 attempts, pages one round per row plus
    one, a memory is shortened once per character of its last turn, a cascade of
    deletions spreads once per row plus one, formulas go 14 deep (depth 13 is refused)
    and through each field once; in each case a theorem shows that it is enough or that running out is the code's own refusal.
    Times are milliseconds or days as integers; text is ASCII.

    ** Findings

    [ToolReceipts.resource_link_binding_refused], [ClientMemory.blank_turn_refused],
    [ClientRunRequests.request_key_lower], [McpRequests.consent_twice],
    [McpRequests.six_keys], [InboundRuns.clients_of_another_organization],
    [InboundRuns.critical_goes_to_the_team], [BilledOnce.undone_after_release_bills_twice],
    [RecurringInvoiceLog.one_organization_stops_all],
    [RecurringInvoiceLog.sent_invoice_becomes_a_draft],
    [TrashLog.purged_before_its_time], [TrashLog.milestone_loses_a_task], [RecordSoundness.error_code_depends_on_order],
    [AiControl.stale_switch_after_change], [TenantGuard.portal_handoffs_exempt] and [Money.roundMoney_half_down] prove
    behaviours that differ from what the code or its documents intend.

    ** Not modelled

    Pure I/O and presentation (routes' reply shapes, emails, PDF, Socket.IO, the
    web client), third-party protocols (Stripe, Slack, Gmail, Mailgun, Google),
    prompts and providers, uploads, imports and exports, logging.  Of the account
    manager's tables and of inbound mail, deletions and their cascades.  Of the trash,
    its listing.  Of records, the reads of collections and forms; a page of records
    is read in one state.  Planned next: the work queue and automation rules,
    boards and stages. *)

From stdpp Require Export base tactics numbers option list sorting strings gmap.
From Stdlib Require Export ZArith Lia.

#[global] Open Scope Z_scope.

(** ** Results and the state-and-error monad

    A handler that throws aborts with an error value; a handler that runs
    inside [db.$transaction] additionally rolls its writes back.  [result] is
    the value side, [Eff] threads the state. *)

Inductive result (E A : Type) : Type :=
  | Ok (a : A)
  | Err (e : E).
Arguments Ok {E A} a.
Arguments Err {E A} e.

Definition is_ok {E A} (r : result E A) : bool :=
  match r with Ok _ => true | Err _ => false end.

#[export] Instance result_ret {E} : MRet (result E) := λ A a, Ok a.
#[export] Instance result_bind {E} : MBind (result E) :=
  λ A B f r, match r with Ok a => f a | Err e => Err e end.
#[export] Instance result_fmap {E} : FMap (result E) :=
  λ A B f r, match r with Ok a => Ok (f a) | Err e => Err e end.

(** [refuse_unless b e] is the code's [if (!b) throw e]. *)
Definition refuse_unless {E} (b : bool) (e : E) : result E unit :=
  if b then Ok tt else Err e.

Lemma refuse_unless_ok {E} (b : bool) (e : E) u : refuse_unless b e = Ok u ↔ b = true.
Proof. destruct b, u; simpl; split; congruence. Qed.

Lemma bind_ok {E A B} (r : result E A) (f : A → result E B) b :
  (r ≫= f) = Ok b ↔ ∃ a, r = Ok a ∧ f a = Ok b.
Proof. destruct r; naive_solver. Qed.

Lemma bind_err {E A B} (r : result E A) (f : A → result E B) e :
  (r ≫= f) = Err e ↔ r = Err e ∨ ∃ a, r = Ok a ∧ f a = Err e.
Proof. destruct r; naive_solver. Qed.

(** State-and-error computations: the state a thrown error leaves behind is
    part of the model, so [transaction] can restore the one it started from. *)
Definition Eff (S E A : Type) : Type := S → result E A * S.

#[export] Instance eff_ret {S E} : MRet (Eff S E) := λ A a s, (Ok a, s).
#[export] Instance eff_bind {S E} : MBind (Eff S E) :=
  λ A B f m s, match m s with
               | (Ok a, s') => f a s'
               | (Err e, s') => (Err e, s')
               end.

Definition throw {S E A} (e : E) : Eff S E A := λ s, (Err e, s).
Definition gets {S E A} (f : S → A) : Eff S E A := λ s, (Ok (f s), s).
Definition modify {S E} (f : S → S) : Eff S E unit := λ s, (Ok tt, f s).
Definition guard_eff {S E} (b : bool) (e : E) : Eff S E unit :=
  λ s, (refuse_unless b e, s).

(** [db.$transaction(async tx => ...)]: a thrown error discards every write. *)
Definition transaction {S E A} (m : Eff S E A) : Eff S E A :=
  λ s, match m s with
       | (Ok a, s') => (Ok a, s')
       | (Err e, _) => (Err e, s)
       end.

Lemma transaction_err {S E A} (m : Eff S E A) s e s' :
  transaction m s = (Err e, s') → s' = s.
Proof. unfold transaction. destruct (m s) as [[a|e'] s1]; congruence. Qed.

Lemma transaction_ok {S E A} (m : Eff S E A) s a s' :
  transaction m s = (Ok a, s') ↔ m s = (Ok a, s').
Proof. unfold transaction. destruct (m s) as [[b|e'] s1]; naive_solver. Qed.

Lemma eff_bind_ok {S E A B} (m : Eff S E A) (f : A → Eff S E B) s b s' :
  (m ≫= f) s = (Ok b, s') → ∃ a s1, m s = (Ok a, s1) ∧ f a s1 = (Ok b, s').
Proof. unfold mbind, eff_bind. destruct (m s) as [[a|e] s1] eqn:Em; [eauto|done]. Qed.

Lemma eff_bind_run {S E A B} (m : Eff S E A) (f : A → Eff S E B) s a s1 :
  m s = (Ok a, s1) → (m ≫= f) s = f a s1.
Proof. intros Hm. unfold mbind, eff_bind. by rewrite Hm. Qed.
Lemma eff_bind_stop {S E A B} (m : Eff S E A) (f : A → Eff S E B) s e s1 :
  m s = (Err e, s1) → (m ≫= f) s = (Err e, s1).
Proof. intros Hm. unfold mbind, eff_bind. by rewrite Hm. Qed.

(** Partial correctness of a computation: from states in [I] every successful
    run ends in [I] with an answer in [Q]. *)
Definition ok_run {S E A} (I : S → Prop) (m : Eff S E A) (Q : A → Prop) : Prop :=
  ∀ s a s', I s → m s = (Ok a, s') → I s' ∧ Q a.

Lemma ok_run_ret {S E A} (I : S → Prop) (a : A) (Q : A → Prop) :
  Q a → ok_run (E := E) I (mret a) Q.
Proof. intros HQ s a' s' HI [= <- <-]. done. Qed.

Lemma ok_run_throw {S E A} (I : S → Prop) (e : E) (Q : A → Prop) : ok_run I (throw e) Q.
Proof. by intros s a s' HI [=]. Qed.

Lemma ok_run_bind {S E A B} (I : S → Prop) (m : Eff S E A) (f : A → Eff S E B) (P : A → Prop) (Q : B → Prop) :
  ok_run I m P → (∀ a, P a → ok_run I (f a) Q) → ok_run I (m ≫= f) Q.
Proof.
  intros Hm Hf s b s' HI. unfold mbind, eff_bind. destruct (m s) as [[a|e] s1] eqn:Em; [|by intros [=]].
  destruct (Hm s a s1 HI Em) as [HI1 HP]. apply (Hf a HP). done.
Qed.

Lemma ok_run_impl {S E A} (I : S → Prop) (m : Eff S E A) (P Q : A → Prop) :
  ok_run I m P → (∀ a, P a → Q a) → ok_run I m Q.
Proof. intros Hm HPQ s a s' HI Em. destruct (Hm s a s' HI Em). auto. Qed.

Lemma ok_run_mapM {S E A B} (I : S → Prop) (f : A → Eff S E B) (Q : A → B → Prop) l :
  (∀ x, x ∈ l → ok_run I (f x) (Q x)) → ok_run I (mapM f l) (Forall2 Q l).
Proof.
  induction l as [|x l IH]; intros Hf; [apply ok_run_ret; constructor|].
  apply (ok_run_bind I (f x) _ (Q x)); [apply Hf; left|]. intros y Hy.
  apply (ok_run_bind I _ _ (Forall2 Q l)); [apply IH; intros z Hz; apply Hf; by right|].
  intros ys Hys. apply ok_run_ret. by constructor.
Qed.

(** A computation that never fails with an error in [P]. *)
Definition never {S E A} (P : E → Prop) (m : Eff S E A) : Prop := ∀ s e s', m s = (Err e, s') → ¬ P e.

Lemma never_ret {S E A} (P : E → Prop) (a : A) : never (S := S) P (mret a).
Proof. by intros s e s' [=]. Qed.
Lemma never_bind {S E A B} (P : E → Prop) (m : Eff S E A) (f : A → Eff S E B) :
  never P m → (∀ a, never P (f a)) → never P (m ≫= f).
Proof.
  intros Hm Hf s e s'. unfold mbind, eff_bind. destruct (m s) as [[a|e'] s1] eqn:Em; [apply Hf|].
  intros [= -> ->]. by eapply Hm.
Qed.
Lemma never_mapM {S E A B} (P : E → Prop) (f : A → Eff S E B) l :
  (∀ x, x ∈ l → never P (f x)) → never P (mapM f l).
Proof.
  induction l as [|x l IH]; intros Hf; [apply never_ret|].
  apply never_bind; [apply Hf; left|]. intros y. apply never_bind; [apply IH; intros z Hz; apply Hf; by right|].
  intros ys. apply never_ret.
Qed.

(** ** Automation

    [case_guard] splits the innermost boolean test of a goal or hypothesis;
    [bool_simplify] turns boolean facts into propositions. *)

Lemma andb_true_iff' (a b : bool) : a && b = true ↔ a = true ∧ b = true.
Proof. destruct a, b; naive_solver. Qed.
Lemma orb_true_iff' (a b : bool) : a || b = true ↔ a = true ∨ b = true.
Proof. destruct a, b; naive_solver. Qed.
Lemma orb_false_iff' (a b : bool) : a || b = false ↔ a = false ∧ b = false.
Proof. destruct a, b; naive_solver. Qed.
Lemma negb_true_iff' (a : bool) : negb a = true ↔ a = false.
Proof. destruct a; naive_solver. Qed.
Lemma negb_false_iff' (a : bool) : negb a = false ↔ a = true.
Proof. destruct a; naive_solver. Qed.

Ltac bool_step :=
  match goal with
  | H : _ && _ = true |- _ => apply andb_true_iff' in H; destruct H
  | H : _ || _ = false |- _ => apply orb_false_iff' in H; destruct H
  | H : negb _ = true |- _ => apply negb_true_iff' in H
  | H : negb _ = false |- _ => apply negb_false_iff' in H
  | H : bool_decide _ = true |- _ => apply bool_decide_eq_true in H
  | H : bool_decide _ = false |- _ => apply bool_decide_eq_false in H
  | H : (_ =? _)%Z = true |- _ => apply Z.eqb_eq in H
  | H : (_ =? _)%Z = false |- _ => apply Z.eqb_neq in H
  | H : (_ <? _)%Z = true |- _ => apply Z.ltb_lt in H
  | H : (_ <? _)%Z = false |- _ => apply Z.ltb_ge in H
  | H : (_ <=? _)%Z = true |- _ => apply Z.leb_le in H
  | H : (_ <=? _)%Z = false |- _ => apply Z.leb_gt in H
  end.
Ltac bool_simplify := repeat bool_step; simplify_eq/=.

(** Split the next [if] or [match] scrutinee that occurs in a hypothesis. *)
Ltac case_hyp H :=
  match type of H with
  | context [if ?b then _ else _] => destruct b eqn:?
  | context [match ?x with _ => _ end] => destruct x eqn:?
  end; simplify_eq/=.
Ltac case_goal :=
  match goal with
  | |- context [if ?b then _ else _] => destruct b eqn:?
  | |- context [match ?x with _ => _ end] => destruct x eqn:?
  end; simplify_eq/=.

(** A literal that is none of the members listed. *)
Ltac mem_absurd :=
  exfalso;
  match goal with
  | H : _ ∈ _ :: _ |- _ =>
      repeat (apply elem_of_cons in H as [H|H]; [discriminate|]); by apply not_elem_of_nil in H
  end.

(** Membership of a literal in a list of literals, by cases. *)
Ltac mem_cases H := repeat (apply elem_of_cons in H as [->|H]); [..|by apply not_elem_of_nil in H].

Lemma string_app_assoc (a b c : string) : (a +:+ b) +:+ c = a +:+ (b +:+ c).
Proof. induction a as [|x a IH]; [done|]. change (String x ((a +:+ b) +:+ c) = String x (a +:+ (b +:+ c))). by rewrite IH. Qed.
Lemma string_app_nil_r (a : string) : a +:+ "" = a.
Proof. induction a as [|x a IH]; [done|]. change (String x (a +:+ "") = String x a). by rewrite IH. Qed.

(** ** Lists *)

Lemma NoDup_subset_length {A} (l k : list A) :
  NoDup l → (∀ x, x ∈ l → x ∈ k) → (length l ≤ length k)%nat.
Proof. intros Hl Hs. by apply NoDup_submseteq, submseteq_length in Hs. Qed.

(** [[...new Set(l)]]: the first occurrence of every element, in order. *)
Definition unique `{EqDecision A} (l : list A) : list A := reverse (remove_dups (reverse l)).

Lemma elem_of_unique `{EqDecision A} (l : list A) x : x ∈ unique l ↔ x ∈ l.
Proof. unfold unique. by rewrite elem_of_reverse, elem_of_remove_dups, elem_of_reverse. Qed.
Lemma NoDup_unique `{EqDecision A} (l : list A) : NoDup (unique l).
Proof. unfold unique. eapply NoDup_Permutation_proper; [apply reverse_Permutation|apply NoDup_remove_dups]. Qed.

Lemma bool_decide_refl `{EqDecision A} (x : A) : bool_decide (x = x) = true.
Proof. by apply bool_decide_eq_true. Qed.

Lemma bool_decide_neq `{EqDecision A} (x y : A) : x ≠ y → bool_decide (x = y) = false.
Proof. apply bool_decide_eq_false. Qed.

Create HintDb hub.
#[export] Hint Resolve bool_decide_refl bool_decide_neq : hub.

(** ** Insertion sort

    [Array.prototype.sort] with a comparator: a stable sort.  The key
    [f] maps an element to the value the comparator looks at. *)

Section isort.
Context {A : Type} (le : A → A → bool).

Fixpoint insert_sorted (x : A) (l : list A) : list A :=
  match l with
  | [] => [x]
  | y :: l' => if le x y then x :: l else y :: insert_sorted x l'
  end.
Fixpoint isort (l : list A) : list A :=
  match l with
  | [] => []
  | x :: l' => insert_sorted x (isort l')
  end.

Lemma insert_sorted_perm x l : insert_sorted x l ≡ₚ x :: l.
Proof.
  induction l as [|y l IH]; simpl; [done|]. destruct (le x y); [done|].
  rewrite IH. apply Permutation_swap.
Qed.
Lemma isort_perm l : isort l ≡ₚ l.
Proof. induction l as [|x l IH]; simpl; [done|]. by rewrite insert_sorted_perm, IH. Qed.
Lemma elem_of_isort x l : x ∈ isort l ↔ x ∈ l.
Proof. by rewrite isort_perm. Qed.
Lemma length_isort l : length (isort l) = length l.
Proof. by rewrite isort_perm. Qed.

Context (le_total : ∀ x y, le x y = true ∨ le y x = true).
Context (le_trans : ∀ x y z, le x y = true → le y z = true → le x z = true).

Lemma insert_sorted_sorted x l :
  StronglySorted (λ a b, le a b = true) l → StronglySorted (λ a b, le a b = true) (insert_sorted x l).
Proof.
  induction l as [|y l IH]; intros Hs; simpl; [by repeat constructor|].
  inversion_clear Hs as [|? ? Hl Hy]. destruct (le x y) eqn:E.
  - constructor; [by constructor|]. constructor; [done|].
    eapply Forall_impl; [exact Hy|]; simpl; eauto.
  - constructor; [auto|]. rewrite insert_sorted_perm.
    constructor; [|done]. destruct (le_total x y); congruence.
Qed.
Lemma isort_sorted l : StronglySorted (λ a b, le a b = true) (isort l).
Proof. induction l; simpl; [constructor|]. by apply insert_sorted_sorted. Qed.

(** A stable sort commutes with a filter. *)
Lemma insert_sorted_least x l : Forall (λ y, le x y = true) l → insert_sorted x l = x :: l.
Proof. destruct 1 as [|y l Hy]; simpl; [done|]. by rewrite Hy. Qed.
Lemma insert_sorted_filter (P : A → Prop) `{∀ x, Decision (P x)} x l :
  StronglySorted (λ a b, le a b = true) l →
  filter P (insert_sorted x l) = if decide (P x) then insert_sorted x (filter P l) else filter P l.
Proof.
  induction l as [|y l IH]; intros Hs; [cbn [insert_sorted]; rewrite filter_cons; by case_decide|].
  inversion_clear Hs as [|? ? Hl Hy]. cbn [insert_sorted]. destruct (le x y) eqn:E.
  - rewrite (filter_cons P x). case_decide; [|done]. symmetry. apply insert_sorted_least.
    apply Forall_forall. intros z [_ Hz]%list_elem_of_filter. apply elem_of_cons in Hz as [->|Hz]; [done|].
    rewrite Forall_forall in Hy. eauto.
  - rewrite !(filter_cons P y), IH by done. repeat case_decide; cbn; by rewrite ?E.
Qed.
Lemma isort_filter (P : A → Prop) `{∀ x, Decision (P x)} l : isort (filter P l) = filter P (isort l).
Proof.
  induction l as [|x l IH]; [done|]. rewrite filter_cons. cbn [isort]. rewrite insert_sorted_filter by apply isort_sorted.
  case_decide; cbn [isort]; by rewrite IH.
Qed.
End isort.

Lemma isort_fmap {A B} (leA : A → A → bool) (leB : B → B → bool) (f : A → B) (l : list A) :
  (∀ x y, leB (f x) (f y) = leA x y) → isort leB (f <$> l) = f <$> isort leA l.
Proof.
  intros Hle.
  assert (∀ x k, insert_sorted leB (f x) (f <$> k) = f <$> insert_sorted leA x k) as Hins.
  { intros x k. induction k as [|y k IHk]; [done|]. rewrite fmap_cons. cbn [insert_sorted].
    rewrite Hle. destruct (leA x y); [done|]. by rewrite fmap_cons, IHk. }
  induction l as [|x l IH]; [done|]. rewrite fmap_cons. cbn [isort]. by rewrite IH, Hins.
Qed.

Lemma StronglySorted_filter {A} (R : A → A → Prop) (P : A → Prop) `{∀ x, Decision (P x)} (l : list A) :
  StronglySorted R l → StronglySorted R (filter P l).
Proof.
  induction 1 as [|x l Hl IH Hx]; [constructor|]. rewrite filter_cons. case_decide; [|done].
  constructor; [done|]. apply Forall_forall. intros y [_ Hy]%list_elem_of_filter.
  by eapply Forall_forall in Hx.
Qed.

(** The order the database and [Array.prototype.sort] use on strings. *)
Lemma string_leb_total x y : String.leb x y = true ∨ String.leb y x = true.
Proof. apply String.leb_total. Qed.
Lemma string_leb_trans x y z : String.leb x y = true → String.leb y z = true → String.leb x z = true.
Proof.
  intros H1 H2. assert (String.le x y) as H1' by (unfold String.le; by rewrite H1).
  assert (String.le y z) as H2' by (unfold String.le; by rewrite H2).
  assert (String.le x z) as H3 by (etransitivity; eauto). unfold String.le in H3. by destruct (String.leb x z).
Qed.
