(* ===== verification/Int32.v ===== *)
(** * JavaScript's 32-bit integers

    The bitwise operators of JavaScript convert their operands to signed
    32-bit integers; [>>>] answers an unsigned one.  The operations used by the
    one-time passwords and the outbound address policy, and a number's bits as
    a list, most significant first. *)

From S2P Require Import Prelude.

(** ** The operators *)

(** ToInt32 and ToUint32. *)
Definition to_uint32 (z : Z) : Z := z mod 2 ^ 32.
Definition to_int32 (z : Z) : Z := let m := z mod 2 ^ 32 in if m <? 2 ^ 31 then m else m - 2 ^ 32.

(** [a << n], [a >>> n], [a | b] and [a & b]. *)
Definition shl (a n : Z) : Z := to_int32 (Z.shiftl (to_int32 a) (n mod 32)).
Definition ushr (a n : Z) : Z := Z.shiftr (to_uint32 a) (n mod 32).
Definition bor (a b : Z) : Z := to_int32 (Z.lor (to_int32 a) (to_int32 b)).
Definition band (a b : Z) : Z := to_int32 (Z.land (to_int32 a) (to_int32 b)).

Lemma to_int32_mod z : to_int32 z mod 2 ^ 32 = z mod 2 ^ 32.
Proof.
  unfold to_int32. destruct (_ <? _); [by rewrite Z.mod_mod|].
  rewrite Zminus_mod, Z.mod_same, Z.sub_0_r, !Z.mod_mod by done. done.
Qed.

Lemma to_int32_small z : 0 ≤ z < 2 ^ 31 → to_int32 z = z.
Proof. intros Hz. unfold to_int32. rewrite Z.mod_small by lia. by rewrite (proj2 (Z.ltb_lt _ _)) by lia. Qed.

Lemma to_int32_testbit z i : 0 ≤ i < 32 → Z.testbit (to_int32 z) i = Z.testbit z i.
Proof.
  intros Hi. rewrite <- (Z.mod_pow2_bits_low (to_int32 z) 32 i) by lia. rewrite to_int32_mod.
  by rewrite Z.mod_pow2_bits_low by lia.
Qed.
Lemma to_uint32_testbit z i : 0 ≤ i < 32 → Z.testbit (to_uint32 z) i = Z.testbit z i.
Proof. intros Hi. unfold to_uint32. by rewrite Z.mod_pow2_bits_low by lia. Qed.

Lemma bor_testbit a b i : 0 ≤ i < 32 → Z.testbit (bor a b) i = Z.testbit a i || Z.testbit b i.
Proof. intros Hi. unfold bor. by rewrite to_int32_testbit, Z.lor_spec, !to_int32_testbit. Qed.
Lemma band_testbit a b i : 0 ≤ i < 32 → Z.testbit (band a b) i = Z.testbit a i && Z.testbit b i.
Proof. intros Hi. unfold band. by rewrite to_int32_testbit, Z.land_spec, !to_int32_testbit. Qed.
Lemma shl_testbit a n i : 0 ≤ n < 32 → 0 ≤ i < 32 → Z.testbit (shl a n) i = (n <=? i) && Z.testbit a (i - n).
Proof.
  intros Hn Hi. unfold shl. rewrite to_int32_testbit, (Z.mod_small n), Z.shiftl_spec by lia.
  destruct (n <=? i) eqn:E; bool_simplify; [by rewrite to_int32_testbit by lia|]. by rewrite Z.testbit_neg_r by lia.
Qed.
Lemma ushr_testbit a n i : 0 ≤ n < 32 → 0 ≤ i → i + n < 32 → Z.testbit (ushr a n) i = Z.testbit a (i + n).
Proof. intros Hn Hi Hin. unfold ushr. rewrite (Z.mod_small n), Z.shiftr_spec by lia. by rewrite to_uint32_testbit by lia. Qed.

(** ** Bits, most significant first *)

Fixpoint bits_of (n : nat) (v : Z) : list bool :=
  match n with O => [] | S n => Z.testbit v (Z.of_nat n) :: bits_of n v end.

Lemma length_bits_of n v : length (bits_of n v) = n.
Proof. induction n; simpl; congruence. Qed.

Lemma bits_of_ext n v w : (∀ i, 0 ≤ i < Z.of_nat n → Z.testbit v i = Z.testbit w i) → bits_of n v = bits_of n w.
Proof. induction n as [|n IH]; intros H; [done|]. cbn [bits_of]. rewrite H, IH by (intros; try apply H; lia). done. Qed.

Lemma bits_of_inv n v w : bits_of n v = bits_of n w → ∀ i, 0 ≤ i < Z.of_nat n → Z.testbit v i = Z.testbit w i.
Proof.
  induction n as [|n IH]; [lia|]. cbn [bits_of]. intros H i Hi. injection H as H0 H1.
  destruct (decide (i = Z.of_nat n)) as [->|]; [done|]. apply IH; [done|lia].
Qed.

Lemma bits_of_app n m v w u :
  (∀ i, 0 ≤ i < Z.of_nat n → Z.testbit v (i + Z.of_nat m) = Z.testbit w i) →
  (∀ i, 0 ≤ i < Z.of_nat m → Z.testbit v i = Z.testbit u i) →
  bits_of (n + m) v = bits_of n w ++ bits_of m u.
Proof.
  intros Hw Hu. induction n as [|n IH]; [by apply bits_of_ext|]. cbn [bits_of Nat.add app].
  f_equal; [|apply IH; intros; apply Hw; lia].
  rewrite <- Hw by lia. f_equal. lia.
Qed.

(** Numbers of [n] bits are determined by them. *)
Lemma testbit_high v n i : 0 ≤ v < 2 ^ n → n ≤ i → Z.testbit v i = false.
Proof. intros Hv Hi. assert (0 ≤ n) by (destruct (decide (0 ≤ n)); [lia|]; rewrite Z.pow_neg_r in Hv by lia; lia).
  rewrite <- (Z.mod_small v (2 ^ n)) by lia. by apply Z.mod_pow2_bits_high. Qed.

Lemma bits_of_inj n v w : 0 ≤ v < 2 ^ Z.of_nat n → 0 ≤ w < 2 ^ Z.of_nat n → bits_of n v = bits_of n w → v = w.
Proof.
  intros Hv Hw H. apply Z.bits_inj'. intros i Hi. destruct (decide (i < Z.of_nat n)).
  - eapply bits_of_inv; [exact H|lia].
  - by rewrite !(testbit_high _ (Z.of_nat n)) by lia.
Qed.

(** Splitting a number at bit [m]. *)
Lemma testbit_low_bits v k : 0 ≤ k → (∀ i, k ≤ i → Z.testbit v i = false) → 0 ≤ v < 2 ^ k.
Proof.
  intros Hk H. assert (v mod 2 ^ k = v) as <-; [|apply Z.mod_pos_bound; lia].
  apply Z.bits_inj'. intros i Hi. destruct (decide (i < k)).
  - by rewrite Z.mod_pow2_bits_low by lia.
  - by rewrite Z.mod_pow2_bits_high, H by lia.
Qed.

(** ** Small operands: the operators are arithmetic *)

Lemma shl_small a n : 0 ≤ n < 32 → 0 ≤ a → a * 2 ^ n < 2 ^ 31 → shl a n = a * 2 ^ n.
Proof.
  intros Hn Ha Hs. assert (1 ≤ 2 ^ n) by (apply (Z.pow_le_mono_r 2 0 n); lia).
  assert (a * 1 ≤ a * 2 ^ n) as Hle by (by apply Z.mul_le_mono_nonneg_l).
  unfold shl. rewrite (Z.mod_small n), Z.shiftl_mul_pow2 by lia. revert Hs Hle. generalize (2 ^ n). intros p Hs Hle.
  rewrite (to_int32_small a) by lia. apply to_int32_small. lia.
Qed.

Lemma bor_disjoint a b k : 0 ≤ k → a mod 2 ^ k = 0 → 0 ≤ b < 2 ^ k → 0 ≤ a → a + b < 2 ^ 31 → bor a b = a + b.
Proof.
  intros Hk Hm Hb Ha Hs. unfold bor. rewrite (to_int32_small a), (to_int32_small b) by lia. pose proof (Z.add_lor_land a b) as H.
  assert (Z.land a b = 0) as Hl; [|rewrite Hl, Z.add_0_r in H; rewrite H; apply to_int32_small; lia].
  apply Z.bits_inj'. intros i Hi. rewrite Z.land_spec, Z.testbit_0_l. destruct (decide (i < k)).
  - rewrite <- (Z.mod_pow2_bits_low a k) by lia. by rewrite Hm, Z.testbit_0_l.
  - by rewrite (testbit_high b k), andb_false_r by lia.
Qed.

Lemma band_ones a k : 0 ≤ k < 31 → 0 ≤ a < 2 ^ 31 → band a (Z.ones k) = a mod 2 ^ k.
Proof.
  intros Hk Ha. assert (2 ^ k < 2 ^ 31) by (apply Z.pow_lt_mono_r; lia). assert (0 < 2 ^ k) by lia.
  pose proof (Z.mod_pos_bound a (2 ^ k) ltac:(lia)). rewrite <- Z.land_ones in * by lia.
  unfold band. rewrite (to_int32_small a), (to_int32_small (Z.ones k)) by (rewrite ?Z.ones_equiv; lia). by apply to_int32_small; lia.
Qed.
