(* ===== verification/Store.v ===== *)
(** * Database tables

    What the code relies on of a Prisma delegate (and of the PostgreSQL table
    behind it): rows are found by their primary key, a predicate selects a
    duplicate-free set of rows, and a conditional write ([updateMany],
    [deleteMany]) touches exactly the rows its [where] selects.  [Table] is
    the interface the components are verified against; [gmap_table] is the
    implementation the witnesses run on. *)

From S2P Require Import Prelude.

Class Table (T R : Type) : Type := {
  tget : T → string → option R;
  tselect : (string → R → bool) → T → list (string * R);
  tupdate : (string → R → bool) → (string → R → R) → T → T;
  tinsert : string → R → T → T;
  tdelete : (string → R → bool) → T → T;
  tget_update P f t k :
    tget (tupdate P f t) k = (λ r, if P k r then f k r else r) <$> tget t k;
  tget_insert k r t k' :
    tget (tinsert k r t) k' = if decide (k = k') then Some r else tget t k';
  tget_delete P t k :
    tget (tdelete P t) k = (tget t k ≫= λ r, if P k r then None else Some r);
  tselect_spec P t k r : (k, r) ∈ tselect P t ↔ tget t k = Some r ∧ P k r = true;
  tselect_nodup P t : NoDup (tselect P t).*1
}.
#[export] Hint Mode Table ! - : typeclass_instances.
#[export] Hint Mode Table - ! : typeclass_instances.
Arguments tget {T R _} t k : simpl never.

(** ** The map implementation *)

#[export] Program Instance gmap_table {R} : Table (gmap string R) R := {|
  tget t k := t !! k;
  tselect P t := filter (λ kr, P kr.1 kr.2 = true) (map_to_list t);
  tupdate P f t := map_imap (λ k r, Some (if P k r then f k r else r)) t;
  tinsert k r t := <[k := r]> t;
  tdelete P t := map_imap (λ k r, if P k r then None else Some r) t
|}.
Next Obligation. intros R P f t k; simpl. rewrite map_lookup_imap. by destruct (t !! k). Qed.
Next Obligation. intros R k r t k'; simpl. apply lookup_insert. Qed.
Next Obligation. intros R P t k; simpl. by rewrite map_lookup_imap. Qed.
Next Obligation.
  intros R P t k r; simpl. rewrite list_elem_of_filter, elem_of_map_to_list. naive_solver.
Qed.
Next Obligation.
  intros R P t; simpl. eapply sublist_NoDup; [apply (NoDup_fst_map_to_list t)|].
  apply fmap_sublist, sublist_filter.
Qed.

(** ** Derived operations and lemmas *)

Section table.
Context {T R : Type} `{Table T R}.
Implicit Types (t : T) (k : string) (r : R).

(** [count] of the rows a [where] selects, and [updateMany]'s answer. *)
Definition tcount (P : string → R → bool) (t : T) : nat := length (tselect P t).
Definition update_many (P : string → R → bool) (f : string → R → R) (t : T) : nat * T :=
  (tcount P t, tupdate P f t).
(** [findFirst] by primary key plus a further condition. *)
Definition find_by_id (k : string) (Q : R → bool) (t : T) : option R :=
  tget t k ≫= λ r, if Q r then Some r else None.
(** A [where] on the primary key plus a further condition. *)
Definition on_id (k : string) (Q : R → bool) : string → R → bool :=
  λ k' r, bool_decide (k' = k) && Q r.

Lemma tselect_elem P t kr : kr ∈ tselect P t ↔ tget t kr.1 = Some kr.2 ∧ P kr.1 kr.2 = true.
Proof. destruct kr as [k r]. apply tselect_spec. Qed.

Lemma tget_update_ne P f t k :
  (∀ r, tget t k = Some r → P k r = false) → tget (tupdate P f t) k = tget t k.
Proof.
  intros HP. rewrite tget_update. destruct (tget t k) as [r|] eqn:E; [|done].
  simpl. by rewrite (HP r eq_refl).
Qed.

Lemma tget_update_on_id k Q f t k' :
  tget (tupdate (on_id k Q) f t) k' =
    if decide (k' = k) then (λ r, if Q r then f k r else r) <$> tget t k else tget t k'.
Proof.
  rewrite tget_update. unfold on_id. case_decide as E.
  - subst. by rewrite bool_decide_refl.
  - rewrite bool_decide_neq by done. simpl. by destruct (tget t k').
Qed.

Lemma tget_insert_eq k r t : tget (tinsert k r t) k = Some r.
Proof. rewrite tget_insert. by case_decide. Qed.
Lemma tget_insert_ne k k' r t : k ≠ k' → tget (tinsert k r t) k' = tget t k'.
Proof. intros. rewrite tget_insert. by case_decide. Qed.

Lemma tcount_zero P t : tcount P t = 0%nat ↔ ∀ k r, tget t k = Some r → P k r = false.
Proof.
  unfold tcount. rewrite length_zero_iff_nil. split.
  - intros E k r Hk. destruct (P k r) eqn:HP; [|done].
    assert ((k, r) ∈ tselect P t) as Hin by (by apply tselect_spec).
    rewrite E in Hin. by apply not_elem_of_nil in Hin.
  - intros HP. destruct (tselect P t) as [|[k r] l] eqn:E; [done|].
    assert ((k, r) ∈ tselect P t) as Hin by (rewrite E; left).
    apply tselect_spec in Hin as [Hk HP']. rewrite (HP k r Hk) in HP'. done.
Qed.

Lemma tcount_pos P t : (0 < tcount P t)%nat ↔ ∃ k r, tget t k = Some r ∧ P k r = true.
Proof.
  split.
  - unfold tcount. destruct (tselect P t) as [|[k r] l] eqn:E; simpl; [lia|].
    intros _. exists k, r. apply tselect_spec. rewrite E. left.
  - intros (k & r & Hk & HP). destruct (tcount P t) eqn:E; [|lia].
    apply tcount_zero with (k := k) (r := r) in E; congruence.
Qed.

(** A conditional update on a primary key matches at most one row, and
    matches one exactly when the row is there and satisfies the condition:
    this is the compare-and-set every component builds on. *)
Lemma tcount_on_id k Q t :
  tcount (on_id k Q) t = match tget t k with Some r => if Q r then 1%nat else 0%nat | None => 0%nat end.
Proof.
  assert (tcount (on_id k Q) t ≤ 1)%nat as Hle.
  { unfold tcount. rewrite <-(length_fmap fst). transitivity (length [k]); [|done].
    apply NoDup_subset_length; [apply tselect_nodup|].
    intros x ([k' r] & -> & Hin)%list_elem_of_fmap.
    apply tselect_spec in Hin as [_ Hon]. unfold on_id in Hon. bool_simplify. left. }
  destruct (tget t k) as [r|] eqn:E; [destruct (Q r) eqn:HQ|].
  - enough (0 < tcount (on_id k Q) t)%nat by lia.
    apply tcount_pos. exists k, r. unfold on_id. by rewrite bool_decide_refl, HQ.
  - apply tcount_zero. intros k' r' Hk'. unfold on_id.
    destruct (decide (k' = k)) as [->|Hne]; [|by rewrite bool_decide_neq].
    rewrite bool_decide_refl. simpl. congruence.
  - apply tcount_zero. intros k' r' Hk'. unfold on_id. rewrite bool_decide_neq; [done|congruence].
Qed.

Lemma tcount_on_id_1 k Q t : tcount (on_id k Q) t = 1%nat ↔ ∃ r, tget t k = Some r ∧ Q r = true.
Proof.
  rewrite tcount_on_id. split.
  - destruct (tget t k) as [r|]; [|done]. destruct (Q r) eqn:HQ; [eauto|done].
  - intros (r & -> & ->). done.
Qed.

Lemma find_by_id_Some k Q t r : find_by_id k Q t = Some r ↔ tget t k = Some r ∧ Q r = true.
Proof.
  unfold find_by_id. split.
  - destruct (tget t k) as [r'|]; simpl; [|done].
    destruct (Q r') eqn:HQ; intros; by simplify_eq.
  - intros [-> HQ]; simpl. by rewrite HQ.
Qed.
End table.
