(* ===== verification/Async.v ===== *)
(** * Interleaved requests

    An async function that awaits database statements: between two statements
    of one request any statements of the others run.  [prog] is such a
    function, cut at its awaits; [wp] is what a request guarantees and answers
    whatever the others do in between, as long as they keep to the same
    guarantee [R]; [reachable_spec] puts the requests together. *)

From S2P Require Import Prelude.

Inductive prog (D A : Type) : Type :=
  | Done (a : A)
  | Call {B : Type} (stmt : D → B * D) (k : B → prog D A).
Arguments Done {D A} a.
Arguments Call {D A B} stmt k.

Fixpoint prog_bind {D A B} (p : prog D A) (k : A → prog D B) : prog D B :=
  match p with
  | Done a => k a
  | Call stmt next => Call stmt (λ b, prog_bind (next b) k)
  end.
#[export] Instance prog_mret {D} : MRet (prog D) := λ A, Done.
#[export] Instance prog_mbind {D} : MBind (prog D) := λ A B k p, prog_bind p k.

(** One awaited statement. *)
Definition await {D B} (stmt : D → B * D) : prog D B := Call stmt Done.

(** A run of one request alone, for examples. *)
Fixpoint run_alone {D A} (p : prog D A) (d : D) : A * D :=
  match p with
  | Done a => (a, d)
  | Call stmt k => run_alone (k (stmt d).1) (stmt d).2
  end.

Section spec.
Context {D : Type} (I : D → Prop) (R : D → D → Prop).

(** [Q] of the answer, and [R] of every statement, under interference. *)
Fixpoint wp {A} (p : prog D A) (d : D) (Q : A → D → Prop) : Prop :=
  match p with
  | Done a => ∀ d', rtc R d d' → I d' → Q a d'
  | Call stmt k => ∀ d', rtc R d d' → I d' →
      R d' (stmt d').2 ∧ wp (k (stmt d').1) (stmt d').2 Q
  end.

Lemma wp_later {A} (p : prog D A) d Q : (∀ d', rtc R d d' → I d' → wp p d' Q) → wp p d Q.
Proof.
  destruct p as [a|B stmt k]; cbn [wp]; intros H d' Hd HI; by apply (H d' Hd HI d' (rtc_refl _ _)).
Qed.

Lemma wp_stable {A} (p : prog D A) d d' Q : rtc R d d' → wp p d Q → wp p d' Q.
Proof. destruct p; cbn [wp]; intros Hd H d'' Hd' HI; apply H; [by etransitivity|done|by etransitivity|done]. Qed.

Lemma wp_mono {A} (p : prog D A) d (Q Q' : A → D → Prop) :
  (∀ a d', Q a d' → Q' a d') → wp p d Q → wp p d Q'.
Proof.
  intros HQ. revert d. induction p as [a|B stmt k IH]; cbn [wp]; intros d H d' Hd HI; [by apply HQ, H|].
  destruct (H d' Hd HI) as [HR Hk]. split; [done|]. by apply IH.
Qed.

(** As [wp_mono], with the states the answer may be given in. *)
Lemma wp_stable_mono {A} (p : prog D A) d (Q Q' : A → D → Prop) :
  wp p d Q → (∀ a d', rtc R d d' → Q a d' → Q' a d') → wp p d Q'.
Proof.
  revert d. induction p as [a|B stmt k IH]; cbn [wp]; intros d H HQ d' Hd HId; [by apply HQ, H|].
  destruct (H d' Hd HId) as [HR Hk]. split; [done|]. apply IH; [done|].
  intros a d2 H2. apply HQ. etransitivity; [exact Hd|]. by eapply rtc_l.
Qed.

Lemma wp_bind {A B} (p : prog D A) (k : A → prog D B) d Q :
  wp p d (λ a d', wp (k a) d' Q) → wp (p ≫= k) d Q.
Proof.
  revert d. induction p as [a|C stmt next IH]; intros d H; [by apply wp_later|].
  intros d' Hd HI. destruct (H d' Hd HI) as [HR Hk]. split; [done|]. by apply IH.
Qed.

Lemma wp_done {A} (a : A) d (Q : A → D → Prop) : (∀ d', rtc R d d' → I d' → Q a d') → wp (Done a) d Q.
Proof. done. Qed.

(** ** The system *)

Context {Input Answer : Type} (handler : nat → Input → prog D Answer).

(** The database, the requests under way (and the answered ones), and the
    number of the next request. *)
Record system := Sys { data : D; requests : list (nat * Input * prog D Answer); next : nat }.

(** A request arrives, runs its next statement, or is lost with its process. *)
Inductive step (s : system) : system → Prop :=
  | step_arrive input :
      step s (Sys (data s) ((next s, input, handler (next s) input) :: requests s) (S (next s)))
  | step_run l1 r B (stmt : D → B * D) k l2 :
      requests s = l1 ++ (r, Call stmt k) :: l2 →
      step s (Sys (stmt (data s)).2 (l1 ++ (r, k (stmt (data s)).1) :: l2) (next s))
  | step_lost l1 r l2 :
      requests s = l1 ++ r :: l2 → step s (Sys (data s) (l1 ++ l2) (next s)).

Definition initial (d : D) : system := Sys d [] 0.

(** A schedule to run; an action that is not possible does nothing. *)
Inductive action := Arrive (input : Input) | Run (i : nat) | Lose (i : nat).
Definition act (s : system) (a : action) : system :=
  match a with
  | Arrive input => Sys (data s) ((next s, input, handler (next s) input) :: requests s) (S (next s))
  | Run i =>
      match requests s !! i with
      | Some (r, Call stmt k) => Sys (stmt (data s)).2 (take i (requests s) ++ (r, k (stmt (data s)).1) :: drop (S i) (requests s)) (next s)
      | _ => s
      end
  | Lose i => match requests s !! i with Some _ => Sys (data s) (take i (requests s) ++ drop (S i) (requests s)) (next s) | None => s end
  end.
Definition perform (schedule : list action) (s : system) : system := foldl act s schedule.
(** The answers given so far, oldest request last. *)
Definition answers (s : system) : list (nat * Answer) :=
  omap (λ r, match r with (n, _, Done a) => Some (n, a) | _ => None end) (requests s).

Lemma perform_steps schedule s : rtc step s (perform schedule s).
Proof.
  revert s. induction schedule as [|a schedule IH]; intros s; [constructor|].
  assert (act s a = s ∨ step s (act s a)) as [Ha|Ha].
  { destruct a as [input|i|i]; cbn; [right; constructor|destruct (requests s !! i) as [[r p]|] eqn:E; [|by left]..].
    - destruct p as [a|B stmt k]; [by left|]. right. apply take_drop_middle in E. by eapply step_run.
    - right. apply take_drop_middle in E. by eapply step_lost. }
  - cbn [perform foldl]. rewrite Ha. apply IH.
  - eapply rtc_l; [exact Ha|apply IH].
Qed.

Context (Q : nat → Input → Answer → D → Prop).
Context (I_kept : ∀ d d', I d → R d d' → I d').
Context (handler_ok : ∀ n input d, I d → wp (handler n input) d (Q n input)).

Definition sound (s : system) : Prop :=
  I (data s) ∧ Forall (λ r, wp r.2 (data s) (Q r.1.1 r.1.2)) (requests s).

Lemma sound_step s s' : step s s' → sound s → sound s' ∧ rtc R (data s) (data s').
Proof.
  intros Hs [HI Hall]. destruct Hs as [input|l1 r B stmt k l2 Hr|l1 r l2 Hr]; cbn.
  - split; [|constructor]. split; [done|]. constructor; [|done]. by apply handler_ok.
  - rewrite Hr in Hall. apply Forall_app in Hall as [H1 [Hp H2]%Forall_cons].
    destruct (Hp (data s)) as [HR Hk]; [constructor|done|].
    assert (∀ l, Forall (λ r, wp r.2 (data s) (Q r.1.1 r.1.2)) l → Forall (λ r, wp r.2 (stmt (data s)).2 (Q r.1.1 r.1.2)) l) as Hst.
    { intros l Hl. eapply Forall_impl; [exact Hl|]. intros x. apply wp_stable. by apply rtc_once. }
    split; [|by apply rtc_once]. split; [by eapply I_kept|]. apply Forall_app. auto.
  - rewrite Hr in Hall. apply Forall_app in Hall as [H1 [_ H2]%Forall_cons].
    split; [|constructor]. split; [done|]. by apply Forall_app.
Qed.

Lemma reachable_sound d s : I d → rtc step (initial d) s → sound s ∧ rtc R d (data s).
Proof.
  intros Hd H. assert (∀ s1, rtc step s1 s → sound s1 → sound s ∧ rtc R (data s1) (data s)) as Hall.
  { clear d Hd H. induction 1 as [s|s1 s2 s3 H12 _ IH]; [done|].
    intros Hs. destruct (sound_step _ _ H12 Hs) as [H2 HR]. destruct (IH H2) as [H3 HR']. split; [done|]. by etransitivity. }
  by apply (Hall (initial d)).
Qed.

(** Every reachable state satisfies [I], follows the guarantee, and every
    answered request got an answer that [Q] allows. *)
Lemma reachable_spec d s :
  I d → rtc step (initial d) s →
  I (data s) ∧ rtc R d (data s) ∧ ∀ n input a, (n, input, Done a) ∈ requests s → Q n input a (data s).
Proof.
  intros Hd H. destruct (reachable_sound d s Hd H) as [[HI Hall] HR]. split_and!; [done..|]. intros n input a Hin.
  rewrite Forall_forall in Hall. by apply (Hall _ Hin (data s) (rtc_refl _ _)).
Qed.
End spec.

(** ** Requests that own what they claimed

    [wp] gives every request the same guarantee.  When a request relies on the
    others leaving alone what it claimed, the guarantee is its own: [G n] is
    what request [n]'s statements do, and [owned] its specification while every
    other request keeps to its own guarantee. *)

Section owned.
Context {D : Type} (I : D → Prop) (G : nat → D → D → Prop).

Definition others (n : nat) (d d' : D) : Prop := ∃ m, m ≠ n ∧ G m d d'.
Definition anyone (d d' : D) : Prop := ∃ m, G m d d'.

Fixpoint owned {A} (n : nat) (p : prog D A) (d : D) (Q : A → D → Prop) : Prop :=
  match p with
  | Done a => ∀ d', rtc (others n) d d' → I d' → Q a d'
  | Call stmt k => ∀ d', rtc (others n) d d' → I d' →
      G n d' (stmt d').2 ∧ owned n (k (stmt d').1) (stmt d').2 Q
  end.

Lemma others_anyone n d d' : rtc (others n) d d' → rtc anyone d d'.
Proof. induction 1 as [|d1 d2 d3 (m & _ & H) _ IH]; [done|]. eapply rtc_l; [by exists m|done]. Qed.

Lemma owned_stable {A} n (p : prog D A) d d' Q : rtc (others n) d d' → owned n p d Q → owned n p d' Q.
Proof. intros Hd. destruct p; cbn [owned]; intros H d'' Hd' HI; apply H; try done; by etransitivity. Qed.

Lemma owned_ret {A} n (a : A) d (Q : A → D → Prop) :
  (∀ d', rtc (others n) d d' → I d' → Q a d') → owned n (mret a) d Q.
Proof. done. Qed.

Lemma owned_await {A B} n (stmt : D → B * D) (k : B → prog D A) d Q :
  (∀ d', rtc (others n) d d' → I d' → G n d' (stmt d').2 ∧ owned n (k (stmt d').1) (stmt d').2 Q) →
  owned n (await stmt ≫= k) d Q.
Proof. done. Qed.

(** Sequencing: what follows starts where the first part's answer holds. *)
Lemma owned_then {A B} n (p : prog D A) (k : A → prog D B) d P Q :
  owned n p d P → (∀ a d', rtc anyone d d' → I d' → P a d' → owned n (k a) d' Q) → owned n (p ≫= k) d Q.
Proof.
  revert d. induction p as [a|C stmt next IH]; intros d H Hk.
  - change (owned n (k a) d Q). assert (∀ d', rtc (others n) d d' → I d' → owned n (k a) d' Q) as Hall.
    { intros d' Hd HI. apply Hk; [by eapply others_anyone|done|by apply H]. }
    destruct (k a); cbn [owned] in *; intros d' Hd HI; by apply (Hall d' Hd HI d' (rtc_refl _ _)).
  - intros d' Hd HI. destruct (H d' Hd HI) as [HG Hn]. split; [done|]. apply IH; [done|].
    intros a d2 H2. apply Hk. etransitivity; [by eapply others_anyone|]. eapply rtc_l; [by exists n|done].
Qed.

Lemma owned_mono {A} n (p : prog D A) d (Q Q' : A → D → Prop) :
  owned n p d Q → (∀ a d', rtc anyone d d' → I d' → Q a d' → Q' a d') → owned n p d Q'.
Proof.
  revert d. induction p as [a|B stmt k IH]; cbn [owned]; intros d H HQ d' Hd HI.
  - apply HQ; [by eapply others_anyone|done|by apply H].
  - destruct (H d' Hd HI) as [HG Hk]. split; [done|]. apply IH; [done|].
    intros a d2 H2. apply HQ. etransitivity; [by eapply others_anyone|]. eapply rtc_l; [by exists n|done].
Qed.

Context {Input Answer : Type} (handler : nat → Input → prog D Answer).
Context (Q : nat → Input → Answer → D → Prop).
Context (I_kept : ∀ n d d', I d → G n d d' → I d').
Context (handler_ok : ∀ n input d, I d → owned n (handler n input) d (Q n input)).

Definition number (r : nat * Input * prog D Answer) : nat := r.1.1.
Record owned_sound (s : system (D := D)) : Prop := {
  os_inv : I (data s);
  os_numbers : NoDup (number <$> requests s);
  os_next : Forall (λ r, number r < next s)%nat (requests s);
  os_owned : Forall (λ r, owned (number r) r.2 (data s) (Q r.1.1 r.1.2)) (requests s)
}.

Lemma owned_step_at s s' :
  step handler s s' → (∀ input, owned (next s) (handler (next s) input) (data s) (Q (next s) input)) → owned_sound s →
  owned_sound s' ∧ (next s ≤ next s')%nat ∧ (data s' = data s ∨ ∃ n, (n < next s)%nat ∧ G n (data s) (data s')).
Proof.
  intros Hs Hnew [HI Hnd Hlt Hall]. destruct Hs as [input|l1 r B stmt k l2 Hr|l1 r l2 Hr]; cbn.
  - split; [|split; [lia|by left]]. split; cbn; [done| | |].
    + constructor; [|done]. intros (r & Hn & Hin)%list_elem_of_fmap. rewrite Forall_forall in Hlt. specialize (Hlt r Hin). unfold number in *. cbn in *. lia.
    + constructor; [cbn; lia|]. eapply Forall_impl; [exact Hlt|]. cbn. lia.
    + constructor; [|done]. apply Hnew.
  - rewrite Hr in *. apply Forall_app in Hall as [H1 [Hp H2]%Forall_cons].
    destruct (Hp (data s)) as [HG Hk]; [constructor|done|].
    assert (∀ x, x ∈ l1 ∨ x ∈ l2 → number x ≠ number (r, Call stmt k)) as Hne.
    { rewrite fmap_app in Hnd. apply NoDup_app in Hnd as (_ & Hd & [Hni _]%NoDup_cons). intros x [Hx|Hx] Heq.
      - apply (Hd (number x)); [by apply list_elem_of_fmap_2|]. rewrite Heq. left.
      - apply Hni. rewrite <-Heq. by apply list_elem_of_fmap_2. }
    assert (∀ l, (∀ x, x ∈ l → number x ≠ number (r, Call stmt k)) → Forall (λ r, owned (number r) r.2 (data s) (Q r.1.1 r.1.2)) l →
      Forall (λ r, owned (number r) r.2 (stmt (data s)).2 (Q r.1.1 r.1.2)) l) as Hst.
    { intros l Hl HF. rewrite Forall_forall in *. intros x Hx. eapply owned_stable; [|by apply HF]. apply rtc_once.
      exists (number (r, Call stmt k)). split; [|done]. intros Heq. by apply (Hl x Hx). }
    split; [|split; [done|right; exists (number (r, Call stmt k)); split; [|done]; rewrite Forall_forall in Hlt; apply Hlt; rewrite elem_of_app, elem_of_cons; auto]].
    split; cbn; [by eapply I_kept| | |].
    + by rewrite fmap_app in Hnd |- *.
    + apply Forall_app in Hlt as [? [? ?]%Forall_cons]. apply Forall_app. split; [done|]. by constructor.
    + apply Forall_app. split; [apply Hst; auto|]. constructor; [exact Hk|]. apply Hst; auto.
  - rewrite Hr in *. apply Forall_app in Hall as [H1 [_ H2]%Forall_cons]. apply Forall_app in Hlt as [L1 [_ L2]%Forall_cons].
    split; [|split; [done|by left]]. split; cbn; [done| |by apply Forall_app|by apply Forall_app].
    rewrite fmap_app in Hnd |- *. eapply sublist_NoDup; [exact Hnd|]. apply sublist_app; [done|]. cbn. by apply sublist_cons.
Qed.

Lemma owned_step s s' : step handler s s' → owned_sound s → owned_sound s' ∧ rtc anyone (data s) (data s').
Proof.
  intros Hs HS. destruct (owned_step_at _ _ Hs (λ input, handler_ok _ input _ (os_inv _ HS)) HS) as (HS' & _ & [->|(n & _ & HG)]); [done|].
  split; [done|]. apply rtc_once. by exists n.
Qed.

Lemma owned_run s s' : rtc (step handler) s s' → owned_sound s → owned_sound s' ∧ rtc anyone (data s) (data s').
Proof.
  induction 1 as [s|s1 s2 s3 H12 _ IH]; [done|]. intros Hs.
  destruct (owned_step _ _ H12 Hs) as [H2 HR]. destruct (IH H2) as [H3 HR']. split; [done|]. by etransitivity.
Qed.

Lemma owned_initial d : I d → owned_sound (initial d).
Proof. intros HI. split; cbn; [done|constructor..]. Qed.

(** As [reachable_spec]. *)
Lemma owned_spec d s :
  I d → rtc (step handler) (initial d) s →
  I (data s) ∧ rtc anyone d (data s) ∧ ∀ n input a, (n, input, Done a) ∈ requests s → Q n input a (data s).
Proof.
  intros Hd H. destruct (owned_run _ _ H (owned_initial d Hd)) as [[HI _ _ Hall] HR]. split_and!; [done..|]. intros n input a Hin.
  rewrite Forall_forall in Hall. by apply (Hall _ Hin (data s) (rtc_refl _ _)).
Qed.
End owned.

(** ** New requests

    [F n] holds until request [n] arrives, whatever the others do: that it has
    left no mark, for instance. *)

Section fresh.
Context {D Input Answer : Type} (I : D → Prop) (G : nat → D → D → Prop) (F : nat → D → Prop).
Context (handler : nat → Input → prog D Answer).
Context (I_kept : ∀ n d d', I d → G n d d' → I d') (F_kept : ∀ m n d d', m ≠ n → G m d d' → F n d → F n d').

Definition fresh_sound (Q : nat → Input → Answer → D → Prop) (s : system (D := D)) : Prop :=
  owned_sound I G Q s ∧ ∀ n, (next s ≤ n)%nat → F n (data s).

Lemma fresh_run Q s s' :
  (∀ n input d, I d → F n d → owned I G n (handler n input) d (Q n input)) →
  rtc (step handler) s s' → fresh_sound Q s → fresh_sound Q s' ∧ rtc (anyone G) (data s) (data s').
Proof.
  intros Hok. induction 1 as [s|s1 s2 s3 H12 _ IH]; [done|]. intros [HS HF].
  destruct (owned_step_at I G handler Q I_kept _ _ H12 (λ input, Hok _ input _ (os_inv _ _ _ _ HS) (HF _ (Nat.le_refl _))) HS) as (HS2 & Hn & Hd).
  destruct IH as [HS3 HR].
  - split; [done|]. intros n Hle. destruct Hd as [->|(m & Hm & HG)]; [apply HF; lia|]. eapply F_kept; [|exact HG|apply HF; lia]. lia.
  - split; [done|]. destruct Hd as [<-|(m & _ & HG)]; [done|]. eapply rtc_l; [by exists m|done].
Qed.
Lemma fresh_initial Q d : I d → (∀ n, F n d) → fresh_sound Q (initial d).
Proof. intros HI HF. split; [by apply owned_initial|]. intros n _. apply HF. Qed.

Lemma owned_weaken {A} (I' : D → Prop) n (p : prog D A) d (Q Q' : A → D → Prop) :
  (∀ d, I' d → I d) → (∀ a d, Q a d → Q' a d) → owned I G n p d Q → owned I' G n p d Q'.
Proof.
  intros HI HQ. revert d. induction p as [a|B stmt k IH]; cbn [owned]; intros d H d' Hd HI'; [by apply HQ, H; [|apply HI]|].
  destruct (H d' Hd (HI _ HI')) as [HG Hk]. split; [done|]. by apply IH.
Qed.

End fresh.

Section after.
Context {D Input Answer : Type} (I : D → Prop) (G : nat → D → D → Prop) (F : nat → D → Prop).
Context (handler : nat → Input → prog D Answer).
Context (I_kept : ∀ n d d', I d → G n d d' → I d') (F_kept : ∀ m n d d', m ≠ n → G m d d' → F n d → F n d').

(** What requests that arrive once [J] holds, and it holds for ever, are
    answered. *)
Lemma fresh_after Q s s' (J : D → Prop) (Q' : nat → Input → Answer → D → Prop) :
  (∀ n input d, I d → F n d → owned I G n (handler n input) d (Q n input)) →
  fresh_sound I G F Q s → rtc (step handler) s s' → J (data s) → (∀ n d d', I d → J d → G n d d' → J d') →
  (∀ n input d, (next s ≤ n)%nat → I d → J d → F n d → owned (λ d, I d ∧ J d) G n (handler n input) d (Q' n input)) →
  ∀ n input a, (next s ≤ n)%nat → (n, input, Done a) ∈ requests s' → Q' n input a (data s').
Proof.
  intros Hok [HS HF] Hs HJ HJk Hok' n input a Hn Hin.
  set (Q2 := λ n input a d, (n < next s)%nat ∨ Q' n input a d). set (I2 := λ d, I d ∧ J d).
  assert (owned_sound I2 G Q2 s) as HS2.
  { destruct HS as [HI Hnd Hlt Hall]. split; [done|done|done|]. rewrite Forall_forall in Hlt, Hall |- *. intros r Hr. specialize (Hlt _ Hr).
    eapply (owned_weaken I G I2); [by intros d []|intros x d _; left; exact Hlt|by apply Hall]. }
  assert (∀ n input d, I2 d → F n d → owned I2 G n (handler n input) d (Q2 n input)) as Hok2.
  { intros m i d [HI HJd] HFd. destruct (decide (m < next s)%nat) as [Hm|Hm].
    - eapply (owned_weaken I G I2); [by intros d' []|intros x d' _; by left|by apply Hok].
    - eapply owned_mono; [apply Hok'; [lia|done..]|]. intros x d' _ _ Hx. by right. }
  assert (∀ n d d', I2 d → G n d d' → I2 d') as Hk2 by (intros m d d' [HI HJd] HG; split; [by eapply I_kept|by eapply HJk]).
  destruct (fresh_run I2 G F handler Hk2 F_kept Q2 s s' Hok2 Hs (conj HS2 HF)) as [[[HI2 _ _ Hall] _] _].
  rewrite Forall_forall in Hall. destruct (Hall _ Hin (data s') (rtc_refl _ _) HI2) as [Hlt|H]; [|exact H]. cbn in Hlt. lia.
Qed.
End after.
