(* ===== verification/Steps.v ===== *)
(** * Async functions that throw

    Async.v's programs whose answer is a value or a thrown error: sequencing,
    [try]/[catch], a read, a statement, and a transaction.  The same function
    runs cut at its awaits, or inside [$transaction], where it acts on one
    state and a thrown error discards its writes. *)

From S2P Require Import Prelude Async.

Module Steps.

Definition steps (D E A : Type) : Type := prog D (result E A).
Definition ok {D E A} (a : A) : steps D E A := Done (Ok a).
Definition fail {D E A} (e : E) : steps D E A := Done (Err e).
Definition and_then {D E A B} (p : steps D E A) (k : A → steps D E B) : steps D E B :=
  prog_bind p (λ r, match r with Ok a => k a | Err e => fail e end).
(** [try { return await p } catch (e) { return h(e) }]. *)
Definition catch {D E A} (p : steps D E A) (h : E → steps D E A) : steps D E A :=
  prog_bind p (λ r, match r with Ok a => ok a | Err e => h e end).
(** The outcome of [p] as a value. *)
Definition tried {D E A} (p : steps D E A) : steps D E (result E A) := catch (and_then p (λ x, ok (Ok x))) (λ e, ok (Err e)).
Definition require {D E} (b : bool) (e : E) : steps D E unit := if b then ok tt else fail e.

(** One statement: a read, or a write with its answer. *)
Definition statement {D E A} (f : D → result E A * D) : steps D E A := await f.
Definition read {D E A} (f : D → A) : steps D E A := statement (λ d, (Ok (f d), d)).
Definition write {D E A} (f : D → A * D) : steps D E A := statement (λ d, (Ok (f d).1, (f d).2)).

(** [$transaction(async db => p)], serializable. *)
Definition commit {D E A} (p : steps D E A) (d : D) : result E A * D :=
  match run_alone p d with (Ok a, d') => (Ok a, d') | (Err e, _) => (Err e, d) end.
Definition atomically {D E A} (p : steps D E A) : steps D E A := statement (commit p).

Declare Scope steps_scope.
Delimit Scope steps_scope with steps.
Notation "x ←! p ; q" := (and_then p (λ x, q)) (at level 20, p at level 100, q at level 200, right associativity) : steps_scope.
#[global] Open Scope steps_scope.

(** ** Inside a transaction *)

Section runs.
Context {D E : Type}.

Lemma run_bind {A B} (p : prog D A) (k : A → prog D B) d :
  run_alone (prog_bind p k) d = run_alone (k (run_alone p d).1) (run_alone p d).2.
Proof. revert d. induction p as [a|C stmt next IH]; intros d; [done|]. apply IH. Qed.

Lemma run_and_then {A B} (p : steps D E A) (k : A → steps D E B) d :
  run_alone (and_then p k) d = match run_alone p d with (Ok a, d') => run_alone (k a) d' | (Err e, d') => (Err e, d') end.
Proof. unfold and_then. rewrite run_bind. by destruct (run_alone p d) as [[a|e] d']. Qed.
Lemma run_catch {A} (p : steps D E A) (h : E → steps D E A) d :
  run_alone (catch p h) d = match run_alone p d with (Ok a, d') => (Ok a, d') | (Err e, d') => run_alone (h e) d' end.
Proof. unfold catch. rewrite run_bind. by destruct (run_alone p d) as [[a|e] d']. Qed.

Lemma run_then {A B} (p : steps D E A) (k : A → steps D E B) d b d' :
  run_alone (and_then p k) d = (Ok b, d') → ∃ a d1, run_alone p d = (Ok a, d1) ∧ run_alone (k a) d1 = (Ok b, d').
Proof. rewrite run_and_then. destruct (run_alone p d) as [[a|e] d1]; [eauto|done]. Qed.
Lemma run_require {A} b e (k : unit → steps D E A) d a d' :
  run_alone (and_then (require b e) k) d = (Ok a, d') → b = true ∧ run_alone (k tt) d = (Ok a, d').
Proof. by destruct b. Qed.
Lemma run_read {A B} (f : D → A) (k : A → steps D E B) d : run_alone (and_then (read f) k) d = run_alone (k (f d)) d.
Proof. done. Qed.
Lemma run_statement {A} (f : D → result E A * D) d : run_alone (statement f) d = f d.
Proof. cbn. by destruct (f d). Qed.
Lemma run_write {A B} (f : D → A * D) (k : A → steps D E B) d : run_alone (and_then (write f) k) d = run_alone (k (f d).1) (f d).2.
Proof. done. Qed.
Lemma commit_ok {A} (p : steps D E A) d a d' : commit p d = (Ok a, d') ↔ run_alone p d = (Ok a, d').
Proof. unfold commit. destruct (run_alone p d) as [[b|e] d1]; naive_solver. Qed.
Lemma commit_err {A} (p : steps D E A) d e d' : commit p d = (Err e, d') → d' = d ∧ ∃ d1, run_alone p d = (Err e, d1).
Proof. unfold commit. destruct (run_alone p d) as [[b|e'] d1]; intros H; simplify_eq; eauto. Qed.

(** ** Programs that only read *)

Fixpoint reading {A} (p : prog D A) : Prop :=
  match p with
  | Done _ => True
  | Call stmt k => (∀ d, (stmt d).2 = d) ∧ ∀ b, reading (k b)
  end.
Lemma reading_bind {A B} (p : prog D A) (k : A → prog D B) : reading p → (∀ a, reading (k a)) → reading (prog_bind p k).
Proof. induction p as [a|C stmt next IH]; [by intros _ H; apply H|]. intros [Hs Hn] Hk. split; [done|]. intros b. by apply IH. Qed.
Lemma reading_and_then {A B} (p : steps D E A) (k : A → steps D E B) : reading p → (∀ a, reading (k a)) → reading (and_then p k).
Proof. intros Hp Hk. apply reading_bind; [done|]. by intros [a|e]. Qed.
Lemma reading_catch {A} (p : steps D E A) (h : E → steps D E A) : reading p → (∀ e, reading (h e)) → reading (catch p h).
Proof. intros Hp Hk. apply reading_bind; [done|]. by intros [a|e]. Qed.
Lemma reading_read {A} (f : D → A) : reading (read (E := E) f).
Proof. done. Qed.
Lemma reading_require b (e : E) : reading (require (D := D) b e).
Proof. by destruct b. Qed.
Lemma reading_tried {A} (p : steps D E A) : reading p → reading (tried p).
Proof. intros H. apply reading_catch; [|done]. by apply reading_and_then. Qed.
Lemma reading_run {A} (p : prog D A) d : reading p → (run_alone p d).2 = d.
Proof. revert d. induction p as [a|C stmt next IH]; intros d; [done|]. intros [Hs Hn]. cbn. by rewrite IH, Hs. Qed.
Lemma reading_atomically {A} (p : steps D E A) : reading p → reading (atomically p).
Proof.
  intros H. split; [|done]. intros d. unfold commit. pose proof (reading_run p d H) as Hd.
  by destruct (run_alone p d) as [[a|e] d1].
Qed.
Lemma run_reading {A B} (p : steps D E A) (k : A → steps D E B) d :
  reading p → run_alone (and_then p k) d = match (run_alone p d).1 with Ok a => run_alone (k a) d | Err e => (Err e, d) end.
Proof. intros H. rewrite run_and_then. pose proof (reading_run p d H) as Hd. by destruct (run_alone p d) as [[a|e] d1]; cbn in *; subst. Qed.
Lemma run_reads {A B} (p : steps D E A) (k : A → steps D E B) d b d' :
  reading p → run_alone (and_then p k) d = (Ok b, d') → ∃ a, run_alone p d = (Ok a, d) ∧ run_alone (k a) d = (Ok b, d').
Proof.
  intros Hp (a & d1 & Ha & H)%run_then. exists a. pose proof (reading_run p d Hp) as Hd. rewrite Ha in Hd. cbn in Hd. by subst.
Qed.
Lemma run_last {A} (p : steps D E A) d a d' : reading p → run_alone p d = (Ok a, d') → d' = d.
Proof. intros Hp H. pose proof (reading_run p d Hp) as Hd. by rewrite H in Hd. Qed.

(** ** What a program can answer, in any state *)

Fixpoint says {A} (P : A → Prop) (p : prog D A) : Prop :=
  match p with Done a => P a | Call stmt k => ∀ b, says P (k b) end.
Definition holds {A} (P : A → Prop) (r : result E A) : Prop := match r with Ok a => P a | Err _ => True end.
Lemma says_bind {A B} (P : A → Prop) (Q : B → Prop) (p : prog D A) k : says P p → (∀ a, P a → says Q (k a)) → says Q (prog_bind p k).
Proof. induction p as [a|C stmt next IH]; cbn; [by intros H Hk; apply Hk|]. intros Hp Hk b. by apply IH. Qed.
Lemma says_any {A} (p : prog D A) : says (λ _, True) p.
Proof. induction p; cbn; eauto. Qed.
Lemma says_true {A} (p : steps D E A) : says (holds (λ _, True)) p.
Proof. induction p as [[a|e]|C stmt next IH]; cbn; auto. Qed.
Lemma says_and_then {A B} (Q : B → Prop) (p : steps D E A) k : (∀ a, says (holds Q) (k a)) → says (holds Q) (and_then p k).
Proof. intros H. eapply says_bind; [apply says_any|]. by intros [a|e]. Qed.
Lemma says_tried {A} (P : A → Prop) (p : steps D E A) : says (holds P) p → says (holds (holds P)) (tried p).
Proof.
  intros H. eapply (says_bind (holds (holds P))).
  - eapply says_bind; [exact H|]. by intros [a|e].
  - by intros [a|e].
Qed.
End runs.

Create HintDb reads.
#[export] Hint Resolve reading_read reading_require reading_and_then reading_catch reading_atomically : reads.
#[export] Hint Extern 0 (reading (ok _)) => exact Logic.I : reads.
#[export] Hint Extern 0 (reading (fail _)) => exact Logic.I : reads.
(** A program built of reads. *)
Ltac reads :=
  repeat first
    [ progress intros | exact Logic.I
    | apply reading_read | apply reading_require | apply reading_atomically | apply reading_and_then | apply reading_catch
    | solve [eauto with reads] | case_match ].

(** ** Under interference *)

Section owned.
Context {D E : Type} (I : D → Prop) (G : nat → D → D → Prop).
Abbreviation owned := (owned I G).

Lemma owned_ok {A} n (a : A) d (Q : result E A → D → Prop) :
  (∀ d', rtc (others G n) d d' → I d' → Q (Ok a) d') → owned n (ok a) d Q.
Proof. done. Qed.
Lemma owned_fail {A} n (e : E) d (Q : result E A → D → Prop) :
  (∀ d', rtc (others G n) d d' → I d' → Q (Err e) d') → owned n (fail e) d Q.
Proof. done. Qed.

Lemma owned_and_then {A B} n (p : steps D E A) (k : A → steps D E B) d (P : result E A → D → Prop) Q :
  owned n p d P →
  (∀ a d', rtc (anyone G) d d' → I d' → P (Ok a) d' → owned n (k a) d' Q) →
  (∀ e d', rtc (anyone G) d d' → I d' → P (Err e) d' → Q (Err e) d') → (∀ e d d', rtc (anyone G) d d' → Q (Err e) d → Q (Err e) d') →
  owned n (and_then p k) d Q.
Proof.
  intros Hp Hk He Hst. unfold and_then. eapply owned_then; [exact Hp|]. intros [a|e] d' Hd HI HP; [by apply Hk|].
  apply owned_fail. intros d2 H2 I2. eapply Hst; [by eapply others_anyone|by apply He].
Qed.
Lemma owned_statement {A B} n (f : D → result E A * D) (k : A → steps D E B) d Q :
  (∀ d', rtc (others G n) d d' → I d' →
     G n d' (f d').2 ∧ owned n (match (f d').1 with Ok a => k a | Err e => fail e end) (f d').2 Q) →
  owned n (and_then (statement f) k) d Q.
Proof. intros H d' Hd HI. destruct (H d' Hd HI) as [HG Hk]. split; [done|]. exact Hk. Qed.

Context (G_refl : ∀ n d, G n d d).

(** A program that only reads keeps to any guarantee; what it answers may be
    anything. *)
Lemma owned_reading {A} n (p : prog D A) d (Q : A → D → Prop) :
  reading p → (∀ a d', rtc (others G n) d d' → I d' → Q a d') → owned n p d Q.
Proof.
  revert d. induction p as [a|C stmt next IH]; intros d; [intros _ H d' Hd HI; by apply H|].
  intros [Hs Hn] HQ d' Hd HI. rewrite Hs. split; [apply G_refl|]. apply IH; [apply Hn|].
  intros a d2 H2. apply HQ. by etransitivity.
Qed.
Lemma owned_later {A} n (p : prog D A) d (Q : A → D → Prop) : (∀ d', rtc (others G n) d d' → I d' → owned n p d' Q) → owned n p d Q.
Proof. destruct p; cbn [Async.owned]; intros H d' Hd HI; by apply (H d' Hd HI d' (rtc_refl _ _)). Qed.
Lemma owned_reads {A B} n (p : steps D E A) (k : A → steps D E B) (P : A → Prop) d (Q : result E B → D → Prop) :
  reading p → says (holds P) p → (∀ a d', rtc (others G n) d d' → I d' → P a → owned n (k a) d' Q) →
  (∀ e d', rtc (others G n) d d' → I d' → Q (Err e) d') → owned n (and_then p k) d Q.
Proof.
  intros Hp Hs Hk He. revert d Hk He. induction p as [[a|e]|C stmt next IH]; intros d Hk He.
  - apply owned_later. intros. by apply Hk.
  - intros d' Hd HI. by apply He.
  - destruct Hp as [Hr Hn]. intros d' Hd HI. rewrite Hr. split; [apply G_refl|]. apply (IH (stmt d').1).
    + apply Hn.
    + apply Hs.
    + intros a d2 H2. apply Hk. by etransitivity.
    + intros e d2 H2. apply He. by etransitivity.
Qed.
Lemma owned_tried {A B} n (p : steps D E A) (k : result E A → steps D E B) d (P : result E A → D → Prop) (Q : result E B → D → Prop) :
  owned n p d P → (∀ x d', rtc (anyone G) d d' → I d' → P x d' → owned n (k x) d' Q) → owned n (and_then (tried p) k) d Q.
Proof.
  revert d. induction p as [x|C stmt next IH]; intros d H Hk.
  - assert (∀ d', rtc (others G n) d d' → I d' → owned n (k x) d' Q) as Hall.
    { intros d' Hd HI. apply Hk; [by eapply others_anyone|done|by apply H]. }
    by destruct x; apply owned_later.
  - intros d' Hd HI. destruct (H d' Hd HI) as [HG Hn]. split; [done|]. apply IH; [done|].
    intros a d2 H2. apply Hk. etransitivity; [by eapply others_anyone|]. eapply rtc_l; [by exists n|done].
Qed.
Lemma owned_read {A B} n (f : D → A) (k : A → steps D E B) d Q :
  (∀ d', rtc (others G n) d d' → I d' → owned n (k (f d')) d' Q) → owned n (and_then (read f) k) d Q.
Proof. intros H d' Hd HI. split; [apply G_refl|]. by apply H. Qed.
End owned.

(** What a request is told: of a thrown error, nothing is claimed. *)
Section told.
Context {D E : Type} (I : D → Prop) (G : nat → D → D → Prop) (G_refl : ∀ n d, G n d d).
Abbreviation owned := (owned I G).
Abbreviation later n := (rtc (others G n)).

Definition told {A} (F : A → D → Prop) (a : result E A) (d : D) : Prop := match a with Ok x => F x d | Err _ => True end.

Lemma told_fail {A} n (e : E) d (F : A → D → Prop) : owned n (fail e) d (told F).
Proof. by apply owned_fail. Qed.
Lemma told_ok {A} n (a : A) d (F : A → D → Prop) : (∀ d1, later n d d1 → I d1 → F a d1) → owned n (ok a) d (told F).
Proof. intros H. by apply owned_ok. Qed.
Lemma told_require {A} n b (e : E) (k : unit → steps D E A) d (F : A → D → Prop) :
  (b = true → owned n (k tt) d (told F)) → owned n (and_then (require b e) k) d (told F).
Proof. intros H. destruct b; [by apply owned_later; intros; eapply owned_stable; [|apply H]|apply told_fail]. Qed.
Lemma told_read {A B} n (f : D → A) (k : A → steps D E B) d (F : B → D → Prop) :
  (∀ d1, later n d d1 → I d1 → owned n (k (f d1)) d1 (told F)) → owned n (and_then (read f) k) d (told F).
Proof. apply owned_read. apply G_refl. Qed.
Lemma told_statement {A B} n (f : D → result E A * D) (k : A → steps D E B) d (F : B → D → Prop) :
  (∀ d1, later n d d1 → I d1 → G n d1 (f d1).2 ∧ owned n (match (f d1).1 with Ok a => k a | Err e => fail e end) (f d1).2 (told F)) →
  owned n (and_then (statement f) k) d (told F).
Proof. intros H. by apply owned_statement. Qed.
Lemma told_write {A B} n (f : D → A * D) (k : A → steps D E B) d (F : B → D → Prop) :
  (∀ d1, later n d d1 → I d1 → G n d1 (f d1).2 ∧ owned n (k (f d1).1) (f d1).2 (told F)) → owned n (and_then (write f) k) d (told F).
Proof. intros H. by apply told_statement. Qed.
Lemma told_reads {A B} n (p : steps D E A) (k : A → steps D E B) (P : A → Prop) d (F : B → D → Prop) :
  reading p → says (holds P) p → (∀ a d1, later n d d1 → I d1 → P a → owned n (k a) d1 (told F)) → owned n (and_then p k) d (told F).
Proof. intros Hp Hs Hk. by eapply owned_reads; [apply G_refl|exact Hp|exact Hs|exact Hk|]. Qed.
Lemma told_and_then {A B} n (p : steps D E A) (k : A → steps D E B) d (F : A → D → Prop) (F' : B → D → Prop) :
  owned n p d (told F) → (∀ a d', rtc (anyone G) d d' → I d' → F a d' → owned n (k a) d' (told F')) → owned n (and_then p k) d (told F').
Proof. intros Hp Hk. by eapply owned_and_then; [exact Hp|..]. Qed.
Lemma told_atomically {A B} n (p : steps D E A) (k : A → steps D E B) d (F : B → D → Prop) :
  (∀ d1 a d2, later n d d1 → I d1 → run_alone p d1 = (Ok a, d2) → G n d1 d2 ∧ owned n (k a) d2 (told F)) →
  owned n (and_then (atomically p) k) d (told F).
Proof.
  intros H. apply owned_statement. intros d1 H1 I1. destruct (commit p d1) as [[a|e] d2] eqn:E1; cbn [fst snd].
  - apply commit_ok in E1. by apply H.
  - apply commit_err in E1 as [-> _]. split; [apply G_refl|apply told_fail].
Qed.
(** [try { $transaction(p) } catch (e) { h(e) }]. *)
Lemma told_catch {A} n (p : steps D E A) (h : E → steps D E A) d (F : A → D → Prop) :
  (∀ d1 a d2, later n d d1 → I d1 → run_alone p d1 = (Ok a, d2) → G n d1 d2 ∧ owned n (ok a) d2 (told F)) →
  (∀ e d1, later n d d1 → I d1 → owned n (h e) d1 (told F)) →
  owned n (catch (atomically p) h) d (told F).
Proof.
  intros H He d1 H1 I1. destruct (commit p d1) as [[a|e] d2] eqn:E1; cbn [fst snd].
  - apply commit_ok in E1. by apply H.
  - apply commit_err in E1 as [-> _]. split; [apply G_refl|]. by apply He.
Qed.
Lemma told_mono {A} n (p : steps D E A) d (F F' : A → D → Prop) :
  owned n p d (told F) → (∀ a d', rtc (anyone G) d d' → I d' → F a d' → F' a d') → owned n p d (told F').
Proof. intros Hp H. eapply owned_mono; [exact Hp|]. intros [a|e] d' Hd HI; [by apply H|done]. Qed.
End told.
End Steps.
