(* ===== verification/Trails.v ===== *)
(** * Logs of what happened

    A ghost trail lists the events of a system, newest first; each event is
    justified by the older ones.  Lemmas on such trails, shared by the
    developments that keep one. *)

From S2P Require Import Prelude.

Module Trails.

Section trails.
Context {E : Type}.
Implicit Types (p q : E → bool) (l k : list E) (e : E).

(** No event of a kind. *)
Definition none p l : Prop := ∀ e, e ∈ l → p e = false.

Lemma none_app p l k : none p (l ++ k) ↔ none p l ∧ none p k.
Proof. unfold none. setoid_rewrite elem_of_app. naive_solver. Qed.
Lemma none_cons p e l : none p (e :: l) ↔ p e = false ∧ none p l.
Proof. unfold none. setoid_rewrite elem_of_cons. naive_solver. Qed.
Lemma none_nil p : none p [].
Proof. intros e He. by apply not_elem_of_nil in He. Qed.
Lemma none_one p e : none p [e] ↔ p e = false.
Proof. rewrite none_cons. split; [by intros [? _]|]. intros H. split; [done|apply none_nil]. Qed.
Lemma none_or p q l : none (λ e, p e || q e) l ↔ none p l ∧ none q l.
Proof. unfold none. setoid_rewrite orb_false_iff. naive_solver. Qed.
Lemma none_in p l e : none p l → e ∈ l → p e = true → False.
Proof. intros H He Hp. rewrite (H e He) in Hp. done. Qed.
Lemma none_mono p l k : none p (k ++ l) → none p l.
Proof. by intros [_ H]%none_app. Qed.
(** Events of a kind that is never logged without another stay away with it. *)
Lemma none_implied p q l : (∀ e, e ∈ l → p e = true → ∃ e', e' ∈ l ∧ q e' = true) → none q l → none p l.
Proof. intros H Hq e He. destruct (p e) eqn:Hp; [|done]. destruct (H e He Hp) as (e' & He' & Hq'). by destruct (none_in q l e'). Qed.

(** A trail whose every event is justified by its past. *)
Context (justified : E → list E → Prop).
Fixpoint trail_ok l : Prop := match l with [] => True | e :: older => justified e older ∧ trail_ok older end.

Lemma trail_ok_app l k : trail_ok (l ++ k) → trail_ok k.
Proof. induction l as [|e l IH]; [done|]. intros [_ H]. by apply IH. Qed.
Lemma trail_at l e : trail_ok l → e ∈ l → ∃ l1 l2, l = l1 ++ e :: l2 ∧ justified e l2.
Proof. intros Hl (l1 & l2 & ->)%list_elem_of_split. exists l1, l2. split; [done|]. by apply trail_ok_app in Hl as [H _]. Qed.

(** An event that is only logged when there is none of its kind is the only one. *)
Lemma only_one p l e e' :
  (∀ e l, justified e l → p e = true → none p l) → trail_ok l → e ∈ l → e' ∈ l → p e = true → p e' = true → e = e'.
Proof.
  intros Hj Hl. induction l as [|x l IH]; [by intros ?%not_elem_of_nil|]. destruct Hl as [Hx Hl].
  intros [->|He]%elem_of_cons [->|He']%elem_of_cons Hp Hp'; [done|..]; [| |by apply IH].
  - by destruct (none_in p l e' (Hj _ _ Hx Hp)).
  - by destruct (none_in p l e (Hj _ _ Hx Hp')).
Qed.
Lemma at_most_one p l : (∀ e l, justified e l → p e = true → none p l) → trail_ok l → (length (List.filter p l) ≤ 1)%nat.
Proof.
  intros Hj. induction l as [|e l IH]; cbn; [lia|]. intros [He Hl]. destruct (p e) eqn:Hp; [|by apply IH]. cbn.
  specialize (Hj _ _ He Hp). clear -Hj. induction l as [|x l IH]; cbn; [lia|]. apply none_cons in Hj as [-> Hj]. by apply IH.
Qed.
End trails.
End Trails.
