(* ===== verification/Pages.v ===== *)
(** * Lists in pages

    The service's lists are read a page at a time, in the order of ids: one row
    more than the page is read to know whether another page follows, whose
    cursor is the last id of this one.  [page] is that query, [walk] a reader
    who follows the cursors, and [walk_pages] shows that the reader gets every
    row once, in order, with a page for every row more than enough. *)

From S2P Require Import Prelude Store.

Definition by_id {R} (x y : string * R) : bool := String.leb x.1 y.1.
Definition beyond (after : option string) (id : string) : bool := match after with Some x => String.ltb x id | None => true end.
Definition page {R} (limit : nat) (after : option string) (P : string → R → bool) (t : gmap string R) : list (string * R) * option string :=
  let rows := take (limit + 1) (isort by_id (tselect (λ id r, P id r && beyond after id) t)) in
  (take limit rows, if (limit <? length rows)%nat then fst <$> last (take limit rows) else None).

(** Following the cursors; [None] when a page is refused or the fuel runs out. *)
Fixpoint walk {E A} (fuel : nat) (get : option string → result E (list A * option string)) (after : option string) : option (list A) :=
  match fuel with
  | O => None
  | S fuel =>
      match get after with
      | Err _ => None
      | Ok (items, None) => Some items
      | Ok (items, Some cursor) => rest ← walk fuel get (Some cursor); Some (items ++ rest)
      end
  end.

Section pages.
Context {R : Type}.
Implicit Types (x y : string * R) (l : list (string * R)) (t : gmap string R).

Lemma by_id_total x y : by_id x y = true ∨ by_id y x = true.
Proof. apply string_leb_total. Qed.
Lemma by_id_trans x y z : by_id x y = true → by_id y z = true → by_id x z = true.
Proof. apply string_leb_trans. Qed.
Lemma ltb_leb a b : String.ltb a b = negb (String.leb b a).
Proof. unfold String.ltb, String.leb. rewrite (String.compare_antisym b a). by destruct (String.compare a b). Qed.

Lemma rows_all (Q : string * R → Prop) `{∀ x, Decision (Q x)} l : (∀ x, x ∈ l → Q x) → filter Q l = l.
Proof. induction l as [|x l IH]; intros HQ; [done|]. rewrite filter_cons, decide_True by (apply HQ; left). f_equal. apply IH. intros y Hy. apply HQ. by right. Qed.
Lemma rows_none (Q : string * R → Prop) `{∀ x, Decision (Q x)} l : (∀ x, x ∈ l → ¬ Q x) → filter Q l = [].
Proof. induction l as [|x l IH]; intros HQ; [done|]. rewrite filter_cons, decide_False by (apply HQ; left). apply IH. intros y Hy. apply HQ. by right. Qed.
(** The rows a query selects, sorted. *)
Definition listed (P : string → R → bool) t : list (string * R) := isort by_id (tselect P t).
Lemma listed_nodup P t : NoDup (listed P t).*1.
Proof. unfold listed. rewrite isort_perm. apply tselect_nodup. Qed.
Lemma elem_of_listed P t x : x ∈ listed P t ↔ t !! x.1 = Some x.2 ∧ P x.1 x.2 = true.
Proof. unfold listed. rewrite elem_of_isort. exact (tselect_elem P t x). Qed.
Lemma listed_beyond P after t : listed (λ id r, P id r && beyond after id) t = filter (λ x, beyond after x.1 = true) (listed P t).
Proof.
  unfold listed. rewrite <-isort_filter by (apply by_id_total || apply by_id_trans). f_equal. cbn.
  rewrite list_filter_filter. apply list_filter_iff. intros [id r]. cbn. rewrite andb_true_iff. tauto.
Qed.

(** After the last of the rows read so far come the others. *)
Lemma beyond_last P t l x k :
  listed P t = (l ++ [x]) ++ k → filter (λ y, beyond (Some x.1) y.1 = true) (listed P t) = k.
Proof.
  intros H. pose proof (listed_nodup P t) as Hnd. pose proof (isort_sorted by_id by_id_total by_id_trans (tselect P t)) as Hs.
  change (isort by_id (tselect P t)) with (listed P t) in Hs. rewrite H in *. clear H.
  apply StronglySorted_app in Hs as (Hle & Hs1 & Hs2). apply StronglySorted_app in Hs1 as (Hlx & _ & _).
  rewrite !fmap_app in Hnd. apply NoDup_app in Hnd as (Hnd & Hdis & _).
  assert (∀ y, beyond (Some x.1) y.1 = negb (String.leb y.1 x.1)) as Hb by (intros y; apply ltb_leb).
  rewrite filter_app, (rows_none _ (l ++ [x])); [rewrite app_nil_l; apply rows_all|].
  - intros y Hy. cbv beta. rewrite Hb. apply negb_true_iff, not_true_iff_false. intros Hyx.
    assert (String.leb x.1 y.1 = true) as Hxy by (apply (Hle x y); [apply elem_of_app; right; left|done]).
    assert (x.1 = y.1) as E by by apply String.leb_antisym.
    apply (Hdis x.1); [apply elem_of_app; right; left|]. rewrite E. by apply list_elem_of_fmap_2.
  - intros y Hy. cbv beta. rewrite Hb. apply elem_of_app in Hy as [Hy| ->%list_elem_of_singleton].
    + assert (String.leb y.1 x.1 = true) as -> by (apply (Hlx y x); [done|left]). done.
    + destruct (string_leb_total x.1 x.1) as [->| ->]; done.
Qed.

Section walk.
Context {E A : Type} (get : option string → result E (list A * option string)) (f : string * R → A).
Context (limit : nat) (P : string → R → bool) (t : gmap string R) (limit_pos : (1 ≤ limit)%nat).
Context (get_page : ∀ after, (∀ id, after = Some id → ∃ r, t !! id = Some r ∧ P id r = true) →
  get after = Ok (f <$> (page limit after P t).1, (page limit after P t).2)).

Lemma walk_from fuel done_ after rest :
  listed P t = done_ ++ rest → after = fst <$> last done_ → (length rest < fuel)%nat → walk fuel get after = Some (f <$> rest).
Proof.
  revert done_ after rest. induction fuel as [|fuel IH]; intros done_ after rest Hl Hafter Hfuel; [lia|]. cbn [walk].
  assert (filter (λ y, beyond after y.1 = true) (listed P t) = rest) as Hrest.
  { destruct done_ as [|x done_ _] using rev_ind; rewrite Hafter.
    - rewrite Hl. by apply rows_all.
    - rewrite last_snoc. by eapply beyond_last. }
  rewrite get_page.
  2: { intros id ->. destruct (last done_) as [x|] eqn:Ex; [|done]. injection Hafter as ->. exists x.2.
    apply (elem_of_listed P t x). rewrite Hl. apply elem_of_app. left. by apply last_Some_elem_of. }
  unfold page. rewrite (listed_beyond P after t : isort _ _ = _), Hrest. cbn [fst snd].
  rewrite take_take, Nat.min_l by lia. rewrite length_take. destruct (limit <? _)%nat eqn:Hlen.
  - apply Nat.ltb_lt in Hlen. assert (limit < length rest)%nat as Hlt by lia.
    destruct (last (take limit rest)) as [x|] eqn:Ex.
    2: { apply last_None in Ex. apply (f_equal length) in Ex. rewrite length_take in Ex. cbn in Ex. lia. }
    cbn [fmap option_fmap option_map]. rewrite (IH (done_ ++ take limit rest) (Some x.1) (drop limit rest)).
    + cbn. by rewrite <-fmap_app, take_drop.
    + by rewrite <-(assoc_L app), take_drop.
    + apply last_Some in Ex as [l' ->]. by rewrite (assoc_L app), last_snoc.
    + rewrite length_drop. lia.
  - apply Nat.ltb_ge in Hlen. by rewrite take_ge by lia.
Qed.
Lemma walk_pages fuel : (size t < fuel)%nat → walk fuel get None = Some (f <$> listed P t).
Proof.
  intros Hfuel. apply (walk_from fuel [] None); [done..|]. eapply Nat.le_lt_trans; [|exact Hfuel]. unfold listed.
  rewrite length_isort. cbn. rewrite <-length_map_to_list. apply length_filter.
Qed.
End walk.
End pages.
