(* ===== verification/Json.v ===== *)
(** * JSON values and their canonical text

    The payload values the outbox stores and compares
    (src/src/services/domain-event.service.js, [canonicalJson]).  A number is
    represented by the text [JSON.stringify] prints for it, so two numbers are
    equal here exactly when they print alike. *)

From S2P Require Import Prelude.
From Stdlib Require Import Ascii String.

#[local] Arguments String.append : simpl nomatch.
#[local] Set Warnings "-register-all".

Module Json.

Inductive json : Type :=
  | JNull
  | JBool (b : bool)
  | JNum (lexeme : string)
  | JStr (s : string)
  | JArr (l : list json)
  | JObj (fields : list (string * json)).

Section json_ind.
Variable P : json → Prop.
Hypothesis Hnull : P JNull.
Hypothesis Hbool : ∀ b, P (JBool b).
Hypothesis Hnum : ∀ n, P (JNum n).
Hypothesis Hstr : ∀ s, P (JStr s).
Hypothesis Harr : ∀ l, Forall P l → P (JArr l).
Hypothesis Hobj : ∀ l, Forall (λ kv, P kv.2) l → P (JObj l).

Fixpoint json_nested_ind (j : json) : P j :=
  match j with
  | JNull => Hnull
  | JBool b => Hbool b
  | JNum n => Hnum n
  | JStr s => Hstr s
  | JArr l => Harr l ((fix go l : Forall P l :=
      match l with [] => Forall_nil_2 _ | x :: l' => Forall_cons_2 _ _ _ (json_nested_ind x) (go l') end) l)
  | JObj l => Hobj l ((fix go l : Forall (λ kv, P kv.2) l :=
      match l with [] => Forall_nil_2 _ | kv :: l' => Forall_cons_2 _ _ _ (json_nested_ind kv.2) (go l') end) l)
  end.
End json_ind.

(** ** Equality of values *)

Fixpoint json_eqb (a b : json) : bool :=
  match a, b with
  | JNull, JNull => true
  | JBool x, JBool y => Bool.eqb x y
  | JNum x, JNum y | JStr x, JStr y => bool_decide (x = y)
  | JArr l, JArr k =>
      (fix go (l k : list json) : bool :=
         match l, k with
         | [], [] => true
         | x :: l', y :: k' => json_eqb x y && go l' k'
         | _, _ => false
         end) l k
  | JObj l, JObj k =>
      (fix go (l k : list (string * json)) : bool :=
         match l, k with
         | [], [] => true
         | x :: l', y :: k' => bool_decide (x.1 = y.1) && json_eqb x.2 y.2 && go l' k'
         | _, _ => false
         end) l k
  | _, _ => false
  end.

Lemma json_eqb_eq a : ∀ b, json_eqb a b = true ↔ a = b.
Proof.
  induction a as [|x|n|s|l IH|l IH] using json_nested_ind; intros b.
  - by destruct b.
  - destruct b; simpl; rewrite ?Bool.eqb_true_iff; split; congruence.
  - destruct b; simpl; rewrite ?bool_decide_eq_true; split; congruence.
  - destruct b; simpl; rewrite ?bool_decide_eq_true; split; congruence.
  - destruct b as [| | | |k|]; try (split; [done|congruence]). revert k.
    induction IH as [|x l Hx Hl IHl]; intros [|y k]; simpl; try (split; [done|congruence]).
    rewrite andb_true_iff', Hx. specialize (IHl k). simpl in IHl. rewrite IHl. split; [|by intros [= <- <-]].
    intros [-> [= ->]]. done.
  - destruct b as [| | | | |k]; try (split; [done|congruence]). revert k.
    induction IH as [|[n x] l Hx Hl IHl]; intros [|[n' y] k]; simpl; try (split; [done|congruence]).
    simpl in Hx. rewrite !andb_true_iff', bool_decide_eq_true, Hx. specialize (IHl k). simpl in IHl. rewrite IHl.
    split; [|by intros [= <- <- <-]]. intros [[-> ->] [= ->]]. done.
Qed.

#[export] Instance json_eq_dec : EqDecision json.
Proof.
  intros a b. destruct (json_eqb a b) eqn:E; [left|right].
  - by apply json_eqb_eq.
  - intros H. apply json_eqb_eq in H. congruence.
Defined.

(** ** [JSON.stringify] of a string *)

Definition quote : ascii := "034"%char.
Definition backslash : ascii := "092"%char.

Definition hex_digit (n : nat) : ascii :=
  if Nat.ltb n 10 then ascii_of_nat (48 + n) else ascii_of_nat (87 + n).

Definition escape_char (c : ascii) : string :=
  let n := nat_of_ascii c in
  if Nat.eqb n 34 then String backslash (String quote EmptyString)
  else if Nat.eqb n 92 then String backslash (String backslash EmptyString)
  else if Nat.eqb n 8 then String backslash "b"
  else if Nat.eqb n 9 then String backslash "t"
  else if Nat.eqb n 10 then String backslash "n"
  else if Nat.eqb n 12 then String backslash "f"
  else if Nat.eqb n 13 then String backslash "r"
  else if Nat.ltb n 32 then
    String backslash ("u00" +:+ String (hex_digit (n / 16)) (String (hex_digit (n mod 16)) EmptyString))
  else String c EmptyString.

Fixpoint escape_string (s : string) : string :=
  match s with
  | EmptyString => EmptyString
  | String c s' => escape_char c +:+ escape_string s'
  end.

Definition stringify_string (s : string) : string :=
  String quote (escape_string s +:+ String quote EmptyString).

(** ** [canonicalJson] *)

Definition key_le {A} (x y : string * A) : bool := String.leb x.1 y.1.

(** The text of an array or object body from the texts of its parts. *)
Definition array_text (parts : list string) : string := "[" +:+ String.concat "," parts +:+ "]".
Definition field_text (kv : string * string) : string := stringify_string kv.1 +:+ ":" +:+ kv.2.
Definition object_text (fields : list (string * string)) : string :=
  "{" +:+ String.concat "," (field_text <$> fields) +:+ "}".

(* src/src/services/domain-event.service.js:64-70 canonicalJson *)
Fixpoint canonicalJson (value : json) : string :=
  match value with
  | JArr l => array_text (List.map canonicalJson l)
  | JObj fields =>
      object_text (isort key_le (List.map (λ kv, (kv.1, canonicalJson kv.2)) fields))
  | JNull => "null"
  | JBool true => "true"
  | JBool false => "false"
  | JNum n => n
  | JStr s => stringify_string s
  end.

(** The value with every object's keys in sorted order. *)
Fixpoint canon (value : json) : json :=
  match value with
  | JArr l => JArr (List.map canon l)
  | JObj fields => JObj (isort key_le (List.map (λ kv, (kv.1, canon kv.2)) fields))
  | v => v
  end.

(** Plain serialisation, keys in the order they are stored. *)
Fixpoint print (value : json) : string :=
  match value with
  | JArr l => array_text (List.map print l)
  | JObj fields => object_text (List.map (λ kv, (kv.1, print kv.2)) fields)
  | JNull => "null"
  | JBool true => "true"
  | JBool false => "false"
  | JNum n => n
  | JStr s => stringify_string s
  end.

(** The characters [JSON.stringify] uses for a finite number. *)
Definition num_char (c : ascii) : bool :=
  let n := nat_of_ascii c in
  (Nat.leb 48 n && Nat.leb n 57) || Nat.eqb n 45 || Nat.eqb n 43 || Nat.eqb n 46 || Nat.eqb n 101.
Fixpoint all_num_chars (s : string) : bool :=
  match s with EmptyString => true | String c s' => num_char c && all_num_chars s' end.
(** A number's text: not empty, and it starts with a digit or a minus sign. *)
Definition num_lexeme (s : string) : bool :=
  match s with
  | EmptyString => false
  | String c _ => num_char c && negb (Nat.eqb (nat_of_ascii c) 101)
  end && all_num_chars s.

Fixpoint wf (value : json) : bool :=
  match value with
  | JNum n => num_lexeme n
  | JArr l => forallb wf l
  | JObj fields => forallb (λ kv, wf kv.2) fields
  | _ => true
  end.

(** ** Reading a character of a string literal back

    [read_char] is the inverse of [escape_char]: the next character of the
    string, or [None] at the closing quote. *)

Definition unhex (c : ascii) : nat :=
  let n := nat_of_ascii c in if Nat.ltb n 58 then n - 48 else n - 87.

Definition read_char (s : string) : option (option ascii * string) :=
  match s with
  | EmptyString => None
  | String c s' =>
      let n := nat_of_ascii c in
      if Nat.eqb n 34 then Some (None, s')
      else if Nat.eqb n 92 then
        match s' with
        | EmptyString => None
        | String e s'' =>
            match nat_of_ascii e with
            | 98 => Some (Some "008"%char, s'')
            | 116 => Some (Some "009"%char, s'')
            | 110 => Some (Some "010"%char, s'')
            | 102 => Some (Some "012"%char, s'')
            | 114 => Some (Some "013"%char, s'')
            | 117 =>
                match s'' with
                | String _ (String _ (String h (String l r))) =>
                    Some (Some (ascii_of_nat (16 * unhex h + unhex l)), r)
                | _ => None
                end
            | _ => Some (Some e, s'')
            end%nat
        end
      else Some (Some c, s')
  end.

Lemma read_escape c s : read_char (escape_char c +:+ s) = Some (Some c, s).
Proof. destruct c as [[] [] [] [] [] [] [] []]; reflexivity. Qed.

Lemma escape_string_inj s s' r r' :
  escape_string s +:+ String quote r = escape_string s' +:+ String quote r' → s = s' ∧ r = r'.
Proof.
  revert s'. induction s as [|c s IH]; intros [|c' s']; simpl; rewrite ?string_app_assoc.
  - intros E. by injection E as ->.
  - intros E. apply (f_equal read_char) in E. rewrite read_escape in E. by simplify_eq/=.
  - intros E. apply (f_equal read_char) in E. rewrite read_escape in E. by simplify_eq/=.
  - intros E. apply (f_equal read_char) in E. rewrite !read_escape in E. simplify_eq.
    by destruct (IH s') as [-> ->].
Qed.

Lemma stringify_string_inj s s' r r' :
  stringify_string s +:+ r = stringify_string s' +:+ r' → s = s' ∧ r = r'.
Proof.
  unfold stringify_string. simpl. rewrite !string_app_assoc. simpl. intros E. simplify_eq.
  by apply escape_string_inj in E.
Qed.

(** ** The serialisation is injective

    [stops r] says that a number cannot run on into [r]. *)

Definition stops (r : string) : bool :=
  match r with EmptyString => true | String c _ => negb (num_char c) end.

Lemma num_prefix_inj n n' r r' :
  all_num_chars n = true → all_num_chars n' = true → stops r = true → stops r' = true →
  n +:+ r = n' +:+ r' → n = n' ∧ r = r'.
Proof.
  revert n'. induction n as [|c n IH]; intros [|c' n'] Hn Hn' Hr Hr' E; simplify_eq/=; [done|..].
  - bool_simplify. congruence.
  - bool_simplify. congruence.
  - bool_simplify. destruct (IH n') as [-> ->]; done.
Qed.

Definition first_char (s : string) : option ascii :=
  match s with EmptyString => None | String c _ => Some c end.

(** What a value's text starts with tells its kind. *)
Definition kind_of_first (c : ascii) : nat :=
  match nat_of_ascii c with
  | 110 => 0 | 116 => 1 | 102 => 2 | 34 => 3 | 91 => 4 | 123 => 5
  | 93 | 125 => 7
  | _ => 6
  end%nat.
Definition kind (j : json) : nat :=
  match j with
  | JNull => 0 | JBool true => 1 | JBool false => 2 | JStr _ => 3 | JArr _ => 4 | JObj _ => 5 | JNum _ => 6
  end%nat.

Lemma num_char_kind c : num_char c && negb (Nat.eqb (nat_of_ascii c) 101) = true → kind_of_first c = 6%nat.
Proof. by destruct c as [[] [] [] [] [] [] [] []]. Qed.

Lemma print_first j r :
  wf j = true → ∃ c s, print j +:+ r = String c s ∧ kind_of_first c = kind j.
Proof.
  destruct j as [|[]|n|s|l|l]; intros Hwf; simpl;
    try (eexists _, _; split; [reflexivity|reflexivity]).
  destruct n as [|c n]; [done|]. simpl in Hwf. eexists _, _; split; [reflexivity|].
  apply num_char_kind. by apply andb_prop in Hwf as [-> _].
Qed.

Definition print_inj_at (a : json) : Prop :=
  ∀ b r r', wf a = true → wf b = true → stops r = true → stops r' = true →
    print a +:+ r = print b +:+ r' → a = b ∧ r = r'.

(** Join of a list of texts followed by a closing delimiter. *)
Lemma concat_cons (x : string) (l : list string) r :
  String.concat "," (x :: l) +:+ r =
    x +:+ match l with [] => r | _ => "," +:+ (String.concat "," l +:+ r) end.
Proof.
  destruct l as [|y l]; [done|].
  change (String.concat "," (x :: y :: l)) with (x +:+ ("," +:+ String.concat "," (y :: l))).
  by rewrite !string_app_assoc.
Qed.

Arguments stringify_string : simpl never.

(** A joined list read back part by part: [rd x x'] says what an equal prefix
    tells about the two parts. *)
Lemma concat_inj {A B} (f : A → string) (g : B → string) (rel : A → B → Prop) close l l' r r' :
  close ≠ ","%char → num_char close = false →
  Forall (λ x, ∀ y s s', y ∈ l' → stops s = true → stops s' = true → f x +:+ s = g y +:+ s' → rel x y ∧ s = s') l →
  (∀ x s, x ∈ l → first_char (f x +:+ s) ≠ Some close) →
  (∀ y s, y ∈ l' → first_char (g y +:+ s) ≠ Some close) →
  String.concat "," (f <$> l) +:+ String close r = String.concat "," (g <$> l') +:+ String close r' →
  Forall2 rel l l' ∧ r = r'.
Proof.
  intros Hcomma Hnum Hl. revert l' Hl. induction l as [|x l IH]; intros [|y l'] Hl Hf Hg E.
  - simpl in E. by simplify_eq.
  - exfalso. rewrite fmap_cons, concat_cons in E. simpl in E.
    eapply (Hg y); [left|]. by rewrite <-E.
  - exfalso. rewrite fmap_cons, concat_cons in E. simpl in E.
    eapply (Hf x); [left|]. by rewrite E.
  - rewrite !fmap_cons, !concat_cons in E.
    inversion_clear Hl as [|? ? Hx Hl'].
    apply Hx in E as [Hxy E]; [|left|by destruct l; simpl; rewrite ?Hnum|by destruct l'; simpl; rewrite ?Hnum].
    enough (Forall2 rel l l' ∧ r = r') as [? ->] by (split; [by constructor|done]).
    apply IH.
    + eapply Forall_impl; [exact Hl'|]. simpl. intros z Hz w s s' Hw. apply Hz. by right.
    + intros z s Hz. apply Hf. by right.
    + intros z s Hz. apply Hg. by right.
    + destruct l as [|z l], l' as [|w l']; try (simpl in E; congruence).
      * done.
      * by injection E.
Qed.

Lemma Forall2_eq_1 {A} (l l' : list A) : Forall2 eq l l' → l = l'.
Proof. induction 1; congruence. Qed.

Lemma forallb_elem {A} (f : A → bool) l x : forallb f l = true → x ∈ l → f x = true.
Proof. rewrite forallb_forall, list_elem_of_In. auto. Qed.


Lemma print_first_not_close j s c :
  wf j = true → kind_of_first c = 7%nat → first_char (print j +:+ s) ≠ Some c.
Proof.
  intros Hwf Hc. destruct (print_first j s Hwf) as (d & t & -> & Hk). simpl. intros [= ->].
  destruct j as [|[]|n|x|l|l]; simpl in Hk; congruence.
Qed.

Lemma print_inj_all a : print_inj_at a.
Proof.
  induction a as [|b|n|x|l IH|l IH] using json_nested_ind;
    intros j r r' Ha Hj Hr Hr' E;
    destruct (print_first j r' Hj) as (c & t & Ht & Hk), (print_first _ r Ha) as (d & u & Hu & Hk');
    rewrite Ht, Hu in E; injection E as -> ->;
    rewrite Hk in Hk'; rewrite <-Ht in Hu; clear Ht Hk c t.
  - destruct j as [|[]|n|x|l|l]; try discriminate Hk'. simpl in Hu. by simplify_eq.
  - destruct b, j as [|[]|n|x|l|l]; try discriminate Hk'; simpl in Hu; by simplify_eq.
  - destruct j as [|[]|m|x|l|l]; try discriminate Hk'. simpl in *.
    unfold num_lexeme in *. bool_simplify. apply num_prefix_inj in Hu as [-> ->]; auto.
  - destruct j as [|[]|m|y|l|l]; try discriminate Hk'. simpl in *.
    apply stringify_string_inj in Hu as [-> ->]. done.
  - destruct j as [|[]|m|y|k|k]; try discriminate Hk'. simpl in *.
    unfold array_text in Hu. rewrite !string_app_assoc in Hu. simpl in Hu. injection Hu as Hu.
    apply (concat_inj print print eq) in Hu as [Hl ->].
    + by rewrite (Forall2_eq_1 _ _ Hl).
    + done.
    + done.
    + apply Forall_forall. intros z Hz y s s' Hy Hs Hs' E.
      rewrite Forall_forall in IH. apply (IH z Hz) in E as [-> ->]; eauto using forallb_elem.
    + intros z s Hz. apply print_first_not_close; eauto using forallb_elem.
    + intros z s Hz. apply print_first_not_close; eauto using forallb_elem.
  - destruct j as [|[]|m|y|k|k]; try discriminate Hk'. simpl in *.
    unfold object_text in Hu. rewrite !string_app_assoc in Hu. simpl in Hu. injection Hu as Hu.
    change (List.map (λ kv : string * json, (kv.1, print kv.2)) l) with ((λ kv : string * json, (kv.1, print kv.2)) <$> l) in Hu.
    change (List.map (λ kv : string * json, (kv.1, print kv.2)) k) with ((λ kv : string * json, (kv.1, print kv.2)) <$> k) in Hu.
    rewrite <-!list_fmap_compose in Hu.
    apply (concat_inj _ _ eq) in Hu as [Hl ->].
    + by rewrite (Forall2_eq_1 _ _ Hl).
    + done.
    + done.
    + apply Forall_forall. intros [kz z] Hz [ky y] s s' Hy Hs Hs' E.
      change (field_text (kz, print z) +:+ s = field_text (ky, print y) +:+ s') in E.
      unfold field_text in E. cbn [fst snd] in E.
      rewrite !(string_app_assoc (stringify_string _)) in E.
      apply stringify_string_inj in E as [-> E]. rewrite !string_app_assoc in E. simpl in E. injection E as E.
      rewrite Forall_forall in IH.
      destruct (IH _ Hz y s s') as [Hzy ->]; [..|simpl in Hzy; by subst]; try done.
      * exact (forallb_elem _ _ _ Ha Hz).
      * exact (forallb_elem _ _ _ Hj Hy).
    + intros [kz z] s Hz. done.
    + intros [kz z] s Hz. done.
Qed.

(** [canonicalJson] prints the value with sorted keys. *)
Lemma canonicalJson_canon a : canonicalJson a = print (canon a).
Proof.
  induction a as [|b|n|x|l IH|l IH] using json_nested_ind; simpl; try done.
  - f_equal. rewrite List.map_map. apply List.map_ext_in. intros y Hy.
    rewrite Forall_forall in IH. apply IH. by apply list_elem_of_In.
  - f_equal. change (List.map ?f (isort ?le ?m)) with (f <$> isort le m).
    rewrite <-(isort_fmap key_le key_le) by done. f_equal.
    change (?f <$> List.map ?g ?m) with (List.map f (List.map g m)).
    rewrite List.map_map. apply List.map_ext_in. intros y Hy. simpl. f_equal.
    rewrite Forall_forall in IH. apply IH. by apply list_elem_of_In.
Qed.

Lemma wf_canon a : wf a = true → wf (canon a) = true.
Proof.
  induction a as [|b|n|x|l IH|l IH] using json_nested_ind; simpl; try done; intros Hwf.
  - apply forallb_forall. intros y (z & <- & Hz)%List.in_map_iff.
    rewrite Forall_forall in IH. rewrite forallb_forall in Hwf. apply IH; [by apply list_elem_of_In|auto].
  - apply forallb_forall. intros y Hy%list_elem_of_In. rewrite elem_of_isort in Hy.
    apply list_elem_of_In, List.in_map_iff in Hy as (z & <- & Hz). simpl.
    rewrite Forall_forall in IH. rewrite forallb_forall in Hwf. apply IH; [by apply list_elem_of_In|auto].
Qed.

(** Two payloads have the same canonical text exactly when they are the same
    value up to the order of object keys. *)
Lemma canonicalJson_inj a b :
  wf a = true → wf b = true → canonicalJson a = canonicalJson b ↔ canon a = canon b.
Proof.
  intros Ha Hb. rewrite !canonicalJson_canon. split; [|by intros ->]. intros E.
  apply (print_inj_all (canon a) (canon b) "" ""); auto using wf_canon. by rewrite !string_app_nil_r.
Qed.

End Json.
