(* ===== verification/JsNumber.v ===== *)
(** * JavaScript numbers

    The IEEE-754 binary64 arithmetic of the JavaScript [Number] type, as far
    as the backend uses it.  A finite number is an integer times a power of
    two, [Fin m e] for m * 2^e, kept with m odd (or [Fin 0 0]); every operator
    rounds the exact result to nearest-even with a 53-bit significand and a
    least exponent of -1074.

    The theory is stated on [val], the value in units of 2^-1074, which is an
    integer for every double. *)

From S2P Require Import Prelude.

Module Js.

Inductive num :=
  | NaN
  | Inf (neg : bool)
  | NegZero
  | Fin (m e : Z).

#[export] Instance num_eq_dec : EqDecision num.
Proof. solve_decision. Defined.

(** ** Rounding *)

(** The rational [p / d] rounded to the nearest integer, ties to even. *)
Definition rne (p d : Z) : Z :=
  let m := p / d in
  let r := p mod d in
  if (d <? 2 * r) || ((2 * r =? d) && Z.odd m) then m + 1 else m.

(** Factors of two moved into the exponent. *)
Fixpoint strip (p : positive) (e : Z) : positive * Z :=
  match p with
  | xO p' => strip p' (e + 1)
  | _ => (p, e)
  end.

(** A rounded magnitude [m * 2^e] with its sign: overflow is an infinity. *)
Definition pack (neg : bool) (m e : Z) : num :=
  match m with
  | Zpos p =>
      if 1024 <=? Z.log2 m + e then Inf neg
      else let '(p', e') := strip p e in Fin (if neg then Zneg p' else Zpos p') e'
  | _ => if neg then NegZero else Fin 0 0
  end.

(** The exponent [p / q * 2^e] is rounded at, once [p / q] has 54 bits. *)
Definition widen (p q : Z) : Z := Z.max 0 (55 + Z.log2 q - Z.log2 p).
Definition cut (p q e : Z) : Z := Z.max (Z.log2 (p / q) - 52) (-1074 - e).

(** [p / q * 2^e] (p not negative, q positive) as the nearest double. *)
Definition fround (neg : bool) (p q e : Z) : num :=
  if p =? 0 then (if neg then NegZero else Fin 0 0)
  else
    let s := widen p q in
    let p' := Z.shiftl p s in
    let e' := e - s in
    let k := cut p' q e' in
    pack neg (rne p' (Z.shiftl q k)) (e' + k).

Definition of_Z (z : Z) : num := fround (z <? 0) (Z.abs z) 1 0.

Definition mant (x : num) : Z := match x with Fin m _ => m | _ => 0 end.
Definition expn (x : num) : Z := match x with Fin _ e => e | _ => 0 end.
Definition is_finite (x : num) : bool := match x with Fin _ _ | NegZero => true | _ => false end.
Definition negative (x : num) : bool :=
  match x with NaN => false | Inf b => b | NegZero => true | Fin m _ => m <? 0 end.
Definition is_zero (x : num) : bool := match x with Fin 0 _ | NegZero => true | _ => false end.

(** ** Operators *)

Definition opp (x : num) : num :=
  match x with
  | NaN => NaN
  | Inf b => Inf (negb b)
  | NegZero => Fin 0 0
  | Fin m e => if m =? 0 then NegZero else Fin (- m) e
  end.

(** Mantissas of two finite numbers brought to a common exponent. *)
Definition align (x y : num) : Z * Z * Z :=
  let e := Z.min (expn x) (expn y) in
  (Z.shiftl (mant x) (expn x - e), Z.shiftl (mant y) (expn y - e), e).

Definition add (x y : num) : num :=
  match x, y with
  | NaN, _ | _, NaN => NaN
  | Inf a, Inf b => if Bool.eqb a b then Inf a else NaN
  | Inf a, _ => Inf a
  | _, Inf b => Inf b
  | NegZero, NegZero => NegZero
  | _, _ => let '(a, b, e) := align x y in fround (a + b <? 0) (Z.abs (a + b)) 1 e
  end.
Definition sub (x y : num) : num := add x (opp y).

Definition mul (x y : num) : num :=
  let neg := xorb (negative x) (negative y) in
  match x, y with
  | NaN, _ | _, NaN => NaN
  | Inf _, _ => if is_zero y then NaN else Inf neg
  | _, Inf _ => if is_zero x then NaN else Inf neg
  | _, _ => fround neg (Z.abs (mant x * mant y)) 1 (expn x + expn y)
  end.

Definition div (x y : num) : num :=
  let neg := xorb (negative x) (negative y) in
  match x, y with
  | NaN, _ | _, NaN => NaN
  | Inf _, Inf _ => NaN
  | Inf _, _ => Inf neg
  | _, Inf _ => if neg then NegZero else Fin 0 0
  | _, _ =>
      if is_zero y then (if is_zero x then NaN else Inf neg)
      else fround neg (Z.abs (mant x)) (Z.abs (mant y)) (expn x - expn y)
  end.

(** The order on the extended line; [NaN] is unordered. *)
Definition ltb (x y : num) : bool :=
  match x, y with
  | NaN, _ | _, NaN => false
  | Inf a, Inf b => a && negb b
  | Inf a, _ => a
  | _, Inf b => negb b
  | _, _ => let '(a, b, _) := align x y in a <? b
  end.
Definition eqb (x y : num) : bool :=
  match x, y with
  | NaN, _ | _, NaN => false
  | Inf a, Inf b => Bool.eqb a b
  | Inf _, _ | _, Inf _ => false
  | _, _ => let '(a, b, _) := align x y in a =? b
  end.
Definition leb (x y : num) : bool := ltb x y || eqb x y.

Definition max (x y : num) : num :=
  match x, y with
  | NaN, _ | _, NaN => NaN
  | _, _ => if ltb x y then y
            else if eqb x y then (if negative x then y else x) else x
  end.
Definition min (x y : num) : num :=
  match x, y with
  | NaN, _ | _, NaN => NaN
  | _, _ => if ltb x y then x
            else if eqb x y then (if negative x then x else y) else y
  end.

(** [Math.floor], [Math.round] (ties towards plus infinity) and
    [Number.isInteger]: [Fin m e] has a fraction only when [e < 0]. *)
Definition int_num (neg : bool) (z : Z) : num := pack neg (Z.abs z) 0.
Definition floor (x : num) : num :=
  match x with
  | Fin m e => if e <? 0 then int_num (m <? 0) (Z.shiftr m (- e)) else x
  | y => y
  end.
Definition round (x : num) : num :=
  match x with
  | Fin m e =>
      if e <? 0 then int_num (m <? 0) (Z.shiftr (2 * m + Z.shiftl 1 (- e)) (1 - e)) else x
  | y => y
  end.
Definition is_integer (x : num) : bool :=
  match x with Fin m e => (0 <=? e) || (m =? 0) | NegZero => true | _ => false end.

(** [Number(value) || 0]: zero, minus zero and [NaN] become plus zero. *)
Definition or_zero (x : num) : num :=
  match x with
  | NaN | NegZero => Fin 0 0
  | y => y
  end.

(** ** Rounding to an integer *)

Lemma rne_spec p d :
  0 < d →
  2 * p - d ≤ 2 * d * rne p d ≤ 2 * p + d ∧
  (2 * d * rne p d = 2 * p + d ∨ 2 * d * rne p d = 2 * p - d → Z.Even (rne p d)).
Proof.
  intros Hd. unfold rne. pose proof (Z.div_mod p d ltac:(lia)) as Hdm.
  pose proof (Z.mod_pos_bound p d Hd) as Hr.
  set (m := p / d) in *. set (r := p mod d) in *.
  assert (2 * d * (m + 1) = 2 * (d * m) + 2 * d) as Em1 by ring.
  assert (2 * d * m = 2 * (d * m)) as Em by ring.
  destruct (d <? 2 * r) eqn:E1; simpl; bool_simplify.
  { rewrite Em1. split; [lia|]. intros [?|?]; exfalso; lia. }
  destruct (2 * r =? d) eqn:E2; simpl; bool_simplify.
  - destruct (Z.odd m) eqn:Eo.
    + rewrite Em1. split; [lia|]. intros _. rewrite Z.add_1_r. apply Z.Even_succ. by apply Z.odd_spec.
    + rewrite Em. split; [lia|]. intros _. apply Z.even_spec. rewrite <-Z.negb_odd. by rewrite Eo.
  - rewrite Em. split; [lia|]. intros [?|?]; exfalso; lia.
Qed.

Lemma rne_mono p d p' d' :
  0 < d → 0 < d' → p * d' ≤ p' * d → rne p d ≤ rne p' d'.
Proof.
  intros Hd Hd' Hle.
  destruct (rne_spec p d Hd) as [[H1 H2] Hev], (rne_spec p' d' Hd') as [[H1' H2'] Hev'].
  set (a := rne p d) in *. set (b := rne p' d') in *.
  destruct (Z.le_gt_cases a b) as [|Hgt]; [done|exfalso].
  assert (d * (2 * b + 1) ≤ 2 * p) as Ha by nia.
  assert (2 * p' ≤ d' * (2 * b + 1)) as Hb by nia.
  assert (d' * (d * (2 * b + 1)) ≤ d * (d' * (2 * b + 1))) as Hc by nia.
  assert (2 * p = d * (2 * b + 1)) as Ep by nia.
  assert (2 * p' = d' * (2 * b + 1)) as Ep' by nia.
  assert (a = b + 1) as Eab by nia.
  destruct Hev as [i Hi]; [left; nia|]. destruct Hev' as [j Hj]; [right; nia|]. lia.
Qed.

Lemma rne_ratio p d p' d' :
  0 < d → 0 < d' → p * d' = p' * d → rne p d = rne p' d'.
Proof. intros ? ? E. apply Z.le_antisymm; apply rne_mono; lia. Qed.

Lemma rne_int z d : 0 < d → rne (z * d) d = z.
Proof.
  intros Hd. unfold rne. rewrite Z.div_mul, Z.mod_mul, Z.mul_0_r by lia.
  destruct (Z.ltb_spec d 0), (Z.eqb_spec 0 d); simpl; lia.
Qed.

Lemma rne_le_int p d c : 0 < d → p ≤ c * d → rne p d ≤ c.
Proof. intros Hd Hp. rewrite <-(rne_int c d Hd). apply rne_mono; [done..|nia]. Qed.
Lemma rne_ge_int p d c : 0 < d → c * d ≤ p → c ≤ rne p d.
Proof. intros Hd Hp. rewrite <-(rne_int c d Hd) at 1. apply rne_mono; [done..|nia]. Qed.

Lemma rne_nonneg p d : 0 < d → 0 ≤ p → 0 ≤ rne p d.
Proof. intros. apply rne_ge_int; lia. Qed.

(** ** Rounding to 53 bits

    [rounds P Q r]: r is P / Q rounded to a double, in units of 2^-1074. *)

Definition rounds (P Q r : Z) : Prop :=
  ∃ K, 0 ≤ K ∧ (K = 0 ∨ 2 ^ (52 + K) * Q ≤ P) ∧ P < 2 ^ (53 + K) * Q ∧
       r = rne P (Q * 2 ^ K) * 2 ^ K.

(** A magnitude a 53-bit significand can hold. *)
Definition representable (r : Z) : Prop :=
  ∃ m k, 0 ≤ k ∧ 0 ≤ m ≤ 2 ^ 53 ∧ r = m * 2 ^ k.

Lemma pow2_pos k : 0 ≤ k → 0 < 2 ^ k.
Proof. intros. by apply Z.pow_pos_nonneg. Qed.

Lemma representable_int z : 0 ≤ z ≤ 2 ^ 53 → representable z.
Proof. intros. exists z, 0. lia. Qed.

Lemma representable_shift z k : 0 ≤ k → representable z → representable (z * 2 ^ k).
Proof.
  intros Hk (m & j & Hj & Hm & ->). exists m, (j + k). rewrite Z.pow_add_r by lia. lia.
Qed.

Lemma sig_below m k K : 0 ≤ k → k < K → 0 ≤ m ≤ 2 ^ 53 → m * 2 ^ k ≤ 2 ^ 52 * 2 ^ K.
Proof.
  intros Hk HK Hm. pose proof (pow2_pos k Hk).
  transitivity (2 ^ 53 * 2 ^ k); [apply Z.mul_le_mono_nonneg_r; lia|].
  rewrite <-!Z.pow_add_r by lia. apply Z.pow_le_mono_r; lia.
Qed.

Lemma rounds_le P Q r h : 0 < Q → rounds P Q r → representable h → P ≤ h * Q → r ≤ h.
Proof.
  intros HQ (K & HK & HKP & _ & ->) (m & k & Hk & Hm & ->) HP.
  pose proof (pow2_pos K HK) as HpK.
  assert (∀ c, P ≤ c * 2 ^ K * Q → rne P (Q * 2 ^ K) ≤ c) as Hc.
  { intros c Hc. apply rne_le_int; nia. }
  destruct (Z.le_gt_cases K k) as [Hle|Hgt].
  - replace k with ((k - K) + K) in HP |- * by lia. rewrite Z.pow_add_r in HP |- * by lia.
    rewrite Z.mul_assoc. apply Z.mul_le_mono_nonneg_r; [lia|]. apply Hc. lia.
  - destruct HKP as [->|HKP]; [lia|].
    pose proof (sig_below m k K Hk Hgt Hm) as Hmk.
    rewrite Z.pow_add_r in HKP by lia.
    assert (m * 2 ^ k = 2 ^ 52 * 2 ^ K) as E.
    { apply Z.le_antisymm; [done|]. apply (Z.mul_le_mono_pos_r _ _ Q); lia. }
    rewrite E in HP |- *. apply Z.mul_le_mono_nonneg_r; [lia|]. apply Hc. lia.
Qed.

Lemma rounds_ge P Q r h : 0 < Q → rounds P Q r → representable h → h * Q ≤ P → h ≤ r.
Proof.
  intros HQ (K & HK & HKP & _ & ->) (m & k & Hk & Hm & ->) HP.
  pose proof (pow2_pos K HK) as HpK.
  assert (∀ c, c * 2 ^ K * Q ≤ P → c ≤ rne P (Q * 2 ^ K)) as Hc.
  { intros c Hc. apply rne_ge_int; nia. }
  destruct (Z.le_gt_cases K k) as [Hle|Hgt].
  - replace k with ((k - K) + K) in HP |- * by lia. rewrite Z.pow_add_r in HP |- * by lia.
    rewrite Z.mul_assoc. apply Z.mul_le_mono_nonneg_r; [lia|]. apply Hc. lia.
  - destruct HKP as [->|HKP]; [lia|].
    transitivity (2 ^ 52 * 2 ^ K); [by apply sig_below|].
    rewrite Z.pow_add_r in HKP by lia.
    apply Z.mul_le_mono_nonneg_r; [lia|]. apply Hc. lia.
Qed.

Lemma rounds_exact P Q r h : 0 < Q → rounds P Q r → representable h → P = h * Q → r = h.
Proof. intros HQ Hr Hh E. apply Z.le_antisymm; [eapply rounds_le|eapply rounds_ge]; eauto; lia. Qed.

Lemma rounds_representable P Q r : 0 < Q → 0 ≤ P → rounds P Q r → representable r.
Proof.
  intros HQ HP (K & HK & _ & Hlt & ->). exists (rne P (Q * 2 ^ K)), K.
  pose proof (pow2_pos K HK). split_and!; [done|apply rne_nonneg; nia| |done].
  rewrite Z.pow_add_r in Hlt by lia. apply rne_le_int; nia.
Qed.

(** The rounding error: half a unit, or a 2^-53 share of the value. *)
Lemma rounds_error P Q r :
  0 < Q → rounds P Q r → 2 * Z.abs (r * Q - P) ≤ Q ∨ 2 ^ 53 * Z.abs (r * Q - P) ≤ P.
Proof.
  intros HQ (K & HK & HKP & _ & ->). pose proof (pow2_pos K HK).
  destruct (rne_spec P (Q * 2 ^ K) ltac:(nia)) as [Hs _].
  set (m := rne P (Q * 2 ^ K)) in *.
  assert (2 * Z.abs (m * 2 ^ K * Q - P) ≤ Q * 2 ^ K) as He by nia.
  destruct HKP as [->|HKP]; [left; lia|right].
  rewrite Z.pow_add_r in HKP by lia. change (2 ^ 53) with (2 ^ 52 * 2). nia.
Qed.

Lemma rounds_rel_error P Q r :
  0 < Q → 2 ^ 52 * Q ≤ P → rounds P Q r → 2 ^ 53 * Z.abs (r * Q - P) ≤ P.
Proof. intros HQ HP Hr. destruct (rounds_error P Q r HQ Hr); lia. Qed.

Lemma rounds_ratio P Q P' Q' r :
  0 < Q → 0 < Q' → P * Q' = P' * Q → rounds P Q r → rounds P' Q' r.
Proof.
  intros HQ HQ' E (K & HK & HKP & Hlt & ->). exists K.
  pose proof (pow2_pos K HK). split_and!; [done| | |].
  - destruct HKP as [->|HKP]; [by left|right].
    apply (Z.mul_le_mono_pos_r _ _ Q); [done|]. rewrite <-E. nia.
  - apply (Z.mul_lt_mono_pos_r Q); [done|]. rewrite <-E. nia.
  - f_equal. apply rne_ratio; nia.
Qed.

Lemma rounds_nonneg P Q r : 0 < Q → 0 ≤ P → rounds P Q r → 0 ≤ r.
Proof. intros HQ HP Hr. apply (rounds_ge P Q r 0); [done..|by apply representable_int|lia]. Qed.

(** ** [fround] is the rounding of its exact value *)

(** The value in units of 2^-1074. *)
Definition val (x : num) : Z := match x with Fin m e => m * 2 ^ (e + 1074) | _ => 0 end.

(** Numerator and denominator of [p / q * 2^e] in those units. *)
Definition units (e : Z) : Z := 2 ^ Z.max 0 (e + 1074).
Definition parts (e : Z) : Z := 2 ^ Z.max 0 (- (e + 1074)).

Lemma units_pos e : 0 < units e.
Proof. apply pow2_pos. lia. Qed.
Lemma parts_pos e : 0 < parts e.
Proof. apply pow2_pos. lia. Qed.

Lemma units_parts_shift e s : 0 ≤ s → units e * parts (e - s) = units (e - s) * 2 ^ s * parts e.
Proof.
  intros Hs. unfold units, parts. rewrite <-!Z.pow_add_r by lia. f_equal. lia.
Qed.

(** [Fin m e] is in normal form: an odd significand of at most 53 bits, or
    zero, within the exponent range of a double. *)
Definition wfn (x : num) : Prop :=
  match x with
  | Fin m e => (m = 0 ∧ e = 0) ∨
               (Z.Odd m ∧ -1074 ≤ e ∧ Z.abs m ≤ 2 ^ 53 ∧ Z.abs m * 2 ^ (e + 1074) < 2 ^ 2098)
  | _ => True
  end.

Lemma strip_spec p e p' e' :
  strip p e = (p', e') → e ≤ e' ∧ Zpos p = Zpos p' * 2 ^ (e' - e) ∧ Z.Odd (Zpos p').
Proof.
  revert e. induction p as [p IH|p IH|]; simpl; intros e E; simplify_eq.
  - rewrite Z.sub_diag. split_and!; [lia|lia|]. by exists (Zpos p).
  - apply IH in E as (Hle & Ep & Hodd). split_and!; [lia| |done].
    rewrite (Pos2Z.inj_xO p), Ep.
    replace (e' - e) with (1 + (e' - (e + 1))) by lia. rewrite Z.pow_add_r by lia. lia.
  - rewrite Z.sub_diag. split_and!; [lia|lia|]. by exists 0.
Qed.

(** What [pack] returns for a magnitude [m * 2^e]. *)
Definition packed (neg : bool) (r : Z) (x : num) : Prop :=
  wfn x ∧
  ((r < 2 ^ 2098 ∧ is_finite x = true ∧ val x = if neg then - r else r) ∨
   (2 ^ 2098 ≤ r ∧ x = Inf neg)).

Lemma log2_scaled m e : 0 < m → -1074 ≤ e → 1024 ≤ Z.log2 m + e ↔ 2 ^ 2098 ≤ m * 2 ^ (e + 1074).
Proof.
  intros Hm He. rewrite <-Z.shiftl_mul_pow2 by lia.
  rewrite (Z.log2_le_pow2 (Z.shiftl m (e + 1074)) 2098).
  - rewrite Z.log2_shiftl by lia. lia.
  - rewrite Z.shiftl_mul_pow2 by lia. pose proof (pow2_pos (e + 1074) ltac:(lia)). nia.
Qed.

Lemma pack_spec neg m e :
  0 ≤ m ≤ 2 ^ 53 → -1074 ≤ e → packed neg (m * 2 ^ (e + 1074)) (pack neg m e).
Proof.
  intros Hm He. destruct m as [|p|p]; [|cbn [pack]|lia].
  - simpl. split; [destruct neg; simpl; auto|]. left. by destruct neg.
  - pose proof (log2_scaled (Zpos p) e ltac:(lia) He) as Hlog.
    destruct (1024 <=? Z.log2 (Zpos p) + e) eqn:El; bool_simplify.
    { split; [done|right]. split; [by apply Hlog|done]. }
    assert (Zpos p * 2 ^ (e + 1074) < 2 ^ 2098) as Hlt by lia. clear Hlog El.
    destruct (strip p e) as [p' e'] eqn:Es. apply strip_spec in Es as (Hle & Ep & Hodd).
    pose proof (pow2_pos (e' - e) ltac:(lia)).
    assert (Zpos p * 2 ^ (e + 1074) = Zpos p' * 2 ^ (e' + 1074)) as Ev.
    { rewrite Ep, <-Z.mul_assoc, <-Z.pow_add_r by lia. do 2 f_equal. lia. }
    rewrite Ev in Hlt |- *. split; [|left].
    + right. destruct neg; simpl; (split_and!; [|lia|nia|done]); [|done].
      destruct Hodd as [i Hi]. exists (- i - 1). lia.
    + split_and!; [done|by destruct neg|]. destruct neg; simpl; lia.
Qed.

Lemma widen_spec p q : 0 < p → 0 < q → 2 ^ 54 ≤ Z.shiftl p (widen p q) / q.
Proof.
  intros Hp Hq. unfold widen. set (s := Z.max 0 _).
  apply Z.div_le_lower_bound; [done|]. rewrite Z.shiftl_mul_pow2 by lia.
  pose proof (Z.log2_spec p Hp) as [Hlp _]. pose proof (Z.log2_spec q Hq) as [_ Hlq].
  pose proof (Z.log2_nonneg p). pose proof (Z.log2_nonneg q).
  transitivity (2 ^ Z.log2 p * 2 ^ s); [|pose proof (pow2_pos s ltac:(lia)); nia].
  transitivity (2 ^ Z.succ (Z.log2 q) * 2 ^ 54); [nia|].
  rewrite <-!Z.pow_add_r by lia. apply Z.pow_le_mono_r; lia.
Qed.

Lemma pow_parts e k :
  0 ≤ k → 0 ≤ k + (e + 1074) → 2 ^ (k + (e + 1074)) * parts e = 2 ^ k * units e.
Proof. intros Hk HK. unfold units, parts. rewrite <-!Z.pow_add_r by lia. f_equal. lia. Qed.

Lemma fround_pos p q e :
  0 < p → 0 < q → 2 ^ 54 ≤ p / q →
  let k := cut p q e in
  let m := rne p (Z.shiftl q k) in
  0 ≤ m ≤ 2 ^ 53 ∧ -1074 ≤ e + k ∧
  rounds (p * units e) (q * parts e) (m * 2 ^ (e + k + 1074)).
Proof.
  intros Hp Hq Hpq k m. unfold cut in k. set (l := Z.log2 (p / q)) in *.
  assert (54 ≤ l) as Hl by (apply Z.log2_le_pow2; lia).
  pose proof (Z.log2_spec (p / q) ltac:(lia)) as [Hl1 Hl2]. fold l in Hl1, Hl2.
  pose proof (Z.div_mod p q ltac:(lia)) as Hdm. pose proof (Z.mod_pos_bound p q Hq) as Hmod.
  assert (2 ^ l * q ≤ p) as L1 by nia.
  assert (p < 2 ^ (l + 1) * q) as L2 by (change (l + 1) with (Z.succ l); nia).
  assert (Hk : 0 ≤ k ∧ l - 52 ≤ k ∧ -1074 - e ≤ k ∧ (k = l - 52 ∨ k = -1074 - e)) by lia.
  destruct Hk as (Hk0 & Hk1 & Hk2 & Hk3). clearbody k.
  assert (2 ^ (l + 1) ≤ 2 ^ (53 + k)) as L3 by (apply Z.pow_le_mono_r; lia).
  pose proof (pow2_pos k Hk0) as Hpk.
  pose proof (units_pos e) as Hu. pose proof (parts_pos e) as Hv.
  assert (Ht : 2 ^ (e + k + 1074) * parts e = 2 ^ k * units e).
  { rewrite <-pow_parts by lia. do 2 f_equal. lia. }
  unfold m. rewrite Z.shiftl_mul_pow2 by lia. rewrite (Z.pow_add_r 2 53 k) in L3 by lia.
  split_and!; [apply rne_nonneg; nia|apply rne_le_int; nia|lia|].
  exists (e + k + 1074). split_and!; [lia| | |].
  - destruct Hk3 as [Hk3|Hk3]; [right|left; lia].
    rewrite (Z.pow_add_r 2 52) by lia.
    replace (2 ^ 52 * 2 ^ (e + k + 1074) * (q * parts e)) with (2 ^ 52 * q * (2 ^ (e + k + 1074) * parts e)) by ring.
    rewrite Ht. replace l with (52 + k) in L1 by lia. rewrite (Z.pow_add_r 2 52) in L1 by lia. nia.
  - rewrite (Z.pow_add_r 2 53) by lia.
    replace (2 ^ 53 * 2 ^ (e + k + 1074) * (q * parts e)) with (2 ^ 53 * q * (2 ^ (e + k + 1074) * parts e)) by ring.
    rewrite Ht. nia.
  - f_equal. apply rne_ratio; [nia| |].
    + pose proof (pow2_pos (e + k + 1074) ltac:(lia)). nia.
    + replace (q * parts e * 2 ^ (e + k + 1074)) with (q * (2 ^ (e + k + 1074) * parts e)) by ring.
      rewrite Ht. ring.
Qed.

Lemma rounds_zero Q : 0 < Q → rounds 0 Q 0.
Proof. intros HQ. exists 0. split_and!; [lia|by left|lia|]. rewrite <-(Z.mul_0_l (Q * 2 ^ 0)), rne_int; lia. Qed.

Lemma fround_spec neg p q e :
  0 ≤ p → 0 < q →
  ∃ r, rounds (p * units e) (q * parts e) r ∧ packed neg r (fround neg p q e).
Proof.
  intros Hp Hq. pose proof (parts_pos e) as Hv. unfold fround.
  destruct (Z.eqb_spec p 0) as [->|Hp0].
  - exists 0. split; [apply rounds_zero; nia|]. split; [destruct neg; simpl; auto|].
    left. by destruct neg.
  - set (w := widen p q). assert (0 ≤ w) as Hw by (unfold w, widen; lia).
    pose proof (widen_spec p q ltac:(lia) Hq) as Hwide. fold w in Hwide.
    rewrite Z.shiftl_mul_pow2 in Hwide |- * by lia.
    pose proof (pow2_pos w Hw) as Hpw.
    destruct (fround_pos (p * 2 ^ w) q (e - w)) as (Hm & He & Hr); [nia|done|done|].
    eexists. split; [|apply pack_spec; [exact Hm|exact He]].
    eapply rounds_ratio; [..|exact Hr]; [pose proof (parts_pos (e - w)); nia|nia|].
    transitivity (p * q * (units (e - w) * 2 ^ w * parts e)); [ring|].
    rewrite <-units_parts_shift by lia. ring.
Qed.

(** ** The operators on finite numbers *)

(** A finite double in normal form. *)
Definition fin (x : num) : Prop := is_finite x = true ∧ wfn x.

(** 1 in units of 2^-1074. *)
Definition one : Z := 2 ^ 1074.
Lemma one_pos : 0 < one.
Proof. by apply pow2_pos. Qed.

Lemma fin_val x : fin x → val x = mant x * 2 ^ (expn x + 1074) ∧ -1074 ≤ expn x.
Proof. intros [Hf Hw]. destruct x as [| | |m e]; try done. split; [done|]. simpl in *. lia. Qed.

Lemma units_val e : -1074 ≤ e → units e = 2 ^ (e + 1074) ∧ parts e = 1.
Proof. intros He. unfold units, parts. rewrite Z.max_r, Z.max_l by lia. done. Qed.

Lemma packed_fin neg r x :
  packed neg r x → r < 2 ^ 2098 → fin x ∧ val x = if neg then - r else r.
Proof. intros [Hw [(_ & Hf & Hv)|[Hge _]]] Hr; [done|lia]. Qed.

Lemma align_spec x y a b e :
  fin x → fin y → align x y = (a, b, e) →
  val x = a * 2 ^ (e + 1074) ∧ val y = b * 2 ^ (e + 1074) ∧ -1074 ≤ e.
Proof.
  intros Hx Hy E. destruct (fin_val x Hx) as [-> Hex], (fin_val y Hy) as [-> Hey].
  unfold align in E. simplify_eq. rewrite !Z.shiftl_mul_pow2 by lia.
  rewrite <-!Z.mul_assoc, <-!Z.pow_add_r by lia.
  split_and!; [do 2 f_equal; lia|do 2 f_equal; lia|lia].
Qed.

Lemma sign_scaled a e : -1074 ≤ e → (a * 2 ^ (e + 1074) <? 0) = (a <? 0).
Proof. intros He. pose proof (pow2_pos (e + 1074) ltac:(lia)). destruct (Z.ltb_spec a 0), (Z.ltb_spec (a * 2 ^ (e + 1074)) 0); nia. Qed.

Lemma add_spec x y :
  fin x → fin y →
  ∃ r, rounds (Z.abs (val x + val y)) 1 r ∧ packed (val x + val y <? 0) r (add x y).
Proof.
  intros Hx Hy.
  destruct (decide (x = NegZero ∧ y = NegZero)) as [[-> ->]|Hne].
  { exists 0. split; [by apply rounds_zero|]. split; [done|by left]. }
  destruct (align x y) as [[a b] e] eqn:Ea.
  assert (add x y = fround (a + b <? 0) (Z.abs (a + b)) 1 e) as ->.
  { destruct Hx as [Hx _], Hy as [Hy _].
    destruct x, y; try discriminate; unfold add; try rewrite Ea; try done. by destruct Hne. }
  destruct (align_spec x y a b e Hx Hy Ea) as (-> & -> & He).
  destruct (units_val e He) as [Hu Hp].
  destruct (fround_spec (a + b <? 0) (Z.abs (a + b)) 1 e) as (r & Hr & Hpk); [lia..|].
  rewrite Hu, Hp in Hr. exists r. rewrite <-Z.mul_add_distr_r, sign_scaled by done.
  split; [|done]. rewrite Z.abs_mul. rewrite (Z.abs_eq (2 ^ _)); [done|].
  pose proof (pow2_pos (e + 1074) ltac:(lia)). lia.
Qed.

Lemma fin_opp x : fin x → fin (opp x) ∧ val (opp x) = - val x.
Proof.
  intros [Hf Hw]. destruct x as [| | |m e]; try done; simpl.
  - split; [split; [done|by left]|done].
  - destruct (Z.eqb_spec m 0) as [->|Hm]; simpl; [done|]. split; [|lia]. split; [done|]. simpl.
    destruct Hw as [[??]|(Ho & ? & ? & ?)]; [done|right]. split_and!; [|lia..].
    destruct Ho as [i ->]. exists (- i - 1). lia.
Qed.

Lemma sub_spec x y :
  fin x → fin y →
  ∃ r, rounds (Z.abs (val x - val y)) 1 r ∧ packed (val x - val y <? 0) r (sub x y).
Proof.
  intros Hx Hy. destruct (fin_opp y Hy) as [Hy' Ev].
  destruct (add_spec x (opp y) Hx Hy') as (r & Hr & Hp). rewrite Ev in Hr, Hp.
  by exists r.
Qed.

Lemma scaled_mul a b : -1074 ≤ a → -1074 ≤ b →
  2 ^ (a + 1074) * 2 ^ (b + 1074) * parts (a + b) = units (a + b) * one.
Proof. intros. unfold parts, units, one. rewrite <-!Z.pow_add_r by lia. f_equal. lia. Qed.

Lemma mul_spec x y :
  fin x → fin y →
  ∃ r, rounds (Z.abs (val x * val y)) one r ∧ packed (xorb (negative x) (negative y)) r (mul x y).
Proof.
  intros Hx Hy.
  assert (mul x y = fround (xorb (negative x) (negative y)) (Z.abs (mant x * mant y)) 1 (expn x + expn y)) as ->.
  { destruct Hx as [Hx _], Hy as [Hy _]. by destruct x, y. }
  destruct (fin_val x Hx) as [-> Hex], (fin_val y Hy) as [-> Hey].
  destruct (fround_spec (xorb (negative x) (negative y)) (Z.abs (mant x * mant y)) 1 (expn x + expn y)) as (r & Hr & Hpk); [lia..|].
  exists r. split; [|exact Hpk].
  pose proof (parts_pos (expn x + expn y)). pose proof one_pos.
  eapply rounds_ratio; [..|exact Hr]; [lia..|].
  rewrite !Z.abs_mul, !(Z.abs_eq (2 ^ _)) by (apply Z.pow_nonneg; lia).
  rewrite Z.mul_1_l.
  transitivity (Z.abs (mant x) * Z.abs (mant y) * (units (expn x + expn y) * one)); [ring|].
  rewrite <-scaled_mul by done. ring.
Qed.

Lemma scaled_div a b : -1074 ≤ a → -1074 ≤ b →
  2 ^ (a + 1074) * one * parts (a - b) = units (a - b) * 2 ^ (b + 1074).
Proof. intros. unfold parts, units, one. rewrite <-!Z.pow_add_r by lia. f_equal. lia. Qed.

Lemma div_spec x y :
  fin x → fin y → val y ≠ 0 →
  ∃ r, rounds (Z.abs (val x) * one) (Z.abs (val y)) r ∧
       packed (xorb (negative x) (negative y)) r (div x y).
Proof.
  intros Hx Hy Hy0.
  destruct (fin_val x Hx) as [-> Hex], (fin_val y Hy) as [Evy Hey]. rewrite Evy in Hy0 |- *.
  assert (mant y ≠ 0) as Hm by nia.
  assert (div x y = fround (xorb (negative x) (negative y)) (Z.abs (mant x)) (Z.abs (mant y)) (expn x - expn y)) as ->.
  { destruct Hx as [Hx _], Hy as [Hy _]. destruct x, y as [| | |[]]; done. }
  pose proof one_pos. pose proof (pow2_pos (expn y + 1074) ltac:(lia)).
  destruct (fround_spec (xorb (negative x) (negative y)) (Z.abs (mant x)) (Z.abs (mant y)) (expn x - expn y)) as (r & Hr & Hpk); [lia..|].
  exists r. split; [|exact Hpk].
  pose proof (parts_pos (expn x - expn y)).
  rewrite !Z.abs_mul, !(Z.abs_eq (2 ^ _)) by (apply Z.pow_nonneg; lia).
  eapply rounds_ratio; [..|exact Hr]; [nia..|].
  transitivity (Z.abs (mant x) * Z.abs (mant y) * (units (expn x - expn y) * 2 ^ (expn y + 1074))); [ring|].
  rewrite <-scaled_div by done. ring.
Qed.

Lemma ltb_val x y : fin x → fin y → ltb x y = (val x <? val y).
Proof.
  intros Hx Hy. destruct (align x y) as [[a b] e] eqn:Ea.
  destruct (align_spec x y a b e Hx Hy Ea) as (-> & -> & He).
  pose proof (pow2_pos (e + 1074) ltac:(lia)).
  transitivity (a <? b).
  - destruct Hx as [Hx _], Hy as [Hy _].
    destruct x, y; try discriminate; unfold ltb; by rewrite Ea.
  - destruct (Z.ltb_spec a b), (Z.ltb_spec (a * 2 ^ (e + 1074)) (b * 2 ^ (e + 1074))); nia.
Qed.

Lemma eqb_val x y : fin x → fin y → eqb x y = (val x =? val y).
Proof.
  intros Hx Hy. destruct (align x y) as [[a b] e] eqn:Ea.
  destruct (align_spec x y a b e Hx Hy Ea) as (-> & -> & He).
  pose proof (pow2_pos (e + 1074) ltac:(lia)).
  transitivity (a =? b).
  - destruct Hx as [Hx _], Hy as [Hy _].
    destruct x, y; try discriminate; unfold eqb; by rewrite Ea.
  - destruct (Z.eqb_spec a b), (Z.eqb_spec (a * 2 ^ (e + 1074)) (b * 2 ^ (e + 1074))); nia.
Qed.

Lemma leb_val x y : fin x → fin y → leb x y = (val x <=? val y).
Proof.
  intros Hx Hy. unfold leb. rewrite ltb_val, eqb_val by done.
  destruct (Z.ltb_spec (val x) (val y)), (Z.eqb_spec (val x) (val y)), (Z.leb_spec (val x) (val y)); simpl; lia.
Qed.

(** Equal values in normal form are the same number, signed zero apart. *)
Lemma val_inj x y : fin x → fin y → x ≠ NegZero → y ≠ NegZero → val x = val y → x = y.
Proof.
  intros [Hx Wx] [Hy Wy] ?? E. destruct x as [| | |m e], y as [| | |m' e']; try done. simpl in *.
  assert (∀ m e m' e', Z.Odd m → -1074 ≤ e → -1074 ≤ e' → m * 2 ^ (e + 1074) = m' * 2 ^ (e' + 1074) → e' ≤ e) as Hle.
  { clear. intros m e m' e' [i Hi] He He' E. destruct (Z.le_gt_cases e' e); [done|exfalso].
    replace (e' + 1074) with ((e + 1074) + (1 + (e' - e - 1))) in E by lia.
    pose proof (pow2_pos (e + 1074) ltac:(lia)).
    rewrite (Z.pow_add_r 2 (e + 1074)), (Z.pow_add_r 2 1) in E by lia.
    change (2 ^ 1) with 2 in E. set (q := 2 ^ (e' - e - 1)) in E.
    assert (m = 2 * (m' * q)) as Hm by nia. rewrite Hm in Hi. lia. }
  destruct Wx as [[-> ->]|(Ho & He & _ & _)], Wy as [[-> ->]|(Ho' & He' & _ & _)]; [done|..].
  - exfalso. destruct Ho' as [i Hi]. pose proof (pow2_pos (e' + 1074) ltac:(lia)).
    rewrite Z.mul_0_l in E. symmetry in E. apply Z.mul_eq_0 in E. lia.
  - exfalso. destruct Ho as [i Hi]. pose proof (pow2_pos (e + 1074) ltac:(lia)).
    rewrite Z.mul_0_l in E. apply Z.mul_eq_0 in E. lia.
  - assert (e = e') as -> by (apply Z.le_antisymm; eauto).
    f_equal. pose proof (pow2_pos (e' + 1074) ltac:(lia)). nia.
Qed.

(** ** Integers, [Math.round], [Math.floor], [Math.min] and [Math.max] *)

Lemma of_Z_spec z : Z.abs z ≤ 2 ^ 53 → fin (of_Z z) ∧ val (of_Z z) = z * one.
Proof.
  intros Hz. unfold of_Z. pose proof one_pos.
  destruct (fround_spec (z <? 0) (Z.abs z) 1 0) as (r & Hr & Hp); [lia..|].
  change (units 0) with one in Hr. change (parts 0) with 1 in Hr.
  assert (r = Z.abs z * one) as ->.
  { eapply rounds_exact; [|exact Hr| |]; [lia| |lia].
    apply representable_shift; [lia|]. apply representable_int. lia. }
  apply packed_fin in Hp as [Hf Hv].
  - split; [done|]. rewrite Hv. destruct (Z.ltb_spec z 0); lia.
  - unfold one. replace 2098 with (1024 + 1074) by done. rewrite (Z.pow_add_r 2 1024) by lia.
    apply Z.mul_lt_mono_pos_r; [lia|]. eapply Z.le_lt_trans; [exact Hz|]. by apply Z.pow_lt_mono_r.
Qed.

Lemma of_Z_not_negzero z : Z.abs z ≤ 2 ^ 53 → of_Z z ≠ NegZero.
Proof.
  intros Hz E. destruct (of_Z_spec z Hz) as [_ Hv]. rewrite E in Hv. pose proof one_pos.
  assert (z = 0) as -> by (simpl in Hv; nia). done.
Qed.

Lemma int_num_spec neg z :
  Z.abs z ≤ 2 ^ 53 → (z < 0 → neg = true) → (0 < z → neg = false) →
  fin (int_num neg z) ∧ val (int_num neg z) = z * one.
Proof.
  intros Hz Hneg Hpos. unfold int_num. pose proof one_pos.
  pose proof (pack_spec neg (Z.abs z) 0 ltac:(lia) ltac:(lia)) as Hp.
  change (2 ^ (0 + 1074)) with one in Hp.
  apply packed_fin in Hp as [Hf Hv].
  - split; [done|]. rewrite Hv.
    destruct (Z.lt_trichotomy z 0) as [Hl|[->|Hg]]; [rewrite Hneg by done|by destruct neg|rewrite Hpos by done]; lia.
  - unfold one. replace 2098 with (1024 + 1074) by done. rewrite (Z.pow_add_r 2 1024) by lia.
    apply Z.mul_lt_mono_pos_r; [lia|]. eapply Z.le_lt_trans; [exact Hz|]. by apply Z.pow_lt_mono_r.
Qed.

(** [Math.round] on the value: the floor of the value plus a half. *)
Lemma round_spec x :
  fin x → fin (round x) ∧ val (round x) = (2 * val x + one) / (2 * one) * one.
Proof.
  intros [Hf Hw]. pose proof one_pos. destruct x as [| | |m e]; try done.
  unfold round. destruct (Z.ltb_spec e 0) as [He|He].
  - destruct Hw as [[_ ->]|(_ & Hlo & Hm & _)]; [lia|].
      set (z := Z.shiftr _ _). assert (z = (2 * m + 2 ^ (- e)) / 2 ^ (1 - e)) as Ez.
      { unfold z. rewrite Z.shiftr_div_pow2, Z.shiftl_mul_pow2 by lia. do 2 f_equal. lia. }
      assert (2 ^ (1 - e) = 2 * 2 ^ (- e)) as E2.
      { replace (1 - e) with (1 + - e) by lia. by rewrite Z.pow_add_r by lia. }
      rewrite E2 in Ez. assert (2 ≤ 2 ^ (- e)) as Hd.
      { change 2 with (2 ^ 1) at 1. apply Z.pow_le_mono_r; lia. }
      pose proof (Z.div_mod (2 * m + 2 ^ (- e)) (2 * 2 ^ (- e)) ltac:(lia)) as Hdm.
      pose proof (Z.mod_pos_bound (2 * m + 2 ^ (- e)) (2 * 2 ^ (- e)) ltac:(lia)) as Hmod.
      rewrite <-Ez in Hdm. clearbody z. set (d := 2 ^ (- e)) in *.
      assert (Z.abs z ≤ 2 ^ 53) as Hz by nia.
      destruct (int_num_spec (m <? 0) z Hz) as [Hfi Hv].
      { intros. apply Z.ltb_lt. nia. }
      { intros. apply Z.ltb_ge. nia. }
      split; [done|]. rewrite Hv. f_equal. rewrite Ez. simpl val.
      assert (one = 2 ^ (e + 1074) * d) as Eo.
      { unfold one, d. rewrite <-Z.pow_add_r by lia. f_equal. lia. }
      rewrite Eo. pose proof (pow2_pos (e + 1074) ltac:(lia)).
      rewrite <-(Z.div_mul_cancel_r (2 * m + d) (2 * d) (2 ^ (e + 1074))) by lia.
      f_equal; ring.
  - split; [done|]. simpl val.
      assert (2 ^ (e + 1074) = 2 ^ e * one) as -> by (unfold one; by rewrite <-Z.pow_add_r by lia).
      rewrite Z.mul_assoc. f_equal. symmetry.
      replace (2 * (m * 2 ^ e * one) + one) with (one + m * 2 ^ e * (2 * one)) by ring.
      rewrite Z.div_add by lia. rewrite Z.div_small by lia. lia.
Qed.

Lemma floor_spec x :
  fin x → fin (floor x) ∧ val (floor x) = val x / one * one.
Proof.
  intros [Hf Hw]. pose proof one_pos. destruct x as [| | |m e]; try done.
  unfold floor. destruct (Z.ltb_spec e 0) as [He|He].
  - destruct Hw as [[_ ->]|(_ & Hlo & Hm & _)]; [lia|].
    set (z := Z.shiftr _ _). assert (z = m / 2 ^ (- e)) as Ez.
    { unfold z. by rewrite Z.shiftr_div_pow2 by lia. }
    assert (2 ≤ 2 ^ (- e)) as Hd.
    { change 2 with (2 ^ 1) at 1. apply Z.pow_le_mono_r; lia. }
    pose proof (Z.div_mod m (2 ^ (- e)) ltac:(lia)) as Hdm.
    pose proof (Z.mod_pos_bound m (2 ^ (- e)) ltac:(lia)) as Hmod.
    rewrite <-Ez in Hdm. clearbody z. set (d := 2 ^ (- e)) in *.
    assert (Z.abs z ≤ 2 ^ 53) as Hz by nia.
    destruct (int_num_spec (m <? 0) z Hz) as [Hfi Hv].
    { intros. apply Z.ltb_lt. nia. }
    { intros. apply Z.ltb_ge. nia. }
    split; [done|]. rewrite Hv. f_equal. rewrite Ez. simpl val.
    assert (one = 2 ^ (e + 1074) * d) as Eo.
    { unfold one, d. rewrite <-Z.pow_add_r by lia. f_equal. lia. }
    rewrite Eo. pose proof (pow2_pos (e + 1074) ltac:(lia)).
    rewrite <-(Z.div_mul_cancel_r m d (2 ^ (e + 1074))) by lia. f_equal; ring.
  - split; [done|]. simpl val.
    assert (2 ^ (e + 1074) = 2 ^ e * one) as -> by (unfold one; by rewrite <-Z.pow_add_r by lia).
    rewrite Z.mul_assoc, Z.div_mul by lia. done.
Qed.

Lemma min_spec x y : fin x → fin y → fin (min x y) ∧ val (min x y) = Z.min (val x) (val y).
Proof.
  intros Hx Hy. pose proof (ltb_val x y Hx Hy) as El. pose proof (eqb_val x y Hx Hy) as Ee.
  assert (min x y = if ltb x y then x else if eqb x y then (if negative x then x else y) else y) as ->.
  { destruct Hx as [Hx _], Hy as [Hy _]. by destruct x, y. }
  rewrite El, Ee. destruct (Z.ltb_spec (val x) (val y)), (Z.eqb_spec (val x) (val y)), (negative x);
    (split; [done|lia]).
Qed.

Lemma max_spec x y : fin x → fin y → fin (max x y) ∧ val (max x y) = Z.max (val x) (val y).
Proof.
  intros Hx Hy. pose proof (ltb_val x y Hx Hy) as El. pose proof (eqb_val x y Hx Hy) as Ee.
  assert (max x y = if ltb x y then y else if eqb x y then (if negative x then y else x) else x) as ->.
  { destruct Hx as [Hx _], Hy as [Hy _]. by destruct x, y. }
  rewrite El, Ee. destruct (Z.ltb_spec (val x) (val y)), (Z.eqb_spec (val x) (val y)), (negative x);
    (split; [done|lia]).
Qed.

(** ** Products and quotients of magnitudes *)

Lemma negative_val x : fin x → 0 < val x → negative x = false.
Proof.
  intros [Hf Hw] Hv. destruct x as [| | |m e]; try done. simpl in *.
  apply Z.ltb_ge. destruct Hw as [[-> _]|(_ & He & _)]; [lia|]. pose proof (pow2_pos (e + 1074) ltac:(lia)). nia.
Qed.

Lemma magnitude neg r x :
  packed neg r x → r < 2 ^ 2098 → (r ≠ 0 → neg = false) → fin x ∧ val x = r.
Proof.
  intros Hp Hr Hn. destruct (packed_fin neg r x Hp Hr) as [Hf Hv]. split; [done|]. rewrite Hv.
  destruct (decide (r = 0)) as [->|H]; [by destruct neg|by rewrite Hn].
Qed.

Lemma rounds_0 Q r : 0 < Q → rounds 0 Q r → r = 0.
Proof. intros HQ Hr. apply (rounds_exact 0 Q r 0); [done..|by apply representable_int|lia]. Qed.

(** The product of two magnitudes that stays below the magnitude [h]. *)
Lemma mul_below x y h :
  fin x → fin y → 0 ≤ val x → 0 ≤ val y → representable h → h < 2 ^ 2098 → val x * val y ≤ h * one →
  fin (mul x y) ∧ 0 ≤ val (mul x y) ≤ h ∧ rounds (val x * val y) one (val (mul x y)).
Proof.
  intros Hx Hy Hvx Hvy Hh Hlt Hle. pose proof one_pos.
  destruct (mul_spec x y Hx Hy) as (r & Hr & Hp). rewrite Z.abs_eq in Hr by nia.
  assert (r ≤ h) as Hrh by (by eapply rounds_le).
  destruct (magnitude _ _ _ Hp ltac:(lia)) as [Hf Hv].
  { intros Hr0. destruct (decide (val x = 0)) as [E|]; [rewrite E, Z.mul_0_l in Hr; by apply rounds_0 in Hr|].
    destruct (decide (val y = 0)) as [E|]; [rewrite E, Z.mul_0_r in Hr; by apply rounds_0 in Hr|].
    by rewrite !negative_val by (done || lia). }
  rewrite Hv. split_and!; [done|eapply rounds_nonneg; [..|exact Hr]; nia|done|done].
Qed.

Lemma mul_exact x y h :
  fin x → fin y → 0 ≤ val x → 0 ≤ val y → representable h → h < 2 ^ 2098 → val x * val y = h * one →
  fin (mul x y) ∧ val (mul x y) = h.
Proof.
  intros Hx Hy Hvx Hvy Hh Hlt E. pose proof one_pos.
  destruct (mul_below x y h) as (Hf & _ & Hr); [done..|lia|]. split; [done|].
  eapply rounds_exact; [|exact Hr|done|done]. lia.
Qed.

Lemma div_exact x y h :
  fin x → fin y → 0 ≤ val x → 0 < val y → representable h → h < 2 ^ 2098 → val x * one = h * val y →
  fin (div x y) ∧ val (div x y) = h.
Proof.
  intros Hx Hy Hvx Hvy Hh Hlt E. pose proof one_pos.
  destruct (div_spec x y Hx Hy ltac:(lia)) as (r & Hr & Hp).
  rewrite (Z.abs_eq (val x)), (Z.abs_eq (val y)) in Hr by lia.
  assert (r = h) as -> by (eapply rounds_exact; [|exact Hr|done|done]; lia).
  apply (magnitude _ _ _ Hp Hlt). intros Hh0. rewrite (negative_val y) by done.
  rewrite negative_val; [done..|]. destruct (decide (val x = 0)) as [E0|]; [|lia].
  rewrite E0 in E. simpl in E. symmetry in E. apply Z.mul_eq_0 in E. lia.
Qed.

(** The sum of two magnitudes lies between representable bounds of it. *)
Lemma add_between x y l h :
  fin x → fin y → 0 ≤ val x → 0 ≤ val y → representable l → representable h → h < 2 ^ 2098 →
  l ≤ val x + val y ≤ h → fin (add x y) ∧ l ≤ val (add x y) ≤ h.
Proof.
  intros Hx Hy Hvx Hvy Hl Hh Hlt Hb.
  destruct (add_spec x y Hx Hy) as (r & Hr & Hp). rewrite Z.abs_eq in Hr by lia.
  assert (r ≤ h) by (eapply rounds_le; [|exact Hr|done|]; lia).
  assert (l ≤ r) by (eapply rounds_ge; [|exact Hr|done|]; lia).
  destruct (magnitude _ _ _ Hp ltac:(lia)) as [Hf ->]; [|done].
  intros _. apply Z.ltb_ge. lia.
Qed.

Lemma pow_lt_max k : k ≤ 2097 → 2 ^ k < 2 ^ 2098.
Proof. intros. apply Z.pow_lt_mono_r; lia. Qed.

End Js.
