(* ===== verification/Outbox.v ===== *)
(** * The transactional outbox

    src/src/services/domain-event-catalog.js, domain-event.service.js and
    domain-event-dispatcher.service.js: recording a domain event inside a
    business transaction, claiming due events under a lease, delivering them,
    retrying, dead-lettering, replaying and discarding. *)

From Stdlib Require Import Ascii.
From S2P Require Import Prelude Store Json.
Import Json.

Module Outbox.

(** ** The catalogue *)

Record event_spec := EventSpec {
  aggregateType : string;
  currentVersion : Z;
  versions : list Z
}.

(* src/src/services/domain-event-catalog.js:36-93 DOMAIN_EVENT_CATALOG *)
Definition DOMAIN_EVENT_CATALOG : list (string * event_spec) :=
  [ ("client_agent.run_requested", EventSpec "client_agent_run" 1 [1]);
    ("invoice.paid", EventSpec "invoice" 1 [1]);
    ("proposal.approved", EventSpec "proposal" 1 [1]);
    ("contract.signed", EventSpec "contract" 1 [1]) ].

Inductive outbox_error :=
  | UnknownType
  | UnknownSchemaVersion
  | InvalidPayload
  | InvalidId (field : string)
  | OrganizationMismatch
  | IdempotencyConflict
  | BatchSize
  | BadTimeout.

(* src/src/services/domain-event-catalog.js:119-125 getDomainEventSpec *)
Definition getDomainEventSpec (type : string) : result outbox_error event_spec :=
  match (list_to_map DOMAIN_EVENT_CATALOG : gmap string event_spec) !! type with
  | Some spec => Ok spec
  | None => Err UnknownType
  end.

Section validation.
(** Zod's [safeParse] of one catalogue schema: the parsed payload or nothing. *)
Variable safeParse : string → Z → json → option json.

(* src/src/services/domain-event-catalog.js:136-149 validateDomainEventPayload *)
Definition validateDomainEventPayload (type : string) (payload : json) (schemaVersion : option Z)
  : result outbox_error json :=
  spec ← getDomainEventSpec type;
  let version := default (currentVersion spec) schemaVersion in
  _ ← refuse_unless (bool_decide (version ∈ versions spec)) UnknownSchemaVersion;
  match safeParse type version payload with
  | Some data => Ok data
  | None => Err InvalidPayload
  end.
End validation.

(** ** The stored event *)

(* src/src/services/domain-event-dispatcher.service.js:26-26 DOMAIN_EVENT_STATUSES *)
Inductive status := Pending | Dispatching | Published | Dead | Discarded.
#[export] Instance status_eq_dec : EqDecision status.
Proof. solve_decision. Defined.

(* src/src/services/domain-event-dispatcher.service.js:28-28 SETTLED_STATUSES *)
Definition settled (s : status) : bool :=
  match s with Published | Discarded => true | _ => false end.

(** What the producer writes, never changed afterwards. *)
Record envelope := Envelope {
  organizationId : string;
  type : string;
  schemaVersion : Z;
  aggType : string;
  aggregateId : string;
  sequence : Z;
  payload : json;
  correlationId : string;
  causationId : option string;
  idempotencyKey : string;
  occurredAt : Z
}.

(** The dispatch bookkeeping, "the only mutable columns" of the table. *)
Record bookkeeping := Bookkeeping {
  status_ : status;
  attempts : Z;
  nextAttemptAt : Z;
  lastAttemptAt : option Z;
  lockedUntil : option Z;
  claimToken : option string;
  publishedAt : option Z;
  discardedAt : option Z;
  lastError : option string;
  replayCount : Z
}.

Record event := Event { env : envelope; bk : bookkeeping }.

(** The column defaults of a created row. *)
Definition fresh_bookkeeping (now : Z) : bookkeeping :=
  Bookkeeping Pending 0 now None None None None None None 0.

(** The key of the aggregate an event belongs to. *)
Definition aggregate (v : envelope) : string * string * string :=
  (organizationId v, aggType v, aggregateId v).
#[global] Arguments aggregate v : simpl never.

(** ** Recording *)

Definition MAX_ID_LENGTH : nat := 191.
Definition MAX_IDEMPOTENCY_KEY_LENGTH : nat := 255.

Definition trace_char (c : ascii) : bool :=
  let n := Z.of_nat (Ascii.nat_of_ascii c) in
  ((65 <=? n) && (n <=? 90)) || ((97 <=? n) && (n <=? 122)) || ((48 <=? n) && (n <=? 57)) ||
  existsb (Ascii.eqb c) (String.list_ascii_of_string "_:.@/+-").

(* src/src/services/domain-event.service.js:50-54 traceIdOrNull *)
Definition traceIdOrNull (value : option string) : option string :=
  match value with
  | None | Some "" => None
  | Some text =>
      if (String.length text <=? MAX_ID_LENGTH)%nat &&
         forallb trace_char (String.list_ascii_of_string text)
      then Some text else None
  end.

(* src/src/services/domain-event.service.js:56-61 requiredId *)
Definition requiredId (value : option string) (field : string) (max : nat) : result outbox_error string :=
  match value with
  | Some v =>
      if (String.length v =? 0)%nat || (max <? String.length v)%nat then Err (InvalidId field) else Ok v
  | None => Err (InvalidId field)
  end.

(** The parts of the request context and of the input a producer supplies. *)
Record request_context := RequestContext {
  contextOrganizationId : option string;
  requestId : option string
}.
Record event_input := EventInput {
  in_type : string;
  in_aggregateId : option string;
  in_payload : json;
  in_idempotencyKey : option string;
  in_organizationId : option string;
  in_correlationId : option string;
  in_causationId : option string;
  in_occurredAt : option Z
}.

(** [a ?? b] *)
Definition nullish {A} (a b : option A) : option A := match a with Some x => Some x | None => b end.

Section record.
Context {T : Type} {HT : Table T event}.
Variable safeParse : string → Z → json → option json.
Implicit Types (t : T).

Definition has_key (org key : string) (_ : string) (e : event) : bool :=
  bool_decide (organizationId (env e) = org) && bool_decide (idempotencyKey (env e) = key).
Definition in_aggregate (agg : string * string * string) (_ : string) (e : event) : bool :=
  bool_decide (aggregate (env e) = agg).

(** [aggregate({ where, _max: { sequence: true } })] *)
Definition max_sequence (agg : string * string * string) (t : T) : option Z :=
  foldr (λ kr acc, Some (match acc with
                         | Some m => Z.max (sequence (env kr.2)) m
                         | None => sequence (env kr.2)
                         end)) None (tselect (in_aggregate agg) t).

(** [domainEvent.create] under the table's unique constraints. *)
Inductive create_error := PrimaryKey | UniqueKey | UniqueSequence.
Definition create (id : string) (e : event) (t : T) : result create_error T :=
  _ ← refuse_unless (bool_decide (tget t id = None)) PrimaryKey;
  _ ← refuse_unless (bool_decide (tcount (has_key (organizationId (env e)) (idempotencyKey (env e))) t = 0%nat)) UniqueKey;
  _ ← refuse_unless (bool_decide (tcount (λ k r, in_aggregate (aggregate (env e)) k r &&
                                    (sequence (env r) =? sequence (env e))) t = 0%nat)) UniqueSequence;
  Ok (tinsert id e t).

Inductive record_error :=
  | Rejected (e : outbox_error)
  | Database (e : create_error).

Definition checked {A} (r : result outbox_error A) : result record_error A :=
  match r with Ok a => Ok a | Err e => Err (Rejected e) end.

(** The same key must describe the same fact. *)
Definition same_fact (existing : envelope) (type_ aggType_ aggId : string) (version : Z) (pl : json) : bool :=
  bool_decide (type existing = type_) && bool_decide (aggType existing = aggType_) &&
  bool_decide (aggregateId existing = aggId) && (schemaVersion existing =? version) &&
  bool_decide (canonicalJson (payload existing) = canonicalJson pl).

(** The validated envelope of an input, its sequence number still open. *)
Definition prepare (ctx : request_context) (input : event_input) (uuid : string) (now : Z)
  : result record_error (Z → envelope) :=
  spec ← checked (getDomainEventSpec (in_type input));
  pl ← checked (validateDomainEventPayload safeParse (in_type input) (in_payload input) None);
  org ← checked (requiredId (nullish (in_organizationId input) (contextOrganizationId ctx))
                            "organizationId" MAX_ID_LENGTH);
  _ ← refuse_unless (match contextOrganizationId ctx with
                     | Some c => bool_decide (c = "") || bool_decide (org = c)
                     | None => true
                     end) (Rejected OrganizationMismatch);
  aggId ← checked (requiredId (in_aggregateId input) "aggregateId" MAX_ID_LENGTH);
  key ← checked (requiredId (in_idempotencyKey input) "idempotencyKey" MAX_IDEMPOTENCY_KEY_LENGTH);
  let corr := default uuid (nullish (traceIdOrNull (in_correlationId input)) (traceIdOrNull (requestId ctx))) in
  let caus := traceIdOrNull (in_causationId input) in
  let occ := default now (in_occurredAt input) in
  Ok (λ n, Envelope org (in_type input) (currentVersion spec) (aggregateType spec) aggId n pl corr caus key occ).

(** [recordDomainEvent] with the ids it draws ([uuid], the row's [new_id]),
    the clock and [others]: what concurrent sessions commit between its
    look-ups and its insert, other aggregates only while the advisory lock
    of this one is held. *)
(* src/src/services/domain-event.service.js:110-184 recordDomainEvent *)
Definition recordDomainEvent (ctx : request_context) (input : event_input)
    (uuid new_id : string) (now : Z) (others : T → T) (t : T)
  : result record_error ((string * event) * bool) * T :=
  match prepare ctx input uuid now with
  | Err e => (Err e, t)
  | Ok mk =>
      let v := mk 0 in
      match tselect (has_key (organizationId v) (idempotencyKey v)) t with
      | (id, existing) :: _ =>
          if same_fact (env existing) (type v) (aggType v) (aggregateId v) (schemaVersion v) (payload v)
          then (Ok ((id, existing), true), t)
          else (Err (Rejected IdempotencyConflict), t)
      | [] =>
          let e := Event (mk (default 0 (max_sequence (aggregate v) t) + 1)) (fresh_bookkeeping now) in
          let t := others t in
          match create new_id e t with
          | Ok t' => (Ok ((new_id, e), false), t')
          | Err UniqueKey => (Err (Rejected IdempotencyConflict), t)
          | Err ce => (Err (Database ce), t)
          end
      end
  end.
(** ** Facts about recording *)

(** The envelope stored under an id. *)
Definition env_at (t : T) (id : string) : option envelope := env <$> tget t id.

(** The sequence numbers of every aggregate are 1, 2, 3, ... without a gap
    or a repetition, and an idempotency key names one event of its tenant. *)
Record recorded_ok (t : T) : Prop := {
  seq_pos id v : env_at t id = Some v → 1 ≤ sequence v;
  seq_contiguous id v m : env_at t id = Some v → 1 ≤ m < sequence v →
    ∃ id' v', env_at t id' = Some v' ∧ aggregate v' = aggregate v ∧ sequence v' = m;
  seq_unique id v id' v' : env_at t id = Some v → env_at t id' = Some v' →
    aggregate v = aggregate v' → sequence v = sequence v' → id = id';
  key_unique id v id' v' : env_at t id = Some v → env_at t id' = Some v' →
    organizationId v = organizationId v' → idempotencyKey v = idempotencyKey v' → id = id'
}.

(** A write that keeps every envelope keeps the recorded history. *)
Lemma recorded_ok_env t t' : (∀ id, env_at t' id = env_at t id) → recorded_ok t → recorded_ok t'.
Proof.
  intros E [Hp Hc Hu Hk]. split.
  - intros id v. rewrite E. apply Hp.
  - intros id v m. rewrite E. intros Hv Hm. destruct (Hc id v m Hv Hm) as (id' & v' & ? & ?).
    exists id', v'. by rewrite E.
  - intros id v id' v'. rewrite !E. apply Hu.
  - intros id v id' v'. rewrite !E. apply Hk.
Qed.

Lemma env_at_Some t id v : env_at t id = Some v ↔ ∃ b, tget t id = Some (Event v b).
Proof.
  unfold env_at. split.
  - destruct (tget t id) as [[v' b]|]; simpl; intros; simplify_eq. eauto.
  - by intros [b ->].
Qed.

Lemma max_sequence_spec agg t :
  match max_sequence agg t with
  | None => ∀ id v, env_at t id = Some v → aggregate v ≠ agg
  | Some m => (∃ id v, env_at t id = Some v ∧ aggregate v = agg ∧ sequence v = m) ∧
              ∀ id v, env_at t id = Some v → aggregate v = agg → sequence v ≤ m
  end.
Proof.
  assert (∀ l, match foldr (λ kr acc, Some (match acc with
                         | Some m => Z.max (sequence (env kr.2)) m
                         | None => sequence (env kr.2)
                         end)) None (l : list (string * event)) with
    | None => l = []
    | Some m => (∃ kr, kr ∈ l ∧ sequence (env kr.2) = m) ∧ ∀ kr, kr ∈ l → sequence (env kr.2) ≤ m
    end) as Hl.
  { induction l as [|kr l IH]; [done|]. cbn [foldr].
    destruct (foldr _ _ l) as [m|].
    - destruct IH as [(kr' & Hin & Hm) Hle]. split.
      + destruct (Z.max_spec (sequence (env kr.2)) m) as [[_ ->]|[_ ->]];
          [exists kr'|exists kr]; (split; [|done]); [by right|left].
      + intros x [->|Hx]%elem_of_cons; [lia|]. specialize (Hle x Hx). lia.
    - subst. split; [exists kr; split; [left|done]|]. intros x ->%list_elem_of_singleton. lia. }
  specialize (Hl (tselect (in_aggregate agg) t)). fold (max_sequence agg t) in Hl.
  assert (∀ id v, env_at t id = Some v → aggregate v = agg →
            ∃ b, (id, Event v b) ∈ tselect (in_aggregate agg) t) as Hin.
  { intros id v [b Hb]%env_at_Some Ha. exists b. apply tselect_spec. split; [done|].
    by apply bool_decide_eq_true. }
  destruct (max_sequence agg t) as [m|].
  - destruct Hl as [([id [v b]] & Hs & Hm) Hle]. apply tselect_spec in Hs as [Hg Ha].
    unfold in_aggregate in Ha. bool_simplify. split.
    + exists id, v. split; [|done]. apply env_at_Some. eauto.
    + intros id' v' Hv' Ha'. destruct (Hin _ _ Hv' Ha') as [b' Hb']. by apply (Hle _ Hb').
  - intros id v Hv Ha. destruct (Hin _ _ Hv Ha) as [b Hb]. rewrite Hl in Hb. by apply not_elem_of_nil in Hb.
Qed.

Lemma env_at_insert t id e id' :
  env_at (tinsert id e t) id' = if decide (id = id') then Some (env e) else env_at t id'.
Proof. unfold env_at. rewrite tget_insert. by case_decide. Qed.

Lemma has_key_iff org key id e :
  has_key org key id e = true ↔ organizationId (env e) = org ∧ idempotencyKey (env e) = key.
Proof. unfold has_key. by rewrite andb_true_iff', !bool_decide_eq_true. Qed.

Lemma in_aggregate_iff agg id e : in_aggregate agg id e = true ↔ aggregate (env e) = agg.
Proof. apply bool_decide_eq_true. Qed.

Lemma create_ok id e t t' :
  create id e t = Ok t' →
  t' = tinsert id e t ∧ tget t id = None ∧
  (∀ id' v, env_at t id' = Some v → organizationId v = organizationId (env e) →
            idempotencyKey v ≠ idempotencyKey (env e)) ∧
  (∀ id' v, env_at t id' = Some v → aggregate v = aggregate (env e) → sequence v ≠ sequence (env e)).
Proof.
  unfold create. intros (? & ?%refuse_unless_ok & (? & ?%refuse_unless_ok & (? & ?%refuse_unless_ok & ?)%bind_ok)%bind_ok)%bind_ok.
  bool_simplify. split_and!; [done|done|..].
  - intros id' v [b Hb]%env_at_Some Ho Hk.
    enough (has_key (organizationId (env e)) (idempotencyKey (env e)) id' (Event v b) = true)
      by (rewrite (proj1 (tcount_zero _ _) H0 _ _ Hb) in *; done).
    by apply has_key_iff.
  - intros id' v [b Hb]%env_at_Some Ho Hk.
    pose proof (proj1 (tcount_zero _ _) H1 _ _ Hb) as Hf. cbn [env] in Hf.
    rewrite (proj2 (in_aggregate_iff _ _ (Event v b)) Ho) in Hf.
    cbn in Hf. rewrite Hk, Z.eqb_refl in Hf. done.
Qed.

(** The envelope [prepare] returns, with its sequence number put in. *)
Definition at_sequence (v : envelope) (n : Z) : envelope :=
  Envelope (organizationId v) (type v) (schemaVersion v) (aggType v) (aggregateId v) n
    (payload v) (correlationId v) (causationId v) (idempotencyKey v) (occurredAt v).

Lemma prepare_at ctx input uuid now mk :
  prepare ctx input uuid now = Ok mk → ∀ n, mk n = at_sequence (mk 0) n.
Proof.
  unfold prepare. intros H n.
  repeat (apply bind_ok in H as (? & ? & H)). by simplify_eq.
Qed.

(** Only the trace id and the timestamp depend on what the call draws. *)
Lemma prepare_again ctx input uuid now mk uuid' now' :
  prepare ctx input uuid now = Ok mk →
  ∃ mk', prepare ctx input uuid' now' = Ok mk' ∧
    organizationId (mk' 0) = organizationId (mk 0) ∧ idempotencyKey (mk' 0) = idempotencyKey (mk 0) ∧
    type (mk' 0) = type (mk 0) ∧ aggType (mk' 0) = aggType (mk 0) ∧
    aggregateId (mk' 0) = aggregateId (mk 0) ∧ schemaVersion (mk' 0) = schemaVersion (mk 0) ∧
    payload (mk' 0) = payload (mk 0).
Proof.
  unfold prepare. intros H.
  repeat (apply bind_ok in H as (? & ?H & H)). simplify_eq.
  repeat (match goal with E : ?r = Ok _ |- context [?r] => rewrite E; cbn end).
  eexists. split; [done|]. done.
Qed.

Lemma same_fact_iff v type_ aggType_ aggId version pl :
  same_fact v type_ aggType_ aggId version pl = true ↔
  type v = type_ ∧ aggType v = aggType_ ∧ aggregateId v = aggId ∧ schemaVersion v = version ∧
  canonicalJson (payload v) = canonicalJson pl.
Proof. unfold same_fact. rewrite !andb_true_iff', !bool_decide_eq_true, Z.eqb_eq. tauto. Qed.

(** The look-up by idempotency key finds the one event that carries it. *)
Lemma select_by_key t id e :
  recorded_ok t → tget t id = Some e →
  tselect (has_key (organizationId (env e)) (idempotencyKey (env e))) t = [(id, e)].
Proof.
  intros Hok Hg. pose proof (tselect_nodup (has_key (organizationId (env e)) (idempotencyKey (env e))) t) as Hnd.
  assert ((id, e) ∈ tselect (has_key (organizationId (env e)) (idempotencyKey (env e))) t) as Hin.
  { apply tselect_spec. split; [done|]. by apply has_key_iff. }
  assert (∀ kr, kr ∈ tselect (has_key (organizationId (env e)) (idempotencyKey (env e))) t → kr.1 = id) as Hall.
  { intros [id' e'] [Hg' [Ho Hk]%has_key_iff]%tselect_spec. simpl.
    apply (key_unique t Hok id' (env e') id (env e)); unfold env_at; rewrite ?Hg, ?Hg'; done. }
  destruct (tselect _ t) as [|x [|y l]]; [by apply not_elem_of_nil in Hin| |].
  - by apply list_elem_of_singleton in Hin as ->.
  - exfalso. rewrite !fmap_cons in Hnd. apply NoDup_cons in Hnd as [Hnd _]. apply Hnd.
    rewrite (Hall x), <-(Hall y); [left|right; left|left].
Qed.

Lemma recorded_ok_insert t id v b :
  recorded_ok t → tget t id = None →
  (∀ id' w, env_at t id' = Some w → organizationId w = organizationId v → idempotencyKey w ≠ idempotencyKey v) →
  (∀ id' w, env_at t id' = Some w → aggregate w = aggregate v → sequence w < sequence v) →
  1 ≤ sequence v →
  (∀ m, 1 ≤ m < sequence v → ∃ id' w, env_at t id' = Some w ∧ aggregate w = aggregate v ∧ sequence w = m) →
  recorded_ok (tinsert id (Event v b) t).
Proof.
  intros [Hp Hc Hu Hk] Hnone Hkey Hseq Hpos Hcont.
  assert (env_at t id = None) as Hne by (unfold env_at; by rewrite Hnone).
  assert (∀ m w, (∃ id' w', env_at t id' = Some w' ∧ aggregate w' = aggregate w ∧ sequence w' = m) →
           ∃ id' w', env_at (tinsert id (Event v b) t) id' = Some w' ∧ aggregate w' = aggregate w ∧ sequence w' = m) as Hlift.
  { intros m w (id' & w' & Hw' & ?). exists id', w'. rewrite env_at_insert.
    case_decide; [congruence|done]. }
  split.
  - intros i w. rewrite env_at_insert. case_decide; simpl; intros; simplify_eq; eauto.
  - intros i w m. rewrite env_at_insert. case_decide; simpl; intros; simplify_eq; eauto.
  - intros i w i' w'. rewrite !env_at_insert.
    case_decide; case_decide; simpl; intros Hw Hw'; simplify_eq; intros Ha Hs; [done|..|eauto].
    + specialize (Hseq _ _ Hw' (eq_sym Ha)). lia.
    + specialize (Hseq _ _ Hw Ha). lia.
  - intros i w i' w'. rewrite !env_at_insert.
    case_decide; case_decide; simpl; intros Hw Hw'; simplify_eq; intros Ha Hs; [done|..|eauto].
    + by destruct (Hkey _ _ Hw' (eq_sym Ha)).
    + by destruct (Hkey _ _ Hw Ha).
Qed.
End record.

(** ** Properties of recording *)

Section record_properties.
Context {T : Type} {HT : Table T event}.
Variable safeParse : string → Z → json → option json.
Variables (others : T → T).
Implicit Types (t : T).

(** What the advisory lock and the unique indexes of the other sessions
    guarantee while this one holds the lock of [agg]. *)
Definition lock_respected (agg : string * string * string) : Prop :=
  (∀ t id v, aggregate v = agg → env_at (others t) id = Some v ↔ env_at t id = Some v) ∧
  (∀ t, recorded_ok t → recorded_ok (others t)).

(** The aggregate a validated input writes to. *)
Definition locks_respected (ctx : request_context) (input : event_input) : Prop :=
  ∀ mk uuid now, prepare safeParse ctx input uuid now = Ok mk → lock_respected (aggregate (mk 0)).

Lemma max_sequence_others agg t :
  lock_respected agg → max_sequence agg (others t) = max_sequence agg t.
Proof.
  intros [Hl _]. pose proof (max_sequence_spec agg t) as H1.
  pose proof (max_sequence_spec agg (others t)) as H2.
  destruct (max_sequence agg t) as [m|], (max_sequence agg (others t)) as [m'|]; [|exfalso..|done].
  - destruct H1 as [(id & v & Hv & Ha & Hs) H1], H2 as [(id' & v' & Hv' & Ha' & Hs') H2].
    apply (proj1 (Hl t id' v' Ha')) in Hv'. apply (proj2 (Hl t id v Ha)) in Hv.
    specialize (H1 _ _ Hv' Ha'). specialize (H2 _ _ Hv Ha). f_equal. lia.
  - destruct H1 as [(id & v & Hv & Ha & Hs) _]. apply (proj2 (Hl t id v Ha)) in Hv. by eapply H2.
  - destruct H2 as [(id & v & Hv & Ha & Hs) _]. apply (proj1 (Hl t id v Ha)) in Hv. by eapply H1.
Qed.

(** Every row the insert competes with has a smaller sequence number. *)
Lemma sequence_fresh agg t id v :
  lock_respected agg → env_at (others t) id = Some v → aggregate v = agg →
  sequence v < default 0 (max_sequence agg t) + 1.
Proof.
  intros Hl Hv Ha. rewrite <-(max_sequence_others agg t Hl).
  pose proof (max_sequence_spec agg (others t)) as H.
  destruct (max_sequence agg (others t)) as [m|]; simpl.
  - destruct H as [_ H]. specialize (H _ _ Hv Ha). lia.
  - by destruct (H _ _ Hv).
Qed.

Lemma sequence_covered agg t m :
  recorded_ok (others t) → lock_respected agg → 1 ≤ m < default 0 (max_sequence agg t) + 1 →
  ∃ id v, env_at (others t) id = Some v ∧ aggregate v = agg ∧ sequence v = m.
Proof.
  intros Hok Hl. rewrite <-(max_sequence_others agg t Hl).
  pose proof (max_sequence_spec agg (others t)) as H.
  destruct (max_sequence agg (others t)) as [n|]; simpl; [|lia]. intros Hm.
  destruct H as [(id & v & Hv & Ha & Hn) _].
  destruct (decide (m = n)) as [->|]; [by exists id, v|].
  destruct (seq_contiguous _ Hok id v m Hv ltac:(lia)) as (id' & v' & ? & Ha' & ?).
  exists id', v'. split_and!; [done|congruence|done].
Qed.

(** Recording keeps the history of every aggregate
    contiguous from 1 and free of repetitions, and keeps an idempotency key
    unique within its tenant, whatever the call answers and whatever other
    sessions commit outside the aggregate it holds the lock of. *)
Lemma recordDomainEvent_recorded_ok ctx input uuid new_id now t :
  locks_respected ctx input → recorded_ok t →
  recorded_ok (recordDomainEvent safeParse ctx input uuid new_id now others t).2.
Proof.
  intros Hlock Hok. unfold recordDomainEvent.
  destruct (prepare safeParse ctx input uuid now) as [mk|] eqn:Ep; [|done].
  destruct (tselect _ t) as [|[id e] l]; [|by case_match].
  pose proof (Hlock _ _ _ Ep) as Hl. pose proof (prepare_at _ _ _ _ _ _ Ep) as Hat.
  set (n := default 0 _ + 1). destruct (create _ _ _) as [t'|[]] eqn:Ec; [|by apply Hl..].
  apply create_ok in Ec as (-> & Hnone & Hkey & _). cbn [env] in Hkey |- *.
  pose proof (proj2 Hl t Hok) as Hok'.
  assert (aggregate (mk n) = aggregate (mk 0)) as Ha by by rewrite Hat.
  assert (sequence (mk n) = n) as Hs by by rewrite Hat.
  assert (0 ≤ default 0 (max_sequence (aggregate (mk 0)) t)) as Hnn.
  { pose proof (max_sequence_spec (aggregate (mk 0)) t) as H. destruct (max_sequence _ t) as [m|]; [|done].
    destruct H as [(i & v & Hv & _ & <-) _]. pose proof (seq_pos _ Hok _ _ Hv). simpl. lia. }
  apply recorded_ok_insert; [done..|rewrite Ha, Hs|rewrite Hs; lia|rewrite Ha, Hs].
  - intros i w Hw Hwa. by eapply sequence_fresh.
  - intros m Hm. by apply sequence_covered.
Qed.

(** A call that records a new event stores exactly one row
    under the id it drew, pending, never attempted, numbered one above the
    aggregate's last event and carrying the validated input; every row other
    sessions wrote is left as they wrote it.  With the lock held the
    sequence number is never refused by its unique index. *)
Lemma recordDomainEvent_new ctx input uuid new_id now t :
  locks_respected ctx input →
  match recordDomainEvent safeParse ctx input uuid new_id now others t with
  | (Ok ((id, e), false), t') =>
      id = new_id ∧ t' = tinsert id e (others t) ∧ bk e = fresh_bookkeeping now ∧
      ∃ mk, prepare safeParse ctx input uuid now = Ok mk ∧
            env e = mk (default 0 (max_sequence (aggregate (env e)) t) + 1) ∧
            sequence (env e) = default 0 (max_sequence (aggregate (env e)) t) + 1
  | (Ok (_, true), t') => t' = t
  | (Err err, t') => err ≠ Database UniqueSequence ∧ (t' = t ∨ t' = others t)
  end.
Proof.
  intros Hlock. unfold recordDomainEvent.
  destruct (prepare safeParse ctx input uuid now) as [mk|] eqn:Ep; cycle 1.
  { split; [|by left]. unfold prepare, checked in Ep. intros ->.
    repeat first [apply bind_err in Ep as [Ep|(? & ? & Ep)] | progress case_match; simplify_eq/= ];
      unfold refuse_unless in *; by repeat case_match. }
  destruct (tselect _ t) as [|[id e] l]; [|destruct (same_fact _ _ _ _ _ _); [done|by split; [|left]]].
  pose proof (Hlock _ _ _ Ep) as Hl. pose proof (prepare_at _ _ _ _ _ _ Ep) as Hat.
  set (n := default 0 _ + 1).
  assert (aggregate (mk n) = aggregate (mk 0)) as Ha by by rewrite Hat.
  assert (sequence (mk n) = n) as Hs by by rewrite Hat.
  destruct (create _ _ _) as [t'|ce] eqn:Ec.
  - apply create_ok in Ec as (-> & _). cbn [env]. split_and!; [done..|].
    exists mk. rewrite Ha. done.
  - assert (ce ≠ UniqueSequence) as Hce.
    { intros ->. unfold create in Ec.
      apply bind_err in Ec as [Ec|(? & _ & Ec)]; [unfold refuse_unless in Ec; by case_match|].
      apply bind_err in Ec as [Ec|(? & _ & Ec)]; [unfold refuse_unless in Ec; by case_match|].
      apply bind_err in Ec as [Ec|(? & _ & Ec)]; [|done].
      unfold refuse_unless in Ec. case_match eqn:Hc; [done|]. apply bool_decide_eq_false in Hc.
      apply Nat.neq_0_lt_0, tcount_pos in Hc as (i & [v b] & Hg & Hand).
      cbn [env] in Hand. apply andb_true_iff' in Hand as [Hi He%Z.eqb_eq]. apply in_aggregate_iff in Hi. simpl in Hi, He.
      assert (env_at (others t) i = Some v) as Hv by (apply env_at_Some; eauto).
      rewrite Ha in Hi. pose proof (sequence_fresh _ _ _ _ Hl Hv Hi). lia. }
    destruct ce; [|by split; [|right]|done]. by split; [|right].
Qed.

(** Recording is idempotent.  Once a call has answered with
    an event, every later call with the same input finds that event, answers
    [duplicate], and writes nothing, for as long as the row's envelope and
    the unique keys stand. *)
Lemma recordDomainEvent_idempotent ctx input uuid new_id now t id e dup t' :
  recordDomainEvent safeParse ctx input uuid new_id now others t = (Ok ((id, e), dup), t') →
  ∀ t2 uuid2 new_id2 now2, recorded_ok t2 → env_at t2 id = Some (env e) →
    ∃ e2, env e2 = env e ∧
      recordDomainEvent safeParse ctx input uuid2 new_id2 now2 others t2 = (Ok ((id, e2), true), t2).
Proof.
  intros H t2 uuid2 new_id2 now2 Hok Hat2. unfold recordDomainEvent in *.
  destruct (prepare safeParse ctx input uuid now) as [mk|] eqn:Ep; [|done].
  destruct (prepare_again _ _ _ _ _ _ uuid2 now2 Ep)
    as (mk' & -> & Ho & Hk & Hty & Hat & Hai & Hsv & Hpl).
  assert (organizationId (env e) = organizationId (mk 0) ∧ idempotencyKey (env e) = idempotencyKey (mk 0) ∧
          same_fact (env e) (type (mk 0)) (aggType (mk 0)) (aggregateId (mk 0)) (schemaVersion (mk 0))
            (payload (mk 0)) = true) as (Eo & Ek & Ef).
  { destruct (tselect _ t) as [|[id0 e0] l] eqn:Es.
    - destruct (create _ _ _) as [?|[]] eqn:Ec; simplify_eq. cbn [env].
      rewrite (prepare_at _ _ _ _ _ _ Ep). split_and!; [done..|]. by apply same_fact_iff.
    - destruct (same_fact _ _ _ _ _ _) eqn:Ef; simplify_eq.
      assert ((id, e) ∈ tselect (has_key (organizationId (mk 0)) (idempotencyKey (mk 0))) t') as Hin
        by (rewrite Es; left).
      by apply tselect_spec in Hin as [_ [? ?]%has_key_iff]. }
  apply env_at_Some in Hat2 as [b Hg].
  pose proof (select_by_key t2 id (Event (env e) b) Hok Hg) as Hsel. cbn [env] in Hsel.
  rewrite Ho, Hk, <-Eo, <-Ek, Hsel.
  rewrite Hty, Hat, Hai, Hsv, Hpl. cbn [env]. rewrite Ef. by exists (Event (env e) b).
Qed.

(** What an event says happened. *)
Definition fact (v : envelope) : string * string * string * Z * json :=
  (type v, aggType v, aggregateId v, schemaVersion v, canon (payload v)).

(** An idempotency key already used in the tenant answers the
    stored event exactly when the new input describes the same fact (type,
    aggregate, schema version and payload up to the order of object keys),
    and is a conflict otherwise; neither writes anything. *)
Lemma recordDomainEvent_key_reused ctx input uuid new_id now t id e mk :
  recorded_ok t → tget t id = Some e → prepare safeParse ctx input uuid now = Ok mk →
  organizationId (env e) = organizationId (mk 0) → idempotencyKey (env e) = idempotencyKey (mk 0) →
  wf (payload (env e)) = true → wf (payload (mk 0)) = true →
  let call := recordDomainEvent safeParse ctx input uuid new_id now others t in
  (fact (env e) = fact (mk 0) ↔ call = (Ok ((id, e), true), t)) ∧
  (fact (env e) ≠ fact (mk 0) ↔ call = (Err (Rejected IdempotencyConflict), t)).
Proof.
  intros Hok Hg Ep Ho Hk Hw Hw'. unfold recordDomainEvent. rewrite Ep, <-Ho, <-Hk.
  rewrite (select_by_key t id e Hok Hg). cbv zeta.
  assert (same_fact (env e) (type (mk 0)) (aggType (mk 0)) (aggregateId (mk 0)) (schemaVersion (mk 0))
            (payload (mk 0)) = true ↔ fact (env e) = fact (mk 0)) as Hiff.
  { rewrite same_fact_iff, canonicalJson_inj by done. unfold fact. split.
    - by intros (-> & -> & -> & -> & ->).
    - intros E. by simplify_eq. }
  destruct (same_fact _ _ _ _ _ _).
  - split; [split; [done|intros _; by apply Hiff]|]. split; [|done]. intros []. by apply Hiff.
  - assert (fact (env e) ≠ fact (mk 0)) by (intros E; by apply Hiff in E). by split.
Qed.
End record_properties.

(** The shape of a recording transaction that ran undisturbed. *)
Lemma recordDomainEvent_shape {T} `{HT : !Table T event} safeParse ctx input uuid new_id now (t : T) :
  let t' := (recordDomainEvent safeParse ctx input uuid new_id now (λ t, t) t).2 in
  t' = t ∨
  ∃ e, t' = tinsert new_id e t ∧ tget t new_id = None ∧ bk e = fresh_bookkeeping now ∧
       (∀ id f, tget t id = Some f → aggregate (env f) = aggregate (env e) →
                sequence (env f) < sequence (env e)) ∧
       (recorded_ok t → recorded_ok t').
Proof.
  unfold recordDomainEvent.
  destruct (prepare safeParse ctx input uuid now) as [mk|] eqn:Ep; [|by left].
  destruct (tselect _ t) as [|[id e] l]; [|left; by case_match].
  set (n := default 0 _ + 1). destruct (create _ _ _) as [t'|[]] eqn:Ec; [|by left..].
  right. apply create_ok in Ec as (-> & Hnone & Hkey & _). eexists. split; [done|].
  assert (lock_respected (λ t : T, t) (aggregate (mk 0))) as Hl by done.
  assert (aggregate (mk n) = aggregate (mk 0)) as Ha by by rewrite (prepare_at _ _ _ _ _ _ Ep).
  assert (sequence (mk n) = n) as Hs by by rewrite (prepare_at _ _ _ _ _ _ Ep).
  cbn [env bk] in *. split_and!; [done|done|..].
  - intros i [v b] Hf Hfa. rewrite Hs. eapply (sequence_fresh (λ t, t)); [done|apply env_at_Some; eauto|].
    simpl in *. congruence.
  - intros Hok. simpl. apply recorded_ok_insert; [done..|rewrite Ha, Hs|rewrite Hs|rewrite Ha, Hs].
    + intros i w Hw Hwa. by eapply (sequence_fresh (λ t, t)).
    + pose proof (max_sequence_spec (aggregate (mk 0)) t) as H. unfold n.
      destruct (max_sequence _ t) as [m|]; [|done].
      destruct H as [(i & v & Hv & _ & <-) _]. pose proof (seq_pos _ Hok _ _ Hv). simpl. lia.
    + intros m Hm. by eapply (sequence_covered (λ t, t)).
Qed.

(** ** Witnesses *)

Section record_witnesses.
(** A validator that accepts every payload, as zod does one that matches. *)
Let accept : string → Z → json → option json := λ _ _ j, Some j.
Let ctx := RequestContext (Some "org1") (Some "req-1").
Let input := EventInput "invoice.paid" (Some "inv1") (JObj [("amount", JNum "10")]) (Some "pay:1")
               None None None None.
Let empty_table : gmap string event := ∅.

Lemma recorded_ok_empty : recorded_ok empty_table.
Proof. by split; intros ? ?; unfold env_at, empty_table, tget; simpl; rewrite lookup_empty. Defined.

Let e1 := Event (Envelope "org1" "invoice.paid" 1 "invoice" "inv1" 1 (JObj [("amount", JNum "10")])
                   "req-1" None "pay:1" 5) (fresh_bookkeeping 5).

Lemma recorded_ok_one : recorded_ok (tinsert "e1" e1 empty_table).
Proof.
  apply recorded_ok_insert; [apply recorded_ok_empty|done|..|done|simpl; lia];
    intros i w; unfold env_at, empty_table, tget; simpl; by rewrite lookup_empty.
Defined.

Lemma idle_respects agg : lock_respected (λ t : gmap string event, t) agg.
Proof. by split. Defined.

Lemma recordDomainEvent_recorded_ok_witness :
  recorded_ok (recordDomainEvent accept ctx input "u" "e1" 5 (λ t, t) empty_table).2.
Proof.
  apply (recordDomainEvent_recorded_ok accept (λ t, t)); [intros mk u n _; apply idle_respects|].
  apply recorded_ok_empty.
Defined.

Lemma first_call :
  recordDomainEvent accept ctx input "u" "e1" 5 (λ t, t) empty_table =
    (Ok (("e1", e1), false), tinsert "e1" e1 empty_table).
Proof. vm_compute. reflexivity. Qed.

Lemma recordDomainEvent_new_witness :
  ∃ t', recordDomainEvent accept ctx input "u" "e1" 5 (λ t, t) empty_table = (Ok (("e1", e1), false), t') ∧
        t' = tinsert "e1" e1 empty_table.
Proof.
  pose proof (recordDomainEvent_new accept (λ t, t) ctx input "u" "e1" 5 empty_table) as H.
  rewrite first_call in H |- *. eexists. split; [reflexivity|].
  apply H. intros mk u n _. apply idle_respects.
Defined.

Lemma recordDomainEvent_idempotent_witness :
  ∃ e2, recordDomainEvent accept ctx input "u2" "e2" 9 (λ t, t) (tinsert "e1" e1 empty_table) =
          (Ok (("e1", e2), true), tinsert "e1" e1 empty_table).
Proof.
  destruct (recordDomainEvent_idempotent accept (λ t, t) ctx input "u" "e1" 5 empty_table "e1" e1 false
              (tinsert "e1" e1 empty_table) first_call (tinsert "e1" e1 empty_table) "u2" "e2" 9
              recorded_ok_one eq_refl) as (e2 & _ & H).
  exists e2. exact H.
Defined.

Lemma recordDomainEvent_key_reused_witness :
  let other := EventInput "invoice.paid" (Some "inv2") (JObj [("amount", JNum "10")]) (Some "pay:1")
               None None None None in
  recordDomainEvent accept ctx other "u2" "e2" 9 (λ t, t) (tinsert "e1" e1 empty_table) =
    (Err (Rejected IdempotencyConflict), tinsert "e1" e1 empty_table).
Proof.
  intros other.
  apply (recordDomainEvent_key_reused accept (λ t, t) ctx other "u2" "e2" 9
           (tinsert "e1" e1 empty_table) "e1" e1
           (λ n, Envelope "org1" "invoice.paid" 1 "invoice" "inv2" n (JObj [("amount", JNum "10")])
             "req-1" None "pay:1" 9)); [apply recorded_ok_one|reflexivity..|].
  vm_compute. congruence.
Defined.
End record_witnesses.

End Outbox.
