(* ===== verification/Dispatcher.v ===== *)
(** * The outbox dispatcher

    src/src/services/domain-event-dispatcher.service.js: subscribers, retry
    delays, claiming under a lease, delivering, settling, dead-lettering,
    replaying and discarding, as operations on the event table; then every
    interleaving of those operations as a step relation. *)

From stdpp Require Import pretty relations.
From S2P Require Import Prelude Store Json JsNumber Outbox.
Import Json Outbox.

Module Dispatcher.

(** ** Defaults and subscribers *)

(* src/src/services/domain-event-dispatcher.service.js:49-51 MAX_REPLAYS_PER_EVENT *)
Definition MAX_REPLAYS_PER_EVENT : Z := 5.
Definition MAX_REPLAY_BATCH : nat := 50.
Definition MAX_ERROR_LENGTH : nat := 300.

(** What a subscriber throws, as far as the dispatcher looks at it. *)
Record failure := Failure {
  err_name : option string;
  err_code : option string;
  err_message : option string;
  err_string : string
}.

Record subscriber := Subscriber {
  sub_name : string;
  sub_types : option (list string);
  (** the outcome of the call made at a given tick *)
  handle : nat → string * event → Z → option failure
}.

(* src/src/services/domain-event-dispatcher.service.js:66-70 registerDomainEventSubscriber *)
Definition registerDomainEventSubscriber (s : subscriber) (registry : list subscriber)
  : result string (list subscriber) :=
  if bool_decide (sub_name s = "") then Err "A subscriber needs a name and a handle function"
  else if existsb (λ r, bool_decide (sub_name r = sub_name s)) registry then
    Err ("Domain event subscriber " +:+ sub_name s +:+ " is already registered")
  else Ok (registry ++ [s]).

(* src/src/services/domain-event-dispatcher.service.js:73-75 unregisterDomainEventSubscriber *)
Definition unregisterDomainEventSubscriber (name : string) (registry : list subscriber)
  : bool * list subscriber :=
  (existsb (λ r, bool_decide (sub_name r = name)) registry,
   filter (λ r, sub_name r ≠ name) registry).

(* src/src/services/domain-event-dispatcher.service.js:82-84 subscribersFor *)
Definition subscribersFor (type : string) (source : list subscriber) : list subscriber :=
  filter (λ s, match sub_types s with None => true | Some l => bool_decide (type ∈ l) end = true) source.

(* src/src/services/domain-event-dispatcher.service.js:154-159 describeDispatchError *)
Definition describeDispatchError (err : failure) : string :=
  let name := default "Error" (err_name err) in
  let code := match err_code err with Some c => " [" +:+ c +:+ "]" | None => "" end in
  let message := default (err_string err) (err_message err) in
  String.substring 0 MAX_ERROR_LENGTH (name +:+ code +:+ ": " +:+ message).

(* src/src/services/domain-event-dispatcher.service.js:127-134 DomainEventSubscriberTimeoutError *)
Definition timeout_failure (timeoutMs : Z) : failure :=
  Failure (Some "DomainEventSubscriberTimeoutError") (Some "SUBSCRIBER_TIMEOUT")
    (Some ("Subscribers did not finish within " +:+ pretty timeoutMs +:+ "ms")) "".

(** [2 ** n] for the exponents the code uses. *)
Definition two_pow (n : Z) : Js.num := Js.of_Z (2 ^ n).

(* src/src/services/domain-event-dispatcher.service.js:116-125 computeBackoffMs *)
Definition computeBackoffMs (attempts : Z) (baseDelayMs maxDelayMs random : Js.num) : Js.num :=
  let exponent := Z.min (Z.max 0 (attempts - 1)) 30 in
  let ceiling := Js.min maxDelayMs (Js.mul baseDelayMs (two_pow exponent)) in
  let jitter := Js.min (Js.max random (Js.of_Z 0)) (Js.of_Z 1) in
  Js.round (Js.add (Js.div ceiling (Js.of_Z 2)) (Js.mul (Js.div ceiling (Js.of_Z 2)) jitter)).

(** [new Date(t.getTime() + delay)]: the milliseconds of a finite number. *)
Definition ms_of (x : Js.num) : Z := Js.val x / Js.one.

(** ** Writes to the bookkeeping columns *)

Definition set_claimed (now lease : Z) (token : string) (b : bookkeeping) : bookkeeping :=
  Bookkeeping Dispatching (attempts b + 1) (nextAttemptAt b) (Some now) (Some lease) (Some token)
    (publishedAt b) (discardedAt b) (lastError b) (replayCount b).
Definition set_lease (lease : Z) (b : bookkeeping) : bookkeeping :=
  Bookkeeping (status_ b) (attempts b) (nextAttemptAt b) (lastAttemptAt b) (Some lease) (claimToken b)
    (publishedAt b) (discardedAt b) (lastError b) (replayCount b).
Definition set_published (at_ : Z) (b : bookkeeping) : bookkeeping :=
  Bookkeeping Published (attempts b) (nextAttemptAt b) (lastAttemptAt b) None None
    (Some at_) (discardedAt b) None (replayCount b).
Definition set_dead (err : string) (b : bookkeeping) : bookkeeping :=
  Bookkeeping Dead (attempts b) (nextAttemptAt b) (lastAttemptAt b) None None
    (publishedAt b) (discardedAt b) (Some err) (replayCount b).
Definition set_retry (next : Z) (err : string) (b : bookkeeping) : bookkeeping :=
  Bookkeeping Pending (attempts b) next (lastAttemptAt b) None None
    (publishedAt b) (discardedAt b) (Some err) (replayCount b).
Definition set_requeued (now : Z) (b : bookkeeping) : bookkeeping :=
  Bookkeeping Pending 0 now (lastAttemptAt b) (lockedUntil b) (claimToken b)
    (publishedAt b) (discardedAt b) (lastError b) (replayCount b + 1).
Definition set_discarded (now : Z) (b : bookkeeping) : bookkeeping :=
  Bookkeeping Discarded (attempts b) (nextAttemptAt b) (lastAttemptAt b) (lockedUntil b) (claimToken b)
    (publishedAt b) (Some now) (lastError b) (replayCount b).

Definition on_bk (f : bookkeeping → bookkeeping) (_ : string) (e : event) : event :=
  Event (env e) (f (bk e)).

(** [x < now] and [x <= now] on a nullable column: [NULL] is never true. *)
Definition before (x : option Z) (now : Z) : bool :=
  match x with Some t => t <? now | None => false end.

Section dispatcher.
Context {T : Type} {HT : Table T event}.
Implicit Types (t : T).

(** ** Claiming *)

Definition abandoned (now maxAttempts : Z) (_ : string) (e : event) : bool :=
  bool_decide (status_ (bk e) = Dispatching) && before (lockedUntil (bk e)) now &&
  (maxAttempts <=? attempts (bk e)).

Definition LEASE_EXPIRED : string :=
  "LeaseExpired: the claim was abandoned on its final attempt (worker crash or hang)".

(* src/src/services/domain-event-dispatcher.service.js:174-185 deadLetterAbandonedClaims *)
Definition deadLetterAbandonedClaims (now maxAttempts : Z) (t : T) : nat * T :=
  update_many (abandoned now maxAttempts) (on_bk (set_dead LEASE_EXPIRED)) t.

(** A predecessor in the aggregate that still blocks it. *)
Definition blocks (v : envelope) (_ : string) (p : event) : bool :=
  bool_decide (aggregate (env p) = aggregate v) && (sequence (env p) <? sequence v) &&
  negb (settled (status_ (bk p))).

Definition due (now maxAttempts : Z) (e : event) : bool :=
  (bool_decide (status_ (bk e) = Pending) && (nextAttemptAt (bk e) <=? now)) ||
  (bool_decide (status_ (bk e) = Dispatching) && before (lockedUntil (bk e)) now &&
   (attempts (bk e) <? maxAttempts)).

Definition eligible (now maxAttempts : Z) (t : T) (_ : string) (e : event) : bool :=
  due now maxAttempts e && bool_decide (tcount (blocks (env e)) t = 0%nat).

(** [ORDER BY "occurredAt", "sequence", "id"] *)
Definition claim_le (x y : string * event) : bool :=
  (occurredAt (env x.2) <? occurredAt (env y.2)) ||
  ((occurredAt (env x.2) =? occurredAt (env y.2)) &&
   ((sequence (env x.2) <? sequence (env y.2)) ||
    ((sequence (env x.2) =? sequence (env y.2)) && String.leb x.1 y.1))).

(** [FOR UPDATE SKIP LOCKED]: rows another session holds are passed over
    before the limit is applied. *)
Definition candidates (now maxAttempts : Z) (limit : nat) (locked : string → bool) (t : T)
  : list (string * event) :=
  take limit (filter (λ kr, locked kr.1 = false) (isort claim_le (tselect (eligible now maxAttempts t) t))).

(* src/src/services/domain-event-dispatcher.service.js:198-241 claimDomainEvents *)
Definition claimDomainEvents (now : Z) (limit : nat) (leaseMs maxAttempts : Z) (token : string)
    (locked : string → bool) (t : T) : list (string * event) * T :=
  let ids := (candidates now maxAttempts limit locked t).*1 in
  let claim := on_bk (set_claimed now (now + leaseMs) token) in
  ((λ kr, (kr.1, claim kr.1 kr.2)) <$> candidates now maxAttempts limit locked t,
   tupdate (λ k _, bool_decide (k ∈ ids)) claim t).

(** ** Settling *)

(** The row as this claim left it: still dispatching under its token. *)
Definition held_by (token : option string) (e : event) : bool :=
  bool_decide (status_ (bk e) = Dispatching) && bool_decide (claimToken (bk e) = token).

(* src/src/services/domain-event-dispatcher.service.js:243-249 settle *)
Definition settle (event : string * event) (data : bookkeeping → bookkeeping) (t : T) : bool * T :=
  let '(count, t') := update_many (on_id event.1 (held_by (claimToken (bk event.2)))) (on_bk data) t in
  (bool_decide (count = 1%nat), t').

(* src/src/services/domain-event-dispatcher.service.js:259-265 renewLease *)
Definition renewLease (event : string * event) (lease : Z) (t : T) : bool * T :=
  let '(count, t') := update_many (on_id event.1 (held_by (claimToken (bk event.2)))) (on_bk (set_lease lease)) t in
  (bool_decide (count = 1%nat), t').

(** ** One dispatcher run *)

Record options := Options {
  now : nat → Z;
  uuid : nat → string;
  random : nat → Js.num;
  (** the rows other sessions hold, and the order RETURNING yields rows in *)
  locked_rows : nat → string → bool;
  returning : list (string * event) → list (string * event);
  (** whether the delivery at a tick outlived its budget *)
  timed_out : nat → bool;
  (** [runInTenant]: the scope may itself fail *)
  runInTenant : nat → string → option failure → option failure;
  subscribers : list subscriber;
  batchSize : nat;
  maxRounds : nat;
  leaseMs : Z;
  subscriberTimeoutMs : Z;
  maxAttempts : Z;
  baseDelayMs : Js.num;
  maxDelayMs : Js.num
}.

Record summary := Summary {
  s_claimed : nat;
  s_published : nat;
  s_retried : nat;
  s_dead : nat;
  s_leaseLost : nat;
  s_abandoned : nat
}.

(** The state a run threads: the table, the ticks drawn from the clock and
    the random sources so far, and the summary. *)
Record run := Run { tab : T; tick : nat; sum : summary }.

Definition count_published (s : summary) : summary :=
  Summary (s_claimed s) (S (s_published s)) (s_retried s) (s_dead s) (s_leaseLost s) (s_abandoned s).
Definition count_retried (s : summary) : summary :=
  Summary (s_claimed s) (s_published s) (S (s_retried s)) (s_dead s) (s_leaseLost s) (s_abandoned s).
Definition count_dead (s : summary) : summary :=
  Summary (s_claimed s) (s_published s) (s_retried s) (S (s_dead s)) (s_leaseLost s) (s_abandoned s).
Definition count_lost (s : summary) : summary :=
  Summary (s_claimed s) (s_published s) (s_retried s) (s_dead s) (S (s_leaseLost s)) (s_abandoned s).
Definition count_claimed (n : nat) (s : summary) : summary :=
  Summary (s_claimed s + n) (s_published s) (s_retried s) (s_dead s) (s_leaseLost s) (s_abandoned s).

Section run.
Variable o : options.

(** The subscribers of an event in order, up to the first that throws. *)
Fixpoint run_subscribers (targets : list subscriber) (n : nat) (ev : string * event) : option failure :=
  match targets with
  | [] => None
  | s :: targets' =>
      match handle s n ev (attempts (bk ev.2)) with
      | Some f => Some f
      | None => run_subscribers targets' n ev
      end
  end.

(** The delivery raced against its timeout. *)
(* src/src/services/domain-event-dispatcher.service.js:328-343 dispatchDomainEvents *)
Definition deliver (n : nat) (ev : string * event) : option failure :=
  let targets := subscribersFor (type (env ev.2)) (subscribers o) in
  if timed_out o n then Some (timeout_failure (subscriberTimeoutMs o))
  else runInTenant o n (organizationId (env ev.2)) (run_subscribers targets n ev).

(** How a delivery's outcome is written: the new bookkeeping, and how the
    summary counts a write that still held the claim. *)
(* src/src/services/domain-event-dispatcher.service.js:345-387 dispatchDomainEvents *)
Definition outcome (settledAt : Z) (n : nat) (ev : string * event) (failed : option failure)
  : (bookkeeping → bookkeeping) * (summary → summary) :=
  match failed with
  | None => (set_published settledAt, count_published)
  | Some f =>
      if maxAttempts o <=? attempts (bk ev.2) then (set_dead (describeDispatchError f), count_dead)
      else
        let delay := computeBackoffMs (attempts (bk ev.2)) (baseDelayMs o) (maxDelayMs o) (random o n) in
        (set_retry (settledAt + ms_of delay) (describeDispatchError f), count_retried)
  end.

(* src/src/services/domain-event-dispatcher.service.js:322-388 dispatchDomainEvents *)
Definition dispatch_one (r : run) (ev : string * event) : run :=
  let '(held, t1) := renewLease ev (now o (tick r) + leaseMs o) (tab r) in
  if negb held then Run t1 (S (tick r)) (count_lost (sum r))
  else
    let n := S (tick r) in
    let '(data, count) := outcome (now o n) n ev (deliver n ev) in
    let '(ok, t2) := settle ev data t1 in
    Run t2 (S n) (if ok then count (sum r) else count_lost (sum r)).

(* src/src/services/domain-event-dispatcher.service.js:317-391 dispatchDomainEvents *)
Fixpoint rounds (fuel : nat) (r : run) : run :=
  match fuel with
  | O => r
  | S fuel' =>
      let '(claimed, t1) := claimDomainEvents (now o (tick r)) (batchSize o) (leaseMs o) (maxAttempts o)
                              (uuid o (tick r)) (locked_rows o (tick r)) (tab r) in
      match returning o claimed with
      | [] => Run t1 (S (tick r)) (sum r)
      | evs =>
          rounds fuel' (foldl dispatch_one
                          (Run t1 (S (tick r)) (count_claimed (length evs) (sum r))) evs)
      end
  end.

(* src/src/services/domain-event-dispatcher.service.js:290-394 dispatchDomainEvents *)
Definition dispatchDomainEvents (t : T) : result outbox_error summary * T :=
  if negb ((0 <? subscriberTimeoutMs o) && (subscriberTimeoutMs o <? leaseMs o)) then (Err BadTimeout, t)
  else
    let '(count, t1) := deadLetterAbandonedClaims (now o 0%nat) (maxAttempts o) t in
    let r := rounds (maxRounds o) (Run t1 1 (Summary 0 0 0 0 0 count)) in
    (Ok (sum r), tab r).
End run.

(** ** Replaying and discarding dead events *)

Inductive skip_reason := not_found | not_dead | replay_limit | changed.

(** A dead row as the call read it, [replayCount] included. *)
Definition still_dead (count : Z) (e : event) : bool :=
  bool_decide (status_ (bk e) = Dead) && (replayCount (bk e) =? count).

(** The loops read every row first, then write one conditional update per
    id; [between] is what other sessions do before the write for an id.  The
    client is scoped to the operator's organization [org]: rows of others
    are neither found nor matched. *)
Section operator.
Variable org : string.
Variable between : string → T → T.

Definition own (e : event) : bool := bool_decide (organizationId (env e) = org).

Definition replay_one (now maxReplays : Z) (snapshot : T) (id : string)
    (acc : list (string * event) * list (string * skip_reason) * T)
  : list (string * event) * list (string * skip_reason) * T :=
  let '(requeued, skipped, t) := acc in
  match find_by_id id own snapshot with
  | None => (requeued, skipped ++ [(id, not_found)], t)
  | Some e =>
      if negb (bool_decide (status_ (bk e) = Dead)) then (requeued, skipped ++ [(id, not_dead)], t)
      else if maxReplays <=? replayCount (bk e) then (requeued, skipped ++ [(id, replay_limit)], t)
      else
        let '(count, t') := update_many (on_id id (λ r, own r && still_dead (replayCount (bk e)) r))
                              (on_bk (set_requeued now)) (between id t) in
        if bool_decide (count = 1%nat) then
          (requeued ++ [(id, on_bk (set_requeued now) id e)], skipped, t')
        else (requeued, skipped ++ [(id, changed)], t')
  end.

(* src/src/services/domain-event-dispatcher.service.js:411-445 replayDeadDomainEvents *)
Definition replayDeadDomainEvents (eventIds : list string) (now maxReplays : Z) (t : T)
  : result outbox_error (list (string * event) * list (string * skip_reason)) * T :=
  let ids := unique eventIds in
  if (length ids =? 0)%nat || (MAX_REPLAY_BATCH <? length ids)%nat then (Err BatchSize, t)
  else
    let '(requeued, skipped, t') :=
      foldl (λ acc id, replay_one now maxReplays t id acc) ([], [], t) ids in
    (Ok (requeued, skipped), t').

Definition discard_one (now : Z) (snapshot : T) (id : string)
    (acc : list (string * event) * list (string * skip_reason) * T)
  : list (string * event) * list (string * skip_reason) * T :=
  let '(discarded, skipped, t) := acc in
  match find_by_id id own snapshot with
  | None => (discarded, skipped ++ [(id, not_found)], t)
  | Some e =>
      if negb (bool_decide (status_ (bk e) = Dead)) then (discarded, skipped ++ [(id, not_dead)], t)
      else
        let '(count, t') := update_many (on_id id (λ r, own r && still_dead (replayCount (bk e)) r))
                              (on_bk (set_discarded now)) (between id t) in
        if bool_decide (count = 1%nat) then
          (discarded ++ [(id, on_bk (set_discarded now) id e)], skipped, t')
        else (discarded, skipped ++ [(id, changed)], t')
  end.

(* src/src/services/domain-event-dispatcher.service.js:460-488 discardDeadDomainEvents *)
Definition discardDeadDomainEvents (eventIds : list string) (now : Z) (t : T)
  : result outbox_error (list (string * event) * list (string * skip_reason)) * T :=
  let ids := unique eventIds in
  if (length ids =? 0)%nat || (MAX_REPLAY_BATCH <? length ids)%nat then (Err BatchSize, t)
  else
    let '(discarded, skipped, t') :=
      foldl (λ acc id, discard_one now t id acc) ([], [], t) ids in
    (Ok (discarded, skipped), t').
End operator.
End dispatcher.

(** ** Every interleaving of the operations

    The state is the event table and the claims that dispatchers hold or once
    held: the rows their claim statements returned.  A step is one statement
    (one transaction for recording) of any process. *)

Section system.
Context {T : Type} {HT : Table T event}.
Variable M : Z. (* maxAttempts *)
Hypothesis M_pos : 1 ≤ M.

Record sys := Sys { tbl : T; claims : list (string * event) }.

(** The bookkeeping a dispatcher may settle a claim with. *)
Inductive settlement (snap : event) : (bookkeeping → bookkeeping) → Prop :=
  | settle_published at_ : settlement snap (set_published at_)
  | settle_dead err : settlement snap (set_dead err)
  | settle_retry next err : attempts (bk snap) < M → settlement snap (set_retry next err).

(** One conditional write of an operator. *)
Definition requeue (org id : string) (count now : Z) (t : T) : T :=
  (update_many (on_id id (λ r, own org r && still_dead count r)) (on_bk (set_requeued now)) t).2.
Definition discard (org id : string) (count now : Z) (t : T) : T :=
  (update_many (on_id id (λ r, own org r && still_dead count r)) (on_bk (set_discarded now)) t).2.

Inductive step : sys → sys → Prop :=
  | step_record t cs safeParse ctx input u id now :
      step (Sys t cs) (Sys (recordDomainEvent safeParse ctx input u id now (λ t, t) t).2 cs)
  | step_claim t cs now limit lease token locked :
      (∀ snap, snap ∈ cs → claimToken (bk snap.2) ≠ Some token) →
      step (Sys t cs)
           (Sys (claimDomainEvents now limit lease M token locked t).2
                (cs ++ (claimDomainEvents now limit lease M token locked t).1))
  | step_renew t cs snap lease : snap ∈ cs → step (Sys t cs) (Sys (renewLease snap lease t).2 cs)
  | step_settle t cs snap data :
      snap ∈ cs → settlement snap.2 data → step (Sys t cs) (Sys (settle snap data t).2 cs)
  | step_sweep t cs now : step (Sys t cs) (Sys (deadLetterAbandonedClaims now M t).2 cs)
  | step_requeue t cs org id count now :
      count < MAX_REPLAYS_PER_EVENT → step (Sys t cs) (Sys (requeue org id count now t) cs)
  | step_discard t cs org id count now : step (Sys t cs) (Sys (discard org id count now t) cs).

Definition started (b : bookkeeping) : Prop :=
  status_ b ≠ Pending ∨ attempts b ≠ 0 ∨ replayCount b ≠ 0.

Definition predecessors_settled (t : T) (v : envelope) : Prop :=
  ∀ id e, tget t id = Some e → aggregate (env e) = aggregate v → sequence (env e) < sequence v →
          settled (status_ (bk e)) = true.

(** The bookkeeping columns agree with each other. *)
Record row_ok (b : bookkeeping) : Prop := {
  row_claimed : status_ b = Dispatching ↔ is_Some (claimToken b);
  row_leased : status_ b = Dispatching ↔ is_Some (lockedUntil b);
  row_published : status_ b = Published ↔ is_Some (publishedAt b);
  row_discarded : status_ b = Discarded ↔ is_Some (discardedAt b);
  row_attempts : 0 ≤ attempts b ≤ M;
  row_pending : status_ b = Pending → attempts b < M;
  row_replays : 0 ≤ replayCount b ≤ MAX_REPLAYS_PER_EVENT
}.

Record inv (s : sys) : Prop := {
  inv_recorded : recorded_ok (tbl s);
  inv_rows id e : tget (tbl s) id = Some e → row_ok (bk e);
  inv_order id e : tget (tbl s) id = Some e → started (bk e) → predecessors_settled (tbl s) (env e);
  inv_tokens id e tok : tget (tbl s) id = Some e → claimToken (bk e) = Some tok →
    ∃ snap, snap ∈ claims s ∧ claimToken (bk snap.2) = Some tok;
  inv_claims snap e tok : snap ∈ claims s → claimToken (bk snap.2) = Some tok →
    tget (tbl s) snap.1 = Some e → claimToken (bk e) = Some tok → attempts (bk e) = attempts (bk snap.2);
  inv_snapshots snap : snap ∈ claims s → is_Some (claimToken (bk snap.2))
}.

(** A write to the bookkeeping of the rows [P] selects. *)
Lemma tget_on_bk P g t id :
  tget (tupdate P (on_bk g) t) id =
    (λ e, Event (env e) (if P id e then g (bk e) else bk e)) <$> tget t id.
Proof.
  rewrite tget_update. destruct (tget t id) as [[v b]|]; simpl; [|done]. by destruct (P id _).
Qed.

Lemma env_at_on_bk P g t id : env_at (tupdate P (on_bk g) t) id = env_at t id.
Proof. unfold env_at. rewrite tget_on_bk. by destruct (tget t id). Qed.

Lemma tget_on_bk_inv P g t id e' :
  tget (tupdate P (on_bk g) t) id = Some e' →
  ∃ e, tget t id = Some e ∧ env e' = env e ∧
       ((P id e = true ∧ bk e' = g (bk e)) ∨ (P id e = false ∧ bk e' = bk e)).
Proof.
  rewrite tget_on_bk. intros (e & -> & Ee)%fmap_Some. exists e.
  destruct (P id e) eqn:HP; subst; simpl; auto.
Qed.

(** Every write the dispatcher and the operators make is of this kind: it
    leaves settled rows alone, produces agreeing columns, and starts a row
    only when its predecessors are settled. *)
Lemma inv_update t cs cs' P g :
  inv (Sys t cs) →
  (∀ id e, tget t id = Some e → P id e = true →
     settled (status_ (bk e)) = false ∧ row_ok (g (bk e)) ∧
     (started (bk e) ∨ predecessors_settled t (env e)) ∧
     (∀ tok, claimToken (g (bk e)) = Some tok →
        (claimToken (bk e) = Some tok ∧ attempts (g (bk e)) = attempts (bk e)) ∨
        ((∀ snap, snap ∈ cs → claimToken (bk snap.2) ≠ Some tok) ∧
         (id, on_bk g id e) ∈ cs'))) →
  (∀ snap, snap ∈ cs → snap ∈ cs') →
  (∀ snap, snap ∈ cs' → snap ∈ cs ∨
     ∃ e, tget t snap.1 = Some e ∧ P snap.1 e = true ∧ snap.2 = on_bk g snap.1 e ∧
          is_Some (claimToken (g (bk e))) ∧
          ∀ snap', snap' ∈ cs → claimToken (bk snap'.2) ≠ claimToken (g (bk e))) →
  inv (Sys (tupdate P (on_bk g) t) cs').
Proof.
  intros [Hrec Hrows Hord Htok Hcl Hsn] HP Hsub Hnew. simpl in *. split; simpl.
  - eapply recorded_ok_env; [|done]. intros. apply env_at_on_bk.
  - intros id e' (e & Hg & _ & [[Hp ->]|[_ ->]])%tget_on_bk_inv; [|eauto].
    by apply (HP id e Hg Hp).
  - intros id e' (e & Hg & -> & Hb)%tget_on_bk_inv Hst.
    assert (predecessors_settled t (env e)) as Hpre.
    { destruct Hb as [[Hp _]|[_ Hb]]; [|rewrite Hb in Hst; eauto].
      destruct (HP id e Hg Hp) as (_ & _ & [?|?] & _); eauto. }
    intros i f' (f & Hf & -> & [[Hp Ef]|[_ ->]])%tget_on_bk_inv Ha Hs; [|eauto].
    destruct (HP i f Hf Hp) as [Hns _]. specialize (Hpre i f Hf Ha Hs). congruence.
  - intros id e' tok (e & Hg & _ & [[Hp ->]|[_ ->]])%tget_on_bk_inv Ht.
    + destruct (HP id e Hg Hp) as (_ & _ & _ & Hc). destruct (Hc tok Ht) as [[Ho _]|[_ Hin]].
      * destruct (Htok id e tok Hg Ho) as (snap & ? & ?). eauto.
      * exists (id, on_bk g id e). split; [done|]. exact Ht.
    + destruct (Htok id e tok Hg Ht) as (snap & ? & ?). eauto.
  - intros snap e' tok Hsnap Hst (e & Hg & _ & Hb)%tget_on_bk_inv Ht.
    destruct (Hnew snap Hsnap) as [Hold|(e0 & Hg0 & Hp0 & Es & Hsome & Hfr)].
    + destruct Hb as [[Hp Eb]|[_ Eb]]; rewrite Eb in Ht |- *; [|eauto].
      destruct (HP _ e Hg Hp) as (_ & _ & _ & Hc). destruct (Hc tok Ht) as [[Ho ->]|[Hfr _]]; [eauto|].
      by destruct (Hfr snap Hold).
    + assert (e0 = e) as -> by congruence.
      destruct Hb as [[_ ->]|[Hp _]]; [|congruence]. by rewrite Es.
  - intros snap [Hold|(e & _ & _ & -> & Hs & _)]%Hnew; [eauto|done].
Qed.

(** Agreement of the columns after a write, from agreement before it. *)
Ltac solve_row :=
  split; simpl in *; unfold MAX_REPLAYS_PER_EVENT in *;
  first [ lia | congruence | assumption
        | split; [congruence | by intros [? [=]]] | split; [by eauto | done]
        | intuition (congruence || lia) ].

(** Writes that create no claim. *)
Lemma inv_write t cs P g :
  inv (Sys t cs) →
  (∀ id e, tget t id = Some e → P id e = true → row_ok (bk e) →
     settled (status_ (bk e)) = false ∧ row_ok (g (bk e)) ∧ started (bk e) ∧
     (claimToken (g (bk e)) = None ∨
      claimToken (g (bk e)) = claimToken (bk e) ∧ attempts (g (bk e)) = attempts (bk e))) →
  inv (Sys (tupdate P (on_bk g) t) cs).
Proof.
  intros Hinv HP. apply (inv_update t cs cs); [done| |done|by left].
  intros id e Hg Hp. destruct (HP id e Hg Hp (inv_rows _ Hinv id e Hg)) as (Hs & Hr & Hst & Hc).
  split_and!; [done|done|by left|]. intros tok Ht. destruct Hc as [Hc|[Hc Ha]]; [congruence|].
  left. by rewrite <-Hc.
Qed.

Lemma inv_record t cs safeParse ctx input u id now :
  inv (Sys t cs) →
  inv (Sys (recordDomainEvent safeParse ctx input u id now (λ t, t) t).2 cs).
Proof.
  intros Hinv. pose proof Hinv as [Hrec Hrows Hord Htok Hcl Hsn]. simpl in *.
  pose proof (recordDomainEvent_shape safeParse ctx input u id now t) as Hshape.
  destruct (recordDomainEvent _ _ _ _ _ _ _ t) as [r t']. simpl in *.
  destruct Hshape as [->|(e & -> & Hnone & Hb & Hgt & Hok)]; [done|].
  assert (∀ i f, tget (tinsert id e t) i = Some f → i = id ∧ f = e ∨ i ≠ id ∧ tget t i = Some f) as Hget.
  { intros i f. rewrite tget_insert. case_decide; intros; simplify_eq; auto. }
  split; simpl; [by apply Hok|..].
  - intros i f [[-> ->]|[_ Hf]]%Hget; [|eauto]. rewrite Hb. solve_row.
  - intros i f [[-> ->]|[_ Hf]]%Hget Hst.
    { exfalso. rewrite Hb in Hst. destruct Hst as [Hst|[Hst|Hst]]; by apply Hst. }
    intros j g [[-> ->]|[_ Hg]]%Hget Ha Hs; [|exact (Hord i f Hf Hst j g Hg Ha Hs)].
    specialize (Hgt i f Hf (eq_sym Ha)). lia.
  - intros i f tok [[-> ->]|[_ Hf]]%Hget Ht; [by rewrite Hb in Ht|eauto].
  - intros snap f tok Hs Hst [[Hi ->]|[_ Hf]]%Hget Ht; [by rewrite Hb in Ht|eauto].
  - done.
Qed.

(** The rows a claim takes: due, and last of its aggregate to be settled. *)
Lemma candidates_elem now max limit locked t kr :
  kr ∈ candidates now max limit locked t →
  tget t kr.1 = Some kr.2 ∧ due now max kr.2 = true ∧ predecessors_settled t (env kr.2) ∧ locked kr.1 = false.
Proof.
  intros Hin. apply (subseteq_take limit) in Hin.
  apply list_elem_of_filter in Hin as [Hl Hin]. rewrite elem_of_isort in Hin.
  apply tselect_elem in Hin as [Hg He]. unfold eligible in He. bool_simplify.
  split_and!; [done|done| |done].
  intros i e Hi Ha Hs. destruct (settled (status_ (bk e))) eqn:Ee; [done|].
  pose proof (proj1 (tcount_zero _ _) H0 i e Hi) as Hb. unfold blocks in Hb.
  rewrite Ha, bool_decide_refl, Ee in Hb. apply Z.ltb_lt in Hs. by rewrite Hs in Hb.
Qed.

Lemma candidates_nodup now max limit locked t : NoDup (candidates now max limit locked t).*1.
Proof.
  unfold candidates.
  eapply sublist_NoDup; [|apply fmap_sublist, sublist_take].
  eapply sublist_NoDup; [|apply fmap_sublist, sublist_filter].
  rewrite isort_perm. apply tselect_nodup.
Qed.

Lemma candidates_id now max limit locked t id e :
  tget t id = Some e → id ∈ (candidates now max limit locked t).*1 → (id, e) ∈ candidates now max limit locked t.
Proof.
  intros Hg ([i f] & -> & Hin)%list_elem_of_fmap. simpl in *.
  apply candidates_elem in Hin as Hf. simpl in Hf. destruct Hf as [Hf _]. congruence.
Qed.

Lemma due_cases now max e :
  due now max e = true →
  (status_ (bk e) = Pending ∧ nextAttemptAt (bk e) ≤ now) ∨
  (status_ (bk e) = Dispatching ∧ (∃ l, lockedUntil (bk e) = Some l ∧ l < now) ∧ attempts (bk e) < max).
Proof.
  unfold due. intros [H|H]%orb_true_iff'; bool_simplify; [by left|right].
  unfold before in *. destruct (lockedUntil (bk e)) as [l|]; bool_simplify; eauto.
Qed.

Lemma inv_claim t cs now limit lease token locked :
  inv (Sys t cs) →
  (∀ snap, snap ∈ cs → claimToken (bk snap.2) ≠ Some token) →
  inv (Sys (claimDomainEvents now limit lease M token locked t).2
           (cs ++ (claimDomainEvents now limit lease M token locked t).1)).
Proof.
  intros Hinv Hfresh. unfold claimDomainEvents. simpl.
  set (c := candidates now M limit locked t). apply (inv_update t cs); [done|..].
  - intros id e Hg Hp%bool_decide_eq_true. apply (candidates_id _ _ _ _ _ id e) in Hp; [|done].
    fold c in Hp. pose proof (candidates_elem _ _ _ _ _ _ Hp) as (_ & Hd & Hpre & _). simpl in *.
    apply due_cases in Hd. pose proof (inv_rows _ Hinv id e Hg) as [].
    split_and!; [by destruct Hd as [[-> _]|[-> _]]| |by right|].
    + destruct Hd as [[Hst _]|(Hst & _ & Hlt)]; rewrite Hst in *; solve_row.
    + intros tok [= <-]. right. split; [done|]. apply elem_of_app. right.
      apply list_elem_of_fmap. by exists (id, e).
  - intros snap Hs. apply elem_of_app. by left.
  - intros snap [Hs|Hs]%elem_of_app; [by left|right].
    apply list_elem_of_fmap in Hs as ([id e] & -> & Hs). simpl.
    exists e. pose proof (candidates_elem _ _ _ _ _ _ Hs) as (Hg & _). simpl in *.
    split_and!; [done|..|done|done|done].
    apply bool_decide_eq_true, list_elem_of_fmap. by exists (id, e).
Qed.

Lemma on_id_held snap id e :
  on_id snap.1 (held_by (claimToken (bk snap.2))) id e = true ↔
  id = snap.1 ∧ status_ (bk e) = Dispatching ∧ claimToken (bk e) = claimToken (bk snap.2).
Proof. unfold on_id, held_by. by rewrite !andb_true_iff', !bool_decide_eq_true. Qed.

Lemma on_id_dead org id count i e :
  on_id id (λ r, own org r && still_dead count r) i e = true ↔
  i = id ∧ organizationId (env e) = org ∧ status_ (bk e) = Dead ∧ replayCount (bk e) = count.
Proof. unfold on_id, own, still_dead. by rewrite !andb_true_iff', !bool_decide_eq_true, Z.eqb_eq. Qed.

Lemma abandoned_iff now id e :
  abandoned now M id e = true →
  status_ (bk e) = Dispatching ∧ (∃ l, lockedUntil (bk e) = Some l ∧ l < now) ∧ M ≤ attempts (bk e).
Proof.
  unfold abandoned, before. intros H. bool_simplify.
  destruct (lockedUntil (bk e)) as [l|]; bool_simplify; eauto.
Qed.

Lemma started_not_pending b : status_ b ≠ Pending → started b.
Proof. by left. Qed.

Lemma inv_renew t cs snap lease : inv (Sys t cs) → inv (Sys (renewLease snap lease t).2 cs).
Proof.
  intros Hinv. unfold renewLease. simpl. apply inv_write; [done|].
  intros id e Hg (-> & Hst & Htok)%on_id_held Hr. destruct Hr.
  rewrite Hst in *. split_and!; [done|solve_row|left; congruence|by right].
Qed.

Lemma inv_settle t cs snap data :
  inv (Sys t cs) → snap ∈ cs → settlement snap.2 data → inv (Sys (settle snap data t).2 cs).
Proof.
  intros Hinv Hsnap Hdata. unfold settle. simpl. apply inv_write; [done|].
  intros id e Hg (-> & Hst & Htok)%on_id_held Hr.
  destruct (inv_snapshots _ Hinv snap Hsnap) as [tok Ht].
  assert (attempts (bk e) = attempts (bk snap.2)) as Ha
    by (eapply (inv_claims _ Hinv snap e tok); eauto; congruence).
  destruct Hr. rewrite Hst in *.
  split_and!; [done| |left; congruence|].
  - destruct Hdata; solve_row.
  - left. by destruct Hdata.
Qed.

Lemma inv_sweep t cs now : inv (Sys t cs) → inv (Sys (deadLetterAbandonedClaims now M t).2 cs).
Proof.
  intros Hinv. unfold deadLetterAbandonedClaims. simpl. apply inv_write; [done|].
  intros id e Hg (Hst & _ & _)%abandoned_iff Hr. destruct Hr. rewrite Hst in *.
  split_and!; [done|solve_row|left; congruence|by left].
Qed.

Lemma inv_requeue t cs org id count now :
  count < MAX_REPLAYS_PER_EVENT → inv (Sys t cs) → inv (Sys (requeue org id count now t) cs).
Proof.
  intros Hc Hinv. unfold requeue. simpl. apply inv_write; [done|].
  intros i e Hg (-> & _ & Hst & Hrc)%on_id_dead Hr. destruct Hr. rewrite Hst in *.
  split_and!; [done|solve_row|left; congruence|left].
  simpl. destruct (claimToken (bk e)); [|done]. by discriminate (proj2 row_claimed0 (mk_is_Some _ _ eq_refl)).
Qed.

Lemma inv_discard t cs org id count now : inv (Sys t cs) → inv (Sys (discard org id count now t) cs).
Proof.
  intros Hinv. unfold discard. simpl. apply inv_write; [done|].
  intros i e Hg (-> & _ & Hst & Hrc)%on_id_dead Hr. destruct Hr. rewrite Hst in *.
  split_and!; [done|solve_row|left; congruence|left].
  simpl. destruct (claimToken (bk e)); [|done]. by discriminate (proj2 row_claimed0 (mk_is_Some _ _ eq_refl)).
Qed.

Lemma inv_step s s' : inv s → step s s' → inv s'.
Proof.
  intros Hinv Hstep. destruct Hstep;
    [by apply inv_record|by apply inv_claim|by apply inv_renew|by apply inv_settle|by apply inv_sweep
    |by apply inv_requeue|by apply inv_discard].
Qed.

(** A table without events and no claims. *)
Definition initial (s : sys) : Prop := (∀ id, tget (tbl s) id = None) ∧ claims s = [].
Definition reachable (s : sys) : Prop := ∃ s0, initial s0 ∧ rtc step s0 s.

Lemma inv_initial s : initial s → inv s.
Proof.
  destruct s as [t cs]. intros [Hn Hc]. simpl in *. subst.
  assert (∀ id v, env_at t id = Some v → False) as He by (intros id v; unfold env_at; by rewrite Hn).
  split; simpl; try (intros *; rewrite Hn; done).
  - split; intros id v *; intros H; by destruct (He id v H).
  - intros snap Hs. by apply not_elem_of_nil in Hs.
Qed.

Lemma inv_steps s s' : inv s → rtc step s s' → inv s'.
Proof. intros Hinv Hs. induction Hs; eauto using inv_step. Qed.

Lemma reachable_inv s : reachable s → inv s.
Proof. intros (s0 & H0 & Hs). eauto using inv_steps, inv_initial. Qed.

(** ** What every interleaving keeps *)

(** C1 (safety): ordering.  Whatever processes record, claim, renew, settle,
    sweep, replay and discard, an event that has ever left its initial
    pending state has only settled (published or discarded) events before
    it in its aggregate; in particular no event is published while an
    earlier one of the aggregate is pending, in flight or dead. *)
Theorem delivery_in_order s id e id' e' :
  reachable s → tget (tbl s) id = Some e → started (bk e) →
  tget (tbl s) id' = Some e' → aggregate (env e') = aggregate (env e) →
  sequence (env e') < sequence (env e) → settled (status_ (bk e')) = true.
Proof. intros Hr Hg Hst Hg' Ha Hs. exact (inv_order s (reachable_inv s Hr) id e Hg Hst id' e' Hg' Ha Hs). Qed.

(** In every reachable state the bookkeeping columns agree:
    a row has a lease and a claim token exactly while it is dispatching, a
    publication (discard) time exactly when published (discarded), never
    more than [maxAttempts] attempts, an attempt left while it is pending,
    and at most [MAX_REPLAYS_PER_EVENT] replays. *)
Lemma bookkeeping_agrees s id e : reachable s → tget (tbl s) id = Some e → row_ok (bk e).
Proof. intros Hr. apply (inv_rows s (reachable_inv s Hr)). Qed.

(** In every reachable state the sequence numbers of each
    aggregate are contiguous from 1 and unique, and idempotency keys are
    unique in their tenant. *)
Lemma reachable_recorded s : reachable s → recorded_ok (tbl s).
Proof. intros Hr. apply (inv_recorded s (reachable_inv s Hr)). Qed.

(** A step keeps the rows it finds: each becomes the same envelope with
    bookkeeping that is unchanged, or changed from an unsettled row. *)
Lemma step_row s s' id e :
  step s s' → tget (tbl s) id = Some e →
  ∃ b, tget (tbl s') id = Some (Event (env e) b) ∧
       (b = bk e ∨
        settled (status_ (bk e)) = false ∧
        (claimToken b = None ∨ claimToken b = claimToken (bk e) ∨
         ∀ snap, snap ∈ claims s → claimToken (bk snap.2) ≠ claimToken b)).
Proof.
  assert (∀ t P g, tget t id = Some e →
    (P id e = true → settled (status_ (bk e)) = false ∧
       (claimToken (g (bk e)) = None ∨ claimToken (g (bk e)) = claimToken (bk e) ∨
        ∀ snap, snap ∈ claims s → claimToken (bk snap.2) ≠ claimToken (g (bk e)))) →
    ∃ b, tget (tupdate P (on_bk g) t) id = Some (Event (env e) b) ∧
       (b = bk e ∨
        settled (status_ (bk e)) = false ∧
        (claimToken b = None ∨ claimToken b = claimToken (bk e) ∨
         ∀ snap, snap ∈ claims s → claimToken (bk snap.2) ≠ claimToken b))) as Hup.
  { intros t P g Hg HP. rewrite tget_on_bk, Hg. simpl. eexists. split; [done|].
    destruct (P id e); [right; auto|by left]. }
  intros Hstep Hg. destruct Hstep; simpl in *.
  - pose proof (recordDomainEvent_shape safeParse ctx input u id0 now0 t) as H. simpl in H.
    destruct H as [->|(f & -> & Hn & _)]; [exists (bk e); split; [by destruct e|by left]|].
    exists (bk e). split; [|by left]. rewrite tget_insert_ne by congruence. by destruct e.
  - apply Hup; [done|]. intros Hp%bool_decide_eq_true.
    apply (candidates_id _ _ _ _ _ id e) in Hp; [|done].
    apply candidates_elem in Hp as (_ & Hd & _). simpl in Hd. apply due_cases in Hd.
    split; [by destruct Hd as [[-> _]|[-> _]]|]. right; right. simpl. exact H.
  - apply Hup; [done|]. intros (-> & Hst & Htok)%on_id_held. rewrite Hst. split; [done|]. right; by left.
  - apply Hup; [done|]. intros (-> & Hst & Htok)%on_id_held. rewrite Hst. split; [done|].
    left. by destruct H0.
  - apply Hup; [done|]. intros (Hst & _)%abandoned_iff. rewrite Hst. split; [done|by left].
  - apply Hup; [done|]. intros (-> & _ & Hst & _)%on_id_dead. rewrite Hst. split; [done|right; by left].
  - apply Hup; [done|]. intros (-> & _ & Hst & _)%on_id_dead. rewrite Hst. split; [done|right; by left].
Qed.

(** A settled event is final and an event's envelope never
    changes: along every interleaving from any state, a row that exists
    keeps its envelope, and a published or discarded row keeps every
    column. *)
Lemma settled_is_final s s' id e :
  rtc step s s' → tget (tbl s) id = Some e →
  ∃ e', tget (tbl s') id = Some e' ∧ env e' = env e ∧ (settled (status_ (bk e)) = true → e' = e).
Proof.
  intros Hs. revert e. induction Hs as [s|s s1 s' Hstep _ IH]; intros e Hg; [eauto|].
  destruct (step_row s s1 id e Hstep Hg) as (b & Hg1 & Hb).
  destruct (IH _ Hg1) as (e' & Hg' & Henv & Hset). exists e'. split_and!; [done|done|].
  intros Hse. destruct Hb as [->|[Hf _]]; [|congruence]. rewrite (Hset Hse). by destruct e.
Qed.

(** A dispatcher's claim no longer holds its row. *)
Definition lost (snap : string * event) (t : T) : Prop :=
  ∀ e, tget t snap.1 = Some e → claimToken (bk e) ≠ claimToken (bk snap.2).

Lemma lost_write snap data t :
  lost snap t →
  (∀ id, tget (settle snap data t).2 id = tget t id) ∧ (settle snap data t).1 = false.
Proof.
  intros Hl. unfold settle, update_many. simpl. split.
  - intros id. apply tget_update_ne. intros e Hg.
    destruct (on_id _ _ id e) eqn:E; [|done]. apply on_id_held in E as (-> & _ & Ht). by destruct (Hl e Hg).
  - apply bool_decide_eq_false. rewrite tcount_on_id_1. intros (e & Hg & Hh).
    unfold held_by in Hh. bool_simplify. by destruct (Hl e Hg).
Qed.

Lemma lost_renew snap lease t : lost snap t → (renewLease snap lease t).1 = false.
Proof.
  intros Hl. unfold renewLease, update_many. simpl. apply bool_decide_eq_false.
  rewrite tcount_on_id_1. intros (e & Hg & Hh). unfold held_by in Hh. bool_simplify. by destruct (Hl e Hg).
Qed.

Lemma lost_step s s' snap :
  inv s → step s s' → snap ∈ claims s → is_Some (tget (tbl s) snap.1) → lost snap (tbl s) → lost snap (tbl s').
Proof.
  intros Hinv Hstep Hin [e Hg] Hl e' Hg'.
  destruct (step_row s s' snap.1 e Hstep Hg) as (b & Hgb & Hb).
  assert (e' = Event (env e) b) as -> by congruence. simpl.
  destruct (inv_snapshots _ Hinv snap Hin) as [tok Ht].
  destruct Hb as [->|(_ & [Hn|[->|Hf]])]; [by apply Hl|congruence|by apply Hl|].
  intros E. by apply (Hf snap Hin).
Qed.

Lemma claims_grow s s' snap : step s s' → snap ∈ claims s → snap ∈ claims s'.
Proof. intros [] Hin; simpl in *; [done|apply elem_of_app; by left|done..]. Qed.

Lemma settle_loses s snap data :
  inv s → snap ∈ claims s → settlement snap.2 data → lost snap (settle snap data (tbl s)).2.
Proof.
  intros Hinv Hin Hd e' (e & Hg & _ & Hb)%tget_on_bk_inv.
  destruct (inv_snapshots _ Hinv snap Hin) as [tok Ht].
  destruct Hb as [[_ ->]|[Hf ->]]; [rewrite Ht; by destruct Hd|].
  intros E. destruct (decide (status_ (bk e) = Dispatching)) as [Hst|Hst].
  - assert (on_id snap.1 (held_by (claimToken (bk snap.2))) snap.1 e = true) by by apply on_id_held.
    congruence.
  - apply Hst, (row_claimed _ (inv_rows _ Hinv _ _ Hg)). rewrite E, Ht. eauto.
Qed.

(** A lost lease cannot write.  Once a dispatcher has settled a
    claim, or finds that its claim no longer holds the row, then after any
    further interleaving each renewal and each settlement of that claim
    answers false and leaves every row as it is. *)
Lemma stale_claim_cannot_write s1 s2 snap :
  reachable s1 → snap ∈ claims s1 → is_Some (tget (tbl s1) snap.1) →
  (lost snap (tbl s1) ∨
   ∃ s data, reachable s ∧ snap ∈ claims s ∧ settlement snap.2 data ∧ tbl s1 = (settle snap data (tbl s)).2) →
  rtc step s1 s2 → ∀ data lease,
    (settle snap data (tbl s2)).1 = false ∧ (renewLease snap lease (tbl s2)).1 = false ∧
    ∀ id, tget (settle snap data (tbl s2)).2 id = tget (tbl s2) id.
Proof.
  intros Hr1 Hin Hsome Hlost Hsteps data lease.
  assert (lost snap (tbl s2)) as Hl2.
  { assert (lost snap (tbl s1)) as Hl1.
    { destruct Hlost as [|(s & d & Hr & Hin' & Hd & ->)]; [done|].
      apply settle_loses; auto using reachable_inv. }
    pose proof (reachable_inv _ Hr1) as Hinv. clear Hlost Hr1.
    induction Hsteps as [s|s s1 s' Hstep _ IH]; [done|].
    apply IH; eauto using claims_grow, lost_step, inv_step.
    destruct Hsome as [e Hg]. destruct (step_row _ _ _ _ Hstep Hg) as (b & -> & _). eauto. }
  destruct (lost_write snap data (tbl s2) Hl2). split_and!; eauto using lost_renew.
Qed.
End system.

(** ** Witnesses: two events of one invoice, delivered in order *)

Section witnesses.
Let accept : string → Z → json → option json := λ _ _ j, Some j.
Let ctx := RequestContext (Some "org1") (Some "req-1").
Let input (key : string) := EventInput "invoice.paid" (Some "inv1") (JObj []) (Some key) None None None None.
Let t0 : gmap string event := ∅.
Let t1 := (recordDomainEvent accept ctx (input "k1") "u1" "e1" 5 (λ t, t) t0).2.
Let t2 := (recordDomainEvent accept ctx (input "k2") "u2" "e2" 6 (λ t, t) t1).2.
Let none (_ : string) := false.
Let c1 := claimDomainEvents 10 25 1000 10 "tok1" none t2.
Let e1 (b : bookkeeping) := Event (Envelope "org1" "invoice.paid" 1 "invoice" "inv1" 1 (JObj []) "req-1" None "k1" 5) b.
Let e2 (b : bookkeeping) := Event (Envelope "org1" "invoice.paid" 1 "invoice" "inv1" 2 (JObj []) "req-1" None "k2" 6) b.
Let claimed1 := ("e1", e1 (set_claimed 10 1010 "tok1" (fresh_bookkeeping 5))).
Let t4 := (settle claimed1 (set_published 20) c1.2).2.
Let c2 := claimDomainEvents 30 25 1000 10 "tok2" none t4.
Let published1 := set_published 20 (set_claimed 10 1010 "tok1" (fresh_bookkeeping 5)).

Lemma demo_claim : c1.1 = [claimed1].
Proof. vm_compute. reflexivity. Qed.
Lemma demo_first : tget t4 "e1" = Some (e1 published1).
Proof. vm_compute. reflexivity. Qed.

Lemma demo_claimed : reachable 10 (Sys c1.2 c1.1).
Proof.
  exists (Sys t0 []). split; [split; [intros id; apply lookup_empty|done]|].
  eapply rtc_l; [apply step_record|]. fold t1. eapply rtc_l; [apply step_record|]. fold t2.
  apply rtc_once. refine (step_claim 10 t2 [] 10 25 1000 "tok1" none _).
  intros snap Hs. by apply not_elem_of_nil in Hs.
Qed.
Lemma demo_published : reachable 10 (Sys t4 c1.1).
Proof.
  destruct demo_claimed as (s0 & H0 & Hs). exists s0. split; [done|]. eapply rtc_r; [exact Hs|].
  apply step_settle; [rewrite demo_claim; left|constructor].
Qed.
Lemma demo_second : reachable 10 (Sys c2.2 (c1.1 ++ c2.1)).
Proof.
  destruct demo_published as (s0 & H0 & Hs). exists s0. split; [done|]. eapply rtc_r; [exact Hs|].
  refine (step_claim 10 t4 c1.1 30 25 1000 "tok2" none _).
  intros snap Hs'. rewrite demo_claim in Hs'. by apply list_elem_of_singleton in Hs' as ->.
Qed.
Lemma demo_e2 : tget c2.2 "e2" = Some (e2 (set_claimed 30 1030 "tok2" (fresh_bookkeeping 6))).
Proof. vm_compute. reflexivity. Qed.
Lemma demo_e1 : tget c2.2 "e1" = Some (e1 published1).
Proof. vm_compute. reflexivity. Qed.

Lemma delivery_in_order_witness : settled (status_ published1) = true.
Proof.
  apply (delivery_in_order 10 ltac:(lia) (Sys c2.2 (c1.1 ++ c2.1)) "e2" _ "e1" (e1 published1)
           demo_second demo_e2); [by left|exact demo_e1|reflexivity|reflexivity].
Defined.

Lemma bookkeeping_agrees_witness : row_ok 10 (set_claimed 30 1030 "tok2" (fresh_bookkeeping 6)).
Proof. exact (bookkeeping_agrees 10 ltac:(lia) _ "e2" _ demo_second demo_e2). Defined.

Lemma reachable_recorded_witness : recorded_ok c2.2.
Proof. exact (reachable_recorded 10 ltac:(lia) _ demo_second). Defined.

Lemma settled_is_final_witness :
  ∃ e', tget c2.2 "e1" = Some e' ∧ env e' = env (e1 published1) ∧
        (settled (status_ published1) = true → e' = e1 published1).
Proof.
  apply (settled_is_final 10 (Sys t4 c1.1) (Sys c2.2 (c1.1 ++ c2.1)) "e1" (e1 published1)); [|exact demo_first].
  apply rtc_once. refine (step_claim 10 t4 c1.1 30 25 1000 "tok2" none _).
  intros snap Hs'. rewrite demo_claim in Hs'. by apply list_elem_of_singleton in Hs' as ->.
Defined.

Lemma stale_claim_cannot_write_witness :
  (settle claimed1 (set_retry 99 "late") t4).1 = false ∧ (renewLease claimed1 2000 t4).1 = false ∧
  ∀ id, tget (settle claimed1 (set_retry 99 "late") t4).2 id = tget t4 id.
Proof.
  apply (stale_claim_cannot_write 10 ltac:(lia) (Sys t4 c1.1) (Sys t4 c1.1) claimed1 demo_published).
  - rewrite demo_claim. left.
  - exists (e1 published1). exact demo_first.
  - right. exists (Sys c1.2 c1.1), (set_published 20). split_and!; [exact demo_claimed| |constructor|reflexivity].
    rewrite demo_claim. left.
  - reflexivity.
Defined.
End witnesses.

End Dispatcher.
