(* ===== verification/DispatcherRuns.v ===== *)
(** * Whole runs of the outbox dispatcher

    Properties of the composed handlers of Dispatcher.v: what a claim
    statement takes, that a dispatcher run is a sequence of the steps the
    system's invariants are proved for, that an undisturbed run publishes
    everything that is due, what replay and discard do, and the bounds of the
    retry delay. *)

From stdpp Require Import pretty relations.
From S2P Require Import Prelude Store Json JsNumber Outbox Dispatcher.
Import Json Outbox Dispatcher.

Module Runs.

Section runs.
Context {T : Type} {HT : Table T event}.
Implicit Types (t : T).

(** ** Claiming *)

Lemma claim_le_total x y : claim_le x y = true ∨ claim_le y x = true.
Proof.
  unfold claim_le.
  destruct (Z.lt_trichotomy (occurredAt (env x.2)) (occurredAt (env y.2))) as [H|[H|H]];
    [left|..|right]; [by apply Z.ltb_lt in H as ->| |by apply Z.ltb_lt in H as ->].
  rewrite H, Z.ltb_irrefl, Z.eqb_refl. simpl.
  destruct (Z.lt_trichotomy (sequence (env x.2)) (sequence (env y.2))) as [H'|[H'|H']];
    [left|..|right]; [by apply Z.ltb_lt in H' as ->| |by apply Z.ltb_lt in H' as ->].
  rewrite H', Z.ltb_irrefl, Z.eqb_refl. simpl. apply string_leb_total.
Qed.

Lemma claim_le_trans x y z : claim_le x y = true → claim_le y z = true → claim_le x z = true.
Proof.
  unfold claim_le. rewrite !orb_true_iff', !andb_true_iff', !orb_true_iff', !andb_true_iff',
    !Z.ltb_lt, !Z.eqb_eq.
  intros [?|[? [?|[? ?]]]] [?|[? [?|[? ?]]]]; try (left; lia); right; (split; [lia|]);
    try (left; lia).
  right. split; [lia|]. eauto using string_leb_trans.
Qed.

(** A claim statement takes at most [limit] rows, each one
    due, unlocked and with every predecessor of its aggregate settled, never
    two events of one aggregate; when it leaves such a row behind it has
    taken [limit] rows, none younger than the one left. *)
Lemma claimDomainEvents_takes now limit leaseMs M token locked t :
  let taken := candidates now M limit locked t in
  (length taken ≤ limit)%nat ∧ NoDup taken.*1 ∧
  (∀ kr, kr ∈ taken → tget t kr.1 = Some kr.2 ∧ due now M kr.2 = true ∧ locked kr.1 = false ∧
                      predecessors_settled t (env kr.2)) ∧
  (recorded_ok t → ∀ x y, x ∈ taken → y ∈ taken → aggregate (env x.2) = aggregate (env y.2) → x = y) ∧
  (∀ kr, tget t kr.1 = Some kr.2 → due now M kr.2 = true → locked kr.1 = false →
         predecessors_settled t (env kr.2) → kr ∉ taken →
         length taken = limit ∧ ∀ x, x ∈ taken → claim_le x kr = true) ∧
  (claimDomainEvents now limit leaseMs M token locked t).1.*1 = taken.*1.
Proof.
  intros taken. split_and!.
  - unfold taken, candidates. rewrite length_take. lia.
  - apply candidates_nodup.
  - intros kr Hin. destruct (candidates_elem _ _ _ _ _ _ Hin) as (? & ? & ? & ?). done.
  - intros Hok x y Hx Hy Ha.
    destruct (candidates_elem _ _ _ _ _ _ Hx) as (Hgx & Hdx & Hpx & _).
    destruct (candidates_elem _ _ _ _ _ _ Hy) as (Hgy & Hdy & Hpy & _).
    assert (∀ e, due now M e = true → settled (status_ (bk e)) = false) as Hns.
    { intros e He. by destruct (due_cases _ _ _ He) as [[-> _]|[-> _]]. }
    destruct (Z.lt_trichotomy (sequence (env x.2)) (sequence (env y.2))) as [H|[H|H]].
    + pose proof (Hns x.2 Hdx) as Hf. by rewrite (Hpy x.1 x.2) in Hf.
    + destruct x as [i e], y as [j f]; simpl in *.
      assert (i = j) as -> by (eapply (seq_unique t Hok i (env e) j (env f)); eauto; unfold env_at; by rewrite ?Hgx, ?Hgy).
      congruence.
    + pose proof (Hns y.2 Hdy) as Hf. by rewrite (Hpx y.1 y.2) in Hf.
  - intros kr Hg Hd Hl Hp Hnot.
    set (l := filter (λ kr, locked kr.1 = false) (isort claim_le (tselect (eligible now M t) t))).
    assert (kr ∈ l) as Hin.
    { unfold l. apply list_elem_of_filter. split; [done|]. rewrite elem_of_isort.
      apply tselect_elem. split; [done|]. unfold eligible. rewrite Hd. simpl. apply bool_decide_eq_true.
      apply tcount_zero. intros i e Hi. unfold blocks.
      destruct (bool_decide _) eqn:Ea; [|done]. apply bool_decide_eq_true in Ea.
      destruct (Z.ltb_spec (sequence (env e)) (sequence (env kr.2))); [|done]. by rewrite (Hp i e). }
    assert (StronglySorted (λ a b, claim_le a b = true) l) as Hsort.
    { unfold l. apply StronglySorted_filter. apply isort_sorted; eauto using claim_le_total, claim_le_trans. }
    change taken with (take limit l) in *. rewrite <-(take_drop limit l) in Hin.
    apply elem_of_app in Hin as [Hin|Hin]; [done|]. split.
    + rewrite length_take. destruct (Nat.le_gt_cases (length l) limit) as [Hle|]; [|lia].
      rewrite drop_ge in Hin by done. by apply not_elem_of_nil in Hin.
    + intros x Hx. rewrite <-(take_drop limit l) in Hsort. by eapply StronglySorted_app_1_elem_of in Hsort.
  - unfold claimDomainEvents. simpl. rewrite <-list_fmap_compose. apply list_fmap_ext. done.
Qed.

(** ** A dispatcher run is a sequence of steps *)

(** What a run draws: rows come back in some order, and every claim token
    is new. *)
Record fair (o : options) (cs : list (string * event)) (n : nat) : Prop := {
  fair_returning l : returning o l ≡ₚ l;
  fair_inj i j : (n ≤ i)%nat → (n ≤ j)%nat → uuid o i = uuid o j → i = j;
  fair_fresh i snap : (n ≤ i)%nat → snap ∈ cs → claimToken (bk snap.2) ≠ Some (uuid o i)
}.

Lemma dispatch_one_steps o r ev cs :
  ev ∈ cs → rtc (step (maxAttempts o)) (Sys (tab r) cs) (Sys (tab (dispatch_one o r ev)) cs).
Proof.
  intros Hin. unfold dispatch_one.
  destruct (renewLease ev _ (tab r)) as [held t1] eqn:Er.
  assert (step (maxAttempts o) (Sys (tab r) cs) (Sys t1 cs)) as Hs1.
  { replace t1 with (renewLease ev (now o (tick r) + leaseMs o) (tab r)).2 by by rewrite Er.
    by constructor. }
  destruct held; simpl; [|by apply rtc_once].
  destruct (outcome o _ _ _ _) as [data count] eqn:Eo.
  destruct (settle ev data t1) as [ok t2] eqn:Es. simpl.
  eapply rtc_l; [exact Hs1|]. apply rtc_once.
  replace t2 with (settle ev data t1).2 by by rewrite Es.
  constructor; [done|]. unfold outcome in Eo.
  destruct (deliver _ _ _); [|simplify_eq; constructor].
  destruct (Z.leb_spec (maxAttempts o) (attempts (bk ev.2))); simplify_eq; by constructor.
Qed.

Lemma dispatch_one_tick o r ev : (tick r ≤ tick (dispatch_one o r ev))%nat.
Proof.
  unfold dispatch_one. destruct (renewLease _ _ _) as [[] t]; simpl; [|lia].
  destruct (outcome _ _ _ _ _) as [data ?]. destruct (settle ev data t). simpl. lia.
Qed.

Lemma dispatch_all_steps o evs r cs :
  (∀ ev, ev ∈ evs → ev ∈ cs) →
  rtc (step (maxAttempts o)) (Sys (tab r) cs) (Sys (tab (foldl (dispatch_one o) r evs)) cs) ∧
  (tick r ≤ tick (foldl (dispatch_one o) r evs))%nat.
Proof.
  revert r. induction evs as [|ev evs IH]; intros r Hin; [split; [done|simpl; lia]|]. simpl.
  destruct (IH (dispatch_one o r ev)) as [Hs Ht]; [intros e He; apply Hin; by right|].
  pose proof (dispatch_one_tick o r ev). split; [|lia].
  etransitivity; [|exact Hs]. apply dispatch_one_steps, Hin. left.
Qed.

Lemma rounds_steps o fuel r cs :
  fair o cs (tick r) →
  ∃ cs', rtc (step (maxAttempts o)) (Sys (tab r) cs) (Sys (tab (rounds o fuel r)) cs').
Proof.
  revert r cs. induction fuel as [|fuel IH]; intros r cs Hfair; [by exists cs|]. cbn [rounds].
  set (call := claimDomainEvents (now o (tick r)) (batchSize o) (leaseMs o) (maxAttempts o)
                 (uuid o (tick r)) (locked_rows o (tick r)) (tab r)).
  set (rows := call.1). set (t1 := call.2).
  assert (step (maxAttempts o) (Sys (tab r) cs) (Sys t1 (cs ++ rows))) as Hs1.
  { constructor. intros snap Hs. by apply (fair_fresh _ _ _ Hfair). }
  fold call. rewrite (surjective_pairing call). fold rows t1.
  pose proof (fair_returning _ _ _ Hfair rows) as Hperm.
  destruct (returning o rows) as [|ev evs]; [exists (cs ++ rows); by apply rtc_once|].
  set (r1 := Run t1 (S (tick r)) (count_claimed (length (ev :: evs)) (sum r))).
  destruct (dispatch_all_steps o (ev :: evs) r1 (cs ++ rows)) as [Hs2 Ht2].
  { intros e He. apply elem_of_app. right. by rewrite <-Hperm. }
  destruct (IH (foldl (dispatch_one o) r1 (ev :: evs)) (cs ++ rows)) as [cs' Hs3].
  { simpl in Ht2. split; [apply (fair_returning _ _ _ Hfair)|..].
    - intros i j Hi Hj. apply (fair_inj _ _ _ Hfair); simpl in *; lia.
    - intros i snap Hi [Hs|Hs]%elem_of_app; [apply (fair_fresh _ _ _ Hfair); [simpl in *; lia|done]|].
      unfold rows, call, claimDomainEvents in Hs. simpl in Hs. apply list_elem_of_fmap in Hs as (kr & -> & _).
      simpl. intros [= E]. apply (fair_inj _ _ _ Hfair) in E; simpl in *; lia. }
  exists cs'. eapply rtc_l; [exact Hs1|]. etransitivity; [exact Hs2|exact Hs3].
Qed.

(** A whole dispatcher run (sweep, then rounds of claiming,
    renewing, delivering and settling) is a sequence of steps of the system,
    so that every invariant of the system holds after it and, since other
    processes' steps may come between, during it. *)
Lemma dispatchDomainEvents_refines o t cs :
  fair o cs 1 →
  ∃ cs', rtc (step (maxAttempts o)) (Sys t cs) (Sys (dispatchDomainEvents o t).2 cs').
Proof.
  intros Hfair. unfold dispatchDomainEvents. destruct (negb _); [by exists cs|].
  destruct (deadLetterAbandonedClaims (now o 0%nat) (maxAttempts o) t) as [count t1] eqn:Ed. simpl.
  destruct (rounds_steps o (maxRounds o) (Run t1 1 (Summary 0 0 0 0 0 count)) cs Hfair) as [cs' Hs].
  exists cs'. eapply rtc_l; [|exact Hs]. simpl.
  replace t1 with (deadLetterAbandonedClaims (now o 0%nat) (maxAttempts o) t).2 by by rewrite Ed.
  constructor.
Qed.

(** ** The summary *)

Definition balanced (s : summary) : Prop :=
  s_claimed s = (s_published s + s_retried s + s_dead s + s_leaseLost s)%nat.

Lemma dispatch_all_counts o evs r :
  let s := sum r in
  let s' := sum (foldl (dispatch_one o) r evs) in
  s_claimed s' = s_claimed s ∧ s_abandoned s' = s_abandoned s ∧
  (s_published s' + s_retried s' + s_dead s' + s_leaseLost s' =
   s_published s + s_retried s + s_dead s + s_leaseLost s + length evs)%nat.
Proof.
  revert r. induction evs as [|ev evs IH]; intros r; simpl; [lia|].
  destruct (IH (dispatch_one o r ev)) as (-> & -> & ->).
  unfold dispatch_one. destruct (renewLease _ _ _) as [[] t1]; cbn [negb]; [|simpl; lia].
  unfold outcome. destruct (deliver _ _ _); [destruct (_ <=? _)|];
    destruct (settle ev _ t1) as [[] t2]; simpl; lia.
Qed.

Lemma rounds_balanced o fuel r : balanced (sum r) → balanced (sum (rounds o fuel r)).
Proof.
  revert r. induction fuel as [|fuel IH]; intros r Hb; [done|]. cbn [rounds].
  destruct (claimDomainEvents _ _ _ _ _ _ _) as [rows t1].
  destruct (returning o rows) as [|ev evs]; [done|]. apply IH.
  set (r1 := Run t1 (S (tick r)) (count_claimed (length (ev :: evs)) (sum r))).
  destruct (dispatch_all_counts o (ev :: evs) r1) as (Hc & _ & Hs).
  unfold balanced in *. rewrite Hc, Hs. unfold r1, count_claimed. simpl in *. lia.
Qed.

(** The run's summary accounts for every claimed event
    exactly once: published, retried, dead-lettered or lost. *)
Lemma dispatch_summary_balanced o t s t' :
  dispatchDomainEvents o t = (Ok s, t') → balanced s.
Proof.
  unfold dispatchDomainEvents. destruct (negb _); [done|].
  destruct (deadLetterAbandonedClaims _ _ _) as [count t1]. intros [= <- _].
  by apply rounds_balanced.
Qed.

(** ** An undisturbed run publishes everything *)

(** Between [t] and [t'] exactly the rows [ids] were published. *)
Definition publishes (ids : list string) t t' : Prop :=
  ∀ id, match tget t id with
        | None => tget t' id = None
        | Some e => if bool_decide (id ∈ ids)
                    then ∃ e', tget t' id = Some e' ∧ env e' = env e ∧ status_ (bk e') = Published
                    else tget t' id = Some e
        end.

Lemma publishes_cons id ids t t1 t2 :
  publishes [id] t t1 → publishes ids t1 t2 → id ∉ ids → publishes (id :: ids) t t2.
Proof.
  intros H1 H2 Hnot i. specialize (H1 i). specialize (H2 i).
  destruct (tget t i) as [e|]; [|by rewrite H1 in H2].
  destruct (decide (i = id)) as [->|Hne].
  - rewrite bool_decide_eq_true_2 in H1 by left. destruct H1 as (e' & E & Henv & Hst).
    rewrite E, bool_decide_eq_false_2 in H2 by done. rewrite bool_decide_eq_true_2 by left. eauto.
  - rewrite bool_decide_eq_false_2 in H1 by by intros ?%list_elem_of_singleton. rewrite H1 in H2.
    destruct (bool_decide (i ∈ ids)) eqn:E.
    + apply bool_decide_eq_true in E. by rewrite bool_decide_eq_true_2 by by right.
    + apply bool_decide_eq_false in E. by rewrite bool_decide_eq_false_2 by by apply not_elem_of_cons.
Qed.

(** The claim held by [ev]: the row as the claim left it, lease apart. *)
Definition holds t (ev : string * event) : Prop :=
  ∃ e, tget t ev.1 = Some e ∧ held_by (claimToken (bk ev.2)) e = true.

Lemma holds_renew ev lease t :
  holds t ev →
  (renewLease ev lease t).1 = true ∧ holds (renewLease ev lease t).2 ev ∧
  (∀ id, id ≠ ev.1 → tget (renewLease ev lease t).2 id = tget t id) ∧
  ∃ e e', tget t ev.1 = Some e ∧ tget (renewLease ev lease t).2 ev.1 = Some e' ∧ env e' = env e.
Proof.
  intros (e & Hg & Hh). unfold renewLease. simpl.
  assert (tget (tupdate (on_id ev.1 (held_by (claimToken (bk ev.2)))) (on_bk (set_lease lease)) t) ev.1 =
          Some (Event (env e) (set_lease lease (bk e)))) as E.
  { rewrite tget_update_on_id, decide_True by done. rewrite Hg. simpl. by rewrite Hh. }
  split_and!.
  - apply bool_decide_eq_true. rewrite tcount_on_id_1. eauto.
  - eexists. split; [exact E|]. exact Hh.
  - intros id Hne. by rewrite tget_update_on_id, decide_False by done.
  - eauto.
Qed.

Lemma holds_settle ev at_ t :
  holds t ev → (settle ev (set_published at_) t).1 = true ∧ publishes [ev.1] t (settle ev (set_published at_) t).2.
Proof.
  intros (e & Hg & Hh). unfold settle. simpl. split.
  - apply bool_decide_eq_true. rewrite tcount_on_id_1. eauto.
  - intros id. rewrite tget_update_on_id. case_decide as Hi.
    + subst. rewrite Hg. simpl. rewrite Hh, bool_decide_eq_true_2 by left.
      eexists. split_and!; [done..].
    + rewrite bool_decide_eq_false_2 by (intros ?%list_elem_of_singleton; done). by destruct (tget t id).
Qed.

Section drain.
Variable o : options.
Hypothesis deliver_ok : ∀ n ev, deliver o n ev = None.
Hypothesis unlocked : ∀ n id, locked_rows o n id = false.
Hypothesis clock : ∀ n, now o 0%nat ≤ now o n.
Hypothesis returns : ∀ l, returning o l ≡ₚ l.
Hypothesis batch : (1 ≤ batchSize o)%nat.

Lemma dispatch_one_publishes r ev :
  holds (tab r) ev →
  publishes [ev.1] (tab r) (tab (dispatch_one o r ev)) ∧ sum (dispatch_one o r ev) = count_published (sum r).
Proof.
  intros Hh. unfold dispatch_one.
  destruct (holds_renew ev (now o (tick r) + leaseMs o) (tab r) Hh) as (Hok & Hh1 & Hne & (e & e1 & Hg & Hg1 & He1)).
  rewrite (surjective_pairing (renewLease _ _ _)), Hok. cbn [negb].
  rewrite deliver_ok. cbn [outcome].
  destruct (holds_settle ev (now o (S (tick r))) _ Hh1) as [Hok2 Hp].
  rewrite (surjective_pairing (settle _ _ _)), Hok2. cbn [tab sum]. split; [|done].
  intros id. specialize (Hp id). destruct (decide (id = ev.1)) as [->|Hn].
  - rewrite Hg. rewrite Hg1 in Hp. rewrite bool_decide_eq_true_2 in Hp |- * by left.
    destruct Hp as (e' & ? & ? & ?). exists e'. split_and!; [done|congruence|done].
  - by rewrite Hne in Hp by done.
Qed.

Lemma holds_publishes ids t t' ev : publishes ids t t' → ev.1 ∉ ids → holds t ev → holds t' ev.
Proof.
  intros Hp Hnot (e & Hg & Hh). specialize (Hp ev.1). rewrite Hg, bool_decide_eq_false_2 in Hp by done.
  by exists e.
Qed.

Lemma dispatch_all_publishes evs r :
  NoDup evs.*1 → (∀ ev, ev ∈ evs → holds (tab r) ev) →
  publishes evs.*1 (tab r) (tab (foldl (dispatch_one o) r evs)) ∧
  sum (foldl (dispatch_one o) r evs) = Nat.iter (length evs) count_published (sum r).
Proof.
  revert r. induction evs as [|ev evs IH]; intros r Hnd Hh.
  - split; [|done]. intros id. simpl. by destruct (tget (tab r) id).
  - rewrite fmap_cons in Hnd. apply NoDup_cons in Hnd as [Hnot Hnd].
    destruct (dispatch_one_publishes r ev (Hh ev ltac:(left))) as [Hp1 Hs1].
    destruct (IH (dispatch_one o r ev) Hnd) as [Hp2 Hs2].
    { intros e He. eapply holds_publishes; [exact Hp1| |apply Hh; by right].
      intros E%list_elem_of_singleton. apply Hnot. rewrite <-E. by apply list_elem_of_fmap_2. }
    split; [by eapply publishes_cons|].
    simpl foldl. rewrite Hs2, Hs1. simpl length. by rewrite <-Nat.iter_succ_r.
Qed.

Lemma claim_get now_ limit lease M token locked t id :
  tget (claimDomainEvents now_ limit lease M token locked t).2 id =
  (λ e, if bool_decide (id ∈ (candidates now_ M limit locked t).*1)
        then on_bk (set_claimed now_ (now_ + lease) token) id e else e) <$> tget t id.
Proof. unfold claimDomainEvents. simpl. by rewrite tget_update. Qed.

(** One round: the candidates become published, nothing else changes. *)
Lemma round_publishes r :
  let c := candidates (now o (tick r)) (maxAttempts o) (batchSize o) (locked_rows o (tick r)) (tab r) in
  let call := claimDomainEvents (now o (tick r)) (batchSize o) (leaseMs o) (maxAttempts o)
                (uuid o (tick r)) (locked_rows o (tick r)) (tab r) in
  let evs := returning o call.1 in
  let r1 := Run call.2 (S (tick r)) (count_claimed (length evs) (sum r)) in
  length evs = length c ∧
  publishes c.*1 (tab r) (tab (foldl (dispatch_one o) r1 evs)) ∧
  sum (foldl (dispatch_one o) r1 evs) = Nat.iter (length evs) count_published (count_claimed (length evs) (sum r)).
Proof.
  intros c call evs r1.
  assert (evs ≡ₚ call.1) as Hperm by apply returns.
  assert (call.1.*1 = c.*1) as Hids.
  { unfold call, claimDomainEvents. simpl. rewrite <-list_fmap_compose. by apply list_fmap_ext. }
  destruct (dispatch_all_publishes evs r1) as [Hp Hs].
  { rewrite Hperm, Hids. apply candidates_nodup. }
  { intros ev Hin. rewrite Hperm in Hin. unfold call, claimDomainEvents in Hin. simpl in Hin.
    apply list_elem_of_fmap in Hin as ([id e] & -> & Hin). simpl.
    pose proof (candidates_elem _ _ _ _ _ _ Hin) as (Hg & _). simpl in Hg.
    assert (tget call.2 id = Some (on_bk (set_claimed (now o (tick r)) (now o (tick r) + leaseMs o)
              (uuid o (tick r))) id e)) as Hg2.
    { unfold call. rewrite claim_get, Hg. simpl.
      by rewrite bool_decide_eq_true_2 by (by apply (list_elem_of_fmap_2 fst) in Hin). }
    eexists. split; [exact Hg2|]. unfold held_by. simpl. by rewrite bool_decide_refl. }
  split_and!; [by rewrite Hperm, <-(length_fmap fst call.1), Hids, length_fmap| |done].
  intros id. specialize (Hp id). change (tab r1) with call.2 in Hp at 1. unfold call in Hp. rewrite claim_get in Hp.
  fold c in Hp. destruct (tget (tab r) id) as [e|]; [|done]. simpl in Hp.
  assert (id ∈ evs.*1 ↔ id ∈ c.*1) as Hiff by by rewrite Hperm, Hids.
  destruct (bool_decide (id ∈ c.*1)) eqn:E.
  - apply bool_decide_eq_true in E. rewrite bool_decide_eq_true_2 in Hp by by apply Hiff. exact Hp.
  - apply bool_decide_eq_false in E. rewrite bool_decide_eq_false_2 in Hp by by rewrite Hiff. exact Hp.
Qed.

(** Everything unsettled is pending and due. *)
Definition quiet t : Prop :=
  ∀ id e, tget t id = Some e → settled (status_ (bk e)) = true ∨
    (status_ (bk e) = Pending ∧ nextAttemptAt (bk e) ≤ now o 0%nat).
Definition unsettled (_ : string) (e : event) : bool := negb (settled (status_ (bk e))).
Definition backlog t : nat := tcount unsettled t.

Lemma publishes_get ids t t' id e' :
  publishes ids t t' → tget t' id = Some e' →
  (¬ id ∈ ids ∧ tget t id = Some e') ∨
  (id ∈ ids ∧ ∃ e, tget t id = Some e ∧ env e' = env e ∧ status_ (bk e') = Published).
Proof.
  intros Hp Hg. specialize (Hp id). destruct (tget t id) as [e|]; [|congruence].
  destruct (bool_decide (id ∈ ids)) eqn:E.
  - apply bool_decide_eq_true in E. right. split; [done|]. destruct Hp as (e1 & ? & ? & ?).
    exists e. simplify_eq. done.
  - apply bool_decide_eq_false in E. left. split; congruence.
Qed.

Lemma publishes_env ids t t' id : publishes ids t t' → env_at t' id = env_at t id.
Proof.
  intros Hp. unfold env_at. specialize (Hp id). destruct (tget t id) as [e|]; [|by rewrite Hp].
  destruct (bool_decide _); [|by rewrite Hp]. destruct Hp as (e' & -> & E & _). simpl. by rewrite E.
Qed.

Lemma publishes_quiet ids t t' : publishes ids t t' → quiet t → quiet t'.
Proof.
  intros Hp Hq id e' Hg. destruct (publishes_get _ _ _ _ _ Hp Hg) as [[_ Hg0]|[_ (e & _ & _ & ->)]]; [eauto|by left].
Qed.

Lemma publishes_app ids1 ids2 t t1 t2 :
  publishes ids1 t t1 → publishes ids2 t1 t2 → publishes (ids1 ++ ids2) t t2.
Proof.
  intros H1 H2 id. specialize (H1 id). specialize (H2 id). destruct (tget t id) as [e|]; [|by rewrite H1 in H2].
  destruct (bool_decide (id ∈ ids1)) eqn:E1, (bool_decide (id ∈ ids2)) eqn:E2; bool_simplify.
  - rewrite bool_decide_eq_true_2 by (apply elem_of_app; by left).
    destruct H1 as (e1 & E & ? & ?). rewrite E in H2. destruct H2 as (e2 & ? & ? & ?).
    exists e2. split_and!; [done|congruence|done].
  - rewrite bool_decide_eq_true_2 by (apply elem_of_app; by left).
    destruct H1 as (e1 & E & ? & ?). rewrite E in H2. eauto.
  - rewrite bool_decide_eq_true_2 by (apply elem_of_app; by right). rewrite H1 in H2. done.
  - rewrite bool_decide_eq_false_2 by (rewrite elem_of_app; tauto). by rewrite H1 in H2.
Qed.

(** Every row published shortens the backlog by one. *)
Lemma publishes_backlog ids t t' :
  publishes ids t t' → NoDup ids →
  (∀ id, id ∈ ids → ∃ e, tget t id = Some e ∧ settled (status_ (bk e)) = false) →
  backlog t = (backlog t' + length ids)%nat.
Proof.
  intros Hp Hnd Hun. unfold backlog, tcount.
  rewrite <-(length_fmap fst (tselect unsettled t)), <-(length_fmap fst (tselect unsettled t')), <-length_app.
  apply Permutation_length, NoDup_Permutation; [apply tselect_nodup| |].
  - apply NoDup_app. split_and!; [apply tselect_nodup| |done].
    intros id ([i e'] & -> & [Hg Hu]%tselect_spec)%list_elem_of_fmap. simpl. intros Hin.
    destruct (publishes_get _ _ _ _ _ Hp Hg) as [[? _]|[_ (e & _ & _ & Hst)]]; [done|].
    unfold unsettled in Hu. by rewrite Hst in Hu.
  - intros id. rewrite elem_of_app. split.
    + intros ([i e] & -> & [Hg Hu]%tselect_spec)%list_elem_of_fmap. simpl.
      destruct (decide (i ∈ ids)) as [|Hn]; [by right|left].
      apply (list_elem_of_fmap_2' fst _ (i, e)); [|done]. apply tselect_spec. split; [|done].
      specialize (Hp i). by rewrite Hg, bool_decide_eq_false_2 in Hp.
    + intros [([i e'] & -> & [Hg Hu]%tselect_spec)%list_elem_of_fmap|Hin].
      * destruct (publishes_get _ _ _ _ _ Hp Hg) as [[_ Hg0]|[_ (e & _ & _ & Hst)]].
        -- apply (list_elem_of_fmap_2' fst _ (i, e')); [|done]. by apply tselect_spec.
        -- unfold unsettled in Hu. by rewrite Hst in Hu.
      * destruct (Hun id Hin) as (e & Hg & Hs).
        apply (list_elem_of_fmap_2' fst _ (id, e)); [|done]. apply tselect_spec.
        unfold unsettled. by rewrite Hs.
Qed.

Lemma quiet_due n t id e M :
  quiet t → tget t id = Some e → settled (status_ (bk e)) = false → due (now o n) M e = true.
Proof.
  intros Hq Hg Hs. destruct (Hq id e Hg) as [?|[Hst Hle]]; [congruence|].
  unfold due. rewrite Hst, bool_decide_refl. pose proof (clock n).
  assert ((nextAttemptAt (bk e) <=? now o n) = true) as -> by (apply Z.leb_le; lia). done.
Qed.

(** While something is unsettled, the first unsettled event of some
    aggregate can be claimed. *)
Lemma candidates_exist n t M :
  recorded_ok t → quiet t → backlog t ≠ 0%nat →
  candidates (now o n) M (batchSize o) (locked_rows o n) t ≠ [].
Proof.
  intros Hok Hq Hb.
  assert (∃ id e, tget t id = Some e ∧ settled (status_ (bk e)) = false ∧
                  tcount (blocks (env e)) t = 0%nat) as (id & e & Hg & Hs & Hc).
  { apply Nat.neq_0_lt_0, tcount_pos in Hb as (id & e & Hg & Hu).
    unfold unsettled in Hu. apply negb_true_iff' in Hu.
    remember (Z.to_nat (sequence (env e))) as m eqn:Hm. revert id e Hg Hu Hm.
    induction m as [m IH] using lt_wf_ind. intros id e Hg Hu ->.
    destruct (decide (tcount (blocks (env e)) t = 0%nat)) as [|Hnz]; [eauto 6|].
    apply Nat.neq_0_lt_0, tcount_pos in Hnz as (i & f & Hf & Hbl).
    unfold blocks in Hbl. bool_simplify.
    assert (1 ≤ sequence (env f)) by (eapply (seq_pos t Hok i); unfold env_at; by rewrite Hf).
    eapply (IH (Z.to_nat (sequence (env f)))); [lia|exact Hf|done|done]. }
  unfold candidates. intros Hnil.
  assert ((id, e) ∈ filter (λ kr, locked_rows o n kr.1 = false)
            (isort claim_le (tselect (eligible (now o n) M t) t))) as Hin.
  { apply list_elem_of_filter. split; [apply unlocked|]. rewrite elem_of_isort. apply tselect_spec.
    split; [done|]. unfold eligible. by rewrite (quiet_due n t id e M Hq Hg Hs), Hc. }
  destruct (filter _ _) as [|x l]; [by apply not_elem_of_nil in Hin|].
  destruct (batchSize o); [lia|done].
Qed.

Lemma iter_published k s :
  Nat.iter k count_published s =
  Summary (s_claimed s) (s_published s + k) (s_retried s) (s_dead s) (s_leaseLost s) (s_abandoned s).
Proof.
  induction k as [|k IH]; simpl; [rewrite Nat.add_0_r; by destruct s|].
  rewrite IH. unfold count_published. simpl. f_equal. lia.
Qed.

Lemma rounds_drain fuel r :
  recorded_ok (tab r) → quiet (tab r) → (backlog (tab r) ≤ fuel)%nat →
  let r' := rounds o fuel r in
  (∃ ids, publishes ids (tab r) (tab r')) ∧ backlog (tab r') = 0%nat ∧
  s_published (sum r') = (s_published (sum r) + backlog (tab r))%nat ∧
  s_retried (sum r') = s_retried (sum r) ∧ s_dead (sum r') = s_dead (sum r) ∧
  s_leaseLost (sum r') = s_leaseLost (sum r).
Proof.
  assert (∀ t, publishes [] t t) as Hrefl by (intros t id; by destruct (tget t id)).
  revert r. induction fuel as [|fuel IH]; intros r Hok Hq Hle.
  { cbn [rounds]. assert (backlog (tab r) = 0%nat) as -> by lia. split_and!; [by exists []|lia..]. }
  intros r'.
  pose proof (round_publishes r) as Hround. cbv zeta in Hround.
  set (c := candidates _ _ _ _ _) in Hround.
  set (call := claimDomainEvents _ _ _ _ _ _ _) in Hround. set (evs := returning o call.1) in Hround.
  destruct Hround as (Hlen & Hp & Hs).
  assert (r' = match evs with
               | [] => Run call.2 (S (tick r)) (sum r)
               | _ => rounds o fuel (foldl (dispatch_one o)
                        (Run call.2 (S (tick r)) (count_claimed (length evs) (sum r))) evs)
               end) as Er.
  { unfold r'. cbn [rounds]. fold call. rewrite (surjective_pairing call) at 1. fold evs. by destruct evs. }
  assert (∀ id, id ∈ c.*1 → ∃ e, tget (tab r) id = Some e ∧ settled (status_ (bk e)) = false) as Hun.
  { intros id ([i e] & -> & Hin)%list_elem_of_fmap. apply candidates_elem in Hin as (Hg & Hd & _).
    simpl in Hg, Hd. exists e. split; [done|]. by destruct (due_cases _ _ _ Hd) as [[-> _]|[-> _]]. }
  pose proof (publishes_backlog _ _ _ Hp (candidates_nodup _ _ _ _ _) Hun) as Hback.
  rewrite length_fmap in Hback. rewrite Er. clear Er r'.
  destruct evs as [|ev evs].
  - simpl in Hlen, Hp, Hback. rewrite <-Hlen in Hback.
    assert (backlog (tab r) = 0%nat) as Hz.
    { destruct (decide (backlog (tab r) = 0%nat)) as [|Hnz]; [done|].
      apply (candidates_exist (tick r) _ (maxAttempts o) Hok Hq) in Hnz.
      exfalso. apply Hnz. fold c. by destruct c. }
    change (backlog (tab r) = backlog call.2 + 0)%nat in Hback. cbn [tab sum].
    split_and!; [exists c.*1; exact Hp|lia..|done|done|done].
  - set (r1 := foldl _ _ _) in *. simpl length in Hlen.
    destruct (IH r1) as ([ids Hp2] & Hb2 & H1 & H2 & H3 & H4).
    + eapply recorded_ok_env; [|exact Hok]. intros id. by eapply publishes_env.
    + by eapply publishes_quiet.
    + lia.
    + rewrite iter_published in Hs. rewrite Hs in H1, H2, H3, H4. cbn [count_claimed s_published s_retried s_dead s_leaseLost length] in H1, H2, H3, H4.
      split_and!; [|done|lia..].
      exists (c.*1 ++ ids). by eapply publishes_app.
Qed.
End drain.


(** ** Replay and discard *)

Section operator_runs.
Variables (org : string) (between : string → T → T).

(** Both loops: an id is either taken, if the snapshot allows it and the
    row is still as read, or reported with a reason. *)
Lemma loop_accounts (one : string → list (string * event) * list (string * skip_reason) * T →
                           list (string * event) * list (string * skip_reason) * T) ids acc :
  (∀ id a s t, (∃ e t', one id (a, s, t) = (a ++ [(id, e)], s, t')) ∨
               (∃ r t', one id (a, s, t) = (a, s ++ [(id, r)], t'))) →
  let '(a, s, _) := foldl (λ acc id, one id acc) acc ids in
  a.*1 ++ s.*1 ≡ₚ acc.1.1.*1 ++ acc.1.2.*1 ++ ids.
Proof.
  intros Hone. revert acc. induction ids as [|id ids IH]; intros [[a s] t]; [simpl; by rewrite app_nil_r|].
  simpl. destruct (Hone id a s t) as [(e & t' & ->)|(r & t' & ->)].
  - specialize (IH (a ++ [(id, e)], s, t')). destruct (foldl _ _ ids) as [[a' s'] t'']. rewrite IH. simpl.
    rewrite fmap_app, <-app_assoc. apply Permutation_app_head. simpl. by rewrite Permutation_middle.
  - specialize (IH (a, s ++ [(id, r)], t')). destruct (foldl _ _ ids) as [[a' s'] t'']. rewrite IH. simpl.
    by rewrite fmap_app, <-app_assoc.
Qed.

Lemma replay_one_cases now maxReplays snapshot id a s t :
  (∃ e t', replay_one org between now maxReplays snapshot id (a, s, t) = (a ++ [(id, e)], s, t')) ∨
  (∃ r t', replay_one org between now maxReplays snapshot id (a, s, t) = (a, s ++ [(id, r)], t')).
Proof.
  unfold replay_one. destruct (find_by_id _ _ _) as [e|]; [|by eauto].
  destruct (negb _); [by eauto|]. destruct (_ <=? _); [by eauto|].
  destruct (update_many _ _ (between id t)) as [n t']. destruct (bool_decide _); eauto.
Qed.
Lemma discard_one_cases now snapshot id a s t :
  (∃ e t', discard_one org between now snapshot id (a, s, t) = (a ++ [(id, e)], s, t')) ∨
  (∃ r t', discard_one org between now snapshot id (a, s, t) = (a, s ++ [(id, r)], t')).
Proof.
  unfold discard_one. destruct (find_by_id _ _ _) as [e|]; [|by eauto].
  destruct (negb _); [by eauto|].
  destruct (update_many _ _ (between id t)) as [n t']. destruct (bool_decide _); eauto.
Qed.

(** A replay call with other processes running between
    its statements is a sequence of steps of the system (so it never
    requeues a published event, nor one replayed five times), and reports
    every distinct id it was given exactly once, requeued or skipped. *)
Lemma replayDeadDomainEvents_refines M ids now t cs :
  (∀ id t, rtc (step M) (Sys t cs) (Sys (between id t) cs)) →
  match replayDeadDomainEvents org between ids now MAX_REPLAYS_PER_EVENT t with
  | (Ok (requeued, skipped), t') =>
      rtc (step M) (Sys t cs) (Sys t' cs) ∧ requeued.*1 ++ skipped.*1 ≡ₚ unique ids
  | (Err e, t') => e = BatchSize ∧ t' = t ∧ (unique ids = [] ∨ (MAX_REPLAY_BATCH < length (unique ids))%nat)
  end.
Proof.
  intros Hbetween. unfold replayDeadDomainEvents.
  destruct ((_ =? _)%nat || _) eqn:Eb.
  { apply orb_true_iff' in Eb as [E%Nat.eqb_eq|E%Nat.ltb_lt]; split_and!; [done..|left|done|done|by right].
    by apply length_zero_iff_nil. }
  pose proof (loop_accounts (replay_one org between now MAX_REPLAYS_PER_EVENT t) (unique ids) ([], [], t)
                (replay_one_cases _ _ _)) as Hacc.
  assert (∀ l acc, rtc (step M) (Sys acc.2 cs)
            (Sys (foldl (λ acc id, replay_one org between now MAX_REPLAYS_PER_EVENT t id acc) acc l).2 cs)) as Hsteps.
  { induction l as [|id l IH]; intros [[a s] t1]; [done|]. cbn [foldl]. etransitivity; [|apply IH].
    unfold replay_one. cbv beta iota. destruct (find_by_id _ _ _) as [e|]; [|done].
    destruct (negb _); [done|]. destruct (Z.leb_spec MAX_REPLAYS_PER_EVENT (replayCount (bk e))); [done|].
    set (w := update_many _ _ (between id t1)). rewrite (surjective_pairing w).
    assert (rtc (step M) (Sys t1 cs) (Sys w.2 cs)) as Hs.
    { etransitivity; [apply (Hbetween id)|]. apply rtc_once.
      change w.2 with (requeue org id (replayCount (bk e)) now (between id t1)). by constructor. }
    by destruct (bool_decide _). }
  specialize (Hsteps (unique ids) ([], [], t)).
  destruct (foldl _ _ _) as [[a s] t']. simpl in *. by split.
Qed.

(** Discarding likewise is a sequence of steps and
    accounts for every distinct id. *)
Lemma discardDeadDomainEvents_refines M ids now t cs :
  (∀ id t, rtc (step M) (Sys t cs) (Sys (between id t) cs)) →
  match discardDeadDomainEvents org between ids now t with
  | (Ok (discarded, skipped), t') =>
      rtc (step M) (Sys t cs) (Sys t' cs) ∧ discarded.*1 ++ skipped.*1 ≡ₚ unique ids
  | (Err e, t') => e = BatchSize ∧ t' = t ∧ (unique ids = [] ∨ (MAX_REPLAY_BATCH < length (unique ids))%nat)
  end.
Proof.
  intros Hbetween. unfold discardDeadDomainEvents.
  destruct ((_ =? _)%nat || _) eqn:Eb.
  { apply orb_true_iff' in Eb as [E%Nat.eqb_eq|E%Nat.ltb_lt]; split_and!; [done..|left|done|done|by right].
    by apply length_zero_iff_nil. }
  pose proof (loop_accounts (discard_one org between now t) (unique ids) ([], [], t)
                (discard_one_cases _ _)) as Hacc.
  assert (∀ l acc, rtc (step M) (Sys acc.2 cs)
            (Sys (foldl (λ acc id, discard_one org between now t id acc) acc l).2 cs)) as Hsteps.
  { induction l as [|id l IH]; intros [[a s] t1]; [done|]. cbn [foldl]. etransitivity; [|apply IH].
    unfold discard_one. destruct (find_by_id _ _ _) as [e|]; [|done].
    destruct (negb _); [done|].
    set (w := update_many _ _ (between id t1)). rewrite (surjective_pairing w).
    assert (rtc (step M) (Sys t1 cs) (Sys w.2 cs)) as Hs.
    { etransitivity; [apply (Hbetween id)|]. apply rtc_once.
      change w.2 with (discard org id (replayCount (bk e)) now (between id t1)). by constructor. }
    by destruct (bool_decide _). }
  specialize (Hsteps (unique ids) ([], [], t)).
  destruct (foldl _ _ _) as [[a s] t']. simpl in *. by split.
Qed.
End operator_runs.
End runs.

(** ** The retry delay *)

Lemma int_representable z : 0 ≤ z ≤ 2 ^ 53 → Js.representable (z * Js.one) ∧ z * Js.one < 2 ^ 2098.
Proof.
  intros Hz. pose proof Js.one_pos.
  split; [apply Js.representable_shift; [lia|by apply Js.representable_int]|].
  eapply Z.le_lt_trans; [apply Z.mul_le_mono_nonneg_r; [lia|apply Hz]|].
  unfold Js.one. rewrite <-Z.pow_add_r by lia. by apply Js.pow_lt_max.
Qed.

(** The exponential ceiling is computed exactly. *)
Lemma ceiling_exact base cap k :
  0 ≤ base < 2 ^ 22 → 0 ≤ cap ≤ 2 ^ 53 → 0 ≤ k ≤ 30 →
  let x := Js.min (Js.of_Z cap) (Js.mul (Js.of_Z base) (two_pow k)) in
  Js.fin x ∧ Js.val x = Z.min cap (base * 2 ^ k) * Js.one.
Proof.
  intros Hbase Hcap Hk x. pose proof Js.one_pos as H1.
  assert (0 < 2 ^ k ≤ 2 ^ 30) as Hpk by (split; [apply Js.pow2_pos; lia|apply Z.pow_le_mono_r; lia]).
  assert (0 ≤ base * 2 ^ k ≤ 2 ^ 53) as Hprod.
  { split; [nia|]. transitivity (2 ^ 22 * 2 ^ 30); [nia|done]. }
  destruct (Js.of_Z_spec base ltac:(lia)) as [Hfb Hvb]. destruct (Js.of_Z_spec cap ltac:(lia)) as [Hfc Hvc].
  destruct (Js.of_Z_spec (2 ^ k) ltac:(lia)) as [Hfk Hvk].
  destruct (int_representable _ Hprod) as [Hr Hlt].
  destruct (Js.mul_exact (Js.of_Z base) (two_pow k) (base * 2 ^ k * Js.one)) as [Hfm Hvm];
    [done|done|rewrite Hvb; nia|unfold two_pow; rewrite Hvk; nia|done|done
    |unfold two_pow; rewrite Hvb, Hvk; ring|].
  destruct (Js.min_spec _ _ Hfc Hfm) as [Hfx Hvx]. split; [done|].
  unfold x. by rewrite Hvx, Hvc, Hvm, Z.mul_min_distr_nonneg_r by lia.
Qed.

(** Half of a whole number of milliseconds plus a share of the other half. *)
Lemma jitter_between x ceiling j :
  Js.fin x → Js.val x = ceiling * Js.one → 0 ≤ ceiling ≤ 2 ^ 53 → Js.fin j → 0 ≤ Js.val j ≤ Js.one →
  let half := Js.div x (Js.of_Z 2) in
  Js.fin (Js.add half (Js.mul half j)) ∧
  ceiling * Js.one ≤ 2 * Js.val (Js.add half (Js.mul half j)) ≤ 2 * (ceiling * Js.one).
Proof.
  intros Hfx Hvx Hc Hfj Hj half. pose proof Js.one_pos as H1.
  destruct (Js.of_Z_spec 2 ltac:(lia)) as [Hf2 Hv2]. destruct (int_representable _ Hc) as [Hrc Hltc].
  assert (Js.one = 2 * 2 ^ 1073) as Ho by (unfold Js.one; by rewrite <-(Z.pow_succ_r 2 1073)).
  set (h := ceiling * 2 ^ 1073). assert (2 * h = ceiling * Js.one) as Hh by (unfold h; rewrite Ho; ring).
  pose proof (Js.pow2_pos 1073 ltac:(lia)) as Hp73. assert (0 ≤ h) as Hh0 by (unfold h; nia).
  assert (Js.representable h) as Hrh by (apply Js.representable_shift; [lia|by apply Js.representable_int]).
  destruct (Js.div_exact x (Js.of_Z 2) h) as [Hfh Hvh];
    [done|done|rewrite Hvx; nia|rewrite Hv2; lia|done|lia|rewrite Hvx, Hv2; nia|].
  destruct (Js.mul_below half j h) as (Hfp & Hvp & _);
    [done|done|unfold half; lia|lia|done|lia|unfold half; rewrite Hvh; nia|].
  destruct (Js.add_between half (Js.mul half j) h (ceiling * Js.one)) as [Hfs Hvs];
    [done|done|unfold half; lia|lia|done|done|done|unfold half in *; lia|].
  split; [done|lia].
Qed.

(** The retry delay computed in binary64 is a whole number of
    milliseconds between half the exponential ceiling and the ceiling itself,
    for every finite value the random source returns, base delays below 2^22
    ms and caps up to 2^53 ms (the defaults are 10 s and 1 h): no rounding
    step escapes the interval the comment promises. *)
Lemma computeBackoffMs_bounds attempts base cap random :
  0 ≤ base < 2 ^ 22 → 0 ≤ cap ≤ 2 ^ 53 → Js.fin random →
  let ceiling := Z.min cap (base * 2 ^ Z.min (Z.max 0 (attempts - 1)) 30) in
  let delay := computeBackoffMs attempts (Js.of_Z base) (Js.of_Z cap) random in
  Js.fin delay ∧ Js.val delay = ms_of delay * Js.one ∧ ceiling ≤ 2 * ms_of delay ∧ ms_of delay ≤ ceiling.
Proof.
  intros Hbase Hcap Hrandom ceiling delay. pose proof Js.one_pos as H1.
  set (k := Z.min (Z.max 0 (attempts - 1)) 30) in *. assert (0 ≤ k ≤ 30) as Hk by lia.
  destruct (ceiling_exact base cap k Hbase Hcap Hk) as [Hfx Hvx]. fold ceiling in Hvx.
  assert (0 ≤ ceiling ≤ 2 ^ 53) as Hc.
  { unfold ceiling. pose proof (Js.pow2_pos k ltac:(lia)). assert (0 ≤ base * 2 ^ k) by nia. lia. }
  destruct (Js.of_Z_spec 0 ltac:(lia)) as [Hf0 Hv0]. destruct (Js.of_Z_spec 1 ltac:(lia)) as [Hf1 Hv1].
  destruct (Js.max_spec _ _ Hrandom Hf0) as [Hfa Hva]. destruct (Js.min_spec _ _ Hfa Hf1) as [Hfj Hvj].
  rewrite Hva, Hv0, Hv1 in Hvj.
  destruct (jitter_between _ ceiling _ Hfx Hvx Hc Hfj ltac:(lia)) as [Hfs Hvs].
  destruct (Js.round_spec _ Hfs) as [Hfd Hvd].
  change (Js.fin delay) in Hfd.
  match type of Hvd with _ = (2 * ?v + _) / _ * _ => set (s := v) in * end.
  set (d := (2 * s + Js.one) / (2 * Js.one)) in *.
  change (Js.val delay = d * Js.one) in Hvd.
  assert (ms_of delay = d) as -> by (unfold ms_of; rewrite Hvd; by apply Z.div_mul; lia).
  pose proof (Z.div_mod (2 * s + Js.one) (2 * Js.one) ltac:(lia)) as Hdm. fold d in Hdm.
  pose proof (Z.mod_pos_bound (2 * s + Js.one) (2 * Js.one) ltac:(lia)) as Hmod.
  split_and!; [done|done|nia|nia].
Qed.

(** ** Witnesses *)

Section witnesses.
Let accept : string → Z → json → option json := λ _ _ j, Some j.
Let ctx := RequestContext (Some "org1") (Some "req-1").
Let input (key : string) := EventInput "invoice.paid" (Some "inv1") (JObj []) (Some key) None None None None.
Let t0 : gmap string event := ∅.
Let t1 := (recordDomainEvent accept ctx (input "k1") "u1" "e1" 5 (λ t, t) t0).2.
Let t2 := (recordDomainEvent accept ctx (input "k2") "u2" "e2" 6 (λ t, t) t1).2.

(** A dispatcher whose one subscriber always succeeds. *)
Let o := Options (λ n, Z.of_nat n + 100) (λ n, pretty n) (λ _, Js.of_Z 0) (λ _ _, false) (λ l, l)
           (λ _, false) (λ _ _ f, f) [Subscriber "journal" None (λ _ _ _, None)] 25 10 1000 500 10
           (Js.of_Z 10000) (Js.of_Z 3600000).

Lemma demo_recorded : recorded_ok t2.
Proof.
  apply (reachable_recorded 10 ltac:(lia) (Sys t2 [])). exists (Sys t0 []).
  split; [split; [intros id; apply lookup_empty|done]|].
  eapply rtc_l; [apply step_record|]. apply rtc_once. apply step_record.
Qed.

Lemma demo_fair : fair o [] 1.
Proof.
  split; [done| |].
  - intros i j _ _ H. by apply (inj (pretty (A := nat))) in H.
  - intros i snap _ Hs. by apply not_elem_of_nil in Hs.
Qed.

Lemma demo_rows : map_to_list t2 =
  [("e1", Event (Envelope "org1" "invoice.paid" 1 "invoice" "inv1" 1 (JObj []) "req-1" None "k1" 5) (fresh_bookkeeping 5));
   ("e2", Event (Envelope "org1" "invoice.paid" 1 "invoice" "inv1" 2 (JObj []) "req-1" None "k2" 6) (fresh_bookkeeping 6))].
Proof. vm_compute. reflexivity. Qed.

Lemma dispatchDomainEvents_refines_witness :
  ∃ cs', rtc (step 10) (Sys t2 []) (Sys (dispatchDomainEvents o t2).2 cs').
Proof. exact (dispatchDomainEvents_refines o t2 [] demo_fair). Defined.

Lemma dispatch_summary_balanced_witness : balanced (Summary 2 2 0 0 0 0).
Proof.
  apply (dispatch_summary_balanced o t2 _ (dispatchDomainEvents o t2).2). vm_compute. reflexivity.
Defined.


Lemma replayDeadDomainEvents_refines_witness :
  match replayDeadDomainEvents "org1" (λ _ t, t) ["e1"; "zz"; "e1"] 50 MAX_REPLAYS_PER_EVENT t2 with
  | (Ok (requeued, skipped), t') =>
      rtc (step 10) (Sys t2 []) (Sys t' []) ∧ requeued.*1 ++ skipped.*1 ≡ₚ unique ["e1"; "zz"; "e1"]
  | (Err e, t') => e = BatchSize ∧ t' = t2 ∧ (unique ["e1"; "zz"; "e1"] = [] ∨
                   (MAX_REPLAY_BATCH < length (unique ["e1"; "zz"; "e1"]))%nat)
  end.
Proof. apply (replayDeadDomainEvents_refines "org1" (λ _ t, t) 10). intros. apply rtc_refl. Defined.

Lemma discardDeadDomainEvents_refines_witness :
  match discardDeadDomainEvents "org1" (λ _ t, t) ["e1"; "zz"; "e1"] 50 t2 with
  | (Ok (discarded, skipped), t') =>
      rtc (step 10) (Sys t2 []) (Sys t' []) ∧ discarded.*1 ++ skipped.*1 ≡ₚ unique ["e1"; "zz"; "e1"]
  | (Err e, t') => e = BatchSize ∧ t' = t2 ∧ (unique ["e1"; "zz"; "e1"] = [] ∨
                   (MAX_REPLAY_BATCH < length (unique ["e1"; "zz"; "e1"]))%nat)
  end.
Proof. apply (discardDeadDomainEvents_refines "org1" (λ _ t, t) 10). intros. apply rtc_refl. Defined.

Lemma computeBackoffMs_bounds_witness :
  ms_of (computeBackoffMs 1 (Js.of_Z 10000) (Js.of_Z 3600000) (Js.of_Z 0)) = 5000 ∧
  10000 ≤ 2 * ms_of (computeBackoffMs 1 (Js.of_Z 10000) (Js.of_Z 3600000) (Js.of_Z 0)).
Proof.
  split; [vm_compute; reflexivity|].
  destruct (computeBackoffMs_bounds 1 10000 3600000 (Js.of_Z 0)) as (_ & _ & H & _).
  - lia.
  - lia.
  - apply Js.of_Z_spec. lia.
  - etransitivity; [|exact H]. vm_compute. done.
Defined.
End witnesses.

End Runs.
