(* ===== verification/TenantTables.v ===== *)
(** * Tenant policy tables

    The tables of src/src/utils/prisma-tenant-proxy.js and the composite
    relations of src/src/utils/tenant-relations.js, transcribed: which models
    carry their organization themselves, which reach it through a chain of
    relations, and which writes each model admits. *)

From S2P Require Import Prelude.

Module Tables.

(* src/src/utils/prisma-tenant-proxy.js:32-55 DIRECT_SCOPED_MODELS *)
Definition DIRECT_SCOPED_MODELS : list string :=
  ["resourcelink"; "portalhandoffrequest"; "portalassistantconfig"; "portalassistantconversation";
   "portalassistantrun"; "client"; "project"; "user"; "integration"; "trasheditem"; "attachment";
   "formdraft"; "wpsite"; "wpbackup"; "wpreport"; "wpalert"; "wpfleetop"; "wpmagicloginlog";
   "wpbridgenonce"; "supporthourentry"; "assignmentrule"; "template"; "unmatchedemail";
   "lineitemtemplate"; "weeklydigest"; "tasktemplate"; "outreachsequence"; "emailtriageitem";
   "aicontext"; "ashconversation"; "projecttemplate"; "brandsettings"; "pipelinestage";
   "promptversion"; "credential"; "credentialaccessaudit"; "onboardingprogress";
   "slackinstallation"; "slackchannelmapping"; "slackeventreceipt"; "googlecalendarconnection";
   "notionimportrecord"; "importrun"; "slackimportrecord"; "loomimportrecord";
   "markupimportrecord"; "aibridgeaction"; "publicinquiry"; "auditevent"; "aiproviderconnection";
   "aiusagerecord"; "reviewsession"; "domainevent"; "documentnumbersequence";
   "impersonationsession"; "breakglassgrant"; "expense"; "taskcollaborator"; "projectboard";
   "workspacepage"; "workspacepagegrant"; "workspacecollection"; "workspacerecord";
   "workspacerecordform"; "clientagentprofile"; "workspacechatchannel"; "workspacechatmember";
   "workspacechatmessage"; "workspacechatattention"; "gmailsendreceipt"; "gmailingestreceipt";
   "workspaceaccountmanagerbinding"; "workspaceaccountmanagerinvocation";
   "clientagentconversation"; "clientagentrun"; "clientagentrunreview"; "clientserviceproject";
   "clientservicereport"; "noterevision"; "workspacepagerevision"].

(* src/src/utils/prisma-tenant-proxy.js:60-60 APPEND_ONLY_MODELS *)
Definition APPEND_ONLY_MODELS : list string :=
  ["auditevent"; "reviewdecision"; "portalassistantconversation"; "clientagentrunreview"].

(* src/src/utils/prisma-tenant-proxy.js:61-61 TRIGGER_OWNED_MODELS *)
Definition TRIGGER_OWNED_MODELS : list string :=
  ["noterevision"; "workspacepagerevision"; "gmailingestreceipt"].

(* src/src/utils/prisma-tenant-proxy.js:62-64 APPEND_ONLY_BLOCKED_METHODS *)
Definition APPEND_ONLY_BLOCKED_METHODS : list string :=
  ["update"; "updateMany"; "updateManyAndReturn"; "upsert"; "delete"; "deleteMany"].

(* src/src/utils/prisma-tenant-proxy.js:70-82 BOOKKEEPING_ONLY_MODELS *)
Definition BOOKKEEPING_ONLY_MODELS : list (string * list string) :=
  [ ("resourcelink",
      ["title"; "url"; "clientVisible"; "archivedAt"; "position"; "revision"; "updatedAt"]);
    ("portalassistantconfig",
      ["enabled"; "name"; "instructions"; "revision"; "changedById"; "updatedAt"]);
    ("portalassistantrun",
      ["status"; "response"; "claimToken"; "contextSnapshot"; "memorySnapshot"; "startedAt";
       "finishedAt"; "errorCode"; "updatedAt"]);
    ("portalhandoffrequest",
      ["status"; "ownerId"; "claimedAt"; "resolvedAt"; "changedById"; "requeueReason"; "revision";
       "updatedAt"]);
    ("workspacechatattention",
      ["acknowledgedAt"]);
    ("workspaceaccountmanagerinvocation",
      ["deliveryState"; "deliveryCode"; "deliveredAt"; "suppressedAt"; "updatedAt"]);
    ("gmailsendreceipt",
      ["status"; "providerMessageId"; "providerThreadId"; "hubMessageId"; "errorCode"; "updatedAt";
       "finishedAt"]);
    ("domainevent",
      ["status"; "attempts"; "nextAttemptAt"; "lastAttemptAt"; "lockedUntil"; "claimToken";
       "publishedAt"; "discardedAt"; "lastError"; "replayCount"]) ].

(* src/src/utils/prisma-tenant-proxy.js:83-83 BOOKKEEPING_BLOCKED_METHODS *)
Definition BOOKKEEPING_BLOCKED_METHODS : list string :=
  ["upsert"; "delete"; "deleteMany"; "updateManyAndReturn"].

(* src/src/utils/prisma-tenant-proxy.js:84-84 BOOKKEEPING_UPDATE_METHODS *)
Definition BOOKKEEPING_UPDATE_METHODS : list string :=
  ["update"; "updateMany"].

(* src/src/utils/prisma-tenant-proxy.js:97-97 GLOBAL_MODELS *)
Definition GLOBAL_MODELS : list string :=
  ["organization"; "mailgunwebhookreceipt"; "platformsetting"; "clientportallinkredemption";
   "emailwebhookreceipt"].

Record parent_relation := Parent {
  p_relation : string;
  p_field : string;
  p_model : string;
  p_required : bool
}.

(* src/src/utils/prisma-tenant-proxy.js:102-230 DIRECT_PARENT_RELATIONS *)
Definition DIRECT_PARENT_RELATIONS : list (string * list parent_relation) :=
  [ ("resourcelink", [Parent "project" "projectId" "project" true;
       Parent "task" "taskId" "task" false;
       Parent "createdBy" "createdById" "user" true]);
    ("portalassistantconfig", [Parent "client" "clientId" "client" true]);
    ("portalassistantconversation", [Parent "client" "clientId" "client" true;
       Parent "project" "projectId" "project" true]);
    ("portalassistantrun", [Parent "client" "clientId" "client" true;
       Parent "project" "projectId" "project" true;
       Parent "conversation" "conversationId" "portalassistantconversation" true]);
    ("portalhandoffrequest", [Parent "client" "clientId" "client" true;
       Parent "project" "projectId" "project" true]);
    ("workspaceaccountmanagerbinding", [Parent "channel" "channelId" "workspacechatchannel" true;
       Parent "client" "clientId" "client" true;
       Parent "project" "projectId" "project" false;
       Parent "profile" "profileId" "clientagentprofile" true;
       Parent "createdBy" "createdById" "user" true;
       Parent "updatedBy" "updatedById" "user" true]);
    ("workspaceaccountmanagerinvocation", [Parent "binding" "bindingId" "workspaceaccountmanagerbinding" true;
       Parent "sourceMessage" "sourceMessageId" "workspacechatmessage" true;
       Parent "requestedBy" "requestedById" "user" true;
       Parent "conversation" "conversationId" "clientagentconversation" true;
       Parent "run" "runId" "clientagentrun" true]);
    ("clientagentconversation", [Parent "sourceChannel" "sourceChannelId" "workspacechatchannel" false;
       Parent "sourceBinding" "sourceBindingId" "workspaceaccountmanagerbinding" false;
       Parent "client" "clientId" "client" true;
       Parent "createdBy" "createdById" "user" true]);
    ("clientagentrun", [Parent "conversation" "conversationId" "clientagentconversation" true;
       Parent "requestedBy" "requestedById" "user" true]);
    ("clientagentrunreview", [Parent "run" "runId" "clientagentrun" true]);
    ("noterevision", [Parent "note" "noteId" "note" true]);
    ("workspacepagerevision", [Parent "page" "pageId" "workspacepage" true]);
    ("workspacecollection", [Parent "author" "authorId" "user" true]);
    ("workspacerecord", [Parent "collection" "collectionId" "workspacecollection" true;
       Parent "author" "authorId" "user" true]);
    ("workspacerecordform", [Parent "collection" "collectionId" "workspacecollection" true;
       Parent "author" "authorId" "user" true]);
    ("workspacepage", [Parent "author" "authorId" "user" true;
       Parent "parent" "parentId" "workspacepage" false]);
    ("workspacepagegrant", [Parent "page" "pageId" "workspacepage" true;
       Parent "user" "userId" "user" true]);
    ("projectboard", [Parent "project" "projectId" "project" true]);
    ("taskcollaborator", [Parent "task" "taskId" "task" true;
       Parent "user" "userId" "user" true]);
    ("project", [Parent "client" "clientId" "client" true]);
    ("user", [Parent "client" "clientId" "client" false]);
    ("supporthourentry", [Parent "client" "clientId" "client" false;
       Parent "project" "projectId" "project" false]);
    ("wpsite", [Parent "client" "clientId" "client" false;
       Parent "project" "projectId" "project" false]);
    ("wpbackup", [Parent "site" "siteId" "wpsite" true]);
    ("wpreport", [Parent "site" "siteId" "wpsite" true]);
    ("wpalert", [Parent "site" "siteId" "wpsite" false]);
    ("wpbridgenonce", [Parent "site" "siteId" "wpsite" true]);
    ("expense", [Parent "client" "clientId" "client" false;
       Parent "project" "projectId" "project" false;
       Parent "invoice" "invoiceId" "invoice" false]);
    ("credential", [Parent "client" "clientId" "client" false;
       Parent "project" "projectId" "project" false]);
    ("slackchannelmapping", [Parent "installation" "installationId" "slackinstallation" true;
       Parent "project" "projectId" "project" true]);
    ("slackeventreceipt", [Parent "installation" "installationId" "slackinstallation" true]);
    ("googlecalendarconnection", [Parent "user" "userId" "user" true]);
    ("notionimportrecord", [Parent "project" "projectId" "project" true]);
    ("slackimportrecord", [Parent "project" "projectId" "project" true;
       Parent "run" "runId" "importrun" true]);
    ("loomimportrecord", [Parent "project" "projectId" "project" true;
       Parent "run" "runId" "importrun" true]);
    ("markupimportrecord", [Parent "project" "projectId" "project" true;
       Parent "run" "runId" "importrun" true]);
    ("aibridgeaction", [Parent "user" "userId" "user" true]);
    ("onboardingprogress", [Parent "user" "userId" "user" true]);
    ("publicinquiry", [Parent "owner" "ownerId" "user" false]);
    ("aiusagerecord", [Parent "connection" "connectionId" "aiproviderconnection" true]);
    ("reviewsession", [Parent "project" "projectId" "project" true;
       Parent "attachment" "attachmentId" "attachment" true;
       Parent "previousSession" "previousSessionId" "reviewsession" false]) ].

(* src/src/utils/prisma-tenant-proxy.js:242-244 SCALAR_REFERENCES *)
Definition SCALAR_REFERENCES : list (string * list (string * string)) :=
  [ ("invoice", [("projectId", "project"); ("proposalId", "proposal")]) ].

(* src/src/utils/prisma-tenant-proxy.js:246-246 RESTRICTED_MODELS *)
Definition RESTRICTED_MODELS : list string := [].

(* src/src/utils/prisma-tenant-proxy.js:262-336 TENANT_PATHS *)
Definition TENANT_PATHS : list (string * list string) :=
  [ ("contact", ["client"]);
    ("thread", ["client"]);
    ("invoice", ["client"]);
    ("proposal", ["client"]);
    ("contract", ["client"]);
    ("retainerplan", ["client"]);
    ("pipelinedeal", ["client"]);
    ("clientembedding", ["client"]);
    ("report", ["client"]);
    ("aiteammessage", ["client"]);
    ("revenuesnapshot", ["client"]);
    ("clientemailmapping", ["client"]);
    ("intakeform", ["client"]);
    ("creativebrief", ["client"]);
    ("asset", ["client"]);
    ("clientinvitation", ["client"]);
    ("estimate", ["client"]);
    ("ratecard", ["client"]);
    ("note", ["project"; "client"]);
    ("projectcommunication", ["project"; "client"]);
    ("chatmessage", ["project"; "client"]);
    ("revisionround", ["project"; "client"]);
    ("task", ["project"; "client"]);
    ("milestone", ["project"; "client"]);
    ("timesession", ["project"; "client"]);
    ("projectcontext", ["project"; "client"]);
    ("timeentry", ["project"; "client"]);
    ("activity", ["project"; "client"]);
    ("approval", ["project"; "client"]);
    ("message", ["thread"; "client"]);
    ("internalnote", ["thread"; "client"]);
    ("response", ["thread"; "client"]);
    ("invoicelineitem", ["invoice"; "client"]);
    ("invoicepayment", ["invoice"; "client"]);
    ("proposallineitem", ["proposal"; "client"]);
    ("proposalversion", ["proposal"; "client"]);
    ("taskcomment", ["task"; "project"; "client"]);
    ("notification", ["user"]);
    ("pushsubscription", ["user"]);
    ("snippet", ["createdBy"]);
    ("apikey", ["user"]);
    ("calendarevent", ["createdBy"]);
    ("eventattendee", ["event"; "createdBy"]);
    ("chatreaction", ["message"; "project"; "client"]);
    ("emailtriagedraft", ["item"]);
    ("ashchatmessage", ["conversation"]);
    ("intakeformresponse", ["form"; "client"]);
    ("reviewannotation", ["session"]);
    ("reviewdecision", ["session"]);
    ("reviewsharelink", ["session"]) ].

(** The model a path's relation leads to. *)
(* src/src/utils/prisma-tenant-proxy.js:338-354 RELATION_OWNER_MODELS *)
Definition RELATION_OWNER_MODELS : list (string * string) :=
  [ ("client", "client");
    ("project", "project");
    ("thread", "thread");
    ("invoice", "invoice");
    ("proposal", "proposal");
    ("task", "task");
    ("board", "projectboard");
    ("user", "user");
    ("createdBy", "user");
    ("event", "calendarevent");
    ("message", "chatmessage");
    ("item", "emailtriageitem");
    ("conversation", "ashconversation");
    ("form", "intakeform");
    ("session", "reviewsession") ].

(* src/src/utils/prisma-tenant-proxy.js:383-386 READ_METHODS *)
Definition READ_METHODS : list string :=
  ["findMany"; "findFirst"; "findFirstOrThrow"; "findUnique"; "findUniqueOrThrow"; "count";
   "aggregate"; "groupBy"].

(* src/src/utils/prisma-tenant-proxy.js:387-387 CREATE_METHODS *)
Definition CREATE_METHODS : list string :=
  ["create"; "createMany"; "createManyAndReturn"].

(* src/src/utils/prisma-tenant-proxy.js:388-388 BULK_UPDATE_METHODS *)
Definition BULK_UPDATE_METHODS : list string :=
  ["updateMany"; "updateManyAndReturn"].

(* src/src/utils/prisma-tenant-proxy.js:389-391 WRITE_METHODS *)
Definition WRITE_METHODS : list string :=
  CREATE_METHODS ++ ["update"] ++ BULK_UPDATE_METHODS ++ ["upsert"; "delete"; "deleteMany"].

(* src/src/utils/prisma-tenant-proxy.js:397-397 NESTED_TO_ONE_REFUSED *)
Definition NESTED_TO_ONE_REFUSED : list string :=
  ["create"; "connectOrCreate"; "upsert"].

(* src/src/utils/prisma-tenant-proxy.js:398-398 NESTED_TO_MANY_REFUSED *)
Definition NESTED_TO_MANY_REFUSED : list string :=
  ["connectOrCreate"].

(* src/src/utils/tenant-relations.js:27-50 COMPOSITE_TENANT_RELATIONS *)
Definition COMPOSITE_TENANT_RELATIONS : list (string * list (string * list string)) :=
  [ ("clientagentrunreview", [("run", ["runId"; "organizationId"])]);
    ("resourcelink", [("organization", ["organizationId"]);
       ("project", ["projectId"; "organizationId"]);
       ("task", ["taskId"; "projectId"]);
       ("createdBy", ["createdById"; "organizationId"])]);
    ("portalassistantconfig", [("client", ["clientId"; "organizationId"])]);
    ("portalassistantconversation", [("client", ["clientId"; "organizationId"]);
       ("project", ["projectId"; "organizationId"])]);
    ("portalassistantrun", [("client", ["clientId"; "organizationId"]);
       ("project", ["projectId"; "organizationId"]);
       ("conversation", ["conversationId"; "organizationId"])]);
    ("portalhandoffrequest", [("client", ["clientId"; "organizationId"]);
       ("project", ["projectId"; "organizationId"])]);
    ("workspaceaccountmanagerbinding", [("channel", ["channelId"; "organizationId"]);
       ("client", ["clientId"; "organizationId"]);
       ("project", ["projectId"; "organizationId"]);
       ("profile", ["profileId"; "organizationId"]);
       ("createdBy", ["createdById"; "organizationId"]);
       ("updatedBy", ["updatedById"; "organizationId"])]);
    ("workspaceaccountmanagerinvocation", [("binding", ["bindingId"; "organizationId"]);
       ("sourceMessage", ["sourceMessageId"; "organizationId"]);
       ("requestedBy", ["requestedById"; "organizationId"]);
       ("conversation", ["conversationId"; "organizationId"]);
       ("run", ["runId"; "organizationId"])]);
    ("gmailsendreceipt", [("user", ["userId"; "organizationId"])]);
    ("clientserviceproject", [("client", ["clientId"; "organizationId"]);
       ("credential", ["credentialId"; "organizationId"; "clientId"])]);
    ("clientservicereport", [("client", ["clientId"; "organizationId"]);
       ("mapping", ["mappingId"; "organizationId"; "clientId"])]);
    ("clientagentprofile", [("createdBy", ["createdById"; "organizationId"]);
       ("updatedBy", ["updatedById"; "organizationId"])]);
    ("clientagentconversation", [("createdBy", ["createdById"; "organizationId"]);
       ("sourceChannel", ["sourceChannelId"; "organizationId"]);
       ("sourceBinding", ["sourceBindingId"; "organizationId"])]);
    ("clientagentrun", [("conversation", ["conversationId"; "organizationId"]);
       ("requestedBy", ["requestedById"; "organizationId"])]);
    ("workspacechatchannel", [("createdBy", ["createdById"; "organizationId"])]);
    ("workspacechatmember", [("channel", ["channelId"; "organizationId"]);
       ("user", ["userId"; "organizationId"])]);
    ("workspacechatmessage", [("channel", ["channelId"; "organizationId"]);
       ("author", ["authorId"; "organizationId"])]);
    ("workspacechatattention", [("channel", ["channelId"; "organizationId"]);
       ("message", ["messageId"; "organizationId"]);
       ("recipient", ["recipientId"; "organizationId"])]);
    ("workspacecollection", [("author", ["authorId"; "organizationId"])]);
    ("workspacerecord", [("collection", ["collectionId"; "organizationId"]);
       ("author", ["authorId"; "organizationId"])]);
    ("workspacerecordform", [("collection", ["collectionId"; "organizationId"]);
       ("author", ["authorId"; "organizationId"])]) ].

(** The models of the Prisma schema, by their lower-case names. *)
(* src/prisma/schema.prisma:1-3651 model *)
Definition SCHEMA_MODELS : list string :=
  ["organization"; "user"; "onboardingprogress"; "formdraft"; "client"; "contact"; "project";
   "portalhandoffrequest"; "task"; "thread"; "message"; "internalnote"; "response"; "notification";
   "assignmentrule"; "template"; "unmatchedemail"; "chatmessage"; "chatreaction"; "workspacepage";
   "workspacepagegrant"; "note"; "noterevision"; "workspacepagerevision"; "milestone"; "timeentry";
   "attachment"; "activity"; "workspacecollection"; "workspacerecord"; "workspacerecordform";
   "projectboard"; "taskcollaborator"; "taskcomment"; "calendarevent"; "eventattendee";
   "retainerplan"; "report"; "revisionround"; "proposalversion"; "proposal"; "proposallineitem";
   "contract"; "invoice"; "documentnumbersequence"; "invoicelineitem"; "invoicepayment";
   "lineitemtemplate"; "weeklydigest"; "credential"; "credentialaccessaudit"; "auditevent";
   "domainevent"; "aiproviderconnection"; "aiusagerecord"; "platformsetting"; "tasktemplate";
   "outreachsequence"; "emailtriageitem"; "emailtriagedraft"; "aiteammessage"; "aicontext";
   "expense"; "revenuesnapshot"; "approval"; "projectcommunication"; "projectcontext";
   "clientemailmapping"; "pushsubscription"; "ashconversation"; "ashchatmessage";
   "projecttemplate"; "intakeform"; "intakeformresponse"; "brandsettings"; "pipelinestage";
   "pipelinedeal"; "supporthourentry"; "creativebrief"; "snippet"; "asset"; "clientembedding";
   "timesession"; "promptversion"; "clientinvitation"; "apikey"; "impersonationsession";
   "breakglassgrant"; "aibridgeaction"; "estimate"; "ratecard"; "integration";
   "googlecalendarconnection"; "notionimportrecord"; "importrun"; "slackimportrecord";
   "loomimportrecord"; "markupimportrecord"; "slackinstallation"; "slackchannelmapping";
   "slackeventreceipt"; "trasheditem"; "wpsite"; "wpbackup"; "wpreport"; "wpalert"; "wpfleetop";
   "wpmagicloginlog"; "wpbridgenonce"; "publicinquiry"; "reviewsession"; "reviewannotation";
   "reviewdecision"; "reviewsharelink"; "mailgunwebhookreceipt"; "clientportallinkredemption";
   "emailwebhookreceipt"; "gmailsendreceipt"; "clientagentconversation"; "clientagentrun";
   "clientagentrunreview"; "clientagentprofile"; "workspacechatchannel"; "workspacechatmember";
   "workspacechatmessage"; "workspacechatattention"; "clientserviceproject"; "clientservicereport";
   "workspaceaccountmanagerbinding"; "workspaceaccountmanagerinvocation"; "gmailingestreceipt";
   "portalassistantconfig"; "portalassistantconversation"; "portalassistantrun"; "resourcelink"].

End Tables.
