(* ===== verification/Tenancy.v ===== *)
(** * The tenant-scoped Prisma client

    src/src/utils/prisma-tenant-proxy.js and src/src/utils/tenant-relations.js:
    every delegate call of request-scoped code is rewritten or refused before
    it reaches the database.  [scopedCall] is that rewriting: it answers the
    method and arguments the database client is called with, or the refusal. *)

From stdpp Require Import pretty.
From S2P Require Import Prelude Json TenantTables.
Import Json Tables.

Module Tenancy.

(** ** JavaScript object operations on argument values *)

Definition assoc {A} (k : string) (l : list (string * A)) : option A :=
  snd <$> List.find (λ kv, bool_decide (kv.1 = k)) l.

(** [value?.[k]]; an absent property is [undefined], here [None]. *)
Definition jget (k : string) (j : json) : option json :=
  match j with JObj fields => assoc k fields | _ => None end.
Definition jget_opt (k : string) (j : option json) : option json := j ≫= jget k.

(** [{ ...fields, [k]: v }] *)
Fixpoint fset (k : string) (v : json) (fields : list (string * json)) : list (string * json) :=
  match fields with
  | [] => [(k, v)]
  | (k', v') :: l => if bool_decide (k' = k) then (k, v) :: l else (k', v') :: fset k v l
  end.

(** The properties a spread [...value] copies. *)
Definition props (j : option json) : list (string * json) :=
  match j with Some (JObj fields) => fields | _ => [] end.
Definition spread (j : option json) (k : string) (v : json) : json := JObj (fset k v (props j)).

Definition truthy (j : option json) : bool :=
  match j with
  | None | Some JNull | Some (JBool false) | Some (JStr "") => false
  | Some (JNum n) => negb (bool_decide (n = "0"))
  | Some _ => true
  end.

(* src/src/utils/prisma-tenant-proxy.js:415-417 isPlainObject *)
Definition isPlainObject (j : option json) : bool :=
  match j with Some (JObj _) => true | _ => false end.

(* src/src/utils/prisma-tenant-proxy.js:419-422 asList *)
Definition asList (j : option json) : list json :=
  match j with
  | None | Some JNull => []
  | Some (JArr l) => l
  | Some v => [v]
  end.

(* src/src/utils/prisma-tenant-proxy.js:425-429 scalarKeyValue *)
Definition scalarKeyValue (value : json) : option string :=
  match value with
  | JStr s => Some s
  | JObj _ => match jget "set" value with Some (JStr s) => Some s | _ => None end
  | _ => None
  end.

(* src/src/utils/prisma-tenant-proxy.js:439-442 tenantFilteredWhere *)
Definition tenantFilteredWhere (where_ : option json) (tenantWhere : json) : json :=
  let deletion := match jget_opt "deletedAt" where_ with Some d => [("deletedAt", d)] | None => [] end in
  let where_ := match where_ with None | Some JNull => JObj [] | Some w => w end in
  JObj (deletion ++ [("AND", JArr [where_; tenantWhere])]).

(* src/src/utils/prisma-tenant-proxy.js:371-378 buildTenantWhere *)
Definition buildTenantWhere (path : list string) (organizationId : string) : json :=
  foldr (λ rel acc, JObj [(rel, acc)]) (JObj [("organizationId", JStr organizationId)]) path.

(** ** The policy of a model *)

Inductive policy := Direct | Relation (path : list string) | Global | Restricted | Unclassified.

Definition direct (m : string) : bool := bool_decide (m ∈ DIRECT_SCOPED_MODELS).
Definition tenantPath (m : string) : option (list string) := assoc m TENANT_PATHS.
Definition bookkeeping (m : string) : option (list string) := assoc m BOOKKEEPING_ONLY_MODELS.
Definition mem (x : string) (l : list string) : bool := bool_decide (x ∈ l).

(* src/src/utils/prisma-tenant-proxy.js:356-361 tenantModelPolicy *)
Definition tenantModelPolicy (m : string) : policy :=
  if mem m RESTRICTED_MODELS then Restricted
  else if mem m GLOBAL_MODELS then Global
  else match tenantPath m with
       | Some path => Relation path
       | None => if direct m then Direct else Unclassified
       end.

(** ** Refusals *)

Inductive tenancy_error :=
  | NoOrganization
  | NotUnique
  | UnsupportedComposite
  | OtherWorkspace
  | NotOwned (model : string)
  | SharedLink
  | NotClassified
  | Unverifiable
  | NoMetadata
  | UnsupportedNested
  | NestedRefused
  | NestedUnsupported
  | NotPermitted
  | DatabaseOwned
  | AppendOnly
  | NotRemovable
  | Immutable (fields : list string)
  | NestedParent
  | FieldRequired (field : string)
  | RecordUnavailable
  | NoOwnerPolicy
  | RestrictedModel
  | OutOfFuel.

(** [TenancyError.statusCode]; the two plain [Error]s answer 500 as well. *)
(* src/src/utils/prisma-tenant-proxy.js:406-413 TenancyError *)
Definition statusCode (e : tenancy_error) : Z :=
  match e with
  | NotUnique | UnsupportedComposite | FieldRequired _ => 400
  | OtherWorkspace | NotOwned _ | RecordUnavailable => 404
  | _ => 500
  end.

(** ** Relation metadata *)

Record relation_info := RelationInfo { target : string; fk : option string }.
Record model_relations := ModelRelations {
  relations : list (string * relation_info);
  foreignKeys : list (string * string)
}.

(** A model of Prisma's generated data model. *)
Inductive field_kind := KScalar | KObject (type_ : string) | KOther.
Record dmmf_model := DmmfModel { m_name : string; m_fields : list (string * field_kind) }.

Definition lower (c : Ascii.ascii) : Ascii.ascii :=
  let n := Ascii.nat_of_ascii c in
  if (65 <=? n)%nat && (n <=? 90)%nat then Ascii.ascii_of_nat (n + 32) else c.
Fixpoint toLowerCase (s : string) : string :=
  match s with EmptyString => EmptyString | String c s' => String (lower c) (toLowerCase s') end.

Definition COMPOSITE_TARGETS : list string :=
  ["User"; "Client"; "WorkspaceCollection"; "WorkspaceChatChannel"; "ClientAgentConversation";
   "ClientServiceProject"; "Credential"; "Project"; "ClientAgentProfile";
   "WorkspaceAccountManagerBinding"; "WorkspaceChatMessage"; "ClientAgentRun"; "PortalAssistantConversation"].

(** Whether a relation's key columns are a supported composite edge. *)
Definition composite_ok (model name type_ : string) (fk_ : option string) (scalars fkFields : list string) : bool :=
  let resourceTaskParent :=
    bool_decide (model = "ResourceLink") && bool_decide (name = "task") && bool_decide (type_ = "Task") &&
    bool_decide (fk_ = Some "taskId") && bool_decide (fkFields = ["taskId"; "projectId"]) in
  let three_ok :=
    ((bool_decide (model = "ClientServiceReport") && bool_decide (name = "mapping")) ||
     (bool_decide (model = "ClientServiceProject") && bool_decide (name = "credential"))) &&
    bool_decide (length fkFields = 3%nat) && bool_decide (fkFields !! 2%nat = Some "clientId") in
  forallb (λ k, mem k scalars) fkFields &&
  (negb (1 <? Z.of_nat (length fkFields)) || resourceTaskParent ||
   (bool_decide (fkFields !! 0%nat = fk_) && bool_decide (fkFields !! 1%nat = Some "organizationId") &&
    mem type_ COMPOSITE_TARGETS && (negb (2 <? Z.of_nat (length fkFields)) || three_ok))).

(* src/src/utils/tenant-relations.js:68-84 tenantRelationMap *)
Definition model_entry (m : dmmf_model) : option (string * model_relations) :=
  let scalars := fst <$> List.filter (λ f, match f.2 with KScalar => true | _ => false end) (m_fields m) in
  let key := toLowerCase (m_name m) in
  let add (acc : option model_relations) (f : string * field_kind) : option model_relations :=
    match acc, f.2 with
    | Some r, KObject type_ =>
        let fk_ := if mem (f.1 +:+ "Id") scalars then Some (f.1 +:+ "Id") else None in
        let fkFields := default (match fk_ with Some k => [k] | None => [] end)
                          (assoc key COMPOSITE_TENANT_RELATIONS ≫= assoc f.1) in
        if composite_ok (m_name m) f.1 type_ fk_ scalars fkFields then
          Some (ModelRelations (relations r ++ [(f.1, RelationInfo (toLowerCase type_) fk_)])
                  (foreignKeys r ++ match fk_ with Some k => [(k, f.1)] | None => [] end))
        else None
    | acc, _ => acc
    end in
  (λ r, (key, r)) <$> foldl add (Some (ModelRelations [] [])) (m_fields m).

(* src/src/utils/tenant-relations.js:60-87 tenantRelationMap *)
Definition tenantRelationMap (models : list dmmf_model) : option (list (string * model_relations)) :=
  match models with [] => None | _ => mapM model_entry models end.

(* src/src/utils/tenant-relations.js:90-92 relationsFor *)
Definition relationsFor (map : list (string * model_relations)) (modelKey : string) : option model_relations :=
  assoc modelKey map.

(** ** Verified references *)

(** The key a proof of ownership is cached under in one call. *)
Definition cache_key : Type := string * bool * json.
Abbreviation Check A := (Eff (list cache_key) tenancy_error A).

Fixpoint json_size (j : json) : nat :=
  match j with
  | JArr l => S (list_sum (List.map json_size l))
  | JObj l => S (list_sum (List.map (λ kv, json_size kv.2) l))
  | _ => 1%nat
  end.

(** The elements a write operand stands for, rewritten in place. *)
Definition map_rows (f : json → Check json) (operand : json) : Check json :=
  match operand with
  | JNull => mret JNull
  | JArr l => l' ← mapM f l; mret (JArr l')
  | v => f v
  end.

(** A property of an object rewritten in place; anything else is left. *)
Definition map_prop (k : string) (f : json → Check json) (j : json) : Check json :=
  match j with
  | JObj fields => match assoc k fields with
                   | Some v => v' ← f v; mret (JObj (fset k v' fields))
                   | None => mret j
                   end
  | _ => mret j
  end.

Section proxy.
Context (organizationId : string).
(** The relation metadata of the generated client. *)
Context (metadata : list (string * model_relations)).
(** The soft-delete client: whether it has a delegate for a model, and what
    [findFirst] answers (with or without deleted rows) for a [where]. *)
Context (has_delegate : string → bool).
Context (findFirst : bool → string → json → option json).

(* src/src/utils/prisma-tenant-proxy.js:453-456 ownedWhere *)
Definition ownedWhere (modelKey : string) (where_ : json) : json :=
  if direct modelKey then spread (Some where_) "organizationId" (JStr organizationId)
  else tenantFilteredWhere (Some where_) (buildTenantWhere (default [] (tenantPath modelKey)) organizationId).

Definition remove_prop (k : string) (fields : list (string * json)) : list (string * json) :=
  List.filter (λ kv, negb (bool_decide (kv.1 = k))) fields.

(** [{ ...a, ...b }] *)
Definition merge (a b : list (string * json)) : list (string * json) :=
  foldl (λ acc kv, fset kv.1 kv.2 acc) a b.

(* src/src/utils/prisma-tenant-proxy.js:458-466 ownedSelector *)
Definition ownedSelector (modelKey : string) (where_ : option json) : result tenancy_error (option json) :=
  where_ ← match jget_opt "id_organizationId" where_ with
           | Some (JObj composite) =>
               match jget "id" (JObj composite), jget "organizationId" (JObj composite) with
               | Some (JStr _), Some (JStr _) =>
                   if mem modelKey ["user"; "workspacecollection"; "clientagentconversation"] &&
                      bool_decide (length composite = 2%nat)
                   then Ok (Some (JObj (remove_prop "id_organizationId" (merge (props where_) composite))))
                   else Err UnsupportedComposite
               | _, _ => Err UnsupportedComposite
               end
           | _ => Ok where_
           end;
  match jget_opt "organizationId" where_ with
  | Some (JStr o) => if bool_decide (o = organizationId) then Ok where_ else Err OtherWorkspace
  | Some _ => Err OtherWorkspace
  | None => Ok where_
  end.

Definition lift {A} (r : result tenancy_error A) : Check A := λ s, (r, s).
Definition add_verified (k : cache_key) : Check unit := λ s, (Ok tt, k :: s).

(* src/src/utils/prisma-tenant-proxy.js:473-504 verifyOwned *)
Definition verifyOwned (modelKey : string) (where_ : option json) (includeDeleted : bool) : Check unit := λ verified,
  match where_ with
  | Some (JObj (_ :: _)) =>
      match ownedSelector modelKey where_ with
      | Err e => (Err e, verified)
      | Ok where_ =>
          let w := default JNull where_ in
          let key := (modelKey, includeDeleted, w) in
          if bool_decide (key ∈ verified) then (Ok tt, verified)
          else if bool_decide (modelKey = "organization") then
            if bool_decide (w = JObj [("id", JStr organizationId)]) then (Ok tt, key :: verified)
            else (Err (NotOwned modelKey), verified)
          else if mem modelKey GLOBAL_MODELS then (Err SharedLink, verified)
          else if negb (direct modelKey) && bool_decide (tenantPath modelKey = None) then (Err NotClassified, verified)
          else if negb (has_delegate modelKey) then (Err Unverifiable, verified)
          else match findFirst includeDeleted modelKey (ownedWhere modelKey w) with
               | None => (Err (NotOwned modelKey), verified)
               | Some _ => (Ok tt, key :: verified)
               end
      end
  | _ => (Err NotUnique, verified)
  end.

(** ** Write data *)

Inductive nested_op := NConnect | NCreate | NCreateMany | NUpdate | NUpsert | NIgnore | NUnsupported.
Definition nested_op_of (operation : string) : nested_op :=
  if mem operation ["connect"; "set"] then NConnect
  else if bool_decide (operation = "create") then NCreate
  else if bool_decide (operation = "createMany") then NCreateMany
  else if mem operation ["update"; "updateMany"] then NUpdate
  else if bool_decide (operation = "upsert") then NUpsert
  else if mem operation ["disconnect"; "delete"; "deleteMany"] then NIgnore
  else NUnsupported.

(** To-many (and filtered to-one) updates are [{ where, data }]; a plain
    to-one update is the data itself. *)
Definition wraps_data (toOne : bool) (entry : json) : bool :=
  isPlainObject (jget "data" entry) && (negb toOne || bool_decide (jget "where" entry ≠ None)).

Definition by_id (id : string) : option json := Some (JObj [("id", JStr id)]).

(** One operation of a nested relation write; [row] validates a nested row of
    the relation's target, [creating] it or not. *)
Definition validate_operation (row : bool → json → Check json) (target_ : string) (toOne : bool)
    (operation : string) (operand : json) : Check json :=
  if mem operation (if toOne then NESTED_TO_ONE_REFUSED else NESTED_TO_MANY_REFUSED) then throw NestedRefused
  else match nested_op_of operation with
  | NConnect =>
      _ ← mapM (λ w, verifyOwned target_ (Some w) false) (asList (Some operand));
      mret operand
  | NCreate => map_rows (row true) operand
  | NCreateMany => map_prop "data" (map_rows (row true)) operand
  | NUpdate =>
      map_rows (λ entry, if wraps_data toOne entry then map_prop "data" (row false) entry
                         else row false entry) operand
  | NUpsert =>
      map_rows (λ entry, entry ← map_prop "create" (row true) entry;
                         map_prop "update" (row false) entry) operand
  | NIgnore => mret operand
  | NUnsupported => throw NestedUnsupported
  end.

(** One property of a row of write data. *)
Definition validate_property (row : string → bool → json → Check json) (meta : model_relations)
    (modelKey : string) (existing : option json) (key : string) (value : json) : Check json :=
  match assoc modelKey SCALAR_REFERENCES ≫= assoc key with
  | Some referenced =>
      _ ← match scalarKeyValue value with
          | Some ownerId =>
              if bool_decide (jget_opt key existing = Some (JStr ownerId)) then mret tt
              else verifyOwned referenced (by_id ownerId) true
          | None => mret tt
          end;
      mret value
  | None =>
      match assoc key (foreignKeys meta) with
      | Some relationName =>
          _ ← match scalarKeyValue value with
              | Some ownerId =>
                  match assoc relationName (relations meta) with
                  | Some relation => verifyOwned (target relation) (by_id ownerId) false
                  | None => throw NoMetadata
                  end
              | None => mret tt
              end;
          mret value
      | None =>
          match assoc key (relations meta), value with
          | None, _ => mret value
          | Some _, JNull => mret value
          | Some relation, JObj operations =>
              let toOne := bool_decide (fk relation ≠ None) in
              operations' ← mapM (λ kv, v ← validate_operation (row (target relation)) (target relation) toOne kv.1 kv.2;
                                        mret (kv.1, v)) operations;
              mret (JObj operations')
          | Some _, _ => throw UnsupportedNested
          end
      end
  end.

Fixpoint validate_row (fuel : nat) (modelKey : string) (creating nested : bool) (existing : option json)
    (data : json) : Check json :=
  match fuel with
  | O => throw OutOfFuel
  | S fuel' =>
      match data with
      | JObj fields =>
          match relationsFor metadata modelKey with
          | None => throw NoMetadata
          | Some meta =>
              let fields :=
                if nested && creating && direct modelKey && bool_decide (assoc "organization" fields = None)
                then fset "organizationId" (JStr organizationId) fields else fields in
              let row target_ creating_ := validate_row fuel' target_ creating_ true None in
              fields' ← mapM (λ kv, v ← validate_property row meta modelKey existing kv.1 kv.2;
                                    mret (kv.1, v)) fields;
              mret (JObj fields')
          end
      | _ => mret data
      end
  end.

(* src/src/utils/prisma-tenant-proxy.js:512-587 validateWriteData *)
Definition validateWriteData (modelKey : string) (creating : bool) (existing : option json) (data : json)
  : Check json :=
  validate_row (S (json_size data)) modelKey creating false existing data.

(** The ids of the rows a batch creates count as owned within the batch. *)
Definition batch_ids (modelKey : string) (rows : list json) : list cache_key :=
  omap (λ row, match jget "id" row with
               | Some (JStr id) => Some (modelKey, false, JObj [("id", JStr id)])
               | _ => None
               end) rows.

(* src/src/utils/prisma-tenant-proxy.js:590-611 validateWriteArgs *)
Definition validateWriteArgs (modelKey method : string) (args : json) (existing : option json) : Check json :=
  if bool_decide (method = "upsert") then
    args ← map_prop "create" (validateWriteData modelKey true None) args;
    map_prop "update" (validateWriteData modelKey false None) args
  else if mem method CREATE_METHODS || bool_decide (method = "update") || mem method BULK_UPDATE_METHODS then
    let creating := mem method CREATE_METHODS in
    let batch := if creating && negb (truthy (jget "skipDuplicates" args))
                 then batch_ids modelKey (asList (jget "data" args)) else [] in
    _ ← modify (λ verified, batch ++ verified);
    map_prop "data" (map_rows (validateWriteData modelKey creating existing)) args
  else mret args.

(** ** A delegate call *)

Definition set_arg (k : string) (v : json) (args : json) : json := JObj (fset k v (props (Some args))).
Definition scope_where (args : json) : json :=
  set_arg "where" (spread (jget "where" args) "organizationId" (JStr organizationId)) args.
Definition stamp (row : option json) : json := spread row "organizationId" (JStr organizationId).

(** A required parent of a direct-scoped row is named, and no parent is
    created through the row. *)
(* src/src/utils/prisma-tenant-proxy.js:718-729 createScopedPrisma *)
Definition check_parent (creating : bool) (row : json) (parent : parent_relation) : result tenancy_error unit :=
  let relation := jget (p_relation parent) row in
  if truthy (jget_opt "create" relation) || truthy (jget_opt "connectOrCreate" relation) then Err NestedParent
  else
    let connected := jget_opt "connect" relation in
    ownerId ← match jget (p_field parent) row with
              | Some JNull | None =>
                  if truthy connected then
                    w ← ownedSelector (p_model parent) connected; Ok (jget_opt "id" w)
                  else Ok None
              | Some v => Ok (Some v)
              end;
    refuse_unless (truthy ownerId || negb creating || negb (p_required parent)) (FieldRequired (p_field parent)).

(** The rows a direct-scoped write carries, and whether each is created. *)
(* src/src/utils/prisma-tenant-proxy.js:712-717 createScopedPrisma *)
Definition ownership_writes (method : string) (args : json) : list (json * bool) :=
  if bool_decide (method = "upsert") then
    [(default JNull (jget "create" args), true); (default JNull (jget "update" args), false)]
  else if mem method CREATE_METHODS || bool_decide (method = "update") || mem method BULK_UPDATE_METHODS then
    (λ row, (row, mem method CREATE_METHODS)) <$> asList (jget "data" args)
  else [].

(** Where the organization is put into the arguments of a direct model. *)
(* src/src/utils/prisma-tenant-proxy.js:689-709 createScopedPrisma *)
Definition inject (method : string) (keeps_books : bool) (args : json) : json :=
  if mem method READ_METHODS then scope_where args
  else if mem method CREATE_METHODS then
    match jget "data" args with
    | Some (JArr rows) => set_arg "data" (JArr ((λ d, stamp (Some d)) <$> rows)) args
    | d => set_arg "data" (stamp d) args
    end
  else if bool_decide (method = "upsert") then
    set_arg "update" (stamp (jget "update" args))
      (set_arg "create" (stamp (jget "create" args)) (scope_where args))
  else if mem method ["update"; "delete"; "deleteMany"] || mem method BULK_UPDATE_METHODS then
    let args := scope_where args in
    if truthy (jget "data" args) && negb keeps_books then set_arg "data" (stamp (jget "data" args)) args else args
  else args.

(* src/src/utils/prisma-tenant-proxy.js:688-733 createScopedPrisma *)
Definition directCall (modelKey method : string) (args : json) : Check (string * json) :=
  let args := inject method (bool_decide (bookkeeping modelKey ≠ None)) args in
  _ ← lift (mapM (λ w, mapM (check_parent w.2 w.1) (default [] (assoc modelKey DIRECT_PARENT_RELATIONS)))
             (ownership_writes method args));
  args ← validateWriteArgs modelKey method args None;
  mret (method, args).

Definition keep_props (ks : list string) (args : json) : list (string * json) :=
  omap (λ k, v ← jget k args; if truthy (Some v) then Some (k, v) else None) ks.

(** A property that is absent when its value is [undefined]. *)
Definition opt_prop (k : string) (v : option json) : list (string * json) :=
  match v with Some v => [(k, v)] | None => [] end.

(* src/src/utils/prisma-tenant-proxy.js:735-822 createScopedPrisma *)
Definition pathCall (modelKey method : string) (path : list string) (args : json) : Check (string * json) :=
  let tenantWhere := buildTenantWhere path organizationId in
  let ownerRelation := default "" (head path) in
  let ownerIdField := ownerRelation +:+ "Id" in
  let owned := tenantFilteredWhere (jget "where" args) tenantWhere in
  if mem method ["findUnique"; "findUniqueOrThrow"] then
    mret (if bool_decide (method = "findUniqueOrThrow") then "findFirstOrThrow" else "findFirst",
          JObj (("where", owned) :: keep_props ["include"; "select"; "orderBy"; "cursor"; "distinct"] args))
  else
    let args := if mem method READ_METHODS || bool_decide (method = "deleteMany") || mem method BULK_UPDATE_METHODS
                then set_arg "where" owned args else args in
    if mem method ["update"; "delete"] then
      match findFirst false modelKey owned with
      | None => throw RecordUnavailable
      | Some scopedTarget =>
          args ← (if bool_decide (method = "update")
                  then validateWriteArgs modelKey method args (Some scopedTarget) else mret args);
          mret (method, args)
      end
    else if bool_decide (method = "upsert") then
      _ ← guard_eff (bool_decide (assoc ownerRelation RELATION_OWNER_MODELS ≠ None)) NoOwnerPolicy;
      let extra := keep_props ["include"; "select"] args in
      match findFirst false modelKey owned with
      | None =>
          _ ← guard_eff (truthy (jget_opt ownerIdField (jget "create" args))) (FieldRequired ownerIdField);
          data ← validateWriteData modelKey true None (default JNull (jget "create" args));
          mret ("create", JObj (("data", data) :: extra))
      | Some _ =>
          data ← match jget "update" args with
                 | Some branch => data ← validateWriteData modelKey false None branch; mret [("data", data)]
                 | None => mret []
                 end;
          mret ("update", JObj (opt_prop "where" (jget "where" args) ++ data ++ extra))
      end
    else
      _ ← (if mem method CREATE_METHODS then
             _ ← guard_eff (bool_decide (assoc ownerRelation RELATION_OWNER_MODELS ≠ None)) NoOwnerPolicy;
             guard_eff (forallb (λ row, truthy (jget ownerIdField row)) (asList (jget "data" args)))
                       (FieldRequired ownerIdField)
           else mret tt);
      args ← (if mem method CREATE_METHODS || mem method BULK_UPDATE_METHODS
              then validateWriteArgs modelKey method args None else mret args);
      mret (method, args).

(** [Object.keys(value || {})]. *)
Definition object_keys (j : option json) : list string :=
  match j with
  | Some (JObj fields) => fields.*1
  | Some (JArr l) => pretty <$> seq 0 (length l)
  | Some (JStr s) => pretty <$> seq 0 (String.length s)
  | _ => []
  end.

(** The changed fields of a bookkeeping-only row that are not bookkeeping. *)
(* src/src/utils/prisma-tenant-proxy.js:676-682 createScopedPrisma *)
Definition immutable_changes (fields : list string) (args : json) : list string :=
  List.filter (λ k, negb (mem k fields)) (object_keys (jget "data" args)).

(** What a call of a delegate method does: refused, passed through unscoped
    ([Global] models), or made with rewritten arguments. *)
(* src/src/utils/prisma-tenant-proxy.js:627-683 createScopedPrisma *)
Definition scopedCall (modelKey method : string) (args : json) : result tenancy_error (string * json) :=
  if bool_decide (organizationId = "") then Err NoOrganization
  else if mem modelKey GLOBAL_MODELS then Ok (method, args)
  else if mem modelKey RESTRICTED_MODELS then Err RestrictedModel
  else if negb (direct modelKey) && bool_decide (tenantPath modelKey = None) then Err NotClassified
  else if negb (mem method READ_METHODS) && negb (mem method WRITE_METHODS) then Err NotPermitted
  else if mem modelKey TRIGGER_OWNED_MODELS && mem method WRITE_METHODS then Err DatabaseOwned
  else if mem modelKey APPEND_ONLY_MODELS && mem method APPEND_ONLY_BLOCKED_METHODS then Err AppendOnly
  else if bool_decide (bookkeeping modelKey ≠ None) && mem method BOOKKEEPING_BLOCKED_METHODS then Err NotRemovable
  else
    let changed := match bookkeeping modelKey with
                   | Some fields => if mem method BOOKKEEPING_UPDATE_METHODS then immutable_changes fields args else []
                   | None => []
                   end in
    if bool_decide (changed ≠ []) then Err (Immutable changed)
    else ((if direct modelKey then directCall modelKey method args
           else pathCall modelKey method (default [] (tenantPath modelKey)) args) []).1.

(** ** What the references of write data are

    The records a row of write data links to, as Prisma would follow them. *)

Inductive nested_row (toOne : bool) : string → json → bool → json → Prop :=
  | nested_create operand row : row ∈ asList (Some operand) → nested_row toOne "create" operand true row
  | nested_createMany operand row :
      row ∈ asList (jget "data" operand) → nested_row toOne "createMany" operand true row
  | nested_update op operand entry :
      op ∈ ["update"; "updateMany"] → entry ∈ asList (Some operand) → wraps_data toOne entry = false →
      nested_row toOne op operand false entry
  | nested_update_data op operand entry row :
      op ∈ ["update"; "updateMany"] → entry ∈ asList (Some operand) → wraps_data toOne entry = true →
      jget "data" entry = Some row → nested_row toOne op operand false row
  | nested_upsert_create operand entry row :
      entry ∈ asList (Some operand) → jget "create" entry = Some row → nested_row toOne "upsert" operand true row
  | nested_upsert_update operand entry row :
      entry ∈ asList (Some operand) → jget "update" entry = Some row → nested_row toOne "upsert" operand false row.

(** A reference: model, [where], and whether trashed rows count. *)
Definition reference : Type := string * json * bool.

Definition scalar_reference (m key : string) : option string := assoc m SCALAR_REFERENCES ≫= assoc key.

Inductive links (existing : option json) : string → json → reference → Prop :=
  | link_scalar m fields key value referenced id :
      (key, value) ∈ fields → scalar_reference m key = Some referenced → scalarKeyValue value = Some id →
      jget_opt key existing ≠ Some (JStr id) →
      links existing m (JObj fields) (referenced, JObj [("id", JStr id)], true)
  | link_key m fields key value meta relationName relation id :
      (key, value) ∈ fields → scalar_reference m key = None → relationsFor metadata m = Some meta →
      assoc key (foreignKeys meta) = Some relationName → assoc relationName (relations meta) = Some relation →
      scalarKeyValue value = Some id →
      links existing m (JObj fields) (target relation, JObj [("id", JStr id)], false)
  | link_connect m fields key operations meta relation op operand w :
      (key, JObj operations) ∈ fields → scalar_reference m key = None → relationsFor metadata m = Some meta →
      assoc key (foreignKeys meta) = None → assoc key (relations meta) = Some relation →
      (op, operand) ∈ operations → op ∈ ["connect"; "set"] → w ∈ asList (Some operand) →
      links existing m (JObj fields) (target relation, w, false)
  | link_nested m fields key operations meta relation op operand creating row ref :
      (key, JObj operations) ∈ fields → scalar_reference m key = None → relationsFor metadata m = Some meta →
      assoc key (foreignKeys meta) = None → assoc key (relations meta) = Some relation →
      (op, operand) ∈ operations → nested_row (bool_decide (fk relation ≠ None)) op operand creating row →
      links None (target relation) row ref →
      links existing m (JObj fields) ref.

(** A proof that the selected record is this organization's: it is the
    organization itself, or [findFirst] found it under the ownership filter. *)
Definition proved (m : string) (w : json) (deleted : bool) : Prop :=
  (m = "organization" ∧ w = JObj [("id", JStr organizationId)]) ∨
  (mem m GLOBAL_MODELS = false ∧ (direct m = true ∨ tenantPath m ≠ None) ∧
   findFirst deleted m (ownedWhere m w) ≠ None).

(** The reference is proved, or is one of the records [batch] creates. *)
Definition owned_reference (batch : list cache_key) (ref : reference) : Prop :=
  let '(m, w, deleted) := ref in
  ∃ w', ownedSelector m (Some w) = Ok (Some w') ∧ (proved m w' deleted ∨ (m, deleted, w') ∈ batch).

Definition good (batch verified : list cache_key) : Prop :=
  ∀ m deleted w, (m, deleted, w) ∈ verified → proved m w deleted ∨ (m, deleted, w) ∈ batch.

Lemma ownedSelector_some m w w' : ownedSelector m (Some w) = Ok w' → ∃ v, w' = Some v.
Proof.
  unfold ownedSelector. intros (w1 & H1 & H)%bind_ok.
  assert (∃ v, w1 = Some v) as [v ->].
  { repeat case_hyp H1; eauto. }
  repeat case_hyp H; eauto.
Qed.

Lemma verifyOwned_ok batch m w deleted :
  ok_run (good batch) (verifyOwned m (Some w) deleted) (λ _, owned_reference batch (m, w, deleted)).
Proof.
  intros s [] s' Hg. unfold verifyOwned, owned_reference.
  destruct w as [| | | | |[|kv fields]]; try done.
  destruct (ownedSelector m _) as [w1|e] eqn:Es; [|done].
  destruct (ownedSelector_some _ _ _ Es) as [w' ->]. simpl.
  destruct (bool_decide ((m, deleted, w') ∈ s)) eqn:Ev; bool_simplify.
  { intros [= <-]. split; [done|]. eauto. }
  clear Ev. intros H.
  assert (proved m w' deleted ∧ s' = (m, deleted, w') :: s) as [Hp ->].
  { unfold proved. repeat case_hyp H; bool_simplify; split; auto.
    - right. split_and!; [by destruct (mem m GLOBAL_MODELS)| |congruence].
      destruct (direct m); [by left|right]. simpl in *. by apply bool_decide_eq_false in Heqb1. }
  split; [|eauto]. intros m1 d1 w1 [[= -> -> ->]|Hin]%elem_of_cons; [by left|by apply Hg].
Qed.

(** ** Validated data links only to this organization *)

Definition kind (j : json) : nat :=
  match j with JNull => 0 | JBool _ => 1 | JNum _ => 2 | JStr _ => 3 | JArr _ => 4 | JObj _ => 5 end.

Definition same_shape (x y : json) : Prop := ∀ k, kind <$> jget k x = kind <$> jget k y.

Lemma wraps_shape toOne x y : same_shape x y → wraps_data toOne x = wraps_data toOne y.
Proof.
  intros Hs. unfold wraps_data. f_equal.
  - specialize (Hs "data"). destruct (jget "data" x) as [[]|], (jget "data" y) as [[]|]; simplify_eq/=; done.
  - f_equal. apply bool_decide_ext. specialize (Hs "where").
    destruct (jget "where" x), (jget "where" y); simplify_eq/=; split; congruence.
Qed.

(** What validating a row establishes of the row it returns. *)
Definition row_valid (batch : list cache_key) (existing : option json) (m : string) (creating : bool)
    (x y : json) : Prop :=
  (∀ ref, links existing m y ref → owned_reference batch ref) ∧
  kind y = kind x ∧ (creating = false → same_shape x y).

Lemma links_property existing m fields ref :
  links existing m (JObj fields) ref → ∃ kv, kv ∈ fields ∧ links existing m (JObj [kv]) ref.
Proof.
  assert (∀ kv : string * json, kv ∈ [kv]) as Hin by (intros; left).
  inversion 1; subst; eexists; (split; [eassumption|]).
  - by eapply link_scalar.
  - by eapply link_key.
  - by eapply link_connect.
  - by eapply link_nested.
Qed.

Lemma map_rows_ok I (f : json → Check json) operand (Q : json → Prop) :
  (∀ x, ok_run I (f x) (λ y, Q y ∧ kind y = kind x)) →
  ok_run I (map_rows f operand) (λ out, kind out = kind operand ∧ ∀ y, y ∈ asList (Some out) → Q y).
Proof.
  intros Hf.
  assert (∀ x, kind x ≠ 0%nat → kind x ≠ 4%nat →
    ok_run I (f x) (λ out, kind out = kind x ∧ ∀ y, y ∈ asList (Some out) → Q y)) as Hone.
  { intros x H0 H4. eapply ok_run_impl; [apply Hf|]. intros y [HQ Hk]. split; [done|].
    destruct y; simplify_eq/=; try congruence; by intros z ->%list_elem_of_singleton. }
  destruct operand; simpl; try (apply Hone; done).
  - apply ok_run_ret. split; [done|]. intros y Hy. by apply not_elem_of_nil in Hy.
  - eapply ok_run_bind; [apply (ok_run_mapM I f (λ _ y, Q y)); intros x _; eapply ok_run_impl; [apply Hf|]; by intros y []|].
    intros l' Hl. apply ok_run_ret. split; [done|]. intros y Hy. simpl in Hy.
    apply list_elem_of_lookup in Hy as [i Hi]. by destruct (Forall2_lookup_r _ _ _ _ _ Hl Hi) as (? & _ & ?).
Qed.

Lemma assoc_fset k v (fields : list (string * json)) k' :
  assoc k' (fset k v fields) = if bool_decide (k = k') then Some v else assoc k' fields.
Proof.
  unfold assoc. induction fields as [|[k1 v1] fields IH]; simpl.
  - by destruct (bool_decide (k = k')).
  - destruct (bool_decide (k1 = k)) eqn:E1; simpl; bool_simplify.
    + by destruct (bool_decide (k = k')).
    + destruct (bool_decide (k1 = k')) eqn:E2; [|exact IH]. simpl. bool_simplify.
      by rewrite bool_decide_eq_false_2.
Qed.

Lemma map_prop_ok I k (f : json → Check json) j (Q : json → json → Prop) :
  (∀ x, ok_run I (f x) (Q x)) →
  ok_run I (map_prop k f j) (λ out, kind out = kind j ∧
    (∀ k', k' ≠ k → jget k' out = jget k' j) ∧
    match jget k j with
    | Some v => ∃ v', jget k out = Some v' ∧ Q v v'
    | None => jget k out = None
    end).
Proof.
  intros Hf. destruct j as [| | | | |fields]; try (by apply ok_run_ret). simpl.
  destruct (assoc k fields) as [v|] eqn:Ek; [|by apply ok_run_ret].
  eapply ok_run_bind; [apply Hf|]. intros v' HQ. apply ok_run_ret. split_and!; [done| |].
  - intros k' Hne. simpl. by rewrite assoc_fset, bool_decide_eq_false_2.
  - exists v'. split; [|done]. simpl. by rewrite assoc_fset, bool_decide_eq_true_2.
Qed.

Section validated.
Context (batch : list cache_key) (row : string → bool → json → Check json).
Hypothesis row_spec : ∀ m creating x, ok_run (good batch) (row m creating x) (row_valid batch None m creating x).

Definition operation_valid (target_ : string) (toOne : bool) (op : string) (operand : json) : Prop :=
  (∀ w, op ∈ ["connect"; "set"] → w ∈ asList (Some operand) → owned_reference batch (target_, w, false)) ∧
  (∀ creating r ref, nested_row toOne op operand creating r → links None target_ r ref → owned_reference batch ref).

(** An operation whose name is none of the validated ones names no row. *)
Lemma nested_row_op toOne op operand creating r :
  nested_row toOne op operand creating r →
  op ∈ ["create"; "createMany"; "update"; "updateMany"; "upsert"].
Proof.
  assert (∀ o, o ∈ ["update"; "updateMany"] → o ∈ ["create"; "createMany"; "update"; "updateMany"; "upsert"]) as Hu.
  { intros o Ho. right. right. rewrite elem_of_cons in Ho |- *. destruct Ho as [->|Ho]; [by left|right].
    apply list_elem_of_singleton in Ho as ->. left. }
  intros []; auto; [left|right; left|do 4 right; left|do 4 right; left].
Qed.

(** The operations that validate no row have other names. *)
Lemma nested_op_disjoint op :
  op ∈ ["create"; "createMany"; "update"; "updateMany"; "upsert"] →
  ¬ op ∈ ["connect"; "set"] ∧ ¬ op ∈ ["disconnect"; "delete"; "deleteMany"].
Proof.
  intros H. repeat (apply elem_of_cons in H as [->|H]; [split; intros ?; mem_absurd|]). by apply not_elem_of_nil in H.
Qed.

Lemma validate_operation_ok target_ toOne op operand :
  ok_run (good batch) (validate_operation (row target_) target_ toOne op operand)
    (λ out, operation_valid target_ toOne op out).
Proof.
  unfold validate_operation. destruct (mem op _) eqn:Eref; [apply ok_run_throw|].
  unfold nested_op_of, mem. destruct (bool_decide (op ∈ ["connect"; "set"])) eqn:E1; bool_simplify.
  { eapply ok_run_bind.
    { apply (ok_run_mapM _ _ (λ w _, owned_reference batch (target_, w, false))). intros w _. apply verifyOwned_ok. }
    intros us Hus. apply ok_run_ret. split.
    - intros w _ Hw. apply list_elem_of_lookup in Hw as [i Hi].
      by destruct (Forall2_lookup_l _ _ _ _ _ Hus Hi) as (? & _ & ?).
    - intros c r ref Hn%nested_row_op _. by destruct (nested_op_disjoint _ Hn). }
  assert (∀ creating x, ok_run (good batch) (row target_ creating x)
    (λ y, (∀ ref, links None target_ y ref → owned_reference batch ref) ∧ kind y = kind x)) as Hrow.
  { intros creating x. eapply ok_run_impl; [apply row_spec|]. intros y (? & ? & _). done. }
  destruct (bool_decide (op = "create")) eqn:E2; bool_simplify.
  { eapply ok_run_impl; [apply (map_rows_ok _ _ _ _ (Hrow true))|]. intros out [_ Hout].
    split; [by intros w Hop|]. intros c r ref Hn. inversion Hn; subst; try congruence; try mem_absurd. by apply Hout. }
  destruct (bool_decide (op = "createMany")) eqn:E3; bool_simplify.
  { eapply ok_run_impl; [apply (map_prop_ok _ _ _ _ (λ _ out, ∀ y, y ∈ asList (Some out) →
      ∀ ref, links None target_ y ref → owned_reference batch ref))|].
    { intros x. eapply ok_run_impl; [apply (map_rows_ok _ _ _ _ (Hrow true))|]. by intros out [_ H]. }
    intros out (_ & _ & Hd). split; [by intros w Hop|].
    intros c r ref Hn. inversion Hn as [|? ? Hr|? ? ? Hop|? ? ? ? Hop| |]; subst; try congruence; try mem_absurd.
    destruct (jget "data" operand) as [v|]; [destruct Hd as (v' & Hv & HQ); rewrite Hv in Hr; by apply HQ|].
    rewrite Hd in Hr. by apply not_elem_of_nil in Hr. }
  destruct (bool_decide (op ∈ ["update"; "updateMany"])) eqn:E4; bool_simplify.
  { eapply ok_run_impl.
    { apply (map_rows_ok _ _ _ (λ y, ∀ ref,
        (wraps_data toOne y = false → links None target_ y ref → owned_reference batch ref) ∧
        (wraps_data toOne y = true → ∀ r, jget "data" y = Some r → links None target_ r ref → owned_reference batch ref))).
      intros x. destruct (wraps_data toOne x) eqn:Ew.
      - eapply ok_run_impl; [apply (map_prop_ok _ _ _ _ (λ z y, kind y = kind z ∧
            ∀ ref, links None target_ y ref → owned_reference batch ref))|].
        { intros z. eapply ok_run_impl; [apply row_spec|]. by intros y (? & ? & _). }
        intros y (Hk & Hoth & Hd). split; [|done]. intros ref. split.
        + rewrite <-(wraps_shape toOne x y), Ew; [done|]. intros k.
          destruct (decide (k = "data")) as [->|Hne]; [|by rewrite Hoth].
          destruct (jget "data" x); [|by rewrite Hd]. destruct Hd as (v' & -> & Hkv & _). simpl. by rewrite Hkv.
        + intros _ r Hr. destruct (jget "data" x); [destruct Hd as (v' & Hv & _ & HQ)|congruence].
          assert (v' = r) as -> by congruence. apply HQ.
      - eapply ok_run_impl; [apply row_spec|]. intros y (Hl & Hk & Hsh). split; [|done].
        intros ref. split; [intros _; apply Hl|]. intros Hwy. exfalso.
        rewrite (wraps_shape toOne x y (Hsh eq_refl)) in Ew. congruence. }
    intros out [_ Hout]. split; [by intros w Hop|].
    intros c r ref Hn.
    inversion Hn as [| |? ? e Hop Hin Hw|? ? e r' Hop Hin Hw Hd| |]; subst; try congruence; try mem_absurd.
    - exact (proj1 (Hout _ Hin ref) Hw).
    - exact (proj2 (Hout _ Hin ref) Hw r Hd). }
  destruct (bool_decide (op = "upsert")) eqn:E5; bool_simplify.
  { eapply ok_run_impl.
    { apply (map_rows_ok _ _ _ (λ y, ∀ ref r, (jget "create" y = Some r ∨ jget "update" y = Some r) →
        links None target_ r ref → owned_reference batch ref)).
      intros x. eapply ok_run_bind.
      { apply (map_prop_ok _ _ _ _ (λ _ y, ∀ ref, links None target_ y ref → owned_reference batch ref)).
        intros z. eapply ok_run_impl; [apply row_spec|]. by intros y (? & _). }
      intros x1 (Hk1 & Hoth1 & Hd1). eapply ok_run_impl.
      { apply (map_prop_ok _ _ _ _ (λ _ y, ∀ ref, links None target_ y ref → owned_reference batch ref)).
        intros z. eapply ok_run_impl; [apply row_spec|]. by intros y (? & _). }
      intros y (Hk2 & Hoth2 & Hd2). split; [|congruence]. intros ref r [Hr|Hr].
      - rewrite Hoth2 in Hr by done. destruct (jget "create" x); [|congruence].
        destruct Hd1 as (v' & Hv & HQ). assert (v' = r) as -> by congruence. apply HQ.
      - destruct (jget "update" x1); [|congruence].
        destruct Hd2 as (v' & Hv & HQ). assert (v' = r) as -> by congruence. apply HQ. }
    intros out [_ Hout]. split; [by intros w Hop|].
    intros c r ref Hn. inversion Hn; subst; try congruence; try mem_absurd; eapply Hout; eauto. }
  destruct (bool_decide (op ∈ ["disconnect"; "delete"; "deleteMany"])) eqn:E6; [|apply ok_run_throw].
  bool_simplify. apply ok_run_ret. split; [by intros w Hop|].
  intros c r ref Hn%nested_row_op _. by destruct (nested_op_disjoint _ Hn).
Qed.

(** Membership in a one-property object. *)
Lemma one_property {A} (x y : A) : x ∈ [y] → x = y.
Proof. apply list_elem_of_singleton. Qed.

Lemma links_operations existing m key meta relation operations ref :
  scalar_reference m key = None → relationsFor metadata m = Some meta →
  assoc key (foreignKeys meta) = None → assoc key (relations meta) = Some relation →
  (∀ op operand, (op, operand) ∈ operations →
     operation_valid (target relation) (bool_decide (fk relation ≠ None)) op operand) →
  links existing m (JObj [(key, JObj operations)]) ref → owned_reference batch ref.
Proof.
  intros Hs Hm Hf Hr Hops H.
  inversion H as [? ? k v ? ? Hin|? ? k v ? ? ? ? Hin
                 |? ? k ops meta' rel' op operand w Hin ? Hm' ? Hr' Hop Hc Hw
                 |? ? k ops meta' rel' op operand c r ? Hin ? Hm' ? Hr' Hop Hn Hl]; subst;
    apply one_property in Hin; simplify_eq; try congruence.
  - exact (proj1 (Hops _ _ Hop) _ Hc Hw).
  - exact (proj2 (Hops _ _ Hop) _ _ _ Hn Hl).
Qed.

Lemma links_plain existing m key value ref :
  (∀ ops, value ≠ JObj ops) → scalarKeyValue value = None ∨
    (scalar_reference m key = None ∧ ∀ meta, relationsFor metadata m = Some meta → assoc key (foreignKeys meta) = None) →
  links existing m (JObj [(key, value)]) ref → False.
Proof.
  intros Hno Hk H.
  inversion H as [? ? k v ? ? Hin ? Hv|? ? k v ? ? ? ? Hin ? ? ? ? Hv|? ? k v ? ? ? ? ? Hin|? ? k v ? ? ? ? ? ? ? Hin]; subst;
    apply one_property in Hin; simplify_eq; try (by eapply Hno).
  - destruct Hk as [?|[? _]]; congruence.
  - destruct Hk as [?|[? Hm]]; [congruence|]. specialize (Hm _ ltac:(eassumption)). congruence.
Qed.

Lemma validate_property_ok meta m existing key value :
  relationsFor metadata m = Some meta →
  ok_run (good batch) (validate_property row meta m existing key value)
    (λ out, kind out = kind value ∧ ∀ ref, links existing m (JObj [(key, out)]) ref → owned_reference batch ref).
Proof.
  intros Hm. unfold validate_property. fold (scalar_reference m key).
  destruct (scalar_reference m key) as [referenced|] eqn:Es.
  { eapply (ok_run_bind _ _ _ (λ _, ∀ id, scalarKeyValue value = Some id →
      jget_opt key existing ≠ Some (JStr id) → owned_reference batch (referenced, JObj [("id", JStr id)], true))).
    - destruct (scalarKeyValue value) as [id|]; [|by apply ok_run_ret].
      destruct (bool_decide _) eqn:E; bool_simplify; [apply ok_run_ret; intros id' Hid; by simplify_eq|].
      eapply ok_run_impl; [apply verifyOwned_ok|]. intros ? Ho id' Hid _. simplify_eq. exact Ho.
    - intros ? Ho. apply ok_run_ret. split; [done|]. intros ref H.
      inversion H as [? ? k v ? ? Hin ? Hv Hex|? ? k v ? ? ? ? Hin|? ? k v ? ? ? ? ? Hin|? ? k v ? ? ? ? ? ? ? Hin]; subst;
        apply one_property in Hin; simplify_eq; try congruence.
      unfold scalar_reference in *. simplify_eq. by apply Ho. }
  destruct (assoc key (foreignKeys meta)) as [relationName|] eqn:Ef.
  { eapply (ok_run_bind _ _ _ (λ _, ∀ id relation, scalarKeyValue value = Some id →
      assoc relationName (relations meta) = Some relation →
      owned_reference batch (target relation, JObj [("id", JStr id)], false))).
    - destruct (scalarKeyValue value) as [id|]; [|by apply ok_run_ret].
      destruct (assoc relationName (relations meta)) as [relation|] eqn:Er; [|apply ok_run_throw].
      eapply ok_run_impl; [apply verifyOwned_ok|]. intros ? Ho id' rel' Hid Hrel. simplify_eq. exact Ho.
    - intros ? Ho. apply ok_run_ret. split; [done|]. intros ref H.
      inversion H as [? ? k v ? ? Hin|? ? k v meta' ? ? ? Hin ? Hm' Hf' Hr' Hv|? ? k v ? ? ? ? ? Hin|? ? k v ? ? ? ? ? ? ? Hin]; subst;
        apply one_property in Hin; simplify_eq; try congruence.
      by apply Ho. }
  assert (∀ ref, (∀ ops, value ≠ JObj ops) → links existing m (JObj [(key, value)]) ref → False) as Hplain.
  { intros ref Hno. apply links_plain; [done|]. right. split; [done|]. intros meta' ?. congruence. }
  destruct (assoc key (relations meta)) as [relation|] eqn:Er.
  - destruct value as [| | | | |operations]; try apply ok_run_throw.
    + apply ok_run_ret. split; [done|]. intros ref H. exfalso. by eapply Hplain.
    + eapply ok_run_bind.
      { apply (ok_run_mapM _ _ (λ _ (kv : string * json),
          operation_valid (target relation) (bool_decide (fk relation ≠ None)) kv.1 kv.2)). intros [op operand] _. simpl.
        eapply ok_run_bind; [apply validate_operation_ok|]. intros v Hv. by apply ok_run_ret. }
      intros ops' Hops. apply ok_run_ret. split; [done|]. intros ref H.
      eapply links_operations; [done..| |exact H]. intros op operand Hin.
      apply list_elem_of_lookup in Hin as [i Hi]. by destruct (Forall2_lookup_r _ _ _ _ _ Hops Hi) as (? & _ & ?).
  - assert (∀ v, value = v → ok_run (good batch) (mret v : Check json) (λ out, kind out = kind value ∧
      ∀ ref, links existing m (JObj [(key, out)]) ref → owned_reference batch ref)) as Hret; [|by destruct value; apply Hret].
    intros v <-. apply ok_run_ret. split; [done|]. intros ref H. exfalso.
    inversion H as [? ? k v ? ? Hin|? ? k v meta' ? ? ? Hin ? Hm' Hf'|? ? k v meta' ? ? ? ? Hin ? Hm' ? Hr'|? ? k v meta' ? ? ? ? ? ? Hin ? Hm' ? Hr']; subst;
      apply one_property in Hin; simplify_eq; congruence.
Qed.
End validated.

Lemma Forall2_kinds (P : string * json → string * json → Prop) (l k : list (string * json)) :
  Forall2 P l k → (∀ x y, P x y → y.1 = x.1 ∧ kind y.2 = kind x.2) →
  ∀ key, kind <$> assoc key l = kind <$> assoc key k.
Proof.
  intros HF HP key. unfold assoc. induction HF as [|[a x] [b y] l k Hxy HF IH]; [done|]. simpl.
  destruct (HP _ _ Hxy) as [Hk Hv]. simpl in Hk, Hv. subst b.
  destruct (bool_decide (a = key)); simpl; [by rewrite Hv|exact IH].
Qed.

(** Every reference of a validated row is owned, at any depth. *)
Lemma validate_row_ok batch fuel m creating nested existing x :
  ok_run (good batch) (validate_row fuel m creating nested existing x) (row_valid batch existing m creating x).
Proof.
  revert m creating nested existing x. induction fuel as [|fuel IH]; intros m creating nested existing x;
    [apply ok_run_throw|]. cbn [validate_row].
  assert (∀ v, x = v → (∀ fields, x ≠ JObj fields) →
    ok_run (good batch) (mret v : Check json) (row_valid batch existing m creating x)) as Hret.
  { intros v <- Hno. apply ok_run_ret. split; [|done]. intros ref H.
    by inversion H; subst; destruct (Hno fields). }
  destruct x as [| | | | |fields]; try (by apply Hret).
  destruct (relationsFor metadata m) as [meta|] eqn:Em; [|apply ok_run_throw].
  set (fields1 := if nested && creating && direct m && _ then _ else fields).
  eapply ok_run_bind.
  { apply (ok_run_mapM _ _ (λ (kv kv' : string * json), kv'.1 = kv.1 ∧ kind kv'.2 = kind kv.2 ∧
      ∀ ref, links existing m (JObj [kv']) ref → owned_reference batch ref)).
    intros [key value] _. simpl. eapply ok_run_bind.
    { apply (validate_property_ok batch (λ t c, validate_row fuel t c true None)); [|exact Em].
      intros m' c' y. apply IH. }
    intros v [Hk Hv]. by apply ok_run_ret. }
  intros fields' HF. apply ok_run_ret. split; [|split; [done|]].
  - intros ref (kv & Hin & H)%links_property.
    apply list_elem_of_lookup in Hin as [i Hi].
    destruct (Forall2_lookup_r _ _ _ _ _ HF Hi) as (? & _ & _ & _ & Ho). by apply Ho.
  - intros -> key. assert (fields1 = fields) as E by (unfold fields1; by rewrite andb_false_r).
    rewrite E in HF. eapply Forall2_kinds; [exact HF|]. by intros kv kv' (? & ? & _).
Qed.

(** Write validation admits only links inside the tenant.  When
    [validateWriteData] accepts a row, every record the row it hands to Prisma
    refers to - by a foreign-key column, an unrelated reference column, a
    connect or a set, at any depth of nested creates, updates and upserts - was
    proved to belong to the request's organization (or is a row the same batch
    creates). *)
Lemma validateWriteData_links_owned batch m creating existing data verified data' verified' :
  good batch verified →
  validateWriteData m creating existing data verified = (Ok data', verified') →
  ∀ ref, links existing m data' ref → owned_reference batch ref.
Proof.
  intros Hg H. unfold validateWriteData in H.
  by destruct (validate_row_ok batch _ _ _ _ _ _ verified data' verified' Hg H) as [_ [Hl _]].
Qed.

(** ** Validation terminates with an answer *)

Lemma size_elem x l : x ∈ l → (json_size x ≤ list_sum (List.map json_size l))%nat.
Proof.
  induction l as [|y l IH]; [by intros ?%not_elem_of_nil|]. intros [->|H]%elem_of_cons; simpl; [lia|].
  specialize (IH H). lia.
Qed.
Lemma size_assoc k v (fields : list (string * json)) :
  assoc k fields = Some v → (json_size v ≤ list_sum (List.map (λ kv, json_size kv.2) fields))%nat.
Proof.
  unfold assoc. induction fields as [|[k' v'] fields IH]; simpl; [done|].
  destruct (bool_decide (k' = k)); simpl; intros; simplify_eq/=; [lia|]. specialize (IH ltac:(done)). lia.
Qed.
Lemma size_jget k v j : jget k j = Some v → (json_size v < json_size j)%nat.
Proof. destruct j; simpl; try done. intros H%size_assoc. lia. Qed.

Definition out_of_fuel (e : tenancy_error) : Prop := e = OutOfFuel.

Lemma verifyOwned_fuel m w deleted : never out_of_fuel (verifyOwned m w deleted).
Proof.
  intros s e s'. unfold verifyOwned, ownedSelector, out_of_fuel, mbind, result_bind.
  intros H ->. repeat (case_match; simplify_eq).
Qed.

Lemma map_rows_fuel (f : json → Check json) operand :
  (∀ x, (json_size x ≤ json_size operand)%nat → never out_of_fuel (f x)) → never out_of_fuel (map_rows f operand).
Proof.
  intros Hf. destruct operand; simpl; try (by apply Hf); [apply never_ret|].
  apply never_bind; [|intros; apply never_ret]. apply never_mapM. intros x Hx%size_elem. apply Hf. simpl. lia.
Qed.
Lemma map_prop_fuel k (f : json → Check json) j :
  (∀ x, (json_size x < json_size j)%nat → never out_of_fuel (f x)) → never out_of_fuel (map_prop k f j).
Proof.
  intros Hf. destruct j as [| | | | |fields]; try apply never_ret. simpl.
  destruct (assoc k fields) as [v|] eqn:E; [|apply never_ret].
  apply never_bind; [|intros; apply never_ret]. apply Hf. apply size_assoc in E. simpl. lia.
Qed.

Lemma never_throw {A} (e : tenancy_error) : ¬ out_of_fuel e → never (A := A) out_of_fuel (throw e : Check A).
Proof. by intros He s e' s' [= <- <-]. Qed.

(** The size of the result of a rewritten property never matters: only the
    input's properties are visited. *)
Lemma validate_operation_fuel n (row : bool → json → Check json) t toOne op operand :
  (∀ c x, (json_size x ≤ n)%nat → never out_of_fuel (row c x)) → (json_size operand ≤ n)%nat →
  never out_of_fuel (validate_operation row t toOne op operand) ∨ op = "upsert".
Proof.
  intros Hrow Hn. destruct (decide (op = "upsert")) as [|Hne]; [by right|left].
  unfold validate_operation. destruct (mem op _); [by apply never_throw|].
  destruct (nested_op_of op) eqn:Eo.
  - apply never_bind; [|intros; apply never_ret]. apply never_mapM. intros w _. apply verifyOwned_fuel.
  - apply map_rows_fuel. intros x Hx. apply Hrow. lia.
  - apply map_prop_fuel. intros x Hx. apply map_rows_fuel. intros y Hy. apply Hrow. lia.
  - apply map_rows_fuel. intros x Hx. destruct (wraps_data toOne x); [|apply Hrow; lia].
    apply map_prop_fuel. intros y Hy. apply Hrow. lia.
  - unfold nested_op_of in Eo. repeat (case_match; simplify_eq). by bool_simplify.
  - apply never_ret.
  - by apply never_throw.
Qed.

(** The update half of an upsert entry, after its create half was rewritten,
    is the one the entry came with. *)
Lemma upsert_fuel n (row : bool → json → Check json) operand :
  (∀ c x, (json_size x ≤ n)%nat → never out_of_fuel (row c x)) → (json_size operand ≤ n)%nat →
  never out_of_fuel (map_rows (λ entry, entry ← map_prop "create" (row true) entry;
                                        map_prop "update" (row false) entry) operand).
Proof.
  intros Hrow Hn. apply map_rows_fuel. intros x Hx.
  assert (∀ v, jget "update" x = Some v → (json_size v ≤ n)%nat) as Hu.
  { intros v Hv%size_jget. lia. }
  intros s e s'. unfold mbind, eff_bind.
  destruct (map_prop "create" (row true) x s) as [[x1|e1] s1] eqn:E1.
  - assert (∀ y, ok_run (λ _, True) (row true y) (λ _, True)) as Ht by (by intros y s2 a s3 _ _).
    destruct (map_prop_ok (λ _, True) "create" (row true) x (λ _ _, True) Ht s x1 s1 I E1)
      as (_ & _ & Hoth & _).
    specialize (Hoth "update" ltac:(done)). intros H2.
    destruct x1 as [| | | | |fields]; try discriminate H2.
    simpl in H2, Hoth. destruct (assoc "update" fields) as [v|]; [|discriminate H2].
    assert (never out_of_fuel (v' ← row false v; mret (JObj (fset "update" v' fields)) : Check json)) as Hnv.
    { apply never_bind; [|intros; apply never_ret]. by apply Hrow, Hu. }
    by eapply Hnv.
  - intros [= <- _]. eapply (map_prop_fuel "create" (row true) x); [|exact E1].
    intros y Hy. apply Hrow. lia.
Qed.

Lemma validate_row_fuel fuel m creating nested existing x :
  (json_size x < fuel)%nat → never out_of_fuel (validate_row fuel m creating nested existing x).
Proof.
  revert m creating nested existing x.
  induction fuel as [|fuel IH]; intros m creating nested existing x Hx; [lia|]. cbn [validate_row].
  destruct x as [| | | | |fields]; try apply never_ret.
  destruct (relationsFor metadata m) as [meta|]; [|by apply never_throw].
  apply never_bind; [|intros; apply never_ret]. apply never_mapM. intros [key value] Hin. simpl.
  apply never_bind; [|intros; apply never_ret].
  assert (json_size value < fuel ∨ ∃ s, value = JStr s)%nat as Hv.
  { assert (∀ l : list (string * json), (key, value) ∈ l → (json_size value ≤ list_sum (List.map (λ kv, json_size kv.2) l))%nat) as Hel.
    { induction l as [|kv l IHl]; [by intros ?%not_elem_of_nil|]. intros [<-|H]%elem_of_cons; simpl; [lia|].
      specialize (IHl H). lia. }
    destruct (_ && _ && _ && _) in Hin.
    - assert (∀ l : list (string * json), (key, value) ∈ fset "organizationId" (JStr organizationId) l →
        (key, value) ∈ l ∨ value = JStr organizationId) as Hfs.
      { induction l as [|[k v] l IHl]; simpl; [intros [= -> ->]%list_elem_of_singleton; by right|].
        destruct (bool_decide _); intros [[= -> ->]|H]%elem_of_cons; [by right|left; by right|left; by left|].
        destruct (IHl H); [left; by right|by right]. }
      destruct (Hfs _ Hin) as [H| ->]; [left|right; eauto]. specialize (Hel _ H). simpl in Hx. lia.
    - left. specialize (Hel _ Hin). simpl in Hx. lia. }
  unfold validate_property.
  destruct (assoc m SCALAR_REFERENCES ≫= assoc key).
  { apply never_bind; [|intros; apply never_ret]. destruct (scalarKeyValue value); [|apply never_ret].
    destruct (bool_decide (jget_opt key existing = _)); [apply never_ret|apply verifyOwned_fuel]. }
  destruct (assoc key (foreignKeys meta)).
  { apply never_bind; [|intros; apply never_ret]. destruct (scalarKeyValue value); [|apply never_ret].
    destruct (assoc _ (relations meta)); [apply verifyOwned_fuel|by apply never_throw]. }
  destruct (assoc key (relations meta)) as [relation|]; [|destruct value; apply never_ret].
  destruct value as [| | | | |operations]; try (by apply never_throw); [apply never_ret|].
  destruct Hv as [Hv|[? Hv]]; [|done].
  apply never_bind; [|intros; apply never_ret]. apply never_mapM. intros [op operand] Hop. simpl.
  assert (json_size operand < fuel)%nat as Hoz.
  { enough (json_size operand ≤ list_sum (List.map (λ kv, json_size kv.2) operations))%nat by (simpl in Hv; lia).
    clear -Hop. induction operations as [|kv l IHl]; [by apply not_elem_of_nil in Hop|].
    apply elem_of_cons in Hop as [<-|H]; simpl; [lia|]. specialize (IHl H). lia. }
  apply never_bind; [|intros; apply never_ret].
  assert (∀ c y, (json_size y ≤ json_size operand)%nat →
    never out_of_fuel (validate_row fuel (target relation) c true None y)) as Hrow by (intros c y Hy; apply IH; lia).
  destruct (validate_operation_fuel (json_size operand) _ (target relation) (bool_decide (fk relation ≠ None)) op operand
    Hrow ltac:(lia)) as [H| ->]; [exact H|].
  unfold validate_operation. destruct (mem "upsert" _); [by apply never_throw|].
  change (nested_op_of "upsert") with NUpsert. cbv iota.
  apply (upsert_fuel (json_size operand) (λ c, validate_row fuel (target relation) c true None)); [exact Hrow|lia].
Qed.

(** Validation of any write data, however deeply nested,
    ends with an answer of the code (data or a refusal): the fuel of the model,
    one more than the size of the data, never runs out. *)
Lemma validateWriteData_answers m creating existing data verified :
  (validateWriteData m creating existing data verified).1 ≠ Err OutOfFuel.
Proof.
  unfold validateWriteData. intros H.
  destruct (validate_row _ _ _ _ _ _ verified) as [r s'] eqn:E. simpl in H. subst.
  eapply (validate_row_fuel (S (json_size data)) m creating false existing data); [lia|exact E|done].
Qed.
End proxy.

End Tenancy.
