(* ===== verification/TenantGuard.v ===== *)
(** * The request guard and soft deletion

    src/src/middleware/tenancy.js decides which database client a request gets,
    src/src/config/http.js the path it decides on, and
    src/src/services/soft-delete.service.js is the wrapper under every client.
    Together with [Isolation]: a scoped read reaches the database restricted to
    the organization and to rows that are not deleted. *)

From S2P Require Import Prelude Json TenantTables Tenancy TenancyIsolation.
Import Json Tables Tenancy Isolation.

Module Guard.

(** ** Strings *)

Definition startsWith (s prefix_ : string) : bool := String.prefix prefix_ s.

(** The text from the first character satisfying [p], and the text before it. *)
Fixpoint split_at (p : Ascii.ascii → bool) (s : string) : string * option string :=
  match s with
  | EmptyString => (EmptyString, None)
  | String c s' => if p c then (EmptyString, Some s)
                   else let '(a, b) := split_at p s' in (String c a, b)
  end.
Definition is_char (n : nat) (c : Ascii.ascii) : bool := (Ascii.nat_of_ascii c =? n)%nat.

Definition drop_prefix (p s : string) : option string :=
  if String.prefix p s then Some (String.substring (String.length p) (String.length s - String.length p) s) else None.

(** ** The path a decision looks at *)

Definition hex_value (c : Ascii.ascii) : option nat :=
  let n := Ascii.nat_of_ascii c in
  if (48 <=? n)%nat && (n <=? 57)%nat then Some (n - 48)%nat
  else if (65 <=? n)%nat && (n <=? 70)%nat then Some (n - 55)%nat
  else if (97 <=? n)%nat && (n <=? 102)%nat then Some (n - 87)%nat
  else None.

(* src/src/config/http.js:24-24 UNRESERVED *)
Definition unreserved (c : Ascii.ascii) : bool :=
  let n := Ascii.nat_of_ascii c in
  ((48 <=? n)%nat && (n <=? 57)%nat) || ((65 <=? n)%nat && (n <=? 90)%nat) || ((97 <=? n)%nat && (n <=? 122)%nat) ||
  (n =? 45)%nat || (n =? 46)%nat || (n =? 95)%nat || (n =? 126)%nat.

Definition upper (c : Ascii.ascii) : Ascii.ascii :=
  let n := Ascii.nat_of_ascii c in
  if (97 <=? n)%nat && (n <=? 122)%nat then Ascii.ascii_of_nat (n - 32) else c.

(** The path with its escapes of unreserved characters decoded and the other
    escapes in upper case; nothing when an escape is malformed. *)
(* src/src/config/http.js:48-52 canonicalRequestUrl *)
Fixpoint decode_unreserved (s : string) : option string :=
  match s with
  | EmptyString => Some EmptyString
  | String c s' =>
      if is_char 37 c then
        match s' with
        | String a (String b rest) =>
            match hex_value a, hex_value b with
            | Some x, Some y =>
                let ch := Ascii.ascii_of_nat (16 * x + y) in
                r ← decode_unreserved rest;
                Some (if unreserved ch then String ch r
                      else String c (String (upper a) (String (upper b) r)))
            | _, _ => None
            end
        | _ => None
        end
      else String c <$> decode_unreserved s'
  end.

(** The target of an absolute-form request line is what follows its host. *)
(* src/src/config/http.js:27-27 ABSOLUTE_FORM *)
Definition origin_form (url : string) : string :=
  match (match drop_prefix "http://" url with Some r => Some r | None => drop_prefix "https://" url end) with
  | Some rest =>
      match split_at (λ c, is_char 47 c || is_char 10 c || is_char 13 c) rest with
      | (_, Some (String c path)) => if is_char 47 c then String c path else url
      | _ => url
      end
  | None => url
  end.

(* src/src/config/http.js:41-54 canonicalRequestUrl *)
Definition canonicalRequestUrl (url : string) : string :=
  let target := if startsWith url "/" then url else origin_form url in
  match split_at (is_char 37) target with
  | (_, None) => target
  | _ =>
      let '(path, rest) := split_at (is_char 63) target in
      match decode_unreserved path with
      | None => target
      | Some canonical => canonical +:+ default "" rest
      end
  end.

Record request := Request {
  route : option string;   (** [routeOptions.url] *)
  url : string;
  is404 : bool;
  user : option (option string * option string)   (** role and organization of the verified session *)
}.

(* src/src/config/http.js:63-73 requestPath *)
Definition requestPath (r : request) : string :=
  match route r with
  | Some p => if startsWith p "/" then p else
      let '(path, _) := split_at (λ c, is_char 63 c || is_char 35 c) (canonicalRequestUrl (url r)) in
      if startsWith path "/" then path else "/"
  | None =>
      let '(path, _) := split_at (λ c, is_char 63 c || is_char 35 c) (canonicalRequestUrl (url r)) in
      if startsWith path "/" then path else "/"
  end.

(** ** The tenant guard *)

Definition EXEMPT_PREFIXES : list string :=
  ["/api/auth"; "/api/webhooks"; "/api/portal"; "/api/bot"; "/api/client-portal";
   "/api/client-acquisition/config"; "/api/client-acquisition/intake"; "/api/proposals/client";
   "/api/contracts/sign"; "/api/estimates/view"; "/api/invoices/client"; "/api/invoices/stripe-webhook";
   "/api/mailgun"; "/api/slack/events"; "/api/slack/oauth/callback"; "/api/google-calendar/oauth/callback"].

(** [/^\/api\/(?:live|health(?:\/details)?)(?:\?|$)/] *)
Definition is_probe (url : string) : bool :=
  let ends s := match s with EmptyString => true | String c _ => is_char 63 c end in
  match drop_prefix "/api/live" url with
  | Some rest => ends rest
  | None => match drop_prefix "/api/health/details" url, drop_prefix "/api/health" url with
            | Some rest, _ => ends rest
            | None, Some rest => ends rest
            | None, None => false
            end
  end.

(* src/src/middleware/tenancy.js:28-69 isTenancyExemptUrl *)
Definition isTenancyExemptUrl (url : string) : bool :=
  existsb (startsWith url) EXEMPT_PREFIXES || is_probe url.

(** What a request leaves the guard with. *)
Inductive guard_outcome :=
  | RawClient
  | ScopedClient (organizationId : string)
  | ClientSessionForbidden
  | OrgContextRequired.

(* src/src/middleware/tenancy.js:96-159 tenancyMiddleware *)
Definition tenancyMiddleware (r : request) : guard_outcome :=
  let path := requestPath r in
  if negb (startsWith path "/api/") || is404 r then RawClient
  else if isTenancyExemptUrl path then RawClient
  else if bool_decide ((user r ≫= fst) = Some "CLIENT") then ClientSessionForbidden
  else match user r ≫= snd with
       | Some o => if bool_decide (o = "") then OrgContextRequired else ScopedClient o
       | None => OrgContextRequired
       end.

(** C40 (error): fail-closed tenancy.  A matched API route outside the listed
    prefixes and probes reaches its handler only with a client scoped to the
    organization of the caller's verified session, never for a CLIENT session,
    whatever the raw URL's spelling says; a session without an organization is
    refused. *)
Theorem tenancyMiddleware_fails_closed r p :
  route r = Some p → startsWith p "/api/" = true → is404 r = false → isTenancyExemptUrl p = false →
  tenancyMiddleware r = ClientSessionForbidden ∧ (user r ≫= fst) = Some "CLIENT" ∨
  tenancyMiddleware r = OrgContextRequired ∧ ((user r ≫= snd) = None ∨ (user r ≫= snd) = Some "") ∨
  ∃ o, tenancyMiddleware r = ScopedClient o ∧ o ≠ "" ∧ (user r ≫= snd) = Some o ∧ (user r ≫= fst) ≠ Some "CLIENT".
Proof.
  intros Hp Ha H4 He. unfold tenancyMiddleware, requestPath. rewrite Hp.
  assert (startsWith p "/" = true) as ->.
  { unfold startsWith in *. destruct p as [|c p]; [done|].
    change ((if Ascii.ascii_dec (Ascii.ascii_of_nat 47) c then String.prefix "api/" p else false) = true) in Ha.
    change ((if Ascii.ascii_dec (Ascii.ascii_of_nat 47) c then String.prefix "" p else false) = true).
    destruct (Ascii.ascii_dec (Ascii.ascii_of_nat 47) c); [by destruct p|done]. }
  rewrite Ha, H4, He. simpl. case_bool_decide; [by left|right].
  destruct (user r ≫= snd) as [o|]; [|left; auto].
  case_bool_decide; [subst; left; auto|right; eauto].
Qed.

Lemma tenancyMiddleware_fails_closed_witness :
  let r := Request (Some "/api/clients/:id") "//api/%61uth" false (Some (Some "TEAM", Some "acme")) in
  tenancyMiddleware r = ScopedClient "acme" ∧
  (tenancyMiddleware r = ClientSessionForbidden ∧ (user r ≫= fst) = Some "CLIENT" ∨
   tenancyMiddleware r = OrgContextRequired ∧ ((user r ≫= snd) = None ∨ (user r ≫= snd) = Some "") ∨
   ∃ o, tenancyMiddleware r = ScopedClient o ∧ o ≠ "" ∧ (user r ≫= snd) = Some o ∧ (user r ≫= fst) ≠ Some "CLIENT").
Proof.
  intros r. split; [by vm_compute|].
  apply (tenancyMiddleware_fails_closed r "/api/clients/:id"); by vm_compute.
Defined.

(** The staff hand-off routes are under the public portal's prefix. *)
Lemma portal_handoffs_exempt : isTenancyExemptUrl "/api/portal-handoffs/:id" = true.
Proof. by vm_compute. Qed.

(** ** Every model has one policy *)

(** The classes a model is listed in. *)
Definition policy_classes (m : string) : list policy :=
  (if mem m RESTRICTED_MODELS then [Restricted] else []) ++
  (if mem m GLOBAL_MODELS then [Global] else []) ++
  match tenantPath m with Some path => [Relation path] | None => [] end ++
  (if direct m then [Direct] else []).

(** A path names owner relations and ends at a direct model. *)
Fixpoint path_to_direct (path : list string) : bool :=
  match path with
  | [] => false
  | [rel] => match assoc rel RELATION_OWNER_MODELS with Some t => direct t | None => false end
  | rel :: path' => bool_decide (assoc rel RELATION_OWNER_MODELS ≠ None) && path_to_direct path'
  end.

Definition policy_ok (m : string) : bool :=
  match policy_classes m with
  | [Relation path] => path_to_direct path
  | [_] => true
  | _ => false
  end.

(** The ownership policy is total and unambiguous.  Every
    model of the database schema is in exactly one class, the class the proxy
    uses; a relation path walks declared owner relations and ends at a model
    that carries the organization. *)
Lemma tenantModelPolicy_total m :
  m ∈ SCHEMA_MODELS →
  policy_classes m = [tenantModelPolicy m] ∧ tenantModelPolicy m ≠ Unclassified ∧
  ∀ path, tenantModelPolicy m = Relation path → path_to_direct path = true.
Proof.
  assert (forallb policy_ok SCHEMA_MODELS = true) as Hall by (by vm_compute).
  intros Hin%list_elem_of_In. apply (proj1 (forallb_forall _ _) Hall) in Hin.
  clear Hall. unfold policy_ok, policy_classes, tenantModelPolicy in *.
  destruct (mem m RESTRICTED_MODELS), (mem m GLOBAL_MODELS), (tenantPath m) as [path|], (direct m);
    cbn [app] in *; try discriminate Hin; (split_and!; [reflexivity|discriminate|]); intros ? [=]; by subst.
Qed.

Lemma tenantModelPolicy_total_witness :
  "task" ∈ SCHEMA_MODELS ∧ tenantModelPolicy "task" = Relation ["project"; "client"] ∧
  policy_classes "task" = [tenantModelPolicy "task"] ∧ tenantModelPolicy "task" ≠ Unclassified ∧
  ∀ path, tenantModelPolicy "task" = Relation path → path_to_direct path = true.
Proof.
  assert ("task" ∈ SCHEMA_MODELS) as Hin by (apply (bool_decide_eq_true_1 _); by vm_compute).
  split; [exact Hin|]. split; [by vm_compute|]. apply (tenantModelPolicy_total "task" Hin).
Defined.

(** ** Soft deletion *)

(* src/src/services/soft-delete.service.js:2-5 SOFT_DELETE_MODELS *)
Definition SOFT_DELETE_MODELS : list string :=
  ["client"; "project"; "task"; "note"; "milestone"; "timeEntry"; "retainerPlan";
   "proposal"; "contract"; "invoice"; "expense"; "estimate"].

(* src/src/services/soft-delete.service.js:10-13 READ_OPERATIONS *)
Definition READ_OPERATIONS : list string :=
  ["findFirst"; "findFirstOrThrow"; "findUnique"; "findUniqueOrThrow";
   "findMany"; "count"; "aggregate"; "groupBy"].

(** The properties [x ?? {}] spreads. *)
Definition where_props (args : json) : list (string * json) := props (jget "where" args).

(** An absent property and one that is [undefined] are the same here. *)
(* src/src/services/soft-delete.service.js:15-18 hasExplicitDeletedAt *)
Definition hasExplicitDeletedAt (args : json) : bool :=
  bool_decide (assoc "deletedAt" (where_props args) ≠ None).

(** Whether a number, in the text JavaScript prints it, is above 100. *)
Fixpoint digits (s : string) (acc : nat) : nat * string :=
  match s with
  | String c s' =>
      let n := Ascii.nat_of_ascii c in
      if (48 <=? n)%nat && (n <=? 57)%nat then digits s' (Nat.min 1000 (10 * acc + (n - 48))) else (acc, s)
  | EmptyString => (acc, EmptyString)
  end.
Fixpoint has_char (k : nat) (s : string) : bool :=
  match s with EmptyString => false | String c s' => is_char k c || has_char k s' end.
Definition exceeds_100 (n : string) : bool :=
  if startsWith n "-" then false
  else if has_char 101 n then has_char 43 n                 (** [1e+21], [1e-7] *)
  else let '(whole, fraction) := digits n 0 in
       (100 <? whole)%nat || ((whole =? 100)%nat && negb (bool_decide (fraction = ""))).

(** [!Number.isFinite(take) || take > 100] *)
Definition unbounded_take (take : option json) : bool :=
  match take with Some (JNum n) => exceeds_100 n | _ => true end.

(* src/src/services/soft-delete.service.js:20-27 activeRecordArgs *)
Definition activeRecordArgs (args : json) (operation : string) : json :=
  if hasExplicitDeletedAt args then args
  else
    let scoped := set_arg "where" (JObj (fset "deletedAt" JNull (where_props args))) args in
    if bool_decide (operation = "findMany") && unbounded_take (jget "take" scoped)
    then set_arg "take" (JNum "100") scoped else scoped.

(** The database call a delegate call of the wrapped client makes; [now] is
    the timestamp written. *)
(* src/src/services/soft-delete.service.js:34-71 withSoftDelete *)
Definition withSoftDelete (model operation : string) (args now : json) : string * json :=
  if negb (mem model SOFT_DELETE_MODELS) then (operation, args)
  else if bool_decide (operation = "delete") then ("update", set_arg "data" (JObj [("deletedAt", now)]) args)
  else if bool_decide (operation = "deleteMany") then ("updateMany", set_arg "data" (JObj [("deletedAt", now)]) args)
  else if mem operation READ_OPERATIONS then (operation, activeRecordArgs args operation)
  else (operation, args).

(** Nothing is deleted and trashed rows stay hidden.  On a
    soft-deleted model no delegate call becomes a database delete: a delete is
    an update that stamps [deletedAt] on the rows the same filter selects.  A
    read that does not itself name [deletedAt] reaches the database with
    [deletedAt: null] added to its own filter, and a [findMany] among them
    never asks for more than 100 rows. *)
Lemma withSoftDelete_hides_and_keeps model operation args now operation' args' :
  model ∈ SOFT_DELETE_MODELS → withSoftDelete model operation args now = (operation', args') →
  operation' ≠ "delete" ∧ operation' ≠ "deleteMany" ∧
  (operation ∈ ["delete"; "deleteMany"] →
     jget "data" args' = Some (JObj [("deletedAt", now)]) ∧ jget "where" args' = jget "where" args) ∧
  (operation ∈ READ_OPERATIONS → hasExplicitDeletedAt args = false →
     jget_opt "deletedAt" (jget "where" args') = Some JNull ∧
     (∀ k, k ≠ "deletedAt" → jget_opt k (jget "where" args') = assoc k (where_props args)) ∧
     (operation = "findMany" → unbounded_take (jget "take" args') = false)).
Proof.
  intros Hm H. unfold withSoftDelete in H. unfold mem in H. rewrite (bool_decide_eq_true_2 _ Hm) in H. simpl in H.
  assert (∀ op, op ∈ ["delete"; "deleteMany"] → op ∉ READ_OPERATIONS) as Hdis.
  { intros op Hop Hr. unfold READ_OPERATIONS in Hr. mem_cases Hop; mem_absurd. }
  assert (∀ P : Prop, operation ∈ ["delete"; "deleteMany"] → operation ∈ READ_OPERATIONS → P) as Hno
    by (intros P H1 H2; by destruct (Hdis _ H1)).
  destruct (bool_decide (operation = "delete")) eqn:E1; [|destruct (bool_decide (operation = "deleteMany")) eqn:E2].
  1,2: match goal with E : bool_decide _ = true |- _ => apply bool_decide_eq_true in E as -> end;
    injection H as <- <-; split_and!; [done|done|intros _; by rewrite !jget_set|];
    intros Hr; apply Hno; [by repeat (first [left|right])|done].
  apply bool_decide_eq_false in E1, E2.
  assert (operation' = operation) as -> by (destruct (bool_decide _) in H; congruence).
  split_and!; [done|done| |].
  { intros Hd. repeat (apply elem_of_cons in Hd as [->|Hd]; [done|]). by apply not_elem_of_nil in Hd. }
  intros Hr He. rewrite (bool_decide_eq_true_2 _ Hr) in H. injection H as <-.
  unfold activeRecordArgs. rewrite He. cbv zeta.
  set (scoped := set_arg "where" _ args).
  assert (jget "where" scoped = Some (JObj (fset "deletedAt" JNull (where_props args)))) as Hw
    by (unfold scoped; by rewrite jget_set).
  assert (∀ final, jget "where" final = jget "where" scoped →
    (operation = "findMany" → unbounded_take (jget "take" final) = false) →
    jget_opt "deletedAt" (jget "where" final) = Some JNull ∧
    (∀ k, k ≠ "deletedAt" → jget_opt k (jget "where" final) = assoc k (where_props args)) ∧
    (operation = "findMany" → unbounded_take (jget "take" final) = false)) as Hfinal.
  { intros final -> Ht. rewrite Hw. simpl. split_and!; [|intros k Hk|exact Ht];
      rewrite assoc_fset; [by rewrite bool_decide_eq_true_2|by rewrite bool_decide_eq_false_2]. }
  destruct (bool_decide (operation = "findMany") && _) eqn:Eb; apply Hfinal.
  - by rewrite jget_set.
  - intros _. by rewrite jget_set.
  - done.
  - intros ->. by rewrite bool_decide_eq_true_2 in Eb.
Qed.

Lemma withSoftDelete_hides_and_keeps_witness :
  let args := JObj [("where", JObj [("id", JStr "t1")]); ("take", JNum "500")] in
  let args' := JObj [("where", JObj [("id", JStr "t1"); ("deletedAt", JNull)]); ("take", JNum "100")] in
  withSoftDelete "task" "findMany" args JNull = ("findMany", args') ∧
  jget_opt "deletedAt" (jget "where" args') = Some JNull.
Proof.
  intros args args'. split; [by vm_compute|].
  assert ("task" ∈ SOFT_DELETE_MODELS) as Hm by (apply (bool_decide_eq_true_1 _); by vm_compute).
  assert (withSoftDelete "task" "findMany" args JNull = ("findMany", args')) as H by (by vm_compute).
  assert ("findMany" ∈ READ_OPERATIONS) as Hr by (apply (bool_decide_eq_true_1 _); by vm_compute).
  assert (hasExplicitDeletedAt args = false) as He by (by vm_compute).
  destruct (withSoftDelete_hides_and_keeps "task" "findMany" args JNull "findMany" args' Hm H) as (_ & _ & _ & Hx).
  apply (Hx Hr He).
Defined.

End Guard.
