(* ===== verification/Tokens.v ===== *)
(** * Sessions and the step-up tokens

    src/src/auth/session.js, src/src/auth/reauth.js and the token half of
    src/src/auth/impersonation.js: which decoded session is current, and the
    two signed cookies derived from it - the ten-minute re-authentication proof
    and the support view.  HMAC, base64url and JSON text are parameters. *)

From stdpp Require Import pretty.
From S2P Require Import Prelude Json TenantTables Tenancy TenantGuard.
Import Json Tenancy Guard.

Module Tokens.

(** ** Numbers as JavaScript prints them *)

Fixpoint read_digits (s : string) (acc : N) : N * string :=
  match s with
  | String c s' =>
      let n := Ascii.N_of_ascii c in
      if (48 <=? n)%N && (n <=? 57)%N then read_digits s' (10 * acc + (n - 48))%N else (acc, s)
  | EmptyString => (acc, EmptyString)
  end.

(** The integer a printed number is, if [Number.isInteger] holds of it. *)
Definition js_integer (j : option json) : option Z :=
  match j with
  | Some (JNum n) =>
      let '(neg, s) := match drop_prefix "-" n with Some s => (true, s) | None => (false, n) end in
      let '(whole, rest) := read_digits s 0 in
      let signed z := if neg then (- z)%Z else z in
      match s with
      | EmptyString => None
      | _ =>
        if bool_decide (rest = "") then Some (signed (Z.of_N whole))
        else
          let '(frac_text, rest) := match drop_prefix "." rest with Some r => (r, (read_digits r 0).2) | None => ("", rest) end in
          let frac_len := (String.length frac_text - String.length rest)%nat in
          match drop_prefix "e+" rest with
          | Some e =>
              let exponent := (read_digits e 0).1 in
              if (N.of_nat frac_len <=? exponent)%N
              then Some (signed (Z.of_N (whole * 10 ^ exponent +
                                         (read_digits frac_text 0).1 * 10 ^ (exponent - N.of_nat frac_len))%N))
              else None
          | None => None
          end
      end
  | _ => None
  end.

Definition num (z : Z) : json := JNum (pretty z).

Lemma pretty_char_digit n : (n < 10)%N → Ascii.N_of_ascii (pretty_N_char n) = (48 + n)%N.
Proof.
  intros H. assert (n = 0 ∨ n = 1 ∨ n = 2 ∨ n = 3 ∨ n = 4 ∨ n = 5 ∨ n = 6 ∨ n = 7 ∨ n = 8 ∨ n = 9)%N as Hn by lia.
  by repeat destruct Hn as [->|Hn]; [..|subst].
Qed.

Lemma read_pretty_go x s : read_digits (pretty_N_go x s) 0 = read_digits s x.
Proof.
  revert s. induction (N.lt_wf_0 x) as [x _ IH]. intros s.
  destruct (decide (x = 0)%N) as [->|Hx]; [by rewrite pretty_N_go_0|].
  rewrite pretty_N_go_step by lia. rewrite IH by (apply N.div_lt; lia). cbn [read_digits].
  assert (x `mod` 10 < 10)%N by (apply N.mod_lt; lia).
  rewrite pretty_char_digit by done.
  destruct ((48 <=? 48 + x `mod` 10)%N && (48 + x `mod` 10 <=? 57)%N) eqn:E.
  - f_equal. pose proof (N.div_mod x 10 ltac:(lia)) as Hd. revert Hd. generalize (x / 10)%N (x mod 10)%N.
    intros a b ->. lia.
  - exfalso. revert H E. generalize (x mod 10)%N. intros b Hb [E|E]%andb_false_iff; apply N.leb_gt in E; lia.
Qed.

Lemma read_pretty (x : N) : read_digits (pretty x) 0 = (x, "").
Proof.
  destruct (decide (x = 0)%N) as [->|Hx]; [done|].
  unfold pretty, pretty_N. rewrite decide_False by done. by rewrite read_pretty_go.
Qed.

Lemma js_integer_num z : (0 ≤ z)%Z → js_integer (Some (num z)) = Some z.
Proof.
  intros Hz. assert (∃ x, z = Z.of_N x) as [x ->] by (exists (Z.to_N z); lia).
  unfold num. replace (pretty (Z.of_N x)) with (pretty x) by (by destruct x).
  pose proof (read_pretty x) as Hr. unfold js_integer.
  destruct (pretty x) as [|c s] eqn:Ep.
  { simpl in Hr. assert (x = 0%N) as -> by congruence. by vm_compute in Ep. }
  assert (drop_prefix "-" (String c s) = None) as ->.
  { unfold drop_prefix. destruct (String.prefix "-" (String c s)) eqn:E; [|done]. exfalso.
    change ((if Ascii.ascii_dec (Ascii.ascii_of_nat 45) c then String.prefix "" s else false) = true) in E.
    destruct (Ascii.ascii_dec _ c) as [<-|]; [|done]. by vm_compute in Hr. }
  rewrite Hr. by rewrite bool_decide_eq_true_2.
Qed.

(** Strict equality of JavaScript values; two objects are never the same one. *)
Definition strict_eq (a b : option json) : bool :=
  match a, b with
  | Some (JObj _), _ | Some (JArr _), _ => false
  | _, _ => bool_decide (a = b)
  end.

(** ** The session *)

(* src/src/auth/session.js:37-44 sessionTokenTypeFor *)
Definition sessionTokenTypeFor (role : option json) : string :=
  if strict_eq role (Some (JStr "CLIENT")) then "client_session" else "session".
Definition USER_SESSION_TOKEN_TYPES : list string := ["session"; "client_session"].

(* src/src/auth/session.js:68-74 isUserSessionPayload *)
Definition isUserSessionPayload (types : list string) (payload : option json) : bool :=
  match jget_opt "typ" payload with
  | Some (JStr typ) =>
      mem typ types && bool_decide (typ = sessionTokenTypeFor (jget_opt "role" payload)) &&
      match jget_opt "id" payload with Some (JStr id) => negb (bool_decide (id = "")) | _ => false end &&
      bool_decide (js_integer (jget_opt "sessionVersion" payload) ≠ None)
  | _ => false
  end.

(** An account, as the user table answers it. *)
Record account := Account {
  u_id : string; u_organization : string; u_role : string; u_name : string; u_email : string;
  u_client : option string; u_active : bool; u_version : Z
}.

(* src/src/auth/session.js:82-91 isCurrentUserSession *)
Definition isCurrentUserSession (find_user : string → option account) (types : list string)
    (payload : option json) : bool :=
  isUserSessionPayload types payload &&
  match jget_opt "id" payload with
  | Some (JStr id) =>
      match find_user id with
      | Some u => u_active u && bool_decide (js_integer (jget_opt "sessionVersion" payload) = Some (u_version u))
      | None => false
      end
  | _ => false
  end.

(* src/src/auth/reauth.js:44-48 sessionBinding *)
Definition sessionBinding (payload : option json) : option string :=
  match jget_opt "jti" payload with
  | Some (JStr (String _ _ as jti)) => Some ("jti:" +:+ jti)
  | _ => match jget_opt "iat" payload with
         | Some (JNum n) => if bool_decide (js_integer (Some (JNum n)) = None) then None else Some ("iat:" +:+ n)
         | _ => None
         end
  end.

(** ** Signed tokens *)

(** [token.split('.')] *)
Fixpoint split_dots (s : string) : list string :=
  match s with
  | EmptyString => [EmptyString]
  | String c s' =>
      if is_char 46 c then EmptyString :: split_dots s'
      else match split_dots s' with
           | part :: parts => String c part :: parts
           | [] => [String c EmptyString]
           end
  end.

Definition dotless (s : string) : Prop := has_char 46 s = false.

Lemma split_dots_dotless s : dotless s → split_dots s = [s].
Proof.
  unfold dotless. induction s as [|c s IH]; [done|]. simpl. intros [Hc Hs]%orb_false_iff. by rewrite Hc, IH.
Qed.
Lemma split_dots_app s t : dotless s → split_dots (s +:+ "." +:+ t) = s :: split_dots t.
Proof.
  unfold dotless. induction s as [|c s IH]; [done|]. intros [Hc Hs]%orb_false_iff. simpl.
  simpl in IH. by rewrite Hc, IH.
Qed.

Section tokens.
(** SHA-256, base64url JSON both ways (decoding throws on malformed JSON), and
    the two keyed digests; a digest is absent when JWT_SECRET is. *)
Context (sha256 : string → string).
Context (encode64 : json → string) (decode64 : string → option json).
Context (hmac_reauth hmac_view : string → option string).

(* src/src/utils/crypto.js:55-60 safeEqual *)
Definition safeEqual (a b : string) : bool := bool_decide (sha256 a = sha256 b).

Definition jwt_header : json := JObj [("alg", JStr "HS256"); ("typ", JStr "JWT")].

(** The three parts joined; nothing when there is no signing key. *)
Definition sign_claims (hmac : string → option string) (claims : json) : option string :=
  let body := encode64 jwt_header +:+ "." +:+ encode64 claims in
  signature ← hmac body; Some (body +:+ "." +:+ signature).

Definition or_null (s : option string) : json := match s with Some s => JStr s | None => JNull end.

(** An object literal; [undefined] members are dropped by JSON. *)
Definition members (l : list (string * option json)) : json :=
  JObj (omap (λ kv, pair kv.1 <$> kv.2) l).

Definition seconds (nowMs : Z) : Z := nowMs / 1000.
Definition REAUTH_TTL_SECONDS : Z := 10 * 60.

(** The claims of a re-authentication cookie. *)
Definition reauth_claims (session : json) (nowMs ttlSeconds : Z) : json :=
  let iat := seconds nowMs in
  members
    [("typ", Some (JStr "reauth")); ("sub", jget "id" session); ("sv", jget "sessionVersion" session);
     ("sid", Some (or_null (sessionBinding (Some session)))); ("iat", Some (num iat)); ("exp", Some (num (iat + ttlSeconds)))].

(* src/src/auth/reauth.js:54-66 signReauthToken *)
Definition signReauthToken (session : json) (nowMs ttlSeconds : Z) : option string :=
  sign_claims hmac_reauth (reauth_claims session nowMs ttlSeconds).

(** The decoded claims of a token of three parts with the right signature;
    [Err] is a thrown error (no signing key). *)
Definition signed_claims (hmac : string → option string) (token : string) : result unit (option json) :=
  match split_dots token with
  | [header; payload; signature] =>
      match hmac (header +:+ "." +:+ payload) with
      | None => Err tt
      | Some expected => Ok (if safeEqual signature expected then decode64 payload else None)
      end
  | _ => Ok None
  end.

(* src/src/auth/reauth.js:69-84 verifyReauthToken *)
Definition verifyReauthToken (token : string) (nowMs : Z) : result unit (option json) :=
  if (1024 <? Z.of_nat (String.length token)) then Ok None
  else
    claims ← signed_claims hmac_reauth token;
    Ok (c ← claims;
        match jget "typ" c, jget "sub" c, js_integer (jget "exp" c) with
        | Some (JStr "reauth"), Some (JStr _), Some exp => if exp <=? seconds nowMs then None else Some c
        | _, _, _ => None
        end).

Inductive auth_problem := Missing | Invalid | OtherUser | Stale.

(** [request.cookies.reauth] and [request.user] *)
(* src/src/auth/reauth.js:108-124 recentAuthProblem *)
Definition recentAuthProblem (cookie : option string) (session : option json) (nowMs : Z) : option auth_problem :=
  match cookie with
  | None | Some EmptyString => Some Missing
  | Some token =>
      match verifyReauthToken token nowMs with
      | Err _ | Ok None => Some Invalid
      | Ok (Some claims) =>
          if negb (truthy (jget_opt "id" session)) || negb (strict_eq (jget "sub" claims) (jget_opt "id" session))
          then Some OtherUser
          else if negb (strict_eq (jget "sv" claims) (jget_opt "sessionVersion" session)) then Some Stale
          else match sessionBinding session with
               | None => Some Stale
               | Some binding => if strict_eq (jget "sid" claims) (Some (JStr binding)) then None else Some Stale
               end
      end
  end.

Inductive step_up := Proceed | ImpersonationBlocked | ReauthRequired.

(* src/src/auth/reauth.js:138-149 requireRecentAuth *)
Definition requireRecentAuth (viewing : bool) (cookie : option string) (session : option json) (nowMs : Z) : step_up :=
  if viewing || truthy (jget_opt "impersonation" session) then ImpersonationBlocked
  else match recentAuthProblem cookie session nowMs with Some _ => ReauthRequired | None => Proceed end.

(** The claims a support-view cookie carries. *)
Definition view_claims (sessionId subjectUserId : string) (actor : json) (nowMs expiresMs : Z) : json :=
  members
    [("typ", Some (JStr "impersonation")); ("sid", Some (JStr sessionId)); ("act", jget "id" actor);
     ("sub", Some (JStr subjectUserId)); ("org", jget "organizationId" actor); ("asv", jget "sessionVersion" actor);
     ("abind", Some (or_null (sessionBinding (Some actor)))); ("iat", Some (num (seconds nowMs)));
     ("exp", Some (num (seconds expiresMs)))].

(* src/src/auth/impersonation.js:79-93 signImpersonationToken *)
Definition signImpersonationToken (sessionId : string) (actor : json) (subjectUserId : string) (nowMs expiresMs : Z)
  : option string := sign_claims hmac_view (view_claims sessionId subjectUserId actor nowMs expiresMs).

Definition nonempty (j : option json) : bool :=
  match j with Some (JStr s) => negb (bool_decide (s = "")) | _ => false end.

(** The claims and whether they are past [exp]. *)
(* src/src/auth/impersonation.js:99-123 verifyImpersonationToken *)
Definition verifyImpersonationToken (token : string) (nowMs : Z) : option (json * bool) :=
  if (2048 <? Z.of_nat (String.length token)) then None
  else match signed_claims hmac_view token with
       | Ok (Some c) =>
           if negb (strict_eq (jget "typ" c) (Some (JStr "impersonation"))) then None
           else if negb (forallb (λ field, nonempty (jget field c)) ["sid"; "act"; "sub"; "org"]) then None
           else match js_integer (jget "exp" c), js_integer (jget "asv" c) with
                | Some exp, Some _ => Some (c, exp <=? seconds nowMs)
                | _, _ => None
                end
       | _ => None
       end.

(** ** What the tokens prove *)

Hypothesis encode_dotless : ∀ j, dotless (encode64 j).
Hypothesis hmac_dotless : ∀ s d, hmac_reauth s = Some d ∨ hmac_view s = Some d → dotless d.

Lemma signed_claims_sign hmac claims token :
  (∀ s d, hmac s = Some d → dotless d) → decode64 (encode64 claims) = Some claims →
  sign_claims hmac claims = Some token → signed_claims hmac token = Ok (Some claims).
Proof.
  intros Hd Hdecode H. unfold sign_claims in H.
  set (header := encode64 jwt_header) in H. set (body := encode64 claims) in H.
  destruct (hmac (header +:+ "." +:+ body)) as [d|] eqn:Eh; [|done]. injection H as <-.
  unfold signed_claims.
  replace ((header +:+ "." +:+ body) +:+ "." +:+ d) with (header +:+ "." +:+ (body +:+ "." +:+ d))
    by (by rewrite !string_app_assoc).
  rewrite !split_dots_app by apply encode_dotless. rewrite (split_dots_dotless d) by eauto.
  rewrite Eh. unfold safeEqual. rewrite bool_decide_eq_true_2 by done.
  unfold body. by rewrite Hdecode.
Qed.

(** A re-authentication proof stands for its session, for ten
    minutes.  The cookie issued for a session is accepted for that same session
    exactly until its tenth minute is over, and for every other session - a
    different user, a session revoked or re-issued since - it never is. *)
Lemma reauth_window session other token t0 t1 :
  let claims := reauth_claims session t0 REAUTH_TTL_SECONDS in decode64 (encode64 claims) = Some claims →
  signReauthToken session t0 REAUTH_TTL_SECONDS = Some token →
  (String.length token ≤ 1024)%nat → (0 ≤ t0)%Z → nonempty (jget "id" session) = true →
  (recentAuthProblem (Some token) (Some other) t1 = None ↔
   (seconds t1 < seconds t0 + 600)%Z ∧ jget "id" other = jget "id" session ∧
   strict_eq (jget "sessionVersion" session) (jget "sessionVersion" other) = true ∧
   ∃ binding, sessionBinding (Some session) = Some binding ∧ sessionBinding (Some other) = Some binding).
Proof.
  intros claims Hdecode Hs Hlen Ht Hid. unfold nonempty in Hid. destruct (jget "id" session) as [[| | |id| |]|] eqn:Eid; try done.
  apply negb_true_iff', bool_decide_eq_false in Hid.
  pose proof (signed_claims_sign hmac_reauth _ _ (λ s d H, hmac_dotless s d (or_introl H)) Hdecode Hs) as Hc.
  fold claims in Hc.
  assert (jget "typ" claims = Some (JStr "reauth") ∧ jget "sub" claims = Some (JStr id) ∧
    jget "sv" claims = jget "sessionVersion" session ∧
    jget "sid" claims = Some (or_null (sessionBinding (Some session))) ∧
    jget "exp" claims = Some (num (seconds t0 + REAUTH_TTL_SECONDS))) as (C1 & C2 & C3 & C4 & C5).
  { unfold claims, reauth_claims. rewrite Eid. by destruct (jget "sessionVersion" session). }
  clear Hdecode. clearbody claims.
  assert (verifyReauthToken token t1 =
    Ok (if seconds t0 + REAUTH_TTL_SECONDS <=? seconds t1 then None else Some claims)) as Hv.
  { unfold verifyReauthToken. rewrite (proj2 (Z.ltb_ge _ _)) by lia. rewrite Hc. cbn -[js_integer Z.leb].
    rewrite C1, C2, C5, js_integer_num; [done|]. unfold REAUTH_TTL_SECONDS, seconds. pose proof (Z.div_pos t0 1000). lia. }
  unfold recentAuthProblem. destruct token as [|ch token]; [by simpl in Hc|].
  change REAUTH_TTL_SECONDS with 600 in *. rewrite Hv.
  destruct (seconds t0 + 600 <=? seconds t1) eqn:Ew.
  { apply Z.leb_le in Ew. split; [done|lia]. }
  apply Z.leb_gt in Ew. rewrite C2, C3, C4. cbn [jget_opt mbind option_bind].
  split.
  - intros H. split; [done|].
    destruct (truthy _) eqn:Et; [|done]. destruct (strict_eq (Some (JStr id)) _) eqn:Ei; [|done].
    destruct (strict_eq (jget "sessionVersion" session) _) eqn:Ev; [|done]. cbn in H.
    destruct (sessionBinding (Some other)) as [b|]; [|done].
    destruct (sessionBinding (Some session)) as [b'|]; cbn in H; [|done].
    destruct (bool_decide _) eqn:Eb; [|done]. apply bool_decide_eq_true in Eb as [= ->].
    cbn in Ei. apply bool_decide_eq_true in Ei. split_and!; [done|done|eauto].
  - intros (_ & Hi & Hsv & b & Hb & Hb'). rewrite Hi, Hsv, Hb, Hb'. cbn.
    rewrite !bool_decide_eq_true_2 by done. destruct id; done.
Qed.
(** A support-view cookie carries what was signed, until its expiry. *)
Lemma verify_view_sign sessionId actor subject nowMs expiresMs token t :
  let claims := view_claims sessionId subject actor nowMs expiresMs in
  decode64 (encode64 claims) = Some claims →
  signImpersonationToken sessionId actor subject nowMs expiresMs = Some token →
  (String.length token ≤ 2048)%nat → (0 ≤ expiresMs)%Z → sessionId ≠ "" → subject ≠ "" →
  nonempty (jget "id" actor) = true → nonempty (jget "organizationId" actor) = true →
  js_integer (jget "sessionVersion" actor) ≠ None →
  verifyImpersonationToken token t = Some (claims, seconds expiresMs <=? seconds t).
Proof.
  intros claims Hdecode Hs Hlen Ht H1 H2 H3 H4 H5.
  pose proof (signed_claims_sign hmac_view _ _ (λ s d H, hmac_dotless s d (or_intror H)) Hdecode Hs) as Hc.
  assert (jget "typ" claims = Some (JStr "impersonation") ∧ jget "sid" claims = Some (JStr sessionId) ∧
    jget "act" claims = jget "id" actor ∧ jget "sub" claims = Some (JStr subject) ∧
    jget "org" claims = jget "organizationId" actor ∧ jget "asv" claims = jget "sessionVersion" actor ∧
    jget "exp" claims = Some (num (seconds expiresMs))) as (C1 & C2 & C3 & C4 & C5 & C6 & C7).
  { unfold claims, view_claims. by destruct (jget "id" actor), (jget "organizationId" actor), (jget "sessionVersion" actor). }
  fold claims in Hc. clear Hdecode. clearbody claims.
  unfold verifyImpersonationToken. rewrite (proj2 (Z.ltb_ge _ _)) by lia. rewrite Hc.
  assert (forallb (λ field, nonempty (jget field claims)) ["sid"; "act"; "sub"; "org"] = true) as ->.
  { cbn [forallb]. rewrite C2, C3, C4, C5, H3, H4. simpl. by rewrite !bool_decide_eq_false_2. }
  rewrite C1, C6, C7, js_integer_num by (apply Z.div_pos; lia). cbn -[js_integer].
  rewrite bool_decide_eq_true_2 by done. simpl. by destruct (js_integer (jget "sessionVersion" actor)).
Qed.

(** Token kinds never cross.  No cookie is both a
    re-authentication proof and a support view, whatever the keys, and neither
    kind of claims is a user session, so a stolen cookie of one kind cannot be
    presented as another. *)
Lemma token_kinds_disjoint token t t' types :
  (∀ claims, verifyReauthToken token t = Ok (Some claims) →
     verifyImpersonationToken token t' = None ∧
     ((∀ typ, typ ∈ types → typ ∈ USER_SESSION_TOKEN_TYPES) → isUserSessionPayload types (Some claims) = false)) ∧
  (∀ claims expired, verifyImpersonationToken token t' = Some (claims, expired) →
     (∀ typ, typ ∈ types → typ ∈ USER_SESSION_TOKEN_TYPES) → isUserSessionPayload types (Some claims) = false).
Proof.
  assert (∀ claims s, jget "typ" claims = Some (JStr s) → s ∉ USER_SESSION_TOKEN_TYPES →
    (∀ typ, typ ∈ types → typ ∈ USER_SESSION_TOKEN_TYPES) → isUserSessionPayload types (Some claims) = false) as Hsess.
  { intros claims s Ht Hs Hall. unfold isUserSessionPayload. simpl. rewrite Ht. unfold mem.
    rewrite bool_decide_eq_false_2; [done|]. intros Hin. by apply Hs, Hall. }
  assert (∀ claims, verifyReauthToken token t = Ok (Some claims) →
    jget "typ" claims = Some (JStr "reauth") ∧ ∃ h p s, split_dots token = [h; p; s] ∧ decode64 p = Some claims) as Hre.
  { intros claims H. unfold verifyReauthToken in H. destruct (1024 <? _); [done|]. apply bind_ok in H as (c & Hc & H).
    destruct c as [c|]; simpl in H; [|done].
    assert (jget "typ" c = Some (JStr "reauth") ∧ c = claims) as [Ht ->].
    { destruct (jget "typ" c) as [[| | |ty| |]|]; try done. repeat case_hyp H; done. }
    split; [done|]. unfold signed_claims in Hc.
    destruct (split_dots token) as [|h [|p [|s [|]]]]; try done.
    destruct (hmac_reauth _); [|done]. destruct (safeEqual _ _); simplify_eq. eauto 10. }
  split.
  - intros claims H. destruct (Hre _ H) as (Ht & h & p & s & Hsp & Hd). split.
    + unfold verifyImpersonationToken. destruct (2048 <? _); [done|].
      unfold signed_claims. rewrite Hsp. destruct (hmac_view _); [|done].
      destruct (safeEqual _ _); [|done]. rewrite Hd, Ht. done.
    + apply (Hsess claims "reauth"); [done|]. unfold USER_SESSION_TOKEN_TYPES. intros ?; mem_absurd.
  - intros claims expired H. unfold verifyImpersonationToken in H. destruct (2048 <? _); [done|].
    destruct (signed_claims _ _) as [[c|]|]; [|done..].
    destruct (negb (strict_eq _ _)) eqn:E; [done|]. apply (Hsess claims "impersonation").
    + apply negb_false_iff' in E. assert (c = claims) as -> by (repeat case_hyp H; done).
      destruct (jget "typ" claims) as [[]|]; try done; by apply bool_decide_eq_true in E.
    + unfold USER_SESSION_TOKEN_TYPES. intros ?; mem_absurd.
Qed.
End tokens.

(** A signed-in administrator's proof, nine and ten minutes later. *)
Definition demo_session : json :=
  JObj [("id", JStr "u1"); ("sessionVersion", JNum "3"); ("jti", JStr "s1")].

Lemma reauth_window_witness :
  let claims := reauth_claims demo_session 1000000 REAUTH_TTL_SECONDS in
  let encode j := if bool_decide (j = claims) then "claims" else "header" in
  let decode s := if bool_decide (s = "claims") then Some claims else None in
  let hmac (_ : string) := Some "digest" in
  signReauthToken encode hmac demo_session 1000000 REAUTH_TTL_SECONDS = Some "header.claims.digest" ∧
  (recentAuthProblem id decode hmac (Some "header.claims.digest") (Some demo_session) 1599999 = None ↔
   (seconds 1599999 < seconds 1000000 + 600)%Z ∧ jget "id" demo_session = jget "id" demo_session ∧
   strict_eq (jget "sessionVersion" demo_session) (jget "sessionVersion" demo_session) = true ∧
   ∃ binding, sessionBinding (Some demo_session) = Some binding ∧ sessionBinding (Some demo_session) = Some binding) ∧
  recentAuthProblem id decode hmac (Some "header.claims.digest") (Some demo_session) 1600000 = Some Invalid.
Proof.
  intros claims encode decode hmac. split; [by vm_compute|]. split; [|by vm_compute].
  apply (reauth_window id encode decode hmac (λ _, Some "digest")); try (by vm_compute); try lia.
  - intros j. unfold encode. by destruct (bool_decide _).
  - intros s d [H|H]; injection H as <-; by vm_compute.
  - apply Nat.leb_le. by vm_compute.
Defined.

End Tokens.
