(* ===== verification/Totp.v ===== *)
(** * One-time passwords

    src/src/auth/totp.js: base32 secrets, HOTP and TOTP, and the check of a
    submitted code against the steps around now.  HMAC is a parameter; bytes
    are integers below 256.  Texts are ASCII. *)

From stdpp Require Import pretty.
From S2P Require Import Prelude Int32 TenantTables Tenancy Tokens.
Import Tokens.

Module Totp.

Definition byte (b : Z) : Prop := 0 ≤ b < 256.

(** ** Base32 *)

Definition BASE32_ALPHABET : string := "ABCDEFGHIJKLMNOPQRSTUVWXYZ234567".

(** [BASE32_ALPHABET[i]], appended to a string. *)
Definition letter (i : Z) : string :=
  match String.get (Z.to_nat i) BASE32_ALPHABET with Some c => String c "" | None => "" end.

(** [while (bits >= 5)], at most [fuel] turns; [bits] turns are enough. *)
Fixpoint drain (fuel bits : nat) (value : Z) (output : string) : nat * string :=
  match fuel with
  | O => (bits, output)
  | S fuel =>
      if (5 <=? bits)%nat
      then drain fuel (bits - 5) value (output +:+ letter (band (ushr value (Z.of_nat (bits - 5))) 31))
      else (bits, output)
  end.

Fixpoint encode_from (buffer : list Z) (bits : nat) (value : Z) (output : string) : string :=
  match buffer with
  | [] => if (0 <? bits)%nat then output +:+ letter (band (shl value (Z.of_nat (5 - bits))) 31) else output
  | byte :: buffer =>
      let value := bor (shl value 8) byte in
      let '(bits, output) := drain (bits + 8) (bits + 8) value output in
      encode_from buffer bits value output
  end.

(* src/src/auth/totp.js:18-32 base32Encode *)
Definition base32Encode (buffer : list Z) : string := encode_from buffer 0 0 "".

(** [BASE32_ALPHABET.indexOf(char)], [None] for -1. *)
Fixpoint index_in (alphabet : string) (c : Ascii.ascii) : option Z :=
  match alphabet with
  | EmptyString => None
  | String a alphabet => if bool_decide (a = c) then Some 0 else Z.succ <$> index_in alphabet c
  end.

Definition upper (c : Ascii.ascii) : Ascii.ascii :=
  let n := Ascii.N_of_ascii c in if ((97 <=? n) && (n <=? 122))%N then Ascii.ascii_of_N (n - 32) else c.
Definition white (c : Ascii.ascii) : bool := bool_decide (Ascii.N_of_ascii c ∈ [9; 10; 11; 12; 13; 32]%N).
(** The characters the secret may be spaced with. *)
Definition spacing (c : Ascii.ascii) : bool := white c || bool_decide (Ascii.N_of_ascii c ∈ [61; 45]%N).

Fixpoint map_string (f : Ascii.ascii → Ascii.ascii) (s : string) : string :=
  match s with EmptyString => EmptyString | String c s => String (f c) (map_string f s) end.
Fixpoint remove (p : Ascii.ascii → bool) (s : string) : string :=
  match s with EmptyString => EmptyString | String c s => if p c then remove p s else String c (remove p s) end.

Fixpoint decode_from (clean : string) (bits : nat) (value : Z) (bytes : list Z) : option (list Z) :=
  match clean with
  | EmptyString => Some bytes
  | String char clean =>
      index ← index_in BASE32_ALPHABET char;
      let value := bor (shl value 5) index in
      let bits := (bits + 5)%nat in
      if (8 <=? bits)%nat
      then decode_from clean (bits - 8) value (bytes ++ [band (ushr value (Z.of_nat (bits - 8))) 255])
      else decode_from clean bits value bytes
  end.

(** [None] is the thrown error. *)
(* src/src/auth/totp.js:34-50 base32Decode *)
Definition base32Decode (input : string) : option (list Z) :=
  decode_from (remove spacing (map_string upper input)) 0 0 [].

Example encode_foobar : base32Encode [102; 111; 111; 98; 97; 114] = "MZXW6YTBOI". Proof. reflexivity. Qed.
Example decode_spaced : base32Decode "mzxw 6ytb-oi==" = Some [102; 111; 111; 98; 97; 114]. Proof. reflexivity. Qed.

(** ** Reference: texts of digits and the bits they carry *)

Definition digits_text (ds : list Z) : string := foldr (λ d s, letter d +:+ s) "" ds.
Definition bits5 (ds : list Z) : list bool := concat (bits_of 5 <$> ds).
Definition bits8 (bs : list Z) : list bool := concat (bits_of 8 <$> bs).
Definition digit (d : Z) : Prop := 0 ≤ d < 32.

(** What a letter is to the decoder, checked for all thirty-two. *)
Definition letter_ok (d : Z) : bool :=
  match String.get (Z.to_nat d) BASE32_ALPHABET with
  | Some c => bool_decide (index_in BASE32_ALPHABET c = Some d) && bool_decide (upper c = c) && negb (spacing c)
  | None => false
  end.
Lemma letters_ok : forallb letter_ok (seqZ 0 32) = true. Proof. by vm_compute. Qed.

Lemma letter_digit d : digit d → ∃ c, letter d = String c "" ∧ index_in BASE32_ALPHABET c = Some d ∧ upper c = c ∧ spacing c = false.
Proof.
  intros Hd. pose proof letters_ok as H. rewrite forallb_forall in H.
  assert (In d (seqZ 0 32)) as Hin by (apply list_elem_of_In, elem_of_seqZ; unfold digit in Hd; lia).
  specialize (H d Hin). unfold letter_ok in H. unfold letter.
  destruct (String.get _ _) as [c|]; [|done]. exists c. bool_simplify. done.
Qed.

Lemma digits_text_app l k : digits_text (l ++ k) = digits_text l +:+ digits_text k.
Proof. induction l as [|d l IH]; [done|]. cbn [digits_text foldr app]. fold (digits_text (l ++ k)) (digits_text l). by rewrite IH, string_app_assoc. Qed.

Lemma digits_clean ds : Forall digit ds → remove spacing (map_string upper (digits_text ds)) = digits_text ds.
Proof.
  induction 1 as [|d ds Hd Hds IH]; [done|]. destruct (letter_digit d Hd) as (c & Hl & _ & Hu & Hs).
  cbn [digits_text foldr]. fold (digits_text ds). rewrite Hl.
  change (String c "" +:+ digits_text ds) with (String c (digits_text ds)). cbn [map_string remove]. by rewrite Hu, Hs, IH.
Qed.

(** A masked value has the bits of the mask's width. *)
Lemma band_mask v k m : (m = 31 ∧ k = 5) ∨ (m = 255 ∧ k = 8) →
  0 ≤ band v m < 2 ^ k ∧ ∀ i, 0 ≤ i < k → Z.testbit (band v m) i = Z.testbit v i.
Proof.
  intros Hm. assert (∀ i, 0 ≤ i → Z.testbit m i = (i <? k)) as Hmask.
  { intros i Hi. assert (m = Z.ones k) as -> by (destruct Hm as [[-> ->]|[-> ->]]; done).
    destruct (i <? k) eqn:E; bool_simplify; [apply Z.ones_spec_low|apply Z.ones_spec_high]; lia. }
  assert (band v m = Z.land (to_int32 v) m) as Hb.
  { unfold band. rewrite (to_int32_small m) by lia. apply to_int32_small.
    assert (0 ≤ Z.land (to_int32 v) m < 2 ^ k) as Hl; [|destruct Hm as [[-> ->]|[-> ->]]; lia].
    apply testbit_low_bits; [lia|]. intros i Hi. rewrite Z.land_spec, Hmask by lia.
    assert ((i <? k) = false) as -> by lia. by rewrite andb_false_r. }
  split.
  - rewrite Hb. apply testbit_low_bits; [lia|]. intros i Hi. rewrite Z.land_spec, Hmask by lia.
    assert ((i <? k) = false) as -> by lia. by rewrite andb_false_r.
  - intros i Hi. rewrite band_testbit, Hmask by lia. assert ((i <? k) = true) as -> by lia. by rewrite andb_true_r.
Qed.

(** The low bits after a digit or a byte is shifted in. *)
Lemma shift_in v k b n :
  0 < Z.of_nat k < 32 → (n + k ≤ 32)%nat → 0 ≤ b < 2 ^ Z.of_nat k →
  bits_of (n + k) (bor (shl v (Z.of_nat k)) b) = bits_of n v ++ bits_of k b.
Proof.
  intros Hk Hn Hb. apply bits_of_app; intros i Hi.
  - rewrite bor_testbit, shl_testbit by lia. rewrite (testbit_high b (Z.of_nat k)) by lia.
    rewrite orb_false_r, (proj2 (Z.leb_le _ _)) by lia. cbn. f_equal. lia.
  - rewrite bor_testbit, shl_testbit by lia. by rewrite (proj2 (Z.leb_gt _ _)) by lia.
Qed.

(** The topmost [k] of the [n + k] low bits taken out. *)
Lemma take_out v n k m :
  (m = 31 ∧ k = 5%nat) ∨ (m = 255 ∧ k = 8%nat) → (n + k ≤ 32)%nat →
  bits_of (k + n) v = bits_of k (band (ushr v (Z.of_nat n)) m) ++ bits_of n v ∧
  0 ≤ band (ushr v (Z.of_nat n)) m < 2 ^ Z.of_nat k.
Proof.
  intros Hm Hn. destruct (band_mask (ushr v (Z.of_nat n)) (Z.of_nat k) m) as [Hr Hb].
  { destruct Hm as [[-> ->]|[-> ->]]; [left|right]; done. }
  split; [|done]. apply bits_of_app; [|done]. intros i Hi. rewrite Hb by lia.
  by rewrite ushr_testbit by (destruct Hm as [[_ ->]|[_ ->]]; lia).
Qed.

Lemma drain_digits fuel bits value output :
  (bits ≤ fuel)%nat → (bits ≤ 12)%nat →
  ∃ ds left, drain fuel bits value output = (left, output +:+ digits_text ds) ∧ (left < 5)%nat ∧ Forall digit ds ∧
    bits_of bits value = bits5 ds ++ bits_of left value.
Proof.
  revert bits output. induction fuel as [|fuel IH]; intros bits output Hf Hb.
  { exists [], bits. cbn. rewrite string_app_nil_r. split_and!; [done|lia|constructor|done]. }
  cbn [drain]. destruct (5 <=? bits)%nat eqn:E.
  2:{ exists [], bits. cbn [digits_text foldr]. rewrite string_app_nil_r. apply Nat.leb_gt in E. split_and!; [done|lia|constructor|done]. }
  apply Nat.leb_le in E. set (d := band _ 31).
  destruct (IH (bits - 5)%nat (output +:+ letter d) ltac:(lia) ltac:(lia)) as (ds & left & Hd & Hl & Hds & Hbits).
  exists (d :: ds), left. destruct (take_out value (bits - 5) 5 31) as [Ht Hr]; [by left|lia|]. fold d in Ht, Hr. split_and!.
  - rewrite Hd. cbn [digits_text foldr]. by rewrite string_app_assoc.
  - done.
  - constructor; [exact Hr|done].
  - replace bits with (5 + (bits - 5))%nat at 1 by lia. rewrite Ht, Hbits. unfold bits5. cbn [fmap list_fmap concat]. by rewrite app_assoc.
Qed.

Lemma bits_of_zero n : bits_of n 0 = replicate n false.
Proof. induction n as [|n IH]; [done|]. cbn [bits_of replicate]. by rewrite IH, Z.testbit_0_l. Qed.

Lemma encode_from_digits buffer bits value output :
  Forall byte buffer → (bits < 5)%nat →
  ∃ ds pad, encode_from buffer bits value output = output +:+ digits_text ds ∧ Forall digit ds ∧ (pad < 5)%nat ∧
    bits5 ds = bits_of bits value ++ bits8 buffer ++ replicate pad false.
Proof.
  intros Hb. revert bits value output. induction Hb as [|b buffer Hb Hbuf IH]; intros bits value output Hbits; cbn [encode_from].
  - destruct (0 <? bits)%nat eqn:E.
    2:{ apply Nat.ltb_ge in E. assert (bits = 0%nat) as -> by lia. exists [], 0%nat. cbn. rewrite string_app_nil_r. split_and!; [done|constructor|lia|done]. }
    set (d := band _ 31). destruct (band_mask (shl value (Z.of_nat (5 - bits))) 5 31) as [Hd Hbit]; [by left|]. fold d in Hd, Hbit.
    exists [d], (5 - bits)%nat. apply Nat.ltb_lt in E. split_and!; [cbn; by rewrite string_app_nil_r|by apply Forall_singleton|lia|].
    unfold bits5. cbn [fmap list_fmap concat bits8 app]. rewrite app_nil_r. unfold bits8. cbn [fmap list_fmap concat app].
    rewrite <- bits_of_zero. replace 5%nat with (bits + (5 - bits))%nat at 1 by lia. apply bits_of_app; intros i Hi.
    + rewrite Hbit, shl_testbit by lia. rewrite (proj2 (Z.leb_le _ _)) by lia. cbn. f_equal. lia.
    + rewrite Hbit, shl_testbit by lia. by rewrite (proj2 (Z.leb_gt _ _)), Z.testbit_0_l by lia.
  - set (v := bor (shl value 8) b).
    destruct (drain_digits (bits + 8) (bits + 8) v output ltac:(lia) ltac:(lia)) as (ds & left & -> & Hleft & Hds & Hv).
    destruct (IH left v (output +:+ digits_text ds) Hleft) as (ds' & pad & He & Hds' & Hpad & Hbits').
    exists (ds ++ ds'), pad. split_and!; [by rewrite He, digits_text_app, string_app_assoc|by apply Forall_app|done|].
    unfold bits5 in *. rewrite fmap_app, concat_app, Hbits'. rewrite (app_assoc (concat _) (bits_of left v)), <- Hv.
    assert (bits_of (bits + 8) v = bits_of bits value ++ bits_of 8 b) as -> by (apply (shift_in value 8 b bits); first [lia|exact Hb]).
    unfold bits8. cbn [fmap list_fmap concat]. by rewrite <- !app_assoc.
Qed.

Lemma decode_from_bytes ds bits value bytes :
  Forall digit ds → (bits < 8)%nat →
  ∃ bs rest, decode_from (digits_text ds) bits value bytes = Some (bytes ++ bs) ∧ Forall byte bs ∧ (length rest < 8)%nat ∧
    bits_of bits value ++ bits5 ds = bits8 bs ++ rest.
Proof.
  intros Hds. revert bits value bytes. induction Hds as [|d ds Hd Hds IH]; intros bits value bytes Hbits.
  { exists [], (bits_of bits value). cbn. rewrite !app_nil_r, length_bits_of. by split_and!. }
  destruct (letter_digit d Hd) as (c & Hl & Hi & _). cbn [digits_text foldr]. fold (digits_text ds). rewrite Hl.
  change (String c "" +:+ digits_text ds) with (String c (digits_text ds)). cbn [decode_from]. rewrite Hi. cbn [mbind option_bind].
  set (v := bor (shl value 5) d).
  assert (bits_of (bits + 5) v = bits_of bits value ++ bits_of 5 d) as Hv by (apply (shift_in value 5 d bits); first [lia|exact Hd]).
  destruct (8 <=? bits + 5)%nat eqn:E.
  - apply Nat.leb_le in E. set (b := band _ 255). destruct (take_out v (bits + 5 - 8) 8 255) as [Ht Hr]; [by right|lia|]. fold b in Ht, Hr.
    destruct (IH (bits + 5 - 8)%nat v (bytes ++ [b]) ltac:(lia)) as (bs & rest & -> & Hbs & Hrest & Hb).
    exists (b :: bs), rest. split_and!; [by rewrite <- app_assoc|by constructor|done|].
    unfold bits5, bits8 in *. cbn [fmap list_fmap concat]. rewrite <- app_assoc, <- Hb, (app_assoc (bits_of bits value)), <- Hv.
    replace (bits + 5)%nat with (8 + (bits + 5 - 8))%nat at 1 by lia. by rewrite Ht, <- app_assoc.
  - apply Nat.leb_gt in E. destruct (IH (bits + 5)%nat v bytes E) as (bs & rest & -> & Hbs & Hrest & Hb).
    exists bs, rest. split_and!; [done..|]. rewrite <- Hb, Hv. unfold bits5. cbn [fmap list_fmap concat]. by rewrite <- app_assoc.
Qed.

Lemma bits8_inj a b r p :
  Forall byte a → Forall byte b → (length r < 8)%nat → (length p < 8)%nat → bits8 a ++ r = bits8 b ++ p → a = b.
Proof.
  intros Ha Hb Hr Hp. revert b Hb. induction Ha as [|x a Hx Ha IH]; intros b Hb H.
  - destruct Hb as [|y b]; [done|]. apply (f_equal length) in H. unfold bits8 in H. cbn [fmap list_fmap concat] in H.
    rewrite !length_app, length_bits_of in H. cbn in H. lia.
  - destruct Hb as [|y b Hy Hb].
    + apply (f_equal length) in H. unfold bits8 in H. cbn [fmap list_fmap concat] in H.
      rewrite !length_app, length_bits_of in H. cbn in H. lia.
    + unfold bits8 in *. cbn [fmap list_fmap concat] in H. rewrite <- !app_assoc in H.
      apply app_inj_1 in H as [H8 H]; [|by rewrite !length_bits_of]. f_equal; [by apply (bits_of_inj 8)|by apply IH].
Qed.

(** A secret survives base32.  Decoding an encoded secret
    answers its bytes, whatever their number: the 32-bit accumulator that both
    loops shift into and never clear overflows, and the bits it loses are only
    ones already written out. *)
Lemma base32_round_trip buffer :
  Forall byte buffer → base32Decode (base32Encode buffer) = Some buffer.
Proof.
  intros Hb. unfold base32Encode, base32Decode.
  destruct (encode_from_digits buffer 0 0 "" Hb ltac:(lia)) as (ds & pad & -> & Hds & Hpad & Hbits).
  change ("" +:+ digits_text ds) with (digits_text ds). rewrite digits_clean by done.
  destruct (decode_from_bytes ds 0 0 [] Hds ltac:(lia)) as (bs & rest & -> & Hbs & Hrest & Hbits').
  cbn [app bits_of] in *. rewrite Hbits in Hbits'. f_equal. symmetry.
  apply (bits8_inj buffer bs (replicate pad false) rest); [done|done|rewrite length_replicate; lia|done|done].
Qed.

Lemma base32_round_trip_witness :
  base32Decode (base32Encode [255; 0; 171; 16; 7; 200; 1]) = Some [255; 0; 171; 16; 7; 200; 1].
Proof. apply (base32_round_trip [255; 0; 171; 16; 7; 200; 1]). repeat (constructor; [unfold byte; lia|]); constructor. Defined.

(** ** HOTP *)

Record totp_options := TotpOptions { algorithm : string; digits : nat; period : Z }.
(* src/src/auth/totp.js:11-15 TOTP_DEFAULTS *)
Definition TOTP_DEFAULTS : totp_options := TotpOptions "sha1" 6 30.

(** A shared secret: its bytes, or their base32 text. *)
Inductive secret := Key (buffer : list Z) | Text (s : string).
(* src/src/auth/totp.js:57-59 secretBuffer *)
Definition secretBuffer (s : secret) : option (list Z) :=
  match s with Key buffer => Some buffer | Text s => base32Decode s end.

(** [writeBigUInt64BE]: a RangeError outside 64 bits. *)
Definition counter_bytes (counter : Z) : option (list Z) :=
  if (0 <=? counter) && (counter <? 2 ^ 64)
  then Some ((λ i, Z.shiftr counter (8 * i) mod 256) <$> [7; 6; 5; 4; 3; 2; 1; 0]) else None.

Fixpoint repeat_string (n : nat) (c : Ascii.ascii) : string :=
  match n with O => "" | S n => String c (repeat_string n c) end.
Definition padStart (n : nat) (c : Ascii.ascii) (s : string) : string := repeat_string (n - String.length s) c +:+ s.
Definition zero_char : Ascii.ascii := Ascii.ascii_of_N 48.

Section hotp.
(** [crypto.createHmac(algorithm, key).update(message).digest()] *)
Context (hmac : string → list Z → list Z → list Z).
Implicit Types (o : totp_options).

(** [digest[i]]: [undefined] counts as 0 in the bitwise operators. *)
Definition at_index (digest : list Z) (i : Z) : Z := default 0 (digest !! Z.to_nat i).

(** [None] is a thrown error. *)
(* src/src/auth/totp.js:62-72 hotp *)
Definition hotp (s : secret) (counter : Z) (o : totp_options) : option string :=
  message ← counter_bytes counter;
  key ← secretBuffer s;
  let digest := hmac (algorithm o) key message in
  let offset := band (at_index digest (Z.of_nat (length digest) - 1)) 15 in
  let binary := bor (bor (bor (shl (band (at_index digest offset) 127) 24)
                              (shl (at_index digest (offset + 1)) 16))
                         (shl (at_index digest (offset + 2)) 8))
                    (at_index digest (offset + 3)) in
  Some (padStart (digits o) zero_char (pretty (binary mod 10 ^ Z.of_nat (digits o)))).

(** Both divisions are of doubles; below 2^53 milliseconds their floor is the
    integer quotient. *)
(* src/src/auth/totp.js:75-77 totpStep *)
Definition totpStep (timeMs : Z) (period : Z) : Z := timeMs / (1000 * period).

(* src/src/auth/totp.js:79-82 totp *)
Definition totp (s : secret) (timeMs : Z) (o : totp_options) : option string := hotp s (totpStep timeMs (period o)) o.

Definition is_digit (c : Ascii.ascii) : bool := let n := Ascii.N_of_ascii c in ((48 <=? n) && (n <=? 57))%N.
Fixpoint all_digits (s : string) : bool :=
  match s with EmptyString => true | String c s => is_digit c && all_digits s end.

(** The loop over [steps]: the first match is kept, none ends it. *)
Fixpoint scan_steps (key : secret) (o : totp_options) (submitted : string) (steps : list Z) (matched : option Z) : option (option Z) :=
  match steps with
  | [] => Some matched
  | step :: steps =>
      if step <? 0 then scan_steps key o submitted steps matched
      else
        expected ← hotp key step o;
        scan_steps key o submitted steps
          (match matched with
           | None => if bool_decide (expected = submitted) then Some step else None
           | Some _ => matched
           end)
  end.

(** The submitted code without its white space. *)
Definition submitted_code (code : string) : string := remove white code.

(* src/src/auth/totp.js:91-107 verifyTotp *)
Definition verifyTotp (s : secret) (code : string) (timeMs : Z) (window : Z) (o : totp_options) : option (option Z) :=
  let submitted := submitted_code code in
  if negb (bool_decide (String.length submitted = digits o) && all_digits submitted) then Some None
  else
    key ← secretBuffer s;
    let current := totpStep timeMs (period o) in
    scan_steps (Key key) o submitted (seqZ (current - window) (2 * window + 1)) None.

(** ** What a code is *)

(** RFC 4226: thirty-one bits of the digest, read big-endian from the offset
    its last byte's low half names. *)
Definition truncated (digest : list Z) : Z :=
  let offset := at_index digest (Z.of_nat (length digest) - 1) mod 16 in
  foldl (λ acc b, acc * 256 + b) 0 (at_index digest <$> [offset; offset + 1; offset + 2; offset + 3]) mod 2 ^ 31.

Lemma at_index_byte digest i : Forall byte digest → byte (at_index digest i).
Proof.
  intros H. unfold at_index. destruct (digest !! Z.to_nat i) as [b|] eqn:E; [|unfold byte; cbn; lia]. cbn.
  by eapply Forall_lookup_1 in E.
Qed.

(** The four bytes joined by the 32-bit operators. *)
Lemma joined_bytes a b c d : byte a → byte b → byte c → byte d →
  bor (bor (bor (shl (band a 127) 24) (shl b 16)) (shl c 8)) d = (((a * 256 + b) * 256 + c) * 256 + d) mod 2 ^ 31.
Proof.
  unfold byte. intros Ha Hb Hc Hd. change 127 with (Z.ones 7). rewrite band_ones by lia. change (2 ^ 7) with 128.
  pose proof (Z.mod_pos_bound a 128 ltac:(lia)) as Hm. pose proof (Z.div_mod a 128 ltac:(lia)) as Hdm.
  set (m := a mod 128) in *. set (q := a / 128) in *.
  rewrite !shl_small by lia. change (2 ^ 24) with 16777216. change (2 ^ 16) with 65536. change (2 ^ 8) with 256.
  rewrite (bor_disjoint (m * 16777216) (b * 65536) 24) by (try lia; by apply Z.mod_mul).
  rewrite (bor_disjoint _ (c * 256) 16)
    by (try lia; replace (m * 16777216 + b * 65536) with ((m * 256 + b) * 2 ^ 16) by lia; by apply Z.mod_mul).
  rewrite (bor_disjoint _ d 8)
    by (try lia; replace (m * 16777216 + b * 65536 + c * 256) with ((m * 65536 + b * 256 + c) * 2 ^ 8) by lia; by apply Z.mod_mul).
  apply (Z.mod_unique _ _ q); lia.
Qed.

Lemma read_digits_app s n t : all_digits s = true → read_digits (s +:+ t) n = read_digits t (read_digits s n).1.
Proof.
  revert n. induction s as [|c s IH]; intros n; [done|]. intros [Hc Hs]%andb_true_iff'.
  change (read_digits (String c (s +:+ t)) n = read_digits t (read_digits (String c s) n).1).
  cbn [read_digits]. unfold is_digit in Hc. cbn in Hc. rewrite Hc. by apply IH.
Qed.

Lemma zeros n : all_digits (repeat_string n zero_char) = true ∧ (read_digits (repeat_string n zero_char) 0).1 = 0%N ∧
  String.length (repeat_string n zero_char) = n.
Proof. induction n as [|n (IHa & IHr & IHl)]; [done|]. split_and!; [exact IHa|exact IHr|]. change (S (String.length (repeat_string n zero_char)) = S n). by f_equal. Qed.

Lemma all_digits_app s t : all_digits (s +:+ t) = all_digits s && all_digits t.
Proof. induction s as [|c s IH]; [done|]. change (is_digit c && all_digits (s +:+ t) = is_digit c && all_digits s && all_digits t). by rewrite IH, andb_assoc. Qed.
Lemma length_string_app s t : String.length (s +:+ t) = (String.length s + String.length t)%nat.
Proof. induction s as [|c s IH]; [done|]. change (S (String.length (s +:+ t)) = S (String.length s + String.length t)). by rewrite IH. Qed.

(** Printing a number below [10 ^ d]. *)
Lemma pretty_go_digits (d : nat) x s :
  (x < 10 ^ N.of_nat d)%N → all_digits s = true →
  all_digits (pretty_N_go x s) = true ∧ (String.length (pretty_N_go x s) ≤ d + String.length s)%nat.
Proof.
  revert x s. induction d as [|d IH]; intros x s Hx Hs.
  { assert (x = 0%N) as -> by (change (10 ^ N.of_nat 0)%N with 1%N in Hx; lia). rewrite pretty_N_go_0. split; [done|lia]. }
  destruct (decide (x = 0)%N) as [->|Hn]; [rewrite pretty_N_go_0; split; [done|lia]|].
  rewrite pretty_N_go_step by lia. assert (x `mod` 10 < 10)%N as Hm by (apply N.mod_lt; lia).
  destruct (IH (x `div` 10)%N (String (pretty_N_char (x `mod` 10)) s)) as [Ha Hl].
  - apply N.Div0.div_lt_upper_bound. rewrite Nat2N.inj_succ, N.pow_succ_r' in Hx. lia.
  - cbn [all_digits]. rewrite Hs, andb_true_r. unfold is_digit. rewrite pretty_char_digit by done.
    revert Hm. generalize (x `mod` 10)%N. intros b Hb. apply andb_true_iff'. split; apply N.leb_le; lia.
  - split; [done|]. cbn [String.length] in Hl. lia.
Qed.

Lemma pretty_digits (d : nat) (z : Z) :
  (1 ≤ d)%nat → 0 ≤ z < 10 ^ Z.of_nat d →
  all_digits (pretty z) = true ∧ (String.length (pretty z) ≤ d)%nat ∧ read_digits (pretty z) 0 = (Z.to_N z, "").
Proof.
  intros Hd Hz. assert (∃ x, z = Z.of_N x) as [x ->] by (exists (Z.to_N z); lia).
  replace (pretty (Z.of_N x)) with (pretty x) by (by destruct x). rewrite N2Z.id, read_pretty.
  assert (all_digits (pretty x) = true ∧ (String.length (pretty x) ≤ d)%nat) as [? ?]; [|done].
  unfold pretty, pretty_N. case_decide; [split; [done|cbn; lia]|].
  destruct (pretty_go_digits d x "") as [Ha Hl]; [|done|split; [done|change (String.length "") with 0%nat in Hl; lia]].
  assert (Z.of_N (10 ^ N.of_nat d) = 10 ^ Z.of_nat d) as He by (rewrite N2Z.inj_pow, nat_N_Z; done).
  apply N2Z.inj_lt. rewrite He. apply Hz.
Qed.

Lemma padded_digits (d : nat) (z : Z) :
  (1 ≤ d)%nat → 0 ≤ z < 10 ^ Z.of_nat d →
  String.length (padStart d zero_char (pretty z)) = d ∧ all_digits (padStart d zero_char (pretty z)) = true ∧
  read_digits (padStart d zero_char (pretty z)) 0 = (Z.to_N z, "").
Proof.
  intros Hd Hz. destruct (pretty_digits d z Hd Hz) as (Ha & Hl & Hr). unfold padStart.
  destruct (zeros (d - String.length (pretty z))) as (Hza & Hzr & Hzl). split_and!.
  - rewrite length_string_app, Hzl. lia.
  - by rewrite all_digits_app, Hza, Ha.
  - by rewrite read_digits_app, Hzr, Hr.
Qed.

Lemma seqZ_filter_sorted (p : Z → bool) a n : StronglySorted Z.lt (List.filter p (seqZ a n)).
Proof.
  assert (StronglySorted Z.lt (seqZ a n)) as Hs.
  { unfold seqZ. generalize (Z.to_nat n). intros k. generalize 0%nat. induction k as [|k IH]; intros i; [constructor|].
    cbn [seq fmap list_fmap]. constructor; [apply IH|]. apply Forall_forall. intros z (j & -> & Hj)%list_elem_of_fmap.
    apply elem_of_seq in Hj. lia. }
  induction Hs as [|x l Hl IH Hx]; [constructor|]. cbn [List.filter]. destruct (p x); [|done]. constructor; [done|].
  apply Forall_forall. intros y Hy%list_elem_of_In%filter_In. destruct Hy as [Hy%list_elem_of_In _]. by eapply Forall_forall in Hx.
Qed.

Context (hmac_bytes : ∀ algorithm key message, Forall byte (hmac algorithm key message)).

(** Every one-time password is six digits (or as many as asked
    for), and the number they print is RFC 4226's: the thirty-one bits of the
    digest from the offset its last byte names, modulo a power of ten.  The
    32-bit shifts never reach the sign, and leading zeros are kept. *)
Lemma hotp_digits s buffer counter message o :
  secretBuffer s = Some buffer → counter_bytes counter = Some message → (1 ≤ digits o)%nat →
  ∃ code, hotp s counter o = Some code ∧ String.length code = digits o ∧ all_digits code = true ∧
    read_digits code 0 =
      (Z.to_N (truncated (hmac (algorithm o) buffer message) mod 10 ^ Z.of_nat (digits o)), "").
Proof.
  intros Hs Hm Hd. unfold hotp. rewrite Hm. cbn [mbind option_bind]. rewrite Hs. cbn [mbind option_bind].
  set (digest := hmac (algorithm o) buffer message). pose proof (hmac_bytes (algorithm o) buffer message) as Hb. fold digest in Hb.
  pose proof (at_index_byte digest (Z.of_nat (length digest) - 1) Hb) as Hlast. unfold byte in Hlast.
  change 15 with (Z.ones 4). rewrite band_ones by lia. change (2 ^ 4) with 16.
  rewrite joined_bytes by (by apply at_index_byte). fold (truncated digest).
  match goal with |- context [?x mod 2 ^ 31] => change (x mod 2 ^ 31) with (truncated digest) end.
  eexists. split; [done|]. apply padded_digits; [done|]. apply Z.mod_pos_bound. apply Z.pow_pos_nonneg; lia.
Qed.

Lemma hotp_key s buffer counter o : secretBuffer s = Some buffer → hotp s counter o = hotp (Key buffer) counter o.
Proof. intros Hs. unfold hotp. by rewrite Hs. Qed.

Lemma hotp_some buffer counter o :
  0 ≤ counter < 2 ^ 64 → (1 ≤ digits o)%nat →
  ∃ code, hotp (Key buffer) counter o = Some code ∧ String.length code = digits o ∧ all_digits code = true.
Proof.
  intros Hc Hd. destruct (hotp_digits (Key buffer) buffer counter (default [] (counter_bytes counter)) o) as (code & ? & ? & ? & _); [done| |done|eauto].
  unfold counter_bytes. rewrite (proj2 (Z.leb_le _ _)), (proj2 (Z.ltb_lt _ _)) by lia. done.
Qed.

(** Whether a step's code is the submitted one. *)
Definition matches (key : secret) o (submitted : string) (step : Z) : bool :=
  (0 <=? step) && bool_decide (hotp key step o = Some submitted).

Lemma matches_true key o submitted step : matches key o submitted step = true ↔ 0 ≤ step ∧ hotp key step o = Some submitted.
Proof. unfold matches. rewrite andb_true_iff', bool_decide_eq_true, Z.leb_le. done. Qed.

Lemma scan_steps_kept buffer o submitted steps m :
  (∀ step, step ∈ steps → step < 2 ^ 64) → (1 ≤ digits o)%nat →
  scan_steps (Key buffer) o submitted steps (Some m) = Some (Some m).
Proof.
  intros Hs Hd. induction steps as [|step steps IH]; [done|]. cbn [scan_steps].
  assert (scan_steps (Key buffer) o submitted steps (Some m) = Some (Some m)) as Hrest by (apply IH; intros; apply Hs; by right).
  destruct (step <? 0) eqn:E; [done|]. bool_simplify.
  destruct (hotp_some buffer step o) as (code & -> & _); [split; [done|apply Hs; left]|done|]. by cbn [mbind option_bind].
Qed.

Lemma scan_steps_first buffer o submitted steps :
  (∀ step, step ∈ steps → step < 2 ^ 64) → (1 ≤ digits o)%nat →
  scan_steps (Key buffer) o submitted steps None = Some (head (List.filter (matches (Key buffer) o submitted) steps)).
Proof.
  intros Hs Hd. induction steps as [|step steps IH]; [done|]. cbn [scan_steps List.filter].
  assert (∀ step, step ∈ steps → step < 2 ^ 64) as Hs' by (intros; apply Hs; by right). specialize (IH Hs').
  unfold matches at 1. destruct (step <? 0) eqn:E; bool_simplify; [by rewrite (proj2 (Z.leb_gt _ _))|].
  rewrite (proj2 (Z.leb_le _ _)) by done. cbn [andb].
  destruct (hotp_some buffer step o) as (code & Hh & _); [split; [done|apply Hs; left]|done|]. rewrite Hh. cbn [mbind option_bind].
  destruct (decide (code = submitted)) as [->|Hne].
  - rewrite !bool_decide_refl. cbn [head]. by apply scan_steps_kept.
  - rewrite !bool_decide_neq by congruence. exact IH.
Qed.

(** A submitted code is checked against every step around
    now.  The answer is the earliest step of the window whose code it is -
    spaces aside - and nothing exactly when it is the code of none of them:
    steps before the epoch are passed over, and a text that is not the right
    number of digits is no step's code. *)
Lemma verifyTotp_finds s buffer code timeMs window o :
  secretBuffer s = Some buffer → (1 ≤ digits o)%nat → 0 ≤ window →
  totpStep timeMs (period o) + window < 2 ^ 64 →
  let near step := 0 ≤ step ∧ totpStep timeMs (period o) - window ≤ step ≤ totpStep timeMs (period o) + window in
  ∃ matched, verifyTotp s code timeMs window o = Some matched ∧
    match matched with
    | Some step => near step ∧ hotp s step o = Some (submitted_code code) ∧
        ∀ earlier, near earlier → earlier < step → hotp s earlier o ≠ Some (submitted_code code)
    | None => ∀ step, near step → hotp s step o ≠ Some (submitted_code code)
    end.
Proof.
  intros Hs Hd Hw Hmax near. set (current := totpStep timeMs (period o)) in *.
  assert (∀ step, near step → hotp s step o = Some (submitted_code code) →
    String.length (submitted_code code) = digits o ∧ all_digits (submitted_code code) = true) as Hformat.
  { intros step [Hn1 Hn2] Hh. rewrite (hotp_key s buffer) in Hh by done.
    destruct (hotp_some buffer step o) as (c & Hc & ? & ?); [lia|done|]. rewrite Hc in Hh. by simplify_eq. }
  unfold verifyTotp. destruct (bool_decide _ && _) eqn:Ef; cbn [negb].
  2:{ exists None. split; [done|]. intros step Hn Hh. destruct (Hformat step Hn Hh) as [Hl Ha]. by rewrite Hl, Ha, bool_decide_refl in Ef. }
  rewrite Hs. cbn [mbind option_bind]. fold current.
  rewrite scan_steps_first by (done || (intros step Hin%elem_of_seqZ; lia)). eexists. split; [done|].
  assert (∀ step, near step → hotp s step o = Some (submitted_code code) →
    step ∈ List.filter (matches (Key buffer) o (submitted_code code)) (seqZ (current - window) (2 * window + 1))) as Hin.
  { intros step [Hn1 Hn2] Hh. apply list_elem_of_In, filter_In. rewrite <- list_elem_of_In, elem_of_seqZ, matches_true.
    rewrite <- (hotp_key s) by done. split; [lia|done]. }
  assert (StronglySorted Z.lt (List.filter (matches (Key buffer) o (submitted_code code)) (seqZ (current - window) (2 * window + 1)))) as Hsort
    by apply seqZ_filter_sorted.
  destruct (List.filter _ _) as [|step rest] eqn:Efilter; cbn [head].
  - intros step Hn Hh. by apply Hin, not_elem_of_nil in Hh.
  - assert (In step (List.filter (matches (Key buffer) o (submitted_code code)) (seqZ (current - window) (2 * window + 1)))) as Hst by (rewrite Efilter; by left).
    apply filter_In in Hst as [Hst%list_elem_of_In%elem_of_seqZ [H0 Hh]%matches_true]. rewrite (hotp_key s buffer) by done.
    split_and!; [unfold near; lia|done|]. intros earlier He Hlt Hhe. apply Hin in Hhe; [|done]. apply elem_of_cons in Hhe as [->|Hhe]; [lia|]. inversion_clear Hsort as [|? ? _ Hall].
    rewrite Forall_forall in Hall. specialize (Hall _ Hhe). lia.
Qed.

End hotp.

(** ** A keyed digest that is not HMAC, but has its shape *)

Definition demo_hmac (_ : string) (key message : list Z) : list Z :=
  (λ i, (foldl Z.add (31 * i) (key ++ message) * 7) mod 256) <$> seqZ 0 20.
Lemma demo_hmac_bytes algorithm key message : Forall byte (demo_hmac algorithm key message).
Proof. apply Forall_fmap, Forall_forall. intros i _. unfold byte. cbn. apply Z.mod_pos_bound. lia. Qed.

Definition demo_secret : secret := Text (base32Encode [1; 2; 3; 4; 5; 6; 7; 8; 9; 10]).

Lemma hotp_digits_witness :
  hotp demo_hmac demo_secret 1 TOTP_DEFAULTS = Some "284190" ∧
  ∃ code, hotp demo_hmac demo_secret 1 TOTP_DEFAULTS = Some code ∧ String.length code = 6%nat ∧ all_digits code = true ∧
    read_digits code 0 =
      (Z.to_N (truncated (demo_hmac "sha1" [1; 2; 3; 4; 5; 6; 7; 8; 9; 10] [0; 0; 0; 0; 0; 0; 0; 1]) mod 10 ^ 6), "").
Proof.
  split; [by vm_compute|].
  apply (hotp_digits demo_hmac demo_hmac_bytes demo_secret [1; 2; 3; 4; 5; 6; 7; 8; 9; 10] 1 [0; 0; 0; 0; 0; 0; 0; 1] TOTP_DEFAULTS);
    [by vm_compute|by vm_compute|cbn; lia].
Defined.

Lemma verifyTotp_finds_witness :
  verifyTotp demo_hmac demo_secret "284 190" 59000 1 TOTP_DEFAULTS = Some (Some 1) ∧
  ∃ matched, verifyTotp demo_hmac demo_secret "284 190" 59000 1 TOTP_DEFAULTS = Some matched ∧
    match matched with
    | Some step => (0 ≤ step ∧ 0 ≤ step ≤ 2) ∧ hotp demo_hmac demo_secret step TOTP_DEFAULTS = Some (submitted_code "284 190") ∧
        ∀ earlier, 0 ≤ earlier ∧ 0 ≤ earlier ≤ 2 → earlier < step →
          hotp demo_hmac demo_secret earlier TOTP_DEFAULTS ≠ Some (submitted_code "284 190")
    | None => ∀ step, 0 ≤ step ∧ 0 ≤ step ≤ 2 → hotp demo_hmac demo_secret step TOTP_DEFAULTS ≠ Some (submitted_code "284 190")
    end.
Proof.
  split; [by vm_compute|].
  apply (verifyTotp_finds demo_hmac demo_hmac_bytes demo_secret [1; 2; 3; 4; 5; 6; 7; 8; 9; 10] "284 190" 59000 1 TOTP_DEFAULTS);
    [by vm_compute|cbn; lia|lia|by vm_compute].
Defined.

End Totp.
