(* ===== verification/Mfa.v ===== *)
(** * The second factor

    src/src/auth/mfa.js and the handlers of src/src/routes/mfa.routes.js that
    use it: enrolment, the challenge between password and code, the attempt
    budget and its lockout, one-time passwords and recovery codes.  Requests
    interleave between their database statements (Async.v).  Every statement
    on an account's row is also noted in [trail], newest first, which no code
    reads: it is what the theorems speak of. *)

From stdpp Require Import pretty.
From S2P Require Import Prelude Json TenantTables Tenancy TenantGuard Tokens Int32 Totp Async.
Import Json Tenancy Guard Tokens Totp.

Module SecondFactor.

(* src/src/auth/mfa.js:24-29 MFA_INELIGIBLE_ROLES *)
Definition MFA_INELIGIBLE_ROLES : list string := ["CLIENT"; "BOT"].
Definition MFA_CHALLENGE_TTL_SECONDS : Z := 5 * 60.
Definition MFA_MAX_FAILED_ATTEMPTS : Z := 5.
Definition MFA_LOCKOUT_MS : Z := 15 * 60 * 1000.
Definition RECOVERY_CODE_COUNT : nat := 10.

(** ** Data *)

(** The second-factor columns of a user. *)
(* src/src/auth/mfa.js:309-326 MFA_USER_SELECT *)
Record mfa := Mfa {
  mfaEnabled : bool; mfaSecret : option string; mfaEnabledAt : option Z; mfaLastUsedStep : option Z;
  mfaRecoveryCodes : list string; mfaFailedAttempts : Z; mfaLockedUntil : option Z
}.
Definition no_mfa : mfa := Mfa false None None None [] 0 None.

Record user := User {
  m_role : string; m_org : option string; m_active : bool; m_password : string; m_version : Z; m_mfa : mfa
}.

(** What a statement did to an account's row. *)
Inductive event :=
  | Reserved (request : nat) (attempt now : Z)
  | Locked (now : Z)
  | Cleared (request : nat)                (** the failure count is zero again *)
  | Unlocked                               (** and no lock is left *)
  | Accepted (request : nat) (step : Z)    (** a time step was claimed *)
  | Consumed (request : nat) (hash : string)
  | Issued (hashes : list string)          (** the recovery codes are now these *)
  | Renewed.                               (** the last used step is forgotten *)

Record db := Db { users : gmap string user; trail : list (string * event) }.

(** ** The account *)

(* src/src/auth/mfa.js:37-39 isMfaEligible *)
Definition isMfaEligible (u : user) : bool := negb (mem (m_role u) MFA_INELIGIBLE_ROLES).

(** A non-empty string. *)
Definition present (s : option string) : option string :=
  match s with Some (String _ _) => s | _ => None end.

(* src/src/auth/mfa.js:46-48 isMfaRequired *)
Definition isMfaRequired (u : user) : bool :=
  mfaEnabled (m_mfa u) && bool_decide (is_Some (present (mfaSecret (m_mfa u)))).

(* src/src/auth/mfa.js:154-156 isMfaLocked *)
Definition isMfaLocked (u : user) (nowMs : Z) : bool :=
  match mfaLockedUntil (m_mfa u) with Some t => nowMs <? t | None => false end.

(* src/src/auth/mfa.js:159-162 lastLockStartedAt *)
Definition lastLockStartedAt (u : user) : option Z := (λ t, t - MFA_LOCKOUT_MS) <$> mfaLockedUntil (m_mfa u).

(** ** Recovery codes *)

Definition alnum (c : Ascii.ascii) : bool :=
  let n := Ascii.N_of_ascii c in (((97 <=? n) && (n <=? 122)) || ((48 <=? n) && (n <=? 57)))%N.

(* src/src/auth/mfa.js:70-72 normalizeRecoveryCode *)
Definition normalizeRecoveryCode (code : string) : string := remove (λ c, negb (alnum c)) (toLowerCase code).

Definition RECOVERY_ALPHABET : string := "abcdefghjkmnpqrstuvwxyz23456789".
Definition RECOVERY_GROUPS : nat := 4.
Definition RECOVERY_GROUP_LENGTH : nat := 4.

(** [draw i] is the [i]-th [crypto.randomInt(RECOVERY_ALPHABET.length)]. *)
Definition recovery_char (n : nat) : Ascii.ascii := default zero_char (String.get n RECOVERY_ALPHABET).
Fixpoint recovery_group (len : nat) (draw : nat → nat) (i : nat) : string :=
  match len with O => "" | S len => String (recovery_char (draw i)) (recovery_group len draw (S i)) end.
Definition recovery_code (draw : nat → nat) (i : nat) : string :=
  String.concat "-" ((λ g, recovery_group RECOVERY_GROUP_LENGTH draw (i + g * RECOVERY_GROUP_LENGTH)) <$> seq 0 RECOVERY_GROUPS).

Section factor.
(** SHA-256 in hexadecimal, HMAC on bytes, the vault's [decrypt] (which may
    throw) and [encrypt], bcrypt's comparison, base64url JSON and the keyed
    digest of challenges. *)
Context (sha256 : string → string) (hmac : string → list Z → list Z → list Z).
Context (decrypt : string → option string) (encrypt : string → string) (same_password : string → string → bool).
Context (encode64 : json → string) (decode64 : string → option json) (hmac_challenge : string → option string).

(* src/src/auth/mfa.js:74-76 hashRecoveryCode *)
Definition hashRecoveryCode (code : string) : string := sha256 ("ashbi-mfa-recovery:" +:+ normalizeRecoveryCode code).

(* src/src/auth/mfa.js:78-92 generateRecoveryCodes *)
Definition generateRecoveryCodes (draw : nat → nat) (count : nat) : list string * list string :=
  let codes := (λ i, recovery_code draw (i * RECOVERY_GROUPS * RECOVERY_GROUP_LENGTH)) <$> seq 0 count in
  (codes, hashRecoveryCode <$> codes).

(* src/src/auth/mfa.js:95-104 findRecoveryCodeHash *)
Definition findRecoveryCodeHash (storedHashes : list string) (code : string) : option string :=
  let normalized := normalizeRecoveryCode code in
  if negb (Nat.eqb (String.length normalized) (RECOVERY_GROUPS * RECOVERY_GROUP_LENGTH)) then None
  else head (List.filter (λ stored, safeEqual sha256 stored (hashRecoveryCode normalized)) storedHashes).

(** ** The challenge between password and code *)

Definition challenge_claims (uid : string) (version nowMs ttlSeconds : Z) (nonce : string) : json :=
  let iat := seconds nowMs in
  JObj [("typ", JStr "mfa_challenge"); ("uid", JStr uid); ("sv", num version); ("iat", num iat);
        ("exp", num (iat + ttlSeconds)); ("nonce", JStr nonce)].

(** No token when there is no signing key (the code throws). *)
(* src/src/auth/mfa.js:119-131 createMfaChallenge *)
Definition createMfaChallenge (uid : string) (version nowMs ttlSeconds : Z) (nonce : string) : option string :=
  let encoded := encode64 (challenge_claims uid version nowMs ttlSeconds nonce) in
  signature ← hmac_challenge encoded; Some ("mfa." +:+ encoded +:+ "." +:+ signature).

(* src/src/auth/mfa.js:134-149 verifyMfaChallenge *)
Definition verifyMfaChallenge (token : string) (nowMs : Z) : result unit (option json) :=
  if 1024 <? Z.of_nat (String.length token) then Ok None
  else match split_dots token with
  | ["mfa"; encoded; signature] =>
      match hmac_challenge encoded with
      | None => Err tt
      | Some expected =>
          Ok (if safeEqual sha256 signature expected then
                payload ← decode64 encoded;
                match jget "typ" payload, jget "uid" payload, js_integer (jget "exp" payload) with
                | Some (JStr "mfa_challenge"), Some (JStr _), Some exp => if exp <=? seconds nowMs then None else Some payload
                | _, _, _ => None
                end
              else None)
      end
  | _ => Ok None
  end.

(* src/src/auth/mfa.js:168-171 isChallengeRevokedByLockout *)
Definition isChallengeRevokedByLockout (u : user) (challenge : json) : bool :=
  match lastLockStartedAt u, js_integer (jget "iat" challenge) with
  | Some lockStart, Some iat => iat * 1000 <=? lockStart
  | _, _ => false
  end.

(** ** Statements *)

Definition set_mfa (u : user) (m : mfa) (version : Z) : user :=
  User (m_role u) (m_org u) (m_active u) (m_password u) version m.

(** The row [u] of [uid] becomes [u'], as [es] note. *)
Definition write (uid : string) (u' : user) (es : list event) (d : db) : db :=
  Db (<[uid := u']> (users d)) ((pair uid <$> es) ++ trail d).

Definition find (uid : string) (d : db) : option user * db := (users d !! uid, d).

(** [OR: [{ mfaLockedUntil: null }, { mfaLockedUntil: { lte: now } }]] *)
Definition unlocked (nowMs : Z) (u : user) : bool := negb (isMfaLocked u nowMs).

Definition with_attempts (m : mfa) (failed : Z) (locked : option Z) : mfa :=
  Mfa (mfaEnabled m) (mfaSecret m) (mfaEnabledAt m) (mfaLastUsedStep m) (mfaRecoveryCodes m) failed locked.
Definition with_step (m : mfa) (step : Z) : mfa :=
  Mfa (mfaEnabled m) (mfaSecret m) (mfaEnabledAt m) (Some step) (mfaRecoveryCodes m) (mfaFailedAttempts m) (mfaLockedUntil m).
Definition with_codes (m : mfa) (codes : list string) : mfa :=
  Mfa (mfaEnabled m) (mfaSecret m) (mfaEnabledAt m) (mfaLastUsedStep m) codes (mfaFailedAttempts m) (mfaLockedUntil m).

(* src/src/auth/mfa.js:188-200 reserveAttempt *)
Definition reserveAttempt (rid : nat) (uid : string) (nowMs : Z) (d : db) : option Z * db :=
  match users d !! uid with
  | Some u =>
      if unlocked nowMs u then
        let attempt := mfaFailedAttempts (m_mfa u) + 1 in
        (Some attempt, write uid (set_mfa u (with_attempts (m_mfa u) attempt (mfaLockedUntil (m_mfa u))) (m_version u))
                         [Reserved rid attempt nowMs] d)
      else (None, d)
  | None => (None, d)
  end.

(* src/src/auth/mfa.js:202-208 lockAccount *)
Definition lockAccount (uid : string) (nowMs : Z) (d : db) : unit * db :=
  match users d !! uid with
  | Some u =>
      if unlocked nowMs u
      then (tt, write uid (set_mfa u (with_attempts (m_mfa u) 0 (Some (nowMs + MFA_LOCKOUT_MS))) (m_version u)) [Locked nowMs] d)
      else (tt, d)
  | None => (tt, d)
  end.

(** Claiming a time step: how many rows the conditional update wrote. *)
(* src/src/auth/mfa.js:219-225 claimTotpCode *)
Definition claim_step (rid : nat) (uid : string) (step : Z) (d : db) : nat * db :=
  match users d !! uid with
  | Some u =>
      if match mfaLastUsedStep (m_mfa u) with Some last => last <? step | None => true end
      then (1%nat, write uid (set_mfa u (with_step (m_mfa u) step) (m_version u)) [Accepted rid step] d)
      else (0%nat, d)
  | None => (0%nat, d)
  end.

(** Consuming a recovery code, for the session version that was read. *)
Definition consume_code (rid : nat) (uid : string) (version : Z) (hash : string) (remaining : list string) (d : db) : nat * db :=
  match users d !! uid with
  | Some u =>
      if (m_version u =? version) && mem hash (mfaRecoveryCodes (m_mfa u))
      then (1%nat, write uid (set_mfa u (with_attempts (with_codes (m_mfa u) remaining) 0 (mfaLockedUntil (m_mfa u))) (m_version u + 1))
                     [Cleared rid; Consumed rid hash] d)
      else (0%nat, d)
  | None => (0%nat, d)
  end.

(** [user.update]: an error when the row is gone. *)
Definition update (uid : string) (f : user → user) (es : list event) (d : db) : option user * db :=
  match users d !! uid with
  | Some u => (Some (f u), write uid (f u) es d)
  | None => (None, d)
  end.

(** ** Verification *)

Inductive factor :=
  | FactorOk (method : string) (recoveryCodesRemaining : nat) (sessionVersion : Z)
  | FactorFail (reason : string)
  | FactorThrew.
Inductive claim := ClaimOk | ClaimInvalid | ClaimReplayed | ClaimThrew.

(* src/src/auth/mfa.js:215-227 claimTotpCode *)
Definition claimTotpCode (rid : nat) (uid : string) (encryptedSecret : option string) (code : string) (nowMs : Z) : prog db claim :=
  match present encryptedSecret with
  | None => mret ClaimInvalid
  | Some ciphertext =>
      match secret ← decrypt ciphertext; verifyTotp hmac (Text secret) code nowMs 1 TOTP_DEFAULTS with
      | None => mret ClaimThrew
      | Some None => mret ClaimInvalid
      | Some (Some step) =>
          count ← await (claim_step rid uid step);
          mret (if (count =? 1)%nat then ClaimOk else ClaimReplayed)
      end
  end.

(** [Some attempt]: the code may be evaluated, as that attempt. *)
(* src/src/auth/mfa.js:243-261 reserveCodeAttempt *)
Definition reserveCodeAttempt (rid : nat) (uid : string) (nowMs : Z) : prog db (option Z) :=
  reserved ← await (reserveAttempt rid uid nowMs);
  match reserved with
  | None => mret None
  | Some attempt =>
      if MFA_MAX_FAILED_ATTEMPTS <? attempt then _ ← await (lockAccount uid nowMs); mret None
      else mret (Some attempt)
  end.

(** The [fail] of a reservation. *)
Definition fail_attempt (uid : string) (attempt nowMs : Z) (reason : string) : prog db factor :=
  if MFA_MAX_FAILED_ATTEMPTS <=? attempt then _ ← await (lockAccount uid nowMs); mret (FactorFail "locked")
  else mret (FactorFail reason).

Definition clear_attempts (u : user) : user :=
  set_mfa u (with_attempts (m_mfa u) 0 (mfaLockedUntil (m_mfa u))) (m_version u).

(** [u] is the account as the caller read it. *)
(* src/src/auth/mfa.js:263-307 verifySecondFactor *)
Definition verifySecondFactor (rid : nat) (uid : string) (u : user) (code recoveryCode : option string) (nowMs : Z) : prog db factor :=
  reservation ← reserveCodeAttempt rid uid nowMs;
  match reservation with
  | None => mret (FactorFail "locked")
  | Some attempt =>
      match present recoveryCode, present code with
      | Some recoveryCode, _ =>
          match findRecoveryCodeHash (mfaRecoveryCodes (m_mfa u)) recoveryCode with
          | Some hash =>
              let remaining := List.filter (λ stored, negb (bool_decide (stored = hash))) (mfaRecoveryCodes (m_mfa u)) in
              count ← await (consume_code rid uid (m_version u) hash remaining);
              if (count =? 1)%nat then mret (FactorOk "recovery_code" (length remaining) (m_version u + 1))
              else fail_attempt uid attempt nowMs "invalid"
          | None => fail_attempt uid attempt nowMs "invalid"
          end
      | None, Some code =>
          result ← claimTotpCode rid uid (mfaSecret (m_mfa u)) code nowMs;
          match result with
          | ClaimOk =>
              cleared ← await (update uid clear_attempts [Cleared rid]);
              mret (match cleared with
                    | Some _ => FactorOk "totp" (length (mfaRecoveryCodes (m_mfa u))) (m_version u)
                    | None => FactorThrew
                    end)
          | ClaimInvalid => fail_attempt uid attempt nowMs "invalid"
          | ClaimReplayed => fail_attempt uid attempt nowMs "replayed"
          | ClaimThrew => mret FactorThrew
          end
      | None, None => fail_attempt uid attempt nowMs "invalid"
      end
  end.

(** ** The handlers

    [clock i] is the [i]-th reading of the clock in the request. *)

Inductive answer :=
  | Reply (status : Z)                             (** an error reply *)
  | Enrolling (secret : list Z)
  | Enabled (codes : list string) (version : Z)    (** the session is reissued *)
  | Disabled (version : Z)
  | SignedIn (uid method : string) (remaining : nat) (version : Z)
  | WasReset (uid : string).

Definition secondFactorFailure (reason : string) (invalidStatus : Z) : answer :=
  Reply (if bool_decide (reason = "locked") then 429 else invalidStatus).

(* src/src/routes/mfa.routes.js:151-162 loadStaffUser *)
Definition loadStaffUser (uid : string) : prog db (result Z user) :=
  found ← await (find uid);
  mret (match found with
        | Some u => if negb (m_active u) then Err 401 else if negb (isMfaEligible u) then Err 403 else Ok u
        | None => Err 401
        end).

(** The two hundred statuses a missing row would turn into: a thrown error. *)
Definition thrown : answer := Reply 500.

Definition enroll_row (ciphertext : string) (u : user) : user :=
  let m := m_mfa u in
  set_mfa u (Mfa (mfaEnabled m) (Some ciphertext) (mfaEnabledAt m) None [] (mfaFailedAttempts m) (mfaLockedUntil m)) (m_version u).

(** [bytes] are the secret's random bytes. *)
(* src/src/routes/mfa.routes.js:185-207 mfaRoutes *)
Definition enroll (uid password : string) (bytes : list Z) : prog db answer :=
  loaded ← loadStaffUser uid;
  match loaded with
  | Err status => mret (Reply status)
  | Ok u =>
      if mfaEnabled (m_mfa u) then mret (Reply 409)
      else if negb (same_password password (m_password u)) then mret (Reply 400)
      else
        written ← await (update uid (enroll_row (encrypt (base32Encode bytes))) [Issued []; Renewed]);
        mret (match written with Some _ => Enrolling bytes | None => thrown end)
  end.

Definition enable_row (now : Z) (hashes : list string) (u : user) : user :=
  let m := m_mfa u in
  set_mfa u (Mfa true (mfaSecret m) (Some now) (mfaLastUsedStep m) hashes 0 None) (m_version u + 1).

(* src/src/routes/mfa.routes.js:210-248 mfaRoutes *)
Definition confirm (rid : nat) (uid code : string) (draw : nat → nat) (clock : nat → Z) : prog db answer :=
  loaded ← loadStaffUser uid;
  match loaded with
  | Err status => mret (Reply status)
  | Ok u =>
      if mfaEnabled (m_mfa u) then mret (Reply 409)
      else if negb (bool_decide (is_Some (present (mfaSecret (m_mfa u))))) then mret (Reply 400)
      else
        reservation ← reserveCodeAttempt rid uid (clock 0%nat);
        match reservation with
        | None => mret (Reply 429)
        | Some attempt =>
            claimed ← claimTotpCode rid uid (mfaSecret (m_mfa u)) code (clock 1%nat);
            match claimed with
            | ClaimOk =>
                let '(codes, hashes) := generateRecoveryCodes draw RECOVERY_CODE_COUNT in
                updated ← await (update uid (enable_row (clock 2%nat) hashes) [Unlocked; Issued hashes]);
                mret (match updated with Some u' => Enabled codes (m_version u') | None => thrown end)
            | ClaimThrew => mret thrown
            | _ =>
                failure ← fail_attempt uid attempt (clock 0%nat) "invalid";
                mret (match failure with FactorFail "locked" => Reply 429 | _ => Reply 400 end)
            end
        end
  end.

(** Disabling and an administrator's reset write the same columns. *)
Definition disable_row (u : user) : user := set_mfa u no_mfa (m_version u + 1).
Definition dropped : list event := [Unlocked; Issued []; Renewed].

(* src/src/routes/mfa.routes.js:251-290 mfaRoutes *)
Definition disable (rid : nat) (uid password : string) (code recoveryCode : option string) (clock : nat → Z) : prog db answer :=
  loaded ← loadStaffUser uid;
  match loaded with
  | Err status => mret (Reply status)
  | Ok u =>
      if negb (mfaEnabled (m_mfa u)) then mret (Reply 400)
      else if negb (same_password password (m_password u)) then mret (Reply 400)
      else
        verified ← verifySecondFactor rid uid u code recoveryCode (clock 0%nat);
        match verified with
        | FactorFail reason => mret (secondFactorFailure reason 400)
        | FactorThrew => mret thrown
        | FactorOk _ _ _ =>
            updated ← await (update uid disable_row dropped);
            mret (match updated with Some u' => Disabled (m_version u') | None => thrown end)
        end
  end.

(** Whether the challenge still stands for the account. *)
Definition challenge_stands (u : user) (challenge : json) : bool :=
  m_active u && bool_decide (js_integer (jget "sv" challenge) = Some (m_version u)) && isMfaRequired u &&
  negb (isChallengeRevokedByLockout u challenge).

(* src/src/routes/mfa.routes.js:359-400 mfaRoutes *)
Definition loginMfa (rid : nat) (challengeToken : string) (code recoveryCode : option string) (clock : nat → Z) : prog db answer :=
  match verifyMfaChallenge challengeToken (clock 0%nat) with
  | Err _ => mret thrown
  | Ok None => mret (Reply 401)
  | Ok (Some challenge) =>
      match jget "uid" challenge with
      | Some (JStr uid) =>
          found ← await (find uid);
          match found with
          | Some u =>
              if challenge_stands u challenge then
                verified ← verifySecondFactor rid uid u code recoveryCode (clock 1%nat);
                mret (match verified with
                      | FactorFail reason => secondFactorFailure reason 401
                      | FactorThrew => thrown
                      | FactorOk method remaining version => SignedIn uid method remaining version
                      end)
              else mret (Reply 401)
          | None => mret (Reply 401)
          end
      | _ => mret (Reply 401)
      end
  end.

(** The proof of an administrator's own second factor: [None] when it is not
    needed or was given. *)
Definition admin_factor (rid : nat) (adminId : string) (admin : user) (code recoveryCode : option string) (now : Z) : prog db (option answer) :=
  if negb (isMfaRequired admin) then mret None
  else match present code, present recoveryCode with
       | None, None => mret (Some (Reply 400))
       | _, _ =>
           verified ← verifySecondFactor rid adminId admin code recoveryCode now;
           mret (match verified with
                 | FactorFail reason => Some (secondFactorFailure reason 400)
                 | FactorThrew => Some thrown
                 | FactorOk _ _ _ => None
                 end)
       end.

(* src/src/routes/mfa.routes.js:405-464 mfaRoutes *)
Definition adminReset (rid : nat) (adminId userId password : string) (code recoveryCode : option string) (clock : nat → Z) : prog db answer :=
  found ← await (find adminId);
  match found with
  | Some admin =>
      if negb (m_active admin) then mret (Reply 401)
      else if negb (bool_decide (m_role admin = "ADMIN")) then mret (Reply 403)
      else if bool_decide (userId = adminId) then mret (Reply 400)
      else if negb (same_password password (m_password admin)) then mret (Reply 400)
      else
        refused ← admin_factor rid adminId admin code recoveryCode (clock 0%nat);
        match refused with
        | Some reply => mret reply
        | None =>
            target ← await (find userId);
            match target, present (m_org admin) with
            | Some target, Some org =>
                if bool_decide (m_org target = Some org) then
                  updated ← await (update userId disable_row dropped);
                  mret (match updated with Some _ => WasReset userId | None => thrown end)
                else mret (Reply 404)
            | _, _ => mret (Reply 404)
            end
        end
  | None => mret (Reply 401)
  end.

(** ** The requests *)

Inductive request :=
  | REnroll (uid password : string) (bytes : list Z)
  | RConfirm (uid code : string) (draw : nat → nat)
  | RDisable (uid password : string) (code recoveryCode : option string)
  | RLogin (challengeToken : string) (code recoveryCode : option string)
  | RReset (adminId userId password : string) (code recoveryCode : option string).

Definition handle (rid : nat) (r : request * (nat → Z)) : prog db answer :=
  match r.1 with
  | REnroll uid password bytes => enroll uid password bytes
  | RConfirm uid code draw => confirm rid uid code draw r.2
  | RDisable uid password code recoveryCode => disable rid uid password code recoveryCode r.2
  | RLogin token code recoveryCode => loginMfa rid token code recoveryCode r.2
  | RReset adminId userId password code recoveryCode => adminReset rid adminId userId password code recoveryCode r.2
  end.

(** ** What one statement does to a row *)

Inductive row_step (u : user) (t : list event) : list event → user → Prop :=
  | row_reserve rid now :
      unlocked now u = true →
      row_step u t [Reserved rid (mfaFailedAttempts (m_mfa u) + 1) now]
        (set_mfa u (with_attempts (m_mfa u) (mfaFailedAttempts (m_mfa u) + 1) (mfaLockedUntil (m_mfa u))) (m_version u))
  | row_lock now :
      unlocked now u = true →
      row_step u t [Locked now] (set_mfa u (with_attempts (m_mfa u) 0 (Some (now + MFA_LOCKOUT_MS))) (m_version u))
  | row_clear rid step : Accepted rid step ∈ t → row_step u t [Cleared rid] (clear_attempts u)
  | row_accept rid step :
      match mfaLastUsedStep (m_mfa u) with Some last => last < step | None => True end →
      row_step u t [Accepted rid step] (set_mfa u (with_step (m_mfa u) step) (m_version u))
  | row_consume rid hash :
      hash ∈ mfaRecoveryCodes (m_mfa u) →
      row_step u t [Cleared rid; Consumed rid hash]
        (set_mfa u (with_attempts (with_codes (m_mfa u)
           (List.filter (λ stored, negb (bool_decide (stored = hash))) (mfaRecoveryCodes (m_mfa u)))) 0 (mfaLockedUntil (m_mfa u)))
           (m_version u + 1))
  | row_enable now hashes : row_step u t [Unlocked; Issued hashes] (enable_row now hashes u)
  | row_drop : row_step u t dropped (disable_row u)
  | row_enroll ciphertext : row_step u t [Issued []; Renewed] (enroll_row ciphertext u).

(** The events of one account. *)
Fixpoint of_account (uid : string) (l : list (string * event)) : list event :=
  match l with
  | [] => []
  | (k, e) :: l => if bool_decide (k = uid) then e :: of_account uid l else of_account uid l
  end.

Definition moves (d d' : db) : Prop :=
  d' = d ∨ ∃ uid u u' es, users d !! uid = Some u ∧
    row_step u (of_account uid (trail d)) es u' ∧ d' = write uid u' es d.

Lemma of_account_write uid u' es d k :
  of_account k (trail (write uid u' es d)) = (if bool_decide (uid = k) then es else []) ++ of_account k (trail d).
Proof.
  unfold write. cbn [trail]. induction es as [|e es IH]; [by destruct (bool_decide _)|].
  cbn [fmap list_fmap app of_account]. rewrite IH. by destruct (bool_decide (uid = k)).
Qed.

(** ** Reading the trail *)

(** Codes evaluated since the count was last zero. *)
Fixpoint reserved_since (t : list event) : Z :=
  match t with
  | [] => 0
  | Reserved _ _ _ :: t => reserved_since t + 1
  | Locked _ :: _ | Cleared _ :: _ | Unlocked :: _ => 0
  | _ :: t => reserved_since t
  end.
(** The end of the last lock, unless it was lifted. *)
Fixpoint lock_end (t : list event) : option Z :=
  match t with
  | [] => None
  | Locked now :: _ => Some (now + MFA_LOCKOUT_MS)
  | Unlocked :: _ => None
  | _ :: t => lock_end t
  end.
(** Steps claimed since the secret was last replaced or dropped. *)
Fixpoint accepted_since (t : list event) : list Z :=
  match t with
  | [] => []
  | Accepted _ step :: t => step :: accepted_since t
  | Renewed :: _ => []
  | _ :: t => accepted_since t
  end.
(** The recovery codes that may still be used. *)
Fixpoint usable_codes (t : list event) : list string :=
  match t with
  | [] => []
  | Issued hashes :: _ => hashes
  | Consumed _ hash :: t => List.filter (λ stored, negb (bool_decide (stored = hash))) (usable_codes t)
  | _ :: t => usable_codes t
  end.

(** What the trail of an account promises at every event. *)
Definition event_ok (e : event) (before : list event) : Prop :=
  match e with
  | Reserved _ attempt now =>
      attempt = reserved_since before + 1 ∧ match lock_end before with Some t => t ≤ now | None => True end
  | Accepted _ step => ∀ earlier, earlier ∈ accepted_since before → earlier < step
  | Consumed _ hash => hash ∈ usable_codes before
  | Cleared rid => (∃ step, Accepted rid step ∈ before) ∨ (∃ hash, Consumed rid hash ∈ before)
  | _ => True
  end.
Fixpoint trail_ok (t : list event) : Prop :=
  match t with [] => True | e :: t => event_ok e t ∧ trail_ok t end.

(** The row is what the trail says. *)
Definition row_matches (u : user) (t : list event) : Prop :=
  mfaFailedAttempts (m_mfa u) = reserved_since t ∧ mfaLockedUntil (m_mfa u) = lock_end t ∧
  mfaRecoveryCodes (m_mfa u) = usable_codes t ∧
  match mfaLastUsedStep (m_mfa u) with
  | Some last => ∀ step, step ∈ accepted_since t → step ≤ last
  | None => accepted_since t = []
  end.

Definition consistent (d : db) : Prop := ∀ uid,
  trail_ok (of_account uid (trail d)) ∧ ∀ u, users d !! uid = Some u → row_matches u (of_account uid (trail d)).

Lemma unlocked_end now u t : unlocked now u = true → mfaLockedUntil (m_mfa u) = lock_end t →
  match lock_end t with Some t => t ≤ now | None => True end.
Proof. unfold unlocked, isMfaLocked. intros H <-. destruct (mfaLockedUntil _); [|done]. by bool_simplify. Qed.

Lemma row_step_ok u es u' t :
  row_step u t es u' → trail_ok t → row_matches u t → trail_ok (es ++ t) ∧ row_matches u' (es ++ t).
Proof.
  intros Hs Ht (Hf & Hl & Hc & Ha). destruct Hs; cbn.
  - split; [split; [split; [lia|by eapply unlocked_end]|done]|]. split_and!; [cbn; lia|done..].
  - split; [done|]. split_and!; done.
  - split; [split; [left; eauto|done]|]. split_and!; done.
  - assert (∀ earlier, earlier ∈ accepted_since t → earlier < step) as Hlt.
    { intros earlier Hin. destruct (mfaLastUsedStep (m_mfa u)) as [last|]; [specialize (Ha _ Hin); lia|]. rewrite Ha in Hin. by apply not_elem_of_nil in Hin. }
    split; [done|]. split_and!; [done..|]. cbn. intros x [->|Hx]%elem_of_cons; [done|]. specialize (Hlt _ Hx). lia.
  - split; [split; [right; exists hash; left|split; [by rewrite <- Hc|done]]|]. split_and!; [done|done|cbn; by rewrite Hc|done].
  - split; [done|]. split_and!; done.
  - split; [done|]. split_and!; done.
  - split; [done|]. split_and!; done.
Qed.

Lemma consistent_moves d d' : consistent d → moves d d' → consistent d'.
Proof.
  intros Hd [->|(uid & u & u' & es & Hu & Hs & ->)]; [done|]. intros k. destruct (Hd k) as [Ht Hr].
  rewrite of_account_write. destruct (decide (uid = k)) as [<-|Hne].
  - rewrite bool_decide_refl. destruct (row_step_ok u es u' _ Hs Ht (Hr u Hu)) as [? ?]. split; [done|].
    intros u2. unfold write. cbn [users]. rewrite lookup_insert_eq. by intros [= <-].
  - rewrite bool_decide_neq by done. split; [done|]. intros u2. unfold write. cbn [users]. rewrite lookup_insert_ne by done. apply Hr.
Qed.

Lemma moves_in d d' uid e : moves d d' → e ∈ of_account uid (trail d) → e ∈ of_account uid (trail d').
Proof.
  intros [->|(k & u & u' & es & _ & _ & ->)] He; [done|]. rewrite of_account_write. apply elem_of_app. by right.
Qed.
Lemma rtc_in d d' uid e : rtc moves d d' → e ∈ of_account uid (trail d) → e ∈ of_account uid (trail d').
Proof. induction 1; eauto using moves_in. Qed.


(** ** What a request knows of the row it read *)

(** [u] was the account's row in an earlier state of the database. *)
Definition was (uid : string) (u : user) (d : db) : Prop := ∃ d0, users d0 !! uid = Some u ∧ rtc moves d0 d.

Lemma was_later uid u d d' : was uid u d → rtc moves d d' → was uid u d'.
Proof. intros (d0 & Hu & H) H'. exists d0. split; [done|]. by etransitivity. Qed.

(** Since then the session version grew, or the codes are the same or gone. *)
Definition kept_codes (u v : user) : Prop :=
  m_version u < m_version v ∨
  m_version u = m_version v ∧ (mfaRecoveryCodes (m_mfa v) = mfaRecoveryCodes (m_mfa u) ∨ mfaRecoveryCodes (m_mfa v) = []).

Lemma row_step_kept u v t es v' : kept_codes u v → row_step v t es v' → kept_codes u v'.
Proof. intros H Hs. unfold kept_codes in *. destruct Hs; cbn; destruct H as [?|[? [?|?]]]; (by left; lia) || (by right; auto). Qed.

Lemma was_kept uid u d : was uid u d → ∃ v, users d !! uid = Some v ∧ kept_codes u v.
Proof.
  intros (d0 & Hu & H). assert (∃ v, users d0 !! uid = Some v ∧ kept_codes u v) as Hv.
  { exists u. split; [done|]. right. auto. }
  clear Hu. induction H as [d|d0 d1 d2 H _ IH]; [done|]. apply IH. destruct Hv as (v & Hv & Hk).
  destruct H as [->|(k & w & w' & es & Hw & Hs & ->)]; [eauto|]. unfold write. cbn [users].
  destruct (decide (k = uid)) as [->|Hne].
  - rewrite lookup_insert_eq. exists w'. split; [done|]. simplify_eq. by eapply row_step_kept.
  - rewrite lookup_insert_ne by done. eauto.
Qed.

(** ** The statements keep to [moves] *)

Lemma write_moves uid u es u' d : users d !! uid = Some u → row_step u (of_account uid (trail d)) es u' → moves d (write uid u' es d).
Proof. intros Hu Hs. right. eauto 10. Qed.
Lemma stay d : moves d d. Proof. by left. Qed.
Lemma noted uid u' es e d : e ∈ es → e ∈ of_account uid (trail (write uid u' es d)).
Proof. intros He. rewrite of_account_write, bool_decide_refl. apply elem_of_app. by left. Qed.
Ltac untouched := first [by left|split; [by left|done]].

Lemma reserve_moves rid uid now d : moves d (reserveAttempt rid uid now d).2 ∧
  ∀ n, (reserveAttempt rid uid now d).1 = Some n → Reserved rid n now ∈ of_account uid (trail (reserveAttempt rid uid now d).2).
Proof.
  unfold reserveAttempt. destruct (users d !! uid) as [u|] eqn:Hu; [|untouched].
  destruct (unlocked now u) eqn:E; [|untouched]. split; [by eapply write_moves, row_reserve|].
  intros n [= <-]. apply noted. left.
Qed.
Lemma lock_moves uid now d : moves d (lockAccount uid now d).2.
Proof.
  unfold lockAccount. destruct (users d !! uid) as [u|] eqn:Hu; [|untouched].
  destruct (unlocked now u) eqn:E; [|untouched]. by eapply write_moves, row_lock.
Qed.
Lemma claim_moves rid uid step d : moves d (claim_step rid uid step d).2 ∧
  ((claim_step rid uid step d).1 = 1%nat → Accepted rid step ∈ of_account uid (trail (claim_step rid uid step d).2)).
Proof.
  unfold claim_step. destruct (users d !! uid) as [u|] eqn:Hu; [|untouched].
  destruct (match mfaLastUsedStep (m_mfa u) with Some last => last <? step | None => true end) eqn:E; [|untouched].
  split; [|intros _; apply noted; left]. eapply write_moves; [done|]. apply row_accept.
  destruct (mfaLastUsedStep (m_mfa u)); [by bool_simplify|done].
Qed.
Lemma update_moves uid f es d : (∀ u, row_step u (of_account uid (trail d)) es (f u)) → moves d (update uid f es d).2.
Proof. intros Hf. unfold update. destruct (users d !! uid) as [u|] eqn:Hu; [|untouched]. by eapply write_moves. Qed.

(** Only for the codes the request read: no used code comes back. *)
Lemma consume_moves rid uid u hash d :
  was uid u d →
  let remaining := List.filter (λ stored, negb (bool_decide (stored = hash))) (mfaRecoveryCodes (m_mfa u)) in
  moves d (consume_code rid uid (m_version u) hash remaining d).2 ∧
  ((consume_code rid uid (m_version u) hash remaining d).1 = 1%nat →
    Consumed rid hash ∈ of_account uid (trail (consume_code rid uid (m_version u) hash remaining d).2)).
Proof.
  intros Hw remaining. destruct (was_kept _ _ _ Hw) as (v & Hv & Hk). unfold consume_code. rewrite Hv.
  destruct ((m_version v =? m_version u) && mem hash (mfaRecoveryCodes (m_mfa v))) eqn:E; [|untouched].
  split; [|intros _; apply noted; right; left]. apply andb_true_iff' in E as [E1%Z.eqb_eq E2%bool_decide_eq_true].
  eapply write_moves; [done|].
  destruct Hk as [Hlt|[Heq [Hc|Hc]]]; [lia| |rewrite Hc in E2; by apply not_elem_of_nil in E2].
  unfold remaining. rewrite <- Hc. by apply row_consume.
Qed.


(** ** What the requests guarantee *)

Abbreviation safe p d Q := (wp consistent moves p d Q).

(** One awaited statement, then the rest. *)
Lemma safe_await {A B} (stmt : db → B * db) (k : B → prog db A) d Q :
  (∀ d', rtc moves d d' → consistent d' → moves d' (stmt d').2 ∧ safe (k (stmt d').1) (stmt d').2 Q) →
  safe (b ← await stmt; k b) d Q.
Proof. done. Qed.

(** An answer whose claim only grows with the trail. *)
Lemma safe_ret {A} (a : A) d (Q : A → db → Prop) : (∀ d', rtc moves d d' → Q a d') → safe (mret a) d Q.
Proof. intros H d' Hd _. by apply H. Qed.

Lemma reserve_spec rid uid now d :
  safe (reserveCodeAttempt rid uid now) d (λ r d',
    match r with Some n => n ≤ MFA_MAX_FAILED_ATTEMPTS ∧ Reserved rid n now ∈ of_account uid (trail d') | None => True end).
Proof.
  apply safe_await. intros d1 _ _. destruct (reserve_moves rid uid now d1) as [Hm Hn]. split; [done|].
  destruct (reserveAttempt rid uid now d1).1 as [n|]; [|by apply safe_ret].
  destruct (MFA_MAX_FAILED_ATTEMPTS <? n) eqn:E.
  - apply safe_await. intros d2 _ _. split; [apply lock_moves|]. by apply safe_ret.
  - apply safe_ret. intros d2 H2. bool_simplify. split; [done|]. eapply rtc_in; [exact H2|]. by apply Hn.
Qed.

Lemma fail_spec uid n now reason d : safe (fail_attempt uid n now reason) d (λ a _, ∃ why, a = FactorFail why).
Proof.
  unfold fail_attempt. destruct (_ <=? n).
  - apply safe_await. intros d1 _ _. split; [apply lock_moves|]. apply safe_ret. eauto.
  - apply safe_ret. eauto.
Qed.

(** The code was that of a time step, which this request claimed. *)
Definition totp_evidence (rid : nat) (uid : string) (u : user) (code : string) (now : Z) (d : db) : Prop :=
  ∃ ciphertext secret step, mfaSecret (m_mfa u) = Some ciphertext ∧ decrypt ciphertext = Some secret ∧
    verifyTotp hmac (Text secret) code now 1 TOTP_DEFAULTS = Some (Some step) ∧
    Accepted rid step ∈ of_account uid (trail d).

Lemma claim_spec rid uid u code now d :
  safe (claimTotpCode rid uid (mfaSecret (m_mfa u)) code now) d (λ c d', c = ClaimOk → totp_evidence rid uid u code now d').
Proof.
  unfold claimTotpCode. destruct (mfaSecret (m_mfa u)) as [ciphertext|] eqn:Es; [|by apply safe_ret].
  destruct (present (Some ciphertext)) as [c|] eqn:Ep; [|by apply safe_ret].
  assert (c = ciphertext) as -> by (destruct ciphertext; [done|by simplify_eq/=]).
  destruct (decrypt ciphertext) as [secret|] eqn:Ed; cbn [mbind option_bind]; [|by apply safe_ret].
  destruct (verifyTotp hmac (Text secret) code now 1 TOTP_DEFAULTS) as [[step|]|] eqn:Ev; [|by apply safe_ret..].
  apply safe_await. intros d1 _ _. destruct (claim_moves rid uid step d1) as [Hm Ha]. split; [done|].
  apply safe_ret. intros d2 H2. destruct (_ =? 1)%nat eqn:E; [|done]. intros _. apply Nat.eqb_eq in E.
  exists ciphertext, secret, step. split_and!; [done..|]. eapply rtc_in; [exact H2|]. by apply Ha.
Qed.

(** What a verified second factor rests on: one of the five attempts of its
    budget, and a time step or a recovery code that this request used up. *)
Definition evidence (rid : nat) (uid : string) (u : user) (code recoveryCode : option string) (now : Z) (method : string) (d : db) : Prop :=
  (∃ n, n ≤ MFA_MAX_FAILED_ATTEMPTS ∧ Reserved rid n now ∈ of_account uid (trail d)) ∧
  ((method = "totp" ∧ ∃ c, code = Some c ∧ totp_evidence rid uid u c now d) ∨
   (method = "recovery_code" ∧ ∃ c hash, recoveryCode = Some c ∧
      findRecoveryCodeHash (mfaRecoveryCodes (m_mfa u)) c = Some hash ∧ Consumed rid hash ∈ of_account uid (trail d))).

Lemma evidence_later rid uid u code rec now method d d' :
  rtc moves d d' → evidence rid uid u code rec now method d → evidence rid uid u code rec now method d'.
Proof.
  intros H [(n & Hn & Hr) He]. split; [eauto using rtc_in|].
  destruct He as [(-> & c & Hc & ct & s & st & ? & ? & ? & ?)|(-> & c & h & ? & ? & ?)]; [left|right]; (split; [done|]).
  - exists c. split; [done|]. exists ct, s, st. eauto using rtc_in.
  - exists c, h. eauto using rtc_in.
Qed.

Lemma present_some s c : present s = Some c → s = Some c.
Proof. by destruct s as [[|? ?]|]. Qed.

Lemma verify_spec rid uid u code rec now d :
  was uid u d →
  safe (verifySecondFactor rid uid u code rec now) d (λ a d',
    match a with FactorOk method _ _ => evidence rid uid u code rec now method d' | _ => True end).
Proof.
  intros Hw. apply wp_bind. eapply wp_stable_mono; [apply reserve_spec|]. intros reservation d1 H1 Hres.
  assert (was uid u d1) as Hw1 by by eapply was_later.
  destruct reservation as [n|]; [|by apply safe_ret]. destruct Hres as [Hn Hr].
  assert (∀ reason, safe (fail_attempt uid n now reason) d1 (λ a d',
    match a with FactorOk method _ _ => evidence rid uid u code rec now method d' | _ => True end)) as Hfail.
  { intros reason. eapply wp_mono; [|apply fail_spec]. by intros a d' [why ->]. }
  destruct (present rec) as [c|] eqn:Erec; [|destruct (present code) as [c|] eqn:Ecode; [|apply Hfail]].
  - destruct (findRecoveryCodeHash _ c) as [hash|] eqn:Ef; [|apply Hfail].
    apply safe_await. intros d2 H2 _. destruct (consume_moves rid uid u hash d2) as [Hm Hc]; [by eapply was_later|].
    split; [done|]. destruct (_ =? 1)%nat eqn:E.
    + apply safe_ret. intros d3 H3. apply Nat.eqb_eq in E. split.
      * exists n. split; [done|]. eapply rtc_in; [|exact Hr]. etransitivity; [exact H2|]. by eapply rtc_l.
      * right. split; [done|]. exists c, hash. split_and!; [by apply present_some|done|]. eapply rtc_in; [exact H3|by apply Hc].
    + eapply wp_mono; [|apply fail_spec]. by intros a d' [why ->].
  - apply wp_bind. eapply wp_stable_mono; [apply claim_spec|]. intros claimed d2 H2 Hc.
    assert (∀ reason, safe (fail_attempt uid n now reason) d2 (λ a d',
      match a with FactorOk method _ _ => evidence rid uid u code rec now method d' | _ => True end)) as Hfail2.
    { intros reason. eapply wp_stable; [exact H2|apply Hfail]. }
    destruct claimed; [|apply Hfail2..|by apply safe_ret].
    destruct (Hc eq_refl) as (ciphertext & secret & step & H4 & H5 & H6 & Hacc).
    apply safe_await. intros d3 H3 _. assert (moves d3 (update uid clear_attempts [Cleared rid] d3).2) as Hm.
    { apply update_moves. intros v. eapply row_clear. eapply rtc_in; [exact H3|exact Hacc]. }
    split; [done|]. apply safe_ret. intros d4 Hd4. destruct (update _ _ _ d3).1; [|done].
    apply (evidence_later _ _ _ _ _ _ _ d2); [etransitivity; [exact H3|]; by eapply rtc_l|].
    split; [eauto using rtc_in|]. left. split; [done|]. exists c. split; [by apply present_some|].
    by exists ciphertext, secret, step.
Qed.


(** What every answer rests on. *)
Definition answer_ok (rid : nat) (r : request * (nat → Z)) (a : answer) (d : db) : Prop :=
  let clock := r.2 in
  match a with
  | Reply _ | Enrolling _ => True
  | SignedIn uid method _ _ => ∃ token code recoveryCode challenge u,
      r.1 = RLogin token code recoveryCode ∧ verifyMfaChallenge token (clock 0%nat) = Ok (Some challenge) ∧
      jget "uid" challenge = Some (JStr uid) ∧ was uid u d ∧ challenge_stands u challenge = true ∧
      evidence rid uid u code recoveryCode (clock 1%nat) method d
  | Enabled _ _ => ∃ uid code draw u n,
      r.1 = RConfirm uid code draw ∧ was uid u d ∧ isMfaEligible u = true ∧
      n ≤ MFA_MAX_FAILED_ATTEMPTS ∧ Reserved rid n (clock 0%nat) ∈ of_account uid (trail d) ∧
      totp_evidence rid uid u code (clock 1%nat) d
  | Disabled _ => ∃ uid password code recoveryCode u method,
      r.1 = RDisable uid password code recoveryCode ∧ was uid u d ∧ same_password password (m_password u) = true ∧
      evidence rid uid u code recoveryCode (clock 0%nat) method d
  | WasReset userId => ∃ adminId password code recoveryCode admin,
      r.1 = RReset adminId userId password code recoveryCode ∧ was adminId admin d ∧ userId ≠ adminId ∧
      m_role admin = "ADMIN" ∧ m_active admin = true ∧ same_password password (m_password admin) = true ∧
      (isMfaRequired admin = true → ∃ method, evidence rid adminId admin code recoveryCode (clock 0%nat) method d)
  end.

Lemma was_now uid u d d' : users d !! uid = Some u → rtc moves d d' → was uid u d'.
Proof. intros Hu H. by exists d. Qed.

Lemma load_spec uid d :
  safe (loadStaffUser uid) d (λ r d', match r with Ok u => was uid u d' ∧ isMfaEligible u = true | Err _ => True end).
Proof.
  apply safe_await. intros d1 _ _. split; [apply stay|]. cbn [find fst snd]. apply safe_ret. intros d2 H2.
  destruct (users d1 !! uid) as [u|] eqn:Hu; [|done]. destruct (m_active u); [|done]. cbn [negb].
  destruct (isMfaEligible u) eqn:E; [|done]. cbn [negb]. split; [by eapply was_now|done].
Qed.

Lemma enroll_spec rid uid password bytes clock d :
  safe (enroll uid password bytes) d (answer_ok rid (REnroll uid password bytes, clock)).
Proof.
  apply wp_bind. eapply wp_stable_mono; [apply load_spec|]. intros [u|status] d1 _ Hl; [|by apply safe_ret].
  destruct (mfaEnabled _); [by apply safe_ret|]. destruct (same_password _ _); [|by apply safe_ret]. cbn [negb].
  apply safe_await. intros d2 _ _. split; [apply update_moves; intros; apply row_enroll|].
  apply safe_ret. intros d3 _. by destruct (update _ _ _ _).1.
Qed.

Lemma confirm_spec rid uid code draw clock d :
  safe (confirm rid uid code draw clock) d (answer_ok rid (RConfirm uid code draw, clock)).
Proof.
  apply wp_bind. eapply wp_stable_mono; [apply load_spec|]. intros [u|status] d1 _ Hl; [|by apply safe_ret].
  destruct Hl as [Hw He]. destruct (mfaEnabled _); [by apply safe_ret|]. destruct (bool_decide _); [|by apply safe_ret]. cbn [negb].
  apply wp_bind. eapply wp_stable_mono; [apply reserve_spec|]. intros [n|] d2 H2 Hr; [|by apply safe_ret]. destruct Hr as [Hn Hr].
  apply wp_bind. eapply wp_stable_mono; [apply claim_spec|]. intros claimed d3 H3 Hc.
  destruct claimed; [|apply wp_bind; eapply wp_mono; [|apply fail_spec]; intros a d' [why ->]..|by apply safe_ret].
  - destruct (generateRecoveryCodes draw RECOVERY_CODE_COUNT) as [codes hashes].
    apply safe_await. intros d4 H4 _. assert (moves d4 (update uid (enable_row (clock 2%nat) hashes) [Unlocked; Issued hashes] d4).2) as Hm
      by (apply update_moves; intros; apply row_enable).
    split; [done|]. apply safe_ret. intros d5 H5. destruct (update _ _ _ _).1 as [u'|]; [|done].
    assert (rtc moves d3 d5) as H35 by (etransitivity; [exact H4|]; by eapply rtc_l).
    exists uid, code, draw, u, n. destruct (Hc eq_refl) as (ct & secret & step & ? & ? & ? & ?). split_and!; try done.
    + eapply was_later; [exact Hw|]. etransitivity; [exact H2|]. by etransitivity.
    + eapply rtc_in; [|exact Hr]. by etransitivity.
    + exists ct, secret, step. split_and!; try done. by eapply rtc_in.
  - apply safe_ret. intros d5 _. by repeat case_match.
  - apply safe_ret. intros d5 _. by repeat case_match.
Qed.

Lemma disable_spec rid uid password code rec clock d :
  safe (disable rid uid password code rec clock) d (answer_ok rid (RDisable uid password code rec, clock)).
Proof.
  apply wp_bind. eapply wp_stable_mono; [apply load_spec|]. intros [u|status] d1 _ Hl; [|by apply safe_ret].
  destruct Hl as [Hw _]. destruct (mfaEnabled _); [|by apply safe_ret]. cbn [negb].
  destruct (same_password _ _) eqn:Ep; [|by apply safe_ret]. cbn [negb].
  apply wp_bind. eapply wp_stable_mono; [by apply verify_spec|]. intros [method k v|reason|] d2 H2 He; [|by apply safe_ret..].
  apply safe_await. intros d3 H3 _. assert (moves d3 (update uid disable_row dropped d3).2) as Hm by (apply update_moves; intros; apply row_drop).
  split; [done|]. apply safe_ret. intros d4 H4. destruct (update _ _ _ _).1 as [u'|]; [|done].
  assert (rtc moves d2 d4) as H24 by (etransitivity; [exact H3|]; by eapply rtc_l).
  exists uid, password, code, rec, u, method. split_and!; try done; [|by eapply evidence_later].
  eapply was_later; [exact Hw|]. by etransitivity.
Qed.

Lemma login_spec rid token code rec clock d :
  safe (loginMfa rid token code rec clock) d (answer_ok rid (RLogin token code rec, clock)).
Proof.
  unfold loginMfa. destruct (verifyMfaChallenge token (clock 0%nat)) as [[challenge|]|] eqn:Ev; [|by apply safe_ret..].
  destruct (jget "uid" challenge) as [[| | |uid| | ]|] eqn:Eu; try (by apply safe_ret).
  apply safe_await. intros d1 _ _. split; [apply stay|]. cbn [find fst snd].
  destruct (users d1 !! uid) as [u|] eqn:Hu; [|by apply safe_ret].
  destruct (challenge_stands u challenge) eqn:Es; [|by apply safe_ret].
  assert (was uid u d1) as Hw by (eapply was_now; [done|constructor]).
  apply wp_bind. eapply wp_stable_mono; [by apply verify_spec|]. intros [method k v|reason|] d2 H2 He; [|by apply safe_ret..].
  apply safe_ret. intros d3 H3. exists token, code, rec, challenge, u. split_and!; try done; [|by eapply evidence_later].
  eapply was_later; [exact Hw|]. by etransitivity.
Qed.

Lemma admin_spec rid adminId admin code rec now d :
  was adminId admin d →
  safe (admin_factor rid adminId admin code rec now) d (λ r d',
    match r with
    | Some reply => ∃ status, reply = Reply status
    | None => isMfaRequired admin = true → ∃ method, evidence rid adminId admin code rec now method d'
    end).
Proof.
  intros Hw. unfold admin_factor. destruct (isMfaRequired admin); [|by apply safe_ret]. cbn [negb].
  assert (safe (verified ← verifySecondFactor rid adminId admin code rec now;
      mret (match verified with
            | FactorFail reason => Some (secondFactorFailure reason 400)
            | FactorThrew => Some thrown
            | FactorOk _ _ _ => None
            end)) d (λ r d', match r with
    | Some reply => ∃ status, reply = Reply status
    | None => true = true → ∃ method, evidence rid adminId admin code rec now method d'
    end)) as Hv.
  { apply wp_bind. eapply wp_stable_mono; [by apply verify_spec|]. intros [method k v|reason|] d2 _ He; [|apply safe_ret; eauto..].
    apply safe_ret. intros d3 H3 _. exists method. by eapply evidence_later. }
  destruct (present code), (present rec); first [exact Hv|apply safe_ret; eauto].
Qed.

Lemma reset_spec rid adminId userId password code rec clock d :
  safe (adminReset rid adminId userId password code rec clock) d (answer_ok rid (RReset adminId userId password code rec, clock)).
Proof.
  apply safe_await. intros d1 _ _. split; [apply stay|]. cbn [find fst snd].
  destruct (users d1 !! adminId) as [admin|] eqn:Hu; [|by apply safe_ret].
  destruct (m_active admin) eqn:E1; [|by apply safe_ret]. cbn [negb].
  destruct (bool_decide (m_role admin = "ADMIN")) eqn:E2; [|by apply safe_ret]. cbn [negb].
  destruct (bool_decide (userId = adminId)) eqn:E3; [by apply safe_ret|].
  destruct (same_password _ _) eqn:E4; [|by apply safe_ret]. cbn [negb]. bool_simplify.
  assert (was adminId admin d1) as Hw by (eapply was_now; [done|constructor]).
  apply wp_bind. eapply wp_stable_mono; [by apply admin_spec|]. intros [reply|] d2 H2 He.
  { destruct He as [status ->]. by apply safe_ret. }
  apply safe_await. intros d3 H3 _. split; [apply stay|]. cbn [find fst snd].
  destruct (users d3 !! userId) as [target|], (present (m_org admin)) as [org|]; try (by apply safe_ret).
  destruct (bool_decide _); [|by apply safe_ret].
  apply safe_await. intros d4 H4 _. assert (moves d4 (update userId disable_row dropped d4).2) as Hm by (apply update_moves; intros; apply row_drop).
  split; [done|]. apply safe_ret. intros d5 H5. destruct (update _ _ _ _).1 as [u'|]; [|done].
  assert (rtc moves d2 d5) as H25 by (do 2 (etransitivity; [eassumption|]); by eapply rtc_l).
  exists adminId, password, code, rec, admin. split_and!; try done.
  - eapply was_later; [exact Hw|]. by etransitivity.
  - intros Hm'. destruct (He Hm') as [method ?]. exists method. by eapply evidence_later.
Qed.


Lemma handle_spec rid r d : safe (handle rid r) d (answer_ok rid r).
Proof.
  destruct r as [r clock]. destruct r; cbn [handle fst snd].
  - apply enroll_spec.
  - apply confirm_spec.
  - apply disable_spec.
  - apply login_spec.
  - apply reset_spec.
Qed.

(** ** What the trails of a running system show *)

Abbreviation serving d s := (rtc (step handle) (initial d) s).

Lemma serving_spec d s :
  consistent d → serving d s →
  consistent (data s) ∧ ∀ rid r a, (rid, r, Done a) ∈ requests s → answer_ok rid r a (data s).
Proof.
  intros Hd H. destruct (reachable_spec consistent moves handle answer_ok consistent_moves
    (λ n input d' _, handle_spec n input d') d s Hd H) as (? & _ & ?). done.
Qed.

Lemma trail_ok_at t1 e t2 : trail_ok (t1 ++ e :: t2) → event_ok e t2.
Proof. induction t1 as [|e' t1 IH]; intros [H1 H2]; [done|by apply IH]. Qed.
Lemma trail_ok_tail t1 t2 : trail_ok (t1 ++ t2) → trail_ok t2.
Proof. induction t1 as [|e t1 IH]; [done|]. intros [_ H]. by apply IH. Qed.

(** C16 (invariant): a second factor is used once.  Whatever requests run at
    the same time, and wherever they are lost, a time step is claimed only if
    it is later than every step claimed since the secret was replaced, and a
    recovery code is consumed only while it is one of the codes last issued and
    not yet consumed - a stale request cannot bring a used one back.  And every
    answer rests on that: who is signed in held a challenge that stood for the
    account, and this very request claimed the step of their code or consumed
    their recovery code; so did whoever turned the factor off, turned it on, or
    as a protected administrator reset a colleague's. *)
Theorem second_factor_used_once d s :
  consistent d → serving d s →
  (∀ uid t1 rid step t2, of_account uid (trail (data s)) = t1 ++ Accepted rid step :: t2 →
     ∀ earlier, earlier ∈ accepted_since t2 → earlier < step) ∧
  (∀ uid t1 rid hash t2, of_account uid (trail (data s)) = t1 ++ Consumed rid hash :: t2 → hash ∈ usable_codes t2) ∧
  (∀ rid r a, (rid, r, Done a) ∈ requests s → answer_ok rid r a (data s)).
Proof.
  intros Hd H. destruct (serving_spec d s Hd H) as [Hc Ha]. split_and!; [| |done].
  - intros uid t1 rid step t2 Ht. destruct (Hc uid) as [Hok _]. rewrite Ht in Hok. by apply trail_ok_at in Hok.
  - intros uid t1 rid hash t2 Ht. destruct (Hc uid) as [Hok _]. rewrite Ht in Hok. by apply trail_ok_at in Hok.
Qed.

(** An attempt whose code was evaluated. *)
Definition evaluated (e : event) : bool :=
  match e with Reserved _ attempt _ => attempt <=? MFA_MAX_FAILED_ATTEMPTS | _ => false end.
Definition zeroes (e : event) : bool :=
  match e with Locked _ | Cleared _ | Unlocked => true | _ => false end.

Lemma reserved_since_nonneg t : 0 ≤ reserved_since t.
Proof. induction t as [|e t IH]; [done|]. destruct e; cbn; lia. Qed.

Lemma evaluated_bound seg t :
  trail_ok (seg ++ t) → Forall (λ e, zeroes e = false) seg →
  Z.of_nat (length (List.filter evaluated seg)) ≤ Z.min MFA_MAX_FAILED_ATTEMPTS (reserved_since (seg ++ t)).
Proof.
  induction seg as [|e seg IH]; intros Hok Hz.
  - cbn. pose proof (reserved_since_nonneg t). unfold MFA_MAX_FAILED_ATTEMPTS. lia.
  - apply Forall_cons in Hz as [He Hz]. destruct Hok as [He' Hok]. specialize (IH Hok Hz).
    destruct e; cbn in He; try discriminate He; cbn [app List.filter evaluated reserved_since]; try exact IH.
    destruct He' as [-> _]. fold (seg ++ t). destruct (_ <=? _) eqn:E; bool_simplify; cbn [length]; lia.
Qed.


(** ** Challenges *)

(** A challenge is good for its account, its session version
    and five minutes.  What sign-in issues, verification answers until it
    expires; it still stands for the account exactly while that is active, at
    the same session version, protected, and not locked since - so a password
    change, a reset or a lockout ends it. *)
Lemma challenge_window uid version now later nonce token u :
  let challenge := challenge_claims uid version now MFA_CHALLENGE_TTL_SECONDS nonce in
  decode64 (encode64 challenge) = Some challenge → dotless (encode64 challenge) →
  (∀ s t, hmac_challenge s = Some t → dotless t) →
  createMfaChallenge uid version now MFA_CHALLENGE_TTL_SECONDS nonce = Some token →
  (String.length token ≤ 1024)%nat → 0 ≤ now → 0 ≤ version →
  verifyMfaChallenge token later = Ok (if seconds later <? seconds now + 300 then Some challenge else None) ∧
  (challenge_stands u challenge = true ↔
     m_active u = true ∧ m_version u = version ∧ isMfaRequired u = true ∧
     match mfaLockedUntil (m_mfa u) with Some t => t - MFA_LOCKOUT_MS < seconds now * 1000 | None => True end).
Proof.
  clear hmac decrypt encrypt same_password. intros challenge Hdec Hdot Hsig Ht Hlen Hnow Hv. unfold createMfaChallenge in Ht. fold challenge in Ht.
  destruct (hmac_challenge _) as [signature|] eqn:Eh; [|done]. cbn [mbind option_bind] in Ht.
  assert (0 ≤ seconds now) by (unfold seconds; apply Z.div_pos; lia).
  assert (jget "iat" challenge = Some (num (seconds now)) ∧ jget "sv" challenge = Some (num version) ∧
    jget "exp" challenge = Some (num (seconds now + 300)) ∧ jget "typ" challenge = Some (JStr "mfa_challenge") ∧
    jget "uid" challenge = Some (JStr uid)) as (Hiat & Hsv & Hexp & Htyp & Huid) by done.
  clearbody challenge. split.
  - assert (split_dots token = ["mfa"; encode64 challenge; signature]) as Hsplit.
    { injection Ht as <-. change (split_dots ("mfa" +:+ "." +:+ encode64 challenge +:+ "." +:+ signature) = ["mfa"; encode64 challenge; signature]).
      rewrite split_dots_app, split_dots_app, split_dots_dotless by (done || by eapply Hsig). done. }
    unfold verifyMfaChallenge. rewrite (proj2 (Z.ltb_ge _ _)) by lia. rewrite Hsplit, Eh.
    unfold safeEqual. rewrite bool_decide_refl, Hdec. cbn [mbind option_bind]. rewrite Htyp, Huid, Hexp, js_integer_num by lia.
    f_equal. rewrite Z.leb_antisym. by destruct (seconds later <? seconds now + 300).
  - unfold challenge_stands, isChallengeRevokedByLockout, lastLockStartedAt. rewrite Hiat, Hsv, !js_integer_num by lia.
    rewrite !andb_true_iff', bool_decide_eq_true, negb_true_iff'.
    destruct (mfaLockedUntil (m_mfa u)) as [t|]; cbn [fmap option_fmap option_map]; [rewrite Z.leb_gt|]; naive_solver.
Qed.

End factor.

(** ** Two sign-ins with the same code, at the same time *)

Definition demo_hash : string := "ashbi-mfa-recovery:abcdefghjkmnpqrs".
Definition demo_user : user :=
  User "TEAM" (Some "acme") true "pw" 3
    (Mfa true (Some (base32Encode [1; 2; 3; 4; 5; 6; 7; 8; 9; 10])) (Some 0) None [demo_hash] 0 None).
Definition demo_db : db := Db {["ana" := demo_user]} [("ana", Issued [demo_hash])].
Definition demo_claims : json := challenge_claims "ana" 3 50000 MFA_CHALLENGE_TTL_SECONDS "n".
Definition demo_encode (_ : json) : string := "claims".
Definition demo_decode (s : string) : option json := if bool_decide (s = "claims") then Some demo_claims else None.
Definition demo_sign (_ : string) : option string := Some "digest".
Definition demo_login (code recoveryCode : option string) : request * (nat → Z) :=
  (RLogin "mfa.claims.digest" code recoveryCode, λ _, 59000).
Definition demo_handle := handle id demo_hmac Some id String.eqb demo_decode demo_sign.
Definition demo_schedule : list (action (Input := request * (nat → Z))) :=
  [Arrive (demo_login (Some "284 190") None); Arrive (demo_login (Some "284190") None);
   Arrive (demo_login None (Some "ABCD-EFGH-JKMN-PQRS")); Run 0; Run 1; Run 2; Run 1; Run 2; Run 1; Run 2; Run 1; Run 0; Run 0].
Definition demo_state := perform demo_handle demo_schedule (initial demo_db).

Lemma demo_consistent : consistent demo_db.
Proof.
  intros uid. unfold demo_db. cbn [trail of_account]. destruct (decide ("ana" = uid)) as [<-|Hne].
  - rewrite bool_decide_refl. split; [done|]. cbn [users]. rewrite lookup_singleton_eq. intros u [= <-]. done.
  - rewrite bool_decide_neq by done. split; [done|]. cbn [users]. by rewrite lookup_singleton_ne.
Qed.

Lemma demo_requests : requests demo_state =
  [(2%nat, demo_login None (Some "ABCD-EFGH-JKMN-PQRS"), Done (SignedIn "ana" "recovery_code" 0 4));
   (1%nat, demo_login (Some "284190") None, Done (SignedIn "ana" "totp" 1 3));
   (0%nat, demo_login (Some "284 190") None, Done (Reply 401))].
Proof. vm_compute. reflexivity. Qed.

Lemma second_factor_used_once_witness :
  answers demo_state = [(2%nat, SignedIn "ana" "recovery_code" 0 4); (1%nat, SignedIn "ana" "totp" 1 3); (0%nat, Reply 401)] ∧
  answer_ok id demo_hmac Some String.eqb demo_decode demo_sign 1 (demo_login (Some "284190") None) (SignedIn "ana" "totp" 1 3) (data demo_state).
Proof.
  split; [by vm_compute|].
  destruct (second_factor_used_once id demo_hmac Some id String.eqb demo_decode demo_sign demo_db demo_state
    demo_consistent (perform_steps demo_handle demo_schedule (initial demo_db))) as (_ & _ & H).
  apply H. rewrite demo_requests. right. left.
Defined.


Lemma challenge_window_witness :
  verifyMfaChallenge id demo_decode demo_sign "mfa.claims.digest" 349999 = Ok (Some demo_claims) ∧
  verifyMfaChallenge id demo_decode demo_sign "mfa.claims.digest" 350000 =
    Ok (if seconds 350000 <? seconds 50000 + 300 then Some demo_claims else None).
Proof.
  split; [by vm_compute|].
  apply (challenge_window id demo_encode demo_decode demo_sign "ana" 3 50000 350000 "n" "mfa.claims.digest" demo_user);
    [by vm_compute|by vm_compute| |by vm_compute|cbn; lia|lia|lia].
  by intros s t [= <-].
Defined.

End SecondFactor.
