(* ===== verification/AuditLog.v ===== *)
(** * The audit event log

    src/src/services/audit-event.service.js: the closed catalog of actions, what
    of an event's metadata and address is kept, who is recorded as the actor
    while an administrator views as another person, and the best-effort append.
    Node's address parser is a parameter; the database is the log it appends to
    and may refuse the row. *)

From S2P Require Import Prelude Json TenantTables Tenancy TenantGuard.
Import Json Tenancy Guard.

Module Audit.

(* src/src/services/audit-event.service.js:13-13 AUDIT_ACTOR_TYPES *)
Definition AUDIT_ACTOR_TYPES : list string := ["USER"; "CLIENT"; "SYSTEM"; "WEBHOOK"; "BOT"].

Record event_spec := Spec { entityType : string; fields : list string }.

(* src/src/services/audit-event.service.js:23-148 AUDIT_EVENT_CATALOG *)
Definition AUDIT_EVENT_CATALOG : list (string * event_spec) :=
  [ ("portal_assistant.configured", Spec "portal_assistant_config" ["clientId"; "projectId"; "status"; "revision"]);
    ("portal_assistant.requested", Spec "portal_assistant_run" ["clientId"; "projectId"; "status"; "revision"]);
    ("portal_assistant.dispatched", Spec "portal_assistant_run" ["clientId"; "projectId"; "status"; "revision"]);
    ("portal_assistant.terminated", Spec "portal_assistant_run" ["clientId"; "projectId"; "status"; "revision"]);
    ("portal_assistant.settled", Spec "portal_assistant_run" ["clientId"; "projectId"; "status"; "revision"]);
    ("portal_handoff.requested", Spec "portal_handoff_request" ["projectId"; "clientId"; "status"; "revision"]);
    ("portal_handoff.claimed", Spec "portal_handoff_request" ["projectId"; "clientId"; "status"; "revision"]);
    ("portal_handoff.resolved", Spec "portal_handoff_request" ["projectId"; "clientId"; "status"; "revision"]);
    ("portal_handoff.requeued", Spec "portal_handoff_request" ["projectId"; "clientId"; "status"; "revision"; "reason"]);
    ("workspace_agent.installed", Spec "workspace_account_manager_binding" ["channelId"; "clientId"; "profileId"]);
    ("workspace_agent.updated", Spec "workspace_account_manager_binding" ["channelId"; "enabled"]);
    ("workspace_agent.requested", Spec "workspace_account_manager_invocation" ["channelId"; "sourceMessageId"; "runId"]);
    ("workspace_agent.delivered", Spec "client_agent_run" ["channelId"; "runId"; "status"]);
    ("workspace_agent.suppressed", Spec "client_agent_run" ["channelId"; "runId"; "status"]);
    ("client_service_project.created", Spec "client_service_project" ["clientId"; "revision"; "enabled"]);
    ("client_service_project.updated", Spec "client_service_project" ["clientId"; "revision"; "enabled"]);
    ("client_service_project.refreshed", Spec "client_service_project" ["clientId"; "revision"; "outcome"; "reportCount"; "partial"]);
    ("client_service_project.published", Spec "client_service_project" ["clientId"; "revision"; "outcome"; "reportCount"; "complete"]);
    ("client_agent_conversation.created", Spec "client_agent_conversation" ["clientId"; "revision"]);
    ("client_agent_conversation.archived", Spec "client_agent_conversation" ["clientId"; "revision"]);
    ("client_agent_run.requested", Spec "client_agent_run" ["clientId"; "conversationId"; "runId"]);
    ("client_agent_run.cancelled", Spec "client_agent_run" ["clientId"; "conversationId"; "runId"]);
    ("client_agent_run.reviewed", Spec "client_agent_run" ["clientId"; "conversationId"; "runId"]);
    ("gmail_send.claimed", Spec "gmail_send_receipt" ["status"; "hubThreadId"; "responseId"]);
    ("gmail_send.accepted", Spec "gmail_send_receipt" ["status"; "hubThreadId"; "responseId"]);
    ("gmail_send.completed", Spec "gmail_send_receipt" ["status"; "hubThreadId"; "responseId"]);
    ("gmail_send.rejected", Spec "gmail_send_receipt" ["status"; "hubThreadId"; "responseId"]);
    ("gmail_send.unknown", Spec "gmail_send_receipt" ["status"; "hubThreadId"; "responseId"]);
    ("client_agent_profile.created", Spec "client_agent_profile" ["revision"; "clientId"; "enabled"; "pluginIds"]);
    ("client_agent_profile.updated", Spec "client_agent_profile" ["revision"; "clientId"; "enabled"; "pluginIds"]);
    ("workspace_chat.channel_created", Spec "workspace_chat_channel" ["kind"; "memberCount"; "clientId"; "projectId"]);
    ("workspace_chat.message_created", Spec "workspace_chat_message" ["channelId"; "parentId"; "attentionCount"]);
    ("workspace_chat.attention_acknowledged", Spec "workspace_chat_attention" ["channelId"; "messageId"]);
    ("workspace_chat.membership_changed", Spec "workspace_chat_channel" ["channelId"; "memberUserId"; "active"]);
    ("workspace_collection.created", Spec "workspace_collection" ["revision"; "schemaRevision"]);
    ("workspace_collection.updated", Spec "workspace_collection" ["revision"; "schemaRevision"; "archived"]);
    ("workspace_record.created", Spec "workspace_record" ["revision"; "collectionId"]);
    ("workspace_record.updated", Spec "workspace_record" ["revision"; "collectionId"; "archived"]);
    ("workspace_record_form.created", Spec "workspace_record_form" ["revision"; "collectionId"]);
    ("workspace_record_form.updated", Spec "workspace_record_form" ["revision"; "collectionId"; "archived"]);
    ("workspace_record_form.submitted", Spec "workspace_record" ["revision"; "collectionId"; "formId"; "formRevision"]);
    ("invoice.created_from_unbilled", Spec "invoice" ["clientId"; "projectId"; "timeCount"; "expenseCount"; "total"; "currency"]);
    ("invoice.sources_released", Spec "invoice" ["timeCount"; "expenseCount"; "total"; "currency"]);
    ("note.access_changed", Spec "note" ["fromMode"; "toMode"; "memberCount"]);
    ("workspace_page.access_changed", Spec "workspace_page" ["fromMode"; "toMode"; "revision"; "memberCount"]);
    ("workspace_page.created", Spec "workspace_page" ["revision"; "parentId"]);
    ("workspace_page.updated", Spec "workspace_page" ["revision"; "parentId"]);
    ("workspace_page.revision_restored", Spec "workspace_page" ["sourceRevision"; "previousRevision"; "revision"]);
    ("note.revision_restored", Spec "note" ["sourceRevision"; "previousRevision"; "revision"]);
    ("workspace_page.archived", Spec "workspace_page" ["revision"; "parentId"]);
    ("workspace_page.restored", Spec "workspace_page" ["revision"; "parentId"]);
    ("invoice.sent", Spec "invoice" ["fromStatus"; "toStatus"; "deliveryAccepted"; "paymentLinkAttached"; "total"; "currency"; "bulk"]);
    ("invoice.paid", Spec "invoice" ["fromStatus"; "toStatus"; "method"; "bulk"; "total"; "currency"; "stripeEventId"]);
    ("invoice.voided", Spec "invoice" ["fromStatus"; "toStatus"; "total"; "currency"; "bulk"]);
    ("payment.refused", Spec "invoice" ["code"; "amount"; "currency"; "stripeEventId"; "transactionId"]);
    ("payment.recorded", Spec "invoice_payment" ["invoiceId"; "amount"; "method"; "source"; "bulk"; "currency"; "stripeEventId"]);
    ("proposal.approved", Spec "proposal" ["fromStatus"; "toStatus"; "total"; "via"]);
    ("contract.signed", Spec "contract" ["fromStatus"; "toStatus"; "signingMethod"; "documentHash"; "via"]);
    ("user.role_changed", Spec "user" ["fromRole"; "toRole"]);
    ("user.created", Spec "user" ["role"; "via"]);
    ("user.deactivated", Spec "user" ["fromActive"; "toActive"]);
    ("user.reactivated", Spec "user" ["fromActive"; "toActive"]);
    ("auth.login_failed", Spec "user" ["portal"; "accountActive"]);
    ("auth.password_changed", Spec "user" ["method"; "sessionsRevoked"; "apiKeysRevoked"]);
    ("auth.mfa_enabled", Spec "user" ["recoveryCodesIssued"]);
    ("auth.mfa_disabled", Spec "user" ["method"]);
    ("auth.mfa_reset", Spec "user" ["wasEnabled"]);
    ("auth.mfa_recovery_code_used", Spec "user" ["remaining"]);
    ("auth.mfa_failed", Spec "user" ["reason"]);
    ("auth.reauthenticated", Spec "user" ["method"]);
    ("auth.reauth_failed", Spec "user" ["reason"]);
    ("organization.mfa_requirement_changed", Spec "organization" ["fromRequired"; "toRequired"; "staffWithoutMfa"]);
    ("api_key.created", Spec "api_key" ["ownerUserId"; "expires"; "expiresAt"; "scopes"]);
    ("api_key.revoked", Spec "api_key" ["ownerUserId"]);
    ("settings.ai_provider_changed", Spec "settings" ["fromProvider"; "toProvider"; "fromModel"; "toModel"]);
    ("client_portal.document_deleted", Spec "attachment" ["projectId"; "clientId"; "mimeType"; "size"; "storedFilename"; "fileRetained"]);
    ("client_portal.revision_responded", Spec "revision_round" ["projectId"; "clientId"; "contactId"; "response"; "roundNumber"; "activityId"]);
    ("client_portal.feedback_submitted", Spec "project" ["clientId"; "contactId"; "activityId"; "messageLength"]);
    ("attachment.client_visibility_changed", Spec "attachment" ["projectId"; "fromVisible"; "toVisible"; "bulk"]);
    ("upload.rejected", Spec "attachment" ["surface"; "reason"; "mimeType"; "size"; "extension"; "projectId"]);
    ("ai.connection_connected", Spec "ai_provider_connection" ["keyLast4"; "baseUrlHost"; "defaultModel"; "allowedModelCount"; "monthlyBudgetCents"; "replacedStatus"]);
    ("ai.connection_validated", Spec "ai_provider_connection" ["keyLast4"; "baseUrlHost"; "result"; "errorType"; "fromStatus"; "toStatus"]);
    ("ai.connection_rotated", Spec "ai_provider_connection" ["keyLast4"; "previousKeyLast4"; "baseUrlHost"]);
    ("ai.connection_revoked", Spec "ai_provider_connection" ["keyLast4"; "baseUrlHost"; "fromStatus"]);
    ("ai.connection_settings_changed", Spec "ai_provider_connection" ["fromDefaultModel"; "toDefaultModel"; "fromMonthlyBudgetCents"; "toMonthlyBudgetCents"; "allowedModelCount"]);
    ("ai.disabled", Spec "organization" ["scope"]);
    ("ai.enabled", Spec "organization" ["scope"]);
    ("ai.budget_alert", Spec "ai_provider_connection" ["month"; "spentCents"; "budgetCents"; "thresholdPercent"]);
    ("ai.budget_exceeded", Spec "ai_provider_connection" ["month"; "spentCents"; "budgetCents"]);
    ("ai.tool_prepared", Spec "ai_action" ["tool"; "toolClass"; "source"; "inputHash"; "correlationId"]);
    ("ai.tool_approved", Spec "ai_action" ["tool"; "toolClass"; "source"; "requesterUserId"; "correlationId"; "method"; "reauthenticated"; "requesterApproved"]);
    ("ai.tool_rejected", Spec "ai_action" ["tool"; "toolClass"; "source"; "requesterUserId"; "correlationId"; "reason"]);
    ("ai.tool_executed", Spec "ai_action" ["tool"; "toolClass"; "source"; "requesterUserId"; "correlationId"; "outcome"; "approverUserId"]);
    ("ai.tool_failed", Spec "ai_action" ["tool"; "toolClass"; "source"; "requesterUserId"; "correlationId"; "errorCode"; "outcome"]);
    ("ai.tool_expired", Spec "ai_action" ["tool"; "toolClass"; "source"; "requesterUserId"; "correlationId"]);
    ("ai.tool_denied", Spec "ai_action" ["tool"; "reason"; "source"; "correlationId"]);
    ("ai.tool_session_run", Spec "ai_session" ["turns"; "toolCalls"; "readCount"; "pendingCount"; "deniedCount"; "stoppedReason"; "answered"; "correlationId"]);
    ("migration_import.applied", Spec "import_run" ["source"; "created"; "unchanged"; "alreadyPresent"; "channels"; "skipped"; "projectId"; "sessionsCreated"; "commentsCreated"; "commentsUnchanged"]);
    ("migration_import.rolled_back", Spec "import_run" ["source"; "deletedRecords"; "deletedMessages"; "deletedAttachments"; "deletedSessions"; "deletedComments"]);
    ("review.session_created", Spec "review_session" ["projectId"; "attachmentId"; "version"; "previousSessionId"; "mediaKind"; "sourceHost"; "captureViewport"; "captureTruncated"]);
    ("review.decision_recorded", Spec "review_session" ["decisionId"; "decision"; "fromStatus"; "toStatus"; "via"; "shareLinkId"]);
    ("review.share_link_created", Spec "review_share_link" ["sessionId"; "expiresAt"; "expiresInDays"; "allowDecision"]);
    ("review.share_link_revoked", Spec "review_share_link" ["sessionId"; "wasExpired"]);
    ("review.client_access_changed", Spec "review_session" ["sharedWithClient"; "clientCanDecide"; "fromSharedWithClient"; "fromClientCanDecide"]);
    ("review.evidence_exported", Spec "review_session" ["versionCount"; "annotationCount"; "decisionCount"; "shareLinkCount"; "auditEventCount"; "evidenceSha256"]);
    ("estimate.approved", Spec "estimate" ["fromStatus"; "toStatus"; "via"; "total"]);
    ("estimate.declined", Spec "estimate" ["fromStatus"; "toStatus"; "via"; "total"]);
    ("estimate.link_revoked", Spec "estimate" ["alreadyRevoked"]);
    ("estimate.link_reissued", Spec "estimate" ["expiresAt"]);
    ("domain_event.replayed", Spec "domain_event" ["type"; "aggregateType"; "aggregateId"; "sequence"; "fromStatus"; "toStatus"; "replayCount"; "previousAttempts"]);
    ("domain_event.discarded", Spec "domain_event" ["type"; "aggregateType"; "aggregateId"; "sequence"; "fromStatus"; "toStatus"; "reason"; "replayCount"; "previousAttempts"]);
    ("impersonation.started", Spec "impersonation_session" ["subjectUserId"; "subjectRole"; "expiresAt"; "ttlSeconds"; "readOnly"]);
    ("impersonation.ended", Spec "impersonation_session" ["reason"; "subjectUserId"; "durationSeconds"]);
    ("break_glass.granted", Spec "break_glass_grant" ["targetUserId"; "operatorId"; "expiresAt"; "promoteToAdmin"; "osUser"; "host"]);
    ("break_glass.redeemed", Spec "break_glass_grant" ["targetUserId"; "operatorId"; "promoted"; "reactivated"; "mfaReset"; "apiKeysRevoked"]);
    ("break_glass.revoked", Spec "break_glass_grant" ["targetUserId"; "operatorId"; "osUser"; "host"]) ].

(* src/src/services/audit-event.service.js:155-155 AUDIT_UNIVERSAL_METADATA *)
Definition AUDIT_UNIVERSAL_METADATA : list string := ["impersonatedUserId"; "impersonationSessionId"].

Definition MAX_ID_LENGTH : nat := 191.
Definition MAX_METADATA_STRING : nat := 128.

(** [/^[A-Za-z0-9_.:/@+-]*$/] *)
Definition id_char (c : Ascii.ascii) : bool :=
  let n := Ascii.nat_of_ascii c in
  ((48 <=? n)%nat && (n <=? 57)%nat) || ((65 <=? n)%nat && (n <=? 90)%nat) || ((97 <=? n)%nat && (n <=? 122)%nat) ||
  existsb (Nat.eqb n) [95; 46; 58; 47; 64; 43; 45]%nat.
Fixpoint all_chars (p : Ascii.ascii → bool) (s : string) : bool :=
  match s with EmptyString => true | String c s' => p c && all_chars p s' end.
(* src/src/services/audit-event.service.js:164-169 METADATA_STRING_FORMAT *)
Definition id_format (s : string) : bool := (String.length s <=? MAX_METADATA_STRING)%nat && all_chars id_char s.

(* src/src/services/audit-event.service.js:171-175 boundedString *)
Definition boundedString (value : option string) (max : nat) : option string :=
  match value with
  | None | Some EmptyString => None
  | Some s => Some (String.substring 0 max s)
  end.

(** ** Addresses *)

(** [s.split(sep)] for a one-character separator. *)
Fixpoint split_on (sep : Ascii.ascii) (s : string) : list string :=
  match s with
  | EmptyString => [EmptyString]
  | String c s' =>
      if bool_decide (c = sep) then EmptyString :: split_on sep s'
      else match split_on sep s' with p :: ps => String c p :: ps | [] => [String c EmptyString] end
  end.
Definition colon : Ascii.ascii := Ascii.ascii_of_nat 58.
Definition dot : Ascii.ascii := Ascii.ascii_of_nat 46.

(** The text before and after the first [::]. *)
Fixpoint split_gap (s : string) : option (string * string) :=
  match s with
  | String c s' =>
      match s' with
      | String d rest =>
          if bool_decide (c = colon) && bool_decide (d = colon) then Some (EmptyString, rest)
          else '(a, b) ← split_gap s'; Some (String c a, b)
      | EmptyString => None
      end
  | EmptyString => None
  end.

(** Leading zeros dropped, one digit kept. *)
Fixpoint strip_zeros (s : string) : string :=
  match s with
  | String c (String d rest as s') => if is_char 48 c then strip_zeros s' else s
  | _ => s
  end.

(* src/src/services/audit-event.service.js:177-186 expandIpv6 *)
Definition expandIpv6 (address : string) : list string :=
  let parts s := if bool_decide (s = "") then [] else split_on colon s in
  let all :=
    match split_gap address with
    | Some (head, tail) =>
        (* a second gap never occurs in an address *)
        let tail := match split_gap tail with Some (t, _) => t | None => tail end in
        let headParts := parts head in
        let tailParts := parts tail in
        headParts ++ replicate (8 - length headParts - length tailParts) "0" ++ tailParts
    | None => parts address
    end in
  (λ p, strip_zeros (toLowerCase p)) <$> all.

Fixpoint trim_left (s : string) : string :=
  match s with
  | String c s' => let n := Ascii.nat_of_ascii c in
                   if ((9 <=? n)%nat && (n <=? 13)%nat) || (n =? 32)%nat || (n =? 160)%nat then trim_left s' else s
  | EmptyString => EmptyString
  end.
Definition reverse (s : string) : string := String.rev s.
Definition trim (s : string) : string := reverse (trim_left (reverse (trim_left s))).

Definition digits_only (s : string) : bool :=
  negb (bool_decide (s = "")) && all_chars (λ c, let n := Ascii.nat_of_ascii c in (48 <=? n)%nat && (n <=? 57)%nat) s.

(** [/^::ffff:(\d+\.\d+\.\d+\.\d+)$/i] *)
Definition mapped_ipv4 (address : string) : option string :=
  if startsWith (toLowerCase address) "::ffff:" then
    let rest := String.substring 7 (String.length address - 7) address in
    match split_on dot rest with
    | [a; b; c; d] => if forallb digits_only [a; b; c; d] then Some rest else None
    | _ => None
    end
  else None.

Section audit.
(** [net.isIP] *)
Context (isIP : string → nat).

(* src/src/services/audit-event.service.js:194-210 truncateIp *)
Definition truncateIp (ip : option string) : option string :=
  ip ← ip;
  let address := default (trim ip) (mapped_ipv4 (trim ip)) in
  match isIP address with
  | 4 => match split_on dot address with
         | a :: b :: c :: _ => Some (a +:+ "." +:+ b +:+ "." +:+ c +:+ ".0/24")
         | _ => None
         end
  | 6 => match expandIpv6 (default "" (head (split_on (Ascii.ascii_of_nat 37) address))) with
         | a :: b :: c :: _ => Some (a +:+ ":" +:+ b +:+ ":" +:+ c +:+ "::/48")
         | _ => None
         end
  | _ => None
  end%nat.

(** ** Metadata *)

(** A metadata value: a date carries its ISO text, absent when invalid. *)
Inductive meta_value :=
  | MNull | MBool (b : bool) | MNum (text : string) | MNotFinite
  | MStr (s : string) | MDate (iso : option string) | MOther.

Definition clean_value (v : meta_value) : option meta_value :=
  match v with
  | MNull | MBool _ | MNum _ => Some v
  | MDate (Some iso) => Some (MStr iso)
  | MStr s => if id_format s then Some v else None
  | MNotFinite | MDate None | MOther => None
  end.

Definition allowed_fields (action : string) : option (list string) :=
  spec ← assoc action AUDIT_EVENT_CATALOG; Some (fields spec ++ AUDIT_UNIVERSAL_METADATA).

(** The own properties of the metadata object; [None] when it is not one. *)
(* src/src/services/audit-event.service.js:221-239 sanitizeAuditMetadata *)
Definition sanitizeAuditMetadata (metadata : option (list (string * meta_value))) (action : string)
  : list (string * meta_value) :=
  match allowed_fields action, metadata with
  | Some allowed, Some source =>
      omap (λ key, v ← assoc key source ≫= clean_value; Some (key, v)) (unique allowed)
  | _, _ => []
  end.

(** ** Recording *)

Record event := Event {
  e_organization : option string; e_ownerClient : option string; e_ownerInvoice : option string;
  e_actor : option string; e_actorType : string; e_action : string;
  e_entityType : option string; e_entity : option string; e_request : option string;
  e_ip : option string; e_metadata : option (list (string * meta_value))
}.

Record audit_row := Row {
  r_organization : string; r_actor : option string; r_actorType : string; r_action : string;
  r_entityType : string; r_entity : option string; r_request : option string; r_ip : option string;
  r_metadata : list (string * meta_value)
}.

(** The support view of the current request, as the audit log needs it. *)
Record view_context := ViewContext { vc_organization : string; vc_actor : string; vc_subject : string; vc_session : string }.

Definition present (s : option string) : option string :=
  match s with Some EmptyString => None | _ => s end.

(** Owners the database answers for a client and an invoice. *)
Context (client_organization invoice_organization : string → option string).

(* src/src/services/audit-event.service.js:270-287 resolveOrganizationId *)
Definition resolveOrganizationId (e : event) : option string :=
  match present (e_organization e), present (e_ownerClient e), present (e_ownerInvoice e) with
  | Some o, _, _ => Some o
  | None, Some c, _ => client_organization c
  | None, None, Some i => invoice_organization i
  | None, None, None => None
  end.

(** [{ ...metadata, k: v }] *)
Fixpoint mset (k : string) (v : meta_value) (l : list (string * meta_value)) : list (string * meta_value) :=
  match l with
  | [] => [(k, v)]
  | (k', v') :: l' => if bool_decide (k' = k) then (k, v) :: l' else (k', v') :: mset k v l'
  end.

(** The row an event becomes, or nothing when it is rejected. *)
Definition audit_row_of (view : option view_context) (e : event) : option audit_row :=
  spec ← assoc (e_action e) AUDIT_EVENT_CATALOG;
  if negb (mem (e_actorType e) AUDIT_ACTOR_TYPES) then None
  else
    organizationId ← present (resolveOrganizationId e);
    let '(actor, actorType, metadata) :=
      match view with
      | Some v =>
          if bool_decide (vc_organization v = organizationId) then
            let '(actor, actorType) :=
              match present (e_actor e) with
              | None => (Some (vc_actor v), "USER")
              | Some a => if bool_decide (a = vc_subject v) then (Some (vc_actor v), "USER") else (Some a, e_actorType e)
              end in
            (actor, actorType, Some (mset "impersonationSessionId" (MStr (vc_session v))
                                      (mset "impersonatedUserId" (MStr (vc_subject v)) (default [] (e_metadata e)))))
          else (e_actor e, e_actorType e, e_metadata e)
      | None => (e_actor e, e_actorType e, e_metadata e)
      end in
    Some (Row organizationId (boundedString actor MAX_ID_LENGTH) actorType (e_action e)
            (default (entityType spec) (e_entityType e)) (boundedString (e_entity e) MAX_ID_LENGTH)
            (boundedString (e_request e) 100) (truncateIp (e_ip e))
            (sanitizeAuditMetadata metadata (e_action e))).

(** The log after a recording; [accepts] says whether the database takes the
    row.  It never fails: a rejected or refused event leaves the log alone. *)
(* src/src/services/audit-event.service.js:304-354 recordAuditEvent *)
Definition recordAuditEvent (accepts : audit_row → bool) (view : option view_context) (e : event)
    (log : list audit_row) : option audit_row * list audit_row :=
  match audit_row_of view e with
  | Some r => if accepts r then (Some r, log ++ [r]) else (None, log)
  | None => (None, log)
  end.
(** ** What the log holds *)

Lemma sanitize_elem metadata action k v :
  (k, v) ∈ sanitizeAuditMetadata metadata action →
  ∃ allowed source w, allowed_fields action = Some allowed ∧ metadata = Some source ∧ k ∈ allowed ∧
    assoc k source = Some w ∧ clean_value w = Some v.
Proof.
  unfold sanitizeAuditMetadata. destruct (allowed_fields action) as [allowed|]; [|by intros ?%not_elem_of_nil].
  destruct metadata as [source|]; [|by intros ?%not_elem_of_nil].
  intros (key & Hkey & Hin)%list_elem_of_omap. rewrite elem_of_unique in Hkey.
  destruct (assoc key source) as [w|] eqn:Ew; [|done]. simpl in Hin.
  destruct (clean_value w) as [v'|] eqn:Ec; [|done]. injection Hin as -> ->.
  exists allowed, source, w. by split_and!.
Qed.

Lemma sanitize_keys metadata action : NoDup (sanitizeAuditMetadata metadata action).*1.
Proof.
  unfold sanitizeAuditMetadata. destruct (allowed_fields action) as [allowed|]; [|constructor].
  destruct metadata as [source|]; [|constructor]. pose proof (NoDup_unique allowed) as Hnd. revert Hnd.
  generalize (unique allowed). intros l. induction l as [|k l IH]; [constructor|]. intros [Hk Hl]%NoDup_cons.
  cbn [omap list_omap]. destruct (assoc k source ≫= clean_value) as [v|]; simpl; [|by apply IH].
  apply NoDup_cons. split; [|by apply IH]. intros ((k' & v') & -> & Hin)%list_elem_of_fmap.
  apply list_elem_of_omap in Hin as (k2 & Hk2 & Hin). simpl in *.
  destruct (assoc k2 source ≫= clean_value); [|done]. injection Hin as -> _. done.
Qed.

Lemma assoc_sanitize metadata action allowed k w v :
  allowed_fields action = Some allowed → k ∈ allowed → assoc k metadata = Some w → clean_value w = Some v →
  (k, v) ∈ sanitizeAuditMetadata (Some metadata) action.
Proof.
  intros Ha Hk Hw Hc. unfold sanitizeAuditMetadata. rewrite Ha. apply list_elem_of_omap.
  exists k. split; [by rewrite elem_of_unique|]. rewrite Hw. simpl. by rewrite Hc.
Qed.

Lemma assoc_mset k v l k' : assoc k' (mset k v l) = if bool_decide (k = k') then Some v else assoc k' l.
Proof.
  unfold assoc. induction l as [|[k1 v1] l IH]; simpl.
  - by destruct (bool_decide (k = k')).
  - destruct (bool_decide (k1 = k)) eqn:E1; simpl; bool_simplify.
    + by destruct (bool_decide (k = k')).
    + destruct (bool_decide (k1 = k')) eqn:E2; [|exact IH]. simpl. bool_simplify. by rewrite bool_decide_eq_false_2.
Qed.

(** The metadata of a row is the sanitized metadata of an object every field of
    which is the event's, a support view's two fields apart. *)
Lemma audit_row_metadata view e r :
  audit_row_of view e = Some r →
  r_action r = e_action e ∧ (∃ spec, assoc (e_action e) AUDIT_EVENT_CATALOG = Some spec) ∧
  ∃ metadata, r_metadata r = sanitizeAuditMetadata metadata (e_action e) ∧
    ∀ source k iso, metadata = Some source → assoc k source = Some (MDate iso) →
      assoc k (default [] (e_metadata e)) = Some (MDate iso).
Proof.
  unfold audit_row_of. intros H.
  destruct (assoc (e_action e) AUDIT_EVENT_CATALOG) as [spec|]; [|done]. cbn [mbind option_bind] in H.
  destruct (negb _); [done|]. destruct (present (resolveOrganizationId e)) as [o|]; [|done]. cbn [mbind option_bind] in H.
  assert (∀ source k iso, e_metadata e = Some source → assoc k source = Some (MDate iso) →
    assoc k (default [] (e_metadata e)) = Some (MDate iso)) as Hplain by (by intros source k iso ->).
  assert (r_action r = e_action e → r_metadata r = sanitizeAuditMetadata (e_metadata e) (e_action e) →
    r_action r = e_action e ∧ (∃ spec0, Some spec = Some spec0) ∧
    ∃ metadata, r_metadata r = sanitizeAuditMetadata metadata (e_action e) ∧
    ∀ source k iso, metadata = Some source → assoc k source = Some (MDate iso) →
      assoc k (default [] (e_metadata e)) = Some (MDate iso)) as Hrest.
  { intros H1 H2. split_and!; eauto. }
  destruct view as [v|]; [destruct (bool_decide (vc_organization v = o))|]; cycle 1;
    [injection H as <-; by apply Hrest..|].
  assert (∀ source k iso,
    Some (mset "impersonationSessionId" (MStr (vc_session v)) (mset "impersonatedUserId" (MStr (vc_subject v))
      (default [] (e_metadata e)))) = Some source → assoc k source = Some (MDate iso) →
    assoc k (default [] (e_metadata e)) = Some (MDate iso)) as Hview.
  { intros source k iso [= <-]. rewrite !assoc_mset.
    destruct (bool_decide _); [done|]. by destruct (bool_decide _). }
  repeat case_match; simplify_eq/=; split_and!; eauto.
Qed.

(** The log stays minimal.  What a recording appends is one row of
    a catalogued action, whose metadata has only the fields the catalog lists
    for that action (and the two support-view fields), each once, each a number,
    a boolean, null, a date's ISO text or a string of at most 128 identifier
    characters - so no free text, and nothing when the event is rejected or the
    database refuses the row. *)
Lemma recordAuditEvent_minimal accepts view e log row log' :
  recordAuditEvent accepts view e log = (row, log') →
  log' = log ++ match row with Some r => [r] | None => [] end ∧
  ∀ r, row = Some r →
    ∃ spec, assoc (r_action r) AUDIT_EVENT_CATALOG = Some spec ∧ NoDup (r_metadata r).*1 ∧
    ∀ k v, (k, v) ∈ r_metadata r → k ∈ fields spec ++ AUDIT_UNIVERSAL_METADATA ∧
      match v with
      | MNull | MBool _ | MNum _ => True
      | MStr s => id_format s = true ∨ assoc k (default [] (e_metadata e)) = Some (MDate (Some s))
      | _ => False
      end.
Proof.
  intros H. unfold recordAuditEvent in H. destruct (audit_row_of view e) as [r|] eqn:Er.
  2:{ injection H as <- <-. split; [by rewrite app_nil_r|done]. }
  destruct (accepts r); injection H as <- <-; (split; [by rewrite ?app_nil_r|]); [|done].
  intros r' [= <-]. destruct (audit_row_metadata _ _ _ Er) as (-> & [spec Hs] & metadata & -> & Hdates).
  exists spec. split; [done|]. split; [apply sanitize_keys|].
  intros k v (allowed & source & w & Ha & -> & Hk & Hw & Hc)%sanitize_elem.
  unfold allowed_fields in Ha. rewrite Hs in Ha. injection Ha as <-. split; [done|].
  destruct w as [| | | |s|[iso|]|]; simplify_eq/=; try done.
  - destruct (id_format s) eqn:Ef; simplify_eq/=; by left.
  - right. by eapply Hdates.
Qed.

Lemma substring_short n s : (String.length s ≤ n)%nat → String.substring 0 n s = s.
Proof.
  revert n. induction s as [|c s IH]; intros n Hn; [by destruct n|]. simpl in Hn.
  destruct n as [|n]; [lia|]. simpl. f_equal. apply IH. lia.
Qed.
Lemma substring_long n s : (n < String.length s)%nat → String.length (String.substring 0 n s) = n.
Proof.
  revert n. induction s as [|c s IH]; intros n Hn; simpl in Hn; [lia|].
  destruct n as [|n]; [done|]. simpl. f_equal. apply IH. lia.
Qed.

Lemma boundedString_ne a b max :
  a ≠ b → (String.length b < max)%nat → boundedString (Some a) max ≠ Some b.
Proof.
  intros Hne Hb H. destruct a as [|c a]; [done|]. cbn [boundedString] in H.
  assert (String.substring 0 max (String c a) = b) as H' by congruence. clear H. rename H' into H.
  destruct (decide (String.length (String c a) ≤ max)%nat) as [Hl|Hl].
  - by rewrite substring_short in H.
  - assert (String.length b = max) as E by (rewrite <- H; apply substring_long; lia). lia.
Qed.

(** The actor recorded while [v] is active. *)
Lemma audit_row_actor v e r :
  audit_row_of (Some v) e = Some r → r_organization r = vc_organization v →
  ∃ a spec, r_actor r = boundedString (Some a) MAX_ID_LENGTH ∧ (a = vc_actor v ∨ a ≠ vc_subject v) ∧
    assoc (e_action e) AUDIT_EVENT_CATALOG = Some spec ∧
    r_metadata r = sanitizeAuditMetadata
      (Some (mset "impersonationSessionId" (MStr (vc_session v))
              (mset "impersonatedUserId" (MStr (vc_subject v)) (default [] (e_metadata e))))) (e_action e).
Proof.
  intros H Ho. unfold audit_row_of in H.
  destruct (assoc (e_action e) AUDIT_EVENT_CATALOG) as [spec|] eqn:Es; [|done]. cbn [mbind option_bind] in H.
  destruct (negb _); [done|]. destruct (present (resolveOrganizationId e)) as [o|]; [|done]. cbn [mbind option_bind] in H.
  destruct (bool_decide (vc_organization v = o)) eqn:Eo; [|injection H as <-; by apply bool_decide_eq_false in Eo].
  destruct (present (e_actor e)) as [a|]; [destruct (bool_decide (a = vc_subject v)) eqn:Ea|];
    injection H as <-; simpl.
  - eexists _, _. split; [reflexivity|]. eauto.
  - apply bool_decide_eq_false in Ea. eexists _, _. split; [reflexivity|]. eauto.
  - eexists _, _. split; [reflexivity|]. eauto.
Qed.

(** A support view never signs as the person it views.  Whatever
    actor the code named, a row recorded during an impersonated request of its
    organization is attributed to somebody other than the viewed person, and
    names the viewed person and the view in its metadata. *)
Lemma recordAuditEvent_attribution accepts v e log r log' :
  recordAuditEvent accepts (Some v) e log = (Some r, log') → r_organization r = vc_organization v →
  vc_actor v ≠ vc_subject v → (String.length (vc_actor v) ≤ MAX_ID_LENGTH)%nat →
  (String.length (vc_subject v) < MAX_ID_LENGTH)%nat → id_format (vc_subject v) = true → id_format (vc_session v) = true →
  r_actor r ≠ Some (vc_subject v) ∧
  ("impersonatedUserId", MStr (vc_subject v)) ∈ r_metadata r ∧
  ("impersonationSessionId", MStr (vc_session v)) ∈ r_metadata r.
Proof.
  intros H Ho Hne Hla Hls Hfs Hfv. unfold recordAuditEvent in H.
  destruct (audit_row_of (Some v) e) as [r'|] eqn:Er; [|done]. destruct (accepts r'); [|done].
  injection H as -> _. destruct (audit_row_actor _ _ _ Er Ho) as (a & spec & -> & Ha & Hs & ->).
  assert (allowed_fields (e_action e) = Some (fields spec ++ AUDIT_UNIVERSAL_METADATA)) as Hf.
  { unfold allowed_fields. by rewrite Hs. }
  split; [|split].
  - apply boundedString_ne; [|done]. destruct Ha as [->|]; done.
  - eapply assoc_sanitize; [exact Hf|apply elem_of_app; right; by repeat (first [left|right])| |].
    + by rewrite !assoc_mset.
    + simpl. by rewrite Hfs.
  - eapply assoc_sanitize; [exact Hf|apply elem_of_app; right; by repeat (first [left|right])| |].
    + by rewrite !assoc_mset.
    + simpl. by rewrite Hfv.
Qed.
End audit.

(** An invoice marked sent while viewing; the note in the metadata is dropped. *)
Definition demo_event : event :=
  Event (Some "acme") None None (Some "u9") "USER" "invoice.sent" None (Some "i1") None (Some "10.1.2.3")
    (Some [("total", MNum "120.5"); ("toStatus", MStr "SENT"); ("note", MStr "call me back")]).
Definition demo_view : view_context := ViewContext "acme" "u1" "u9" "v1".
Definition demo_isIP (s : string) : nat := if bool_decide (s = "10.1.2.3") then 4 else 0.
Definition demo_row : audit_row :=
  Row "acme" (Some "u1") "USER" "invoice.sent" "invoice" (Some "i1") None (Some "10.1.2.0/24")
    [("toStatus", MStr "SENT"); ("total", MNum "120.5"); ("impersonatedUserId", MStr "u9"); ("impersonationSessionId", MStr "v1")].

Lemma recordAuditEvent_minimal_witness :
  recordAuditEvent demo_isIP (λ _, None) (λ _, None) (λ _, true) (Some demo_view) demo_event [] = (Some demo_row, [demo_row]) ∧
  [demo_row] = [] ++ match Some demo_row with Some r => [r] | None => [] end.
Proof.
  assert (recordAuditEvent demo_isIP (λ _, None) (λ _, None) (λ _, true) (Some demo_view) demo_event []
          = (Some demo_row, [demo_row])) as H by (by vm_compute).
  split; [exact H|].
  apply (recordAuditEvent_minimal demo_isIP (λ _, None) (λ _, None) (λ _, true) (Some demo_view) demo_event [] _ _ H).
Defined.

Lemma recordAuditEvent_attribution_witness :
  r_actor demo_row ≠ Some (vc_subject demo_view) ∧
  ("impersonatedUserId", MStr (vc_subject demo_view)) ∈ r_metadata demo_row ∧
  ("impersonationSessionId", MStr (vc_session demo_view)) ∈ r_metadata demo_row.
Proof.
  apply (recordAuditEvent_attribution demo_isIP (λ _, None) (λ _, None) (λ _, true) demo_view demo_event [] _ [demo_row]);
    try (by vm_compute); apply Nat.leb_le; by vm_compute.
Defined.

End Audit.
