(* ===== verification/OutboundUrl.v ===== *)
(** * Where the server may connect

    src/src/security/outbound-url-policy.js and the connection half of
    src/src/security/safe-fetch.js: the addresses a tenant-supplied endpoint
    must not reach, the check of a base URL, and the check repeated inside the
    socket's own name lookup.  URL parsing, name resolution and [net.isIP] are
    parameters; addresses are ASCII texts. *)

From stdpp Require Import pretty.
From S2P Require Import Prelude Int32 Json TenantTables Tenancy TenantGuard Tokens Totp AuditLog.
Import Tenancy Guard Tokens Totp Audit.

Module OutboundUrl.

(** ** IPv4 *)

(** [Number(part)] of decimal digits. *)
Definition decimal (part : string) : Z := Z.of_N (read_digits part 0).1.

(* src/src/security/outbound-url-policy.js:48-50 ipv4ToInt *)
Definition ipv4ToInt (address : string) : Z := foldl (λ acc part, acc * 256 + decimal part) 0 (split_dots address).

(* src/src/security/outbound-url-policy.js:52-67 BLOCKED_IPV4_CIDRS *)
Definition BLOCKED_IPV4_CIDRS : list (string * Z) :=
  [("0.0.0.0", 8); ("10.0.0.0", 8); ("100.64.0.0", 10); ("127.0.0.0", 8); ("169.254.0.0", 16); ("172.16.0.0", 12);
   ("192.0.0.0", 24); ("192.0.2.0", 24); ("192.168.0.0", 16); ("198.18.0.0", 15); ("198.51.100.0", 24);
   ("203.0.113.0", 24); ("224.0.0.0", 4); ("240.0.0.0", 4)].

(** [bits === 0 ? 0 : (0xffffffff << (32 - bits)) >>> 0] *)
Definition cidr_mask (bits : Z) : Z := if bits =? 0 then 0 else ushr (shl 4294967295 (32 - bits)) 0.

(* src/src/security/outbound-url-policy.js:69-72 isBlockedIpv4 *)
Definition isBlockedIpv4 (address : string) : bool :=
  let value := ipv4ToInt address in
  existsb (λ '(base, bits), ushr (band value (cidr_mask bits)) 0 =? ushr (band (ipv4ToInt base) (cidr_mask bits)) 0)
    BLOCKED_IPV4_CIDRS.

(** ** IPv6 *)

Definition colon : Ascii.ascii := Ascii.ascii_of_nat 58.

(** [split(':')] *)
Fixpoint split_colons (s : string) : list string :=
  match s with
  | EmptyString => [EmptyString]
  | String c s' =>
      if bool_decide (c = colon) then EmptyString :: split_colons s'
      else match split_colons s' with part :: parts => String c part :: parts | [] => [String c EmptyString] end
  end.

(** The text before the first "::", and what follows it. *)
Fixpoint at_gap (s : string) : string * option string :=
  match s with
  | EmptyString => (EmptyString, None)
  | String c s' =>
      match s' with
      | String c' rest =>
          if bool_decide (c = colon) && bool_decide (c' = colon) then (EmptyString, Some rest)
          else let '(head, tail) := at_gap s' in (String c head, tail)
      | EmptyString => (s, None)
      end
  end.

Definition hex_value (c : Ascii.ascii) : option Z :=
  let n := Z.of_N (Ascii.N_of_ascii c) in
  if (48 <=? n) && (n <=? 57) then Some (n - 48)
  else if (97 <=? n) && (n <=? 102) then Some (n - 87)
  else if (65 <=? n) && (n <=? 70) then Some (n - 55)
  else None.

(** [parseInt(s, 16)] of a text without sign or prefix: the value of its
    leading hexadecimal digits, [None] for NaN. *)
Fixpoint read_hex (s : string) (acc : Z) : Z :=
  match s with
  | String c s => match hex_value c with Some d => read_hex s (acc * 16 + d) | None => acc end
  | EmptyString => acc
  end.
Definition parse_hex (s : string) : option Z :=
  match s with
  | String c _ => match hex_value c with Some _ => Some (read_hex s 0) | None => None end
  | EmptyString => None
  end.

(** [n.toString(16)] of a 16-bit number. *)
Definition hex_digit (d : Z) : string :=
  match String.get (Z.to_nat d) "0123456789abcdef" with Some c => String c "" | None => "" end.
Definition to_hex (n : Z) : string :=
  let digits := (λ i, hex_digit (n / 16 ^ i mod 16)) in
  if n <? 16 then digits 0 else if n <? 256 then digits 1 +:+ digits 0
  else if n <? 4096 then digits 2 +:+ digits 1 +:+ digits 0 else digits 3 +:+ digits 2 +:+ digits 1 +:+ digits 0.

(** [/(\d+\.\d+\.\d+\.\d+)$/]: the leftmost suffix that is a dotted quad. *)
Definition is_quad (s : string) : bool :=
  match split_dots s with
  | [a; b; c; d] => forallb (λ p, negb (bool_decide (p = "")) && all_digits p) [a; b; c; d]
  | _ => false
  end.
Fixpoint quad_suffix (s : string) : option (string * string) :=
  if is_quad s then Some ("", s)
  else match s with
       | String c s' => '(before, quad) ← quad_suffix s'; Some (String c before, quad)
       | EmptyString => None
       end.

(** [address.split('%')[0]] *)
Fixpoint before_percent (s : string) : string :=
  match s with
  | String c s => if is_char 37 c then "" else String c (before_percent s)
  | EmptyString => ""
  end.

Definition parts_of (text : string) : list string := if bool_decide (text = "") then [] else split_colons text.

(* src/src/security/outbound-url-policy.js:75-87 ipv6Words *)
Definition ipv6Words (address : string) : list (option Z) :=
  let text := toLowerCase (before_percent address) in
  let text :=
    match quad_suffix text with
    | Some (before, quad) =>
        let n := ipv4ToInt quad in
        before +:+ (to_hex (ushr n 16) +:+ ":" +:+ to_hex (band n 65535))
    | None => text
    end in
  let '(head, tail) := at_gap text in
  let headParts := parts_of head in
  let tailParts := match tail with Some tail => parts_of (at_gap tail).1 | None => [] end in
  let fill := match tail with Some _ => replicate (8 - length headParts - length tailParts) "0" | None => [] end in
  (λ part, parse_hex (if bool_decide (part = "") then "0" else part)) <$> (headParts ++ fill ++ tailParts).

(* src/src/security/outbound-url-policy.js:89-91 wordsToIpv4 *)
Definition wordsToIpv4 (high low : Z) : string :=
  pretty (Z.shiftr high 8) +:+ "." +:+ pretty (band high 255) +:+ "." +:+ pretty (Z.shiftr low 8) +:+ "." +:+ pretty (band low 255).

(** The rules of [isBlockedIpv6] on the eight words, in their order. *)
Definition blocked_words (w : Z * Z * Z * Z * Z * Z * Z * Z) : bool :=
  let '(w0, w1, w2, w3, w4, w5, w6, w7) := w in
  let zero l := forallb (λ n, n =? 0) l in
  if zero [w0; w1; w2; w3; w4; w5; w6; w7] then true
  else if zero [w0; w1; w2; w3; w4; w5; w6] && (w7 =? 1) then true
  else if zero [w0; w1; w2; w3; w4] && ((w5 =? 65535) || (w5 =? 0)) then isBlockedIpv4 (wordsToIpv4 w6 w7)
  else if zero [w0; w1; w2; w3] && (w4 =? 65535) && (w5 =? 0) then true
  else if (w0 =? 100) && (w1 =? 65435) && zero [w2; w3; w4; w5] then isBlockedIpv4 (wordsToIpv4 w6 w7)
  else if (w0 =? 100) && (w1 =? 65435) && (w2 =? 1) then true
  else if w0 =? 8194 then isBlockedIpv4 (wordsToIpv4 w1 w2)
  else if (w0 =? 256) && zero [w1; w2; w3] then true
  else if band w0 65024 =? 64512 then true
  else if band w0 65472 =? 65152 then true
  else if band w0 65472 =? 65216 then true
  else if band w0 65280 =? 65280 then true
  else (w0 =? 8193) && (w1 =? 3512).

(* src/src/security/outbound-url-policy.js:93-116 isBlockedIpv6 *)
Definition isBlockedIpv6 (address : string) : bool :=
  match ipv6Words address with
  | [Some w0; Some w1; Some w2; Some w3; Some w4; Some w5; Some w6; Some w7] => blocked_words (w0, w1, w2, w3, w4, w5, w6, w7)
  | _ => true
  end.

Example blocked_mapped : isBlockedIpv6 "::ffff:169.254.169.254" = true. Proof. by vm_compute. Qed.
Example blocked_hex : isBlockedIpv6 "::FFFF:a9fe:a9fe%eth0" = true. Proof. by vm_compute. Qed.
Example allowed_mapped : isBlockedIpv6 "::ffff:8.8.8.8" = false. Proof. by vm_compute. Qed.
Example blocked_nat64 : isBlockedIpv6 "64:ff9b::10.0.0.1" = true. Proof. by vm_compute. Qed.
Example allowed_global : isBlockedIpv6 "2606:4700:4700::1111" = false. Proof. by vm_compute. Qed.
Example blocked_6to4 : isBlockedIpv6 "2002:7f00:1::" = true. Proof. by vm_compute. Qed.

(** ** The checks *)

Section policy.
(** [net.isIP]. *)
Context (isIP : string → nat).

(* src/src/security/outbound-url-policy.js:122-127 isNonPublicAddress *)
Definition isNonPublicAddress (address : string) : bool :=
  match isIP (before_percent address) with
  | 4%nat => isBlockedIpv4 address
  | 6%nat => isBlockedIpv6 address
  | _ => true
  end.

(* src/src/security/outbound-url-policy.js:36-41 isLocalhostName *)
Definition isLocalhostName (hostname : string) : bool :=
  mem (toLowerCase hostname) ["localhost"; "127.0.0.1"; "::1"; "[::1]"].

(** What [new URL] answers. *)
Record url := Url { username : string; password : string; search : string; hash : string; protocol : string; hostname : string }.
Context (parse_url : string → option url).

Inductive url_error := InvalidUrl | HasCredentials | HasQuery | NotHttps | PlainHttp | Unresolved | NonPublic.

(** [host.replace(/^\[|\]$/g, '')] *)
Definition open_bracket (s : string) : string := match s with String c s' => if is_char 91 c then s' else s | _ => s end.
Fixpoint close_bracket (s : string) : string :=
  match s with
  | String c EmptyString => if is_char 93 c then EmptyString else s
  | String c s' => String c (close_bracket s')
  | EmptyString => EmptyString
  end.
Definition bare (host : string) : string := close_bracket (open_bracket host).

Definition empty (s : string) : bool := bool_decide (s = "").

(** [lookup host] is [None] when the name does not resolve. *)
(* src/src/security/outbound-url-policy.js:136-169 assertSafeOutboundUrl *)
Definition assertSafeOutboundUrl (raw : option string) (allowLocalhost : bool) (lookup : string → option (list string))
  : result url_error url :=
  match parse_url (trim (default "" raw)) with
  | None => Err InvalidUrl
  | Some url =>
      if negb (empty (username url)) || negb (empty (password url)) then Err HasCredentials
      else if negb (empty (search url)) || negb (empty (hash url)) then Err HasQuery
      else if negb (mem (protocol url) ["https:"; "http:"]) then Err NotHttps
      else
        let host := toLowerCase (hostname url) in
        if allowLocalhost && isLocalhostName host then Ok url
        else if bool_decide (protocol url = "http:") then Err PlainHttp
        else
          let bareHost := bare host in
          match (if Nat.eqb (isIP bareHost) 0 then lookup bareHost else Some [bareHost]) with
          | None | Some [] => Err Unresolved
          | Some addresses => if existsb isNonPublicAddress addresses then Err NonPublic else Ok url
          end
  end.

(** The addresses the socket may use: all of them, or the first. *)
(* src/src/security/safe-fetch.js:33-48 createGuardedLookup *)
Definition guardedLookup (allowLocalhost all : bool) (lookup : string → option (list string)) (hostname : string)
  : result url_error (list string) :=
  match lookup hostname with
  | None => Err Unresolved
  | Some list =>
      let exempt := allowLocalhost && isLocalhostName hostname in
      if bool_decide (list = []) || (negb exempt && existsb isNonPublicAddress list) then Err NonPublic
      else Ok (if all then list else take 1 list)
  end.

(** Where the request connects.  A host that is an address is connected to
    directly; any other name goes through the guarded lookup, as it resolves at
    that moment.  The response is not represented. *)
(* src/src/security/safe-fetch.js:54-73 createSafeFetch *)
Definition safeFetch (href : string) (allowLocalhost all : bool) (lookup : string → option (list string))
  : result url_error (list string) :=
  match parse_url href with
  | None => Err InvalidUrl
  | Some target =>
      if negb (mem (protocol target) ["https:"; "http:"]) then Err NotHttps
      else
        let exempt := allowLocalhost && isLocalhostName (hostname target) in
        if bool_decide (protocol target = "http:") && negb exempt then Err PlainHttp
        else
          let bareHost := bare (hostname target) in
          if negb (Nat.eqb (isIP bareHost) 0) && negb exempt && isNonPublicAddress bareHost then Err NonPublic
          else if Nat.eqb (isIP bareHost) 0 then guardedLookup allowLocalhost all lookup bareHost
          else Ok [bareHost]
  end.
End policy.

(** ** Texts of addresses *)

Lemma all_digits_char n s : (n < 48)%nat ∨ (57 < n)%nat → all_digits s = true → has_char n s = false.
Proof.
  intros Hn. induction s as [|c s IH]; [done|]. cbn [all_digits has_char]. intros [Hc Hs]%andb_true_iff'. rewrite IH by done.
  rewrite orb_false_r. unfold is_digit in Hc. cbn zeta in Hc. apply andb_true_iff' in Hc as [H1%N.leb_le H2%N.leb_le].
  unfold is_char, Ascii.nat_of_ascii. apply Nat.eqb_neq. lia.
Qed.

Lemma byte_digits z : byte z → all_digits (pretty z) = true ∧ decimal (pretty z) = z.
Proof.
  unfold byte. intros Hz. destruct (pretty_digits 3 z ltac:(lia) ltac:(change (10 ^ Z.of_nat 3) with 1000; lia)) as (Ha & _ & Hr).
  split; [done|]. unfold decimal. rewrite Hr. cbn [fst]. lia.
Qed.

Definition quad (a b c d : Z) : string := pretty a +:+ "." +:+ pretty b +:+ "." +:+ pretty c +:+ "." +:+ pretty d.
Definition value4 (a b c d : Z) : Z := ((a * 256 + b) * 256 + c) * 256 + d.

Lemma split_quad a b c d : byte a → byte b → byte c → byte d → split_dots (quad a b c d) = [pretty a; pretty b; pretty c; pretty d].
Proof.
  intros Ha Hb Hc Hd. assert (∀ z, byte z → dotless (pretty z)) as Hdot.
  { intros z Hz. apply all_digits_char; [lia|]. by apply byte_digits. }
  unfold quad. rewrite !split_dots_app by auto. by rewrite split_dots_dotless by auto.
Qed.

Lemma ipv4ToInt_quad a b c d : byte a → byte b → byte c → byte d → ipv4ToInt (quad a b c d) = value4 a b c d.
Proof.
  intros Ha Hb Hc Hd. unfold ipv4ToInt. rewrite split_quad by done. cbn [foldl]. unfold value4.
  by rewrite !(λ z H, proj2 (byte_digits z H)) by done.
Qed.

(** ** Ranges *)

Definition in_range (first len v : Z) : bool := (first <=? v) && (v <? first + len).

Lemma masked v bits : 0 < bits ≤ 32 → ushr (band v (cidr_mask bits)) 0 = Z.shiftl (Z.shiftr (v mod 2 ^ 32) (32 - bits)) (32 - bits).
Proof.
  intros Hb. assert (∀ i, 0 ≤ i < 32 → Z.testbit (cidr_mask bits) i = (32 - bits <=? i)) as Hm.
  { intros i Hi. unfold cidr_mask. rewrite (proj2 (Z.eqb_neq _ _)) by lia. rewrite ushr_testbit, shl_testbit, Z.add_0_r by lia.
    destruct (32 - bits <=? i) eqn:E; [|done]. bool_simplify. cbn [andb]. change 4294967295 with (Z.ones 32). apply Z.ones_spec_low. lia. }
  apply Z.bits_inj'. intros i Hi. rewrite Z.shiftl_spec by lia. unfold ushr. change (0 mod 32) with 0. rewrite Z.shiftr_0_r. unfold to_uint32.
  destruct (decide (i < 32)) as [Hlt|Hge].
  - rewrite Z.mod_pow2_bits_low, band_testbit, Hm by lia. destruct (32 - bits <=? i) eqn:E; bool_simplify.
    + rewrite Z.shiftr_spec by lia. replace (i - (32 - bits) + (32 - bits)) with i by lia. by rewrite Z.mod_pow2_bits_low, andb_true_r by lia.
    + by rewrite (Z.testbit_neg_r _ (i - (32 - bits))), andb_false_r by lia.
  - rewrite Z.mod_pow2_bits_high by lia. symmetry. rewrite Z.shiftr_spec by lia. replace (i - (32 - bits) + (32 - bits)) with i by lia.
    by rewrite Z.mod_pow2_bits_high by lia.
Qed.

(** Comparing the high part is membership in a range. *)
Lemma aligned v base p : 0 < p → base mod p = 0 → (v / p * p =? base) = in_range base p v.
Proof.
  intros Hp Hm. assert (base = p * (base / p)) as Hbd by (pose proof (Z.div_mod base p ltac:(lia)); lia).
  pose proof (Z.div_mod v p ltac:(lia)) as Hvd. pose proof (Z.mod_pos_bound v p Hp) as Hvm.
  unfold in_range. apply eq_iff_eq_true. rewrite Z.eqb_eq, andb_true_iff', Z.leb_le, Z.ltb_lt.
  set (q := v / p) in *. set (r := v mod p) in *. set (b := base / p) in *. clearbody q r b. clear Hm. subst base v. split.
  - intros H. assert (q = b) as -> by (apply (Z.mul_reg_r _ _ p); lia). lia.
  - intros [H1 H2]. assert (q = b) as -> by nia. lia.
Qed.

(** The masked comparison is membership in the range. *)
Lemma cidr_range v base bits :
  0 ≤ v < 2 ^ 32 → 0 ≤ base < 2 ^ 32 → 0 < bits ≤ 32 → base mod 2 ^ (32 - bits) = 0 →
  (ushr (band v (cidr_mask bits)) 0 =? ushr (band base (cidr_mask bits)) 0) = in_range base (2 ^ (32 - bits)) v.
Proof.
  intros Hv Hbase Hb Hm. rewrite !masked by lia. rewrite !Z.mod_small by lia. rewrite !Z.shiftl_mul_pow2, !Z.shiftr_div_pow2 by lia.
  assert (base / 2 ^ (32 - bits) * 2 ^ (32 - bits) = base) as ->.
  { pose proof (Z.div_mod base (2 ^ (32 - bits)) ltac:(apply Z.pow_nonzero; lia)). lia. }
  apply aligned; [apply Z.pow_pos_nonneg; lia|done].
Qed.

(** Non-public IPv4 space, as first address and size. *)
Definition NON_PUBLIC4 : list (Z * Z) :=
  [(value4 0 0 0 0, 2 ^ 24); (value4 10 0 0 0, 2 ^ 24); (value4 100 64 0 0, 2 ^ 22); (value4 127 0 0 0, 2 ^ 24);
   (value4 169 254 0 0, 2 ^ 16); (value4 172 16 0 0, 2 ^ 20); (value4 192 0 0 0, 2 ^ 8); (value4 192 0 2 0, 2 ^ 8);
   (value4 192 168 0 0, 2 ^ 16); (value4 198 18 0 0, 2 ^ 17); (value4 198 51 100 0, 2 ^ 8); (value4 203 0 113 0, 2 ^ 8);
   (value4 224 0 0 0, 2 ^ 28); (value4 240 0 0 0, 2 ^ 28)].
Definition non_public4 (v : Z) : bool := existsb (λ '(first, len), in_range first len v) NON_PUBLIC4.

Lemma isBlockedIpv4_value address :
  0 ≤ ipv4ToInt address < 2 ^ 32 → isBlockedIpv4 address = non_public4 (ipv4ToInt address).
Proof.
  intros Hv. unfold isBlockedIpv4. cbn zeta. revert Hv. generalize (ipv4ToInt address). intros v Hv.
  unfold BLOCKED_IPV4_CIDRS, non_public4, NON_PUBLIC4. cbn [existsb].
  rewrite !cidr_range by (first [done|lia|vm_compute; split; congruence]). reflexivity.
Qed.

(** ** IPv6 space *)

Definition word (w : Z) : Prop := 0 ≤ w < 65536.
Definition value6 (w0 w1 w2 w3 w4 w5 w6 w7 : Z) : Z :=
  ((((((w0 * 2 ^ 16 + w1) * 2 ^ 16 + w2) * 2 ^ 16 + w3) * 2 ^ 16 + w4) * 2 ^ 16 + w5) * 2 ^ 16 + w6) * 2 ^ 16 + w7.

(** Never public: IPv4-translated, local-use NAT64, discard-only, unique-local,
    link-local, site-local, multicast, documentation. *)
Definition NON_PUBLIC6 : list (Z * Z) :=
  [(value6 0 0 0 0 65535 0 0 0, 2 ^ 32); (value6 100 65435 1 0 0 0 0 0, 2 ^ 80); (value6 256 0 0 0 0 0 0 0, 2 ^ 64);
   (value6 64512 0 0 0 0 0 0 0, 2 ^ 121); (value6 65152 0 0 0 0 0 0 0, 2 ^ 118); (value6 65216 0 0 0 0 0 0 0, 2 ^ 118);
   (value6 65280 0 0 0 0 0 0 0, 2 ^ 120); (value6 8193 3512 0 0 0 0 0 0, 2 ^ 96)].
(** Public if the IPv4 address inside is: compatible, mapped, NAT64, 6to4.  The
    first holds "::" and "::1" as well, inside 0.0.0.0/8. *)
Definition EMBEDDED6 : list (Z * Z * Z) :=
  [(value6 0 0 0 0 0 0 0 0, 2 ^ 32, 0); (value6 0 0 0 0 0 65535 0 0, 2 ^ 32, 0); (value6 100 65435 0 0 0 0 0 0, 2 ^ 32, 0);
   (value6 8194 0 0 0 0 0 0 0, 2 ^ 112, 80)].
Definition non_public6 (v : Z) : bool :=
  existsb (λ '(first, len), in_range first len v) NON_PUBLIC6 ||
  existsb (λ '(first, len, shift), in_range first len v && non_public4 (v / 2 ^ shift mod 2 ^ 32)) EMBEDDED6.

Lemma word_mask w k : word w → 0 ≤ k ≤ 16 → band w (2 ^ 16 - 2 ^ k) = w / 2 ^ k * 2 ^ k.
Proof.
  unfold word. intros Hw Hk. assert (2 ^ k ≤ 2 ^ 16) by (apply Z.pow_le_mono_r; lia). assert (0 < 2 ^ k) by (apply Z.pow_pos_nonneg; lia).
  assert (2 ^ 16 - 2 ^ k = Z.shiftl (Z.ones (16 - k)) k) as Hm.
  { rewrite Z.ones_equiv, Z.shiftl_mul_pow2 by lia. unfold Z.pred. rewrite Z.mul_add_distr_r, <- Z.pow_add_r by lia.
    replace (16 - k + k) with 16 by lia. lia. }
  rewrite <- Z.shiftr_div_pow2, <- Z.shiftl_mul_pow2 by lia. unfold band. rewrite (to_int32_small w), (to_int32_small (_ - _)) by lia.
  rewrite Hm. assert (Z.land w (Z.shiftl (Z.ones (16 - k)) k) = Z.shiftl (Z.shiftr w k) k) as ->.
  - apply Z.bits_inj'. intros i Hi. rewrite Z.land_spec, !Z.shiftl_spec by lia. destruct (decide (i < k)).
    { by rewrite !(Z.testbit_neg_r _ (i - k)), andb_false_r by lia. }
    rewrite Z.shiftr_spec by lia. replace (i - k + k) with i by lia. destruct (decide (i < 16)).
    + by rewrite Z.ones_spec_low, andb_true_r by lia.
    + by rewrite (testbit_high w 16) by lia.
  - rewrite Z.shiftl_mul_pow2, Z.shiftr_div_pow2 by lia. apply to_int32_small.
    pose proof (Z.div_mod w (2 ^ k) ltac:(lia)). pose proof (Z.mod_pos_bound w (2 ^ k) ltac:(lia)). pose proof (Z.div_pos w (2 ^ k) ltac:(lia) ltac:(lia)). lia.
Qed.

Lemma masks w : word w →
  (band w 65024 =? 64512) = in_range 64512 512 w ∧ (band w 65472 =? 65152) = in_range 65152 64 w ∧
  (band w 65472 =? 65216) = in_range 65216 64 w ∧ (band w 65280 =? 65280) = in_range 65280 256 w.
Proof.
  intros Hw. pose proof (word_mask w 9 Hw) as H9. pose proof (word_mask w 6 Hw) as H6. pose proof (word_mask w 8 Hw) as H8.
  change (2 ^ 16 - 2 ^ 9) with 65024 in H9. change (2 ^ 16 - 2 ^ 6) with 65472 in H6. change (2 ^ 16 - 2 ^ 8) with 65280 in H8.
  rewrite H9, H6, H8 by lia. unfold word in Hw. split_and!; by apply aligned.
Qed.

Lemma words_blocked h l : word h → word l → isBlockedIpv4 (wordsToIpv4 h l) = non_public4 (h * 65536 + l).
Proof.
  unfold word. intros Hh Hl.
  assert (∀ w, 0 ≤ w < 65536 → band w 255 = w mod 256 ∧ Z.shiftr w 8 = w / 256) as Hw.
  { intros w ?. split; [change 255 with (Z.ones 8); by rewrite band_ones by lia|by rewrite Z.shiftr_div_pow2]. }
  unfold wordsToIpv4. destruct (Hw h Hh) as [-> ->], (Hw l Hl) as [-> ->].
  assert (∀ w, 0 ≤ w < 65536 → byte (w / 256) ∧ byte (w mod 256)) as Hb.
  { intros w ?. unfold byte. pose proof (Z.mod_pos_bound w 256 ltac:(lia)). split; [|lia]. split; [apply Z.div_pos; lia|apply Z.div_lt_upper_bound; lia]. }
  destruct (Hb h Hh) as [H1 H2], (Hb l Hl) as [H3 H4]. fold (quad (h / 256) (h mod 256) (l / 256) (l mod 256)).
  pose proof (ipv4ToInt_quad _ _ _ _ H1 H2 H3 H4) as Hv.
  assert (value4 (h / 256) (h mod 256) (l / 256) (l mod 256) = h * 65536 + l) as He.
  { unfold value4. pose proof (Z.div_mod h 256 ltac:(lia)). pose proof (Z.div_mod l 256 ltac:(lia)). lia. }
  rewrite isBlockedIpv4_value; rewrite Hv, He; [done|lia].
Qed.

(** The ranges in terms of the words. *)
Section ranges.
Context (w0 w1 w2 w3 w4 w5 w6 w7 : Z).
Context (H0 : word w0) (H1 : word w1) (H2 : word w2) (H3 : word w3) (H4 : word w4) (H5 : word w5) (H6 : word w6) (H7 : word w7).

Local Ltac by_words := clear -H0 H1 H2 H3 H4 H5 H6 H7; unfold in_range, value6, word in *; apply eq_iff_eq_true; rewrite ?andb_true_iff', ?Z.eqb_eq, ?Z.leb_le, ?Z.ltb_lt; lia.
Abbreviation v := (value6 w0 w1 w2 w3 w4 w5 w6 w7).

Lemma range_translated : in_range (value6 0 0 0 0 65535 0 0 0) (2 ^ 32) v =
  (w0 =? 0) && (w1 =? 0) && (w2 =? 0) && (w3 =? 0) && (w4 =? 65535) && (w5 =? 0).
Proof. by_words. Qed.
Lemma range_local_nat64 : in_range (value6 100 65435 1 0 0 0 0 0) (2 ^ 80) v = (w0 =? 100) && (w1 =? 65435) && (w2 =? 1).
Proof. by_words. Qed.
Lemma range_discard : in_range (value6 256 0 0 0 0 0 0 0) (2 ^ 64) v = (w0 =? 256) && (w1 =? 0) && (w2 =? 0) && (w3 =? 0).
Proof. by_words. Qed.
Lemma range_first_word first len : in_range (value6 first 0 0 0 0 0 0 0) (len * 2 ^ 112) v = in_range first len w0.
Proof. by_words. Qed.
Lemma range_documentation : in_range (value6 8193 3512 0 0 0 0 0 0) (2 ^ 96) v = (w0 =? 8193) && (w1 =? 3512).
Proof. by_words. Qed.
Lemma range_low32 c0 c1 c5 : word c0 → word c1 → word c5 →
  in_range (value6 c0 c1 0 0 0 c5 0 0) (2 ^ 32) v = (w0 =? c0) && (w1 =? c1) && (w2 =? 0) && (w3 =? 0) && (w4 =? 0) && (w5 =? c5).
Proof. intros K0 K1 K5. clear -H0 H1 H2 H3 H4 H5 H6 H7 K0 K1 K5. unfold in_range, value6, word in *. apply eq_iff_eq_true. rewrite ?andb_true_iff', ?Z.eqb_eq, ?Z.leb_le, ?Z.ltb_lt. lia. Qed.

Lemma embedded_low : v / 2 ^ 0 mod 2 ^ 32 = w6 * 65536 + w7.
Proof.
  unfold word in *. change (2 ^ 0) with 1. rewrite Z.div_1_r. symmetry.
  apply (Z.mod_unique _ _ (((((w0 * 2 ^ 16 + w1) * 2 ^ 16 + w2) * 2 ^ 16 + w3) * 2 ^ 16 + w4) * 2 ^ 16 + w5)); [lia|]. unfold value6. lia.
Qed.
Lemma embedded_6to4 : v / 2 ^ 80 mod 2 ^ 32 = w1 * 65536 + w2.
Proof.
  unfold word in *. assert (v / 2 ^ 80 = w0 * 2 ^ 32 + (w1 * 65536 + w2)) as ->.
  - symmetry. apply (Z.div_unique _ _ _ ((((w3 * 2 ^ 16 + w4) * 2 ^ 16 + w5) * 2 ^ 16 + w6) * 2 ^ 16 + w7)); [lia|]. unfold value6. lia.
  - symmetry. apply (Z.mod_unique _ _ w0); lia.
Qed.
End ranges.

(** The rules, in their order, decide the ranges. *)
Lemma blocked_words_value w0 w1 w2 w3 w4 w5 w6 w7 :
  word w0 → word w1 → word w2 → word w3 → word w4 → word w5 → word w6 → word w7 →
  blocked_words (w0, w1, w2, w3, w4, w5, w6, w7) = non_public6 (value6 w0 w1 w2 w3 w4 w5 w6 w7).
Proof.
  intros H0 H1 H2 H3 H4 H5 H6 H7. unfold blocked_words. cbv zeta.
  destruct (masks w0 H0) as (-> & -> & -> & ->). rewrite !words_blocked by done.
  unfold non_public6, NON_PUBLIC6, EMBEDDED6. cbn [existsb forallb].
  change (2 ^ 121) with (512 * 2 ^ 112). change (2 ^ 118) with (64 * 2 ^ 112). change (2 ^ 120) with (256 * 2 ^ 112).
  change (in_range (value6 8194 0 0 0 0 0 0 0) (2 ^ 112)) with (in_range (value6 8194 0 0 0 0 0 0 0) (1 * 2 ^ 112)).
  rewrite range_translated, range_local_nat64, range_discard, !range_first_word, range_documentation, !range_low32, embedded_low, embedded_6to4
    by (done || (unfold word; lia)).
  rewrite !orb_false_r, !andb_true_r.
  assert (w6 = 0 → w7 = 0 ∨ w7 = 1 → non_public4 (w6 * 65536 + w7) = true) as Hzero by (by intros -> [->| ->]).
  revert Hzero. generalize (non_public4 (w6 * 65536 + w7)) (non_public4 (w1 * 65536 + w2)). intros b1 b2 Hzero.
  assert ((w0 =? 8194) = in_range 8194 1 w0) as -> by (unfold in_range; apply eq_iff_eq_true; rewrite andb_true_iff'; lia).
  destruct (w0 =? 0) eqn:E0; bool_simplify.
  - change (in_range 64512 512 0) with false. change (in_range 65152 64 0) with false. change (in_range 65216 64 0) with false.
    change (in_range 65280 256 0) with false. change (in_range 8194 1 0) with false. cbn [Z.eqb andb orb].
    destruct (w1 =? 0), (w2 =? 0), (w3 =? 0); cbn [andb orb]; try reflexivity.
    destruct (w4 =? 0) eqn:E4; bool_simplify; cbn [Z.eqb andb orb].
    + destruct (w5 =? 0) eqn:E5; bool_simplify; cbn [Z.eqb andb orb]; [|by destruct (w5 =? 65535), b1].
      destruct (w6 =? 0) eqn:E6; bool_simplify; cbn [Z.eqb andb orb]; [|by destruct b1].
      destruct (w7 =? 0) eqn:E7; bool_simplify; [by rewrite Hzero by auto|].
      destruct (w7 =? 1) eqn:E8; bool_simplify; [by rewrite Hzero by auto|by destruct b1].
    + by destruct (w4 =? 65535), (w5 =? 0).
  - cbn [andb orb]. destruct (w0 =? 100) eqn:E1; bool_simplify.
    { change (in_range 64512 512 100) with false. change (in_range 65152 64 100) with false. change (in_range 65216 64 100) with false.
      change (in_range 65280 256 100) with false. change (in_range 8194 1 100) with false. cbn [Z.eqb andb orb].
      destruct (w1 =? 65435); [|done]. destruct (w2 =? 0) eqn:E2; bool_simplify; cbn [Z.eqb andb orb]; [|by destruct (w2 =? 1)].
      by destruct (w3 =? 0), (w4 =? 0), (w5 =? 0), b1. }
    cbn [andb orb]. assert ((w0 =? 256) && (w1 =? 0) && (w2 =? 0) && (w3 =? 0) = (w0 =? 256) && ((w1 =? 0) && ((w2 =? 0) && (w3 =? 0)))) as ->
      by (by rewrite !andb_assoc).
    destruct (in_range 8194 1 w0) eqn:E3.
    { assert (w0 = 8194) as -> by (unfold in_range in E3; lia). cbn [Z.eqb andb orb]. by destruct b2. }
    destruct ((w0 =? 256) && _), (in_range 64512 512 w0), (in_range 65152 64 w0), (in_range 65216 64 w0), (in_range 65280 256 w0),
      ((w0 =? 8193) && (w1 =? 3512)); reflexivity.
Qed.

(** ** Written forms

    Up to eight groups of hexadecimal digits, at most one gap, the last two
    groups possibly as a dotted quad, letters of either case, and a zone. *)

Definition hex_char (c : Ascii.ascii) : bool := bool_decide (is_Some (hex_value c)).
Fixpoint all_hex (s : string) : bool := match s with String c s => hex_char c && all_hex s | EmptyString => true end.
Definition group (g : string) : Prop := g ≠ "" ∧ all_hex g = true.
Definition vals (gs : list string) : list Z := (λ g, read_hex g 0) <$> gs.

Fixpoint join (gs : list string) : string :=
  match gs with [] => "" | [g] => g | g :: gs => g +:+ ":" +:+ join gs end.
Fixpoint colons (gs : list string) : string := match gs with [] => "" | g :: gs => g +:+ ":" +:+ colons gs end.

(** The part of an address that ends it. *)
Inductive ending := Groups (gs : list string) | Quad (gs : list string) (a b c d : Z).
Definition text_of (e : ending) : string :=
  match e with Groups gs => join gs | Quad gs a b c d => colons gs +:+ quad a b c d end.
Definition words_of (e : ending) : list Z :=
  match e with Groups gs => vals gs | Quad gs a b c d => vals gs ++ [a * 256 + b; c * 256 + d] end.
Definition ending_ok (e : ending) : Prop :=
  match e with
  | Groups gs => Forall group gs
  | Quad gs a b c d => Forall group gs ∧ byte a ∧ byte b ∧ byte c ∧ byte d
  end.

Inductive written : string → list Z → Prop :=
  | written_full e : ending_ok e → length (words_of e) = 8%nat → written (text_of e) (words_of e)
  | written_gap hs e :
      Forall group hs → ending_ok e → (length hs + length (words_of e) ≤ 8)%nat →
      written (join hs +:+ "::" +:+ text_of e)
        (vals hs ++ replicate (8 - length hs - length (words_of e)) 0 ++ words_of e).

(** *** Characters *)

Lemma hex_lower c : hex_char c = true → hex_value (lower c) = hex_value c ∧ hex_char (lower c) = true ∧
  is_char 37 c = false ∧ is_char 46 c = false ∧ c ≠ colon.
Proof. destruct c as [[] [] [] [] [] [] [] []]; intros H; vm_compute in H; first [discriminate H|by vm_compute]. Qed.

Lemma group_lower g : all_hex g = true →
  all_hex (toLowerCase g) = true ∧ (∀ acc, read_hex (toLowerCase g) acc = read_hex g acc) ∧ (toLowerCase g = "" → g = "").
Proof.
  induction g as [|c g IH]; [done|]. cbn [all_hex toLowerCase read_hex]. intros [Hc Hg]%andb_true_iff'.
  destruct (hex_lower c Hc) as (Hv & Hl & _), (IH Hg) as (Ha & Hr & _). rewrite Hv, Hl, Ha. split_and!; [done| |done].
  intros acc. destruct (hex_value c); [apply Hr|done].
Qed.

Lemma hex_no_char n g : n = 37%nat ∨ n = 46%nat → all_hex g = true → has_char n g = false.
Proof.
  intros Hn. induction g as [|c g IH]; [done|]. cbn [all_hex has_char]. intros [Hc Hg]%andb_true_iff'.
  destruct (hex_lower c Hc) as (_ & _ & H1 & H2 & _). rewrite IH by done. by destruct Hn as [->| ->]; rewrite ?H1, ?H2.
Qed.

Lemma has_char_app n s t : has_char n (s +:+ t) = has_char n s || has_char n t.
Proof. induction s as [|c s IH]; [done|]. change (is_char n c || has_char n (s +:+ t) = is_char n c || has_char n s || has_char n t). by rewrite IH, orb_assoc. Qed.
Lemma toLowerCase_app s t : toLowerCase (s +:+ t) = toLowerCase s +:+ toLowerCase t.
Proof. induction s as [|c s IH]; [done|]. change (String (lower c) (toLowerCase (s +:+ t)) = String (lower c) (toLowerCase s +:+ toLowerCase t)). by rewrite IH. Qed.

Lemma digits_lower s : all_digits s = true → toLowerCase s = s.
Proof.
  induction s as [|c s IH]; [done|]. cbn [all_digits toLowerCase]. intros [Hc Hs]%andb_true_iff'. rewrite IH by done. f_equal.
  revert Hc. by destruct c as [[] [] [] [] [] [] [] []]; first [reflexivity|intros H; vm_compute in H].
Qed.

Lemma join_cons g gs : gs ≠ [] → join (g :: gs) = g +:+ ":" +:+ join gs.
Proof. by destruct gs. Qed.
Lemma join_app gs ks : ks ≠ [] → join (gs ++ ks) = colons gs +:+ join ks.
Proof.
  intros Hks. induction gs as [|g gs IH]; [done|]. cbn [app colons]. rewrite join_cons by (by destruct gs, ks). by rewrite IH, !string_app_assoc.
Qed.

Lemma lower_join gs : toLowerCase (join gs) = join (toLowerCase <$> gs).
Proof.
  induction gs as [|g gs IH]; [done|]. destruct gs as [|g' gs]; [done|]. rewrite join_cons by done.
  rewrite !fmap_cons, (join_cons (toLowerCase g)) by done. rewrite !toLowerCase_app, IH. by rewrite fmap_cons.
Qed.
Lemma lower_colons gs : toLowerCase (colons gs) = colons (toLowerCase <$> gs).
Proof. induction gs as [|g gs IH]; [done|]. rewrite fmap_cons. cbn [colons]. by rewrite !toLowerCase_app, IH. Qed.
Lemma lower_quad a b c d : byte a → byte b → byte c → byte d → toLowerCase (quad a b c d) = quad a b c d.
Proof. intros Ha Hb Hc Hd. unfold quad. rewrite !toLowerCase_app. by rewrite !(λ z H, digits_lower (pretty z) (proj1 (byte_digits z H))) by done. Qed.

Definition lower_ending (e : ending) : ending :=
  match e with Groups gs => Groups (toLowerCase <$> gs) | Quad gs a b c d => Quad (toLowerCase <$> gs) a b c d end.

Lemma lower_groups gs : Forall group gs → Forall group (toLowerCase <$> gs) ∧ vals (toLowerCase <$> gs) = vals gs.
Proof.
  induction 1 as [|g gs [Hne Hg] _ [IH1 IH2]]; [done|]. destruct (group_lower g Hg) as (Ha & Hr & He).
  rewrite fmap_cons. unfold vals in *. rewrite !fmap_cons, Hr, IH2. split; [|done]. constructor; [|done]. split; [by intros ?%He|done].
Qed.
Lemma lower_ending_ok e : ending_ok e →
  ending_ok (lower_ending e) ∧ words_of (lower_ending e) = words_of e ∧ toLowerCase (text_of e) = text_of (lower_ending e).
Proof.
  destruct e as [gs|gs a b c d]; cbn [ending_ok lower_ending words_of text_of].
  - intros Hg. destruct (lower_groups gs Hg) as [? ?]. by rewrite lower_join.
  - intros (Hg & Ha & Hb & Hc & Hd). destruct (lower_groups gs Hg) as [? Hv]. by rewrite toLowerCase_app, lower_colons, lower_quad, Hv.
Qed.

(** *** Splitting what was joined *)

Definition starts_group (s : string) : Prop := ∃ c s', s = String c s' ∧ c ≠ colon.

Lemma group_chars g : group g → ∃ c g', g = String c g' ∧ hex_char c = true ∧ all_hex g' = true.
Proof. intros [Hne Hg]. destruct g as [|c g']; [done|]. cbn [all_hex] in Hg. apply andb_true_iff' in Hg as [? ?]. eauto. Qed.

Lemma at_gap_char c s : c ≠ colon → at_gap (String c s) = (String c (at_gap s).1, (at_gap s).2).
Proof.
  intros Hc. destruct s as [|c' s]; [done|]. change (at_gap (String c (String c' s))) with
    (if bool_decide (c = colon) && bool_decide (c' = colon) then (EmptyString, Some s) else let '(h, t) := at_gap (String c' s) in (String c h, t)).
  rewrite bool_decide_neq by done. cbn [andb]. by destruct (at_gap (String c' s)).
Qed.
Lemma at_gap_colon s : starts_group s → at_gap (String colon s) = (String colon (at_gap s).1, (at_gap s).2).
Proof.
  intros (c & s' & -> & Hc). change (at_gap (String colon (String c s'))) with
    (if bool_decide (colon = colon) && bool_decide (c = colon) then (EmptyString, Some s') else let '(h, t) := at_gap (String c s') in (String colon h, t)).
  rewrite (bool_decide_neq c) by done. rewrite andb_false_r. by destruct (at_gap (String c s')).
Qed.
Lemma at_gap_group g s : all_hex g = true → at_gap (g +:+ s) = (g +:+ (at_gap s).1, (at_gap s).2).
Proof.
  induction g as [|c g IH]; [intros _; change (at_gap s = ((at_gap s).1, (at_gap s).2)); by destruct (at_gap s)|]. cbn [all_hex]. intros [Hc Hg]%andb_true_iff'.
  destruct (hex_lower c Hc) as (_ & _ & _ & _ & Hne). change (at_gap (String c (g +:+ s)) = (String c (g +:+ (at_gap s).1), (at_gap s).2)).
  by rewrite at_gap_char, IH.
Qed.

Lemma group_starts g s : group g → starts_group (g +:+ s).
Proof. intros Hg. destruct (group_chars g Hg) as (c & g' & -> & Hc & _). exists c, (g' +:+ s). split; [done|]. by apply hex_lower. Qed.
Lemma join_starts gs s : Forall group gs → gs ≠ [] → starts_group (join gs +:+ s).
Proof.
  intros Hgs Hne. destruct Hgs as [|g gs Hg Hgs]; [done|]. destruct gs as [|g' gs]; [by apply group_starts|].
  rewrite join_cons by done. rewrite string_app_assoc. by apply group_starts.
Qed.

Lemma at_gap_joined gs s : Forall group gs → (gs = [] ∨ s = "" ∨ ∃ s', s = "::" +:+ s') →
  at_gap (join gs +:+ s) = (join gs +:+ (at_gap s).1, (at_gap s).2).
Proof.
  intros Hgs Hs. assert (at_gap (join [] +:+ s) = (join [] +:+ (at_gap s).1, (at_gap s).2)) as Hnil by (by apply (at_gap_group "")).
  destruct Hs as [->|Hs]; [done|]. induction Hgs as [|g gs [Hne Hg] Hgs IH]; [done|].
  destruct gs as [|g' gs]; [by apply at_gap_group|]. rewrite join_cons by done. rewrite !string_app_assoc.
  rewrite at_gap_group by done. change (":" +:+ join (g' :: gs) +:+ s) with (String colon (join (g' :: gs) +:+ s)).
  rewrite at_gap_colon by (by apply join_starts). by rewrite IH.
Qed.

Lemma split_colons_group g s : all_hex g = true →
  split_colons (g +:+ s) = match split_colons s with part :: parts => (g +:+ part) :: parts | [] => [g] end.
Proof.
  induction g as [|c g IH]; [intros _; change ("" +:+ s) with s; destruct s as [|c s]; [done|]; cbn [split_colons]; destruct (bool_decide _), (split_colons s); done|].
  cbn [all_hex]. intros [Hc Hg]%andb_true_iff'. destruct (hex_lower c Hc) as (_ & _ & _ & _ & Hne).
  change (String c g +:+ s) with (String c (g +:+ s)). cbn [split_colons]. rewrite bool_decide_neq, IH by done. by destruct (split_colons s).
Qed.
Lemma split_colons_join gs : Forall group gs → gs ≠ [] → split_colons (join gs) = gs.
Proof.
  intros Hgs Hne. induction Hgs as [|g gs [_ Hg] Hgs IH]; [done|]. destruct gs as [|g' gs].
  - cbn [join]. rewrite <- (string_app_nil_r g) at 1. rewrite split_colons_group by done. cbn [split_colons]. by rewrite string_app_nil_r.
  - rewrite join_cons by done. rewrite split_colons_group by done. change (":" +:+ join (g' :: gs)) with (String colon (join (g' :: gs))).
    cbn [split_colons]. rewrite bool_decide_refl. rewrite string_app_nil_r. f_equal. by apply IH.
Qed.
Lemma parts_of_join gs : Forall group gs → parts_of (join gs) = gs.
Proof.
  intros Hgs. unfold parts_of. destruct gs as [|g gs]; [done|]. rewrite bool_decide_neq; [by apply split_colons_join|].
  intros He. destruct (join_starts (g :: gs) "" Hgs) as (c & s & Hs & _); [done|]. rewrite string_app_nil_r, He in Hs. done.
Qed.

(** *** The dotted quad at the end *)

Lemma is_quad_quad a b c d : byte a → byte b → byte c → byte d → is_quad (quad a b c d) = true.
Proof.
  intros Ha Hb Hc Hd. unfold is_quad. rewrite split_quad by done. cbn [forallb].
  assert (∀ z, byte z → negb (bool_decide (pretty z = "")) && all_digits (pretty z) = true) as Hz.
  { intros z Hz. destruct (byte_digits z Hz) as [-> Hd']. rewrite andb_true_r. apply negb_true_iff', bool_decide_eq_false. intros E. rewrite E in Hd'.
    assert (z = 0) as -> by done. by vm_compute in E. }
  by rewrite !Hz.
Qed.

Lemma split_dots_prefix p s : has_char 46 p = false →
  split_dots (p +:+ s) = match split_dots s with part :: parts => (p +:+ part) :: parts | [] => [p] end.
Proof.
  induction p as [|c p IH].
  { intros _. change ("" +:+ s) with s. destruct s as [|c s]; [done|]. cbn [split_dots]. destruct (is_char 46 c), (split_dots s); done. }
  cbn [has_char]. intros [Hc Hp]%orb_false_iff'. change (String c p +:+ s) with (String c (p +:+ s)). cbn [split_dots].
  rewrite Hc, IH by done. by destruct (split_dots s).
Qed.

(** A text with a colon before its first dot is no dotted quad. *)
Lemma not_quad p s : has_char 46 p = false → is_quad ((p +:+ ":") +:+ s) = false.
Proof.
  intros Hp. unfold is_quad. rewrite split_dots_prefix by (by rewrite has_char_app, Hp).
  assert (∀ q, all_digits ((p +:+ ":") +:+ q) = false) as Hf.
  { intros q. rewrite !all_digits_app. by destruct (all_digits p). }
  destruct (split_dots s) as [|s1 [|s2 [|s3 [|s4 [|]]]]]; try done. cbn [forallb]. by rewrite Hf, andb_false_r.
Qed.

Lemma quad_suffix_none s : has_char 46 s = false → quad_suffix s = None.
Proof.
  induction s as [|c s IH]; [done|]. intros Hs. cbn [quad_suffix].
  assert (is_quad (String c s) = false) as -> by (unfold is_quad; by rewrite split_dots_dotless).
  cbn [has_char] in Hs. apply orb_false_iff' in Hs as [_ Hs]. by rewrite IH.
Qed.

Lemma quad_suffix_colon p a b c d : has_char 46 p = false → byte a → byte b → byte c → byte d →
  quad_suffix ((p +:+ ":") +:+ quad a b c d) = Some (p +:+ ":", quad a b c d).
Proof.
  intros Hp Ha Hb Hc Hd. pose proof (is_quad_quad a b c d Ha Hb Hc Hd) as Hq.
  assert (quad_suffix (quad a b c d) = Some ("", quad a b c d)) as Hbase by (destruct (quad a b c d); cbn [quad_suffix]; by rewrite Hq).
  induction p as [|ch p IH].
  - change (("" +:+ ":") +:+ quad a b c d) with (String colon (quad a b c d)). cbn [quad_suffix].
    pose proof (not_quad "" (quad a b c d) eq_refl) as Hn. change (("" +:+ ":") +:+ quad a b c d) with (String colon (quad a b c d)) in Hn. by rewrite Hn, Hbase.
  - pose proof (not_quad (String ch p) (quad a b c d) Hp) as Hn. cbn [has_char] in Hp. apply orb_false_iff' in Hp as [_ Hp].
    change ((String ch p +:+ ":") +:+ quad a b c d) with (String ch ((p +:+ ":") +:+ quad a b c d)) in *. cbn [quad_suffix]. by rewrite Hn, IH.
Qed.

(** [toString(16)] and [parseInt(s, 16)]. *)
Lemma hex_digit_char d : 0 ≤ d < 16 → ∃ c, hex_digit d = String c "" ∧ hex_value c = Some d ∧ hex_char c = true.
Proof.
  intros Hd. assert (d = 0 ∨ d = 1 ∨ d = 2 ∨ d = 3 ∨ d = 4 ∨ d = 5 ∨ d = 6 ∨ d = 7 ∨ d = 8 ∨ d = 9 ∨ d = 10 ∨ d = 11 ∨ d = 12 ∨ d = 13 ∨ d = 14 ∨ d = 15) as H by lia.
  repeat destruct H as [->|H]; [..|subst d]; eexists; (split; [reflexivity|split; reflexivity]).
Qed.

Lemma hex_digit_then d s : 0 ≤ d < 16 → all_hex s = true →
  group (hex_digit d +:+ s) ∧ ∀ acc, read_hex (hex_digit d +:+ s) acc = read_hex s (acc * 16 + d).
Proof.
  intros Hd Hs. destruct (hex_digit_char d Hd) as (c & -> & Hv & Hc). change (String c "" +:+ s) with (String c s).
  split; [split; [done|]; cbn [all_hex]; by rewrite Hc, Hs|]. intros acc. cbn [read_hex]. by rewrite Hv.
Qed.

Lemma to_hex_word n : word n → group (to_hex n) ∧ read_hex (to_hex n) 0 = n.
Proof.
  unfold word, to_hex. intros Hn. cbv zeta beta. rewrite <- (string_app_nil_r (hex_digit (n / 16 ^ 0 mod 16))).
  assert (∀ i, 0 ≤ n / 16 ^ i mod 16 < 16) as Hd by (intros; by apply Z.mod_pos_bound).
  destruct (hex_digit_then (n / 16 ^ 0 mod 16) "" (Hd 0) eq_refl) as [G0 R0].
  destruct (hex_digit_then (n / 16 ^ 1 mod 16) _ (Hd 1) (proj2 G0)) as [G1 R1].
  destruct (hex_digit_then (n / 16 ^ 2 mod 16) _ (Hd 2) (proj2 G1)) as [G2 R2].
  destruct (hex_digit_then (n / 16 ^ 3 mod 16) _ (Hd 3) (proj2 G2)) as [G3 R3].
  assert (n / 16 ^ 2 = n / 16 / 16) as E2 by (by rewrite Z.div_div).
  assert (n / 16 ^ 3 = n / 16 / 16 / 16) as E3 by (by rewrite !Z.div_div).
  change (16 ^ 0) with 1 in *. change (16 ^ 1) with 16 in *. rewrite E2, E3, Z.div_1_r in *.
  pose proof (Z.div_mod n 16 ltac:(lia)). pose proof (Z.div_mod (n / 16) 16 ltac:(lia)). pose proof (Z.div_mod (n / 16 / 16) 16 ltac:(lia)).
  pose proof (Z.mod_pos_bound n 16 ltac:(lia)). pose proof (Z.mod_pos_bound (n / 16) 16 ltac:(lia)). pose proof (Z.mod_pos_bound (n / 16 / 16) 16 ltac:(lia)).
  destruct (n <? 16) eqn:L1; [|destruct (n <? 256) eqn:L2; [|destruct (n <? 4096) eqn:L3]]; bool_simplify; (split; [done|]).
  - rewrite R0. cbn [read_hex]. lia.
  - rewrite R1, R0. cbn [read_hex]. lia.
  - rewrite R2, R1, R0. cbn [read_hex]. lia.
  - rewrite R3, R2, R1, R0. cbn [read_hex]. rewrite (Z.mod_small (n / 16 / 16 / 16)) by lia. lia.
Qed.

Lemma halves n : 0 ≤ n < 2 ^ 32 → ushr n 16 = n / 65536 ∧ band n 65535 = n mod 65536.
Proof.
  intros Hn. split.
  - unfold ushr, to_uint32. change (16 mod 32) with 16. rewrite Z.mod_small by lia. by rewrite Z.shiftr_div_pow2.
  - change 65536 with (2 ^ 16). change 65535 with (Z.ones 16). unfold band. rewrite (to_int32_small (Z.ones 16)) by (vm_compute; split; congruence).
    assert (Z.land (to_int32 n) (Z.ones 16) = n mod 2 ^ 16) as ->.
    + apply Z.bits_inj'. intros i Hi. rewrite Z.land_spec. destruct (decide (i < 16)).
      * by rewrite to_int32_testbit, Z.ones_spec_low, Z.mod_pow2_bits_low, andb_true_r by lia.
      * by rewrite Z.ones_spec_high, Z.mod_pow2_bits_high, andb_false_r by lia.
    + apply to_int32_small. pose proof (Z.mod_pos_bound n (2 ^ 16) ltac:(lia)). lia.
Qed.

(** The groups once the dotted quad is rewritten as two. *)
Definition groups_of (e : ending) : list string :=
  match e with Groups gs => gs | Quad gs a b c d => gs ++ [to_hex (a * 256 + b); to_hex (c * 256 + d)] end.

Lemma groups_of_ok e : ending_ok e → Forall group (groups_of e) ∧ vals (groups_of e) = words_of e.
Proof.
  destruct e as [gs|gs a b c d]; cbn [ending_ok groups_of words_of]; [done|]. unfold byte. intros (Hg & Ha & Hb & Hc & Hd).
  destruct (to_hex_word (a * 256 + b)) as [G1 V1]; [unfold word; lia|]. destruct (to_hex_word (c * 256 + d)) as [G2 V2]; [unfold word; lia|].
  split; [apply Forall_app; split; [done|by constructor; [|constructor]]|]. unfold vals. rewrite fmap_app, !fmap_cons, V1, V2. done.
Qed.

Lemma join_no_dot gs : Forall group gs → has_char 46 (join gs) = false.
Proof.
  induction 1 as [|g gs [_ Hg] _ IH]; [done|]. destruct gs as [|g' gs]; [apply hex_no_char; auto|].
  rewrite join_cons by done. rewrite !has_char_app, IH, (hex_no_char 46 g) by auto. done.
Qed.
Lemma colons_no_dot gs : Forall group gs → has_char 46 (colons gs) = false.
Proof. induction 1 as [|g gs [_ Hg] _ IH]; [done|]. cbn [colons]. rewrite !has_char_app, IH, (hex_no_char 46 g) by auto. done. Qed.

(** Empty, or ending with a colon. *)
Definition open_end (p : string) : Prop := p = "" ∨ ∃ p', p = p' +:+ ":".
Lemma open_end_colons p gs : open_end p → open_end (p +:+ colons gs).
Proof.
  intros Hp. revert p Hp. induction gs as [|g gs IH]; intros p Hp; cbn [colons]; [by rewrite string_app_nil_r|].
  replace (p +:+ g +:+ ":" +:+ colons gs) with ((p +:+ g +:+ ":") +:+ colons gs) by (by rewrite !string_app_assoc).
  apply IH. right. exists (p +:+ g). by rewrite !string_app_assoc.
Qed.

Definition rewritten (text : string) : string :=
  match quad_suffix text with
  | Some (before, quad) => before +:+ (to_hex (ushr (ipv4ToInt quad) 16) +:+ ":" +:+ to_hex (band (ipv4ToInt quad) 65535))
  | None => text
  end.

Lemma rewritten_ending p e : open_end p → has_char 46 p = false → ending_ok e →
  rewritten (p +:+ text_of e) = p +:+ join (groups_of e).
Proof.
  intros Hp Hdot He. unfold rewritten. destruct e as [gs|gs a b c d]; cbn [text_of groups_of ending_ok] in *.
  { by rewrite quad_suffix_none by (by rewrite has_char_app, Hdot, join_no_dot). }
  destruct He as (Hgs & Ha & Hb & Hc & Hd). rewrite join_app by done. rewrite <- !string_app_assoc.
  assert (quad_suffix ((p +:+ colons gs) +:+ quad a b c d) = Some (p +:+ colons gs, quad a b c d)) as ->.
  { assert (has_char 46 (p +:+ colons gs) = false) as Hd' by (by rewrite has_char_app, Hdot, colons_no_dot).
    destruct (open_end_colons p gs Hp) as [->|[p' Hp']].
    - pose proof (is_quad_quad a b c d Ha Hb Hc Hd) as Hq. change ("" +:+ quad a b c d) with (quad a b c d).
      destruct (quad a b c d); cbn [quad_suffix]; by rewrite Hq.
    - rewrite Hp' in *. apply quad_suffix_colon; try done. rewrite has_char_app in Hd'. by apply orb_false_iff' in Hd' as [? _]. }
  rewrite ipv4ToInt_quad by done. unfold byte in *. destruct (halves (value4 a b c d)) as [-> ->]; [unfold value4; lia|].
  assert (value4 a b c d / 65536 = a * 256 + b) as -> by (symmetry; apply (Z.div_unique _ _ _ (c * 256 + d)); unfold value4; lia).
  assert (value4 a b c d mod 65536 = c * 256 + d) as -> by (symmetry; apply (Z.mod_unique _ _ (a * 256 + b)); unfold value4; lia).
  reflexivity.
Qed.

Lemma parse_groups gs : Forall group gs →
  (λ part, parse_hex (if bool_decide (part = "") then "0" else part)) <$> gs = Some <$> vals gs.
Proof.
  unfold vals. induction 1 as [|g gs Hg _ IH]; [done|]. rewrite !fmap_cons, IH. f_equal. destruct (group_chars g Hg) as (c & g' & -> & Hc & _).
  rewrite bool_decide_neq by done. unfold parse_hex. apply bool_decide_eq_true in Hc as [v Hv]. cbn [read_hex]. by rewrite Hv.
Qed.

(** The words of a text without a zone, in lower case. *)
Definition words_text (text : string) : list (option Z) :=
  let '(head, tail) := at_gap (rewritten text) in
  let headParts := parts_of head in
  let tailParts := match tail with Some tail => parts_of (at_gap tail).1 | None => [] end in
  let fill := match tail with Some _ => replicate (8 - length headParts - length tailParts) "0" | None => [] end in
  (λ part, parse_hex (if bool_decide (part = "") then "0" else part)) <$> (headParts ++ fill ++ tailParts).

Lemma words_text_full e : ending_ok e → words_text (text_of e) = Some <$> words_of e.
Proof.
  intros He. destruct (groups_of_ok e He) as [Hg Hv]. unfold words_text.
  pose proof (rewritten_ending "" e (or_introl eq_refl) eq_refl He) as Hr. change ("" +:+ ?x) with x in Hr. rewrite Hr.
  rewrite <- (string_app_nil_r (join (groups_of e))). rewrite at_gap_joined by auto. cbn [at_gap fst snd]. rewrite string_app_nil_r, parts_of_join by done.
  cbn [app]. rewrite app_nil_r, parse_groups by done. by rewrite Hv.
Qed.

Lemma words_text_gap hs e : Forall group hs → ending_ok e →
  words_text (join hs +:+ "::" +:+ text_of e) = Some <$> vals hs ++ replicate (8 - length hs - length (words_of e)) 0 ++ words_of e.
Proof.
  intros Hhs He. destruct (groups_of_ok e He) as [Hg Hv]. unfold words_text.
  replace (join hs +:+ "::" +:+ text_of e) with ((join hs +:+ "::") +:+ text_of e) by (by rewrite string_app_assoc).
  rewrite rewritten_ending; [|right; exists (join hs +:+ ":"); by rewrite string_app_assoc|by rewrite has_char_app, join_no_dot|done].
  rewrite string_app_assoc. rewrite at_gap_joined by (try done; right; right; eauto).
  change (at_gap ("::" +:+ join (groups_of e))) with ("", Some (join (groups_of e))). cbn [fst snd]. rewrite string_app_nil_r, (parts_of_join hs) by done.
  pose proof (at_gap_joined (groups_of e) "" Hg ltac:(auto)) as Hgap. rewrite !string_app_nil_r in Hgap. rewrite Hgap. cbn [fst].
  rewrite parts_of_join by done. rewrite !fmap_app, (parse_groups hs), (parse_groups (groups_of e)) by done. rewrite Hv.
  assert (length (groups_of e) = length (words_of e)) as -> by (rewrite <- Hv; unfold vals; by rewrite length_fmap).
  f_equal. f_equal. rewrite !fmap_replicate. done.
Qed.

(** ** The theorems *)

Lemma before_percent_app s zone : has_char 37 s = false → (zone = "" ∨ ∃ z, zone = "%" +:+ z) → before_percent (s +:+ zone) = s.
Proof.
  intros Hs Hz. induction s as [|c s IH].
  - by destruct Hz as [->|[z ->]].
  - cbn [has_char] in Hs. apply orb_false_iff' in Hs as [Hc Hs]. change (String c s +:+ zone) with (String c (s +:+ zone)).
    cbn [before_percent]. by rewrite Hc, IH.
Qed.

Lemma join_no_percent gs : Forall group gs → has_char 37 (join gs) = false ∧ has_char 37 (colons gs) = false.
Proof.
  induction 1 as [|g gs [_ Hg] _ [IH1 IH2]]; [done|]. assert (has_char 37 g = false) as H by (apply hex_no_char; auto).
  split; [|cbn [colons]; by rewrite !has_char_app, H, IH2]. destruct gs as [|g' gs]; [done|].
  rewrite join_cons by done. by rewrite !has_char_app, H, IH1.
Qed.
Lemma quad_no_percent a b c d : byte a → byte b → byte c → byte d → has_char 37 (quad a b c d) = false.
Proof.
  intros Ha Hb Hc Hd. assert (∀ z, byte z → has_char 37 (pretty z) = false) as Hz.
  { intros z Hz. apply all_digits_char; [lia|]. by apply byte_digits. }
  unfold quad. by rewrite !has_char_app, !Hz.
Qed.
Lemma written_no_percent text ws : written text ws → has_char 37 text = false.
Proof.
  assert (∀ e, ending_ok e → has_char 37 (text_of e) = false) as He.
  { intros [gs|gs a b c d]; cbn [ending_ok text_of]; [intros Hg; by apply join_no_percent|]. intros (Hg & Ha & Hb & Hc & Hd).
    by rewrite has_char_app, (proj2 (join_no_percent gs Hg)), quad_no_percent. }
  intros [e Hok _|hs e Hhs Hok _]; [by apply He|]. by rewrite !has_char_app, He, (proj1 (join_no_percent hs Hhs)).
Qed.

(** Every written form expands to its eight words. *)
Lemma ipv6Words_written text ws zone :
  written text ws → (zone = "" ∨ ∃ z, zone = "%" +:+ z) → ipv6Words (text +:+ zone) = Some <$> ws.
Proof.
  intros Hw Hz. unfold ipv6Words. rewrite before_percent_app by (done || by eapply written_no_percent).
  change (words_text (toLowerCase text) = Some <$> ws). destruct Hw as [e Hok _|hs e Hhs Hok _]; destruct (lower_ending_ok e Hok) as (Hok' & Hws & Ht).
  - rewrite Ht, words_text_full by done. by rewrite Hws.
  - destruct (lower_groups hs Hhs) as [Hhs' Hv]. rewrite !toLowerCase_app, lower_join, Ht. change (toLowerCase "::") with "::".
    rewrite words_text_gap by done. by rewrite Hws, Hv, length_fmap.
Qed.

(** An address is refused by its value, however it is
    written.  A dotted quad is non-public exactly when its 32-bit value lies in
    one of fourteen ranges; an IPv6 address - any groups, either case, a gap
    anywhere, a dotted quad at the end, a zone - exactly when its 128-bit value
    lies in one of eight ranges or carries, in one of the four embedding
    prefixes, a non-public IPv4 address.  The masks and shifts are 32-bit, and
    a range's top bit is the sign; everything else is refused. *)
Lemma isNonPublicAddress_ranges isIP :
  (∀ a b c d, byte a → byte b → byte c → byte d → isIP (quad a b c d) = 4%nat →
     isNonPublicAddress isIP (quad a b c d) = non_public4 (value4 a b c d)) ∧
  (∀ text zone w0 w1 w2 w3 w4 w5 w6 w7,
     written text [w0; w1; w2; w3; w4; w5; w6; w7] → Forall word [w0; w1; w2; w3; w4; w5; w6; w7] →
     (zone = "" ∨ ∃ z, zone = "%" +:+ z) → isIP text = 6%nat →
     isNonPublicAddress isIP (text +:+ zone) = non_public6 (value6 w0 w1 w2 w3 w4 w5 w6 w7)) ∧
  (∀ address, isIP (before_percent address) ≠ 4%nat → isIP (before_percent address) ≠ 6%nat →
     isNonPublicAddress isIP address = true).
Proof.
  split_and!.
  - intros a b c d Ha Hb Hc Hd Hip. unfold isNonPublicAddress.
    pose proof (before_percent_app (quad a b c d) "" (quad_no_percent _ _ _ _ Ha Hb Hc Hd) (or_introl eq_refl)) as Hp.
    rewrite string_app_nil_r in Hp. rewrite Hp, Hip. pose proof (ipv4ToInt_quad _ _ _ _ Ha Hb Hc Hd) as Hv.
    rewrite isBlockedIpv4_value, Hv; [done|]. rewrite Hv. unfold byte, value4 in *. lia.
  - intros text zone w0 w1 w2 w3 w4 w5 w6 w7 Hw Hws Hz Hip. unfold isNonPublicAddress.
    rewrite before_percent_app by (done || by eapply written_no_percent). rewrite Hip. unfold isBlockedIpv6.
    rewrite (ipv6Words_written text _ zone Hw Hz). rewrite !Forall_cons in Hws. destruct Hws as (? & ? & ? & ? & ? & ? & ? & ? & _).
    by apply blocked_words_value.
  - intros address H4 H6. unfold isNonPublicAddress. destruct (isIP _) as [|[|[|[|[|[|[|n]]]]]]]; done.
Qed.

(** C15 (safety): a request for a tenant's endpoint connects only to public
    addresses.  Whatever the name resolves to at that moment - the base URL was
    checked earlier, against another resolution - every address the socket may
    use passed the policy, over https; the only exception is a localhost name
    where the environment allows it. *)
Theorem safeFetch_connects_public isIP parse_url href allowLocalhost all lookup addresses :
  safeFetch isIP parse_url href allowLocalhost all lookup = Ok addresses →
  ∃ target, parse_url href = Some target ∧ addresses ≠ [] ∧
    (addresses = [bare (hostname target)] ∨
     ∃ list, lookup (bare (hostname target)) = Some list ∧ ∀ a, a ∈ addresses → a ∈ list) ∧
    ((allowLocalhost = true ∧ (isLocalhostName (hostname target) = true ∨ isLocalhostName (bare (hostname target)) = true)) ∨
     (protocol target = "https:" ∧ ∀ a, a ∈ addresses → isNonPublicAddress isIP a = false)).
Proof.
  unfold safeFetch. destruct (parse_url href) as [target|]; [|done]. intros H. exists target. split; [done|].
  destruct (mem (protocol target) _) eqn:Hm; [|done]. cbn [negb] in H.
  destruct (bool_decide (protocol target = "http:") && negb (allowLocalhost && isLocalhostName (hostname target))) eqn:Hp; [done|].
  assert (allowLocalhost && isLocalhostName (hostname target) = false → protocol target = "https:") as Hs.
  { intros E. rewrite E, andb_true_r in Hp. bool_simplify. unfold mem in Hm. apply bool_decide_eq_true in Hm.
    apply elem_of_cons in Hm as [?|Hm]; [done|]. by apply list_elem_of_singleton in Hm. }
  destruct (negb (Nat.eqb (isIP (bare (hostname target))) 0) && _ && _) eqn:Hn; [done|].
  destruct (Nat.eqb (isIP (bare (hostname target))) 0) eqn:Hz.
  - unfold guardedLookup in H. destruct (lookup (bare (hostname target))) as [list|]; [|done].
    destruct (bool_decide (list = []) || _) eqn:Hl; [done|]. injection H as <-. apply orb_false_iff' in Hl as [Hne Hl]. bool_simplify.
    assert (∀ a, a ∈ (if all then list else take 1 list) → a ∈ list) as Hsub.
    { intros a Ha. destruct all; [done|]. by eapply subseteq_take. }
    split; [destruct all, list; done|]. split; [right; eauto|].
    destruct (allowLocalhost && isLocalhostName (bare (hostname target))) eqn:E1; [left; bool_simplify; auto|].
    destruct (allowLocalhost && isLocalhostName (hostname target)) eqn:E2; [left; bool_simplify; auto|]. right. split; [auto|].
    intros a Ha. cbn [negb andb] in Hl. destruct (isNonPublicAddress isIP a) eqn:E; [|done].
    exfalso. assert (existsb (isNonPublicAddress isIP) list = true) as Hx; [|by rewrite Hx in Hl].
    apply existsb_exists. exists a. split; [by apply list_elem_of_In, Hsub|done].
  - injection H as <-. split; [done|]. split; [by left|].
    destruct (allowLocalhost && isLocalhostName (hostname target)) eqn:E2; [left; bool_simplify; auto|]. right. split; [auto|].
    intros a ->%list_elem_of_singleton. cbn [negb andb] in Hn. exact Hn.
Qed.

(** What the check of a base URL establishes. *)
Lemma assertSafeOutboundUrl_ok isIP parse_url raw allowLocalhost lookup url :
  assertSafeOutboundUrl isIP parse_url raw allowLocalhost lookup = Ok url →
  username url = "" ∧ password url = "" ∧ search url = "" ∧ hash url = "" ∧
  ((allowLocalhost = true ∧ isLocalhostName (toLowerCase (hostname url)) = true) ∨ protocol url = "https:").
Proof.
  unfold assertSafeOutboundUrl. destruct (parse_url _) as [u|]; [|done].
  destruct (negb (empty (username u)) || negb (empty (password u))) eqn:E1; [done|].
  destruct (negb (empty (search u)) || negb (empty (hash u))) eqn:E2; [done|].
  destruct (mem (protocol u) _) eqn:Em; [|done]. cbn [negb]. unfold empty in *. bool_simplify.
  destruct (allowLocalhost && _) eqn:El; [intros [= <-]; bool_simplify; auto 10|].
  destruct (bool_decide (protocol u = "http:")) eqn:Eh; [done|]. bool_simplify. intros Hr.
  assert (u = url) as -> by (repeat case_match; by simplify_eq). split_and!; try done. right.
  unfold mem in Em. apply bool_decide_eq_true in Em. apply elem_of_cons in Em as [?|Em]; [done|]. by apply list_elem_of_singleton in Em.
Qed.

(** ** The cloud metadata address, spelled as IPv6 *)

Definition demo_isIP (s : string) : nat :=
  if mem s ["::FFFF:169.254.169.254"] then 6%nat else if is_quad s then 4%nat else 0%nat.

Lemma demo_written : written "::FFFF:169.254.169.254" [0; 0; 0; 0; 0; 65535; 43518; 43518].
Proof.
  apply (written_gap [] (Quad ["FFFF"] 169 254 169 254)); [constructor| |cbn; lia].
  split; [constructor; [by split|constructor]|]. unfold byte. lia.
Qed.

Lemma isNonPublicAddress_ranges_witness :
  non_public6 (value6 0 0 0 0 0 65535 43518 43518) = true ∧
  isNonPublicAddress demo_isIP "::FFFF:169.254.169.254%eth0" = non_public6 (value6 0 0 0 0 0 65535 43518 43518).
Proof.
  split; [by vm_compute|].
  apply (proj1 (proj2 (isNonPublicAddress_ranges demo_isIP)) "::FFFF:169.254.169.254" "%eth0" 0 0 0 0 0 65535 43518 43518);
    [exact demo_written|repeat constructor; by vm_compute|right; by exists "eth0"|by vm_compute].
Defined.

Definition demo_url : url := Url "" "" "" "" "https:" "api.example".
Definition demo_rebound (good : bool) (_ : string) : option (list string) :=
  Some (if good then ["93.184.216.34"; "8.8.8.8"] else ["93.184.216.34"; "10.0.0.5"]).

Lemma safeFetch_connects_public_witness :
  safeFetch demo_isIP (λ _, Some demo_url) "https://api.example" false true (demo_rebound false) = Err NonPublic ∧
  ∃ target, Some demo_url = Some target ∧ ["93.184.216.34"; "8.8.8.8"] ≠ [] ∧
    (["93.184.216.34"; "8.8.8.8"] = [bare (hostname target)] ∨
     ∃ list, demo_rebound true (bare (hostname target)) = Some list ∧ ∀ a, a ∈ ["93.184.216.34"; "8.8.8.8"] → a ∈ list) ∧
    ((false = true ∧ (isLocalhostName (hostname target) = true ∨ isLocalhostName (bare (hostname target)) = true)) ∨
     (protocol target = "https:" ∧ ∀ a, a ∈ ["93.184.216.34"; "8.8.8.8"] → isNonPublicAddress demo_isIP a = false)).
Proof.
  split; [by vm_compute|].
  apply (safeFetch_connects_public demo_isIP (λ _, Some demo_url) "https://api.example" false true (demo_rebound true) ["93.184.216.34"; "8.8.8.8"]).
  by vm_compute.
Defined.
End OutboundUrl.
