(* ===== verification/ViewPolicy.v ===== *)
(** * What a request may do during a support view

    The request policy of src/src/auth/impersonation.js: the path as the router
    sees it, the areas refused while an administrator views as another person,
    and the requests that may still run once a view has ended.  The strings are
    UTF-8 bytes. *)

From S2P Require Import Prelude Json TenantTables Tenancy TenantGuard.
Import Json Tenancy Guard.

Module ViewPolicy.

Definition slash : Ascii.ascii := Ascii.ascii_of_nat 47.
Definition percent : Ascii.ascii := Ascii.ascii_of_nat 37.
Definition question : Ascii.ascii := Ascii.ascii_of_nat 63.

(** ** Paths *)

(** [String(url).slice(0, url.indexOf('?'))] *)
(* src/src/auth/impersonation.js:174-178 pathOf *)
Definition pathOf (url : string) : string := (split_at (is_char 63) url).1.

(** The bounds on the bytes that follow a first byte of a UTF-8 sequence. *)
Definition utf8_lead (b : nat) : option (list (nat * nat)) :=
  (if b <? 128 then Some []
   else if b <? 194 then None
   else if b <? 224 then Some [(128, 191)]
   else if b =? 224 then Some [(160, 191); (128, 191)]
   else if b =? 237 then Some [(128, 159); (128, 191)]
   else if b <? 240 then Some [(128, 191); (128, 191)]
   else if b =? 240 then Some [(144, 191); (128, 191); (128, 191)]
   else if b <? 244 then Some [(128, 191); (128, 191); (128, 191)]
   else if b =? 244 then Some [(128, 143); (128, 191); (128, 191)]
   else None)%nat.

(** [decodeURIComponent], which throws ([None]) on a malformed escape; [need]
    is what the escapes of the current sequence still have to be. *)
Fixpoint decodeURIComponent (need : list (nat * nat)) (s : string) : option string :=
  match s with
  | EmptyString => match need with [] => Some EmptyString | _ => None end
  | String c s' =>
      if is_char 37 c then
        match s' with
        | String a (String b rest) =>
            match hex_value a, hex_value b with
            | Some x, Some y =>
                let byte := (16 * x + y)%nat in
                match need with
                | [] => n ← utf8_lead byte; String (Ascii.ascii_of_nat byte) <$> decodeURIComponent n rest
                | (lo, hi) :: need' =>
                    if (lo <=? byte)%nat && (byte <=? hi)%nat
                    then String (Ascii.ascii_of_nat byte) <$> decodeURIComponent need' rest else None
                end
            | _, _ => None
            end
        | _ => None
        end
      else match need with [] => String c <$> decodeURIComponent [] s' | _ => None end
  end.

(** [path.replace(/\/{2,}/g, '/')]; [after] a slash already written. *)
Fixpoint collapse (after : bool) (s : string) : string :=
  match s with
  | EmptyString => EmptyString
  | String c s' =>
      if is_char 47 c then (if after then collapse true s' else String c (collapse true s'))
      else String c (collapse false s')
  end.

(** [path.replace(/\/+$/, '')] *)
Fixpoint strip_slashes (s : string) : string :=
  match s with
  | EmptyString => EmptyString
  | String c s' => match strip_slashes s' with
                   | EmptyString => if is_char 47 c then EmptyString else String c EmptyString
                   | t => String c t
                   end
  end.

(* src/src/auth/impersonation.js:186-195 normalizedPath *)
Definition normalizedPath (url : string) : string :=
  let path := pathOf url in
  let path := default path (decodeURIComponent [] path) in
  let path := collapse false path in
  if (1 <? String.length path)%nat then strip_slashes path else path.

(* src/src/auth/impersonation.js:197-199 matchesPrefix *)
Definition matchesPrefix (path prefix : string) : bool :=
  bool_decide (path = prefix) || startsWith path (prefix +:+ "/").

(** ** The policy *)

(* src/src/auth/impersonation.js:144-144 SAFE_METHODS *)
Definition SAFE_METHODS : list string := ["GET"; "HEAD"; "OPTIONS"].

(* src/src/auth/impersonation.js:147-150 ALLOWED_MUTATIONS *)
Definition ALLOWED_MUTATIONS : list string :=
  ["POST /api/auth/impersonation/stop"; "POST /api/auth/logout"].

(* src/src/auth/impersonation.js:155-172 IMPERSONATION_BLOCKED_PREFIXES *)
Definition IMPERSONATION_BLOCKED_PREFIXES : list string :=
  ["/api/auth/mfa"; "/api/auth/reauth"; "/api/auth/change-password"; "/api/auth/register"; "/api/auth/break-glass";
   "/api/api-keys"; "/api/credentials"; "/api/ai-connections"; "/api/ai-tools/approvals"; "/api/settings/ai-provider";
   "/api/settings/ai-kill-switch"; "/api/audit-events"; "/api/push"; "/api/google-calendar/oauth";
   "/api/mcp-oauth/consent"; "/api/slack/oauth"].

Fixpoint toUpperCase (s : string) : string :=
  match s with EmptyString => EmptyString | String c s' => String (upper c) (toUpperCase s') end.

Definition verb (method : string) : string := toUpperCase (if bool_decide (method = "") then "GET" else method).

(** The request path and, when matched, the route pattern. *)
Definition request_paths (url : string) (routeUrl : option string) : list string :=
  List.filter (λ p, negb (bool_decide (p = "")))
    (normalizedPath url :: match routeUrl with Some r => if bool_decide (r = "") then [] else [normalizedPath r] | None => [] end).

Definition allowed_mutation (method path : string) : bool := mem (verb method +:+ " " +:+ path) ALLOWED_MUTATIONS.

(* src/src/auth/impersonation.js:363-368 mayProceedAfterViewEnded *)
Definition mayProceedAfterViewEnded (method url : string) (routeUrl : option string) : bool :=
  let paths := request_paths url routeUrl in
  (mem (verb method) ["GET"; "HEAD"] && forallb (λ p, bool_decide (p = "/api/auth/impersonation")) paths) ||
  forallb (allowed_mutation method) paths.

Inductive denial := Blocked | ReadOnly.

(* src/src/auth/impersonation.js:380-394 impersonationDenial *)
Definition impersonationDenial (method url : string) (routeUrl : option string) (sideEffectingGet : bool) : option denial :=
  let paths := request_paths url routeUrl in
  if bool_decide (verb method = "POST") && mem "/api/auth/impersonation" paths then Some Blocked
  else if existsb (λ p, existsb (matchesPrefix p) IMPERSONATION_BLOCKED_PREFIXES) paths then Some Blocked
  else if mem (verb method) SAFE_METHODS then (if sideEffectingGet then Some ReadOnly else None)
  else if forallb (allowed_mutation method) paths then None
  else Some ReadOnly.

(** ** Spellings of a path *)

(** The ways a character may be written in a path. *)
Inductive token : string → Ascii.ascii → Prop :=
  | literal c : c ≠ percent → c ≠ question → token (String c EmptyString) c
  | escaped a b x y c : hex_value a = Some x → hex_value b = Some y → (16 * x + y < 128)%nat →
      c = Ascii.ascii_of_nat (16 * x + y) → token (String percent (String a (String b EmptyString))) c.

(** [spells url path]: characters written literally or escaped, slashes
    repeated or appended, and a query. *)
Inductive spells : string → string → Prop :=
  | spells_end : spells EmptyString EmptyString
  | spells_query q : spells (String question q) EmptyString
  | spells_trailing t u : token t slash → spells u EmptyString → spells (t +:+ u) EmptyString
  | spells_again t u p : token t slash → spells u (String slash p) → spells (t +:+ u) (String slash p)
  | spells_char t c u p : token t c → spells u p → spells (t +:+ u) (String c p).

(** The same on decoded text. *)
Inductive slashy : string → string → Prop :=
  | slashy_end : slashy EmptyString EmptyString
  | slashy_trailing d : slashy d EmptyString → slashy (String slash d) EmptyString
  | slashy_again d p : slashy d (String slash p) → slashy (String slash d) (String slash p)
  | slashy_char c d p : slashy d p → slashy (String c d) (String c p).

Lemma is_char_iff n c : (n < 256)%nat → is_char n c = true ↔ c = Ascii.ascii_of_nat n.
Proof.
  intros Hn. unfold is_char. rewrite Nat.eqb_eq. split.
  - intros <-. by rewrite Ascii.ascii_nat_embedding.
  - intros ->. by rewrite Ascii.nat_ascii_embedding.
Qed.
Lemma is_char_false n c : (n < 256)%nat → c ≠ Ascii.ascii_of_nat n → is_char n c = false.
Proof. intros Hn Hc. destruct (is_char n c) eqn:E; [|done]. by apply is_char_iff in E. Qed.

Lemma hex_not_question a x : hex_value a = Some x → is_char 63 a = false.
Proof.
  unfold hex_value, is_char. intros H. apply Nat.eqb_neq. intros E. rewrite E in H. by vm_compute in H.
Qed.

(** A written character decodes to it, and never starts the query. *)
Lemma token_decode t c u d :
  token t c → decodeURIComponent [] (pathOf u) = Some d →
  decodeURIComponent [] (pathOf (t +:+ u)) = Some (String c d).
Proof.
  intros Ht Hd. unfold pathOf in *. destruct Ht as [c Hp Hq|a b x y c Ha Hb Hlt ->].
  - change (String c EmptyString +:+ u) with (String c u). cbn [split_at].
    rewrite (is_char_false 63) by (done || lia). destruct (split_at (is_char 63) u) as [v w]. cbn [fst] in *.
    cbn [decodeURIComponent]. rewrite (is_char_false 37) by (done || lia). by rewrite Hd.
  - change (String percent (String a (String b EmptyString)) +:+ u) with (String percent (String a (String b u))).
    cbn [split_at]. change (is_char 63 percent) with false. rewrite (hex_not_question a x), (hex_not_question b y) by done.
    destruct (split_at (is_char 63) u) as [v w]. cbn [fst] in *. cbn [decodeURIComponent].
    change (is_char 37 percent) with true. cbv iota. rewrite Ha, Hb. cbv zeta.
    unfold utf8_lead. rewrite (proj2 (Nat.ltb_lt _ _) Hlt). cbn [mbind option_bind]. by rewrite Hd.
Qed.

Lemma spells_decode url p :
  spells url p → ∃ d, decodeURIComponent [] (pathOf url) = Some d ∧ slashy d p.
Proof.
  induction 1 as [|q|t u Ht _ (d & Hd & Hs)|t u p Ht _ (d & Hd & Hs)|t c u p Ht _ (d & Hd & Hs)].
  - exists EmptyString. by split; [|constructor].
  - exists EmptyString. by split; [|constructor].
  - eexists. split; [by apply token_decode|]. by constructor.
  - eexists. split; [by apply token_decode|]. by constructor.
  - eexists. split; [by apply token_decode|]. by constructor.
Qed.

(** A path with single slashes and none at its end. *)
Fixpoint single (s : string) : bool :=
  match s with
  | EmptyString => true
  | String c s' => (negb (is_char 47 c) || match s' with EmptyString => false | String d _ => negb (is_char 47 d) end) && single s'
  end.
Definition canonical_path (p : string) : bool := negb (bool_decide (p = "")) && single p.

Definition upto (r p : string) : Prop := r = p ∨ r = p +:+ "/".

Lemma upto_cons c r p : upto r p → upto (String c r) (String c p).
Proof. intros [->| ->]; [by left|by right]. Qed.

Lemma collapse_slashy d p :
  slashy d p → single p = true →
  upto (collapse false d) p ∧
  match p with
  | EmptyString => collapse true d = EmptyString
  | String c p' => if is_char 47 c then upto (collapse true d) p' else upto (collapse true d) p
  end.
Proof.
  induction 1 as [|d _ IH|d p _ IH|c d p Hd IH]; intros Hs.
  - split; [by left|done].
  - destruct (IH Hs) as [_ IH2]. simpl. rewrite IH2. split; [by right|done].
  - destruct (IH Hs) as [_ IH2]. cbn [collapse] in *. change (is_char 47 slash) with true in *. cbv iota in *.
    split; [by apply upto_cons|done].
  - simpl in Hs. apply andb_prop in Hs as [Hc Hs]. destruct (IH Hs) as [IH1 IH2]. simpl.
    destruct (is_char 47 c) eqn:Ec; [|split; by apply upto_cons].
    destruct p as [|c' p']; [done|]. simpl in Hc. apply negb_true_iff in Hc. rewrite Hc in IH2.
    split; [by apply upto_cons|done].
Qed.

Lemma strip_single p : single p = true → strip_slashes p = p.
Proof.
  induction p as [|c p IH]; [done|]. simpl. intros [Hc Hs]%andb_prop. rewrite IH by done.
  destruct p as [|c' p']; [|done]. destruct (is_char 47 c); done.
Qed.
Lemma strip_app p : strip_slashes (p +:+ "/") = strip_slashes p.
Proof. induction p as [|c p IH]; [done|]. simpl in *. by rewrite IH. Qed.

(** A path is read the same however it is spelled. *)
Lemma normalizedPath_spelling url p : spells url p → canonical_path p = true → normalizedPath url = p.
Proof.
  intros Hsp [Hne Hs]%andb_prop. apply negb_true_iff', bool_decide_eq_false in Hne.
  destruct (spells_decode _ _ Hsp) as (d & Hd & Hsl).
  unfold normalizedPath. rewrite Hd. simpl. destruct (collapse_slashy _ _ Hsl Hs) as [[->| ->] _].
  - destruct (_ <? _)%nat; [by apply strip_single|done].
  - destruct p as [|c p]; [done|]. assert ((1 <? String.length (String c p +:+ "/"))%nat = true) as ->.
    { apply Nat.ltb_lt. simpl. destruct p; simpl; lia. }
    rewrite strip_app. by apply strip_single.
Qed.

(** No spelling of a blocked area gets past the view policy.
    However a request writes the path - escapes of either case for any of its
    characters, repeated or trailing slashes, a query - if the path is one of
    the areas closed to support views, or below one, the request is refused for
    every method and whatever route the router reports. *)
Lemma impersonationDenial_any_spelling method url path prefix routeUrl sideEffectingGet :
  spells url path → canonical_path path = true →
  prefix ∈ IMPERSONATION_BLOCKED_PREFIXES → matchesPrefix path prefix = true →
  impersonationDenial method url routeUrl sideEffectingGet = Some Blocked.
Proof.
  intros Hsp Hc Hin Hm. pose proof (normalizedPath_spelling _ _ Hsp Hc) as Hn.
  unfold impersonationDenial. destruct (_ && _); [done|].
  assert (existsb (λ p, existsb (matchesPrefix p) IMPERSONATION_BLOCKED_PREFIXES) (request_paths url routeUrl) = true) as ->; [|done].
  apply existsb_exists. exists path. split.
  - apply list_elem_of_In. unfold request_paths. rewrite Hn. cbn [List.filter].
    apply andb_prop in Hc as [-> _]. left.
  - apply existsb_exists. exists prefix. split; [by apply list_elem_of_In|done].
Qed.

Lemma impersonationDenial_any_spelling_witness :
  impersonationDenial "GET" "//api/%63redentials//c1/?x=1" None false = Some Blocked.
Proof.
  apply (impersonationDenial_any_spelling "GET" "//api/%63redentials//c1/?x=1" "/api/credentials/c1" "/api/credentials" None false).
  - assert (∀ c, c ≠ percent → c ≠ question → token (String c EmptyString) c) as L by apply literal.
    apply (spells_again "/"); [by apply L|].
    do 5 (apply (spells_char (String _ "")); [by apply L|]).
    apply (spells_char "%63"); [eapply (escaped _ _ 6 3); [done|done|lia|done]|].
    do 10 (apply (spells_char (String _ "")); [by apply L|]).
    apply (spells_again "/"); [by apply L|].
    do 3 (apply (spells_char (String _ "")); [by apply L|]).
    apply (spells_trailing "/"); [by apply L|]. apply spells_query.
  - by vm_compute.
  - apply (bool_decide_eq_true_1 _). by vm_compute.
  - by vm_compute.
Defined.

Lemma one_space s s' t t' :
  s +:+ " " +:+ t = s' +:+ " " +:+ t' → has_char 32 s' = false → has_char 32 t' = false → s = s' ∧ t = t'.
Proof.
  pose (sp := Ascii.ascii_of_nat 32).
  revert s'. induction s as [|c s IH]; intros [|c' s'] H Hs Ht.
  - change (String sp t = String sp t') in H. split; congruence.
  - change (String sp t = String c' (s' +:+ " " +:+ t')) in H. injection H as <- _. done.
  - change (String c (s +:+ " " +:+ t) = String sp t') in H. injection H as -> H. exfalso. rewrite <- H in Ht.
    clear -Ht. induction s as [|c s IH]; [done|].
    change (is_char 32 c || has_char 32 (s +:+ " " +:+ t) = false) in Ht. apply orb_false_iff in Ht as [_ Ht].
    by apply IH.
  - change (String c (s +:+ " " +:+ t) = String c' (s' +:+ " " +:+ t')) in H. injection H as -> H.
    cbn in Hs. apply orb_false_iff in Hs as [_ Hs]. by destruct (IH s' H Hs Ht) as [-> ->].
Qed.

Lemma allowed_mutation_elim method p :
  allowed_mutation method p = true →
  verb method = "POST" ∧ (p = "/api/auth/impersonation/stop" ∨ p = "/api/auth/logout").
Proof.
  unfold allowed_mutation, mem. intros Hp%bool_decide_eq_true.
  apply elem_of_cons in Hp as [Hp|Hp]; [|apply list_elem_of_singleton in Hp].
  - apply (one_space _ "POST" _ "/api/auth/impersonation/stop") in Hp as [-> ->]; auto.
  - apply (one_space _ "POST" _ "/api/auth/logout") in Hp as [-> ->]; auto.
Qed.

(** A support view is read-only.  A request the policy lets
    through during a view is a GET, HEAD or OPTIONS of a route that is not
    marked as having side effects, on no closed path; or it is the POST that
    stops the view or signs out, by both its own path and the matched route. *)
Lemma impersonationDenial_read_only method url routeUrl sideEffectingGet :
  impersonationDenial method url routeUrl sideEffectingGet = None →
  (∀ p, p ∈ request_paths url routeUrl → ∀ prefix, prefix ∈ IMPERSONATION_BLOCKED_PREFIXES → matchesPrefix p prefix = false) ∧
  (verb method ∈ SAFE_METHODS ∧ sideEffectingGet = false ∨
   ∀ p, p ∈ request_paths url routeUrl →
     verb method = "POST" ∧ (p = "/api/auth/impersonation/stop" ∨ p = "/api/auth/logout")).
Proof.
  unfold impersonationDenial. destruct (_ && _); [done|].
  destruct (existsb _ _) eqn:Eb; [done|]. intros H. split.
  - intros p Hp prefix Hpre. destruct (matchesPrefix p prefix) eqn:E; [|done]. exfalso.
    assert (existsb (λ p, existsb (matchesPrefix p) IMPERSONATION_BLOCKED_PREFIXES) (request_paths url routeUrl) = true); [|congruence].
    apply existsb_exists. exists p. split; [by apply list_elem_of_In|].
    apply existsb_exists. exists prefix. split; [by apply list_elem_of_In|done].
  - destruct (mem (verb method) SAFE_METHODS) eqn:Es.
    + left. unfold mem in Es. apply bool_decide_eq_true in Es. by destruct sideEffectingGet.
    + right. intros p Hp. destruct (forallb _ _) eqn:Ef; [|done].
      apply list_elem_of_In in Hp. apply (proj1 (forallb_forall _ _) Ef) in Hp.
      by apply allowed_mutation_elim.
Qed.

Lemma impersonationDenial_read_only_witness :
  let url := "/api/clients?page=2" in
  impersonationDenial "get" url (Some "/api/clients") false = None ∧
  (∀ p, p ∈ request_paths url (Some "/api/clients") →
     ∀ prefix, prefix ∈ IMPERSONATION_BLOCKED_PREFIXES → matchesPrefix p prefix = false) ∧
  (verb "get" ∈ SAFE_METHODS ∧ false = false ∨
   ∀ p, p ∈ request_paths url (Some "/api/clients") →
     verb "get" = "POST" ∧ (p = "/api/auth/impersonation/stop" ∨ p = "/api/auth/logout")).
Proof.
  intros url. split; [by vm_compute|]. apply impersonationDenial_read_only. by vm_compute.
Defined.

End ViewPolicy.
