(* ===== verification/Impersonation.v ===== *)
(** * Support views: starting, resolving, ending

    The sessions of src/src/auth/impersonation.js and the routes of
    src/src/routes/privileged-access.routes.js that start and stop them: the
    [impersonation_sessions] table, who may be viewed, what a request carrying
    the view cookie runs as, and how views end.  The cookie's cryptography is
    [Tokens]', the request policy [ViewPolicy]'s, the log [Audit]'s. *)

From S2P Require Import Prelude Json TenantTables Tenancy TenantGuard Tokens AuditLog ViewPolicy.
Import Json Tenancy Guard Tokens Audit ViewPolicy.

Module Impersonation.

(* src/src/auth/impersonation.js:36-36 IMPERSONATION_TTL_SECONDS *)
Definition IMPERSONATION_TTL_SECONDS : Z := 30 * 60.

(* src/src/auth/impersonation.js:41-41 IMPERSONATABLE_ROLES *)
Definition IMPERSONATABLE_ROLES : list string := ["TEAM"; "STAFF"; "CLIENT"].

(* src/src/auth/impersonation.js:47-51 IMPERSONATION_END_REASONS *)
Definition IMPERSONATION_END_REASONS : list string :=
  ["stopped"; "expired"; "superseded"; "signed_out"; "revoked_password_reset"; "revoked_role_change";
   "revoked_deactivated"; "revoked_password_change"; "start_failed"].

(** ** Data *)

(** How a view ended. *)
Record ending := Ending { endedAt : Z; endReason : string; endedById : option string }.

(** A row of the sessions table; times are milliseconds. *)
Record view_row := View {
  v_id : string; v_org : string; v_actor : string; v_subject : string; v_role : string;
  v_reason : string; v_started : Z; v_expires : Z; v_ended : option ending
}.

Record world := World { views : gmap string view_row; log : list audit_row }.

(** ** Who may be viewed *)

Inductive start_problem :=
  | NoScope | NotAllowed | TargetNotFound | ViewSelf | TargetForbidden | TargetInactive | TargetNoPortal.

Definition problem_status (p : start_problem) : Z :=
  match p with
  | NoScope => 500 | NotAllowed | TargetForbidden => 403 | TargetNotFound => 404 | ViewSelf => 400
  | TargetInactive | TargetNoPortal => 409
  end.

(** The first guard of a chain of early returns did not fire. *)
Ltac top_if H :=
  match type of H with (if ?b then _ else _) = _ => destruct b eqn:?; [discriminate H|] end.

Section views.
(** Cryptography, as in [Tokens]. *)
Context (sha256 : string → string) (encode64 : json → string) (decode64 : string → option json).
Context (hmac_view : string → option string).
(** [Date.prototype.toISOString], [net.isIP] and whether the database accepts an audit row. *)
Context (iso : Z → string) (isIP : string → nat) (accepts : audit_row → bool).
(** [PLATFORM_OPERATOR_USER_IDS] *)
Context (platformOperatorUserIds : list string).
(** The user table by id, and whether a client has a portal contact with an
    email (compared without case). *)
Context (find_user : string → option account) (portal_contact : string → string → option string).

(* src/src/auth/impersonation.js:404-425 impersonationStartProblem *)
Definition impersonationStartProblem (actor subject : option account) : option start_problem :=
  match actor with
  | None => Some NotAllowed
  | Some a =>
      if negb (bool_decide (u_role a = "ADMIN")) || negb (u_active a) then Some NotAllowed
      else match subject with
           | None => Some TargetNotFound
           | Some s =>
               if negb (bool_decide (u_organization s = u_organization a)) then Some TargetNotFound
               else if bool_decide (u_id s = u_id a) then Some ViewSelf
               else if negb (mem (u_role s) IMPERSONATABLE_ROLES) then Some TargetForbidden
               else if mem (u_id s) platformOperatorUserIds then Some TargetForbidden
               else if negb (u_active s) then Some TargetInactive
               else None
           end
  end.

(* src/src/auth/impersonation.js:433-439 findPortalContact *)
Definition findPortalContact (subject : account) : option string :=
  if negb (bool_decide (u_role subject = "CLIENT")) then None
  else match present (u_client subject) with
       | Some clientId => portal_contact clientId (u_email subject)
       | None => None
       end.

(** ** Ending views *)

(** The filters views are ended by. *)
Inductive view_where := ByActor (userId : string) | ById (id : string) | ByEither (userId : string).
Definition selects (w : view_where) (v : view_row) : bool :=
  match w with
  | ByActor u => bool_decide (v_actor v = u)
  | ById i => bool_decide (v_id v = i)
  | ByEither u => bool_decide (v_actor v = u) || bool_decide (v_subject v = u)
  end.

Record end_options := EndOptions {
  o_organization : string; o_where : view_where; o_reason : string; o_endedById : option string;
  o_request : option string; o_ip : option string; o_now : Z
}.

Definition open_view (v : view_row) : bool := match v_ended v with None => true | Some _ => false end.

(** How the options end a row: at its expiry at the latest, and then as expired. *)
Definition ending_of (o : end_options) (v : view_row) : ending :=
  let effectiveReason := if bool_decide (o_reason o = "expired") || (v_expires v <=? o_now o) then "expired" else o_reason o in
  Ending (Z.min (o_now o) (v_expires v)) effectiveReason
    (if bool_decide (effectiveReason = "expired") then None else o_endedById o).

Definition set_ended (e : ending) (v : view_row) : view_row :=
  View (v_id v) (v_org v) (v_actor v) (v_subject v) (v_role v) (v_reason v) (v_started v) (v_expires v) (Some e).

(** [Math.round((endedAt - startedAt) / 1000)] *)
Definition duration_seconds (e : ending) (v : view_row) : Z := Z.max 0 ((endedAt e - v_started v + 500) / 1000).

Definition ended_event (o : end_options) (v : view_row) : event :=
  let e := ending_of o v in
  let expired := bool_decide (endReason e = "expired") in
  Event (Some (o_organization o)) None None
    (if expired then Some (v_actor v) else match o_endedById o with Some u => Some u | None => Some (v_actor v) end)
    (if expired then "SYSTEM" else "USER") "impersonation.ended" None (Some (v_id v)) (o_request o) (o_ip o)
    (Some [("reason", MStr (endReason e)); ("subjectUserId", MStr (v_subject v));
           ("impersonatedUserId", MStr (v_subject v)); ("impersonationSessionId", MStr (v_id v));
           ("durationSeconds", MNum (pretty.pretty (duration_seconds e v)))]).

Definition record (view : option view_context) (e : event) (l : list audit_row) : list audit_row :=
  (recordAuditEvent isIP (λ _, None) (λ _, None) accepts view e l).2.

(** One row of the snapshot: the guarded update, and its audit event when it
    is this call that ended the view. *)
(* src/src/auth/impersonation.js:567-593 endImpersonationSessions *)
Definition end_one (view : option view_context) (o : end_options) (row : view_row) (w : world) : nat * world :=
  match views w !! v_id row with
  | Some v =>
      if bool_decide (v_org v = o_organization o) && open_view v then
        (1%nat, World (<[v_id row := set_ended (ending_of o row) v]> (views w)) (record view (ended_event o row) (log w)))
      else (0%nat, w)
  | None => (0%nat, w)
  end.

Fixpoint end_views (view : option view_context) (o : end_options) (rows : list view_row) (w : world) : nat * world :=
  match rows with
  | [] => (0%nat, w)
  | row :: rows => let '(n, w) := end_one view o row w in
                   let '(m, w) := end_views view o rows w in ((n + m)%nat, w)
  end.

(** The open rows the options select. *)
Definition open_rows (o : end_options) (w : world) : list view_row :=
  List.filter (λ v, selects (o_where o) v && bool_decide (v_org v = o_organization o) && open_view v)
    (snd <$> map_to_list (views w)).

(* src/src/auth/impersonation.js:556-599 endImpersonationSessions *)
Definition endImpersonationSessions (view : option view_context) (o : end_options) (w : world) : nat * world :=
  if bool_decide (o_organization o = "") || negb (mem (o_reason o) IMPERSONATION_END_REASONS) then (0%nat, w)
  else end_views view o (open_rows o w) w.

(* src/src/auth/impersonation.js:605-615 revokeImpersonationsForUser *)
Definition revokeImpersonationsForUser (view : option view_context) (organizationId userId reason : string)
    (by_ : option string) (request ip : option string) (now : Z) (w : world) : nat * world :=
  endImpersonationSessions view (EndOptions organizationId (ByEither userId) reason by_ request ip now) w.

(** ** Starting and stopping *)

(** A user of an organization, as its scoped client finds one. *)
Definition member (id organizationId : string) : option account :=
  u ← find_user id; if bool_decide (u_organization u = organizationId) then Some u else None.

(** The start of a view, once its body was validated: [organizationId] and
    [actorId] are the session's, [newId] the id the database gives the row,
    [told] whether the other API instances were told to drop the
    administrator's sockets in time, and [laterMs] the clock by then. *)
(* src/src/routes/privileged-access.routes.js:56-133 privilegedAccessRoutes *)
Definition start_view (organizationId actorId subjectId reason newId : string) (request ip : option string)
    (told : bool) (nowMs laterMs : Z) (w : world) : result start_problem (bool * world) :=
  if bool_decide (organizationId = "") then Err NoScope
  else
    let actor := member actorId organizationId in
    let subject := member subjectId organizationId in
    match impersonationStartProblem actor subject, actor, subject with
    | Some p, _, _ => Err p
    | None, Some a, Some s =>
        if bool_decide (u_role s = "CLIENT") && bool_decide (findPortalContact s = None) then Err TargetNoPortal
        else
          let expiresAt := nowMs + IMPERSONATION_TTL_SECONDS * 1000 in
          let superseded := EndOptions organizationId (ByActor (u_id a)) "superseded" (Some (u_id a)) request ip nowMs in
          let '(_, w) := endImpersonationSessions None superseded w in
          let row := View newId organizationId (u_id a) (u_id s) (u_role s) reason nowMs expiresAt None in
          let started :=
            Event (Some organizationId) None None (Some (u_id a)) "USER" "impersonation.started" None (Some newId) request ip
              (Some [("subjectUserId", MStr (u_id s)); ("subjectRole", MStr (u_role s)); ("expiresAt", MDate (Some (iso expiresAt)));
                     ("ttlSeconds", MNum "1800"); ("readOnly", MBool true); ("impersonatedUserId", MStr (u_id s));
                     ("impersonationSessionId", MStr newId)]) in
          let w := World (<[newId := row]> (views w)) (record None started (log w)) in
          if told then Ok (true, w)
          else let '(_, w) := endImpersonationSessions None
                                (EndOptions organizationId (ById newId) "start_failed" (Some (u_id a)) request ip laterMs) w in
               Ok (false, w)
    | None, _, _ => Err NotAllowed
    end.

(** Stopping the current view, or, without one, whatever view the
    administrator has open. *)
(* src/src/routes/privileged-access.routes.js:176-201 privilegedAccessRoutes *)
Definition stop_view (current : option (string * string * string)) (session : option json) (request ip : option string)
    (nowMs : Z) (view : option view_context) (w : world) : nat * world :=
  match current with
  | Some (organizationId, sessionId, actorId) =>
      endImpersonationSessions view (EndOptions organizationId (ById sessionId) "stopped" (Some actorId) request ip nowMs) w
  | None =>
      match jget_opt "role" session, jget_opt "organizationId" session, jget_opt "id" session with
      | Some (JStr role), Some (JStr o), Some (JStr u) =>
          if bool_decide (role = "ADMIN") && negb (bool_decide (o = "")) then
            endImpersonationSessions view (EndOptions o (ByActor u) "stopped" (Some u) request ip nowMs) w
          else (0%nat, w)
      | _, _, _ => (0%nat, w)
      end
  end.

(** ** Resolving the cookie of a request *)

Record context := Context_ {
  c_session : string; c_organization : string; c_actor : string; c_actorName : string; c_subject : string;
  c_subjectName : string; c_role : string; c_startedAt : Z; c_expiresAt : Z; c_reason : string; c_contact : option string;
  c_typ : string; c_version : Z; c_client : option string; c_email : string
}.

Inductive resolution := NoCookie | InvalidView | ExpiredView (sessionId : string) | ActiveView (c : context).

Definition str (j : option json) : string := match j with Some (JStr s) => s | _ => "" end.

(** The row the claims name, all four identities matching. *)
Definition claimed_row (claims : json) (w : world) : option view_row :=
  v ← views w !! str (jget "sid" claims);
  if bool_decide (v_org v = str (jget "org" claims)) && bool_decide (v_actor v = str (jget "act" claims)) &&
     bool_decide (v_subject v = str (jget "sub" claims)) then Some v else None.

(** [request.user] is the administrator's verified session. *)
(* src/src/auth/impersonation.js:479-528 resolveImpersonation *)
Definition resolveImpersonation (cookie : option string) (admin : option json) (nowMs : Z) (w : world) : resolution :=
  match present cookie with
  | None => NoCookie
  | Some token =>
      match verifyImpersonationToken sha256 decode64 hmac_view token nowMs with
      | None => InvalidView
      | Some (claims, expired) =>
          if negb (truthy (jget_opt "id" admin)) || negb (strict_eq (jget_opt "id" admin) (jget "act" claims)) ||
             negb (strict_eq (jget_opt "organizationId" admin) (jget "org" claims)) ||
             negb (strict_eq (jget_opt "role" admin) (Some (JStr "ADMIN"))) then InvalidView
          else if negb (strict_eq (jget_opt "sessionVersion" admin) (jget "asv" claims)) ||
                  negb (strict_eq (Some (or_null (sessionBinding admin))) (jget "abind" claims)) then InvalidView
          else match claimed_row claims w with
               | None => InvalidView
               | Some row =>
                   if negb (open_view row) then InvalidView
                   else if expired || (v_expires row <=? nowMs) then ExpiredView (v_id row)
                   else match member (v_actor row) (v_org row), member (v_subject row) (v_org row) with
                        | Some actor, Some subject =>
                            if negb (bool_decide (u_role actor = "ADMIN")) || negb (u_active actor) then InvalidView
                            else if negb (u_active subject) || negb (bool_decide (u_role subject = v_role row)) ||
                                    negb (mem (u_role subject) IMPERSONATABLE_ROLES) then InvalidView
                            else ActiveView (Context_ (v_id row) (v_org row) (v_actor row) (u_name actor) (u_id subject)
                                   (u_name subject) (u_role subject) (v_started row) (v_expires row) (v_reason row)
                                   (if bool_decide (u_role subject = "CLIENT") then findPortalContact subject else None)
                                   (sessionTokenTypeFor (Some (JStr (u_role subject)))) (u_version subject)
                                   (u_client subject) (u_email subject))
                        | _, _ => InvalidView
                        end
               end
      end
  end.

(** ** The request hook *)

Record http_request := Http {
  h_request : request;            (** the matched route and the URL *)
  h_method : string; h_cookie : option string; h_id : option string; h_ip : option string;
  h_sideEffectingGet : bool
}.

(** What a request goes on as, or the answer it gets. *)
Inductive hook_outcome :=
  | Untouched                                  (** the hook does not apply *)
  | AsNobody                                   (** user and cookie cleared *)
  | LookupFailed                               (** 503 *)
  | AsAdmin                                    (** the view is over; cookie cleared *)
  | ViewEnded                                  (** 409, cookie cleared *)
  | Viewing (c : context)
  | Denied (c : context) (d : denial).

(** [session] is what [jwtVerify] answers, [lookup_ok] whether the database
    answered. *)
(* src/src/auth/impersonation.js:629-705 impersonationHook *)
Definition impersonationHook (session : option json) (lookup_ok : bool) (r : http_request) (nowMs : Z) (w : world)
  : hook_outcome * world :=
  if negb (startsWith (normalizedPath (requestPath (h_request r))) "/api/") then (Untouched, w)
  else match present (h_cookie r) with
  | None => (Untouched, w)
  | Some cookie =>
      if negb (isCurrentUserSession find_user USER_SESSION_TOKEN_TYPES session) then (AsNobody, w)
      else if negb lookup_ok then (LookupFailed, w)
      else match resolveImpersonation (Some cookie) session nowMs w with
           | ActiveView c =>
               match impersonationDenial (h_method r) (url (h_request r)) (route (h_request r)) (h_sideEffectingGet r) with
               | Some d => (Denied c d, w)
               | None => (Viewing c, w)
               end
           | res =>
               let w := match res with
                        | ExpiredView sessionId =>
                            (endImpersonationSessions None
                               (EndOptions (str (jget_opt "organizationId" session)) (ById sessionId) "expired" None
                                  (h_id r) (h_ip r) nowMs) w).2
                        | _ => w
                        end in
               if mayProceedAfterViewEnded (h_method r) (url (h_request r)) (route (h_request r))
               then (AsAdmin, w) else (ViewEnded, w)
           end
  end.
(** ** What ending does *)

Lemma end_one_inv view o row w n w' :
  end_one view o row w = (n, w') →
  (n = 0%nat ∧ w' = w) ∨
  (n = 1%nat ∧ ∃ v, views w !! v_id row = Some v ∧ v_org v = o_organization o ∧ open_view v = true ∧
    views w' = <[v_id row := set_ended (ending_of o row) v]> (views w) ∧
    log w' = record view (ended_event o row) (log w)).
Proof.
  unfold end_one. destruct (views w !! v_id row) as [v|] eqn:E; [|intros [= <- <-]; by left].
  destruct (bool_decide (v_org v = o_organization o) && open_view v) eqn:Eb; intros [= <- <-]; [right|by left].
  apply andb_prop in Eb as [Eo Ev]. apply bool_decide_eq_true in Eo. eauto 10.
Qed.

(** The row after the options ended it, if they select it. *)
Definition ended_by (o : end_options) (v : view_row) : view_row :=
  if selects (o_where o) v && bool_decide (v_org v = o_organization o) && open_view v then set_ended (ending_of o v) v else v.

(** Rows are stored under their ids. *)
Definition keyed (w : world) : Prop := ∀ id v, views w !! id = Some v → v_id v = id.

Lemma end_views_spec view o rows w :
  NoDup (v_id <$> rows) →
  (∀ v, v ∈ rows → views w !! v_id v = Some v ∧ v_org v = o_organization o ∧ open_view v = true) →
  let '(n, w') := end_views view o rows w in
  n = length rows ∧ log w' = foldl (λ l v, record view (ended_event o v) l) (log w) rows ∧
  ∀ id, views w' !! id = match list_find (λ v, v_id v = id) rows with
                         | Some (_, v) => Some (set_ended (ending_of o v) v)
                         | None => views w !! id
                         end.
Proof.
  revert w. induction rows as [|row rows IH]; intros w Hnd Hin; [done|]. cbn [end_views].
  destruct (Hin row) as (Hr & Ho & Hop); [left|]. unfold end_one. rewrite Hr, bool_decide_eq_true_2, Hop by done.
  cbn [andb]. set (w1 := World _ _). rewrite fmap_cons in Hnd. apply NoDup_cons in Hnd as [Hni Hnd].
  specialize (IH w1 Hnd).
  destruct (end_views view o rows w1) as [n w'].
  destruct IH as (-> & Hl & Hv).
  { intros v Hv. destruct (Hin v) as (H1 & H2 & H3); [by right|]. split_and!; [|done..].
    unfold w1. simpl. rewrite lookup_insert_ne; [done|]. intros E. apply Hni. rewrite E. by apply list_elem_of_fmap_2. }
  split_and!; [done|done|]. intros id. rewrite Hv. cbn [list_find].
  destruct (decide (v_id row = id)) as [<-|Hne].
  - destruct (list_find _ rows) as [[i v]|] eqn:E.
    { apply list_find_Some in E as (Hi & Hid & _). exfalso. apply Hni. rewrite <- Hid.
      apply list_elem_of_fmap_2. by eapply list_elem_of_lookup_2. }
    unfold w1. simpl. by rewrite lookup_insert_eq.
  - destruct (list_find _ rows) as [[i v]|]; simpl; [done|]. by rewrite lookup_insert_ne.
Qed.

Lemma open_rows_elem o w v :
  keyed w → v ∈ open_rows o w ↔
  views w !! v_id v = Some v ∧ selects (o_where o) v = true ∧ v_org v = o_organization o ∧ open_view v = true.
Proof.
  intros Hk. unfold open_rows. rewrite list_elem_of_In, filter_In, <- list_elem_of_In, list_elem_of_fmap.
  rewrite !andb_true_iff, bool_decide_eq_true. split.
  - intros [([id v'] & -> & Hin%elem_of_map_to_list) [[? ?] ?]]. simpl in *. rewrite (Hk _ _ Hin). by split_and!.
  - intros (H & ? & ? & ?). split; [|done]. exists (v_id v, v). split; [done|]. by apply elem_of_map_to_list.
Qed.

Lemma open_rows_nodup o w : keyed w → NoDup (v_id <$> open_rows o w).
Proof.
  intros Hk. unfold open_rows.
  assert (NoDup (v_id <$> (snd <$> map_to_list (views w)))) as Hnd.
  { rewrite <- list_fmap_compose. replace (v_id ∘ snd <$> map_to_list (views w)) with (map_to_list (views w)).*1.
    - apply NoDup_fst_map_to_list.
    - apply list_fmap_ext. intros i [id v] Hi. simpl. symmetry. apply Hk, elem_of_map_to_list.
      by eapply list_elem_of_lookup_2. }
  revert Hnd. generalize (snd <$> map_to_list (views w)) as l. clear.
  induction l as [|v l IH]; [done|]. rewrite fmap_cons. intros [Hn Hl]%NoDup_cons. simpl.
  destruct (_ && _); [|by apply IH]. rewrite fmap_cons. apply NoDup_cons. split; [|by apply IH].
  intros (x & Hx & Hin)%list_elem_of_fmap. apply Hn. rewrite Hx. apply list_elem_of_fmap_2.
  apply list_elem_of_In, filter_In in Hin as [Hin _]. by apply list_elem_of_In.
Qed.

Lemma end_sessions_spec view o w n w' :
  keyed w → o_organization o ≠ "" → o_reason o ∈ IMPERSONATION_END_REASONS →
  endImpersonationSessions view o w = (n, w') →
  n = length (open_rows o w) ∧ views w' = ended_by o <$> views w ∧
  log w' = foldl (λ l v, record view (ended_event o v) l) (log w) (open_rows o w).
Proof.
  intros Hk Ho Hr H. unfold endImpersonationSessions in H. unfold mem in H.
  rewrite bool_decide_eq_false_2, bool_decide_eq_true_2 in H by done. cbn [orb negb] in H.
  pose proof (end_views_spec view o (open_rows o w) w (open_rows_nodup o w Hk)) as Hspec.
  rewrite H in Hspec. destruct Hspec as (-> & Hl & Hv).
  { intros v Hin. apply open_rows_elem in Hin as (? & ? & ? & ?); [|done]. by split_and!. }
  split_and!; [done| |done]. apply map_eq. intros id. rewrite Hv, lookup_fmap.
  destruct (list_find _ _) as [[i v]|] eqn:E.
  - apply list_find_Some in E as (Hi & <- & _). apply list_elem_of_lookup_2 in Hi.
    apply open_rows_elem in Hi as (-> & Hs & Hv' & Hop); [|done]. simpl. unfold ended_by.
    by rewrite Hs, Hop, bool_decide_eq_true_2.
  - apply list_find_None in E. destruct (views w !! id) as [v|] eqn:Ev; [|done]. simpl. unfold ended_by.
    destruct (selects (o_where o) v && bool_decide (v_org v = o_organization o) && open_view v) eqn:Eb; [|done].
    exfalso. apply andb_prop in Eb as [Eb Hop]. apply andb_prop in Eb as [Hs Hv'%bool_decide_eq_true].
    pose proof (Hk _ _ Ev) as Hid. rewrite Forall_forall in E. apply (E v); [|done].
    apply open_rows_elem; [done|]. rewrite Hid. by split_and!.
Qed.

(** Ending views does exactly what was asked.  With a known
    organization and reason, every open view of that organization the filter
    selects is ended - at the given time or at its expiry if that came first,
    then as expired - one audit event is recorded for each, the number ended is
    answered, and every other view, ended ones included, stays as it was. *)
Lemma endImpersonationSessions_spec view o w n w' :
  keyed w → o_organization o ≠ "" → o_reason o ∈ IMPERSONATION_END_REASONS →
  endImpersonationSessions view o w = (n, w') →
  n = length (open_rows o w) ∧ views w' = ended_by o <$> views w ∧
  log w' = foldl (λ l v, record view (ended_event o v) l) (log w) (open_rows o w).
Proof. apply end_sessions_spec. Qed.

(** ** The sessions over time

    Starts are serialized by the per-administrator lock; an ending is a guarded
    update of one row of a snapshot that may be stale, so the endings of several
    requests interleave row by row. *)

(** What never changes of a row. *)
Definition same_view (row v : view_row) : Prop :=
  v_org row = v_org v ∧ v_actor row = v_actor v ∧ v_subject row = v_subject v ∧
  v_started row = v_started v ∧ v_expires row = v_expires v.

Inductive vstep (w : world) : world → Prop :=
  | vstep_start organizationId actorId subjectId reason newId request ip told nowMs laterMs b w' :
      views w !! newId = None →
      start_view organizationId actorId subjectId reason newId request ip told nowMs laterMs w = Ok (b, w') → vstep w w'
  | vstep_end view o row :
      (∀ v, views w !! v_id row = Some v → same_view row v) → vstep w (end_one view o row w).2.

Definition reachable : world → Prop := rtc vstep (World ∅ []).

(** A well-formed row. *)
Definition view_ok (v : view_row) : Prop :=
  v_expires v = v_started v + IMPERSONATION_TTL_SECONDS * 1000 ∧ v_actor v ≠ v_subject v ∧
  v_role v ∈ IMPERSONATABLE_ROLES ∧
  ∀ e, v_ended v = Some e → endedAt e ≤ v_expires v ∧ (endReason e ≠ "expired" → endedAt e < v_expires v).

Definition views_ok (w : world) : Prop :=
  keyed w ∧ (∀ id v, views w !! id = Some v → view_ok v) ∧
  ∀ id id' v v', views w !! id = Some v → views w !! id' = Some v' → open_view v = true → open_view v' = true →
    v_org v = v_org v' → v_actor v = v_actor v' → id = id'.

Lemma view_ok_ended o row v : view_ok v → v_expires row = v_expires v → view_ok (set_ended (ending_of o row) v).
Proof.
  intros (H1 & H2 & H3 & _) He. split_and!; [done..|]. intros e [= <-]. unfold ending_of. simpl. rewrite He.
  split; [lia|]. destruct (bool_decide (o_reason o = "expired")); [done|].
  destruct (v_expires v <=? o_now o) eqn:E; [done|]. intros _. apply Z.leb_gt in E. simpl. lia.
Qed.

(** Rows replaced by ended versions of themselves keep the invariant. *)
Lemma views_ok_map w w' :
  views_ok w →
  (∀ id v', views w' !! id = Some v' → ∃ v, views w !! id = Some v ∧
     (v' = v ∨ ∃ o row, v_expires row = v_expires v ∧ v' = set_ended (ending_of o row) v)) →
  views_ok w'.
Proof.
  intros (Hk & Hv & Hone) Hmap. split_and!.
  - intros id v' Hv'. destruct (Hmap _ _ Hv') as (v & Hl & [->|(o & row & _ & ->)]); by apply (Hk _ _ Hl).
  - intros id v' Hv'. destruct (Hmap _ _ Hv') as (v & Hl & [->|(o & row & He & ->)]); [by eapply Hv|].
    apply view_ok_ended; [by eapply Hv|done].
  - intros id id' v1 v2 H1 H2 Ho1 Ho2 Horg Hact.
    destruct (Hmap _ _ H1) as (u1 & Hl1 & [->|(o & row & _ & ->)]); [|done].
    destruct (Hmap _ _ H2) as (u2 & Hl2 & [->|(o & row & _ & ->)]); [|done]. by eapply Hone.
Qed.

Lemma views_ok_end_one view o row w :
  (∀ v, views w !! v_id row = Some v → same_view row v) → views_ok w → views_ok (end_one view o row w).2.
Proof.
  intros Hs Hok. destruct (end_one view o row w) as [n w'] eqn:E. simpl.
  apply end_one_inv in E as [[_ ->]|(_ & v & Hv & _ & _ & Hw & _)]; [done|].
  apply (views_ok_map w w' Hok). intros id v'. rewrite Hw. destruct (decide (id = v_id row)) as [->|Hne].
  - rewrite lookup_insert_eq. intros [= <-]. exists v. split; [done|right]. exists o, row. split; [|done].
    by destruct (Hs _ Hv) as (_ & _ & _ & _ & He).
  - rewrite lookup_insert_ne by done. eauto.
Qed.

Lemma views_ok_sessions view o w :
  views_ok w → views_ok (endImpersonationSessions view o w).2.
Proof.
  intros Hok. destruct (endImpersonationSessions view o w) as [n w'] eqn:E. simpl.
  destruct (decide (o_organization o = "")) as [Ho|Ho].
  { unfold endImpersonationSessions in E. rewrite bool_decide_eq_true_2 in E by done. by injection E as _ <-. }
  destruct (decide (o_reason o ∈ IMPERSONATION_END_REASONS)) as [Hr|Hr].
  - destruct (end_sessions_spec view o w n w' (proj1 Hok) Ho Hr E) as (_ & Hw & _).
    apply (views_ok_map w w' Hok). intros id v'. rewrite Hw, lookup_fmap. intros (v & Hv & ->)%fmap_Some.
    exists v. split; [done|]. unfold ended_by. destruct (_ && _); [right; eauto|by left].
  - unfold endImpersonationSessions in E. unfold mem in E. rewrite (bool_decide_eq_false_2 _ Hr), orb_true_r in E.
    by injection E as _ <-.
Qed.

(** What an allowed start is about. *)
Lemma impersonationStartProblem_none actor subject :
  impersonationStartProblem actor subject = None →
  ∃ a s, actor = Some a ∧ subject = Some s ∧ u_role a = "ADMIN" ∧ u_active a = true ∧ u_active s = true ∧
    u_organization s = u_organization a ∧ u_id s ≠ u_id a ∧ u_role s ∈ IMPERSONATABLE_ROLES ∧
    u_id s ∉ platformOperatorUserIds.
Proof.
  unfold impersonationStartProblem, mem. destruct actor as [a|]; [|done].
  destruct (bool_decide (u_role a = "ADMIN")) eqn:E1, (u_active a) eqn:E2; try done.
  destruct subject as [s|]; [|done]. cbn [negb orb].
  destruct (bool_decide (u_organization s = _)) eqn:E3; [|done]. destruct (bool_decide (u_id s = _)) eqn:E4; [done|].
  destruct (bool_decide (u_role s ∈ _)) eqn:E5; [|done]. destruct (bool_decide (u_id s ∈ _)) eqn:E6; [done|].
  destruct (u_active s) eqn:E7; [|done]. intros _.
  apply bool_decide_eq_true in E1, E3, E5. apply bool_decide_eq_false in E4, E6. eauto 15.
Qed.

(** The world an allowed start leaves, the row's audit events apart. *)
Lemma start_view_inv organizationId actorId subjectId reason newId request ip told nowMs laterMs w b w' :
  start_view organizationId actorId subjectId reason newId request ip told nowMs laterMs w = Ok (b, w') →
  ∃ a s w1 w2, organizationId ≠ "" ∧ member actorId organizationId = Some a ∧ member subjectId organizationId = Some s ∧
    impersonationStartProblem (Some a) (Some s) = None ∧
    let o := EndOptions organizationId (ByActor (u_id a)) "superseded" (Some (u_id a)) request ip nowMs in
    w1 = (endImpersonationSessions None o w).2 ∧
    views w2 = <[newId := View newId organizationId (u_id a) (u_id s) (u_role s) reason nowMs
                            (nowMs + IMPERSONATION_TTL_SECONDS * 1000) None]> (views w1) ∧
    b = told ∧
    w' = if told then w2
         else (endImpersonationSessions None
                 (EndOptions organizationId (ById newId) "start_failed" (Some (u_id a)) request ip laterMs) w2).2.
Proof.
  unfold start_view. destruct (bool_decide (organizationId = "")) eqn:Eo; [done|]. apply bool_decide_eq_false in Eo.
  destruct (impersonationStartProblem _ _) eqn:Ep; [done|].
  destruct (member actorId organizationId) as [a|]; [|done].
  destruct (member subjectId organizationId) as [s|]; [|done].
  destruct (_ && _); [done|]. intros H.
  cbv zeta in H. destruct (endImpersonationSessions None _ w) as [n w1] eqn:E1.
  set (w2 := World _ _) in H. exists a, s, w1, w2. cbv zeta. rewrite E1.
  destruct told; [|destruct (endImpersonationSessions None _ w2) as [m w3] eqn:E2];
    injection H as <- <-; split_and!; done.
Qed.

Lemma member_elim id o u : member id o = Some u → find_user id = Some u ∧ u_organization u = o.
Proof.
  unfold member. intros H. destruct (find_user id) as [u'|]; [|done]. cbn in H.
  destruct (bool_decide _) eqn:E; [|done]. apply bool_decide_eq_true in E. by simplify_eq.
Qed.

Lemma views_ok_start organizationId actorId subjectId reason newId request ip told nowMs laterMs w b w' :
  views w !! newId = None →
  start_view organizationId actorId subjectId reason newId request ip told nowMs laterMs w = Ok (b, w') →
  views_ok w → views_ok w'.
Proof.
  intros Hnew H Hok. apply start_view_inv in H as (a & s & w1 & w2 & Ho & Ha & Hs & Hp & H). cbv zeta in H.
  destruct H as (-> & Hw2 & _ & Hw').
  enough (views_ok w2) by (destruct told; subst; [done|by apply views_ok_sessions]).
  set (o := EndOptions organizationId (ByActor (u_id a)) "superseded" (Some (u_id a)) request ip nowMs) in *.
  pose proof (views_ok_sessions None o w Hok) as Hok1.
  destruct (endImpersonationSessions None o w) as [n w1] eqn:E1. cbn [snd] in *.
  assert ("superseded" ∈ IMPERSONATION_END_REASONS) as Hin by (apply (bool_decide_eq_true_1 _); by vm_compute).
  destruct (end_sessions_spec None o w n w1 (proj1 Hok) Ho Hin E1) as (_ & Hw1 & _).
  assert (views w1 !! newId = None) as Hnone by (by rewrite Hw1, lookup_fmap, Hnew).
  assert (∀ id v, views w1 !! id = Some v → v_org v = organizationId → v_actor v = u_id a → open_view v = false) as Hclosed.
  { intros id v. rewrite Hw1, lookup_fmap. intros (u & Hu & ->)%fmap_Some. unfold ended_by. cbn [o_where selects o_organization].
    destruct (open_view u) eqn:Eu; [|intros _ _; by destruct (_ && _)]. rewrite andb_true_r.
    destruct (selects (o_where o) u && bool_decide (v_org u = o_organization o)) eqn:Eb; [done|].
    intros Hvo Hva. unfold o in Eb. cbn in Eb. by rewrite !bool_decide_eq_true_2 in Eb. }
  destruct (impersonationStartProblem_none _ _ Hp) as (a' & s' & [= <-] & [= <-] & _ & _ & _ & _ & Hne & Hrole & _).
  destruct Hok1 as (Hk & Hv & Hone). split_and!.
  - intros id v. rewrite Hw2. destruct (decide (id = newId)) as [->|Hd]; [rewrite lookup_insert_eq; by intros [= <-]|].
    rewrite lookup_insert_ne by done. apply Hk.
  - intros id v. rewrite Hw2. destruct (decide (id = newId)) as [->|Hd].
    + rewrite lookup_insert_eq. intros [= <-]. split_and!; [done| |done|done]. cbn. congruence.
    + rewrite lookup_insert_ne by done. apply Hv.
  - intros id id' v v'. rewrite Hw2.
    destruct (decide (id = newId)) as [->|Hd], (decide (id' = newId)) as [->|Hd']; [done| | |].
    + rewrite lookup_insert_eq, lookup_insert_ne by done. intros [= <-] Hl _ Hop Horg Hact.
      exfalso. pose proof (Hclosed _ _ Hl (eq_sym Horg) (eq_sym Hact)). congruence.
    + rewrite lookup_insert_eq, lookup_insert_ne by done. intros Hl [= <-] Hop _ Horg Hact.
      exfalso. pose proof (Hclosed _ _ Hl Horg Hact). congruence.
    + rewrite !lookup_insert_ne by done. apply Hone.
Qed.

(** One short, well-formed view at a time.  However starts and
    endings interleave, every stored view lasts at most thirty minutes, is of
    another member in a viewable role, and never ends after its expiry; and an
    administrator has at most one open view in an organization. *)
Lemma support_views_ok w :
  reachable w →
  (∀ id v, views w !! id = Some v → v_id v = id ∧ view_ok v) ∧
  ∀ id id' v v', views w !! id = Some v → views w !! id' = Some v' → open_view v = true → open_view v' = true →
    v_org v = v_org v' → v_actor v = v_actor v' → id = id'.
Proof.
  intros H. enough (views_ok w) as (Hk & Hv & Hone).
  { split; [|exact Hone]. intros id v Hl. split; [by apply Hk|by eapply Hv]. }
  assert (∀ w0 w1, rtc vstep w0 w1 → views_ok w0 → views_ok w1) as Hrtc.
  { induction 1 as [|w0 w1 w2 Hs _ IH]; [done|]. intros Hok. apply IH.
    destruct Hs; [by eapply views_ok_start|by apply views_ok_end_one]. }
  eapply Hrtc; [exact H|]. split_and!.
  - intros id v Hl. simpl in Hl. by rewrite lookup_empty in Hl.
  - intros id v Hl. simpl in Hl. by rewrite lookup_empty in Hl.
  - intros id id' v v' Hl. simpl in Hl. by rewrite lookup_empty in Hl.
Qed.

Lemma sessions_final view o w id v e :
  keyed w → views w !! id = Some v → v_ended v = Some e → views (endImpersonationSessions view o w).2 !! id = Some v.
Proof.
  intros Hk Hv He. destruct (endImpersonationSessions view o w) as [n w'] eqn:E. simpl.
  destruct (decide (o_organization o = "")) as [Ho|Ho].
  { unfold endImpersonationSessions in E. rewrite bool_decide_eq_true_2 in E by done. by injection E as _ <-. }
  destruct (decide (o_reason o ∈ IMPERSONATION_END_REASONS)) as [Hr|Hr].
  - destruct (end_sessions_spec view o w n w' Hk Ho Hr E) as (_ & -> & _). rewrite lookup_fmap, Hv. simpl.
    unfold ended_by, open_view. by rewrite He, andb_false_r.
  - unfold endImpersonationSessions in E. unfold mem in E. rewrite (bool_decide_eq_false_2 _ Hr), orb_true_r in E.
    by injection E as _ <-.
Qed.

Lemma vstep_ok w w' : vstep w w' → views_ok w → views_ok w'.
Proof. destruct 1; [by eapply views_ok_start|by apply views_ok_end_one]. Qed.

Lemma vstep_final w w' id v e :
  vstep w w' → views_ok w → views w !! id = Some v → v_ended v = Some e → views w' !! id = Some v.
Proof.
  intros Hs Hok Hv He. destruct Hs as [org actorId subjectId reason newId request ip told nowMs laterMs b w' Hnew H|view o row Hrow].
  - apply start_view_inv in H as (a & s & w1 & w2 & _ & _ & _ & _ & H). cbv zeta in H.
    destruct H as (Hw1 & Hw2 & _ & Hw').
    set (o := EndOptions org (ByActor (u_id a)) "superseded" (Some (u_id a)) request ip nowMs) in *.
    pose proof (sessions_final None o w id v e (proj1 Hok) Hv He) as Hv1. rewrite <- Hw1 in Hv1.
    assert (keyed w1) as Hk1 by (rewrite Hw1; apply (views_ok_sessions None o w Hok)).
    assert (id ≠ newId) as Hne by congruence.
    assert (views w2 !! id = Some v) as Hv2 by (by rewrite Hw2, lookup_insert_ne).
    destruct told; subst w'; [done|]. eapply sessions_final; [|done|done].
    intros id' v'. rewrite Hw2. destruct (decide (id' = newId)) as [->|]; [rewrite lookup_insert_eq; by intros [= <-]|].
    rewrite lookup_insert_ne by done. apply Hk1.
  - destruct (end_one view o row w) as [n w'] eqn:E. simpl.
    apply end_one_inv in E as [[_ ->]|(_ & v' & Hv' & _ & Hop & -> & _)]; [done|].
    rewrite lookup_insert_ne; [done|]. intros <-. rewrite Hv in Hv'. injection Hv' as <-.
    unfold open_view in Hop. by rewrite He in Hop.
Qed.

(** An ended view stays ended.  Once a view has ended, no later
    start or ending - of whatever request, acting on whatever stale snapshot -
    changes it: when, why and by whom it ended are final. *)
Lemma ended_views_final w w' id v e :
  reachable w → rtc vstep w w' → views w !! id = Some v → v_ended v = Some e → views w' !! id = Some v.
Proof.
  intros Hr Hs Hv He. assert (views_ok w) as Hok.
  { assert (∀ w0 w1, rtc vstep w0 w1 → views_ok w0 → views_ok w1) as Hrtc.
    { induction 1 as [|w0 w1 w2 Hs01 _ IH]; [done|]. intros Hok0. by eapply IH, vstep_ok. }
    eapply Hrtc; [exact Hr|]. split_and!; intros id0 v0; [..|intros ? ?]; simpl; rewrite lookup_empty; by intros. }
  clear Hr. revert Hok Hv. induction Hs as [|w0 w1 w2 Hs _ IH]; [done|]. intros Hok Hv.
  apply IH; [by eapply vstep_ok|by eapply vstep_final].
Qed.

(** ** What a request runs as *)

Lemma strict_eq_true a b : strict_eq a b = true → a = b.
Proof. destruct a as [[]|]; simpl; try done; intros H; by apply bool_decide_eq_true in H. Qed.

(** The facts checked against the database for an active view. *)
Definition view_checked (admin : option json) (nowMs : Z) (w : world) (c : context) : Prop :=
  ∃ row actor subject, views w !! c_session c = Some row ∧ open_view row = true ∧ nowMs < v_expires row ∧
    jget_opt "id" admin = Some (JStr (v_actor row)) ∧ jget_opt "organizationId" admin = Some (JStr (v_org row)) ∧
    jget_opt "role" admin = Some (JStr "ADMIN") ∧
    member (v_actor row) (v_org row) = Some actor ∧ u_role actor = "ADMIN" ∧ u_active actor = true ∧
    member (v_subject row) (v_org row) = Some subject ∧ u_active subject = true ∧ u_role subject = v_role row ∧
    u_role subject ∈ IMPERSONATABLE_ROLES ∧ c_subject c = u_id subject ∧ c_role c = u_role subject ∧
    c_actor c = v_actor row ∧ c_organization c = v_org row.

Lemma resolve_active cookie admin nowMs w c :
  resolveImpersonation cookie admin nowMs w = ActiveView c → keyed w → view_checked admin nowMs w c.
Proof.
  unfold resolveImpersonation. intros H Hk. destruct (present cookie) as [token|]; [|done].
  destruct (verifyImpersonationToken _ _ _ token nowMs) as [[claims expired]|] eqn:Ev; [|done].
  top_if H. top_if H. destruct (claimed_row claims w) as [row|] eqn:Er; [|done]. top_if H. top_if H.
  destruct (member (v_actor row) (v_org row)) as [actor|] eqn:Ea; [|done].
  destruct (member (v_subject row) (v_org row)) as [subject|] eqn:Es; [|done].
  top_if H. top_if H. injection H as <-.
  repeat match goal with H : _ || _ = false |- _ => apply orb_false_iff in H as [? ?] end.
  repeat match goal with H : negb _ = false |- _ => apply negb_false_iff' in H end.
  repeat match goal with H : strict_eq _ _ = true |- _ => apply strict_eq_true in H end.
  repeat match goal with H : bool_decide _ = true |- _ => apply bool_decide_eq_true in H end.
  unfold mem in *.
  repeat match goal with H : bool_decide _ = true |- _ => apply bool_decide_eq_true in H end.
  unfold claimed_row in Er. destruct (views w !! _) as [v|] eqn:Ew; [|done]. cbn in Er.
  destruct (_ && _ && _) eqn:E7; [|done]. injection Er as ->.
  apply andb_prop in E7 as [E7 Hsub%bool_decide_eq_true]. apply andb_prop in E7 as [Horg%bool_decide_eq_true Hact%bool_decide_eq_true].
  assert (∀ k, k ∈ ["sid"; "act"; "sub"; "org"] → ∃ x, jget k claims = Some (JStr x)) as Hclaims.
  { intros k Hkin. unfold verifyImpersonationToken in Ev. destruct (2048 <? _); [done|].
    destruct (signed_claims _ _ _ _) as [[cl|]|]; [|done..]. destruct (negb (strict_eq _ _)); [done|].
    destruct (forallb _ _) eqn:Ef; [|done]. cbn [negb] in Ev.
    assert (cl = claims) as -> by (destruct (js_integer (jget "exp" cl)), (js_integer (jget "asv" cl)); congruence).
    apply list_elem_of_In in Hkin. apply (proj1 (forallb_forall _ _) Ef) in Hkin.
    unfold nonempty in Hkin. destruct (jget k claims) as [[| | |x| |]|]; try done. eauto. }
  destruct (Hclaims "act") as [xa Hxa]; [by repeat (first [left|right])|].
  destruct (Hclaims "org") as [xo Hxo]; [by repeat (first [left|right])|].
  exists row, actor, subject. cbn. rewrite (Hk _ _ Ew).
  rewrite Hxa in *. rewrite Hxo in *. simpl in Horg, Hact. rewrite Horg, Hact.
  split_and!; try done; try congruence; try (by apply Z.leb_gt).

Qed.
(** C25 (safety): what a request with a view cookie runs as.  An API request
    that carries the cookie is never served as if it had none.  It runs as the
    viewed person only after the database confirmed the view - open, unexpired,
    of the administrator whose current session the request carries, with both
    accounts active, in their roles and in one organization - and only when the
    view policy allows the request; it runs as the administrator only to read
    the view's status, stop it or sign out; otherwise it is refused or anonymous. *)
Theorem impersonationHook_runs_as session lookup_ok r nowMs w outcome w' :
  keyed w → present (h_cookie r) ≠ None →
  startsWith (normalizedPath (requestPath (h_request r))) "/api/" = true →
  impersonationHook session lookup_ok r nowMs w = (outcome, w') →
  match outcome with
  | Untouched => False
  | AsNobody => isCurrentUserSession find_user USER_SESSION_TOKEN_TYPES session = false
  | LookupFailed | ViewEnded => True
  | AsAdmin => ∀ p, p ∈ request_paths (url (h_request r)) (route (h_request r)) →
      (verb (h_method r) ∈ ["GET"; "HEAD"] ∧ p = "/api/auth/impersonation") ∨
      (verb (h_method r) = "POST" ∧ (p = "/api/auth/impersonation/stop" ∨ p = "/api/auth/logout"))
  | Viewing c => view_checked session nowMs w c ∧
      impersonationDenial (h_method r) (url (h_request r)) (route (h_request r)) (h_sideEffectingGet r) = None
  | Denied c d => view_checked session nowMs w c ∧
      impersonationDenial (h_method r) (url (h_request r)) (route (h_request r)) (h_sideEffectingGet r) = Some d
  end.
Proof.
  intros Hk Hc Hp H. unfold impersonationHook in H. rewrite Hp in H. cbn [negb] in H.
  destruct (present (h_cookie r)) as [cookie|] eqn:Ec; [|done].
  destruct (isCurrentUserSession find_user USER_SESSION_TOKEN_TYPES session) eqn:Es; [|by injection H as <- <-].
  cbn [negb] in H. destruct lookup_ok; [|by injection H as <- <-]. cbn [negb] in H.
  assert (∀ w1, (if mayProceedAfterViewEnded (h_method r) (url (h_request r)) (route (h_request r))
                 then (AsAdmin, w1) else (ViewEnded, w1)) = (outcome, w') →
    match outcome with
    | AsAdmin => ∀ p, p ∈ request_paths (url (h_request r)) (route (h_request r)) →
        (verb (h_method r) ∈ ["GET"; "HEAD"] ∧ p = "/api/auth/impersonation") ∨
        (verb (h_method r) = "POST" ∧ (p = "/api/auth/impersonation/stop" ∨ p = "/api/auth/logout"))
    | ViewEnded => True
    | _ => False
    end) as Hended.
  { intros w1 H1. destruct (mayProceedAfterViewEnded _ _ _) eqn:Em; injection H1 as <- _; [|done].
    intros p Hin%list_elem_of_In. unfold mayProceedAfterViewEnded in Em. apply orb_true_iff in Em as [Em|Em].
    - apply andb_prop in Em as [Hverb%bool_decide_eq_true Hall]. left. split; [done|].
      apply (proj1 (forallb_forall _ _) Hall), bool_decide_eq_true in Hin. done.
    - right. apply (proj1 (forallb_forall _ _) Em) in Hin. by apply allowed_mutation_elim. }
  destruct (resolveImpersonation (Some cookie) session nowMs w) as [| |sid|c] eqn:Er;
    try (apply Hended in H; by destruct outcome).
  apply resolve_active in Er; [|done].
  destruct (impersonationDenial _ _ _ _) eqn:Ed; injection H as <- _; done.
Qed.
(** A started view is the view its cookie opens.  When a start
    succeeds, the cookie signed for it resolves - for the administrator's own
    current session, while both accounts stay as they are - to an active view of
    the person asked for, with the role the start recorded, until the half hour
    is over; from then on it resolves to an expired view. *)
Lemma started_view_resolves organizationId actorId subjectId reason newId request ip nowMs laterMs w w' session token t a s :
  let claims := view_claims newId subjectId session nowMs (nowMs + IMPERSONATION_TTL_SECONDS * 1000) in
  (∀ id u, find_user id = Some u → u_id u = id) →
  (∀ j, dotless (encode64 j)) → (∀ x d, hmac_view x = Some d → dotless d) → decode64 (encode64 claims) = Some claims →
  start_view organizationId actorId subjectId reason newId request ip true nowMs laterMs w = Ok (true, w') →
  member actorId organizationId = Some a → member subjectId organizationId = Some s →
  actorId ≠ "" → subjectId ≠ "" → newId ≠ "" → 0 ≤ nowMs → 0 ≤ u_version a →
  jget "id" session = Some (JStr actorId) → jget "organizationId" session = Some (JStr organizationId) →
  jget "role" session = Some (JStr "ADMIN") → jget "sessionVersion" session = Some (num (u_version a)) →
  signImpersonationToken encode64 hmac_view newId session subjectId nowMs (nowMs + IMPERSONATION_TTL_SECONDS * 1000) = Some token →
  (String.length token ≤ 2048)%nat →
  (seconds t < seconds nowMs + IMPERSONATION_TTL_SECONDS →
     ∃ c, resolveImpersonation (Some token) (Some session) t w' = ActiveView c ∧
       c_session c = newId ∧ c_subject c = subjectId ∧ c_role c = u_role s ∧ c_actor c = actorId) ∧
  (seconds nowMs + IMPERSONATION_TTL_SECONDS ≤ seconds t →
     resolveImpersonation (Some token) (Some session) t w' = ExpiredView newId).
Proof.
  intros claims Hids Henc Hdig Hdec Hstart Ha Hs Hna Hns Hnn Hnow Hver Sid Sorg Srole Sver Hsign Hlen.
  set (expires := nowMs + IMPERSONATION_TTL_SECONDS * 1000) in *.
  pose proof (verify_view_sign sha256 encode64 decode64 hmac_view hmac_view Henc
    (λ x d H, Hdig x d (match H with or_introl H | or_intror H => H end)) newId session subjectId nowMs expires token t Hdec Hsign Hlen)
    as Hver'.
  apply start_view_inv in Hstart as (a' & s' & w1 & w2 & Horg & Ha' & Hs' & Hp & Hrest). cbv zeta in Hrest.
  destruct Hrest as (_ & Hw2 & _ & ->). rewrite Ha in Ha'. rewrite Hs in Hs'. injection Ha' as <-. injection Hs' as <-.
  destruct (impersonationStartProblem_none _ _ Hp) as (? & ? & [= <-] & [= <-] & Hadm & Haa & Hsa & _ & _ & Hrole & _).
  assert (u_id a = actorId) as Hia by (apply member_elim in Ha as [Ha _]; by apply Hids in Ha).
  assert (u_id s = subjectId) as His by (apply member_elim in Hs as [Hs _]; by apply Hids in Hs).
  rewrite Hia, His in Hw2. fold expires in Hw2. fold claims in Hver'.
  assert (seconds expires = seconds nowMs + IMPERSONATION_TTL_SECONDS) as Hexp.
  { unfold expires, seconds. apply Z.div_add. lia. }
  assert (verifyImpersonationToken sha256 decode64 hmac_view token t = Some (claims, seconds expires <=? seconds t)) as Hv.
  { apply Hver'; try done.
    - unfold expires. change IMPERSONATION_TTL_SECONDS with 1800. lia.
    - rewrite Sid. simpl. by rewrite bool_decide_eq_false_2.
    - rewrite Sorg. simpl. by rewrite bool_decide_eq_false_2.
    - by rewrite Sver, js_integer_num. }
  assert (jget "sid" claims = Some (JStr newId) ∧ jget "act" claims = Some (JStr actorId) ∧
    jget "sub" claims = Some (JStr subjectId) ∧ jget "org" claims = Some (JStr organizationId) ∧
    jget "asv" claims = Some (num (u_version a)) ∧ jget "abind" claims = Some (or_null (sessionBinding (Some session))))
    as (C1 & C2 & C3 & C4 & C5 & C6).
  { unfold claims, view_claims. by rewrite Sid, Sorg, Sver. }
  clear Hver' Hdec Hsign. clearbody claims.
  assert (token ≠ "") as Htok by (by intros ->).
  unfold resolveImpersonation. assert (present (Some token) = Some token) as -> by (by destruct token).
  rewrite Hv. cbn [jget_opt mbind option_bind]. rewrite Sid, Sorg, Srole, Sver, C2, C4, C5, C6.
  assert (strict_eq (Some (or_null (sessionBinding (Some session)))) (Some (or_null (sessionBinding (Some session)))) = true) as Hb
    by (destruct (sessionBinding (Some session)); simpl; by rewrite ?bool_decide_eq_true_2).
  rewrite Hb. unfold claimed_row. rewrite C1, C2, C3, C4. cbn [str]. rewrite Hw2, lookup_insert_eq.
  cbn [mbind option_bind v_org v_actor v_subject open_view v_ended v_expires v_role v_id].
  assert (truthy (Some (JStr actorId)) = true) as Ht by (by destruct actorId). rewrite Ht.
  cbn -[Z.leb seconds]. rewrite !bool_decide_eq_true_2 by done. cbn -[Z.leb seconds].
  split; intros Ht'.
  - assert ((seconds expires <=? seconds t) = false) as -> by (apply Z.leb_gt; lia).
    assert ((expires <=? t) = false) as ->.
    { apply Z.leb_gt. destruct (Z_lt_ge_dec t expires) as [|Hge]; [done|exfalso].
      assert (seconds expires ≤ seconds t) by (apply Z.div_le_mono; lia). lia. }
    cbn. rewrite Ha, Hs, Haa, Hsa. unfold mem. rewrite !bool_decide_eq_true_2 by done. cbn.
    eexists. split; [reflexivity|]. by split_and!.
  - assert ((seconds expires <=? seconds t) = true) as -> by (apply Z.leb_le; lia). done.
Qed.
End views.

(** ** An administrator views a team member *)

Definition demo_admin : json :=
  JObj [("typ", JStr "session"); ("id", JStr "u1"); ("role", JStr "ADMIN"); ("organizationId", JStr "acme");
        ("sessionVersion", JNum "3"); ("jti", JStr "s1")].

Definition demo_users (id : string) : option account :=
  if bool_decide (id = "u1") then Some (Account "u1" "acme" "ADMIN" "Ada" "ada@acme.test" None true 3)
  else if bool_decide (id = "u9") then Some (Account "u9" "acme" "TEAM" "Tom" "tom@acme.test" None true 1)
  else None.
Definition demo_claims : json :=
  view_claims "v1" "u9" demo_admin 1000000 (1000000 + IMPERSONATION_TTL_SECONDS * 1000).
Definition demo_encode (j : json) : string := if bool_decide (j = demo_claims) then "claims" else "header".
Definition demo_decode (s : string) : option json := if bool_decide (s = "claims") then Some demo_claims else None.
Definition demo_hmac (_ : string) : option string := Some "digest".
Definition demo_start (now : Z) (id : string) (w : world) : world :=
  match start_view (λ _, "2026-01-01T00:00:00.000Z") (λ _, 0%nat) (λ _, true) [] demo_users (λ _ _, None)
          "acme" "u1" "u9" "Billing question" id None None true now now w with
  | Ok (_, w') => w'
  | Err _ => w
  end.
Definition demo_world : world := demo_start 1000000 "v1" (World ∅ []).
Definition demo_again : world := demo_start 1060000 "v2" demo_world.
Definition demo_options : end_options := EndOptions "acme" (ByActor "u1") "signed_out" (Some "u1") None None 1030000.

Abbreviation demo_reachable :=
  (reachable (λ _, "2026-01-01T00:00:00.000Z") (λ _, 0%nat) (λ _, true) [] demo_users (λ _ _, None)).
Abbreviation demo_vstep :=
  (vstep (λ _, "2026-01-01T00:00:00.000Z") (λ _, 0%nat) (λ _, true) [] demo_users (λ _ _, None)).

Lemma demo_started : demo_vstep (World ∅ []) demo_world.
Proof. eapply (vstep_start _ _ _ _ _ _ _ "acme" "u1" "u9" "Billing question" "v1" None None true 1000000 1000000); by vm_compute. Qed.
Lemma demo_superseded : demo_vstep demo_world demo_again.
Proof. eapply (vstep_start _ _ _ _ _ _ _ "acme" "u1" "u9" "Billing question" "v2" None None true 1060000 1060000); by vm_compute. Qed.
Lemma demo_keyed : keyed demo_world.
Proof.
  intros id v. replace (views demo_world) with ({["v1" := View "v1" "acme" "u1" "u9" "TEAM" "Billing question" 1000000 2800000 None]} : gmap string view_row)
    by (by vm_compute).
  intros [<- <-]%lookup_singleton_Some. done.
Qed.

Lemma support_views_ok_witness :
  demo_reachable demo_again ∧
  (∀ id v, views demo_again !! id = Some v → v_id v = id ∧ view_ok v) ∧
  ∀ id id' v v', views demo_again !! id = Some v → views demo_again !! id' = Some v' →
    open_view v = true → open_view v' = true → v_org v = v_org v' → v_actor v = v_actor v' → id = id'.
Proof.
  assert (demo_reachable demo_again) as H.
  { eapply rtc_l; [apply demo_started|]. apply rtc_once, demo_superseded. }
  split; [exact H|]. apply (support_views_ok _ _ _ _ _ _ demo_again H).
Defined.

(** The second start superseded the first view; that ending is final. *)
Lemma ended_views_final_witness :
  let v1 := View "v1" "acme" "u1" "u9" "TEAM" "Billing question" 1000000 2800000 (Some (Ending 1060000 "superseded" (Some "u1"))) in
  let w' := demo_start 1090000 "v3" demo_again in
  views demo_again !! "v1" = Some v1 ∧ views w' !! "v1" = Some v1.
Proof.
  intros v1 w'. assert (views demo_again !! "v1" = Some v1) as Hv by (by vm_compute). split; [exact Hv|].
  apply (ended_views_final (λ _, "2026-01-01T00:00:00.000Z") (λ _, 0%nat) (λ _, true) [] demo_users (λ _ _, None)
           demo_again w' "v1" v1 (Ending 1060000 "superseded" (Some "u1"))).
  - eapply rtc_l; [apply demo_started|]. apply rtc_once, demo_superseded.
  - apply rtc_once.
    eapply (vstep_start _ _ _ _ _ _ _ "acme" "u1" "u9" "Billing question" "v3" None None true 1090000 1090000); by vm_compute.
  - exact Hv.
  - done.
Defined.

Lemma endImpersonationSessions_spec_witness :
  let r := endImpersonationSessions (λ _, 0%nat) (λ _, true) None demo_options demo_world in
  r.1 = 1%nat ∧
  r.1 = length (open_rows demo_options demo_world) ∧ views r.2 = ended_by demo_options <$> views demo_world ∧
  log r.2 = foldl (λ l v, record (λ _, 0%nat) (λ _, true) None (ended_event demo_options v) l) (log demo_world)
              (open_rows demo_options demo_world).
Proof.
  intros r. split; [by vm_compute|].
  apply (endImpersonationSessions_spec (λ _, 0%nat) (λ _, true) None demo_options demo_world r.1 r.2).
  - apply demo_keyed.
  - done.
  - apply (bool_decide_eq_true_1 _). by vm_compute.
  - apply surjective_pairing.
Defined.

Definition demo_request (method url : string) : http_request :=
  Http (Request (Some url) url false None) method (Some "header.claims.digest") None None false.

(** A read runs as the viewed person, a write is refused. *)
Lemma impersonationHook_runs_as_witness :
  let hook r := impersonationHook id demo_decode demo_hmac (λ _, 0%nat) (λ _, true) demo_users (λ _ _, None)
                  (Some demo_admin) true r 1001000 demo_world in
  (∃ c, (hook (demo_request "GET" "/api/tasks")).1 = Viewing c ∧ c_subject c = "u9" ∧
     view_checked demo_users (Some demo_admin) 1001000 demo_world c) ∧
  ∃ c, (hook (demo_request "DELETE" "/api/tasks/t1")).1 = Denied c ReadOnly.
Proof.
  intros hook. split.
  - destruct (hook (demo_request "GET" "/api/tasks")) as [outcome w'] eqn:E.
    assert ((hook (demo_request "GET" "/api/tasks")).1 = outcome) as Eo by (by rewrite E).
    vm_compute in Eo. subst outcome. eexists. split; [reflexivity|]. split; [reflexivity|].
    assert (present (h_cookie (demo_request "GET" "/api/tasks")) ≠ None) as Hc by done.
    assert (startsWith (normalizedPath (requestPath (h_request (demo_request "GET" "/api/tasks")))) "/api/" = true) as Hp
      by (by vm_compute).
    apply (impersonationHook_runs_as id demo_decode demo_hmac (λ _, 0%nat) (λ _, true) demo_users (λ _ _, None)
      (Some demo_admin) true (demo_request "GET" "/api/tasks") 1001000 demo_world _ w' demo_keyed Hc Hp E).
  - vm_compute. by eexists.
Defined.

Lemma started_view_resolves_witness :
  (∃ c, resolveImpersonation id demo_decode demo_hmac demo_users (λ _ _, None)
          (Some "header.claims.digest") (Some demo_admin) 2799999 demo_world = ActiveView c ∧
        c_session c = "v1" ∧ c_subject c = "u9" ∧ c_role c = "TEAM" ∧ c_actor c = "u1") ∧
  resolveImpersonation id demo_decode demo_hmac demo_users (λ _ _, None)
    (Some "header.claims.digest") (Some demo_admin) 2800000 demo_world = ExpiredView "v1".
Proof.
  assert (∀ t,
    (seconds t < seconds 1000000 + IMPERSONATION_TTL_SECONDS →
     ∃ c, resolveImpersonation id demo_decode demo_hmac demo_users (λ _ _, None)
            (Some "header.claims.digest") (Some demo_admin) t demo_world = ActiveView c ∧
          c_session c = "v1" ∧ c_subject c = "u9" ∧ c_role c = "TEAM" ∧ c_actor c = "u1") ∧
    (seconds 1000000 + IMPERSONATION_TTL_SECONDS ≤ seconds t →
     resolveImpersonation id demo_decode demo_hmac demo_users (λ _ _, None)
       (Some "header.claims.digest") (Some demo_admin) t demo_world = ExpiredView "v1")) as H.
  { intros t.
    apply (started_view_resolves id demo_encode demo_decode demo_hmac (λ _, "2026-01-01T00:00:00.000Z") (λ _, 0%nat) (λ _, true) []
      demo_users (λ _ _, None) "acme" "u1" "u9" "Billing question" "v1" None None 1000000 1000000 (World ∅ []) demo_world
      demo_admin "header.claims.digest" t
      (Account "u1" "acme" "ADMIN" "Ada" "ada@acme.test" None true 3)
      (Account "u9" "acme" "TEAM" "Tom" "tom@acme.test" None true 1)); try (by vm_compute).
    - intros i u. unfold demo_users. repeat case_bool_decide; intros [= <-]; done.
    - intros j. unfold demo_encode. by destruct (bool_decide _).
    - intros x d [= <-]. by vm_compute.
    - apply Nat.leb_le. by vm_compute. }
  split; [apply (proj1 (H 2799999))|apply (proj2 (H 2800000))]; by vm_compute.
Defined.

End Impersonation.
