(* ===== verification/Money.v ===== *)
(** * Money

    src/src/utils/invoice-balance.js, money-totals.js, proposal-totals.js and
    retainer-money.js over JavaScript numbers.  Amounts are binary64 dollars;
    [cents c] is the double nearest to c/100, and the theory shows that
    arithmetic on such amounts, rounded by [roundMoney] as the code rounds it,
    is integer arithmetic on cents up to about forty billion dollars. *)

From S2P Require Import Prelude JsNumber.
Import Js.

Module Money.

Definition hundred : num := of_Z 100.
Definition zero : num := of_Z 0.

(* src/src/utils/invoice-balance.js:19-19 CENT_TOLERANCE *)
Definition CENT_TOLERANCE : num := div (of_Z 5) (of_Z 1000).

(* src/src/utils/invoice-balance.js:11-11 UNPAID_INVOICE_STATUSES *)
Definition UNPAID_INVOICE_STATUSES : list string := ["SENT"; "VIEWED"; "OVERDUE"].

(* src/src/utils/invoice-balance.js:21-23 roundMoney *)
Definition roundMoney (value : num) : num := div (round (mul (or_zero value) hundred)) hundred.

(** Amount paid and balance due. *)
(* src/src/utils/invoice-balance.js:30-33 invoiceBalance *)
Definition invoiceBalance (total amountPaid : num) : num * num :=
  let paid := roundMoney amountPaid in
  (paid, roundMoney (max zero (sub (roundMoney total) paid))).

(** [reduce((sum, x) => sum + (Number(x) || 0), 0)] *)
Definition sum (l : list num) : num := foldl (λ s x, add s (or_zero x)) zero l.

(* src/src/utils/money-totals.js:13-15 lineTotal *)
Definition lineTotal (quantity unitPrice : num) : num := roundMoney (mul (or_zero quantity) (or_zero unitPrice)).

Record totals := Totals { subtotal : num; preTax : num; tax : num; total : num }.

(* src/src/utils/money-totals.js:27-32 invoiceTotals *)
Definition invoiceTotals (lines : list num) (taxRate discount : num) : totals :=
  let subtotal := roundMoney (sum lines) in
  let preTax := roundMoney (max zero (sub subtotal (or_zero discount))) in
  let tax := roundMoney (div (mul preTax (or_zero taxRate)) hundred) in
  Totals subtotal preTax tax (roundMoney (add preTax tax)).

(** ** Amounts in cents *)

Definition cents (c : Z) : num := div (of_Z c) hundred.

(** [x] is c/100 up to [k] parts in 2^53 of a cent, and not negative. *)
Definition near (k c : Z) (x : num) : Prop :=
  fin x ∧ 0 ≤ val x ∧ 2 ^ 53 * Z.abs (100 * val x - c * one) ≤ k * one.

Lemma one_big : 2 ^ 60 ≤ one.
Proof. unfold one. apply Z.pow_le_mono_r; lia. Qed.

Lemma one_lt_max h : h ≤ 2 ^ 60 * one → h < 2 ^ 2098.
Proof.
  intros H. eapply Z.le_lt_trans; [exact H|]. unfold one. rewrite <- Z.pow_add_r by lia. apply Z.pow_lt_mono_r; lia.
Qed.

Lemma rounds_close P Q r : 0 < Q → rounds P Q r → 0 ≤ P → 2 ^ 53 * Z.abs (r * Q - P) ≤ P + 2 ^ 52 * Q.
Proof.
  intros HQ Hr HP. destruct (rounds_error P Q r HQ Hr) as [H|H]; [|lia].
  change (2 ^ 53) with (2 ^ 52 * 2). lia.
Qed.

Lemma of_Z_nonneg c : 0 ≤ c ≤ 2 ^ 50 → fin (of_Z c) ∧ val (of_Z c) = c * one ∧ of_Z c ≠ NegZero.
Proof.
  intros Hc. assert (Z.abs c ≤ 2 ^ 53) as Ha by (rewrite Z.abs_eq; lia).
  destruct (of_Z_spec c Ha) as [Hf Hv]. split_and!; [done|done|by apply of_Z_not_negzero].
Qed.
Lemma hundred_spec : fin hundred ∧ val hundred = 100 * one.
Proof. destruct (of_Z_nonneg 100) as (H1 & H2 & _); [lia|]. unfold hundred. split; assumption. Qed.

Lemma bound_representable : representable (2 ^ 50 * one).
Proof. unfold one. apply (representable_shift (2 ^ 50) 1074); [lia|]. apply representable_int. lia. Qed.

(** Factors of [one] taken out of an inequality. *)
Lemma scale_le a b : a ≤ b → a * one ≤ b * one.
Proof. intros H. pose proof one_pos. by apply Z.mul_le_mono_nonneg_r; [lia|]. Qed.
Lemma unscale_le a b : a * one ≤ b * one → a ≤ b.
Proof. apply Z.mul_le_mono_pos_r, one_pos. Qed.

(** Rounding of a value given in units of [one] squared. *)
Lemma rounds_one P r : rounds (P * one) one r → 0 ≤ P → 0 ≤ r ∧ 2 ^ 53 * Z.abs (r - P) ≤ P + 2 ^ 52.
Proof.
  intros Hr HP. pose proof one_pos as H1. split; [by eapply rounds_nonneg; [exact H1| |exact Hr]; nia|].
  assert (0 ≤ P * one) as HP1 by nia. pose proof (rounds_close _ _ _ H1 Hr HP1) as Hc.
  replace (r * one - P * one) with ((r - P) * one) in Hc by ring.
  rewrite Z.abs_mul, (Z.abs_eq one) in Hc by lia. apply unscale_le. lia.
Qed.

Lemma cents_near c : 0 ≤ c ≤ 2 ^ 50 → near (c + 1) c (cents c).
Proof.
  intros Hc. pose proof one_pos. pose proof one_big. destruct (of_Z_nonneg c Hc) as (Hf & Hv & _).
  destruct hundred_spec as [Hhf Hhv]. unfold cents.
  destruct (div_spec (of_Z c) hundred Hf Hhf ltac:(lia)) as (r & Hr & Hp).
  rewrite Hv, Hhv in Hr. assert (0 ≤ c * one) as Hc1 by (apply Z.mul_nonneg_nonneg; lia).
  rewrite !Z.abs_eq in Hr by lia.
  assert (rounds (c * one) 100 r) as Hr'.
  { eapply rounds_ratio; [| | |exact Hr]; [lia|lia|ring]. }
  assert (r ≤ 2 ^ 50 * one) as Hle.
  { eapply rounds_le; [|exact Hr'|apply bound_representable|]; [lia|].
    replace (2 ^ 50 * one * 100) with ((2 ^ 50 * 100) * one) by ring. apply scale_le. lia. }
  assert (0 ≤ r) as Hr0 by (eapply rounds_nonneg; [| |exact Hr']; lia).
  destruct (magnitude _ _ _ Hp) as [Hdf Hdv].
  { apply one_lt_max. eapply Z.le_trans; [exact Hle|]. apply scale_le. lia. }
  { intros Hrn. rewrite (negative_val hundred) by (done || lia).
    destruct (decide (c = 0)) as [->|].
    - exfalso. apply Hrn. eapply rounds_0; [|exact Hr']. lia.
    - rewrite negative_val; [done|done|]. rewrite Hv. apply Z.mul_pos_pos; lia. }
  split_and!; [done|lia|]. rewrite Hdv.
  pose proof (rounds_close (c * one) 100 r ltac:(lia) Hr' Hc1) as Hclose.
  replace (r * 100 - c * one) with (100 * r - c * one) in Hclose by ring.
  replace ((c + 1) * one) with (c * one + one) by ring. lia.
Qed.

(** A rounding or a product of magnitudes is minus zero only of minus zero. *)
Lemma pack_false m e : pack false m e ≠ NegZero.
Proof.
  destruct m as [|p|p]; try done. cbn [pack]. destruct (1024 <=? _); [done|]. by destruct (strip p e).
Qed.
Lemma fround_false p q e : fround false p q e ≠ NegZero.
Proof. unfold fround. destruct (p =? 0); [done|]. apply pack_false. Qed.

Lemma mant_nonneg x : fin x → 0 ≤ val x → 0 ≤ mant x.
Proof.
  intros [Hf Hw] Hv. destruct x as [| | |m e]; try done. cbn [mant val] in *.
  destruct Hw as [[-> _]|(_ & He & _)]; [lia|]. pose proof (pow2_pos (e + 1074) ltac:(lia)). nia.
Qed.
Lemma round_negzero x : fin x → 0 ≤ val x → round x = NegZero → x = NegZero.
Proof.
  intros Hx Hv H. pose proof (mant_nonneg x Hx Hv) as Hm. destruct x as [| | |m e]; try done. exfalso.
  unfold round in H. destruct (e <? 0); [|done]. unfold int_num in H. cbn [mant] in Hm.
  rewrite (proj2 (Z.ltb_ge m 0)) in H by lia. by apply pack_false in H.
Qed.
Lemma mul_negzero x y : fin x → fin y → 0 ≤ val x → 0 ≤ val y → mul x y = NegZero → x = NegZero ∨ y = NegZero.
Proof.
  intros Hx Hy Hvx Hvy H. pose proof (mant_nonneg x Hx Hvx) as Hm. pose proof (mant_nonneg y Hy Hvy) as Hm'.
  destruct Hx as [Hfx _], Hy as [Hfy _].
  destruct x as [| | |m e], y as [| | |m' e']; try done; auto. exfalso. cbn [mant] in *. unfold mul in H.
  cbn [negative] in H. rewrite !(proj2 (Z.ltb_ge _ 0)) in H by lia. by apply fround_false in H.
Qed.

(** Rounding brings an amount near c cents to exactly [cents c]. *)
Lemma roundMoney_near k c x : near k c x → 0 ≤ c ≤ 2 ^ 50 → 0 ≤ k → k + c + 2 < 2 ^ 52 → roundMoney x = cents c.
Proof.
  intros (Hf & Hx & Hn) Hc Hk Hkc. pose proof one_pos. pose proof one_big.
  unfold roundMoney, cents. f_equal.
  assert (fin (or_zero x) ∧ val (or_zero x) = val x ∧ or_zero x ≠ NegZero) as (Hof & Hov & Hoz).
  { destruct Hf as [Hf Hw]. destruct x; try done.
    - split; [split; [done|by left]|done]. }
  destruct hundred_spec as [Hhf Hhv]. destruct (of_Z_nonneg c Hc) as (Hcf & Hcv & Hcz).
  assert (k * one ≤ 2 ^ 52 * one) as Hk1 by (apply scale_le; lia).
  assert (c * one ≤ 2 ^ 50 * one) as Hc1 by (apply scale_le; lia).
  assert (0 ≤ c * one) as Hc0 by (apply Z.mul_nonneg_nonneg; lia).
  destruct (mul_below (or_zero x) hundred (2 ^ 52 * one)) as (Hmf & [Hm0 Hm1] & Hmr).
  { done. } { done. } { lia. } { lia. }
  { unfold one. apply (representable_shift (2 ^ 52) 1074); [lia|]. apply representable_int. lia. }
  { apply one_lt_max. apply scale_le. lia. }
  { rewrite Hov, Hhv. replace (val x * (100 * one)) with ((100 * val x) * one) by ring. apply scale_le. lia. }
  set (m := mul (or_zero x) hundred) in *. rewrite Hov, Hhv in Hmr.
  replace (val x * (100 * one)) with ((100 * val x) * one) in Hmr by ring.
  destruct (rounds_one _ _ Hmr ltac:(lia)) as [_ Hclose].
  assert ((k + c + 2) * one ≤ (2 ^ 52 - 1) * one) as Hk2 by (apply scale_le; lia).
  assert (2 * Z.abs (val m - c * one) < one) as Hhalf.
  { assert (2 ^ 53 * Z.abs (val m - c * one) < 2 ^ 52 * one); [|lia].
    replace ((k + c + 2) * one) with (k * one + c * one + 2 * one) in Hk2 by ring. lia. }
  destruct (round_spec m Hmf) as [Hrf Hrv].
  apply val_inj; [done|done| |done|].
  - intros Hz. pose proof (round_negzero m Hmf Hm0 Hz) as Hm. unfold m in Hm.
    destruct (mul_negzero (or_zero x) hundred Hof Hhf ltac:(lia) ltac:(lia) Hm) as [Ho|Hh]; [by destruct (Hoz Ho)|].
    rewrite Hh in Hhv. cbn [val] in Hhv. lia.
  - rewrite Hrv, Hcv. f_equal. symmetry. apply (Z.div_unique _ _ _ (2 * val m + one - c * (2 * one))); [|ring].
    replace (c * (2 * one)) with (2 * (c * one)) by ring. lia.
Qed.

(** ** Sums and differences of amounts near cents *)

Lemma near_le k k' c x : near k c x → k ≤ k' → near k' c x.
Proof. intros (Hf & Hx & Hn) Hk. split_and!; [done|done|]. pose proof (scale_le _ _ Hk). lia. Qed.

Lemma add_near k l a b x y :
  near k a x → near l b y → 0 ≤ a → 0 ≤ b → a + b ≤ 2 ^ 50 → 0 ≤ k → 0 ≤ l → k + l ≤ 2 ^ 52 →
  near (k + l + a + b + 2) (a + b) (add x y).
Proof.
  intros (Hfx & Hx & Hnx) (Hfy & Hy & Hny) Ha Hb Hab Hk Hl Hkl. pose proof one_pos. pose proof one_big.
  assert ((k + l) * one ≤ 2 ^ 52 * one) as Hkl1 by (apply scale_le; lia).
  assert ((a + b) * one ≤ 2 ^ 50 * one) as Hab1 by (apply scale_le; lia).
  rewrite Z.mul_add_distr_r in Hkl1, Hab1.
  assert (0 ≤ a * one ∧ 0 ≤ b * one) as [Ha1 Hb1] by (split; apply Z.mul_nonneg_nonneg; lia).
  assert (0 ≤ k * one ∧ 0 ≤ l * one) as [Hk1 Hl1] by (split; apply Z.mul_nonneg_nonneg; lia).
  destruct (add_spec x y Hfx Hfy) as (r & Hr & Hp). rewrite Z.abs_eq in Hr by lia.
  assert (100 * (val x + val y) ≤ a * one + b * one + one) as Hsum by lia.
  assert (r ≤ 2 ^ 50 * one) as Hle.
  { eapply rounds_le; [|exact Hr|apply bound_representable|]; lia. }
  assert (0 ≤ r) as Hr0 by (eapply rounds_nonneg; [| |exact Hr]; lia).
  destruct (magnitude _ _ _ Hp) as [Hf Hv].
  { apply one_lt_max. eapply Z.le_trans; [exact Hle|]. apply scale_le. lia. }
  { intros _. apply Z.ltb_ge. lia. }
  pose proof (rounds_close (val x + val y) 1 r ltac:(lia) Hr ltac:(lia)) as Hclose.
  split_and!; [done|lia|]. rewrite Hv.
  replace ((k + l + a + b + 2) * one) with (k * one + l * one + a * one + b * one + 2 * one) by ring.
  replace ((a + b) * one) with (a * one + b * one) by ring. lia.
Qed.

Lemma sub_near k l a b x y :
  near k a x → near l b y → 0 ≤ b → b < a → a ≤ 2 ^ 50 → 0 ≤ k → 0 ≤ l → k + l ≤ 2 ^ 52 →
  near (k + l + (a - b) + 2) (a - b) (sub x y).
Proof.
  intros (Hfx & Hx & Hnx) (Hfy & Hy & Hny) Hb Hab Ha Hk Hl Hkl. pose proof one_pos. pose proof one_big.
  assert ((k + l) * one ≤ 2 ^ 52 * one) as Hkl1 by (apply scale_le; lia).
  assert (a * one ≤ 2 ^ 50 * one) as Ha1 by (apply scale_le; lia).
  assert ((b + 1) * one ≤ a * one) as Hab1 by (apply scale_le; lia).
  rewrite Z.mul_add_distr_r in Hkl1, Hab1. rewrite Z.mul_1_l in Hab1.
  assert (0 ≤ b * one) as Hb1 by (apply Z.mul_nonneg_nonneg; lia).
  assert (0 ≤ k * one ∧ 0 ≤ l * one) as [Hk1 Hl1] by (split; apply Z.mul_nonneg_nonneg; lia).
  destruct (sub_spec x y Hfx Hfy) as (r & Hr & Hp).
  assert (0 ≤ val x - val y) as Hpos by lia.
  rewrite Z.abs_eq in Hr by lia.
  assert (100 * (val x - val y) ≤ a * one - b * one + one) as Hsum by lia.
  assert (r ≤ 2 ^ 50 * one) as Hle.
  { eapply rounds_le; [|exact Hr|apply bound_representable|]; lia. }
  assert (0 ≤ r) as Hr0 by (eapply rounds_nonneg; [| |exact Hr]; lia).
  destruct (magnitude _ _ _ Hp) as [Hf Hv].
  { apply one_lt_max. eapply Z.le_trans; [exact Hle|]. apply scale_le. lia. }
  { intros _. apply Z.ltb_ge. lia. }
  pose proof (rounds_close (val x - val y) 1 r ltac:(lia) Hr ltac:(lia)) as Hclose.
  split_and!; [done|lia|]. rewrite Hv.
  replace ((k + l + (a - b) + 2) * one) with (k * one + l * one + a * one - b * one + 2 * one) by ring.
  replace ((a - b) * one) with (a * one - b * one) by ring. lia.
Qed.

Lemma zero_near x : fin x → val x = 0 → near 0 0 x.
Proof. intros Hf Hv. split_and!; [done|lia|]. rewrite Hv. lia. Qed.

(** The balance of two amounts in cents. *)
Lemma max_sub_cents a b :
  0 ≤ a ≤ 2 ^ 45 → 0 ≤ b ≤ 2 ^ 45 →
  roundMoney (max zero (sub (cents a) (cents b))) = cents (Z.max 0 (a - b)).
Proof.
  intros Ha Hb. pose proof one_pos. pose proof one_big.
  pose proof (cents_near a ltac:(lia)) as Hna. pose proof (cents_near b ltac:(lia)) as Hnb.
  destruct (of_Z_nonneg 0) as (Hzf & Hzv & _); [lia|]. fold zero in Hzf, Hzv.
  assert (fin (cents a) ∧ fin (cents b)) as [Hfa Hfb] by (split; [apply Hna|apply Hnb]).
  destruct (Z.le_gt_cases a b) as [Hle|Hgt].
  - assert (val (cents a) ≤ val (cents b)) as Hv.
    { destruct (decide (a = b)) as [->|Hne]; [lia|]. destruct Hna as (_ & Hxa & Ha1), Hnb as (_ & Hxb & Hb1).
      assert ((a + 1) * one ≤ b * one) as Hab by (apply scale_le; lia).
      assert ((a + 1 + (b + 1)) * one ≤ 2 ^ 47 * one) as Hk by (apply scale_le; lia).
      rewrite !Z.mul_add_distr_r in *. lia. }
    destruct (sub_spec (cents a) (cents b) Hfa Hfb) as (r & Hr & Hp).
    assert (r ≤ 2 ^ 50 * one) as Hrle.
    { eapply rounds_le; [|exact Hr|apply bound_representable|]; [lia|].
      destruct Hna as (_ & Hxa & Ha1), Hnb as (_ & Hxb & Hb1).
      assert (b * one ≤ 2 ^ 45 * one) by (apply scale_le; lia).
      assert ((b + 1) * one ≤ 2 ^ 46 * one) by (apply scale_le; lia). lia. }
    assert (0 ≤ r) as Hr0 by (eapply rounds_nonneg; [| |exact Hr]; lia).
    destruct (packed_fin _ _ _ Hp) as [Hf Hsv].
    { apply one_lt_max. eapply Z.le_trans; [exact Hrle|]. apply scale_le. lia. }
    assert (val (sub (cents a) (cents b)) ≤ 0) as Hneg.
    { rewrite Hsv. destruct (val (cents a) - val (cents b) <? 0) eqn:E; [lia|].
      apply Z.ltb_ge in E. assert (val (cents a) - val (cents b) = 0) as E0 by lia.
      rewrite E0, Z.abs_0 in Hr. pose proof (rounds_0 1 r ltac:(lia) Hr). lia. }
    destruct (max_spec zero _ Hzf Hf) as [Hmf Hmv].
    rewrite Z.max_l by lia. apply (roundMoney_near 0); [|lia..]. apply zero_near; [done|lia].
  - pose proof (sub_near _ _ _ _ _ _ Hna Hnb ltac:(lia) ltac:(lia) ltac:(lia) ltac:(lia) ltac:(lia) ltac:(lia)) as (Hf & Hs & Hn).
    destruct (max_spec zero _ Hzf Hf) as [Hmf Hmv].
    rewrite Z.max_r by lia. apply (roundMoney_near (a + 1 + (b + 1) + (a - b) + 2)); [|lia..].
    assert (val (max zero (sub (cents a) (cents b))) = val (sub (cents a) (cents b))) as Hv by lia.
    split_and!; [exact Hmf|lia|]. rewrite Hv. exact Hn.
Qed.

(** Rounding is the identity on amounts in cents. *)
Lemma roundMoney_cents c : 0 ≤ c ≤ 2 ^ 50 → roundMoney (cents c) = cents c.
Proof. intros Hc. apply (roundMoney_near (c + 1)); [by apply cents_near|lia..]. Qed.

(** The balance is integer arithmetic on cents.  For amounts
    in cents up to 2^45 (351 billion dollars), the amount paid and the balance
    due that the floating-point code computes are exactly the doubles of the
    paid cents and of the total minus the paid cents, never below zero. *)
Lemma invoiceBalance_cents t p :
  0 ≤ t ≤ 2 ^ 45 → 0 ≤ p ≤ 2 ^ 45 →
  invoiceBalance (cents t) (cents p) = (cents p, cents (Z.max 0 (t - p))).
Proof.
  intros Ht Hp. unfold invoiceBalance. rewrite !roundMoney_cents by lia. by rewrite max_sub_cents.
Qed.

Lemma invoiceBalance_cents_witness :
  invoiceBalance (cents 113005) (cents 13005) = (cents 13005, cents (Z.max 0 (113005 - 13005))).
Proof. apply invoiceBalance_cents; lia. Defined.

(** ** Any amount, rounded *)

(** A finite amount that is not negative rounds to the cents nearest to it, up
    to the rounding of one product. *)
Lemma roundMoney_some x :
  fin x → 0 ≤ val x → 100 * val x ≤ 2 ^ 41 * one →
  ∃ t, 0 ≤ t ≤ 2 ^ 43 ∧ roundMoney x = cents t ∧ 2 ^ 10 * (2 * Z.abs (t * one - 100 * val x) - one) ≤ one.
Proof.
  intros Hf Hx Hb. pose proof one_pos. pose proof one_big.
  assert (fin (or_zero x) ∧ val (or_zero x) = val x ∧ or_zero x ≠ NegZero) as (Hof & Hov & Hoz).
  { destruct Hf as [Hf Hw]. destruct x; try done. split; [split; [done|by left]|done]. }
  destruct hundred_spec as [Hhf Hhv].
  destruct (mul_below (or_zero x) hundred (2 ^ 41 * one)) as (Hmf & [Hm0 Hm1] & Hmr).
  { done. } { done. } { lia. } { lia. }
  { unfold one. apply (representable_shift (2 ^ 41) 1074); [lia|]. apply representable_int. lia. }
  { apply one_lt_max. apply scale_le. lia. }
  { rewrite Hov, Hhv. replace (val x * (100 * one)) with ((100 * val x) * one) by ring. by apply scale_le. }
  set (m := mul (or_zero x) hundred) in *. rewrite Hov, Hhv in Hmr.
  replace (val x * (100 * one)) with ((100 * val x) * one) in Hmr by ring.
  destruct (rounds_one _ _ Hmr ltac:(lia)) as [_ Hclose].
  destruct (round_spec m Hmf) as [Hrf Hrv].
  set (t := (2 * val m + one) / (2 * one)) in *.
  assert (2 * one * t ≤ 2 * val m + one < 2 * one * t + 2 * one) as Ht.
  { unfold t. pose proof (Z.div_mod (2 * val m + one) (2 * one) ltac:(lia)).
    pose proof (Z.mod_pos_bound (2 * val m + one) (2 * one) ltac:(lia)). lia. }
  assert (0 ≤ t) as Ht0 by (apply Z.div_pos; lia).
  assert (t ≤ 2 ^ 43) as Ht1.
  { apply unscale_le. replace (2 * one * t) with (2 * (t * one)) in Ht by ring. lia. }
  exists t. split; [lia|]. split.
  - unfold roundMoney, cents. f_equal. destruct (of_Z_nonneg t) as (Htf & Htv & Htz); [lia|].
    fold m. apply val_inj; [exact Hrf|exact Htf| |exact Htz|by rewrite Hrv, Htv].
    intros Hz. pose proof (round_negzero m Hmf Hm0 Hz) as Hm. unfold m in Hm.
    destruct (mul_negzero (or_zero x) hundred Hof Hhf ltac:(lia) ltac:(lia) Hm) as [Ho|Hh]; [by destruct (Hoz Ho)|].
    rewrite Hh in Hhv. cbn [val] in Hhv. lia.
  - replace (2 * one * t) with (2 * (t * one)) in Ht by ring. lia.
Qed.

(** ** Sums *)

Definition total_cents (l : list Z) : Z := foldr Z.add 0 l.

Lemma near_or_zero k c x : near k c x → near k c (or_zero x).
Proof.
  intros ([Hf Hw] & Hx & Hn). destruct x; try done.
  split_and!; [split; [done|by left]|done|done].
Qed.

Lemma sum_near l acc k s :
  near k s acc → 0 ≤ s → Forall (λ c, 0 ≤ c) l → s + total_cents l ≤ 2 ^ 40 → 0 ≤ k →
  k + Z.of_nat (length l) * (2 ^ 41 + 3) ≤ 2 ^ 52 - 2 ^ 45 →
  near (k + Z.of_nat (length l) * (2 ^ 41 + 3)) (s + total_cents l) (foldl (λ s x, add s (or_zero x)) acc (cents <$> l)).
Proof.
  revert acc k s. induction l as [|c l IH]; intros acc k s Hacc Hs Hl Hb Hk Hlen.
  { replace (s + total_cents []) with s by (unfold total_cents; simpl; lia). eapply near_le; [exact Hacc|]. simpl. lia. }
  apply Forall_cons in Hl as [Hc Hl]. cbn [total_cents foldr length] in *. rewrite fmap_cons. cbn [foldl].
  fold (total_cents l) in *.
  assert (0 ≤ total_cents l) as Ht.
  { clear -Hl. induction Hl; simpl; [lia|]. unfold total_cents in *. simpl. lia. }
  pose proof (near_or_zero _ _ _ (cents_near c ltac:(lia))) as Hn.
  assert (near (k + (2 ^ 41 + 3)) (s + c) (add acc (or_zero (cents c)))) as Hadd.
  { eapply near_le; [apply (add_near _ _ _ _ _ _ Hacc Hn); lia|lia]. }
  specialize (IH _ _ _ Hadd ltac:(lia) Hl ltac:(lia) ltac:(lia) ltac:(lia)).
  rewrite Z.add_assoc. eapply near_le; [exact IH|lia].
Qed.

Lemma zero_is_cents : near 0 0 zero.
Proof. destruct (of_Z_nonneg 0) as (Hf & Hv & _); [lia|]. apply zero_near; [exact Hf|]. fold zero in Hv. lia. Qed.

(** Recorded amounts in cents add up to their cents. *)
Lemma roundMoney_sum l :
  Forall (λ c, 0 ≤ c) l → total_cents l ≤ 2 ^ 40 → (length l ≤ 1000)%nat →
  roundMoney (sum (cents <$> l)) = cents (total_cents l).
Proof.
  intros Hl Hb Hn. assert (0 ≤ total_cents l) as Ht.
  { clear -Hl. induction Hl; simpl; [lia|]. unfold total_cents in *. simpl. lia. }
  pose proof (sum_near l zero 0 0 zero_is_cents ltac:(lia) Hl ltac:(lia) ltac:(lia) ltac:(lia)) as Hs.
  eapply roundMoney_near; [exact Hs|lia..].
Qed.

Lemma or_zero_of_Z c : 0 ≤ c ≤ 2 ^ 50 → or_zero (of_Z c) = of_Z c.
Proof. intros Hc. destruct (of_Z_nonneg c Hc) as ([Hf _] & _ & Hz). by destruct (of_Z c). Qed.

Lemma cents_negzero c : 0 ≤ c ≤ 2 ^ 50 → cents c ≠ NegZero.
Proof.
  intros Hc. destruct (of_Z_nonneg c Hc) as (Hf & Hv & Hz). pose proof one_pos.
  assert (0 ≤ mant (of_Z c)) as Hm by (apply mant_nonneg; [done|]; rewrite Hv; apply Z.mul_nonneg_nonneg; lia).
  destruct Hf as [Hf _]. unfold cents. remember (of_Z c) as x eqn:Ex. clear Ex.
  clear Hv. destruct x as [| | |m e]; [discriminate Hf|discriminate Hf|by destruct Hz|]. cbn [mant] in Hm.
  change hundred with (Fin 25 2). unfold div. cbn [negative is_zero]. rewrite (proj2 (Z.ltb_ge m 0)) by done.
  change (25 <? 0) with false. apply fround_false.
Qed.

Lemma or_zero_cents c : 0 ≤ c ≤ 2 ^ 50 → or_zero (cents c) = cents c.
Proof.
  intros Hc. pose proof (cents_negzero c Hc) as Hz. destruct (cents_near c Hc) as ([Hf _] & _). by destruct (cents c).
Qed.

(** Tax at a whole percentage rate: the nearest cents. *)
Lemma tax_cents P rate :
  0 ≤ P ≤ 2 ^ 40 → 0 ≤ rate ≤ 100 →
  ∃ t, 0 ≤ t ∧ t ≤ 2 ^ 43 ∧ 2 * Z.abs (100 * t - P * rate) ≤ 100 ∧
    roundMoney (div (mul (cents P) (of_Z rate)) hundred) = cents t.
Proof.
  intros HP Hr. pose proof one_pos. pose proof one_big.
  destruct (cents_near P ltac:(lia)) as (Hfp & Hvp & Hnp).
  destruct (of_Z_nonneg rate ltac:(lia)) as (Hfr & Hvr & _). destruct hundred_spec as [Hhf Hhv].
  assert (0 ≤ P * one) as HP0 by (apply Z.mul_nonneg_nonneg; lia).
  assert (P * one ≤ 2 ^ 40 * one) as HP1 by (apply scale_le; lia).
  assert (val (cents P) * rate ≤ val (cents P) * 100) as Hrate by (apply Z.mul_le_mono_nonneg_l; lia).
  assert (0 ≤ val (cents P) * rate) as Hrate0 by (apply Z.mul_nonneg_nonneg; lia).
  rewrite Z.mul_add_distr_r, Z.mul_1_l in Hnp.
  destruct (mul_below (cents P) (of_Z rate) (2 ^ 41 * one)) as (Hmf & [Hm0 Hm1] & Hmr).
  { done. } { done. } { lia. } { rewrite Hvr. apply Z.mul_nonneg_nonneg; lia. }
  { unfold one. apply (representable_shift (2 ^ 41) 1074); [lia|]. apply representable_int. lia. }
  { apply one_lt_max. apply scale_le. lia. }
  { rewrite Hvr, Z.mul_assoc. apply scale_le. lia. }
  set (m := mul (cents P) (of_Z rate)) in *. rewrite Hvr, Z.mul_assoc in Hmr.
  destruct (rounds_one _ _ Hmr Hrate0) as [_ Hmc].
  destruct (div_spec m hundred Hmf Hhf ltac:(lia)) as (q & Hq & Hp). rewrite Hhv in Hq.
  rewrite !Z.abs_eq in Hq by lia.
  assert (rounds (val m) 100 q) as Hq' by (eapply rounds_ratio; [| | |exact Hq]; [lia|lia|ring]).
  assert (0 ≤ q) as Hq0 by (eapply rounds_nonneg; [| |exact Hq']; lia).
  assert (q ≤ 2 ^ 50 * one) as Hq1 by (eapply rounds_le; [|exact Hq'|apply bound_representable|]; lia).
  destruct (magnitude _ _ _ Hp) as [Hdf Hdv].
  { apply one_lt_max. eapply Z.le_trans; [exact Hq1|]. apply scale_le. lia. }
  { intros Hqn. rewrite (negative_val hundred) by (done || lia).
    destruct (decide (val m = 0)) as [E|].
    - exfalso. apply Hqn. rewrite E in Hq'. by eapply rounds_0; [|exact Hq']; lia.
    - rewrite negative_val; [done|done|lia]. }
  pose proof (rounds_close (val m) 100 q ltac:(lia) Hq' ltac:(lia)) as Hqc.
  destruct (roundMoney_some (div m hundred) Hdf ltac:(lia) ltac:(lia)) as (t & Ht & Hrt & Hte).
  exists t. split; [lia|]. split; [lia|]. split; [|done]. rewrite Hdv in Hte.
  assert (2 ^ 53 * Z.abs (100 * (val (cents P) * rate) - P * one * rate) ≤ (P * one + one) * 100) as Hpr.
  { replace (100 * (val (cents P) * rate) - P * one * rate) with ((100 * val (cents P) - P * one) * rate) by ring.
    rewrite Z.abs_mul, (Z.abs_eq rate) by lia. rewrite Z.mul_assoc.
    apply Z.mul_le_mono_nonneg; lia. }
  assert (2 * Z.abs (100 * (t * one) - P * one * rate) < 101 * one) as Hfin by lia.
  assert (2 * Z.abs (100 * t - P * rate) < 101); [|lia].
  apply (Z.mul_lt_mono_pos_r one); [done|].
  replace (2 * Z.abs (100 * t - P * rate) * one) with (2 * Z.abs (100 * (t * one) - P * one * rate)); [done|].
  replace (100 * (t * one) - P * one * rate) with ((100 * t - P * rate) * one) by ring.
  rewrite Z.abs_mul, (Z.abs_eq one) by lia. ring.
Qed.

(** C39 (equivalence): invoice totals are exact cents.  For line totals in
    cents (up to a thousand lines and eleven billion dollars), a discount in
    cents and a whole percentage rate, the subtotal is exactly the sum of the
    lines, the discount comes off it but never below zero, the tax is a whole
    number of cents nearest to the rate's share of that, and the total is
    exactly their sum. *)
Theorem invoiceTotals_cents lines rate discount :
  Forall (λ c, 0 ≤ c) lines → total_cents lines ≤ 2 ^ 40 → (length lines ≤ 1000)%nat →
  0 ≤ rate ≤ 100 → 0 ≤ discount ≤ 2 ^ 40 →
  let S := total_cents lines in let P := Z.max 0 (S - discount) in
  ∃ t, 0 ≤ t ∧ 2 * Z.abs (100 * t - P * rate) ≤ 100 ∧
    invoiceTotals (cents <$> lines) (of_Z rate) (cents discount) = Totals (cents S) (cents P) (cents t) (cents (P + t)).
Proof.
  intros Hl Hb Hn Hr Hd S P. pose proof one_pos. pose proof one_big.
  assert (0 ≤ S) as HS.
  { unfold S. clear -Hl. induction Hl; simpl; [lia|]. unfold total_cents in *. simpl. lia. }
  assert (roundMoney (sum (cents <$> lines)) = cents S) as Hsub by (by apply roundMoney_sum).
  assert (S ≤ 2 ^ 40) as HS1 by done. clearbody S.
  assert (roundMoney (max zero (sub (cents S) (or_zero (cents discount)))) = cents P) as Hpre.
  { rewrite or_zero_cents by lia. apply max_sub_cents; lia. }
  assert (0 ≤ P ≤ 2 ^ 40) as HP by (unfold P; lia). clearbody P.
  destruct (tax_cents P rate HP Hr) as (t & Ht0 & Ht1 & Ht & Htax).
  exists t. split; [done|]. split; [done|]. unfold invoiceTotals.
  rewrite Hsub, Hpre, or_zero_of_Z, Htax by lia. f_equal.
  pose proof (add_near _ _ _ _ _ _ (cents_near P ltac:(lia)) (cents_near t ltac:(lia))
    ltac:(lia) ltac:(lia) ltac:(lia) ltac:(lia) ltac:(lia) ltac:(lia)) as Hadd.
  apply (roundMoney_near _ _ _ Hadd); lia.
Qed.

Lemma invoiceTotals_cents_witness :
  invoiceTotals (cents <$> [10050; 20000]) (of_Z 13) (cents 50) =
    Totals (cents 30050) (cents 30000) (cents 3900) (cents 33900) ∧
  ∃ t, 0 ≤ t ∧ 2 * Z.abs (100 * t - 30000 * 13) ≤ 100 ∧
    invoiceTotals (cents <$> [10050; 20000]) (of_Z 13) (cents 50) =
    Totals (cents 30050) (cents 30000) (cents t) (cents (30000 + t)).
Proof.
  split; [by vm_compute|].
  apply (invoiceTotals_cents [10050; 20000] 13 50); [by repeat constructor|by vm_compute|simpl; lia|lia|lia].
Defined.

(** [roundMoney] is not half-up on every half cent: 1.005 goes down. *)
Lemma roundMoney_half_down : roundMoney (div (of_Z 1005) (of_Z 1000)) = cents 100.
Proof. by vm_compute. Qed.

End Money.
