(* ===== verification/Payments.v ===== *)
(** * Invoice payments

    src/src/services/invoice-settlement.js and invoice-payment.service.js: the
    one locked path every payment takes.  An invoice and its payment rows are a
    record; a payment runs in a transaction that holds the invoice's row lock,
    so payments of one invoice are applied one after the other, and a refusal
    rolls back.  The theory proves it refines integer bookkeeping on cents. *)

From S2P Require Import Prelude JsNumber Money.
Import Js Money.

Module Payments.

(* src/src/services/invoice-settlement.js:23-23 PAYABLE_INVOICE_STATUSES *)
Definition PAYABLE_INVOICE_STATUSES : list string := UNPAID_INVOICE_STATUSES.

Record payment := Payment { p_amount : num; p_method : string; p_paidAt : Z }.

Record invoice := Invoice {
  i_total : num;
  i_status : string;
  i_method : option string;
  i_paidAt : option Z;
  i_attempt : Z;                       (** [stripeCheckoutAttempt] *)
  i_session : option string;           (** [stripeCheckoutSessionId] *)
  i_updatedAt : Z;
  i_payments : list payment            (** its [InvoicePayment] rows *)
}.

(** The invoice and the [invoice.paid] events recorded for it. *)
Record paid_event := PaidEvent { e_amount : num; e_method : string; e_source : string }.
Record store := Store { s_invoice : invoice; s_events : list paid_event }.

(* src/src/services/invoice-settlement.js:25-43 InvoiceOverpaymentError *)
Inductive payment_error := Overpayment (balanceDue : num) | InvalidAmount.

(** The database's SUM over the rows; no rows is null, here zero. *)
(* src/src/utils/invoice-balance.js:36-39 invoiceAmountPaid *)
Definition invoiceAmountPaid (i : invoice) : num := roundMoney (sum (p_amount <$> i_payments i)).

(* src/src/utils/invoice-balance.js:42-48 withInvoiceBalance *)
Definition withInvoiceBalance (i : invoice) : invoice * (num * num) :=
  (i, invoiceBalance (i_total i) (sum (p_amount <$> i_payments i))).

(** The claim takes the row lock while the invoice is payable. *)
(* src/src/services/invoice-settlement.js:49-56 claimPayableInvoice *)
Definition claimPayableInvoice (now : Z) (i : invoice) : option invoice :=
  if bool_decide (i_status i ∈ PAYABLE_INVOICE_STATUSES) then
    Some (Invoice (i_total i) (i_status i) (i_method i) (i_paidAt i) (i_attempt i) (i_session i) now (i_payments i))
  else None.

(** What a caller asks for: an amount, or the whole balance. *)
Record request := Request {
  r_amount : option num; r_method : string; r_paidAt : Z; r_source : string; r_clearsCheckout : bool
}.
Definition manual (r : request) : request := Request (r_amount r) (r_method r) (r_paidAt r) "manual" true.

Record outcome := Outcome { o_payment : payment; o_amount : num; o_fullyPaid : bool; o_balance : num * num }.

(* src/src/services/invoice-settlement.js:69-107 applyInvoicePayment *)
Definition applyInvoicePayment (i : invoice) (events : list paid_event) (r : request)
  : result payment_error (outcome * store) :=
  let paidBefore := invoiceAmountPaid i in
  let '(_, balanceDue) := invoiceBalance (i_total i) paidBefore in
  let amount := roundMoney (default balanceDue (r_amount r)) in
  let nothingOwed := leb balanceDue CENT_TOLERANCE in
  if (if nothingOwed then negb (eqb amount zero) else negb (ltb zero amount)) then
    Err (if ltb zero amount then Overpayment balanceDue else InvalidAmount)
  else if ltb (add balanceDue CENT_TOLERANCE) amount then Err (Overpayment balanceDue)
  else
    let row := Payment amount (r_method r) (r_paidAt r) in
    let fullyPaid := leb (sub (roundMoney (i_total i)) CENT_TOLERANCE) (add paidBefore amount) in
    let updated := Invoice (i_total i) (if fullyPaid then "PAID" else i_status i) (Some (r_method r))
                     (if fullyPaid then Some (r_paidAt r) else i_paidAt i) (i_attempt i + 1)
                     (if r_clearsCheckout r then None else i_session i) (i_updatedAt i) (i_payments i ++ [row]) in
    let events := if fullyPaid then events ++ [PaidEvent amount (r_method r) (r_source r)] else events in
    Ok (Outcome row amount fullyPaid (invoiceBalance (i_total i) (add paidBefore amount)), Store updated events).

(** The transaction: nothing when the invoice is not payable; a refusal rolls
    back; otherwise the outcome and the Checkout session it cleared.  A manual
    payment always clears the stored session ([CLEARED_CHECKOUT_FIELDS]). *)
(* src/src/services/invoice-payment.service.js:41-62 recordManualPayment *)
Definition recordManualPayment (r : request) (now : Z) (s : store)
  : result payment_error (option (outcome * option string)) * store :=
  match claimPayableInvoice now (s_invoice s) with
  | None => (Ok None, s)
  | Some current =>
      match applyInvoicePayment current (s_events s) (manual r) with
      | Err e => (Err e, s)
      | Ok (o, s') => (Ok (Some (o, i_session current)), s')
      end
  end.

(** ** Comparisons of amounts in cents *)

Lemma tolerance_spec : fin CENT_TOLERANCE ∧ 2 ^ 53 * Z.abs (200 * val CENT_TOLERANCE - one) ≤ 2 * one ∧ 0 ≤ val CENT_TOLERANCE.
Proof.
  pose proof one_pos. pose proof one_big. destruct (of_Z_nonneg 5) as (Hf5 & Hv5 & _); [lia|].
  destruct (of_Z_nonneg 1000) as (Hf1 & Hv1 & _); [lia|].
  destruct (div_spec (of_Z 5) (of_Z 1000) Hf5 Hf1 ltac:(lia)) as (r & Hr & Hp).
  rewrite Hv5, Hv1, !Z.abs_eq in Hr by lia.
  assert (rounds one 200 r) as Hr' by (eapply rounds_ratio; [| | |exact Hr]; [lia|lia|ring]).
  assert (0 ≤ r) as Hr0 by (eapply rounds_nonneg; [| |exact Hr']; lia).
  assert (r ≤ 2 ^ 50 * one) as Hle by (eapply rounds_le; [|exact Hr'|apply bound_representable|]; lia).
  destruct (magnitude _ _ _ Hp) as [Hf Hv].
  { apply one_lt_max. eapply Z.le_trans; [exact Hle|]. apply scale_le. lia. }
  { intros _. rewrite !negative_val by (done || lia). done. }
  fold CENT_TOLERANCE in Hf, Hv. split; [done|]. rewrite Hv. split; [|done].
  pose proof (rounds_close one 200 r ltac:(lia) Hr' ltac:(lia)). rewrite (Z.mul_comm 200). lia.
Qed.

(** Sums with the tolerance compare as cents do. *)
Lemma cents_values c : 0 ≤ c ≤ 2 ^ 45 →
  fin (cents c) ∧ 0 ≤ val (cents c) ∧ 2 ^ 6 * Z.abs (100 * val (cents c) - c * one) ≤ one.
Proof.
  intros Hc. pose proof one_pos. destruct (cents_near c ltac:(lia)) as (Hf & Hv & Hn). split; [done|]. split; [done|].
  assert ((c + 1) * one ≤ 2 ^ 46 * one) by (apply scale_le; lia). lia.
Qed.

Lemma cents_lt a b : 0 ≤ a ≤ 2 ^ 45 → 0 ≤ b ≤ 2 ^ 45 → ltb (cents a) (cents b) = (a <? b).
Proof.
  intros Ha Hb. pose proof one_pos. destruct (cents_values a Ha) as (Hfa & _ & Hna), (cents_values b Hb) as (Hfb & _ & Hnb).
  rewrite ltb_val by done. destruct (Z.ltb_spec a b) as [H1|H1].
  - apply Z.ltb_lt. assert ((a + 1) * one ≤ b * one) by (apply scale_le; lia). rewrite Z.mul_add_distr_r in *. lia.
  - apply Z.ltb_ge. destruct (decide (a = b)) as [->|]; [done|].
    assert ((b + 1) * one ≤ a * one) by (apply scale_le; lia). rewrite Z.mul_add_distr_r in *. lia.
Qed.

Lemma cents_owed b : 0 ≤ b ≤ 2 ^ 45 → leb (cents b) CENT_TOLERANCE = (b =? 0).
Proof.
  intros Hb. pose proof one_pos. destruct (cents_values b Hb) as (Hfb & _ & Hnb), tolerance_spec as (Hft & Ht & _).
  rewrite leb_val by done. destruct (Z.eqb_spec b 0) as [->|].
  - apply Z.leb_le. lia.
  - apply Z.leb_gt. assert (1 * one ≤ b * one) by (apply scale_le; lia). lia.
Qed.

Lemma cents_exceeds a b : 0 ≤ a ≤ 2 ^ 45 → 0 ≤ b ≤ 2 ^ 45 → ltb (add (cents b) CENT_TOLERANCE) (cents a) = (b <? a).
Proof.
  intros Ha Hb. pose proof one_pos. pose proof one_big.
  destruct (cents_values a Ha) as (Hfa & _ & Hna), (cents_values b Hb) as (Hfb & Hb0 & Hnb), tolerance_spec as (Hft & Ht & Ht0).
  assert (b * one ≤ 2 ^ 45 * one) as Hb1 by (apply scale_le; lia).
  destruct (add_spec _ _ Hfb Hft) as (r & Hr & Hp). rewrite Z.abs_eq in Hr by lia.
  assert (r ≤ 2 ^ 50 * one) as Hle by (eapply rounds_le; [|exact Hr|apply bound_representable|]; lia).
  destruct (magnitude _ _ _ Hp) as [Hf Hv].
  { apply one_lt_max. eapply Z.le_trans; [exact Hle|]. apply scale_le. lia. }
  { intros _. apply Z.ltb_ge. lia. }
  pose proof (rounds_close (val (cents b) + val CENT_TOLERANCE) 1 r ltac:(lia) Hr ltac:(lia)) as Hc.
  rewrite ltb_val, Hv by done. destruct (Z.ltb_spec b a) as [H1|H1].
  - apply Z.ltb_lt. assert ((b + 1) * one ≤ a * one) by (apply scale_le; lia). rewrite Z.mul_add_distr_r in *. lia.
  - apply Z.ltb_ge. assert (a * one ≤ b * one) by (apply scale_le; lia). lia.
Qed.

Lemma cents_covers t p a :
  0 ≤ t ≤ 2 ^ 44 → 0 ≤ p → 0 ≤ a → p + a ≤ 2 ^ 44 →
  leb (sub (cents t) CENT_TOLERANCE) (add (cents p) (cents a)) = (t <=? p + a).
Proof.
  intros Ht Hp Ha Hpa. pose proof one_pos. pose proof one_big.
  destruct (cents_values t ltac:(lia)) as (Hft & Ht0 & Hnt), (cents_values p ltac:(lia)) as (Hfp & Hp0 & Hnp),
    (cents_values a ltac:(lia)) as (Hfa & Ha0 & Hna), tolerance_spec as (Hfe & He & He0).
  assert (t * one ≤ 2 ^ 44 * one) as Ht1 by (apply scale_le; lia).
  assert ((p + a) * one ≤ 2 ^ 44 * one) as Hpa1 by (apply scale_le; lia).
  assert (0 ≤ t * one ∧ 0 ≤ p * one ∧ 0 ≤ a * one) as (Hto & Hpo & Hao) by (split_and!; apply Z.mul_nonneg_nonneg; lia).
  rewrite Z.mul_add_distr_r in Hpa1.
  destruct (add_spec _ _ Hfp Hfa) as (r & Hr & Hpr). rewrite Z.abs_eq in Hr by lia.
  assert (r ≤ 2 ^ 50 * one) as Hle by (eapply rounds_le; [|exact Hr|apply bound_representable|]; lia).
  destruct (magnitude _ _ _ Hpr) as [Hf Hv].
  { apply one_lt_max. eapply Z.le_trans; [exact Hle|]. apply scale_le. lia. }
  { intros _. apply Z.ltb_ge. lia. }
  pose proof (rounds_close (val (cents p) + val (cents a)) 1 r ltac:(lia) Hr ltac:(lia)) as Hc.
  destruct (sub_spec _ _ Hft Hfe) as (q & Hq & Hpq).
  assert (q ≤ 2 ^ 50 * one) as Hqle by (eapply rounds_le; [|exact Hq|apply bound_representable|]; lia).
  destruct (packed_fin _ _ _ Hpq) as [Hfs Hvs].
  { apply one_lt_max. eapply Z.le_trans; [exact Hqle|]. apply scale_le. lia. }
  pose proof (rounds_close _ 1 q ltac:(lia) Hq ltac:(lia)) as Hcq.
  assert (2 ^ 53 * Z.abs (val (sub (cents t) CENT_TOLERANCE) - (val (cents t) - val CENT_TOLERANCE))
          ≤ Z.abs (val (cents t) - val CENT_TOLERANCE) + 2 ^ 52) as Hsub.
  { rewrite Hvs. destruct (Z.ltb_spec (val (cents t) - val CENT_TOLERANCE) 0); lia. }
  rewrite leb_val, Hv by done. destruct (Z.leb_spec t (p + a)) as [H1|H1].
  - apply Z.leb_le. assert (t * one ≤ (p + a) * one) by (apply scale_le; lia). rewrite Z.mul_add_distr_r in *. lia.
  - apply Z.leb_gt. assert ((p + a + 1) * one ≤ t * one) by (apply scale_le; lia). rewrite !Z.mul_add_distr_r in *. lia.
Qed.

(** ** The ledger in cents *)

(** What the code promises: balances and payments as whole cents. *)
Inductive ledger_answer := LOverpaid | LInvalid | LPaid (amount : Z) (fully : bool).

Definition ledger_pay (total : Z) (paid : list Z) (amount : option Z) : ledger_answer :=
  let due := Z.max 0 (total - total_cents paid) in
  let a := default due amount in
  if due =? 0 then (if a =? 0 then LPaid 0 true else LOverpaid)
  else if a =? 0 then LInvalid
  else if due <? a then LOverpaid
  else LPaid a (total <=? total_cents paid + a).

(** The invoice holds these cents. *)
Definition holds (i : invoice) (total : Z) (paid : list Z) : Prop :=
  i_total i = cents total ∧ p_amount <$> i_payments i = cents <$> paid ∧
  0 ≤ total ≤ 2 ^ 40 ∧ Forall (λ c, 0 ≤ c) paid ∧ total_cents paid ≤ 2 ^ 40.

(** An amount a request may name: finite, not negative, below 2^41 cents. *)
Definition payable (x : num) : Prop := fin x ∧ 0 ≤ val x ∧ 100 * val x ≤ 2 ^ 41 * one.

(** The cents a request asks for. *)
Definition asks (r : request) (a : option Z) : Prop :=
  match r_amount r, a with
  | None, None => True
  | Some x, Some c => 0 ≤ c ≤ 2 ^ 43 ∧ roundMoney x = cents c
  | _, _ => False
  end.

Lemma payable_asks r : (∀ x, r_amount r = Some x → payable x) → ∃ a, asks r a.
Proof.
  intros H. unfold asks. destruct (r_amount r) as [x|]; [|by exists None].
  destruct (H x eq_refl) as (Hf & Hx & Hb). destruct (roundMoney_some x Hf Hx Hb) as (t & Ht & Hr & _).
  by exists (Some t).
Qed.

Lemma total_cents_nonneg l : Forall (λ c, 0 ≤ c) l → 0 ≤ total_cents l.
Proof. induction 1; unfold total_cents in *; simpl; lia. Qed.

Lemma amount_paid_cents i total paid :
  holds i total paid → (length paid ≤ 1000)%nat → invoiceAmountPaid i = cents (total_cents paid).
Proof.
  intros (_ & Hp & _ & Hn & Hb) Hl. unfold invoiceAmountPaid. rewrite Hp. by apply roundMoney_sum.
Qed.

Lemma apply_cents i total paid events r a :
  holds i total paid → (length paid ≤ 1000)%nat → asks r a →
  match ledger_pay total paid a with
  | LOverpaid => applyInvoicePayment i events r = Err (Overpayment (cents (Z.max 0 (total - total_cents paid))))
  | LInvalid => applyInvoicePayment i events r = Err InvalidAmount
  | LPaid amount fully => ∃ o s, applyInvoicePayment i events r = Ok (o, s) ∧ o_amount o = cents amount ∧
      o_fullyPaid o = fully ∧ 0 ≤ amount ∧ total_cents paid + amount ≤ Z.max total (total_cents paid) ∧
      i_total (s_invoice s) = i_total i ∧
      i_payments (s_invoice s) = i_payments i ++ [Payment (cents amount) (r_method r) (r_paidAt r)] ∧
      i_status (s_invoice s) = (if fully then "PAID" else i_status i) ∧
      s_events s = if fully then events ++ [PaidEvent (cents amount) (r_method r) (r_source r)] else events
  end.
Proof.
  intros Hh Hl Ha. pose proof (amount_paid_cents _ _ _ Hh Hl) as Hpaid.
  destruct Hh as (Ht & _ & Htb & Hn & Hb). pose proof (total_cents_nonneg _ Hn) as Hp0.
  set (P := total_cents paid) in *. set (due := Z.max 0 (total - P)).
  assert (invoiceBalance (i_total i) (cents P) = (cents P, cents due)) as Hbal.
  { rewrite Ht. unfold invoiceBalance. rewrite !roundMoney_cents by lia. by rewrite max_sub_cents by lia. }
  assert (0 ≤ due ≤ 2 ^ 40) as Hd by (unfold due; lia).
  assert (0 ≤ default due a ≤ 2 ^ 43 ∧ roundMoney (default (cents due) (r_amount r)) = cents (default due a)) as [Hab Hamt].
  { unfold asks in Ha. destruct (r_amount r) as [x|], a as [c|]; try done. simpl. split; [lia|].
    apply roundMoney_cents. lia. }
  unfold applyInvoicePayment. rewrite Hpaid, Hbal. cbv beta iota zeta. rewrite Hamt.
  unfold ledger_pay. fold P. fold due. set (am := default due a) in *.
  rewrite cents_owed by lia.
  assert (eqb (cents am) zero = (am =? 0)) as Heq.
  { change zero with (cents 0). destruct (Z.eqb_spec am 0) as [->|Hne].
    - rewrite eqb_val by apply (cents_values 0 ltac:(lia)). apply Z.eqb_refl.
    - rewrite eqb_val by (apply cents_values; lia). apply Z.eqb_neq. intros E.
      pose proof (cents_lt 0 am ltac:(lia) ltac:(lia)) as Hlt.
      rewrite ltb_val in Hlt by (apply cents_values; lia). rewrite E in Hlt.
      rewrite Z.ltb_irrefl in Hlt. symmetry in Hlt. apply Z.ltb_ge in Hlt. lia. }
  assert (ltb zero (cents am) = (0 <? am)) as Hlt.
  { change zero with (cents 0). apply cents_lt; lia. }
  rewrite Heq, Hlt.
  assert (cents_ok : (total <=? P + am) = (total <=? P + am)) by done.
  rewrite cents_exceeds by lia. rewrite Ht, roundMoney_cents by lia.
  destruct (Z.eqb_spec due 0) as [Hdz|Hdz].
  - destruct (Z.eqb_spec am 0) as [Hz|Hz]; cbn [negb].
    + rewrite Hz, Hdz. change (0 <? 0) with false. cbv iota.
      rewrite cents_covers by lia. rewrite (proj2 (Z.leb_le total (P + 0))) by (unfold due in *; lia).
      eexists _, _. split; [reflexivity|]. cbn. split_and!; try done; try lia.
    + by rewrite (proj2 (Z.ltb_lt 0 am)) by lia.
  - destruct (Z.eqb_spec am 0) as [Hz|Hz].
    + by rewrite Hz.
    + rewrite (proj2 (Z.ltb_lt 0 am)) by lia. cbn [negb]. destruct (Z.ltb_spec due am); [done|].
      rewrite cents_covers by (unfold due in *; lia).
      eexists _, _. split; [reflexivity|]. cbn. split_and!; try done; try (unfold due in *; lia).
Qed.


(** An invoice of $1,130.00, sent and unpaid, and amounts asked for. *)
Definition sample : invoice := Invoice (cents 113000) "SENT" None None 0 (Some "cs_1") 0 [].
Definition asked (amount : option num) : request := Request amount "ETRANSFER" 7 "manual" true.

Lemma sample_holds : holds sample 113000 [].
Proof. split_and!; [done|done|lia|lia|constructor|unfold total_cents; simpl; lia]. Qed.
Lemma sample_payable c : 0 ≤ c ≤ 2 ^ 30 → payable (cents c).
Proof.
  intros Hc. pose proof one_pos. destruct (cents_values c ltac:(lia)) as (Hf & Hv & Hn). split; [done|]. split; [done|].
  assert ((c + 1) * one ≤ 2 ^ 41 * one) by (apply scale_le; lia). rewrite Z.mul_add_distr_r in *. lia.
Qed.
Lemma asked_payable c x : 0 ≤ c ≤ 2 ^ 30 → r_amount (asked (Some (cents c))) = Some x → payable x.
Proof. intros Hc Hx. cbn [r_amount asked] in Hx. apply (inj Some) in Hx. rewrite <- Hx. by apply sample_payable. Qed.


(** Payments of one invoice, one after the other. *)
Fixpoint pay_all (requests : list (request * Z)) (s : store) : store :=
  match requests with
  | [] => s
  | (r, now) :: requests => pay_all requests (recordManualPayment r now s).2
  end.

(** What holds between the payments of an invoice. *)
Definition settling (total : Z) (s : store) (paid : list Z) : Prop :=
  holds (s_invoice s) total paid ∧ total_cents paid ≤ total ∧
  (i_status (s_invoice s) = "PAID" → total_cents paid = total) ∧
  (i_status (s_invoice s) = "PAID" ∨ i_status (s_invoice s) ∈ PAYABLE_INVOICE_STATUSES) ∧
  length (s_events s) = (if bool_decide (i_status (s_invoice s) = "PAID") then 1 else 0)%nat.

Lemma payable_not_paid status : status ∈ PAYABLE_INVOICE_STATUSES → status ≠ "PAID".
Proof. intros H ->. unfold PAYABLE_INVOICE_STATUSES, UNPAID_INVOICE_STATUSES in H. mem_absurd. Qed.

Lemma ledger_pay_fully total paid a amount :
  ledger_pay total paid a = LPaid amount true → total_cents paid ≤ total → total_cents paid + amount = total.
Proof. unfold ledger_pay. intros H Hp. repeat case_match; simplify_eq/=; bool_simplify; lia. Qed.

Lemma total_cents_snoc paid amount : total_cents (paid ++ [amount]) = total_cents paid + amount.
Proof. induction paid as [|x l IH]; unfold total_cents in *; simpl in *; lia. Qed.

Lemma settling_step total s paid r now :
  settling total s paid → (length paid < 1000)%nat → (∀ x, r_amount r = Some x → payable x) →
  ∃ paid', settling total (recordManualPayment r now s).2 paid' ∧ (length paid' ≤ S (length paid))%nat.
Proof.
  intros Hsett Hlen Hr. pose proof Hsett as (Hh & Ht & Hp & Hst & He). unfold recordManualPayment, claimPayableInvoice.
  destruct (bool_decide (i_status (s_invoice s) ∈ PAYABLE_INVOICE_STATUSES)) eqn:Eb; [|exists paid; by split; [|lia]].
  apply bool_decide_eq_true in Eb. pose proof (payable_not_paid _ Eb) as Hnp. rewrite bool_decide_eq_false_2 in He by done.
  set (current := Invoice _ _ _ _ _ _ _ _).
  destruct (payable_asks r Hr) as [a Ha].
  pose proof (apply_cents current total paid (s_events s) (manual r) a Hh ltac:(lia) Ha) as H.
  destruct (ledger_pay total paid a) as [| |amount fully] eqn:El; [rewrite H; exists paid; by split; [|lia]..|].
  destruct H as (o & s' & -> & _ & _ & Ha0 & Hle & Htot & Hpay & Hstat & Hev). cbn [snd].
  destruct Hh as (Hh1 & Hh2 & Hh3 & Hh4 & Hh5). exists (paid ++ [amount]).
  split; [|rewrite length_app; simpl; lia]. unfold settling. rewrite total_cents_snoc, Hstat. split_and!.
  - split_and!; [by rewrite Htot| |lia..|apply Forall_app; by repeat constructor|rewrite total_cents_snoc; lia].
    rewrite Hpay, fmap_app. unfold current. simpl. rewrite fmap_app. f_equal. exact Hh2.
  - lia.
  - destruct fully; [|done]. intros _. by eapply ledger_pay_fully.
  - destruct fully; [by left|by right].
  - rewrite Hev. destruct fully; [rewrite length_app; simpl; by rewrite He|].
    by rewrite bool_decide_eq_false_2 by done.
Qed.

Lemma settling_all total requests : ∀ s paid,
  settling total s paid → (length paid + length requests ≤ 1000)%nat →
  (∀ r now x, (r, now) ∈ requests → r_amount r = Some x → payable x) →
  ∃ paid', settling total (pay_all requests s) paid'.
Proof.
  induction requests as [|[r now] requests IH]; intros s paid Hs Hlen Hr; [by exists paid|]. simpl in Hlen.
  destruct (settling_step total s paid r now Hs) as (paid' & Hs' & Hl'); [lia|intros x; eapply Hr; left|].
  apply (IH _ paid' Hs'); [lia|]. intros; eapply Hr; [by right|done].
Qed.


(** $500.00, then too much, then the balance, then a repeat. *)
Definition sample_requests : list (request * Z) :=
  [(asked (Some (cents 50000)), 1); (asked (Some (cents 90000)), 2); (asked None, 3); (asked None, 4)].


End Payments.
