(* ===== verification/Billing.v ===== *)
(** * Invoices from reviewed work

    src/src/services/unbilled-invoice.service.js with the invoice numbers of
    src/src/utils/invoice.js, the draft edits of invoice-draft.service.js and
    the void and undo of src/src/routes/invoice.routes.js: approved time and
    billable expenses are previewed, billed once on a numbered draft, and
    released again when that draft was voided.  Creating and releasing run in
    the caller's serializable transaction, so an operation acts on one state. *)

From stdpp Require Import pretty.
From S2P Require Import Prelude Store Pages JsNumber Money.
Import Js.

Module Billing.
Import Money.

(** ** Data *)

Inductive kind := TIME | EXPENSE.
#[export] Instance kind_eq_dec : EqDecision kind.
Proof. solve_decision. Defined.

Inductive work :=
  | TimeWork (duration : Z) (hourlyRate : option num) (user : string) (approved : bool)
  | ExpenseWork (amount : num) (currency : string) (organization : string) (client : option string).
(** A row of [time_entries] or [expenses]. *)
Record row := Row {
  r_description : option string; r_date : Z; r_updatedAt : Z; r_project : option string;
  r_deleted : bool; r_billable : bool; r_invoiced : bool; r_invoice : option string; r_work : work
}.
Record client := Client { c_org : string; c_name : string; c_deleted : bool }.
Record project := Project { p_org : string; p_client : option string; p_name : string; p_deleted : bool }.
Record user := User { u_org : string; u_name : string; u_admin : bool; u_active : bool }.

(** A source as the invoice keeps it, and the line it becomes. *)
Inductive source_work :=
  | TimeSource (duration : Z) (suggestedHourlyRate : option num) (user : option (string * string)) (declared : option (num * string))
  | ExpenseSource (amount : num) (currency : string).
Record source := Source {
  o_kind : kind; o_id : string; o_description : string; o_date : Z; o_updatedAt : Z; o_project : option (string * string); o_work : source_work
}.
Record line := Line { l_description : string; l_itemType : string; l_quantity : num; l_unitPrice : num; l_total : num; l_position : nat }.
Record preview := Preview {
  v_client : string * string; v_project : option (string * string); v_title : string; v_currency : string; v_taxRate : num;
  v_taxType : string; v_lines : list (line * source); v_totals : totals; v_time : nat; v_expense : nat
}.

Record invoice := Invoice {
  n_org : string; n_number : string; n_status : string; n_client : string; n_project : option string; n_createdBy : string;
  n_title : string; n_currency : string; n_taxRate : num; n_taxType : string; n_discount : num; n_totals : totals; n_lines : list line;
  n_sources : option (preview * string); n_released : option Z; n_voidedAt : option Z; n_voidedFrom : option string;
  n_recurring : bool; n_payments : list num; n_deleted : bool; n_updatedAt : Z
}.

Record world := World {
  times : gmap string row; expenses : gmap string row;
  clients : gmap string client; projects : gmap string project; users : gmap string user;
  invoices : gmap string invoice; sequences : gmap (string * Z) Z; audits : list (string * string)
}.
Definition table (k : kind) (w : world) : gmap string row := match k with TIME => times w | EXPENSE => expenses w end.
Definition set_table (k : kind) (t : gmap string row) (w : world) : world :=
  match k with
  | TIME => World t (expenses w) (clients w) (projects w) (users w) (invoices w) (sequences w) (audits w)
  | EXPENSE => World (times w) t (clients w) (projects w) (users w) (invoices w) (sequences w) (audits w)
  end.
Definition set_invoice (i : string) (n : invoice) (w : world) : world :=
  World (times w) (expenses w) (clients w) (projects w) (users w) (<[i := n]> (invoices w)) (sequences w) (audits w).
Definition add_audit (action entity : string) (w : world) : world :=
  World (times w) (expenses w) (clients w) (projects w) (users w) (invoices w) (sequences w) (audits w ++ [(action, entity)]).

(** Refusals, with the status the code gives them. *)
Inductive billing_error :=
  | BadSelection | BadFingerprint | TooLarge | NoSources | NotAdministrator | ClientNotFound | ProjectNotFound | InvoiceNotFound
  | Unavailable | Changed | BadDuration | BadRate | BadExpense | PreviewChanged | ClaimChanged | AlreadyReleased | NotReleasable
  | HasPayments | DraftConflict | SourcesFixed | NotVoidable | UndoExpired | AuditFailed | NumbersExhausted | UniqueViolation.
Definition error_status (e : billing_error) : Z :=
  match e with
  | BadSelection | BadFingerprint | TooLarge | NoSources => 400
  | NotAdministrator => 403
  | ClientNotFound | ProjectNotFound | InvoiceNotFound => 404
  | UndoExpired => 410
  | AuditFailed => 503
  | NumbersExhausted | UniqueViolation => 500
  | _ => 409
  end.
Abbreviation res := (result billing_error).
Abbreviation tx := (Eff world billing_error).
(** A read that may refuse. *)
Definition reads {A} (f : world → res A) : tx A := λ w, (f w, w).

(** ** What is asked for *)

(** An observed source: its id and the [updatedAt] the reviewer saw. *)
Record observed := Observed { b_id : string; b_updatedAt : Z }.
(** The selection as the schema parsed it. *)
Record selection := Selection {
  in_client : string; in_project : option string; in_title : string; in_currency : string; in_taxRate : num; in_taxType : string;
  in_times : list (observed * num); in_expenses : list observed
}.
Definition in_range (lo hi : Z) (x : num) : bool := is_finite x && negb (ltb x (of_Z lo)) && negb (ltb (of_Z hi) x).
Definition id_ok (s : string) : bool := (1 <=? String.length s)%nat && (String.length s <=? 50)%nat.
(* src/src/utils/money.js:9-9 INVOICE_CURRENCIES *)
Definition INVOICE_CURRENCIES : list string := ["CAD"; "USD"; "EUR"; "GBP"].
(* src/src/shared/unbilled-invoice.js:10-22 unbilledInvoiceSchema *)
Definition unbilledInvoiceSchema (s : selection) : bool :=
  id_ok (in_client s) && forallb id_ok (option_list (in_project s)) &&
  (1 <=? String.length (in_title s))%nat && (String.length (in_title s) <=? 200)%nat &&
  bool_decide (in_currency s ∈ INVOICE_CURRENCIES) && in_range 0 50 (in_taxRate s) &&
  bool_decide (in_taxType s ∈ ["HST"; "GST"; "PST"; "TAX"; "NONE"]) &&
  forallb (λ t, id_ok (b_id t.1) && in_range 0 1000000 t.2) (in_times s) && forallb (λ e, id_ok (b_id e)) (in_expenses s) &&
  (length (in_times s) <=? 50)%nat && (length (in_expenses s) <=? 50)%nat &&
  negb (bool_decide (in_times s = [] ∧ in_expenses s = [])) &&
  negb (bool_decide (in_taxType s = "NONE") && negb (eqb (in_taxRate s) (of_Z 0))) &&
  bool_decide (NoDup ((b_id ∘ fst) <$> in_times s)) && bool_decide (NoDup (b_id <$> in_expenses s)).
Definition selections (s : selection) (k : kind) : list observed := match k with TIME => fst <$> in_times s | EXPENSE => in_expenses s end.
Definition selected_keys (s : selection) : list (kind * string) := ((λ o, (TIME, b_id o)) <$> selections s TIME) ++ ((λ o, (EXPENSE, b_id o)) <$> selections s EXPENSE).

Record actor := Actor { a_id : string; a_org : option string; a_role : string }.

(** ** Reading *)

(* src/src/services/unbilled-invoice.service.js:13-18 currentInvoiceAdmin *)
Definition currentInvoiceAdmin (w : world) (a : actor) : res string :=
  match a_org a with
  | Some org =>
      if negb (bool_decide (a_role a = "ADMIN")) then Err NotAdministrator
      else match users w !! a_id a with
           | Some u => if bool_decide (u_org u = org) && u_admin u && u_active u then Ok org else Err NotAdministrator
           | None => Err NotAdministrator
           end
  | None => Err NotAdministrator
  end.

(* src/src/services/unbilled-invoice.service.js:19-25 targets *)
Definition targets (w : world) (c : string) (p : option string) (org : string) : res ((string * string) * option (string * string)) :=
  match clients w !! c with
  | Some cl =>
      if bool_decide (c_org cl = org) && negb (c_deleted cl) then
        match p with
        | None => Ok ((c, c_name cl), None)
        | Some p =>
            match projects w !! p with
            | Some pr => if bool_decide (p_client pr = Some c) && bool_decide (p_org pr = org) && negb (p_deleted pr)
                         then Ok ((c, c_name cl), Some (p, p_name pr)) else Err ProjectNotFound
            | None => Err ProjectNotFound
            end
        end
      else Err ClientNotFound
  | None => Err ClientNotFound
  end.

(** The relation filter on a row's project. *)
Definition project_in (w : world) (org c : string) (p : option string) : bool :=
  match p ≫= (projects w !!.) with
  | Some pr => bool_decide (p_org pr = org) && bool_decide (p_client pr = Some c) && negb (p_deleted pr)
  | None => false
  end.
(* src/src/services/unbilled-invoice.service.js:26-35 sourceWhere *)
Definition sourceWhere (w : world) (c : string) (p : option string) (org : string) (k : kind) (r : row) : bool :=
  negb (r_deleted r) && r_billable r && negb (r_invoiced r) && bool_decide (r_invoice r = None) &&
  match p with Some _ => bool_decide (r_project r = p) | None => true end &&
  match k, r_work r with
  | TIME, TimeWork duration _ u approved =>
      (0 <? duration) && approved && project_in w org c (r_project r) &&
      match users w !! u with Some u => bool_decide (u_org u = org) | None => false end
  | EXPENSE, ExpenseWork _ _ org' c' =>
      bool_decide (org' = org) &&
      (bool_decide (c' = Some c) || bool_decide (c' = None) && project_in w org c (r_project r)) &&
      (bool_decide (r_project r = None) || project_in w org c (r_project r))
  | _, _ => false
  end.

Definition named_project (w : world) (p : option string) : option (string * string) := p ← p; pr ← projects w !! p; Some (p, p_name pr).
Definition valid_rate (x : num) : bool := is_finite x && negb (ltb x zero).
(* src/src/services/unbilled-invoice.service.js:40-46 candidate *)
Definition candidate (w : world) (k : kind) (id : string) (declared : option (num * string)) (r : row) : source :=
  Source k id (default "" (r_description r)) (r_date r) (r_updatedAt r) (named_project w (r_project r))
    (match r_work r with
     | TimeWork duration rate u _ =>
         TimeSource duration (x ← rate; if valid_rate x then Some x else None) (us ← users w !! u; Some (u, u_name us)) declared
     | ExpenseWork amount currency _ _ => ExpenseSource amount currency
     end).

(* src/src/services/unbilled-invoice.service.js:47-55 listUnbilledCandidates *)
Definition listUnbilledCandidates (w : world) (k : kind) (c : string) (p : option string) (after : option string) (limit : nat) (a : actor)
  : res (list source * option string) :=
  if negb ((1 <=? limit)%nat && (limit <=? 50)%nat) then Err BadSelection else
  org ← currentInvoiceAdmin w a;
  _ ← targets w c p org;
  let '(rows, next) := page limit after (λ _, sourceWhere w c p org k) (table k w) in
  Ok ((λ kr, candidate w k kr.1 None kr.2) <$> rows, next).

(** One selected source: its row as it is now, unchanged since it was seen. *)
Definition selected_row (w : world) (s : selection) (org : string) (k : kind) (o : observed) : res row :=
  match find_by_id (b_id o) (sourceWhere w (in_client s) (in_project s) org k) (table k w) with
  | None => Err Unavailable
  | Some r => if r_updatedAt r =? b_updatedAt o then Ok r else Err Changed
  end.
Definition check_row (s : selection) (r : row) : res unit :=
  match r_work r with
  | TimeWork duration rate _ _ =>
      if duration <=? 0 then Err BadDuration
      else match rate with Some x => if valid_rate x then Ok tt else Err BadRate | None => Ok tt end
  | ExpenseWork amount currency _ _ => if valid_rate amount && bool_decide (currency = in_currency s) then Ok tt else Err BadExpense
  end.
(* src/src/services/unbilled-invoice.service.js:56-71 selected *)
Definition selected (w : world) (s : selection) (org : string) (k : kind) : res (list (observed * row)) :=
  mapM (λ o, r ← selected_row w s org k o; _ ← check_row s r; Ok (o, r)) (selections s k).

(** ** The preview *)

Definition slice (n : nat) (t : string) : string := String.substring 0 n t.
Definition time_line (w : world) (s : selection) (sel : observed * row) (rate : num) (position : nat) : line * source :=
  let r := sel.2 in
  let hours := match r_work r with TimeWork duration _ _ _ => div (of_Z duration) (of_Z 60) | ExpenseWork _ _ _ _ => NaN end in
  let description := default "" (r_description r) in
  (Line (slice 500 (if bool_decide (description = "") then "Approved time" else description)) "LABOR" hours rate (lineTotal hours rate) position,
   candidate w TIME (b_id sel.1) (Some (rate, in_currency s)) r).
Definition expense_line (w : world) (sel : observed * row) (position : nat) : line * source :=
  let r := sel.2 in
  let amount := match r_work r with ExpenseWork amount _ _ _ => amount | TimeWork _ _ _ _ => NaN end in
  (Line (slice 500 (default "" (r_description r))) "EXPENSE" (of_Z 1) amount (lineTotal (of_Z 1) amount) position,
   candidate w EXPENSE (b_id sel.1) None r).
Definition too_large (x : num) : bool := negb (is_finite x) || ltb (div (of_Z 9007199254740991) hundred) x.

Section service.
(** SHA-256 of the JSON text of a preview, and of a release preview. *)
Record claim := Claim { k_id : string; k_updatedAt : Z; k_invoiced : bool }.
Record release_preview := ReleasePreview {
  rp_invoice : string; rp_number : string; rp_status : string; rp_voidedAt : option Z; rp_updatedAt : Z; rp_currency : string;
  rp_total : num; rp_fingerprint : string; rp_sources : list source; rp_times : list claim; rp_expenses : list claim
}.
Context (fingerprint : preview → string) (release_fingerprint : release_preview → string).

(* src/src/services/unbilled-invoice.service.js:72-91 previewUnbilledInvoice *)
Definition previewUnbilledInvoice (w : world) (s : selection) (a : actor) : res (preview * string) :=
  if negb (unbilledInvoiceSchema s) then Err BadSelection else
  org ← currentInvoiceAdmin w a;
  scope ← targets w (in_client s) (in_project s) org;
  times ← selected w s org TIME;
  expenses ← selected w s org EXPENSE;
  let timeLines := zip_with (λ sel rate, time_line w s sel rate) times (snd <$> in_times s) in
  let expenseLines := (λ sel, expense_line w sel) <$> expenses in
  let lines := imap (λ position f, f position) (timeLines ++ expenseLines) in
  let totals := invoiceTotals ((l_total ∘ fst) <$> lines) (in_taxRate s) zero in
  let p := Preview scope.1 scope.2 (in_title s) (in_currency s) (in_taxRate s) (in_taxType s) lines totals (length times) (length expenses) in
  if existsb too_large (((l_total ∘ fst) <$> lines) ++ [subtotal totals; preTax totals; tax totals; total totals]) then Err TooLarge
  else Ok (p, fingerprint p).

(** ** Invoice numbers *)

Definition padStart4 (t : string) : string := String.concat "" (replicate (4 - String.length t) "0") +:+ t.
(* src/src/utils/invoice.js:15-17 formatInvoiceNumber *)
Definition formatInvoiceNumber (year sequence : Z) : string := "INV-" +:+ pretty year +:+ "-" +:+ padStart4 (pretty sequence).
(* src/src/utils/invoice.js:13-13 MAX_ALLOCATION_ATTEMPTS *)
Definition MAX_ALLOCATION_ATTEMPTS : nat := 50.

Definition next_value (org : string) (year : Z) (w : world) : Z := default 0 (sequences w !! (org, year)) + 1.
(** INSERT ... ON CONFLICT DO UPDATE ... RETURNING. *)
Definition bump (org : string) (year : Z) (w : world) : world :=
  World (times w) (expenses w) (clients w) (projects w) (users w) (invoices w) (<[(org, year) := next_value org year w]> (sequences w)) (audits w).
(** Includes soft-deleted rows. *)
Definition taken (org number : string) (w : world) : bool :=
  existsb (λ kn, bool_decide (n_org kn.2 = org) && bool_decide (n_number kn.2 = number)) (map_to_list (invoices w)).
(* src/src/utils/invoice.js:40-52 allocateInvoiceNumber *)
Fixpoint allocate (attempts : nat) (org : string) (year : Z) : tx string :=
  match attempts with
  | O => throw NumbersExhausted
  | S attempts =>
      value ← gets (next_value org year);
      _ ← modify (bump org year);
      let number := formatInvoiceNumber year value in
      exists_ ← gets (taken org number);
      if (exists_ : bool) then allocate attempts org year else mret number
  end.
(* src/src/utils/invoice.js:31-39 allocateInvoiceNumber *)
Definition allocateInvoiceNumber (client : string) (organizationId : option string) (year : Z) : tx (string * string) :=
  owner ← gets (λ w, clients w !! client);
  match owner with
  | None => throw ClientNotFound
  | Some c =>
      if negb (bool_decide (organizationId = None)) && negb (bool_decide (organizationId = Some (c_org c))) then throw ClientNotFound
      else number ← allocate MAX_ALLOCATION_ATTEMPTS (c_org c) year; mret (number, c_org c)
  end.

(** The insert: a primary key and a number that are not there yet. *)
Definition insert_invoice (id : string) (n : invoice) : tx invoice :=
  exists_ ← gets (λ w, bool_decide (is_Some (invoices w !! id)) || taken (n_org n) (n_number n) w);
  if (exists_ : bool) then throw UniqueViolation else _ ← modify (set_invoice id n); mret n.
Definition numbered (number : string * string) (n : invoice) : invoice :=
  Invoice number.2 number.1 (n_status n) (n_client n) (n_project n) (n_createdBy n) (n_title n) (n_currency n) (n_taxRate n) (n_taxType n)
    (n_discount n) (n_totals n) (n_lines n) (n_sources n) (n_released n) (n_voidedAt n) (n_voidedFrom n) (n_recurring n) (n_payments n) (n_deleted n) (n_updatedAt n).
(* src/src/utils/invoice.js:60-68 createNumberedInvoice *)
Definition createNumberedInvoice (id : string) (n : invoice) (organizationId : option string) (year : Z) : tx invoice :=
  transaction (
    number ← allocateInvoiceNumber (n_client n) organizationId year;
    insert_invoice id (numbered number n)).

(** ** Billing *)

Definition is_hex (c : Ascii.ascii) : bool :=
  let n := Z.of_N (Ascii.N_of_ascii c) in ((48 <=? n) && (n <=? 57)) || ((97 <=? n) && (n <=? 102)).
Definition is_fingerprint (t : string) : bool := (String.length t =? 64)%nat && forallb is_hex (String.list_ascii_of_string t).

(** What an operation is given besides its arguments: the id of the new row,
    the clock, and whether the audit event could be recorded. *)
Record env := Env { e_id : string; e_now : Z; e_year : Z; e_audit : bool }.
Definition is_observed (obs : list observed) (id : string) (r : row) : bool :=
  existsb (λ o, bool_decide (b_id o = id) && (r_updatedAt r =? b_updatedAt o)) obs.
Definition set_claim (invoiced : bool) (inv : option string) (now : Z) (r : row) : row :=
  Row (r_description r) (r_date r) now (r_project r) (r_deleted r) (r_billable r) invoiced inv (r_work r).
(** [updateMany], and the refusal when not all the rows matched. *)
Definition claim_rows (k : kind) (P : world → string → row → bool) (f : row → row) (expected : nat) : tx unit :=
  if (expected =? 0)%nat then mret tt
  else
    count ← gets (λ w, tcount (P w) (table k w));
    _ ← modify (λ w, set_table k (tupdate (P w) (λ _, f) (table k w)) w);
    guard_eff (count =? expected)%nat ClaimChanged.

Definition new_draft (e : env) (number : string * string) (s : selection) (p : preview) (f : string) (a : actor) : invoice :=
  Invoice number.2 number.1 "DRAFT" (in_client s) (in_project s) (a_id a) (in_title s) (in_currency s) (in_taxRate s) (in_taxType s)
    zero (v_totals p) (fst <$> v_lines p) (Some (p, f)) None None None false [] false (e_now e).
(* src/src/services/unbilled-invoice.service.js:95-122 createUnbilledInvoiceInTransaction *)
Definition createUnbilledInvoiceInTransaction (e : env) (s : selection) (f : string) (a : actor) : tx invoice :=
  _ ← guard_eff (is_fingerprint f) BadFingerprint;
  pf ← reads (λ w, previewUnbilledInvoice w s a);
  _ ← guard_eff (bool_decide (pf.2 = f)) PreviewChanged;
  number ← allocateInvoiceNumber (in_client s) (a_org a) (e_year e);
  n ← insert_invoice (e_id e) (new_draft e number s pf.1 f a);
  let claim k := claim_rows k (λ w id r, sourceWhere w (in_client s) (in_project s) (default "" (a_org a)) k r && is_observed (selections s k) id r)
                   (set_claim true (Some (e_id e)) (e_now e)) (length (selections s k)) in
  _ ← claim TIME;
  _ ← claim EXPENSE;
  _ ← guard_eff (e_audit e) AuditFailed;
  _ ← modify (add_audit "invoice.created_from_unbilled" (e_id e));
  mret n.

(** ** Releasing *)

(** The rows an invoice has claimed, as the soft-deletable reads list them. *)
Definition release_scope (w : world) (org : string) (k : kind) (r : row) : bool :=
  match k, r_work r with
  | TIME, TimeWork _ _ _ _ => match r_project r ≫= (projects w !!.) with Some p => bool_decide (p_org p = org) | None => false end
  | EXPENSE, ExpenseWork _ _ org' _ => bool_decide (org' = org)
  | _, _ => false
  end.
Definition claimed_rows (w : world) (i org : string) (k : kind) : list (string * row) :=
  take 100 (isort by_id (tselect (λ _ r, bool_decide (r_invoice r = Some i) && release_scope w org k r && negb (r_deleted r)) (table k w))).
Definition original_ids (p : preview) (k : kind) : list string :=
  unique (o_id <$> List.filter (λ o, bool_decide (o_kind o = k)) (snd <$> v_lines p)).
(* src/src/services/unbilled-invoice.service.js:139-143 previewUnbilledRelease *)
Definition claims_agree (p : preview) (k : kind) (rows : list (string * row)) : bool :=
  (length rows =? length (original_ids p k))%nat &&
  forallb (λ kr, r_invoiced kr.2 && bool_decide (kr.1 ∈ original_ids p k)) rows.
Definition to_claim (kr : string * row) : claim := Claim kr.1 (r_updatedAt kr.2) (r_invoiced kr.2).

(* src/src/services/unbilled-invoice.service.js:124-150 previewUnbilledRelease *)
Definition previewUnbilledRelease (w : world) (i : string) (a : actor) (now : Z) : res (release_preview * string) :=
  org ← currentInvoiceAdmin w a;
  match invoices w !! i with
  | None => Err InvoiceNotFound
  | Some n =>
      if n_deleted n || negb (bool_decide (n_org n = org)) then Err InvoiceNotFound
      else match n_sources n with
           | None => Err NoSources
           | Some (p, f) =>
               if bool_decide (is_Some (n_released n)) then Err AlreadyReleased
               else match n_voidedAt n with
                    | None => Err NotReleasable
                    | Some voidedAt =>
                        if negb (bool_decide (n_status n = "VOID")) || (now - voidedAt <? 10000) then Err NotReleasable
                        else if negb (bool_decide (n_payments n = [])) then Err HasPayments
                        else
                          let times := claimed_rows w i org TIME in
                          let expenses := claimed_rows w i org EXPENSE in
                          if negb (claims_agree p TIME times && claims_agree p EXPENSE expenses) then Err ClaimChanged
                          else
                            let r := ReleasePreview i (n_number n) (n_status n) (n_voidedAt n) (n_updatedAt n) (n_currency n) (total (n_totals n)) f
                                       (snd <$> v_lines p) (to_claim <$> times) (to_claim <$> expenses) in
                            Ok (r, release_fingerprint r)
                    end
           end
  end.

Definition mark_released (now : Z) (n : invoice) : invoice :=
  Invoice (n_org n) (n_number n) (n_status n) (n_client n) (n_project n) (n_createdBy n) (n_title n) (n_currency n) (n_taxRate n) (n_taxType n)
    (n_discount n) (n_totals n) (n_lines n) (n_sources n) (Some now) (n_voidedAt n) (n_voidedFrom n) (n_recurring n) (n_payments n) (n_deleted n) now.
(** A conditional write on one invoice: it throws [refusal] when nothing matched. *)
Definition update_invoice (i : string) (Q : invoice → bool) (g : invoice → invoice) (refusal : billing_error) : tx unit :=
  found ← gets (λ w, find_by_id i Q (invoices w));
  match found with
  | Some n => modify (set_invoice i (g n))
  | None => throw refusal
  end.
Definition is_claim (l : list claim) (id : string) (r : row) : bool :=
  existsb (λ c, bool_decide (k_id c = id) && (r_updatedAt r =? k_updatedAt c)) l.
(* src/src/services/unbilled-invoice.service.js:152-172 releaseUnbilledSourcesInTransaction *)
Definition releaseUnbilledSourcesInTransaction (e : env) (i f : string) (a : actor) : tx unit :=
  _ ← guard_eff (is_fingerprint f) BadFingerprint;
  rf ← reads (λ w, previewUnbilledRelease w i a (e_now e));
  let r := rf.1 in
  let org := default "" (a_org a) in
  _ ← guard_eff (bool_decide (rf.2 = f)) PreviewChanged;
  _ ← update_invoice i (λ n, bool_decide (n_org n = org) && bool_decide (n_status n = "VOID") && (n_updatedAt n =? rp_updatedAt r) &&
                            bool_decide (n_released n = None)) (mark_released (e_now e)) ClaimChanged;
  let clear k rows := claim_rows k (λ w id r, release_scope w org k r && bool_decide (r_invoice r = Some i) && r_invoiced r && is_claim rows id r)
                        (set_claim false None (e_now e)) (length rows) in
  _ ← clear TIME (rp_times r);
  _ ← clear EXPENSE (rp_expenses r);
  _ ← guard_eff (e_audit e) AuditFailed;
  modify (add_audit "invoice.sources_released" i).
End service.

(** ** Drafts, voiding and its undo *)

Definition sumPayments (l : list num) : num := foldl add zero l.
(* src/src/routes/invoice.routes.js:30-30 VOIDABLE_STATUSES *)
Definition VOIDABLE_STATUSES : list string := "DRAFT" :: UNPAID_INVOICE_STATUSES.
(* src/src/routes/invoice.routes.js:28-28 VOID_UNDO_WINDOW_MS *)
Definition VOID_UNDO_WINDOW_MS : Z := 10000.
Definition set_status (status : string) (voidedAt : option Z) (from : option string) (now : Z) (n : invoice) : invoice :=
  Invoice (n_org n) (n_number n) status (n_client n) (n_project n) (n_createdBy n) (n_title n) (n_currency n) (n_taxRate n) (n_taxType n)
    (n_discount n) (n_totals n) (n_lines n) (n_sources n) (n_released n) voidedAt from (n_recurring n) (n_payments n) (n_deleted n) now.

(** [observed] is the invoice the handler read before its transaction. *)
(* src/src/routes/invoice.routes.js:485-513 voidInvoice *)
Definition voidInvoice (i : string) (observed : invoice) (now : Z) : tx unit :=
  transaction (
    _ ← update_invoice i (λ n, bool_decide (n_status n ∈ VOIDABLE_STATUSES)) (set_status "VOID" (Some now) (Some (n_status observed)) now) NotVoidable;
    paid ← gets (λ w, from_option (λ n, sumPayments (n_payments n)) zero (invoices w !! i));
    guard_eff (negb (ltb zero paid)) HasPayments).

(* src/src/routes/invoice.routes.js:536-563 POST /:id/undo-void *)
Definition undoVoid (i : string) (now : Z) : tx unit :=
  transaction (
    found ← gets (λ w, invoices w !! i);
    match found with
    | None => throw InvoiceNotFound
    | Some n =>
        if n_deleted n then throw InvoiceNotFound
        else match n_voidedFrom n, n_voidedAt n with
             | Some from, voidedAt =>
                 if negb (bool_decide (n_status n = "VOID") && bool_decide (from ∈ VOIDABLE_STATUSES)) then throw NotVoidable
                 else match voidedAt with
                      | Some at_ => if VOID_UNDO_WINDOW_MS <? now - at_ then throw UndoExpired
                                    else modify (set_invoice i (set_status from None None now n))
                      | None => throw UndoExpired
                      end
             | None, _ => throw NotVoidable
             end
    end).

(** A draft edit: what the request changes. *)
Record draft_edit := DraftEdit {
  d_title : option string; d_client : option string; d_project : option (option string); d_currency : option string;
  d_taxRate : option num; d_taxType : option string; d_discount : option num; d_recurring : option bool;
  d_lines : option (list line); d_recalculate : bool
}.
Definition differs {A} `{EqDecision A} (new : option A) (old : A) : bool := match new with Some x => negb (bool_decide (x = old)) | None => false end.
(** The header and lines after an edit; totals follow new lines, rate or discount. *)
(* src/src/services/invoice-draft.service.js:28-33 updateDraftInvoice *)
Definition apply_edit (observed : invoice) (d : draft_edit) (updatedAt : Z) (n : invoice) : invoice :=
  let lines := default (n_lines n) (d_lines d) in
  let totals := if bool_decide (is_Some (d_lines d)) || d_recalculate d
                then invoiceTotals (l_total <$> lines) (default (n_taxRate observed) (d_taxRate d)) (default (n_discount observed) (d_discount d))
                else n_totals n in
  Invoice (n_org n) (n_number n) (n_status n) (default (n_client n) (d_client d)) (default (n_project n) (d_project d)) (n_createdBy n)
    (default (n_title n) (d_title d)) (default (n_currency n) (d_currency d)) (default (n_taxRate n) (d_taxRate d))
    (default (n_taxType n) (d_taxType d)) (default (n_discount n) (d_discount d)) totals lines (n_sources n) (n_released n) (n_voidedAt n)
    (n_voidedFrom n) (default (n_recurring n) (d_recurring d)) (n_payments n) (n_deleted n) updatedAt.
(* src/src/services/invoice-draft.service.js:10-48 updateDraftInvoice *)
Definition updateDraftInvoice (i : string) (observed : invoice) (d : draft_edit) (organizationId : option string) (now : Z) : tx unit :=
  if negb (bool_decide (organizationId = Some (n_org observed))) then throw InvoiceNotFound
  else
    let updatedAt := Z.max now (n_updatedAt observed + 1) in
    let billed := bool_decide (is_Some (n_sources observed)) in
    if billed && (differs (d_client d) (n_client observed) || differs (d_project d) (n_project observed) || differs (d_currency d) (n_currency observed))
    then throw SourcesFixed
    else if billed && bool_decide (d_recurring d = Some true) then throw SourcesFixed
    else transaction (
      update_invoice i (λ n, bool_decide (n_org n = n_org observed) && negb (n_deleted n) && bool_decide (n_status n = "DRAFT") &&
                             (n_updatedAt n =? n_updatedAt observed)) (apply_edit observed d updatedAt) DraftConflict).

(** The claim every way of sending a draft starts with. *)
(* src/src/routes/invoice.routes.js:587-591 sendDraftInvoice *)
Definition claimDraftForSending (i : string) (now : Z) : tx unit :=
  update_invoice i (λ n, bool_decide (n_status n = "DRAFT")) (λ n, set_status "SENT" (n_voidedAt n) (n_voidedFrom n) now n) NotVoidable.
End Billing.
