(* ===== verification/BilledOnce.v ===== *)
(** * Work is billed once

    Histories of the operations of Billing.v, each at a later instant than the
    one before, with the changes other code makes in between; and what a
    creation, a release and a number allocation do. *)

From stdpp Require Import pretty.
From S2P Require Import Prelude Store Pages JsNumber Money Billing.
Import Js Money Billing.Billing.

Module BilledOnce.

Section theory.
Context (fingerprint : preview → string) (release_fingerprint : release_preview → string).

(** ** The parts of an operation *)

(** Everything but rows, or but sequences, is as before. *)
Definition same_directory (w w' : world) : Prop := clients w' = clients w ∧ projects w' = projects w ∧ users w' = users w.

Lemma same_directory_trans w1 w2 w3 : same_directory w1 w2 → same_directory w2 w3 → same_directory w1 w3.
Proof. unfold same_directory. intros (? & ? & ?) (? & ? & ?). split_and!; congruence. Qed.
Lemma sourceWhere_same w w' c p org k r : same_directory w w' → sourceWhere w' c p org k r = sourceWhere w c p org k r.
Proof. intros (_ & Hp & Hu). unfold sourceWhere, project_in. by rewrite Hp, Hu. Qed.
Lemma table_set k k' t w : table k' (set_table k t w) = if decide (k' = k) then t else table k' w.
Proof. by destruct k, k'. Qed.
Lemma set_table_directory k t w : same_directory w (set_table k t w).
Proof. by destruct k. Qed.
Lemma set_table_invoices k t w : invoices (set_table k t w) = invoices w ∧ sequences (set_table k t w) = sequences w.
Proof. by destruct k. Qed.
Lemma table_set_invoice k i n w : table k (set_invoice i n w) = table k w.
Proof. by destruct k. Qed.

Lemma claim_rows_ok k P f m w u w' :
  claim_rows k P f m w = (Ok u, w') → (m = 0%nat → ∀ id r, P w id r = false) →
  same_directory w w' ∧ invoices w' = invoices w ∧ sequences w' = sequences w ∧ audits w' = audits w ∧
  ∀ k' id, table k' w' !! id = if decide (k' = k) then (λ r, if P w id r then f r else r) <$> table k w !! id else table k' w !! id.
Proof.
  unfold claim_rows. intros H Hzero. destruct (m =? 0)%nat eqn:Em.
  - injection H as _ <-. split_and!; try done. intros k' id. case_decide as E; [subst k'|done].
    destruct (table k w !! id) as [r|]; [|done]. cbn. by rewrite Hzero by (by apply Nat.eqb_eq).
  - cbv [mbind eff_bind gets modify guard_eff refuse_unless] in H. destruct (tcount _ _ =? m)%nat; [|done]. injection H as _ <-.
    split; [apply set_table_directory|]. split_and!; [apply set_table_invoices..|by destruct k|]. intros k' id. rewrite table_set. case_decide; [|done]. exact (tget_update (P w) (λ _, f) (table k w) id).
Qed.

Lemma update_invoice_ok i Q g refusal w u w' :
  update_invoice i Q g refusal w = (Ok u, w') → ∃ n, invoices w !! i = Some n ∧ Q n = true ∧ w' = set_invoice i (g n) w.
Proof.
  unfold update_invoice. cbv [mbind eff_bind gets modify throw]. destruct (find_by_id i Q (invoices w)) as [n|] eqn:E; [|done]. intros [= _ <-].
  apply find_by_id_Some in E as [Hn HQ]. by exists n.
Qed.

Lemma taken_false org number w i n : taken org number w = false → invoices w !! i = Some n → ¬ (n_org n = org ∧ n_number n = number).
Proof.
  unfold taken. intros H Hn [<- <-]. apply not_true_iff_false in H. apply H. apply existsb_exists.
  exists (i, n). split; [by apply list_elem_of_In, elem_of_map_to_list|]. cbn. by rewrite !bool_decide_refl.
Qed.

(** Only the counters change. *)
Definition only_sequences (w w' : world) : Prop :=
  same_directory w w' ∧ invoices w' = invoices w ∧ audits w' = audits w ∧ ∀ k, table k w' = table k w.
Lemma allocate_ok attempts org year w number w' :
  allocate attempts org year w = (Ok number, w') → only_sequences w w' ∧ taken org number w = false.
Proof.
  revert w. induction attempts as [|attempts IH]; intros w H; [done|].
  cbn [allocate] in H. cbv [mbind eff_bind gets modify mret eff_ret] in H.
  change (taken org (formatInvoiceNumber year (next_value org year w)) (bump org year w))
    with (taken org (formatInvoiceNumber year (next_value org year w)) w) in H.
  destruct (taken _ _ w) eqn:E; [|injection H as <- <-; split; [by split_and!; [..|intros []]|done]].
  destruct (IH _ H) as [(Hd & Hi & Ha & Ht) Hn]. split; [|exact Hn]. split_and!; [apply Hd..|done|done|].
  intros k. rewrite Ht. by destruct k.
Qed.
Lemma allocateInvoiceNumber_ok c organizationId year w number w' :
  allocateInvoiceNumber c organizationId year w = (Ok number, w') →
  only_sequences w w' ∧ taken number.2 number.1 w = false ∧ (∀ org, organizationId = Some org → number.2 = org).
Proof.
  unfold allocateInvoiceNumber. cbv [mbind eff_bind gets modify throw]. destruct (clients w !! c) as [cl|]; [|done]. destruct (_ && _) eqn:E; [done|].
  destruct (allocate _ _ _ _) as [[n|] w1] eqn:Hn; [|done]. intros [= <- <-]. destruct (allocate_ok _ _ _ _ _ _ Hn) as [Hs Ht].
  split_and!; [apply Hs..|exact Ht|]. intros org ->. cbn in *. apply negb_false_iff, bool_decide_eq_true in E. by injection E.
Qed.
Lemma insert_invoice_ok id n w n' w' :
  insert_invoice id n w = (Ok n', w') →
  n' = n ∧ invoices w !! id = None ∧ taken (n_org n) (n_number n) w = false ∧ w' = set_invoice id n w.
Proof.
  unfold insert_invoice. cbv [mbind eff_bind gets modify throw mret eff_ret]. destruct (_ || _) eqn:E; [done|]. intros [= <- <-]. apply orb_false_iff in E as [E1 E2].
  split_and!; [done| |done..]. apply bool_decide_eq_false in E1. by apply eq_None_not_Some.
Qed.

(** ** What a preview promises *)

Definition key (o : source) : kind * string := (o_kind o, o_id o).
Definition preview_keys (p : preview) : list (kind * string) := (key ∘ snd) <$> v_lines p.
(** A row as the reviewer saw it, still unbilled. *)
Definition billable_now (w : world) (s : selection) (org : string) (k : kind) (o : observed) : Prop :=
  ∃ r, table k w !! b_id o = Some r ∧ sourceWhere w (in_client s) (in_project s) org k r = true ∧ r_updatedAt r = b_updatedAt o.

Lemma selected_ok w s org k l :
  selected w s org k = Ok l → fst <$> l = selections s k ∧ ∀ o, o ∈ selections s k → billable_now w s org k o.
Proof.
  unfold selected. generalize (selections s k). intros os. revert l. induction os as [|o os IH]; intros l H.
  { injection H as <-. split; [done|]. by intros o ?%not_elem_of_nil. }
  cbn [mapM] in H. apply bind_ok in H as (x & Hx & H). apply bind_ok in H as (l' & Hl & [= <-]).
  apply bind_ok in Hx as (r & Hr & Hx). apply bind_ok in Hx as (u & _ & [= <-]).
  destruct (IH l' Hl) as [Hf Hall]. split; [cbn; by rewrite Hf|]. intros o' [->|Ho']%elem_of_cons; [|by apply Hall].
  unfold selected_row in Hr. destruct (find_by_id _ _ _) as [r'|] eqn:E; [|done]. destruct (r_updatedAt r' =? b_updatedAt o) eqn:Eu; [|done].
  apply find_by_id_Some in E as [Hget Hw]. exists r'. apply Z.eqb_eq in Eu. done.
Qed.

Lemma numbered_keys (g : nat → nat) (fs : list (nat → line * source)) ks :
  Forall2 (λ f k, ∀ position, key (f position).2 = k) fs ks →
  (key ∘ snd) <$> imap (λ position f, f (g position)) fs = ks.
Proof.
  intros H. revert g. induction H as [|f k fs ks Hf _ IH]; intros g; [done|]. rewrite imap_cons, fmap_cons. f_equal; [apply Hf|].
  exact (IH (g ∘ S)).
Qed.
Lemma preview_lines_keys w s ts es rates :
  length ts = length rates →
  (key ∘ snd) <$> imap (λ position (f : nat → line * source), f position)
    (zip_with (λ sel rate, time_line w s sel rate) ts rates ++ ((λ sel, expense_line w sel) <$> es)) =
  ((λ sel : observed * row, (TIME, b_id sel.1)) <$> ts) ++ ((λ sel : observed * row, (EXPENSE, b_id sel.1)) <$> es).
Proof.
  intros Hlen. apply (numbered_keys id). apply Forall2_app.
  - revert rates Hlen. induction ts as [|t ts IH]; intros [|rate rates] Hlen; try discriminate Hlen; cbn; constructor; [done|].
    apply IH. cbn in Hlen. lia.
  - induction es as [|e es IH]; cbn; by constructor.
Qed.

Lemma preview_ok w s a p f :
  previewUnbilledInvoice fingerprint w s a = Ok (p, f) →
  ∃ org, a_org a = Some org ∧ unbilledInvoiceSchema s = true ∧ f = fingerprint p ∧ preview_keys p = selected_keys s ∧
    v_title p = in_title s ∧ v_totals p = invoiceTotals ((l_total ∘ fst) <$> v_lines p) (in_taxRate s) zero ∧
    ∀ k o, o ∈ selections s k → billable_now w s org k o.
Proof.
  unfold previewUnbilledInvoice. destruct (unbilledInvoiceSchema s) eqn:Es; cbn [negb]; [|done]. intros H.
  apply bind_ok in H as (org & Horg & H). apply bind_ok in H as (scope & _ & H). apply bind_ok in H as (ts & Ht & H).
  apply bind_ok in H as (es & He & H). destruct (existsb _ _); [done|]. injection H as <- <-.
  destruct (selected_ok w s org TIME ts Ht) as [Htf Hts], (selected_ok w s org EXPENSE es He) as [Hef Hes].
  exists org. split_and!; [|done|done| |done|done|by intros []].
  - unfold currentInvoiceAdmin in Horg. destruct (a_org a) as [o|]; [|done]. destruct (negb _); [done|].
    destruct (users w !! a_id a); [|done]. destruct (_ && _); [|done]. by injection Horg as ->.
  - unfold preview_keys. cbn [v_lines]. rewrite preview_lines_keys.
    + unfold selected_keys. rewrite <-Htf, <-Hef, <-!list_fmap_compose. done.
    + apply (f_equal length) in Htf. rewrite length_fmap in Htf. rewrite Htf. cbn. by rewrite !length_fmap.
Qed.

Lemma keys_nodup (k : kind) l : NoDup (b_id <$> l) → NoDup ((λ o, (k, b_id o)) <$> l).
Proof.
  intros H. change ((λ o, (k, b_id o)) <$> l) with ((pair k ∘ b_id) <$> l). rewrite list_fmap_compose.
  by apply NoDup_fmap_2; [intros x y [= ->]|].
Qed.
Lemma selected_keys_nodup s : unbilledInvoiceSchema s = true → NoDup (selected_keys s).
Proof.
  unfold unbilledInvoiceSchema. intros H. bool_simplify. unfold selected_keys. apply NoDup_app. split_and!.
  - apply keys_nodup. cbn [selections]. by rewrite <-list_fmap_compose.
  - intros x (o & -> & _)%list_elem_of_fmap (o' & [=] & _)%list_elem_of_fmap.
  - by apply keys_nodup.
Qed.
Lemma elem_of_selected_keys s k id : (k, id) ∈ selected_keys s ↔ ∃ o, o ∈ selections s k ∧ b_id o = id.
Proof.
  unfold selected_keys. rewrite elem_of_app, !list_elem_of_fmap. destruct k; naive_solver.
Qed.

(** ** A creation *)

Definition takes (w : world) (s : selection) (org : string) (k : kind) (id : string) (r : row) : bool :=
  sourceWhere w (in_client s) (in_project s) org k r && is_observed (selections s k) id r.
Record created (e : env) (s : selection) (f : string) (a : actor) (org : string) (p : preview) (w w' : world) (n : invoice) : Prop := {
  cr_org : a_org a = Some org;
  cr_preview : previewUnbilledInvoice fingerprint w s a = Ok (p, f);
  cr_invoice : ∃ number, n = new_draft e (number, org) s p f a ∧ taken org number w = false;
  cr_new : invoices w !! e_id e = None;
  cr_invoices : invoices w' = <[e_id e := n]> (invoices w);
  cr_directory : same_directory w w';
  cr_rows k id : table k w' !! id =
    (λ r, if takes w s org k id r then set_claim true (Some (e_id e)) (e_now e) r else r) <$> table k w !! id
}.

Lemma guard_ok (b : bool) (e : billing_error) (w : world) u w' : guard_eff b e w = (Ok u, w') → b = true ∧ w' = w.
Proof. unfold guard_eff, refuse_unless. destruct b; [|done]. by intros [= _ <-]. Qed.
Lemma is_observed_nil l id r : length l = 0%nat → is_observed l id r = false.
Proof. by destruct l. Qed.

Lemma bill_ok e s f a w n w' :
  createUnbilledInvoiceInTransaction fingerprint e s f a w = (Ok n, w') → ∃ org p, created e s f a org p w w' n.
Proof.
  unfold createUnbilledInvoiceInTransaction. intros H.
  apply eff_bind_ok in H as (u0 & w0 & [_ ->]%guard_ok & H).
  apply eff_bind_ok in H as ([p f'] & w0 & Hp & H). injection Hp as Hp <-.
  apply eff_bind_ok in H as (u1 & w0 & [Hf ->]%guard_ok & H). apply bool_decide_eq_true in Hf. cbn in Hf. subst f'.
  destruct (preview_ok _ _ _ _ _ Hp) as (org & Horg & Hs & _ & Hkeys & _ & Hnow). rewrite Horg in H. cbn [default] in H.
  apply eff_bind_ok in H as ([number org'] & w1 & Hn & H).
  apply allocateInvoiceNumber_ok in Hn as ((Hd1 & Hi1 & _ & Ht1) & Htaken & Horg'). specialize (Horg' org eq_refl). cbn in Horg'. subst org'.
  apply eff_bind_ok in H as (n' & w2 & Hins & H). apply insert_invoice_ok in Hins as (-> & Hnew & _ & ->).
  apply eff_bind_ok in H as (u2 & w3 & Hc1 & H). apply claim_rows_ok in Hc1 as (Hd3 & Hi3 & _ & _ & Ht3);
    [|intros Hlen id r; rewrite (is_observed_nil _ _ _ Hlen); apply andb_false_r].
  apply eff_bind_ok in H as (u3 & w4 & Hc2 & H). apply claim_rows_ok in Hc2 as (Hd4 & Hi4 & _ & _ & Ht4);
    [|intros Hlen id r; rewrite (is_observed_nil _ _ _ Hlen); apply andb_false_r].
  apply eff_bind_ok in H as (u4 & w5 & [_ ->]%guard_ok & H). apply eff_bind_ok in H as (u5 & w5 & H5 & H).
  injection H5 as _ <-. injection H as <- <-.
  assert (same_directory w (set_invoice (e_id e) (new_draft e (number, org) s p f a) w1)) as Hd2 by exact Hd1.
  pose proof (same_directory_trans _ _ _ Hd2 Hd3) as Hd3'.
  exists org, p. split; [done|done|exists number| | | |].
  - split; [done|exact Htaken].
  - by rewrite <-Hi1.
  - cbn. by rewrite Hi4, Hi3, <-Hi1.
  - exact (same_directory_trans _ _ _ Hd3' Hd4).
  - intros k id. change (table k (add_audit "invoice.created_from_unbilled" (e_id e) w4)) with (table k w4).
    rewrite Ht4, !Ht3, !table_set_invoice, !Ht1. unfold takes.
    destruct (table k w !! id) as [r|] eqn:Er; [|destruct k; cbn in *; by rewrite Er].
    assert (∀ g h : row → row, g r = h r → g <$> Some r = h <$> Some r) as Hext by (intros g h Hgh; cbn; by rewrite Hgh).
    pose proof (λ k, sourceWhere_same _ _ (in_client s) (in_project s) org k r Hd2) as Hs2.
    pose proof (λ k, sourceWhere_same _ _ (in_client s) (in_project s) org k r Hd3') as Hs3.
    destruct k; repeat (rewrite decide_True by done || rewrite decide_False by done); rewrite Er; apply Hext; cbv beta;
      [by rewrite Hs2|by rewrite Hs3].
Qed.

(** What a creation claims: the selected rows, and no other. *)
Lemma takes_selected w s org k id r :
  (∀ o, o ∈ selections s k → billable_now w s org k o) → table k w !! id = Some r →
  takes w s org k id r = bool_decide ((k, id) ∈ selected_keys s).
Proof.
  intros Hnow Hr. apply eq_iff_eq_true. rewrite bool_decide_eq_true, elem_of_selected_keys. unfold takes, is_observed.
  rewrite andb_true_iff, existsb_exists. split.
  - intros [_ (o & Ho & Hb)]. exists o. bool_simplify. split; [by apply list_elem_of_In|done].
  - intros (o & Ho & <-). destruct (Hnow o Ho) as (r' & Hr' & Hw & Hu). simplify_eq. split; [done|]. exists o.
    split; [by apply list_elem_of_In|]. by rewrite bool_decide_refl, Hu, Z.eqb_refl.
Qed.

(** ** A release *)

Definition clears (w : world) (i org : string) (k : kind) (id : string) (r : row) : bool :=
  release_scope w org k r && bool_decide (r_invoice r = Some i) && r_invoiced r && is_claim (to_claim <$> claimed_rows w i org k) id r.
Record released_as (e : env) (i : string) (a : actor) (org : string) (p : preview) (w w' : world) (n : invoice) : Prop := {
  rl_org : a_org a = Some org;
  rl_invoice : invoices w !! i = Some n;
  rl_state : n_released n = None ∧ n_status n = "VOID" ∧ n_payments n = [] ∧ n_org n = org;
  rl_voided : ∃ voidedAt f0, n_voidedAt n = Some voidedAt ∧ voidedAt + 10000 ≤ e_now e ∧ n_sources n = Some (p, f0);
  rl_agree k : claims_agree p k (claimed_rows w i org k) = true;
  rl_invoices : invoices w' = <[i := mark_released (e_now e) n]> (invoices w);
  rl_directory : same_directory w w';
  rl_rows k id : table k w' !! id = (λ r, if clears w i org k id r then set_claim false None (e_now e) r else r) <$> table k w !! id
}.

Lemma currentInvoiceAdmin_ok w a org : currentInvoiceAdmin w a = Ok org → a_org a = Some org.
Proof.
  unfold currentInvoiceAdmin. destruct (a_org a) as [o|]; [|done]. destruct (negb _); [done|].
  destruct (users w !! a_id a); [|done]. destruct (_ && _); [|done]. by intros [= ->].
Qed.

Lemma previewRelease_ok w i a now r f :
  previewUnbilledRelease release_fingerprint w i a now = Ok (r, f) →
  ∃ org n p voidedAt f0, a_org a = Some org ∧ invoices w !! i = Some n ∧ n_org n = org ∧ n_released n = None ∧ n_status n = "VOID" ∧
    n_payments n = [] ∧ n_voidedAt n = Some voidedAt ∧ voidedAt + 10000 ≤ now ∧ n_sources n = Some (p, f0) ∧
    (∀ k, claims_agree p k (claimed_rows w i org k) = true) ∧
    rp_times r = to_claim <$> claimed_rows w i org TIME ∧ rp_expenses r = to_claim <$> claimed_rows w i org EXPENSE ∧
    f = release_fingerprint r.
Proof.
  unfold previewUnbilledRelease. intros H. apply bind_ok in H as (org & Horg%currentInvoiceAdmin_ok & H).
  destruct (invoices w !! i) as [n|] eqn:En; [|done].
  destruct (n_deleted n || negb (bool_decide (n_org n = org))) eqn:E1; [done|].
  destruct (n_sources n) as [[p f0]|] eqn:Es; [|done]. destruct (bool_decide (is_Some _)) eqn:E2; [done|].
  destruct (n_voidedAt n) as [v|] eqn:Ev; [|done]. destruct (negb (bool_decide (n_status n = "VOID")) || (now - v <? 10000)) eqn:E3; [done|].
  destruct (bool_decide (n_payments n = [])) eqn:E4; cbn [negb] in H; [|done].
  cbn zeta in H. destruct (negb (_ && _)) eqn:E5; [done|]. injection H as <- <-.
  apply bool_decide_eq_true in E4. apply negb_false_iff, andb_true_iff in E5 as [E5 E6].
  apply bool_decide_eq_false in E2. apply orb_false_iff in E1 as [_ E1%negb_false_iff%bool_decide_eq_true].
  apply orb_false_iff in E3 as [E3%negb_false_iff%bool_decide_eq_true E7%Z.ltb_ge].
  exists org, n, p, v, f0. split_and!; try done; [by apply eq_None_not_Some|lia|by intros []].
Qed.

Lemma is_claim_nil rows id r : length (to_claim <$> rows) = 0%nat → is_claim (to_claim <$> rows) id r = false.
Proof. by destruct rows. Qed.
Lemma release_scope_same w w' org k r : same_directory w w' → release_scope w' org k r = release_scope w org k r.
Proof. intros (_ & Hp & _). unfold release_scope. by rewrite Hp. Qed.

Lemma release_ok e i f a w u w' :
  releaseUnbilledSourcesInTransaction release_fingerprint e i f a w = (Ok u, w') → ∃ org p n, released_as e i a org p w w' n.
Proof.
  unfold releaseUnbilledSourcesInTransaction. intros H.
  apply eff_bind_ok in H as (u0 & w0 & [_ ->]%guard_ok & H).
  apply eff_bind_ok in H as ([r f'] & w0 & Hp & H). injection Hp as Hp <-.
  destruct (previewRelease_ok _ _ _ _ _ _ Hp) as (org & n & p & v & f0 & Horg & Hn & Hno & Hrel & Hst & Hpay & Hv & Hle & Hsrc & Hag & Ht & He & _).
  apply eff_bind_ok in H as (u1 & w0 & [_ ->]%guard_ok & H). cbn [fst] in H. rewrite Horg in H. cbn [default] in H.
  apply eff_bind_ok in H as (u2 & w1 & Hu & H). apply update_invoice_ok in Hu as (n' & Hn' & _ & ->). rewrite Hn in Hn'. injection Hn' as <-. subst org.
  rewrite Ht, He in H.
  apply eff_bind_ok in H as (u3 & w3 & Hc1 & H). apply claim_rows_ok in Hc1 as (Hd3 & Hi3 & _ & _ & Ht3);
    [|intros Hlen id r'; rewrite (is_claim_nil _ _ _ Hlen); apply andb_false_r].
  apply eff_bind_ok in H as (u4 & w4 & Hc2 & H). apply claim_rows_ok in Hc2 as (Hd4 & Hi4 & _ & _ & Ht4);
    [|intros Hlen id r'; rewrite (is_claim_nil _ _ _ Hlen); apply andb_false_r].
  apply eff_bind_ok in H as (u5 & w5 & [_ ->]%guard_ok & H). injection H as _ <-.
  exists (n_org n), p, n. split; [done|done|done|by exists v, f0|done| | |].
  - cbn. by rewrite Hi4, Hi3.
  - exact (same_directory_trans _ _ _ Hd3 Hd4).
  - intros k id. change (table k (add_audit "invoice.sources_released" i w4)) with (table k w4).
    rewrite Ht4, !Ht3, !table_set_invoice. unfold clears.
    destruct (table k w !! id) as [r'|] eqn:Er; [|destruct k; cbn in *; by rewrite Er].
    assert (∀ g h : row → row, g r' = h r' → g <$> Some r' = h <$> Some r') as Hext by (intros g h Hgh; cbn; by rewrite Hgh).
    pose proof (λ k, release_scope_same (set_invoice i (mark_released (e_now e) n) w) _ (n_org n) k r' Hd3) as Hs3.
    destruct k; repeat (rewrite decide_True by done || rewrite decide_False by done); rewrite Er; apply Hext; cbv beta;
      [done|by rewrite Hs3].
Qed.

(** The rows an invoice claims, by the pigeonhole principle all its sources. *)
Lemma claimed_rows_spec w i org k id r :
  (id, r) ∈ claimed_rows w i org k → table k w !! id = Some r ∧ r_invoice r = Some i ∧ release_scope w org k r = true.
Proof.
  intros H. unfold claimed_rows in H. apply elem_of_take in H as (j & Hj%list_elem_of_lookup_2 & _).
  apply elem_of_isort, tselect_spec in Hj as [Hget Hb]. bool_simplify. done.
Qed.
Lemma claimed_rows_nodup w i org k : NoDup (claimed_rows w i org k).*1.
Proof.
  unfold claimed_rows. eapply sublist_NoDup; [|apply fmap_sublist, sublist_take].
  rewrite isort_perm. apply tselect_nodup.
Qed.
Lemma original_ids_spec p k id : id ∈ original_ids p k ↔ (k, id) ∈ preview_keys p.
Proof.
  unfold original_ids, preview_keys. rewrite elem_of_unique, !list_elem_of_fmap. split.
  - intros (o & -> & Hin). apply list_elem_of_In, filter_In in Hin as [Hin%list_elem_of_In Hk]. apply list_elem_of_fmap in Hin as (l & -> & Hl).
    apply bool_decide_eq_true in Hk as <-. by exists l.
  - intros (l & [= -> ->] & Hl). exists l.2. split; [done|]. apply list_elem_of_In, filter_In. split; [|apply bool_decide_refl].
    apply list_elem_of_In, list_elem_of_fmap. by exists l.
Qed.
Lemma claims_cover w i org p k id :
  claims_agree p k (claimed_rows w i org k) = true → (k, id) ∈ preview_keys p →
  ∃ r, (id, r) ∈ claimed_rows w i org k ∧ r_invoiced r = true.
Proof.
  unfold claims_agree. intros [Hlen%Nat.eqb_eq Hall]%andb_true_iff Hin%original_ids_spec. rewrite forallb_forall in Hall.
  assert ((claimed_rows w i org k).*1 ≡ₚ original_ids p k) as Hperm.
  { apply submseteq_length_Permutation; [|by rewrite length_fmap, Hlen]. apply NoDup_submseteq; [apply claimed_rows_nodup|].
    intros id' ([id1 r] & -> & Hr)%list_elem_of_fmap. apply list_elem_of_In, Hall, andb_true_iff in Hr as [_ Hr].
    by apply bool_decide_eq_true in Hr. }
  rewrite <-Hperm in Hin. apply list_elem_of_fmap in Hin as ([id1 r] & -> & Hr). exists r. split; [done|].
  by apply list_elem_of_In, Hall, andb_true_iff in Hr as [Hr _].
Qed.

(** ** Histories *)

Definition sources_of (n : invoice) : list (kind * string) := from_option (λ pf, preview_keys pf.1) [] (n_sources n).
(** What other code keeps of an invoice: its number, its sources and whether it
    is void; payments, titles, deletion and the rest may change. *)
Definition keeps_billing (n n' : invoice) : Prop :=
  n_org n' = n_org n ∧ n_number n' = n_number n ∧ n_sources n' = n_sources n ∧ n_released n' = n_released n ∧
  n_voidedAt n' = n_voidedAt n ∧ (n_status n' = "VOID" ↔ n_status n = "VOID").
(** What other code keeps of a row of work: whether and by what it is billed. *)
Definition keeps_claim (old : option row) (r : row) : Prop :=
  match old with
  | Some r0 => r_invoiced r = r_invoiced r0 ∧ r_invoice r = r_invoice r0
  | None => r_invoiced r = false ∧ r_invoice r = None
  end.
Definition set_directory (cs : gmap string client) (ps : gmap string project) (us : gmap string user) (w : world) : world :=
  World (times w) (expenses w) cs ps us (invoices w) (sequences w) (audits w).

Inductive step (now : Z) (w : world) : world → Prop :=
  | step_bill e s f a :
      e_now e = now → step now w (transaction (createUnbilledInvoiceInTransaction fingerprint e s f a) w).2
  | step_release e i f a :
      e_now e = now → step now w (transaction (releaseUnbilledSourcesInTransaction release_fingerprint e i f a) w).2
  | step_create id n org year :
      n_sources n = None → n_released n = None → n_status n ≠ "VOID" → step now w (createNumberedInvoice id n org year w).2
  | step_void i observed : step now w (voidInvoice i observed now w).2
  | step_undo i : step now w (undoVoid i now w).2
  | step_edit i observed d org : step now w (updateDraftInvoice i observed d org now w).2
  | step_send i : step now w (claimDraftForSending i now w).2
  | step_invoice i n n' : invoices w !! i = Some n → keeps_billing n n' → step now w (set_invoice i n' w)
  | step_work k id r : keeps_claim (table k w !! id) r → step now w (set_table k (<[id := r]> (table k w)) w)
  | step_directory cs ps us : step now w (set_directory cs ps us w).

(** Nothing billed yet. *)
Definition nothing_billed (w : world) : Prop :=
  invoices w = ∅ ∧ ∀ k id r, table k w !! id = Some r → r_invoiced r = false ∧ r_invoice r = None.
Inductive history : Z → world → Prop :=
  | history_start now w : nothing_billed w → history now w
  | history_step now now' w w' : history now w → now < now' → step now' w w' → history now' w'.

Definition same_rows (w w' : world) : Prop := ∀ k, table k w' = table k w.
Record inv (now : Z) (w : world) : Prop := {
  inv_row k id r : table k w !! id = Some r → r_invoiced r = bool_decide (is_Some (r_invoice r));
  inv_claim k id r i : table k w !! id = Some r → r_invoice r = Some i →
    ∃ n, invoices w !! i = Some n ∧ n_released n = None ∧ (k, id) ∈ sources_of n;
  inv_source i n k id : invoices w !! i = Some n → n_released n = None → (k, id) ∈ sources_of n →
    ∃ r, table k w !! id = Some r ∧ r_invoice r = Some i;
  inv_nodup i n : invoices w !! i = Some n → NoDup (sources_of n);
  inv_number i j n m : invoices w !! i = Some n → invoices w !! j = Some m → n_org n = n_org m → n_number n = n_number m → i = j;
  inv_released i n t : invoices w !! i = Some n → n_released n = Some t →
    n_status n = "VOID" ∧ ∃ v, n_voidedAt n = Some v ∧ v + 10000 ≤ t ∧ t ≤ now
}.

Lemma inv_later now now' w : now ≤ now' → inv now w → inv now' w.
Proof.
  intros Hle [Hr Hc Hs Hd Hn Hre]. split; [done..|]. intros i n t Hi Ht. destruct (Hre i n t Hi Ht) as (? & v & ? & ? & ?).
  split; [done|]. exists v. split_and!; [done|done|lia].
Qed.
(** A write on one invoice that keeps what it bills. *)
Lemma inv_set_invoice now i n n' w w' :
  inv now w → invoices w !! i = Some n → invoices w' = <[i := n']> (invoices w) → same_rows w w' →
  n_org n' = n_org n → n_number n' = n_number n → n_sources n' = n_sources n → n_released n' = n_released n →
  (∀ t, n_released n = Some t → n_status n' = "VOID" ∧ n_voidedAt n' = n_voidedAt n) → inv now w'.
Proof.
  intros [Hr Hc Hs Hd Hn Hre] Hi Hw Hrows Ho Hnum Hsrc Hrel Hvoid.
  assert (sources_of n' = sources_of n) as Hso by (unfold sources_of; by rewrite Hsrc).
  assert (∀ j m, invoices w' !! j = Some m → ∃ m0, invoices w !! j = Some m0 ∧ n_org m = n_org m0 ∧ n_number m = n_number m0 ∧
    sources_of m = sources_of m0 ∧ n_released m = n_released m0) as Hback.
  { intros j m. rewrite Hw, lookup_insert_Some. intros [[<- <-]|[_ Hj]]; [by exists n|by exists m]. }
  split.
  - intros k id r. rewrite Hrows. apply Hr.
  - intros k id r j. rewrite Hrows. intros Hget Hj. destruct (Hc k id r j Hget Hj) as (m & Hm & Hm' & Hin).
    destruct (decide (j = i)) as [->|Hne]; [|exists m; rewrite Hw, lookup_insert_ne by done; done].
    rewrite Hi in Hm. injection Hm as <-. exists n'. rewrite Hw, lookup_insert_eq, Hrel, Hso. done.
  - intros j m k id Hm Hmr Hin. destruct (Hback j m Hm) as (m0 & Hm0 & _ & _ & Hs0 & Hr0). rewrite Hrows.
    apply (Hs j m0); congruence.
  - intros j m Hm. destruct (Hback j m Hm) as (m0 & Hm0 & _ & _ & -> & _). by apply (Hd j).
  - intros j j' m m' Hm Hm' Hom Hnm. destruct (Hback j m Hm) as (m0 & Hm0 & E1 & E2 & _), (Hback j' m' Hm') as (m1 & Hm1 & E3 & E4 & _).
    apply (Hn j j' m0 m1); congruence.
  - intros j m t Hm Ht. rewrite Hw, lookup_insert_Some in Hm. destruct Hm as [[<- <-]|[_ Hm]]; [|by apply (Hre j m)].
    rewrite Hrel in Ht. destruct (Hre i n t Hi Ht) as (_ & v & Hv & Hle & Hle'). destruct (Hvoid t Ht) as [Hst ->].
    split; [done|]. by exists v.
Qed.

(** A new invoice over rows that are its sources' or untouched. *)
Lemma inv_new_invoice now i n w w' :
  inv now w → invoices w !! i = None → invoices w' = <[i := n]> (invoices w) →
  taken (n_org n) (n_number n) w = false → n_released n = None → NoDup (sources_of n) →
  (∀ k id, match table k w' !! id with
           | Some r' => ∃ r, table k w !! id = Some r ∧
               if bool_decide ((k, id) ∈ sources_of n) then r_invoice r = None ∧ r_invoiced r' = true ∧ r_invoice r' = Some i else r' = r
           | None => table k w !! id = None ∧ (k, id) ∉ sources_of n
           end) → inv now w'.
Proof.
  intros [Hr Hc Hs Hd Hn Hre] Hi Hw Htaken Hrel Hnd Hrows. split.
  - intros k id r' Hr'. specialize (Hrows k id). rewrite Hr' in Hrows. destruct Hrows as (r & Hget & Hif).
    case_bool_decide; [destruct Hif as (_ & -> & ->); done|subst r'; by apply (Hr k id)].
  - intros k id r' j Hr' Hj. specialize (Hrows k id). rewrite Hr' in Hrows. destruct Hrows as (r & Hget & Hif). rewrite Hw.
    case_bool_decide as Hin.
    + destruct Hif as (_ & _ & E). assert (j = i) as -> by congruence. exists n. by rewrite lookup_insert_eq.
    + subst r'. destruct (Hc k id r j Hget Hj) as (m & Hm & Hm'). exists m. rewrite lookup_insert_ne by congruence. done.
  - intros j m k id. rewrite Hw, lookup_insert_Some. intros [[<- <-]|[Hne Hm]] Hmr Hin; specialize (Hrows k id).
    + destruct (table k w' !! id) as [r'|]; [|by destruct Hrows]. destruct Hrows as (r & _ & Hif). rewrite bool_decide_eq_true_2 in Hif by done.
      exists r'. by destruct Hif as (_ & _ & ->).
    + destruct (Hs j m k id Hm Hmr Hin) as (r & Hget & Hinv). destruct (table k w' !! id) as [r'|]; [|destruct Hrows; congruence].
      destruct Hrows as (r0 & Hget0 & Hif). exists r'. split; [done|]. case_bool_decide; [destruct Hif as (E & _ & _)|]; congruence.
  - intros j m. rewrite Hw, lookup_insert_Some. intros [[<- <-]|[_ Hm]]; [done|by apply (Hd j)].
  - intros j j' m m'. rewrite Hw, !lookup_insert_Some. intros [[<- <-]|[_ Hm]] [[<- <-]|[_ Hm']] Ho Hnum; try done.
    + exfalso. by apply (taken_false _ _ _ _ _ Htaken Hm').
    + exfalso. by apply (taken_false _ _ _ _ _ Htaken Hm).
    + by apply (Hn j j' m m').
  - intros j m t. rewrite Hw, lookup_insert_Some. intros [[<- <-]|[_ Hm]] Ht; [congruence|by apply (Hre j m)].
Qed.

Lemma inv_bill now w e s f a n w' :
  inv now w → createUnbilledInvoiceInTransaction fingerprint e s f a w = (Ok n, w') → inv now w'.
Proof.
  intros HI (org & p & [Horg Hp (number & -> & Htaken) Hnew Hi _ Hrows])%bill_ok.
  destruct (preview_ok _ _ _ _ _ Hp) as (org' & Horg' & Hs & _ & Hkeys & _ & _ & Hnow). rewrite Horg in Horg'. injection Horg' as <-.
  assert (sources_of (new_draft e (number, org) s p f a) = selected_keys s) as Hso by exact Hkeys.
  eapply inv_new_invoice; [exact HI|exact Hnew|exact Hi|exact Htaken|done|rewrite Hso; by apply selected_keys_nodup|].
  intros k id. rewrite Hrows, Hso. destruct (table k w !! id) as [r|] eqn:Er; cbn.
  - exists r. split; [done|]. rewrite (takes_selected _ _ _ _ _ _ (Hnow k) Er).
    destruct (bool_decide _) eqn:Hin; [apply bool_decide_eq_true in Hin|done]. split; [|done]. apply elem_of_selected_keys in Hin as (o & Ho & <-). destruct (Hnow k o Ho) as (r' & Hr' & Hw & _).
    rewrite Er in Hr'. injection Hr' as <-. unfold sourceWhere in Hw. by bool_simplify.
  - split; [done|]. intros (o & Ho & <-)%elem_of_selected_keys. destruct (Hnow k o Ho) as (r' & Hr' & _). congruence.
Qed.

(** A release clears the rows the invoice claims, all of them. *)
Lemma clears_claimed now w i org n p f0 k id r :
  inv now w → invoices w !! i = Some n → n_sources n = Some (p, f0) → claims_agree p k (claimed_rows w i org k) = true →
  table k w !! id = Some r → clears w i org k id r = bool_decide (r_invoice r = Some i).
Proof.
  intros HI Hn Hsrc Hag Hr. apply eq_iff_eq_true. rewrite bool_decide_eq_true. unfold clears. split; [intros H; by bool_simplify|].
  intros Hri. destruct (inv_claim _ _ HI k id r i Hr Hri) as (n' & Hn' & _ & Hin). rewrite Hn in Hn'. injection Hn' as <-.
  unfold sources_of in Hin. rewrite Hsrc in Hin. cbn in Hin.
  destruct (claims_cover _ _ _ _ _ _ Hag Hin) as (r' & Hr' & Hinv). destruct (claimed_rows_spec _ _ _ _ _ _ Hr') as (Hget & _ & Hscope).
  rewrite Hr in Hget. injection Hget as <-. rewrite Hscope, Hri, bool_decide_refl, Hinv. cbn. apply existsb_exists.
  exists (to_claim (id, r)). split; [by apply list_elem_of_In, list_elem_of_fmap_2|]. cbn. by rewrite bool_decide_refl, Z.eqb_refl.
Qed.

Lemma inv_release now w e i f a u w' :
  inv now w → e_now e = now → releaseUnbilledSourcesInTransaction release_fingerprint e i f a w = (Ok u, w') → inv now w'.
Proof.
  intros HI He (org & p & n & [Horg Hn (Hrel & Hst & Hpay & Hno) (v & f0 & Hv & Hle & Hsrc) Hag Hi _ Hrows])%release_ok.
  assert (∀ k id r, table k w !! id = Some r → r_invoice r = Some i ↔ clears w i org k id r = true) as Hclears.
  { intros k id r Hr. by rewrite (clears_claimed _ _ _ _ _ _ _ k id r HI Hn Hsrc (Hag k) Hr), bool_decide_eq_true. }
  destruct HI as [Hr Hc Hs Hd Hnum Hre].
  assert (∀ k id r', table k w' !! id = Some r' → (∃ r, table k w !! id = Some r ∧ r_invoice r = Some i ∧ r_invoice r' = None ∧ r_invoiced r' = false) ∨
    table k w !! id = Some r' ∧ r_invoice r' ≠ Some i) as Hback.
  { intros k id r'. rewrite Hrows. destruct (table k w !! id) as [r|] eqn:Er; [|done]. cbn. intros [= <-].
    destruct (clears w i org k id r) eqn:Ec; [left; exists r; split_and!; try done; by apply (Hclears k id r Er)|].
    right. split; [done|]. rewrite (Hclears k id r Er). congruence. }
  split.
  - intros k id r' Hr'. destruct (Hback k id r' Hr') as [(r & _ & _ & -> & ->)|[Hget _]]; [done|by apply (Hr k id)].
  - intros k id r' j Hr' Hj. destruct (Hback k id r' Hr') as [(r & _ & _ & E & _)|[Hget Hne]]; [congruence|].
    destruct (Hc k id r' j Hget Hj) as (m & Hm & Hm'). exists m. rewrite Hi, lookup_insert_ne by congruence. done.
  - intros j m k id. rewrite Hi, lookup_insert_Some. intros [[<- <-]|[Hne Hm]] Hmr Hin; [done|].
    destruct (Hs j m k id Hm Hmr Hin) as (r & Hget & Hinv). exists r. split; [|done]. rewrite Hrows, Hget. cbn.
    destruct (clears w i org k id r) eqn:Ec; [|done]. apply (Hclears k id r Hget) in Ec. congruence.
  - intros j m. rewrite Hi, lookup_insert_Some. intros [[<- <-]|[_ Hm]]; [exact (Hd i n Hn)|by apply (Hd j)].
  - intros j j' m m'. rewrite Hi, !lookup_insert_Some. intros [[<- <-]|[_ Hm]] [[<- <-]|[_ Hm']] Ho Hm2; try done.
    + by apply (Hnum i j' n m').
    + by apply (Hnum j i m n).
    + by apply (Hnum j j' m m').
  - intros j m t. rewrite Hi, lookup_insert_Some. intros [[<- <-]|[_ Hm]] Ht; [|by apply (Hre j m)].
    injection Ht as <-. split; [done|]. exists v. split_and!; [done|lia..].
Qed.

(** ** Every step keeps the invariant *)

Lemma transaction_cases {A} (m : tx A) w : (transaction m w).2 = w ∨ ∃ a w', m w = (Ok a, w') ∧ (transaction m w).2 = w'.
Proof. unfold transaction. destruct (m w) as [[a|er] w']; [right; by exists a, w'|by left]. Qed.
Lemma update_invoice_inv now i Q g refusal w :
  inv now w → (∀ n, invoices w !! i = Some n → Q n = true → n_status n ≠ "VOID" ∧ n_org (g n) = n_org n ∧ n_number (g n) = n_number n ∧
    n_sources (g n) = n_sources n ∧ n_released (g n) = n_released n) →
  inv now (update_invoice i Q g refusal w).2.
Proof.
  intros HI Hg. destruct (update_invoice i Q g refusal w) as [[u|er] w'] eqn:E.
  - apply update_invoice_ok in E as (n & Hn & HQ & ->). destruct (Hg n Hn HQ) as (Hst & Ho & Hnum & Hs & Hr). cbn [snd].
    eapply (inv_set_invoice now i n); [exact HI|exact Hn|reflexivity|intros k; apply table_set_invoice|done..|].
    intros t Ht. by destruct (inv_released _ _ HI i n t Hn Ht).
  - unfold update_invoice in E. cbv [mbind eff_bind gets modify throw] in E. destruct (find_by_id _ _ _); [done|]. by injection E as _ <-.
Qed.

Lemma inv_create now w id n org year :
  inv now w → n_sources n = None → n_released n = None → inv now (createNumberedInvoice id n org year w).2.
Proof.
  intros HI Hs Hr. unfold createNumberedInvoice. destruct (transaction_cases (number ← allocateInvoiceNumber (n_client n) org year;
    insert_invoice id (numbered number n)) w) as [->|(m & w' & H & ->)]; [done|].
  apply eff_bind_ok in H as (number & w1 & Hn & H). apply allocateInvoiceNumber_ok in Hn as ((_ & Hi1 & _ & Ht1) & Htaken & _).
  apply insert_invoice_ok in H as (_ & Hnew & _ & ->).
  apply (inv_new_invoice now id (numbered number n) w); [done|by rewrite <-Hi1|cbn; by rewrite Hi1|exact Htaken|exact Hr| |].
  - unfold sources_of. cbn. rewrite Hs. constructor.
  - intros k id'. rewrite table_set_invoice, Ht1. unfold sources_of. cbn. rewrite Hs. cbn.
    destruct (table k w !! id') as [r|]; [|split; [done|apply not_elem_of_nil]]. exists r. split; [done|].
    by rewrite bool_decide_eq_false_2 by apply not_elem_of_nil.
Qed.

Lemma inv_void now w i observed : inv now w → inv now (voidInvoice i observed now w).2.
Proof.
  intros HI. unfold voidInvoice. match goal with |- inv now (transaction ?m w).2 => destruct (transaction_cases m w) as [->|(u & w' & H & ->)] end; [done|].
  apply eff_bind_ok in H as (u1 & w1 & Hu & H). apply update_invoice_ok in Hu as (n & Hn & HQ & ->).
  apply eff_bind_ok in H as (paid & w2 & Hp & H). injection Hp as _ <-. apply guard_ok in H as [_ ->].
  eapply (inv_set_invoice now i n); [exact HI|exact Hn|reflexivity|intros k; apply table_set_invoice|done..|].
  intros t Ht. destruct (inv_released _ _ HI i n t Hn Ht) as [Hst _]. exfalso. rewrite Hst in HQ. by vm_compute in HQ.
Qed.

(** Undoing a void later than every release finds its window over. *)
Lemma inv_undo now now' w i : inv now w → now < now' → inv now' (undoVoid i now' w).2.
Proof.
  intros HI Hlt. unfold undoVoid. match goal with |- inv _ (transaction ?m w).2 => destruct (transaction_cases m w) as [->|(u & w' & H & ->)] end;
    [apply (inv_later now); [lia|done]|].
  apply eff_bind_ok in H as (found & w1 & Hf & H). injection Hf as <- <-.
  destruct (invoices w !! i) as [n|] eqn:Hn; [|done]. destruct (n_deleted n); [done|].
  destruct (n_voidedFrom n) as [from|]; [|done]. destruct (negb _); [done|]. destruct (n_voidedAt n) as [v|] eqn:Hv; [|done].
  unfold VOID_UNDO_WINDOW_MS in H. destruct (10000 <? now' - v) eqn:Hw; [done|]. injection H as _ <-.
  apply (inv_later now); [lia|]. eapply (inv_set_invoice now i n); [exact HI|exact Hn|reflexivity|intros k; apply table_set_invoice|done..|].
  intros t Ht. exfalso. destruct (inv_released _ _ HI i n t Hn Ht) as (_ & v' & Hv' & ? & ?). rewrite Hv in Hv'. injection Hv' as <-.
  apply Z.ltb_ge in Hw. lia.
Qed.

Lemma inv_edit now w i observed d org : inv now w → inv now (updateDraftInvoice i observed d org now w).2.
Proof.
  intros HI. unfold updateDraftInvoice. destruct (negb _); [done|]. cbn zeta. destruct (_ && (_ || _)); [done|]. destruct (_ && _); [done|].
  match goal with |- inv now (transaction ?m w).2 => destruct (transaction_cases m w) as [->|(u & w' & H & ->)] end; [done|].
  change w' with (Ok (E := billing_error) u, w').2. rewrite <-H. apply update_invoice_inv; [done|]. intros n Hn HQ. bool_simplify. split_and!; try done.
  match goal with Hs : n_status n = _ |- _ => by rewrite Hs end.
Qed.

Lemma billing_step now now' w w' : inv now w → now < now' → step now' w w' → inv now' w'.
Proof.
  intros HI Hlt Hs. assert (inv now' w) as HI' by (apply (inv_later now); [lia|done]). destruct Hs.
  - match goal with |- inv _ (transaction ?m w).2 => destruct (transaction_cases m w) as [->|(n & w' & Hm & ->)] end; [done|by eapply inv_bill].
  - match goal with |- inv _ (transaction ?m w).2 => destruct (transaction_cases m w) as [->|(n & w' & Hm & ->)] end; [done|by eapply inv_release].
  - by apply inv_create.
  - by apply inv_void.
  - by apply (inv_undo now).
  - by apply inv_edit.
  - apply update_invoice_inv; [done|]. intros n Hn HQ. bool_simplify. split_and!; try done. congruence.
  - match goal with Hk : keeps_billing _ _ |- _ => destruct Hk as (Ho & Hn & Hsrc & Hr & Hv & Hst) end.
    eapply (inv_set_invoice now' i n n'); [done|done|reflexivity|intros k; apply table_set_invoice|done..|].
    intros t Ht. split; [|done]. apply Hst. by destruct (inv_released _ _ HI' i n t ltac:(done) Ht).
  - match goal with Hk : keeps_claim _ _ |- _ => rename Hk into Hkeep end. destruct HI' as [Hr Hc Hsrc Hd Hn Hre].
    destruct (set_table_invoices k (<[id:=r]> (table k w)) w) as [Hi _].
    split; rewrite ?Hi; [| | |done..].
    + intros k' id' r'. rewrite table_set. case_decide; [subst k'|by apply Hr]. rewrite lookup_insert_Some.
      intros [[<- <-]|[_ Hget]]; [|by apply (Hr k id')]. destruct (table k w !! id) as [r0|] eqn:E; destruct Hkeep as [-> ->]; [by apply (Hr k id)|done].
    + intros k' id' r' j. rewrite table_set. case_decide; [subst k'|by apply Hc]. rewrite lookup_insert_Some.
      intros [[<- <-]|[_ Hget]] Hj; [|by apply (Hc k id' r')]. destruct (table k w !! id) as [r0|] eqn:E; destruct Hkeep as [_ E2]; [|congruence].
      apply (Hc k id r0); congruence.
    + intros j m k' id' Hm Hmr Hin. destruct (Hsrc j m k' id' Hm Hmr Hin) as (r0 & Hget & Hinv). rewrite table_set.
      case_decide; [subst k'|by exists r0]. destruct (decide (id' = id)) as [->|Hne]; [|rewrite lookup_insert_ne by done; by exists r0].
      exists r. rewrite lookup_insert_eq. split; [done|]. rewrite Hget in Hkeep. by destruct Hkeep as [_ ->].
  - destruct HI' as [Hr Hc Hsrc Hd Hn Hre]. split; [intros []; [exact (Hr TIME)|exact (Hr EXPENSE)]|intros []; [exact (Hc TIME)|exact (Hc EXPENSE)]| |done..].
    intros i n []; [exact (Hsrc i n TIME)|exact (Hsrc i n EXPENSE)].
Qed.

Lemma history_inv now w : history now w → inv now w.
Proof.
  induction 1 as [now w [Hi Hrows]|now now' w w' _ IH Hlt Hs]; [|by eapply billing_step].
  split; rewrite ?Hi; [|intros k id r i Hr; destruct (Hrows k id r Hr) as [_ ->]; done|intros *; by rewrite lookup_empty..].
  intros k id r Hr. by destruct (Hrows k id r Hr) as [-> ->].
Qed.

(** ** Properties *)

(** C5 (invariant): when the operations on invoices and work come at different
    instants, with every other change of rows, invoices and people in between,
    a piece of work is billed at most once: each source of an invoice that is
    not void is a row claimed by that very invoice, the invoice names it once,
    and no other invoice that is not void names it too.  Invoice numbers are
    unique in an organization. *)
Theorem work_billed_once now w :
  history now w →
  (∀ i n k id, invoices w !! i = Some n → n_status n ≠ "VOID" → (k, id) ∈ sources_of n →
    ∃ r, table k w !! id = Some r ∧ r_invoiced r = true ∧ r_invoice r = Some i) ∧
  (∀ i n, invoices w !! i = Some n → NoDup (sources_of n)) ∧
  (∀ i j n m x, invoices w !! i = Some n → invoices w !! j = Some m → n_status n ≠ "VOID" → n_status m ≠ "VOID" →
    x ∈ sources_of n → x ∈ sources_of m → i = j) ∧
  (∀ i j n m, invoices w !! i = Some n → invoices w !! j = Some m → n_org n = n_org m → n_number n = n_number m → i = j).
Proof.
  intros [Hr Hc Hs Hd Hn Hre]%history_inv.
  assert (∀ i n, invoices w !! i = Some n → n_status n ≠ "VOID" → n_released n = None) as Hlive.
  { intros i n Hi Hst. destruct (n_released n) as [t|] eqn:Ht; [|done]. by destruct (Hre i n t Hi Ht). }
  split_and!; [|exact Hd| |exact Hn].
  - intros i n k id Hi Hst Hin. destruct (Hs i n k id Hi (Hlive i n Hi Hst) Hin) as (r & Hget & Hinv). exists r.
    rewrite (Hr k id r Hget), Hinv. done.
  - intros i j n m [k id] Hi Hj Hni Hnj Hin Hjn.
    destruct (Hs i n k id Hi (Hlive i n Hi Hni) Hin) as (r & Hget & Hinv), (Hs j m k id Hj (Hlive j m Hj Hnj) Hjn) as (r' & Hget' & Hinv').
    congruence.
Qed.

(** C26 (functional): billing creates what was reviewed.  With the fingerprint
    of a preview read at any earlier state, and no hash collision between that
    preview and the one made now, a creation that succeeds stores a draft with
    exactly the reviewed lines, totals and sources; each selected row was
    unbilled and unchanged since it was seen and is now claimed by the draft;
    no other row and no other invoice changes.  One that fails leaves the state
    as it was. *)
Theorem bills_what_was_reviewed e s a w0 p0 f w :
  previewUnbilledInvoice fingerprint w0 s a = Ok (p0, f) →
  (∀ p, previewUnbilledInvoice fingerprint w s a = Ok (p, fingerprint p) → fingerprint p = fingerprint p0 → p = p0) →
  match transaction (createUnbilledInvoiceInTransaction fingerprint e s f a) w with
  | (Ok n, w') =>
      n_lines n = fst <$> v_lines p0 ∧ n_totals n = invoiceTotals (l_total <$> n_lines n) (in_taxRate s) zero ∧
      n_status n = "DRAFT" ∧ a_org a = Some (n_org n) ∧ sources_of n = selected_keys s ∧
      invoices w !! e_id e = None ∧ invoices w' = <[e_id e := n]> (invoices w) ∧
      ∀ k id, if bool_decide ((k, id) ∈ selected_keys s)
              then ∃ r, table k w !! id = Some r ∧ r_invoice r = None ∧ is_observed (selections s k) id r = true ∧
                        table k w' !! id = Some (set_claim true (Some (e_id e)) (e_now e) r)
              else table k w' !! id = table k w !! id
  | (Err _, w') => w' = w
  end.
Proof.
  intros Hp0 Hcollision. destruct (transaction _ w) as [[n|er] w'] eqn:E; [|by eapply transaction_err].
  apply transaction_ok, bill_ok in E as (org & p & [Horg Hp (number & -> & _) Hnew Hi _ Hrows]).
  destruct (preview_ok _ _ _ _ _ Hp0) as (_ & _ & _ & Hf & _). destruct (preview_ok _ _ _ _ _ Hp) as (org' & Horg' & Hs & Hf' & Hkeys & _ & Htot & Hnow).
  rewrite Horg in Horg'. injection Horg' as <-. assert (p = p0) as <- by (apply Hcollision; congruence).
  split_and!; [done|cbn; by rewrite Htot, <-list_fmap_compose|done|done|exact Hkeys|done|done|]. intros k id.
  rewrite Hrows. case_bool_decide as Hin.
  - pose proof Hin as (o & Ho & <-)%elem_of_selected_keys. destruct (Hnow k o Ho) as (r & Hr & Hw & _). exists r. rewrite Hr. cbn.
    pose proof (takes_selected _ _ _ _ _ _ (Hnow k) Hr) as Ht. rewrite (bool_decide_eq_true_2 _ Hin) in Ht. rewrite Ht.
    unfold takes in Ht. unfold sourceWhere in Hw. by bool_simplify.
  - destruct (table k w !! id) as [r|] eqn:Hr; [|done]. cbn. rewrite (takes_selected _ _ _ _ _ _ (Hnow k) Hr). by rewrite bool_decide_eq_false_2.
Qed.

(** In any history, releasing a void invoice's sources frees
    exactly the rows it had claimed: each is unbilled again and nothing else
    about it changes but its time of change, every other row stays as it is,
    and the invoice keeps its lines and history, marked released; a refused
    release leaves the state as it was. *)
Lemma release_frees_its_sources now e i f a w :
  history now w →
  match transaction (releaseUnbilledSourcesInTransaction release_fingerprint e i f a) w with
  | (Ok _, w') =>
      (∃ n, invoices w !! i = Some n ∧ n_status n = "VOID" ∧ n_payments n = [] ∧ n_released n = None ∧
            invoices w' = <[i := mark_released (e_now e) n]> (invoices w)) ∧
      ∀ k id, table k w' !! id =
        (λ r, if bool_decide (r_invoice r = Some i) then set_claim false None (e_now e) r else r) <$> table k w !! id
  | (Err _, w') => w' = w
  end.
Proof.
  intros Hh. pose proof (history_inv _ _ Hh) as HI. destruct (transaction _ w) as [[u|er] w'] eqn:E; [|by eapply transaction_err].
  apply transaction_ok, release_ok in E as (org & p & n & [Horg Hn (Hrel & Hst & Hpay & Hno) (v & f0 & _ & _ & Hsrc) Hag Hi _ Hrows]).
  split; [by exists n|]. intros k id. rewrite Hrows. destruct (table k w !! id) as [r|] eqn:Hr; [|done]. cbn.
  by rewrite (clears_claimed _ _ _ _ _ _ _ k id r HI Hn Hsrc (Hag k) Hr).
Qed.

(** ** Numbers *)

Lemma taken_bump org number org' year w : taken org number (bump org' year w) = taken org number w.
Proof. done. Qed.
Lemma allocate_first attempts org year w :
  let c := default 0 (sequences w !! (org, year)) in
  let number d := formatInvoiceNumber year (c + d) in
  match allocate attempts org year w with
  | (Ok x, w') => ∃ d, 1 ≤ d ≤ Z.of_nat attempts ∧ x = number d ∧ taken org x w = false ∧
      (∀ d', 1 ≤ d' < d → taken org (number d') w = true) ∧ sequences w' !! (org, year) = Some (c + d) ∧
      ∀ k, k ≠ (org, year) → sequences w' !! k = sequences w !! k
  | (Err er, _) => er = NumbersExhausted ∧ ∀ d, 1 ≤ d ≤ Z.of_nat attempts → taken org (number d) w = true
  end.
Proof.
  cbn zeta. revert w. induction attempts as [|attempts IH]; intros w; [split; [done|lia]|].
  cbn [allocate]. cbv [mbind eff_bind gets modify mret eff_ret]. rewrite taken_bump.
  set (c := default 0 (sequences w !! (org, year))). assert (next_value org year w = c + 1) as -> by done.
  assert (sequences (bump org year w) !! (org, year) = Some (c + 1)) as Hb by apply lookup_insert_eq.
  destruct (taken org (formatInvoiceNumber year (c + 1)) w) eqn:Ht.
  - specialize (IH (bump org year w)). rewrite Hb in IH. cbn [default] in IH. destruct (allocate _ _ _ _) as [[x|er] w'].
    + destruct IH as (d & Hd & -> & Hfree & Hall & Hseq & Hother). exists (d + 1). replace (c + (d + 1)) with (c + 1 + d) by lia.
      split_and!; [lia|lia|done|done| |done|].
      * intros d' Hd'. destruct (decide (d' = 1)) as [->|Hne]; [done|]. replace (c + d') with (c + 1 + (d' - 1)) by lia.
        exact (Hall (d' - 1) ltac:(lia)).
      * intros k Hk. rewrite Hother by done. cbn. by rewrite lookup_insert_ne.
    + destruct IH as [-> Hall]. split; [done|]. intros d Hd. destruct (decide (d = 1)) as [->|Hne]; [done|].
      replace (c + d) with (c + 1 + (d - 1)) by lia. exact (Hall (d - 1) ltac:(lia)).
  - exists 1. split_and!; [lia|lia|done|done|lia|done|]. intros k Hk. cbn. by rewrite lookup_insert_ne.
Qed.
End theory.

(** An invoice number is the first one after the organization's
    counter of the year that no invoice of the organization has, deleted ones
    included, the counter then stands at it and no other counter moved; the
    search gives up exactly when the next fifty are all taken, and a client of
    another organization gets none. *)
Lemma allocateInvoiceNumber_first_free c organizationId year w :
  match clients w !! c with
  | None => allocateInvoiceNumber c organizationId year w = (Err ClientNotFound, w)
  | Some cl =>
      if bool_decide (organizationId = None ∨ organizationId = Some (c_org cl)) then
        let org := c_org cl in
        let last := default 0 (sequences w !! (org, year)) in
        match allocateInvoiceNumber c organizationId year w with
        | (Ok x, w') => ∃ d, 1 ≤ d ≤ 50 ∧ x = (formatInvoiceNumber year (last + d), org) ∧ taken org x.1 w = false ∧
            (∀ d', 1 ≤ d' < d → taken org (formatInvoiceNumber year (last + d')) w = true) ∧
            sequences w' !! (org, year) = Some (last + d) ∧ ∀ k, k ≠ (org, year) → sequences w' !! k = sequences w !! k
        | (Err er, _) => er = NumbersExhausted ∧ ∀ d, 1 ≤ d ≤ 50 → taken org (formatInvoiceNumber year (last + d)) w = true
        end
      else allocateInvoiceNumber c organizationId year w = (Err ClientNotFound, w)
  end.
Proof.
  unfold allocateInvoiceNumber. cbv [mbind eff_bind gets modify throw mret eff_ret]. destruct (clients w !! c) as [cl|]; [|done].
  case_bool_decide as Hor.
  - assert (negb (bool_decide (organizationId = None)) && negb (bool_decide (organizationId = Some (c_org cl))) = false) as ->.
    { destruct Hor as [->| ->]; [done|]. by rewrite bool_decide_refl, andb_false_r. }
    cbn zeta. pose proof (allocate_first MAX_ALLOCATION_ATTEMPTS (c_org cl) year w) as H. cbn zeta in H.
    destruct (allocate _ _ _ _) as [[x|er] w']; [|exact H]. destruct H as (d & Hd & -> & Hrest). by exists d.
  - rewrite !bool_decide_eq_false_2 by tauto. done.
Qed.

(** An administrator who follows the cursors of the list of
    unbilled work sees each billable piece of the client exactly once, in the
    order of ids, and the reading ends, whatever the page size. *)
Lemma candidate_pages_complete w k c p limit a org scope fuel :
  currentInvoiceAdmin w a = Ok org → targets w c p org = Ok scope → (1 ≤ limit ≤ 50)%nat → (size (table k w) < fuel)%nat →
  walk fuel (λ after, listUnbilledCandidates w k c p after limit a) None =
    Some ((λ kr, candidate w k kr.1 None kr.2) <$> listed (λ _, sourceWhere w c p org k) (table k w)).
Proof.
  intros Ha Ht Hlimit Hfuel. apply (walk_pages _ _ limit); [lia| |exact Hfuel]. intros after _.
  unfold listUnbilledCandidates. rewrite (proj2 (Nat.leb_le 1 limit)), (proj2 (Nat.leb_le limit 50)) by lia. cbn [negb andb].
  rewrite Ha. cbv [mbind result_bind]. rewrite Ht. by destruct (page _ _ _ _) as [rows next].
Qed.

(** ** Examples *)

Definition demo_hash {A} (_ : A) : string := String.concat "" (replicate 64 "0").
Definition demo_row : row := Row (Some "Design") 0 5 (Some "project") false true false None (TimeWork 90 (Some (of_Z 100)) "admin" true).
Definition demo_world : world :=
  World {["t1" := demo_row]} ∅ {["client" := Client "org" "Client" false]} {["project" := Project "org" (Some "client") "Project" false]}
    {["admin" := User "org" "Ada" true true]} ∅ ∅ [].
Definition demo_actor : actor := Actor "admin" (Some "org") "ADMIN".
Definition demo_selection : selection :=
  Selection "client" None "March" "CAD" (of_Z 13) "HST" [(Observed "t1" 5, of_Z 100)] [].
Definition demo_env (now : Z) : env := Env ("invoice" +:+ pretty now) now 2026 true.
Definition demo_bill (now : Z) : tx invoice := transaction (createUnbilledInvoiceInTransaction demo_hash (demo_env now) demo_selection (demo_hash tt) demo_actor).
Definition demo_billed : world := (demo_bill 100 demo_world).2.
Definition demo_invoice : invoice := default (Invoice "" "" "" "" None "" "" "" NaN "" NaN (Totals NaN NaN NaN NaN) [] None None None None false [] false 0)
  (invoices demo_billed !! "invoice100").
Definition demo_voided : world := (voidInvoice "invoice100" demo_invoice 200 demo_billed).2.
Definition demo_release (now : Z) : tx unit :=
  transaction (releaseUnbilledSourcesInTransaction demo_hash (demo_env now) "invoice100" (demo_hash tt) demo_actor).
Example demo_draft :
  n_number demo_invoice = "INV-2026-0001" ∧ total (n_totals demo_invoice) = cents 16950 ∧ sources_of demo_invoice = [(TIME, "t1")].
Proof. vm_compute. done. Qed.
Lemma ok_pair {E A B} (a a' : A) (b b' : B) : Ok (E := E) (a, b) = Ok (a', b') → a = a'.
Proof. congruence. Qed.
Lemma demo_nothing_billed : nothing_billed demo_world.
Proof.
  split; [done|]. intros [] id r; cbn; [|by rewrite lookup_empty]. rewrite lookup_singleton_Some. intros [<- <-]. done.
Qed.
Lemma demo_history : history demo_hash demo_hash 100 demo_billed.
Proof.
  apply (history_step _ _ 50 100 demo_world); [constructor; apply demo_nothing_billed|lia|]. by apply step_bill.
Qed.
Lemma demo_history_voided : history demo_hash demo_hash 200 demo_voided.
Proof. apply (history_step _ _ 100 200 demo_billed); [apply demo_history|lia|apply step_void]. Qed.

Lemma work_billed_once_witness :
  invoices demo_billed !! "invoice100" = Some demo_invoice ∧ n_status demo_invoice ≠ "VOID" ∧
  ∃ r, table TIME demo_billed !! "t1" = Some r ∧ r_invoiced r = true ∧ r_invoice r = Some "invoice100".
Proof.
  assert (invoices demo_billed !! "invoice100" = Some demo_invoice) as H by (vm_compute; reflexivity).
  assert (n_status demo_invoice ≠ "VOID") as Hst by (vm_compute; congruence).
  split_and!; [exact H|exact Hst|]. apply (proj1 (work_billed_once demo_hash demo_hash 100 demo_billed demo_history) "invoice100" demo_invoice TIME "t1" H Hst).
  vm_compute. left.
Defined.
Definition demo_preview : preview :=
  match previewUnbilledInvoice demo_hash demo_world demo_selection demo_actor with
  | Ok (p, _) => p
  | Err _ => Preview ("", "") None "" "" NaN "" [] (Totals NaN NaN NaN NaN) 0 0
  end.
Lemma bills_what_was_reviewed_witness :
  (demo_bill 100 demo_world).1 = Ok demo_invoice ∧ n_lines demo_invoice = fst <$> v_lines demo_preview.
Proof.
  assert (previewUnbilledInvoice demo_hash demo_world demo_selection demo_actor = Ok (demo_preview, demo_hash tt)) as Hp by (vm_compute; reflexivity).
  assert (demo_bill 100 demo_world = (Ok demo_invoice, demo_billed)) as Hb by (vm_compute; reflexivity).
  split; [by rewrite Hb|].
  pose proof (bills_what_was_reviewed demo_hash (demo_env 100) demo_selection demo_actor demo_world demo_preview (demo_hash tt) demo_world Hp) as H.
  unfold demo_bill in Hb. rewrite Hb in H. apply H. intros p Hp' _. exact (ok_pair _ _ _ _ (eq_trans (eq_sym Hp') Hp)).
Defined.
Definition demo_released : world := (demo_release 10200 demo_voided).2.
Lemma release_frees_its_sources_witness :
  (demo_release 10200 demo_voided).1 = Ok tt ∧ table TIME demo_released !! "t1" = Some (set_claim false None 10200 demo_row).
Proof.
  assert (demo_release 10200 demo_voided = (Ok tt, demo_released)) as Hb by (vm_compute; reflexivity).
  split; [by rewrite Hb|].
  pose proof (release_frees_its_sources demo_hash demo_hash 200 (demo_env 10200) "invoice100" (demo_hash tt) demo_actor demo_voided demo_history_voided) as H.
  unfold demo_release in Hb. rewrite Hb in H. refine (eq_trans (proj2 H TIME "t1") _). vm_compute. reflexivity.
Defined.

Lemma candidate_pages_complete_witness :
  walk 2 (λ after, listUnbilledCandidates demo_world TIME "client" None after 1 demo_actor) None =
    Some [candidate demo_world TIME "t1" None demo_row].
Proof.
  assert (currentInvoiceAdmin demo_world demo_actor = Ok "org") as Ha by (vm_compute; reflexivity).
  assert (targets demo_world "client" None "org" = Ok (("client", "Client"), None)) as Ht by (vm_compute; reflexivity).
  rewrite (candidate_pages_complete demo_world TIME "client" None 1 demo_actor "org" _ 2 Ha Ht); [vm_compute; reflexivity|lia|vm_compute; lia].
Defined.

(** The undo window is closed on both sides: a void may still be undone in the
    millisecond from which its sources may be released.  Released and undone at
    that instant, the draft is back, its work is billable again, and a second
    draft bills it too. *)
Lemma undone_after_release_bills_twice :
  let undone := (undoVoid "invoice100" 10200 demo_released).2 in
  let again := (transaction (createUnbilledInvoiceInTransaction demo_hash (demo_env 10201)
    (Selection "client" None "March" "CAD" (of_Z 13) "HST" [(Observed "t1" 10200, of_Z 100)] []) (demo_hash tt) demo_actor) undone).2 in
  (λ kn, (n_status kn.2, sources_of kn.2)) <$> map_to_list (invoices again) = [("DRAFT", [(TIME, "t1")]); ("DRAFT", [(TIME, "t1")])].
Proof. vm_compute. reflexivity. Qed.
End BilledOnce.
