(* ===== verification/Timers.v ===== *)
(** * Timers and time entries

    src/src/services/timeTracking.service.js: starting, stopping and deleting
    timers, the time entries they record, and the summary.  A transaction reads
    its rows, and its conditional writes and insert take effect when it commits:
    between the two other transactions may commit, so what it read may be stale.
    The service is verified against the table interface of [Store], with the
    database's partial unique index (one running timer per user) as part of the
    model. *)

From S2P Require Import Prelude Store JsNumber Money.
Import Js.

Module Timers.

(* src/src/validators/schemas.js:1679-1679 MAX_TIME_ENTRY_MINUTES *)
Definition MAX_TIME_ENTRY_MINUTES : Z := 1440.

(** [time_sessions]: the id is the table's key; times are milliseconds. *)
Record session := Session {
  s_user : string; s_project : string; s_task : option string; s_description : option string;
  s_start : Z; s_end : option Z; s_duration : Z; s_billable : bool; s_running : bool
}.

(** [time_entries], with the link to the timer an entry was recorded from. *)
Record entry := Entry {
  e_user : string; e_project : string; e_task : option string; e_description : option string;
  e_duration : Z; e_date : Z; e_billable : bool; e_source : string; e_session : option string
}.
#[export] Instance entry_eq_dec : EqDecision entry.
Proof. solve_decision. Defined.

(* src/src/services/timeTracking.service.js:20-32 TimerError *)
Inductive timer_error :=
  | TIMER_ALREADY_RUNNING | TIMER_NOT_FOUND | TIMER_NOT_RUNNING | TIMER_RUNNING
  | UniqueViolation.                     (** Prisma's P2002, of the database *)

Definition error_status (e : timer_error) : Z :=
  match e with TIMER_NOT_FOUND => 404 | UniqueViolation => 500 | _ => 409 end.

(** [Math.round] of the elapsed minutes; the elapsed milliseconds are an
    integer, so the quotient's rounding does not cross a half. *)
Definition round_minutes (elapsedMs : Z) : Z := (2 * elapsedMs + 60000) / 120000.

Definition session_minutes (elapsedMs : Z) : Z :=
  if 60000 <=? elapsedMs then Z.max 1 (round_minutes elapsedMs) else 0.

(** The entry a closed session records. *)
Definition entry_for (id : string) (s : session) (duration : Z) : entry :=
  Entry (s_user s) (s_project s) (s_task s) (s_description s) (Z.min duration MAX_TIME_ENTRY_MINUTES)
    (s_start s) (s_billable s) "TIMER" (Some id).

Definition linked (id : string) (e : entry) : Prop := e_session e = Some id.
#[export] Instance linked_dec id e : Decision (linked id e) := decide (e_session e = Some id).

Section timers.
Context {T : Type} `{Table T session}.

Record db := DB { sessions : T; entries : list entry }.
Let M := Eff db timer_error.

(** The partial unique index on the user of a running session. *)
Definition running_of (user : string) : string → session → bool :=
  λ _ s, bool_decide (s_user s = user) && s_running s.
Definition owned_by (user : string) (s : session) : bool := bool_decide (s_user s = user).

Definition insert_session (id : string) (s : session) : M unit := λ d,
  if s_running s && (0 <? tcount (running_of (s_user s)) (sessions d))%nat then (Err UniqueViolation, d)
  else (Ok tt, DB (tinsert id s (sessions d)) (entries d)).

(** [timeSessionId] is unique among the entries. *)
Definition insert_entry (e : entry) : M unit := λ d,
  if bool_decide (is_Some (e_session e)) && existsb (λ e', bool_decide (e_session e' = e_session e)) (entries d)
  then (Err UniqueViolation, d)
  else (Ok tt, DB (sessions d) (entries d ++ [e])).

Definition stopped (endTime duration : Z) (s : session) : session :=
  Session (s_user s) (s_project s) (s_task s) (s_description s) (s_start s) (Some endTime) duration (s_billable s) false.

(** [session] is what the caller read; the claim is on the row as it is now. *)
(* src/src/services/timeTracking.service.js:58-86 closeSession *)
Definition closeSession (endTime : Z) (session : string * session) : M (option (Z * option entry)) :=
  let '(id, s) := session in
  let elapsedMs := endTime - s_start s in
  let duration := session_minutes elapsedMs in
  λ d,
  let '(count, sessions') := update_many (on_id id (λ r, owned_by (s_user s) r && s_running r))
                               (λ _, stopped endTime duration) (sessions d) in
  let d := DB sessions' (entries d) in
  if negb (count =? 1)%nat then (Ok None, d)
  else if 60000 <=? elapsedMs then
    (insert_entry (entry_for id s duration) ≫= λ _, mret (Some (duration, Some (entry_for id s duration)))) d
  else (Ok (Some (duration, None)), d).

Record start_input := Start {
  t_user : string; t_project : string; t_task : option string; t_description : option string
}.

Definition new_session (i : start_input) (now : Z) : session :=
  Session (t_user i) (t_project i) (t_task i) (t_description i) now None 0 true true.

(** [running] is what the transaction read; a lost race answers 409. *)
(* src/src/services/timeTracking.service.js:91-116 startTimer *)
Definition startTimer (running : list (string * session)) (i : start_input) (endTime now : Z) (id : string) : M session :=
  λ d,
  match transaction (mapM (closeSession endTime) running ≫= λ _, insert_session id (new_session i now)) d with
  | (Ok _, d') => (Ok (new_session i now), d')
  | (Err UniqueViolation, d') => (Err TIMER_ALREADY_RUNNING, d')
  | (Err e, d') => (Err e, d')
  end.

(** The row a caller may stop, as read at the start of the transaction. *)
Definition stoppable (id user : string) (d : db) : result timer_error session :=
  match find_by_id id (owned_by user) (sessions d) with
  | None => Err TIMER_NOT_FOUND
  | Some s => if s_running s then Ok s else Err TIMER_NOT_RUNNING
  end.

(* src/src/services/timeTracking.service.js:121-131 stopTimer *)
Definition stopTimer (read : result timer_error session) (id : string) (endTime : Z) : M (option entry) :=
  transaction (λ d,
    match read with
    | Err e => (Err e, d)
    | Ok s => (closeSession endTime (id, s) ≫= λ closed,
                match closed with
                | None => throw TIMER_NOT_RUNNING
                | Some (_, e) => mret e
                end) d
    end).

(* src/src/services/timeTracking.service.js:136-146 stopAllRunningTimers *)
Definition stopAllRunningTimers (running : list (string * session)) (endTime : Z) : M nat :=
  transaction (mapM (closeSession endTime) running ≫= λ closed, mret (length (filter is_Some closed))).

Record manual_input := Manual {
  m_task : option string; m_duration : Z; m_description : option string; m_billable : option bool; m_date : option Z
}.

(** The duration is the validated whole minutes. *)
(* src/src/services/timeTracking.service.js:153-168 createManualEntry *)
Definition createManualEntry (user project : string) (data : manual_input) (now : Z) : M entry :=
  let e := Entry user project (m_task data) (m_description data) (m_duration data) (default now (m_date data))
             (default true (m_billable data)) "MANUAL" None in
  insert_entry e ≫= λ _, mret e.

(** The delete's foreign key clears the entry's link. *)
Definition unlink (id : string) (e : entry) : entry :=
  if decide (linked id e) then Entry (e_user e) (e_project e) (e_task e) (e_description e) (e_duration e) (e_date e)
                        (e_billable e) (e_source e) None
  else e.

Definition deletable (id user : string) (d : db) : result timer_error unit :=
  match find_by_id id (owned_by user) (sessions d) with
  | None => Err TIMER_NOT_FOUND
  | Some s => if s_running s then Err TIMER_RUNNING else Ok tt
  end.

(* src/src/services/timeTracking.service.js:248-257 deleteTimeEntry *)
Definition deleteTimeEntry (read : result timer_error unit) (id user : string) : M unit := λ d,
  match read with
  | Err e => (Err e, d)
  | Ok _ =>
      let P := on_id id (λ s, owned_by user s && negb (s_running s)) in
      let count := tcount P (sessions d) in
      let d' := DB (tdelete P (sessions d)) (if (count =? 1)%nat then unlink id <$> entries d else entries d) in
      if (count =? 1)%nat then (Ok tt, d') else (Err TIMER_NOT_FOUND, d')
  end.

(* src/src/services/timeTracking.service.js:262-267 getRunningTimer *)
Definition getRunningTimer (user : string) (d : db) : option (string * session) :=
  head (tselect (running_of user) (sessions d)).

(** ** The books

    What every timer leaves behind: a running one no entry, a stopped one of a
    minute or more exactly its entry, a shorter one none. *)

Definition books (id : string) (s : session) : list entry :=
  match s_running s, s_end s with
  | false, Some t => if 60000 <=? t - s_start s then [entry_for id s (session_minutes (t - s_start s))] else []
  | _, _ => []
  end.

Definition accounted (d : db) (id : string) (s : session) : Prop :=
  filter (linked id) (entries d) = books id s.

Definition one_running (d : db) : Prop := ∀ id1 id2 s1 s2,
  tget (sessions d) id1 = Some s1 → tget (sessions d) id2 = Some s2 →
  s_running s1 = true → s_running s2 = true → s_user s1 = s_user s2 → id1 = id2.

Record sound (d : db) : Prop := Sound {
  sound_running : one_running d;
  sound_books : ∀ id s, tget (sessions d) id = Some s → accounted d id s;
  sound_links : ∀ e id, e ∈ entries d → e_session e = Some id → is_Some (tget (sessions d) id)
}.

(** ** Transactions in flight

    [PStart], [PStop] and [PStopAll] hold what the transaction read. *)

Inductive pending :=
  | PStart (i : start_input) (running : list (string * session))
  | PStop (id user : string) (s : session)
  | PStopAll (running : list (string * session))
  | PDelete (id user : string).

Definition reads (p : pending) : list (string * session) :=
  match p with
  | PStart _ running | PStopAll running => running
  | PStop id _ s => [(id, s)]
  | PDelete _ _ => []
  end.

Record system := Sys { data : db; flight : list pending }.

(** A new session's id is one nobody has seen. *)
Definition fresh (id : string) (s : system) : Prop :=
  tget (sessions (data s)) id = None ∧ ∀ p, p ∈ flight s → id ∉ (reads p).*1.

(** The effect of a transaction that commits at [now], its insert with [id]. *)
Definition commit (p : pending) (now : Z) (id : string) (d : db) : db :=
  match p with
  | PStart i running => (startTimer running i now now id d).2
  | PStop id user s => (stopTimer (Ok s) id now d).2
  | PStopAll running => (stopAllRunningTimers running now d).2
  | PDelete id user => (deleteTimeEntry (Ok tt) id user d).2
  end.

Inductive step : system → system → Prop :=
  | step_start s i : step s (Sys (data s) (flight s ++ [PStart i (tselect (running_of (t_user i)) (sessions (data s)))]))
  | step_stop s id user r : stoppable id user (data s) = Ok r → step s (Sys (data s) (flight s ++ [PStop id user r]))
  | step_stop_all s user : step s (Sys (data s) (flight s ++ [PStopAll (tselect (running_of user) (sessions (data s)))]))
  | step_delete s id user : deletable id user (data s) = Ok tt → step s (Sys (data s) (flight s ++ [PDelete id user]))
  | step_manual s user project m now : step s (Sys (createManualEntry user project m now (data s)).2 (flight s))
  | step_commit s before p after now id : flight s = before ++ p :: after → fresh id s →
      step s (Sys (commit p now id (data s)) (before ++ after)).

Inductive reachable (t0 : T) : system → Prop :=
  | reach_init : (∀ id, tget t0 id = None) → reachable t0 (Sys (DB t0 []) [])
  | reach_step s s' : reachable t0 s → step s s' → reachable t0 s'.

(** A row read earlier that still runs is unchanged. *)
Definition current_read (d : db) (r : string * session) : Prop :=
  ∀ s, tget (sessions d) r.1 = Some s → s_running s = true → s = r.2.

(** No row starts running, and no row appears. *)
Definition no_new_running (d d' : db) : Prop := ∀ id s,
  tget (sessions d') id = Some s →
  tget (sessions d) id = Some s ∨ (s_running s = false ∧ is_Some (tget (sessions d) id)).

Lemma no_new_running_refl d : no_new_running d d.
Proof. intros id s Hs. by left. Qed.
Lemma no_new_running_trans d1 d2 d3 : no_new_running d1 d2 → no_new_running d2 d3 → no_new_running d1 d3.
Proof.
  intros H1 H2 id s [Hs|[Hr [s' Hs]]]%H2; [by apply H1|]. right. split; [done|].
  destruct (H1 id s' Hs) as [?|[_ ?]]; [by eexists|done].
Qed.
Lemma current_read_mono d d' r : no_new_running d d' → current_read d r → current_read d' r.
Proof. intros Hn Hc s [Hs|[? _]]%Hn Hr; [by apply Hc|congruence]. Qed.

(** ** Closing *)

Lemma filter_linked_app id es e :
  filter (linked id) (es ++ [e]) = filter (linked id) es ++ (if decide (linked id e) then [e] else []).
Proof. by rewrite filter_app, filter_cons, filter_nil. Qed.

Lemma insert_entry_fresh id e (d : db) :
  e_session e = Some id → filter (linked id) (entries d) = [] →
  insert_entry e d = (Ok tt, DB (sessions d) (entries d ++ [e])).
Proof.
  intros He Hf. unfold insert_entry.
  assert (existsb (λ e', bool_decide (e_session e' = e_session e)) (entries d) = false) as ->; [|by rewrite andb_false_r].
  rewrite He. apply not_true_iff_false. intros (e' & Hin & Hb)%existsb_exists.
  assert (e' ∈ filter (linked id) (entries d)) as Hin'.
  { apply list_elem_of_filter. split; [by bool_simplify|]. by apply list_elem_of_In. }
  rewrite Hf in Hin'. by apply not_elem_of_nil in Hin'.
Qed.

(** Two databases with the same rows. *)
Definition same_rows (d d' : db) : Prop :=
  (∀ id, tget (sessions d') id = tget (sessions d) id) ∧ entries d' = entries d.

Lemma sound_same_rows d d' : sound d → same_rows d d' → sound d'.
Proof.
  intros [Hone Hbooks Hlinks] [Hs He]. constructor.
  - intros id1 id2 s1 s2. rewrite !Hs. apply Hone.
  - intros id s. rewrite Hs. intros Hid. unfold accounted. rewrite He. by apply Hbooks.
  - intros e id. rewrite He, Hs. apply Hlinks.
Qed.
Lemma no_new_running_same_rows d d' : same_rows d d' → no_new_running d d'.
Proof. intros [Hs _] id s. rewrite Hs. by left. Qed.

(** The row is gone or stopped: nothing is written. *)
Lemma closeSession_gone t id s (d : db) :
  (∀ r, tget (sessions d) id = Some r → owned_by (s_user s) r && s_running r = false) →
  ∃ d', closeSession t (id, s) d = (Ok None, d') ∧ same_rows d d'.
Proof.
  intros Hg. unfold closeSession, update_many. cbv beta iota zeta. rewrite tcount_on_id.
  eexists. split.
  - destruct (tget (sessions d) id) as [r|] eqn:Er; [by rewrite (Hg r)|done].
  - split; [|done]. intros k. cbn. apply tget_update_ne. intros r Hk. unfold on_id.
    destruct (decide (k = id)) as [->|]; [|by rewrite bool_decide_neq]. by rewrite bool_decide_refl, (Hg r).
Qed.

(** The row runs as it was read: it is stopped, and its books are made. *)
Lemma closeSession_closes t id s (d : db) :
  sound d → tget (sessions d) id = Some s → s_running s = true →
  ∃ o d', closeSession t (id, s) d = (Ok (Some o), d') ∧
    (∀ k, tget (sessions d') k = if decide (k = id) then Some (stopped t (session_minutes (t - s_start s)) s) else tget (sessions d) k) ∧
    entries d' = entries d ++ books id (stopped t (session_minutes (t - s_start s)) s) ∧
    o = (session_minutes (t - s_start s), head (books id (stopped t (session_minutes (t - s_start s)) s))).
Proof.
  intros [Hone Hbooks Hlinks] Hid Hr. unfold closeSession, update_many. cbv beta iota zeta.
  rewrite tcount_on_id, Hid. unfold owned_by at 1. rewrite bool_decide_refl, Hr. cbn [andb negb Nat.eqb].
  set (d1 := DB (tupdate _ _ _) _). unfold books. cbn [s_running s_end stopped s_start].
  assert (∀ k, tget (sessions d1) k = if decide (k = id) then Some (stopped t (session_minutes (t - s_start s)) s) else tget (sessions d) k) as Hrows.
  { intros k. unfold d1. cbn. rewrite tget_update_on_id. case_decide; [|done]. rewrite Hid. cbn.
    unfold owned_by. by rewrite bool_decide_refl, Hr. }
  destruct (60000 <=? t - s_start s).
  - unfold mbind, eff_bind. rewrite (insert_entry_fresh id); [|done|].
    + eexists _, _. split; [done|]. cbn. split_and!; try done.
    + pose proof (Hbooks id s Hid) as Hb. unfold accounted, books in Hb. by rewrite Hr in Hb.
  - eexists _, _. split; [done|]. cbn. rewrite app_nil_r. by split_and!.
Qed.

Lemma books_linked id s k : filter (linked k) (books id s) = if decide (k = id) then books id s else [].
Proof.
  unfold books. destruct (s_running s), (s_end s) as [t|]; try by case_decide.
  destruct (60000 <=? t - s_start s); [|by case_decide]. rewrite filter_cons, filter_nil. unfold linked, entry_for; cbn.
  repeat case_decide; simplify_eq/=; done.
Qed.

(** A claim, whatever was read: the books stay right, and no timer of the
    session's owner with that id runs. *)
Lemma closeSession_sound t id s (d : db) :
  sound d → current_read d (id, s) →
  ∃ o d', closeSession t (id, s) d = (Ok o, d') ∧ sound d' ∧ no_new_running d d' ∧
    (∀ r, tget (sessions d') id = Some r → s_user r = s_user s → s_running r = false).
Proof.
  intros Hsound Hc.
  destruct (tget (sessions d) id) as [r|] eqn:Er; [destruct (owned_by (s_user s) r && s_running r) eqn:Eo|].
  - apply andb_true_iff' in Eo as [_ Hr]. pose proof (Hc r Er Hr) as E. cbn in E. subst r.
    destruct (closeSession_closes t id s d Hsound Er Hr) as (o & d' & Hclose & Hrows & Hes & _).
    exists (Some o), d'. destruct Hsound as [Hone Hbooks Hlinks]. split_and!; [done| | |].
    + constructor.
      * intros id1 id2 s1 s2. rewrite !Hrows. do 2 case_decide; intros; simplify_eq/=; eauto.
      * intros k r. rewrite Hrows. unfold accounted. rewrite Hes, filter_app, books_linked. case_decide as E.
        -- subst k. intros [= <-]. specialize (Hbooks id s Er). unfold accounted, books in Hbooks.
           rewrite Hr in Hbooks. by rewrite Hbooks.
        -- intros Hk. rewrite app_nil_r. by apply Hbooks.
      * intros e k. rewrite Hes, Hrows. intros [Hin|Hin]%elem_of_app He; case_decide; eauto.
        unfold books in Hin. cbn in Hin. destruct (60000 <=? t - s_start s); [|by apply not_elem_of_nil in Hin].
        apply list_elem_of_singleton in Hin as ->. cbn in He. congruence.
    + intros k r. rewrite Hrows. case_decide as E; [|by left]. subst k. intros [= <-]. right. by rewrite Er.
    + intros r. rewrite Hrows. rewrite decide_True by done. by intros [= <-].
  - destruct (closeSession_gone t id s d) as (d' & Hclose & Hsame); [intros ? ?; by simplify_eq|].
    exists None, d'. split_and!; [done|by eapply sound_same_rows|by apply no_new_running_same_rows|].
    intros r'. destruct Hsame as [-> _]. rewrite Er. intros E Hu. simplify_eq.
    unfold owned_by in Eo. by rewrite Hu, bool_decide_refl in Eo.
  - destruct (closeSession_gone t id s d) as (d' & Hclose & Hsame); [congruence|].
    exists None, d'. split_and!; [done|by eapply sound_same_rows|by apply no_new_running_same_rows|].
    intros r'. destruct Hsame as [-> _]. congruence.
Qed.

Lemma closeAll_sound t l : ∀ (d : db),
  sound d → Forall (current_read d) l →
  ∃ os d', mapM (closeSession t) l d = (Ok os, d') ∧ sound d' ∧ no_new_running d d' ∧
    (∀ id s r, (id, s) ∈ l → tget (sessions d') id = Some r → s_user r = s_user s → s_running r = false).
Proof.
  induction l as [|[id s] l IH]; intros d Hd Hl.
  { exists [], d. split_and!; [done|done|apply no_new_running_refl|]. intros ? ? ? Hin. by apply not_elem_of_nil in Hin. }
  inversion Hl as [|? ? Hc Hl']; subst.
  destruct (closeSession_sound t id s d Hd Hc) as (o & d1 & H1 & Hd1 & Hn1 & Hstop).
  destruct (IH d1 Hd1) as (os & d' & H2 & Hd' & Hn2 & Hstops).
  { eapply Forall_impl; [exact Hl'|]. intros r. by apply current_read_mono. }
  exists (o :: os), d'. split_and!; [|done|by eapply no_new_running_trans|].
  - cbn [mapM]. rewrite (eff_bind_run _ _ _ _ _ H1). by rewrite (eff_bind_run _ _ _ _ _ H2).
  - intros id' s' r [[= -> ->]|Hin]%elem_of_cons Hr Hu; [|by eapply Hstops].
    destruct (Hn2 id r Hr) as [Hr1|[? _]]; [by eapply Hstop|done].
Qed.

(** ** Each operation keeps the books *)

Lemma insert_session_sound id s (d : db) :
  sound d → tget (sessions d) id = None → s_running s = true →
  match insert_session id s d with
  | (Ok _, d') => sound d' ∧ sessions d' = tinsert id s (sessions d) ∧ entries d' = entries d
  | (Err e, d') => e = UniqueViolation ∧ d' = d ∧
      ∃ id' s', tget (sessions d) id' = Some s' ∧ s_running s' = true ∧ s_user s' = s_user s
  end.
Proof.
  intros [Hone Hbooks Hlinks] Hnew Hr. unfold insert_session. rewrite Hr. cbn [andb].
  destruct (Nat.ltb_spec 0 (tcount (running_of (s_user s)) (sessions d))) as [Hc|Hc].
  - split_and!; [done|done|]. apply tcount_pos in Hc as (id' & s' & Hs' & Hp). unfold running_of in Hp. bool_simplify.
    by exists id', s'.
  - assert (tcount (running_of (s_user s)) (sessions d) = 0%nat) as Hz by lia.
    rewrite tcount_zero in Hz. unfold running_of in Hz.
    assert (∀ k r, tget (sessions d) k = Some r → s_user r = s_user s → s_running r = false) as Hnone.
    { intros k r Hk Hu. specialize (Hz k r Hk). by rewrite Hu, bool_decide_refl in Hz. }
    split_and!; [|done|done]. constructor; cbn.
    + intros id1 id2 s1 s2. cbn. rewrite !tget_insert. do 2 case_decide; intros; simplify_eq; eauto; exfalso.
      * assert (s_running s2 = false) by (eapply Hnone; eauto). congruence.
      * assert (s_running s1 = false) by (eapply Hnone; eauto). congruence.
    + intros k r. rewrite tget_insert. case_decide as E; [|by apply Hbooks]. subst k. intros [= <-].
      unfold accounted, books. cbn. rewrite Hr. apply elem_of_nil_inv. intros e [Hl He]%list_elem_of_filter.
      destruct (Hlinks e id He Hl) as [? ?]. congruence.
    + intros e k He Hl. rewrite tget_insert. case_decide; eauto.
Qed.

Lemma startTimer_sound running i t now id (d : db) :
  sound d → Forall (current_read d) running → tget (sessions d) id = None →
  match startTimer running i t now id d with
  | (Ok s, d') => s = new_session i now ∧ sound d' ∧ tget (sessions d') id = Some s ∧
      (∀ k, k ≠ id → is_Some (tget (sessions d') k) → is_Some (tget (sessions d) k)) ∧
      (∀ k r, k ≠ id → tget (sessions d') k = Some r → s_running r = true → tget (sessions d) k = Some r ∧ s_user r ≠ t_user i)
  | (Err e, d') => e = TIMER_ALREADY_RUNNING ∧ d' = d ∧
      ∃ id' s', tget (sessions d) id' = Some s' ∧ s_running s' = true ∧ s_user s' = t_user i ∧
        ∀ s, (id', s) ∈ running → s_user s ≠ t_user i
  end.
Proof.
  intros Hd Hc Hnew. destruct (closeAll_sound t running d Hd Hc) as (os & d1 & H1 & Hd1 & Hn & Hstop).
  assert (tget (sessions d1) id = None) as Hnew1.
  { destruct (tget (sessions d1) id) as [s|] eqn:E; [|done]. destruct (Hn id s E) as [?|[_ [? ?]]]; congruence. }
  pose proof (insert_session_sound id (new_session i now) d1 Hd1 Hnew1 eq_refl) as Hi.
  unfold startTimer, transaction. rewrite (eff_bind_run _ _ _ _ _ H1).
  destruct (insert_session id (new_session i now) d1) as [[[]|e] d2] eqn:E2.
  - destruct Hi as (Hd2 & Hs2 & He2). split_and!; [done|done|by rewrite Hs2, tget_insert_eq| |].
    + intros k Hk [r Hr]. rewrite Hs2, tget_insert_ne in Hr by done. destruct (Hn k r Hr) as [?|[_ ?]]; [by eexists|done].
    + intros k r Hk Hr Hrun. rewrite Hs2, tget_insert_ne in Hr by done. split.
      * destruct (Hn k r Hr) as [?|[? _]]; [done|congruence].
      * intros Hu. apply Hk. eapply (sound_running d2 Hd2 k id r (new_session i now)); rewrite ?Hs2; try done.
        -- by rewrite tget_insert_ne.
        -- by rewrite tget_insert_eq.
  - destruct Hi as (-> & _ & id' & s' & Hs' & Hr' & Hu'). split_and!; [done|done|]. exists id', s'.
    destruct (Hn id' s' Hs') as [Hold|[? _]]; [|congruence]. split_and!; [done..|].
    intros s Hin Hs. assert (s_running s' = false) by (eapply Hstop; [exact Hin|exact Hs'|cbn in Hu'; congruence]). congruence.
Qed.

Lemma stopTimer_sound id now s (d : db) :
  sound d → current_read d (id, s) →
  sound (stopTimer (Ok s) id now d).2 ∧ no_new_running d (stopTimer (Ok s) id now d).2.
Proof.
  intros Hd Hc. destruct (closeSession_sound now id s d Hd Hc) as (o & d' & H1 & Hd' & Hn & _).
  unfold stopTimer, transaction. rewrite (eff_bind_run _ _ _ _ _ H1).
  destruct o as [[? ?]|]; [done|]. split; [done|apply no_new_running_refl].
Qed.

Lemma stopAll_sound running now (d : db) :
  sound d → Forall (current_read d) running →
  sound (stopAllRunningTimers running now d).2 ∧ no_new_running d (stopAllRunningTimers running now d).2.
Proof.
  intros Hd Hc. destruct (closeAll_sound now running d Hd Hc) as (os & d' & H1 & Hd' & Hn & _).
  unfold stopAllRunningTimers, transaction. by rewrite (eff_bind_run _ _ _ _ _ H1).
Qed.

Lemma unlink_other id k e : k ≠ id → linked k (unlink id e) ↔ linked k e.
Proof. intros Hk. unfold unlink, linked. case_decide as E; [|done]. cbn. split; [done|congruence]. Qed.

Lemma filter_unlink id k (es : list entry) :
  k ≠ id → filter (linked k) (unlink id <$> es) = filter (linked k) es.
Proof.
  intros Hk. induction es as [|e es IH]; [done|]. rewrite fmap_cons, !filter_cons, IH.
  pose proof (unlink_other id k e Hk) as Hiff. do 2 case_decide; try tauto. f_equal.
  unfold unlink. case_decide as E; [|done]. unfold linked in *. congruence.
Qed.

Lemma deleteTimeEntry_sound id user (d : db) :
  sound d → sound (deleteTimeEntry (Ok tt) id user d).2 ∧ no_new_running d (deleteTimeEntry (Ok tt) id user d).2.
Proof.
  intros Hd. unfold deleteTimeEntry. set (P := on_id id _). set (d' := DB _ _).
  assert (∀ k r, tget (sessions d') k = Some r → tget (sessions d) k = Some r ∧ P k r = false) as Hsub.
  { intros k r. unfold d'. cbn. rewrite tget_delete. destruct (tget (sessions d) k) as [r'|]; [|done]. cbn.
    destruct (P k r') eqn:E; intros; simplify_eq; done. }
  assert (no_new_running d d') as Hn by (intros k r Hk; left; by apply Hsub).
  assert (sound d') as Hs; [|by destruct (tcount P (sessions d) =? 1)%nat].
  destruct Hd as [Hone Hbooks Hlinks]. constructor.
  - intros id1 id2 s1 s2 [H1 _]%Hsub [H2 _]%Hsub. by apply Hone.
  - intros k r Hk. pose proof (Hsub k r Hk) as [Hk' HP]. unfold accounted, d'. cbn.
    destruct (Nat.eqb_spec (tcount P (sessions d)) 1) as [Hc|]; [|by apply Hbooks].
    apply tcount_on_id_1 in Hc as (r' & Hr' & HQ). rewrite filter_unlink; [by apply Hbooks|].
    intros ->. simplify_eq. unfold P, on_id in HP. by rewrite bool_decide_refl, HQ in HP.
  - intros e k He Hl. unfold d' in *. cbn in *. rewrite tget_delete.
    destruct (Nat.eqb_spec (tcount P (sessions d)) 1) as [Hc|Hc].
    + apply list_elem_of_fmap in He as (e0 & -> & He0). unfold unlink in Hl. case_decide as E; [done|].
      destruct (Hlinks e0 k He0 Hl) as [r Hr]. rewrite Hr. cbn. destruct (P k r) eqn:HP; [|by eexists].
      unfold P, on_id in HP. bool_simplify. by destruct E.
    + destruct (Hlinks e k He Hl) as [r Hr]. rewrite Hr. cbn. destruct (P k r) eqn:HP; [|by eexists].
      exfalso. apply Hc. apply tcount_on_id_1. unfold P, on_id in HP. apply andb_true_iff' in HP as [Hk HQ].
      apply bool_decide_eq_true in Hk as ->. by exists r.
Qed.

Lemma createManualEntry_sound user project m now (d : db) :
  sound d → sound (createManualEntry user project m now d).2 ∧ sessions (createManualEntry user project m now d).2 = sessions d.
Proof.
  intros [Hone Hbooks Hlinks]. unfold createManualEntry, insert_entry, mbind, eff_bind. cbn [e_session].
  rewrite bool_decide_eq_false_2 by (intros [? [=]]). cbn. split; [|done].
  constructor; [exact Hone| |].
  - intros k r Hk. unfold accounted. cbn. rewrite filter_linked_app. rewrite decide_False by done.
    rewrite app_nil_r. by apply Hbooks.
  - intros e k [Hin| ->%list_elem_of_singleton]%elem_of_app Hl; [|done]. by eapply Hlinks.
Qed.

(** ** Every interleaving *)

Record sys_inv (s : system) : Prop := SysInv {
  inv_sound : sound (data s);
  inv_reads : ∀ p, p ∈ flight s → Forall (current_read (data s)) (reads p)
}.

Lemma sys_inv_keep s d' l :
  sys_inv s → (∀ p, p ∈ l → p ∈ flight s) → sound d' → no_new_running (data s) d' → sys_inv (Sys d' l).
Proof.
  intros [_ Hr] Hl Hd Hn. constructor; cbn; [done|]. intros p Hp.
  eapply Forall_impl; [by apply Hr, Hl|]. intros r. by apply current_read_mono.
Qed.

Lemma sys_inv_add s p :
  sys_inv s → (∀ id r, (id, r) ∈ reads p → tget (sessions (data s)) id = Some r) → sys_inv (Sys (data s) (flight s ++ [p])).
Proof.
  intros [Hd Hr] Hp. constructor; cbn; [done|]. intros q [Hq| ->%list_elem_of_singleton]%elem_of_app; [by apply Hr|].
  apply Forall_forall. intros [id r] Hin r' Hr' _. specialize (Hp id r Hin). cbn in *. congruence.
Qed.

Lemma tselect_reads (P : string → session → bool) (d : db) id r :
  (id, r) ∈ tselect P (sessions d) → tget (sessions d) id = Some r.
Proof. by intros [? _]%tselect_spec. Qed.

Lemma commit_inv s before p after now id :
  sys_inv s → flight s = before ++ p :: after → fresh id s → sys_inv (Sys (commit p now id (data s)) (before ++ after)).
Proof.
  intros Hs Hf [Hnew Hfresh]. pose proof Hs as [Hd Hr].
  assert (p ∈ flight s) as Hp by (rewrite Hf; apply elem_of_app; right; left).
  assert (∀ q, q ∈ before ++ after → q ∈ flight s) as Hsub.
  { intros q. rewrite Hf, !elem_of_app, elem_of_cons. tauto. }
  specialize (Hr p Hp). destruct p as [i running|id' user r|running|id' user]; cbn [commit].
  2:{ apply Forall_cons in Hr as [Hc _]. destruct (stopTimer_sound id' now r (data s) Hd Hc). by apply (sys_inv_keep s). }
  2:{ destruct (stopAll_sound running now (data s) Hd Hr). by apply (sys_inv_keep s). }
  2:{ destruct (deleteTimeEntry_sound id' user (data s) Hd). by apply (sys_inv_keep s). }
  pose proof (startTimer_sound running i now now id (data s) Hd Hr Hnew) as H1.
  destruct (startTimer running i now now id (data s)) as [[n|e] d'].
  - destruct H1 as (_ & Hd' & _ & _ & Hold). constructor; [done|]. intros q Hq. apply Forall_forall. intros [k r] Hin r' Hr' Hrun.
    cbn in Hr'. assert (k ≠ id) as Hk.
    { intros ->. apply (Hfresh q (Hsub q Hq)). apply list_elem_of_fmap. by exists (id, r). }
    destruct (Hold k r' Hk Hr' Hrun) as [Hk' _].
    pose proof (inv_reads s Hs q (Hsub q Hq)) as Hall. rewrite Forall_forall in Hall. by apply (Hall (k, r)).
  - destruct H1 as (_ & -> & _). apply (sys_inv_keep s); [done|done|done|apply no_new_running_refl].
Qed.

Lemma step_inv s s' : sys_inv s → step s s' → sys_inv s'.
Proof.
  intros Hs Hstep. destruct Hstep as [s i|s id user r Hr|s user|s id user _|s user project m now|s before p after now id Hf Hfresh].
  - apply sys_inv_add; [done|]. intros id r. apply tselect_reads.
  - apply sys_inv_add; [done|]. intros k q [= -> ->]%list_elem_of_singleton. unfold stoppable in Hr.
    destruct (find_by_id id (owned_by user) (sessions (data s))) as [r'|] eqn:E; [|done].
    apply find_by_id_Some in E as [E _]. destruct (s_running r'); by simplify_eq.
  - apply sys_inv_add; [done|]. intros id r. apply tselect_reads.
  - apply sys_inv_add; [done|]. intros k q Hin. by apply not_elem_of_nil in Hin.
  - destruct (createManualEntry_sound user project m now (data s)) as [Hd He]; [apply Hs|].
    apply (sys_inv_keep s); [done|done|done|]. intros k r. rewrite He. by left.
  - by apply commit_inv.
Qed.

Lemma timers_inv t0 s : reachable t0 s → sys_inv s.
Proof.
  induction 1 as [Hempty|s s' _ IH Hstep]; [|by eapply step_inv].
  constructor; cbn; [|intros p Hp; by apply not_elem_of_nil in Hp]. constructor; cbn.
  - intros id1 id2 s1 s2 H1. cbn in H1. congruence.
  - intros id s Hid. cbn in Hid. congruence.
  - intros e id He. by apply not_elem_of_nil in He.
Qed.

Lemma books_bounds id s e : e ∈ books id s → s_running s = false ∧ 1 ≤ e_duration e ≤ MAX_TIME_ENTRY_MINUTES ∧ e_user e = s_user s.
Proof.
  unfold books. destruct (s_running s), (s_end s) as [t|]; try by intros ?%not_elem_of_nil.
  destruct (60000 <=? t - s_start s) eqn:E; [|by intros ?%not_elem_of_nil].
  intros ->%list_elem_of_singleton. unfold entry_for, session_minutes, MAX_TIME_ENTRY_MINUTES. rewrite E. cbn.
  split_and!; [done|lia|lia|done].
Qed.

(** C12 (invariant): whatever starts, stops, bulk stops, deletions and manual
    entries are in flight at once - each acting on rows it read before others
    committed - a user never has two running timers; a running timer has no
    time entry, a stopped one of a minute or more has exactly its own entry and
    a shorter one none; and every entry recorded from a timer belongs to a
    stopped timer of the same user and counts between 1 and 1440 minutes. *)
Theorem timers_accounted t0 s :
  reachable t0 s →
  one_running (data s) ∧
  (∀ id r, tget (sessions (data s)) id = Some r → filter (linked id) (entries (data s)) = books id r) ∧
  (∀ e id, e ∈ entries (data s) → e_session e = Some id →
     ∃ r, tget (sessions (data s)) id = Some r ∧ s_running r = false ∧ e_user e = s_user r ∧
       1 ≤ e_duration e ≤ MAX_TIME_ENTRY_MINUTES).
Proof.
  intros [[Hone Hbooks Hlinks] _]%timers_inv. split_and!; [done|done|].
  intros e id He Hl. destruct (Hlinks e id He Hl) as [r Hr]. exists r. specialize (Hbooks id r Hr).
  assert (e ∈ books id r) as Hin by (rewrite <- Hbooks; by apply list_elem_of_filter).
  destruct (books_bounds id r e Hin) as (? & ? & ?). done.
Qed.

(** Starting a timer switches to it.  Whatever it had read,
    a start that succeeds leaves the new timer as the user's only running one;
    it answers 409, changing nothing, only when a timer it had not read is
    running; and a start no other transaction overtakes always succeeds. *)
Lemma startTimer_switches running i t now id (d : db) :
  sound d → Forall (current_read d) running → tget (sessions d) id = None →
  (match startTimer running i t now id d with
   | (Ok s, d') => s = new_session i now ∧ tselect (running_of (t_user i)) (sessions d') = [(id, s)]
   | (Err e, d') => e = TIMER_ALREADY_RUNNING ∧ d' = d ∧
       ∃ id' s', (id', s') ∈ tselect (running_of (t_user i)) (sessions d) ∧ (id', s') ∉ running
   end) ∧
  (running = tselect (running_of (t_user i)) (sessions d) → is_ok (startTimer running i t now id d).1 = true).
Proof.
  intros Hd Hc Hnew. pose proof (startTimer_sound running i t now id d Hd Hc Hnew) as H1.
  destruct (startTimer running i t now id d) as [[s|e] d'].
  - split; [|done]. destruct H1 as (-> & Hd' & Hid & _ & Hold). split; [done|].
    assert (∀ kr, kr ∈ tselect (running_of (t_user i)) (sessions d') ↔ kr = (id, new_session i now)) as Hel.
    { intros [k r]. rewrite tselect_spec. unfold running_of. split.
      - intros [Hk Hp]. bool_simplify. destruct (decide (k = id)) as [->|Hne]; [congruence|].
        by destruct (Hold k r Hne Hk) as [_ []].
      - intros [= -> ->]. cbn. by rewrite bool_decide_refl. }
    pose proof (tselect_nodup (running_of (t_user i)) (sessions d')) as Hnd. apply NoDup_fmap_1 in Hnd.
    destruct (tselect _ _) as [|x [|y l]]; [exfalso|f_equal; apply Hel; left|exfalso].
    + by apply (not_elem_of_nil (id, new_session i now)), Hel.
    + assert (x = (id, new_session i now)) by (apply Hel; left). assert (y = (id, new_session i now)) by (apply Hel; right; left).
      subst. apply NoDup_cons in Hnd as [Hnin _]. apply Hnin. left.
  - destruct H1 as (-> & -> & id' & s' & Hs' & Hr' & Hu' & Hnin).
    assert ((id', s') ∈ tselect (running_of (t_user i)) (sessions d)) as Hin.
    { apply tselect_spec. split; [done|]. unfold running_of. by rewrite Hu', bool_decide_refl. }
    split.
    + split_and!; [done|done|]. exists id', s'. split; [done|]. intros Hin'. by apply (Hnin s' Hin').
    + intros ->. by destruct (Hnin s' Hin).
Qed.

End timers.

(** ** Summaries *)

Record filters := Filters {
  f_project : option string; f_startDate : option Z; f_endDate : option Z; f_portfolio : option string
}.
Record project_totals := Totals { t_minutes : Z; t_billable : Z }.
(** A group of [groupBy(['projectId', 'billable'])]: its key and its sum. *)
Record time_group := Group { g_project : string; g_billable : bool; g_minutes : Z }.
Record project_summary := PSummary { ps_id : string; ps_name : option string; ps_totals : project_totals; ps_entries : list entry }.
Record summary := Summary {
  totalMinutes : Z; totalHours : num; billableMinutes : Z; billableHours : num; nonBillableMinutes : Z;
  entryCount : nat; listed : list entry; entriesTruncated : bool; byProject : list project_summary
}.

(* src/src/services/timeTracking.service.js:174-174 SUMMARY_ENTRY_LIMIT *)
Definition SUMMARY_ENTRY_LIMIT : nat := 100.

Definition minutes (l : list entry) : Z := foldr (λ e acc, e_duration e + acc) 0 l.
Definition group_key (e : entry) : string * bool := (e_project e, e_billable e).
Definition of_key (k : string * bool) (l : list entry) : list entry := filter (λ e, group_key e = k) l.

Arguments minutes : simpl never.
Arguments of_key : simpl never.

(** The database's grouped sums, one per key present. *)
Definition group_by (rows : list entry) : list time_group :=
  (λ k, Group k.1 k.2 (minutes (of_key k rows))) <$> unique (group_key <$> rows).

(** [Map.prototype.set]: in place, or appended. *)
Fixpoint map_set (k : string) (v : project_totals) (m : list (string * project_totals)) : list (string * project_totals) :=
  match m with
  | [] => [(k, v)]
  | (k', v') :: m => if decide (k' = k) then (k, v) :: m else (k', v') :: map_set k v m
  end.
Fixpoint map_get (k : string) (m : list (string * project_totals)) : option project_totals :=
  match m with
  | [] => None
  | (k', v') :: m => if decide (k' = k) then Some v' else map_get k m
  end.

(** One turn of the loop over the groups: the totals so far and the map. *)
Definition add_group (acc : project_totals * list (string * project_totals)) (g : time_group) :=
  let '(all, m) := acc in
  let add (t : project_totals) := Totals (t_minutes t + g_minutes g) (t_billable t + if g_billable g then g_minutes g else 0) in
  (add all, map_set (g_project g) (add (default (Totals 0 0) (map_get (g_project g) m))) m).

Section summaries.
(** The project table: its portfolio, and the name a caller may see. *)
Context (portfolio_of : string → option string) (project_name : string → option string).

Definition summary_where (user : string) (f : filters) (e : entry) : bool :=
  bool_decide (e_user e = user) &&
  match f_project f with Some p => bool_decide (e_project e = p) | None => true end &&
  match f_startDate f with Some t => t <=? e_date e | None => true end &&
  match f_endDate f with Some t => e_date e <=? t | None => true end &&
  match f_portfolio f with
  | Some "UNCLASSIFIED" => bool_decide (portfolio_of (e_project e) = None)
  | Some p => bool_decide (portfolio_of (e_project e) = Some p)
  | None => true
  end.

(** [Math.round(minutes / 60 * 100) / 100] *)
Definition hours (m : Z) : num := div (round (mul (div (of_Z m) (of_Z 60)) Money.hundred)) Money.hundred.

(* src/src/services/timeTracking.service.js:176-242 getTimeSummary *)
Definition getTimeSummary (user : string) (f : filters) (es : list entry) : summary :=
  let rows := List.filter (summary_where user f) es in
  let recentEntries := take SUMMARY_ENTRY_LIMIT (isort (λ a b, e_date b <=? e_date a) rows) in
  let '(all, projectTotals) := foldl add_group (Totals 0 0, []) (group_by rows) in
  Summary (t_minutes all) (hours (t_minutes all)) (t_billable all) (hours (t_billable all))
    (t_minutes all - t_billable all) (length rows) recentEntries (length recentEntries <? length rows)%nat
    ((λ kt, PSummary kt.1 (project_name kt.1) kt.2 (List.filter (λ e, bool_decide (e_project e = kt.1)) recentEntries)) <$> projectTotals).
End summaries.

(** ** The summary adds up *)

Definition group_sum (P : time_group → bool) (gs : list time_group) : Z :=
  foldr (λ g acc, (if P g then g_minutes g else 0) + acc) 0 gs.

Lemma group_sum_app P gs hs : group_sum P (gs ++ hs) = group_sum P gs + group_sum P hs.
Proof. induction gs as [|g gs IH]; [done|]. cbn. fold (group_sum P (gs ++ hs)). rewrite IH. unfold group_sum. lia. Qed.

(** A row is counted in the one group of its key. *)
Lemma minutes_of_key e k rows : minutes (of_key k (e :: rows)) = (if decide (group_key e = k) then e_duration e else 0) + minutes (of_key k rows).
Proof. unfold of_key. rewrite filter_cons. by case_decide. Qed.

Lemma sum_by_key (P : string * bool → bool) (keys : list (string * bool)) rows :
  NoDup keys → (∀ e, e ∈ rows → group_key e ∈ keys) →
  foldr (λ k acc, (if P k then minutes (of_key k rows) else 0) + acc) 0 keys =
  minutes (List.filter (λ e, P (group_key e)) rows).
Proof.
  intros Hnd. induction rows as [|e rows IH]; intros Hin.
  - clear. induction keys as [|k ks IH]; [done|]. cbn in *. rewrite IH. by destruct (P k).
  - assert (foldr (λ k acc, (if P k then minutes (of_key k (e :: rows)) else 0) + acc) 0 keys =
      (if P (group_key e) then e_duration e else 0) + foldr (λ k acc, (if P k then minutes (of_key k rows) else 0) + acc) 0 keys) as ->.
    { specialize (Hin e ltac:(left)). clear IH. revert Hin. induction Hnd as [|k ks Hk Hnd IHk]; intros Hin; [by apply not_elem_of_nil in Hin|].
      cbn. rewrite minutes_of_key. destruct (decide (group_key e = k)) as [<-|Hne].
      - assert (∀ l, group_key e ∉ l → foldr (λ k acc, (if P k then minutes (of_key k (e :: rows)) else 0) + acc) 0 l =
          foldr (λ k acc, (if P k then minutes (of_key k rows) else 0) + acc) 0 l) as Hl.
        { clear. induction l as [|k l IH]; intros Hk; [done|]. apply not_elem_of_cons in Hk as [Hk Hl]. cbn.
          rewrite IH by done. rewrite minutes_of_key. case_decide; [congruence|]. done. }
        rewrite Hl by done. destruct (P (group_key e)); lia.
      - apply elem_of_cons in Hin as [?|Hin]; [congruence|]. rewrite IHk by done. destruct (P k), (P (group_key e)); lia. }
    rewrite IH by (intros; apply Hin; by right). cbn. by destruct (P (group_key e)).
Qed.

Lemma group_by_sum (P : string → bool → bool) rows :
  group_sum (λ g, P (g_project g) (g_billable g)) (group_by rows) = minutes (List.filter (λ e, P (e_project e) (e_billable e)) rows).
Proof.
  etransitivity; [|apply (sum_by_key (λ k, P k.1 k.2) (unique (group_key <$> rows)) rows)].
  - unfold group_by. induction (unique (group_key <$> rows)) as [|k ks IH]; [done|]. cbn. by rewrite <- IH.
  - apply NoDup_unique.
  - intros e He. apply elem_of_unique, list_elem_of_fmap. by exists e.
Qed.

(** The map of the loop, against the sums it should hold. *)
Lemma map_get_set k v m k' : map_get k' (map_set k v m) = if decide (k = k') then Some v else map_get k' m.
Proof.
  induction m as [|[k1 v1] m IH]; cbn; [done|]. repeat (case_decide; cbn; subst; try done).
Qed.
Lemma map_set_keys k v m x : x ∈ (map_set k v m).*1 ↔ x = k ∨ x ∈ m.*1.
Proof.
  induction m as [|[k1 v1] m IH]; cbn; [set_solver|]. case_decide as E; subst; cbn; rewrite ?fmap_cons, !elem_of_cons; [tauto|].
  rewrite IH. tauto.
Qed.
Lemma map_set_nodup k v m : NoDup m.*1 → NoDup (map_set k v m).*1.
Proof.
  induction m as [|[k1 v1] m IH]; cbn; intros Hm; [by apply NoDup_singleton|]. apply NoDup_cons in Hm as [H1 H2].
  case_decide as E; subst; cbn; [by constructor|]. constructor; [|by apply IH]. rewrite map_set_keys. intros [?|?]; congruence.
Qed.
Lemma map_get_Some k t m : NoDup m.*1 → (k, t) ∈ m → map_get k m = Some t.
Proof.
  induction m as [|[k1 v1] m IH]; cbn; intros Hm Hin; [by apply not_elem_of_nil in Hin|]. apply NoDup_cons in Hm as [H1 H2].
  apply elem_of_cons in Hin as [[= -> ->]|Hin]; [by rewrite decide_True|]. case_decide as E; [|by apply IH].
  subst. destruct H1. apply list_elem_of_fmap. by exists (k, t).
Qed.

Lemma add_groups gs :
  let '(all, m) := foldl add_group (Totals 0 0, []) gs in
  t_minutes all = group_sum (λ _, true) gs ∧ t_billable all = group_sum g_billable gs ∧ NoDup m.*1 ∧
  (∀ g, g ∈ gs → g_project g ∈ m.*1) ∧
  ∀ k, let t := default (Totals 0 0) (map_get k m) in
    t_minutes t = group_sum (λ g, bool_decide (g_project g = k)) gs ∧
    t_billable t = group_sum (λ g, bool_decide (g_project g = k) && g_billable g) gs.
Proof.
  induction gs as [|g gs IH] using rev_ind.
  { cbn. split_and!; [done|done|constructor| |done]. intros g Hg. by apply not_elem_of_nil in Hg. }
  rewrite foldl_app. destruct (foldl add_group _ gs) as [all m]. destruct IH as (H1 & H2 & Hnd & Hin & Hget).
  cbn [foldl add_group]. rewrite !group_sum_app. cbn [t_minutes t_billable]. split_and!.
  - rewrite H1. cbn. lia.
  - rewrite H2. cbn. lia.
  - by apply map_set_nodup.
  - intros g' [Hg| ->%list_elem_of_singleton]%elem_of_app; apply map_set_keys; auto.
  - intros k. rewrite map_get_set, !group_sum_app. cbn [group_sum foldr].
    destruct (Hget k) as [Hm Hb]. destruct (decide (g_project g = k)) as [<-|E].
    + cbn [default t_minutes t_billable]. change (λ x : project_totals, x) with (@id project_totals) in *. unfold id in *. cbn [t_minutes t_billable]. rewrite Hm, Hb, bool_decide_refl. cbn. lia.
    + rewrite Hm, Hb, bool_decide_neq by done. cbn. lia.
Qed.

(** A time summary adds up.  Its totals, computed from
    grouped sums over a page-limited listing, are those of adding up the
    matching entries one by one: total, billable and the rest, and the same for
    each project; every project with time appears once; and at most a hundred
    entries are listed, marked truncated exactly when there are more. *)
Lemma getTimeSummary_adds_up portfolio_of project_name user f es :
  let rows := List.filter (summary_where portfolio_of user f) es in
  let r := getTimeSummary portfolio_of project_name user f es in
  totalMinutes r = minutes rows ∧
  billableMinutes r = minutes (List.filter e_billable rows) ∧
  nonBillableMinutes r = minutes (List.filter (λ e, negb (e_billable e)) rows) ∧
  NoDup (ps_id <$> byProject r) ∧ (∀ e, e ∈ rows → e_project e ∈ ps_id <$> byProject r) ∧
  (∀ p, p ∈ byProject r →
     t_minutes (ps_totals p) = minutes (List.filter (λ e, bool_decide (e_project e = ps_id p)) rows) ∧
     t_billable (ps_totals p) = minutes (List.filter (λ e, bool_decide (e_project e = ps_id p) && e_billable e) rows)) ∧
  entryCount r = length rows ∧ (length (listed r) ≤ 100)%nat ∧ (∀ e, e ∈ listed r → e ∈ rows) ∧
  (entriesTruncated r = true ↔ (100 < length rows)%nat).
Proof.
  intros rows r. unfold r, getTimeSummary. fold rows. pose proof (add_groups (group_by rows)) as H.
  destruct (foldl add_group _ (group_by rows)) as [all m]. destruct H as (H1 & H2 & Hnd & Hin & Hget). cbn [totalMinutes billableMinutes nonBillableMinutes byProject entryCount listed entriesTruncated].
  rewrite (group_by_sum (λ _ _, true)) in H1. rewrite (group_by_sum (λ _ b, b)) in H2.
  assert (∀ l : list entry, List.filter (λ _, true) l = l) as Htrue by (induction l as [|x l IH]; cbn; congruence).
  rewrite Htrue in H1.
  assert (∀ l, minutes l - minutes (List.filter e_billable l) = minutes (List.filter (λ e, negb (e_billable e)) l)) as Hsplit.
  { induction l as [|x l IH]; [done|]. cbn. unfold minutes in *. destruct (e_billable x); cbn in *; lia. }
  assert ((ps_id <$> ((λ kt, PSummary kt.1 (project_name kt.1) kt.2 (List.filter (λ e, bool_decide (e_project e = kt.1))
    (take SUMMARY_ENTRY_LIMIT (isort (λ a b, e_date b <=? e_date a) rows)))) <$> m)) = m.*1) as Hids.
  { clear. induction m as [|[k t] m IH]; [done|]. cbn in *. by rewrite IH. }
  rewrite Hids. split_and!.
  - done.
  - done.
  - rewrite H1, H2. apply Hsplit.
  - done.
  - intros e He. unfold group_by in Hin.
    apply (Hin (Group (e_project e) (e_billable e) (minutes (of_key (group_key e) rows)))).
    apply list_elem_of_fmap. exists (group_key e). split; [done|]. apply elem_of_unique, list_elem_of_fmap. by exists e.
  - intros p ([k t] & -> & Hkt)%list_elem_of_fmap. cbn [ps_totals ps_id fst snd].
    destruct (Hget k) as [Hm Hb]. rewrite (map_get_Some k t m Hnd Hkt) in Hm, Hb. cbn in Hm, Hb. unfold id in Hm, Hb.
    rewrite Hm, Hb. split; [exact (group_by_sum (λ (p : string) _, bool_decide (p = k)) rows)|exact (group_by_sum (λ (p : string) b, bool_decide (p = k) && b) rows)].
  - done.
  - rewrite length_take. unfold SUMMARY_ENTRY_LIMIT. lia.
  - intros e He. apply elem_of_take in He as (i & He & _). apply list_elem_of_lookup_2 in He. by apply elem_of_isort in He.
  - rewrite Nat.ltb_lt, length_take, length_isort. unfold SUMMARY_ENTRY_LIMIT. lia.
Qed.

(** ** A race *)

Definition demo_input : start_input := Start "ana" "site" None None.
Definition demo_flight : system := Sys (DB (∅ : gmap string session) []) [PStart demo_input []; PStart demo_input []].
(** Both starts read no timer; the first commits. *)
Definition demo_started : system := Sys (commit (PStart demo_input []) 0 "s1" (data demo_flight)) [PStart demo_input []].
(** The second answers 409; the timer is stopped after ten minutes. *)
Definition demo_lost : system := Sys (commit (PStart demo_input []) 5 "s2" (data demo_started)) [].
Definition demo_stopping : system := Sys (data demo_lost) [PStop "s1" "ana" (new_session demo_input 0)].
Definition demo_stopped : system := Sys (commit (PStop "s1" "ana" (new_session demo_input 0)) 600000 "x" (data demo_stopping)) [].

Ltac fresh_tac :=
  split; [by vm_compute|]; intros p Hp;
  repeat (apply elem_of_cons in Hp as [->|Hp]; [cbn; set_solver|]); by apply not_elem_of_nil in Hp.

Lemma demo_reachable : reachable ∅ demo_started ∧ reachable ∅ demo_stopped.
Proof.
  assert (reachable ∅ demo_started) as Hs.
  { apply (reach_step _ demo_flight); [|apply (step_commit demo_flight [] _ [PStart demo_input []] 0 "s1"); [done|fresh_tac]].
    apply (reach_step _ (Sys (DB ∅ []) [PStart demo_input []])); [|exact (step_start (Sys (DB ∅ []) [PStart demo_input []]) demo_input)].
    apply (reach_step _ (Sys (DB ∅ []) [])); [by apply reach_init|exact (step_start (Sys (DB ∅ []) []) demo_input)]. }
  split; [done|].
  apply (reach_step _ demo_stopping); [|apply (step_commit demo_stopping [] _ [] 600000 "x"); [done|fresh_tac]].
  apply (reach_step _ demo_lost); [|apply (step_stop demo_lost "s1" "ana"); by vm_compute].
  apply (reach_step _ demo_started); [done|]. apply (step_commit demo_started [] _ [] 5 "s2"); [done|fresh_tac].
Qed.

Lemma timers_accounted_witness :
  entries (data demo_stopped) = [Entry "ana" "site" None None 10 0 true "TIMER" (Some "s1")] ∧
  one_running (data demo_stopped) ∧
  (∀ id r, tget (sessions (data demo_stopped)) id = Some r → filter (linked id) (entries (data demo_stopped)) = books id r) ∧
  (∀ e id, e ∈ entries (data demo_stopped) → e_session e = Some id →
     ∃ r, tget (sessions (data demo_stopped)) id = Some r ∧ s_running r = false ∧ e_user e = s_user r ∧
       1 ≤ e_duration e ≤ MAX_TIME_ENTRY_MINUTES).
Proof. split; [by vm_compute|]. apply (timers_accounted ∅ demo_stopped). apply demo_reachable. Defined.

(** A start that read the running timer switches; one that did not answers 409. *)
Lemma startTimer_switches_witness :
  startTimer [] demo_input 60000 60000 "s3" (data demo_started) = (Err TIMER_ALREADY_RUNNING, data demo_started) ∧
  is_ok (startTimer (tselect (running_of "ana") (sessions (data demo_started))) demo_input 60000 60000 "s3" (data demo_started)).1 = true.
Proof.
  split; [by vm_compute|].
  apply (startTimer_switches (tselect (running_of "ana") (sessions (data demo_started))) demo_input 60000 60000 "s3" (data demo_started)).
  - apply (inv_sound demo_started), (timers_inv ∅), demo_reachable.
  - apply Forall_forall. intros [k r] Hin r' Hr' _. apply tselect_reads in Hin. cbn in *. congruence.
  - by vm_compute.
  - done.
Defined.

End Timers.
