(* ===== verification/Calendar.v ===== *)
(** * Calendar dates

    The UTC calendar of ECMAScript dates, as day numbers since 1970-01-01: the
    year, month and day of the month of a day, and a day from a month and a day
    of it, with setUTCMonth's months counted across years. *)

From S2P Require Import Prelude.

Module Calendar.

(** The day number of January 1st. *)
Definition DayFromYear (y : Z) : Z := 365 * (y - 1970) + (y - 1969) / 4 - (y - 1901) / 100 + (y - 1601) / 400.
Definition leap (y : Z) : bool := (y mod 4 =? 0) && negb (y mod 100 =? 0) || (y mod 400 =? 0).

(** Days of the year before a month (January is 0) of a common year. *)
Definition days_before (m : Z) : Z := nth (Z.to_nat m) [0; 31; 59; 90; 120; 151; 181; 212; 243; 273; 304; 334; 365] 365.
Definition days_before_in (leap : bool) (m : Z) : Z := days_before m + (if leap && (2 <=? m) then 1 else 0).

(** Months are numbered across years: [12 * year + month]. *)
Definition month_start (mi : Z) : Z := DayFromYear (mi / 12) + days_before_in (leap (mi / 12)) (mi mod 12).
Definition month_length (mi : Z) : Z := month_start (mi + 1) - month_start mi.

(** The year of a day: an estimate, corrected by one. *)
Definition year_of (day : Z) : Z :=
  let y := 1970 + (day * 400) / 146097 in
  if DayFromYear (y + 1) <=? day then y + 1 else if day <? DayFromYear y then y - 1 else y.

Definition month_in (leap : bool) (d : Z) : Z :=
  Z.of_nat (length (List.filter (λ m, days_before_in leap m <=? d) [1; 2; 3; 4; 5; 6; 7; 8; 9; 10; 11])).
Definition month_of (day : Z) : Z := let y := year_of day in 12 * y + month_in (leap y) (day - DayFromYear y).
(** The day of the month, from 1. *)
Definition date_of (day : Z) : Z := day - month_start (month_of day) + 1.

Example day_2024_02_29 : month_of 19782 = 12 * 2024 + 1 ∧ date_of 19782 = 29.
Proof. by vm_compute. Qed.

(** ** Years *)

Lemma year_length y : DayFromYear (y + 1) - DayFromYear y = if leap y then 366 else 365.
Proof.
  unfold DayFromYear, leap.
  destruct (Z.eqb_spec (y mod 4) 0), (Z.eqb_spec (y mod 100) 0), (Z.eqb_spec (y mod 400) 0); cbn [andb orb negb];
    Z.div_mod_to_equations; lia.
Qed.

Lemma year_bounds y : 146097 * (y - 1970) - 800 ≤ 400 * DayFromYear y ≤ 146097 * (y - 1970) + 800.
Proof. unfold DayFromYear. Z.div_mod_to_equations. lia. Qed.

Lemma year_of_spec day : DayFromYear (year_of day) ≤ day < DayFromYear (year_of day + 1).
Proof.
  unfold year_of. set (y := 1970 + day * 400 / 146097).
  pose proof (year_bounds y). pose proof (year_bounds (y + 1)). pose proof (year_bounds (y - 1)). pose proof (year_bounds (y + 2)).
  assert (146097 * (y - 1970) ≤ 400 * day < 146097 * (y - 1970) + 146097) as Hy by (unfold y; Z.div_mod_to_equations; lia).
  destruct (Z.leb_spec (DayFromYear (y + 1)) day).
  - replace (y + 1 + 1) with (y + 2) by lia. lia.
  - destruct (Z.ltb_spec day (DayFromYear y)); [|lia]. replace (y - 1 + 1) with y by lia. lia.
Qed.

(** ** Months *)

(** Facts about the months of a year, checked for every month and day. *)
Lemma below (n : nat) (P : Z → bool) : forallb (λ k, P (Z.of_nat k)) (seq 0 n) = true → ∀ m, 0 ≤ m < Z.of_nat n → P m = true.
Proof.
  rewrite forallb_forall. intros H m Hm. rewrite <- (Z2Nat.id m) by lia. apply H. apply in_seq. lia.
Qed.

Lemma days_step (l : bool) m : 0 ≤ m < 11 → 28 ≤ days_before_in l (m + 1) - days_before_in l m ≤ 31.
Proof.
  intros Hm. assert (forallb (λ k, (λ m, (28 <=? days_before_in l (m + 1) - days_before_in l m) &&
    (days_before_in l (m + 1) - days_before_in l m <=? 31)) (Z.of_nat k)) (seq 0 11) = true) as H by (destruct l; reflexivity).
  pose proof (below 11 _ H m ltac:(lia)) as Hb. cbv beta in Hb. apply andb_true_iff' in Hb as [H1 H2]. apply Z.leb_le in H1, H2. lia.
Qed.

Lemma days_last (l : bool) : days_before_in l 11 = (if l then 335 else 334) ∧ days_before_in l 0 = 0.
Proof. by destruct l. Qed.

Lemma month_in_spec (l : bool) d : 0 ≤ d < (if l then 366 else 365) →
  0 ≤ month_in l d < 12 ∧ days_before_in l (month_in l d) ≤ d ∧
  (month_in l d < 11 → d < days_before_in l (month_in l d + 1)).
Proof.
  intros Hd. set (n := if l then 366%nat else 365%nat).
  assert (forallb (λ k, (λ d, (0 <=? month_in l d) && (month_in l d <? 12) && (days_before_in l (month_in l d) <=? d) &&
    ((11 <=? month_in l d) || (d <? days_before_in l (month_in l d + 1)))) (Z.of_nat k)) (seq 0 n) = true) as H
    by (unfold n; destruct l; vm_compute; reflexivity).
  pose proof (below n _ H d ltac:(unfold n; destruct l; lia)) as Hb. cbv beta in Hb.
  apply andb_true_iff' in Hb as [Hb H4]. apply andb_true_iff' in Hb as [Hb H3]. apply Z.leb_le in H3.
  apply andb_true_iff' in Hb as [H1 H2]. apply Z.leb_le in H1. apply Z.ltb_lt in H2. split_and!; try done. intros Hlt.
  apply orb_true_iff' in H4 as [?%Z.leb_le|?%Z.ltb_lt]; lia.
Qed.

Lemma month_start_in y m : 0 ≤ m < 12 → month_start (12 * y + m) = DayFromYear y + days_before_in (leap y) m.
Proof.
  intros Hm. unfold month_start. replace ((12 * y + m) / 12) with y by (Z.div_mod_to_equations; lia).
  by replace ((12 * y + m) mod 12) with m by (Z.div_mod_to_equations; lia).
Qed.

Lemma month_split mi : ∃ y m, mi = 12 * y + m ∧ 0 ≤ m < 12.
Proof. exists (mi / 12), (mi mod 12). Z.div_mod_to_equations. lia. Qed.

Lemma month_length_bounds mi : 28 ≤ month_length mi ≤ 31.
Proof.
  destruct (month_split mi) as (y & m & -> & Hm). unfold month_length. rewrite (month_start_in y m Hm).
  destruct (decide (m = 11)) as [->|].
  - replace (12 * y + 11 + 1) with (12 * (y + 1) + 0) by lia. rewrite month_start_in by lia.
    pose proof (year_length y). destruct (days_last (leap y)) as [-> _], (days_last (leap (y + 1))) as [_ ->].
    destruct (leap y); lia.
  - replace (12 * y + m + 1) with (12 * y + (m + 1)) by lia. rewrite month_start_in by lia.
    pose proof (days_step (leap y) m). lia.
Qed.

Lemma month_start_mono a b : a ≤ b → month_start a + 28 * (b - a) ≤ month_start b.
Proof.
  intros Hab. replace b with (a + Z.of_nat (Z.to_nat (b - a))) by lia. generalize (Z.to_nat (b - a)). clear. intros n.
  induction n as [|n IH]; [replace (a + Z.of_nat 0) with a by lia; lia|].
  pose proof (month_length_bounds (a + Z.of_nat n)) as H. unfold month_length in H.
  replace (a + Z.of_nat (S n)) with (a + Z.of_nat n + 1) by lia. lia.
Qed.

Lemma month_of_spec day : month_start (month_of day) ≤ day < month_start (month_of day + 1).
Proof.
  unfold month_of. pose proof (year_of_spec day) as Hd. pose proof (year_length (year_of day)) as Hl.
  set (y := year_of day) in *. cbv zeta.
  destruct (month_in_spec (leap y) (day - DayFromYear y)) as (Hm & H1 & H2); [destruct (leap y); lia|].
  set (m := month_in (leap y) (day - DayFromYear y)) in *. rewrite month_start_in by done. split; [lia|].
  destruct (decide (m = 11)) as [E|].
  - replace (12 * y + m + 1) with (12 * (y + 1) + 0) by lia. rewrite month_start_in by lia.
    destruct (days_last (leap (y + 1))) as [_ ->]. lia.
  - replace (12 * y + m + 1) with (12 * y + (m + 1)) by lia. rewrite month_start_in by lia. lia.
Qed.

(** The month of a day is the one it falls in. *)
Lemma month_of_unique day mi : month_start mi ≤ day < month_start (mi + 1) → month_of day = mi.
Proof.
  intros H. pose proof (month_of_spec day) as Hs. destruct (Z.lt_trichotomy (month_of day) mi) as [Hlt|[?|Hlt]]; [|done|].
  - pose proof (month_start_mono (month_of day + 1) mi ltac:(lia)). lia.
  - pose proof (month_start_mono (mi + 1) (month_of day) ltac:(lia)). lia.
Qed.

Lemma date_of_bounds day : 1 ≤ date_of day ≤ month_length (month_of day).
Proof. unfold date_of, month_length. pose proof (month_of_spec day). lia. Qed.

Lemma month_length_eq mi : month_length mi = month_start (mi + 1) - month_start mi.
Proof. reflexivity. Qed.
Lemma date_of_eq day : day = month_start (month_of day) + date_of day - 1.
Proof. unfold date_of. lia. Qed.

(** Building a date and reading it back. *)
Lemma month_and_date mi d : 1 ≤ d ≤ month_length mi →
  month_of (month_start mi + d - 1) = mi ∧ date_of (month_start mi + d - 1) = d.
Proof.
  intros Hd. assert (month_of (month_start mi + d - 1) = mi) as Hm by (apply month_of_unique; unfold month_length in Hd; lia).
  split; [done|]. unfold date_of. rewrite Hm. lia.
Qed.

End Calendar.
