(* ===== verification/Governance.v ===== *)
(** * The AI control plane

    src/src/ai/governance.js with src/src/ai/pricing.js: every AI call is routed
    to the deployment's provider or to the organization's own, behind two kill
    switches that the process caches, a monthly budget and a usage record.
    Calls interleave at their awaits (Async.v) with each other and with
    administrators' changes (AiControl.v).  [trail] notes, newest first, what
    was read, written and contacted; no code reads it. *)

From S2P Require Import Prelude JsNumber Calendar Async.
Import Js Calendar.

Module Governance.

(* src/src/ai/governance.js:46-46 AI_ORG_CACHE_TTL_MS *)
Definition AI_ORG_CACHE_TTL_MS : Z := 30000.
(* src/src/ai/governance.js:48-48 AI_BUDGET_ALERT_RATIO *)
Definition AI_BUDGET_ALERT_RATIO : num := div (of_Z 8) (of_Z 10).
(* src/src/ai/governance.js:50-50 AI_BUDGET_EXCEEDED_AUDIT_WINDOW_MS *)
Definition AI_BUDGET_EXCEEDED_AUDIT_WINDOW_MS : Z := 60 * 60 * 1000.
Definition FEATURE_MAX_LENGTH : nat := 100.

(** ** Data *)

(** The CHECK constraint of the column. *)
Inductive conn_status := Active | Disabled | Revoked.
#[export] Instance conn_status_eq_dec : EqDecision conn_status.
Proof. solve_decision. Defined.
(** A connection as callers may see it: without the key. *)
Record connection := Connection {
  c_id : string; c_org : string; c_status : conn_status; c_baseUrl : string; c_model : string; c_allowed : list string; c_budget : Z
}.
Record connection_row := Row { public : connection; encryptedApiKey : option string }.
#[export] Instance connection_eq_dec : EqDecision connection.
Proof. solve_decision. Defined.

Record usage := Usage {
  u_org : string; u_connection : string; u_model : string; u_prompt : Z; u_completion : Z; u_estimated : bool;
  u_cost : option num; u_feature : option string; u_request : option string; u_success : bool; u_error : option string; u_created : Z
}.
Record audit := Audit { a_org : string; a_action : string; a_created : Z }.

(** A live provider: where it sends requests, with which key and model. *)
Record provider := Provider { p_baseUrl : string; p_key : string; p_model : string }.

Record org_state := OrgState {
  s_disabled : bool; s_connection : option connection; s_provider : option provider; s_loadError : bool
}.

(** When a call looked at the deployment's switch, at the organization's and
    at its connection. *)
Record moments := Moments { m_platform : Z; m_switch : Z; m_connection : Z }.
(** Where a call went. *)
Inductive target := ToPlatform | ToOrganization (org connection model : string).

Inductive event :=
  | PlatformRead (disabled : bool) (now : Z)
  | SwitchRead (org : string) (disabled : bool) (now : Z)
  | ConnectionRead (org : string) (row : option connection_row) (now : Z)
  | SpendRead (request : nat) (org : string) (spent : num) (now : Z)
  | Contacted (request : nat) (org : option string) (at_ : moments) (to : target)
  | Metered (request : nat) (u : usage)
  | MeterLost (request : nat) (org : string).

(** The database, and the memory of this process: the two caches, the last
    refusal audited for an organization and the alerts of each month. *)
Record db := Db {
  platformSetting : bool;
  switches : gmap string bool;
  connections : gmap string connection_row;
  records : list usage;
  audits : list audit;
  cache : gmap string (Z * org_state);
  platformCache : option (Z * bool);
  exceededAt : gmap string Z;
  alertSent : gset (string * Z);
  trail : list event
}.

Inductive ai_error :=
  | AiDisabled (scope : string) | AI_CONNECTION_DISABLED | AI_CONNECTION_UNAVAILABLE | AiBudgetExceeded | AiUnavailable
  | AiProvider (type : string) | Aborted | HookRefused | PlatformFailed | InvalidJson.

(** ** Prices *)

(** [estimateCostCents]: prices are cents per million tokens. *)
(* src/src/ai/pricing.js:65-70 estimateCostCents *)
Definition estimateCostCents (prices : gmap string (num * num)) (model : string) (promptTokens completionTokens : Z) : option num :=
  '(input, output) ← prices !! model;
  let cents := div (add (mul (of_Z promptTokens) input) (mul (of_Z completionTokens) output)) (of_Z 1000000) in
  Some (div (round (mul cents (of_Z 10000))) (of_Z 10000)).

(** ** The month *)

(** The month of a moment, counted from year 0, and its first instant. *)
(* src/src/ai/governance.js:60-62 monthKey *)
Definition monthKey (now : Z) : Z := month_of (now / 86400000).
(* src/src/ai/governance.js:56-58 monthStart *)
Definition monthStart (now : Z) : Z := month_start (monthKey now) * 86400000.

Record spending := Spending { spentCents : num; promptTokens : Z; completionTokens : Z; calls : nat; unpricedTokens : Z }.

Definition in_month (org : string) (at_ : Z) (u : usage) : bool := bool_decide (u_org u = org) && (monthStart at_ <=? u_created u).
Definition sum_Z (l : list Z) : Z := foldr Z.add 0 l.

(** [SUM] adds the doubles in the order of the rows. *)
(* src/src/ai/governance.js:74-95 computeMonthToDateUsage *)
Definition computeMonthToDateUsage (rows : list usage) (org : string) (at_ : Z) : spending :=
  let all := List.filter (in_month org at_) rows in
  let unpriced := List.filter (λ u, bool_decide (u_cost u = None)) all in
  Spending (foldl add (of_Z 0) (omap u_cost all)) (sum_Z (u_prompt <$> all)) (sum_Z (u_completion <$> all)) (length all)
    (sum_Z (u_prompt <$> unpriced) + sum_Z (u_completion <$> unpriced)).

(** ** Statements *)

Definition note (e : event) (d : db) : db :=
  Db (platformSetting d) (switches d) (connections d) (records d) (audits d) (cache d) (platformCache d) (exceededAt d) (alertSent d) (e :: trail d).
Definition with_cache (org : string) (entry : Z * org_state) (d : db) : db :=
  Db (platformSetting d) (switches d) (connections d) (records d) (audits d) (<[org := entry]> (cache d)) (platformCache d) (exceededAt d) (alertSent d) (trail d).
Definition with_platformCache (entry : option (Z * bool)) (d : db) : db :=
  Db (platformSetting d) (switches d) (connections d) (records d) (audits d) (cache d) entry (exceededAt d) (alertSent d) (trail d).
Definition with_audit (a : audit) (d : db) : db :=
  Db (platformSetting d) (switches d) (connections d) (records d) (audits d ++ [a]) (cache d) (platformCache d) (exceededAt d) (alertSent d) (trail d).

Definition read_platform (nowMs : Z) (d : db) : bool * db := (platformSetting d, note (PlatformRead (platformSetting d) nowMs) d).
Definition read_switch (org : string) (nowMs : Z) (d : db) : bool * db :=
  let disabled := default false (switches d !! org) in (disabled, note (SwitchRead org disabled nowMs) d).
Definition read_connection (org : string) (nowMs : Z) (d : db) : option connection_row * db :=
  (connections d !! org, note (ConnectionRead org (connections d !! org) nowMs) d).
(** The two aggregates are separate statements; only the first is used here. *)
Definition read_spend (rid : nat) (c : connection) (nowMs : Z) (d : db) : num * db :=
  let spent := spentCents (computeMonthToDateUsage (records d) (c_org c) nowMs) in
  (spent, note (SpendRead rid (c_org c) spent nowMs) d).

Section governance.
(** The vault's [decrypt] (which may throw), whether a provider can be built
    for a base URL, the price table and [AI_DISABLED]. *)
Context (decrypt : string → option string) (can_create : string → bool) (prices : gmap string (num * num)).
Context (envAiDisabled : bool).

(* src/src/ai/governance.js:98-102 publicConnection *)
Definition publicConnection (row : option connection_row) : option connection := public <$> row.

(** What a call needs from outside: the context it runs in ([None] for no
    organization, or an empty id), the clock, the abort signal, the hooks, and
    the answers of the providers. *)
Record completion := Completion {
  content : string; k_json : option string;      (** the JSON it is, if any *)
  k_prompt : Z; k_completion : Z; k_estimated : bool
}.
Record call_input := CallInput {
  i_org : option string; i_feature : option string; i_request : option string;
  i_clock : nat → Z; i_aborted : nat → bool; i_before : bool; i_after : bool; i_model : option string; i_json : bool;
  i_platform : result bool string;                (** [Err true]: a setup failure *)
  i_configured : bool;
  i_complete : result string completion;          (** [Err type] *)
  i_meter : bool                                  (** the usage record could be written *)
}.

(* src/src/ai/governance.js:169-175 storedPlatformDisabled *)
Definition storedPlatformDisabled (nowMs : Z) : prog db bool :=
  hit ← await (λ d, (platformCache d, d));
  let load :=
    disabled ← await (read_platform nowMs);
    _ ← await (λ d, (tt, with_platformCache (Some (nowMs + AI_ORG_CACHE_TTL_MS, disabled)) d));
    mret disabled in
  match hit with
  | Some (expiresAt, disabled) => if nowMs <? expiresAt then mret disabled else load
  | None => load
  end.

(* src/src/ai/governance.js:177-180 isPlatformDisabled *)
Definition isPlatformDisabled (nowMs : Z) : prog db bool :=
  if envAiDisabled then mret true else storedPlatformDisabled nowMs.

(** The state a connection row loads into. *)
Definition load_state (disabled : bool) (row : option connection_row) : org_state :=
  let active := match row with Some r => bool_decide (c_status (public r) = Active) | None => false end in
  let built :=
    match row with
    | Some r => if active then
                  key ← encryptedApiKey r ≫= decrypt;
                  if can_create (c_baseUrl (public r)) then Some (Provider (c_baseUrl (public r)) key (c_model (public r))) else None
                else None
    | None => None
    end in
  OrgState disabled
    (match row with Some r => if bool_decide (c_status (public r) = Revoked) then None else publicConnection row | None => None end)
    built (active && bool_decide (built = None)).

(* src/src/ai/governance.js:188-220 loadOrgState *)
Definition loadOrgState (org : string) (nowMs : Z) : prog db org_state :=
  hit ← await (λ d, (cache d !! org, d));
  let load :=
    disabled ← await (read_switch org nowMs);
    row ← await (read_connection org nowMs);
    let state := load_state disabled row in
    _ ← await (λ d, (tt, with_cache org (nowMs + AI_ORG_CACHE_TTL_MS, state) d));
    mret state in
  match hit with
  | Some (expiresAt, state) => if nowMs <? expiresAt then mret state else load
  | None => load
  end.

(* src/src/ai/governance.js:227-232 assertAllowed *)
Definition assertAllowed (org : option string) (clock : nat → Z) : prog db (result ai_error unit) :=
  disabled ← isPlatformDisabled (clock 0%nat);
  if (disabled : bool) then mret (Err (AiDisabled "platform"))
  else match org with
       | None => mret (Ok tt)
       | Some org =>
           state ← loadOrgState org (clock 1%nat);
           mret (if s_disabled state then Err (AiDisabled "organization") else Ok tt)
       end.

(** Where the call goes; the provider never leaves this module. *)
Inductive routed := Platform | Byok (c : connection) (p : provider).
(* src/src/ai/governance.js:235-248 route *)
Definition route (org : option string) (clock : nat → Z) : prog db (result ai_error routed) :=
  allowed ← assertAllowed org clock;
  match allowed, org with
  | Err e, _ => mret (Err e)
  | Ok _, None => mret (Ok Platform)
  | Ok _, Some org =>
      state ← loadOrgState org (clock 2%nat);
      mret (match s_connection state with
            | None => Ok Platform
            | Some c =>
                if bool_decide (c_status c = Disabled) then Err AI_CONNECTION_DISABLED
                else if s_loadError state then Err AI_CONNECTION_UNAVAILABLE
                else match s_provider state with
                     | Some p => Ok (Byok c p)
                     | None => Err AI_CONNECTION_UNAVAILABLE   (** an active one has a provider or [loadError] *)
                     end
            end)
  end.

(** Claims the window of a refusal, unless one was audited within it. *)
Definition claim_refusal (c : connection) (nowMs : Z) (d : db) : bool * db :=
  if AI_BUDGET_EXCEEDED_AUDIT_WINDOW_MS <=? nowMs - default 0 (exceededAt d !! c_org c) then
    (true, Db (platformSetting d) (switches d) (connections d) (records d) (audits d) (cache d) (platformCache d)
              (<[c_org c := nowMs]> (exceededAt d)) (alertSent d) (trail d))
  else (false, d).

(* src/src/ai/governance.js:265-282 assertWithinBudget *)
Definition assertWithinBudget (rid : nat) (c : connection) (clock : nat → Z) : prog db (result ai_error unit) :=
  spent ← await (read_spend rid c (clock 3%nat));
  if ltb spent (of_Z (c_budget c)) then mret (Ok tt)
  else
    due ← await (claim_refusal c (clock 4%nat));
    if (due : bool) then
      _ ← await (λ d, (tt, with_audit (Audit (c_org c) "ai.budget_exceeded" (clock 4%nat)) d));
      mret (Err AiBudgetExceeded)
    else mret (Err AiBudgetExceeded).

(** Marks the month, unless it was already; the answer is whether it did. *)
Definition mark_alert (c : connection) (nowMs : Z) (d : db) : bool * db :=
  if bool_decide ((c_org c, monthKey nowMs) ∈ alertSent d) then (false, d)
  else (true, Db (platformSetting d) (switches d) (connections d) (records d) (audits d) (cache d) (platformCache d) (exceededAt d)
                 ({[ (c_org c, monthKey nowMs) ]} ∪ alertSent d) (trail d)).
Definition already_alerted (c : connection) (nowMs : Z) (d : db) : bool * db :=
  (existsb (λ a, bool_decide (a_org a = c_org c) && bool_decide (a_action a = "ai.budget_alert") && (monthStart nowMs <=? a_created a)) (audits d), d).

(* src/src/ai/governance.js:284-311 maybeAlert *)
Definition maybeAlert (rid : nat) (c : connection) (nowMs spentAt : Z) : prog db unit :=
  if c_budget c <=? 0 then mret tt
  else
    sent ← await (λ d, (bool_decide ((c_org c, monthKey nowMs) ∈ alertSent d), d));
    if (sent : bool) then mret tt
    else
      spent ← await (read_spend rid c spentAt);
      if ltb spent (mul (of_Z (c_budget c)) AI_BUDGET_ALERT_RATIO) then mret tt
      else
        _ ← await (mark_alert c nowMs);
        existing ← await (already_alerted c nowMs);
        if (existing : bool) then mret tt
        else await (λ d, (tt, with_audit (Audit (c_org c) "ai.budget_alert" nowMs) d)).

Definition usage_of (i : call_input) (c : connection) (model : string) (k : option completion) (cost : option num) (error : option string)
    (nowMs : Z) : usage :=
  Usage (c_org c) (c_id c) (String.substring 0 200 model) (default 0 (k_prompt <$> k)) (default 0 (k_completion <$> k))
    (default false (k_estimated <$> k)) cost (String.substring 0 FEATURE_MAX_LENGTH <$> i_feature i)
    (String.substring 0 100 <$> i_request i) (bool_decide (error = None)) error nowMs.
(** A failed write is logged and nothing else. *)
(* src/src/ai/governance.js:313-337 recordUsage *)
Definition recordUsage (rid : nat) (i : call_input) (c : connection) (model : string) (k : option completion) (cost : option num)
    (error : option string) (nowMs : Z) (d : db) : unit * db :=
  if i_meter i then
    let u := usage_of i c model k cost error nowMs in
    (tt, note (Metered rid u)
           (Db (platformSetting d) (switches d) (connections d) (records d ++ [u]) (audits d) (cache d) (platformCache d) (exceededAt d)
              (alertSent d) (trail d)))
  else (tt, note (MeterLost rid (c_org c)) d).

(* src/src/ai/governance.js:339-342 pickModel *)
Definition pickModel (c : connection) (requested : option string) : string :=
  match requested with
  | Some m => if negb (bool_decide (m = "")) && bool_decide (m ∈ c_allowed c) then m else c_model c
  | None => c_model c
  end.

Definition contact (rid : nat) (i : call_input) (to : target) (d : db) : unit * db :=
  (tt, note (Contacted rid (i_org i) (Moments (i_clock i 0%nat) (i_clock i 1%nat) (i_clock i 2%nat)) to) d).

(** What the last hook makes of an answer. *)
Definition after (i : call_input) (answer : result ai_error string) : result ai_error string :=
  if i_after i then answer else Err HookRefused.

(** The deployment's own provider. *)
(* src/src/ai/governance.js:364-385 call *)
Definition call_platform (rid : nat) (i : call_input) : prog db (result ai_error string) :=
  if negb (i_configured i) then mret (Err AiUnavailable)
  else
    _ ← await (contact rid i ToPlatform);
    mret (match i_platform i with
          | Ok answer => after i (Ok answer)
          | Err setup => if (setup : bool) then Err AiUnavailable else Err PlatformFailed
          end).

(** The organization's provider: once, and metered whatever it answers. *)
(* src/src/ai/governance.js:387-411 call *)
Definition call_byok (rid : nat) (i : call_input) (c : connection) : prog db (result ai_error string) :=
  within ← assertWithinBudget rid c (i_clock i);
  match within with
  | Err e => mret (Err e)
  | Ok _ =>
      if i_aborted i 1%nat then mret (Err Aborted)
      else
        let model := pickModel c (i_model i) in
        _ ← await (contact rid i (ToOrganization (c_org c) (c_id c) model));
        match i_complete i with
        | Err type =>
            _ ← await (recordUsage rid i c model None None (Some type) (i_clock i 5%nat));
            mret (Err (AiProvider type))
        | Ok k =>
            let cost := estimateCostCents prices model (k_prompt k) (k_completion k) in
            _ ← await (recordUsage rid i c model (Some k) cost None (i_clock i 5%nat));
            _ ← maybeAlert rid c (i_clock i 6%nat) (i_clock i 7%nat);
            mret (after i (if i_json i then match k_json k with Some j => Ok j | None => Err InvalidJson end else Ok (content k)))
        end
  end.

(* src/src/ai/governance.js:351-363 call *)
Definition call (rid : nat) (i : call_input) : prog db (result ai_error string) :=
  routed ← route (i_org i) (i_clock i);
  match routed with
  | Err e => mret (Err e)
  | Ok to =>
      if negb (i_before i) then mret (Err HookRefused)
      else if i_aborted i 0%nat then mret (Err Aborted)
      else match to with
           | Platform => call_platform rid i
           | Byok c _ => call_byok rid i c
           end
  end.

(** [AI_DISABLED] and the operator's stored switch. *)
Record platform_status := Status { ps_disabled : bool; ps_env : bool; ps_stored : bool }.
(* src/src/ai/governance.js:182-186 getPlatformStatus *)
Definition getPlatformStatus (nowMs : Z) : prog db platform_status :=
  stored ← storedPlatformDisabled nowMs;
  mret (Status (envAiDisabled || stored) envAiDisabled stored).

End governance.

(** ** Forgetting *)

(** One organization, or every one. *)
(* src/src/ai/governance.js:159-162 invalidate *)
Definition invalidate (org : option string) (d : db) : db :=
  Db (platformSetting d) (switches d) (connections d) (records d) (audits d)
     (match org with Some o => if bool_decide (o = "") then ∅ else delete o (cache d) | None => ∅ end)
     (platformCache d) (exceededAt d) (alertSent d) (trail d).
(* src/src/ai/governance.js:164-166 invalidatePlatform *)
Definition invalidatePlatform (d : db) : db := with_platformCache None d.

(** The upsert, then the cache of this process. *)
(* src/src/ai/governance.js:487-499 setPlatformAiDisabled *)
Definition setPlatformAiDisabled (disabled : bool) : prog db unit :=
  _ ← await (λ d, (tt, Db disabled (switches d) (connections d) (records d) (audits d) (cache d) (platformCache d) (exceededAt d) (alertSent d) (trail d)));
  await (λ d, (tt, invalidatePlatform d)).
End Governance.
