(* ===== verification/AiControl.v ===== *)
(** * Administrators and the AI control plane

    The handlers of src/src/routes/ai-connection.routes.js next to the calls of
    Governance.v, all interleaved at their awaits.  The role and step-up guards
    in front of the handlers are Tokens.v's and the framework's; the network
    checks of a key ([validateProviderCredentials]) are inputs. *)

From S2P Require Import Prelude JsNumber Calendar Async Governance.
Import Js Calendar Governance.Governance.

Module AiControl.

Section handlers.
Context (decrypt : string → option string) (can_create : string → bool) (prices : gmap string (num * num)) (envAiDisabled : bool).

(* src/src/ai/pricing.js:73-75 hasModelPrice *)
Definition hasModelPrice (model : string) : bool := bool_decide (is_Some (prices !! model)).
(* src/src/ai/pricing.js:78-80 unpricedModels *)
Definition unpricedModels (models : list string) : list string := List.filter (λ m, negb (hasModelPrice m)) (unique models).
(* src/src/routes/ai-connection.routes.js:52-61 rejectUnpricedModels *)
Definition rejectUnpricedModels (models : list string) (monthlyBudgetCents : Z) : bool :=
  (0 <? monthlyBudgetCents) && negb (bool_decide (unpricedModels models = [])).

(** ** Requests *)

(** What the check of a key with its provider ends with. *)
Inductive validation := Valid (baseUrl : string) | Unsafe | ProviderFailed (type : string) | Crashed.

Record connect_body := ConnectBody { b_allowed : list string; b_model : string; b_budget : Z }.
Inductive input :=
  | CallAi (i : call_input)
  | Connect (org newId : string) (body : connect_body) (v : validation) (encrypted : option string) (nowMs : Z)
  | Validate (org : string) (v : validation) (nowMs : Z)
  | Rotate (org : string) (v : validation) (encrypted : option string) (nowMs : Z)
  | Revoke (org : string) (nowMs : Z)
  | Settings (org : string) (allowedModels : option (list string)) (defaultModel : option string) (budget : option Z) (nowMs : Z)
  | SetOrganization (org : string) (disabled : bool) (nowMs : Z)
  | SetPlatform (disabled : bool).

Inductive reply := Called (r : result ai_error string) | Replied (code : Z) (name : string).

Definition set_connection (org : string) (row : connection_row) (d : db) : db :=
  Db (platformSetting d) (switches d) (<[org := row]> (connections d)) (records d) (audits d) (cache d) (platformCache d) (exceededAt d) (alertSent d) (trail d).
Definition set_switch (org : string) (disabled : bool) (d : db) : db :=
  Db (platformSetting d) (<[org := disabled]> (switches d)) (connections d) (records d) (audits d) (cache d) (platformCache d) (exceededAt d) (alertSent d) (trail d).

(* src/src/routes/ai-connection.routes.js:91-93 findConnection *)
Definition findConnection (org : string) : prog db (option connection_row) := await (λ d, (connections d !! org, d)).
(** [update] throws when there is no row. *)
Definition update_connection (org : string) (f : connection_row → connection_row) : prog db bool :=
  await (λ d, match connections d !! org with Some r => (true, set_connection org (f r) d) | None => (false, d) end).

(** What every change ends with: the cache of this process, then the audit. *)
Definition changed (org action : string) (nowMs : Z) (answer : reply) : prog db reply :=
  _ ← await (λ d, (tt, invalidate (Some org) d));
  _ ← await (λ d, (tt, with_audit (Audit org action nowMs) d));
  mret answer.
Definition update_and_record (org action : string) (nowMs : Z) (f : connection_row → connection_row) : prog db reply :=
  found ← update_connection org f;
  if (found : bool) then changed org action nowMs (Replied 200 "ok") else mret (Replied 500 "").

(* src/src/routes/ai-connection.routes.js:37-50 validationFailure *)
Definition validationFailure (v : validation) : option reply :=
  match v with
  | Valid _ => None
  | Unsafe => Some (Replied 400 "UNSAFE_OUTBOUND_URL")
  | ProviderFailed _ => Some (Replied 422 "AI_CONNECTION_VALIDATION_FAILED")
  | Crashed => Some (Replied 500 "")
  end.

(* src/src/routes/ai-connection.routes.js:125-181 POST /connect *)
Definition connect (org newId : string) (body : connect_body) (v : validation) (encrypted : option string) (nowMs : Z) : prog db reply :=
  if rejectUnpricedModels (b_model body :: b_allowed body) (b_budget body) then mret (Replied 400 "MODEL_PRICE_UNKNOWN")
  else match validationFailure v, v, encrypted with
       | Some failure, _, _ => mret failure
       | None, Valid baseUrl, Some key =>
           _ ← findConnection org;
           _ ← await (λ d, (tt, let id := default newId (c_id ∘ public <$> connections d !! org) in
                                set_connection org (Row (Connection id org Active baseUrl (b_model body) (unique (b_allowed body)) (b_budget body)) (Some key)) d));
           changed org "ai.connection_connected" nowMs (Replied 201 "ok")
       | None, _, _ => mret (Replied 503 "CREDENTIALS_KEY_MISSING")
       end.

Definition with_status (status : conn_status) (r : connection_row) : connection_row :=
  let c := public r in
  Row (Connection (c_id c) (c_org c) status (c_baseUrl c) (c_model c) (c_allowed c) (c_budget c)) (encryptedApiKey r).
Definition with_key (key : option string) (r : connection_row) : connection_row := Row (public r) key.
Definition with_models (allowed : list string) (model : string) (budget : Z) (r : connection_row) : connection_row :=
  let c := public r in Row (Connection (c_id c) (c_org c) (c_status c) (c_baseUrl c) model allowed budget) (encryptedApiKey r).
Definition in_force (row : option connection_row) : option connection_row :=
  match row with Some r => if bool_decide (c_status (public r) = Revoked) then None else Some r | None => None end.

(** A rejected key disables the connection; a transient failure changes nothing. *)
(* src/src/routes/ai-connection.routes.js:187-237 POST /validate *)
Definition validate (org : string) (v : validation) (nowMs : Z) : prog db reply :=
  row ← findConnection org;
  match in_force row with
  | Some r =>
      match encryptedApiKey r with
      | None => mret (Replied 404 "AI_CONNECTION_NOT_FOUND")
      | Some key =>
          if bool_decide (decrypt key = None) then mret (Replied 503 "AI_CONNECTION_UNAVAILABLE")
          else match v with
               | Crashed => mret (Replied 500 "")
               | Valid _ => update_and_record org "ai.connection_validated" nowMs (with_status Active)
               | Unsafe => update_and_record org "ai.connection_validated" nowMs (with_status Disabled)
               | ProviderFailed type =>
                   update_and_record org "ai.connection_validated" nowMs (if bool_decide (type = "auth") then with_status Disabled else id)
               end
      end
  | None => mret (Replied 404 "AI_CONNECTION_NOT_FOUND")
  end.

(* src/src/routes/ai-connection.routes.js:241-281 POST /rotate *)
Definition rotate (org : string) (v : validation) (encrypted : option string) (nowMs : Z) : prog db reply :=
  row ← findConnection org;
  match in_force row, validationFailure v, encrypted with
  | None, _, _ => mret (Replied 404 "AI_CONNECTION_NOT_FOUND")
  | Some _, Some failure, _ => mret failure
  | Some _, None, None => mret (Replied 503 "CREDENTIALS_KEY_MISSING")
  | Some _, None, Some key => update_and_record org "ai.connection_rotated" nowMs (with_status Active ∘ with_key (Some key))
  end.

(* src/src/routes/ai-connection.routes.js:284-303 POST /revoke *)
Definition revoke (org : string) (nowMs : Z) : prog db reply :=
  row ← findConnection org;
  match in_force row with
  | None => mret (Replied 404 "AI_CONNECTION_NOT_FOUND")
  | Some _ => update_and_record org "ai.connection_revoked" nowMs (with_status Revoked ∘ with_key None)
  end.

(* src/src/routes/ai-connection.routes.js:305-338 PATCH /settings *)
Definition settings (org : string) (allowedModels : option (list string)) (defaultModel : option string) (budget : option Z) (nowMs : Z) : prog db reply :=
  row ← findConnection org;
  match in_force row with
  | None => mret (Replied 404 "AI_CONNECTION_NOT_FOUND")
  | Some r =>
      let allowed := from_option unique (c_allowed (public r)) allowedModels in
      let model := default (c_model (public r)) defaultModel in
      let cents := default (c_budget (public r)) budget in
      if negb (bool_decide (model ∈ allowed)) then mret (Replied 400 "")
      else if rejectUnpricedModels (model :: allowed) cents then mret (Replied 400 "MODEL_PRICE_UNKNOWN")
      else update_and_record org "ai.connection_settings_changed" nowMs (with_models allowed model cents)
  end.

(* src/src/routes/ai-connection.routes.js:342-351 setOrganizationAiDisabled *)
Definition setOrganizationAiDisabled (org : string) (disabled : bool) (nowMs : Z) : prog db reply :=
  _ ← await (λ d, (tt, set_switch org disabled d));
  changed org (if disabled then "ai.disabled" else "ai.enabled") nowMs (Replied 200 "ok").

Definition handle (rid : nat) (i : input) : prog db reply :=
  match i with
  | CallAi i => r ← call decrypt can_create prices envAiDisabled rid i; mret (Called r)
  | Connect org newId body v encrypted nowMs => connect org newId body v encrypted nowMs
  | Validate org v nowMs => validate org v nowMs
  | Rotate org v encrypted nowMs => rotate org v encrypted nowMs
  | Revoke org nowMs => revoke org nowMs
  | Settings org allowed model budget nowMs => settings org allowed model budget nowMs
  | SetOrganization org disabled nowMs => setOrganizationAiDisabled org disabled nowMs
  | SetPlatform disabled => _ ← setPlatformAiDisabled disabled; mret (Replied 200 "ok")
  end.
End handlers.

(** ** What the trail shows *)

Fixpoint metered (trail : list event) : list usage :=
  match trail with
  | [] => []
  | Metered _ u :: older => metered older ++ [u]
  | _ :: older => metered older
  end.

Section specification.
Context (decrypt : string → option string) (can_create : string → bool) (prices : gmap string (num * num)) (envAiDisabled : bool).
(** The usage recorded before this process started. *)
Context (records0 : list usage).

Definition priced (c : connection) : Prop := 0 < c_budget c → ∀ m, m = c_model c ∨ m ∈ c_allowed c → is_Some (prices !! m).
Definition row_ok (org : string) (r : connection_row) : Prop := c_org (public r) = org ∧ priced (public r).
Definition usable (r : connection_row) : Prop :=
  c_status (public r) = Active ∧ is_Some (encryptedApiKey r ≫= decrypt) ∧ can_create (c_baseUrl (public r)) = true.
Definition fresh (looked read : Z) : Prop := looked < read + AI_ORG_CACHE_TTL_MS.

(** Why a call could be sent where it was, from what had been read before. *)
Definition to_justified (rid : nat) (m : moments) (to : target) (older : list event) (org : string) : Prop :=
  ∃ row t, ConnectionRead org row t ∈ older ∧ fresh (m_connection m) t ∧
    match to with
    | ToPlatform => ∀ r, row = Some r → c_status (public r) = Revoked
    | ToOrganization org' c model =>
        ∃ r spent t', row = Some r ∧ row_ok org r ∧ usable r ∧ org' = org ∧ c = c_id (public r) ∧
          (model = c_model (public r) ∨ model ∈ c_allowed (public r)) ∧
          SpendRead rid org spent t' ∈ older ∧ ltb spent (of_Z (c_budget (public r))) = true
    end.
Definition justified (older : list event) (e : event) : Prop :=
  match e with
  | Contacted rid org m to =>
      envAiDisabled = false ∧ (∃ t, PlatformRead false t ∈ older ∧ fresh (m_platform m) t) ∧
      match org with
      | None => to = ToPlatform
      | Some org => (∃ t, SwitchRead org false t ∈ older ∧ fresh (m_switch m) t) ∧ to_justified rid m to older org
      end
  | SpendRead _ org spent now => spent = spentCents (computeMonthToDateUsage (records0 ++ metered older) org now)
  | Metered rid u =>
      (∃ m model, Contacted rid (Some (u_org u)) m (ToOrganization (u_org u) (u_connection u) model) ∈ older) ∧
      ∃ r t, ConnectionRead (u_org u) (Some r) t ∈ older ∧ u_connection u = c_id (public r) ∧
        (0 < c_budget (public r) → u_success u = true → is_Some (u_cost u))
  | _ => True
  end.
Fixpoint trail_ok (trail : list event) : Prop :=
  match trail with [] => True | e :: older => justified older e ∧ trail_ok older end.

(** ** The invariant *)

(** A cached state is what two reads of the trail said. *)
Definition backed (org : string) (looked : Z) (st : org_state) (trail : list event) : Prop :=
  ∃ disabled row t, SwitchRead org disabled t ∈ trail ∧ ConnectionRead org row t ∈ trail ∧ fresh looked t ∧
    st = load_state decrypt can_create disabled row ∧ ∀ r, row = Some r → row_ok org r.
Record inv (d : db) : Prop := {
  inv_rows org r : connections d !! org = Some r → row_ok org r;
  inv_cache org expires st : cache d !! org = Some (expires, st) → backed org (expires - 1) st (trail d);
  inv_platform expires b : platformCache d = Some (expires, b) → ∃ t, PlatformRead b t ∈ trail d ∧ fresh (expires - 1) t;
  inv_records : records d = records0 ++ metered (trail d);
  inv_trail : trail_ok (trail d)
}.
Definition rely (d d' : db) : Prop := trail d `suffix_of` trail d' ∧ (inv d → inv d').

Lemma rely_trail d d' : rtc rely d d' → trail d `suffix_of` trail d'.
Proof. induction 1 as [|d1 d2 d3 [H _] _ IH]; [done|by etransitivity]. Qed.
Lemma trail_mono e d d' : rtc rely d d' → e ∈ trail d → e ∈ trail d'.
Proof. intros [k ->]%rely_trail. rewrite elem_of_app. auto. Qed.
Lemma backed_mono org looked st l l' : l `suffix_of` l' → backed org looked st l → backed org looked st l'.
Proof.
  intros [k ->] (disabled & row & t & Hs & Hc & H). exists disabled, row, t. rewrite !elem_of_app. auto.
Qed.
Lemma backed_fresh org looked looked' st l : looked' ≤ looked → backed org looked st l → backed org looked' st l.
Proof.
  intros Hl (disabled & row & t & Hs & Hc & Hf & H). exists disabled, row, t. split_and!; [done..| |by apply H|by apply H]. unfold fresh in *. lia.
Qed.

(** One statement: it keeps the invariant and only adds to the trail. *)
Lemma wp_await {A B} (stmt : db → B * db) (k : B → prog db A) d Q :
  (∀ d', rtc rely d d' → inv d' → rely d' (stmt d').2 ∧ (rtc rely d (stmt d').2 → wp inv rely (k (stmt d').1) (stmt d').2 Q)) →
  wp inv rely (await stmt ≫= k) d Q.
Proof. intros H d' Hd HI. destruct (H d' Hd HI) as [HR Hk]. split; [done|]. apply Hk. by eapply rtc_r. Qed.
Lemma wp_await_last {B} (stmt : db → B * db) d (Q : B → db → Prop) :
  (∀ d', rtc rely d d' → inv d' → rely d' (stmt d').2 ∧ ∀ d'', rtc rely (stmt d').2 d'' → Q (stmt d').1 d'') →
  wp inv rely (await stmt) d Q.
Proof. intros H d' Hd HI. destruct (H d' Hd HI) as [HR Hk]. split; [done|]. intros d'' Hd' HI'. by apply Hk. Qed.
Lemma wp_ret {A} (a : A) d (Q : A → db → Prop) : (∀ d', rtc rely d d' → Q a d') → wp inv rely (mret a) d Q.
Proof. intros H d' Hd _. by apply H. Qed.
Lemma wp_then {A B} (p : prog db A) (k : A → prog db B) d P Q :
  wp inv rely p d P → (∀ a d', rtc rely d d' → P a d' → wp inv rely (k a) d' Q) → wp inv rely (p ≫= k) d Q.
Proof. intros Hp Hk. apply wp_bind. by eapply wp_stable_mono. Qed.
Lemma rely_refl d : rely d d.
Proof. done. Qed.
(** A statement that only adds [e], justified, to the trail. *)
Lemma rely_note e d : justified (trail d) e → metered (e :: trail d) = metered (trail d) → rely d (note e d).
Proof.
  intros He Hm. split; [by exists [e]|]. intros [Hr Hc Hp Hu Ht]. split; cbn -[metered]; [done| | |by rewrite Hm|done].
  - intros org expires st Hst. eapply backed_mono; [by exists [e]|by apply Hc].
  - intros expires b Hb. destruct (Hp expires b Hb) as (t & Hin & Hf). exists t. by rewrite elem_of_cons; auto.
Qed.
(** A statement that leaves the trail alone. *)
Lemma rely_same d d' :
  trail d' = trail d → records d' = records d →
  (inv d → ∀ org r, connections d' !! org = Some r → row_ok org r) →
  (inv d → ∀ org expires st, cache d' !! org = Some (expires, st) → backed org (expires - 1) st (trail d)) →
  (inv d → ∀ expires b, platformCache d' = Some (expires, b) → ∃ t, PlatformRead b t ∈ trail d ∧ fresh (expires - 1) t) →
  rely d d'.
Proof.
  intros Ht Hu Hr Hc Hp. split; [by rewrite Ht|]. intros HI. split; rewrite ?Ht, ?Hu; [by apply Hr|by apply Hc|by apply Hp|apply HI..].
Qed.

(** Neither the trail nor what the invariant speaks of. *)
Ltac unchanged d := apply rely_same; [done|done|exact (inv_rows d)|exact (inv_cache d)|exact (inv_platform d)].

(** ** The operations *)

Lemma storedPlatformDisabled_spec nowMs d :
  wp inv rely (storedPlatformDisabled nowMs) d (λ b d', ∃ t, PlatformRead b t ∈ trail d' ∧ fresh nowMs t).
Proof.
  assert (∀ d, wp inv rely (disabled ← await (read_platform nowMs);
    _ ← await (λ d, (tt, with_platformCache (Some (nowMs + AI_ORG_CACHE_TTL_MS, disabled)) d)); mret disabled) d
    (λ b d', ∃ t, PlatformRead b t ∈ trail d' ∧ fresh nowMs t)) as Hload.
  { clear d. intros d. apply wp_await. intros d1 H1 I1. split; [by apply rely_note|]. intros _. cbn [read_platform fst snd].
    apply wp_await. intros d2 H2 I2.
    assert (PlatformRead (platformSetting d1) nowMs ∈ trail d2) as Hin by (eapply trail_mono; [done|by left]).
    split.
    - apply rely_same; [done|done|exact (inv_rows d2)|exact (inv_cache d2)|]. intros HI expires b [= <- <-]. exists nowMs. split; [done|].
      unfold fresh. lia.
    - intros _. apply wp_ret. intros d3 H3. exists nowMs. split; [by eapply trail_mono|].
      unfold fresh, AI_ORG_CACHE_TTL_MS. lia. }
  unfold storedPlatformDisabled. apply wp_await. intros d1 H1 I1. split; [apply rely_refl|]. intros _. cbn [fst snd].
  destruct (platformCache d1) as [[expires b]|] eqn:E; [|apply Hload]. case_match eqn:Hexp; [|apply Hload].
  apply wp_ret. intros d2 H2. destruct (inv_platform d1 I1 _ _ E) as (t & Hin & Hf). exists t. split; [by eapply trail_mono|].
  unfold fresh in *. lia.
Qed.

Lemma loadOrgState_spec org nowMs d :
  wp inv rely (loadOrgState decrypt can_create org nowMs) d (λ st d', backed org nowMs st (trail d')).
Proof.
  unfold loadOrgState. apply wp_await. intros d1 H1 I1. split; [apply rely_refl|]. intros _. cbn [fst snd].
  match goal with |- context [match _ with Some _ => _ | None => ?load end] => set (l := load) end.
  assert (∀ d, wp inv rely l d (λ st d', backed org nowMs st (trail d'))) as Hload.
  { clear -decrypt. intros d. subst l. apply wp_await. intros d1 H1 I1. split; [by apply rely_note|]. intros _. cbn [read_switch fst snd].
    set (b := default false (switches d1 !! org)). set (d1' := note _ d1).
    apply wp_await. intros d2 H2 I2. split; [by apply rely_note|]. intros _. cbn [read_connection fst snd].
    apply wp_await. intros d3 H3 I3. cbn [fst snd].
    assert (backed org (nowMs + AI_ORG_CACHE_TTL_MS - 1) (load_state decrypt can_create b (connections d2 !! org)) (trail d3)) as Hb.
    { exists b, (connections d2 !! org), nowMs. split_and!.
      - eapply trail_mono; [exact H3|]. right. eapply trail_mono; [exact H2|]. left.
      - eapply trail_mono; [exact H3|]. left.
      - unfold fresh. lia.
      - done.
      - intros r. apply (inv_rows d2 I2). }
    split.
    - apply rely_same; [done..|exact (inv_rows d3)| |exact (inv_platform d3)]. intros HI org' expires st. cbn.
      rewrite lookup_insert_Some. intros [[<- [= <- <-]]|[_ Hst]]; [done|by apply (inv_cache d3 HI)].
    - intros _. apply wp_ret. intros d4 H4. eapply backed_mono; [by apply rely_trail|]. eapply backed_fresh; [|exact Hb].
      unfold AI_ORG_CACHE_TTL_MS. lia. }
  destruct (cache d1 !! org) as [[expires st]|] eqn:E; [|apply Hload]. case_match eqn:Hexp; [|apply Hload].
  apply wp_ret. intros d2 H2. eapply backed_fresh; [|eapply backed_mono; [by apply rely_trail|by apply (inv_cache d1 I1)]]. lia.
Qed.

(** Both switches were read off. *)
Definition switches_off (org : option string) (m : moments) (trail : list event) : Prop :=
  envAiDisabled = false ∧ (∃ t, PlatformRead false t ∈ trail ∧ fresh (m_platform m) t) ∧
  ∀ o, org = Some o → ∃ t, SwitchRead o false t ∈ trail ∧ fresh (m_switch m) t.
Lemma switches_off_mono org m l l' : l `suffix_of` l' → switches_off org m l → switches_off org m l'.
Proof.
  intros [k ->] (He & (t & Ht & Hf) & Ho). split_and!; [done|exists t; rewrite elem_of_app; auto|]. intros o Horg.
  destruct (Ho o Horg) as (t' & Ht' & Hf'). exists t'. rewrite elem_of_app. auto.
Qed.

(** The errors of a call before any provider is contacted. *)
Definition early (e : ai_error) : Prop := match e with AiProvider _ | PlatformFailed | InvalidJson => False | _ => True end.
Definition moments_of (clock : nat → Z) : moments := Moments (clock 0%nat) (clock 1%nat) (clock 2%nat).

Lemma assertAllowed_spec org clock d :
  wp inv rely (assertAllowed decrypt can_create envAiDisabled org clock) d (λ r d',
    match r with Err e => early e | Ok _ => switches_off org (moments_of clock) (trail d') end).
Proof.
  unfold assertAllowed, isPlatformDisabled.
  eapply (wp_then _ _ _ (λ b d', b = false → envAiDisabled = false ∧ ∃ t, PlatformRead false t ∈ trail d' ∧ fresh (clock 0%nat) t)).
  { destruct envAiDisabled; [by apply wp_ret|]. eapply wp_mono; [|apply storedPlatformDisabled_spec]. by intros b d' (t & Ht & Hf) ->; eauto. }
  intros [|] d1 H1 Hb; [by apply wp_ret|]. destruct (Hb eq_refl) as (He & t & Ht & Hf).
  destruct org as [o|]; [|apply wp_ret; intros d2 H2; split_and!; [done| |done]; exists t; split; [by eapply trail_mono|done]].
  eapply wp_then; [apply loadOrgState_spec|]. intros st d2 H2 (disabled & row & t' & Hs & _ & Hf' & -> & _).
  apply wp_ret. intros d3 H3. cbn [load_state s_disabled]. destruct disabled; [done|]. split_and!; [done| |].
  - exists t. split; [|done]. eapply trail_mono; [exact H3|]. by eapply trail_mono.
  - intros o' [= <-]. exists t'. split; [by eapply trail_mono|done].
Qed.

Definition routed_ok (org : option string) (m : moments) (to : routed) (trail : list event) : Prop :=
  switches_off org m trail ∧
  match to, org with
  | Platform, None => True
  | Platform, Some o =>
      ∃ row t, ConnectionRead o row t ∈ trail ∧ fresh (m_connection m) t ∧ ∀ r, row = Some r → c_status (public r) = Revoked
  | Byok _ _, None => False
  | Byok c _, Some o =>
      ∃ r t, ConnectionRead o (Some r) t ∈ trail ∧ fresh (m_connection m) t ∧ row_ok o r ∧ usable r ∧ c = public r
  end.

Lemma route_spec org clock d :
  wp inv rely (route decrypt can_create envAiDisabled org clock) d (λ r d',
    match r with Err e => early e | Ok to => routed_ok org (moments_of clock) to (trail d') end).
Proof.
  unfold route. eapply wp_then; [apply assertAllowed_spec|]. intros [u|e] d1 H1 Hoff; [|by apply wp_ret].
  destruct org as [o|].
  2: { apply wp_ret. intros d2 H2. split; [|done]. eapply switches_off_mono; [by apply rely_trail|done]. }
  eapply wp_then; [apply loadOrgState_spec|]. intros st d2 H2 (disabled & row & t & _ & Hc & Hf & -> & Hrow).
  apply wp_ret. intros d3 H3.
  assert (switches_off (Some o) (moments_of clock) (trail d3)) as Hoff' by
    (eapply switches_off_mono; [by etransitivity; [apply (rely_trail d1 d2)|apply rely_trail]|done]).
  assert (ConnectionRead o row t ∈ trail d3) as Hc' by by eapply trail_mono.
  unfold load_state. destruct row as [r|]; cbn [s_connection]; [|split; [done|]; exists None, t; by split_and!].
  case_bool_decide as Hrev; cbn [s_connection].
  { split; [done|]. exists (Some r), t. split_and!; [done..|]. by intros r' [= <-]. }
  cbn [publicConnection fmap option_fmap option_map].
  case_bool_decide as Hdis; [done|]. cbn [s_loadError s_provider].
  destruct (c_status (public r)) eqn:Est; [|done..]. rewrite bool_decide_eq_true_2 by done. cbn [andb].
  destruct (encryptedApiKey r ≫= decrypt) as [key|] eqn:Ekey; cbn [mbind option_bind]; [|done].
  destruct (can_create _) eqn:Ecan; [|done]. cbn.
  split; [done|]. exists r, t. split_and!; [done..|by apply Hrow| |done]. split_and!; [done|by rewrite Ekey|done].
Qed.

(** The model a call ends with is one of the connection's. *)
Lemma pickModel_of c requested : pickModel c requested = c_model c ∨ pickModel c requested ∈ c_allowed c.
Proof.
  unfold pickModel. destruct requested as [m|]; [|by left]. case_match eqn:E; [right|by left].
  apply andb_true_iff in E as [_ E]. by apply bool_decide_eq_true in E.
Qed.

Lemma assertWithinBudget_spec rid c clock d :
  wp inv rely (assertWithinBudget rid c clock) d (λ r d',
    match r with
    | Err e => e = AiBudgetExceeded
    | Ok _ => ∃ spent, SpendRead rid (c_org c) spent (clock 3%nat) ∈ trail d' ∧ ltb spent (of_Z (c_budget c)) = true
    end).
Proof.
  unfold assertWithinBudget. apply wp_await. intros d1 H1 I1. cbn [read_spend fst snd]. split.
  { apply rely_note; [|done]. cbn [justified]. by rewrite <-(inv_records d1 I1). }
  intros _. case_match eqn:Hlt.
  - apply wp_ret. intros d2 H2. eexists. split; [eapply trail_mono; [exact H2|left]|done].
  - apply wp_await. intros d2 H2 I2. unfold claim_refusal. case_match; cbn [fst snd].
    + split; [unchanged d2|].
      intros _. apply wp_await. intros d3 H3 I3. cbn [fst snd].
      split; [unchanged d3|].
      intros _. by apply wp_ret.
    + split; [apply rely_refl|]. intros _. by apply wp_ret.
Qed.

Lemma maybeAlert_spec rid c nowMs spentAt d : wp inv rely (maybeAlert rid c nowMs spentAt) d (λ _ _, True).
Proof.
  unfold maybeAlert. case_match; [by apply wp_ret|]. apply wp_await. intros d1 H1 I1. split; [apply rely_refl|]. intros _. cbn [fst snd].
  case_match; [by apply wp_ret|]. apply wp_await. intros d2 H2 I2. cbn [read_spend fst snd]. split.
  { apply rely_note; [|done]. cbn [justified]. by rewrite <-(inv_records d2 I2). }
  intros _. case_match; [by apply wp_ret|]. apply wp_await. intros d3 R3 I3. split.
  { unfold mark_alert. case_match; [apply rely_refl|]. unchanged d3. }
  intros _. apply wp_await. intros d4 R4 I4. split; [apply rely_refl|]. intros _. case_match; [by apply wp_ret|].
  apply wp_await_last. intros d5 R5 I5. split; [|done].
  unchanged d5.
Qed.

(** An organization's provider was asked, and the usage recorded (or the
    write failed). *)
Definition byok_done (rid : nat) (i : call_input) (k : option completion) (error : option string) (trail : list event) : Prop :=
  ∃ org c, i_org i = Some org ∧ c_org c = org ∧ let model := pickModel c (i_model i) in
    Contacted rid (Some org) (moments_of (i_clock i)) (ToOrganization org (c_id c) model) ∈ trail ∧
    if i_meter i then
      Metered rid (usage_of i c model k (k ≫= λ k, estimateCostCents prices model (k_prompt k) (k_completion k)) error (i_clock i 5%nat)) ∈ trail
    else MeterLost rid org ∈ trail.
Definition call_answer (rid : nat) (i : call_input) (r : result ai_error string) (trail : list event) : Prop :=
  let byPlatform := Contacted rid (i_org i) (moments_of (i_clock i)) ToPlatform ∈ trail in
  match r with
  | Ok text => byPlatform ∧ i_platform i = Ok text ∨ ∃ k, i_complete i = Ok k ∧ byok_done rid i (Some k) None trail
  | Err PlatformFailed => byPlatform ∧ i_platform i = Err false
  | Err (AiProvider type) => i_complete i = Err type ∧ byok_done rid i None (Some type) trail
  | Err InvalidJson => ∃ k, i_complete i = Ok k ∧ byok_done rid i (Some k) None trail
  | Err _ => True
  end.
Lemma byok_done_mono rid i k error l l' : l `suffix_of` l' → byok_done rid i k error l → byok_done rid i k error l'.
Proof.
  intros [n ->] (org & c & Hi & Ho & Hc & Hm). exists org, c. cbn zeta.
  destruct (i_meter i); rewrite !elem_of_app; auto.
Qed.

Lemma estimate_some model p c : is_Some (prices !! model) → is_Some (estimateCostCents prices model p c).
Proof. intros [[input output] H]. unfold estimateCostCents. rewrite H. by eexists. Qed.

(** Recording the usage of a contact. *)
Lemma recordUsage_spec rid i org r t k error d :
  let c := public r in let model := pickModel c (i_model i) in
  i_org i = Some org → row_ok org r → ConnectionRead org (Some r) t ∈ trail d → (error = None → is_Some k) →
  Contacted rid (Some org) (moments_of (i_clock i)) (ToOrganization org (c_id c) model) ∈ trail d →
  let stmt := recordUsage rid i c model k (k ≫= λ k, estimateCostCents prices model (k_prompt k) (k_completion k)) error (i_clock i 5%nat) in
  rely d (stmt d).2 ∧ byok_done rid i k error (trail (stmt d).2).
Proof.
  intros c model Hi [Horg Hpriced] Hread Hk Hcontact. cbn zeta. unfold recordUsage, byok_done. destruct (i_meter i) eqn:Em; cbn [fst snd].
  - set (u := usage_of _ _ _ _ _ _ _). split; [|exists org, c; split_and!; [done..|by right|left]].
    split; [by eexists [_]|]. intros [Hr Hc Hp Hu Ht]. split; cbn -[metered]; [done| | |cbn; by rewrite Hu, <-(assoc_L app)|].
    + intros o expires st Hst. eapply backed_mono; [by eexists [_]|by apply Hc].
    + intros expires b Hb. destruct (Hp expires b Hb) as (t' & Hin & Hf). exists t'. by rewrite elem_of_cons; auto.
    + split; [|done]. split; [exists (moments_of (i_clock i)), model|exists r, t]; cbn [u usage_of u_org u_connection u_success u_cost];
        change (c_org c) with (c_org (public r)); rewrite Horg; [done|]. split_and!; [done..|]. intros Hb He%bool_decide_eq_true. destruct (Hk He) as [k' ->].
      apply estimate_some. apply Hpriced; [done|]. apply pickModel_of.
  - split; [by apply rely_note|]. exists org, c. split_and!; [done..|by right|]. change (c_org c) with (c_org (public r)); rewrite Horg. left.
Qed.

Lemma call_byok_spec rid i c p d :
  routed_ok (i_org i) (moments_of (i_clock i)) (Byok c p) (trail d) →
  wp inv rely (call_byok prices rid i c) d (λ r d', call_answer rid i r (trail d')).
Proof.
  destruct (i_org i) as [org|] eqn:Hi; intros [Hoff Hrow]; [|done].
  destruct Hrow as (r & t & Hread & Hf & [Horg Hpriced] & Husable & ->). unfold call_byok.
  eapply wp_then; [apply assertWithinBudget_spec|]. intros [u|e] d1 R1 Hspent; [|subst e; by apply wp_ret].
  destruct Hspent as (spent & Hspend & Hlt). case_match; [by apply wp_ret|].
  apply wp_await. intros d2 R2 I2. cbn [contact fst snd]. rewrite Hi, Horg. split.
  { apply rely_note; [|done]. assert (rtc rely d d2) as R by by etransitivity.
    eapply switches_off_mono in Hoff as (He & Hp & Ho); [|by apply rely_trail]. split_and!; [done..|by apply Ho|].
    exists (Some r), t. split_and!; [eapply trail_mono; [exact R|exact Hread]|done|]. exists r, spent, (i_clock i 3%nat). split_and!; try done.
    - apply pickModel_of.
    - rewrite <-Horg. eapply trail_mono; [exact R2|exact Hspend]. }
  intros R2'. set (d2' := note _ d2) in *.
  assert (∀ k error d3, rtc rely d2' d3 → (error = None → is_Some k) →
    let stmt := recordUsage rid i (public r) (pickModel (public r) (i_model i)) k
      (k ≫= λ k, estimateCostCents prices (pickModel (public r) (i_model i)) (k_prompt k) (k_completion k)) error (i_clock i 5%nat) in
    rely d3 (stmt d3).2 ∧ byok_done rid i k error (trail (stmt d3).2)) as Hrecord.
  { intros k error d3 R3 Hk. eapply recordUsage_spec; [done|by split| |done|].
    - eapply trail_mono; [|exact Hread]. etransitivity; [exact R1|]. by etransitivity.
    - eapply trail_mono; [exact R3|left]. }
  destruct (i_complete i) as [k|type] eqn:Ek.
  - apply wp_await. intros d3 R3 I3. destruct (Hrecord (Some k) None d3 R3) as [Hrely Hdone]; [by eexists|]. split; [exact Hrely|].
    intros _. eapply wp_then; [apply maybeAlert_spec|]. intros _ d4 R4 _. apply wp_ret. intros d5 R5.
    assert (byok_done rid i (Some k) None (trail d5)) as Hdone' by (eapply byok_done_mono; [|exact Hdone]; apply rely_trail; by etransitivity).
    unfold after. destruct (i_after i); [|done]. destruct (i_json i); [destruct (k_json k)|]; cbn; eauto.
  - apply wp_await. intros d3 R3 I3. destruct (Hrecord None (Some type) d3 R3) as [Hrely Hdone]; [done|]. split; [exact Hrely|].
    intros _. apply wp_ret. intros d4 R4. split; [done|]. eapply byok_done_mono; [by apply rely_trail|done].
Qed.

Lemma call_answer_mono rid i r l l' : l `suffix_of` l' → call_answer rid i r l → call_answer rid i r l'.
Proof.
  intros Hl. assert (∀ k error, byok_done rid i k error l → byok_done rid i k error l') as Hb by (intros k error; by apply byok_done_mono).
  assert (∀ e, e ∈ l → e ∈ l') as He by (destruct Hl as [k ->]; intros e; rewrite elem_of_app; auto).
  destruct r as [text|[]]; cbn; naive_solver.
Qed.

Lemma call_platform_spec rid i d :
  routed_ok (i_org i) (moments_of (i_clock i)) Platform (trail d) →
  wp inv rely (call_platform rid i) d (λ r d', call_answer rid i r (trail d')).
Proof.
  intros [Hoff Hrow]. unfold call_platform. destruct (i_configured i); cbn [negb]; [|by apply wp_ret]. apply wp_await. intros d1 R1 I1. cbn [contact fst snd]. split.
  - apply rely_note; [|done]. eapply switches_off_mono in Hoff as (He & Hp & Ho); [|by apply rely_trail]. split_and!; [done..|].
    destruct (i_org i) as [org|]; [|done]. split; [by apply Ho|]. destruct Hrow as (row & t & Hread & Hf & Hrow).
    exists row, t. split_and!; [by eapply trail_mono|done..].
  - intros _. apply wp_ret. intros d2 R2.
    assert (Contacted rid (i_org i) (moments_of (i_clock i)) ToPlatform ∈ trail d2) by (eapply trail_mono; [exact R2|left]).
    unfold after. destruct (i_platform i) as [answer|[]] eqn:E, (i_after i); unfold call_answer; rewrite ?E; auto.
Qed.

Lemma call_spec rid i d :
  wp inv rely (call decrypt can_create prices envAiDisabled rid i) d (λ r d', call_answer rid i r (trail d')).
Proof.
  unfold call. eapply wp_then; [apply route_spec|]. intros [to|e] d1 R1 Hto; [|by apply wp_ret; destruct e].
  destruct (i_before i); cbn [negb]; [|by apply wp_ret]. destruct (i_aborted i 0%nat); [by apply wp_ret|].
  destruct to as [|c p]; [by apply call_platform_spec|by eapply call_byok_spec].
Qed.

(** ** The handlers *)

Definition harmless {A} (p : prog db A) : Prop := ∀ d, wp inv rely p d (λ _ _, True).
Lemma harmless_ret {A} (a : A) : harmless (mret a).
Proof. intros d. by apply wp_ret. Qed.
Lemma harmless_await {A B} (stmt : db → B * db) (k : B → prog db A) :
  (∀ d, inv d → rely d (stmt d).2) → (∀ b, harmless (k b)) → harmless (await stmt ≫= k).
Proof. intros Hs Hk d. apply wp_await. intros d1 _ I1. split; [by apply Hs|]. intros _. apply Hk. Qed.

Lemma harmless_changed org action nowMs answer : harmless (changed org action nowMs answer).
Proof.
  apply harmless_await; [|intros _; apply harmless_await; [|intros _; apply harmless_ret]]; intros d I; cbn [fst snd].
  - apply rely_same; [done|done|exact (inv_rows d)| |exact (inv_platform d)]. intros HI o expires st. cbn.
    case_bool_decide; [by rewrite lookup_empty|]. rewrite lookup_delete_Some. intros [_ Hst]. by apply (inv_cache d HI).
  - unchanged d.
Qed.
Lemma set_connection_rely org row d : row_ok org row → rely d (set_connection org row d).
Proof.
  intros Hrow. apply rely_same; [done|done| |exact (inv_cache d)|exact (inv_platform d)]. intros HI o r. cbn.
  rewrite lookup_insert_Some. intros [[<- <-]|[_ Hr]]; [done|by apply (inv_rows d HI)].
Qed.
Lemma harmless_update org action nowMs f :
  (∀ r, row_ok org r → row_ok org (f r)) → harmless (update_and_record org action nowMs f).
Proof.
  intros Hf. apply harmless_await; [|intros []; [apply harmless_changed|apply harmless_ret]]. intros d I.
  destruct (connections d !! org) as [r|] eqn:E; [|apply rely_refl]. apply set_connection_rely, Hf. by apply (inv_rows d I).
Qed.
Lemma harmless_found {A} org (k : option connection_row → prog db A) : (∀ row, harmless (k row)) → harmless (x ← findConnection org; k x).
Proof. intros Hk. apply harmless_await; [intros d _; apply rely_refl|done]. Qed.

(** A stored budget has a price for every model it may be spent on. *)
Lemma priced_checked id org status baseUrl model allowed budget models :
  rejectUnpricedModels prices models budget = false → (∀ m, m = model ∨ m ∈ allowed → m ∈ models) →
  priced (Connection id org status baseUrl model allowed budget).
Proof.
  unfold rejectUnpricedModels. intros Hreject Hin Hb m Hm. cbn in *. rewrite (proj2 (Z.ltb_lt _ _) Hb) in Hreject.
  apply negb_false_iff, bool_decide_eq_true in Hreject.
  destruct (prices !! m) as [price|] eqn:E; [by eexists|]. exfalso.
  assert (m ∈ unpricedModels prices models) as Hun.
  { unfold unpricedModels. apply list_elem_of_In, filter_In. split.
    - apply list_elem_of_In, elem_of_unique, Hin, Hm.
    - unfold hasModelPrice. rewrite E. rewrite bool_decide_eq_false_2; [done|]. by intros [? ?]. }
  rewrite Hreject in Hun. by apply not_elem_of_nil in Hun.
Qed.

Lemma status_ok org status key r : row_ok org r → row_ok org (with_status status (with_key key r)).
Proof. by intros [Ho Hp]. Qed.
Lemma status_only_ok org status r : row_ok org r → row_ok org (with_status status r).
Proof. by intros [Ho Hp]. Qed.

Lemma connect_harmless org newId body v encrypted nowMs : harmless (connect prices org newId body v encrypted nowMs).
Proof.
  unfold connect. destruct (rejectUnpricedModels _ _ _) eqn:Hreject; [apply harmless_ret|].
  destruct v as [baseUrl| | |]; cbn [validationFailure]; [destruct encrypted as [key|]|..]; [|apply harmless_ret..].
  apply harmless_found. intros _. apply harmless_await; [intros d _|intros _; apply harmless_changed]. apply set_connection_rely.
  split; [done|]. cbn [public]. eapply priced_checked; [exact Hreject|]. intros m. by rewrite elem_of_unique, elem_of_cons.
Qed.
Lemma validate_harmless org v nowMs : harmless (validate decrypt org v nowMs).
Proof.
  apply harmless_found. intros row. destruct (in_force row) as [r|]; [|apply harmless_ret].
  destruct (encryptedApiKey r); [|apply harmless_ret]. case_bool_decide; [apply harmless_ret|].
  destruct v as [| |type|]; [..|apply harmless_ret]; apply harmless_update; intros r'; [apply status_only_ok..|].
  case_bool_decide; [apply status_only_ok|done].
Qed.
Lemma rotate_harmless org v encrypted nowMs : harmless (rotate org v encrypted nowMs).
Proof.
  apply harmless_found. intros row. destruct (in_force row), (validationFailure v), encrypted; try apply harmless_ret.
  apply harmless_update. intros r'. apply status_ok.
Qed.
Lemma revoke_harmless org nowMs : harmless (revoke org nowMs).
Proof.
  apply harmless_found. intros row. destruct (in_force row); [|apply harmless_ret]. apply harmless_update. intros r'. apply status_ok.
Qed.
Lemma settings_harmless org allowed model budget nowMs : harmless (settings prices org allowed model budget nowMs).
Proof.
  apply harmless_found. intros row. destruct (in_force row) as [r|]; [|apply harmless_ret]. cbn zeta.
  destruct (bool_decide _); cbn [negb]; [|apply harmless_ret]. destruct (rejectUnpricedModels _ _ _) eqn:Hreject; [apply harmless_ret|]. apply harmless_update.
  intros r' [Ho _]. split; [done|]. eapply priced_checked; [exact Hreject|]. intros m. by rewrite elem_of_cons.
Qed.
Lemma switches_harmless org disabled nowMs : harmless (setOrganizationAiDisabled org disabled nowMs).
Proof. apply harmless_await; [|intros _; apply harmless_changed]. intros d I. unchanged d. Qed.

Definition answer_ok (rid : nat) (i : input) (r : reply) (d : db) : Prop :=
  match i, r with CallAi i, Called r => call_answer rid i r (trail d) | CallAi _, _ => False | _, _ => True end.

Lemma handle_ok rid i d : inv d → wp inv rely (handle decrypt can_create prices envAiDisabled rid i) d (answer_ok rid i).
Proof.
  intros _. assert (∀ p : prog db reply, harmless p → (∀ r d, answer_ok rid i r d) →
    wp inv rely p d (answer_ok rid i)) as Hh.
  { intros p Hp Hall. eapply wp_mono; [|apply Hp]. intros r d' _. apply Hall. }
  destruct i as [i| | | | | | |]; cbn [handle]; [|apply Hh; [|done]..].
  - eapply wp_then; [apply call_spec|]. intros r d1 R1 Hr. apply wp_ret. intros d2 R2. eapply call_answer_mono; [by apply rely_trail|done].
  - apply connect_harmless.
  - apply validate_harmless.
  - apply rotate_harmless.
  - apply revoke_harmless.
  - apply settings_harmless.
  - apply switches_harmless.
  - intros d1. eapply (wp_then _ _ _ (λ _ _, True)); [|intros _ d2 _ _; by apply wp_ret].
    apply wp_await. intros d2 _ I2. split; [unchanged d2|]. intros _. apply wp_await_last. intros d3 _ I3. split; [|done].
    apply rely_same; [done|done|exact (inv_rows d3)|exact (inv_cache d3)|done].
Qed.
End specification.

(** ** Properties *)

Section properties.
Context (decrypt : string → option string) (can_create : string → bool) (prices : gmap string (num * num)) (envAiDisabled : bool).

(** A process that starts on this database: nothing cached, nothing noted, and
    every stored budget covered by prices. *)
Definition starts (d : db) : Prop :=
  cache d = ∅ ∧ platformCache d = None ∧ trail d = [] ∧ ∀ org r, connections d !! org = Some r → row_ok prices org r.
Abbreviation steps := (rtc (step (handle decrypt can_create prices envAiDisabled))).

Lemma ai_reachable d s : starts d → steps (initial d) s →
  inv decrypt can_create prices envAiDisabled (records d) (data s) ∧
  ∀ n i a, (n, i, Done a) ∈ requests s → answer_ok prices n i a (data s).
Proof.
  intros (Hc & Hp & Ht & Hr) Hs.
  eapply (reachable_spec _ (rely decrypt can_create prices envAiDisabled (records d))) in Hs as (HI & _ & Ha); [split; [exact HI|exact Ha]|..].
  - by intros d1 d2 HI [_ HR]; apply HR.
  - intros n i d1. apply handle_ok.
  - split; rewrite ?Ht; [done| | |by rewrite app_nil_r|done].
    + intros org expires st. by rewrite Hc, lookup_empty.
    + intros expires b. by rewrite Hp.
Qed.

Lemma trail_justified_at records0 trail newer e older :
  trail_ok decrypt can_create prices envAiDisabled records0 trail → trail = newer ++ e :: older →
  justified decrypt can_create prices envAiDisabled records0 older e.
Proof. intros H ->. induction newer as [|e' newer IH]; [by destruct H|]. apply IH, H. Qed.


(** What an answered call says is what happened: an answer or
    an unreadable one comes from the provider that was contacted for this
    request's organization, a provider error of the organization's connection
    means that connection was asked and failed with that type, and each contact
    of it left one usage record of this request (or a logged failure to write
    it) with its model, tokens, cost and error. *)
Lemma ai_calls_answered d s n i a :
  starts d → steps (initial d) s → (n, CallAi i, Done (Called a)) ∈ requests s → call_answer prices n i a (trail (data s)).
Proof. intros Hd Hs Hin. destruct (ai_reachable d s Hd Hs) as [_ Ha]. exact (Ha _ _ _ Hin). Qed.
End properties.

(** ** Examples *)

Definition demo_row : connection_row :=
  Row (Connection "conn" "org" Active "https://ai.example" "small" ["small"] 100) (Some "key").
Definition demo_db : db := Db false ∅ {["org" := demo_row]} [] [] ∅ None ∅ ∅ [].
Definition demo_prices : gmap string (num * num) := {["small" := (of_Z 15, of_Z 60)]}.
Definition demo_call (org : option string) : call_input :=
  CallInput org (Some "summary") (Some "req-1") (λ k, 1000 + Z.of_nat k) (λ _, false) true true None false (Err true) true
    (Ok (Completion "hello" None 2000000 1000000 false)) true.
Definition demo_handle : nat → input → prog db reply := handle Some (λ _, true) demo_prices false.
Definition demo_sys := perform demo_handle ([Arrive (CallAi (demo_call (Some "org")))] ++ replicate 20 (Run 0)) (initial demo_db).
Example demo_answers : answers demo_sys = [(0%nat, Called (Ok "hello"))] ∧ u_cost <$> records (data demo_sys) = [Some (of_Z 90)].
Proof. vm_compute. done. Qed.
Lemma demo_starts : starts demo_prices demo_db.
Proof.
  split_and!; [done..|]. intros org r. cbn. rewrite lookup_singleton_Some. intros [<- <-]. split; [done|]. intros _ m Hm.
  assert (m = "small") as -> by (destruct Hm as [->| ->%list_elem_of_singleton]; done). by eexists.
Qed.
Lemma demo_steps : rtc (step demo_handle) (initial demo_db) demo_sys.
Proof. apply perform_steps. Qed.

Lemma ai_calls_answered_witness :
  requests demo_sys = [(0%nat, CallAi (demo_call (Some "org")), Done (Called (Ok "hello")))] ∧
  call_answer demo_prices 0 (demo_call (Some "org")) (Ok "hello") (trail (data demo_sys)).
Proof.
  assert (requests demo_sys = [(0%nat, CallAi (demo_call (Some "org")), Done (Called (Ok "hello")))]) as H by (vm_compute; reflexivity).
  split; [exact H|]. apply (ai_calls_answered Some (λ _, true) demo_prices false demo_db demo_sys 0 _ _ demo_starts demo_steps).
  rewrite H. left.
Defined.

(** A load under way when an administrator turns AI off stores what it read
    before: this very process goes on serving the organization from its cache. *)
Definition stale_schedule : list (action (Input := input)) :=
  [Arrive (CallAi (demo_call (Some "org")))] ++ replicate 5 (Run 0) ++        (* the switch is read off *)
  [Arrive (SetOrganization "org" true 1500)] ++ replicate 3 (Run 0) ++        (* the change, its invalidation, its audit *)
  replicate 2 (Run 1) ++                                                      (* the load ends: the cache holds what it read *)
  [Arrive (CallAi (demo_call (Some "org")))] ++ replicate 20 (Run 0).
Lemma stale_switch_after_change :
  let s := perform demo_handle stale_schedule (initial demo_db) in
  switches (data s) !! "org" = Some true ∧ answers s = [(2%nat, Called (Ok "hello")); (1%nat, Replied 200 "ok")].
Proof. vm_compute. done. Qed.
End AiControl.
