(* ===== verification/MfaEnforcement.v ===== *)
(** * Requiring two-factor authentication

    src/src/auth/mfa-enforcement.js: in an organization that requires it, a
    staff member who has not enrolled may only enrol or sign out.  The global
    hook reads the account on every request. *)

From S2P Require Import Prelude TenantTables Tenancy TenantGuard Mfa ViewPolicy.
Import Tenancy.Tenancy(mem) SecondFactor ViewPolicy.ViewPolicy(normalizedPath).

Module MfaEnforcement.

(* src/src/auth/mfa-enforcement.js:50-70 MFA_ENROLLMENT_ALLOWED_ROUTES *)
Definition MFA_ENROLLMENT_ALLOWED_ROUTES : list string :=
  ["GET /api/auth/me"; "POST /api/auth/logout"; "POST /api/auth/impersonation/stop";
   "GET /api/auth/mfa"; "POST /api/auth/mfa/enroll"; "POST /api/auth/mfa/confirm";
   "POST /api/auth/login"; "POST /api/auth/login/mfa"; "POST /api/auth/forgot-password"; "POST /api/auth/reset-password";
   "POST /api/auth/client/login"; "POST /api/auth/client/signup"; "POST /api/auth/break-glass/redeem";
   "GET /api/live"; "GET /api/health"].

Definition upper (c : Ascii.ascii) : Ascii.ascii :=
  let n := Ascii.nat_of_ascii c in if ((97 <=? n) && (n <=? 122))%nat then Ascii.ascii_of_nat (n - 32) else c.
Fixpoint toUpperCase (s : string) : string :=
  match s with EmptyString => EmptyString | String c s' => String (upper c) (toUpperCase s') end.

(* src/src/auth/mfa-enforcement.js:79-82 isMfaEnrollmentAllowedRoute *)
Definition isMfaEnrollmentAllowedRoute (method routeUrl : string) : bool :=
  let verb := if bool_decide (toUpperCase method = "HEAD") then "GET" else toUpperCase method in
  mem (verb +:+ " " +:+ routeUrl) MFA_ENROLLMENT_ALLOWED_ROUTES.

(** An account with its organization's requirement. *)
Record account := Account { a_user : user; a_mfaRequired : bool }.

(* src/src/auth/mfa-enforcement.js:90-94 mustEnrollMfa *)
Definition mustEnrollMfa (a : account) : bool :=
  isMfaEligible (a_user a) && a_mfaRequired a && negb (isMfaRequired (a_user a)).

(** What the hook sees: the router's pattern, the route's configuration, the
    principal set by the route's guard, and a verified session token's. *)
Record request := Request {
  r_method : string; r_raw : Guard.request; r_routeUrl : option string; r_public : bool; r_actsForStaff : bool;
  r_actor : option string; r_user : option string; r_token_user : option string
}.

(* src/src/auth/mfa-enforcement.js:119-122 isPublicRoute *)
Definition isPublicRoute (r : request) : bool := r_public r && negb (r_actsForStaff r).

(* src/src/auth/mfa-enforcement.js:169-187 requestPrincipalId *)
Definition requestPrincipalId (r : request) : option string :=
  match present (r_actor r), present (r_user r) with
  | Some a, _ => Some a
  | None, Some u => Some u
  | None, None =>
      match r_routeUrl r with
      | Some url => if Guard.startsWith url "/api/auth/" then r_token_user r else None
      | None => None
      end
  end.

(** [None] is a lookup that threw. *)
Inductive verdict := Pass | EnrollmentRequired | LookupFailed.

(* src/src/auth/mfa-enforcement.js:130-134 isMfaEnrollmentRequired *)
Definition isMfaEnrollmentRequired (found : option account) : bool := from_option mustEnrollMfa false found.

(* src/src/auth/mfa-enforcement.js:194-220 createMfaEnforcementHook *)
Definition mfaEnforcementHook (lookup : string → option (option account)) (r : request) : verdict :=
  let path := normalizedPath (Guard.requestPath (r_raw r)) in
  if negb (Guard.startsWith path "/api/") then Pass
  else match r_routeUrl r with
       | None => Pass
       | Some url =>
           if isMfaEnrollmentAllowedRoute (r_method r) url && bool_decide (url = path) then Pass
           else if isPublicRoute r then Pass
           else match requestPrincipalId r with
                | None => Pass
                | Some id =>
                    match lookup id with
                    | None => LookupFailed
                    | Some found => if isMfaEnrollmentRequired found then EnrollmentRequired else Pass
                    end
                end
       end.

(** A staff identity set by a route's guard passes only to the enrolment
    routes, spelled as the router spells them, unless its account needs no
    enrolment; the viewing administrator's account counts in a support view. *)
Lemma enforcement_complete lookup r id a url :
  let path := normalizedPath (Guard.requestPath (r_raw r)) in
  Guard.startsWith path "/api/" = true → r_routeUrl r = Some url → isPublicRoute r = false → requestPrincipalId r = Some id →
  lookup id = Some (Some a) → mustEnrollMfa a = true → mfaEnforcementHook lookup r = Pass →
  url = path ∧ isMfaEnrollmentAllowedRoute (r_method r) path = true.
Proof.
  intros path Hp Hurl Hpub Hid Hl Hm. unfold mfaEnforcementHook. fold path. rewrite Hp, Hurl, Hpub, Hid, Hl. cbn. rewrite Hm.
  destruct (isMfaEnrollmentAllowedRoute _ _ && _) eqn:E; [|done]. intros _. bool_simplify. done.
Qed.
End MfaEnforcement.
