(* ===== verification/ToolRegistry.v ===== *)
(** * The AI tool registry

    src/src/ai/tools/registry.js: a closed catalogue of what an AI caller may
    use.  A specification is checked when it is registered; nothing runs here
    (ToolActions.v does).  [W] is the rest of the database, which a tool's own
    hooks read and write; a hook answers or throws. *)

From S2P Require Import Prelude JsNumber Json TenantTables Tenancy AuditLog.
Import Js Json.Json Tenancy.Tenancy(mem) AuditLog.Audit(trim).

Module ToolRegistry.

(* src/src/ai/tools/registry.js:17-20 TOOL_CLASSES *)
Definition TOOL_CLASSES : list string := ["read"; "draft"; "prepare"; "execute"].
Definition APPROVAL_CLASSES : list string := ["prepare"; "execute"].
Definition TOOL_ROLES : list string := ["ADMIN"; "TEAM"].
(* src/src/ai/tools/registry.js:28-28 EXTERNAL_TOOL_ALLOWLIST *)
Definition EXTERNAL_TOOL_ALLOWLIST : list string := ["send_slack_message"; "publish_client_service_report_snapshot"].
(* src/src/ai/tools/registry.js:31-33 APPROVAL_TTL_MS *)
Definition APPROVAL_TTL_MS : Z := 10 * 60 * 1000.
Definition MAX_TOOL_TIMEOUT_MS : Z := 60000.

Definition is_lower (c : Ascii.ascii) : bool := let n := Ascii.nat_of_ascii c in ((97 <=? n) && (n <=? 122))%nat.
Definition is_digit (c : Ascii.ascii) : bool := let n := Ascii.nat_of_ascii c in ((48 <=? n) && (n <=? 57))%nat.
Definition is_underscore (c : Ascii.ascii) : bool := (Ascii.nat_of_ascii c =? 95)%nat.
Fixpoint all_chars (p : Ascii.ascii → bool) (s : string) : bool :=
  match s with EmptyString => true | String c s' => p c && all_chars p s' end.
(** [/^[a-z][a-z0-9_]{2,63}$/] *)
(* src/src/ai/tools/registry.js:35-35 TOOL_NAME *)
Definition TOOL_NAME (name : string) : bool :=
  match name with
  | EmptyString => false
  | String c rest => is_lower c && all_chars (λ c, is_lower c || is_digit c || is_underscore c) rest &&
                     (2 <=? String.length rest)%nat && (String.length rest <=? 63)%nat
  end.

(** ** What hooks throw and get *)

(** A thrown [ToolError] (its code), an error whose message is
    [ACTION_TARGET_UNAVAILABLE], the deadline, or anything else. *)
Inductive failure := ToolFailed (code : string) (statusCode : Z) | TargetMessage | TimedOut | Crashed.
#[export] Instance failure_eq_dec : EqDecision failure.
Proof. solve_decision. Defined.

Record person := Person { p_id : string; p_organizationId : string; p_role : string }.
(** The proof of scope: the ids it names and the records it loaded. *)
Record scope := Scope { ids : json; scope_records : json }.

Section registry.
Context {W : Type}.

(** The hooks.  [deliver] is what is sent to the third party; its answer is not
    the program's. *)
Inductive execution :=
  | TransactionMode (isolationLevel : option string)
      (execute : option (W → json → string * string → person → json → result failure json * W))
  | ExternalMode (claimTarget : option (W → json → result failure json)) (attemptedResult : option (json → json))
      (deliver : option (json → result failure json))
  | OtherMode.

Record spec := Spec {
  s_name : string; s_description : string; s_class : string; s_roles : list string;
  s_inputSchema : option (json → option json); s_resolveScope : option (W → person → json → result failure scope);
  s_requiresConfirmation : option bool; s_idempotency : option string; s_timeoutMs : option num; s_maxAttempts : option num;
  s_external : bool; s_irreversible : bool; s_rollback : option string;
  s_approverRoles : option (list string); s_requesterMayApprove : option bool;
  s_run : option (W → person → json → scope → result failure json);
  s_preview : option (W → person → json → scope → result failure json); s_execution : option execution
}.
Record tool := Tool {
  name : string; description : string; class : string; roles : list string;
  inputSchema : json → option json; resolveScope : W → person → json → result failure scope;
  requiresConfirmation : bool; idempotency : string; timeoutMs : num; maxAttempts : num;
  external : bool; irreversible : bool; rollback : option string;
  approverRoles : list string; requesterMayApprove : bool;
  run : option (W → person → json → scope → result failure json);
  preview : option (W → person → json → scope → result failure json); tool_execution : option execution
}.

(** ** Registration *)

(** Why a specification is refused. *)
Inductive refusal :=
  | BadName | NoDescription | BadClass | BadRoles | NoSchema | NoScope | NotAllowlisted | BadTimeout | BadRetry
  | MustConfirm | NeedsKey | NeverRetried | NoRollback | NoPreview | BadIsolation | NoExecute | NotExternal | MissingHook
  | BadMode | NoRun | BadIdempotency | BadApprovers | RegisteredTwice.

(** [!Number.isInteger(n) || n < low || n > high] *)
Definition outside (low high : Z) (n : num) : bool := negb (is_integer n) || ltb n (of_Z low) || ltb (of_Z high) n.
Definition blank (s : option string) : bool := match s with Some s => bool_decide (trim s = "") | None => true end.
Definition one_attempt (n : num) : bool := eqb n (of_Z 1).

(* src/src/ai/tools/registry.js:135-146 defineTool (the execution hooks) *)
Definition check_execution (external : bool) (e : option execution) : result refusal unit :=
  match e with
  | Some (TransactionMode isolationLevel execute) =>
      _ ← refuse_unless (match isolationLevel with Some l => bool_decide (l = "Serializable") | None => true end) BadIsolation;
      refuse_unless (bool_decide (is_Some execute)) NoExecute
  | Some (ExternalMode claimTarget attemptedResult deliver) =>
      _ ← refuse_unless external NotExternal;
      refuse_unless (bool_decide (is_Some claimTarget) && bool_decide (is_Some attemptedResult) && bool_decide (is_Some deliver)) MissingHook
  | _ => Err BadMode
  end.

(* src/src/ai/tools/registry.js:122-150 defineTool (approval) *)
Definition check_approval (s : spec) (maxAttempts : num) : result refusal (bool * string) :=
  if mem (s_class s) APPROVAL_CLASSES then
    _ ← refuse_unless (negb (bool_decide (s_requiresConfirmation s = Some false))) MustConfirm;
    let idempotency := default "required" (s_idempotency s) in
    _ ← refuse_unless (bool_decide (idempotency = "required")) NeedsKey;
    _ ← refuse_unless (one_attempt maxAttempts) NeverRetried;
    _ ← refuse_unless (negb (blank (s_rollback s))) NoRollback;
    _ ← refuse_unless (bool_decide (is_Some (s_preview s))) NoPreview;
    _ ← check_execution (s_external s) (s_execution s);
    mret (true, idempotency)
  else
    let idempotency := default "none" (s_idempotency s) in
    _ ← refuse_unless (bool_decide (is_Some (s_run s))) NoRun;
    _ ← refuse_unless (mem idempotency ["none"; "required"]) BadIdempotency;
    mret (default false (s_requiresConfirmation s), idempotency).

(* src/src/ai/tools/registry.js:96-177 defineTool *)
Definition defineTool (allowlist : list string) (s : spec) : result refusal tool :=
  _ ← refuse_unless (TOOL_NAME (s_name s)) BadName;
  _ ← refuse_unless (negb (blank (Some (s_description s)))) NoDescription;
  _ ← refuse_unless (mem (s_class s) TOOL_CLASSES) BadClass;
  _ ← refuse_unless (negb (bool_decide (s_roles s = [])) && forallb (λ r, mem r TOOL_ROLES) (s_roles s)) BadRoles;
  inputSchema ← match s_inputSchema s with Some f => Ok f | None => Err NoSchema end;
  resolveScope ← match s_resolveScope s with Some f => Ok f | None => Err NoScope end;
  _ ← refuse_unless (negb ((s_external s || s_irreversible s) && negb (mem (s_name s) allowlist))) NotAllowlisted;
  let timeoutMs := default (of_Z 10000) (s_timeoutMs s) in
  _ ← refuse_unless (negb (outside 1 MAX_TOOL_TIMEOUT_MS timeoutMs)) BadTimeout;
  let maxAttempts := default (of_Z 1) (s_maxAttempts s) in
  _ ← refuse_unless (negb (outside 1 3 maxAttempts)) BadRetry;
  approval ← check_approval s maxAttempts;
  let approvers := default ["ADMIN"; "TEAM"] (s_approverRoles s) in
  _ ← refuse_unless (forallb (λ r, mem r TOOL_ROLES) approvers) BadApprovers;
  mret (Tool (s_name s) (trim (s_description s)) (s_class s) (s_roles s) inputSchema resolveScope approval.1 approval.2 timeoutMs maxAttempts
          (s_external s) (s_irreversible s) (trim <$> s_rollback s) approvers (default true (s_requesterMayApprove s))
          (s_run s) (s_preview s) (s_execution s)).

(** The catalogue, in the order of registration. *)
Definition registry := list (string * tool).
Definition get (r : registry) (wanted : string) : option tool :=
  snd <$> head (List.filter (λ nt, bool_decide (nt.1 = wanted)) r).

Definition register (allowlist : list string) (tools : registry) (s : spec) : result refusal registry :=
  tool ← defineTool allowlist s;
  if bool_decide (is_Some (get tools (name tool))) then Err RegisteredTwice else mret (tools ++ [(name tool, tool)]).
(* src/src/ai/tools/registry.js:184-197 createToolRegistry *)
Definition createToolRegistry (allowlist : list string) (specs : list spec) : result refusal registry :=
  foldl (λ r s, tools ← r; register allowlist tools s) (Ok []) specs.

(** ** What a registered tool is *)

Definition runnable (e : option execution) : Prop :=
  match e with
  | Some (TransactionMode isolationLevel execute) => is_Some execute ∧ (∀ l, isolationLevel = Some l → l = "Serializable")
  | Some (ExternalMode claimTarget attemptedResult deliver) => is_Some claimTarget ∧ is_Some attemptedResult ∧ is_Some deliver
  | _ => False
  end.
Record well_formed (allowlist : list string) (t : tool) : Prop := {
  wf_name : TOOL_NAME (name t) = true;
  wf_class : class t ∈ TOOL_CLASSES;
  wf_roles : roles t ≠ [] ∧ ∀ r, r ∈ roles t → r ∈ TOOL_ROLES;
  wf_approvers : ∀ r, r ∈ approverRoles t → r ∈ TOOL_ROLES;
  wf_allowed : external t = true ∨ irreversible t = true → name t ∈ allowlist;
  wf_timeout : is_integer (timeoutMs t) = true ∧ ltb (timeoutMs t) (of_Z 1) = false ∧ ltb (of_Z MAX_TOOL_TIMEOUT_MS) (timeoutMs t) = false;
  wf_gated : class t ∈ APPROVAL_CLASSES →
    requiresConfirmation t = true ∧ idempotency t = "required" ∧ one_attempt (maxAttempts t) = true ∧
    is_Some (preview t) ∧ runnable (tool_execution t);
  wf_outside : class t ∈ APPROVAL_CLASSES → (∃ c a d, tool_execution t = Some (ExternalMode c a d)) → external t = true;
  wf_free : class t ∉ APPROVAL_CLASSES → is_Some (run t)
}.

Lemma mem_iff x l : mem x l = true ↔ x ∈ l.
Proof. unfold mem. apply bool_decide_eq_true. Qed.
Lemma forallb_mem l k : forallb (λ r, mem r k) l = true → ∀ r, r ∈ l → r ∈ k.
Proof. rewrite forallb_forall. intros H r Hr. apply mem_iff, H. by apply list_elem_of_In. Qed.

Ltac guard_step H :=
  apply bind_ok in H as ([] & ?%refuse_unless_ok & H).

Lemma check_execution_ok external e u :
  check_execution external e = Ok u → runnable e ∧ ((∃ c a d, e = Some (ExternalMode c a d)) → external = true).
Proof.
  destruct e as [[isolation execute|c a d|]|]; cbn; intros H; [| |done|done].
  - guard_step H. apply refuse_unless_ok, bool_decide_eq_true in H. split; [|by intros (? & ? & ? & ?)]. split; [done|].
    intros l ->. by eapply bool_decide_eq_true.
  - guard_step H. apply refuse_unless_ok in H. bool_simplify. done.
Qed.

Lemma defineTool_ok allowlist s t : defineTool allowlist s = Ok t → well_formed allowlist t ∧ name t = s_name s.
Proof.
  unfold defineTool. intros H. do 4 guard_step H. apply bind_ok in H as (schema & _ & H). apply bind_ok in H as (resolve & _ & H).
  cbn zeta in H. do 3 guard_step H. apply bind_ok in H as ([confirm idem] & Happ & H). guard_step H. injection H as <-.
  assert (∀ low high n, negb (outside low high n) = true → is_integer n = true ∧ ltb n (of_Z low) = false ∧ ltb (of_Z high) n = false) as Hin.
  { unfold outside. intros low high n Hn. apply negb_true_iff in Hn. apply orb_false_iff in Hn as [Hn ?]. apply orb_false_iff in Hn as [Hn%negb_false_iff ?]. done. }
  assert (mem (s_class s) APPROVAL_CLASSES = true ∧ confirm = true ∧ idem = "required" ∧ one_attempt (default (of_Z 1) (s_maxAttempts s)) = true ∧
    is_Some (s_preview s) ∧ runnable (s_execution s) ∧ ((∃ c a d, s_execution s = Some (ExternalMode c a d)) → s_external s = true)
    ∨ mem (s_class s) APPROVAL_CLASSES = false ∧ is_Some (s_run s)) as Hcase.
  { unfold check_approval in Happ. destruct (mem (s_class s) APPROVAL_CLASSES); [left|right]; cbn zeta in Happ.
    - do 5 guard_step Happ. apply bind_ok in Happ as ([] & [Hrun Hext]%check_execution_ok & Happ). injection Happ as <- <-.
      repeat match goal with H : bool_decide _ = true |- _ => apply bool_decide_eq_true in H end. done.
    - do 2 guard_step Happ. injection Happ as <- <-. split; [done|]. by apply (bool_decide_eq_true (is_Some (s_run s))). }
  split; [|done]. split; cbn [name class roles approverRoles external irreversible timeoutMs maxAttempts requiresConfirmation idempotency preview tool_execution run].
  - done.
  - by apply mem_iff.
  - match goal with H : negb (bool_decide (s_roles s = [])) && _ = true |- _ => apply andb_true_iff in H as [Hne Hall] end.
    apply negb_true_iff, bool_decide_eq_false in Hne. split; [done|]. by apply forallb_mem.
  - by apply forallb_mem.
  - match goal with H : negb ((s_external s || s_irreversible s) && _) = true |- _ => apply negb_true_iff in H; rename H into Hl end.
    intros Hx. apply mem_iff. destruct (mem (s_name s) allowlist); [done|]. by destruct Hx as [Hx|Hx]; rewrite Hx, ?orb_true_r in Hl.
  - by apply Hin.
  - intros Hc%mem_iff. destruct Hcase as [(_ & ? & ? & ? & ? & ? & _)|[Hno _]]; [done|congruence].
  - intros Hc%mem_iff. destruct Hcase as [(_ & _ & _ & _ & _ & _ & Hx)|[Hno _]]; [exact Hx|congruence].
  - intros Hc. destruct Hcase as [(Hyes & _)|[_ ?]]; [by apply mem_iff in Hyes|done].
Qed.

Lemma get_app r n t wanted :
  get r n = None → get (r ++ [(n, t)]) wanted = if decide (wanted = n) then Some t else get r wanted.
Proof.
  unfold get. rewrite List.filter_app. cbn. intros Hn. destruct (decide (wanted = n)) as [->|Hne].
  - rewrite bool_decide_refl. by destruct (List.filter _ r).
  - rewrite bool_decide_neq by congruence. by rewrite app_nil_r.
Qed.

Lemma registered allowlist specs r0 r :
  foldl (λ r s, tools ← r; register allowlist tools s) (Ok r0) specs = Ok r →
  (∀ n t, get r0 n = Some t → name t = n ∧ well_formed allowlist t) → ∀ n t, get r n = Some t → name t = n ∧ well_formed allowlist t.
Proof.
  revert r0. induction specs as [|s specs IH]; intros r0 H Hr; [by injection H as <-|]. cbn in H. destruct (register allowlist r0 s) as [r1|e] eqn:E.
  - apply (IH r1 H). unfold register in E. apply bind_ok in E as (t & [Hwf Hn]%defineTool_ok & E). case_bool_decide as Hg; [done|]. injection E as <-.
    assert (get r0 (name t) = None) as Hnone by (destruct (get r0 (name t)); [exfalso; eauto|done]).
    intros n t'. rewrite (get_app _ _ _ _ Hnone). case_decide as Hd; [by intros [= <-]|apply Hr].
  - exfalso. clear -H. induction specs as [|s' specs IH]; [done|]. by apply IH.
Qed.
End registry.
Arguments execution : clear implicits.
Arguments spec : clear implicits.
Arguments tool : clear implicits.
Arguments registry : clear implicits.

(** A registered tool is well formed, whatever its specification:
    looked up by its own name, with a class and roles of the closed lists and a
    bounded integer timeout; one that reaches outside or cannot be undone is on
    the allowlist; and one that changes anything always needs a confirmation
    and an idempotency key, is never retried, has a preview, and has every hook
    of its execution mode, an external one being declared so. *)
Lemma registered_tools_well_formed {W} allowlist (specs : list (spec W)) r wanted t :
  createToolRegistry allowlist specs = Ok r → get r wanted = Some t → name t = wanted ∧ well_formed allowlist t.
Proof. intros H. by apply (registered _ _ _ _ H). Qed.

(** ** Examples *)

Definition demo_schema (j : json) : option json := match j with JObj _ => Some j | _ => None end.
Definition demo_execute (w : Z) (input : json) (requester : string * string) (approver : person) (p : json) : result failure json * Z :=
  (Ok (JObj [("taskId", JStr "task-1")]), w + 1).
Definition demo_write : spec Z :=
  Spec "create_task" "Create a task." "execute" ["ADMIN"; "TEAM"] (Some demo_schema) (Some (λ _ _ _, Ok (Scope (JObj []) JNull)))
    (Some true) (Some "required") None None false false (Some "Delete it.") None (Some false)
    None (Some (λ _ _ input _, Ok input)) (Some (TransactionMode None (Some demo_execute))).
Definition demo_read : spec Z :=
  Spec "list_tasks" "List tasks." "read" ["ADMIN"; "TEAM"] (Some demo_schema) (Some (λ _ _ _, Ok (Scope (JObj []) JNull)))
    None None (Some (of_Z 5000)) None false false None None None (Some (λ w _ _ _, Ok (JArr []))) None None.
Definition demo_send (name : string) : spec Z :=
  Spec name "Post a message." "execute" ["ADMIN"; "TEAM"] (Some demo_schema) (Some (λ _ _ _, Ok (Scope (JObj []) JNull)))
    (Some true) None (Some (of_Z 15000)) None true true (Some "Cannot be recalled.") None None
    None (Some (λ _ _ input _, Ok input))
    (Some (ExternalMode (Some (λ _ input, Ok input)) (Some (λ target, JObj [("deliveryState", JStr "UNKNOWN")])) (Some Ok))).
Definition demo_specs : list (spec Z) := [demo_read; demo_write; demo_send "send_slack_message"].
Definition demo_registry : registry Z := match createToolRegistry EXTERNAL_TOOL_ALLOWLIST demo_specs with Ok r => r | Err _ => [] end.

Example demo_refusals :
  createToolRegistry EXTERNAL_TOOL_ALLOWLIST [demo_send "send_everything"] = Err NotAllowlisted ∧
  createToolRegistry EXTERNAL_TOOL_ALLOWLIST [demo_read; demo_read] = Err RegisteredTwice ∧ fst <$> demo_registry = ["list_tasks"; "create_task"; "send_slack_message"].
Proof. vm_compute. done. Qed.

Lemma registered_tools_well_formed_witness :
  ∃ t, get demo_registry "create_task" = Some t ∧ name t = "create_task" ∧ well_formed EXTERNAL_TOOL_ALLOWLIST t.
Proof.
  assert (is_Some (get demo_registry "create_task")) as [t Ht] by (vm_compute; eauto). exists t. split; [done|].
  apply (registered_tools_well_formed EXTERNAL_TOOL_ALLOWLIST demo_specs demo_registry); [vm_compute; reflexivity|exact Ht].
Defined.
End ToolRegistry.
