(* ===== verification/ToolActions.v ===== *)
(** * Governed tool calls

    src/src/ai/tools/executor.js with src/src/auth/mcp-action-authority.js: a
    call of a read tool answers at once; anything that changes something only
    becomes a pending action, which an authorised person approves or rejects.
    Requests are cut at their database statements (Async.v); what a transaction
    commits is one statement, preceded by the reads of authority it makes.
    [trail] notes, newest first, what was read, approved and carried out; no
    code reads it.  The tools' own tables are [W]. *)

From S2P Require Import Prelude Json JsNumber TenantTables Tenancy Mfa MfaEnforcement Async ToolRegistry.
Import Json.Json Tenancy.Tenancy(mem, toLowerCase) ToolRegistry.ToolRegistry.

Module ToolActions.

(** ** Redaction *)

Fixpoint contains (sub s : string) : bool :=
  String.prefix sub s || match s with EmptyString => false | String _ s' => contains sub s' end.
(** The alternatives of [SECRET_FIELD], with [[-_]?] written out. *)
Definition SECRET_WORDS : list string :=
  ["password"; "passwd"; "secret"; "token"; "apikey"; "api-key"; "api_key"; "privatekey"; "private-key"; "private_key";
   "encrypted"; "credential"; "authorization"; "cookie"; "hash"].
(* src/src/ai/tools/executor.js:70-70 SECRET_FIELD *)
Definition SECRET_FIELD (key : string) : bool := existsb (λ w, contains w (toLowerCase key)) SECRET_WORDS.

Definition bracketed (name : string) : string := "[" +:+ String quote (name +:+ String quote "]").
(* src/src/utils/log-redaction.js:7-26 LOG_REDACT_PATHS *)
Definition LOG_REDACT_PATHS : list string :=
  let headers := [".authorization"; bracketed "x-api-key"; ".cookie"; bracketed "set-cookie"] in
  (h ← headers; (λ p, p +:+ h) <$> ["req.headers"; "request.headers"; "headers"; "res.headers"]) ++
  ["apiKey"; "rawKey"; "password"; "newPassword"; "currentPassword"] ++
  ["*.apiKey"; "*.rawKey"; "*.password"; "*.newPassword"; "*.currentPassword"].
Definition is_alpha (c : Ascii.ascii) : bool := let n := Ascii.nat_of_ascii c in (((65 <=? n) && (n <=? 90)) || ((97 <=? n) && (n <=? 122)))%nat.
Definition strip_star (path : string) : string :=
  match path with String a (String b rest) => if String.prefix "*." path then rest else path | _ => path end.
(* src/src/ai/tools/executor.js:66-69 LOG_REDACTED_FIELDS *)
Definition LOG_REDACTED_FIELDS : list string :=
  toLowerCase <$> List.filter (λ p, negb (bool_decide (p = "")) && all_chars is_alpha p) (strip_star <$> LOG_REDACT_PATHS).
Definition secret_key (key : string) : bool := SECRET_FIELD key || mem (toLowerCase key) LOG_REDACTED_FIELDS.

(** [mask] is [value.replace(SECRET_VALUE, '[redacted]')]. *)
(* src/src/ai/tools/executor.js:97-113 redactSecrets *)
Fixpoint redact (mask : string → string) (depth : nat) (value : json) : json :=
  if (12 <? depth)%nat then JNull
  else match value with
       | JStr s => JStr (mask s)
       | JArr l => JArr (List.map (redact mask (S depth)) l)
       | JObj fields => JObj (omap (λ kv, if secret_key kv.1 then None else Some (kv.1, redact mask (S depth) kv.2)) fields)
       | v => v
       end.
Definition redactSecrets (mask : string → string) (value : json) : json := redact mask 0 value.

(** ** Data *)

(* src/src/ai/tools/input-budgets.js:2-17 toolInputByteLimit *)
Definition toolInputByteLimit (name : string) : Z :=
  if mem name ["preview_create_resource_link"; "create_resource_link"; "preview_update_resource_link"; "update_resource_link";
               "preview_reorder_resource_links"; "reorder_resource_links"] then 512 * 1024 else 16 * 1024.

(* src/src/auth/mcp-oauth-scopes.js:3-11 MCP_OAUTH_ACTION_SCOPES *)
Definition MCP_OAUTH_ACTION_SCOPES : list (string * string) :=
  [("create_client_task", "workspace:client-tasks:write");
   ("publish_client_service_report_snapshot", "workspace:service-reports:publish");
   ("create_resource_link", "workspace:resource-links:write"); ("update_resource_link", "workspace:resource-links:write");
   ("archive_resource_link", "workspace:resource-links:write"); ("restore_resource_link", "workspace:resource-links:write");
   ("reorder_resource_links", "workspace:resource-links:write")].
(* src/src/auth/mcp-oauth-scopes.js:12-17 MCP_OAUTH_SUPPORTED_SCOPES *)
Definition MCP_OAUTH_SUPPORTED_SCOPES : list string :=
  ["workspace:read"; "workspace:client-tasks:write"; "workspace:service-reports:publish"; "workspace:resource-links:write"].
(* src/src/auth/mcp-oauth-scopes.js:19-22 normalizeMcpScopes *)
Definition normalizeMcpScopes (scopes : option (list string)) : option (list string) :=
  match scopes with
  | None | Some [] => None
  | Some l => if existsb (λ s, negb (mem s MCP_OAUTH_SUPPORTED_SCOPES)) l || negb (mem "workspace:read" l) then None
              else Some (List.filter (λ s, mem s l) MCP_OAUTH_SUPPORTED_SCOPES)
  end.
Definition required_scope (action : string) : option string :=
  snd <$> head (List.filter (λ kv, bool_decide (kv.1 = action)) MCP_OAUTH_ACTION_SCOPES).

Record grant := Grant { g_keyId : string; g_sessionVersion : Z; g_clientId : string; g_scopes : option (list string); g_expiresAt : Z }.
Record context := Ctx { user : person; oauth : option grant; ctx_scopes : list string; requestId : option string }.

Record binding := Binding {
  b_keyId : string; b_userId : string; b_organizationId : string; b_sessionVersion : Z; b_clientId : string; b_requiredScope : string
}.
#[export] Instance binding_eq_dec : EqDecision binding.
Proof. solve_decision. Defined.

Record api_key := ApiKey {
  k_userId : string; k_isActive : bool; k_revokedAt : option Z; k_expiresAt : option Z; k_scopes : option (list string)
}.
Abbreviation account := MfaEnforcement.account.

(** The values of the CHECK constraints. *)
Inductive status := Pending | Executing | Executed | Failed | Rejected | Expired.
#[export] Instance status_eq : EqDecision status.
Proof. solve_decision. Defined.
Inductive outcome := Succeeded | FailedOutcome | Unknown.

(** What a call asked for; nothing changes it later. *)
Record proposal := Proposal {
  p_organization : string; p_user : string; p_action : string; p_key : string; p_input : json; p_hash : string; p_preview : json;
  p_expiresAt : Z; p_source : string; p_class : string; p_correlation : option string; p_scope : json; p_binding : option binding
}.
(** Who decided, when and how. *)
Record decision := Decision_ {
  d_at : Z; d_approver : string; d_role : string; d_method : string; d_byRequester : bool; d_reauthenticated : bool;
  d_request : option string; d_reason : option string
}.
Record row := Row {
  r_proposal : proposal; r_status : status; r_decision : option decision; r_executedAt : option Z;
  r_result : option json; r_errorCode : option string; r_outcome : option outcome
}.

(** What happened, by the number of the request that did it. *)
Inductive event :=
  | Prepared (request : nat) (id : string) (p : proposal)
  | Allowed (request : nat) (org : string)                     (** the AI switches were on *)
  | KeyRead (request : nat) (id : string) (key : option api_key)
  | UserRead (request : nat) (id : string) (u : option account)
  | Approved (request : nat) (id : string) (p : proposal) (who : context) (d : decision)
  | Ran (request : nat) (id : string) (input : json)           (** the tool's own writes were committed *)
  | Sent (request : nat) (id : string) (message : json).       (** a third party was contacted *)
Definition by_request (e : event) : nat :=
  match e with
  | Prepared n _ _ | Allowed n _ | KeyRead n _ _ | UserRead n _ _ | Approved n _ _ _ _ | Ran n _ _ | Sent n _ _ => n
  end.

Record audit := Audit { a_org : string; a_actor : string; a_action : string; a_entity : option string; a_reason : option string }.

(** Errors as the caller sees them: a [ToolError] with the action it carries, an
    AI control error, anything else. *)
Inductive thrown := ToolError (code : string) (statusCode : Z) (action : option (string * row)) | AiError (code : string) | OtherError.
Definition code_of (e : thrown) : string := match e with ToolError c _ _ => c | AiError c => c | OtherError => "DENIED" end.
Definition unavailable : thrown := ToolError "ACTION_UNAVAILABLE" 409 None.
Definition not_found : thrown := ToolError "NOT_FOUND" 404 None.

(** What the deployment's dependencies and the outside world do during a
    request: the clock (its readings in order), the AI switches, the id a new
    row gets, a failure or deadline of a hook, whether a transaction's commit
    is reported, and what a third party answers. *)
Inductive switches := SwitchedOn | ControlError (code : string) | Unreadable.
Inductive commit := Reported | RolledBack | AnswerLost.
Record env := Env {
  clock : nat → Z; e_switches : switches; e_id : string; e_hook : option failure; e_commit : commit; e_reply : result failure json
}.

Section actions.
Context {W : Type}.
(** The catalogue, the masking of secret-looking text, SHA-256 in hexadecimal. *)
Context (registry : registry W) (mask : string → string) (sha256 : string → string).

Record db := Db {
  actions : gmap string row; apiKeys : gmap string api_key; users : gmap string account; world : W; audits : list audit; trail : list event
}.
Definition note (e : event) (d : db) : db := Db (actions d) (apiKeys d) (users d) (world d) (audits d) (e :: trail d).
Definition set_action (id : string) (r : row) (d : db) : db :=
  Db (<[id := r]> (actions d)) (apiKeys d) (users d) (world d) (audits d) (trail d).
Definition set_world (w : W) (d : db) : db := Db (actions d) (apiKeys d) (users d) w (audits d) (trail d).
Definition with_audit (a : audit) (d : db) : db := Db (actions d) (apiKeys d) (users d) (world d) (audits d ++ [a]) (trail d).

Definition answer (A : Type) : Type := result thrown A.

(** ** Audit *)

(* src/src/ai/tools/executor.js:171-182 emit *)
Definition emit (c : context) (action : string) (entityId reason : option string) : prog db unit :=
  await (λ d, (tt, with_audit (Audit (p_organizationId (user c)) (p_id (user c)) action entityId reason) d)).
(* src/src/ai/tools/executor.js:184-191 deny *)
Definition deny {A} (c : context) (error : thrown) (entityId : option string) : prog db (answer A) :=
  let reason := match error with OtherError => "DENIED" | e => code_of e end in
  _ ← emit c "ai.tool_denied" entityId (Some reason); mret (Err error).

(** ** Authority of an OAuth connection *)

(* src/src/auth/mcp-action-authority.js:7-13 oauthActionBinding *)
Definition oauthActionBinding (c : context) (g : grant) (action : string) : option binding :=
  (λ scope, Binding (g_keyId g) (p_id (user c)) (p_organizationId (user c)) (g_sessionVersion g) (g_clientId g) scope) <$> required_scope action.

(** The claim of the bearer: the receipt is its own, and the scope was granted. *)
(* src/src/auth/mcp-action-authority.js:19-21 assertMcpActionAuthority (the claim) *)
Definition claim_ok (c : context) (g : grant) (b : binding) (receipt : option proposal) (now : Z) : bool :=
  match receipt with
  | Some p => bool_decide (p_binding p = Some b) && bool_decide (p_user p = p_id (user c)) &&
              bool_decide (p_organization p = p_organizationId (user c)) && bool_decide (p_source p = "ai_bridge")
  | None => true
  end && mem (b_requiredScope b) (ctx_scopes c) && mem (b_requiredScope b) (default [] (g_scopes g)) && (now <? g_expiresAt g).
(** What is persisted now. *)
(* src/src/auth/mcp-action-authority.js:26-29 assertMcpActionAuthority (the records) *)
Definition records_ok (c : context) (g : grant) (b : binding) (key : option api_key) (u : option account) (now : Z) : bool :=
  match key, u with
  | Some k, Some a =>
      let row := MfaEnforcement.a_user a in
      k_isActive k && bool_decide (k_revokedAt k = None) && bool_decide (k_userId k = p_id (user c)) &&
      match k_expiresAt k with Some t => now <? t | None => false end &&
      match normalizeMcpScopes (k_scopes k) with
      | Some l => bool_decide (Some l = normalizeMcpScopes (g_scopes g)) && mem (b_requiredScope b) l
      | None => false
      end &&
      SecondFactor.m_active row && bool_decide (SecondFactor.m_role row = "ADMIN") &&
      bool_decide (SecondFactor.m_org row = Some (b_organizationId b)) && (SecondFactor.m_version row =? b_sessionVersion b) &&
      negb (MfaEnforcement.mustEnrollMfa a)
  | _, _ => false
  end.

(* src/src/auth/mcp-action-authority.js:16-30 assertMcpActionAuthority *)
Definition assertMcpActionAuthority (n : nat) (c : context) (action : string) (receipt : option proposal) (now : nat → Z) : prog db (answer unit) :=
  match oauth c with
  | None => mret (if bool_decide (is_Some (receipt ≫= p_binding)) then Err not_found else Ok tt)
  | Some g =>
      match oauthActionBinding c g action with
      | None => mret (Err not_found)
      | Some b =>
          if negb (claim_ok c g b receipt (now 0%nat)) then mret (Err not_found)
          else
            key ← await (λ d, (apiKeys d !! g_keyId g, note (KeyRead n (g_keyId g) (apiKeys d !! g_keyId g)) d));
            u ← await (λ d, (users d !! p_id (user c), note (UserRead n (p_id (user c)) (users d !! p_id (user c))) d));
            mret (if records_ok c g b key u (now 1%nat) then Ok tt else Err not_found)
      end
  end.

(** The same inside a serializable transaction, which acts on one state. *)
Definition authority_now (c : context) (action : string) (receipt : option proposal) (now : nat → Z) (d : db) : bool :=
  match oauth c with
  | None => negb (bool_decide (is_Some (receipt ≫= p_binding)))
  | Some g =>
      match oauthActionBinding c g action with
      | None => false
      | Some b => claim_ok c g b receipt (now 0%nat) && records_ok c g b (apiKeys d !! g_keyId g) (users d !! p_id (user c)) (now 1%nat)
      end
  end.

(* src/src/ai/tools/executor.js:193-202 assertAiAllowed *)
Definition assertAiAllowed (n : nat) (c : context) (e : env) : prog db (answer unit) :=
  await (λ d, match e_switches e with
              | SwitchedOn => (Ok tt, note (Allowed n (p_organizationId (user c))) d)
              | ControlError code => (Err (AiError code), d)
              | Unreadable => (Err (ToolError "AI_DISABLED" 503 None), d)
              end).

(** ** Rows *)

(** The request's client sees its organization's rows. *)
Definition visible (c : context) (r : row) : bool := bool_decide (p_organization (r_proposal r) = p_organizationId (user c)).
(* src/src/ai/tools/executor.js:319-321 ownerWhere *)
Definition ownerWhere (c : context) (ownerOnly : bool) (r : row) : bool :=
  if ownerOnly || negb (bool_decide (p_role (user c) = "ADMIN")) then bool_decide (p_user (r_proposal r) = p_id (user c)) else true.
Definition by_key (c : context) (key : string) (d : db) : option (string * row) :=
  head (List.filter (λ kr, visible c kr.2 && bool_decide (p_user (r_proposal kr.2) = p_id (user c)) && bool_decide (p_key (r_proposal kr.2) = key))
          (map_to_list (actions d))).
Definition find (c : context) (scoped : row → bool) (id : string) (d : db) : option row :=
  actions d !! id ≫= λ r, if visible c r && scoped r then Some r else None.

(** The table's CHECK constraint on a binding. *)
(* src/prisma/migrations/20261016060000_mcp_action_binding/migration.sql:3-20 ai_action_oauth_binding_shape *)
Definition ai_action_oauth_binding_shape (p : proposal) : bool :=
  match p_binding p with
  | None => true
  | Some b =>
      (1 <=? Z.of_nat (String.length (b_keyId b))) && (Z.of_nat (String.length (b_keyId b)) <=? 128) &&
      bool_decide (b_userId b = p_user p) && bool_decide (b_organizationId b = p_organization p) &&
      bool_decide (b_clientId b = "https://chatgpt.com/oauth/client.json") &&
      (0 <=? b_sessionVersion b) && (b_sessionVersion b <? 10 ^ 10) && bool_decide (p_source p = "ai_bridge") &&
      ((bool_decide (p_action p = "create_client_task") && bool_decide (b_requiredScope b = "workspace:client-tasks:write")) ||
       (bool_decide (p_action p = "publish_client_service_report_snapshot") && bool_decide (b_requiredScope b = "workspace:service-reports:publish")))
  end.
(* src/prisma/migrations/20260926130000_ai_tool_receipts/migration.sql:26-33 ai_bridge_actions checks *)
Definition row_check (p : proposal) : bool :=
  mem (p_source p) ["ai_bridge"; "assistant"] && mem (p_class p) ["prepare"; "execute"] && ai_action_oauth_binding_shape p.

Inductive created := Inserted | Duplicate | CheckFailed.
(** [create]: the checks, then the unique keys (the id; the user with the key). *)
Definition same_key (p : proposal) (r : row) : bool := bool_decide (p_user (r_proposal r) = p_user p) && bool_decide (p_key (r_proposal r) = p_key p).
Definition create (n : nat) (id : string) (p : proposal) (d : db) : created * db :=
  if negb (row_check p) then (CheckFailed, d)
  else if bool_decide (is_Some (actions d !! id)) || existsb (λ kr, same_key p kr.2) (map_to_list (actions d)) then (Duplicate, d)
  else (Inserted, note (Prepared n id p) (set_action id (Row p Pending None None None None None) d)).

(* src/src/ai/tools/executor.js:355-362 transition *)
Definition transition (c : context) (id : string) (expected : status) (f : row → row) : prog db (answer row) :=
  await (λ d, match find c (λ r, bool_decide (r_status r = expected)) id d with
              | Some r => (Ok (f r), set_action id (f r) d)
              | None => (Err unavailable, d)
              end).
(* src/src/ai/tools/executor.js:323-328 load *)
Definition load (n : nat) (c : context) (id : string) (scoped : row → bool) (now : nat → Z) : prog db (answer row) :=
  found ← await (λ d, (find c scoped id d, d));
  match found with
  | None => mret (Err not_found)
  | Some r =>
      held ← assertMcpActionAuthority n c (p_action (r_proposal r)) (Some (r_proposal r)) now;
      mret (match held with Ok _ => Ok r | Err e => Err e end)
  end.

(** ** Calls *)

(* src/src/ai/tools/executor.js:38-38 IDEMPOTENCY_KEY_FORMAT *)
Definition IDEMPOTENCY_KEY_FORMAT (key : string) : bool :=
  all_chars (λ c, is_alpha c || is_digit c || bool_decide (Ascii.nat_of_ascii c ∈ [46; 95; 58; 45]%nat)) key &&
  (8 <=? String.length key)%nat && (String.length key <=? 128)%nat.

(* src/src/ai/tools/executor.js:50-56 stableJson *)
Definition stableJson : json → string := canonicalJson.
(* src/src/ai/tools/executor.js:59-61 toolInputHash *)
Definition toolInputHash (tool : string) (input : json) : string := sha256 (stableJson (JObj [("action", JStr tool); ("input", input)])).

(** Some input cannot be serialised: it counts as infinitely long. *)
(* src/src/ai/tools/executor.js:134-141 serializedSize *)
Definition too_large (input : option json) (limit : Z) : bool :=
  match input with Some j => limit <? Z.of_nat (String.length (print j)) | None => true end.

(** A tool call: its tool's name (if it is a text at all), input, key, source. *)
Record call := ToolCall { c_tool : option string; c_input : option json; c_key : option string; c_source : string }.
Inductive invoked := Result (tool class : string) (output : json) | PendingAction (id : string) (r : row) (idempotent : bool).

Definition later (e : env) (k : nat) : nat → Z := λ i, clock e (k + i).
Definition thrown_of (f : failure) : thrown := match f with ToolFailed code st => ToolError code st None | _ => OtherError end.
(** A [ToolError] of a hook is recorded as a denial; anything else is rethrown. *)
Definition hook_failed {A} (c : context) (f : failure) : prog db (answer A) :=
  match f with ToolFailed _ _ => deny c (thrown_of f) None | _ => mret (Err OtherError) end.

(* src/src/ai/tools/executor.js:257-267 invoke (read and draft tools) *)
Definition run_tool (e : env) (c : context) (t : tool W) (input : json) (sc : scope) : prog db (answer invoked) :=
  output ← await (λ d : db, (match e_hook e, run t with
                             | Some f, _ => Err f
                             | None, Some h => h (world d) (user c) input sc
                             | None, None => Err Crashed
                             end, d));
  match output with
  | Ok output => mret (Ok (Result (name t) (class t) (redactSecrets mask output)))
  | Err (ToolFailed code st) => deny c (ToolError code st None) None
  | Err TimedOut => mret (Err (ToolError "TOOL_TIMEOUT" 502 None))
  | Err _ => mret (Err (ToolError "TOOL_FAILED" 502 None))
  end.

(** The same key with other input is refused. *)
Definition conflict : thrown := ToolError "IDEMPOTENCY_CONFLICT" 409 None.
Definition other_intent (t : tool W) (hash : string) (r : row) : bool :=
  negb (bool_decide (p_action (r_proposal r) = name t)) || negb (bool_decide (p_hash (r_proposal r) = hash)).

(* src/src/ai/tools/executor.js:277-315 invoke (the pending action) *)
Definition record_action (n : nat) (e : env) (c : context) (t : tool W) (k : call) (key hash : string) (input preview_ : json) (sc : scope) : prog db (answer invoked) :=
  let p := Proposal (p_organizationId (user c)) (p_id (user c)) (name t) key input hash preview_ (clock e 6 + APPROVAL_TTL_MS) (c_source k) (class t)
             (requestId c) (ids sc) (oauth c ≫= λ g, oauthActionBinding c g (name t)) in
  made ← await (λ d, if authority_now c (name t) None (later e 7) d then (let '(m, d') := create n (e_id e) p d in (Ok m, d')) else (Err not_found, d));
  match made with
  | Err err => mret (Err err)
  | Ok CheckFailed => mret (Err OtherError)
  | Ok Inserted =>
      _ ← emit c "ai.tool_prepared" (Some (e_id e)) None;
      mret (Ok (PendingAction (e_id e) (Row p Pending None None None None None) false))
  | Ok Duplicate =>
      winner ← await (λ d, (by_key c key d, d));
      match winner with
      | None => deny c conflict None
      | Some (id, r) =>
          if other_intent t hash r then deny c conflict None
          else
            held ← assertMcpActionAuthority n c (p_action (r_proposal r)) (Some (r_proposal r)) (later e 9);
            mret (match held with Ok _ => Ok (PendingAction id r true) | Err err => Err err end)
      end
  end.

(* src/src/ai/tools/executor.js:234-275 invoke (prepare and execute tools) *)
Definition prepare (n : nat) (e : env) (c : context) (t : tool W) (k : call) (input : json) : prog db (answer invoked) :=
  match c_key k with
  | Some key =>
      if negb (IDEMPOTENCY_KEY_FORMAT key) then deny c (ToolError "IDEMPOTENCY_KEY_REQUIRED" 400 None) None
      else
        let hash := toolInputHash (name t) input in
        existing ← await (λ d, (by_key c key d, d));
        match existing with
        | Some (id, r) =>
            held ← assertMcpActionAuthority n c (p_action (r_proposal r)) (Some (r_proposal r)) (later e 4);
            match held with
            | Err err => mret (Err err)
            | Ok _ => if other_intent t hash r then deny c conflict None else mret (Ok (PendingAction id r true))
            end
        | None =>
            resolved ← await (λ d : db, (resolveScope t (world d) (user c) input, d));
            match resolved with
            | Err f => hook_failed c f
            | Ok sc =>
                previewed ← await (λ d : db, (match preview t with Some h => h (world d) (user c) input sc | None => Err Crashed end, d));
                match previewed with
                | Err f => hook_failed c f
                | Ok preview_ => record_action n e c t k key hash input preview_ sc
                end
            end
        end
  | None => deny c (ToolError "IDEMPOTENCY_KEY_REQUIRED" 400 None) None
  end.

(* src/src/ai/tools/executor.js:212-316 invoke *)
Definition invoke (n : nat) (e : env) (c : context) (k : call) : prog db (answer invoked) :=
  match c_tool k ≫= get registry with
  | None => deny c (ToolError "TOOL_UNKNOWN" 400 None) None
  | Some t =>
      if too_large (c_input k) (toolInputByteLimit (name t)) then deny c (ToolError "INPUT_TOO_LARGE" 400 None) None
      else match c_input k ≫= inputSchema t with
           | None => deny c (ToolError "INVALID_INPUT" 400 None) None
           | Some input =>
               let needsApproval := mem (class t) APPROVAL_CLASSES in
               held ← (if bool_decide (is_Some (oauth c)) && needsApproval then assertMcpActionAuthority n c (name t) None (later e 0) else mret (Ok tt));
               match held with
               | Err err => mret (Err err)
               | Ok _ =>
                   if negb (mem (p_role (user c)) (roles t)) then deny c (ToolError "ROLE_DENIED" 403 None) None
                   else
                     allowed ← assertAiAllowed n c e;
                     match allowed with
                     | Err err => deny c err None
                     | Ok _ =>
                         if needsApproval then prepare n e c t k input
                         else
                           resolved ← await (λ d : db, (resolveScope t (world d) (user c) input, d));
                           match resolved with Err f => hook_failed c f | Ok sc => run_tool e c t input sc end
                     end
               end
           end
  end.

(** ** Decisions *)

(* src/src/ai/tools/executor.js:330-336 approverAllowed *)
Definition approverAllowed (c : context) (t : tool W) (p : proposal) : bool :=
  if negb (mem (p_role (user c)) ["ADMIN"; "TEAM"]) then false
  else if negb (mem (p_role (user c)) (approverRoles t)) then false
  else if bool_decide (p_user p = p_id (user c)) then requesterMayApprove t
  else bool_decide (p_role (user c) = "ADMIN").

(** How a request decides: an OAuth connection always by its own confirmation,
    on its own actions only. *)
Record means := Means { method : string; reauthenticated : bool; ownerOnly : bool }.
(* src/src/ai/tools/executor.js:373-373 approve (means) *)
Definition means_of (c : context) (m : means) : means := if bool_decide (is_Some (oauth c)) then Means "oauth_confirm" false true else m.

Definition decide_at (now : Z) (c : context) (m : means) (p : proposal) (reason : option string) : decision :=
  Decision_ now (p_id (user c)) (p_role (user c)) (method m) (bool_decide (p_id (user c) = p_user p)) (reauthenticated m) (requestId c) reason.
Definition executing (dec : decision) (r : row) : row := Row (r_proposal r) Executing (Some dec) (r_executedAt r) (r_result r) (r_errorCode r) (r_outcome r).
(* src/src/ai/tools/executor.js:437-437 succeeded *)
Definition succeeded (now : Z) (output : json) (r : row) : row :=
  Row (r_proposal r) Executed (r_decision r) (Some now) (Some (redactSecrets mask output)) (r_errorCode r) (Some Succeeded).
Definition expired (r : row) : row := Row (r_proposal r) Expired (r_decision r) (r_executedAt r) (r_result r) (r_errorCode r) (r_outcome r).
Definition failed (dec : decision) (code : string) (o : outcome) (sent : option json) (r : row) : row :=
  Row (r_proposal r) Failed (Some dec) (r_executedAt r) (match sent with Some j => Some j | None => r_result r end) (Some code) (Some o).
Definition rejected (dec : decision) (r : row) : row :=
  Row (r_proposal r) Rejected (Some dec) (r_executedAt r) (r_result r) (r_errorCode r) (r_outcome r).

(** The claim, first statement of the transaction: pending and unexpired, once. *)
(* src/src/ai/tools/executor.js:415-427 approve (claim) *)
Definition claim (c : context) (scoped : row → bool) (id : string) (dec : decision) (d : db) : result failure (row * db) :=
  match find c (λ r, scoped r && bool_decide (r_status r = Pending) && (d_at dec <? p_expiresAt (r_proposal r))) id d with
  | Some r => Ok (executing dec r, set_action id (executing dec r) d)
  | None => Err (ToolFailed "ACTION_UNAVAILABLE" 409)
  end.
(* src/src/ai/tools/executor.js:418-422 approve (parseStored) *)
Definition parseStored (t : tool W) (initial : proposal) : result failure json :=
  match inputSchema t (p_input initial) with Some input => Ok input | None => Err (ToolFailed "TARGET_UNAVAILABLE" 409) end.
(** How a transaction that may commit ends for the caller. *)
Definition committed {A} (e : env) (d d' : db) (a : A) : result failure A * db :=
  match e_commit e with Reported => (Ok a, d') | RolledBack => (Err Crashed, d) | AnswerLost => (Err Crashed, d') end.

(* src/src/ai/tools/executor.js:445-456 approve (transaction mode) *)
Definition run_transaction (n : nat) (e : env) (c : context) (scoped : row → bool) (id : string) (initial : proposal) (dec : decision)
    (t : tool W) (execute : W → json → string * string → person → json → result failure json * W) (d : db) : result failure row * db :=
  match claim c scoped id dec d with
  | Err f => (Err f, d)
  | Ok (r, d1) =>
      match parseStored t initial with
      | Err f => (Err f, d)
      | Ok input =>
          match e_hook e with
          | Some f => (Err f, d)
          | None =>
              match execute (world d1) input (p_user initial, p_organizationId (user c)) (user c) (p_preview initial) with
              | (Err f, _) => (Err f, d)
              | (Ok output, w) =>
                  let r' := succeeded (clock e 12) output r in
                  committed e d (note (Ran n id input) (note (Approved n id initial c dec) (set_action id r' (set_world w d)))) r'
              end
          end
      end
  end.

(* src/src/ai/tools/executor.js:458-461 approve (external mode, the claim) *)
Definition claim_external (n : nat) (e : env) (c : context) (scoped : row → bool) (id : string) (initial : proposal) (dec : decision)
    (t : tool W) (claimTarget : W → json → result failure json) (d : db) : result failure json * db :=
  match claim c scoped id dec d with
  | Err f => (Err f, d)
  | Ok (r, d1) =>
      match parseStored t initial with
      | Err f => (Err f, d)
      | Ok input =>
          match claimTarget (world d1) input with
          | Err f => (Err f, d)
          | Ok target => committed e d (note (Approved n id initial c dec) d1) target
          end
      end
  end.

(** One message to the third party, at most. *)
(* src/src/ai/tools/executor.js:465-465 approve (deliver) *)
Definition send (n : nat) (e : env) (id : string) (deliver : json → result failure json) (target : json) (d : db) : result failure json * db :=
  match deliver target with Err f => (Err f, d) | Ok message => (e_reply e, note (Sent n id message) d) end.

(** How the attempt ended: the receipt, or what was thrown, whether the claim
    was known to be committed, and the result to keep if something was sent. *)
Inductive attempt := Completed (r : row) | Threw (f : failure) (claimCommitted : bool) (attempted : option json).

Definition failure_of (e : thrown) : failure := match e with ToolError code st _ => ToolFailed code st | _ => Crashed end.

(* src/src/ai/tools/executor.js:444-467 approve (the attempt) *)
Definition attempt_execution (n : nat) (e : env) (c : context) (scoped : row → bool) (id : string) (initial : proposal) (dec : decision) (t : tool W) : prog db attempt :=
  held ← assertMcpActionAuthority n c (p_action initial) (Some initial) (later e 10);
  match held with
  | Err err => mret (Threw (failure_of err) false None)
  | Ok _ =>
      match tool_execution t with
      | Some (TransactionMode _ (Some execute)) =>
          done_ ← await (run_transaction n e c scoped id initial dec t execute);
          match done_ with
          | Err f => mret (Threw f false None)
          | Ok r => _ ← emit c "ai.tool_approved" (Some id) None; mret (Completed r)
          end
      | Some (ExternalMode (Some claimTarget) (Some attemptedResult) (Some deliver)) =>
          target ← await (claim_external n e c scoped id initial dec t claimTarget);
          match target with
          | Err f => mret (Threw f false None)
          | Ok target =>
              _ ← emit c "ai.tool_approved" (Some id) None;
              let attempted := attemptedResult target in
              reply ← await (send n e id deliver target);
              match reply with
              | Err f => mret (Threw f true (Some attempted))
              | Ok output =>
                  completed ← transition c id Executing (succeeded (clock e 12) output);
                  mret (match completed with Ok r => Completed r | Err err => Threw (failure_of err) true (Some attempted) end)
              end
          end
      | _ => mret (Threw Crashed false None)
      end
  end.

(* src/src/ai/tools/executor.js:130-132 isTargetUnavailable *)
Definition isTargetUnavailable (f : failure) : bool :=
  match f with ToolFailed code _ => bool_decide (code = "TARGET_UNAVAILABLE") | TargetMessage => true | _ => false end.
Definition tool_code (f : failure) : option string := match f with ToolFailed code _ => Some code | _ => None end.

(* src/src/ai/tools/executor.js:468-496 approve (the failed attempt) *)
Definition settle_failure (e : env) (c : context) (scoped : row → bool) (id : string) (dec : decision) (f : failure) (claimCommitted : bool) (attempted : option json) : prog db (answer (string * row * bool)) :=
  if bool_decide (is_Some (oauth c)) && bool_decide (tool_code f = Some "NOT_FOUND") then mret (Err (thrown_of f))
  else if bool_decide (tool_code f = Some "ACTION_UNAVAILABLE") then
    current ← await (λ d, (find c scoped id d, d));
    mret (Err (ToolError "ACTION_UNAVAILABLE" 409 (pair id <$> current)))
  else
    let targetGone := isTargetUnavailable f in
    let errorCode := if targetGone then "ACTION_TARGET_UNAVAILABLE" else if bool_decide (f = TimedOut) then "ACTION_TIMEOUT" else "ACTION_EXECUTION_FAILED" in
    let outcome := if bool_decide (is_Some attempted) && negb targetGone then Unknown else FailedOutcome in
    _ ← (if claimCommitted then mret tt else emit c "ai.tool_approved" (Some id) None);
    settled ← transition c id (if claimCommitted then Executing else Pending) (failed dec errorCode outcome attempted);
    match settled with
    | Err err => mret (Err err)
    | Ok r =>
        _ ← emit c "ai.tool_failed" (Some id) (Some errorCode);
        mret (Err (ToolError "EXECUTION_FAILED" (if targetGone then 409 else 502) (Some (id, r))))
    end.

(* src/src/ai/tools/executor.js:372-499 approve *)
Definition approve (n : nat) (e : env) (c : context) (id : string) (m : means) : prog db (answer (string * row * bool)) :=
  let m := means_of c m in
  let scoped := ownerWhere c (ownerOnly m) in
  loaded ← load n c id scoped (later e 0);
  match loaded with
  | Err err => mret (Err err)
  | Ok row =>
      let initial := r_proposal row in
      if bool_decide (r_status row = Executed) then mret (Ok (id, row, true))
      else if negb (bool_decide (r_status row = Pending)) then mret (Err unavailable)
      else match get registry (p_action initial) with
           | None => mret (Err unavailable)
           | Some t =>
               if negb (mem (class t) APPROVAL_CLASSES) then mret (Err unavailable)
               else if bool_decide (p_source initial = "assistant") && negb (bool_decide (method m = "session_step_up")) then
                 deny c (ToolError "APPROVER_NOT_ALLOWED" 403 None) (Some id)
               else if negb (approverAllowed c t initial) then deny c (ToolError "APPROVER_NOT_ALLOWED" 403 None) (Some id)
               else
                 allowed ← assertAiAllowed n c e;
                 match allowed with
                 | Err err => deny c err (Some id)
                 | Ok _ =>
                     if p_expiresAt initial <=? clock e 2 then
                       ended ← transition c id Pending expired;
                       match ended with
                       | Err err => mret (Err err)
                       | Ok r => _ ← emit c "ai.tool_expired" (Some id) None; mret (Err (ToolError "ACTION_EXPIRED" 409 (Some (id, r))))
                       end
                     else
                       let dec := decide_at (clock e 3) c m initial None in
                       ended ← attempt_execution n e c scoped id initial dec t;
                       match ended with
                       | Completed r => _ ← emit c "ai.tool_executed" (Some id) None; mret (Ok (id, r, false))
                       | Threw f claimCommitted attempted => settle_failure e c scoped id dec f claimCommitted attempted
                       end
                 end
           end
  end.

(* src/src/ai/tools/executor.js:41-41 REJECTION_REASONS *)
Definition REJECTION_REASONS : list string := ["not_needed"; "incorrect"; "unsafe"; "other"].

(* src/src/ai/tools/executor.js:508-535 reject *)
Definition reject (n : nat) (e : env) (c : context) (id : string) (reason : string) (m : means) : prog db (answer (string * row * bool)) :=
  let m := means_of c m in
  let scoped := ownerWhere c (ownerOnly m) in
  loaded ← load n c id scoped (later e 0);
  match loaded with
  | Err err => mret (Err err)
  | Ok row =>
      let initial := r_proposal row in
      if negb (bool_decide (r_status row = Pending)) then mret (Err unavailable)
      else
        let dec := decide_at (clock e 2) c m initial (Some (if mem reason REJECTION_REASONS then reason else "other")) in
        written ← await (λ d,
          if negb (authority_now c (p_action initial) (Some initial) (later e 3) d) then (Err not_found, d)
          else match find c (λ r, scoped r && bool_decide (r_status r = Pending)) id d with
               | Some r => (Ok tt, set_action id (rejected dec r) d)
               | None => (Err unavailable, d)
               end);
        match written with
        | Err err => mret (Err err)
        | Ok _ =>
            _ ← emit c "ai.tool_rejected" (Some id) None;
            again ← load n c id scoped (later e 5);
            mret (match again with Ok r => Ok (id, r, false) | Err err => Err err end)
        end
  end.

(** ** Requests *)

Inductive input :=
  | Invoke (e : env) (c : context) (k : call)
  | Approve (e : env) (c : context) (id : string) (m : means)
  | Reject (e : env) (c : context) (id reason : string) (m : means)
  | Elsewhere (w : W → W) (keys : gmap string api_key) (accounts : gmap string account).   (** the rest of the program *)
Inductive reply := Called (r : answer invoked) | Decided (r : answer (string * row * bool)) | Done_.

Definition handle (n : nat) (i : input) : prog db reply :=
  match i with
  | Invoke e c k => r ← invoke n e c k; mret (Called r)
  | Approve e c id m => r ← approve n e c id m; mret (Decided r)
  | Reject e c id reason m => r ← reject n e c id reason m; mret (Decided r)
  | Elsewhere w keys accounts => await (λ d, (Done_, Db (actions d) keys accounts (w (world d)) (audits d) (trail d)))
  end.
End actions.
Arguments db : clear implicits.
Arguments input : clear implicits.
End ToolActions.
