(* ===== verification/ToolReceipts.v ===== *)
(** * What a tool receipt is worth

    The requests of ToolActions.v interleaved: who approved what ran, how often
    it ran, and that a receipt, once final, stays. *)

From S2P Require Import Prelude Json Async Trails ToolRegistry ToolActions.
Import Trails.Trails Json.Json ToolRegistry.ToolRegistry ToolActions.ToolActions.

Module ToolReceipts.

(** ** Events of one action *)

Definition prepares (id : string) (e : event) : bool := match e with Prepared _ i _ => bool_decide (i = id) | _ => false end.
Definition approves (id : string) (e : event) : bool := match e with Approved _ i _ _ _ => bool_decide (i = id) | _ => false end.
Definition runs (id : string) (e : event) : bool := match e with Ran _ i _ => bool_decide (i = id) | _ => false end.
Definition sends (id : string) (e : event) : bool := match e with Sent _ i _ => bool_decide (i = id) | _ => false end.
Definition effects (id : string) (e : event) : bool := runs id e || sends id e.
Definition terminal (s : status) : bool := match s with Pending | Executing => false | _ => true end.
(** A status may only move forward; what was proposed never changes. *)
Definition moves (r r' : row) : Prop :=
  r' = r ∨ r_proposal r' = r_proposal r ∧
    match r_status r, r_status r' with
    | Pending, (Executing | Executed | Failed | Rejected | Expired) | Executing, (Executed | Failed) => True
    | _, _ => False
    end.
(** The triggers of the table: a final row and a binding are immutable. *)
(* src/prisma/migrations/20260926130000_ai_tool_receipts/migration.sql:39-52 deny_ai_action_receipt_mutation *)
Definition deny_ai_action_receipt_mutation (old new : row) : bool := negb (terminal (r_status old)).
(* src/prisma/migrations/20261016060000_mcp_action_binding/migration.sql:21-30 preserve_mcp_action_binding *)
Definition preserve_mcp_action_binding (old new : row) : bool := bool_decide (p_binding (r_proposal new) = p_binding (r_proposal old)).

Section theory.
Context {W : Type} (registry : registry W) (mask sha256 : string → string).
Abbreviation db := (db W).
Implicit Types (d : db) (c : context) (p : proposal) (l : list event).

(** The authority of an OAuth connection was read, by this request. *)
Definition vouched (n : nat) c p l : Prop :=
  match oauth c with
  | None => p_binding p = None
  | Some g => ∃ b key u now, oauthActionBinding c g (p_action p) = Some b ∧ p_binding p = Some b ∧ p_user p = p_id (user c) ∧
      KeyRead n (g_keyId g) key ∈ l ∧ UserRead n (p_id (user c)) u ∈ l ∧ records_ok c g b key u now = true
  end.
(** An approval that may carry out [p]: decided by someone who may, in time
    and in the right way; ... *)
Definition eligible (id : string) p c (dec : decision) l : Prop :=
  (∃ m, Prepared m id p ∈ l) ∧ p_organization p = p_organizationId (user c) ∧
  (∃ t, get registry (p_action p) = Some t ∧ class t ∈ APPROVAL_CLASSES ∧ approverAllowed c t p = true) ∧
  d_approver dec = p_id (user c) ∧ d_role dec = p_role (user c) ∧
  (p_source p = "assistant" → d_method dec = "session_step_up") ∧ (is_Some (oauth c) → d_method dec = "oauth_confirm").
(** ... with the switches read on, and after that the connection's authority. *)
Definition approval_ok (n : nat) (id : string) p c (dec : decision) l : Prop :=
  eligible id p c dec l ∧ ∃ es l0, l = es ++ l0 ∧ Allowed n (p_organizationId (user c)) ∈ l0 ∧ vouched n c p es.
Definition justified (e : event) l : Prop :=
  match e with
  | Prepared n id p => none (prepares id) l ∧ Allowed n (p_organization p) ∈ l ∧ row_check p = true ∧
      ∃ t j, get registry (p_action p) = Some t ∧ class t ∈ APPROVAL_CLASSES ∧ inputSchema t j = Some (p_input p) ∧
             p_hash p = toolInputHash sha256 (name t) (p_input p)
  | Approved n id p c dec => none (approves id) l ∧ d_at dec < p_expiresAt p ∧ approval_ok n id p c dec l
  | Ran n id input => none (effects id) l ∧ ∃ p c dec t, Approved n id p c dec ∈ l ∧ get registry (p_action p) = Some t ∧ inputSchema t (p_input p) = Some input
  | Sent n id message => none (effects id) l ∧ ∃ p c dec t input w target,
      Approved n id p c dec ∈ l ∧ get registry (p_action p) = Some t ∧ inputSchema t (p_input p) = Some input ∧
      ∃ claimTarget attempted deliver, tool_execution t = Some (ExternalMode (Some claimTarget) attempted (Some deliver)) ∧
        claimTarget w input = Ok target ∧ deliver target = Ok message
  | _ => True
  end.
Abbreviation trail_ok := (trail_ok justified).

(** What a row says of its action. *)
Definition row_ok (id : string) (r : row) l : Prop :=
  match r_status r with
  | Pending | Rejected | Expired => none (approves id) l
  | Executing => none (runs id) l ∧ ∃ n c dec, Approved n id (r_proposal r) c dec ∈ l ∧ r_decision r = Some dec
  | Executed => r_outcome r = Some Succeeded ∧ ∃ n c dec, Approved n id (r_proposal r) c dec ∈ l ∧ r_decision r = Some dec ∧
      ((∃ input, Ran n id input ∈ l) ∨ ∃ message, Sent n id message ∈ l)
  | Failed => none (runs id) l ∧
      (r_outcome r = Some Unknown ∨ r_outcome r = Some FailedOutcome ∧ (r_errorCode r = Some "ACTION_TARGET_UNAVAILABLE" ∨ none (sends id) l))
  end.

Record inv d : Prop := {
  inv_trail : trail_ok (trail d);
  inv_rows id r : actions d !! id = Some r → row_ok id r (trail d) ∧ ∃ m, Prepared m id (r_proposal r) ∈ trail d;
  inv_prepared m id p : Prepared m id p ∈ trail d → ∃ r, actions d !! id = Some r ∧ r_proposal r = p;
  inv_keys id id' r r' : actions d !! id = Some r → actions d !! id' = Some r' → same_key (r_proposal r) r' = true → id = id'
}.

(** What the statements of request [n] do. *)
Record guar (n : nat) d d' : Prop := {
  g_trail : ∃ es, trail d' = es ++ trail d ∧ ∀ e, e ∈ es → by_request e = n;
  g_rows id r : actions d !! id = Some r → ∃ r', actions d' !! id = Some r' ∧ moves r r';
  g_mine id r m p c dec : m ≠ n → Approved m id p c dec ∈ trail d → actions d !! id = Some r → r_status r = Executing → actions d' !! id = Some r;
  g_inv : inv d → inv d'
}.

Lemma moves_refl r : moves r r.
Proof. by left. Qed.
Lemma guar_refl n d : guar n d d.
Proof. split; [exists []; split; [done|by intros e ?%not_elem_of_nil]|eauto using moves_refl|done|done]. Qed.
Lemma moves_terminal r r' : moves r r' → terminal (r_status r) = true → r' = r.
Proof. intros [->|[_ H]]; [done|]. intros Ht. by destruct (r_status r). Qed.
Lemma moves_proposal r r' : moves r r' → r_proposal r' = r_proposal r.
Proof. by intros [->|[H _]]. Qed.

(** ** What anyone's statements keep *)

Lemma anyone_trail d d' : rtc (anyone guar) d d' → ∃ es, trail d' = es ++ trail d.
Proof.
  induction 1 as [d|d1 d2 d3 (n & H) _ (es & IH)]; [by exists []|]. destruct (g_trail _ _ _ H) as (es1 & -> & _) in IH.
  exists (es ++ es1). by rewrite IH, app_assoc.
Qed.
Lemma anyone_in e d d' : rtc (anyone guar) d d' → e ∈ trail d → e ∈ trail d'.
Proof. intros (es & ->)%anyone_trail. rewrite elem_of_app. auto. Qed.
Lemma anyone_final id r d d' : rtc (anyone guar) d d' → actions d !! id = Some r → terminal (r_status r) = true → actions d' !! id = Some r.
Proof.
  induction 1 as [d|d1 d2 d3 (n & H) _ IH]; [done|]. intros Hr Ht. apply IH; [|done].
  destruct (g_rows _ _ _ H id r Hr) as (r' & Hr' & Hm). by rewrite <-(moves_terminal _ _ Hm Ht).
Qed.
Lemma anyone_row id r d d' : rtc (anyone guar) d d' → actions d !! id = Some r → ∃ r', actions d' !! id = Some r' ∧ r_proposal r' = r_proposal r.
Proof.
  intros H. revert r. induction H as [d|d1 d2 d3 (n & H) _ IH]; [eauto|]. intros r Hr.
  destruct (g_rows _ _ _ H id r Hr) as (r' & Hr' & Hm). destruct (IH r' Hr') as (r2 & Hr2 & Hp). exists r2.
  by rewrite Hp, (moves_proposal _ _ Hm).
Qed.
Lemma anyone_inv d d' : rtc (anyone guar) d d' → inv d → inv d'.
Proof. induction 1 as [d|d1 d2 d3 (n & H) _ IH]; [done|]. intros HI. apply IH. by apply (g_inv _ _ _ H). Qed.

(** ** One statement *)

Lemma row_ok_ext id r es l :
  none (approves id) es → none (effects id) es → row_ok id r l → row_ok id r (es ++ l).
Proof.
  intros Ha [Hr Hs]%none_or H. unfold row_ok in *. destruct (r_status r); rewrite ?none_app; try done.
  - destruct H as (? & n & c & dec & Hin & ?). split; [done|]. exists n, c, dec. rewrite elem_of_app. auto.
  - destruct H as (? & n & c & dec & Hin & ? & He). split; [done|]. exists n, c, dec. setoid_rewrite elem_of_app. naive_solver.
  - naive_solver.
Qed.

(** A note that is about no action. *)
Definition neutral (e : event) : Prop := match e with Allowed _ _ | KeyRead _ _ _ | UserRead _ _ _ => True | _ => False end.
Lemma guar_neutral n d d' es :
  actions d' = actions d → trail d' = es ++ trail d → (∀ e, e ∈ es → neutral e ∧ by_request e = n) → guar n d d'.
Proof.
  intros Ha Ht Hes. split.
  - exists es. split; [done|]. intros e He. by apply Hes.
  - rewrite Ha. eauto using moves_refl.
  - by rewrite Ha.
  - assert (∀ i, none (approves i) es ∧ none (effects i) es) as Hno.
    { intros i. split; intros e He; destruct (Hes e He) as [Hn _]; by destruct e. }
    intros [Htr Hrow Hprep Hkey]. split; rewrite ?Ha.
    + rewrite Ht. assert (∀ l, (∀ e, e ∈ l → e ∈ es) → trail_ok (l ++ trail d)) as Hall.
      { induction l as [|e l IH]; [done|]. intros Hl. split; [|apply IH; intros; apply Hl; by right].
        destruct (Hes e) as [Hn _]; [apply Hl; left|]. by destruct e. }
      by apply Hall.
    + intros id r Hr. destruct (Hrow id r Hr) as [Hok (m & Hm)]. rewrite Ht. split; [by apply row_ok_ext; destruct (Hno id)|].
      exists m. rewrite elem_of_app. auto.
    + intros m id p. rewrite Ht, elem_of_app. intros [He|He]; [|by eapply Hprep]. destruct (Hes _ He) as [[] _].
    + exact Hkey.
Qed.

(** A change of one row, with the notes about it. *)
Lemma guar_update n d d' id r r' es :
  actions d !! id = Some r → actions d' = <[id := r']> (actions d) → trail d' = es ++ trail d → moves r r' →
  (∀ e, e ∈ es → by_request e = n ∧ ∀ i, i ≠ id → approves i e = false ∧ effects i e = false) → (∀ i e, e ∈ es → prepares i e = false) →
  (r_status r = Executing → ∀ m p c dec, Approved m id p c dec ∈ trail d → m = n) →
  (inv d → trail_ok (es ++ trail d) ∧ row_ok id r' (es ++ trail d)) → guar n d d'.
Proof.
  intros Hr Ha Ht Hm Hes Hprep Hmine Hinv. split.
  - exists es. split; [done|]. intros e He. by apply Hes.
  - intros i r0 Hr0. rewrite Ha. destruct (decide (i = id)) as [->|Hne].
    + exists r'. by simplify_map_eq.
    + exists r0. rewrite lookup_insert_ne by done. eauto using moves_refl.
  - intros i r0 m p c dec Hne Hin Hr0 Hx. rewrite Ha. destruct (decide (i = id)) as [->|]; [|by rewrite lookup_insert_ne].
    simplify_eq. by destruct (Hne (Hmine Hx _ _ _ _ Hin)).
  - intros HI. destruct (Hinv HI) as [Htr Hok]. destruct HI as [_ Hrow Hpr Hkey]. split; [by rewrite Ht|..].
    + intros i r0. rewrite Ha, lookup_insert_Some. intros [[<- <-]|[Hne Hr0]].
      * rewrite Ht. split; [done|]. destruct (Hrow id r Hr) as [_ (m & Hp)]. exists m. rewrite elem_of_app, (moves_proposal _ _ Hm). auto.
      * destruct (Hrow i r0 Hr0) as [Hok0 (m & Hp)]. rewrite Ht. split; [|exists m; rewrite elem_of_app; auto].
        apply row_ok_ext; [intros e He; by apply (Hes e He)..|done].
    + intros m i p. rewrite Ht, elem_of_app. intros [He|He]; [exfalso; by specialize (Hprep i _ He); cbn in Hprep; rewrite bool_decide_refl in Hprep|].
      rewrite Ha. destruct (Hpr _ _ _ He) as (r0 & Hr0 & <-). destruct (decide (i = id)) as [->|Hne].
      * exists r'. simplify_map_eq. by rewrite (moves_proposal _ _ Hm).
      * exists r0. by rewrite lookup_insert_ne.
    + intros i j ri rj. rewrite Ha, !lookup_insert_Some. pose proof (moves_proposal _ _ Hm) as Hp. unfold same_key.
      intros [[<- <-]|[Hi Hri]] [[<- <-]|[Hj Hrj]]; [done|..]; rewrite ?Hp; intros Hs; eapply Hkey; eassumption.
Qed.

(** ** The trail *)

Lemma approvals_unique l n m id p p' c c' dec dec' :
  trail_ok l → Approved n id p c dec ∈ l → Approved m id p' c' dec' ∈ l → Approved n id p c dec = Approved m id p' c' dec'.
Proof.
  intros Hl (l1 & l2 & -> & [Hno _])%(trail_at _ _ _ Hl) Hin. assert (∀ m p c dec, approves id (Approved m id p c dec) = true) as Ha by (intros; apply bool_decide_refl).
  apply elem_of_app in Hin as [Hin|Hin]; [|apply elem_of_cons in Hin as [Hin|Hin]]; [|done|by destruct (none_in _ _ _ Hno Hin)].
  apply list_elem_of_split in Hin as (a & b & ->). rewrite <-app_assoc in Hl. apply trail_ok_app in Hl as [[Hno' _] _].
  exfalso. apply (none_in _ _ (Approved n id p c dec) Hno'); [|apply Ha]. rewrite elem_of_app, elem_of_cons. auto.
Qed.
Lemma no_approval l id : trail_ok l → none (prepares id) l → none (approves id) l.
Proof.
  intros Hl Hno e He. destruct (approves id e) eqn:E; [|done]. destruct (trail_at _ _ _ Hl He) as (l1 & l2 & -> & Hj).
  destruct e as [| | | |n i p c dec| |]; try done. cbn in E. apply bool_decide_eq_true in E as ->. destruct Hj as (_ & _ & ((m & Hp) & _) & _).
  exfalso. apply (none_in _ _ (Prepared m id p) Hno); [|apply bool_decide_refl]. rewrite elem_of_app, elem_of_cons. auto.
Qed.
Lemma effect_owner l id e : trail_ok l → e ∈ l → effects id e = true → ∃ p c dec, Approved (by_request e) id p c dec ∈ l.
Proof.
  intros Hl He E. destruct (trail_at _ _ _ Hl He) as (l1 & l2 & -> & Hj). unfold effects, runs, sends in E.
  destruct e as [| | | | |n i input|n i message]; cbn [orb] in E; rewrite ?orb_false_r in E; try done; apply bool_decide_eq_true in E as ->.
  - destruct Hj as (_ & p & c & dec & t & Hin & _). exists p, c, dec. rewrite elem_of_app, elem_of_cons. auto.
  - destruct Hj as (_ & p & c & dec & t & input & w & target & Hin & _). exists p, c, dec. rewrite elem_of_app, elem_of_cons. auto.
Qed.
Lemma no_effect l id : trail_ok l → none (approves id) l → none (effects id) l.
Proof.
  intros Hl Hno e He. destruct (effects id e) eqn:E; [|done]. destruct (effect_owner _ _ _ Hl He E) as (p & c & dec & Hin).
  exfalso. apply (none_in _ _ _ Hno Hin). apply bool_decide_refl.
Qed.

(** ** A claimed action *)

Definition holding (n : nat) (id : string) p c (dec : decision) d : Prop :=
  Approved n id p c dec ∈ trail d ∧ none (runs id) (trail d) ∧
  ∃ r, actions d !! id = Some r ∧ r_status r = Executing ∧ r_proposal r = p ∧ r_decision r = Some dec.

Lemma holding_others n id p c dec d d' :
  rtc (others guar n) d d' → inv d → holding n id p c dec d →
  holding n id p c dec d' ∧ (none (sends id) (trail d) → none (sends id) (trail d')).
Proof.
  induction 1 as [d|d1 d2 d3 (m & Hne & H) _ IH]; [done|]. intros HI (Ha & Hr & r & Hrow & Hx & Hp & Hd).
  pose proof (g_inv _ _ _ H HI) as HI2. destruct (g_trail _ _ _ H) as (es & Ht & Hes).
  assert (Approved n id p c dec ∈ trail d2) as Ha2 by (rewrite Ht, elem_of_app; auto).
  assert (none (effects id) es) as [Hnr Hns]%none_or.
  { intros e He. destruct (effects id e) eqn:E; [|done]. exfalso.
    destruct (effect_owner _ id e (inv_trail _ HI2)) as (p' & c' & dec' & Hin); [rewrite Ht, elem_of_app; auto|done|].
    rewrite (Hes e He) in Hin. by injection (approvals_unique _ _ _ _ _ _ _ _ _ _ (inv_trail _ HI2) Ha2 Hin). }
  destruct IH as [IH1 IH2]; [done| |].
  - split; [done|]. rewrite Ht, none_app. split; [done|]. exists r. split; [|done]. by apply (g_mine _ _ _ H id r n p c dec (not_eq_sym Hne) Ha Hrow Hx).
  - split; [done|]. intros Hs. apply IH2. by rewrite Ht, none_app.
Qed.

(** ** Parts of a request *)

(** An error that carries no action. *)
Definition bare (e : thrown) : Prop := match e with ToolError _ _ (Some _) => False | _ => True end.

Abbreviation own := (owned inv guar).

Lemma others_any n d d' : rtc (others guar n) d d' → rtc (anyone guar) d d'.
Proof. apply others_anyone. Qed.

Lemma own_audit {A} n a (k : unit → prog db A) d Q :
  (∀ d', rtc (others guar n) d d' → inv d' → own n (k tt) (with_audit a d') Q) → own n (await (λ d, (tt, with_audit a d)) ≫= k) d Q.
Proof.
  intros H. apply owned_await. intros d' Hd HI. split; [|by apply H]. by apply (guar_neutral n _ _ []); [| |intros e ?%not_elem_of_nil].
Qed.
Lemma own_read {A B} n (f : db → B) (k : B → prog db A) d Q :
  (∀ d', rtc (others guar n) d d' → inv d' → own n (k (f d')) d' Q) → own n (await (λ d, (f d, d)) ≫= k) d Q.
Proof. intros H. apply owned_await. intros d' Hd HI. split; [apply guar_refl|by apply H]. Qed.
Lemma own_ret {A} n (a : A) d (Q : A → db → Prop) :
  (∀ d', rtc (others guar n) d d' → inv d' → Q a d') → own n (mret a) d Q.
Proof. apply owned_ret. Qed.
Lemma own_done {A} n (a : A) d (Q : A → db → Prop) : (∀ d', Q a d') → own n (mret a) d Q.
Proof. intros H. by apply owned_ret. Qed.
(** A note about no action. *)
Lemma own_note {A B} n (f : db → B) (g : db → list event) (k : B → prog db A) d Q :
  (∀ d e, e ∈ g d → neutral e ∧ by_request e = n) →
  (∀ d' d'', rtc (others guar n) d d' → inv d' → actions d'' = actions d' → trail d'' = g d' ++ trail d' → own n (k (f d')) d'' Q) →
  ∀ stmt, (∀ d', stmt d' = (f d', (stmt d').2) ∧ actions (stmt d').2 = actions d' ∧ trail (stmt d').2 = g d' ++ trail d') →
  own n (await stmt ≫= k) d Q.
Proof.
  intros Hg Hk stmt Hs. apply owned_await. intros d' Hd HI. destruct (Hs d') as (Hf & Ha & Ht).
  split; [exact (guar_neutral n _ _ _ Ha Ht (Hg d'))|]. assert ((stmt d').1 = f d') as -> by (by rewrite Hf). by apply (Hk d').
Qed.

Lemma own_deny {A} n c err ent d (Q : answer A → db → Prop) :
  (∀ d', Q (Err err) d') → own n (deny c err ent) d Q.
Proof. intros H. unfold deny, emit. apply own_audit. intros d' _ _. by apply own_done. Qed.

Lemma vouched_more n c p es es' : vouched n c p es → vouched n c p (es' ++ es).
Proof.
  unfold vouched. destruct (oauth c); [|done]. intros (b & key & u & now & H). exists b, key, u, now. rewrite !elem_of_app. naive_solver.
Qed.
(** The authority read is read after the request asks for it. *)
Lemma assert_spec n c action receipt now d :
  own n (assertMcpActionAuthority n c action receipt now) d
    (λ a d', (a = Ok tt ∨ a = Err not_found) ∧ ∃ es, trail d' = es ++ trail d ∧ ∀ p, a = Ok tt → receipt = Some p → action = p_action p → vouched n c p es).
Proof.
  assert (own n (mret (Err not_found)) d (λ (a : answer unit) d', (a = Ok tt ∨ a = Err not_found) ∧ ∃ es, trail d' = es ++ trail d ∧
    ∀ p, a = Ok tt → receipt = Some p → action = p_action p → vouched n c p es)) as Herr.
  { apply own_ret. intros d' H _. destruct (anyone_trail _ _ (others_any _ _ _ H)) as (es & ->). split; [by right|]. by exists es. }
  unfold assertMcpActionAuthority. destruct (oauth c) as [g|] eqn:Eo.
  2: { case_bool_decide as Hb; [apply Herr|]. apply own_ret. intros d' H _. destruct (anyone_trail _ _ (others_any _ _ _ H)) as (es & ->).
    split; [by left|]. exists es. split; [done|]. intros p _ -> _. unfold vouched. rewrite Eo. cbn in Hb. destruct (p_binding p); [|done]. destruct Hb. by eexists. }
  destruct (oauthActionBinding c g action) as [b|] eqn:Eb; [|apply Herr].
  destruct (claim_ok c g b receipt (now 0%nat)) eqn:Ec; cbn [negb]; [|apply Herr].
  eapply (own_note n (λ d, apiKeys d !! g_keyId g) (λ d, [KeyRead n (g_keyId g) (apiKeys d !! g_keyId g)])); [|intros d1 d2 H1 I1 Ha1 Ht1|done].
  { intros d1 e He. apply list_elem_of_singleton in He as ->. done. }
  eapply (own_note n (λ d, users d !! p_id (user c)) (λ d, [UserRead n (p_id (user c)) (users d !! p_id (user c))])); [|intros d3 d4 H3 I3 Ha3 Ht3|done].
  { intros d3 e He. apply list_elem_of_singleton in He as ->. done. }
  apply own_ret. intros d5 H5 I5.
  destruct (anyone_trail _ _ (others_any _ _ _ H1)) as (e1 & E1), (anyone_trail _ _ (others_any _ _ _ H3)) as (e3 & E3),
    (anyone_trail _ _ (others_any _ _ _ H5)) as (e5 & E5).
  split; [destruct (records_ok _ _ _ _ _ _); auto|]. rewrite E5, Ht3, E3, Ht1, E1. set (key := apiKeys d1 !! g_keyId g) in *. set (u := users d3 !! p_id (user c)) in *.
  exists (e5 ++ UserRead n (p_id (user c)) u :: e3 ++ KeyRead n (g_keyId g) key :: e1). split; [by rewrite <-!app_assoc; cbn; rewrite <-!app_assoc|].
  intros p Ha -> ->. destruct (records_ok _ _ _ _ _ _) eqn:Er; [|done]. unfold vouched. rewrite Eo. exists b, key, u, (now 1%nat).
  unfold claim_ok in Ec. bool_simplify. rewrite !elem_of_app, !elem_of_cons, !elem_of_app, !elem_of_cons. auto 10.
Qed.

Lemma allowed_spec n c e d :
  own n (assertAiAllowed n c e) d (λ a d', match a with Ok _ => Allowed n (p_organizationId (user c)) ∈ trail d' | Err err => bare err end).
Proof.
  intros d' Hd HI. destruct (e_switches e) eqn:Es; cbn [fst snd]; (split; [|done || idtac]); try apply guar_refl.
  - apply (guar_neutral n _ _ [Allowed n (p_organizationId (user c))]); [done|done|]. by intros ev ->%list_elem_of_singleton.
  - intros d2 H2 I2. eapply anyone_in; [by eapply others_any|]. left.
Qed.

(** ** Statements on a row *)

Lemma find_ok c (scoped : row → bool) id d r :
  find c scoped id d = Some r ↔ actions d !! id = Some r ∧ p_organization (r_proposal r) = p_organizationId (user c) ∧ scoped r = true.
Proof.
  unfold find, visible. destruct (actions d !! id) as [r'|]; cbn; [|naive_solver].
  destruct (bool_decide (p_organization (r_proposal r') = p_organizationId (user c))) eqn:E1; cbn.
  - apply bool_decide_eq_true in E1. destruct (scoped r') eqn:E2; split; [by intros [= <-]|by intros ([= <-] & _)|done|intros ([= <-] & _ & Hs); congruence].
  - apply bool_decide_eq_false in E1. split; [done|]. intros ([= <-] & Ho & _). done.
Qed.

(** A pending action that ends without having been claimed. *)
Lemma pending_ends n d id r r' :
  actions d !! id = Some r → r_status r = Pending → r_proposal r' = r_proposal r →
  (r_status r' = Expired ∨ r_status r' = Rejected ∨ r_status r' = Failed ∧ (r_outcome r' = Some Unknown ∨ r_outcome r' = Some FailedOutcome)) →
  guar n d (set_action id r' d).
Proof.
  intros Hr Hp Hprop Hs. eapply (guar_update n _ _ id r r' []); [done|done|done| |by intros e ?%not_elem_of_nil|by intros i e ?%not_elem_of_nil|by rewrite Hp|].
  - right. split; [done|]. rewrite Hp. by destruct Hs as [->|[->|[-> _]]].
  - intros HI. split; [apply HI|]. destruct (inv_rows d HI id r Hr) as [Hok _]. unfold row_ok in *. rewrite Hp in Hok. cbn [app].
    pose proof (no_effect _ _ (inv_trail _ HI) Hok) as [Hn1 Hn2]%none_or.
    destruct Hs as [->|[->|[-> Ho]]]; [done..|]. split; [done|]. destruct Ho as [Ho|Ho]; [by left|right; auto].
Qed.

(** A claimed action that ends. *)
Lemma claimed_ends n d id p c dec r' :
  inv d → holding n id p c dec d → r_proposal r' = p →
  (r_status r' = Executed ∧ r_outcome r' = Some Succeeded ∧ r_decision r' = Some dec ∧ (∃ message, Sent n id message ∈ trail d)
   ∨ r_status r' = Failed ∧ (r_outcome r' = Some Unknown ∨ r_outcome r' = Some FailedOutcome ∧
        (r_errorCode r' = Some "ACTION_TARGET_UNAVAILABLE" ∨ none (sends id) (trail d)))) →
  guar n d (set_action id r' d).
Proof.
  intros HI (Ha & Hnr & r & Hr & Hx & Hp & Hd) Hprop Hs.
  eapply (guar_update n _ _ id r r' []); [done|done|done| |by intros e ?%not_elem_of_nil|by intros i e ?%not_elem_of_nil| |].
  - right. split; [congruence|]. rewrite Hx. by destruct Hs as [[-> _]|[-> _]].
  - intros _ m p' c' dec' Hin. by injection (approvals_unique _ _ _ _ _ _ _ _ _ _ (inv_trail _ HI) Ha Hin).
  - intros _. split; [apply HI|]. unfold row_ok. cbn [app]. destruct Hs as [(-> & Ho & Hdec & Hm)|[-> Ho]].
    + split; [done|]. exists n, c, dec. rewrite Hprop. auto.
    + split; [done|]. naive_solver.
Qed.

Lemma eligible_later id p c dec d d' : rtc (anyone guar) d d' → eligible id p c dec (trail d) → eligible id p c dec (trail d').
Proof. intros H [(m & Hm) He]. split; [exists m; by eapply anyone_in|exact He]. Qed.
Lemma approval_later n id p c dec d d' :
  rtc (anyone guar) d d' → approval_ok n id p c dec (trail d) → approval_ok n id p c dec (trail d').
Proof.
  intros H [He (es & l0 & Ht & Hall & Hv)]. split; [by eapply eligible_later|]. destruct (anyone_trail _ _ H) as (e1 & ->).
  exists (e1 ++ es), l0. rewrite Ht, app_assoc. split_and!; [done..|]. by apply vouched_more.
Qed.

Lemma claim_ok_row c scoped id dec d r d1 :
  claim c scoped id dec d = Ok (r, d1) → ∃ r0, actions d !! id = Some r0 ∧ r_status r0 = Pending ∧ d_at dec < p_expiresAt (r_proposal r0) ∧ r = executing dec r0 ∧ d1 = set_action id r d.
Proof.
  unfold claim. destruct (find _ _ _ _) as [r0|] eqn:E; [|done]. intros [= <- <-]. apply find_ok in E as (Hr & _ & Hs).
  exists r0. bool_simplify. done.
Qed.

Lemma set_world_actions w d : actions (set_world w d) = actions d ∧ trail (set_world w d) = trail d.
Proof. done. Qed.

Lemma notes_about n id p c dec input e :
  e ∈ [Ran n id input; Approved n id p c dec] → by_request e = n ∧ ∀ i, i ≠ id → approves i e = false ∧ effects i e = false.
Proof.
  intros He. apply elem_of_cons in He as [->| ->%list_elem_of_singleton]; (split; [done|]); intros j Hj; unfold effects; cbn;
    rewrite ?bool_decide_neq by congruence; done.
Qed.

(** A transaction commits nothing, or runs the tool once, approved. *)
Lemma run_transaction_spec n e c scoped id p dec t execute d :
  inv d → get registry (p_action p) = Some t → approval_ok n id p c dec (trail d) →
  let '(a, d') := run_transaction mask n e c scoped id p dec t execute d in
  guar n d d' ∧
  match a with
  | Ok r => actions d' !! id = Some r ∧ r_status r = Executed
  | Err _ => True
  end.
Proof.
  intros HI Ht Hmay. unfold run_transaction. destruct (claim c scoped id dec d) as [[r d1]|f] eqn:Ec; [|by split; [apply guar_refl|]].
  destruct (claim_ok_row _ _ _ _ _ _ _ Ec) as (r0 & Hr0 & Hpend & Hexp & -> & ->).
  unfold parseStored. destruct (inputSchema t (p_input p)) as [input|] eqn:Ei; [|by split; [apply guar_refl|]].
  destruct (e_hook e); [by split; [apply guar_refl|]|]. destruct (execute _ _ _ _ _) as [[output|f] w]; [|by split; [apply guar_refl|]].
  set (r' := succeeded _ _ _ _). set (d' := note _ _).
  assert (guar n d d') as Hg.
  { destruct (inv_rows d HI id r0 Hr0) as [Hok (m0 & Hprep0)]. unfold row_ok in Hok. rewrite Hpend in Hok.
    assert (r_proposal r0 = p) as Hp0.
    { destruct Hmay as [[(m & Hm) _] _]. destruct (inv_prepared d HI _ _ _ Hm) as (r1 & Hr1 & Hp1). congruence. }
    eapply (guar_update n _ _ id r0 r' [Ran n id input; Approved n id p c dec]); [done|done|done| | | |congruence|].
    - right. split; [done|]. by rewrite Hpend.
    - by eapply notes_about.
    - intros i ev Hev. apply elem_of_cons in Hev as [->| ->%list_elem_of_singleton]; done.
    - intros _. pose proof (no_effect _ _ (inv_trail _ HI) Hok) as Hne. split.
      + split; [|split; [refine (conj _ (conj _ _)); [done|by rewrite <-Hp0|done]|apply HI]]. split.
        * apply none_cons. done.
        * exists p, c, dec, t. split_and!; [left|done..].
      + unfold row_ok. cbn. split; [done|]. exists n, c, dec. rewrite Hp0. split; [right; left|]. split; [done|]. left. exists input. left. }
  unfold committed. destruct (e_commit e); (split; [try apply guar_refl; exact Hg|]); [|done..].
  split; [|done]. cbn. by simplify_map_eq.
Qed.

(** What a claimed external action is about to send. *)
Definition targeted p (t : tool W) (target : json) : Prop :=
  ∃ input w claimTarget attempted deliver, inputSchema t (p_input p) = Some input ∧
    tool_execution t = Some (ExternalMode (Some claimTarget) attempted (Some deliver)) ∧ claimTarget w input = Ok target.

Lemma claim_external_spec n e c scoped id p dec t claimTarget attempted deliver d :
  inv d → tool_execution t = Some (ExternalMode (Some claimTarget) attempted (Some deliver)) → approval_ok n id p c dec (trail d) →
  let '(a, d') := claim_external n e c scoped id p dec t claimTarget d in
  guar n d d' ∧ match a with Ok target => holding n id p c dec d' ∧ none (sends id) (trail d') ∧ targeted p t target | Err _ => True end.
Proof.
  intros HI Hx Hmay. unfold claim_external. destruct (claim c scoped id dec d) as [[r d1]|f] eqn:Ec; [|by split; [apply guar_refl|]].
  destruct (claim_ok_row _ _ _ _ _ _ _ Ec) as (r0 & Hr0 & Hpend & Hexp & -> & ->).
  unfold parseStored. destruct (inputSchema t (p_input p)) as [input|] eqn:Ei; [|by split; [apply guar_refl|]].
  destruct (claimTarget _ _) as [target|f] eqn:Etarget; [|by split; [apply guar_refl|]]. set (d' := note _ _).
  destruct (inv_rows d HI id r0 Hr0) as [Hok (m0 & Hprep0)]. unfold row_ok in Hok. rewrite Hpend in Hok.
  pose proof (no_effect _ _ (inv_trail _ HI) Hok) as [Hnr Hns]%none_or.
  assert (r_proposal r0 = p) as Hp0.
  { destruct Hmay as [[(m & Hm) _] _]. destruct (inv_prepared d HI _ _ _ Hm) as (r1 & Hr1 & Hp1). congruence. }
  assert (guar n d d') as Hg.
  { eapply (guar_update n _ _ id r0 (executing dec r0) [Approved n id p c dec]); [done|done|done| | | |congruence|].
    - right. split; [done|]. by rewrite Hpend.
    - intros ev Hev. apply (notes_about n id p c dec JNull ev). by right.
    - intros i ev ->%list_elem_of_singleton. done.
    - intros _. split; [split; [refine (conj _ (conj _ _)); [done|by rewrite <-Hp0|done]|apply HI]|]. unfold row_ok. cbn. split; [by apply none_cons|].
      exists n, c, dec. rewrite Hp0. split; [left|done]. }
  assert (holding n id p c dec d' ∧ none (sends id) (trail d')) as [Hh Hs].
  { split; [|by apply none_cons]. split; [left|]. split; [by apply none_cons|]. exists (executing dec r0).
    split; [|by rewrite <-Hp0]. cbn. by simplify_map_eq. }
  unfold committed. destruct (e_commit e); (split; [try apply guar_refl; exact Hg|]); [|done..].
  split_and!; [done..|]. by exists input, (world (set_action id (executing dec r0) d)), claimTarget, attempted, deliver.
Qed.

Lemma send_spec n e id p c dec t deliver target d :
  inv d → get registry (p_action p) = Some t → holding n id p c dec d → none (sends id) (trail d) → targeted p t target →
  (∃ ct at_, tool_execution t = Some (ExternalMode ct at_ (Some deliver))) →
  let '(a, d') := send n e id deliver target d in
  guar n d d' ∧ holding n id p c dec d' ∧ match a with Ok _ => ∃ message, Sent n id message ∈ trail d' | Err _ => True end.
Proof.
  intros HI Ht Hh Hns (input & w & ct & at_ & dl & Hi & Hx & Hct) (ct' & at' & Hx').
  unfold send. destruct (deliver target) as [message|f] eqn:Ed; [|split; [apply guar_refl|done]].
  destruct Hh as (Ha & Hnr & r & Hr & Hexec & Hp & Hd). split; [|split].
  - eapply (guar_update n _ _ id r r [Sent n id message]); [done|by rewrite insert_id|done|apply moves_refl| | | |].
    + intros ev ->%list_elem_of_singleton. split; [done|]. intros j Hj. unfold effects. cbn. by rewrite bool_decide_neq by congruence.
    + intros i ev ->%list_elem_of_singleton. done.
    + intros _ m p' c' dec' Hin. by injection (approvals_unique _ _ _ _ _ _ _ _ _ _ (inv_trail _ HI) Ha Hin).
    + intros _. split.
      * split; [|apply HI]. split; [by apply none_or|]. exists p, c, dec, t, input, w, target. split_and!; [done..|].
        exists ct, at_, dl. split_and!; [done..|]. congruence.
      * unfold row_ok. rewrite Hexec. split; [by apply none_cons|]. exists n, c, dec. rewrite Hp. split; [right; done|done].
  - split; [right; done|]. split; [by apply none_cons|]. by exists r.
  - destruct (e_reply e); [|done]. exists message. left.
Qed.

Lemma existsb_rows (f : row → bool) d : existsb (λ kr, f kr.2) (map_to_list (actions d)) = false ↔ ∀ id r, actions d !! id = Some r → f r = false.
Proof.
  split.
  - intros H id r Hr. destruct (f r) eqn:E; [|done]. assert (existsb (λ kr, f kr.2) (map_to_list (actions d)) = true); [|congruence].
    apply existsb_exists. exists (id, r). split; [|done]. by apply list_elem_of_In, elem_of_map_to_list.
  - intros H. apply not_true_iff_false. intros ([id r] & Hin%list_elem_of_In & Hf)%existsb_exists. apply elem_of_map_to_list in Hin.
    cbn in Hf. rewrite (H _ _ Hin) in Hf. done.
Qed.

(** What a new action needs. *)
Definition may_prepare (n : nat) p d : Prop :=
  Allowed n (p_organization p) ∈ trail d ∧
  ∃ t j, get registry (p_action p) = Some t ∧ class t ∈ APPROVAL_CLASSES ∧ inputSchema t j = Some (p_input p) ∧
         p_hash p = toolInputHash sha256 (name t) (p_input p).
Lemma create_spec n id p d :
  inv d → may_prepare n p d → guar n d (create n id p d).2 ∧
  ((create n id p d).1 = Inserted → actions (create n id p d).2 !! id = Some (Row p Pending None None None None None)).
Proof.
  intros HI [Hall Ht]. unfold create. destruct (row_check p) eqn:Ec; cbn [negb]; [|by split; [apply guar_refl|]].
  case_bool_decide as Hid; cbn [orb]; [by split; [apply guar_refl|]|]. destruct (existsb _ _) eqn:Ek; [by split; [apply guar_refl|]|].
  pose proof (proj1 (existsb_rows (same_key p) d) Ek) as Hkey. assert (actions d !! id = None) as Hnone by (apply eq_None_not_Some; exact Hid).
  cbn [fst snd]. split; [|intros _; cbn; by simplify_map_eq].
  assert (none (prepares id) (trail d)) as Hnp.
  { intros ev Hev. destruct ev as [m i q| | | | | |]; try done. cbn. apply bool_decide_neq. intros ->.
    destruct (inv_prepared d HI _ _ _ Hev) as (r & Hr & _). congruence. }
  split.
  - exists [Prepared n id p]. split; [done|]. by intros ev ->%list_elem_of_singleton.
  - intros i r Hr. exists r. split; [|apply moves_refl]. cbn. rewrite lookup_insert_ne; [done|congruence].
  - intros i r m q c dec _ _ Hr _. cbn. rewrite lookup_insert_ne; [done|congruence].
  - intros _. split.
    + split; [by split|apply HI].
    + intros i r. cbn. rewrite lookup_insert_Some. intros [[<- <-]|[Hne Hr]].
      * split; [|exists n; left]. apply none_cons. split; [done|]. apply no_approval; [apply HI|done].
      * destruct (inv_rows d HI i r Hr) as [Hok (m & Hm)]. split; [|exists m; by right].
        change (row_ok i r ([Prepared n id p] ++ trail d)). apply row_ok_ext; [intros ev ->%list_elem_of_singleton; done..|done].
    + intros m i q. cbn. rewrite elem_of_cons. intros [[= -> -> ->]|Hin]; [by eexists; simplify_map_eq|].
      destruct (inv_prepared d HI _ _ _ Hin) as (r & Hr & Hp). exists r. rewrite lookup_insert_ne; [done|congruence].
    + intros i j r r'. cbn. rewrite !lookup_insert_Some. unfold same_key in *. intros [[<- <-]|[Hi Hr]] [[<- <-]|[Hj Hr']] Hs; [done|..].
      * cbn in Hs. by rewrite (Hkey _ _ Hr') in Hs.
      * exfalso. cbn in Hs. specialize (Hkey _ _ Hr). bool_simplify. apply andb_false_iff in Hkey as [Hk|Hk]; apply bool_decide_eq_false in Hk; congruence.
      * by eapply (inv_keys d HI).
Qed.

(** ** Whole requests *)

Definition receipt (id : string) (r : row) (want : status) d : Prop := actions d !! id = Some r ∧ r_status r = want.
Lemma receipt_stays id r want d d' : rtc (anyone guar) d d' → terminal want = true → receipt id r want d → receipt id r want d'.
Proof. intros H Ht [Hr <-]. split; [by eapply anyone_final|done]. Qed.

(** What a decision's answer promises. *)
Definition decided (want : status) (id : string) (a : answer (string * row * bool)) d : Prop :=
  match a with
  | Ok (i, r, _) => i = id ∧ receipt id r want d
  | Err (ToolError code _ (Some (i, r))) =>
      i = id ∧ (code = "EXECUTION_FAILED" → receipt id r Failed d) ∧ (code = "ACTION_EXPIRED" → receipt id r Expired d)
  | Err _ => True
  end.
Lemma own_bare n want id e d : bare e → own n (mret (Err e)) d (decided want id).
Proof. intros H. apply own_done. intros d'. unfold decided. by destruct e as [code st [[i r]|]| |]. Qed.
Lemma own_refused n want id c e ent d : bare e → own n (deny c e ent) d (decided want id).
Proof. intros H. apply own_deny. intros d'. unfold decided. by destruct e as [code st [[i r]|]| |]. Qed.

(** A transition of this request: the row it answers is the row there is. *)
Lemma own_pending n c id f d (Q : answer row → db → Prop) :
  (∀ r, r_proposal (f r) = r_proposal r ∧ (r_status (f r) = Expired ∨ r_status (f r) = Rejected ∨
          r_status (f r) = Failed ∧ (r_outcome (f r) = Some Unknown ∨ r_outcome (f r) = Some FailedOutcome))) →
  (∀ d', rtc (anyone guar) d d' → inv d' → Q (Err unavailable) d') →
  (∀ d' r, rtc (anyone guar) d d' → inv d' → receipt id (f r) (r_status (f r)) d' → Q (Ok (f r)) d') →
  own n (transition c id Pending f) d Q.
Proof.
  intros Hf Herr Hok d1 H1 I1. destruct (find c _ id d1) as [r|] eqn:E; cbn [fst snd].
  - apply find_ok in E as (Hr & _ & Hs%bool_decide_eq_true). destruct (Hf r) as [Hp Hst].
    split; [by eapply pending_ends|]. assert (terminal (r_status (f r)) = true) as Ht by (by destruct Hst as [->|[->|[-> _]]]).
    assert (guar n d1 (set_action id (f r) d1)) as Hg by by eapply pending_ends.
    intros d2 H2 I2. apply Hok; [|done|].
    + etransitivity; [by eapply others_any|]. eapply rtc_l; [by exists n|by eapply others_any].
    + eapply receipt_stays; [by eapply others_any|done|]. split; [|done]. cbn. by simplify_map_eq.
  - split; [apply guar_refl|]. intros d2 H2 I2. apply Herr; [|done]. etransitivity; by eapply others_any.
Qed.

Lemma own_claimed n c id p dec f d (Q : answer row → db → Prop) :
  inv d → holding n id p c dec d → p_organization p = p_organizationId (user c) →
  (∀ d', rtc (anyone guar) d d' → inv d' → holding n id p c dec d' → ∀ r, r_proposal r = p → r_decision r = Some dec → r_proposal (f r) = p ∧
    (r_status (f r) = Executed ∧ r_outcome (f r) = Some Succeeded ∧ r_decision (f r) = Some dec ∧ (∃ message, Sent n id message ∈ trail d')
     ∨ r_status (f r) = Failed ∧ (r_outcome (f r) = Some Unknown ∨ r_outcome (f r) = Some FailedOutcome ∧
          (r_errorCode (f r) = Some "ACTION_TARGET_UNAVAILABLE" ∨ none (sends id) (trail d'))))) →
  (∀ d' r, receipt id (f r) (r_status (f r)) d' → Q (Ok (f r)) d') →
  own n (transition c id Executing f) d Q.
Proof.
  intros HI Hh Horg Hf Hok d1 H1 I1. destruct (holding_others _ _ _ _ _ _ _ H1 HI Hh) as [Hh1 _].
  destruct (find c _ id d1) as [r|] eqn:E; cbn [fst snd].
  - apply find_ok in E as (Hr & _ & Hs%bool_decide_eq_true).
    assert (r_proposal r = p ∧ r_decision r = Some dec) as [Hp Hd].
    { destruct Hh1 as (_ & _ & r' & Hr' & _ & Hp & Hd). simplify_eq. done. }
    destruct (Hf d1 (others_any _ _ _ H1) I1 Hh1 r Hp Hd) as [Hp' Hst].
    assert (guar n d1 (set_action id (f r) d1)) as Hg by by eapply claimed_ends. split; [done|]. intros d2 H2 I2. apply Hok.
    eapply receipt_stays; [by eapply others_any|by destruct Hst as [[-> _]|[-> _]]|]. split; [|done]. cbn. by simplify_map_eq.
  - exfalso. destruct Hh1 as (_ & _ & r & Hr & Hx & Hp & _).
    assert (find c (λ r, bool_decide (r_status r = Executing)) id d1 = Some r); [|congruence].
    apply find_ok. split_and!; [done|congruence|by apply bool_decide_eq_true].
Qed.

Definition attempted_ok (n : nat) (id : string) p c dec (a : attempt) d : Prop :=
  match a with
  | Completed r => receipt id r Executed d
  | Threw _ claimCommitted attempted => if claimCommitted then holding n id p c dec d ∧ is_Some attempted else attempted = None
  end.

Lemma attempt_spec n e c scoped id p dec t d :
  get registry (p_action p) = Some t → eligible id p c dec (trail d) → Allowed n (p_organizationId (user c)) ∈ trail d →
  own n (attempt_execution mask n e c scoped id p dec t) d (attempted_ok n id p c dec).
Proof.
  intros Ht Hel Hall. unfold attempt_execution. eapply owned_then; [apply assert_spec|]. intros [[]|err] d1 R1 I1 (_ & es & Etr & Hv); [|by apply own_done].
  assert (approval_ok n id p c dec (trail d1)) as Hok1.
  { split; [by eapply eligible_later|]. exists es, (trail d). split_and!; [done..|]. by apply Hv. }
  destruct (tool_execution t) as [[isolation [execute|]|[claimTarget|] [attemptedResult|] [deliver|]|]|] eqn:Et; try by apply own_done.
  - apply owned_await. intros d2 H2 I2. pose proof (approval_later _ _ _ _ _ _ _ (others_any _ _ _ H2) Hok1) as Hok2.
    pose proof (run_transaction_spec n e c scoped id p dec t execute d2 I2 Ht Hok2) as Hs.
    destruct (run_transaction _ _ _ _ _ _ _ _ _ _ _) as [[r|f] d3]; destruct Hs as [Hg Hr]; (split; [exact Hg|]); cbn [fst snd]; [|by apply own_done].
    apply own_audit. intros d4 H4 I4. apply own_ret. intros d5 H5 I5.
    eapply receipt_stays; [by eapply others_any|done|]. change (receipt id r Executed d4). eapply receipt_stays; [by eapply others_any|done|done].
  - apply owned_await. intros d2 H2 I2. pose proof (approval_later _ _ _ _ _ _ _ (others_any _ _ _ H2) Hok1) as Hok2.
    pose proof (claim_external_spec n e c scoped id p dec t claimTarget _ _ d2 I2 Et Hok2) as Hs.
    destruct (claim_external _ _ _ _ _ _ _ _ _ _) as [[target|f] d3]; destruct Hs as [Hg Hs]; (split; [exact Hg|]); cbn [fst snd]; [|by apply own_done].
    destruct Hs as (Hh3 & Hn3 & Htg). pose proof (g_inv _ _ _ Hg I2) as I3.
    apply own_audit. intros d4 H4 I4. destruct (holding_others _ _ _ _ _ _ _ H4 I3 Hh3) as [Hh4 Hn4]. specialize (Hn4 Hn3).
    apply owned_await. intros d5 H5 I5. change (holding n id p c dec (with_audit (Audit (p_organizationId (user c)) (p_id (user c)) "ai.tool_approved" (Some id) None) d4)) in Hh4.
    destruct (holding_others _ _ _ _ _ _ _ H5 ltac:(by eapply (g_inv n d4), I4; apply (guar_neutral n _ _ []); [| |intros ev ?%not_elem_of_nil]) Hh4) as [Hh5 Hn5]. specialize (Hn5 Hn4).
    pose proof (send_spec n e id p c dec t deliver target d5 I5 Ht Hh5 Hn5 Htg ltac:(eauto)) as Hs.
    destruct (send _ _ _ _ _ _) as [[output|f] d6]; destruct Hs as (Hg6 & Hh6 & Hm6); (split; [exact Hg6|]); cbn [fst snd]; pose proof (g_inv _ _ _ Hg6 I5) as I6.
    + eapply owned_then; [eapply (own_claimed n c id p dec _ d6 (λ a d', match a with Ok r => receipt id r Executed d' | Err _ => False end))|]; [done|done| | | |].
      * apply Hok2.
      * intros d7 R7 I7 Hh7 r Hp Hd. split; [exact Hp|]. left. split_and!; [done..|]. destruct Hm6 as (message & Hm). exists message. by eapply anyone_in.
      * done.
      * intros [r|err] d8 R8 I8 Hr; [|done]. apply own_ret. intros d9 H9 I9. eapply receipt_stays; [by eapply others_any|done|exact Hr].
    + apply own_ret. intros d7 H7 I7. split; [|by eexists]. by eapply holding_others.
Qed.

Lemma own_emit {A} n c action ent reason (k : unit → prog db A) d Q :
  (∀ d', rtc (anyone guar) d d' → inv d' → own n (k tt) d' Q) → own n (emit c action ent reason ≫= k) d Q.
Proof.
  intros H. apply own_audit. intros d' Hd HI. assert (guar n d' (with_audit (Audit (p_organizationId (user c)) (p_id (user c)) action ent reason) d')) as Hg.
  { by apply (guar_neutral n _ _ []); [| |intros ev ?%not_elem_of_nil]. }
  apply H; [|by apply (g_inv _ _ _ Hg)]. eapply rtc_r; [by eapply others_any|]. by exists n.
Qed.

Lemma settle_spec n e c scoped id p dec f claimCommitted attempted d :
  inv d → attempted_ok n id p c dec (Threw f claimCommitted attempted) d → p_organization p = p_organizationId (user c) →
  own n (settle_failure e c scoped id dec f claimCommitted attempted) d (decided Executed id).
Proof.
  intros HI Ha Horg. unfold settle_failure.
  destruct (bool_decide (is_Some (oauth c)) && _) eqn:E1; [apply own_bare; by destruct f|].
  destruct (bool_decide (tool_code f = Some "ACTION_UNAVAILABLE")).
  { apply own_read. intros d1 H1 I1. apply own_done. intros d2. by destruct (find c scoped id d1). }
  cbn zeta. set (code := if isTargetUnavailable f then "ACTION_TARGET_UNAVAILABLE" else _). set (o := if _ && _ then Unknown else FailedOutcome).
  assert (∀ d' r, receipt id (failed dec code o attempted r) Failed d' → inv d' →
    own n (_ ← emit c "ai.tool_failed" (Some id) (Some code); mret (Err (ToolError "EXECUTION_FAILED" (if isTargetUnavailable f then 409 else 502) (Some (id, failed dec code o attempted r)))))
      d' (decided Executed id)) as Hend.
  { intros d' r Hr I'. apply own_emit. intros d1 R1 I1. apply own_ret. intros d2 H2 I2. split; [done|]. split; [|done]. intros _.
    eapply receipt_stays; [by eapply others_any|done|]. by eapply receipt_stays. }
  assert (o = Unknown ∨ o = FailedOutcome ∧ (is_Some attempted → code = "ACTION_TARGET_UNAVAILABLE")) as Ho.
  { unfold o, code. destruct (bool_decide (is_Some attempted)) eqn:Eb, (isTargetUnavailable f); cbn; auto.
    right. split; [done|]. intros Hs. by apply bool_decide_eq_false in Eb. }
  clearbody o code. destruct claimCommitted; cbn [attempted_ok] in Ha.
  - destruct Ha as [Hh Hsome]. change (mret tt ≫= ?k) with (k tt). eapply owned_then.
    { eapply (own_claimed n c id p dec _ d (λ a d', match a with Ok r => ∃ r0, r = failed dec code o attempted r0 ∧ receipt id r Failed d' | Err _ => False end)); [done..| |].
      - intros d' _ _ _ r Hp Hd. split; [exact Hp|]. right. split; [done|].
        destruct Ho as [->|[-> Hc]]; [by left|right]. split; [done|]. left. cbn. by rewrite Hc.
      - intros d' r Hr. by exists r. }
    intros [r|err] d1 R1 I1 Hr; [|done]. destruct Hr as (r0 & -> & Hr). by apply Hend.
  - apply own_emit. intros d0 R0 I0. eapply owned_then.
    { eapply (own_pending n c id _ d0 (λ a d', match a with Ok r => ∃ r0, r = failed dec code o attempted r0 ∧ receipt id r Failed d' | Err e => e = unavailable end)).
      - intros r. split; [done|]. right. right. split; [done|]. destruct Ho as [->|[-> _]]; [by left|by right].
      - done.
      - intros d' r _ _ Hr. by exists r. }
    intros [r|err] d1 R1 I1 Hr; [|subst err; by apply own_bare]. destruct Hr as (r0 & -> & Hr). by apply Hend.
Qed.

(** A row that was loaded: it was there in between, for the caller to see. *)
Definition loaded c (scoped : row → bool) (id : string) d (a : answer row) d' : Prop :=
  match a with
  | Ok r => (∃ d0, rtc (anyone guar) d d0 ∧ rtc (anyone guar) d0 d' ∧ actions d0 !! id = Some r) ∧
            p_organization (r_proposal r) = p_organizationId (user c) ∧ ∃ m, Prepared m id (r_proposal r) ∈ trail d'
  | Err e => e = not_found
  end.
Lemma load_tool_spec n c id scoped now d : own n (load n c id scoped now) d (loaded c scoped id d).
Proof.
  unfold load. apply own_read. intros d1 H1 I1. destruct (find c scoped id d1) as [r|] eqn:E; [|by apply own_done].
  apply find_ok in E as (Hr & Ho & Hs). eapply owned_then; [apply assert_spec|]. intros [u|err] d2 R2 I2 [Hn _]; apply own_ret; intros d3 H3 I3;
    [|by destruct Hn as [|[= ->]]].
  split_and!; [|done|].
  - exists d1. split_and!; [by eapply others_any|etransitivity; [exact R2|by eapply others_any]|done].
  - destruct (inv_rows d1 I1 id r Hr) as [_ (m & Hm)]. exists m. eapply anyone_in; [by eapply others_any|]. by eapply anyone_in.
Qed.

Lemma means_oauth c m : is_Some (oauth c) → method (means_of c m) = "oauth_confirm".
Proof. intros H. unfold means_of. by rewrite bool_decide_true. Qed.

Lemma approve_spec n e c id m d : own n (approve registry mask n e c id m) d (decided Executed id).
Proof.
  unfold approve. cbn zeta. eapply owned_then; [apply load_tool_spec|]. intros [row|err] d1 R1 I1 Hl; cbn [loaded] in Hl; [|subst err; by apply own_bare].
  destruct Hl as ((d0 & _ & R0 & Hrow) & Horg & Hprep). set (p := r_proposal row) in *.
  destruct (bool_decide (r_status row = Executed)) eqn:E1.
  { apply bool_decide_eq_true in E1. apply own_ret. intros d2 H2 I2. split; [done|]. split; [|done].
    eapply anyone_final; [etransitivity; [exact R0|by eapply others_any]|done|by rewrite E1]. }
  destruct (bool_decide (r_status row = Pending)); cbn [negb]; [|by apply own_bare].
  destruct (get registry (p_action p)) as [t|] eqn:Et; [|by apply own_bare].
  destruct (Tenancy.Tenancy.mem (class t) APPROVAL_CLASSES) eqn:Ecl; cbn [negb]; [|by apply own_bare]. apply mem_iff in Ecl.
  destruct (_ && negb _) eqn:E2; [by apply own_refused|]. destruct (approverAllowed c t p) eqn:E3; cbn [negb]; [|by apply own_refused].
  eapply owned_then; [apply allowed_spec|]. intros [u|err] d2 R2 I2 Hall; [|by apply own_refused].
  destruct (p_expiresAt p <=? clock e 2).
  - eapply owned_then.
    { eapply (own_pending n c id expired d2 (λ a d', match a with Ok r => receipt id r Expired d' | Err e => e = unavailable end)); [auto|done|].
      intros d' r _ _ Hr. exact Hr. }
    intros [r|err] d3 R3 I3 Hr; cbn beta iota in Hr; [|subst err; by apply own_bare]. apply own_emit. intros d4 R4 I4. apply own_ret. intros d5 H5 I5.
    split; [done|]. split; [done|]. intros _. eapply receipt_stays; [by eapply others_any|done|]. by eapply receipt_stays.
  - set (dec := decide_at _ _ _ _ _). eapply owned_then.
    { apply (attempt_spec n e c _ id p dec t d2 Et); [|exact Hall]. split; [|split_and!; [done|by exists t|done|done| |]].
      - destruct Hprep as (m0 & Hm0). exists m0. by eapply anyone_in.
      - intros Hs. cbn. rewrite Hs, bool_decide_refl in E2. cbn [andb] in E2. by apply negb_false_iff, bool_decide_eq_true in E2.
      - apply means_oauth. }
    intros [r|f claimed attempted] d3 R3 I3 Ha; [|by eapply settle_spec].
    apply own_emit. intros d4 R4 I4. apply own_ret. intros d5 H5 I5. split; [done|].
    eapply receipt_stays; [by eapply others_any|done|]. by eapply receipt_stays.
Qed.

Lemma reject_spec n e c id reason m d : own n (reject (W := W) n e c id reason m) d (decided Rejected id).
Proof.
  unfold reject. cbn zeta. eapply owned_then; [apply load_tool_spec|]. intros [row|err] d1 R1 I1 Hl; cbn [loaded] in Hl; [|subst err; by apply own_bare].
  clear Hl. destruct (bool_decide (r_status row = Pending)); cbn [negb]; [|by apply own_bare]. set (dec := decide_at _ _ _ _ _).
  apply owned_await. intros d2 H2 I2. destruct (authority_now _ _ _ _ d2); cbn [negb fst snd]; [|by split; [apply guar_refl|apply own_bare]].
  destruct (find c _ id d2) as [r|] eqn:E; cbn [fst snd]; [|by split; [apply guar_refl|apply own_bare]].
  apply find_ok in E as (Hr & _ & [_ Hs%bool_decide_eq_true]%andb_true_iff). assert (guar n d2 (set_action id (rejected dec r) d2)) as Hg by (eapply pending_ends; [exact Hr|assumption|reflexivity|right; left; reflexivity]).
  split; [done|]. assert (receipt id (rejected dec r) Rejected (set_action id (rejected dec r) d2)) as Hrec by (split; [cbn; by simplify_map_eq|done]).
  apply own_emit. intros d3 R3 I3. eapply receipt_stays in Hrec; [|exact R3|done]. clear Hg Hr.
  eapply owned_then; [apply load_tool_spec|]. intros [r'|err] d4 R4 I4 Hl; cbn [loaded] in Hl; [|subst err; by apply own_bare].
  destruct Hl as ((d0 & R0 & R0' & Hr') & _). apply own_ret. intros d5 H5 I5. split; [done|].
  destruct (receipt_stays id _ Rejected _ _ R0 eq_refl Hrec) as [Hr2 Hst]. simplify_eq.
  eapply receipt_stays; [etransitivity; [exact R0'|by eapply others_any]|done|]. by split.
Qed.

(** ** Calls *)

(** What a call's answer promises. *)
Definition called c (k : call) (a : answer invoked) d : Prop :=
  match a with
  | Ok (Result tool_name tool_class output) =>
      ∃ t, (c_tool k ≫= get registry) = Some t ∧ name t = tool_name ∧ class t = tool_class ∧ (class t ∉ APPROVAL_CLASSES) ∧ p_role (user c) ∈ roles t ∧
           ∃ raw, output = redactSecrets mask raw
  | Ok (PendingAction id r _) =>
      ∃ t j input r', (c_tool k ≫= get registry) = Some t ∧ class t ∈ APPROVAL_CLASSES ∧ p_role (user c) ∈ roles t ∧
        c_input k = Some j ∧ inputSchema t j = Some input ∧ actions d !! id = Some r' ∧ r_proposal r' = r_proposal r ∧
        let p := r_proposal r in
        p_organization p = p_organizationId (user c) ∧ p_user p = p_id (user c) ∧ Some (p_key p) = c_key k ∧ p_action p = name t ∧
        p_hash p = toolInputHash sha256 (name t) input
  | Err _ => True
  end.
Lemma called_stays c k a d d' : rtc (anyone guar) d d' → called c k a d → called c k a d'.
Proof.
  intros H. unfold called. destruct a as [[| id r b]|]; try done. intros (t & j & input & r' & H1 & H2 & H3 & H4 & H5 & Hr & Hp & H6).
  destruct (anyone_row _ _ _ _ H Hr) as (r2 & Hr2 & Hp2). exists t, j, input, r2. split_and!; try done; [congruence|apply H6..].
Qed.
Lemma own_called n c k a d : called c k a d → own n (mret a) d (called c k).
Proof. intros H. apply own_ret. intros d' H' _. eapply called_stays; [by eapply others_any|done]. Qed.
Lemma hook_failed_spec n c k f d : own n (hook_failed c f) d (called c k).
Proof. destruct f; [by apply own_deny|by apply own_done..]. Qed.

Lemma by_key_ok c key d id r : by_key c key d = Some (id, r) →
  actions d !! id = Some r ∧ p_organization (r_proposal r) = p_organizationId (user c) ∧ p_user (r_proposal r) = p_id (user c) ∧ p_key (r_proposal r) = key.
Proof.
  unfold by_key. intros H. assert ((id, r) ∈ List.filter (λ kr, visible c kr.2 && bool_decide (p_user (r_proposal kr.2) = p_id (user c)) && bool_decide (p_key (r_proposal kr.2) = key)) (map_to_list (actions d))) as Hin.
  { destruct (List.filter _ _); [done|]. injection H as ->. left. }
  apply list_elem_of_In, filter_In in Hin as [Hin Hp]. apply list_elem_of_In, elem_of_map_to_list in Hin. unfold visible in Hp. cbn in *. bool_simplify. done.
Qed.

Lemma role_ok c (t : tool W) : Tenancy.Tenancy.mem (p_role (user c)) (roles t) = true → p_role (user c) ∈ roles t.
Proof. apply mem_iff. Qed.

(** A stored action of the same intent answers the call. *)
Lemma same_intent_called c k t j input key id r b d :
  (c_tool k ≫= get registry) = Some t → class t ∈ APPROVAL_CLASSES → p_role (user c) ∈ roles t → c_input k = Some j → inputSchema t j = Some input →
  c_key k = Some key → other_intent t (toolInputHash sha256 (name t) input) r = false →
  actions d !! id = Some r ∧ p_organization (r_proposal r) = p_organizationId (user c) ∧ p_user (r_proposal r) = p_id (user c) ∧ p_key (r_proposal r) = key →
  called c k (Ok (PendingAction id r b)) d.
Proof.
  intros Ht Hc Hro Hj Hi Hk Hint (Hr & Ho & Hu & Hkey). unfold other_intent in Hint. apply orb_false_iff in Hint as [H1 H2].
  apply negb_false_iff, bool_decide_eq_true in H1, H2. exists t, j, input, r. split_and!; try done. cbn zeta. by rewrite Hk, Hkey.
Qed.

Lemma record_spec n e c t k j input key preview_ sc d :
  (c_tool k ≫= get registry) = Some t → get registry (name t) = Some t → class t ∈ APPROVAL_CLASSES → p_role (user c) ∈ roles t →
  c_input k = Some j → inputSchema t j = Some input → c_key k = Some key → Allowed n (p_organizationId (user c)) ∈ trail d →
  own n (record_action n e c t k key (toolInputHash sha256 (name t) input) input preview_ sc) d (called c k).
Proof.
  intros Ht Hname Hc Hro Hj Hi Hk Hall. unfold record_action. set (p := Proposal _ _ _ _ _ _ _ _ _ _ _ _ _).
  apply owned_await. intros d1 H1 I1. destruct (authority_now _ _ _ _ d1); cbn [fst snd]; [|by split; [apply guar_refl|apply own_done]].
  assert (may_prepare n p d1) as Hmay.
  { split; [eapply anyone_in; [by eapply others_any|exact Hall]|]. by exists t, j. }
  destruct (create_spec n (e_id e) p d1 I1 Hmay) as [Hg Hins].
  destruct (create n (e_id e) p d1) as [m d2]; cbn [fst snd] in Hg, Hins |- *. split; [exact Hg|].
  destruct m; [|apply own_read; intros d3 H3 I3|by apply own_done].
  - specialize (Hins eq_refl). apply own_emit. intros d3 R3 I3. destruct (anyone_row _ _ _ _ R3 Hins) as (r' & Hr' & Hp').
    apply own_called. exists t, j, input, r'. split_and!; try done; by rewrite Hk.
  - destruct (by_key c key d3) as [[id r]|] eqn:E; [|by apply own_deny]. apply by_key_ok in E.
    destruct (other_intent _ _ r) eqn:Eo; [by apply own_deny|].
    eapply owned_then; [apply assert_spec|]. intros [u|err] d4 R4 I4 _; [|by apply own_done]. apply own_called.
    eapply called_stays; [exact R4|]. by eapply same_intent_called.
Qed.

Lemma prepare_spec n e c t k j input d :
  (c_tool k ≫= get registry) = Some t → get registry (name t) = Some t → class t ∈ APPROVAL_CLASSES → p_role (user c) ∈ roles t →
  c_input k = Some j → inputSchema t j = Some input → Allowed n (p_organizationId (user c)) ∈ trail d →
  own n (prepare sha256 n e c t k input) d (called c k).
Proof.
  intros Ht Hname Hc Hro Hj Hi Hall. unfold prepare. destruct (c_key k) as [key|] eqn:Hk; [|by apply own_deny].
  destruct (IDEMPOTENCY_KEY_FORMAT key); cbn [negb]; [|by apply own_deny]. cbn zeta. apply own_read. intros d1 H1 I1.
  destruct (by_key c key d1) as [[id r]|] eqn:E.
  - apply by_key_ok in E. eapply owned_then; [apply assert_spec|]. intros [u|err] d2 R2 I2 _; [|by apply own_done].
    destruct (other_intent _ _ r) eqn:Eo; [by apply own_deny|]. apply own_called. eapply called_stays; [exact R2|]. by eapply same_intent_called.
  - apply own_read. intros d2 H2 I2. destruct (resolveScope _ _ _ _) as [sc|f]; [|apply hook_failed_spec].
    apply own_read. intros d3 H3 I3. destruct (match preview t with Some h => _ | None => _ end) as [pv|f]; [|apply hook_failed_spec].
    eapply record_spec; try done. eapply anyone_in; [by eapply others_any|]. eapply anyone_in; [by eapply others_any|]. eapply anyone_in; [by eapply others_any|]. done.
Qed.

Lemma run_tool_spec n e c t k input sc d :
  (c_tool k ≫= get registry) = Some t → class t ∉ APPROVAL_CLASSES → p_role (user c) ∈ roles t →
  own n (run_tool mask e c t input sc) d (called c k).
Proof.
  intros Ht Hc Hro. unfold run_tool. apply own_read. intros d1 H1 I1.
  destruct (match e_hook e with Some f => _ | None => _ end) as [output|[code st| | |]]; [|by apply own_deny|by apply own_done..].
  apply own_called. exists t. split_and!; try done. by exists output.
Qed.

Lemma invoke_spec n e c k d :
  (∀ w t, get registry w = Some t → name t = w) → own n (invoke registry mask sha256 n e c k) d (called c k).
Proof.
  intros Hcat. unfold invoke. destruct (c_tool k ≫= get registry) as [t|] eqn:Ht; [|by apply own_deny].
  assert (get registry (name t) = Some t) as Hname.
  { destruct (c_tool k) as [w|]; [|done]. cbn in Ht. by rewrite (Hcat _ _ Ht). }
  destruct (too_large _ _); [by apply own_deny|]. destruct (c_input k) as [j|] eqn:Hj; cbn [mbind option_bind]; [|by apply own_deny].
  destruct (inputSchema t j) as [input|] eqn:Hi; [|by apply own_deny]. cbn zeta.
  eapply (owned_then _ _ _ _ _ _ (λ _ _, True)).
  { destruct (_ && _); [|by apply own_done]. eapply owned_mono; [apply assert_spec|done]. }
  intros [u|err] d1 R1 I1 _; [|by apply own_done]. destruct (Tenancy.Tenancy.mem (p_role (user c)) (roles t)) eqn:Hro; cbn [negb]; [|by apply own_deny].
  apply role_ok in Hro. eapply owned_then; [apply allowed_spec|]. intros [u'|err] d2 R2 I2 Hall; [|by apply own_deny].
  destruct (Tenancy.Tenancy.mem (class t) APPROVAL_CLASSES) eqn:Hc.
  - apply mem_iff in Hc. by eapply prepare_spec.
  - assert (class t ∉ APPROVAL_CLASSES) as Hnc by (rewrite <-mem_iff; by rewrite Hc).
    apply own_read. intros d3 H3 I3. destruct (resolveScope _ _ _ _) as [sc|f]; [by apply run_tool_spec|apply hook_failed_spec].
Qed.

Definition answered (i : ToolActions.input W) (a : reply) d : Prop :=
  match i, a with
  | Invoke e c k, Called r => called c k r d
  | Approve e c id m, Decided r => decided Executed id r d
  | Reject e c id reason m, Decided r => decided Rejected id r d
  | Elsewhere _ _ _, _ => True
  | _, _ => False
  end.
Lemma decided_stays want id a d d' : terminal want = true → rtc (anyone guar) d d' → decided want id a d → decided want id a d'.
Proof.
  intros Hw H. unfold decided. destruct a as [[[i r] b]|[code st [[i r]|]| |]]; try done.
  - intros [-> Hr]. split; [done|]. by eapply receipt_stays.
  - intros (-> & H1 & H2). split_and!; [done|intros Hc; eapply receipt_stays; by auto..].
Qed.

Lemma handle_tool_spec n i d :
  (∀ w t, get registry w = Some t → name t = w) → own n (handle registry mask sha256 n i) d (answered i).
Proof.
  intros Hcat. destruct i as [e c k|e c id m|e c id reason m|w keys accounts]; cbn [handle].
  - eapply owned_then; [by apply invoke_spec|]. intros a d1 R1 I1 Ha. apply own_ret. intros d2 H2 I2. eapply called_stays; [by eapply others_any|exact Ha].
  - eapply owned_then; [apply approve_spec|]. intros a d1 R1 I1 Ha. apply own_ret. intros d2 H2 I2. eapply decided_stays; [done|by eapply others_any|exact Ha].
  - eapply owned_then; [apply reject_spec|]. intros a d1 R1 I1 Ha. apply own_ret. intros d2 H2 I2. eapply decided_stays; [done|by eapply others_any|exact Ha].
  - intros d1 H1 I1. split; [|done]. by apply (guar_neutral n _ _ []); [| |intros ev ?%not_elem_of_nil].
Qed.

(** ** The system *)

Lemma moves_trans r1 r2 r3 : moves r1 r2 → moves r2 r3 → moves r1 r3.
Proof.
  intros [->|[Hp H]]; [done|]. intros [->|[Hp' H']]; [by right|]. right. split; [congruence|].
  destruct (r_status r1), (r_status r2); try done; destruct (r_status r3); done.
Qed.
Lemma anyone_moves id r d d' : rtc (anyone guar) d d' → actions d !! id = Some r → ∃ r', actions d' !! id = Some r' ∧ moves r r'.
Proof.
  intros H. revert r. induction H as [d|d1 d2 d3 (n & H) _ IH]; intros r Hr; [eauto using moves_refl|].
  destruct (g_rows _ _ _ H id r Hr) as (r' & Hr' & Hm). destruct (IH r' Hr') as (r2 & Hr2 & Hm2). exists r2. split; [done|]. by eapply moves_trans.
Qed.
End theory.

(** ** What leaves a tool *)

Fixpoint keys (j : json) : list string :=
  match j with
  | JArr l => List.flat_map keys l
  | JObj fields => List.flat_map (λ kv, kv.1 :: keys kv.2) fields
  | _ => []
  end.
Lemma redact_keys mask depth j : ∀ k, k ∈ keys (redact mask depth j) → secret_key k = false.
Proof.
  revert depth. induction j as [| | | |l IH|l IH] using json_nested_ind; intros depth k; cbn [redact]; destruct (12 <? depth)%nat; cbn [keys];
    try by intros ?%not_elem_of_nil.
  - rewrite list_elem_of_In, in_flat_map. intros (x & Hx & Hk). apply in_map_iff in Hx as (y & <- & Hy). apply list_elem_of_In in Hk, Hy.
    rewrite Forall_forall in IH. by eapply IH.
  - rewrite list_elem_of_In, in_flat_map. intros ([n x] & Hx & Hk). apply list_elem_of_In, list_elem_of_omap in Hx as ([n' y] & Hy & E). cbn in E.
    destruct (secret_key n') eqn:En; [done|]. injection E as <- <-. cbn in Hk. destruct Hk as [<-|Hk]; [done|]. apply list_elem_of_In in Hk.
    rewrite Forall_forall in IH. by eapply (IH (n', y)).
Qed.

(** ** Properties *)

Section properties.
Context {W : Type} (allowlist : list string) (specs : list (spec W)) (r : registry W) (mask sha256 : string → string).
Context (catalogue : createToolRegistry allowlist specs = Ok r).
Abbreviation steps := (rtc (step (handle r mask sha256))).

Definition starts (d : db W) : Prop := actions d = ∅ ∧ trail d = [].

Lemma catalogue_names wanted t : get r wanted = Some t → name t = wanted.
Proof. intros H. assert (∀ n (t : tool W), get [] n = Some t → name t = n ∧ well_formed allowlist t) as Hnil by done. by apply (registered _ _ _ _ catalogue Hnil wanted t H). Qed.

Abbreviation sound := (owned_sound (inv r sha256) (guar r sha256) (λ _ i, answered r mask sha256 i)).
Lemma tools_run s s' : steps s s' → sound s → sound s' ∧ rtc (anyone (guar r sha256)) (data s) (data s').
Proof.
  apply owned_run; [|intros n i d1 _; apply handle_tool_spec, catalogue_names]. intros n d1 d2 HI HG. exact (g_inv _ _ _ _ _ HG HI).
Qed.
Lemma tools_reachable d s : starts d → steps (initial d) s → sound s.
Proof.
  intros [Ha Ht] Hs. apply (tools_run _ _ Hs), owned_initial. split; rewrite ?Ha, ?Ht; [done|..].
  - by intros id row ?%lookup_empty_Some.
  - by intros m id p ?%not_elem_of_nil.
  - by intros id1 id2 r1 r2 ?%lookup_empty_Some.
Qed.

(** C4 (safety): however calls, approvals, rejections and the rest of the
    program interleave, what happens is accounted for by what happened before.
    A tool's writes are committed, or a third party is contacted, at most once
    per action, with the validated stored input (and the message its tool makes
    of a claimed target), and only after that action was approved.  An action
    is approved at most once, before it expires, by someone its tool lets
    approve it, in the action's own organization, with the AI switches read on
    by this request; an assistant's proposal in a step-up session; and when an
    OAuth connection proposed it, by that very connection, whose key and
    administrator were read as valid after that.  An action's proposal was
    validated by its tool and hashed. *)
Theorem tool_actions_approved d s newer e older :
  starts d → steps (initial d) s → trail (data s) = newer ++ e :: older → justified r sha256 e older.
Proof.
  intros Hd Hs Ht. destruct (tools_reachable d s Hd Hs) as [HI _ _ _]. apply inv_trail in HI. rewrite Ht in HI.
  by apply trail_ok_app in HI as [H _].
Qed.

(** C20 (invariant): a receipt keeps its proposal for ever, its status only moves
    forward, and a change of it passes the database's triggers: none after
    it is executed, failed, rejected or expired.  A pending, rejected or expired
    action was never approved; an executed one names its approver and did run
    or was sent; a failed one did not run, and if it may have been sent its
    outcome is unknown or its target was gone. *)
Theorem receipts_final d s s' id row :
  starts d → steps (initial d) s → steps s s' → actions (data s) !! id = Some row →
  ∃ row', actions (data s') !! id = Some row' ∧ r_proposal row' = r_proposal row ∧ row_ok id row' (trail (data s')) ∧
    (row' = row ∨ deny_ai_action_receipt_mutation row row' = true ∧ preserve_mcp_action_binding row row' = true).
Proof.
  intros Hd Hs Hs' Hrow. pose proof (tools_reachable d s Hd Hs) as Hsound.
  destruct (tools_run _ _ Hs' Hsound) as [Hsound' HR].
  destruct (anyone_moves _ _ _ _ _ _ HR Hrow) as (row' & Hrow' & Hm). exists row'. split; [done|]. pose proof (moves_proposal _ _ Hm) as Hp.
  split; [done|]. split; [by apply (inv_rows _ _ _ (os_inv _ _ _ _ Hsound') id row')|].
  destruct Hm as [->|[_ Hmove]]; [by left|right]. split; [unfold deny_ai_action_receipt_mutation; by destruct (r_status row)|]. unfold preserve_mcp_action_binding. by rewrite Hp, bool_decide_refl.
Qed.

End properties.

(** ** A scope the database does not know *)

(** The binding of an OAuth connection's resource-link action is refused by the
    table's CHECK constraint: such an action cannot be proposed. *)
Definition resource_link_actions : list string :=
  ["create_resource_link"; "update_resource_link"; "archive_resource_link"; "restore_resource_link"; "reorder_resource_links"].
Lemma resource_link_binding_refused c g p b :
  p_action p ∈ resource_link_actions → oauthActionBinding c g (p_action p) = Some b → p_binding p = Some b →
  b_requiredScope b = "workspace:resource-links:write" ∧ row_check p = false.
Proof.
  intros Ha Hb Hp.
  assert (Forall (λ a, required_scope a = Some "workspace:resource-links:write" ∧ a ≠ "create_client_task" ∧ a ≠ "publish_client_service_report_snapshot")
    resource_link_actions) as Hall by (repeat constructor; done).
  rewrite Forall_forall in Hall. destruct (Hall _ Ha) as (Hs & H1 & H2). unfold oauthActionBinding in Hb. rewrite Hs in Hb. injection Hb as <-.
  split; [done|]. unfold row_check, ai_action_oauth_binding_shape. rewrite Hp, (bool_decide_neq _ _ H1), (bool_decide_neq _ _ H2). cbn [andb orb]. by rewrite !andb_false_r.
Qed.

(** ** Examples *)

Definition staff (id role : string) : context := Ctx (Person id "org" role) None [] (Some "req").
Definition demo_env (id : string) : env := Env (λ k, 1000 + Z.of_nat k) SwitchedOn id None Reported (Ok (JObj [("ts", JStr "1.2")])).
Definition demo_call (tool key : string) : call := ToolCall (Some tool) (Some (JObj [("title", JStr "Plan")])) (Some key) "assistant".
Definition step_up : means := Means "session_step_up" true false.
Definition demo_handle := handle demo_registry id id.
Definition demo_db : db Z := Db ∅ ∅ ∅ 0 [] [].
Definition run_first (input : ToolActions.input Z) (k : nat) : list (action (Input := ToolActions.input Z)) := Arrive input :: replicate k (Run 0).
(** A member proposes a task twice; two administrators approve it at once; a
    message is proposed and approved. *)
Definition demo_schedule : list (action (Input := ToolActions.input Z)) :=
  run_first (Invoke (demo_env "a1") (staff "team" "TEAM") (demo_call "create_task" "key-0001")) 12 ++
  run_first (Invoke (demo_env "a2") (staff "team" "TEAM") (demo_call "create_task" "key-0001")) 12 ++
  run_first (Approve (demo_env "") (staff "boss" "ADMIN") "a1" step_up) 2 ++
  run_first (Approve (demo_env "") (staff "chief" "ADMIN") "a1" step_up) 12 ++ replicate 12 (Run 1) ++
  run_first (Invoke (demo_env "a3") (staff "team" "TEAM") (demo_call "send_slack_message" "key-0002")) 12 ++
  run_first (Approve (demo_env "") (staff "team" "TEAM") "a3" step_up) 12 ++
  run_first (Reject (demo_env "") (staff "team" "TEAM") "a3" "unsafe" step_up) 12.
Definition demo_sys := perform demo_handle demo_schedule (initial demo_db).
Definition summary (a : reply) : string * bool :=
  match a with
  | Called (Ok (PendingAction id _ b)) => (id, b) | Called (Ok (Result _ _ _)) => ("result", false) | Called (Err e) => (code_of e, false)
  | Decided (Ok (id, _, b)) => (id, b) | Decided (Err e) => (code_of e, false) | Done_ => ("", false)
  end.
Example demo_call_answers :
  (λ a, summary a.2) <$> answers demo_sys =
    [("ACTION_UNAVAILABLE", false); ("a3", false); ("a3", false); ("a1", false); ("ACTION_UNAVAILABLE", false); ("a1", true); ("a1", false)] ∧
  world (data demo_sys) = 1 ∧ r_status <$> actions (data demo_sys) !! "a1" = Some Executed.
Proof. vm_compute. done. Qed.

Lemma demo_catalogue : createToolRegistry EXTERNAL_TOOL_ALLOWLIST demo_specs = Ok demo_registry.
Proof. vm_compute. reflexivity. Qed.
Lemma demo_tools_start : starts demo_db.
Proof. done. Qed.

Lemma tool_actions_approved_witness :
  ∃ newer older, trail (data demo_sys) = newer ++ Sent 5 "a3" (JObj [("title", JStr "Plan")]) :: older ∧
    justified demo_registry id (Sent 5 "a3" (JObj [("title", JStr "Plan")])) older.
Proof.
  assert (trail (data demo_sys) = [] ++ Sent 5 "a3" (JObj [("title", JStr "Plan")]) :: skipn 1 (trail (data demo_sys))) as H by (vm_compute; reflexivity).
  exists [], (skipn 1 (trail (data demo_sys))). split; [exact H|].
  exact (tool_actions_approved EXTERNAL_TOOL_ALLOWLIST demo_specs demo_registry id id demo_catalogue demo_db demo_sys _ _ _ demo_tools_start (perform_steps _ _ _) H).
Defined.

(** The state once the action is proposed, before anyone decides. *)
Definition demo_pending := perform demo_handle (firstn 26 demo_schedule) (initial demo_db).
Lemma receipts_final_witness :
  (r_status <$> actions (data demo_pending) !! "a1") = Some Pending ∧
  ∃ row row', actions (data demo_pending) !! "a1" = Some row ∧ actions (data demo_sys) !! "a1" = Some row' ∧
    r_proposal row' = r_proposal row ∧ row_ok "a1" row' (trail (data demo_sys)) ∧
    (row' = row ∨ deny_ai_action_receipt_mutation row row' = true ∧ preserve_mcp_action_binding row row' = true).
Proof.
  split; [vm_compute; reflexivity|]. assert (is_Some (actions (data demo_pending) !! "a1")) as [row Hrow] by (vm_compute; eauto).
  exists row. assert (demo_sys = perform demo_handle (skipn 26 demo_schedule) demo_pending) as Hsplit by (vm_compute; reflexivity).
  destruct (receipts_final EXTERNAL_TOOL_ALLOWLIST demo_specs demo_registry id id demo_catalogue demo_db demo_pending demo_sys "a1" row
    demo_tools_start (perform_steps _ _ _) ltac:(rewrite Hsplit; apply perform_steps) Hrow) as (row' & Hr & H).
  exists row'. split; [exact Hrow|]. split; [exact Hr|exact H].
Defined.

End ToolReceipts.
