(* ===== verification/ApiKeys.v ===== *)
(** * API keys

    src/src/routes/api-key.routes.js and src/src/auth/api-key-scopes.js: keys a
    member makes for programs, and the guard that accepts them.  The table also
    keeps the access tokens of MCP connections (McpOAuth.v), whose references in
    Redis are part of the state here. *)

From S2P Require Import Prelude Store Async Steps TenantTables Tenancy TenantGuard AuditLog Mfa MfaEnforcement.
Import Tenancy.Tenancy(mem) Steps.Steps.

Module ApiKeys.

(** ** State *)

Abbreviation account := MfaEnforcement.account.
(* src/prisma/schema.prisma:2347-2358 ApiKey *)
Record key := Key {
  k_name : string; k_hash : string; k_user : string; k_scopes : list string; k_active : bool; k_revokedAt : option Z; k_expiresAt : option Z;
  k_lastUsedAt : option Z
}.
(** An authorization request, bound to an account by its preview; the same
    record, with the scopes the account chose, is what a code stands for. *)
Record pending := Pending {
  p_clientId : string; p_redirectUri : string; p_codeChallenge : string; p_state : option string; p_scopes : list string; p_expiresAt : Z;
  p_userId : option string; p_organizationId : option string; p_sessionVersion : option Z; p_nonceHash : option string
}.
Record grant := Grant {
  g_keyId : string; g_userId : string; g_organizationId : option string; g_sessionVersion : option Z; g_clientId : string;
  g_resource : string; g_scopes : list string; g_expiresAt : Z
}.
Record used := Used { w_keyId : string; w_clientId : string }.
#[export] Instance pending_eq_dec : EqDecision pending.
Proof. solve_decision. Defined.

(** What happened, by the number of the request that did it. *)
Inductive event :=
  | Offered (n : nat) (ticket : string) (p : pending)                         (** an authorization request was stored *)
  | Approved (n : nat) (userId code : string) (p : pending)                   (** the member consented: a code was stored *)
  | CodeTaken (n : nat) (code : string)
  | Connected (n : nat) (code id : string) (p : pending) (verifier : string) (token : string) (at_ expires : Z)
                                                                             (** a key row was made for a code *)
  | Granted (n : nat) (id : string) (g : grant)
  | Saved (n : nat) (refresh : string) (g : grant)                            (** a refresh token was stored *)
  | RefreshTaken (n : nat) (refresh : string)
  | Rotated (n : nat) (refresh id : string) (token : string) (at_ expires : Z) (** the key row got a new access token *)
  | Created (n : nat) (id : string) (k : key) (at_ : Z).                      (** a member made a key *)
Record audit := Audit_ { au_action : string; au_org : string; au_user : string; au_entity : string }.

Record db := Db {
  users : gmap string account; keys : gmap string key;
  pendings : gmap string pending; codes : gmap string pending; grants : gmap string grant; refreshes : gmap string grant; useds : gmap string used;
  audits : list audit; trail : list event
}.
Definition set_key (id : string) (k : key) (d : db) : db :=
  Db (users d) (<[id := k]> (keys d)) (pendings d) (codes d) (grants d) (refreshes d) (useds d) (audits d) (trail d).
Definition set_pendings (m : gmap string pending) (d : db) : db :=
  Db (users d) (keys d) m (codes d) (grants d) (refreshes d) (useds d) (audits d) (trail d).
Definition set_codes (m : gmap string pending) (d : db) : db :=
  Db (users d) (keys d) (pendings d) m (grants d) (refreshes d) (useds d) (audits d) (trail d).
Definition set_grants (m : gmap string grant) (d : db) : db :=
  Db (users d) (keys d) (pendings d) (codes d) m (refreshes d) (useds d) (audits d) (trail d).
Definition set_refreshes (m : gmap string grant) (d : db) : db :=
  Db (users d) (keys d) (pendings d) (codes d) (grants d) m (useds d) (audits d) (trail d).
Definition set_useds (m : gmap string used) (d : db) : db :=
  Db (users d) (keys d) (pendings d) (codes d) (grants d) (refreshes d) m (audits d) (trail d).
Definition add_audit (a : audit) (d : db) : db :=
  Db (users d) (keys d) (pendings d) (codes d) (grants d) (refreshes d) (useds d) (audits d ++ [a]) (trail d).
Definition note (e : event) (d : db) : db :=
  Db (users d) (keys d) (pendings d) (codes d) (grants d) (refreshes d) (useds d) (audits d) (e :: trail d).

(** The SDK's OAuth errors, an error of the database, an HTTP reply, a crash. *)
Inductive thrown := InvalidGrant | InvalidClient | InvalidScope | InvalidRequest | InvalidToken | PrismaError (code : string) | Reply (status : Z) | Crash.
#[export] Instance thrown_key_eq_dec : EqDecision thrown.
Proof. solve_decision. Defined.
Abbreviation act := (steps db thrown).

(** The deployment during one request: the clock, the ids of new rows, whether
    audit rows are written, whether a transaction is aborted. *)
Record env := Env { clock : nat → Z; e_id : string; e_audit : bool; e_aborts : bool }.
Record session := Session { u_id : string; u_org : option string }.

(** [recordAuditEvent] never throws. *)
Definition record_audit (e : env) (action : string) (org : option string) (user entity : string) : act unit :=
  write (λ d, (tt, match org with
                   | Some o => if e_audit e && negb (bool_decide (o = "")) then add_audit (Audit_ action o user entity) d else d
                   | None => d
                   end)).
Definition find_key (hash : string) (d : db) : option (string * key) := head (tselect (λ _ k, bool_decide (k_hash k = hash)) (keys d)).
Definition key_row (id : string) (d : db) : option (string * key) := match keys d !! id with Some k => Some (id, k) | None => None end.
(** The primary key and the unique hash. *)
Definition key_taken (d : db) (id hash : string) : bool := bool_decide (is_Some (keys d !! id)) || bool_decide (is_Some (find_key hash d)).
Definition active_keys (userId : string) (d : db) : nat := tcount (λ _ k, bool_decide (k_user k = userId) && k_active k) (keys d).
Definition MAX_ACTIVE_KEYS : nat := 5.
Definition revoke_row (at_ : Z) (k : key) : key :=
  Key (k_name k) (k_hash k) (k_user k) (k_scopes k) false (Some at_) (k_expiresAt k) (k_lastUsedAt k).

(** ** Scopes and lifetimes *)

(* src/src/auth/api-key-scopes.js:13-20 API_KEY_SCOPES *)
Definition API_KEY_SCOPES : list string := ["workspace:read"; "workspace:actions"; "ai_bridge:read"; "ai_bridge:actions"].
Definition API_KEY_DEFAULT_EXPIRY_DAYS : Z := 90.
Definition API_KEY_MAX_EXPIRY_DAYS : Z := 365.
Definition DAY_MS : Z := 24 * 60 * 60 * 1000.
(** What was asked for: whole days, a date ([None] if it is no date), or nothing. *)
Inductive expiry := Days (n : Z) | At (t : option Z) | Unspecified.
(* src/src/auth/api-key-scopes.js:33-45 resolveApiKeyExpiry *)
Definition resolveApiKeyExpiry (x : expiry) (nowMs : Z) : result string Z :=
  match x with
  | At t =>
      match t with
      | None => Err "Expiry must be in the future"
      | Some at_ =>
          if at_ <=? nowMs then Err "Expiry must be in the future"
          else if nowMs + API_KEY_MAX_EXPIRY_DAYS * DAY_MS <? at_ then Err "API keys can last at most 365 days"
          else Ok at_
      end
  | Days _ | Unspecified =>
      let days := match x with Days n => n | _ => API_KEY_DEFAULT_EXPIRY_DAYS end in
      if (days <? 1) || (API_KEY_MAX_EXPIRY_DAYS <? days) then Err "API keys can last at most 365 days" else Ok (nowMs + days * DAY_MS)
  end.
(** The guard of a route that needs a scope. *)
(* src/src/auth/api-key-scopes.js:57-71 requireApiKeyScope *)
Definition requireApiKeyScope (scope : string) (granted : list string) : result thrown unit := refuse_unless (mem scope granted) (Reply 403).

(** ** The routes *)

Section routes.
(** SHA-256 in hexadecimal, and the random bytes of request [n], in
    hexadecimal. *)
Context (hash : string → string) (random_hex : nat → string).

Definition PREFIX : string := "ashbi_".
(* src/src/routes/api-key.routes.js:15-17 generateApiKey *)
Definition generateApiKey (n : nat) : string := PREFIX +:+ random_hex n.

Record created := CreatedKey { c_id : string; c_key : string; c_scopes : list string; c_expiresAt : Z }.
(** Each scope once, in order. *)
Definition granted_scopes (scopes : list string) : list string := isort String.leb (remove_dups scopes).
(** [validateBody(apiKeyCreateSchema)]; the two forms of an expiry exclude each other. *)
(* src/src/validators/schemas.js:1843-1852 apiKeyCreateSchema *)
Definition body_ok (name : string) (scopes : list string) (x : expiry) : bool :=
  negb (bool_decide (Audit.trim name = "")) && (String.length (Audit.trim name) <=? 100)%nat && negb (bool_decide (scopes = [])) &&
  forallb (λ s, mem s API_KEY_SCOPES) scopes && (length scopes <=? length API_KEY_SCOPES)%nat &&
  match x with Days n => (1 <=? n) && (n <=? API_KEY_MAX_EXPIRY_DAYS) | At None => false | _ => true end.
(* src/src/routes/api-key.routes.js:49-107 apiKeyRoutes (create) *)
Definition createKey (n : nat) (e : env) (u : session) (name : string) (scopes : list string) (x : expiry) : act created :=
  _ ←! require (body_ok name scopes x) (Reply 400);
  match resolveApiKeyExpiry x (clock e 0) with
  | Err _ => fail (Reply 400)
  | Ok expiresAt =>
      let grantedScopes := granted_scopes scopes in
      count ←! read (active_keys (u_id u));
      _ ←! require (negb (MAX_ACTIVE_KEYS <=? count)%nat) (Reply 400);
      let rawKey := generateApiKey n in
      let row := Key (Audit.trim name) (hash rawKey) (u_id u) grantedScopes true None (Some expiresAt) None in
      _ ←! statement (λ d, if key_taken d (e_id e) (hash rawKey) then (Err (PrismaError "P2002"), d)
                           else (Ok tt, note (Created n (e_id e) row (clock e 0)) (set_key (e_id e) row d)));
      _ ←! record_audit e "api_key.created" (u_org u) (u_id u) (e_id e);
      ok (CreatedKey (e_id e) rawKey grantedScopes expiresAt)
  end.
(* src/src/routes/api-key.routes.js:113-132 apiKeyRoutes (revoke) *)
Definition deleteKey (e : env) (u : session) (id : string) : act unit :=
  k ←! read (λ d, keys d !! id);
  match k with
  | None => fail (Reply 404)
  | Some k =>
      _ ←! require (bool_decide (k_user k = u_id u)) (Reply 404);
      _ ←! statement (λ d, match keys d !! id with
                           | None => (Err (PrismaError "P2025"), d)
                           | Some x => (Ok tt, set_key id (Key (k_name x) (k_hash x) (k_user x) (k_scopes x) false
                                                             (Some (default (clock e 0) (k_revokedAt k))) (k_expiresAt x) (k_lastUsedAt x)) d)
                           end);
      record_audit e "api_key.revoked" (u_org u) (k_user k) id
  end.
(* src/src/routes/api-key.routes.js:28-41 apiKeyRoutes (list) *)
Definition listKeys (u : session) : act (list (string * list string * bool)) :=
  rows ←! read (λ d, tselect (λ _ k, bool_decide (k_user k = u_id u) && k_active k) (keys d));
  ok ((λ x, (x.1, k_scopes x.2, bool_decide (k_expiresAt x.2 = None))) <$> rows).

(** What the guard puts on the request. *)
Record principal := Principal { pr_key : string; pr_user : string; pr_account : account; pr_scopes : list string }.
(** The key a request presents: its own header, or the bearer token. *)
(* src/src/routes/api-key.routes.js:149-155 createApiKeyAuthenticator (rawKey) *)
Definition presented (apiKeyHeader authHeader : option string) : option string :=
  match apiKeyHeader with
  | Some (String _ _) => apiKeyHeader
  | _ => match authHeader with
         | Some h => if Guard.startsWith h "Bearer " then Some (String.substring 7 (String.length h) h) else apiKeyHeader
         | None => apiKeyHeader
         end
  end.
(* src/src/routes/api-key.routes.js:147-199 createApiKeyAuthenticator *)
Definition authenticateApiKey (e : env) (apiKeyHeader authHeader : option string) : act principal :=
  match presented apiKeyHeader authHeader with
  | None => fail (Reply 401)
  | Some raw =>
      _ ←! require (Guard.startsWith raw PREFIX && negb (Guard.startsWith raw "ashbi_mcp_")) (Reply 401);
      found ←! read (λ d, match find_key (hash raw) d with Some (id, k) => Some (id, k, users d !! k_user k) | None => None end);
      match found with
      | None => fail (Reply 401)
      | Some (id, k, a) =>
          _ ←! require (k_active k && bool_decide (k_revokedAt k = None)) (Reply 401);
          _ ←! require (match k_expiresAt k with Some t => clock e 0 <=? t | None => true end) (Reply 401);
          match a with
          | None => fail (Reply 401)
          | Some a =>
              _ ←! require (SecondFactor.m_active (MfaEnforcement.a_user a)) (Reply 401);
              _ ←! write (λ d, (tt, match keys d !! id with
                                    | Some x => set_key id (Key (k_name x) (k_hash x) (k_user x) (k_scopes x) (k_active x) (k_revokedAt x) (k_expiresAt x) (Some (clock e 1))) d
                                    | None => d
                                    end));
              ok (Principal id (k_user k) a (k_scopes k))
          end
      end
  end.
End routes.

(** ** Lifetimes *)

(** A key lasts at least until after now and at most 365 days. *)
Lemma expiry_bounds x now t : resolveApiKeyExpiry x now = Ok t → now < t ≤ now + API_KEY_MAX_EXPIRY_DAYS * DAY_MS.
Proof.
  unfold resolveApiKeyExpiry, API_KEY_MAX_EXPIRY_DAYS, API_KEY_DEFAULT_EXPIRY_DAYS, DAY_MS.
  destruct x as [n|[t'|]|]; try done; repeat case_match; intros [= <-]; rewrite ?orb_false_iff, ?Z.ltb_ge, ?Z.leb_gt in *; lia.
Qed.
End ApiKeys.
