(* ===== verification/McpOAuth.v ===== *)
(** * Connections of an MCP client

    src/src/auth/mcp-oauth-provider.js: the OAuth server the MCP SDK drives.
    An authorization request is stored under a ticket, bound to the account that
    previews it, turned into a code by consent, into a connection by the code's
    exchange, and kept alive by refresh tokens.  Redis holds what is stored under
    hashes of random values, one map per kind of entry; entries may vanish at any
    time (McpOAuthLog.v).  A function is cut at its awaits. *)

From S2P Require Import Prelude Store Async Steps TenantTables Tenancy TenantGuard Mfa MfaEnforcement ToolActions ApiKeys.
Import Tenancy.Tenancy(mem) Steps.Steps ApiKeys.ApiKeys.

Module McpOAuth.

Definition CHATGPT_CLIENT_ID : string := "https://chatgpt.com/oauth/client.json".
Definition CHATGPT_REDIRECT : string := "https://chatgpt.com/connector_platform_oauth_redirect".
Definition MCP_OAUTH_PREFIX : string := "ashbi_mcp_".
(* src/src/auth/mcp-oauth-scopes.js:2-2 MCP_OAUTH_DEFAULT_SCOPES *)
Definition MCP_OAUTH_SCOPES : list string := ["workspace:read"].
Definition ACCESS_SECONDS : Z := 3600.
Definition GRANT_SECONDS : Z := 30 * 86400.
Abbreviation normalizeMcpScopes l := (ToolActions.normalizeMcpScopes (Some l)).
(* src/src/auth/mcp-oauth-scopes.js:18-18 hasMcpWriteScope *)
Definition hasMcpWriteScope (scopes : list string) : bool := existsb (λ s, mem s (snd <$> ToolActions.MCP_OAUTH_ACTION_SCOPES)) scopes.

(** ** Formats *)

Definition char_in (extra : list Z) (c : Ascii.ascii) : bool :=
  let n := Z.of_nat (Ascii.nat_of_ascii c) in
  (48 <=? n) && (n <=? 57) || (65 <=? n) && (n <=? 90) || (97 <=? n) && (n <=? 122) || bool_decide (n ∈ extra).
(** [/^[A-Za-z0-9_-]{43}$/] and [/^[A-Za-z0-9._~-]{43,128}$/]. *)
Definition challenge_format (s : string) : bool := (String.length s =? 43)%nat && forallb (char_in [95; 45]) (String.list_ascii_of_string s).
Definition verifier_format (s : string) : bool :=
  (43 <=? String.length s)%nat && (String.length s <=? 128)%nat && forallb (char_in [46; 95; 126; 45]) (String.list_ascii_of_string s).
(** [state && ...]: the empty string counts as none. *)
Definition truthy (s : option string) : option string := match s with Some (String _ _) => s | _ => None end.

(** ** The client *)

(** The client's metadata document, as far as it is read; [None] is an answer
    that is no JSON or could not be fetched. *)
Record metadata := Metadata { md_ok : bool; md_length : Z; md_client_id : string; md_redirects : list string; md_methods : list string }.
Record client := Client { cl_id : string; cl_redirects : list string }.
Definition chatgpt : client := Client CHATGPT_CLIENT_ID [CHATGPT_REDIRECT].
(** [cachedAt]: when the process last fetched it.  The answer is nothing for
    another client. *)
(* src/src/auth/mcp-oauth-provider.js:32-48 getClient *)
Definition getClient (cachedAt : option Z) (fetched : option metadata) (now later : Z) (id : string) : result thrown (option client) * option Z :=
  if negb (bool_decide (id = CHATGPT_CLIENT_ID)) then (Ok None, cachedAt)
  else if match cachedAt with Some t => now - t <? 300000 | None => false end then (Ok (Some chatgpt), cachedAt)
  else match fetched with
       | None => (Err Crash, cachedAt)
       | Some m =>
           if negb (md_ok m) then (Err InvalidClient, cachedAt)
           else if 16384 <? md_length m then (Err InvalidClient, cachedAt)
           else if negb (bool_decide (md_client_id m = id)) || negb (mem CHATGPT_REDIRECT (md_redirects m)) || negb (mem "none" (md_methods m)) then (Err InvalidClient, cachedAt)
           else (Ok (Some chatgpt), Some later)
       end.

(** The deployment's public URL, parsed. *)
Record parsed_url := ParsedUrl { l_protocol : string; l_username : string; l_password : string; l_search : string; l_hash : string; l_pathname : string; l_origin : string }.
(* src/src/auth/mcp-oauth-provider.js:20-23 createMcpOAuthProvider *)
Definition issuer_of (base : parsed_url) : result string string :=
  if negb (bool_decide (l_protocol base = "https:")) || negb (bool_decide (l_username base = "")) || negb (bool_decide (l_password base = "")) ||
     negb (bool_decide (l_search base = "")) || negb (bool_decide (l_hash base = "")) || negb (bool_decide (l_pathname base = "/"))
  then Err "MCP OAuth issuer must be an HTTPS origin" else Ok (l_origin base).

(** ** The account behind a connection *)

Definition account_allows (extra : bool) (org : option string) (version : option Z) (scopes : list string) (a : account) : bool :=
  let u := MfaEnforcement.a_user a in
  SecondFactor.m_active u && mem (SecondFactor.m_role u) ["ADMIN"; "TEAM"] && extra &&
  (negb (hasMcpWriteScope scopes) || bool_decide (SecondFactor.m_role u = "ADMIN")) &&
  bool_decide (SecondFactor.m_org u = org) && bool_decide (Some (SecondFactor.m_version u) = version) && negb (MfaEnforcement.mustEnrollMfa a).
Definition in_organization (a : account) : bool := bool_decide (is_Some (truthy (SecondFactor.m_org (MfaEnforcement.a_user a)))).
(* src/src/auth/mcp-oauth-provider.js:54-60 owner *)
Definition owner (userId : string) (org : option string) (version : option Z) (scopes : list string) : act account :=
  a ←! read (λ d, users d !! userId);
  match a with
  | None => fail InvalidGrant
  | Some a => _ ←! require (account_allows (in_organization a) org version scopes a) InvalidGrant; ok a
  end.
Definition owner_of (g : grant) : act account := owner (g_userId g) (g_organizationId g) (g_sessionVersion g) (g_scopes g).
(** [findUnique] without an id throws. *)
Definition owner_of_pending (p : pending) (scopes : list string) : act account :=
  match p_userId p with None => fail Crash | Some u => owner u (p_organizationId p) (p_sessionVersion p) scopes end.

Section provider.
(** SHA-256 in hexadecimal and in base64url, the [k]th random value of request
    [n], and the issuer. *)
Context (hash s256 : string → string) (random : nat → nat → string) (origin : string).

Definition resource : string := origin +:+ "/api/mcp".
(* src/src/auth/mcp-oauth-provider.js:50-52 checkResource *)
Definition checkResource (href : option string) : act unit := require (bool_decide (href = Some resource)) InvalidRequest.
Definition safeEqual (a b : string) : bool := bool_decide (hash a = hash b).
Definition short (token : string) : bool := (String.length token <? 128)%nat.
(** Redis' [GETDEL]. *)
Definition take {A} (get : db → gmap string A) (set : gmap string A → db → db) (id : string) (taken : event) : act (option A) :=
  write (λ d, match get d !! id with Some x => (Some x, note taken (set (delete id (get d)) d)) | None => (None, d) end).

Record params := Params { a_redirectUri : string; a_codeChallenge : string; a_state : option string; a_scopes : option (list string); a_resource : option string }.
(** Where the browser is sent. *)
Inductive redirect := ToConsent (ticket : string) | ToClient (to iss : string) (state : option string) (code : option string).

(* src/src/auth/mcp-oauth-provider.js:81-91 authorize *)
Definition authorize (n : nat) (e : env) (clientId : string) (q : params) : act redirect :=
  _ ←! checkResource (a_resource q);
  _ ←! require (bool_decide (clientId = CHATGPT_CLIENT_ID) && bool_decide (a_redirectUri q = CHATGPT_REDIRECT)) InvalidClient;
  _ ←! require (challenge_format (a_codeChallenge q) && match a_state q with Some s => (String.length s <=? 1024)%nat | None => true end) InvalidRequest;
  match normalizeMcpScopes (match a_scopes q with Some ((_ :: _) as l) => l | _ => MCP_OAUTH_SCOPES end) with
  | None => fail InvalidScope
  | Some scopes =>
      let ticket := random n 0 in
      let p := Pending clientId (a_redirectUri q) (a_codeChallenge q) (a_state q) scopes (clock e 0 + 600000) None None None None in
      _ ←! write (λ d, (tt, note (Offered n (hash ticket) p) (set_pendings (<[hash ticket := p]> (pendings d)) d)));
      ok (ToConsent ticket)
  end.

Definition stored {A} (get : db → gmap string A) (token : string) : act (option A) :=
  if short token then read (λ d, get d !! hash token) else ok None.
Record consent_view := ConsentView { cv_requested : list string; cv_nonce : string }.
Definition bind_to (p : pending) (u : session) (version : option Z) (nonce : option string) : pending :=
  Pending (p_clientId p) (p_redirectUri p) (p_codeChallenge p) (p_state p) (p_scopes p) (p_expiresAt p) (Some (u_id u)) (u_org u) version nonce.
(* src/src/auth/mcp-oauth-provider.js:92-101 preview *)
Definition preview (n : nat) (e : env) (ticket : string) (u : session) : act consent_view :=
  p ←! stored pendings ticket;
  match p with
  | None => fail InvalidGrant
  | Some p =>
      _ ←! require ((clock e 0 <? p_expiresAt p) && match truthy (p_userId p) with Some x => bool_decide (x = u_id u) | None => true end) InvalidGrant;
      a ←! read (λ d, users d !! u_id u);
      let version := (λ a, SecondFactor.m_version (MfaEnforcement.a_user a)) <$> a in
      _ ←! owner (u_id u) (u_org u) version (p_scopes p);
      let nonce := random n 0 in
      _ ←! write (λ d, (tt, set_pendings (<[hash ticket := bind_to p u version (Some (hash nonce))]> (pendings d)) d));
      ok (ConsentView (p_scopes p) nonce)
  end.
(** The request, with the scopes the account chose. *)
Definition chosen (p : pending) (scopes : list string) : pending :=
  Pending (p_clientId p) (p_redirectUri p) (p_codeChallenge p) (p_state p) scopes (p_expiresAt p) (p_userId p) (p_organizationId p) (p_sessionVersion p) (p_nonceHash p).
(* src/src/auth/mcp-oauth-provider.js:102-119 consent *)
Definition consent (n : nat) (e : env) (ticket nonce : string) (u : session) (approved : bool) (selected : option (list string)) : act redirect :=
  p ←! stored pendings ticket;
  match p with
  | None => fail InvalidGrant
  | Some p =>
      _ ←! require ((clock e 0 <? p_expiresAt p) && bool_decide (p_userId p = Some (u_id u)) &&
                    match p_nonceHash p with Some h => safeEqual h (hash nonce) | None => false end) InvalidGrant;
      match normalizeMcpScopes (default MCP_OAUTH_SCOPES selected) with
      | None => fail InvalidScope
      | Some scopes =>
          _ ←! require (forallb (λ s, mem s (p_scopes p)) scopes) InvalidScope;
          _ ←! owner_of_pending p scopes;
          consumed ←! write (λ d, (pendings d !! hash ticket, set_pendings (delete (hash ticket) (pendings d)) d));
          _ ←! require (match consumed with Some c => bool_decide (p_nonceHash c = p_nonceHash p) && bool_decide (p_userId c = Some (u_id u)) | None => false end) InvalidGrant;
          if approved then
            let code := random n 0 in
            _ ←! write (λ d, (tt, note (Approved n (u_id u) (hash code) (chosen p scopes)) (set_codes (<[hash code := chosen p scopes]> (codes d)) d)));
            ok (ToClient (p_redirectUri p) origin (truthy (p_state p)) (Some code))
          else ok (ToClient (p_redirectUri p) origin (truthy (p_state p)) None)
      end
  end.
(* src/src/auth/mcp-oauth-provider.js:120-124 challengeForAuthorizationCode *)
Definition challengeForAuthorizationCode (clientId code : string) : act string :=
  p ←! stored codes code;
  match p with
  | Some p => _ ←! require (bool_decide (p_clientId p = clientId)) InvalidGrant; ok (p_codeChallenge p)
  | None => fail InvalidGrant
  end.

Record tokens := Tokens { t_access : string; t_expires_in : Z; t_scopes : list string; t_refresh : string }.
(* src/src/auth/mcp-oauth-provider.js:70-74 refreshFor *)
Definition refreshFor (n : nat) (g : grant) : act string :=
  let token := random n 1 in
  _ ←! write (λ d, (tt, note (Saved n (hash token) g) (set_refreshes (<[hash token := g]> (refreshes d)) d)));
  ok token.
Definition key_name (scopes : list string) : string :=
  if hasMcpWriteScope scopes then "ChatGPT (scoped MCP actions)" else "ChatGPT (read-only MCP)".
(* src/src/auth/mcp-oauth-provider.js:134-140 exchangeAuthorizationCode (transaction) *)
Definition connect (n : nat) (e : env) (codeHash : string) (p : pending) (userId verifier accessToken : string) : act (string * key) :=
  a ←! read (λ d, users d !! userId);
  match a with
  | None => fail InvalidGrant
  | Some a =>
      _ ←! require (account_allows true (p_organizationId p) (p_sessionVersion p) (p_scopes p) a) InvalidGrant;
      count ←! read (active_keys userId);
      _ ←! require (negb (MAX_ACTIVE_KEYS <=? count)%nat) InvalidGrant;
      let id := e_id e in
      let row := Key (key_name (p_scopes p)) (hash accessToken) userId (p_scopes p) true None (Some (clock e 1 + ACCESS_SECONDS * 1000)) None in
      statement (λ d, if key_taken d id (hash accessToken) then (Err (PrismaError "P2002"), d)
                      else (Ok (id, row), note (Connected n codeHash id p verifier (hash accessToken) (clock e 1) (clock e 1 + ACCESS_SECONDS * 1000)) (set_key id row d)))
  end.
Definition serializable {A} (e : env) (p : act A) : act A := if e_aborts e then fail (PrismaError "P2034") else atomically p.
(* src/src/auth/mcp-oauth-provider.js:125-147 exchangeAuthorizationCode *)
Definition exchangeAuthorizationCode (n : nat) (e : env) (clientId code : string) (verifier : option string) (redirectUri href : option string) : act tokens :=
  _ ←! checkResource href;
  p ←! stored codes code;
  match p with
  | None => fail InvalidGrant
  | Some p =>
      let v := default "" verifier in
      _ ←! require (bool_decide (p_clientId p = clientId) && bool_decide (redirectUri = Some (p_redirectUri p)) &&
                    bool_decide (is_Some verifier) && verifier_format v && safeEqual (s256 v) (p_codeChallenge p)) InvalidGrant;
      _ ←! owner_of_pending p (p_scopes p);
      taken ←! take codes set_codes (hash code) (CodeTaken n (hash code));
      _ ←! require (bool_decide (is_Some taken)) InvalidGrant;
      let accessToken := MCP_OAUTH_PREFIX +:+ random n 0 in
      let userId := default "" (p_userId p) in
      row ←! serializable e (connect n e (hash code) p userId v accessToken);
      let g := Grant row.1 userId (p_organizationId p) (p_sessionVersion p) clientId resource (p_scopes p) (clock e 2 + GRANT_SECONDS * 1000) in
      _ ←! write (λ d, (tt, note (Granted n row.1 g) (set_grants (<[row.1 := g]> (grants d)) d)));
      _ ←! record_audit e "api_key.created" (g_organizationId g) userId row.1;
      refresh ←! refreshFor n g;
      ok (Tokens accessToken ACCESS_SECONDS (g_scopes g) refresh)
  end.

(* src/src/auth/mcp-oauth-provider.js:62-68 grantForKey *)
Definition grantForKey (e : env) (k : option (string * key)) : act (string * key * grant) :=
  match k with
  | None => fail InvalidGrant
  | Some (id, k) =>
      g ←! read (λ d, grants d !! id);
      match g with
      | None => fail InvalidGrant
      | Some g =>
          _ ←! require (k_active k && bool_decide (k_revokedAt k = None) && bool_decide (k_user k = g_userId g) && bool_decide (id = g_keyId g) &&
                        bool_decide (g_resource g = resource) && (clock e 0 <? g_expiresAt g)) InvalidGrant;
          _ ←! require (bool_decide (is_Some (normalizeMcpScopes (g_scopes g))) &&
                        bool_decide (normalizeMcpScopes (k_scopes k) = normalizeMcpScopes (g_scopes g))) InvalidGrant;
          _ ←! owner_of g;
          ok (id, k, g)
      end
  end.
(* src/src/auth/mcp-oauth-provider.js:164-170 exchangeRefreshToken (transaction) *)
Definition rotate (n : nat) (e : env) (refreshHash id : string) (k : key) (g : grant) (accessToken : string) : act nat :=
  _ ←! owner_of g;
  current ←! read (λ d, keys d !! id);
  match current with
  | None => fail InvalidGrant
  | Some x =>
      _ ←! require (bool_decide (k_user x = g_userId g) && bool_decide (normalizeMcpScopes (k_scopes x) = normalizeMcpScopes (g_scopes g))) InvalidGrant;
      let expires := Z.min (g_expiresAt g) (clock e 1 + ACCESS_SECONDS * 1000) in
      statement (λ d, match find_by_id id (λ x, bool_decide (k_hash x = k_hash k) && k_active x && bool_decide (k_revokedAt x = None)) (keys d) with
                      | None => (Ok 0%nat, d)
                      | Some x =>
                          if bool_decide (is_Some (find_key (hash accessToken) d)) then (Err (PrismaError "P2002"), d)
                          else (Ok 1%nat, note (Rotated n refreshHash id (hash accessToken) (clock e 1) expires)
                                            (set_key id (Key (k_name x) (hash accessToken) (k_user x) (k_scopes x) (k_active x) (k_revokedAt x) (Some expires) (k_lastUsedAt x)) d))
                      end)
  end.
(** A refresh token that was used before comes back: its connection ends. *)
(* src/src/auth/mcp-oauth-provider.js:153-157 exchangeRefreshToken (reuse) *)
Definition reused (e : env) (clientId token : string) : act tokens :=
  w ←! read (λ d, useds d !! hash token);
  _ ←! (match w with
        | Some w =>
            if bool_decide (w_clientId w = clientId)
            then write (λ d, (tt, match keys d !! w_keyId w with Some x => set_key (w_keyId w) (revoke_row (clock e 0) x) d | None => d end))
            else ok tt
        | None => ok tt
        end);
  fail InvalidGrant.
(* src/src/auth/mcp-oauth-provider.js:148-174 exchangeRefreshToken *)
Definition exchangeRefreshToken (n : nat) (e : env) (clientId token : string) (scopes : option (list string)) (href : option string) : act tokens :=
  _ ←! checkResource href;
  _ ←! require (String.length token <=? 128)%nat InvalidGrant;
  data ←! read (λ d, refreshes d !! hash token);
  match data with
  | None => reused e clientId token
  | Some data =>
      _ ←! require (bool_decide (g_clientId data = clientId) &&
                    match scopes with Some ((_ :: _) as l) => bool_decide (normalizeMcpScopes l = normalizeMcpScopes (g_scopes data)) | _ => true end) InvalidGrant;
      k ←! read (key_row (g_keyId data));
      found ←! grantForKey e k;
      let '(id, k, g) := found in
      taken ←! take refreshes set_refreshes (hash token) (RefreshTaken n (hash token));
      _ ←! require (bool_decide (is_Some taken)) InvalidGrant;
      _ ←! write (λ d, (tt, set_useds (<[hash token := Used id (g_clientId g)]> (useds d)) d));
      let accessToken := MCP_OAUTH_PREFIX +:+ random n 0 in
      changed ←! serializable e (rotate n e (hash token) id k g accessToken);
      _ ←! require (changed =? 1)%nat InvalidGrant;
      refresh ←! refreshFor n g;
      ok (Tokens accessToken (Z.min ACCESS_SECONDS ((g_expiresAt g - clock e 2) / 1000)) (g_scopes g) refresh)
  end.

(** What a verified token gives the request. *)
Record verified := Verified { v_key : string; v_client : string; v_scopes : list string; v_expiresAt : Z; v_grant : grant; v_user : string; v_account : account }.
(* src/src/auth/mcp-oauth-provider.js:175-184 verifyAccessToken *)
Definition verifyAccessToken (e : env) (token : string) : act verified :=
  _ ←! require (Guard.startsWith token MCP_OAUTH_PREFIX && (String.length token <=? 128)%nat) InvalidToken;
  k ←! read (find_key (hash token));
  found ←! grantForKey e k;
  let '(id, k, g) := found in
  match k_expiresAt k with
  | None => fail InvalidToken
  | Some t =>
      _ ←! require (clock e 1 <? t) InvalidToken;
      a ←! owner_of g;
      ok (Verified id (g_clientId g) (g_scopes g) (t / 1000) g (g_userId g) a)
  end.
(* src/src/auth/mcp-oauth-provider.js:190-194 revokeToken (found) *)
Definition revoke_found (e : env) (clientId : string) (k : option (string * key)) : act unit :=
  match k with
  | None => ok tt
  | Some (id, _) =>
      g ←! read (λ d, grants d !! id);
      match g with
      | None => ok tt
      | Some g =>
          if negb (bool_decide (g_clientId g = clientId)) then ok tt
          else
            _ ←! write (λ d, (tt, match find_by_id id k_active (keys d) with Some x => set_key id (revoke_row (clock e 0) x) d | None => d end));
            record_audit e "api_key.revoked" (g_organizationId g) (g_userId g) id
      end
  end.
(* src/src/auth/mcp-oauth-provider.js:185-195 revokeToken *)
Definition revokeToken (e : env) (clientId token : string) : act unit :=
  if negb (String.length token <=? 128)%nat then ok tt
  else
    r ←! read (λ d, match refreshes d !! hash token with Some g => Some (g_keyId g) | None => None end);
    r ←! match r with Some id => ok (Some id) | None => read (λ d, match useds d !! hash token with Some w => Some (w_keyId w) | None => None end) end;
    k ←! match r with Some id => read (key_row id) | None => read (find_key (hash token)) end;
    revoke_found e clientId k.
End provider.
End McpOAuth.
