(* ===== verification/McpOAuthLog.v ===== *)
(** * What API keys and MCP connections let in

    The requests of ApiKeys.v and McpOAuth.v interleaved: a code makes one
    connection, a refresh token is used once, and a token is accepted only for
    what its owner consented to. *)

From S2P Require Import Prelude Store Async Steps Trails TenantTables Tenancy TenantGuard Mfa MfaEnforcement ToolActions ApiKeys McpOAuth.
Import Trails.Trails Tenancy.Tenancy(mem) Steps.Steps ApiKeys.ApiKeys McpOAuth.McpOAuth.

Module McpOAuthLog.

(** ** Everything that is asked *)

Inductive input :=
  | Authorize (e : env) (clientId : string) (q : params)
  | Preview (e : env) (ticket : string) (u : session)
  | Consent (e : env) (ticket nonce : string) (u : session) (approved : bool) (selected : option (list string))
  | Challenge (clientId code : string)
  | ExchangeCode (e : env) (clientId code : string) (verifier redirectUri href : option string)
  | ExchangeRefresh (e : env) (clientId token : string) (scopes : option (list string)) (href : option string)
  | Verify (e : env) (token : string)
  | Revoke (e : env) (clientId token : string)
  | CreateKey (e : env) (u : session) (name : string) (scopes : list string) (x : expiry)
  | DeleteKey (e : env) (u : session) (id : string)
  | ListKeys (u : session)
  | Authenticate (e : env) (apiKeyHeader authHeader : option string)
  | Accounts (z : gmap string account)                          (** accounts and organizations change *)
  | RevokeAll (userId : string) (at_ : Z)                       (** a member leaves, or is recovered *)
  | Forget (p c g r w : string → bool).                         (** Redis drops entries *)
Inductive answer :=
  | Redirected (r : redirect) | Previewed (v : consent_view) | Challenged (c : string) | Tokened (t : tokens) | Accepted (v : verified)
  | Made (c : created) | Listed (l : list (string * list string * bool)) | Authenticated (p : principal) | Noted.

Definition retain {A} (drop : string → bool) (m : gmap string A) : gmap string A := filter (λ x, drop x.1 = false) m.
Definition forget (p c g r w : string → bool) (d : db) : db :=
  Db (users d) (keys d) (retain p (pendings d)) (retain c (codes d)) (retain g (grants d)) (retain r (refreshes d)) (retain w (useds d)) (audits d) (trail d).
Definition set_users (z : gmap string account) (d : db) : db :=
  Db z (keys d) (pendings d) (codes d) (grants d) (refreshes d) (useds d) (audits d) (trail d).
Definition set_keys (t : gmap string key) (d : db) : db :=
  Db (users d) t (pendings d) (codes d) (grants d) (refreshes d) (useds d) (audits d) (trail d).
(* src/src/auth/break-glass.js:318-321 redeemBreakGlassGrant (keys) *)
Definition revoke_all (userId : string) (at_ : Z) (d : db) : db :=
  set_keys (tupdate (λ _ k, bool_decide (k_user k = userId) && k_active k) (λ _, revoke_row at_) (keys d)) d.

Section theory.
(** No two inputs hash alike, and no two random draws agree. *)
Context (hash s256 : string → string) (random : nat → nat → string) (random_hex : nat → string) (origin : string).

Definition map_answer {A} (f : A → answer) (p : act A) : act answer := x ←! p; ok (f x).
Definition handle (n : nat) (i : input) : act answer :=
  match i with
  | Authorize e c q => map_answer Redirected (authorize hash random origin n e c q)
  | Preview e t u => map_answer Previewed (preview hash random n e t u)
  | Consent e t nonce u b s => map_answer Redirected (consent hash random origin n e t nonce u b s)
  | Challenge c code => map_answer Challenged (challengeForAuthorizationCode hash c code)
  | ExchangeCode e c code v r h => map_answer Tokened (exchangeAuthorizationCode hash s256 random origin n e c code v r h)
  | ExchangeRefresh e c t s h => map_answer Tokened (exchangeRefreshToken hash random origin n e c t s h)
  | Verify e t => map_answer Accepted (verifyAccessToken hash origin e t)
  | Revoke e c t => map_answer (λ _, Noted) (revokeToken hash e c t)
  | CreateKey e u name s x => map_answer Made (createKey hash random_hex n e u name s x)
  | DeleteKey e u id => map_answer (λ _, Noted) (deleteKey e u id)
  | ListKeys u => map_answer Listed (listKeys u)
  | Authenticate e h a => map_answer Authenticated (authenticateApiKey hash e h a)
  | Accounts z => write (λ d, (Noted, set_users z d))
  | RevokeAll u t => write (λ d, (Noted, revoke_all u t d))
  | Forget p c g r w => write (λ d, (Noted, forget p c g r w d))
  end.

(** ** Events *)

Definition by_request (e : event) : nat :=
  match e with
  | Offered n _ _ | Approved n _ _ _ | CodeTaken n _ | Connected n _ _ _ _ _ _ _ | Granted n _ _ | Saved n _ _ | RefreshTaken n _
  | Rotated n _ _ _ _ _ | Created n _ _ _ => n
  end.
(** What one request has done so far, newest first. *)
Definition log (n : nat) (l : list event) : list event := List.filter (λ e, bool_decide (by_request e = n)) l.
Definition takes (ch : string) (e : event) : bool := match e with CodeTaken _ c => bool_decide (c = ch) | _ => false end.
Definition retakes (rh : string) (e : event) : bool := match e with RefreshTaken _ r => bool_decide (r = rh) | _ => false end.
Definition saves (e : event) : bool := match e with Saved _ _ _ => true | _ => false end.
Definition connects (ch : string) (e : event) : bool := match e with Connected _ c _ _ _ _ _ _ => bool_decide (c = ch) | _ => false end.
Definition rotates (rh : string) (e : event) : bool := match e with Rotated _ r _ _ _ _ => bool_decide (r = rh) | _ => false end.
(** Makes the key row [id]. *)
Definition makes (id : string) (e : event) : bool :=
  match e with Connected _ _ i _ _ _ _ _ => bool_decide (i = id) | Created _ i _ _ => bool_decide (i = id) | _ => false end.
(** The access token a row got, and until when. *)
Definition issue (id : string) (e : event) : option (string * Z) :=
  match e with
  | Connected _ _ i _ _ ah _ t => if bool_decide (i = id) then Some (ah, t) else None
  | Rotated _ _ i ah _ t => if bool_decide (i = id) then Some (ah, t) else None
  | _ => None
  end.
Definition last_issue (id : string) (l : list event) : option (string * Z) := head (omap (issue id) l).

Definition same_request (p0 p : pending) : Prop :=
  p_clientId p = p_clientId p0 ∧ p_redirectUri p = p_redirectUri p0 ∧ p_codeChallenge p = p_codeChallenge p0 ∧ p_state p = p_state p0 ∧ p_expiresAt p = p_expiresAt p0.
Definition grant_of (id : string) (p : pending) (g : grant) : Prop :=
  g_keyId g = id ∧ p_userId p = Some (g_userId g) ∧ g_organizationId g = p_organizationId p ∧ g_sessionVersion g = p_sessionVersion p ∧
  g_clientId g = p_clientId p ∧ g_scopes g = p_scopes p ∧ g_resource g = resource origin.
Definition access_token (n : nat) : string := hash (MCP_OAUTH_PREFIX +:+ random n 0).

Definition approved ch p (l : list event) : Prop := ∃ n u, Approved n u ch p ∈ l.
Definition justified (e : event) (l : list event) : Prop :=
  match e with
  | Offered n th p => log n l = [] ∧ th = hash (random n 0) ∧ p_userId p = None ∧ p_clientId p = CHATGPT_CLIENT_ID ∧ p_redirectUri p = CHATGPT_REDIRECT
  | Approved n u ch p => log n l = [] ∧ ch = hash (random n 0) ∧ p_userId p = Some u ∧
      ∃ m th p0, Offered m th p0 ∈ l ∧ same_request p0 p ∧ ∀ s, s ∈ p_scopes p → s ∈ p_scopes p0
  | CodeTaken n ch => log n l = [] ∧ none (takes ch) l ∧ ∃ p, approved ch p l
  | Connected n ch id p v ah at_ t => log n l = [CodeTaken n ch] ∧ ah = access_token n ∧ none (makes id) l ∧ none (connects ch) l ∧ approved ch p l ∧
      hash (s256 v) = hash (p_codeChallenge p) ∧ t = at_ + ACCESS_SECONDS * 1000
  | Granted n id g => ∃ ch p v at_ t, log n l = [Connected n ch id p v (access_token n) at_ t; CodeTaken n ch] ∧ grant_of id p g
  | Saved n rh g => rh = hash (random n 1) ∧ none saves (log n l) ∧ ∃ m, Granted m (g_keyId g) g ∈ l
  | RefreshTaken n rh => log n l = [] ∧ none (retakes rh) l ∧ ∃ m g, Saved m rh g ∈ l
  | Rotated n rh id ah at_ t => log n l = [RefreshTaken n rh] ∧ ah = access_token n ∧ none (rotates rh) l ∧
      ∃ m g, Granted m id g ∈ l ∧ t = Z.min (g_expiresAt g) (at_ + ACCESS_SECONDS * 1000)
  | Created n id k at_ => log n l = [] ∧ none (makes id) l ∧ k_hash k = hash (generateApiKey random_hex n) ∧
      (∀ s, s ∈ k_scopes k → s ∈ API_KEY_SCOPES) ∧ ∃ t, k_expiresAt k = Some t ∧ at_ < t ≤ at_ + API_KEY_MAX_EXPIRY_DAYS * DAY_MS
  end.
Abbreviation trail_ok := (trail_ok justified).


(** ** The state *)

Definition same_key (k0 k : key) : Prop := k_hash k = k_hash k0 ∧ k_user k = k_user k0 ∧ k_scopes k = k_scopes k0 ∧ k_expiresAt k = k_expiresAt k0.
Definition pending_ok th p (l : list event) : Prop := ∃ n p0, Offered n th p0 ∈ l ∧ same_request p0 p ∧ p_scopes p = p_scopes p0.
Definition code_ok ch p (l : list event) : Prop := approved ch p l ∧ none (takes ch) l.
Definition refresh_ok rh g (l : list event) : Prop := (∃ n, Saved n rh g ∈ l) ∧ none (retakes rh) l.
Definition key_ok id k (l : list event) : Prop :=
  (∃ n k0 at_, Created n id k0 at_ ∈ l ∧ same_key k0 k) ∨
  (∃ n ch p v ah at_ t, Connected n ch id p v ah at_ t ∈ l ∧ p_userId p = Some (k_user k) ∧ k_scopes k = p_scopes p ∧
     ∃ t', last_issue id l = Some (k_hash k, t') ∧ k_expiresAt k = Some t').
Definition unique_hashes (m : gmap string key) : Prop := ∀ id id' k k', m !! id = Some k → m !! id' = Some k' → k_hash k = k_hash k' → id = id'.
Record inv (d : db) : Prop := {
  inv_trail : trail_ok (trail d);
  inv_pending th p : pendings d !! th = Some p → pending_ok th p (trail d);
  inv_code ch p : codes d !! ch = Some p → code_ok ch p (trail d);
  inv_grant id g : grants d !! id = Some g → ∃ n, Granted n id g ∈ trail d;
  inv_refresh rh g : refreshes d !! rh = Some g → refresh_ok rh g (trail d);
  inv_key id k : keys d !! id = Some k → key_ok id k (trail d);
  inv_made id e : e ∈ trail d → makes id e = true → is_Some (keys d !! id);
  inv_hashes : unique_hashes (keys d)
}.

(** A key that is revoked stays so; whose it is and what for never changes. *)
Definition dead (k : key) : Prop := k_active k = false ∨ is_Some (k_revokedAt k).
Definition ages (k k' : key) : Prop := k_user k' = k_user k ∧ k_scopes k' = k_scopes k ∧ (dead k → dead k').
Record guar (n : nat) (d d' : db) : Prop := {
  g_trail : ∃ es, trail d' = es ++ trail d ∧ ∀ e, e ∈ es → by_request e = n;
  g_keys id k : keys d !! id = Some k → ∃ k', keys d' !! id = Some k' ∧ ages k k';
  g_inv : inv d → inv d'
}.
Abbreviation own := (owned inv guar).
Abbreviation later n := (rtc (others guar n)).
Abbreviation any := (rtc (anyone guar)).
Implicit Types (d : db) (n : nat) (id : string) (l : list event).

Lemma ages_refl k : ages k k.
Proof. done. Qed.
Lemma ages_trans k1 k2 k3 : ages k1 k2 → ages k2 k3 → ages k1 k3.
Proof. unfold ages. intuition congruence. Qed.
Lemma mcp_idle n d : guar n d d.
Proof. split; [exists []; split; [done|by intros e ?%not_elem_of_nil]|eauto using ages_refl|done]. Qed.

Lemma mcp_any_trail d d' : any d d' → ∃ es, trail d' = es ++ trail d.
Proof.
  induction 1 as [d|d1 d2 d3 (n & H) _ (es & IH)]; [by exists []|]. destruct (g_trail _ _ _ H) as (es1 & E & _).
  exists (es ++ es1). by rewrite IH, E, app_assoc.
Qed.
Lemma mcp_in e d d' : any d d' → e ∈ trail d → e ∈ trail d'.
Proof. intros (es & ->)%mcp_any_trail. rewrite elem_of_app. auto. Qed.
Lemma mcp_key id k d d' : any d d' → keys d !! id = Some k → ∃ k', keys d' !! id = Some k' ∧ ages k k'.
Proof.
  intros H. revert k. induction H as [d|d1 d2 d3 (n & H) _ IH]; [eauto using ages_refl|]. intros k Hk.
  destruct (g_keys _ _ _ H _ _ Hk) as (k2 & Hk2 & M). destruct (IH _ Hk2) as (k3 & Hk3 & M3). eauto using ages_trans.
Qed.
Lemma log_app n l k : log n (l ++ k) = log n l ++ log n k.
Proof. apply List.filter_app. Qed.
Lemma log_cons n e l es : by_request e = n → log n l = es → log n (e :: l) = e :: es.
Proof. intros He <-. unfold log. cbn. by rewrite bool_decide_eq_true_2. Qed.
Lemma log_none n l : (∀ e, e ∈ l → by_request e ≠ n) → log n l = [].
Proof.
  induction l as [|e l IH]; [done|]. intros H. cbn. rewrite bool_decide_neq by (apply H; left). apply IH. intros x Hx. apply H. by right.
Qed.
Lemma elem_of_log n e l : e ∈ log n l ↔ e ∈ l ∧ by_request e = n.
Proof. unfold log. rewrite list_elem_of_In, List.filter_In, <-list_elem_of_In, bool_decide_eq_true. done. Qed.
Lemma log_in n e l es : log n l = es → e ∈ es → e ∈ l.
Proof. intros <- H. by apply elem_of_log in H as [H _]. Qed.
(** Nobody else adds to what a request has done. *)
Lemma log_others m n d d' : m ≠ n → guar m d d' → log n (trail d') = log n (trail d).
Proof.
  intros Hm H. destruct (g_trail _ _ _ H) as (es & -> & He). rewrite log_app, (log_none n es); [done|]. intros e Hin. by rewrite (He e Hin).
Qed.
Lemma log_stays n d d' : later n d d' → log n (trail d') = log n (trail d).
Proof. induction 1 as [|d1 d2 d3 (m & Hm & H) _ IH]; [done|]. by rewrite IH, (log_others m n d1 d2). Qed.

(** ** One statement *)

Lemma last_issue_app id es l : (∀ e, e ∈ es → issue id e = None) → last_issue id (es ++ l) = last_issue id l.
Proof.
  intros H. unfold last_issue. rewrite omap_app. assert (omap (issue id) es = []) as ->; [|done].
  induction es as [|e es IH]; [done|]. cbn. rewrite H by left. apply IH. intros x Hx. apply H. by right.
Qed.
Lemma key_ok_more id k es l : (∀ e, e ∈ es → issue id e = None) → key_ok id k l → key_ok id k (es ++ l).
Proof.
  intros He [(n & k0 & at_ & Hc & Hs)|(n & ch & p & v & ah & at_ & t & Hc & Hu & Hs & t' & Hl & Ht)]; [left|right].
  - exists n, k0, at_. rewrite elem_of_app. auto.
  - exists n, ch, p, v, ah, at_, t. rewrite elem_of_app, last_issue_app by done. eauto 10.
Qed.
Lemma mcp_step n d d' es :
  trail d' = es ++ trail d → (∀ e, e ∈ es → by_request e = n) →
  (∀ id k, keys d !! id = Some k → ∃ k', keys d' !! id = Some k' ∧ ages k k') →
  (inv d →
     trail_ok (es ++ trail d) ∧
     (∀ th p, pendings d' !! th = Some p → pendings d !! th = Some p ∨ pending_ok th p (es ++ trail d)) ∧
     (∀ ch p, codes d' !! ch = Some p → codes d !! ch = Some p ∧ none (takes ch) es ∨ code_ok ch p (es ++ trail d)) ∧
     (∀ id g, grants d' !! id = Some g → grants d !! id = Some g ∨ ∃ m, Granted m id g ∈ es ++ trail d) ∧
     (∀ rh g, refreshes d' !! rh = Some g → refreshes d !! rh = Some g ∧ none (retakes rh) es ∨ refresh_ok rh g (es ++ trail d)) ∧
     (∀ id k, keys d' !! id = Some k → keys d !! id = Some k ∧ (∀ e, e ∈ es → issue id e = None) ∨ key_ok id k (es ++ trail d)) ∧
     (∀ id e, e ∈ es → makes id e = true → is_Some (keys d' !! id)) ∧ unique_hashes (keys d')) →
  guar n d d'.
Proof.
  intros Ht He Hk Hinv. split; [by exists es|done|]. intros HI. destruct (Hinv HI) as (H1 & H2 & H3 & H4 & H5 & H6 & H7 & H8). destruct HI as [I1 I2 I3 I4 I5 I6 I7 I8].
  split; rewrite ?Ht; [done|..|done].
  - intros th p [H|H]%H2; [|done]. destruct (I2 _ _ H) as (m & p0 & Hin & ?). exists m, p0. rewrite elem_of_app. auto.
  - intros ch p [[H Hn]|H]%H3; [|done]. destruct (I3 _ _ H) as [(m & u & Hin) Hno]. split; [exists m, u; rewrite elem_of_app; auto|by apply none_app].
  - intros id g [H|H]%H4; [|done]. destruct (I4 _ _ H) as (m & Hin). exists m. rewrite elem_of_app. auto.
  - intros rh g [[H Hn]|H]%H5; [|done]. destruct (I5 _ _ H) as [(m & Hin) Hno]. split; [exists m; rewrite elem_of_app; auto|by apply none_app].
  - intros id k [[H Hn]|H]%H6; [|done]. by apply key_ok_more; [|apply I6].
  - intros id e [H|H]%elem_of_app Hm; [by eapply H7|]. destruct (I7 _ _ H Hm) as [k Hx]. destruct (Hk _ _ Hx) as (k' & -> & _). by exists k'.
Qed.

(** Nothing is added, and entries may go. *)
Lemma guar_less n d d' :
  trail d' = trail d → keys d' = keys d → pendings d' ⊆ pendings d → codes d' ⊆ codes d → grants d' ⊆ grants d → refreshes d' ⊆ refreshes d → guar n d d'.
Proof.
  intros Ht Hk Hp Hc Hg Hr. apply (mcp_step n d d' []); [done|by intros e ?%not_elem_of_nil|rewrite Hk; eauto using ages_refl|]. intros HI.
  rewrite Hk. split_and!; [apply HI|..|apply HI].
  - intros th p H. left. by eapply lookup_weaken.
  - intros ch p H. left. split; [by eapply lookup_weaken|apply none_nil].
  - intros id g H. left. by eapply lookup_weaken.
  - intros rh g H. left. split; [by eapply lookup_weaken|apply none_nil].
  - intros id k H. left. split; [done|by intros e ?%not_elem_of_nil].
  - by intros id e ?%not_elem_of_nil.
Qed.
Lemma key_ok_same id k k' l : same_key k k' → key_ok id k l → key_ok id k' l.
Proof.
  intros (H1 & H2 & H3 & H4) [(n & k0 & at_ & Hc & S1 & S2 & S3 & S4)|(n & ch & p & v & ah & at_ & t & Hc & Hu & Hs & t' & Hl & Ht)]; [left|right].
  - exists n, k0, at_. split; [done|]. split_and!; congruence.
  - exists n, ch, p, v, ah, at_, t. rewrite H1, H2, H3, H4. eauto 10.
Qed.
(** Keys are touched, but stay what they are. *)
Lemma guar_keys n d d' :
  trail d' = trail d → pendings d' = pendings d → codes d' = codes d → grants d' = grants d → refreshes d' = refreshes d →
  (∀ id k, keys d !! id = Some k → ∃ k', keys d' !! id = Some k' ∧ ages k k' ∧ same_key k k') →
  (∀ id k', keys d' !! id = Some k' → is_Some (keys d !! id)) → guar n d d'.
Proof.
  intros Ht Hp Hc Hg Hr Hk Hb. assert (∀ id k', keys d' !! id = Some k' → ∃ k, keys d !! id = Some k ∧ same_key k k') as Hback.
  { intros id k' Hk'. destruct (Hb _ _ Hk') as [k E]. destruct (Hk _ _ E) as (k2 & E2 & _ & Hs). exists k. split; [done|]. by simplify_eq. }
  apply (mcp_step n d d' []); [done|by intros e ?%not_elem_of_nil|intros id k (k' & ? & ? & _)%Hk; eauto|]. intros HI.
  rewrite Hp, Hc, Hg, Hr. split_and!; [apply HI|..].
  - by left.
  - left. split; [done|apply none_nil].
  - by left.
  - left. split; [done|apply none_nil].
  - intros id k' (k & E & Hs)%Hback. right. eapply key_ok_same; [exact Hs|]. by apply (inv_key d HI).
  - by intros id e ?%not_elem_of_nil.
  - intros i j ki kj (ki' & Ei & Hi & _)%Hback (kj' & Ej & Hj & _)%Hback E. apply (inv_hashes d HI i j ki' kj'); congruence.
Qed.
Lemma guar_key n d id k k' :
  keys d !! id = Some k → ages k k' → same_key k k' → guar n d (set_key id k' d).
Proof.
  intros Hk Ha Hs. apply guar_keys; try done; cbn; [intros i x Hx|intros i x; rewrite lookup_insert_Some; naive_solver].
  destruct (decide (i = id)) as [->|Hne]; [exists k'; assert (x = k) as -> by congruence; by simplify_map_eq|].
  exists x. rewrite lookup_insert_ne by done. done.
Qed.

(** Facts about the state the others leave alone. *)
Lemma pending_ok_in th p l es : pending_ok th p l → pending_ok th p (es ++ l).
Proof. intros (n & p0 & Hin & ?). exists n, p0. rewrite elem_of_app. auto. Qed.

(** One entry or key is added with the event that tells of it. *)
Lemma guar_log n d d' e :
  trail d' = e :: trail d → by_request e = n → keys d' = keys d → (∀ id, issue id e = None) → (∀ id, makes id e = false) →
  (inv d → justified e (trail d)) →
  (inv d → (∀ th p, pendings d' !! th = Some p → pendings d !! th = Some p ∨ pending_ok th p (e :: trail d)) ∧
     (∀ ch p, codes d' !! ch = Some p → codes d !! ch = Some p ∧ takes ch e = false ∨ code_ok ch p (e :: trail d)) ∧
     (∀ id g, grants d' !! id = Some g → grants d !! id = Some g ∨ ∃ m, Granted m id g ∈ e :: trail d) ∧
     (∀ rh g, refreshes d' !! rh = Some g → refreshes d !! rh = Some g ∧ retakes rh e = false ∨ refresh_ok rh g (e :: trail d))) →
  guar n d d'.
Proof.
  intros Ht He Hk Hi Hm Hj H. apply (mcp_step n d d' [e]); [done|by intros x ->%list_elem_of_singleton|rewrite Hk; eauto using ages_refl|]. intros HI.
  destruct (H HI) as (H1 & H2 & H3 & H4). rewrite Hk. split; [exact (conj (Hj HI) (inv_trail d HI))|]. split_and!; [exact H1|..|apply HI].
  - intros ch p [[? ?]|?]%H2; [left|by right]. split; [done|]. by apply none_one.
  - done.
  - intros rh g [[? ?]|?]%H4; [left|by right]. split; [done|]. by apply none_one.
  - intros id k Hk'. left. split; [done|]. by intros x ->%list_elem_of_singleton.
  - intros id x ->%list_elem_of_singleton Hx. by rewrite Hm in Hx.
Qed.

(** ** Tokens are new *)

Section new.
Context (hash_inj : Inj (=) (=) hash) (random_inj : ∀ n k n' k', random n k = random n' k' → n = n' ∧ k = k').

Lemma code_unused n l : trail_ok l → log n l = [] → none (takes (hash (random n 0))) l.
Proof.
  intros Hl Hn e He. destruct e as [| |m ch| | | | | |]; try done. cbn. apply bool_decide_eq_false. intros ->.
  destruct (trail_at _ _ _ Hl He) as (l1 & l2 & -> & _ & _ & p & m' & w & Hp). destruct (trail_at _ _ _ (trail_ok_app _ _ _ Hl) (list_elem_of_further _ _ _ Hp)) as (l3 & l4 & E & _ & Hch & _).
  apply hash_inj in Hch. apply random_inj in Hch as [-> _].
  assert (Approved m' w (hash (random m' 0)) p ∈ log m' (l1 ++ CodeTaken m (hash (random m' 0)) :: l2)) as Hin by (apply elem_of_log; rewrite elem_of_app, elem_of_cons; auto).
  rewrite Hn in Hin. by apply not_elem_of_nil in Hin.
Qed.
Lemma refresh_unused n l : trail_ok l → none saves (log n l) → none (retakes (hash (random n 1))) l.
Proof.
  intros Hl Hn e He. destruct e as [| | | | | |m rh| |]; try done. cbn. apply bool_decide_eq_false. intros ->.
  destruct (trail_at _ _ _ Hl He) as (l1 & l2 & -> & _ & _ & m' & g & Hp). destruct (trail_at _ _ _ (trail_ok_app _ _ _ Hl) (list_elem_of_further _ _ _ Hp)) as (l3 & l4 & E & Hch & _).
  apply hash_inj in Hch. apply random_inj in Hch as [-> _].
  destruct (none_in _ _ (Saved m' (hash (random m' 1)) g) Hn); [|done]. apply elem_of_log. rewrite elem_of_app, elem_of_cons. auto.
Qed.
End new.

(** ** Uniqueness *)

Lemma taken_once l n m ch : trail_ok l → CodeTaken n ch ∈ l → CodeTaken m ch ∈ l → n = m.
Proof.
  intros Hl H1 H2. assert (CodeTaken n ch = CodeTaken m ch) as [= ->]; [|done].
  eapply (only_one justified (takes ch)); [|exact Hl|done..|apply bool_decide_refl|apply bool_decide_refl].
  intros e l0 Hj He. destruct e; cbn in *; try done. apply bool_decide_eq_true in He as ->. apply Hj.
Qed.
Lemma retaken_once l n m rh : trail_ok l → RefreshTaken n rh ∈ l → RefreshTaken m rh ∈ l → n = m.
Proof.
  intros Hl H1 H2. assert (RefreshTaken n rh = RefreshTaken m rh) as [= ->]; [|done].
  eapply (only_one justified (retakes rh)); [|exact Hl|done..|apply bool_decide_refl|apply bool_decide_refl].
  intros e l0 Hj He. destruct e; cbn in *; try done. apply bool_decide_eq_true in He as ->. apply Hj.
Qed.
Lemma made_once l id e e' : trail_ok l → e ∈ l → e' ∈ l → makes id e = true → makes id e' = true → e = e'.
Proof.
  intros Hl He He'. apply (only_one justified (makes id) l); [|done..].
  intros x l0 Hj Hx. destruct x; cbn in *; try done; apply bool_decide_eq_true in Hx as ->; apply Hj.
Qed.
(** A code that this request took has not made a connection. *)
Lemma unconnected n ch l : trail_ok l → log n l = [CodeTaken n ch] → none (connects ch) l.
Proof.
  intros Hl Hn e He. destruct e as [| | |m c id p v ah at_ t| | | | |]; try done. cbn. apply bool_decide_eq_false. intros ->.
  destruct (trail_at _ _ _ Hl He) as (l1 & l2 & E & Hm & _).
  assert (CodeTaken m ch ∈ l) as H1 by (rewrite E, elem_of_app, elem_of_cons; right; right; eapply log_in; [exact Hm|left]).
  assert (CodeTaken n ch ∈ l) as H2 by (eapply log_in; [exact Hn|left]). rewrite (taken_once _ _ _ _ Hl H1 H2) in He.
  assert (Connected n ch id p v ah at_ t ∈ log n l) as Hin by (by apply elem_of_log). rewrite Hn in Hin. by apply list_elem_of_singleton in Hin.
Qed.
Lemma unrotated n rh l : trail_ok l → log n l = [RefreshTaken n rh] → none (rotates rh) l.
Proof.
  intros Hl Hn e He. destruct e as [| | | | | | |m r id ah at_ t|]; try done. cbn. apply bool_decide_eq_false. intros ->.
  destruct (trail_at _ _ _ Hl He) as (l1 & l2 & E & Hm & _).
  assert (RefreshTaken m rh ∈ l) as H1 by (rewrite E, elem_of_app, elem_of_cons; right; right; eapply log_in; [exact Hm|left]).
  assert (RefreshTaken n rh ∈ l) as H2 by (eapply log_in; [exact Hn|left]). rewrite (retaken_once _ _ _ _ Hl H1 H2) in He.
  assert (Rotated n rh id ah at_ t ∈ log n l) as Hin by (by apply elem_of_log). rewrite Hn in Hin. by apply list_elem_of_singleton in Hin.
Qed.
(** What a grant was made from. *)
Lemma granted_from l m id g : trail_ok l → Granted m id g ∈ l →
  ∃ ch p v at_ t, Connected m ch id p v (access_token m) at_ t ∈ l ∧ grant_of id p g.
Proof.
  intros Hl He. destruct (trail_at _ _ _ Hl He) as (l1 & l2 & -> & ch & p & v & at_ & t & Hlog & Hg). exists ch, p, v, at_, t. split; [|done].
  rewrite elem_of_app, elem_of_cons. right. right. eapply log_in; [exact Hlog|left].
Qed.

(** ** The writes *)

Lemma guar_offer n d p :
  log n (trail d) = [] → p_userId p = None → p_clientId p = CHATGPT_CLIENT_ID → p_redirectUri p = CHATGPT_REDIRECT →
  guar n d (note (Offered n (hash (random n 0)) p) (set_pendings (<[hash (random n 0) := p]> (pendings d)) d)).
Proof.
  intros Hn H1 H2 H3. eapply guar_log; try done. intros HI. split_and!; [|by left..]. intros th q. cbn. rewrite lookup_insert_Some.
  intros [[<- <-]|[_ H]]; [right|by left]. exists n, p. split; [left|done].
Qed.
Lemma guar_bind n d th p u v h : pending_ok th p (trail d) → guar n d (set_pendings (<[th := bind_to p u v h]> (pendings d)) d).
Proof.
  intros Hp. apply (mcp_step n d _ []); [done|by intros e ?%not_elem_of_nil|eauto using ages_refl|]. intros HI. split_and!; [apply HI|..|apply HI]; cbn.
  - intros th' q. rewrite lookup_insert_Some. intros [[<- <-]|[_ H]]; [right|by left]. done.
  - left. split; [done|apply none_nil].
  - by left.
  - left. split; [done|apply none_nil].
  - left. split; [done|by intros e ?%not_elem_of_nil].
  - by intros id e ?%not_elem_of_nil.
Qed.
Lemma guar_take_code n d ch p :
  log n (trail d) = [] → codes d !! ch = Some p → guar n d (note (CodeTaken n ch) (set_codes (delete ch (codes d)) d)).
Proof.
  intros Hn Hc. eapply guar_log; try done.
  - intros HI. destruct (inv_code d HI _ _ Hc) as [Hap Hno]. split_and!; [done..|]. by exists p.
  - intros HI. split_and!; [by left| |by left..]. intros ch' q. cbn. rewrite lookup_delete_Some. intros [Hne H]. left. split; [done|]. by apply bool_decide_eq_false.
Qed.
Lemma guar_take_refresh n d rh g :
  log n (trail d) = [] → refreshes d !! rh = Some g → guar n d (note (RefreshTaken n rh) (set_refreshes (delete rh (refreshes d)) d)).
Proof.
  intros Hn Hc. eapply guar_log; try done.
  - intros HI. destruct (inv_refresh d HI _ _ Hc) as [(m & Hm) Hno]. split_and!; [done..|]. by exists m, g.
  - intros HI. split_and!; [by left..|]. intros rh' q. cbn. rewrite lookup_delete_Some. intros [Hne H]. left. split; [done|]. by apply bool_decide_eq_false.
Qed.
Lemma guar_grant n d id g ch p v at_ t :
  log n (trail d) = [Connected n ch id p v (access_token n) at_ t; CodeTaken n ch] → grant_of id p g →
  guar n d (note (Granted n id g) (set_grants (<[id := g]> (grants d)) d)).
Proof.
  intros Hn Hg. eapply guar_log; try done; [intros _; by exists ch, p, v, at_, t|]. intros HI. split_and!; [by left..| |by left]. intros id' g'. cbn.
  rewrite lookup_insert_Some. intros [[<- <-]|[_ H]]; [right; exists n; left|by left].
Qed.

Section new.
Context (hash_inj : Inj (=) (=) hash) (random_inj : ∀ n k n' k', random n k = random n' k' → n = n' ∧ k = k').

Lemma guar_approve n d p0 p th u :
  log n (trail d) = [] → pending_ok th p0 (trail d) → same_request p0 p → p_userId p = Some u → (∀ s, s ∈ p_scopes p → s ∈ p_scopes p0) →
  guar n d (note (Approved n u (hash (random n 0)) p) (set_codes (<[hash (random n 0) := p]> (codes d)) d)).
Proof.
  intros Hn (m & q & Hq & Hs & Hsc) Hsp Hu Hsub. eapply guar_log; try done.
  - intros HI. split_and!; [done..|]. exists m, th, q. split; [done|]. split; [|intros s Hs'; rewrite <-Hsc; by apply Hsub].
    destruct Hs as (? & ? & ? & ? & ?), Hsp as (? & ? & ? & ? & ?). split_and!; congruence.
  - intros HI. split_and!; [by left| |by left..]. intros ch q'. cbn. rewrite lookup_insert_Some. intros [[<- <-]|[_ H]]; [right|by left].
    split; [exists n, u; left|]. apply none_cons. split; [done|]. apply code_unused; [done..|apply HI|done].
Qed.
Lemma guar_save n d g m :
  none saves (log n (trail d)) → Granted m (g_keyId g) g ∈ trail d →
  guar n d (note (Saved n (hash (random n 1)) g) (set_refreshes (<[hash (random n 1) := g]> (refreshes d)) d)).
Proof.
  intros Hn Hg. eapply guar_log; try done.
  - intros HI. split_and!; [done..|by exists m].
  - intros HI. split_and!; [by left..|]. intros rh q. cbn. rewrite lookup_insert_Some. intros [[<- <-]|[_ H]]; [right|by left].
    split; [exists n; left|]. apply none_cons. split; [done|]. apply refresh_unused; [done..|apply HI|done].
Qed.
End new.

Lemma find_key_None h d id k : find_key h d = None → keys d !! id = Some k → k_hash k ≠ h.
Proof.
  unfold find_key. intros Hf Hk <-. assert ((id, k) ∈ tselect (λ _ x, bool_decide (k_hash x = k_hash k)) (keys d)) as Hin.
  { apply tselect_spec. split; [exact Hk|apply bool_decide_refl]. }
  destruct (tselect _ _); [by apply not_elem_of_nil in Hin|done].
Qed.
Lemma find_key_Some h d id k : find_key h d = Some (id, k) → keys d !! id = Some k ∧ k_hash k = h.
Proof. unfold find_key. intros H%head_Some_elem_of. apply tselect_spec in H as [Hk Hh%bool_decide_eq_true]. done. Qed.
Lemma taken_spec d id h : key_taken d id h = false → keys d !! id = None ∧ ∀ i k, keys d !! i = Some k → k_hash k ≠ h.
Proof.
  unfold key_taken. rewrite orb_false_iff, !bool_decide_eq_false, <-!eq_None_not_Some. intros [Hk Hf]. split; [done|]. intros i k. by apply find_key_None.
Qed.
Lemma unmade d id : inv d → keys d !! id = None → none (makes id) (trail d).
Proof. intros HI Hk e He. destruct (makes id e) eqn:E; [|done]. destruct (inv_made d HI id e He E) as [k Hk']. congruence. Qed.

(** A key row is added. *)
Lemma guar_insert n d e id k :
  key_taken d id (k_hash k) = false → by_request e = n → (∀ i, i ≠ id → issue i e = None) → (∀ i, makes i e = true → i = id) →
  (∀ ch, takes ch e = false) → (∀ rh, retakes rh e = false) → (inv d → justified e (trail d)) → (inv d → key_ok id k (e :: trail d)) →
  guar n d (note e (set_key id k d)).
Proof.
  intros [Hno Hh]%taken_spec He Hi Hm Ht Hr Hj Hk. apply (mcp_step n d _ [e]); [done|by intros x ->%list_elem_of_singleton| |].
  { intros i x Hx. exists x. split; [|apply ages_refl]. cbn. rewrite lookup_insert_ne; [done|congruence]. }
  intros HI. split; [exact (conj (Hj HI) (inv_trail d HI))|]. split_and!; cbn.
  - by left.
  - left. split; [done|by apply none_one].
  - by left.
  - left. split; [done|by apply none_one].
  - intros i x. rewrite lookup_insert_Some. intros [[<- <-]|[Hne Hx]]; [right; by apply Hk|left]. split; [done|].
    intros y ->%list_elem_of_singleton. by apply Hi.
  - intros i x ->%list_elem_of_singleton ->%Hm. by rewrite lookup_insert_eq.
  - intros i j ki kj. rewrite !lookup_insert_Some. intros [[<- <-]|[Hi' Hki]] [[<- <-]|[Hj' Hkj]] E; [done|..|by eapply (inv_hashes d HI)].
    + by destruct (Hh _ _ Hkj).
    + by destruct (Hh _ _ Hki).
Qed.
Lemma guar_create n d id k at_ :
  log n (trail d) = [] → k_hash k = hash (generateApiKey random_hex n) → key_taken d id (k_hash k) = false → (∀ s, s ∈ k_scopes k → s ∈ API_KEY_SCOPES) →
  (∃ t, k_expiresAt k = Some t ∧ at_ < t ≤ at_ + API_KEY_MAX_EXPIRY_DAYS * DAY_MS) → guar n d (note (Created n id k at_) (set_key id k d)).
Proof.
  intros Hn Hh Ht Hs He. apply guar_insert; try done.
  - intros i Hi. by apply bool_decide_eq_true in Hi.
  - intros HI. split_and!; [done| |done..]. apply unmade; [done|]. by apply taken_spec in Ht as [? _].
  - intros HI. left. exists n, k, at_. split; [left|done].
Qed.
Lemma guar_connect n d ch id p u v at_ :
  let t := at_ + ACCESS_SECONDS * 1000 in
  let row := Key (key_name (p_scopes p)) (access_token n) u (p_scopes p) true None (Some t) None in
  log n (trail d) = [CodeTaken n ch] → approved ch p (trail d) → p_userId p = Some u → hash (s256 v) = hash (p_codeChallenge p) →
  key_taken d id (access_token n) = false → guar n d (note (Connected n ch id p v (access_token n) at_ t) (set_key id row d)).
Proof.
  intros t row Hn Hap Hu Hv Ht. apply guar_insert; try done.
  - intros i Hne. cbn. by rewrite bool_decide_neq.
  - intros i Hi. by apply bool_decide_eq_true in Hi.
  - intros HI. split_and!; [done..| | | |done|done].
    + apply unmade; [done|]. by apply taken_spec in Ht as [? _].
    + by eapply unconnected; [apply HI|].
    + done.
  - intros HI. right. exists n, ch, p, v, (access_token n), at_, t. split; [left|]. split_and!; [done..|]. exists t. split; [|done].
    unfold last_issue. cbn. by rewrite bool_decide_refl.
Qed.
Lemma guar_rotate n d rh id x g at_ m :
  let t := Z.min (g_expiresAt g) (at_ + ACCESS_SECONDS * 1000) in
  log n (trail d) = [RefreshTaken n rh] → Granted m id g ∈ trail d → keys d !! id = Some x → find_key (access_token n) d = None →
  guar n d (note (Rotated n rh id (access_token n) at_ t)
              (set_key id (Key (k_name x) (access_token n) (k_user x) (k_scopes x) (k_active x) (k_revokedAt x) (Some t) (k_lastUsedAt x)) d)).
Proof.
  intros t Hn Hg Hx Hf. apply (mcp_step n d _ [Rotated n rh id (access_token n) at_ t]); [done|by intros y ->%list_elem_of_singleton| |].
  { intros i y Hy. cbn. destruct (decide (i = id)) as [->|Hne]; [|exists y; rewrite lookup_insert_ne by done; done].
    assert (y = x) as -> by congruence. eexists. rewrite lookup_insert_eq. done. }
  intros HI. split.
  { split; [|apply HI]. split_and!; [done..|by eapply unrotated; [apply HI|]|]. by exists m, g. }
  split_and!; cbn.
  - by left.
  - left. split; [done|by apply none_one].
  - by left.
  - left. split; [done|by apply none_one].
  - intros i y. rewrite lookup_insert_Some. intros [[<- <-]|[Hne Hy]]; [right|left; split; [done|]; intros z ->%list_elem_of_singleton; cbn; by rewrite bool_decide_neq].
    destruct (granted_from _ _ _ _ (inv_trail d HI) Hg) as (ch & p & v & a & t' & Hc & _). right.
    destruct (inv_key d HI _ _ Hx) as [(n0 & k0 & a0 & Hcr & _)|(n0 & ch0 & p0 & v0 & ah0 & a0 & t0 & Hc0 & Hu & Hs & _)].
    { pose proof (made_once _ id _ _ (inv_trail d HI) Hc Hcr) as E. cbn in E. rewrite !bool_decide_refl in E. by specialize (E eq_refl eq_refl). }
    exists n0, ch0, p0, v0, ah0, a0, t0. split; [by right|]. split_and!; [done..|]. exists t. split; [|done]. unfold last_issue. cbn. by rewrite bool_decide_refl.
  - intros i y ->%list_elem_of_singleton Hm. done.
  - intros i j ki kj. rewrite !lookup_insert_Some. intros [[<- <-]|[Hi' Hki]] [[<- <-]|[Hj' Hkj]] E; [done|..|by eapply (inv_hashes d HI)].
    + by destruct (find_key_None _ _ _ _ Hf Hkj).
    + by destruct (find_key_None _ _ _ _ Hf Hki).
Qed.

(** ** Statements under interference *)

Abbreviation told := (Steps.told (D := db) (E := thrown)).
Lemma mcp_fail {A} n err d (F : A → db → Prop) : own n (fail err) d (told F).
Proof. apply told_fail. Qed.
Lemma mcp_ok {A} n (a : A) d (F : A → db → Prop) : (∀ d1, later n d d1 → inv d1 → F a d1) → own n (ok a) d (told F).
Proof. apply told_ok. Qed.
Lemma mcp_require {A} n b err (k : unit → act A) d (F : A → db → Prop) :
  (b = true → own n (k tt) d (told F)) → own n (and_then (require b err) k) d (told F).
Proof. apply told_require. Qed.
Lemma mcp_lookup {A B} n (f : db → A) (k : A → act B) d (F : B → db → Prop) :
  (∀ d1, later n d d1 → inv d1 → own n (k (f d1)) d1 (told F)) → own n (and_then (read f) k) d (told F).
Proof. apply told_read, mcp_idle. Qed.
Lemma mcp_write {A B} n (f : db → A * db) (k : A → act B) d (F : B → db → Prop) :
  (∀ d1, later n d d1 → inv d1 → guar n d1 (f d1).2 ∧ own n (k (f d1).1) (f d1).2 (told F)) → own n (and_then (write f) k) d (told F).
Proof. apply told_write. Qed.
Lemma mcp_reads {A B} n (p : act A) (k : A → act B) (P : A → Prop) d (F : B → db → Prop) :
  reading p → says (holds P) p → (∀ a d1, later n d d1 → inv d1 → P a → own n (k a) d1 (told F)) → own n (and_then p k) d (told F).
Proof. apply told_reads, mcp_idle. Qed.
Lemma mcp_alone {A B} n e (p : act A) (k : A → act B) d (F : B → db → Prop) :
  (∀ d1 a d2, later n d d1 → inv d1 → run_alone p d1 = (Ok a, d2) → guar n d1 d2 ∧ own n (k a) d2 (told F)) →
  own n (and_then (serializable e p) k) d (told F).
Proof. intros H. unfold serializable. destruct (e_aborts e); [apply mcp_fail|]. by apply told_atomically; [apply mcp_idle|]. Qed.
Lemma mcp_any n d d' : later n d d' → any d d'.
Proof. apply others_anyone. Qed.
Lemma mcp_next n d1 d2 d : any d d1 → guar n d1 d2 → any d d2.
Proof. intros H1 H2. etransitivity; [exact H1|]. apply rtc_once. by exists n. Qed.

Lemma reading_owner u o v s : reading (owner u o v s).
Proof. unfold owner. reads. Qed.
Lemma says_owner u o v s : says (holds (λ a, account_allows (in_organization a) o v s a = true)) (owner u o v s).
Proof.
  unfold owner. apply says_and_then. intros [a|]; [|done]. destruct (account_allows _ _ _ _ _) eqn:E; [|done]. exact E.
Qed.
Lemma mcp_owner {A} n u o v s (k : account → act A) d (F : A → db → Prop) :
  (∀ a d1, later n d d1 → inv d1 → account_allows (in_organization a) o v s a = true → own n (k a) d1 (told F)) →
  own n (and_then (owner u o v s) k) d (told F).
Proof. intros H. eapply mcp_reads; [apply reading_owner|apply says_owner|exact H]. Qed.
Lemma mcp_stored {A B} n (get : db → gmap string A) token (k : option A → act B) d (F : B → db → Prop) :
  (∀ d1, later n d d1 → inv d1 → ∀ x, x = None ∨ x = get d1 !! hash token → own n (k x) d1 (told F)) →
  own n (and_then (stored hash get token) k) d (told F).
Proof.
  intros H. unfold stored. destruct (short token); [apply mcp_lookup; intros; auto|].
  apply owned_later. intros d1 H1 I1. eapply owned_stable; [|apply (H d1 H1 I1 None); by left]. done.
Qed.

(** ** Authorization *)

Definition unlogged n d : Prop := log n (trail d) = [].
Lemma unlogged_later n d d' : later n d d' → unlogged n d → unlogged n d'.
Proof. unfold unlogged. intros H E. by rewrite (log_stays _ _ _ H). Qed.
Lemma pending_ok_any th p d d' : any d d' → pending_ok th p (trail d) → pending_ok th p (trail d').
Proof. intros (es & ->)%mcp_any_trail. apply pending_ok_in. Qed.

Lemma own_authorize n e c q d : unlogged n d → own n (authorize hash random origin n e c q) d (told (λ _ _, True)).
Proof.
  intros Hn. unfold authorize, checkResource. apply mcp_require; intros _. apply mcp_require; intros Hc. apply mcp_require; intros _.
  apply andb_true_iff in Hc as [->%bool_decide_eq_true Hr%bool_decide_eq_true]. destruct (ToolActions.normalizeMcpScopes _); [|apply mcp_fail].
  apply mcp_write. intros d1 H1 I1. split; [|by apply mcp_ok]. apply guar_offer; [by eapply unlogged_later|done..].
Qed.
Lemma own_preview n e t u d : own n (preview hash random n e t u) d (told (λ _ _, True)).
Proof.
  unfold preview. apply mcp_stored. intros d1 H1 I1 x Hx. destruct x as [p|]; [|apply mcp_fail]. destruct Hx as [Hx|Hx]; [done|].
  apply mcp_require; intros _. apply mcp_lookup. intros d2 H2 I2. cbn zeta. apply mcp_owner. intros a d3 H3 I3 _. apply mcp_write. intros d4 H4 I4.
  split; [|by apply mcp_ok]. apply guar_bind. eapply pending_ok_any; [|apply (inv_pending d1 I1 _ _ (eq_sym Hx))].
  etransitivity; [by eapply mcp_any|]. etransitivity; by eapply mcp_any.
Qed.

Lemma code_ok_any ch p d d' : any d d' → approved ch p (trail d) → approved ch p (trail d').
Proof. intros H (n & u & Hn). exists n, u. by eapply mcp_in. Qed.
Lemma mcp_owner_pending {A} n p s (k : account → act A) d (F : A → db → Prop) :
  (∀ a d1 u, later n d d1 → inv d1 → p_userId p = Some u → own n (k a) d1 (told F)) → own n (and_then (owner_of_pending p s) k) d (told F).
Proof.
  intros H. unfold owner_of_pending. destruct (p_userId p) as [u|] eqn:E.
  - apply mcp_owner. intros a d1 H1 I1 _. by eapply H.
  - apply (mcp_fail n Crash).
Qed.
Lemma mcp_take {A B} n (get : db → gmap string A) set id e (k : option A → act B) d (F : B → db → Prop) :
  (∀ d1, later n d d1 → inv d1 → get d1 !! id = None → own n (k None) d1 (told F)) →
  (∀ d1 x, later n d d1 → inv d1 → get d1 !! id = Some x →
     let d2 := note e (set (delete id (get d1)) d1) in guar n d1 d2 ∧ own n (k (Some x)) d2 (told F)) →
  own n (and_then (take get set id e) k) d (told F).
Proof.
  intros H0 H1. unfold take. apply mcp_write. intros d1 Hd I1. destruct (get d1 !! id) as [x|] eqn:E; cbn [fst snd]; [by apply H1|].
  split; [apply mcp_idle|by apply H0].
Qed.

Section new.
Context (hash_inj : Inj (=) (=) hash) (random_inj : ∀ n k n' k', random n k = random n' k' → n = n' ∧ k = k').

Lemma own_consent n e t nonce u b sel d : unlogged n d → own n (consent hash random origin n e t nonce u b sel) d (told (λ _ _, True)).
Proof.
  intros Hn. unfold consent. apply mcp_stored. intros d1 H1 I1 x Hx. destruct x as [p|]; [|apply mcp_fail]. destruct Hx as [Hx|Hx]; [done|].
  pose proof (inv_pending d1 I1 _ _ (eq_sym Hx)) as Hp. apply mcp_require; intros Hu. rewrite !andb_true_iff in Hu.
  destruct Hu as [[_ Hu%bool_decide_eq_true] _]. destruct (ToolActions.normalizeMcpScopes _) as [scopes|]; [|apply mcp_fail].
  apply mcp_require; intros Hsub. apply mcp_owner_pending. intros a d2 v H2 I2 _. apply mcp_write. intros d3 H3 I3. cbn [fst snd].
  assert (guar n d3 (set_pendings (delete (hash t) (pendings d3)) d3)) as Hg by (by apply guar_less; [..|apply delete_subseteq| | |]).
  split; [exact Hg|]. apply mcp_require; intros _. destruct b; [|by apply mcp_ok]. apply mcp_write. intros d4 H4 I4. split; [|by apply mcp_ok]. cbn [snd].
  assert (any d1 d4) as R4.
  { etransitivity; [by eapply mcp_any|]. etransitivity; [by eapply mcp_any|]. eapply rtc_l; [by exists n|]. by eapply mcp_any. }
  apply (guar_approve hash_inj random_inj n d4 p (chosen p scopes) (hash t) (u_id u)).
  - transitivity (log n (trail d3)); [exact (log_stays _ _ _ H4)|]. rewrite (log_stays _ _ _ H3), (log_stays _ _ _ H2). by eapply unlogged_later.
  - by eapply pending_ok_any.
  - done.
  - exact Hu.
  - intros s Hs. rewrite forallb_forall in Hsub. specialize (Hsub s). rewrite <-list_elem_of_In in Hsub. apply Hsub in Hs. by apply bool_decide_eq_true in Hs.
Qed.

Lemma own_refreshFor n g m d :
  none saves (log n (trail d)) → Granted m (g_keyId g) g ∈ trail d →
  own n (refreshFor hash random n g) d (told (λ t d, t = random n 1 ∧ Saved n (hash (random n 1)) g ∈ trail d)).
Proof.
  intros Hn Hg. unfold refreshFor. cbn zeta. apply mcp_write. intros d1 H1 I1. cbn [fst snd]. split.
  - apply (guar_save hash_inj random_inj n d1 g m); [by rewrite (log_stays _ _ _ H1)|]. by eapply mcp_in; [eapply mcp_any|].
  - apply mcp_ok. intros d2 H2 _. split; [done|]. eapply mcp_in; [by eapply mcp_any|]. left.
Qed.
Lemma mcp_and_then {A B} n (p : act A) (k : A → act B) d (F : A → db → Prop) (G : B → db → Prop) :
  own n p d (told F) → (∀ a d', any d d' → inv d' → F a d' → own n (k a) d' (told G)) → own n (and_then p k) d (told G).
Proof. apply told_and_then. Qed.

(** The connection a code was exchanged for. *)
Definition connected (n : nat) (code verifier : option string) (t : tokens) d : Prop := ∃ c v id p at_,
  code = Some c ∧ verifier = Some v ∧ Connected n (hash c) id p v (hash (t_access t)) at_ (at_ + ACCESS_SECONDS * 1000) ∈ trail d ∧ t_scopes t = p_scopes p ∧
  ∃ g, Saved n (hash (t_refresh t)) g ∈ trail d ∧ grant_of id p g.
Lemma connect_ok n e ch p u v tok d row d' :
  run_alone (connect hash n e ch p u v tok) d = (Ok row, d') →
  let t := clock e 1 + ACCESS_SECONDS * 1000 in
  let k := Key (key_name (p_scopes p)) (hash tok) u (p_scopes p) true None (Some t) None in
  row = (e_id e, k) ∧ key_taken d (e_id e) (hash tok) = false ∧ d' = note (Connected n ch (e_id e) p v (hash tok) (clock e 1) t) (set_key (e_id e) k d).
Proof.
  unfold connect. rewrite run_read. destruct (users d !! u) as [a|]; [|done]. intros H. apply run_require in H as [_ H]. rewrite run_read in H.
  apply run_require in H as [_ H]. cbn zeta in H. rewrite run_statement in H. destruct (key_taken _ _ _); [done|]. injection H as <- <-. done.
Qed.
Lemma own_exchange n e c code v r h d : unlogged n d →
  own n (exchangeAuthorizationCode hash s256 random origin n e c code v r h) d (told (connected n (Some code) v)).
Proof.
  intros Hn. unfold exchangeAuthorizationCode, checkResource. apply mcp_require; intros _. apply mcp_stored. intros d1 H1 I1 x Hx.
  destruct x as [p|]; [|apply mcp_fail]. destruct Hx as [Hx|Hx]; [done|]. destruct (inv_code d1 I1 _ _ (eq_sym Hx)) as [Hap _]. cbn zeta.
  apply mcp_require; intros Hv. rewrite !andb_true_iff in Hv. destruct Hv as [[[[Hcl%bool_decide_eq_true _] Hv%bool_decide_eq_true] _] Hs%bool_decide_eq_true].
  destruct v as [v|]; [|by destruct Hv]. cbn in Hs. apply mcp_owner_pending. intros a d2 u H2 I2 Hu. apply mcp_take; [intros; apply mcp_fail|].
  intros d3 y H3 I3 Hy. cbn zeta. assert (log n (trail d3) = []) as Hn3 by (rewrite (log_stays _ _ _ H3), (log_stays _ _ _ H2); by eapply unlogged_later).
  assert (any d1 d3) as R3 by (etransitivity; by eapply mcp_any). pose proof (guar_take_code n d3 _ _ Hn3 Hy) as G3. split; [exact G3|].
  set (d4 := note _ (set_codes _ d3)) in *. assert (log n (trail d4) = [CodeTaken n (hash code)]) as Hn4 by (by apply log_cons).
  assert (any d1 d4) as R4 by by eapply mcp_next.
  apply mcp_require; intros _. rewrite Hu. cbn [default option_map from_option]. apply mcp_alone. intros d5 row d6 H5 I5 (-> & Htk & ->)%connect_ok. cbn [fst snd].
  assert (any d1 d5) as R5 by (etransitivity; [exact R4|by eapply mcp_any]).
  assert (log n (trail d5) = [CodeTaken n (hash code)]) as Hn5 by by rewrite (log_stays _ _ _ H5).
  pose proof (guar_connect n d5 (hash code) (e_id e) p u v (clock e 1) Hn5 (code_ok_any _ _ _ _ R5 Hap) Hu Hs Htk) as G5. split; [exact G5|].
  set (d7 := note _ (set_key _ _ d5)) in *. set (ev := Connected _ _ _ _ _ _ _ _) in *.
  assert (log n (trail d7) = [ev; CodeTaken n (hash code)]) as Hn7 by (by apply log_cons).
  set (g := Grant _ _ _ _ _ _ _ _). assert (grant_of (e_id e) p g) as Hg by (by split_and!).
  apply mcp_write. intros d8 H8 I8. cbn [fst snd]. assert (log n (trail d8) = [ev; CodeTaken n (hash code)]) as Hn8 by by rewrite (log_stays _ _ _ H8).
  pose proof (guar_grant n d8 (e_id e) g _ p v _ _ Hn8 Hg) as G8. split; [exact G8|]. set (d9 := note _ (set_grants _ d8)) in *.
  assert (log n (trail d9) = [Granted n (e_id e) g; ev; CodeTaken n (hash code)]) as Hn9 by (by apply log_cons).
  unfold record_audit. apply mcp_write. intros d10 H10 I10. cbn [fst snd]. set (d11 := match g_organizationId g with Some o => _ | None => _ end).
  assert (trail d11 = trail d10 ∧ guar n d10 d11) as [E11 G11].
  { unfold d11. destruct (g_organizationId g) as [o|]; [|split; [done|apply mcp_idle]]. destruct (_ && _); [|split; [done|apply mcp_idle]].
    split; [done|]. by apply guar_less. }
  split; [exact G11|]. clearbody d11. unfold refreshFor.
  assert (log n (trail d11) = [Granted n (e_id e) g; ev; CodeTaken n (hash code)]) as Hn11 by (rewrite E11, (log_stays _ _ _ H10); done).
  assert (∀ x, x ∈ [Granted n (e_id e) g; ev; CodeTaken n (hash code)] → x ∈ trail d11) as Hin by (intros x Hx'; by eapply log_in).
  eapply mcp_and_then; [apply (own_refreshFor n g n)|].
  - rewrite Hn11. by apply none_cons; split; [|apply none_cons; split; [|apply none_one]].
  - apply Hin. left.
  - intros t d12 H12 I12 [-> Hsv]. apply mcp_ok. intros d13 H13 _. exists code, v, (e_id e), p, (clock e 1). split_and!; [done..| |done|].
    + eapply mcp_in; [etransitivity; [exact H12|by eapply mcp_any]|]. apply Hin. right. left.
    + exists g. split; [|done]. eapply mcp_in; [by eapply mcp_any|exact Hsv].
Qed.

(** ** Connections in use *)

(** What [grantForKey] finds of a key read before. *)
Record lives (e : env) id k g d : Prop := {
  lv_granted : ∃ m, Granted m id g ∈ trail d;
  lv_alive : k_active k = true ∧ k_revokedAt k = None;
  lv_user : k_user k = g_userId g;
  lv_id : g_keyId g = id;
  lv_time : clock e 0 < g_expiresAt g
}.
Lemma lives_any e id k g d d' : any d d' → lives e id k g d → lives e id k g d'.
Proof. intros H [(m & Hm) ? ? ? ?]. split; [|done..]. exists m. by eapply mcp_in. Qed.
Lemma own_grant n e id k d es : log n (trail d) = es →
  own n (grantForKey origin e (Some (id, k))) d (told (λ x d, x.1 = (id, k) ∧ log n (trail d) = es ∧ lives e id k x.2 d)).
Proof.
  intros Hn. unfold grantForKey. apply mcp_lookup. intros d1 H1 I1. destruct (grants d1 !! id) as [g|] eqn:Eg; [|apply mcp_fail].
  destruct (inv_grant d1 I1 _ _ Eg) as (m & Hm). apply mcp_require; intros Hc. rewrite !andb_true_iff in Hc.
  destruct Hc as [[[[[Ha Hr%bool_decide_eq_true] Hu%bool_decide_eq_true] Hi%bool_decide_eq_true] _] Ht%Z.ltb_lt].
  apply mcp_require; intros _. unfold owner_of. apply mcp_owner. intros a d2 H2 I2 _. apply mcp_ok. intros d3 H3 _. split; [done|]. split.
  - cbn. by rewrite (log_stays _ _ _ H3), (log_stays _ _ _ H2), (log_stays _ _ _ H1).
  - split; [|done..]. exists m. eapply mcp_in; [|exact Hm]. etransitivity; by eapply mcp_any.
Qed.

(** The row was in use at some time after [d0]. *)
Definition alive_since d0 id : Prop := ∃ d1 k, any d0 d1 ∧ keys d1 !! id = Some k ∧ ¬ dead k.
Definition rotated (n : nat) (token : string) d0 (t : tokens) d : Prop := ∃ id g m at_,
  Granted m id g ∈ trail d ∧ Rotated n (hash token) id (hash (t_access t)) at_ (Z.min (g_expiresAt g) (at_ + ACCESS_SECONDS * 1000)) ∈ trail d ∧
  t_scopes t = g_scopes g ∧ Saved n (hash (t_refresh t)) g ∈ trail d ∧ alive_since d0 id.
Lemma rotate_ok n e rh id k g tok d c d' :
  run_alone (rotate hash n e rh id k g tok) d = (Ok c, d') →
  c = 0%nat ∧ d' = d ∨
  c = 1%nat ∧ ∃ x, keys d !! id = Some x ∧ find_key (hash tok) d = None ∧
    let t := Z.min (g_expiresAt g) (clock e 1 + ACCESS_SECONDS * 1000) in
    d' = note (Rotated n rh id (hash tok) (clock e 1) t)
           (set_key id (Key (k_name x) (hash tok) (k_user x) (k_scopes x) (k_active x) (k_revokedAt x) (Some t) (k_lastUsedAt x)) d).
Proof.
  unfold rotate, owner_of. intros H. apply run_reads in H as (a & _ & H); [|apply reading_owner]. rewrite run_read in H. destruct (keys d !! id) as [y|] eqn:Ey; [|done].
  apply run_require in H as [_ H]. cbn zeta in H. rewrite run_statement in H. destruct (find_by_id id _ (keys d)) as [x|] eqn:Ex; [|left; by injection H as <- <-].
  apply find_by_id_Some in Ex as [Hx _]. case_bool_decide as Hf; [done|]. injection H as <- <-. right. split; [done|]. exists x. change (keys d !! id = Some x) in Hx. split_and!; [congruence|by apply eq_None_not_Some|done].
Qed.
Lemma own_reused n e c t d (F : tokens → db → Prop) : own n (reused hash e c t) d (told F).
Proof.
  unfold reused. apply mcp_lookup. intros d1 H1 I1. destruct (useds d1 !! hash t) as [w|].
  - case_bool_decide.
    + apply mcp_write. intros d2 H2 I2. cbn [fst snd]. split; [|apply mcp_fail]. destruct (keys d2 !! w_keyId w) as [x|] eqn:Ex; [|apply mcp_idle].
      eapply guar_key; [exact Ex|split_and!; [done..|by intros _; left]|done].
    + apply (mcp_require n true InvalidGrant). intros _. apply mcp_fail.
  - apply (mcp_require n true InvalidGrant). intros _. apply mcp_fail.
Qed.
Lemma own_refresh n e c token sc h d : unlogged n d →
  own n (exchangeRefreshToken hash random origin n e c token sc h) d (told (rotated n token d)).
Proof.
  intros Hn. unfold exchangeRefreshToken, checkResource. apply mcp_require; intros _. apply mcp_require; intros _. apply mcp_lookup. intros d1 H1 I1.
  destruct (refreshes d1 !! hash token) as [data|]; [|apply own_reused]. apply mcp_require; intros _. apply mcp_lookup. intros d2 H2 I2.
  unfold key_row. destruct (keys d2 !! g_keyId data) as [k|] eqn:Ek; [|apply (mcp_fail n InvalidGrant)].
  assert (log n (trail d2) = []) as Hn2 by (rewrite (log_stays _ _ _ H2); by eapply unlogged_later).
  eapply mcp_and_then; [by apply own_grant|]. intros [[id k'] g] d3 H3 I3 ([= -> ->] & Hn3 & Hlv). cbn [snd] in Hlv. set (id := g_keyId data) in *.
  assert (alive_since d id) as Hal.
  { exists d2, k. split_and!; [etransitivity; by eapply mcp_any|done|]. destruct Hlv as [_ [Ha Hr] _ _ _]. intros [E|[x E]]; congruence. }
  apply mcp_take; [intros; apply mcp_fail|]. intros d4 y H4 I4 Hy. cbn zeta. assert (log n (trail d4) = []) as Hn4 by by rewrite (log_stays _ _ _ H4).
  pose proof (guar_take_refresh n d4 _ _ Hn4 Hy) as G4. split; [exact G4|]. set (d5 := note _ (set_refreshes _ d4)) in *.
  assert (log n (trail d5) = [RefreshTaken n (hash token)]) as Hn5 by by apply log_cons.
  pose proof (lives_any _ _ _ _ _ _ (mcp_next _ _ _ _ (mcp_any _ _ _ H4) G4) Hlv) as Hlv5. fold d5 in Hlv5.
  apply mcp_require; intros _. apply mcp_write. intros d6 H6 I6. cbn [fst snd].
  assert (guar n d6 (set_useds (<[hash token:=Used id (g_clientId g)]> (useds d6)) d6)) as G6 by by apply guar_less. split; [exact G6|].
  set (d7 := set_useds _ d6) in *. assert (log n (trail d7) = [RefreshTaken n (hash token)]) as Hn7 by (change (trail d7) with (trail d6); by rewrite (log_stays _ _ _ H6)).
  pose proof (lives_any _ _ _ _ _ _ (mcp_next _ _ _ _ (mcp_any _ _ _ H6) G6) Hlv5) as Hlv7. fold d7 in Hlv7.
  apply mcp_alone. intros d8 c8 d9 H8 I8 [(-> & ->)|(-> & x & Hx & Hf & ->)]%rotate_ok; [split; [apply mcp_idle|apply mcp_fail]|]. cbn zeta in *.
  assert (log n (trail d8) = [RefreshTaken n (hash token)]) as Hn8 by by rewrite (log_stays _ _ _ H8).
  pose proof (lives_any _ _ _ _ _ _ (mcp_any _ _ _ H8) Hlv7) as [(m & Hm) _ _ Hid _].
  pose proof (guar_rotate n d8 (hash token) id x g (clock e 1) m Hn8 Hm Hx Hf) as G8. split; [exact G8|].
  set (ev := Rotated _ _ _ _ _ _) in *. set (d10 := note ev _) in *.
  assert (log n (trail d10) = [ev; RefreshTaken n (hash token)]) as Hn10 by by apply log_cons.
  apply mcp_require; intros _. eapply mcp_and_then; [apply (own_refreshFor n g m)|].
  - rewrite Hn10. by apply none_cons; split; [|apply none_one].
  - rewrite Hid. by right.
  - intros t d11 H11 I11 [-> Hsv]. apply mcp_ok. intros d12 H12 _. assert (any d10 d12) as R by (etransitivity; [exact H11|by eapply mcp_any]).
    exists id, g, m, (clock e 1). split_and!; [|eapply mcp_in; [exact R|left]|done| |done].
    + eapply mcp_in; [exact R|by right].
    + eapply mcp_in; [by eapply mcp_any|exact Hsv].
Qed.

(** ** Tokens presented *)

Definition issued id (h : string) (t : Z) l : Prop := ∃ e, e ∈ l ∧ issue id e = Some (h, t).
Lemma last_issued id l x : last_issue id l = Some x → issued id x.1 x.2 l.
Proof.
  unfold last_issue. intros H%head_Some_elem_of. apply list_elem_of_omap in H as (e & He & Hi). exists e. by destruct x.
Qed.
Lemma issued_token l e id h t : trail_ok l → e ∈ l → issue id e = Some (h, t) → h = access_token (by_request e).
Proof.
  intros Hl He Hi. destruct (trail_at _ _ _ Hl He) as (l1 & l2 & _ & Hj). destruct e; try done; cbn in Hi, Hj |- *; case_bool_decide; simplify_eq; apply Hj.
Qed.
Lemma connected_from l n ch id p v ah at_ t : trail_ok l → Connected n ch id p v ah at_ t ∈ l → ∃ m u o th p0,
  Approved m u ch p ∈ l ∧ Offered o th p0 ∈ l ∧ same_request p0 p ∧ (∀ s, s ∈ p_scopes p → s ∈ p_scopes p0) ∧ hash (s256 v) = hash (p_codeChallenge p).
Proof.
  intros Hl He. destruct (trail_at _ _ _ Hl He) as (l1 & l2 & E & _ & _ & _ & _ & (m & u & Hm) & Hv & _).
  assert (Approved m u ch p ∈ l) as Hm' by (rewrite E, elem_of_app, elem_of_cons; auto).
  destruct (trail_at _ _ _ Hl Hm') as (l3 & l4 & E' & _ & _ & _ & o & th & p0 & Ho & Hs & Hsub). exists m, u, o, th, p0. split_and!; try done.
  rewrite E', elem_of_app, elem_of_cons. auto.
Qed.

(** What a verified token stands for. *)
Definition accepted (e : env) (token : string) (v : verified) d : Prop := ∃ n ch p ver at_ m o th p0 t,
  Offered o th p0 ∈ trail d ∧ Approved m (v_user v) ch p ∈ trail d ∧
  Connected n ch (v_key v) p ver (access_token n) at_ (at_ + ACCESS_SECONDS * 1000) ∈ trail d ∧
  same_request p0 p ∧ (∀ s, s ∈ p_scopes p → s ∈ p_scopes p0) ∧ hash (s256 ver) = hash (p_codeChallenge p0) ∧
  grant_of (v_key v) p (v_grant v) ∧ v_scopes v = p_scopes p ∧ p_userId p = Some (v_user v) ∧ v_client v = p_clientId p ∧
  account_allows (in_organization (v_account v)) (p_organizationId p) (p_sessionVersion p) (p_scopes p) (v_account v) = true ∧
  issued (v_key v) (hash token) t (trail d) ∧ clock e 1 < t ∧ clock e 0 < g_expiresAt (v_grant v).
Lemma issued_any id h t d d' : any d d' → issued id h t (trail d) → issued id h t (trail d').
Proof. intros H (e & He & Hi). exists e. split; [|done]. by eapply mcp_in. Qed.
Lemma accepted_any e token v d d' : any d d' → accepted e token v d → accepted e token v d'.
Proof.
  intros H (n & ch & p & ver & at_ & m & o & th & p0 & t & H1 & H2 & H3 & H4 & H5 & H6 & H7 & H8 & H9 & Ha & Hb & Hi & Hc).
  exists n, ch, p, ver, at_, m, o, th, p0, t. pose proof (λ e, mcp_in e _ _ H) as Hin.
  pose proof (issued_any _ _ _ _ _ H Hi). repeat (split; [by first [exact (Hin _ H1)|exact (Hin _ H2)|exact (Hin _ H3)|assumption]|]). exact Hc.
Qed.
Lemma own_verify n e token d : own n (verifyAccessToken hash origin e token) d (told (λ v d', accepted e token v d' ∧ alive_since d (v_key v))).
Proof.
  unfold verifyAccessToken. apply mcp_require; intros _. apply mcp_lookup. intros d1 H1 I1.
  destruct (find_key (hash token) d1) as [[id k]|] eqn:Ek; [|apply (mcp_fail n InvalidGrant)]. apply find_key_Some in Ek as [Hk Hh].
  eapply mcp_and_then; [by apply own_grant|]. intros [[id' k'] g] d2 H2 I2 ([= -> ->] & _ & [(m & Hm) [Ha Hr] Hu Hid Ht]). cbn [snd] in *.
  destruct (k_expiresAt k) as [t|] eqn:Et; [|apply mcp_fail]. apply mcp_require; intros Hlt%Z.ltb_lt. unfold owner_of. apply mcp_owner.
  intros a d3 H3 I3 Hacc. apply mcp_ok. intros d4 H4 I4. assert (any d2 d4) as R by (etransitivity; by eapply mcp_any).
  destruct (granted_from _ _ _ _ (inv_trail d2 I2) Hm) as (ch & p & ver & at_ & t0 & Hc & Hg). pose proof Hg as (_ & G2 & G3 & G4 & G5 & G6 & _).
  destruct (trail_at _ _ _ (inv_trail d2 I2) Hc) as (l1 & l2 & _ & _ & _ & _ & _ & _ & _ & ->).
  destruct (connected_from _ _ _ _ _ _ _ _ _ (inv_trail d2 I2) Hc) as (q & w & o & th & p0 & Hq & Ho & Hs & Hsub & Hv).
  destruct (inv_key d1 I1 _ _ Hk) as [(n0 & k0 & a0 & Hcr & _)|(n0 & ch0 & p1 & v0 & ah0 & a0 & t1 & _ & _ & _ & t' & Hl & Ht')].
  { apply (mcp_in _ _ _ H2) in Hcr. pose proof (made_once _ id _ _ (inv_trail d2 I2) Hc Hcr) as E. cbn in E. rewrite !bool_decide_refl in E. by specialize (E eq_refl eq_refl). }
  assert (t' = t) as -> by congruence. apply last_issued in Hl. cbn in Hl. rewrite Hh in Hl.
  assert (w = g_userId g) as ->.
  { destruct (trail_at _ _ _ (inv_trail d2 I2) Hq) as (l3 & l4 & _ & _ & _ & Hw & _). congruence. }
  split; [|exists d1, k; split_and!; [by eapply mcp_any|done|]; intros [E|[y E]]; congruence].
  exists m, ch, p, ver, at_, q, o, th, p0, t. cbn. rewrite G3, G4, G6 in Hacc.
  assert (hash (p_codeChallenge p) = hash (p_codeChallenge p0)) as Ech by (destruct Hs as (_ & _ & -> & _); done).
  split; [by apply (mcp_in _ _ _ R)|]. split; [by apply (mcp_in _ _ _ R)|]. split; [by apply (mcp_in _ _ _ R)|]. split; [exact Hs|]. split; [exact Hsub|].
  split; [by rewrite <-Ech|]. split; [exact Hg|]. split; [exact G6|]. split; [exact G2|]. split; [exact G5|]. split; [exact Hacc|].
  split; [apply (issued_any _ _ _ d1); [by etransitivity|done]|]. split; [exact Hlt|exact Ht].
Qed.

(** ** API keys *)

Definition row_dead id d : Prop := ∃ k, keys d !! id = Some k ∧ dead k.
Lemma row_dead_any id d d' : any d d' → row_dead id d → row_dead id d'.
Proof. intros H (k & Hk & Hd). destruct (mcp_key _ _ _ _ H Hk) as (k' & Hk' & _ & _ & M). exists k'. auto. Qed.
(** A row that is dead was not in use since. *)
Lemma row_dead_since id d : row_dead id d → ¬ alive_since d id.
Proof. intros Hd (d1 & k & H & Hk & Ha). destruct (row_dead_any _ _ _ H Hd) as (k' & Hk' & Hd'). apply Ha. congruence. Qed.

Definition audited (e : env) (action : string) (org : option string) (user entity : string) d : db :=
  match org with
  | Some o => if e_audit e && negb (bool_decide (o = "")) then add_audit (Audit_ action o user entity) d else d
  | None => d
  end.
Lemma guar_audited n e action org user entity d : guar n d (audited e action org user entity d).
Proof. unfold audited. destruct org as [o|]; [|apply mcp_idle]. destruct (_ && _); [by apply guar_less|apply mcp_idle]. Qed.
Lemma mcp_audit {A} n e action org user entity (k : unit → act A) d (F : A → db → Prop) :
  (∀ d1, any d d1 → inv d1 → own n (k tt) d1 (told F)) → own n (and_then (record_audit e action org user entity) k) d (told F).
Proof.
  intros H. unfold record_audit. apply mcp_write. intros d1 H1 I1. cbn [fst snd]. pose proof (guar_audited n e action org user entity d1) as G. split; [exact G|].
  apply H; [eapply mcp_next; [by eapply mcp_any|exact G]|by eapply g_inv].
Qed.
Lemma mcp_audit_last n e action org user entity d (F : unit → db → Prop) :
  (∀ d1, any d d1 → inv d1 → F tt d1) → own n (record_audit e action org user entity) d (told F).
Proof.
  intros H d1 H1 I1. pose proof (guar_audited n e action org user entity d1) as G. split; [exact G|]. apply mcp_ok. intros d2 H2 I2. apply H; [|done].
  etransitivity; [eapply mcp_next; [by eapply mcp_any|exact G]|by eapply mcp_any].
Qed.

(** The key a member made. *)
Definition made (n : nat) (u : session) (scopes : list string) (c : created) d : Prop := ∃ k at_,
  Created n (c_id c) k at_ ∈ trail d ∧ c_key c = generateApiKey random_hex n ∧ k_user k = u_id u ∧ k_scopes k = c_scopes c ∧ k_expiresAt k = Some (c_expiresAt c) ∧
  ∀ s, s ∈ c_scopes c ↔ s ∈ scopes.
Lemma elem_of_granted s (l : list string) : s ∈ granted_scopes l ↔ s ∈ l.
Proof. unfold granted_scopes. rewrite isort_perm. apply elem_of_remove_dups. Qed.
Lemma own_create n e u name scopes x d : unlogged n d → own n (createKey hash random_hex n e u name scopes x) d (told (made n u scopes)).
Proof.
  intros Hn. unfold createKey. apply mcp_require; intros Hb. destruct (resolveApiKeyExpiry x (clock e 0)) as [t|] eqn:Ex; [|apply (mcp_fail n (Reply 400))]. cbn zeta.
  apply mcp_lookup. intros d1 H1 I1. apply mcp_require; intros _.
  assert (∀ s, s ∈ granted_scopes scopes → s ∈ API_KEY_SCOPES) as Hsc.
  { intros s Hs. rewrite elem_of_granted in Hs. unfold body_ok in Hb. rewrite !andb_true_iff, forallb_forall in Hb. destruct Hb as [[[_ Hb] _] _].
    specialize (Hb s). rewrite <-list_elem_of_In in Hb. apply Hb in Hs. by apply bool_decide_eq_true in Hs. }
  apply owned_statement. intros d2 H2 I2. destruct (key_taken d2 _ _) eqn:Et; [split; [apply mcp_idle|apply mcp_fail]|]. cbn [fst snd].
  set (row := Key _ _ _ _ _ _ _ _) in *. split.
  - apply guar_create; try done; [|by exists t; split; [|eapply expiry_bounds]]. rewrite (log_stays _ _ _ H2). by eapply unlogged_later.
  - apply mcp_audit. intros d3 H3 _. apply mcp_ok. intros d4 H4 _. exists row, (clock e 0). split_and!; try done; [|intros s; apply elem_of_granted].
    eapply mcp_in; [etransitivity; [exact H3|by eapply mcp_any]|left].
Qed.
Lemma own_delete n e u id d : own n (deleteKey e u id) d (told (λ _, row_dead id)).
Proof.
  unfold deleteKey. apply mcp_lookup. intros d1 H1 I1. destruct (keys d1 !! id) as [k|] eqn:Ek; [|apply mcp_fail]. apply mcp_require; intros _.
  apply owned_statement. intros d2 H2 I2. destruct (keys d2 !! id) as [y|] eqn:Ey; [|split; [apply mcp_idle|apply mcp_fail]]. cbn [fst snd]. split.
  - eapply guar_key; [exact Ey|split_and!; [done..|by left]|done].
  - apply mcp_audit_last. intros d3 H3 _. eapply row_dead_any; [exact H3|]. eexists. split; [by apply lookup_insert_eq|by left].
Qed.
Lemma own_list n u d : own n (listKeys u) d (told (λ _ _, True)).
Proof. unfold listKeys. apply mcp_lookup. intros d1 H1 I1. by apply mcp_ok. Qed.
Lemma own_challenge n c code d : own n (challengeForAuthorizationCode hash c code) d (told (λ _ _, True)).
Proof.
  unfold challengeForAuthorizationCode. apply mcp_stored. intros d1 H1 I1 x _. destruct x; [|apply mcp_fail]. apply mcp_require; intros _. by apply mcp_ok.
Qed.
Lemma own_revoke_found n e c k d : own n (revoke_found e c k) d (told (λ _ _, True)).
Proof.
  destruct k as [[id k]|]; [|by apply mcp_ok]. apply mcp_lookup. intros d1 H1 I1. destruct (grants d1 !! id) as [g|]; [|by apply mcp_ok].
  destruct (negb _); [by apply mcp_ok|]. apply mcp_write. intros d2 H2 I2. cbn [fst snd]. split; [|by apply mcp_audit_last].
  destruct (find_by_id id k_active (keys d2)) as [y|] eqn:Ey; [|apply mcp_idle]. apply find_by_id_Some in Ey as [Ey _].
  eapply guar_key; [exact Ey|split_and!; [done..|by left]|done].
Qed.
Lemma own_revoke n e c t d : own n (revokeToken hash e c t) d (told (λ _ _, True)).
Proof.
  unfold revokeToken. destruct (negb _); [by apply mcp_ok|]. apply mcp_lookup. intros d1 H1 I1.
  eapply (mcp_and_then n _ _ _ (λ _ _, True)).
  - destruct (match refreshes d1 !! _ with Some g => _ | None => _ end); [by apply mcp_ok|]. intros d2 H2 I2. split; [apply mcp_idle|]. by apply mcp_ok.
  - intros [id|] d2 _ _ _; apply mcp_lookup; intros; apply own_revoke_found.
Qed.

(** Whom a key lets in: its owner, as it is now, with the key's scopes. *)
Definition keyed (e : env) (h a : option string) (pr : principal) d : Prop := ∃ n k at_ t,
  presented h a = Some (generateApiKey random_hex n) ∧ Created n (pr_key pr) k at_ ∈ trail d ∧ pr_user pr = k_user k ∧ pr_scopes pr = k_scopes k ∧
  (∀ s, s ∈ pr_scopes pr → s ∈ API_KEY_SCOPES) ∧ k_expiresAt k = Some t ∧ clock e 0 ≤ t ≤ at_ + API_KEY_MAX_EXPIRY_DAYS * DAY_MS ∧
  SecondFactor.m_active (MfaEnforcement.a_user (pr_account pr)) = true.
Definition keyed_since d0 (pr : principal) : Prop := ∃ d1 k,
  any d0 d1 ∧ keys d1 !! pr_key pr = Some k ∧ ¬ dead k ∧ users d1 !! pr_user pr = Some (pr_account pr).
Lemma keyed_alive d0 pr : keyed_since d0 pr → alive_since d0 (pr_key pr).
Proof. intros (d1 & k & ? & ? & ? & _). by exists d1, k. Qed.
Lemma keyed_any e h a pr d d' : any d d' → keyed e h a pr d → keyed e h a pr d'.
Proof. intros H (n & k & at_ & t & H1 & H2 & H3). exists n, k, at_, t. split; [done|]. split; [by eapply mcp_in|done]. Qed.
Lemma key_prefix (x : string) : Guard.startsWith (MCP_OAUTH_PREFIX +:+ x) "ashbi_mcp_" = true.
Proof. unfold Guard.startsWith, MCP_OAUTH_PREFIX. cbn. by destruct x. Qed.
Lemma own_authenticate n e h a d : own n (authenticateApiKey hash e h a) d (told (λ pr d', keyed e h a pr d' ∧ keyed_since d pr)).
Proof.
  unfold authenticateApiKey. destruct (presented h a) as [raw|] eqn:Eraw; [|apply (mcp_fail n (Reply 401))].
  apply mcp_require; intros [_ Hmcp]%andb_true_iff. apply mcp_lookup. intros d1 H1 I1.
  destruct (find_key (hash raw) d1) as [[id k]|] eqn:Ek; [|apply (mcp_fail n (Reply 401))]. apply find_key_Some in Ek as [Hk Hh].
  apply mcp_require; intros [Hact Hrev%bool_decide_eq_true]%andb_true_iff. apply mcp_require; intros Hexp.
  destruct (users d1 !! k_user k) as [x|] eqn:Eu; [|apply (mcp_fail n (Reply 401))]. apply mcp_require; intros Hx.
  apply mcp_write. intros d2 H2 I2. cbn [fst snd]. split.
  { destruct (keys d2 !! id) as [y|] eqn:Ey; [|apply mcp_idle]. eapply guar_key; [exact Ey|done|done]. }
  apply mcp_ok. intros d3 H3 I3. split.
  - destruct (inv_key d1 I1 _ _ Hk) as [(m & k0 & at_ & Hcr & S1 & S2 & S3 & S4)|(m & ch & p & v & ah & at_ & t & _ & _ & _ & t' & Hl & _)].
    + destruct (trail_at _ _ _ (inv_trail d1 I1) Hcr) as (l1 & l2 & _ & _ & _ & Hh0 & Hsc & t & Ht & Hlt).
      assert (raw = generateApiKey random_hex m) as -> by (apply hash_inj; congruence).
      exists m, k0, at_, t. rewrite S4, Ht in Hexp. apply Z.leb_le in Hexp. cbn. split_and!; try done; [|by rewrite S3|lia].
      eapply mcp_in; [|exact Hcr]. etransitivity; [by eapply mcp_any|]. etransitivity; [|by eapply mcp_any]. apply rtc_once. exists n.
      destruct (keys d2 !! id) as [y|] eqn:Ey; [|apply mcp_idle]. eapply guar_key; [exact Ey|done|done].
    + destruct (last_issued _ _ _ Hl) as (ev & Hev & Hi). pose proof (issued_token _ _ _ _ _ (inv_trail d1 I1) Hev Hi) as E. cbn in E.
      assert (raw = MCP_OAUTH_PREFIX +:+ random (by_request ev) 0) as -> by (apply hash_inj; rewrite <-Hh, E; done). by rewrite key_prefix in Hmcp.
  - exists d1, k. cbn. split_and!; [by eapply mcp_any|done| |done]. intros [E|[y E]]; congruence.
Qed.

(** ** The surroundings *)

Lemma retain_subseteq {A} drop (m : gmap string A) : retain drop m ⊆ m.
Proof. apply map_filter_subseteq. Qed.
Lemma guar_forget n p c g r w d : guar n d (forget p c g r w d).
Proof. apply guar_less; try done; apply retain_subseteq. Qed.
Lemma guar_revoke_all n u t d : guar n d (revoke_all u t d).
Proof.
  apply guar_keys; try done; cbn; intros id k.
  - intros Hk. eexists. split; [rewrite map_lookup_imap, Hk; done|]. destruct (_ && _); [|done]. split; [|done]. split_and!; [done..|]. intros _. by left.
  - rewrite map_lookup_imap. destruct (keys d !! id); [by eexists|done].
Qed.

(** ** All requests *)

Definition replies (n : nat) (i : input) d0 (r : result thrown answer) d : Prop :=
  match i, r with
  | ExchangeCode _ _ code v _ _, Ok (Tokened t) => connected n (Some code) v t d
  | ExchangeRefresh _ _ token _ _, Ok (Tokened t) => rotated n token d0 t d
  | Verify e token, Ok (Accepted v) => accepted e token v d ∧ alive_since d0 (v_key v)
  | CreateKey _ u _ scopes _, Ok (Made c) => made n u scopes c d
  | DeleteKey _ _ id, Ok Noted => row_dead id d
  | Authenticate e h a, Ok (Authenticated pr) => keyed e h a pr d ∧ keyed_since d0 pr
  | _, _ => True
  end.
Lemma replies_err n i d0 e d : replies n i d0 (Err e) d.
Proof. by destruct i. Qed.
Lemma mcp_answer {A} n i (f : A → answer) (p : act A) d (F : A → db → Prop) :
  own n p d (told F) → (∀ x d1 d2, any d1 d2 → F x d1 → replies n i d (Ok (f x)) d2) → own n (map_answer f p) d (replies n i d).
Proof.
  intros Hp HG. unfold map_answer. eapply owned_and_then; [exact Hp| | |]; [|intros; apply replies_err..]. intros x d1 _ _ Hx.
  intros d2 H2 _. eapply HG; [by eapply mcp_any|exact Hx].
Qed.
Lemma mcp_own_handle n i d : unlogged n d → own n (handle n i) d (replies n i d).
Proof.
  intros Hn. destruct i as [e c q|e t u|e t o u b s|c code|e c code v r h|e c t s h|e t|e c t|e u name s x|e u id|u|e h a|z|u t|p c g r w]; cbn [handle];
    try (eapply (mcp_answer n _ _ _ d (λ _ _, True)); [|done]).
  - by apply own_authorize.
  - by apply own_preview.
  - by apply own_consent.
  - by apply own_challenge.
  - eapply mcp_answer; [by apply own_exchange|]. intros t d1 d2 R (c' & v' & id & p & at_ & E1 & E2 & Hc & Hs & g & Hsv & Hg).
    exists c', v', id, p, at_. split; [done|]. split; [done|]. split; [by eapply mcp_in|]. split; [done|]. exists g. split; [by eapply mcp_in|done].
  - eapply mcp_answer; [by apply own_refresh|]. intros t' d1 d2 R (id & g & m & at_ & Hg & Hr & Hs & Hsv & Ha).
    exists id, g, m, at_. split; [by eapply mcp_in|]. split; [by eapply mcp_in|]. split; [done|]. split; [by eapply mcp_in|done].
  - eapply mcp_answer; [by apply own_verify|]. intros v d1 d2 R [Hv Ha]. split; [by eapply accepted_any|done].
  - by apply own_revoke.
  - eapply mcp_answer; [by apply own_create|]. intros c d1 d2 R (k & at_ & Hc & Hrest). exists k, at_. split; [by eapply mcp_in|done].
  - eapply mcp_answer; [by apply own_delete|]. intros [] d1 d2 R. by apply row_dead_any.
  - by apply own_list.
  - eapply mcp_answer; [by apply own_authenticate|]. intros pr d1 d2 R [Hk Ha]. split; [by eapply keyed_any|done].
  - intros d1 H1 I1. split; [by apply guar_less|]. by apply owned_ok.
  - intros d1 H1 I1. split; [apply guar_revoke_all|]. by apply owned_ok.
  - intros d1 H1 I1. split; [apply guar_forget|]. by apply owned_ok.
Qed.

(** ** The system *)

(** Nothing has been asked yet; accounts may exist. *)
Definition fresh d : Prop := keys d = ∅ ∧ pendings d = ∅ ∧ codes d = ∅ ∧ grants d = ∅ ∧ refreshes d = ∅ ∧ trail d = [].
Lemma fresh_inv d : fresh d → inv d.
Proof.
  intros (H1 & H2 & H3 & H4 & H5 & H6). split; rewrite ?H1, ?H2, ?H3, ?H4, ?H5, ?H6; try done. by intros id e ?%not_elem_of_nil.
Qed.
Lemma unlogged_kept m n d d' : m ≠ n → guar m d d' → unlogged n d → unlogged n d'.
Proof. unfold unlogged. intros Hm H. by rewrite (log_others m n d d'). Qed.
Definition mcp_sound := fresh_sound inv guar unlogged (λ n i a d, ∃ d0, replies n i d0 a d).
Lemma mcp_handle_ok n i d : inv d → unlogged n d → own n (handle n i) d (λ a d', ∃ d0, replies n i d0 a d').
Proof. intros _ H. eapply owned_mono; [by apply mcp_own_handle|]. intros a d' _ _ Ha. by exists d. Qed.
Lemma mcp_reachable d s : fresh d → rtc (step handle) (initial d) s → mcp_sound s ∧ any d (data s).
Proof.
  intros Hd H. assert (mcp_sound (initial d)) as H0.
  { apply fresh_initial; [by apply fresh_inv|]. intros n. unfold unlogged. destruct Hd as (_ & _ & _ & _ & _ & ->). done. }
  exact (fresh_run inv guar unlogged handle (λ n d d' HI HG, g_inv n d d' HG HI) unlogged_kept _ _ _ mcp_handle_ok H H0).
Qed.
Lemma mcp_answered s n i a : mcp_sound s → (n, i, Done a) ∈ requests s → ∃ d0, replies n i d0 a (data s).
Proof.
  intros [[HI _ _ Hall] _] Hin. rewrite Forall_forall in Hall. exact (Hall _ Hin (data s) (rtc_refl _ _) HI).
Qed.
End new.
End theory.
End McpOAuthLog.
