(* ===== verification/McpRequests.v ===== *)
(** * What MCP connections and API keys are good for

    The theorems on the system of McpOAuthLog.v, from a database where nothing
    has been asked yet, and the runs that show what they leave open. *)

From stdpp Require Import pretty.
From S2P Require Import Prelude Store Async Steps Trails TenantTables Tenancy TenantGuard Mfa MfaEnforcement ToolActions ApiKeys McpOAuth McpOAuthLog.
Import Trails.Trails Tenancy.Tenancy(mem) Steps.Steps ApiKeys.ApiKeys McpOAuth.McpOAuth McpOAuthLog.McpOAuthLog.

Module McpRequests.

Section system.
(** SHA-256 in hexadecimal and in base64url, random draws, the deployment's
    origin.  No two inputs hash alike and no two draws agree. *)
Context (hash s256 : string → string) (random : nat → nat → string) (random_hex : nat → string) (origin : string).
Context (hash_inj : Inj (=) (=) hash) (random_inj : ∀ n k n' k', random n k = random n' k' → n = n' ∧ k = k').
Abbreviation handle := (handle hash s256 random random_hex origin).
Abbreviation inv := (inv hash s256 random random_hex origin).
Abbreviation guar := (guar hash s256 random random_hex origin).
Abbreviation justified := (justified hash s256 random random_hex origin).
Abbreviation mcp_sound := (mcp_sound hash s256 random random_hex origin).
Implicit Types (d : db) (s : system (D := db) (Input := input) (Answer := result thrown answer)).

Lemma reached d s : fresh d → rtc (step handle) (initial d) s → mcp_sound s.
Proof. intros Hd H. by destruct (mcp_reachable hash s256 random random_hex origin hash_inj random_inj d s Hd H). Qed.
Lemma answered d s n i a : fresh d → rtc (step handle) (initial d) s → (n, i, Done a) ∈ requests s →
  ∃ d0, replies hash s256 random random_hex origin n i d0 a (data s).
Proof. intros Hd H. apply mcp_answered. by eapply reached. Qed.

(** C7 (safety): A bearer token of an MCP connection is accepted only for what an
    authorization request offered and a member of the agency consented to: the
    accepted account is the one that consented, still active, with the same
    organization and session generation and allowed those scopes; the scopes are
    among those asked for, the client is the one that asked, the code was
    exchanged with the verifier of the request's challenge, and the token was
    issued for that connection and has not expired. *)
Theorem mcp_tokens_authorized d s n e token v :
  fresh d → rtc (step handle) (initial d) s → (n, Verify e token, Done (Ok (Accepted v))) ∈ requests s →
  accepted hash s256 random origin e token v (data s).
Proof. intros Hd H Hin. by destruct (answered _ _ _ _ _ Hd H Hin) as (d0 & Ha & _). Qed.

(** ** Each grant once *)

Lemma connects_justified ch e l : justified e l → connects ch e = true → none (connects ch) l.
Proof. destruct e; cbn; try done. intros Hj ->%bool_decide_eq_true. apply Hj. Qed.
Lemma rotates_justified rh e l : justified e l → rotates rh e = true → none (rotates rh) l.
Proof. destruct e; cbn; try done. intros Hj ->%bool_decide_eq_true. apply Hj. Qed.

(** C23 (invariant): Whatever requests interleave and whatever Redis drops, an
    authorization code makes at most one connection and a refresh token is
    exchanged at most once; the key row of a connection accepts exactly the token
    issued last, until that token expires, and no two rows accept the same token. *)
Theorem mcp_grants_single_use d s :
  fresh d → rtc (step handle) (initial d) s →
  (∀ ch, (length (List.filter (connects ch) (trail (data s))) ≤ 1)%nat) ∧
  (∀ rh, (length (List.filter (rotates rh) (trail (data s))) ≤ 1)%nat) ∧
  (∀ id k n ch p v ah at_ t, keys (data s) !! id = Some k → Connected n ch id p v ah at_ t ∈ trail (data s) →
     ∃ t', last_issue id (trail (data s)) = Some (k_hash k, t') ∧ k_expiresAt k = Some t' ∧ p_userId p = Some (k_user k) ∧ k_scopes k = p_scopes p) ∧
  unique_hashes (keys (data s)).
Proof.
  intros Hd H. destruct (reached _ _ Hd H) as [[HI _ _ _] _]. pose proof (inv_trail _ _ _ _ _ _ HI) as Ht. split_and!.
  - intros ch. eapply at_most_one; [apply connects_justified|exact Ht].
  - intros rh. eapply at_most_one; [apply rotates_justified|exact Ht].
  - intros id k n ch p v ah at_ t Hk Hc. assert (∀ e, e ∈ trail (data s) → makes id e = true → Connected n ch id p v ah at_ t = e) as Hone.
    { intros e He Hm. eapply made_once; [exact Ht|exact Hc|exact He|apply bool_decide_refl|exact Hm]. }
    destruct (inv_key _ _ _ _ _ _ HI _ _ Hk) as [(m & k0 & a0 & Hcr & _)|(m & c0 & q & w & ah0 & a0 & t0 & Hc0 & Hu & Hs & t' & Hl & Hx)].
    + pose proof (Hone _ Hcr (bool_decide_refl _)) as E. discriminate E.
    + pose proof (Hone _ Hc0 (bool_decide_refl _)) as [= <- <- <- <- <- <- <-]. by exists t'.
  - apply HI.
Qed.

(** ** Revocation *)

(** The row [id] lets nobody in: not by its key, nor its token, nor a refresh. *)
Definition shut (id : string) (n : nat) (i : input) (a : result thrown answer) d : Prop :=
  match i, a with
  | Verify _ _, Ok (Accepted v) => v_key v ≠ id
  | Authenticate _ _ _, Ok (Authenticated pr) => pr_key pr ≠ id
  | ExchangeRefresh _ _ token _ _, Ok (Tokened t) => ∃ id' at_ x, id' ≠ id ∧ Rotated n (hash token) id' (hash (t_access t)) at_ x ∈ trail d
  | _, _ => True
  end.
Lemma replies_shut id n i d0 a d :
  row_dead id d0 → replies hash s256 random random_hex origin n i d0 a d → shut id n i a d.
Proof.
  intros Hd. pose proof (row_dead_since hash s256 random random_hex origin id d0 Hd) as Hno.
  destruct i; try done; destruct a as [[]|]; try done; cbn.
  - intros (id' & g & m & at_ & _ & Hr & _ & _ & Ha). exists id', at_, (Z.min (g_expiresAt g) (at_ + ACCESS_SECONDS * 1000)). split; [|exact Hr]. by intros ->.
  - intros [_ Ha] <-. done.
  - intros [_ Ha%keyed_alive] <-. done.
Qed.
Lemma row_dead_step id n d d' : inv d → row_dead id d → guar n d d' → row_dead id d'.
Proof. intros _ Hd HG. eapply row_dead_any; [|exact Hd]. apply rtc_once. by exists n. Qed.

(** C24 (safety): Revocation is final.  Once a member's request to revoke a key was
    answered its row is dead; and once a row is dead, by that or any other
    revocation, no request that arrives later is let in by it, nor gets a new
    token for it, whatever else is under way. *)
Theorem mcp_revocation_final d s s' id :
  fresh d → rtc (step handle) (initial d) s → rtc (step handle) s s' →
  (∀ m e u, (m, DeleteKey e u id, Done (Ok Noted)) ∈ requests s → row_dead id (data s)) ∧
  (row_dead id (data s) → ∀ n i a, (next s ≤ n)%nat → (n, i, Done a) ∈ requests s' → shut id n i a (data s')).
Proof.
  intros Hd H H'. split.
  - intros m e u Hin. destruct (answered _ _ _ _ _ Hd H Hin) as (d0 & Ha). exact Ha.
  - intros Hdead n i a Hn Hin.
    eapply (fresh_after inv guar (unlogged) handle (λ n d d' HI HG, g_inv _ _ _ _ _ n d d' HG HI) (unlogged_kept _ _ _ _ _) _ s s' (row_dead id) (shut id));
      [apply mcp_handle_ok; [exact hash_inj|exact random_inj]|by eapply reached|exact H'|exact Hdead|apply row_dead_step| |exact Hn|exact Hin].
    intros m j d1 _ _ Hd1 Hf. eapply (owned_weaken inv guar (λ d, inv d ∧ row_dead id d)); [by intros ? []| |by apply mcp_own_handle].
    intros x d2. by apply replies_shut.
Qed.

(** An API key lets in only its owner, an active account, with the
    scopes the owner chose among the four there are, until it expires, at most 365
    days after it was made, and only if the whole secret is presented;
    access tokens of MCP connections, kept in the same table, are not API keys. *)
Lemma api_keys_confined d s n e h a pr :
  fresh d → rtc (step handle) (initial d) s → (n, Authenticate e h a, Done (Ok (Authenticated pr))) ∈ requests s →
  keyed random_hex e h a pr (data s).
Proof. intros Hd H Hin. by destruct (answered _ _ _ _ _ Hd H Hin) as (d0 & Ha & _). Qed.
End system.

(** ** Runs *)

Definition demo_random (n k : nat) : string := pretty (encode (n, k)).
Lemma demo_random_inj n k n' k' : demo_random n k = demo_random n' k' → n = n' ∧ k = k'.
Proof. unfold demo_random. intros E%(inj pretty)%(inj encode). by injection E. Qed.
Lemma demo_hash_inj : Inj (=) (=) (λ x : string, x).
Proof. exact (λ x y E, E). Qed.
Definition demo_handle := handle (λ x, x) (λ x, x) demo_random pretty "https://hub".
Definition demo_user : account := MfaEnforcement.Account (SecondFactor.User "ADMIN" (Some "org") true "" 1 SecondFactor.no_mfa) false.
Definition demo_db : db := Db {["u" := demo_user]} ∅ ∅ ∅ ∅ ∅ ∅ [] [].
Definition demo_env (id : string) (at_ : Z) : env := Env (λ k, at_ + Z.of_nat k) id true false.
Definition demo_session : session := Session "u" (Some "org").
Definition run_first (i : input) : list (action (Input := input)) := Arrive i :: replicate 20 (Async.Run 0).
Definition demo_challenge : string := "abcdefghijklmnopqrstuvwxyz-ABCDEFGHIJKLMNOP".
Definition demo_request : params := Params CHATGPT_REDIRECT demo_challenge (Some "st") (Some ["workspace:read"]) (Some "https://hub/api/mcp").
Definition demo_authorize : input := Authorize (demo_env "" 1000) CHATGPT_CLIENT_ID demo_request.
Definition demo_exchange (id : string) (n : nat) : input :=
  ExchangeCode (demo_env id 5000) CHATGPT_CLIENT_ID (demo_random n 0) (Some demo_challenge) (Some CHATGPT_REDIRECT) (Some "https://hub/api/mcp").
Definition demo_create (id : string) : input := CreateKey (demo_env id 6000) demo_session " build " ["workspace:read"; "workspace:read"] (Days 30).
Definition demo_token (n : nat) : string := MCP_OAUTH_PREFIX +:+ demo_random n 0.
Definition demo_verify (n : nat) : input := Verify (demo_env "" 7000) (demo_token n).
Definition demo_enter (n : nat) : input := Authenticate (demo_env "" 8000) None (Some ("Bearer " +:+ generateApiKey pretty n)).
(** A client connects and refreshes; a member makes a key, uses it and revokes it. *)
Definition demo_schedule : list (action (Input := input)) :=
  run_first demo_authorize ++ run_first (Preview (demo_env "" 2000) (demo_random 0 0) demo_session) ++
  run_first (Consent (demo_env "" 3000) (demo_random 0 0) (demo_random 1 0) demo_session true (Some ["workspace:read"])) ++
  run_first (demo_exchange "k1" 2) ++ run_first (demo_create "k2") ++ run_first (demo_verify 3) ++ run_first (demo_enter 4) ++
  run_first (ExchangeRefresh (demo_env "" 9000) CHATGPT_CLIENT_ID (demo_random 3 1) None (Some "https://hub/api/mcp")) ++
  run_first (demo_verify 7) ++ run_first (DeleteKey (demo_env "" 9500) demo_session "k2").
Definition demo_more : list (action (Input := input)) := run_first (demo_enter 4) ++ run_first (demo_verify 3) ++ run_first (demo_verify 7).
Definition demo_mid := perform demo_handle demo_schedule (initial demo_db).
Definition demo_sys := perform demo_handle demo_more demo_mid.

Lemma mcp_demo_fresh : fresh demo_db.
Proof. by split_and!. Qed.
Lemma demo_reached_mid : rtc (step demo_handle) (initial demo_db) demo_mid.
Proof. exact (perform_steps demo_handle demo_schedule (initial demo_db)). Qed.
Lemma mcp_demo_reached : rtc (step demo_handle) (initial demo_db) demo_sys.
Proof. transitivity demo_mid; [exact demo_reached_mid|exact (perform_steps demo_handle demo_more demo_mid)]. Qed.
(** What each request was told: a key, a secret, or the refusal. *)
Definition outcome (a : result thrown answer) : string :=
  match a with
  | Ok (Accepted v) => v_key v
  | Ok (Authenticated p) => pr_key p
  | Ok (Tokened t) => t_access t
  | Ok (Made c) => c_key c
  | Ok (Redirected (ToConsent t)) => t
  | Ok (Redirected (ToClient _ _ _ (Some c))) => c
  | Ok (Previewed v) => cv_nonce v
  | Ok _ => "done"
  | Err InvalidGrant => "invalid grant"
  | Err (Reply n) => pretty n
  | Err _ => "refused"
  end.
Example mcp_demo_outcomes :
  reverse ((λ a, outcome a.2) <$> Async.answers demo_sys) =
    [demo_random 0 0; demo_random 1 0; demo_random 2 0; demo_token 3; generateApiKey pretty 4; "k1"; "k2"; demo_token 7; "k1"; "done";
     "401"; "invalid grant"; "k1"].
Proof. vm_compute. reflexivity. Qed.

Lemma mcp_tokens_authorized_witness :
  ∃ v, (12%nat, demo_verify 7, Done (Ok (Accepted v))) ∈ requests demo_sys ∧
    accepted (λ x, x) (λ x, x) demo_random "https://hub" (demo_env "" 7000) (demo_token 7) v (data demo_sys).
Proof.
  assert (∃ v, (12%nat, demo_verify 7, Done (Ok (Accepted v))) ∈ requests demo_sys) as (v & Hv).
  { eexists. apply (list_elem_of_lookup_2 _ 0). vm_compute. reflexivity. }
  exists v. split; [exact Hv|].
  exact (mcp_tokens_authorized (λ x, x) (λ x, x) demo_random pretty "https://hub" demo_hash_inj demo_random_inj demo_db demo_sys 12 _ _ v mcp_demo_fresh mcp_demo_reached Hv).
Defined.
Lemma mcp_grants_single_use_witness :
  length (List.filter (connects (demo_random 2 0)) (trail (data demo_sys))) = 1%nat ∧
  length (List.filter (rotates (demo_random 3 1)) (trail (data demo_sys))) = 1%nat ∧
  (∀ ch, (length (List.filter (connects ch) (trail (data demo_sys))) ≤ 1)%nat) ∧ unique_hashes (keys (data demo_sys)).
Proof.
  split; [vm_compute; reflexivity|]. split; [vm_compute; reflexivity|].
  destruct (mcp_grants_single_use (λ x, x) (λ x, x) demo_random pretty "https://hub" demo_hash_inj demo_random_inj demo_db demo_sys mcp_demo_fresh mcp_demo_reached)
    as (H1 & _ & _ & H4). split; [exact H1|exact H4].
Defined.
Lemma mcp_revocation_final_witness :
  row_dead "k2" (data demo_mid) ∧
  ∃ v, (12%nat, demo_verify 7, Done (Ok (Accepted v))) ∈ requests demo_sys ∧ v_key v ≠ "k2".
Proof.
  destruct (mcp_revocation_final (λ x, x) (λ x, x) demo_random pretty "https://hub" demo_hash_inj demo_random_inj demo_db demo_mid demo_sys "k2"
              mcp_demo_fresh demo_reached_mid (perform_steps demo_handle demo_more demo_mid)) as (H1 & H2).
  assert (row_dead "k2" (data demo_mid)) as Hd.
  { apply (H1 9%nat (demo_env "" 9500) demo_session). apply (list_elem_of_lookup_2 _ 0). vm_compute. reflexivity. }
  split; [exact Hd|]. assert (∃ v, (12%nat, demo_verify 7, Done (Ok (Accepted v))) ∈ requests demo_sys) as (v & Hv).
  { eexists. apply (list_elem_of_lookup_2 _ 0). vm_compute. reflexivity. }
  exists v. split; [exact Hv|]. refine (H2 Hd 12%nat (demo_verify 7) (Ok (Accepted v)) _ Hv). vm_compute. lia.
Defined.
Lemma api_keys_confined_witness :
  ∃ pr, (6%nat, demo_enter 4, Done (Ok (Authenticated pr))) ∈ requests demo_sys ∧
    keyed pretty (demo_env "" 8000) None (Some ("Bearer " +:+ generateApiKey pretty 4)) pr (data demo_sys).
Proof.
  assert (∃ pr, (6%nat, demo_enter 4, Done (Ok (Authenticated pr))) ∈ requests demo_sys) as (pr & Hp).
  { eexists. apply (list_elem_of_lookup_2 _ 6). vm_compute. reflexivity. }
  exists pr. split; [exact Hp|].
  exact (api_keys_confined (λ x, x) (λ x, x) demo_random pretty "https://hub" demo_hash_inj demo_random_inj demo_db demo_sys 6 _ _ _ pr mcp_demo_fresh mcp_demo_reached Hp).
Defined.

(** ** What interleaving leaves open *)

(** A preview under way when its request is consented to in another tab stores
    the request again: one authorization request makes two connections. *)
Definition twice_schedule : list (action (Input := input)) :=
  run_first demo_authorize ++ run_first (Preview (demo_env "" 2000) (demo_random 0 0) demo_session) ++
  [Arrive (Preview (demo_env "" 2100) (demo_random 0 0) demo_session); Async.Run 0; Async.Run 0; Async.Run 0] ++
  run_first (Consent (demo_env "" 3000) (demo_random 0 0) (demo_random 1 0) demo_session true None) ++ replicate 5 (Async.Run 1) ++
  run_first (Consent (demo_env "" 3100) (demo_random 0 0) (demo_random 2 0) demo_session true None) ++
  run_first (demo_exchange "k1" 3) ++ run_first (demo_exchange "k2" 4).
Lemma consent_twice : let s := perform demo_handle twice_schedule (initial demo_db) in
  reverse ((λ a, outcome a.2) <$> Async.answers s) =
    [demo_random 0 0; demo_random 1 0; demo_random 2 0; demo_random 3 0; demo_random 4 0; demo_token 5; demo_token 6] ∧
  length (List.filter (λ e, match e with Offered _ _ _ => true | _ => false end) (trail (data s))) = 1%nat ∧ active_keys "u" (data s) = 2%nat.
Proof. vm_compute. split_and!; reflexivity. Qed.
(** Two keys made at once pass the count of the other: six are active. *)
Definition six_schedule : list (action (Input := input)) :=
  mjoin ((λ id, run_first (demo_create id)) <$> ["a"; "b"; "c"; "d"]) ++
  [Arrive (demo_create "e"); Async.Run 0; Arrive (demo_create "f"); Async.Run 0] ++ replicate 5 (Async.Run 0) ++ replicate 5 (Async.Run 1).
Lemma six_keys : active_keys "u" (data (perform demo_handle six_schedule (initial demo_db))) = S MAX_ACTIVE_KEYS.
Proof. vm_compute. reflexivity. Qed.
End McpRequests.
