(* ===== verification/Inbound.v ===== *)
(** * Inbound email

    services/pipeline.service.js, services/inbound-delivery-key.js and
    services/assignment.service.js: an email becomes a thread (or waits
    unmatched), is analysed, assigned, its project replanned and an answer
    drafted; a delivery that is processed again resumes where it was.  The AI's
    answers are inputs ([None]: the provider failed).  Functions are cut at their
    awaits; a [$transaction] is one step. *)

From S2P Require Import Prelude Store Async Steps Tenancy AuditLog Json JsNumber.
Import Steps.Steps.

Module Inbound.

(** ** Delivery keys *)

Section keys.
(** SHA-256 in hexadecimal. *)
Context (sha256 : string → string).

(* src/src/services/inbound-delivery-key.js:12-12 MAX_INBOUND_DELIVERY_KEY_LENGTH *)
Definition MAX_INBOUND_DELIVERY_KEY_LENGTH : nat := 200.
(** [None] is no string. *)
(* src/src/services/inbound-delivery-key.js:17-22 normalizeInboundDeliveryKey *)
Definition normalizeInboundDeliveryKey (value : option string) : option string :=
  match value with
  | None => None
  | Some v =>
      let key := Audit.trim v in
      if bool_decide (key = "") then None
      else if (MAX_INBOUND_DELIVERY_KEY_LENGTH <? String.length key)%nat then Some ("sha256:" +:+ sha256 key) else Some key
  end.
(** Values have no [undefined] in them: they come from a form or from JSON. *)
(* src/src/services/inbound-delivery-key.js:26-35 stableStringify *)
Definition stableStringify (value : Json.json) : string := Json.canonicalJson value.
Definition field (name : string) (body : list (string * Json.json)) : option Json.json := snd <$> List.find (λ kv, bool_decide (kv.1 = name)) body.
Definition signature_block : list string := ["timestamp"; "token"; "signature"].
Definition unsigned (body : list (string * Json.json)) : list (string * Json.json) := List.filter (λ kv, negb (bool_decide (kv.1 ∈ signature_block))) body.
(** [a ?? b]: only [null] and [undefined] pass over. *)
Definition message_id (body : list (string * Json.json)) : string :=
  let raw := match field "Message-Id" body with Some Json.JNull | None => field "message-id" body | x => x end in
  match raw with Some (Json.JStr s) => Audit.trim s | _ => "" end.
(* src/src/services/inbound-delivery-key.js:41-50 mailgunInboundDeliveryKey *)
Definition mailgunInboundDeliveryKey (body : list (string * Json.json)) : option string :=
  let messageId := message_id body in
  if bool_decide (messageId = "") then Some ("mailgun-sha256:" +:+ sha256 (stableStringify (Json.JObj (unsigned body))))
  else normalizeInboundDeliveryKey (Some ("mailgun:" +:+ messageId)).
(** A job's own id is the fallback; an id of digits only is no key. *)
Definition digits (s : string) : bool := negb (bool_decide (s = "")) && forallb (λ c, (48 <=? Ascii.nat_of_ascii c)%nat && (Ascii.nat_of_ascii c <=? 57)%nat) (String.list_ascii_of_string s).
(* src/src/jobs/queue.js:203-214 hydrateEmailJobData *)
Definition hydrateEmailJobData (dataKey jobId : option string) : option string :=
  match normalizeInboundDeliveryKey dataKey with
  | Some k => Some k
  | None => normalizeInboundDeliveryKey (match jobId with Some j => if digits j then None else Some j | None => None end)
  end.
End keys.

(** ** State *)

Inductive stage := CREATED | ANALYZED | ASSIGNED | REPLANNED | COMPLETED.
#[export] Instance stage_dec : EqDecision stage.
Proof. solve_decision. Defined.
(* src/src/services/pipeline.service.js:22-22 PIPELINE_STAGES *)
Definition rank (s : stage) : nat := match s with CREATED => 0 | ANALYZED => 1 | ASSIGNED => 2 | REPLANNED => 3 | COMPLETED => 4 end.
(** The AI's analysis of a message, as far as it is read. *)
Record analysis := Analysis { an_intent : option string; an_urgency : option string; an_text : string }.
(* src/prisma/schema.prisma:542-572 Thread *)
Record thread := Thread {
  t_subject : string; t_status : string; t_priority : string; t_triage : bool; t_client : option string; t_project : option string;
  t_assignee : option string; t_key : option string; t_stage : option stage; t_analysis : option analysis; t_message : option string
}.
Record suggestion := Suggestion { sg_id : string; sg_confidence : option Z }.
(* src/prisma/schema.prisma:709-727 UnmatchedEmail *)
Record unmatched := Unmatched { u_org : string; u_key : option string; u_client : option suggestion; u_project : option string }.
Record user := User { a_org : string; a_role : string; a_active : bool; a_capacity : Z; a_skills : list string }.
Record client := Client { c_org : string; c_name : string; c_status : string }.
Record contact := Contact { k_client : string; k_email : string }.
Record project := Project { j_org : string; j_owner : option string }.
Record rule := Rule { ru_org : string; ru_type : string; ru_active : bool; ru_conditions : string; ru_assign : option string }.
(** What a thread's project got, and its drafted answers. *)
Record task := Task { tk_project : string; tk_title : string }.
Record response := Response { rs_thread : string; rs_by : option string; rs_ai : bool }.

(** What happened, newest first (ghost). *)
Inductive event :=
  | Asked (org : string) (clients : list (string * client)) (contacts : list contact)   (** what the provider was sent *)
  | Stored (id : string) (key : option string)
  | Kept (id : string) (key : option string)
  | Notified (id user : string)
  | Planned (id : string)
  | Drafted (id : string).
(** The process's cache of clients and contacts. *)
Record cache := Cache { ca_expiresAt : Z; ca_clients : list (string * client); ca_contacts : list contact }.
Record db := Db {
  users : gmap string user; clients : gmap string client; contacts : list contact; projects : gmap string project; rules : gmap string rule;
  threads : gmap string thread; unmatcheds : gmap string unmatched;
  notifications : list (string * string); tasks : list task; responses : list response; cached : option cache; trail : list event
}.
Definition set_threads (m : gmap string thread) (d : db) : db :=
  Db (users d) (clients d) (contacts d) (projects d) (rules d) m (unmatcheds d) (notifications d) (tasks d) (responses d) (cached d) (trail d).
Definition set_unmatcheds (m : gmap string unmatched) (d : db) : db :=
  Db (users d) (clients d) (contacts d) (projects d) (rules d) (threads d) m (notifications d) (tasks d) (responses d) (cached d) (trail d).
Definition add_notification (user id : string) (d : db) : db :=
  Db (users d) (clients d) (contacts d) (projects d) (rules d) (threads d) (unmatcheds d) ((user, id) :: notifications d) (tasks d) (responses d) (cached d) (trail d).
Definition add_tasks (l : list task) (d : db) : db :=
  Db (users d) (clients d) (contacts d) (projects d) (rules d) (threads d) (unmatcheds d) (notifications d) (tasks d ++ l) (responses d) (cached d) (trail d).
Definition add_response (r : response) (d : db) : db :=
  Db (users d) (clients d) (contacts d) (projects d) (rules d) (threads d) (unmatcheds d) (notifications d) (tasks d) (r :: responses d) (cached d) (trail d).
Definition set_cache (c : cache) (d : db) : db :=
  Db (users d) (clients d) (contacts d) (projects d) (rules d) (threads d) (unmatcheds d) (notifications d) (tasks d) (responses d) (Some c) (trail d).
Definition note (e : event) (d : db) : db :=
  Db (users d) (clients d) (contacts d) (projects d) (rules d) (threads d) (unmatcheds d) (notifications d) (tasks d) (responses d) (cached d) (e :: trail d).

(** The scoped client sees a thread, a project or a user through its organization. *)
Definition client_in (org : string) (d : db) (id : string) : bool := match clients d !! id with Some c => bool_decide (c_org c = org) | None => false end.
Definition sees (org : string) (d : db) (t : thread) : bool := match t_client t with Some c => client_in org d c | None => false end.
Definition project_in (org : string) (d : db) (id : string) : bool := match projects d !! id with Some p => bool_decide (j_org p = org) | None => false end.
Definition visible_thread (org id : string) (d : db) : option thread := match threads d !! id with Some t => if sees org d t then Some t else None | None => None end.

(** The code's own error, an error of the database, a refusal of the scoped client. *)
Inductive thrown := StageAlreadyCommitted | PrismaError (code : string) | Refused | NoMessage | NotFound.
#[export] Instance thrown_inbound_dec : EqDecision thrown.
Proof. solve_decision. Defined.
Abbreviation act := (steps db thrown).

(** What the AI says about an email: whose it is, or that it is spam. *)
Record matching := Matching { mt_client : option suggestion; mt_project : option string; mt_spam : bool }.
Record email := Email { m_subject : string; m_body : string; m_key : option string }.
(** One request: its organization, the ids of new rows, the thresholds (a
    confidence is only compared), the clock and the AI's answers: the tasks of a
    plan, the options of a draft. *)
Record env := Env {
  e_org : string; e_id : string; e_suggest : Z; e_auto : Z; clock : nat → Z; e_parsed : option matching; e_analyzed : option analysis;
  e_planned : option (list string); e_drafted : option (list string)
}.

(** ** Assignment *)

(** Open threads of a user, and how many fit. *)
Definition load (id : string) (d : db) : Z :=
  Z.of_nat (tcount (λ _ t, bool_decide (t_assignee t = Some id) && negb (bool_decide (t_status t = "RESOLVED"))) (threads d)).
Definition maxThreads (capacity : Z) : Js.num := Js.floor (Js.mul (Js.div (Js.of_Z capacity) (Js.of_Z 100)) (Js.of_Z 10)).
Definition fits (id : string) (u : user) (d : db) : bool := Js.ltb (Js.of_Z (load id d)) (maxThreads (a_capacity u)).
Record assignment := Assignment { as_user : option string; as_rule : string }.
Definition in_org (org : string) (u : user) : bool := bool_decide (a_org u = org).

(* src/src/services/assignment.service.js:122-126 getAdmin *)
Definition getAdmin (org : string) : act (option string) :=
  read (λ d, option_map fst (head (tselect (λ _ u, in_org org u && bool_decide (a_role u = "ADMIN") && a_active u) (users d)))).
(* src/src/services/assignment.service.js:131-148 hasCapacity *)
Definition hasCapacity (org id : string) : act bool :=
  read (λ d, match users d !! id with Some u => in_org org u && fits id u d | None => false end).
Definition active_user (org id : string) : act (option string) :=
  read (λ d, match users d !! id with Some u => if in_org org u && a_active u then Some id else None | None => None end).
Definition least (l : list (string * user * Z)) : option string := (λ x, x.1.1) <$> head (isort (λ a b, a.2 <=? b.2) l).
Definition loaded (d : db) (l : list (string * user)) : list (string * user * Z) := (λ x, (x, load x.1 d)) <$> l.
Definition room (d : db) (x : string * user * Z) : bool := Js.ltb (Js.of_Z x.2) (maxThreads (a_capacity x.1.2)).
Definition skillMap (intent : string) : list string :=
  if bool_decide (intent = "bug_report") then ["development"; "technical"; "debugging"]
  else if bool_decide (intent = "feature_request") then ["development"; "product"]
  else if bool_decide (intent = "question") then ["support"; "general"]
  else if bool_decide (intent = "approval_request") then ["admin"; "management"]
  else if bool_decide (intent = "feedback") then ["design"; "product"]
  else if bool_decide (intent = "status_update") then ["project_management"]
  else if bool_decide (intent = "urgent_issue") then ["admin"; "development"]
  else if bool_decide (intent = "general") then ["support"; "general"]
  else ["general"].
Definition includes (s sub : string) : bool := bool_decide (is_Some (String.index 0 sub s)).
Definition skilled (intent : string) (u : user) : bool :=
  existsb (λ skill, existsb (λ us, includes (Tenancy.toLowerCase us) (Tenancy.toLowerCase skill)) (a_skills u)) (skillMap intent).
(* src/src/services/assignment.service.js:153-199 findBySkill *)
Definition findBySkill (org intent : string) : act (option string) :=
  read (λ d, least (List.filter (λ x, skilled intent x.1.2 && room d x)
                      (loaded d (tselect (λ _ u, in_org org u && a_active u && bool_decide (a_role u = "TEAM")) (users d))))).
(* src/src/services/assignment.service.js:204-228 findLeastLoaded *)
Definition findLeastLoaded (org : string) : act (option string) :=
  read (λ d, least (List.filter (room d) (loaded d (tselect (λ _ u, in_org org u && a_active u) (users d))))).
Definition truthy (s : option string) : option string := match s with Some (String _ _) => s | _ => None end.
(** A user that may be given more work. *)
Definition candidate (org : string) (id : option string) : act (option string) :=
  match truthy id with
  | None => ok None
  | Some id =>
      u ←! active_user org id;
      match u with
      | None => ok None
      | Some id => free ←! hasCapacity org id; ok (if free then Some id else None)
      end
  end.
(** The next rule, when this one finds nobody. *)
Definition otherwise (found : option string) (r : string) (next : act assignment) : act assignment :=
  match found with Some u => ok (Assignment (Some u) r) | None => next end.
(* src/src/services/assignment.service.js:16-17 assignThread (priority) *)
Definition priority_of (t : thread) : string :=
  default (default "NORMAL" (truthy (Some (t_priority t)))) (match t_analysis t with Some a => truthy (an_urgency a) | None => None end).
(* src/src/services/assignment.service.js:15-117 assignThread *)
Definition assignThread (org : string) (t : thread) : act assignment :=
  let intent := default "general" (match t_analysis t with Some a => truthy (an_intent a) | None => None end) in
  admin ←! (if bool_decide (priority_of t = "CRITICAL") then getAdmin org else ok None);
  otherwise admin "CRITICAL_ESCALATION" (
  owner ←! match truthy (t_project t) with
           | None => ok None
           | Some p => o ←! read (λ d, match projects d !! p with Some p => if bool_decide (j_org p = org) then j_owner p else None | None => None end);
                       candidate org o
           end;
  otherwise owner "PROJECT_OWNER" (
  routed ←! match truthy (t_client t) with
            | None => ok None
            | Some c => r ←! read (λ d, head (tselect (λ _ r, bool_decide (ru_org r = org) && bool_decide (ru_type r = "CLIENT") && ru_active r &&
                                                                includes (ru_conditions r) c) (rules d)));
                        candidate org (match r with Some (_, r) => ru_assign r | None => None end)
            end;
  otherwise routed "CLIENT_RULE" (
  skill ←! findBySkill org intent;
  otherwise skill "SKILL_MATCH" (
  idle ←! findLeastLoaded org;
  otherwise idle "LOAD_BALANCE" (
  admin ←! getAdmin org;
  otherwise admin "ESCALATION" (ok (Assignment None "NONE"))))))).

(** ** Stages *)

(* src/src/services/pipeline.service.js:29-31 stageReached *)
Definition reached (s : option stage) : nat := rank (default CREATED s).
Definition stageReached (t : thread) (s : stage) : bool := (rank s <=? reached (t_stage t))%nat.
Definition staged (s : stage) (t : thread) : thread :=
  Thread (t_subject t) (t_status t) (t_priority t) (t_triage t) (t_client t) (t_project t) (t_assignee t) (t_key t) (Some s) (t_analysis t) (t_message t).
(** The conditional update: from the stage before. *)
(* src/src/services/pipeline.service.js:37-47 advanceStage *)
Definition advanceStage (org id : string) (s : stage) (f : thread → thread) : act bool :=
  write (λ d, match visible_thread org id d with
              | Some t => if (S (reached (t_stage t)) =? rank s)%nat then (true, set_threads (<[id := staged s (f t)]> (threads d)) d) else (false, d)
              | None => (false, d)
              end).
(* src/src/services/pipeline.service.js:59-63 commitStage *)
Definition commitStage (org id : string) (s : stage) : act unit :=
  done ←! advanceStage org id s (λ t, t); require done StageAlreadyCommitted.

(** ** Records *)

Definition thread_with (key : string) (org : string) (d : db) : option (string * thread) :=
  head (tselect (λ _ t, bool_decide (t_key t = Some key) && sees org d t) (threads d)).
Definition unmatched_with (key org : string) (d : db) : option (string * unmatched) :=
  head (tselect (λ _ u, bool_decide (u_key u = Some key) && bool_decide (u_org u = org)) (unmatcheds d)).
(* src/src/services/pipeline.service.js:76-78 findThreadByDeliveryKey *)
Definition findThreadByDeliveryKey (org key : string) : act (option (string * thread)) := read (thread_with key org).
(* src/src/services/pipeline.service.js:80-82 findUnmatchedByDeliveryKey *)
Definition findUnmatchedByDeliveryKey (org key : string) : act (option (string * unmatched)) := read (unmatched_with key org).

(** What a delivery became. *)
Inductive found := InThread (id : string) (t : thread) | InUnmatched (id : string) (u : unmatched).
(** The unique indexes on keys, over every organization. *)
Definition key_used (key : option string) (d : db) : bool :=
  match key with Some k => bool_decide (tselect (λ _ t, bool_decide (t_key t = Some k)) (threads d) ≠ []) | None => false end.
Definition key_kept (key : option string) (d : db) : bool :=
  match key with Some k => bool_decide (tselect (λ _ u, bool_decide (u_key u = Some k)) (unmatcheds d) ≠ []) | None => false end.
(** Links are checked by the scoped client. *)
Definition links_ok (org : string) (t : thread) (d : db) : bool :=
  sees org d t && match t_project t with Some p => project_in org d p | None => true end.
Definition create_thread (org id : string) (t : thread) : act found :=
  statement (λ d, if negb (links_ok org t d) then (Err Refused, d)
                  else if bool_decide (is_Some (threads d !! id)) || key_used (t_key t) d then (Err (PrismaError "P2002"), d)
                  else (Ok (InThread id t), note (Stored id (t_key t)) (set_threads (<[id := t]> (threads d)) d))).
Definition create_unmatched (id : string) (u : unmatched) : act found :=
  statement (λ d, if bool_decide (is_Some (unmatcheds d !! id)) || key_kept (u_key u) d then (Err (PrismaError "P2002"), d)
                  else (Ok (InUnmatched id u), note (Kept id (u_key u)) (set_unmatcheds (<[id := u]> (unmatcheds d)) d))).
(** The record of a delivery, if there is one, as the thread or the email it is. *)
Definition lookup_delivery (org key : string) (next : act found) : act found :=
  t ←! findThreadByDeliveryKey org key;
  match t with
  | Some (id, t) => ok (InThread id t)
  | None =>
      u ←! findUnmatchedByDeliveryKey org key;
      match u with Some (id, u) => ok (InUnmatched id u) | None => next end
  end.
(** The transaction holds the advisory lock of the key: it is one step for
    every run of the same delivery. *)
(* src/src/services/pipeline.service.js:108-129 createForDelivery *)
Definition createForDelivery (org : string) (key : option string) (create : act found) : act found :=
  match key with
  | None => create
  | Some key =>
      catch (atomically (lookup_delivery org key create))
        (λ err, if bool_decide (err = PrismaError "P2002") then lookup_delivery org key (fail err) else fail err)
  end.

(** ** The steps *)

(* src/src/services/pipeline.service.js:388-414 analyzeMessage *)
Definition analyzeMessage (e : env) : analysis := default (Analysis (Some "general") (Some "NORMAL") "") (e_analyzed e).
(** [analysis.urgency] undefined leaves the column alone. *)
Definition analysed (a : analysis) (t : thread) : thread :=
  Thread (t_subject t) (t_status t) (default (t_priority t) (an_urgency a)) (t_triage t) (t_client t) (t_project t) (t_assignee t) (t_key t) (t_stage t) (Some a) (t_message t).
Definition assigned (u : option string) (t : thread) : thread :=
  Thread (t_subject t) (t_status t) (t_priority t) (t_triage t) (t_client t) (t_project t) (match truthy u with Some u => Some u | None => t_assignee t end) (t_key t) (t_stage t) (t_analysis t) (t_message t).
(* src/src/services/pipeline.service.js:320-323 storedAnalysis *)
Definition storedAnalysis (org id : string) : act (option analysis) := read (λ d, match visible_thread org id d with Some t => t_analysis t | None => None end).
(* src/src/services/pipeline.service.js:229-246 continueThreadPipeline (analyse) *)
Definition analyse_step (e : env) (id : string) (t : thread) : act analysis :=
  if negb (stageReached t ANALYZED) then
    let a := analyzeMessage e in
    analyzed ←! advanceStage (e_org e) id ANALYZED (analysed a);
    if (analyzed : bool) then ok a else s ←! storedAnalysis (e_org e) id; ok (default a s)
  else match t_analysis t with Some a => ok a | None => ok (analyzeMessage e) end.
(* src/src/services/pipeline.service.js:248-280 continueThreadPipeline (assign) *)
Definition assign_step (e : env) (id : string) (t : thread) : act assignment :=
  mine ←! (if stageReached t ASSIGNED then ok None
           else
             proposed ←! assignThread (e_org e) t;
             committed ←! atomically (
               advanced ←! advanceStage (e_org e) id ASSIGNED (assigned (as_user proposed));
               if negb advanced then ok false
               else _ ←! match truthy (as_user proposed) with
                         | Some u => write (λ d, (tt, note (Notified id u) (add_notification u id d)))
                         | None => ok tt
                         end;
                    ok true);
             ok (if (committed : bool) then Some proposed else None));
  match mine with
  | Some a => ok a
  | None => current ←! read (visible_thread (e_org e) id); ok (Assignment (match current with Some t => truthy (t_assignee t) | None => None end) "RESUMED")
  end.
(* src/src/services/pipeline.service.js:419-484 replanProject *)
Definition replanProject (e : env) (projectId : string) (id : string) (onCommit : act unit) : act unit :=
  p ←! read (λ d, project_in (e_org e) d projectId);
  if negb p then ok tt
  else match e_planned e with
       | None => ok tt
       | Some items =>
           catch (atomically (
             _ ←! statement (λ d, if project_in (e_org e) d projectId then (Ok tt, d) else (Err (PrismaError "P2025"), d));
             _ ←! write (λ d, (tt, note (Planned id) (add_tasks (Task projectId <$> items) d)));
             onCommit)) (λ _, ok tt)
       end.
(* src/src/services/pipeline.service.js:489-528 draftResponse *)
Definition draftResponse (e : env) (id : string) (drafter : option string) (onCommit : act unit) : act unit :=
  match e_drafted e with
  | Some (_ :: _) =>
      catch (atomically (
        _ ←! statement (λ d, match visible_thread (e_org e) id d with
                             | Some _ => (Ok tt, note (Drafted id) (add_response (Response id drafter true) d))
                             | None => (Err Refused, d)
                             end);
        onCommit)) (λ _, ok tt)
  | _ => ok tt
  end.
(* src/src/services/pipeline.service.js:282-291 continueThreadPipeline (replan) *)
Definition replan_step (e : env) (id : string) (t : thread) : act unit :=
  if stageReached t REPLANNED then ok tt
  else
    _ ←! match truthy (t_project t) with
         | Some p => replanProject e p id (commitStage (e_org e) id REPLANNED)
         | None => ok tt
         end;
    _ ←! advanceStage (e_org e) id REPLANNED (λ t, t);
    ok tt.
Definition urgent (a : analysis) : bool := bool_decide (an_urgency a = Some "CRITICAL") || bool_decide (an_urgency a = Some "HIGH").
(* src/src/services/pipeline.service.js:293-305 continueThreadPipeline (draft) *)
Definition draft_step (e : env) (id : string) (t : thread) (a : analysis) (drafter : option string) : act unit :=
  if stageReached t COMPLETED then ok tt
  else
    _ ←! (if urgent a then draftResponse e id drafter (commitStage (e_org e) id COMPLETED) else ok tt);
    _ ←! advanceStage (e_org e) id COMPLETED (λ t, t);
    ok tt.

(** The answer: spam, waiting with its suggestions, or a thread. *)
Record outcome := Outcome { o_thread : string; o_analysis : analysis; o_assignment : assignment; o_triage : bool; o_drafted : bool }.
Inductive answer := Spam | Waiting (c : option suggestion) (p : option string) | Matched (o : outcome).
(* src/src/services/pipeline.service.js:84-93 unmatchedResult *)
Definition unmatchedResult (u : unmatched) : answer := Waiting (u_client u) (u_project u).
(* src/src/services/pipeline.service.js:225-318 continueThreadPipeline *)
Definition continueThreadPipeline (e : env) (id : string) (t : thread) : act answer :=
  _ ←! require (bool_decide (is_Some (t_message t))) NoMessage;
  a ←! analyse_step e id t;
  s ←! assign_step e id t;
  _ ←! replan_step e id t;
  _ ←! draft_step e id t a (as_user s);
  drafted ←! read (λ d, bool_decide (is_Some (visible_thread (e_org e) id d)) && existsb (λ r, bool_decide (rs_thread r = id) && rs_ai r) (responses d));
  ok (Matched (Outcome id a s (t_triage t) drafted)).
(* src/src/services/pipeline.service.js:132-134 resultFor *)
Definition resultFor (e : env) (f : found) : act answer :=
  match f with InThread id t => continueThreadPipeline e id t | InUnmatched _ u => ok (unmatchedResult u) end.

(** ** Matching *)

(* src/src/services/pipeline.service.js:335-354 getClientsAndContacts *)
Definition getClientsAndContacts (e : env) : act (list (string * client) * list contact) :=
  c ←! read (λ d, match cached d with Some c => if clock e 0 <? ca_expiresAt c then Some c else None | None => None end);
  match c with
  | Some c => ok (ca_clients c, ca_contacts c)
  | None =>
      cs ←! read (λ d, tselect (λ _ c, bool_decide (c_org c = e_org e) && bool_decide (c_status c = "ACTIVE")) (clients d));
      ks ←! read (λ d, List.filter (λ k, client_in (e_org e) d (k_client k)) (contacts d));
      _ ←! write (λ d, (tt, set_cache (Cache (clock e 1 + 60000) cs ks) d));
      ok (cs, ks)
  end.
(* src/src/services/pipeline.service.js:356-383 parseAndMatchEmail *)
Definition parseAndMatchEmail (e : env) : act matching :=
  known ←! getClientsAndContacts e;
  _ ←! write (λ d, (tt, note (Asked (e_org e) known.1 known.2) d));
  ok (default (Matching None None false) (e_parsed e)).
Definition at_least (c : option Z) (threshold : Z) : bool := match c with Some c => threshold <=? c | None => false end.
(** Steps 1 to 5 of a delivery that has no record yet. *)
(* src/src/services/pipeline.service.js:157-218 processEmailPipeline (new) *)
Definition startPipeline (e : env) (m : email) (key : option string) : act answer :=
  matched ←! parseAndMatchEmail e;
  if mt_spam matched then ok Spam
  else
    let confidence := match mt_client matched with Some c => sg_confidence c | None => None end in
    if at_least confidence (e_suggest e) then
      let needsTriage := negb (at_least confidence (e_auto e)) in
      let t := Thread (m_subject m) "AWAITING_RESPONSE" "NORMAL" needsTriage (option_map sg_id (mt_client matched)) (truthy (mt_project matched)) None key (Some CREATED) None (Some (m_body m)) in
      f ←! createForDelivery (e_org e) key (create_thread (e_org e) (e_id e) t);
      resultFor e f
    else
      f ←! createForDelivery (e_org e) key (create_unmatched (e_id e) (Unmatched (e_org e) key (mt_client matched) (mt_project matched)));
      resultFor e f.
(* src/src/services/pipeline.service.js:144-155 processEmailPipeline *)
Definition processEmailPipeline (sha256 : string → string) (e : env) (m : email) : act answer :=
  let key := normalizeInboundDeliveryKey sha256 (m_key m) in
  match key with
  | None => startPipeline e m key
  | Some k =>
      t ←! findThreadByDeliveryKey (e_org e) k;
      match t with
      | Some (id, t) => continueThreadPipeline e id t
      | None =>
          u ←! findUnmatchedByDeliveryKey (e_org e) k;
          match u with Some (_, u) => ok (unmatchedResult u) | None => startPipeline e m key end
      end
  end.

(** ** What else touches threads *)

Definition given (u : option string) (t : thread) : thread :=
  Thread (t_subject t) (t_status t) (t_priority t) (t_triage t) (t_client t) (t_project t) u (t_key t) (t_stage t) (t_analysis t) (t_message t).
(** A thread's first message stays its first. *)
Definition messaged (body : string) (t : thread) : thread :=
  Thread (t_subject t) (t_status t) (t_priority t) (t_triage t) (t_client t) (t_project t) (t_assignee t) (t_key t) (t_stage t) (t_analysis t) (Some (default body (t_message t))).
(** An update by id through the scoped client, which checks the links written. *)
Definition edit_thread (org id : string) (missing : thrown) (f : thread → db → option thread) : act unit :=
  statement (λ d, match visible_thread org id d with
                  | None => (Err missing, d)
                  | Some t => match f t d with Some t' => (Ok tt, set_threads (<[id := t']> (threads d)) d) | None => (Err Refused, d) end
                  end).
(** An administrator or a member changes a thread. *)
Record edit := Edit { d_status : option string; d_priority : option string; d_project : option (option string); d_client : option (option string) }.
Definition edited (x : edit) (t : thread) : thread :=
  Thread (t_subject t) (match truthy (d_status x) with Some s => s | None => t_status t end) (match truthy (d_priority x) with Some s => s | None => t_priority t end) (t_triage t)
    (default (t_client t) (d_client x)) (default (t_project t) (d_project x)) (t_assignee t) (t_key t) (t_stage t) (t_analysis t) (t_message t).
Definition edit_links (org : string) (x : edit) (d : db) : bool :=
  match d_client x with Some (Some c) => client_in org d c | _ => true end && match d_project x with Some (Some p) => project_in org d p | _ => true end.
(* src/src/routes/thread.routes.js:154-174 threadRoutes (update) *)
Definition updateThread (org id : string) (x : edit) : act unit :=
  edit_thread org id NotFound (λ t d, if edit_links org x d then Some (edited x t) else None).
(** [userId]: given, given as [null], or not given. *)
(* src/src/routes/thread.routes.js:176-215 threadRoutes (assign) *)
Definition assignRoute (org id : string) (userId : option (option string)) (autoAssign : bool) : act unit :=
  chosen ←! (if autoAssign then
               t ←! read (visible_thread org id);
               match t with None => fail NotFound | Some t => a ←! assignThread org t; ok (Some (as_user a)) end
             else ok userId);
  _ ←! edit_thread org id NotFound (λ t _, Some (match chosen with Some u => given u t | None => t end));
  match match chosen with Some u => truthy u | None => None end with Some u => write (λ d, (tt, add_notification u id d)) | None => ok tt end.
(* src/src/routes/thread.routes.js:74-109 threadRoutes (create) *)
Definition createRoute (org actor id subject clientId : string) (projectId priority assignedToId : option string) : act found :=
  known ←! read (λ d, client_in org d clientId);
  _ ←! require known NotFound;
  create_thread org id (Thread subject "DRAFT" (default "NORMAL" (truthy priority)) false (Some clientId) (truthy projectId) (Some (default actor (truthy assignedToId))) None None None None).
(* src/src/routes/thread.routes.js:237-252 threadRoutes (resolve) *)
Definition resolveRoute (org id : string) : act unit := updateThread org id (Edit (Some "RESOLVED") None None None).
(* src/src/routes/thread.routes.js:254-295 threadRoutes (messages) *)
Definition messageRoute (org id body : string) (inbound : bool) : act unit :=
  _ ←! edit_thread org id Refused (λ t _, Some (messaged body t));
  updateThread org id (Edit (Some (if inbound then "AWAITING_RESPONSE" else "OPEN")) None None None).
(* src/src/routes/thread.routes.js:298-331 threadRoutes (analyze) *)
Definition analyzeRoute (e : env) (id : string) : act analysis :=
  t ←! read (visible_thread (e_org e) id);
  match match t with Some t => t_message t | None => None end with
  | None => fail NotFound
  | Some _ =>
      let a := analyzeMessage e in
      _ ←! edit_thread (e_org e) id NotFound (λ t _, Some (analysed a t));
      ok a
  end.
(* src/src/services/assignment.service.js:233-273 suggestRebalancing *)
Definition utilization (u : user) (n : Z) : Js.num := Js.mul (Js.div (Js.of_Z n) (maxThreads (a_capacity u))) (Js.of_Z 100).
Definition suggestRebalancing (l : list (string * user * Z)) : list (string * Js.num * list (string * Js.num)) :=
  omap (λ x : string * user * Z,
    let share := utilization x.1.2 x.2 in
    if Js.ltb (Js.of_Z 90) share then
      let available := List.filter (λ y : string * user * Z, negb (bool_decide (y.1.1 = x.1.1)) && Js.ltb (utilization y.1.2 y.2) (Js.of_Z 70)) l in
      match available with [] => None | _ => Some (x.1.1, Js.round share, (λ y, (y.1.1, Js.round (utilization y.1.2 y.2))) <$> available) end
    else None) l.
End Inbound.
