(* ===== verification/InboundLog.v ===== *)
(** * Inbound email: what a delivery becomes

    The runs of Inbound.v interleaved with each other and with what members do
    to threads: one record per delivery, every step of a thread's pipeline once,
    and an answer only when all of them are settled. *)

From S2P Require Import Prelude Store Async Steps Tenancy Inbound.
Import Steps.Steps Inbound.Inbound.

Module InboundLog.

(** ** Everything that is asked *)

Inductive input :=
  | Deliver (e : env) (m : email)
  | Update (org id : string) (x : edit)
  | Assign (org id : string) (userId : option (option string)) (autoAssign : bool)
  | Create (org actor id subject clientId : string) (projectId priority assignedToId : option string)
  | Message (org id body : string) (inbound : bool)
  | Analyze (e : env) (id : string)
  | Directory (us : gmap string user) (ps : gmap string project) (rs : gmap string rule) (cs : list contact)  (** staff and projects change *)
  | SetClient (id : string) (c : client).                                     (** a client is made (no thread points to it yet) or renamed *)
Inductive reply := Delivered (a : answer) | Noted.

Definition set_directory us ps rs cs (d : db) : db :=
  Db us (clients d) cs ps rs (threads d) (unmatcheds d) (notifications d) (tasks d) (responses d) (cached d) (trail d).
Definition set_client (id : string) (c : client) (d : db) : db :=
  if match clients d !! id with Some x => bool_decide (c_org x = c_org c) | None => (tcount (λ _ t, bool_decide (t_client t = Some id)) (threads d) =? 0)%nat end
  then Db (users d) (<[id := c]> (clients d)) (contacts d) (projects d) (rules d) (threads d) (unmatcheds d) (notifications d) (tasks d) (responses d) (cached d) (trail d)
  else d.

Section theory.
Context (sha256 : string → string).
Implicit Types (d : db) (id org : string) (t : thread).

Definition mapped {A} (f : A → reply) (p : act A) : act reply := x ←! p; ok (f x).
Definition handle (n : nat) (i : input) : act reply :=
  match i with
  | Deliver e m => mapped Delivered (processEmailPipeline sha256 e m)
  | Update org id x => mapped (λ _, Noted) (updateThread org id x)
  | Assign org id u b => mapped (λ _, Noted) (assignRoute org id u b)
  | Create org actor id s c p pr u => mapped (λ _, Noted) (createRoute org actor id s c p pr u)
  | Message org id b i => mapped (λ _, Noted) (messageRoute org id b i)
  | Analyze e id => mapped (λ _, Noted) (analyzeRoute e id)
  | Directory us ps rs cs => write (λ d, (Noted, set_directory us ps rs cs d))
  | SetClient id c => write (λ d, (Noted, set_client id c d))
  end.

(** ** The state *)

(** The stage an effect belongs to, and whose. *)
Definition effect (e : event) : option (string * stage) :=
  match e with
  | Notified id _ => Some (id, ASSIGNED)
  | Planned id => Some (id, REPLANNED)
  | Drafted id => Some (id, COMPLETED)
  | _ => None
  end.
Definition effects id (s : stage) d : nat := length (List.filter (λ e, bool_decide (effect e = Some (id, s))) (trail d)).
(** How far a thread is. *)
Definition at_stage id d : nat := match threads d !! id with Some t => reached (t_stage t) | None => 0%nat end.
Definition one_if (b : bool) : nat := if b then 1%nat else 0%nat.
Record inv d : Prop := {
  inv_once id s : (effects id s d ≤ one_if (rank s <=? at_stage id d)%nat)%nat;
  inv_key id id' t t' k : threads d !! id = Some t → threads d !! id' = Some t' → t_key t = Some k → t_key t' = Some k → id = id';
  inv_kept id id' u u' k : unmatcheds d !! id = Some u → unmatcheds d !! id' = Some u' → u_key u = Some k → u_key u' = Some k → id = id';
  inv_apart id id' t u k : threads d !! id = Some t → unmatcheds d !! id' = Some u → t_key t = Some k → u_key u = Some k → sees (u_org u) d t = false;
  inv_client id t c : threads d !! id = Some t → t_client t = Some c → is_Some (clients d !! c)
}.
(** A thread keeps its key and its first message, only moves forward, and is
    never seen by another organization. *)
Definition later_thread d d' t t' : Prop :=
  t_key t' = t_key t ∧ (reached (t_stage t) ≤ reached (t_stage t'))%nat ∧ (is_Some (t_message t) → t_message t' = t_message t) ∧ ∀ org, sees org d' t' = true → sees org d t = true.
Record guar (n : nat) d d' : Prop := {
  g_thread id t : threads d !! id = Some t → ∃ t', threads d' !! id = Some t' ∧ later_thread d d' t t';
  g_kept id u : unmatcheds d !! id = Some u → unmatcheds d' !! id = Some u;
  g_inv : inv d → inv d'
}.
Abbreviation own := (owned inv guar).
Abbreviation later n := (rtc (others guar n)).
Abbreviation any := (rtc (anyone guar)).

Lemma mail_later_refl d t : later_thread d d t t.
Proof. done. Qed.
Lemma inbound_idle n d : guar n d d.
Proof. split; [eauto using mail_later_refl|done..]. Qed.
Lemma inbound_thread id t d d' : any d d' → threads d !! id = Some t → ∃ t', threads d' !! id = Some t' ∧ later_thread d d' t t'.
Proof.
  intros H. revert t. induction H as [d|d1 d2 d3 (n & H) _ IH]; [eauto using mail_later_refl|]. intros t Ht.
  destruct (g_thread _ _ _ H _ _ Ht) as (t2 & Ht2 & K2 & S2 & M2 & V2). destruct (IH _ Ht2) as (t3 & Ht3 & K3 & S3 & M3 & V3). exists t3. split; [done|].
  split_and!; [congruence|lia| |eauto]. intros Hm. pose proof (M2 Hm) as E. rewrite M3, E; [done|by rewrite E].
Qed.
Lemma inbound_kept id u d d' : any d d' → unmatcheds d !! id = Some u → unmatcheds d' !! id = Some u.
Proof. induction 1 as [d|d1 d2 d3 (n & H) _ IH]; [done|]. intros Hu. by apply IH, (g_kept _ _ _ H). Qed.
Lemma inbound_any n d d' : later n d d' → any d d'.
Proof. apply others_anyone. Qed.
Lemma inbound_next n d1 d2 d : any d d1 → guar n d1 d2 → any d d2.
Proof. intros H1 H2. etransitivity; [exact H1|]. apply rtc_once. by exists n. Qed.
Lemma inbound_inv n d d' : guar n d d' → inv d → inv d'.
Proof. apply g_inv. Qed.

(** ** One step *)

Definition moves d d' : Prop := ∀ id t, threads d !! id = Some t → ∃ t', threads d' !! id = Some t' ∧ later_thread d d' t t'.
Lemma moves_stage d d' id : moves d d' → (at_stage id d ≤ at_stage id d')%nat.
Proof.
  intros H. unfold at_stage. destruct (threads d !! id) as [t|] eqn:E; [|lia]. destruct (H _ _ E) as (t' & -> & _ & Hs & _). exact Hs.
Qed.
Lemma guar_write n d d' es :
  trail d' = es ++ trail d → (∀ e x, e ∈ es → effect e = Some x → es = [e] ∧ (at_stage x.1 d < rank x.2 ≤ at_stage x.1 d')%nat) →
  moves d d' → (∀ id u, unmatcheds d !! id = Some u → unmatcheds d' !! id = Some u) →
  (inv d →
     (∀ id id' t t' k, threads d' !! id = Some t → threads d' !! id' = Some t' → t_key t = Some k → t_key t' = Some k → id = id') ∧
     (∀ id id' u u' k, unmatcheds d' !! id = Some u → unmatcheds d' !! id' = Some u' → u_key u = Some k → u_key u' = Some k → id = id') ∧
     (∀ id id' t u k, threads d' !! id = Some t → unmatcheds d' !! id' = Some u → t_key t = Some k → u_key u = Some k → sees (u_org u) d' t = false) ∧
     (∀ id t c, threads d' !! id = Some t → t_client t = Some c → is_Some (clients d' !! c))) →
  guar n d d'.
Proof.
  intros Ht He Hm Hu Hi. split; [exact Hm|exact Hu|]. intros HI. destruct (Hi HI) as (H1 & H2 & H3 & H4). split; [|exact H1|exact H2|exact H3|exact H4].
  intros id s. unfold effects. rewrite Ht, List.filter_app, List.length_app. pose proof (inv_once d HI id s) as Hold. fold (effects id s d). pose proof (moves_stage d d' id Hm) as Hst.
  destruct (List.filter (λ e, bool_decide (effect e = Some (id, s))) es) as [|e l] eqn:E.
  - cbn. unfold one_if in *. repeat case_match; rewrite ?Nat.leb_le, ?Nat.leb_gt in *; lia.
  - assert (In e es ∧ bool_decide (effect e = Some (id, s)) = true) as [Hin Hef%bool_decide_eq_true] by (apply (proj1 (List.filter_In (λ e, bool_decide (effect e = Some (id, s))) e es)); rewrite E; by left).
    apply list_elem_of_In in Hin. destruct (He e (id, s) Hin Hef) as [-> [Hlt Hle]]. cbn in *. rewrite bool_decide_eq_true_2 in E by done. injection E as <-. cbn.
    unfold one_if in *. repeat case_match; rewrite ?Nat.leb_le, ?Nat.leb_gt in *; lia.
Qed.
(** Threads, emails and clients stay; nothing is done for a thread. *)
Lemma guar_aside n d d' es :
  threads d' = threads d → unmatcheds d' = unmatcheds d → clients d' = clients d → trail d' = es ++ trail d → (∀ e, e ∈ es → effect e = None) → guar n d d'.
Proof.
  intros H1 H2 H3 H4 He. assert (∀ org t, sees org d' t = sees org d t) as Hs by (intros; unfold sees, client_in; by rewrite H3).
  apply (guar_write n d d' es); [done| | |by rewrite H2|].
  - intros e x Hin Hx. rewrite (He e Hin) in Hx. done.
  - intros id t Ht. exists t. rewrite H1. split; [done|]. split_and!; [done..|]. intros org. by rewrite Hs.
  - intros [_ I1 I2 I3 I4]. rewrite H1, H2, H3. split_and!; [exact I1|exact I2| |exact I4]. intros. rewrite Hs. by eapply I3.
Qed.
(** A thread is changed, with what it was changed for. *)
Lemma guar_change n d d' es id t t' :
  threads d !! id = Some t → threads d' = <[id := t']> (threads d) → unmatcheds d' = unmatcheds d → clients d' = clients d → trail d' = es ++ trail d →
  (∀ e x, e ∈ es → effect e = Some x → es = [e] ∧ x.1 = id ∧ (reached (t_stage t) < rank x.2 ≤ reached (t_stage t'))%nat) →
  later_thread d d t t' → (∀ c, t_client t' = Some c → t_client t = Some c ∨ is_Some (clients d !! c)) → guar n d d'.
Proof.
  intros Hid H1 H2 H3 H4 He Hl Hc. assert (∀ org t, sees org d' t = sees org d t) as Hs by (intros; unfold sees, client_in; by rewrite H3).
  apply (guar_write n d d' es); [done| | |by rewrite H2|].
  - intros e x Hin Hx. destruct (He e x Hin Hx) as (-> & -> & Hlt). split; [done|]. unfold at_stage. rewrite H1, Hid, lookup_insert_eq. exact Hlt.
  - intros i x Hx. rewrite H1. destruct (decide (i = id)) as [->|Hne].
    + assert (x = t) as -> by congruence. exists t'. rewrite lookup_insert_eq. split; [done|]. destruct Hl as (? & ? & ? & Hv). split_and!; try done.
      intros org. rewrite Hs. apply Hv.
    + exists x. rewrite lookup_insert_ne by done. split; [done|]. split_and!; [done..|]. intros org. by rewrite Hs.
  - intros [_ I1 I2 I3 I4]. destruct Hl as (Hk & _ & _ & Hv). rewrite H1, H2, H3. assert (∀ i x, <[id := t']> (threads d) !! i = Some x → ∃ y, threads d !! i = Some y ∧ t_key x = t_key y ∧
        ∀ org, sees org d x = true → sees org d y = true) as Hback.
    { intros i x. rewrite lookup_insert_Some. intros [[<- <-]|[_ H]]; [by exists t|by exists x]. }
    split_and!; [|exact I2| |].
    + intros i j ti tj k (yi & Hi & Ki & _)%Hback (yj & Hj & Kj & _)%Hback E1 E2. apply (I1 i j yi yj k); congruence.
    + intros i j x u k (y & Hy & Ky & Vy)%Hback Hu Ex Eu. rewrite Hs. destruct (sees (u_org u) d x) eqn:E; [|done]. apply Vy in E.
      rewrite (I3 i j y u k) in E; congruence.
    + intros i x c. rewrite lookup_insert_Some. intros [[<- <-]|[_ H]] Hx; [|by eapply I4]. destruct (Hc c Hx) as [Hx'|Hx']; [by eapply I4|done].
Qed.
Lemma tselect_none {A} P (m : gmap string A) id x : tselect P m = [] → m !! id = Some x → P id x = false.
Proof.
  intros H Hx. destruct (P id x) eqn:E; [|done]. assert ((id, x) ∈ tselect P m) as Hin by (by apply tselect_spec). rewrite H in Hin. by apply not_elem_of_nil in Hin.
Qed.
Lemma key_unused k d id t : key_used (Some k) d = false → threads d !! id = Some t → t_key t ≠ Some k.
Proof.
  cbn. rewrite bool_decide_eq_false. intros H%dec_stable Ht. apply (bool_decide_eq_false (t_key t = Some k)).
  exact (tselect_none (λ _ t, bool_decide (t_key t = Some k)) _ _ _ H Ht).
Qed.
Lemma key_unkept k d id u : key_kept (Some k) d = false → unmatcheds d !! id = Some u → u_key u ≠ Some k.
Proof.
  cbn. rewrite bool_decide_eq_false. intros H%dec_stable Hu. apply (bool_decide_eq_false (u_key u = Some k)).
  exact (tselect_none (λ _ u, bool_decide (u_key u = Some k)) _ _ _ H Hu).
Qed.
(** No email of the organization waits with the key. *)
Definition none_kept (key : option string) org d : Prop := ∀ k id u, key = Some k → unmatcheds d !! id = Some u → u_key u = Some k → u_org u ≠ org.
Definition none_seen (key : option string) org d : Prop := ∀ k id t, key = Some k → threads d !! id = Some t → t_key t = Some k → sees org d t = false.
Lemma sees_one org org' d t : sees org d t = true → sees org' d t = true → org = org'.
Proof. unfold sees, client_in. repeat case_match; try done. intros <-%bool_decide_eq_true <-%bool_decide_eq_true. done. Qed.
Lemma guar_store n d id t org :
  threads d !! id = None → key_used (t_key t) d = false → sees org d t = true → none_kept (t_key t) org d →
  guar n d (note (Stored id (t_key t)) (set_threads (<[id := t]> (threads d)) d)).
Proof.
  intros Hid Hk Hs Hn. set (d' := note _ _). assert (∀ i x, threads d !! i = Some x → threads d' !! i = Some x) as Hkeep.
  { intros i x Hx. cbn. rewrite lookup_insert_ne; [done|congruence]. }
  apply (guar_write n d d' [Stored id (t_key t)]); [done|by intros e x ->%list_elem_of_singleton|intros i x Hx; exists x; split; [by apply Hkeep|done]|done|].
  intros [_ I1 I2 I3 I4]. split_and!; cbn; [|exact I2| |].
  - intros i j ti tj k. rewrite !lookup_insert_Some. intros [[<- <-]|[_ Hi]] [[<- <-]|[_ Hj]] Ei Ej; [done|..|by eapply I1].
    + rewrite Ei in Hk. by destruct (key_unused k d j tj Hk Hj).
    + rewrite Ej in Hk. by destruct (key_unused k d i ti Hk Hi).
  - intros i j x u k. rewrite lookup_insert_Some. intros [[<- <-]|[_ Hx]] Hu Ex Eu; [|by eapply I3]. change (sees (u_org u) d t = false).
    destruct (sees (u_org u) d t) eqn:E; [|done]. destruct (Hn k j u Ex Hu Eu). by eapply sees_one.
  - intros i x c. rewrite lookup_insert_Some. intros [[<- <-]|[_ Hx]] Hc; [|by eapply I4]. unfold sees, client_in in Hs. rewrite Hc in Hs. destruct (clients d !! c); [by eexists|done].
Qed.
Lemma guar_keep n d id u :
  unmatcheds d !! id = None → key_kept (u_key u) d = false → none_seen (u_key u) (u_org u) d →
  guar n d (note (Kept id (u_key u)) (set_unmatcheds (<[id := u]> (unmatcheds d)) d)).
Proof.
  intros Hid Hk Hn. set (d' := note _ _). apply (guar_write n d d' [Kept id (u_key u)]); [done|by intros e x ->%list_elem_of_singleton|by intros i x Hx; exists x| |].
  { intros i x Hx. cbn. rewrite lookup_insert_ne; [done|congruence]. }
  intros [_ I1 I2 I3 I4]. split_and!; cbn; [exact I1| | |exact I4].
  - intros i j ui uj k. rewrite !lookup_insert_Some. intros [[<- <-]|[_ Hi]] [[<- <-]|[_ Hj]] Ei Ej; [done|..|by eapply I2].
    + rewrite Ei in Hk. by destruct (key_unkept k d j uj Hk Hj).
    + rewrite Ej in Hk. by destruct (key_unkept k d i ui Hk Hi).
  - intros i j x y k Hx. rewrite lookup_insert_Some. intros [[<- <-]|[_ Hy]] Ex Ey; [|by eapply (I3 i j x y k)]. change (sees (u_org u) d x = false). by eapply Hn.
Qed.
Lemma guar_client n id c d : guar n d (set_client id c d).
Proof.
  unfold set_client. destruct (match clients d !! id with Some x => _ | None => _ end) eqn:Eok; [|apply inbound_idle]. set (d' := Db _ _ _ _ _ _ _ _ _ _ _ _).
  assert (∀ org i x, threads d !! i = Some x → sees org d' x = sees org d x) as Hs.
  { intros org i x Hx. unfold sees, client_in. destruct (t_client x) as [k|] eqn:Ek; [|done]. cbn. destruct (decide (k = id)) as [->|Hne]; [|by rewrite lookup_insert_ne].
    rewrite lookup_insert_eq. destruct (clients d !! id) as [y|]; [apply bool_decide_eq_true in Eok; by rewrite Eok|].
    apply Nat.eqb_eq in Eok. pose proof (proj1 (tcount_zero _ _) Eok i x Hx) as E. by apply bool_decide_eq_false in E. }
  apply (guar_write n d d' []); [done|by intros e x ?%not_elem_of_nil| |done|].
  - intros i x Hx. exists x. split; [done|]. split_and!; [done..|]. intros org. by rewrite (Hs org i x).
  - intros [_ I1 I2 I3 I4]. split_and!; [exact I1|exact I2| |].
    + intros i j x u k Hx Hu Ex Eu. rewrite (Hs _ i x Hx). by eapply I3.
    + intros i x k Hx Ek. cbn. destruct (decide (k = id)) as [->|Hne]; [by rewrite lookup_insert_eq|]. rewrite lookup_insert_ne by done. by eapply I4.
Qed.

(** ** Under interference *)

Abbreviation told := (Steps.told (D := db) (E := thrown)).
Lemma own_fail {A} n err d (F : A → db → Prop) : own n (fail err) d (told F).
Proof. apply told_fail. Qed.
Lemma own_ok {A} n (a : A) d (F : A → db → Prop) : (∀ d1, any d d1 → inv d1 → F a d1) → own n (ok a) d (told F).
Proof. intros H. apply told_ok. intros d1 H1. apply H. by eapply inbound_any. Qed.
Lemma mail_read {A B} n (f : db → A) (k : A → act B) d (F : B → db → Prop) :
  (∀ d1, any d d1 → inv d1 → own n (k (f d1)) d1 (told F)) → own n (and_then (read f) k) d (told F).
Proof. intros H. apply told_read; [apply inbound_idle|]. intros d1 H1. apply H. by eapply inbound_any. Qed.
Lemma mail_write {A B} n (f : db → A * db) (k : A → act B) d (F : B → db → Prop) :
  (∀ d1, any d d1 → inv d1 → guar n d1 (f d1).2 ∧ (inv (f d1).2 → any d (f d1).2 → own n (k (f d1).1) (f d1).2 (told F))) →
  own n (and_then (write f) k) d (told F).
Proof.
  intros H. apply told_write. intros d1 H1 I1. destruct (H d1 (inbound_any _ _ _ H1) I1) as [HG Hk]. split; [exact HG|].
  apply Hk; [by eapply inbound_inv|]. eapply inbound_next; [by eapply inbound_any|exact HG].
Qed.
Lemma own_reading {A B} n (p : act A) (k : A → act B) d (F : B → db → Prop) :
  reading p → (∀ a d1, any d d1 → inv d1 → own n (k a) d1 (told F)) → own n (and_then p k) d (told F).
Proof.
  intros Hp Hk. eapply told_reads; [apply inbound_idle|exact Hp|apply says_true|]. intros a d1 H1 I1 _. apply Hk; [by eapply inbound_any|done].
Qed.
Lemma own_then {A B} n (p : act A) (k : A → act B) d (F : A → db → Prop) (F' : B → db → Prop) :
  own n p d (told F) → (∀ a d', any d d' → inv d' → F a d' → own n (k a) d' (told F')) → own n (and_then p k) d (told F').
Proof. apply told_and_then. Qed.

(** ** Stages *)

(** The thread has come to stage [k], or the organization sees it no more. *)
Definition past (k : nat) org id d : Prop := ∃ t, threads d !! id = Some t ∧ ((k ≤ reached (t_stage t))%nat ∨ sees org d t = false).
Lemma past_any k org id d d' : any d d' → past k org id d → past k org id d'.
Proof.
  intros H (t & Ht & Hp). destruct (inbound_thread _ _ _ _ H Ht) as (t' & Ht' & _ & Hs & _ & Hv). exists t'. split; [done|].
  destruct Hp as [Hp|Hp]; [left; lia|right]. destruct (sees org d' t') eqn:E; [|done]. apply Hv in E. congruence.
Qed.
Lemma past_le k j org id d : (j ≤ k)%nat → past k org id d → past j org id d.
Proof. intros Hle (t & Ht & Hp). exists t. split; [done|]. destruct Hp as [Hp|Hp]; [left; lia|by right]. Qed.
(** What a change to a stage leaves alone. *)
Definition harmless (f : thread → thread) : Prop := ∀ t, t_key (f t) = t_key t ∧ t_client (f t) = t_client t ∧ t_message (f t) = t_message t.
Lemma visible_Some org id d t : visible_thread org id d = Some t ↔ threads d !! id = Some t ∧ sees org d t = true.
Proof.
  unfold visible_thread. destruct (threads d !! id) as [x|]; [|by split; [|intros []]]. destruct (sees org d x) eqn:E; split; [by intros [= <-]|by intros [[= <-] _]|done|].
  intros [[= <-] H]. congruence.
Qed.
Lemma staged_later d t s f : harmless f → (reached (t_stage t) ≤ rank s)%nat → later_thread d d t (staged s (f t)).
Proof.
  intros Hf Hle. destruct (Hf t) as (Hk & Hc & Hm). split_and!; cbn; [done|done|by intros _|]. intros org. unfold sees. cbn. by rewrite Hc.
Qed.
Definition advanced org id s f d : bool * db :=
  match visible_thread org id d with
  | Some t => if (S (reached (t_stage t)) =? rank s)%nat then (true, set_threads (<[id := staged s (f t)]> (threads d)) d) else (false, d)
  | None => (false, d)
  end.
Lemma advanced_true org id s f d d' : advanced org id s f d = (true, d') →
  ∃ t, threads d !! id = Some t ∧ sees org d t = true ∧ S (reached (t_stage t)) = rank s ∧ d' = set_threads (<[id := staged s (f t)]> (threads d)) d.
Proof.
  unfold advanced. destruct (visible_thread org id d) as [t|] eqn:E; [|done]. destruct (_ =? _)%nat eqn:Es; [|done]. intros [= <-].
  apply visible_Some in E as [? ?]. apply Nat.eqb_eq in Es. by exists t.
Qed.
Lemma advanced_false org id s f d d' : advanced org id s f d = (false, d') → d' = d.
Proof. unfold advanced. destruct (visible_thread org id d) as [t|]; [destruct (_ =? _)%nat|]; by intros [= <-]. Qed.
Lemma past_advanced org id s f d : past (pred (rank s)) org id d → past (rank s) org id (advanced org id s f d).2.
Proof.
  intros (t & Ht & Hp). unfold advanced, visible_thread. rewrite Ht. destruct (sees org d t) eqn:Es; [|exists t; split; [done|by right]].
  destruct Hp as [Hp|Hp]; [|done]. destruct (S (reached (t_stage t)) =? rank s)%nat eqn:E; cbn.
  - exists (staged s (f t)). cbn. rewrite lookup_insert_eq. split; [done|by left].
  - apply Nat.eqb_neq in E. exists t. split; [done|]. left. lia.
Qed.
Lemma guar_advanced n org id s f d : harmless f → guar n d (advanced org id s f d).2.
Proof.
  intros Hf. destruct (advanced org id s f d) as [[|] d'] eqn:E; cbn; [|by apply advanced_false in E as ->; apply inbound_idle].
  apply advanced_true in E as (t & Ht & Hv & Hs & ->). destruct (Hf t) as (Hk & Hc & Hm).
  eapply (guar_change n d _ [] id t); [done..|by intros e x ?%not_elem_of_nil|apply staged_later; [done|lia]|]. intros c. cbn. rewrite Hc. by left.
Qed.
(** A stage is committed with what it was reached for. *)
Lemma guar_settled n org id s f d d1 d1' d2 e :
  harmless f → effect e = Some (id, s) → threads d1 = threads d → clients d1 = clients d → unmatcheds d1 = unmatcheds d →
  advanced org id s f d1 = (true, d1') → threads d2 = threads d1' → clients d2 = clients d1' → unmatcheds d2 = unmatcheds d1' → trail d2 = e :: trail d → guar n d d2.
Proof.
  intros Hf He H1 H2 H3 (t & Ht & Hv & Hs & ->)%advanced_true H4 H5 H6 H7. cbn in H4, H5, H6. rewrite H1 in Ht, H4. rewrite H2 in H5. rewrite H3 in H6.
  destruct (Hf t) as (Hk & Hc & Hm).
  eapply (guar_change n d d2 [e] id t); [exact Ht|exact H4|exact H6|exact H5|exact H7| | |].
  - intros x y ->%list_elem_of_singleton Hy. rewrite He in Hy. injection Hy as <-. split; [done|]. split; [done|]. change (reached (t_stage t) < rank s ≤ rank s)%nat. lia.
  - apply staged_later; [done|lia].
  - intros c. cbn. rewrite Hc. by left.
Qed.
Lemma own_advance {B} n org id s f (k : bool → act B) d (F : B → db → Prop) :
  harmless f → past (pred (rank s)) org id d → (∀ b d1, any d d1 → inv d1 → past (rank s) org id d1 → own n (k b) d1 (told F)) →
  own n (and_then (advanceStage org id s f) k) d (told F).
Proof.
  intros Hf Hp Hk. unfold advanceStage. apply mail_write. intros d1 H1 I1. fold (advanced org id s f d1). split; [by apply guar_advanced|].
  intros I2 H2. apply Hk; [exact H2|exact I2|]. apply past_advanced. by eapply past_any.
Qed.

(** ** The pipeline's steps *)

(** A thread as it was loaded: it has only moved on. *)
Definition loaded_as id t d : Prop := ∃ t', threads d !! id = Some t' ∧ t_key t' = t_key t ∧ (reached (t_stage t) ≤ reached (t_stage t'))%nat.
Lemma loaded_any id t d d' : any d d' → loaded_as id t d → loaded_as id t d'.
Proof.
  intros H (t1 & Ht & Hk & Hs). destruct (inbound_thread _ _ _ _ H Ht) as (t2 & Ht2 & Hk2 & Hs2 & _). exists t2. split_and!; [done|congruence|lia].
Qed.
Lemma loaded_past s org id t d : loaded_as id t d → stageReached t s = true → past (rank s) org id d.
Proof. intros (t' & Ht & _ & Hs) Hr%Nat.leb_le. exists t'. split; [done|]. left. lia. Qed.
Lemma loaded_some org id t d : loaded_as id t d → past 0 org id d.
Proof. intros (t' & Ht & _). exists t'. split; [done|]. left. lia. Qed.

Lemma reading_candidate org u : reading (candidate org u).
Proof. unfold candidate, active_user, hasCapacity. reads. Qed.
Lemma reading_assignThread org t : reading (assignThread org t).
Proof.
  unfold assignThread, otherwise, getAdmin, findBySkill, findLeastLoaded. pose proof reading_candidate as Hc. reads; apply Hc.
Qed.

Lemma own_analyse n e id t d : loaded_as id t d → own n (analyse_step e id t) d (told (λ _, past 1 (e_org e) id)).
Proof.
  intros Hl. unfold analyse_step. destruct (stageReached t ANALYZED) eqn:Es; cbn [negb].
  - assert (past 1 (e_org e) id d) as Hp by (by apply (loaded_past ANALYZED _ _ t)).
    destruct (t_analysis t); apply own_ok; intros d1 H1 _; by eapply past_any.
  - apply own_advance; [by intros x|by apply (loaded_some _ _ t)|]. intros [|] d1 H1 I1 Hp.
    + apply own_ok. intros d2 H2 _. by eapply past_any.
    + unfold storedAnalysis. apply mail_read. intros d2 H2 I2. apply own_ok. intros d3 H3 _. eapply past_any; [|exact Hp]. by etransitivity.
Qed.
Lemma own_assign n e id t d : past 1 (e_org e) id d → loaded_as id t d → own n (assign_step e id t) d (told (λ _, past 2 (e_org e) id)).
Proof.
  intros Hp Hl. unfold assign_step. eapply (own_then n _ _ _ (λ _, past 2 (e_org e) id)).
  - destruct (stageReached t ASSIGNED) eqn:Es.
    { apply own_ok. intros d1 H1 _. eapply past_any; [exact H1|]. by apply (loaded_past ASSIGNED _ _ t). }
    apply own_reading; [apply reading_assignThread|]. intros p d1 H1 I1. apply (told_atomically inv guar inbound_idle).
    intros d2 b d3 H2 I2 Hrun. unfold advanceStage in Hrun. rewrite run_write in Hrun. fold (advanced (e_org e) id ASSIGNED (assigned (as_user p)) d2) in Hrun.
    assert (past 1 (e_org e) id d2) as Hp2 by (eapply past_any; [|exact Hp]; etransitivity; [exact H1|by eapply inbound_any]).
    pose proof (past_advanced (e_org e) id ASSIGNED (assigned (as_user p)) d2 Hp2) as Hpa.
    pose proof (guar_advanced n (e_org e) id ASSIGNED (assigned (as_user p)) d2 ltac:(by intros x)) as Ga.
    assert (guar n d2 d3 ∧ past 2 (e_org e) id d3) as [G Hp3].
    { destruct (advanced _ _ _ _ d2) as [[|] d4] eqn:Ea; cbn [fst snd negb] in Hrun, Hpa, Ga; [|injection Hrun as <- <-; done].
      destruct (truthy (as_user p)) as [u|]; [|injection Hrun as <- <-; done]. injection Hrun as <- <-. split; [|exact Hpa].
      eapply (guar_settled n (e_org e) id ASSIGNED (assigned (as_user p)) d2 d2 d4 _ (Notified id u)); [by intros x|done|done|done|done|exact Ea|done|done|done|].
      cbn. f_equal. by apply advanced_true in Ea as (x & _ & _ & _ & ->). }
    split; [exact G|]. destruct b; apply own_ok; intros d4 H4 _; by eapply past_any.
  - intros [a|] d1 H1 I1 Hp1; [apply own_ok; intros d2 H2 _; by eapply past_any|]. apply mail_read. intros d2 H2 I2. apply own_ok. intros d3 H3 _.
    eapply past_any; [|exact Hp1]. by etransitivity.
Qed.

Lemma commit_runs org id s d a d' : run_alone (commitStage org id s) d = (Ok a, d') → advanced org id s (λ t, t) d = (true, d').
Proof.
  unfold commitStage, advanceStage. rewrite run_write. fold (advanced org id s (λ t, t) d). destruct (advanced org id s (λ t, t) d) as [[|] d1]; cbn; [|done]. by intros [= _ <-].
Qed.
Lemma own_replanProject n e p id d : own n (replanProject e p id (commitStage (e_org e) id REPLANNED)) d (told (λ _ _, True)).
Proof.
  unfold replanProject. apply mail_read. intros d1 H1 I1. destruct (project_in _ _ _); [|by apply own_ok]. destruct (e_planned e) as [items|]; [|by apply own_ok].
  apply (told_catch inv guar inbound_idle); [|by intros; apply own_ok]. intros d2 [] d3 H2 I2 Hrun. split; [|by apply own_ok].
  apply run_then in Hrun as ([] & d4 & Hs & Hrun). rewrite run_statement in Hs. destruct (project_in _ d2 _); [|done]. injection Hs as <-.
  rewrite run_write in Hrun. cbn [fst snd] in Hrun. apply commit_runs in Hrun.
  eapply (guar_settled n (e_org e) id REPLANNED (λ t, t) d2 _ d3 _ (Planned id)); [done|done| | | |exact Hrun|done|done|done|]; [done..|].
  by apply advanced_true in Hrun as (x & _ & _ & _ & ->).
Qed.
Lemma own_draftResponse n e id u d : own n (draftResponse e id u (commitStage (e_org e) id COMPLETED)) d (told (λ _ _, True)).
Proof.
  unfold draftResponse. destruct (e_drafted e) as [[|o l]|]; [by apply own_ok| |by apply own_ok].
  apply (told_catch inv guar inbound_idle); [|by intros; apply own_ok]. intros d2 [] d3 H2 I2 Hrun. split; [|by apply own_ok].
  apply run_then in Hrun as ([] & d4 & Hs & Hrun). rewrite run_statement in Hs. destruct (visible_thread _ id d2); [|done]. injection Hs as <-.
  apply commit_runs in Hrun.
  eapply (guar_settled n (e_org e) id COMPLETED (λ t, t) d2 _ d3 _ (Drafted id)); [done|done| | | |exact Hrun|done|done|done|]; [done..|].
  by apply advanced_true in Hrun as (x & _ & _ & _ & ->).
Qed.
Lemma own_replan n e id t d : past 2 (e_org e) id d → loaded_as id t d → own n (replan_step e id t) d (told (λ _, past 3 (e_org e) id)).
Proof.
  intros Hp Hl. unfold replan_step. destruct (stageReached t REPLANNED) eqn:Es.
  { apply own_ok. intros d1 H1 _. eapply past_any; [exact H1|]. by apply (loaded_past REPLANNED _ _ t). }
  eapply (own_then n _ _ _ (λ _ _, True)); [destruct (truthy _); [apply own_replanProject|by apply own_ok]|]. intros _ d1 H1 I1 _.
  apply own_advance; [by intros x|by eapply past_any|]. intros _ d2 H2 I2 Hp2. apply own_ok. intros d3 H3 _. by eapply past_any.
Qed.
Lemma own_draft n e id t a u d : past 3 (e_org e) id d → loaded_as id t d → own n (draft_step e id t a u) d (told (λ _, past 4 (e_org e) id)).
Proof.
  intros Hp Hl. unfold draft_step. destruct (stageReached t COMPLETED) eqn:Es.
  { apply own_ok. intros d1 H1 _. eapply past_any; [exact H1|]. by apply (loaded_past COMPLETED _ _ t). }
  eapply (own_then n _ _ _ (λ _ _, True)); [destruct (urgent a); [apply own_draftResponse|by apply own_ok]|]. intros _ d1 H1 I1 _.
  apply own_advance; [by intros x|by eapply past_any|]. intros _ d2 H2 I2 Hp2. apply own_ok. intros d3 H3 _. by eapply past_any.
Qed.

(** ** Answers *)

(** What an answer stands for. *)
Definition became (e : env) (key : option string) (a : answer) d : Prop :=
  match a with
  | Spam => True
  | Waiting c p => ∀ k, key = Some k → ∃ id u, unmatcheds d !! id = Some u ∧ u_key u = Some k ∧ u_org u = e_org e ∧ c = u_client u ∧ p = u_project u
  | Matched o => ∃ t, threads d !! o_thread o = Some t ∧ (∀ k, key = Some k → t_key t = Some k) ∧
      (t_stage t = Some COMPLETED ∨ sees (e_org e) d t = false)
  end.
Lemma reached_4 s : (4 ≤ reached s)%nat → s = Some COMPLETED.
Proof. destruct s as [[]|]; cbn; try lia. done. Qed.
Lemma own_continue n e id t key d :
  loaded_as id t d → (∀ k, key = Some k → t_key t = Some k) → own n (continueThreadPipeline e id t) d (told (became e key)).
Proof.
  intros Hl Hk. unfold continueThreadPipeline. apply told_require. intros _.
  eapply own_then; [by apply own_analyse|]. intros a d1 H1 I1 P1. pose proof (loaded_any _ _ _ _ H1 Hl) as L1.
  eapply own_then; [by apply own_assign|]. intros s d2 H2 I2 P2. pose proof (loaded_any _ _ _ _ H2 L1) as L2.
  eapply own_then; [by apply own_replan|]. intros u d3 H3 I3 P3. pose proof (loaded_any _ _ _ _ H3 L2) as L3.
  eapply own_then; [by apply own_draft|]. intros v d4 H4 I4 P4. pose proof (loaded_any _ _ _ _ H4 L3) as L4.
  apply mail_read. intros d5 H5 I5. apply own_ok. intros d6 H6 I6. assert (any d4 d6) as H by by etransitivity.
  destruct (past_any _ _ _ _ _ H P4) as (t' & Ht' & Hp), (loaded_any _ _ _ _ H L4) as (t2 & Ht2 & Hk2 & _). assert (t2 = t') as -> by congruence.
  exists t'. split; [exact Ht'|]. split; [intros k E; rewrite Hk2; by apply Hk|]. destruct Hp as [Hp|Hp]; [left; by apply reached_4|by right].
Qed.

(** ** One record for a delivery *)

Definition found_in (key : option string) org (f : found) d : Prop :=
  match f with
  | InThread id t => loaded_as id t d ∧ ∀ k, key = Some k → t_key t = Some k
  | InUnmatched id u => unmatcheds d !! id = Some u ∧ (∀ k, key = Some k → u_key u = Some k) ∧ u_org u = org
  end.
Lemma found_any key org f d d' : any d d' → found_in key org f d → found_in key org f d'.
Proof.
  intros H. destruct f as [id t|id u]; cbn; [intros [Hl Hk]; split; [by eapply loaded_any|done]|]. intros [Hu Hk]. split; [by eapply inbound_kept|done].
Qed.
Lemma head_tselect {A} P (m : gmap string A) x : head (tselect P m) = Some x → m !! x.1 = Some x.2 ∧ P x.1 x.2 = true.
Proof. destruct x as [id x]. intros H%head_Some_elem_of. by apply tselect_spec in H. Qed.
Lemma head_none {A} P (m : gmap string A) id x : head (tselect P m) = None → m !! id = Some x → P id x = false.
Proof. intros H. apply tselect_none. by destruct (tselect P m). Qed.
Lemma thread_with_found k org d x : thread_with k org d = Some x → found_in (Some k) org (InThread x.1 x.2) d.
Proof.
  intros [Hx Hp]%head_tselect. apply andb_true_iff in Hp as [Hk%bool_decide_eq_true _]. split; [by exists x.2|]. by intros k' [= <-].
Qed.
Lemma unmatched_with_found k org d x : unmatched_with k org d = Some x → found_in (Some k) org (InUnmatched x.1 x.2) d.
Proof.
  intros [Hx Hp]%head_tselect. apply andb_true_iff in Hp as [Hk%bool_decide_eq_true Ho%bool_decide_eq_true]. split; [done|]. split; [|done]. by intros k' [= <-].
Qed.
Lemma thread_with_none k org d : thread_with k org d = None → none_seen (Some k) org d.
Proof.
  intros H k' id t [= <-] Ht Hk. pose proof (head_none _ _ _ _ H Ht) as E. cbn in E. by rewrite bool_decide_eq_true_2 in E.
Qed.
Lemma unmatched_with_none k org d : unmatched_with k org d = None → none_kept (Some k) org d.
Proof.
  intros H k' id u [= <-] Hu Hk Ho. pose proof (head_none _ _ _ _ H Hu) as E. cbn in E. by rewrite !bool_decide_eq_true_2 in E.
Qed.
(** The insertion of a new record: it needs the key to be free. *)
Definition creates (key : option string) org (f : db → result thrown found * db) : Prop := ∀ n d x d',
  f d = (Ok x, d') → none_seen key org d → none_kept key org d → guar n d d' ∧ found_in key org x d'.
Lemma creates_thread org id t : creates (t_key t) org (λ d, if negb (links_ok org t d) then (Err Refused, d)
    else if bool_decide (is_Some (threads d !! id)) || key_used (t_key t) d then (Err (PrismaError "P2002"), d)
    else (Ok (InThread id t), note (Stored id (t_key t)) (set_threads (<[id := t]> (threads d)) d))).
Proof.
  intros n d x d' H _ Hk. destruct (links_ok org t d) eqn:El; [|done]. cbn [negb] in H. destruct (_ || _) eqn:Et; [done|]. injection H as <- <-.
  apply orb_false_iff in Et as [Hid%bool_decide_eq_false Hu]. apply andb_true_iff in El as [Hs _]. split.
  - eapply guar_store; [by apply eq_None_not_Some|exact Hu|exact Hs|exact Hk].
  - cbn. split; [|by intros k ->]. exists t. cbn. by rewrite lookup_insert_eq.
Qed.
Lemma creates_unmatched id u : creates (u_key u) (u_org u) (λ d, if bool_decide (is_Some (unmatcheds d !! id)) || key_kept (u_key u) d then (Err (PrismaError "P2002"), d)
    else (Ok (InUnmatched id u), note (Kept id (u_key u)) (set_unmatcheds (<[id := u]> (unmatcheds d)) d))).
Proof.
  intros n d x d' H Hs _. destruct (_ || _) eqn:Et; [done|]. injection H as <- <-. apply orb_false_iff in Et as [Hid%bool_decide_eq_false Hu]. split.
  - apply guar_keep; [by apply eq_None_not_Some|exact Hu|exact Hs].
  - cbn. rewrite lookup_insert_eq. split_and!; [done|by intros k ->|done].
Qed.
Lemma mail_lookup n org k next d : (∀ d1, any d d1 → inv d1 → own n next d1 (told (found_in (Some k) org))) → own n (lookup_delivery org k next) d (told (found_in (Some k) org)).
Proof.
  intros Hn. unfold lookup_delivery, findThreadByDeliveryKey, findUnmatchedByDeliveryKey. apply mail_read. intros d1 H1 I1.
  destruct (thread_with k org d1) as [[id t]|] eqn:Et.
  { apply own_ok. intros d2 H2 _. eapply found_any; [exact H2|]. by apply (thread_with_found _ _ _ (id, t)). }
  apply mail_read. intros d2 H2 I2. destruct (unmatched_with k org d2) as [[id u]|] eqn:Eu.
  { apply own_ok. intros d3 H3 _. eapply found_any; [exact H3|]. by apply (unmatched_with_found _ _ _ (id, u)). }
  apply Hn; [by etransitivity|done].
Qed.
Lemma lookup_runs n org k f d x d' :
  creates (Some k) org f → run_alone (lookup_delivery org k (statement f)) d = (Ok x, d') → guar n d d' ∧ found_in (Some k) org x d'.
Proof.
  intros Hc. unfold lookup_delivery, findThreadByDeliveryKey, findUnmatchedByDeliveryKey. rewrite run_read.
  destruct (thread_with k org d) as [[id t]|] eqn:Et.
  { intros [= <- <-]. split; [apply inbound_idle|by apply (thread_with_found _ _ _ (id, t))]. }
  rewrite run_read. destruct (unmatched_with k org d) as [[id u]|] eqn:Eu.
  { intros [= <- <-]. split; [apply inbound_idle|by apply (unmatched_with_found _ _ _ (id, u))]. }
  rewrite run_statement. intros H. by eapply Hc; [exact H|apply thread_with_none|apply unmatched_with_none].
Qed.
Lemma mail_create n org key f d :
  creates key org f → (∀ d e d', f d = (Err e, d') → d' = d) → own n (createForDelivery org key (statement f)) d (told (found_in key org)).
Proof.
  intros Hc He. unfold createForDelivery. destruct key as [k|].
  - apply (told_catch inv guar inbound_idle).
    + intros d1 x d2 H1 I1 H. destruct (lookup_runs n _ _ _ _ _ _ Hc H) as [HG Hf]. split; [exact HG|]. apply own_ok. intros d3 H3 _. by eapply found_any.
    + intros err d1 H1 I1. case_bool_decide; [|apply own_fail]. apply mail_lookup. intros. apply own_fail.
  - intros d1 H1 I1. destruct (f d1) as [[x|e] d2] eqn:E; cbn [fst snd].
    + destruct (Hc n d1 x d2 E) as [HG Hf]; [done|done|]. split; [exact HG|]. apply own_ok. intros d3 H3 _. by eapply found_any.
    + rewrite (He _ _ _ E). split; [apply inbound_idle|apply own_fail].
Qed.
Lemma own_result n e key f d : found_in key (e_org e) f d → own n (resultFor e f) d (told (became e key)).
Proof.
  destruct f as [id t|id u]; cbn [resultFor found_in].
  - intros [Hl Hk]. by apply own_continue.
  - intros (Hu & Hk & Ho). apply own_ok. intros d1 H1 _ k Ek. exists id, u. split_and!; [by eapply inbound_kept|by apply Hk|done|done|done].
Qed.
Lemma own_parse n e d : own n (parseAndMatchEmail e) d (told (λ _ _, True)).
Proof.
  unfold parseAndMatchEmail. eapply (own_then n _ _ _ (λ _ _, True)).
  - unfold getClientsAndContacts. apply mail_read. intros d1 H1 I1. destruct (cached d1) as [c|]; [destruct (_ <? _); [by apply own_ok|]|];
      (apply mail_read; intros d2 H2 I2; apply mail_read; intros d3 H3 I3; apply mail_write; intros d4 H4 I4; split; [by apply (guar_aside n d4 _ []); [..|intros x ?%not_elem_of_nil]|];
       intros _ _; by apply own_ok).
  - intros k d1 H1 I1 _. apply mail_write. intros d2 H2 I2. split; [|by intros; apply own_ok].
    eapply (guar_aside n d2 _ [_]); [done..|]. by intros x ->%list_elem_of_singleton.
Qed.
Lemma mail_start n e m key d : own n (startPipeline e m key) d (told (became e key)).
Proof.
  unfold startPipeline. eapply own_then; [apply own_parse|]. intros x d1 H1 I1 _. destruct (mt_spam x); [by apply own_ok|]. cbn zeta. destruct (at_least _ (e_suggest e)).
  - eapply own_then; [|intros f d2 _ _ Hf; by apply own_result]. apply (mail_create n (e_org e) key); [apply creates_thread|].
    intros d2 err d3. destruct (negb _); [by intros [= _ <-]|]. destruct (_ || _); [by intros [= _ <-]|done].
  - eapply own_then; [|intros f d2 _ _ Hf; by apply own_result]. apply (mail_create n (e_org e) key); [apply (creates_unmatched (e_id e) (Unmatched _ key _ _))|].
    intros d2 err d3. destruct (_ || _); [by intros [= _ <-]|done].
Qed.
Lemma own_deliver n e m d : own n (processEmailPipeline sha256 e m) d (told (became e (normalizeInboundDeliveryKey sha256 (m_key m)))).
Proof.
  unfold processEmailPipeline. cbn zeta. destruct (normalizeInboundDeliveryKey sha256 (m_key m)) as [k|]; [|apply mail_start].
  unfold findThreadByDeliveryKey, findUnmatchedByDeliveryKey. apply mail_read. intros d1 H1 I1.
  destruct (thread_with k (e_org e) d1) as [[id t]|] eqn:Et.
  { destruct (thread_with_found _ _ _ _ Et) as [Hl Hk]. by apply own_continue. }
  apply mail_read. intros d2 H2 I2. destruct (unmatched_with k (e_org e) d2) as [[id u]|] eqn:Eu; [|apply mail_start].
  apply (own_result n e (Some k) (InUnmatched id u)). by apply (unmatched_with_found _ _ _ (id, u)).
Qed.

(** ** What members do *)

(** A visible thread is replaced by one that differs in what staff may change. *)
Definition by_staff d org t t' : Prop :=
  t_key t' = t_key t ∧ t_stage t' = t_stage t ∧ (is_Some (t_message t) → t_message t' = t_message t) ∧
  (t_client t' = t_client t ∨ ∀ c, t_client t' = Some c → client_in org d c = true).
Lemma guar_staff n d org id t t' :
  visible_thread org id d = Some t → by_staff d org t t' → guar n d (set_threads (<[id := t']> (threads d)) d).
Proof.
  intros [Ht Hv]%visible_Some (Hk & Hs & Hm & Hc). eapply (guar_change n d _ [] id t); [exact Ht|done..|by intros e x ?%not_elem_of_nil| |].
  - split_and!; [done|by rewrite Hs|done|]. intros o Ho. destruct Hc as [Hc|Hc]; [unfold sees in *; by rewrite Hc in Ho|].
    assert (o = org) as ->; [|done]. unfold sees in Ho. destruct (t_client t') as [c|] eqn:Ec; [|done]. specialize (Hc c eq_refl). unfold client_in in *.
    destruct (clients d !! c); [|done]. apply bool_decide_eq_true in Ho, Hc. congruence.
  - intros c Ec. destruct Hc as [Hc|Hc]; [left; congruence|]. right. specialize (Hc c Ec). unfold client_in in Hc. by destruct (clients d !! c).
Qed.
Lemma own_edit {A} n org id (f : thread → db → option thread) err (k : unit → act A) d (F : A → db → Prop) :
  (∀ t d t', f t d = Some t' → by_staff d org t t') → (∀ d1, any d d1 → inv d1 → own n (k tt) d1 (told F)) →
  own n (and_then (edit_thread org id err f) k) d (told F).
Proof.
  intros Hf Hk. apply (told_statement inv guar). intros d1 H1 I1. destruct (visible_thread org id d1) as [t|] eqn:Ev; [|split; [apply inbound_idle|apply own_fail]].
  destruct (f t d1) as [t'|] eqn:Ef; [|split; [apply inbound_idle|apply own_fail]]. cbn [fst snd].
  pose proof (guar_staff n d1 org id t t' Ev (Hf _ _ _ Ef)) as HG. split; [exact HG|]. apply Hk; [eapply inbound_next; [by eapply inbound_any|exact HG]|by eapply inbound_inv].
Qed.
Definition whatever {A} : A → db → Prop := λ _ _, True.
Lemma mail_done {A} n (a : A) d : own n (ok a) d (told whatever).
Proof. by apply own_ok. Qed.
Lemma staff_edited d org x t t' : (if edit_links org x d then Some (edited x t) else None) = Some t' → by_staff d org t t'.
Proof.
  destruct (edit_links org x d) eqn:E; [|done]. intros [= <-]. apply andb_true_iff in E as [Hc _]. split_and!; [done..|]. cbn.
  destruct (d_client x) as [[c|]|]; cbn; [right; by intros c' [= <-]|right; done|by left].
Qed.
Lemma own_mapped {A} n (f : A → reply) (p : act A) d : own n p d (told whatever) → own n (mapped f p) d (told whatever).
Proof. intros Hp. unfold mapped. eapply own_then; [exact Hp|]. intros. apply mail_done. Qed.
Lemma own_last n p d : own n (and_then p (λ u : unit, ok u)) d (told whatever) → own n p d (told whatever).
Proof.
  revert d. induction p as [[u|e]|C stmt k IH]; intros d H; [by apply own_ok|apply own_fail|]. intros d1 H1 I1. destruct (H d1 H1 I1) as [HG Hk]. split; [exact HG|]. by apply IH.
Qed.
Lemma mail_update n org id x d : own n (updateThread org id x) d (told whatever).
Proof. apply own_last, own_edit; [intros t d1 t'; apply staff_edited|]. intros. apply mail_done. Qed.
Lemma own_assignRoute n org id u b d : own n (assignRoute org id u b) d (told whatever).
Proof.
  unfold assignRoute. eapply (own_then n _ _ _ whatever).
  - destruct b; [|apply mail_done]. apply mail_read. intros d1 H1 I1. destruct (visible_thread org id d1); [|apply own_fail].
    apply own_reading; [apply reading_assignThread|]. intros. apply mail_done.
  - intros c d1 H1 I1 _. apply own_edit; [intros t d2 t' [= <-]; destruct c; split_and!; try done; by left|]. intros d2 H2 I2.
    destruct (match c with Some u => _ | None => _ end); [|apply mail_done]. apply own_last, mail_write. intros d3 H3 I3. split; [by apply (guar_aside n d3 _ []); [..|intros e ?%not_elem_of_nil]|].
    intros. apply mail_done.
Qed.
Lemma own_createRoute n org a id s c p pr u d : own n (createRoute org a id s c p pr u) d (told whatever).
Proof.
  unfold createRoute. apply mail_read. intros d1 H1 I1. apply told_require. intros _.
  assert (own n (createForDelivery org None (create_thread org id (Thread s "DRAFT" (default "NORMAL" (truthy pr)) false (Some c) (truthy p) (Some (default a (truthy u))) None None None None))) d1 (told whatever)) as H; [|exact H].
  eapply (told_mono inv guar n _ _ (found_in None org)); [|by intros]. apply (mail_create n org None); [apply (creates_thread org id (Thread _ _ _ _ _ _ _ None _ _ _))|].
  intros d2 err d3. destruct (negb _); [by intros [= _ <-]|]. destruct (_ || _); [by intros [= _ <-]|done].
Qed.
Lemma own_messageRoute n org id b i d : own n (messageRoute org id b i) d (told whatever).
Proof.
  unfold messageRoute. apply own_edit; [|intros; apply mail_update]. intros t d1 t' [= <-]. split_and!; [done..| |by left]. intros [m Hm]. cbn. by rewrite Hm.
Qed.
Lemma own_analyzeRoute n e id d : own n (analyzeRoute e id) d (told whatever).
Proof.
  unfold analyzeRoute. apply mail_read. intros d1 H1 I1. destruct (match visible_thread _ _ _ with Some t => _ | None => _ end); [|apply own_fail]. cbn zeta.
  apply own_edit; [intros t d2 t' [= <-]; split_and!; try done; by left|]. intros. apply mail_done.
Qed.

(** ** The system *)

Definition replies (i : input) (a : result thrown reply) d : Prop :=
  match i, a with Deliver e m, Ok (Delivered x) => became e (normalizeInboundDeliveryKey sha256 (m_key m)) x d | _, _ => True end.
Lemma replies_noted i a d : match i with Deliver _ _ => False | _ => True end → replies i a d.
Proof. by destruct i. Qed.
Lemma became_any e key a d d' : any d d' → became e key a d → became e key a d'.
Proof.
  intros H. destruct a as [|c p|o]; [done| |]; cbn.
  - intros Hb k Ek. destruct (Hb k Ek) as (id & u & Hu & Hrest). exists id, u. split; [by eapply inbound_kept|done].
  - intros (t & Ht & Hk & Hs). destruct (inbound_thread _ _ _ _ H Ht) as (t' & Ht' & Hk' & Hle & _ & Hv). exists t'. split; [done|]. split; [intros k Ek; rewrite Hk'; by apply Hk|].
    destruct Hs as [Hs|Hs]; [left|right].
    + rewrite Hs in Hle. by apply reached_4.
    + destruct (sees (e_org e) d' t') eqn:E; [|done]. apply Hv in E. congruence.
Qed.
Lemma own_handled n i d : own n (handle n i) d (replies i).
Proof.
  assert (∀ p : act reply, match i with Deliver _ _ => False | _ => True end → own n p d (told whatever) → own n p d (replies i)) as Hweak.
  { intros p Hi Hp. eapply owned_mono; [exact Hp|]. intros a d' _ _ _. by apply replies_noted. }
  destruct i as [e m|org id x|org id u b|org a id s c p pr u|org id b i|e id|us ps rs cs|id c]; cbn [handle].
  - eapply owned_mono; [unfold mapped; eapply own_then; [apply own_deliver|]|].
    + intros x d1 _ _ Hx. apply (own_ok n (Delivered x) d1 (λ a d, match a with Delivered x => became e (normalizeInboundDeliveryKey sha256 (m_key m)) x d | Noted => True end)).
      intros d2 H2 _. by eapply became_any.
    + intros [[x|]|err] d' _ _ Hx; exact Hx || done.
  - apply Hweak; [done|]. by apply own_mapped, mail_update.
  - apply Hweak; [done|]. by apply own_mapped, own_assignRoute.
  - apply Hweak; [done|]. by apply own_mapped, own_createRoute.
  - apply Hweak; [done|]. by apply own_mapped, own_messageRoute.
  - apply Hweak; [done|]. by apply own_mapped, own_analyzeRoute.
  - intros d1 H1 I1. split; [by apply (guar_aside n d1 _ []); [..|intros e ?%not_elem_of_nil]|]. by apply owned_ok.
  - intros d1 H1 I1. split; [apply guar_client|]. by apply owned_ok.
Qed.
(** No thread or email yet. *)
Definition fresh d : Prop := threads d = ∅ ∧ unmatcheds d = ∅ ∧ trail d = [].
Lemma mail_fresh_inv d : fresh d → inv d.
Proof.
  intros (H1 & H2 & H3). split; rewrite ?H1, ?H2; try done. intros id s. unfold effects. rewrite H3. cbn. lia.
Qed.
Lemma inbound_reachable d s :
  fresh d → rtc (step handle) (initial d) s →
  inv (data s) ∧ ∀ n i a, (n, i, Done a) ∈ requests s → replies i a (data s).
Proof.
  intros Hd H. destruct (owned_spec inv guar handle (λ _ i, replies i) (λ n d d' HI HG, g_inv n d d' HG HI) (λ n i d _, own_handled n i d) d s (mail_fresh_inv d Hd) H) as (HI & _ & Hans).
  split; [exact HI|exact Hans].
Qed.
End theory.
End InboundLog.
