(* ===== verification/InboundRuns.v ===== *)
(** * Inbound email: its theorems

    What holds of the system of InboundLog.v, whom a thread is assigned to, when
    two Mailgun deliveries have one key, and two runs that go wrong. *)

From S2P Require Import Prelude Store Async Steps Tenancy AuditLog Json JsNumber Inbound InboundLog.
Import Steps.Steps Inbound.Inbound InboundLog.InboundLog.

Module InboundRuns.

(** ** Assignment *)

Section assignment.
Implicit Types (org id : string) (d : db).

(** A user of the organization who may be given work. *)
Definition works org d id (u : user) : Prop := users d !! id = Some u ∧ a_org u = org ∧ a_active u = true.
Lemma least_Some l id : least l = Some id → ∃ x, x ∈ l ∧ x.1.1 = id ∧ ∀ y, y ∈ l → x.2 ≤ y.2.
Proof.
  unfold least. set (le := λ a b : string * user * Z, a.2 <=? b.2).
  assert (StronglySorted (λ a b, le a b = true) (isort le l)) as Hs.
  { apply isort_sorted; unfold le; [intros x y; destruct (Z.leb_spec x.2 y.2); [by left|right; apply Z.leb_le; lia]|].
    intros x y z. rewrite !Z.leb_le. lia. }
  pose proof (elem_of_isort le) as Hin. destruct (isort le l) as [|x k] eqn:E; [done|]. intros [= <-]. exists x. split; [apply Hin; rewrite E; left|]. split; [done|].
  intros y Hy. apply Hin in Hy. rewrite E in Hy. apply StronglySorted_inv in Hs as [_ Hall]. rewrite Forall_forall in Hall.
  apply elem_of_cons in Hy as [->|Hy]; [done|]. apply Z.leb_le, Hall, Hy.
Qed.
Lemma least_None l : least l = None → l = [].
Proof.
  unfold least. intros H. assert (isort (λ a b : string * user * Z, a.2 <=? b.2) l = []) as E by by destruct (isort _ l).
  apply Permutation_nil. rewrite <-E. apply isort_perm.
Qed.
Lemma candidate_runs org o d : ∃ r, run_alone (candidate org o) d = (Ok r, d) ∧ ∀ id, r = Some id → ∃ u, works org d id u ∧ fits id u d = true.
Proof.
  unfold candidate. destruct (truthy o) as [id|]; [|by exists None]. unfold active_user. rewrite run_read.
  destruct (users d !! id) as [u|] eqn:Eu; [|by exists None]. unfold in_org. case_bool_decide as Ho; [|by exists None]. destruct (a_active u) eqn:Ea; [|by exists None]. cbn [andb].
  unfold hasCapacity. rewrite run_read, Eu. unfold in_org. rewrite bool_decide_eq_true_2 by done. cbn [andb]. eexists. split; [reflexivity|].
  intros id'. destruct (fits id u d) eqn:Ef; [|done]. intros [= <-]. by exists u.
Qed.
Lemma admin_runs org d : ∃ r, run_alone (getAdmin org) d = (Ok r, d) ∧
  match r with Some id => ∃ u, works org d id u ∧ a_role u = "ADMIN" | None => ∀ id u, works org d id u → a_role u ≠ "ADMIN" end.
Proof.
  eexists. split; [reflexivity|]. destruct (head (tselect _ (users d))) as [[id u]|] eqn:E; cbn.
  - apply head_tselect in E as [Hu Hp]. rewrite !andb_true_iff in Hp. destruct Hp as [[Ho%bool_decide_eq_true Hr%bool_decide_eq_true] Ha]. by exists u.
  - intros id u (Hu & Ho & Ha) Hr. pose proof (head_none _ _ _ _ E Hu) as Hf. cbn in Hf. unfold in_org in Hf. rewrite Ha, !bool_decide_eq_true_2 in Hf by done. done.
Qed.
Lemma elem_loaded P f org d x :
  x ∈ List.filter f (loaded d (tselect (λ _ u, in_org org u && a_active u && P u) (users d))) ↔
  ∃ id u, x = (id, u, load id d) ∧ works org d id u ∧ P u = true ∧ f x = true.
Proof.
  rewrite list_elem_of_In, List.filter_In, <-list_elem_of_In. unfold loaded. rewrite list_elem_of_fmap. split.
  - intros [([id u] & -> & [Hu Hp]%tselect_spec) Hf]. rewrite !andb_true_iff in Hp. destruct Hp as [[Ho%bool_decide_eq_true Ha] HP]. exists id, u. by split_and!.
  - intros (id & u & -> & (Hu & Ho & Ha) & HP & Hf). split; [|done]. exists (id, u). split; [done|]. apply tselect_spec. split; [done|].
    unfold in_org. by rewrite Ha, HP, bool_decide_eq_true_2.
Qed.
Lemma skill_runs org i d : ∃ r, run_alone (findBySkill org i) d = (Ok r, d) ∧ ∀ id, r = Some id → ∃ u, works org d id u ∧ fits id u d = true.
Proof.
  eexists. split; [reflexivity|]. intros id (x & Hx & <- & _)%least_Some. apply elem_loaded in Hx as (id & u & -> & Hw & _ & Hf%andb_true_iff). exists u. by destruct Hf.
Qed.
Lemma idle_runs org d : ∃ r, run_alone (findLeastLoaded org) d = (Ok r, d) ∧
  match r with
  | Some id => (∃ u, works org d id u ∧ fits id u d = true) ∧ ∀ id' u', works org d id' u' → fits id' u' d = true → load id d ≤ load id' d
  | None => ∀ id u, works org d id u → fits id u d = false
  end.
Proof.
  assert (tselect (λ _ u, in_org org u && a_active u) (users d) = tselect (λ _ u, in_org org u && a_active u && true) (users d)) as E.
  { apply list_filter_iff. intros [id u]. cbn. by rewrite andb_true_r. }
  eexists. split; [reflexivity|]. rewrite E. destruct (least _) as [id|] eqn:El.
  - apply least_Some in El as (x & Hx & <- & Hmin). apply (elem_loaded (λ _, true)) in Hx as (id & u & -> & Hw & _ & Hf). cbn in *. split; [by exists u|].
    intros id' u' Hw' Hf'. apply (Hmin (id', u', load id' d)). apply (elem_loaded (λ _, true)). by exists id', u'.
  - apply least_None in El. intros id u Hw. destruct (fits id u d) eqn:Hf; [|done].
    assert ((id, u, load id d) ∈ List.filter (room d) (loaded d (tselect (λ _ u, in_org org u && a_active u && true) (users d)))) as Hin by (apply (elem_loaded (λ _, true)); by exists id, u).
    rewrite El in Hin. by apply not_elem_of_nil in Hin.
Qed.
Lemma run_step {A B} (p : act A) (k : A → act B) d a : run_alone p d = (Ok a, d) → run_alone (and_then p k) d = run_alone (k a) d.
Proof. intros H. by rewrite run_and_then, H. Qed.

(** A fair pick for a thread. *)
Definition fair org (t : thread) d (a : assignment) : Prop :=
  match as_user a with
  | Some id => ∃ u, works org d id u ∧ (a_role u = "ADMIN" ∨ fits id u d = true) ∧
      (priority_of t = "CRITICAL" → (∃ i x, works org d i x ∧ a_role x = "ADMIN") → a_role u = "ADMIN") ∧
      (as_rule a = "LOAD_BALANCE" → ∀ id' u', works org d id' u' → fits id' u' d = true → load id d ≤ load id' d) ∧
      (as_rule a = "ESCALATION" → ∀ id' u', works org d id' u' → fits id' u' d = false)
  | None => ∀ id u, works org d id u → fits id u d = false ∧ a_role u ≠ "ADMIN"
  end.
(** A rule that picks somebody with room, or leaves it to the next. *)
Lemma fair_otherwise org t d o r next :
  (∀ id, o = Some id → ∃ u, works org d id u ∧ fits id u d = true) → (priority_of t = "CRITICAL" → ∀ i x, works org d i x → a_role x ≠ "ADMIN") →
  r ≠ "LOAD_BALANCE" → r ≠ "ESCALATION" → (∃ a, run_alone next d = (Ok a, d) ∧ fair org t d a) →
  ∃ a, run_alone (otherwise o r next) d = (Ok a, d) ∧ fair org t d a.
Proof.
  intros Ho Hc H1 H2 Hn. destruct o as [id|]; [|exact Hn]. destruct (Ho id eq_refl) as (u & Hw & Hf). eexists. split; [reflexivity|]. exists u.
  split_and!; [done|by right| |done|done]. intros Hp (i & x & Hx & Hr). by destruct (Hc Hp i x Hx).
Qed.

(** C32 (functional): Whatever the tables hold, auto-assignment answers; whom it
    picks is an active member of the organization with room for another open
    thread, or an administrator; a critical thread goes to an administrator
    whenever the organization has an active one; the one picked to balance the
    load has no more open threads than anyone else with room; and it escalates,
    or picks nobody, only when nobody active has room. *)
Theorem assignThread_fair org t d : ∃ a, run_alone (assignThread org t) d = (Ok a, d) ∧ fair org t d a.
Proof.
  unfold assignThread. destruct (admin_runs org d) as (adm & Ea & Hadm).
  assert (run_alone (if bool_decide (priority_of t = "CRITICAL") then getAdmin org else ok None) d = (Ok (if bool_decide (priority_of t = "CRITICAL") then adm else None), d)) as E0 by (by case_bool_decide).
  rewrite (run_step _ _ _ _ E0). clear E0. destruct (if bool_decide (priority_of t = "CRITICAL") then adm else None) as [id|] eqn:E1; cbn [otherwise].
  { case_bool_decide; [|done]. subst adm. destruct Hadm as (u & Hw & Hr). eexists. split; [reflexivity|]. exists u. split_and!; [done|by left|done|done|done]. }
  assert (priority_of t = "CRITICAL" → ∀ i x, works org d i x → a_role x ≠ "ADMIN") as Hc by (intros Hp; rewrite bool_decide_eq_true_2 in E1 by done; by subst adm). clear E1.
  match goal with |- context [run_alone (and_then ?p _) d] => assert (∃ o, run_alone p d = (Ok o, d) ∧ ∀ id, o = Some id → ∃ u, works org d id u ∧ fits id u d = true) as (o & Eo & Ho) end.
  { destruct (truthy (t_project t)); [rewrite run_read; apply candidate_runs|by exists None]. }
  rewrite (run_step _ _ _ _ Eo). apply fair_otherwise; [exact Ho|exact Hc|done|done|]. clear o Eo Ho.
  match goal with |- context [run_alone (and_then ?p _) d] => assert (∃ o, run_alone p d = (Ok o, d) ∧ ∀ id, o = Some id → ∃ u, works org d id u ∧ fits id u d = true) as (o & Eo & Ho) end.
  { destruct (truthy (t_client t)); [rewrite run_read; apply candidate_runs|by exists None]. }
  rewrite (run_step _ _ _ _ Eo). apply fair_otherwise; [exact Ho|exact Hc|done|done|]. clear o Eo Ho.
  match goal with |- context [findBySkill org ?i] => destruct (skill_runs org i d) as (o & Eo & Ho) end. rewrite (run_step _ _ _ _ Eo).
  apply fair_otherwise; [exact Ho|exact Hc|done|done|]. clear o Eo Ho. destruct (idle_runs org d) as (o & Eo & Ho). rewrite (run_step _ _ _ _ Eo).
  destruct o as [id|]; cbn [otherwise].
  { destruct Ho as [(u & Hw & Hf) Hmin]. eexists. split; [reflexivity|]. exists u. split_and!; [done|by right| |done|done]. intros Hp (i & x & Hx & Hr). by destruct (Hc Hp i x Hx). }
  rewrite (run_step _ _ _ _ Ea). destruct adm as [id|]; cbn [otherwise].
  - destruct Hadm as (u & Hw & Hr). eexists. split; [reflexivity|]. exists u. by split_and!; [|left| | |].
  - eexists. split; [reflexivity|]. intros id u Hw. split; [by eapply Ho|by eapply Hadm].
Qed.
End assignment.

(** ** Delivery keys *)

Lemma normal_key sha256 (Hsha : ∀ x, String.length (sha256 x) = 64%nat) v k : normalizeInboundDeliveryKey sha256 v = Some k → (0 < String.length k ≤ MAX_INBOUND_DELIVERY_KEY_LENGTH)%nat.
Proof.
  destruct v as [v|]; [|done]. cbn [normalizeInboundDeliveryKey]. cbn zeta. case_bool_decide as Hne; [done|]. destruct (_ <? _)%nat eqn:E.
  - intros [= <-]. unfold MAX_INBOUND_DELIVERY_KEY_LENGTH. change (0 < 7 + String.length (sha256 (Audit.trim v)) ≤ 200)%nat. rewrite Hsha. lia.
  - intros [= <-]. apply Nat.ltb_ge in E. split; [|done]. destruct (Audit.trim v); [done|cbn; lia].
Qed.

(** Two Mailgun deliveries without a message id get one key
    exactly when they are the same delivery: equal fields whatever their order,
    the signature block of each attempt aside. *)
Lemma mailgun_redelivered (sha256 : string → string) (sha256_inj : Inj (=) (=) sha256) (body body' : list (string * Json.json)) :
  message_id body = "" → message_id body' = "" → Json.wf (Json.JObj (unsigned body)) = true → Json.wf (Json.JObj (unsigned body')) = true →
  mailgunInboundDeliveryKey sha256 body = mailgunInboundDeliveryKey sha256 body' ↔ Json.canon (Json.JObj (unsigned body)) = Json.canon (Json.JObj (unsigned body')).
Proof.
  intros E E' Hw Hw'. unfold mailgunInboundDeliveryKey. rewrite E, E'. cbn [bool_decide]. rewrite <-(Json.canonicalJson_inj _ _ Hw Hw'). unfold stableStringify. split.
  - intros [= H]. exact (sha256_inj _ _ H).
  - by intros ->.
Qed.

(** ** Deliveries *)

Section system.
Context (sha256 : string → string).
Abbreviation handle := (handle sha256).
Implicit Types (d : db) (s : system (D := db) (Input := input) (Answer := result thrown reply)).

(** C8 (invariant): However deliveries are repeated and interleaved, with each
    other and with what staff do to threads, a delivery key has at most one
    thread and at most one waiting email, never both in sight of one
    organization; and of each thread's pipeline the assignment is announced, the
    project replanned and an answer drafted at most once, the stage marker
    standing at or past each one that was done. *)
Theorem inbound_once d s : fresh d → rtc (step handle) (initial d) s →
  (∀ id st, (effects id st (data s) ≤ 1)%nat ∧ ((0 < effects id st (data s))%nat → (rank st ≤ at_stage id (data s))%nat)) ∧
  (∀ id id' t t' k, threads (data s) !! id = Some t → threads (data s) !! id' = Some t' → t_key t = Some k → t_key t' = Some k → id = id') ∧
  (∀ id id' u u' k, unmatcheds (data s) !! id = Some u → unmatcheds (data s) !! id' = Some u' → u_key u = Some k → u_key u' = Some k → id = id') ∧
  (∀ id id' t u k, threads (data s) !! id = Some t → unmatcheds (data s) !! id' = Some u → t_key t = Some k → u_key u = Some k → sees (u_org u) (data s) t = false).
Proof.
  intros Hd H. destruct (inbound_reachable sha256 d s Hd H) as [HI _]. split; [|split; [exact (inv_key _ HI)|split; [exact (inv_kept _ HI)|exact (inv_apart _ HI)]]].
  intros id st. pose proof (inv_once _ HI id st) as Ho. unfold one_if in Ho. destruct (rank st <=? at_stage id (data s))%nat eqn:E.
  - apply Nat.leb_le in E. split; [exact Ho|by intros _].
  - split; [lia|]. lia.
Qed.

(** C22 (functional): A delivery that is answered with a thread has settled every
    step of it: the thread carries the delivery's key and is complete (unless
    staff have moved it out of the organization's sight meanwhile).  Every other
    answer to the same delivery in the organization names the same thread, calls
    the email spam, or was given when the thread was out of sight. *)
Theorem inbound_resumes d s n e m o :
  fresh d → rtc (step handle) (initial d) s → (n, Deliver e m, Done (Ok (Delivered (Matched o)))) ∈ requests s →
  ∃ t, threads (data s) !! o_thread o = Some t ∧ (t_stage t = Some COMPLETED ∨ sees (e_org e) (data s) t = false) ∧
    ∀ k, normalizeInboundDeliveryKey sha256 (m_key m) = Some k → t_key t = Some k ∧
      ∀ n' e' m' a, (n', Deliver e' m', Done (Ok (Delivered a))) ∈ requests s → e_org e' = e_org e → normalizeInboundDeliveryKey sha256 (m_key m') = Some k →
        match a with Matched o' => o_thread o' = o_thread o | Waiting _ _ => sees (e_org e) (data s) t = false | Spam => True end.
Proof.
  intros Hd H Hin. destruct (inbound_reachable sha256 d s Hd H) as [HI Hans]. destruct (Hans _ _ _ Hin) as (t & Ht & Hk & Hs). exists t. split; [exact Ht|]. split; [exact Hs|].
  intros k Ek. split; [by apply Hk|]. intros n' e' m' a Hin' Eo Ek'. pose proof (Hans _ _ _ Hin') as Ha. cbn in Ha. destruct a as [|c p|o']; [done| |]; cbn in Ha.
  - destruct (Ha k Ek') as (id & u & Hu & Huk & Huo & _). rewrite <-Eo, <-Huo. exact (inv_apart _ HI _ _ _ _ _ Ht Hu (Hk k Ek) Huk).
  - destruct Ha as (t' & Ht' & Hk' & _). exact (inv_key _ HI _ _ _ _ k Ht' Ht (Hk' k Ek') (Hk k Ek)).
Qed.
End system.

(** ** Runs *)

Definition demo_handle := handle (λ x, x).
Definition demo_member (role : string) (capacity : Z) : user := User "org" role true capacity ["Support"].
Definition demo_db : db :=
  Db {["ann" := demo_member "ADMIN" 100; "tom" := demo_member "TEAM" 100]} {["c1" := Client "org" "Acme" "ACTIVE"; "c2" := Client "other" "Rival" "ACTIVE"]}
     [Contact "c1" "a@acme.test"] {["p1" := Project "org" None]} ∅ ∅ ∅ [] [] [] None [].
Definition demo_env (org id urgency : string) (at_ : Z) : env :=
  Env org id 50 80 (λ k, at_ + Z.of_nat k) (Some (Matching (Some (Suggestion "c1" (Some 90))) (Some "p1") false))
    (Some (Analysis (Some "question") (Some urgency) "They ask.")) (Some ["Call back"]) (Some ["Dear Acme"]).
Definition demo_email : email := Email "Hello" "When do we start?" (Some " job-1 ").
Definition run_first (i : input) : list (action (Input := input)) := Arrive i :: replicate 40 (Async.Run 0).
(** Two workers have the same delivery, one is lost; a third resumes it. *)
Definition demo_schedule : list (action (Input := input)) :=
  [Arrive (Deliver (demo_env "org" "t1" "HIGH" 1000) demo_email); Arrive (Deliver (demo_env "org" "t2" "HIGH" 1000) demo_email)] ++
  mjoin (replicate 12 [Async.Run 0; Async.Run 1]) ++ [Lose 1] ++ replicate 40 (Async.Run 0) ++ run_first (Deliver (demo_env "org" "t3" "HIGH" 5000) demo_email).
Definition demo_sys := perform demo_handle demo_schedule (initial demo_db).
Lemma inbound_demo_fresh : fresh demo_db.
Proof. by split_and!. Qed.
Lemma inbound_demo_reached : rtc (step demo_handle) (initial demo_db) demo_sys.
Proof. exact (perform_steps demo_handle demo_schedule (initial demo_db)). Qed.
Definition named (a : result thrown reply) : string :=
  match a with Ok (Delivered (Matched o)) => o_thread o | Ok (Delivered (Waiting _ _)) => "waiting" | Ok (Delivered Spam) => "spam" | Ok Noted => "noted" | Err _ => "error" end.
Example inbound_demo_outcomes :
  ((λ a, named a.2) <$> Async.answers demo_sys) = ["t2"; "t2"] ∧ notifications (data demo_sys) = [("tom", "t2")] ∧
  tasks (data demo_sys) = [Task "p1" "Call back"] ∧ responses (data demo_sys) = [Response "t2" (Some "tom") true].
Proof. vm_compute. split_and!; reflexivity. Qed.

Lemma inbound_once_witness :
  effects "t2" ASSIGNED (data demo_sys) = 1%nat ∧ (∀ st, (effects "t2" st (data demo_sys) ≤ 1)%nat).
Proof.
  split; [vm_compute; reflexivity|]. intros st.
  exact (proj1 (proj1 (inbound_once (λ x, x) demo_db demo_sys inbound_demo_fresh inbound_demo_reached) "t2" st)).
Defined.
Definition demo_deliver (id : string) (at_ : Z) : input := Deliver (demo_env "org" id "HIGH" at_) demo_email.
Lemma inbound_resumes_witness :
  ∃ o o', (1%nat, demo_deliver "t2" 1000, Done (Ok (Delivered (Matched o)))) ∈ requests demo_sys ∧
    (2%nat, demo_deliver "t3" 5000, Done (Ok (Delivered (Matched o')))) ∈ requests demo_sys ∧ o_thread o' = o_thread o.
Proof.
  assert (∃ o o', (1%nat, demo_deliver "t2" 1000, Done (Ok (Delivered (Matched o)))) ∈ requests demo_sys ∧
    (2%nat, demo_deliver "t3" 5000, Done (Ok (Delivered (Matched o')))) ∈ requests demo_sys) as (o & o' & H1 & H2).
  { eexists. eexists. split; [apply (list_elem_of_lookup_2 _ 1); vm_compute; reflexivity|apply (list_elem_of_lookup_2 _ 0); vm_compute; reflexivity]. }
  exists o, o'. split; [exact H1|]. split; [exact H2|].
  destruct (inbound_resumes (λ x, x) demo_db demo_sys _ _ _ _ inbound_demo_fresh inbound_demo_reached H1) as (t & _ & _ & H).
  exact (proj2 (H "job-1" eq_refl) _ _ _ _ H2 eq_refl eq_refl).
Defined.
Definition demo_body (token : string) : list (string * Json.json) := [("token", Json.JStr token); ("subject", Json.JStr "Hi"); ("sender", Json.JStr "a@acme.test")].
Definition demo_again : list (string * Json.json) := [("sender", Json.JStr "a@acme.test"); ("signature", Json.JStr "s2"); ("subject", Json.JStr "Hi")].
Lemma mailgun_redelivered_witness :
  mailgunInboundDeliveryKey (λ x, x) (demo_body "s1") = mailgunInboundDeliveryKey (λ x, x) demo_again.
Proof.
  apply (mailgun_redelivered (λ x, x) (λ x y E, E) (demo_body "s1") demo_again); vm_compute; reflexivity.
Defined.

(** ** What goes wrong *)

(** The cache of clients and contacts has no organization: an email of one is
    matched against those of the other that came before it. *)
Lemma clients_of_another_organization :
  let s := perform demo_handle (run_first (Deliver (demo_env "org" "t1" "LOW" 1000) demo_email) ++
             run_first (Deliver (demo_env "other" "t2" "LOW" 2000) (Email "Hi" "Hello" (Some "job-2")))) (initial demo_db) in
  Asked "other" [("c1", Client "org" "Acme" "ACTIVE")] [Contact "c1" "a@acme.test"] ∈ trail (data s).
Proof. apply (list_elem_of_lookup_2 _ 0). vm_compute. reflexivity. Qed.
(** The thread handed to the assignment is the one loaded before its analysis
    was stored: a critical email goes to the least loaded member. *)
Lemma critical_goes_to_the_team :
  let s := perform demo_handle (run_first (Deliver (demo_env "org" "t1" "CRITICAL" 1000) demo_email)) (initial demo_db) in
  ∃ t, threads (data s) !! "t1" = Some t ∧ t_priority t = "CRITICAL" ∧ t_assignee t = Some "tom" ∧ priority_of t = "CRITICAL" ∧
    run_alone (assignThread "org" t) (data s) = (Ok (Assignment (Some "ann") "CRITICAL_ESCALATION"), data s).
Proof. eexists. split; [vm_compute; reflexivity|]. split_and!; vm_compute; reflexivity. Qed.
End InboundRuns.
