(* ===== verification/ClientText.v ===== *)
(** * Text as JavaScript and PostgreSQL count it

    Questions, answers and names of the client account manager
    (src/src/services/client-agent-memory.service.js): a JavaScript string is a
    list of UTF-16 code units, its length counts them, and PostgreSQL counts
    the code points of the same text.  The size in bytes of a value as
    [JSON.stringify] and as [jsonb::text] print it. *)

From S2P Require Import Prelude.

Module ClientText.

Definition text := list Z.
Definition len {A} (l : list A) : Z := Z.of_nat (length l).
Definition units (s : string) : text := (λ c, Z.of_nat (Ascii.nat_of_ascii c)) <$> String.list_ascii_of_string s.

Definition high (u : Z) : bool := (55296 <=? u) && (u <=? 56319).
Definition low (u : Z) : bool := (56320 <=? u) && (u <=? 57343).

(** [String.prototype.trim]: ECMAScript white space and line terminators. *)
Definition whitespace (u : Z) : bool :=
  ((9 <=? u) && (u <=? 13)) || (u =? 32) || (u =? 160) || (u =? 5760) || ((8192 <=? u) && (u <=? 8202)) ||
  (u =? 8232) || (u =? 8233) || (u =? 8239) || (u =? 8287) || (u =? 12288) || (u =? 65279).
Definition blank (t : text) : bool := forallb whitespace t.
Fixpoint trim_start (t : text) : text := match t with u :: r => if whitespace u then trim_start r else t | [] => [] end.
Definition trim (t : text) : text := reverse (trim_start (reverse (trim_start t))).

(** [value.slice(0, e)]. *)
Definition slice (t : text) (e : Z) : text := take (Z.to_nat (if e <? 0 then Z.max 0 (len t + e) else e)) t.
(** [value[i]], which is undefined outside. *)
Definition unit_at (t : text) (i : Z) : option Z := if i <? 0 then None else t !! Z.to_nat i.

(* src/src/services/client-agent-memory.service.js:5-9 textPrefix *)
Definition textPrefix (value : text) (limit : Z) : text :=
  let e := Z.min (len value) limit in
  let e := if negb (e =? 0) && match unit_at value (e - 1) with Some u => high u | None => false end then e - 1 else e in
  slice value e.

(** A well-formed text has no lone surrogates; PostgreSQL stores only those. *)
Fixpoint wf (t : text) : bool :=
  match t with
  | [] => true
  | u :: r => if high u then match r with v :: r' => low v && wf r' | [] => false end else negb (low u) && wf r
  end.
Fixpoint code_points (t : text) : list Z :=
  match t with
  | [] => []
  | u :: r =>
      match r with
      | v :: r' => if high u && low v then (65536 + (u - 55296) * 1024 + (v - 56320)) :: code_points r' else u :: code_points r
      | [] => [u]
      end
  end.

(** ** JSON *)

#[local] Set Warnings "-register-all".
(** [JDate]: a Date, printed by [toISOString]: four digits of year, or a sign and six. *)
Inductive jv := JN | JB (b : bool) | JD (lexeme : string) | JDate (t : Z) | JT (t : text) | JA (l : list jv) | JO (fields : list (string * jv)).

Definition char_bytes (u : Z) : Z :=
  if existsb (Z.eqb u) [34; 92; 8; 9; 10; 12; 13] then 2
  else if u <? 32 then 6 else if u <? 128 then 1 else if u <? 2048 then 2 else if low u then 6 else 3.
(** A string between its quotes: escapes, UTF-8, and six bytes for a lone surrogate. *)
Fixpoint inner_bytes (t : text) : Z :=
  match t with
  | [] => 0
  | u :: r =>
      if high u then
        match r with v :: r' => if low v then 4 + inner_bytes r' else 6 + inner_bytes r | [] => 6 end
      else char_bytes u + inner_bytes r
  end.
Definition plain_year (t : Z) : bool := (-62167219200000 <=? t) && (t <? 253402300800000).
Definition iso_bytes (t : Z) : Z := if plain_year t then 24 else 27.
Definition sum (l : list Z) : Z := foldr Z.add 0 l.
(** [n] elements have [n - 1] separators. *)
Definition separators (gap : Z) (n : nat) : Z := gap * Z.of_nat (n - 1).
Fixpoint size (gap : Z) (v : jv) : Z :=
  match v with
  | JN => 4
  | JB b => if b then 4 else 5
  | JD lexeme => Z.of_nat (String.length lexeme)
  | JDate t => 2 + iso_bytes t
  | JT t => 2 + inner_bytes t
  | JA l => 2 + separators gap (length l) + sum ((fix go l := match l with [] => [] | x :: l' => size gap x :: go l' end) l)
  | JO fields => 2 + separators gap (length fields) +
      sum ((fix go l := match l with [] => [] | kv :: l' => (2 + Z.of_nat (String.length kv.1) + gap + size gap kv.2) :: go l' end) fields)
  end.
(** [Buffer.byteLength(JSON.stringify(value), 'utf8')]. *)
(* src/src/services/client-agent-memory.service.js:4-4 bytes *)
Definition bytes (v : jv) : Z := size 1 v.
(** [octet_length(value::text)] of a jsonb, which writes a space after every
    comma and colon. *)
Definition jsonb_bytes (v : jv) : Z := size 2 v.

(** ** Lemmas *)

Lemma text_ind2 (P : text → Prop) :
  P [] → (∀ u r, high u = false → P r → P (u :: r)) →
  (∀ u v r, high u = true → low v = true → P r → P (u :: v :: r)) →
  (∀ u r, high u = true → (∀ v r', r = v :: r' → low v = false) → P r → P (u :: r)) → ∀ t, P t.
Proof.
  intros H0 H1 H2 H3 t. induction t as [t IH] using (well_founded_induction (well_founded_ltof _ (@length Z))). unfold ltof in IH.
  destruct t as [|u r]; [done|]. destruct (high u) eqn:Eu; [|apply H1; [done|apply IH; cbn; lia]].
  destruct r as [|v r]; [apply H3; [done..|apply IH; cbn; lia]|].
  destruct (low v) eqn:Ev; [apply H2; [done..|apply IH; cbn; lia]|].
  apply H3; [done| |apply IH; cbn; lia]. by intros v' r' [= <- <-].
Qed.

Lemma low_not_high u : low u = true → high u = false.
Proof. unfold low, high. intros H. bool_simplify. apply andb_false_iff. right. apply Z.leb_gt. lia. Qed.

Lemma wf_app_inv a b : wf a = true → wf (a ++ b) = wf b.
Proof.
  induction a as [|u r Hu IH|u v r Hu Hv IH|u r Hu Hr IH] using text_ind2; cbn; rewrite ?Hu; cbn; [done|..].
  - intros H. bool_simplify. rewrite IH by done. by destruct (low u).
  - rewrite Hv. cbn. apply IH.
  - destruct r as [|v r]; [done|]. by rewrite (Hr v r eq_refl).
Qed.
Lemma code_points_single u r : high u = false → code_points (u :: r) = u :: code_points r.
Proof. intros Hu. destruct r as [|v r]; [done|]. cbn [code_points]. by rewrite Hu. Qed.
Lemma code_points_pair u v r : high u = true → low v = true →
  code_points (u :: v :: r) = (65536 + (u - 55296) * 1024 + (v - 56320)) :: code_points r.
Proof. intros Hu Hv. cbn [code_points]. by rewrite Hu, Hv. Qed.
Lemma code_points_app a b : wf a = true → code_points (a ++ b) = code_points a ++ code_points b.
Proof.
  induction a as [|u r Hu IH|u v r Hu Hv IH|u r Hu Hr IH] using text_ind2; [done|..]; cbn [wf]; rewrite Hu.
  - intros H. apply andb_true_iff' in H as [_ H]. cbn [app]. rewrite !code_points_single, IH by done. done.
  - rewrite Hv. cbn [andb]. intros H. cbn [app]. rewrite !code_points_pair, IH by done. done.
  - destruct r as [|v r]; [done|]. by rewrite (Hr v r eq_refl).
Qed.
Lemma code_points_length t : len (code_points t) ≤ len t.
Proof.
  unfold len. enough (length (code_points t) ≤ length t)%nat by lia.
  induction t as [|u r Hu IH|u v r Hu Hv IH|u r Hu Hr IH] using text_ind2; cbn; rewrite ?Hu; cbn; [done|..].
  - destruct r; cbn in *; [done|]. lia.
  - rewrite Hv. cbn. lia.
  - destruct r as [|v r]; cbn; [done|]. rewrite (Hr v r eq_refl). cbn in *. lia.
Qed.
Lemma code_points_nil t : code_points t = [] → t = [].
Proof. destruct t as [|u [|v r]]; [done..|]. cbn. by destruct (high u && low v). Qed.
Lemma code_points_wf_prefix v a b : v = a ++ b → wf a = true → take (length (code_points a)) (code_points v) = code_points a.
Proof. intros -> H. by rewrite code_points_app, take_app_length. Qed.

Lemma char_bytes_pos u : 1 ≤ char_bytes u ≤ 6.
Proof. unfold char_bytes. repeat case_match; lia. Qed.
Lemma inner_bytes_nonneg t : 0 ≤ inner_bytes t.
Proof.
  induction t as [|u r Hu IH|u v r Hu Hv IH|u r Hu Hr IH] using text_ind2; cbn; rewrite ?Hu; [done|..].
  - pose proof (char_bytes_pos u). lia.
  - rewrite Hv. lia.
  - destruct r as [|v r]; [done|]. rewrite (Hr v r eq_refl). lia.
Qed.

(** *** [textPrefix] *)

Lemma slice_prefix t e : ∃ r, t = slice t e ++ r.
Proof. unfold slice. eexists. by rewrite take_drop. Qed.
Lemma textPrefix_prefix t n : ∃ r, t = textPrefix t n ++ r.
Proof. apply slice_prefix. Qed.
Lemma textPrefix_length t n : 0 ≤ n → len (textPrefix t n) ≤ n.
Proof.
  intros Hn. unfold textPrefix. cbn zeta. set (e := Z.min (len t) n). assert (0 ≤ e ≤ n) as He by (unfold e, len; lia).
  assert (∀ k, 0 ≤ k ≤ n → len (slice t k) ≤ n) as Hs.
  { intros k Hk. unfold slice, len. rewrite length_take. destruct (k <? 0) eqn:E; bool_simplify; lia. }
  destruct (e =? 0) eqn:E; bool_simplify; cbn [negb andb]; [by apply Hs|]. case_match; apply Hs; lia.
Qed.

Lemma wf_high_next t i u : wf t = true → t !! i = Some u → high u = true → ∃ v, t !! S i = Some v ∧ low v = true.
Proof.
  revert i. induction t as [|x r Hx IH|x v r Hx Hv IH|x r Hx Hr IH] using text_ind2; cbn [wf]; rewrite ?Hx; [done|..].
  - intros [|i] H; bool_simplify; [congruence|]. cbn. by apply IH.
  - rewrite Hv. cbn [andb]. intros [|[|i]] H; cbn [lookup list_lookup].
    + intros _ _. by exists v.
    + intros [= <-] Hu. by rewrite (low_not_high v) in Hu.
    + by apply IH.
  - destruct r as [|v r]; [done|]. by rewrite (Hr v r eq_refl).
Qed.
Lemma wf_take t k : wf t = true → (∀ i u, k = S i → t !! i = Some u → high u = false) → wf (take k t) = true.
Proof.
  revert k. induction t as [|x r Hx IH|x v r Hx Hv IH|x r Hx Hr IH] using text_ind2; intros k; [by rewrite take_nil|..]; cbn [wf]; rewrite ?Hx.
  - intros H Hk. destruct k as [|k]; [done|]. cbn [take wf]. rewrite Hx. bool_simplify. rewrite H. cbn. apply IH; [done|].
    intros i u ->. by apply (Hk (S i)).
  - rewrite Hv. cbn [andb]. intros H Hk. destruct k as [|[|k]]; [done|by rewrite (Hk 0%nat x) in Hx|].
    cbn [take wf]. rewrite Hx, Hv. cbn. apply IH; [done|]. intros i u ->. by apply (Hk (S (S i))).
  - destruct r as [|v r]; [done|]. by rewrite (Hr v r eq_refl).
Qed.
(** A prefix never cuts a surrogate pair in two. *)
Lemma textPrefix_wf t n : 0 ≤ n → wf t = true → wf (textPrefix t n) = true.
Proof.
  intros Hn H. unfold textPrefix. cbn zeta. set (e := Z.min (len t) n). assert (0 ≤ e ≤ len t) as He by (unfold e, len; lia).
  assert (∀ k, 0 ≤ k → (∀ i u, Z.to_nat k = S i → t !! i = Some u → high u = false) → wf (slice t k) = true) as Hs.
  { intros k Hk Hh. unfold slice. destruct (k <? 0) eqn:E; bool_simplify; [lia|]. by apply wf_take. }
  unfold unit_at. destruct (e =? 0) eqn:E0; cbn [negb andb].
  { bool_simplify. rewrite E0. apply Hs; [lia|]. intros i u Hi. lia. }
  bool_simplify. destruct (e - 1 <? 0) eqn:E1; bool_simplify; [lia|].
  destruct (t !! Z.to_nat (e - 1)) as [u|] eqn:Eu; [destruct (high u) eqn:Eh|].
  - apply Hs; [lia|]. intros i v Hi Hv. destruct (high v) eqn:Ev; [|done].
    destruct (wf_high_next t i v H Hv Ev) as (w & Hw & Hl). replace (S i) with (Z.to_nat (e - 1)) in Hw by lia.
    simplify_eq. by rewrite low_not_high in Eh.
  - apply Hs; [lia|]. intros i v Hi Hv. replace i with (Z.to_nat (e - 1)) in Hv by lia. congruence.
  - apply Hs; [lia|]. intros i v Hi Hv. replace i with (Z.to_nat (e - 1)) in Hv by lia. congruence.
Qed.

End ClientText.
