(* ===== verification/ClientAgents.v ===== *)
(** * The client account manager: its records and who may use them

    The tables of the staff assistant for one client
    (src/src/services/client-agent-profile.service.js,
    client-agent-conversation.service.js, client-agent-source-authority.service.js,
    client-assistant-context.service.js and the authority of
    workspace-chat.service.js and workspace-account-manager.service.js), and the
    operations that do not concern a run.  Everything inside one transaction acts
    on one state; [trail] notes, newest first, what became of the runs, and no
    code reads it. *)

From S2P Require Import Prelude Store Async Steps Tenancy AuditLog ClientText.
Import Tenancy.Tenancy(mem) ClientText.ClientText Steps.Steps.

Module ClientAgents.

(** ** Rows *)

Record staff := Staff { s_org : string; s_role : string; s_active : bool }.
Record client := Client { c_org : string; c_name : text; c_domain : option text; c_deleted : bool }.
Record project := Project {
  j_org : string; j_client : option string; j_name : text; j_status : text; j_start : option Z; j_end : option Z; j_updated : Z; j_deleted : bool
}.
(** [p_plugins] is a JSON column; None is anything but an array of strings. *)
Record profile := Profile {
  p_org : string; p_client : string; p_name : text; p_instructions : text; p_enabled : bool; p_revision : Z; p_plugins : option (list string)
}.
Record conversation := Conversation {
  v_org : string; v_client : string; v_title : text; v_createdBy : string; v_revision : Z; v_archivedAt : option Z;
  v_channel : option string; v_binding : option string
}.
Record channel := Channel {
  n_org : string; n_kind : string; n_client : option string; n_project : option string; n_archived : bool; n_revision : Z
}.
Record member := Member { m_org : string; m_left : bool }.
Record message := Message { g_org : string; g_channel : string; g_author : string; g_content : text }.
Record binding := Binding {
  b_org : string; b_channel : string; b_client : string; b_project : option string; b_profile : string; b_enabled : bool; b_revision : Z
}.

(** What the model is told of the client, and of the conversation so far. *)
Record project_facts := ProjectFacts { f_id : string; f_name : text; f_status : text; f_start : option Z; f_end : option Z }.
Record snapshot := Snapshot {
  sn_id : string; sn_name : text; sn_domain : option text; sn_projects : list project_facts; sn_truncated : bool
}.
Record turn := Turn { t_runId : string; t_prompt : text; t_response : text; t_responseTruncated : bool }.
Record memory := Memory { turns : list turn; m_truncated : bool }.
#[export] Instance project_facts_eq_dec : EqDecision project_facts. Proof. solve_decision. Defined.
#[export] Instance snapshot_eq_dec : EqDecision snapshot. Proof. solve_decision. Defined.
#[export] Instance turn_eq_dec : EqDecision turn. Proof. solve_decision. Defined.
#[export] Instance memory_eq_dec : EqDecision memory. Proof. solve_decision. Defined.

(* src/prisma/migrations/20261015213000_client_agent_conversations/migration.sql:28-28 status *)
Inductive status := QUEUED | RUNNING | SUCCEEDED | FAILED | CANCELLED | UNKNOWN.
#[export] Instance run_status_eq_dec : EqDecision status.
Proof. solve_decision. Defined.
(** What a run was asked: never changed afterwards. *)
Record asked := Asked_ {
  q_org : string; q_conversation : string; q_by : string; q_key : string; q_hash : string; q_prompt : text; q_createdAt : Z
}.
#[export] Instance asked_eq_dec : EqDecision asked.
Proof. solve_decision. Defined.
Record claim := Claim { k_token : string; k_startedAt : Z; k_deadlineAt : Z }.
#[export] Instance claim_eq_dec : EqDecision claim.
Proof. solve_decision. Defined.
Record run := Run {
  r_asked : asked; r_status : status; r_profileRevision : option Z; r_token : option string; r_startedAt : option Z; r_deadlineAt : option Z;
  r_contextAt : option Z; r_context : option snapshot; r_memory : option memory;
  r_response : option text; r_error : option string; r_finishedAt : option Z
}.
#[export] Instance run_eq_dec : EqDecision run.
Proof. solve_decision. Defined.

Inductive delivery := PENDING | DELIVERED | SUPPRESSED.
#[export] Instance delivery_eq_dec : EqDecision delivery.
Proof. solve_decision. Defined.
Record invoked := Invoked {
  i_org : string; i_binding : string; i_source : string; i_by : string; i_conversation : string; i_key : string; i_hash : string;
  i_bindingRevision : Z; i_profileRevision : Z
}.
(** The invocation of a run, found by the run's id, which is unique. *)
Record invocation := Invocation { i_invoked : invoked; i_state : delivery; i_code : option string; i_deliveredAt : option Z; i_suppressedAt : option Z }.

(** What the provider is asked. *)
Record question := Question {
  a_observedAt : Z; a_snapshot : snapshot; a_memory : memory; a_name : text; a_instructions : text; a_question : text; a_channel : bool
}.
Inductive event :=
  | Claimed (n : nat) (id : string) (k : claim)
  | Prepared (n : nat) (id : string) (q : question) (revision : Z) (who : option staff) (v : option conversation) (p : option profile)
                                     (** context and memory are stored, with the requester, conversation and profile of that moment *)
  | Asked (n : nat) (id : string) (q : question) (at_ : Z)       (** the provider is called, at this reading of the clock *)
  | Answered (n : nat) (id : string) (response : text).          (** and answered with this text *)
Record audit := Audit_ { au_org : string; au_actor : option string; au_action : string; au_entity : string }.
Record domain_event := DomainEvent { de_org : string; de_client : string; de_conversation : string; de_run : string; de_by : string }.

Record db := Db {
  users : gmap string staff; clients : gmap string client; projects : gmap string project; profiles : gmap string profile;
  conversations : gmap string conversation; channels : gmap string channel; members : gmap (string * string) member;
  messages : gmap string message; bindings : gmap string binding;
  runs : gmap string run; reviews : gmap string Z; invocations : gmap string invocation;
  events : list domain_event; audits : list audit; trail : list event
}.
Definition set_profile (id : string) (p : profile) (d : db) : db :=
  Db (users d) (clients d) (projects d) (<[id := p]> (profiles d)) (conversations d) (channels d) (members d) (messages d) (bindings d)
     (runs d) (reviews d) (invocations d) (events d) (audits d) (trail d).
Definition set_conversation (id : string) (v : conversation) (d : db) : db :=
  Db (users d) (clients d) (projects d) (profiles d) (<[id := v]> (conversations d)) (channels d) (members d) (messages d) (bindings d)
     (runs d) (reviews d) (invocations d) (events d) (audits d) (trail d).
Definition set_channel (id : string) (n : channel) (d : db) : db :=
  Db (users d) (clients d) (projects d) (profiles d) (conversations d) (<[id := n]> (channels d)) (members d) (messages d) (bindings d)
     (runs d) (reviews d) (invocations d) (events d) (audits d) (trail d).
Definition set_binding (id : string) (b : binding) (d : db) : db :=
  Db (users d) (clients d) (projects d) (profiles d) (conversations d) (channels d) (members d) (messages d) (<[id := b]> (bindings d))
     (runs d) (reviews d) (invocations d) (events d) (audits d) (trail d).
Definition set_run (id : string) (r : run) (d : db) : db :=
  Db (users d) (clients d) (projects d) (profiles d) (conversations d) (channels d) (members d) (messages d) (bindings d)
     (<[id := r]> (runs d)) (reviews d) (invocations d) (events d) (audits d) (trail d).
Definition set_review (id : string) (at_ : Z) (d : db) : db :=
  Db (users d) (clients d) (projects d) (profiles d) (conversations d) (channels d) (members d) (messages d) (bindings d)
     (runs d) (<[id := at_]> (reviews d)) (invocations d) (events d) (audits d) (trail d).
Definition set_invocation (id : string) (i : invocation) (d : db) : db :=
  Db (users d) (clients d) (projects d) (profiles d) (conversations d) (channels d) (members d) (messages d) (bindings d)
     (runs d) (reviews d) (<[id := i]> (invocations d)) (events d) (audits d) (trail d).
Definition add_event (e : domain_event) (d : db) : db :=
  Db (users d) (clients d) (projects d) (profiles d) (conversations d) (channels d) (members d) (messages d) (bindings d)
     (runs d) (reviews d) (invocations d) (events d ++ [e]) (audits d) (trail d).
Definition add_audit (a : audit) (d : db) : db :=
  Db (users d) (clients d) (projects d) (profiles d) (conversations d) (channels d) (members d) (messages d) (bindings d)
     (runs d) (reviews d) (invocations d) (events d) (audits d ++ [a]) (trail d).
Definition note (e : event) (d : db) : db :=
  Db (users d) (clients d) (projects d) (profiles d) (conversations d) (channels d) (members d) (messages d) (bindings d)
     (runs d) (reviews d) (invocations d) (events d) (audits d) (e :: trail d).

(** ** Errors and transactions *)

(** A [ToolError]; an error of the database, by Prisma's code ([P2002] a unique
    index, [P2034] a serialization conflict); the job's own failures, by code; an
    HTTP error; anything else, a trigger that raises included. *)
Inductive thrown :=
  | ToolError (code : string) (statusCode : Z) | PrismaError (code : string) | Failure (code : string) | HttpError (statusCode : Z) | Crash.
(** [error?.code]. *)
Definition code_of (e : thrown) : option string :=
  match e with ToolError c _ | PrismaError c | Failure c => Some c | _ => None end.
#[export] Instance thrown_eq_dec : EqDecision thrown.
Proof. solve_decision. Defined.
Definition recordNotFound : thrown := ToolError "RECORD_NOT_FOUND" 404.
Definition role_denied : thrown := ToolError "ROLE_DENIED" 403.
Abbreviation act := (steps db thrown).
Definition is_tool_error (e : thrown) : bool := match e with ToolError _ _ => true | _ => false end.

(** [z.string().trim().min(1).max(100)]. *)
Definition parse_id (value : string) : option string :=
  let t := Audit.trim value in if bool_decide (t = "") || (100 <? String.length t)%nat then None else Some t.

(** ** Staff *)

(** The session's user, with the role it was issued for. *)
Record session := Session { u_id : string; u_org : string; u_role : string }.
Record actor := Actor { a_id : string; a_org : string; a_role : string }.
Definition staff_role (r : string) : bool := mem r ["ADMIN"; "TEAM"].
Definition active_user (d : db) (id org : string) : option staff :=
  find_by_id id (λ s, bool_decide (s_org s = org) && s_active s) (users d).
Definition live_client (d : db) (id org : string) : option client :=
  find_by_id id (λ c, bool_decide (c_org c = org) && negb (c_deleted c)) (clients d).

(* src/src/services/client-agent-profile.service.js:30-41 authorizeClientAgentStaff *)
Definition authorizeClientAgentStaff (u : session) (clientId : string) : act actor :=
  _ ←! require (negb (bool_decide (u_id u = "") || bool_decide (u_org u = "") || negb (staff_role (u_role u)))) role_denied;
  row ←! read (λ d, active_user d (u_id u) (u_org u));
  match row with
  | None => fail role_denied
  | Some s =>
      _ ←! require (staff_role (s_role s)) role_denied;
      c ←! read (λ d, live_client d clientId (u_org u));
      match c with Some _ => ok (Actor (u_id u) (u_org u) (s_role s)) | None => fail recordNotFound end
  end.

(** ** The profile *)

Record profile_view := View {
  w_id : option string; w_client : string; w_name : text; w_instructions : text; w_enabled : bool; w_revision : Z; w_plugins : list string
}.
Definition PLUGINS : list string := ["client-work"; "client-task-actions"].
(* src/src/services/client-agent-profile.service.js:24-29 project *)
Definition project_profile (id : string) (p : profile) : profile_view :=
  View (Some id) (p_client p) (p_name p) (p_instructions p) (p_enabled p) (p_revision p) (List.filter (λ x, mem x PLUGINS) (default [] (p_plugins p))).
(** The row of a client: (organizationId, clientId) is unique. *)
Definition profile_of (d : db) (org clientId : string) : option (string * profile) :=
  head (tselect (λ _ p, bool_decide (p_org p = org) && bool_decide (p_client p = clientId)) (profiles d)).
(* src/src/services/client-agent-profile.service.js:55-56 readClientAgentProfile (default) *)
Definition default_profile (clientId : string) : profile_view :=
  View None clientId (units "Account manager") [] true 0 ["client-work"].
(* src/src/services/client-agent-profile.service.js:49-63 readClientAgentProfile *)
Definition readClientAgentProfile (u : session) (clientId : string) : act profile_view :=
  match parse_id clientId with
  | None => fail (ToolError "INVALID_INPUT" 400)
  | Some clientId =>
      _ ←! require (negb (bool_decide (u_org u = ""))) role_denied;
      a ←! authorizeClientAgentStaff u clientId;
      row ←! read (λ d, profile_of d (a_org a) clientId);
      ok (match row with Some (id, p) => project_profile id p | None => default_profile clientId end)
  end.

(** ** The client's facts *)

Definition MAX_PROJECTS : nat := 25.
(** [orderBy: updatedAt desc, id asc]. *)
Definition newest (x y : string * project) : bool :=
  (j_updated y.2 <? j_updated x.2) || ((j_updated x.2 =? j_updated y.2) && String.leb x.1 y.1).
Definition live_projects (d : db) (org clientId : string) : list (string * project) :=
  isort newest (tselect (λ _ j, bool_decide (j_client j = Some clientId) && bool_decide (j_org j = org) && negb (j_deleted j)) (projects d)).
Definition facts_of (x : string * project) : project_facts := ProjectFacts x.1 (j_name x.2) (j_status x.2) (j_start x.2) (j_end x.2).
(* src/src/services/client-assistant-context.service.js:12-42 buildClientAssistantContext *)
Definition buildClientAssistantContext (org clientId : string) : act (option snapshot) :=
  if bool_decide (Audit.trim org = "") || bool_decide (Audit.trim clientId = "") then ok None
  else
    c ←! read (λ d, live_client d clientId org);
    match c with
    | None => ok None
    | Some c =>
        visible ←! read (λ d, take (S MAX_PROJECTS) (live_projects d org clientId));
        ok (Some (Snapshot clientId (c_name c) (c_domain c) (facts_of <$> take MAX_PROJECTS visible) (bool_decide (MAX_PROJECTS < length visible)%nat)))
    end.

(** ** Channels *)

Definition channel_gone : thrown := ToolError "RECORD_NOT_FOUND" 404.
(* src/src/services/workspace-chat.service.js:35-41 actorScope *)
Definition actorScope (u : session) : act actor :=
  _ ←! require (negb (bool_decide (u_id u = "") || bool_decide (u_org u = "") || negb (staff_role (u_role u)))) role_denied;
  row ←! read (λ d, active_user d (u_id u) (u_org u));
  match row with
  | Some s => _ ←! require (staff_role (s_role s)) role_denied; ok (Actor (u_id u) (u_org u) (s_role s))
  | None => fail role_denied
  end.
(** [activeParents]: the channel's client and project, if any, are live. *)
(* src/src/services/workspace-chat.service.js:23-26 activeParents *)
Definition activeParents (d : db) (org : string) (n : channel) : bool :=
  match n_client n with Some c => bool_decide (is_Some (live_client d c org)) | None => true end &&
  match n_project n with
  | Some j => match projects d !! j with Some p => bool_decide (j_org p = org) && negb (j_deleted p) | None => false end
  | None => true
  end.
(* src/src/services/workspace-chat.service.js:29-33 canonicalProject *)
Definition canonicalProject (d : db) (n : channel) : bool :=
  match n_project n with
  | Some j => match projects d !! j with
              | Some p => bool_decide (j_org p = n_org n) && negb (j_deleted p) && bool_decide (j_client p = n_client n)
              | None => false
              end
  | None => true
  end.
Definition is_member (d : db) (org channelId userId : string) : bool :=
  match members d !! (channelId, userId) with Some m => bool_decide (m_org m = org) && negb (m_left m) | None => false end.
(* src/src/services/workspace-chat.service.js:42-47 channelForMember *)
Definition channelForMember (a : actor) (channelId : string) : act channel :=
  _ ←! require (bool_decide (is_Some (parse_id channelId))) (ToolError "INVALID_INPUT" 400);
  n ←! read (λ d, find_by_id channelId (λ n, bool_decide (n_org n = a_org a) && negb (n_archived n) && activeParents d (a_org a) n &&
                      is_member d (a_org a) channelId (a_id a) && canonicalProject d n) (channels d));
  match n with Some n => ok n | None => fail channel_gone end.
(* src/src/services/workspace-chat.service.js:51-62 lockChannel *)
Definition lockChannel (a : actor) (channelId : string) (n : channel) : act unit :=
  done ←! write (λ d,
    match find_by_id channelId (λ m, bool_decide (n_org m = a_org a) && negb (n_archived m) && activeParents d (a_org a) m &&
            match n_project n with
            | Some j => bool_decide (n_project m = Some j) &&
                match projects d !! j with
                | Some p => bool_decide (j_client p = n_client n) && bool_decide (j_org p = a_org a) && negb (j_deleted p)
                | None => false
                end
            | None => true
            end && is_member d (a_org a) channelId (a_id a)) (channels d) with
    | Some m => (true, set_channel channelId (Channel (n_org m) (n_kind m) (n_client m) (n_project m) (n_archived m) (n_revision m + 1)) d)
    | None => (false, d)
    end);
  require done channel_gone.
(* src/src/services/workspace-chat.service.js:263-268 authorizeWorkspaceChatMember *)
Definition authorizeWorkspaceChatMember (u : session) (channelId : string) (lock : bool) : act (actor * channel) :=
  a ←! actorScope u;
  n ←! channelForMember a channelId;
  _ ←! (if lock then lockChannel a channelId n else ok tt);
  ok (a, n).
Definition session_of (a : actor) : session := Session (a_id a) (a_org a) (a_role a).

(* src/src/services/client-agent-source-authority.service.js:4-4 conversationAudience *)
Definition channel_bound (v : conversation) : bool := match v_channel v with Some c => negb (bool_decide (c = "")) | None => false end.
Definition binding_bound (v : conversation) : bool := match v_binding v with Some b => negb (bool_decide (b = "")) | None => false end.
(* src/src/services/client-agent-source-authority.service.js:9-20 authorizeSourceConversation *)
Definition authorizeSourceConversation (a : actor) (v : conversation) (lock : bool) : act unit :=
  if negb (channel_bound v) && negb (binding_bound v) then ok tt
  else if negb (channel_bound v) || negb (binding_bound v) then fail recordNotFound
  else
    let channelId := default "" (v_channel v) in
    an ←! authorizeWorkspaceChatMember (session_of a) channelId lock;
    b ←! read (λ d, find_by_id (default "" (v_binding v))
                (λ b, bool_decide (b_org b = a_org a) && bool_decide (b_channel b = channelId) && bool_decide (b_client b = v_client v)) (bindings d));
    match b with
    | None => fail recordNotFound
    | Some b =>
        let n := an.2 in
        require (mem (n_kind n) ["CLIENT"; "PROJECT"] && bool_decide (n_client n = Some (v_client v)) && bool_decide (b_project b = n_project n)) recordNotFound
    end.

(** ** The account manager of a channel *)

Definition deny : thrown := recordNotFound.
(* src/src/services/workspace-account-manager.service.js:19-22 lockPilotChannel *)
Definition lockPilotChannel (org channelId : string) : act unit :=
  n ←! read (λ d, find_by_id channelId (λ n, bool_decide (n_org n = org)) (channels d));
  require (bool_decide (is_Some n)) deny.
(* src/src/services/workspace-account-manager.service.js:26-34 bindingScope *)
Definition bindingScope (a : actor) (channelId : string) (n : channel) (bindingId : string) (active : bool) : act (binding * profile) :=
  b ←! read (λ d, find_by_id bindingId (λ b, bool_decide (b_channel b = channelId) && bool_decide (b_org b = a_org a)) (bindings d));
  match b with
  | None => fail deny
  | Some b =>
      _ ←! require (mem (n_kind n) ["CLIENT"; "PROJECT"] && match n_client n with Some c => negb (bool_decide (c = "")) | None => false end &&
                    bool_decide (n_client n = Some (b_client b)) && bool_decide (b_project b = n_project n) && (negb active || b_enabled b)) deny;
      p ←! read (λ d, find_by_id (b_profile b) (λ p, bool_decide (p_org p = a_org a) && bool_decide (Some (p_client p) = n_client n)) (profiles d));
      match p with
      | None => fail deny
      | Some p => _ ←! require (negb active || p_enabled p && mem "client-work" (default [] (p_plugins p))) deny; ok (b, p)
      end
  end.

(* src/src/services/workspace-account-manager.service.js:164-180 authorizeWorkspaceAgentRun *)
Definition authorizeWorkspaceAgentRun (runId : string) (r : run) (v : conversation) : act unit :=
  let q := r_asked r in
  let channelId := default "" (v_channel v) in
  current ←! read (λ d, find_by_id (q_conversation q) (λ c, bool_decide (v_org c = q_org q) && bool_decide (v_channel c = v_channel v) &&
                     bool_decide (v_binding c = v_binding v) && bool_decide (v_archivedAt c = None)) (conversations d));
  _ ←! require (match current with Some c => bool_decide (v_client c = v_client v) | None => false end) deny;
  u ←! read (λ d, active_user d (q_by q) (q_org q));
  match u with
  | None => fail deny
  | Some u =>
      an ←! authorizeWorkspaceChatMember (Session (q_by q) (q_org q) (s_role u)) channelId false;
      let n := an.2 in
      row ←! read (λ d, find_by_id runId (λ i, bool_decide (i_org (i_invoked i) = q_org q) && bool_decide (i_conversation (i_invoked i) = q_conversation q)) (invocations d));
      match row with
      | None => fail deny
      | Some i =>
          let o := i_invoked i in
          _ ←! require (bool_decide (i_by o = q_by q) && bool_decide (Some (i_binding o) = v_binding v) && bool_decide (i_state i = PENDING) &&
                        bool_decide (v_org v = q_org q) && bool_decide (Some (v_client v) = n_client n) &&
                        bool_decide (Some (i_profileRevision o) = r_profileRevision r) && bool_decide (i_hash o = q_hash q) && bool_decide (i_key o = q_key q)) deny;
          bp ←! bindingScope an.1 channelId n (i_binding o) true;
          source ←! read (λ d, find_by_id (i_source o) (λ g, bool_decide (g_channel g = channelId) && bool_decide (g_org g = q_org q) &&
                             match active_user d (g_author g) (q_org q) with Some s => staff_role (s_role s) | None => false end) (messages d));
          require (match source with
                   | Some g => bool_decide (trim (g_content g) = q_prompt q) && (p_revision bp.2 =? i_profileRevision o) && (b_revision bp.1 =? i_bindingRevision o)
                   | None => false
                   end) deny
      end
  end.

End ClientAgents.
