(* ===== verification/ClientMemory.v ===== *)
(** * What a run is told of earlier ones

    src/src/services/client-agent-memory.service.js: the last answered turns of
    a conversation, cut to a size, and the triggers of the table that check what
    a run stores of its context and memory
    (prisma/migrations/20261016010000_client_agent_context_evidence and
    20261016020000_client_agent_memory).  [memory_admitted]: the trigger accepts
    what the service builds. *)

From S2P Require Import Prelude Store Async Steps Tenancy AuditLog ClientText ClientAgents.
Import Tenancy.Tenancy(mem) ClientText.ClientText Steps.Steps ClientAgents.ClientAgents.

Module ClientMemory.

(** ** Building *)

Definition MAX_MEMORY_BYTES : Z := 8192.
Definition MAX_AGENT_PROMPT_BYTES : Z := 96 * 1024.

Definition turn_json (t : turn) : jv :=
  JO [("runId", JT (units (t_runId t))); ("prompt", JT (t_prompt t)); ("response", JT (t_response t)); ("responseTruncated", JB (t_responseTruncated t))].
Definition memory_json (m : memory) : jv :=
  JO [("version", JD "1"); ("turns", JA (turn_json <$> turns m)); ("truncated", JB (m_truncated m))].

Abbreviation row := (string * run)%type.
Definition created (x : row) : Z := q_createdAt (r_asked x.2).
(** [x] was asked before a run. *)
Definition before (x : row) (id : string) (r : run) : bool :=
  (created x <? q_createdAt (r_asked r)) || ((created x =? q_createdAt (r_asked r)) && String.ltb x.1 id).
Definition newer_first (x y : row) : bool := (created y <? created x) || ((created x =? created y) && String.leb y.1 x.1).
Definition finished_before (x : run) (cutoff : Z) : bool := match r_finishedAt x with Some t => t <? cutoff | None => false end.
Definition same_conversation (x r : run) : bool :=
  bool_decide (q_org (r_asked x) = q_org (r_asked r)) && bool_decide (q_conversation (r_asked x) = q_conversation (r_asked r)).
Definition unbound (d : db) (conversationId : string) : bool :=
  match conversations d !! conversationId with Some v => bool_decide (v_channel v = None) && bool_decide (v_binding v = None) | None => false end.
Definition earlier (id : string) (r x : run) (xid : string) : bool :=
  same_conversation x r && bool_decide (r_status x = SUCCEEDED) && finished_before x (q_createdAt (r_asked r)) && before (xid, x) id r.

(* src/src/services/client-agent-memory.service.js:13-18 buildClientAgentMemory (rows) *)
Definition recent_rows (id : string) (r : run) (d : db) : list row :=
  take 5 (isort newer_first (tselect (λ xid x, earlier id r x xid && unbound d (q_conversation (r_asked x))) (runs d))).
(* src/src/services/client-agent-memory.service.js:19-24 buildClientAgentMemory (eligible) *)
Definition eligible (id : string) (r : run) (x : row) : bool :=
  earlier id r x.2 x.1 && negb (bool_decide (x.1 = "")) && (String.length x.1 <=? 100)%nat &&
  negb (blank (q_prompt (r_asked x.2))) && (len (q_prompt (r_asked x.2)) <=? 2000) &&
  match r_response x.2 with Some t => negb (blank t) | None => false end.
Fixpoint first_of_id (seen : list string) (l : list row) : list row :=
  match l with [] => [] | x :: l' => if mem x.1 seen then first_of_id seen l' else x :: first_of_id (x.1 :: seen) l' end.
(* src/src/services/client-agent-memory.service.js:27-30 buildClientAgentMemory (turns) *)
Definition turn_of (x : row) : turn :=
  let full := default [] (r_response x.2) in
  let response := textPrefix full 4000 in
  Turn x.1 (q_prompt (r_asked x.2)) response (negb (bool_decide (response = full))).

Definition ROOM : Z := MAX_MEMORY_BYTES - 100.
Definition too_big (m : memory) : bool := ROOM <? bytes (memory_json m).
(* src/src/services/client-agent-memory.service.js:32-32 buildClientAgentMemory (oldest turns) *)
Fixpoint drop_oldest (ts : list turn) (truncated : bool) : memory :=
  match ts with
  | _ :: ((_ :: _) as rest) => if too_big (Memory ts truncated) then drop_oldest rest true else Memory ts truncated
  | _ => Memory ts truncated
  end.
(* src/src/services/client-agent-memory.service.js:33-37 buildClientAgentMemory (longest answer) *)
Fixpoint shorten (fuel : nat) (m : memory) : option memory :=
  match turns m with
  | [] => Some m
  | t :: rest =>
      if negb (too_big m) then Some m
      else match fuel with
           | O => None
           | S fuel =>
               let response := textPrefix (t_response t) (len (t_response t) - 1) in
               shorten fuel (Memory (if blank response then rest else Turn (t_runId t) (t_prompt t) response true :: rest) true)
           end
  end.
(** Every round of the second loop shortens the one turn that is left. *)
Definition rounds (m : memory) : nat := match turns m with t :: _ => S (length (t_response t)) | [] => 0 end.
(* src/src/services/client-agent-memory.service.js:10-40 buildClientAgentMemory *)
Definition memory_of (id : string) (r : run) (rows : list row) : option memory :=
  let unique := first_of_id [] (isort newer_first (List.filter (eligible id r) rows)) in
  let m := drop_oldest (turn_of <$> reverse (take 4 unique)) (bool_decide (4 < length unique)%nat) in
  m ← shorten (rounds m) m;
  Some (Memory (turns m) (m_truncated m || existsb t_responseTruncated (turns m))).
Definition buildClientAgentMemory (id : string) (r : run) : act memory :=
  rows ←! read (recent_rows id r);
  match memory_of id r rows with Some m => ok m | None => fail Crash end.

(** ** The triggers *)

Definition pg_length (t : text) : Z := len (code_points t).
Definition only_spaces (t : text) : bool := forallb (Z.eqb 32) t.

(* src/prisma/migrations/20261016020000_client_agent_memory/migration.sql:39-63 client_agent_memory_guard (turns) *)
Fixpoint turns_valid (table : gmap string run) (id : string) (new : run) (truncated : bool) (previous : option row) (seen : list string) (ts : list turn) : bool :=
  match ts with
  | [] => true
  | t :: rest =>
      let n := Z.of_nat (String.length (t_runId t)) in
      (1 <=? n) && (n <=? 100) && (1 <=? pg_length (t_prompt t)) && (pg_length (t_prompt t) <=? 2000) &&
      negb (only_spaces (t_response t)) && (pg_length (t_response t) <=? 4000) && negb (mem (t_runId t) seen) &&
      match table !! t_runId t with
      | None => false
      | Some x =>
          earlier id new x (t_runId t) && bool_decide (q_prompt (r_asked x) = t_prompt t) &&
          match r_response x with
          | None => false
          | Some full =>
              if t_responseTruncated t then
                (pg_length (t_response t) <? pg_length full) &&
                bool_decide (take (length (code_points (t_response t))) (code_points full) = code_points (t_response t))
              else bool_decide (full = t_response t)
          end &&
          match previous with Some p => before p (t_runId t) x | None => true end &&
          (negb (t_responseTruncated t) || truncated) &&
          turns_valid table id new truncated (Some (t_runId t, x)) (t_runId t :: seen) rest
      end
  end.
(* src/prisma/migrations/20261016020000_client_agent_memory/migration.sql:32-64 client_agent_memory_guard (content) *)
Definition memory_valid (table : gmap string run) (id : string) (new : run) (m : memory) : bool :=
  (jsonb_bytes (memory_json m) <=? 8192) && (len (turns m) <=? 4) && turns_valid table id new (m_truncated m) None [] (turns m).
(* src/prisma/migrations/20261016020000_client_agent_memory/migration.sql:24-31 client_agent_memory_guard (authority) *)
Definition memory_authority (d : db) (new : run) : bool :=
  let q := r_asked new in
  match active_user d (q_by q) (q_org q) with Some s => staff_role (s_role s) | None => false end &&
  match conversations d !! q_conversation q with
  | None => false
  | Some v =>
      bool_decide (v_org v = q_org q) && bool_decide (v_archivedAt v = None) && bool_decide (is_Some (live_client d (v_client v) (q_org q))) &&
      match profile_of d (q_org q) (v_client v) with
      | Some (_, p) => p_enabled p && bool_decide (r_profileRevision new = Some (p_revision p)) && mem "client-work" (default [] (p_plugins p))
      | None => bool_decide (r_profileRevision new = Some 0)
      end
  end.
(* src/prisma/migrations/20261016020000_client_agent_memory/migration.sql:3-66 client_agent_memory_guard *)
Definition client_agent_memory_guard (d : db) (id : string) (old new : run) : bool :=
  bool_decide (r_memory new = r_memory old) ||
  match r_memory old, r_memory new with
  | None, Some m =>
      bool_decide (r_context old = None) && bool_decide (is_Some (r_context new)) && bool_decide (r_status old = RUNNING) && bool_decide (r_status new = RUNNING) &&
      bool_decide (is_Some (r_token new)) && bool_decide (r_token new = r_token old) && bool_decide (is_Some (r_contextAt new)) && bool_decide (r_contextAt old = None) &&
      memory_authority d new && memory_valid (runs d) id new m
  | _, _ => false
  end.

(** ** Sizes *)

Lemma size_turn t : size 2 (turn_json t) = size 1 (turn_json t) + 7.
Proof. unfold turn_json. cbn. unfold separators. cbn. lia. Qed.
Lemma sizes_nonneg g v : 0 ≤ g → 0 ≤ size g (turn_json v).
Proof.
  intros Hg. unfold turn_json. cbn. unfold separators. cbn -[Z.mul]. pose proof (inner_bytes_nonneg (units (t_runId v))).
  pose proof (inner_bytes_nonneg (t_prompt v)). pose proof (inner_bytes_nonneg (t_response v)). case_match; lia.
Qed.
Definition turns_size (g : Z) (ts : list turn) : Z := sum ((λ t, size g (turn_json t)) <$> ts).
Lemma turns_size_cons g t ts : turns_size g (t :: ts) = size g (turn_json t) + turns_size g ts.
Proof. done. Qed.
Lemma turns_size_2 ts : turns_size 2 ts = turns_size 1 ts + 7 * len ts.
Proof.
  unfold len. induction ts as [|t ts IH]; [done|]. rewrite !turns_size_cons, IH, size_turn. cbn [length]. lia.
Qed.
Lemma size_turns g ts : size g (JA (turn_json <$> ts)) = 2 + separators g (length ts) + turns_size g ts.
Proof.
  cbn [size]. rewrite length_fmap. f_equal. unfold turns_size. f_equal.
  induction ts as [|t ts IH]; [done|]. cbn [fmap list_fmap]. by rewrite IH.
Qed.
Lemma size_memory g m : size g (memory_json m) =
  32 + 5 * g + separators g (length (turns m)) + turns_size g (turns m) + (if m_truncated m then 4 else 5).
Proof.
  transitivity (2 + separators g 3 + (10 + g + (7 + g + size g (JA (turn_json <$> turns m)) + (11 + g + (if m_truncated m then 4 else 5) + 0)))).
  - unfold memory_json. cbn. lia.
  - rewrite size_turns. unfold separators at 1. cbn [Z.of_nat Nat.sub Pos.of_succ_nat]. lia.
Qed.

(** The four spaces the jsonb text adds to each turn fit in what was left. *)
Lemma jsonb_room m : (length (turns m) ≤ 4)%nat → too_big m = false → jsonb_bytes (memory_json m) ≤ 8192.
Proof.
  unfold too_big, ROOM, MAX_MEMORY_BYTES, jsonb_bytes, bytes. intros Hl H%Z.ltb_ge. rewrite size_memory in H |- *.
  rewrite turns_size_2. unfold separators, len in *. lia.
Qed.

(** ** What a turn says of its run *)

(** [t] repeats the prompt of [x] and a prefix of its answer, and says so if it is not all. *)
Record tells (x : row) (t : turn) : Prop := {
  tl_id : t_runId t = x.1;
  tl_prompt : t_prompt t = q_prompt (r_asked x.2);
  tl_response : ∃ full rest, r_response x.2 = Some full ∧ full = t_response t ++ rest ∧ (t_responseTruncated t = true → rest ≠ []) ∧
                 (t_responseTruncated t = false → rest = []);
  tl_wf : wf (t_response t) = true;
  tl_length : len (t_response t) ≤ 4000;
  tl_spaces : only_spaces (t_response t) = false
}.
(** The stored answers: well-formed text whose first part is not all spaces. *)
Definition answers_ok (table : gmap string run) : Prop := ∀ id x full,
  table !! id = Some x → r_response x = Some full → wf full = true ∧ only_spaces (textPrefix full 4000) = false.

Lemma turn_of_tells table id r x : answers_ok table → table !! x.1 = Some x.2 → eligible id r x = true → tells x (turn_of x).
Proof.
  intros Hok Hx He. unfold eligible in He. bool_simplify. destruct (r_response x.2) as [full|] eqn:Er; [|done].
  destruct (Hok _ _ _ Hx Er) as [Hwf Hsp]. destruct (textPrefix_prefix full 4000) as (rest & Hr).
  split; unfold turn_of; cbn; rewrite ?Er; cbn; [done|done| | |by apply textPrefix_length|done].
  - exists full, rest. split_and!; [done|done|..]; intros Hb; bool_simplify.
    + intros ->. apply Hb. by rewrite app_nil_r in Hr.
    + rewrite Hb in Hr at 1. apply (f_equal length) in Hr. rewrite length_app in Hr. apply length_zero_iff_nil. lia.
  - by apply textPrefix_wf.
Qed.

Lemma tells_shorter x t : tells x t → blank (textPrefix (t_response t) (len (t_response t) - 1)) = false →
  t_response t ≠ [] ∧ tells x (Turn (t_runId t) (t_prompt t) (textPrefix (t_response t) (len (t_response t) - 1)) true).
Proof.
  intros [Hid Hp (full & rest & Hf & Hr & _ & _) Hwf Hl _] Hb. destruct (textPrefix_prefix (t_response t) (len (t_response t) - 1)) as (more & Hm).
  assert (t_response t ≠ []) as Hne by (intros E; by rewrite E in Hb). split; [done|].
  assert (0 ≤ len (t_response t) - 1) as Hpos by (unfold len; destruct (t_response t); [done|]; cbn; lia).
  pose proof (textPrefix_length (t_response t) _ Hpos) as Hle. split; cbn; [done|done| |by apply textPrefix_wf|lia|].
  - exists full, (more ++ rest). rewrite app_assoc, <-Hm. split_and!; [done|done| |done]. intros _ [-> ->]%app_nil.
    rewrite app_nil_r in Hm. rewrite <-Hm in Hle. lia.
  - apply not_true_iff_false. intros E. apply not_true_iff_false in Hb. apply Hb. unfold blank, only_spaces in *.
    rewrite forallb_forall in *. intros u Hu. apply E, Z.eqb_eq in Hu as <-. done.
Qed.

(** ** What the loops keep *)

Definition told (xs : list row) (ts : list turn) : Prop := ∃ ys, suffix ys xs ∧ Forall2 tells ys ts.

Lemma told_tail xs t ts : told xs (t :: ts) → told xs ts.
Proof.
  intros (ys & Hs & H). inversion H as [|y t' ys' ts' _ H' E1 E2]; subst. exists ys'. split; [|done].
  destruct Hs as (k & ->). exists (k ++ [y]). by rewrite <-app_assoc.
Qed.
Lemma drop_oldest_told xs ts tr : told xs ts → told xs (turns (drop_oldest ts tr)).
Proof.
  revert tr. induction ts as [|t [|t' ts] IH]; intros tr H; [done..|]. cbn [drop_oldest]. case_match; [|done].
  apply IH. by eapply told_tail.
Qed.
Lemma drop_oldest_small ts tr : too_big (drop_oldest ts tr) = true → (length (turns (drop_oldest ts tr)) ≤ 1)%nat.
Proof.
  revert tr. induction ts as [|t [|t' ts] IH]; intros tr; [cbn; lia..|]. cbn [drop_oldest]. case_match; [apply IH|]. congruence.
Qed.
Lemma shorten_told xs fuel m m' : told xs (turns m) → shorten fuel m = Some m' → told xs (turns m').
Proof.
  revert m. induction fuel as [|fuel IH]; intros m H; cbn [shorten]; destruct (turns m) as [|t ts] eqn:E; try (by intros [= <-]; rewrite E);
    (destruct (too_big m); cbn [negb]; [|by intros [= <-]; rewrite E]); [done|].
  apply IH. cbn [turns]. destruct (blank _) eqn:Eb; [by eapply told_tail|]. destruct H as (ys & Hs & H).
  inversion H as [|y t' ys' ts' Ht H' E1 E2]; subst. exists (y :: ys'). split; [done|]. constructor; [|done]. by apply tells_shorter.
Qed.
Lemma shorten_length fuel m m' : shorten fuel m = Some m' → (length (turns m') ≤ length (turns m))%nat.
Proof.
  revert m. induction fuel as [|fuel IH]; intros m; cbn [shorten]; destruct (turns m) as [|t ts] eqn:E; try (by intros [= <-]; rewrite E);
    (destruct (too_big m); cbn [negb]; [|by intros [= <-]; rewrite E]); [done|]. intros H%IH. cbn [turns] in H. cbn. case_match; cbn in H; lia.
Qed.
Lemma shorten_fits fuel m m' : shorten fuel m = Some m' → too_big m' = false.
Proof.
  assert (turns m = [] → too_big m = false) as Hnil by (unfold too_big, bytes; intros E; rewrite size_memory, E; by destruct (m_truncated m)).
  revert m Hnil. induction fuel as [|fuel IH]; intros m Hnil; cbn [shorten]; destruct (turns m) as [|t ts]; try (intros [= <-]; by apply Hnil);
    destruct (too_big m) eqn:Eb; cbn [negb]; try (by intros [= <-]).
  apply IH. intros E. unfold too_big, bytes. rewrite size_memory, E. done.
Qed.
Lemma shorten_answers fuel m : (too_big m = true → (length (turns m) ≤ 1)%nat) → (rounds m ≤ fuel)%nat → is_Some (shorten fuel m).
Proof.
  revert m. induction fuel as [|fuel IH]; intros m Hl Hr; unfold rounds in Hr; cbn [shorten]; destruct (turns m) as [|t ts] eqn:E;
    try (by eexists); (destruct (too_big m) eqn:Eb; cbn [negb]; [|by eexists]); [cbn in Hr; lia|].
  specialize (Hl eq_refl). destruct ts as [|t' ts]; [|cbn in Hl; lia]. apply IH; cbn [turns]; [intros _; case_match; cbn; lia|].
  unfold rounds. cbn [turns]. destruct (blank _) eqn:Ebl; [lia|]. cbn.
  assert (t_response t ≠ []) as Hne by (intros E'; by rewrite E' in Ebl).
  enough (len (textPrefix (t_response t) (len (t_response t) - 1)) ≤ len (t_response t) - 1) by (unfold len in *; lia).
  apply textPrefix_length. unfold len. destruct (t_response t); [done|]. cbn. lia.
Qed.

(** ** Order *)

Definition precedes (x y : row) : Prop := before x y.1 y.2 = true.

Lemma newer_total x y : newer_first x y = true ∨ newer_first y x = true.
Proof.
  unfold newer_first. destruct (Z.lt_trichotomy (created x) (created y)) as [H|[H|H]].
  - right. by apply orb_true_iff; left; apply Z.ltb_lt.
  - rewrite H, Z.eqb_refl, Z.ltb_irrefl. cbn. destruct (string_leb_total y.1 x.1); auto.
  - left. by apply orb_true_iff; left; apply Z.ltb_lt.
Qed.
Lemma newer_trans x y z : newer_first x y = true → newer_first y z = true → newer_first x z = true.
Proof.
  unfold newer_first. rewrite !orb_true_iff, !andb_true_iff, !Z.ltb_lt, !Z.eqb_eq.
  intros [H1|[H1 L1]] [H2|[H2 L2]]; [left; lia..|]. right. split; [lia|]. by eapply string_leb_trans.
Qed.
Lemma newer_precedes x y : newer_first x y = true → x.1 ≠ y.1 → precedes y x.
Proof.
  unfold newer_first, precedes, before, created. rewrite !orb_true_iff, !andb_true_iff. intros [H|[H L]] Hne; [by left|right].
  apply Z.eqb_eq in H. split; [by apply Z.eqb_eq|]. unfold String.leb, String.ltb in *. destruct (String.compare y.1 x.1) eqn:E; [|done..].
  apply String.compare_eq_iff in E. by rewrite E in Hne.
Qed.

Lemma first_of_id_sublist seen l : sublist (first_of_id seen l) l.
Proof. revert seen. induction l as [|x l IH]; intros seen; [done|]. cbn. case_match; [by constructor|by constructor]. Qed.
Lemma first_of_id_nodup seen l : NoDup (first_of_id seen l).*1 ∧ ∀ i, i ∈ (first_of_id seen l).*1 → i ∉ seen.
Proof.
  revert seen. induction l as [|x l IH]; intros seen; cbn; [split; [constructor|by intros i ?%not_elem_of_nil]|].
  destruct (mem x.1 seen) eqn:E; [apply IH|]. destruct (IH (x.1 :: seen)) as [Hn Hs]. cbn. split.
  - constructor; [|done]. intros Hx. apply (Hs _ Hx). left.
  - intros i [->|Hi]%elem_of_cons; [unfold mem in E; by apply bool_decide_eq_false in E|]. intros Hin. apply (Hs i Hi). by right.
Qed.
Lemma sorted_sublist {A} (R : relation A) l k : sublist l k → StronglySorted R k → StronglySorted R l.
Proof.
  induction 1 as [|x l k H IH|x l k H IH]; [done|..]; intros Hs; inversion_clear Hs as [|? ? Hk Hx]; [|by apply IH].
  constructor; [by apply IH|]. rewrite Forall_forall in *. intros y Hy. apply Hx. by eapply elem_of_sublist.
Qed.
Lemma sorted_reverse {A} (R R' : relation A) l :
  NoDup l → (∀ x y, x ∈ l → y ∈ l → x ≠ y → R x y → R' y x) → StronglySorted R l → StronglySorted R' (reverse l).
Proof.
  induction l as [|x l IH]; intros Hn Hr Hs; [constructor|]. inversion_clear Hs as [|? ? Hl Hx]. apply NoDup_cons in Hn as [Hni Hn].
  rewrite reverse_cons. apply StronglySorted_app_2.
  - intros y z Hy Hz%list_elem_of_singleton. subst z. rewrite elem_of_reverse in Hy. rewrite Forall_forall in Hx.
    apply Hr; [left|by right|intros E; by subst|by apply Hx].
  - apply IH; [done| |done]. intros y z Hy Hz. apply Hr; by right.
  - repeat constructor.
Qed.

(** ** The turns the trigger sees *)

Lemma earlier_asked id r new x xid : r_asked new = r_asked r → earlier id new x xid = earlier id r x xid.
Proof. unfold earlier, same_conversation, before. by intros ->. Qed.

Lemma tells_valid table id r new tr previous seen y t rest :
  r_asked new = r_asked r → table !! y.1 = Some y.2 → eligible id r y = true → tells y t → y.1 ∉ seen →
  (∀ p, previous = Some p → precedes p y) → (t_responseTruncated t = true → tr = true) →
  turns_valid table id new tr (Some y) (y.1 :: seen) rest = true → turns_valid table id new tr previous seen (t :: rest) = true.
Proof.
  intros Hq Hy He [Hid Hp (full & more & Hf & Hfull & Ht1 & Ht2) Hwf Hlen Hsp] Hni Hprev Htr Hrest. unfold eligible in He.
  rewrite !andb_true_iff in He. destruct He as [[[[[H Hne] Hid100%Nat.leb_le] Hb%negb_true_iff] H2000%Z.leb_le] _].
  assert (1 ≤ pg_length (q_prompt (r_asked y.2))) as Hpos.
  { unfold pg_length, len. destruct (code_points (q_prompt (r_asked y.2))) eqn:E; [|cbn; lia]. apply code_points_nil in E. by rewrite E in Hb. }
  assert (pg_length (q_prompt (r_asked y.2)) ≤ 2000) as Hle by (pose proof (code_points_length (q_prompt (r_asked y.2))); unfold pg_length; lia).
  assert (pg_length (t_response t) ≤ 4000) as Hle' by (pose proof (code_points_length (t_response t)); unfold pg_length; lia).
  assert (1 ≤ Z.of_nat (String.length y.1) ≤ 100) as Hyl.
  { destruct y as [i x]; cbn [fst snd] in *. destruct i; [done|]. cbn [String.length] in *. lia. }
  cbn [turns_valid]. rewrite Hid, Hp, Hy, (earlier_asked _ _ _ _ _ Hq), H, Hf, Hsp. cbn zeta.
  replace (mem y.1 seen) with false by (symmetry; by apply bool_decide_eq_false). rewrite bool_decide_refl.
  rewrite !andb_true_iff, !Z.leb_le. split_and!; try done; try lia.
  - destruct (t_responseTruncated t).
    + apply andb_true_iff. split.
      * apply Z.ltb_lt. unfold pg_length, len. rewrite Hfull, code_points_app by done. rewrite length_app.
        destruct (code_points more) eqn:E; [|cbn; lia]. apply code_points_nil in E. by destruct (Ht1 eq_refl).
      * apply bool_decide_eq_true. by eapply code_points_wf_prefix.
    + apply bool_decide_eq_true. rewrite Hfull, (Ht2 eq_refl). by rewrite app_nil_r.
  - destruct previous as [p|]; [by apply Hprev|done].
  - destruct (t_responseTruncated t); [by apply Htr|done].
  - by destruct y.
Qed.

Lemma told_valid table id r new tr ys ts previous seen :
  r_asked new = r_asked r → Forall2 tells ys ts → (∀ y, y ∈ ys → table !! y.1 = Some y.2 ∧ eligible id r y = true) →
  StronglySorted precedes ys → NoDup ys.*1 → (∀ y, y ∈ ys → y.1 ∉ seen) → (∀ p y, previous = Some p → y ∈ ys → precedes p y) →
  (∀ t, t ∈ ts → t_responseTruncated t = true → tr = true) → turns_valid table id new tr previous seen ts = true.
Proof.
  intros Hq H. revert previous seen. induction H as [|y t ys ts Ht _ IH]; intros previous seen Hin Hs Hnd Hseen Hprev Htr; [done|].
  inversion_clear Hs as [|? ? Hss Hlt]. cbn in Hnd. apply NoDup_cons in Hnd as [Hni Hnd]. destruct (Hin y) as [Hy He]; [left|].
  apply (tells_valid table id r new tr previous seen y t ts); try done.
  - apply Hseen. left.
  - intros p Hp. apply Hprev; [done|left].
  - apply Htr. left.
  - apply IH; try done.
    + intros z Hz. apply Hin. by right.
    + intros z Hz [E|Hz']%elem_of_cons; [|apply (Hseen z); [by right|done]]. apply Hni. rewrite <-E. by apply list_elem_of_fmap_2.
    + intros p z [= <-] Hz. rewrite Forall_forall in Hlt. by apply Hlt.
    + intros u Hu. apply Htr. by right.
Qed.

Definition chronicle (id : string) (r : run) (rows : list row) : list row :=
  reverse (take 4 (first_of_id [] (isort newer_first (List.filter (eligible id r) rows)))).

Lemma chronicle_spec id r d :
  let xs := chronicle id r (recent_rows id r d) in
  (length xs ≤ 4)%nat ∧ (∀ x, x ∈ xs → runs d !! x.1 = Some x.2 ∧ eligible id r x = true) ∧ StronglySorted precedes xs ∧ NoDup xs.*1.
Proof.
  cbn zeta. unfold chronicle. set (l := isort newer_first _). pose proof (first_of_id_sublist [] l) as Hsub.
  destruct (first_of_id_nodup [] l) as [Hnd _]. set (u := first_of_id [] l) in *.
  assert (sublist (take 4 u) u) as Ht by apply sublist_take.
  assert (NoDup (take 4 u).*1) as Hnd4 by (eapply sublist_NoDup; [exact Hnd|by apply fmap_sublist]).
  split_and!.
  - rewrite length_reverse, length_take. lia.
  - intros x Hx. rewrite elem_of_reverse in Hx. assert (x ∈ l) as Hl by (eapply elem_of_sublist; [exact Hx|by etransitivity]).
    unfold l in Hl. rewrite elem_of_isort, list_elem_of_In, filter_In, <-list_elem_of_In in Hl. destruct Hl as [Hr He]. split; [|done].
    eapply elem_of_sublist in Hr; [|apply sublist_take]. rewrite elem_of_isort in Hr. apply tselect_elem in Hr as [Hr _]. exact Hr.
  - apply (sorted_reverse (λ x y, newer_first x y = true)).
    + by eapply NoDup_fmap_1.
    + intros x y Hx Hy Hne H. apply newer_precedes; [done|]. intros E. apply Hne.
      apply list_elem_of_lookup in Hx as (i & Hi), Hy as (j & Hj). assert (i = j) as ->; [|congruence].
      eapply NoDup_lookup; [exact Hnd4|by rewrite list_lookup_fmap, Hi|by rewrite list_lookup_fmap, Hj, E].
    + eapply sorted_sublist; [exact Ht|]. eapply sorted_sublist; [exact Hsub|]. apply isort_sorted; [apply newer_total|apply newer_trans].
  - rewrite fmap_reverse. eapply NoDup_Permutation_proper; [apply reverse_Permutation|done].
Qed.

Lemma memory_of_told id r d :
  answers_ok (runs d) → let rows := recent_rows id r d in
  ∃ m, memory_of id r rows = Some m ∧ too_big m = false ∧ told (chronicle id r rows) (turns m) ∧ (length (turns m) ≤ 4)%nat ∧
       ∀ t, t ∈ turns m → t_responseTruncated t = true → m_truncated m = true.
Proof.
  intros Hok. cbn zeta. destruct (chronicle_spec id r d) as (Hlen & Hin & _). set (rows := recent_rows id r d) in *.
  unfold memory_of. set (u := first_of_id [] _). set (m0 := drop_oldest _ _).
  assert (told (chronicle id r rows) (turns m0)) as H0.
  { apply drop_oldest_told. exists (chronicle id r rows). split; [done|]. unfold chronicle in *. fold u in Hin |- *.
    apply Forall2_fmap_r, Forall_Forall2_diag, Forall_forall. intros x Hx. destruct (Hin x Hx) as [Hx' He]. by eapply turn_of_tells. }
  destruct (shorten_answers (rounds m0) m0) as (m1 & H1); [apply drop_oldest_small|done|].
  rewrite H1. cbn [mbind option_bind]. eexists. split; [done|]. cbn [turns m_truncated].
  pose proof (shorten_told _ _ _ _ H0 H1) as Ht. destruct Ht as (ys & Hsuf & Hf).
  split_and!.
  - apply shorten_fits in H1. unfold too_big, bytes in *. rewrite size_memory in *. cbn [turns m_truncated]. apply Z.ltb_ge in H1. apply Z.ltb_ge.
    destruct (m_truncated m1); cbn [orb]; [done|]. case_match; lia.
  - by exists ys.
  - destruct Hsuf as (k & Hk). rewrite <-(Forall2_length _ _ _ Hf). rewrite Hk, length_app in Hlen. lia.
  - intros t Hin' Htr. apply orb_true_iff. right. apply existsb_exists. exists t. by rewrite <-list_elem_of_In.
Qed.


(** ** Examples *)

Definition answered (at_ : Z) (prompt response : text) : run :=
  Run (Asked_ "o" "v" "u" "" "" prompt at_) SUCCEEDED (Some 0) (Some "t") (Some at_) (Some (at_ + 120000)) None None None
    (Some response) None (Some (at_ + 5)).
Definition asking : run :=
  Run (Asked_ "o" "v" "u" "" "" (units "And now?") 900) QUEUED (Some 0) None None None None None None None None None.
Definition with_runs (l : list (string * run)) : db :=
  Db ∅ ∅ ∅ ∅ {["v" := Conversation "o" "c" (units "Title") "u" 0 None None None]} ∅ ∅ ∅ ∅ (list_to_map l) ∅ ∅ [] [] [].
(** Three-byte letters, and an emoji across the 4000th unit. *)
Definition chinese (n : nat) : text := replicate n 20013.
Definition emoji : text := [55357; 56832].
Definition history : db :=
  with_runs [("r1", answered 100 (units "First?") (units "An old answer.")); ("r2", answered 200 (units "Second?") (replicate 3999 97 ++ emoji ++ units "tail"));
             ("r3", answered 300 (units "Third?") (chinese 2000)); ("r4", answered 950 (units "Later?") (units "Too late."))].
Definition check_answers (table : gmap string run) : bool :=
  forallb (λ ir, match r_response ir.2 with Some t => wf t && negb (only_spaces (textPrefix t 4000)) | None => true end) (map_to_list table).
Lemma check_answers_ok table : check_answers table = true → answers_ok table.
Proof.
  unfold check_answers. rewrite forallb_forall. intros H id x full Hx Hr. specialize (H (id, x)). rewrite <-list_elem_of_In, elem_of_map_to_list in H.
  specialize (H Hx). cbn in H. rewrite Hr in H. apply andb_true_iff in H as [Hw Hs%negb_true_iff]. done.
Qed.

Definition outline (d : db) : option (list string * bool * list Z) :=
  (λ m, (t_runId <$> turns m, m_truncated m, (λ t, len (t_response t)) <$> turns m)) <$> memory_of "r9" asking (recent_rows "r9" asking d).
(** The two oldest turns are dropped for the size; alone, the second is cut
    before the emoji, and a longer answer until it fits. *)
Lemma history_memory :
  outline history = Some (["r3"], true, [2000]) ∧
  outline (with_runs [("r2", answered 200 (units "Second?") (replicate 3999 97 ++ emoji ++ units "tail"))]) = Some (["r2"], true, [3999]) ∧
  outline (with_runs [("r3", answered 300 (chinese 2000) (chinese 700))]) = Some (["r3"], true, [662]).
Proof. split_and!; vm_compute; reflexivity. Qed.


(** An answer whose first 4000 characters are spaces is kept as a blank turn,
    which the trigger refuses. *)
Definition padded : db := with_runs [("r1", answered 100 (units "First?") (replicate 4000 32 ++ units "Done."))].
Lemma blank_turn_refused :
  ∃ m, memory_of "r9" asking (recent_rows "r9" asking padded) = Some m ∧ memory_valid (runs padded) "r9" asking m = false.
Proof. eexists. split; [vm_compute; reflexivity|]. vm_compute. reflexivity. Qed.

End ClientMemory.
