(* ===== verification/ClientRuns.v ===== *)
(** * Runs of the client account manager

    src/src/jobs/client-agent-run.js (one claimant, one call of the provider),
    src/src/jobs/client-agent-run-recovery.js, the requests of
    src/src/services/client-agent-run.service.js and the channel's side of them in
    src/src/services/workspace-account-manager.service.js.  A function is cut at
    its awaits; a transaction is one statement. *)

From S2P Require Import Prelude Store Async Steps Tenancy AuditLog ClientText ClientAgents ClientMemory.
Import Tenancy.Tenancy(mem, toLowerCase) ClientText.ClientText Steps.Steps ClientAgents.ClientAgents ClientMemory.ClientMemory.

Module ClientRuns.

(** ** Surroundings *)

(** What the provider's client does within the deadline. *)
Inductive reply := Text (t : text) | NotText | ChatError (code : option string) | DeadlineHit.
(** What the deployment does during one request: the clock's readings, the ids
    of new rows, whether audit and event rows are written, whether a serializable
    transaction is aborted, whether a read of the preflight fails. *)
Record env := Env {
  clock : nat → Z; e_id : nat → string; e_audit : bool; e_event : bool; e_aborts : nat → bool; e_unreadable : bool; e_reply : reply
}.

Definition MAX_DURATION_MS : Z := 120000.
Definition MAX_RESPONSE_LENGTH : Z := 20000.
Definition QUEUE_MAX_AGE_MS : Z := 10 * 60 * 1000.
(* src/src/jobs/client-agent-run.js:21-21 validId *)
Definition validId (value : string) : bool := negb (bool_decide (Audit.trim value = "")) && (String.length value <=? 100)%nat.
(* src/src/jobs/client-agent-run.js:23-24 PRE_DISPATCH_CODES *)
Definition PRE_DISPATCH_CODES : list string :=
  ["ROLE_DENIED"; "RECORD_NOT_FOUND"; "CLIENT_AGENT_PAUSED"; "CLIENT_AGENT_PLUGIN_DISABLED"; "RUN_INPUT_INVALID"; "CONTEXT_TOO_LARGE"].
(* src/src/services/client-agent-run.service.js:19-19 activeStatuses *)
Definition active (s : status) : bool := match s with QUEUED | RUNNING => true | _ => false end.
Definition terminal (s : status) : bool := negb (active s).

(** ** JSON of what is stored and sent *)

Definition nullable (t : option text) : jv := match t with Some t => JT t | None => JN end.
Definition date_json (t : option Z) : jv := match t with Some t => JDate t | None => JN end.
Definition project_json (p : project_facts) : jv :=
  JO [("id", JT (units (f_id p))); ("name", JT (f_name p)); ("status", JT (f_status p)); ("startDate", date_json (f_start p)); ("endDate", date_json (f_end p))].
Definition snapshot_json (s : snapshot) : jv :=
  JO [("client", JO [("id", JT (units (sn_id s))); ("name", JT (sn_name s)); ("domain", nullable (sn_domain s))]);
      ("projects", JA (project_json <$> sn_projects s)); ("truncated", JB (sn_truncated s))].
(* src/src/jobs/client-agent-run.js:110-111 prompt *)
Definition prompt_json (q : question) : jv :=
  JO [("observedAt", JDate (a_observedAt q)); ("snapshot", snapshot_json (a_snapshot q)); ("memorySnapshot", memory_json (a_memory q));
      ("preferences", JO [("name", JT (a_name q)); ("instructions", JT (a_instructions q))]); ("question", JT (a_question q))].

(** ** The context trigger *)

Definition text_within (lo hi : Z) (t : text) : bool := (lo <=? pg_length t) && (pg_length t <=? hi).
(* src/prisma/migrations/20261016010000_client_agent_context_evidence/migration.sql:5-34 client_agent_context_valid *)
Definition client_agent_context_valid (s : snapshot) : bool :=
  (jsonb_bytes (JO [("version", JD "1"); ("snapshot", snapshot_json s)]) <=? 65536) &&
  text_within 1 100 (units (sn_id s)) && text_within 0 2000 (sn_name s) && match sn_domain s with Some t => text_within 0 2048 t | None => true end &&
  (length (sn_projects s) <=? 25)%nat &&
  forallb (λ p, text_within 1 100 (units (f_id p)) && text_within 0 2000 (f_name p) && text_within 0 100 (f_status p) &&
                match f_start p with Some t => plain_year t | None => true end && match f_end p with Some t => plain_year t | None => true end) (sn_projects s).
(* src/prisma/migrations/20261016010000_client_agent_context_evidence/migration.sql:41-62 client_agent_context_guard *)
Definition client_agent_context_guard (d : db) (old new : run) : bool :=
  negb (bool_decide (is_Some (r_context old)) && negb (bool_decide (r_profileRevision new = r_profileRevision old))) &&
  (bool_decide (r_contextAt new = r_contextAt old) && bool_decide (r_context new = r_context old) ||
   bool_decide (r_contextAt old = None) && bool_decide (r_context old = None) && bool_decide (r_status old = RUNNING) && bool_decide (r_status new = RUNNING) &&
   bool_decide (r_token new = r_token old) && bool_decide (is_Some (r_token new)) && bool_decide (is_Some (r_profileRevision new)) &&
   match r_contextAt new with
   | Some t => match r_startedAt new with Some a => a <=? t | None => true end && match r_deadlineAt new with Some b => t <? b | None => true end
   | None => true
   end &&
   match conversations d !! q_conversation (r_asked new) with
   | Some v => bool_decide (v_org v = q_org (r_asked new)) && bool_decide (sn_id <$> r_context new = Some (v_client v))
   | None => false
   end).
Definition context_check (r : run) : bool :=
  bool_decide (is_Some (r_contextAt r) ↔ is_Some (r_context r)) && match r_context r with Some s => client_agent_context_valid s | None => true end.

(** ** Statements on runs *)

Definition of_org (org : string) (r : run) : bool := bool_decide (q_org (r_asked r) = org).
(** [updateMany] on the run of an id: how many rows, with what is noted of it. *)
Definition update_run (id : string) (where_ : run → bool) (f : run → run) (notes : run → list event) : act nat :=
  write (λ d, match find_by_id id where_ (runs d) with
              | Some r => (1%nat, foldr note (set_run id (f r) d) (notes r))
              | None => (0%nat, d)
              end).
Definition claimed (k : claim) (r : run) : run :=
  Run (r_asked r) RUNNING (r_profileRevision r) (Some (k_token k)) (Some (k_startedAt k)) (Some (k_deadlineAt k)) (r_contextAt r) (r_context r) (r_memory r)
      (r_response r) None (r_finishedAt r).
(** A terminal status with [fields]: the answer, or an error code. *)
Record outcome := Outcome { o_status : status; o_response : option text; o_error : option string }.
Definition failing (s : status) (code : string) : outcome := Outcome s None (Some code).
Definition finished (o : outcome) (at_ : Z) (r : run) : run :=
  Run (r_asked r) (o_status o) (r_profileRevision r) (r_token r) (r_startedAt r) (r_deadlineAt r) (r_contextAt r) (r_context r) (r_memory r)
      (match o_response o with Some t => Some t | None => r_response r end) (o_error o) (Some at_).
Definition prepared (q : question) (revision : Z) (r : run) : run :=
  Run (r_asked r) (r_status r) (Some revision) (r_token r) (r_startedAt r) (r_deadlineAt r) (Some (a_observedAt q)) (Some (a_snapshot q)) (Some (a_memory q))
      (r_response r) (r_error r) (r_finishedAt r).
Definition cancelled (at_ : Z) (r : run) : run :=
  Run (r_asked r) CANCELLED (r_profileRevision r) None (r_startedAt r) (r_deadlineAt r) (r_contextAt r) (r_context r) (r_memory r)
      (r_response r) (r_error r) (Some at_).
Definition running_as (token : option string) (r : run) : bool := bool_decide (r_status r = RUNNING) && bool_decide (r_token r = token).
Definition due (at_ : Z) (r : run) : bool := match r_deadlineAt r with Some t => t <=? at_ | None => false end.
Definition not_due (at_ : Z) (r : run) : bool := match r_deadlineAt r with Some t => at_ <? t | None => false end.

(** [updateMany] of the pending invocation of a run. *)
Definition delivered (state : delivery) (code : option string) (at_ : Z) (i : invocation) : invocation :=
  Invocation (i_invoked i) state code (match state with DELIVERED => Some at_ | _ => i_deliveredAt i end) (match state with SUPPRESSED => Some at_ | _ => i_suppressedAt i end).
Definition update_invocation (id : string) (where_ : invoked → bool) (f : invocation → invocation) : act nat :=
  write (λ d, match find_by_id id (λ i, where_ (i_invoked i) && bool_decide (i_state i = PENDING)) (invocations d) with
              | Some i => (1%nat, set_invocation id (f i) d)
              | None => (0%nat, d)
              end).
Definition record_audit (e : env) (a : audit) (refused : thrown) : act unit :=
  _ ←! require (e_audit e) refused; write (λ d, (tt, add_audit a d)).
(** A serializable transaction, which the database may abort. *)
Definition serializable {A} (e : env) (k : nat) (p : act A) : act A := if e_aborts e k then fail (PrismaError "P2034") else atomically p.

(** ** The channel's side of a run *)

Definition agent_conflict : thrown := ToolError "WORKSPACE_AGENT_CONFLICT" 409.
Definition audit_unavailable : thrown := ToolError "AUDIT_UNAVAILABLE" 503.
Definition status_of (id org : string) : act (option status) := r ←! read (λ d, find_by_id id (of_org org) (runs d)); ok (r_status <$> r).
Definition status_name (s : status) : string :=
  match s with QUEUED => "QUEUED" | RUNNING => "RUNNING" | SUCCEEDED => "SUCCEEDED" | FAILED => "FAILED" | CANCELLED => "CANCELLED" | UNKNOWN => "UNKNOWN" end.
(** Its invocation, pending, is suppressed with the audit that says so. *)
Definition suppress (e : env) (id org : string) (code : string) (at_ : Z) : act unit :=
  c ←! update_invocation id (λ o, bool_decide (i_org o = org)) (delivered SUPPRESSED (Some code) at_);
  _ ←! require (c =? 1)%nat agent_conflict;
  record_audit e (Audit_ org None "workspace_agent.suppressed" id) audit_unavailable.
(* src/src/services/workspace-account-manager.service.js:184-205 settleWorkspaceAgentRun (transaction) *)
Definition settle_transaction (e : env) (id : string) (r : run) (v : conversation) (token : option string) (deadlineAt : Z) (o : outcome) (at_ : Z) : act (option status) :=
  let org := q_org (r_asked r) in
    _ ←! lockPilotChannel org (default "" (v_channel v));
    let o := if deadlineAt <=? at_ then failing UNKNOWN "RUN_DEADLINE_EXCEEDED" else o in
    allowed ←! (if bool_decide (o_status o = SUCCEEDED)
                then catch (_ ←! authorizeWorkspaceAgentRun id r v; ok true) (λ err, if is_tool_error err then ok false else fail err)
                else ok true);
    let delivery := if bool_decide (o_status o = SUCCEEDED) && allowed then DELIVERED else SUPPRESSED in
    let o := if allowed then o else failing FAILED "SOURCE_DELIVERY_SUPPRESSED" in
    let code := match delivery with DELIVERED => None | _ => Some (default (status_name (o_status o)) (o_error o)) end in
    c ←! update_run id (λ x, of_org org x && running_as token x) (finished o at_) (λ _, []);
    _ ←! (if (c =? 1)%nat then
            i ←! update_invocation id (λ w, bool_decide (i_org w = org) && bool_decide (i_conversation w = q_conversation (r_asked r))) (delivered delivery code at_);
            _ ←! require (i =? 1)%nat agent_conflict;
            record_audit e (Audit_ org None (match delivery with DELIVERED => "workspace_agent.delivered" | _ => "workspace_agent.suppressed" end) id) audit_unavailable
          else ok tt);
    status_of id org.
(* src/src/services/workspace-account-manager.service.js:183-206 settleWorkspaceAgentRun *)
Definition settleWorkspaceAgentRun (e : env) (k : nat) (id : string) (r : run) (v : conversation) (token : option string) (deadlineAt : Z) (o : outcome) (at_ : Z) : act (option status) :=
  serializable e k (settle_transaction e id r v token deadlineAt o at_).
(* src/src/services/workspace-account-manager.service.js:209-227 claimWorkspaceAgentRun (transaction) *)
Definition claim_transaction (n : nat) (e : env) (id : string) (r : run) (v : conversation) (c : claim) : act nat :=
  let org := q_org (r_asked r) in
  let queued := λ x, of_org org x && bool_decide (r_status x = QUEUED) in
    _ ←! lockPilotChannel org (default "" (v_channel v));
    allowed ←! catch (_ ←! authorizeWorkspaceAgentRun id r v; ok true) (λ err, if is_tool_error err then ok false else fail err);
    if allowed then update_run id queued (claimed c) (λ _, [Claimed n id c])
    else
      changed ←! update_run id queued (finished (failing FAILED "SOURCE_AUTHORITY_REVOKED") (k_startedAt c)) (λ _, []);
      _ ←! (if (changed =? 1)%nat then suppress e id org "SOURCE_AUTHORITY_REVOKED" (k_startedAt c) else ok tt);
      ok 0%nat.
(* src/src/services/workspace-account-manager.service.js:208-228 claimWorkspaceAgentRun *)
Definition claimWorkspaceAgentRun (n : nat) (e : env) (k : nat) (id : string) (r : run) (v : conversation) (c : claim) : act nat :=
  serializable e k (claim_transaction n e id r v c).

(** ** The job *)

Definition conversation_of (org : string) (r : run) : act (option conversation) :=
  read (λ d, find_by_id (q_conversation (r_asked r)) (λ v, bool_decide (v_org v = org)) (conversations d)).
Definition bound (v : option conversation) : option conversation := match v with Some v => if channel_bound v then Some v else None | None => None end.
(* src/src/jobs/client-agent-run.js:47-53 expire *)
Definition expire (e : env) (k : nat) (id org : string) (r : run) (token : option string) (deadlineAt : option Z) (at_ : Z) : act (option status) :=
  v ←! conversation_of org r;
  match bound v with
  | Some v => settleWorkspaceAgentRun e k id r v token (default at_ deadlineAt) (failing UNKNOWN "RUN_DEADLINE_EXCEEDED") at_
  | None =>
      _ ←! update_run id (λ x, of_org org x && running_as token x && due at_ x) (finished (failing UNKNOWN "RUN_DEADLINE_EXCEEDED") at_) (λ _, []);
      status_of id org
  end.
(* src/src/jobs/client-agent-run.js:71-79 settle *)
Definition settle (e : env) (id org : string) (r : run) (c : claim) (o : outcome) : act (option status) :=
  let at_ := clock e 20 in
  v ←! conversation_of org r;
  match bound v with
  | Some v => settleWorkspaceAgentRun e 20 id r v (Some (k_token c)) (k_deadlineAt c) o at_
  | None =>
      if k_deadlineAt c <=? at_ then expire e 21 id org r (Some (k_token c)) None at_
      else
        _ ←! update_run id (λ x, of_org org x && running_as (Some (k_token c)) x && not_due at_ x) (finished o at_) (λ _, []);
        status_of id org
  end.

(** What the preflight found: the question to send and the profile's revision. *)
(* src/src/jobs/client-agent-run.js:87-112 processClientAgentRun (preflight) *)
Definition preflight (e : env) (id org : string) (r : run) : act (question * Z) :=
  let q := r_asked r in
  _ ←! require (negb (blank (q_prompt q)) && (len (q_prompt q) <=? 2000)) (Failure "RUN_INPUT_INVALID");
  v ←! read (λ d, find_by_id (q_conversation q) (λ v, bool_decide (v_org v = org) && bool_decide (v_archivedAt v = None)) (conversations d));
  match v with
  | None => fail (Failure "RECORD_NOT_FOUND")
  | Some v =>
      _ ←! require (validId (v_client v)) (Failure "RECORD_NOT_FOUND");
      u ←! read (λ d, active_user d (q_by q) org);
      match u with
      | None => fail (Failure "ROLE_DENIED")
      | Some u =>
          _ ←! require (staff_role (s_role u)) (Failure "ROLE_DENIED");
          p ←! readClientAgentProfile (Session (q_by q) org (s_role u)) (v_client v);
          _ ←! require (w_enabled p) (Failure "CLIENT_AGENT_PAUSED");
          _ ←! require (mem "client-work" (w_plugins p)) (Failure "CLIENT_AGENT_PLUGIN_DISABLED");
          c ←! buildClientAssistantContext org (v_client v);
          match c with
          | None => fail (Failure "RECORD_NOT_FOUND")
          | Some c =>
              _ ←! require (negb (e_unreadable e)) Crash;
              _ ←! require (bytes (snapshot_json c) <=? 64000) (Failure "CONTEXT_TOO_LARGE");
              m ←! (if channel_bound v then
                      _ ←! serializable e 0 (_ ←! lockPilotChannel org (default "" (v_channel v)); authorizeWorkspaceAgentRun id r v);
                      ok (Memory [] false)
                    else buildClientAgentMemory id r);
              let asked := Question (clock e 2) c m (w_name p) (w_instructions p) (q_prompt q) (channel_bound v) in
              _ ←! require (bytes (prompt_json asked) <=? MAX_AGENT_PROMPT_BYTES) (Failure "CONTEXT_TOO_LARGE");
              ok (asked, w_revision p)
          end
      end
  end.

(** The conditional write of context and memory, with the table's triggers. *)
(* src/src/jobs/client-agent-run.js:125-126 processClientAgentRun (prepare) *)
Definition store_statement (n : nat) (e : env) (id org : string) (c : claim) (q : question) (revision : Z) (d : db) : result thrown nat * db :=
  match find_by_id id (λ x, of_org org x && running_as (Some (k_token c)) x && bool_decide (r_contextAt x = None) && not_due (clock e 5) x) (runs d) with
  | None => (Ok 0%nat, d)
  | Some x =>
      let new := prepared q revision x in
      if client_agent_context_guard d x new && client_agent_memory_guard d id x new && context_check new then
        let v := conversations d !! q_conversation (r_asked x) in
        (Ok 1%nat, note (Prepared n id q revision (users d !! q_by (r_asked x)) v
                           (v ≫= λ v, snd <$> profile_of d (q_org (r_asked x)) (v_client v))) (set_run id new d))
      else (Err Crash, d)
  end.
Definition store_context (n : nat) (e : env) (id org : string) (c : claim) (q : question) (revision : Z) : act nat :=
  statement (store_statement n e id org c q revision).
(* src/src/jobs/client-agent-run.js:123-128 processClientAgentRun (prepare) *)
Definition prepare (n : nat) (e : env) (id org : string) (r : run) (v : option conversation) (c : claim) (q : question) (revision : Z) : act nat :=
  match bound v with
  | Some v =>
      serializable e 1 (_ ←! lockPilotChannel org (default "" (v_channel v)); _ ←! authorizeWorkspaceAgentRun id r v; store_context n e id org c q revision)
  | None => store_context n e id org c q revision
  end.
(* src/src/jobs/client-agent-run.js:132-134 processClientAgentRun (dispatch authority) *)
Definition still_authorized (e : env) (id org : string) (r : run) (v : option conversation) : act unit :=
  match bound v with
  | Some v => serializable e 2 (_ ←! lockPilotChannel org (default "" (v_channel v)); authorizeWorkspaceAgentRun id r v)
  | None => ok tt
  end.

(** How the race between the provider and the deadline is settled. *)
(* src/src/jobs/client-agent-run.js:161-170 processClientAgentRun (outcome) *)
Definition outcome_of (a : reply) : outcome :=
  match a with
  | Text t => if blank t || (MAX_RESPONSE_LENGTH <? len t) then failing UNKNOWN "RUN_RESPONSE_INVALID" else Outcome SUCCEEDED (Some t) None
  | NotText => failing UNKNOWN "RUN_RESPONSE_INVALID"
  | DeadlineHit => failing UNKNOWN "RUN_DEADLINE_EXCEEDED"
  | ChatError (Some code) => if mem code ["AI_DISABLED"; "AI_BUDGET_EXCEEDED"] then failing FAILED code else failing UNKNOWN "RUN_PROVIDER_OUTCOME_UNKNOWN"
  | ChatError None => failing UNKNOWN "RUN_PROVIDER_OUTCOME_UNKNOWN"
  end.
(** The call of the provider, and its answer if there is one in time. *)
(* src/src/jobs/client-agent-run.js:136-173 processClientAgentRun (dispatch) *)
Definition dispatch (n : nat) (e : env) (id org : string) (r : run) (c : claim) (q : question) : act (option status) :=
  if k_deadlineAt c <=? clock e 6 then expire e 3 id org r (Some (k_token c)) None (clock e 7)
  else
    _ ←! write (λ d, (tt, note (Asked n id q (clock e 6)) d));
    _ ←! write (λ d, (tt, match e_reply e with Text t => note (Answered n id t) d | _ => d end));
    settle e id org r c (outcome_of (e_reply e)).

(* src/src/jobs/client-agent-run.js:68-69 processClientAgentRun (claim) *)
Definition claim_run (n : nat) (e : env) (id org : string) (r : run) (v : option conversation) (c : claim) : act nat :=
  match bound v with
  | Some v => claimWorkspaceAgentRun n e 4 id r v c
  | None => update_run id (λ x, of_org org x && bool_decide (r_status x = QUEUED)) (claimed c) (λ _, [Claimed n id c])
  end.
(** The error a failed preflight is recorded with. *)
Definition preflight_code (e : thrown) : string :=
  match code_of e with Some code => if mem code PRE_DISPATCH_CODES then code else "RUN_PREFLIGHT_UNAVAILABLE" | None => "RUN_PREFLIGHT_UNAVAILABLE" end.
(** After the claim. *)
(* src/src/jobs/client-agent-run.js:86-135 processClientAgentRun (claimed) *)
Definition run_claimed (n : nat) (e : env) (id org : string) (r : run) (v : option conversation) (c : claim) : act (option status) :=
  found ←! tried (preflight e id org r);
  match found with
  | Err err => settle e id org r c (failing FAILED (preflight_code err))
  | Ok (q, revision) =>
      current ←! read (λ d, find_by_id id (of_org org) (runs d));
      if negb (match current with Some x => running_as (Some (k_token c)) x | None => false end) then status_of id org
      else if k_deadlineAt c <=? clock e 3 then expire e 5 id org r (Some (k_token c)) None (clock e 4)
      else
        stored ←! tried (prepare n e id org r v c q revision);
        match stored with
        | Err _ => settle e id org r c (failing FAILED "RUN_PREFLIGHT_UNAVAILABLE")
        | Ok k =>
            if negb (k =? 1)%nat then status_of id org
            else
              w ←! conversation_of org r;
              authorized ←! catch (_ ←! still_authorized e id org r w; ok true) (λ _, ok false);
              if authorized then dispatch n e id org r c (Question (a_observedAt q) (a_snapshot q) (a_memory q) (a_name q) (a_instructions q) (a_question q) (bool_decide (is_Some (bound w))))
              else settle e id org r c (failing FAILED "SOURCE_AUTHORITY_REVOKED")
        end
  end.
(** [token]: the run's claim token, drawn by [randomUUID]; [inside]: the job's
    tenant context is that of [org] and of the client it was handed. *)
(* src/src/jobs/client-agent-run.js:32-70 processClientAgentRun *)
Definition processClientAgentRun (n : nat) (token : string) (e : env) (inside : bool) (org id : string) : act (string * option status) :=
  if negb (validId org && validId id && inside) then fail (Failure "TENANT_CONTEXT_REQUIRED")
  else
    row ←! read (λ d, find_by_id id (of_org org) (runs d));
    s ←! match row with
         | None => ok None
         | Some r =>
             match r_status r with
             | RUNNING => if due (clock e 0) r then expire e 6 id org r (r_token r) (r_deadlineAt r) (clock e 1) else ok (Some RUNNING)
             | QUEUED =>
                 let c := Claim token (clock e 0) (clock e 0 + MAX_DURATION_MS) in
                 v ←! conversation_of org r;
                 k ←! claim_run n e id org r v c;
                 if negb (k =? 1)%nat then status_of id org else run_claimed n e id org r v c
             | other => ok (Some other)
             end
         end;
    ok (id, s).

(** ** Recovery *)

Definition shared (d : db) (r : run) : bool := unbound d (q_conversation (r_asked r)).
(** [updateMany] over the runs of an organization. *)
Definition update_runs (where_ : db → run → bool) (f : run → run) : act nat :=
  write (λ d, let (k, t) := update_many (λ _ r, where_ d r) (λ _, f) (runs d) in
              (k, Db (users d) (clients d) (projects d) (profiles d) (conversations d) (channels d) (members d) (messages d) (bindings d)
                     t (reviews d) (invocations d) (events d) (audits d) (trail d))).
Definition old_queue (cutoff : Z) (r : run) : bool := bool_decide (r_status r = QUEUED) && (q_createdAt (r_asked r) <=? cutoff).
Definition overdue (at_ : Z) (r : run) : bool := bool_decide (r_status r = RUNNING) && due at_ r.
(** One run of a channel: the run and its invocation together. *)
(* src/src/services/workspace-account-manager.service.js:238-256 expireWorkspaceAgentRuns (one run) *)
Definition expire_transaction (e : env) (org : string) (at_ cutoff : Z) (id : string) (r : run) : act (option bool) :=
    v ←! conversation_of org r;
    match bound v with
    | None => ok None
    | Some v =>
        _ ←! lockPilotChannel org (default "" (v_channel v));
        let running := bool_decide (r_status r = RUNNING) in
        let o := if running then failing UNKNOWN "RUN_DEADLINE_EXCEEDED" else failing FAILED "RUN_QUEUE_EXPIRED" in
        c ←! update_run id (λ x, of_org org x && bool_decide (r_status x = r_status r) &&
                if running then bool_decide (r_token x = r_token r) && due at_ x else q_createdAt (r_asked x) <=? cutoff) (finished o at_) (λ _, []);
        if negb (c =? 1)%nat then ok None
        else _ ←! suppress e id org (default "" (o_error o)) at_; ok (Some running)
    end.
Fixpoint expire_each (e : env) (k : nat) (org : string) (at_ cutoff : Z) (rows : list (string * run)) : act (nat * nat) :=
  match rows with
  | [] => ok (0, 0)%nat
  | (id, r) :: rest =>
      x ←! serializable e k (expire_transaction e org at_ cutoff id r);
      counts ←! expire_each e (S k) org at_ cutoff rest;
      ok (match x with Some true => (S counts.1, counts.2) | Some false => (counts.1, S counts.2) | None => counts end)
  end.
(* src/src/services/workspace-account-manager.service.js:232-258 expireWorkspaceAgentRuns *)
Definition expireWorkspaceAgentRuns (e : env) (org : string) (at_ cutoff : Z) : act (nat * nat) :=
  rows ←! read (λ d, take 100 (isort (λ x y : string * run, String.leb x.1 y.1)
            (tselect (λ _ r, of_org org r && match conversations d !! q_conversation (r_asked r) with Some v => bool_decide (is_Some (v_channel v)) | None => false end &&
                             (overdue at_ r || old_queue cutoff r)) (runs d))));
  expire_each e 0 org at_ cutoff rows.
(* src/src/jobs/client-agent-run-recovery.js:7-24 expireClientAgentRuns *)
Definition expireClientAgentRuns (e : env) (inside : bool) (org : string) : act (nat * nat) :=
  if bool_decide (org = "") || negb inside then fail (Failure "TENANT_CONTEXT_REQUIRED")
  else
    let at_ := clock e 0 in
    let cutoff := at_ - QUEUE_MAX_AGE_MS in
    k ←! update_runs (λ d r, of_org org r && shared d r && overdue at_ r) (finished (failing UNKNOWN "RUN_DEADLINE_EXCEEDED") at_);
    q ←! update_runs (λ d r, of_org org r && shared d r && old_queue cutoff r) (finished (failing FAILED "RUN_QUEUE_EXPIRED") at_);
    x ←! expireWorkspaceAgentRuns e org at_ cutoff;
    ok (k + x.1, q + x.2)%nat.

(** ** Requests *)

Definition run_conflict : thrown := ToolError "RUN_CONFLICT" 409.
Definition invalid : thrown := ToolError "INVALID_INPUT" 400.
Record view := View { x_id : string; x_run : run; x_reviewedAt : option Z; x_channel : bool }.
(* src/src/services/client-agent-run.service.js:27-30 project *)
Definition project_run (d : db) (id : string) (r : run) (channel : bool) : view := View id r (reviews d !! id) channel.
(* src/src/services/client-agent-run.service.js:84-90 guard *)
Definition guard {A} (p : act A) : act A :=
  catch p (λ err, match err with
                  | ToolError _ _ => fail err
                  | PrismaError code => fail (if mem code ["P2002"; "P2034"] then run_conflict else ToolError "RUN_UNAVAILABLE" 503)
                  | HttpError st => fail (if st =? 409 then run_conflict else ToolError "RUN_UNAVAILABLE" 503)
                  | _ => fail (ToolError "RUN_UNAVAILABLE" 503)
                  end).
(* src/src/services/task-stages.service.js:11-18 withStageTransaction *)
Definition withStageTransaction {A} (e : env) (k : nat) (p : act A) : act A :=
  catch (serializable e k p) (λ err, fail (if bool_decide (err = PrismaError "P2034") then HttpError 409 else err)).

(* src/src/services/client-agent-run.service.js:68-78 scope *)
Definition scope (u : session) (clientId conversationId : string) (requireActive lockSource : bool) : act (actor * bool) :=
  a ←! authorizeClientAgentStaff u clientId;
  v ←! read (λ d, find_by_id conversationId (λ v, bool_decide (v_client v = clientId) && bool_decide (v_org v = a_org a)) (conversations d));
  match v with
  | None => fail recordNotFound
  | Some v =>
      _ ←! authorizeSourceConversation a v lockSource;
      _ ←! require (negb (requireActive && channel_bound v)) recordNotFound;
      _ ←! require (negb (requireActive && negb (bool_decide (v_archivedAt v = None)))) (ToolError "CONVERSATION_ARCHIVED" 409);
      ok (a, channel_bound v)
  end.
(* src/src/services/client-agent-run.service.js:79-83 findRun *)
Definition findRun (a : actor) (conversationId runId : string) : act run :=
  r ←! read (λ d, find_by_id runId (λ r, of_org (a_org a) r && bool_decide (q_conversation (r_asked r) = conversationId)) (runs d));
  match r with Some r => ok r | None => fail recordNotFound end.

(** The unique indexes: the id, the requester's key, one active run of a
    conversation; and the INSERT part of the trigger. *)
Definition same_intent (q p : asked) : bool := bool_decide (q_org p = q_org q) && bool_decide (q_by p = q_by q) && bool_decide (q_key p = q_key q).
Definition active_in (org conversationId : string) (r : run) : bool :=
  of_org org r && bool_decide (q_conversation (r_asked r) = conversationId) && active (r_status r).
Definition taken (d : db) (id : string) (q : asked) : bool :=
  bool_decide (is_Some (runs d !! id)) ||
  negb (tcount (λ _ r, same_intent q (r_asked r)) (runs d) =? 0)%nat || negb (tcount (λ _ r, active_in (q_org q) (q_conversation q) r) (runs d) =? 0)%nat.
(* src/prisma/migrations/20261015213000_client_agent_conversations/migration.sql:69-77 client_agent_run_guard (insert) *)
Definition insert_allowed (d : db) (q : asked) : bool :=
  match active_user d (q_by q) (q_org q) with Some s => staff_role (s_role s) | None => false end &&
  match conversations d !! q_conversation q with Some v => bool_decide (v_org v = q_org q) && bool_decide (v_archivedAt v = None) | None => false end.
(** The CHECK on the key: lower-case hexadecimal (the rest of its form is zod's). *)
(* src/prisma/migrations/20261015213000_client_agent_conversations/migration.sql:24-24 idempotencyKey *)
Definition key_check (key : string) : bool := bool_decide (toLowerCase key = key).
Definition create_run (id : string) (r : run) : act unit :=
  statement (λ d, if negb (key_check (q_key (r_asked r))) then (Err Crash, d)
                  else if taken d id (r_asked r) then (Err (PrismaError "P2002"), d)
                  else if insert_allowed d (r_asked r) then (Ok tt, set_run id r d) else (Err Crash, d)).
Definition queued (q : asked) (revision : Z) : run := Run q QUEUED (Some revision) None None None None None None None None None.
(* src/src/services/client-agent-run.service.js:93-107 queueClientAgentRunInTransaction *)
Definition queueClientAgentRunInTransaction (e : env) (id : string) (a : actor) (clientId : string) (q : asked) (revision : Z) : act (string * run) :=
  let r := queued q revision in
  _ ←! create_run id r;
  _ ←! require (e_event e) (ToolError "RUN_EVENT_UNAVAILABLE" 503);
  _ ←! write (λ d, (tt, add_event (DomainEvent (q_org q) clientId (q_conversation q) id (q_by q)) d));
  _ ←! record_audit e (Audit_ (q_org q) (Some (a_id a)) "client_agent_run.requested" id) (ToolError "RUN_AUDIT_UNAVAILABLE" 503);
  ok (id, r).
Definition audit_run (e : env) (a : actor) (action id : string) : act unit :=
  record_audit e (Audit_ (a_org a) (Some (a_id a)) action id) (ToolError "RUN_AUDIT_UNAVAILABLE" 503).

Section requests.
(** SHA-256 of [JSON.stringify] in hexadecimal, and zod's [uuid()]. *)
Context (hash : jv → string) (is_uuid : string → bool).

Definition parse_key (key : string) : option string := if is_uuid key then Some (toLowerCase key) else None.
(** [z.string().trim().min(1).max(2000)]. *)
Definition parse_question (q : text) : option text :=
  let t := trim q in if bool_decide (t = []) || (2000 <? len t) then None else Some t.
Definition intent_of (d : db) (org by_ key : string) : option (string * run) :=
  head (tselect (λ _ r, bool_decide (q_org (r_asked r) = org) && bool_decide (q_by (r_asked r) = by_) && bool_decide (q_key (r_asked r) = key)) (runs d)).

(* src/src/services/client-agent-run.service.js:151-172 start (transaction) *)
Definition start_transaction (e : env) (k : nat) (u : session) (clientId conversationId : string) (question : text) (key : string) : act view :=
  let inputHash := hash (JO [("clientId", JT (units clientId)); ("conversationId", JT (units conversationId)); ("question", JT question)]) in
    ac ←! scope u clientId conversationId true false;
    let a := ac.1 in
    existing ←! read (λ d, intent_of d (a_org a) (a_id a) key);
    match existing with
    | Some (id, r) =>
        _ ←! require (bool_decide (q_conversation (r_asked r) = conversationId) && bool_decide (q_hash (r_asked r) = inputHash)) (ToolError "RUN_IDEMPOTENCY_CONFLICT" 409);
        read (λ d, project_run d id r false)
    | None =>
        p ←! readClientAgentProfile (session_of a) clientId;
        _ ←! require (w_enabled p && mem "client-work" (w_plugins p)) (ToolError "AGENT_DISABLED" 409);
        pending ←! read (λ d, tcount (λ _ r, active_in (a_org a) conversationId r) (runs d));
        _ ←! require (pending =? 0)%nat (ToolError "RUN_IN_PROGRESS" 409);
        row ←! queueClientAgentRunInTransaction e (e_id e k) a clientId (Asked_ (a_org a) conversationId (a_id a) key inputHash question (clock e k)) (w_revision p);
        read (λ d, project_run d row.1 row.2 ac.2)
    end.
Definition start_once (e : env) (k : nat) (u : session) (clientId conversationId : string) (question : text) (key : string) : act view :=
  withStageTransaction e k (start_transaction e k u clientId conversationId question key).
(* src/src/services/client-agent-run.service.js:144-182 start *)
Definition start (e : env) (u : session) (clientId conversationId : string) (question : text) (key : string) : act view :=
  match parse_id clientId, parse_id conversationId, parse_question question, parse_key key with
  | Some clientId, Some conversationId, Some question, Some key =>
      guard (catch (start_once e 0 u clientId conversationId question key)
               (λ err, if bool_decide (err = PrismaError "P2002") then start_once e 1 u clientId conversationId question key else fail err))
  | _, _, _, _ => fail invalid
  end.

(* src/src/services/client-agent-run.service.js:183-189 read *)
Definition read_request (e : env) (u : session) (clientId conversationId runId : string) : act view :=
  match parse_id clientId, parse_id conversationId, parse_id runId with
  | Some clientId, Some conversationId, Some runId =>
      guard (withStageTransaction e 0 (
        ac ←! scope u clientId conversationId false false;
        r ←! findRun ac.1 conversationId runId;
        read (λ d, project_run d runId r ac.2)))
  | _, _, _ => fail invalid
  end.
(* src/src/services/client-agent-run.service.js:190-201 byIntent *)
Definition byIntent (e : env) (u : session) (clientId conversationId key : string) : act view :=
  match parse_id clientId, parse_id conversationId, parse_key key with
  | Some clientId, Some conversationId, Some key =>
      guard (withStageTransaction e 0 (
        ac ←! scope u clientId conversationId false false;
        row ←! read (λ d, intent_of d (a_org ac.1) (a_id ac.1) key);
        match row with
        | Some (id, r) => _ ←! require (bool_decide (q_conversation (r_asked r) = conversationId)) recordNotFound; read (λ d, project_run d id r ac.2)
        | None => fail recordNotFound
        end))
  | _, _, _ => fail invalid
  end.

(* src/src/services/client-agent-run.service.js:204-220 cancel (transaction) *)
Definition cancel_transaction (e : env) (u : session) (clientId conversationId runId : string) : act view :=
        ac ←! scope u clientId conversationId false true;
        let a := ac.1 in
        current ←! findRun a conversationId runId;
        _ ←! require (bool_decide (a_role a = "ADMIN") || bool_decide (q_by (r_asked current) = a_id a)) role_denied;
        if bool_decide (r_status current = CANCELLED) then read (λ d, project_run d runId current ac.2)
        else
          _ ←! require (active (r_status current)) run_conflict;
          c ←! update_run runId (λ r, of_org (a_org a) r && bool_decide (q_conversation (r_asked r) = conversationId) && bool_decide (r_status r = r_status current))
                 (cancelled (clock e 0)) (λ _, []);
          _ ←! require (c =? 1)%nat run_conflict;
          row ←! findRun a conversationId runId;
          _ ←! require (bool_decide (r_status row = CANCELLED)) run_conflict;
          _ ←! (if ac.2 : bool then
                  update_invocation runId (λ o, bool_decide (i_org o = a_org a)) (delivered SUPPRESSED (Some "RUN_CANCELLED") (clock e 1))
                else ok 0%nat);
          _ ←! audit_run e a "client_agent_run.cancelled" runId;
          read (λ d, project_run d runId row ac.2).
(* src/src/services/client-agent-run.service.js:202-221 cancel *)
Definition cancel (e : env) (u : session) (clientId conversationId runId : string) : act view :=
  match parse_id clientId, parse_id conversationId, parse_id runId with
  | Some clientId, Some conversationId, Some runId => guard (withStageTransaction e 0 (cancel_transaction e u clientId conversationId runId))
  | _, _, _ => fail invalid
  end.

(* src/src/services/client-agent-run.service.js:123-135 review (transaction) *)
Definition review_transaction (e : env) (k : nat) (u : session) (clientId conversationId runId : string) : act view :=
    ac ←! scope u clientId conversationId false true;
    let a := ac.1 in
    current ←! findRun a conversationId runId;
    _ ←! require (bool_decide (q_by (r_asked current) = a_id a)) recordNotFound;
    _ ←! require (bool_decide (r_status current = FAILED) || bool_decide (r_status current = UNKNOWN)) (ToolError "RUN_NOT_REVIEWABLE" 409);
    reviewed ←! read (λ d, reviews d !! runId);
    match reviewed with
    | Some _ => read (λ d, project_run d runId current ac.2)
    | None =>
        _ ←! write (λ d, (tt, set_review runId (clock e k) d));
        _ ←! audit_run e a "client_agent_run.reviewed" runId;
        read (λ d, project_run d runId current ac.2)
    end.
Definition retryable (err : thrown) : bool := match code_of err with Some c => mem c ["P2002"; "P2034"] | None => false end.
(* src/src/services/client-agent-run.service.js:118-143 review *)
Definition review (e : env) (u : session) (clientId conversationId runId : string) : act view :=
  match parse_id clientId, parse_id conversationId, parse_id runId with
  | Some clientId, Some conversationId, Some runId =>
      let once := λ k, serializable e k (review_transaction e k u clientId conversationId runId) in
      guard (catch (once 0%nat) (λ err, if retryable err then catch (once 1%nat) (λ err, if retryable err then once 2%nat else fail err) else fail err))
  | _, _, _ => fail invalid
  end.

(** ** Requests in a channel *)

(* src/src/services/workspace-account-manager.service.js:52-55 channelScope *)
Definition channelScope (u : session) (channelId : string) : act (actor * channel) :=
  _ ←! lockPilotChannel (u_org u) channelId; authorizeWorkspaceChatMember u channelId false.
Record card := Card { d_run : string; d_invocation : invocation; d_status : status; d_response : option text; d_error : option string }.
(* src/src/services/workspace-account-manager.service.js:42-51 invocationView *)
Definition invocationView (id : string) (i : invocation) : act card :=
  let o := i_invoked i in
  r ←! read (λ d, find_by_id id (λ r, of_org (i_org o) r && bool_decide (q_conversation (r_asked r) = i_conversation o)) (runs d));
  match r with
  | None => fail deny
  | Some r =>
      _ ←! require (bool_decide (q_by (r_asked r) = i_by o)) deny;
      ok (Card id i (r_status r) (if bool_decide (i_state i = DELIVERED) && bool_decide (r_status r = SUCCEEDED) then r_response r else None) (r_error r))
  end.
Definition create_conversation (id : string) (v : conversation) : act unit :=
  statement (λ d, if bool_decide (is_Some (conversations d !! id)) then (Err (PrismaError "P2002"), d) else (Ok tt, set_conversation id v d)).
(** The unique indexes of the invocations. *)
Definition invocation_taken (d : db) (id : string) (o : invoked) : bool :=
  bool_decide (is_Some (invocations d !! id)) ||
  negb (tcount (λ _ i, let w := i_invoked i in
          bool_decide (i_org w = i_org o) && (bool_decide (i_source w = i_source o) && bool_decide (i_binding w = i_binding o) ||
                                              bool_decide (i_by w = i_by o) && bool_decide (i_key w = i_key o)) ||
          bool_decide (i_conversation w = i_conversation o)) (invocations d) =? 0)%nat.
Definition create_invocation (id : string) (o : invoked) : act unit :=
  statement (λ d, if invocation_taken d id o then (Err (PrismaError "P2002"), d) else (Ok tt, set_invocation id (Invocation o PENDING None None None) d)).
Definition audit_agent (e : env) (a : actor) (action id : string) : act unit := record_audit e (Audit_ (a_org a) (Some (a_id a)) action id) audit_unavailable.

(* src/src/services/workspace-account-manager.service.js:105-128 requestWorkspaceAccountManager (transaction) *)
Definition request_transaction (e : env) (u : session) (channelId bindingId sourceMessageId key : string) : act (card * bool) :=
        an ←! channelScope u channelId;
        let a := an.1 in
        bp ←! bindingScope a channelId an.2 bindingId true;
        g ←! read (λ d, find_by_id sourceMessageId (λ g, bool_decide (g_channel g = channelId) && bool_decide (g_org g = a_org a) &&
                      match active_user d (g_author g) (a_org a) with Some s => staff_role (s_role s) | None => false end) (messages d));
        match g with
        | None => fail deny
        | Some g =>
            match parse_question (g_content g) with
            | None => fail invalid
            | Some question =>
                let inputHash := hash (JO [("channelId", JT (units channelId)); ("bindingId", JT (units bindingId)); ("sourceMessageId", JT (units sourceMessageId));
                                           ("requestedById", JT (units (a_id a))); ("question", JT question)]) in
                existing ←! read (λ d, head (tselect (λ _ i, let o := i_invoked i in
                    bool_decide (i_org o = a_org a) && (bool_decide (i_source o = sourceMessageId) && bool_decide (i_binding o = bindingId) ||
                                                        bool_decide (i_by o = a_id a) && bool_decide (i_key o = key))) (invocations d)));
                match existing with
                | Some (id, i) =>
                    let o := i_invoked i in
                    _ ←! require (bool_decide (i_hash o = inputHash) && bool_decide (i_by o = a_id a) && bool_decide (i_binding o = bindingId) &&
                                  bool_decide (i_source o = sourceMessageId)) agent_conflict;
                    c ←! invocationView id i; ok (c, true)
                | None =>
                    let clientId := default "" (n_client an.2) in
                    let vid := e_id e 0 in
                    let id := e_id e 1 in
                    _ ←! create_conversation vid (Conversation (a_org a) clientId (units "Workspace account manager request") (a_id a) 0 None (Some channelId) (Some bindingId));
                    row ←! queueClientAgentRunInTransaction e id a clientId (Asked_ (a_org a) vid (a_id a) key inputHash question (clock e 0)) (p_revision bp.2);
                    let o := Invoked (a_org a) bindingId sourceMessageId (a_id a) vid key inputHash (b_revision bp.1) (p_revision bp.2) in
                    _ ←! create_invocation id o;
                    _ ←! audit_agent e a "workspace_agent.requested" id;
                    c ←! invocationView id (Invocation o PENDING None None None); ok (c, false)
                end
            end
        end.
(* src/src/services/workspace-account-manager.service.js:103-129 requestWorkspaceAccountManager *)
Definition requestWorkspaceAccountManager (e : env) (u : session) (channelId bindingId sourceMessageId key : string) : act (card * bool) :=
  match parse_id bindingId, parse_id sourceMessageId with
  | Some bindingId, Some sourceMessageId =>
      _ ←! require (is_uuid key) invalid; serializable e 0 (request_transaction e u channelId bindingId sourceMessageId key)
  | _, _ => fail invalid
  end.
(* src/src/services/workspace-account-manager.service.js:56-62 ownInvocation *)
Definition ownInvocation (a : actor) (channelId : string) (n : channel) (id : string) : act invocation :=
  i ←! read (λ d, find_by_id id (λ i, bool_decide (i_org (i_invoked i) = a_org a) &&
                match bindings d !! i_binding (i_invoked i) with
                | Some b => bool_decide (b_channel b = channelId) && bool_decide (Some (b_client b) = n_client n)
                | None => false
                end) (invocations d));
  match i with
  | None => fail deny
  | Some i => _ ←! bindingScope a channelId n (i_binding (i_invoked i)) false; ok i
  end.
(* src/src/services/workspace-account-manager.service.js:140-143 readWorkspaceAccountManagerInvocation *)
Definition readWorkspaceAccountManagerInvocation (u : session) (channelId id : string) : act card :=
  an ←! authorizeWorkspaceChatMember u channelId false;
  i ←! ownInvocation an.1 channelId an.2 id;
  invocationView id i.
(* src/src/services/workspace-account-manager.service.js:152-159 cancelWorkspaceAccountManagerInvocation *)
Definition cancelWorkspaceAccountManagerInvocation (e : env) (u : session) (channelId id : string) : act card :=
  an ←! authorizeWorkspaceChatMember u channelId false;
  i ←! ownInvocation an.1 channelId an.2 id;
  _ ←! cancel e (session_of an.1) (default "" (n_client an.2)) (i_conversation (i_invoked i)) id;
  readWorkspaceAccountManagerInvocation u channelId id.

(** ** Everything that is asked of the program *)

(** The tables the rest of the program changes at will; of a conversation, its
    title, its revision and whether it is archived. *)
Record tables := Tables {
  z_users : gmap string staff; z_clients : gmap string client; z_projects : gmap string project; z_profiles : gmap string profile;
  z_channels : gmap string channel; z_members : gmap (string * string) member; z_messages : gmap string message; z_bindings : gmap string binding;
  z_conversations : gmap string conversation
}.
Definition edited (z : tables) (id : string) (v : conversation) : conversation :=
  match z_conversations z !! id with
  | Some w => Conversation (v_org v) (v_client v) (v_title w) (v_createdBy v) (v_revision w) (v_archivedAt w) (v_channel v) (v_binding v)
  | None => v
  end.
Definition is_shared (v : conversation) : bool := bool_decide (v_channel v = None) && bool_decide (v_binding v = None).
Definition merge_conversations (z : tables) (old : gmap string conversation) : gmap string conversation :=
  map_imap (λ id v, Some (edited z id v)) old ∪ filter (λ iv, is_shared iv.2 = true) (z_conversations z).
Definition elsewhere (z : tables) (d : db) : db :=
  Db (z_users z) (z_clients z) (z_projects z) (z_profiles z) (merge_conversations z (conversations d)) (z_channels z) (z_members z) (z_messages z) (z_bindings z)
     (runs d) (reviews d) (invocations d) (events d) (audits d) (trail d).

Inductive input :=
  | Job (e : env) (inside : bool) (org id : string)
  | Sweep (e : env) (inside : bool) (org : string)
  | Start (e : env) (u : session) (clientId conversationId : string) (question : text) (key : string)
  | ReadRun (e : env) (u : session) (clientId conversationId runId : string)
  | ByIntent (e : env) (u : session) (clientId conversationId key : string)
  | Cancel (e : env) (u : session) (clientId conversationId runId : string)
  | Review (e : env) (u : session) (clientId conversationId runId : string)
  | Request (e : env) (u : session) (channelId bindingId sourceMessageId key : string)
  | ReadCard (u : session) (channelId id : string)
  | CancelCard (e : env) (u : session) (channelId id : string)
  | Elsewhere (z : tables).
Inductive answer := Ran (id : string) (s : option status) | Swept (running queued : nat) | Viewed (v : view) | Carded (c : card) | Noted.

Definition map_answer {A} (f : A → answer) (p : act A) : act answer := x ←! p; ok (f x).
(** [token n]: what [randomUUID] draws for the [n]th request. *)
Definition handle (token : nat → string) (n : nat) (i : input) : act answer :=
  match i with
  | Job e inside org id => map_answer (λ x, Ran x.1 x.2) (processClientAgentRun n (token n) e inside org id)
  | Sweep e inside org => map_answer (λ x, Swept x.1 x.2) (expireClientAgentRuns e inside org)
  | Start e u c v q key => map_answer Viewed (start e u c v q key)
  | ReadRun e u c v id => map_answer Viewed (read_request e u c v id)
  | ByIntent e u c v key => map_answer Viewed (byIntent e u c v key)
  | Cancel e u c v id => map_answer Viewed (cancel e u c v id)
  | Review e u c v id => map_answer Viewed (review e u c v id)
  | Request e u n b m key => map_answer (λ x, Carded x.1) (requestWorkspaceAccountManager e u n b m key)
  | ReadCard u n id => map_answer Carded (readWorkspaceAccountManagerInvocation u n id)
  | CancelCard e u n id => map_answer Carded (cancelWorkspaceAccountManagerInvocation e u n id)
  | Elsewhere z => write (λ d, (Noted, elsewhere z d))
  end.
End requests.
End ClientRuns.
