(* ===== verification/ClientRunLog.v ===== *)
(** * What becomes of a run of the account manager

    The requests of ClientRuns.v interleaved: how often and with what the
    provider is asked, that a finished run stays as it is, and that a request key
    names one run. *)

From S2P Require Import Prelude Store Async Steps Trails Tenancy ClientText ClientAgents ClientMemory ClientRuns.
Import Trails.Trails Tenancy.Tenancy(mem) ClientText.ClientText Steps.Steps ClientAgents.ClientAgents ClientMemory.ClientMemory ClientRuns.ClientRuns.

Module ClientRunLog.

(** ** Programs that only read *)

Lemma reading_staff u c : reading (authorizeClientAgentStaff u c).
Proof. unfold authorizeClientAgentStaff. reads. Qed.
Lemma reading_profile u c : reading (readClientAgentProfile u c).
Proof. unfold readClientAgentProfile. pose proof reading_staff. reads. Qed.
Lemma reading_context org c : reading (buildClientAssistantContext org c).
Proof. unfold buildClientAssistantContext. reads. Qed.
Lemma reading_member u c : reading (authorizeWorkspaceChatMember u c false).
Proof. unfold authorizeWorkspaceChatMember, actorScope, channelForMember. reads. Qed.
Lemma reading_source a v : reading (authorizeSourceConversation a v false).
Proof. unfold authorizeSourceConversation. pose proof reading_member. reads. Qed.
Lemma reading_lock org c : reading (lockPilotChannel org c).
Proof. unfold lockPilotChannel. reads. Qed.
Lemma reading_binding a c n b act : reading (bindingScope a c n b act).
Proof. unfold bindingScope. reads. Qed.
Lemma reading_run_authority id r v : reading (authorizeWorkspaceAgentRun id r v).
Proof. unfold authorizeWorkspaceAgentRun. pose proof reading_member. pose proof reading_binding. reads. Qed.
Lemma reading_memory id r : reading (buildClientAgentMemory id r).
Proof. unfold buildClientAgentMemory. reads. Qed.
Lemma reading_serializable {A} e k (p : act A) : reading p → reading (serializable e k p).
Proof. unfold serializable. intros. reads. Qed.
Lemma reading_find a v id : reading (findRun a v id).
Proof. unfold findRun. reads. Qed.
Lemma reading_scope u c v act : reading (scope u c v act false).
Proof. unfold scope. pose proof reading_staff. pose proof reading_source. reads. Qed.
Lemma reading_preflight e id org r : reading (preflight e id org r).
Proof.
  unfold preflight. pose proof reading_profile. pose proof reading_context. pose proof reading_memory. pose proof reading_lock.
  pose proof reading_run_authority. pose proof @reading_serializable. reads.
Qed.
Lemma reading_status id org : reading (status_of id org).
Proof. unfold status_of. reads. Qed.
Lemma reading_conversation org r : reading (conversation_of org r).
Proof. unfold conversation_of. reads. Qed.
Lemma reading_view id i : reading (invocationView id i).
Proof. unfold invocationView. reads. Qed.
Lemma reading_own a c n id : reading (ownInvocation a c n id).
Proof. unfold ownInvocation. pose proof reading_binding. reads. Qed.

(** ** Events of one run *)

Definition claims (id : string) (e : event) : bool := match e with Claimed _ i _ => bool_decide (i = id) | _ => false end.
Definition prepares (id : string) (e : event) : bool := match e with Prepared _ i _ _ _ _ _ => bool_decide (i = id) | _ => false end.
Definition asks (id : string) (e : event) : bool := match e with Asked _ i _ _ => bool_decide (i = id) | _ => false end.
Definition answers (id : string) (e : event) : bool := match e with Answered _ i _ => bool_decide (i = id) | _ => false end.
Definition by_request (e : event) : nat := match e with Claimed n _ _ | Prepared n _ _ _ _ _ _ | Asked n _ _ _ | Answered n _ _ => n end.
Definition about (e : event) : string := match e with Claimed _ i _ | Prepared _ i _ _ _ _ _ | Asked _ i _ _ | Answered _ i _ => i end.

(** A question that is [q] but for the channel it is asked in, which only
    changes the system text. *)
Definition same_question (q q' : question) : Prop :=
  a_observedAt q' = a_observedAt q ∧ a_snapshot q' = a_snapshot q ∧ a_memory q' = a_memory q ∧ a_name q' = a_name q ∧
  a_instructions q' = a_instructions q ∧ a_question q' = a_question q.
(** Who was there when context and memory were stored: an active staff member,
    an open conversation about the snapshot's client, the enabled profile the
    question was made from. *)
Definition vouched (q : question) (revision : Z) (who : option staff) (v : option conversation) (p : option profile) : Prop :=
  ∃ s w, who = Some s ∧ v = Some w ∧ s_active s = true ∧ staff_role (s_role s) = true ∧ s_org s = v_org w ∧ v_archivedAt w = None ∧
    sn_id (a_snapshot q) = v_client w ∧
    match p with
    | Some p => p_enabled p = true ∧ p_revision p = revision ∧ mem "client-work" (default [] (p_plugins p)) = true
    | None => revision = 0
    end.

Section theory.
Context (token : nat → string).
Implicit Types (d : db) (l : list event) (id : string) (n : nat).

Definition justified (e : event) l : Prop :=
  match e with
  | Claimed n id k => none (claims id) l ∧ k_token k = token n ∧ k_deadlineAt k = k_startedAt k + MAX_DURATION_MS
  | Prepared n id q revision who v p => none (prepares id) l ∧ vouched q revision who v p ∧
      ∃ k, Claimed n id k ∈ l ∧ k_startedAt k ≤ a_observedAt q < k_deadlineAt k
  | Asked n id q at_ => none (asks id) l ∧ (∃ q' revision who v p, Prepared n id q' revision who v p ∈ l ∧ same_question q' q) ∧
      ∃ k, Claimed n id k ∈ l ∧ at_ < k_deadlineAt k
  | Answered n id t => none (answers id) l ∧ ∃ q at_, Asked n id q at_ ∈ l
  end.
Abbreviation trail_ok := (trail_ok justified).

(** What the columns of a run say. *)
Definition claim_columns id r l : Prop :=
  match r_status r with
  | QUEUED => r_token r = None ∧ r_startedAt r = None ∧ r_deadlineAt r = None ∧ r_finishedAt r = None ∧ none (claims id) l
  | RUNNING => r_finishedAt r = None ∧
      ∃ n k, Claimed n id k ∈ l ∧ r_token r = Some (k_token k) ∧ r_startedAt r = Some (k_startedAt k) ∧ r_deadlineAt r = Some (k_deadlineAt k)
  | _ => is_Some (r_finishedAt r)
  end.
Definition context_columns id r l : Prop :=
  (r_contextAt r = None ∧ r_context r = None ∧ r_memory r = None ∧ none (prepares id) l) ∨
  ∃ n q revision who v p, Prepared n id q revision who v p ∈ l ∧ r_contextAt r = Some (a_observedAt q) ∧ r_context r = Some (a_snapshot q) ∧
    r_memory r = Some (a_memory q) ∧ r_profileRevision r = Some revision ∧ q_prompt (r_asked r) = a_question q.
Definition answer_column id r l : Prop :=
  if bool_decide (r_status r = SUCCEEDED) then
    ∃ n q at_ t, Asked n id q at_ ∈ l ∧ Answered n id t ∈ l ∧ r_response r = Some t ∧ blank t = false ∧ len t ≤ MAX_RESPONSE_LENGTH
  else r_response r = None.
Definition row_ok id r l : Prop := claim_columns id r l ∧ context_columns id r l ∧ answer_column id r l.

Definition conversation_ok (v : conversation) : Prop :=
  v_channel v = None ∧ v_binding v = None ∨ ∃ c b, v_channel v = Some c ∧ v_binding v = Some b ∧ c ≠ "".
Record inv d : Prop := {
  inv_trail : trail_ok (trail d);
  inv_rows id r : runs d !! id = Some r → row_ok id r (trail d);
  inv_about e : e ∈ trail d → is_Some (runs d !! about e);
  inv_conversation id r : runs d !! id = Some r → ∃ v, conversations d !! q_conversation (r_asked r) = Some v ∧ v_org v = q_org (r_asked r);
  inv_shared id v : conversations d !! id = Some v → conversation_ok v;
  inv_intents id id' r r' : runs d !! id = Some r → runs d !! id' = Some r' → same_intent (r_asked r) (r_asked r') = true → id = id';
  inv_one_active id id' r r' : runs d !! id = Some r → runs d !! id' = Some r' → active (r_status r) = true → active (r_status r') = true →
    q_org (r_asked r) = q_org (r_asked r') → q_conversation (r_asked r) = q_conversation (r_asked r') → id = id'
}.

(** The trigger of the table, for an update. *)
(* src/prisma/migrations/20261015213000_client_agent_conversations/migration.sql:78-92 client_agent_run_guard (update) *)
Definition client_agent_run_guard (old new : run) : bool :=
  bool_decide (r_asked new = r_asked old) && (active (r_status old) || bool_decide (new = old)) &&
  negb (bool_decide (r_status old = RUNNING) && bool_decide (r_status new = QUEUED)) &&
  negb (bool_decide (r_status old = RUNNING) && bool_decide (r_status new = RUNNING) &&
        negb (bool_decide (r_token new = r_token old) && bool_decide (r_startedAt new = r_startedAt old) && bool_decide (r_deadlineAt new = r_deadlineAt old))).
(** Context and memory are written once. *)
Definition write_once (old new : run) : Prop :=
  is_Some (r_contextAt old) → r_contextAt new = r_contextAt old ∧ r_context new = r_context old ∧ r_memory new = r_memory old ∧
    r_profileRevision new = r_profileRevision old.
Definition moves (old new : run) : Prop := client_agent_run_guard old new = true ∧ write_once old new.

(** Conversations stay in their organization, with their client and channel. *)
Definition same_conversation_scope (v w : conversation) : Prop :=
  v_org w = v_org v ∧ v_client w = v_client v ∧ v_channel w = v_channel v ∧ v_binding w = v_binding v.

(** The invocation of a run in a channel: delivered exactly when it succeeded,
    pending while it is active. *)
Definition pair_ok (r : run) (i : invocation) : Prop :=
  i_org (i_invoked i) = q_org (r_asked r) ∧ i_conversation (i_invoked i) = q_conversation (r_asked r) ∧ i_by (i_invoked i) = q_by (r_asked r) ∧
  match r_status r with
  | QUEUED | RUNNING => i_state i = PENDING
  | SUCCEEDED => i_state i = DELIVERED
  | _ => i_state i = SUPPRESSED
  end.
Definition paired d : Prop := ∀ id r v,
  runs d !! id = Some r → conversations d !! q_conversation (r_asked r) = Some v → v_channel v ≠ None → ∃ i, invocations d !! id = Some i ∧ pair_ok r i.

(** What a statement of request [n] does, and a transaction's, when it ends. *)
Record core n d d' : Prop := {
  c_trail : ∃ es, trail d' = es ++ trail d ∧ ∀ e, e ∈ es → by_request e = n;
  c_rows id r : runs d !! id = Some r → ∃ r', runs d' !! id = Some r' ∧ moves r r';
  c_conversations id v : conversations d !! id = Some v → ∃ w, conversations d' !! id = Some w ∧ same_conversation_scope v w;
  c_inv : inv d → inv d'
}.
Definition guar n d d' : Prop := core n d d' ∧ (inv d → paired d → paired d').
Definition Inv d : Prop := inv d ∧ paired d.
Abbreviation own := (owned Inv guar).

(** ** Order on rows *)

Lemma moves_idle r : moves r r.
Proof.
  split; [|done]. unfold client_agent_run_guard. rewrite !bool_decide_refl, orb_true_r. cbn.
  by destruct (r_status r).
Qed.
Lemma guard_spec old new : client_agent_run_guard old new = true ↔
  r_asked new = r_asked old ∧ (active (r_status old) = false → new = old) ∧ (r_status old = RUNNING → r_status new ≠ QUEUED) ∧
  (r_status old = RUNNING → r_status new = RUNNING → r_token new = r_token old ∧ r_startedAt new = r_startedAt old ∧ r_deadlineAt new = r_deadlineAt old).
Proof.
  unfold client_agent_run_guard. rewrite !andb_true_iff, orb_true_iff, !negb_true_iff, !andb_false_iff, !negb_false_iff, !andb_true_iff,
    !bool_decide_eq_true, !bool_decide_eq_false.
  destruct (active (r_status old)), (decide (r_status old = RUNNING)), (decide (r_status new = RUNNING)); intuition congruence.
Qed.
Lemma moves_on r1 r2 r3 : moves r1 r2 → moves r2 r3 → moves r1 r3.
Proof.
  unfold moves. rewrite !guard_spec. intros [(A1 & T1 & Q1 & C1) W1] [(A2 & T2 & Q2 & C2) W2]. split; [split_and!|].
  - congruence.
  - intros H. specialize (T1 H). subst r2. by apply T2.
  - intros H H3. specialize (Q1 H). destruct (r_status r2) eqn:E2; [done|by apply Q2|..]; (rewrite T2 in H3 by done; congruence).
  - intros H H3. specialize (Q1 H). destruct (r_status r2) eqn:E2; [done| |rewrite T2 in H3 by done; congruence..].
    destruct (C1 H eq_refl) as (? & ? & ?), (C2 eq_refl H3) as (? & ? & ?). split_and!; congruence.
  - intros H. destruct (W1 H) as (? & ? & ? & ?). destruct W2 as (? & ? & ? & ?); [congruence|]. split_and!; congruence.
Qed.
Lemma scope_refl v : same_conversation_scope v v.
Proof. done. Qed.
Lemma scope_trans u v w : same_conversation_scope u v → same_conversation_scope v w → same_conversation_scope u w.
Proof. unfold same_conversation_scope. intuition congruence. Qed.

Lemma core_refl n d : core n d d.
Proof. split; [exists []; split; [done|by intros e ?%not_elem_of_nil]|eauto using moves_idle|eauto using scope_refl|done]. Qed.
Lemma core_trans n d1 d2 d3 : core n d1 d2 → core n d2 d3 → core n d1 d3.
Proof.
  intros [(e1 & T1 & B1) R1 C1 I1] [(e2 & T2 & B2) R2 C2 I2]. split.
  - exists (e2 ++ e1). rewrite T2, T1, app_assoc. split; [done|]. intros e [?|?]%elem_of_app; auto.
  - intros id r Hr. destruct (R1 _ _ Hr) as (r2 & Hr2 & M1), (R2 _ _ Hr2) as (r3 & Hr3 & M2). eauto using moves_on.
  - intros id v Hv. destruct (C1 _ _ Hv) as (v2 & Hv2 & M1), (C2 _ _ Hv2) as (v3 & Hv3 & M2). eauto using scope_trans.
  - auto.
Qed.
Lemma guar_idle n d : guar n d d.
Proof. split; [apply core_refl|done]. Qed.

(** ** What anyone's statements keep *)

Lemma any_trail d d' : rtc (anyone guar) d d' → ∃ es, trail d' = es ++ trail d.
Proof.
  induction 1 as [d|d1 d2 d3 (n & H & _) _ (es & IH)]; [by exists []|]. destruct (c_trail _ _ _ H) as (es1 & E & _).
  exists (es ++ es1). by rewrite IH, E, app_assoc.
Qed.
Lemma any_in e d d' : rtc (anyone guar) d d' → e ∈ trail d → e ∈ trail d'.
Proof. intros (es & ->)%any_trail. rewrite elem_of_app. auto. Qed.
Lemma any_row id r d d' : rtc (anyone guar) d d' → runs d !! id = Some r → ∃ r', runs d' !! id = Some r' ∧ moves r r'.
Proof.
  intros H. revert r. induction H as [d|d1 d2 d3 (n & H & _) _ IH]; [eauto using moves_idle|]. intros r Hr.
  destruct (c_rows _ _ _ H _ _ Hr) as (r2 & Hr2 & M). destruct (IH _ Hr2) as (r3 & Hr3 & M3). eauto using moves_on.
Qed.
Lemma any_conversation id v d d' : rtc (anyone guar) d d' → conversations d !! id = Some v → ∃ w, conversations d' !! id = Some w ∧ same_conversation_scope v w.
Proof.
  intros H. revert v. induction H as [d|d1 d2 d3 (n & H & _) _ IH]; [eauto using scope_refl|]. intros v Hv.
  destruct (c_conversations _ _ _ H _ _ Hv) as (v2 & Hv2 & M). destruct (IH _ Hv2) as (v3 & Hv3 & M3). eauto using scope_trans.
Qed.
Lemma moves_final r r' : moves r r' → active (r_status r) = false → r' = r.
Proof. intros [H _]. apply guard_spec in H as (_ & H & _). done. Qed.
Lemma moves_asked r r' : moves r r' → r_asked r' = r_asked r.
Proof. intros [H _]. by apply guard_spec in H as (H & _). Qed.
Lemma any_final id r d d' : rtc (anyone guar) d d' → runs d !! id = Some r → active (r_status r) = false → runs d' !! id = Some r.
Proof. intros H Hr Ht. destruct (any_row _ _ _ _ H Hr) as (r' & Hr' & M). by rewrite <-(moves_final _ _ M Ht). Qed.
Lemma guar_Inv n d d' : Inv d → guar n d d' → Inv d'.
Proof. intros [HI HP] [Hc Hp]. split; [by apply (c_inv _ _ _ Hc)|by apply Hp]. Qed.
Lemma any_Inv d d' : rtc (anyone guar) d d' → Inv d → Inv d'.
Proof. induction 1 as [|d1 d2 d3 (n & H) _ IH]; [done|]. intros HI. apply IH. by eapply guar_Inv. Qed.
Lemma any_others n d d' : rtc (others guar n) d d' → rtc (anyone guar) d d'.
Proof. apply others_anyone. Qed.
Lemma any_once n d d' : guar n d d' → rtc (anyone guar) d d'.
Proof. intros H. apply rtc_once. by exists n. Qed.

(** ** The trail *)

Lemma claim_unique l n m id k k' : trail_ok l → Claimed n id k ∈ l → Claimed m id k' ∈ l → n = m ∧ k = k'.
Proof.
  intros Hl H1 H2. assert (Claimed n id k = Claimed m id k') as [= -> ->]; [|done].
  eapply (only_one justified (claims id)); [|exact Hl|done..|apply bool_decide_refl|apply bool_decide_refl].
  intros e l0 Hj He. destruct e; cbn in *; try done. apply bool_decide_eq_true in He as ->. apply Hj.
Qed.
Lemma prepared_unique l n m id q q' rev rev' who who' v v' p p' :
  trail_ok l → Prepared n id q rev who v p ∈ l → Prepared m id q' rev' who' v' p' ∈ l → n = m ∧ q = q' ∧ rev = rev'.
Proof.
  intros Hl H1 H2. assert (Prepared n id q rev who v p = Prepared m id q' rev' who' v' p') as E; [|by inversion E].
  eapply (only_one justified (prepares id)); [|exact Hl|done..|apply bool_decide_refl|apply bool_decide_refl].
  intros e l0 Hj He. destruct e; cbn in *; try done. apply bool_decide_eq_true in He as ->. apply Hj.
Qed.
Lemma asked_unique l n m id q q' a a' : trail_ok l → Asked n id q a ∈ l → Asked m id q' a' ∈ l → n = m ∧ q = q' ∧ a = a'.
Proof.
  intros Hl H1 H2. assert (Asked n id q a = Asked m id q' a') as E; [|by inversion E].
  eapply (only_one justified (asks id)); [|exact Hl|done..|apply bool_decide_refl|apply bool_decide_refl].
  intros e l0 Hj He. destruct e; cbn in *; try done. apply bool_decide_eq_true in He as ->. apply Hj.
Qed.
(** What is later in the life of a run has what comes before. *)
Lemma asked_prepared l n id q a : trail_ok l → Asked n id q a ∈ l → ∃ q' rev who v p, Prepared n id q' rev who v p ∈ l ∧ same_question q' q.
Proof.
  intros Hl H. destruct (trail_at _ _ _ Hl H) as (l1 & l2 & -> & _ & (q' & rev & who & v & p & Hp & Hs) & _).
  exists q', rev, who, v, p. rewrite elem_of_app, elem_of_cons. auto.
Qed.
Lemma prepared_claimed l n id q rev who v p : trail_ok l → Prepared n id q rev who v p ∈ l → ∃ k, Claimed n id k ∈ l.
Proof.
  intros Hl H. destruct (trail_at _ _ _ Hl H) as (l1 & l2 & -> & _ & _ & k & Hk & _). exists k. rewrite elem_of_app, elem_of_cons. auto.
Qed.
Lemma no_asks l id : trail_ok l → none (prepares id) l → none (asks id) l.
Proof.
  intros Hl. apply none_implied. intros e He Ha. destruct e as [| |n i q a|]; try done. cbn in Ha. apply bool_decide_eq_true in Ha as ->.
  destruct (asked_prepared _ _ _ _ _ Hl He) as (q' & rev & who & v & p & Hp & _). eexists. split; [exact Hp|apply bool_decide_refl].
Qed.
Lemma no_prepares l id : trail_ok l → none (claims id) l → none (prepares id) l.
Proof.
  intros Hl. apply none_implied. intros e He Ha. destruct e as [|n i q rev who v p| |]; try done. cbn in Ha. apply bool_decide_eq_true in Ha as ->.
  destruct (prepared_claimed _ _ _ _ _ _ _ _ Hl He) as (k & Hk). eexists. split; [exact Hk|apply bool_decide_refl].
Qed.
Lemma no_answers l id : trail_ok l → none (asks id) l → none (answers id) l.
Proof.
  intros Hl. apply none_implied. intros e He Ha. destruct e as [| | |n i t]; try done. cbn in Ha. apply bool_decide_eq_true in Ha as ->.
  destruct (trail_at _ _ _ Hl He) as (l1 & l2 & -> & _ & q & a & Hq). exists (Asked n id q a). split; [|apply bool_decide_refl].
  rewrite elem_of_app, elem_of_cons. auto.
Qed.
(** The claim a running row shows is the claim of the request whose token it has. *)
Lemma running_claim id r l n k :
  trail_ok l → row_ok id r l → running_as (Some (token n)) r = true → k_token k = token n → Claimed n id k ∈ l →
  r_startedAt r = Some (k_startedAt k) ∧ r_deadlineAt r = Some (k_deadlineAt k).
Proof.
  intros Hl (Hc & _) Hr Hk Hin. unfold running_as in Hr. apply andb_true_iff in Hr as [Hs%bool_decide_eq_true _]. unfold claim_columns in Hc. rewrite Hs in Hc.
  destruct Hc as (_ & m & k' & Hin' & _ & Hst & Hd). by destruct (claim_unique _ _ _ _ _ _ Hl Hin Hin') as [_ ->].
Qed.

(** ** One statement *)

Lemma row_ok_more id r es l : none (claims id) es → none (prepares id) es → row_ok id r l → row_ok id r (es ++ l).
Proof.
  intros Hc Hp (H1 & H2 & H3). split_and!.
  - unfold claim_columns in *. destruct (r_status r); rewrite ?none_app; try done; [naive_solver|].
    destruct H1 as (? & n & k & Hin & ?). split; [done|]. exists n, k. rewrite elem_of_app. auto.
  - destruct H2 as [H2|(n & q & rev & who & v & p & Hin & ?)]; [left|right].
    + rewrite none_app. naive_solver.
    + exists n, q, rev, who, v, p. rewrite elem_of_app. auto.
  - unfold answer_column in *. case_bool_decide; [|done]. destruct H3 as (n & q & at_ & t & Ha & Hb & ?). exists n, q, at_, t.
    rewrite !elem_of_app. auto.
Qed.
Lemma none_elsewhere es id i : (∀ e, e ∈ es → about e = id) → i ≠ id → none (claims i) es ∧ none (prepares i) es.
Proof.
  intros H Hne. split; intros e He; specialize (H e He); destruct e; cbn in *; try done; subst; by apply bool_decide_eq_false.
Qed.

Lemma core_same n d d' : runs d' = runs d → conversations d' = conversations d → trail d' = trail d → core n d d'.
Proof.
  intros Hr Hc Ht. split.
  - exists []. split; [done|by intros e ?%not_elem_of_nil].
  - rewrite Hr. eauto using moves_idle.
  - rewrite Hc. eauto using scope_refl.
  - intros []. split; by rewrite ?Hr, ?Hc, ?Ht.
Qed.

Lemma core_update n d d' id r r' es :
  runs d !! id = Some r → runs d' = <[id := r']> (runs d) → conversations d' = conversations d → trail d' = es ++ trail d → moves r r' →
  (∀ e, e ∈ es → by_request e = n ∧ about e = id) → (active (r_status r') = true → active (r_status r) = true) →
  (inv d → trail_ok (es ++ trail d) ∧ row_ok id r' (es ++ trail d)) → core n d d'.
Proof.
  intros Hr Hrs Hc Ht Hm Hes Hact Hok. pose proof (moves_asked _ _ Hm) as Ha. split.
  - exists es. split; [done|]. intros e He. by apply Hes.
  - intros i r0 Hr0. rewrite Hrs. destruct (decide (i = id)) as [->|Hne]; [exists r'; by simplify_map_eq|].
    exists r0. rewrite lookup_insert_ne by done. eauto using moves_idle.
  - rewrite Hc. eauto using scope_refl.
  - intros HI. destruct (Hok HI) as [Htr Hrow]. destruct HI as [_ Irow Iab Icv Ish Iint Ione].
    assert (∀ i r0, runs d' !! i = Some r0 → ∃ r1, runs d !! i = Some r1 ∧ r_asked r0 = r_asked r1 ∧ (active (r_status r0) = true → active (r_status r1) = true)) as Hback.
    { intros i r0. rewrite Hrs, lookup_insert_Some. intros [[<- <-]|[_ ?]]; eauto. }
    split; rewrite ?Ht, ?Hc.
    + done.
    + intros i r0. rewrite Hrs, lookup_insert_Some. intros [[<- <-]|[Hne Hr0]]; [done|].
      destruct (none_elsewhere es id i) as [Hn1 Hn2]; [by intros e He; apply Hes|done|]. by apply row_ok_more; [..|apply Irow].
    + intros e [He|He]%elem_of_app; rewrite Hrs, lookup_insert_is_Some'; [left; symmetry; by apply Hes|right; by apply Iab].
    + intros i r0 (r1 & Hr1 & -> & _)%Hback. by eapply Icv.
    + done.
    + intros i j ri rj (ri' & Hi & -> & _)%Hback (rj' & Hj & -> & _)%Hback. by apply Iint.
    + intros i j ri rj (ri' & Hi & -> & Ai)%Hback (rj' & Hj & -> & Aj)%Hback ? ?. apply (Ione i j ri' rj'); auto.
Qed.

Lemma core_notes n d d' id es :
  runs d' = runs d → conversations d' = conversations d → trail d' = es ++ trail d → (∀ e, e ∈ es → by_request e = n ∧ about e = id) →
  is_Some (runs d !! id) → none (claims id) es → none (prepares id) es → (inv d → trail_ok (es ++ trail d)) → core n d d'.
Proof.
  intros Hr Hc Ht Hes [r Hrow] Hn1 Hn2 Hok.
  apply (core_update n d d' id r r es); try done; [by rewrite insert_id|apply moves_idle|].
  intros HI. split; [by apply Hok|]. apply row_ok_more; [done..|]. by apply (inv_rows d HI).
Qed.

(** ** The writes *)

Definition outcome_ok id (o : outcome) l : Prop :=
  active (o_status o) = false ∧
  if bool_decide (o_status o = SUCCEEDED) then
    ∃ n q at_ t, Asked n id q at_ ∈ l ∧ Answered n id t ∈ l ∧ o_response o = Some t ∧ blank t = false ∧ len t ≤ MAX_RESPONSE_LENGTH
  else o_response o = None.
Lemma failing_ok id l s code : active s = false → s ≠ SUCCEEDED → outcome_ok id (failing s code) l.
Proof. intros Ha Hs. split; [done|]. cbn. by rewrite bool_decide_neq. Qed.
Lemma outcome_ok_later id o l es : outcome_ok id o l → outcome_ok id o (es ++ l).
Proof.
  intros [Ha H]. split; [done|]. case_bool_decide; [|done]. destruct H as (n & q & at_ & t & H1 & H2 & H3). exists n, q, at_, t.
  rewrite !elem_of_app. auto.
Qed.
Lemma no_answer_yet id r l : row_ok id r l → active (r_status r) = true → r_response r = None.
Proof. intros (_ & _ & H) Ha. unfold answer_column in H. rewrite bool_decide_neq in H; [done|]. by destruct (r_status r). Qed.

Lemma finished_moves r o at_ : active (r_status r) = true → active (o_status o) = false → moves r (finished o at_ r).
Proof.
  intros Ha Ho. split; [|done]. apply guard_spec. cbn. split_and!; [done|congruence|intros _ E; by rewrite E in Ho|intros _ E; by rewrite E in Ho].
Qed.
Lemma finished_row id r o at_ l : row_ok id r l → active (r_status r) = true → outcome_ok id o l → row_ok id (finished o at_ r) l.
Proof.
  intros Hrow Hact [Ha Ho]. pose proof (no_answer_yet _ _ _ Hrow Hact) as Hno. destruct Hrow as (_ & H2 & _). split_and!.
  - unfold claim_columns. cbn. by destruct (o_status o).
  - exact H2.
  - unfold answer_column. cbn. case_bool_decide; [|by rewrite Ho].
    destruct Ho as (n & q & a & t & H3 & H4 & -> & ?). exists n, q, a, t. done.
Qed.
Lemma core_finish n d id r o at_ :
  runs d !! id = Some r → active (r_status r) = true → outcome_ok id o (trail d) → core n d (set_run id (finished o at_ r) d).
Proof.
  intros Hr Ha Ho. apply (core_update n d _ id r (finished o at_ r) []); try done.
  - apply finished_moves; [done|apply Ho].
  - by intros e ?%not_elem_of_nil.
  - intros HI. split; [apply HI|]. apply finished_row; [by apply (inv_rows d HI)|done..].
Qed.
Lemma core_cancel n d id r at_ : runs d !! id = Some r → active (r_status r) = true → core n d (set_run id (cancelled at_ r) d).
Proof.
  intros Hr Ha. apply (core_update n d _ id r (cancelled at_ r) []); try done.
  - split; [|done]. apply guard_spec. cbn. split_and!; [done|congruence|done|done].
  - by intros e ?%not_elem_of_nil.
  - intros HI. split; [apply HI|]. pose proof (inv_rows d HI id r Hr) as Hrow. pose proof (no_answer_yet _ _ _ Hrow Ha). destruct Hrow as (_ & H2 & _). split_and!; [by eexists|exact H2|done].
Qed.
Lemma core_claim n d id r k :
  runs d !! id = Some r → r_status r = QUEUED → k_token k = token n → k_deadlineAt k = k_startedAt k + MAX_DURATION_MS →
  core n d (note (Claimed n id k) (set_run id (claimed k r) d)).
Proof.
  intros Hr Hq Hk Hd. apply (core_update n d _ id r (claimed k r) [Claimed n id k]); try done.
  - split; [|done]. apply guard_spec. cbn. rewrite Hq. by split_and!.
  - by intros e ->%list_elem_of_singleton.
  - intros _. by rewrite Hq.
  - intros HI. pose proof (inv_rows d HI id r Hr) as (H1 & H2 & H3). unfold claim_columns in H1. rewrite Hq in H1. destruct H1 as (_ & _ & _ & Hf & Hn).
    split; [split; [done|apply HI]|]. split_and!.
    + unfold claim_columns. cbn. split; [done|]. exists n, k. split; [left|done].
    + destruct H2 as [H2|(m & q & rev & who & v & p & Hin & ?)]; [left|right].
      * cbn. split_and!; [apply H2..|]. apply none_cons. split; [done|apply H2].
      * exists m, q, rev, who, v, p. split; [by right|done].
    + unfold answer_column in *. cbn. by rewrite Hq in H3.
Qed.
Lemma core_store n d id r k q rev who v p :
  runs d !! id = Some r → r_status r = RUNNING → r_contextAt r = None → Claimed n id k ∈ trail d → k_startedAt k ≤ a_observedAt q < k_deadlineAt k →
  q_prompt (r_asked r) = a_question q → vouched q rev who v p →
  core n d (note (Prepared n id q rev who v p) (set_run id (prepared q rev r) d)).
Proof.
  intros Hr Hst Hno Hk Hat Hp Hv. apply (core_update n d _ id r (prepared q rev r) [Prepared n id q rev who v p]); try done.
  - split; [apply guard_spec; cbn; rewrite Hst; by split_and!|]. intros [? E]. congruence.
  - by intros e ->%list_elem_of_singleton.
  - intros HI. pose proof (inv_rows d HI id r Hr) as (H1 & H2 & H3).
    assert (none (prepares id) (trail d)) as Hn by (destruct H2 as [H2|(m & q' & ? & ? & ? & ? & _ & E & _)]; [apply H2|congruence]).
    split; [split; [|apply HI]; split_and!; [done|done|by exists k]|]. split_and!.
    + unfold claim_columns in *. cbn. rewrite Hst in *. destruct H1 as (? & m & k' & Hin & ?). split; [done|]. exists m, k'. split; [by right|done].
    + right. exists n, q, rev, who, v, p. split; [left|]. done.
    + unfold answer_column in *. cbn. by rewrite Hst in *.
Qed.

Lemma foldr_note es d :
  runs (foldr note d es) = runs d ∧ conversations (foldr note d es) = conversations d ∧ invocations (foldr note d es) = invocations d ∧
  trail (foldr note d es) = es ++ trail d.
Proof. induction es as [|e es (H1 & H2 & H3 & H4)]; [done|]. cbn. by rewrite H1, H2, H3, H4. Qed.
Lemma update_run_ok id w f nt d c d' :
  run_alone (update_run id w f nt) d = (Ok c, d') →
  c = 0%nat ∧ d' = d ∧ find_by_id id w (runs d) = None ∨
  c = 1%nat ∧ ∃ r, runs d !! id = Some r ∧ w r = true ∧ d' = foldr note (set_run id (f r) d) (nt r).
Proof.
  unfold update_run. cbn. destruct (find_by_id id w (runs d)) as [r|] eqn:E; intros [= <- <-]; [right|by left].
  apply find_by_id_Some in E as [Hr Hw]. split; [done|]. by exists r.
Qed.
Lemma update_invocation_ok id w f d c d' :
  run_alone (update_invocation id w f) d = (Ok c, d') →
  c = 0%nat ∧ d' = d ∧ find_by_id id (λ i, w (i_invoked i) && bool_decide (i_state i = PENDING)) (invocations d) = None ∨
  c = 1%nat ∧ ∃ i, invocations d !! id = Some i ∧ w (i_invoked i) = true ∧ i_state i = PENDING ∧ d' = set_invocation id (f i) d.
Proof.
  unfold update_invocation. cbn. destruct (find_by_id id _ (invocations d)) as [i|] eqn:E; intros [= <- <-]; [right|by left].
  apply find_by_id_Some in E as [Hi Hw]. apply andb_true_iff in Hw as [Hw Hp%bool_decide_eq_true]. split; [done|]. by exists i.
Qed.
Lemma record_audit_ok e au err d x d' : run_alone (record_audit e au err) d = (Ok x, d') → d' = add_audit au d.
Proof. unfold record_audit. intros H. apply run_require in H as [_ H]. cbn in H. congruence. Qed.

(** ** Runs and their invocations *)

Lemma pairs_run d d' id r r' :
  runs d !! id = Some r → runs d' = <[id := r']> (runs d) → conversations d' = conversations d → invocations d' = invocations d →
  r_asked r' = r_asked r →
  (∀ v, conversations d !! q_conversation (r_asked r) = Some v → v_channel v ≠ None → ∀ i, pair_ok r i → pair_ok r' i) → paired d → paired d'.
Proof.
  intros Hr Hrs Hc Hi Ha Hp HP i r0 v. rewrite Hrs, Hc, Hi, lookup_insert_Some. intros [[<- <-]|[Hne Hr0]] Hv Hb; [|by eapply HP].
  rewrite Ha in Hv. destruct (HP id r v Hr Hv Hb) as (j & Hj & Hok). exists j. split; [done|]. by eapply Hp.
Qed.
Lemma pairs_both d d' id r r' i i' :
  runs d' = <[id := r']> (runs d) → conversations d' = conversations d → invocations d' = <[id := i']> (invocations d) →
  runs d !! id = Some r → invocations d !! id = Some i → pair_ok r' i' → paired d → paired d'.
Proof.
  intros Hrs Hc Hi Hr Hin Hok HP j r0 v. rewrite Hrs, Hc, Hi, lookup_insert_Some. intros [[<- <-]|[Hne Hr0]] Hv Hb.
  - exists i'. by simplify_map_eq.
  - rewrite lookup_insert_ne by done. by eapply HP.
Qed.
Lemma pairs_same d d' : runs d' = runs d → conversations d' = conversations d → invocations d' = invocations d → paired d → paired d'.
Proof. intros Hr Hc Hi HP i r v. rewrite Hr, Hc, Hi. apply HP. Qed.


(** ** A run and its conversation *)

(** The row a request has read is still there, asked the same. *)
Definition placed id (org : string) r d : Prop := (∃ x, runs d !! id = Some x ∧ r_asked x = r_asked r) ∧ q_org (r_asked r) = org.
(** Its conversation, which is or is not one of a channel. *)
Definition home r (in_channel : Prop) d : Prop := ∃ w, conversations d !! q_conversation (r_asked r) = Some w ∧ (v_channel w ≠ None ↔ in_channel).

Lemma placed_stays id org r d d' : rtc (anyone guar) d d' → placed id org r d → placed id org r d'.
Proof. intros H [(x & Hx & Ha) Ho]. destruct (any_row _ _ _ _ H Hx) as (y & Hy & M). split; [|done]. exists y. split; [done|]. by rewrite (moves_asked _ _ M). Qed.
Lemma home_stays r P d d' : rtc (anyone guar) d d' → home r P d → home r P d'.
Proof. intros H (w & Hw & Hc). destruct (any_conversation _ _ _ _ H Hw) as (y & Hy & _ & _ & E & _). exists y. split; [done|]. by rewrite E. Qed.
Lemma placed_conversation id org r d : inv d → placed id org r d → ∃ w,
  find_by_id (q_conversation (r_asked r)) (λ v, bool_decide (v_org v = org)) (conversations d) = Some w ∧
  conversations d !! q_conversation (r_asked r) = Some w ∧ conversation_ok w.
Proof.
  intros HI [(x & Hx & Ha) <-]. destruct (inv_conversation d HI _ _ Hx) as (w & Hw & Ho). rewrite Ha in *. exists w. split_and!; [|done|by apply (inv_shared d HI _ _ Hw)].
  apply find_by_id_Some. split; [done|]. by apply bool_decide_eq_true.
Qed.
Lemma bound_None w : conversation_ok w → bound (Some w) = None → v_channel w = None.
Proof.
  unfold bound, channel_bound. intros [[H _]|(c & b & Hc & _ & Hne)]; [done|]. rewrite Hc. by rewrite bool_decide_neq.
Qed.
Lemma bound_Some w v : bound (Some w) = Some v → v = w ∧ v_channel w ≠ None.
Proof. unfold bound, channel_bound. destruct (v_channel w); [|done]. case_match; [|done]. by intros [= <-]. Qed.

Lemma pair_elsewhere r r' d : home r False d → r_asked r' = r_asked r →
  ∀ v, conversations d !! q_conversation (r_asked r') = Some v → v_channel v ≠ None → ∀ i, pair_ok r' i → pair_ok r i.
Proof. intros (w & Hw & Hc) Ha v. rewrite Ha, Hw. intros [= <-] Hb. by destruct Hc as [Hc _]; destruct (Hc Hb). Qed.
Lemma guar_shared n d id x x' d' r :
  core n d d' → runs d !! id = Some x → runs d' = <[id := x']> (runs d) → conversations d' = conversations d → invocations d' = invocations d →
  r_asked x = r_asked r → r_asked x' = r_asked x → home r False d → guar n d d'.
Proof.
  intros Hc Hx Hr Hv Hi Ha Ha' (w & Hw & Hn). split; [done|]. intros _. apply (pairs_run d d' id x x'); try done.
  intros v. rewrite Ha, Hw. intros [= <-] Hb. by destruct Hn as [Hn _]; destruct (Hn Hb).
Qed.

(** ** How a job ends *)

Definition settled id (s : option status) d : Prop := ∀ t, s = Some t → active t = false → ∃ r, runs d !! id = Some r ∧ r_status r = t.
Lemma settled_stays id s d d' : rtc (anyone guar) d d' → settled id s d → settled id s d'.
Proof. intros H Hs t Ht Ha. destruct (Hs t Ht Ha) as (r & Hr & <-). exists r. split; [|done]. by eapply any_final. Qed.
Lemma settled_none id d : settled id None d.
Proof. by intros t. Qed.
Lemma settled_active id s d : active s = true → settled id (Some s) d.
Proof. intros H t [= <-]. congruence. Qed.
Lemma status_settled id org d s d' : run_alone (status_of id org) d = (Ok s, d') → d' = d ∧ settled id s d.
Proof.
  unfold status_of. rewrite run_read. intros [= <- <-]. split; [done|]. intros t Ht _. destruct (find_by_id id (of_org org) (runs d)) as [r|] eqn:E; [|done].
  apply find_by_id_Some in E as [Hr _]. cbn in Ht. injection Ht as <-. by exists r.
Qed.

Lemma running_active tok r : running_as tok r = true → r_status r = RUNNING.
Proof. unfold running_as. intros H. by apply andb_true_iff in H as [H%bool_decide_eq_true _]. Qed.
Lemma pair_finished r i o at_ s code :
  pair_ok r i → active (o_status o) = false → (o_status o = SUCCEEDED ↔ s = DELIVERED) → s ≠ PENDING → pair_ok (finished o at_ r) (delivered s code at_ i).
Proof.
  intros (H1 & H2 & H3 & _) Ho Hs Hp. split_and!; [done..|]. cbn. destruct (o_status o), s; naive_solver.
Qed.

(** A run of a channel and its invocation end together. *)
Lemma guar_channel n d id r x i o at_ dl code au :
  Inv d → home r True d → runs d !! id = Some x → r_asked x = r_asked r → active (r_status x) = true → outcome_ok id o (trail d) →
  (o_status o = SUCCEEDED ↔ dl = DELIVERED) → dl ≠ PENDING → invocations d !! id = Some i →
  guar n d (add_audit au (set_invocation id (delivered dl code at_ i) (set_run id (finished o at_ x) d))).
Proof.
  intros [HI HP] (w & Hw & Hb) Hx Hxa Hact Ho Hdl Hnp Hi.
  destruct (HP id x w Hx) as (j & Hj & Hpair); [by rewrite Hxa|by apply Hb|]. assert (j = i) as -> by congruence. split.
  - eapply core_trans; [apply (core_finish n d id x o at_); done|]. by apply core_same.
  - intros _ _. eapply (pairs_both d _ id x _ i); [done..| |done]. apply pair_finished; [done|apply Ho|done|done].
Qed.

Lemma settle_body n e id r v tok deadline o at_ d s d' :
  Inv d → home r True d → (∃ x, runs d !! id = Some x ∧ r_asked x = r_asked r) → outcome_ok id o (trail d) →
  run_alone (settle_transaction e id r v tok deadline o at_) d = (Ok s, d') → guar n d d' ∧ settled id s d'.
Proof.
  intros [HI HP] (w & Hw & Hb) (x & Hx & Hxa) Ho H. unfold settle_transaction in H. apply run_reads in H as (u & _ & H); [|apply reading_lock].
  cbn zeta in H. set (o1 := if deadline <=? at_ then _ else o) in H.
  assert (outcome_ok id o1 (trail d)) as Ho1 by (unfold o1; destruct (deadline <=? at_); [by apply failing_ok|done]). clearbody o1.
  apply run_reads in H as (allowed & Hall & H); [|pose proof reading_run_authority; destruct (bool_decide _); reads].
  assert (o_status o1 ≠ SUCCEEDED → allowed = true) as Hal.
  { intros Hn. rewrite bool_decide_neq in Hall by done. cbn in Hall. congruence. }
  set (o2 := if allowed then o1 else _) in H. set (dl := if bool_decide _ && allowed then DELIVERED else SUPPRESSED) in H.
  assert (outcome_ok id o2 (trail d) ∧ (o_status o2 = SUCCEEDED ↔ dl = DELIVERED) ∧ dl ≠ PENDING) as (Ho2 & Hdl & Hnp).
  { unfold o2, dl. destruct allowed.
    - rewrite andb_true_r. split_and!; [done| |by case_bool_decide]. case_bool_decide; naive_solver.
    - rewrite andb_false_r. split_and!; [by apply failing_ok|naive_solver|done]. }
  clearbody o2 dl. apply run_then in H as (c & d1 & Hc & H).
  apply update_run_ok in Hc as [(-> & -> & _)|(-> & y & Hy & Hwh & ->)]; cbn [Nat.eqb] in H.
  { apply status_settled in H as [-> H]. split; [apply guar_idle|exact H]. }
  assert (y = x) as -> by congruence. apply andb_true_iff in Hwh as [_ Hrun%running_active].
  apply run_then in H as (t & d2 & H2 & H). apply run_then in H2 as (m & d3 & H3 & H2). apply run_require in H2 as [Hm H2].
  apply update_invocation_ok in H3 as [(-> & _)|(-> & i & Hi & Hwi & Hpend & ->)]; [done|]. apply record_audit_ok in H2 as ->.
  cbn in Hi. apply status_settled in H as [-> H]. split; [|exact H]. eapply guar_channel; try done; [by exists w|by rewrite Hrun].
Qed.
Lemma suppress_ok e id org code at_ d u d' : run_alone (suppress e id org code at_) d = (Ok u, d') → ∃ i au,
  invocations d !! id = Some i ∧ d' = add_audit au (set_invocation id (delivered SUPPRESSED (Some code) at_ i) d).
Proof.
  unfold suppress. intros H. apply run_then in H as (m & d3 & H3 & H). apply run_require in H as [Hm H].
  apply update_invocation_ok in H3 as [(-> & _)|(-> & i & Hi & Hwi & Hpend & ->)]; [done|]. apply record_audit_ok in H as ->. eauto.
Qed.

Lemma claim_body n e id r v c d k d' :
  Inv d → home r True d → (∃ x, runs d !! id = Some x ∧ r_asked x = r_asked r) → k_token c = token n → k_deadlineAt c = k_startedAt c + MAX_DURATION_MS →
  run_alone (claim_transaction n e id r v c) d = (Ok k, d') → guar n d d' ∧ (k = 1%nat → Claimed n id c ∈ trail d').
Proof.
  intros HI Hh (x & Hx & Hxa) Hk Hd H. unfold claim_transaction in H. apply run_reads in H as (u & _ & H); [|apply reading_lock].
  cbn zeta in H. apply run_reads in H as (allowed & _ & H); [|pose proof reading_run_authority; reads]. destruct allowed.
  - apply update_run_ok in H as [(-> & -> & _)|(-> & y & Hy & Hwh & ->)]; [split; [apply guar_idle|done]|].
    assert (y = x) as -> by congruence. apply andb_true_iff in Hwh as [_ Hq%bool_decide_eq_true]. cbn [foldr]. split; [|by intros _; left].
    split; [by apply core_claim|]. intros _. apply (pairs_run d _ id x (claimed c x)); try done.
    intros w _ _ i (H1 & H2 & H3 & H4). rewrite Hq in H4. by split_and!.
  - apply run_then in H as (m & d1 & Hm & H). apply run_then in H as (t & d2 & H2 & H). injection H as <- <-. split; [|done].
    apply update_run_ok in Hm as [(-> & -> & _)|(-> & y & Hy & Hwh & ->)]; cbn [Nat.eqb] in H2; [injection H2 as _ <-; apply guar_idle|].
    assert (y = x) as -> by congruence. apply andb_true_iff in Hwh as [_ Hq%bool_decide_eq_true].
    apply suppress_ok in H2 as (i & au & Hi & ->). cbn [foldr] in *. eapply (guar_channel n d id r); try done; by rewrite Hq.
Qed.
Lemma expire_body n e id org r at_ cutoff d a d' :
  Inv d → placed id org r d → active (r_status r) = true → run_alone (expire_transaction e org at_ cutoff id r) d = (Ok a, d') → guar n d d'.
Proof.
  intros HI Hpl Hact H. destruct (placed_conversation _ _ _ _ (proj1 HI) Hpl) as (w & Hf & Hw & Hok). destruct Hpl as [(x & Hx & Hxa) Ho].
  unfold expire_transaction, conversation_of in H. rewrite run_read, Hf in H. destruct (bound (Some w)) as [v|] eqn:Eb; [|injection H as _ <-; apply guar_idle].
  apply bound_Some in Eb as [-> Hb]. apply run_reads in H as (u & _ & H); [|apply reading_lock]. cbn zeta in H.
  apply run_then in H as (m & d1 & Hm & H). apply update_run_ok in Hm as [(-> & -> & _)|(-> & y & Hy & Hwh & ->)]; cbn [negb Nat.eqb] in H; [injection H as _ <-; apply guar_idle|].
  assert (y = x) as -> by congruence. apply run_then in H as (t & d2 & H2 & H). injection H as _ <-. apply suppress_ok in H2 as (i & au & Hi & ->).
  cbn [foldr] in *. rewrite !andb_true_iff in Hwh. destruct Hwh as [[_ Hs%bool_decide_eq_true] _].
  set (o := if bool_decide (r_status r = RUNNING) then _ else _). assert (outcome_ok id o (trail d) ∧ o_status o ≠ SUCCEEDED) as [Hout Hns].
  { unfold o. by destruct (bool_decide (r_status r = RUNNING)); (split; [apply failing_ok|]). }
  clearbody o. by apply (guar_channel n d id r); [|exists w| | |rewrite Hs| | | |].
Qed.
End theory.
End ClientRunLog.
