(* ===== verification/ClientRunSafety.v ===== *)
(** * The requests of the account manager, interleaved

    Each request of ClientRuns.v keeps to its guarantee whatever the others do
    between its statements; the theorems about every reachable state. *)

From S2P Require Import Prelude Store Async Steps Trails Tenancy AuditLog ClientText ClientAgents ClientMemory ClientRuns ClientRunLog.
Import Trails.Trails Tenancy.Tenancy(mem, toLowerCase) ClientText.ClientText Steps.Steps ClientAgents.ClientAgents ClientMemory.ClientMemory ClientRuns.ClientRuns ClientRunLog.ClientRunLog.

Module ClientRunSafety.

Section theory.
Context (token : nat → string).
Abbreviation inv := (inv token).
Abbreviation Inv := (Inv token).
Abbreviation guar := (guar token).
Abbreviation core := (core token).
Abbreviation own := (owned Inv guar).
Abbreviation later n := (rtc (others guar n)).
Abbreviation any := (rtc (anyone guar)).
Implicit Types (d : db) (n : nat) (id : string).

(** ** Statements and transactions *)

Lemma any_of n d d' : later n d d' → any d d'.
Proof. apply others_anyone. Qed.
Lemma any_step n d d' : guar n d d' → any d d'.
Proof. intros H. apply rtc_once. by exists n. Qed.

Lemma own_serializable {A} n e k (p : act A) d (Q : result thrown A → db → Prop) :
  (∀ err d', Q (Err err) d') →
  (∀ d1 a d2, later n d d1 → Inv d1 → run_alone p d1 = (Ok a, d2) → guar n d1 d2 ∧ ∀ d3, any d2 d3 → Q (Ok a) d3) →
  own n (serializable e k p) d Q.
Proof.
  intros He Hok. unfold serializable. destruct (e_aborts e k); [by apply owned_fail|]. intros d1 H1 I1.
  destruct (commit p d1) as [[a|err] d2] eqn:E; cbn [fst snd].
  - apply commit_ok in E. destruct (Hok d1 a d2 H1 I1 E) as [Hg HQ]. split; [done|]. intros d3 H3 I3. apply HQ. by eapply any_of.
  - apply commit_err in E as [-> _]. split; [apply guar_idle|]. intros d3 H3 I3. apply He.
Qed.
Lemma own_update {A} n id w f nt (k : nat → act A) d (Q : result thrown A → db → Prop) :
  (∀ d1, later n d d1 → Inv d1 → own n (k 0%nat) d1 Q) →
  (∀ d1 r, later n d d1 → Inv d1 → runs d1 !! id = Some r → w r = true →
     let d2 := foldr note (set_run id (f r) d1) (nt r) in guar n d1 d2 ∧ own n (k 1%nat) d2 Q) →
  own n (and_then (update_run id w f nt) k) d Q.
Proof.
  intros H0 H1. apply owned_statement. intros d1 Hd I1. destruct (find_by_id id w (runs d1)) as [r|] eqn:E; cbn [fst snd].
  - apply find_by_id_Some in E as [Hr Hw]. by apply H1.
  - split; [apply guar_idle|by apply H0].
Qed.
Lemma own_lookup {A B} n (f : db → A) (k : A → act B) d (Q : result thrown B → db → Prop) :
  (∀ d', later n d d' → Inv d' → own n (k (f d')) d' Q) → own n (and_then (read f) k) d Q.
Proof. apply owned_read. intros. apply guar_idle. Qed.
Lemma own_reads {A B} n (p : act A) (k : A → act B) (P : A → Prop) d (Q : result thrown B → db → Prop) :
  reading p → says (holds P) p → (∀ a d', later n d d' → Inv d' → P a → own n (k a) d' Q) → (∀ err d', Q (Err err) d') → own n (and_then p k) d Q.
Proof. intros. eapply owned_reads; [intros; apply guar_idle|done..| |]; eauto. Qed.
Lemma own_write {A} n (f : db → db) (k : unit → act A) d (Q : result thrown A → db → Prop) :
  (∀ d1, later n d d1 → Inv d1 → guar n d1 (f d1) ∧ own n (k tt) (f d1) Q) → own n (and_then (write (λ d, (tt, f d))) k) d Q.
Proof. intros H. by apply owned_statement. Qed.

(** ** The job's statements *)

(** What the job answers: the run's status, final if it is. *)
Definition job_answer id (a : result thrown (option status)) d : Prop := match a with Ok s => settled id s d | Err _ => True end.
Lemma job_answer_stays id a d d' : any d d' → job_answer id a d → job_answer id a d'.
Proof. destruct a; [apply settled_stays|done]. Qed.
Lemma own_failed n id err d : own n (fail err) d (job_answer id).
Proof. by apply owned_fail. Qed.
Lemma own_status n id org d : own n (status_of id org) d (job_answer id).
Proof.
  unfold status_of. apply own_lookup. intros d1 H1 I1. apply owned_ok. intros d2 H2 I2.
  eapply settled_stays; [by eapply any_of|]. by eapply (status_settled id org d1).
Qed.

Lemma home_shared r w d : conversations d !! q_conversation (r_asked r) = Some w → v_channel w = None → home r False d.
Proof. intros Hw Hc. exists w. split; [done|]. by rewrite Hc. Qed.
Lemma home_channel r w d : conversations d !! q_conversation (r_asked r) = Some w → v_channel w ≠ None → home r True d.
Proof. intros Hw Hc. by exists w. Qed.

(** The end of a run of a shared conversation. *)
Lemma own_end_shared n id org r w o at_ d :
  placed id org r d → home r False d → outcome_ok id o (trail d) → (∀ x, w x = true → active (r_status x) = true) →
  own n (_ ←! update_run id w (finished o at_) (λ _, []); status_of id org) d (job_answer id).
Proof.
  intros Hpl Hh Ho Hw. apply own_update; [intros; apply own_status|]. intros d1 x H1 I1 Hx Hwx.
  assert (any d d1) as R1 by by eapply any_of. destruct (placed_stays _ _ _ _ _ _ R1 Hpl) as [(y & Hy & Ha) _]. simplify_eq.
  split; [|apply own_status]. eapply (guar_shared _ _ _ _ _ _ _ r); [|exact Hx|done..|by eapply home_stays].
  apply core_finish; [done|by apply Hw|]. destruct (any_trail _ _ _ R1) as (es & ->). by apply outcome_ok_later.
Qed.

Lemma own_settle_channel n e k id org r v tok dl o at_ d :
  placed id org r d → home r True d → outcome_ok id o (trail d) → own n (settleWorkspaceAgentRun e k id r v tok dl o at_) d (job_answer id).
Proof.
  intros Hpl Hh Ho. apply own_serializable; [done|]. intros d1 s d2 H1 I1 H. assert (any d d1) as R1 by by eapply any_of.
  apply (settle_body token n) in H as [Hg Hs]; [|done|by eapply home_stays|by apply (placed_stays token id org r d)|].
  - split; [done|]. intros d3 H3. by eapply settled_stays.
  - destruct (any_trail _ _ _ R1) as (es & ->). by apply outcome_ok_later.
Qed.

(** The conversation of a placed run: found, and of a channel or not. *)
Lemma own_conversation {A} n id org r (k : option conversation → act A) d (Q : result thrown A → db → Prop) :
  placed id org r d →
  (∀ d' w, later n d d' → Inv d' → placed id org r d' → (bound (Some w) = None ∧ home r False d' ∨ bound (Some w) = Some w ∧ home r True d') →
     own n (k (Some w)) d' Q) →
  own n (and_then (conversation_of org r) k) d Q.
Proof.
  intros Hpl Hk. apply own_lookup. intros d1 H1 I1. assert (placed id org r d1) as Hpl1 by (eapply placed_stays; [by eapply any_of|done]).
  destruct (placed_conversation _ _ _ _ _ (proj1 I1) Hpl1) as (w & -> & Hw & Hok). apply Hk; [done..|].
  destruct (bound (Some w)) as [v|] eqn:E.
  - apply bound_Some in E as [-> Hc]. right. split; [done|]. by eapply home_channel.
  - left. split; [done|]. apply bound_None in E; [|done]. by eapply home_shared.
Qed.

Lemma own_expire n e k id org r tok dl at_ d : placed id org r d → own n (expire e k id org r tok dl at_) d (job_answer id).
Proof.
  intros Hpl. unfold expire. eapply own_conversation; [exact Hpl|]. intros d1 w H1 I1 Hp1 [[-> Hh]|[-> Hh]].
  - eapply own_end_shared; [done..|by apply failing_ok|]. intros x Hx. apply andb_true_iff in Hx as [Hx _]. apply andb_true_iff in Hx as [_ Hx%running_active]. by rewrite Hx.
  - eapply own_settle_channel; [done..|]. by apply failing_ok.
Qed.
Lemma own_settle n e id org r c o d :
  placed id org r d → outcome_ok id o (trail d) → own n (settle e id org r c o) d (job_answer id).
Proof.
  intros Hpl Ho. unfold settle. cbn zeta. eapply own_conversation; [exact Hpl|]. intros d1 w H1 I1 Hp1 Hh.
  assert (outcome_ok id o (trail d1)) as Ho1 by (destruct (any_trail _ _ _ (any_of _ _ _ H1)) as (es & ->); by apply outcome_ok_later).
  destruct Hh as [[-> Hh]|[-> Hh]]; [|by eapply own_settle_channel]. destruct (k_deadlineAt c <=? clock e 20); [by apply own_expire|].
  eapply own_end_shared; [done..|]. intros x Hx. apply andb_true_iff in Hx as [Hx _]. apply andb_true_iff in Hx as [_ Hx%running_active]. by rewrite Hx.
Qed.

(** ** The claim *)

Definition claim_of n (e : env) : claim := Claim (token n) (clock e 0) (clock e 0 + MAX_DURATION_MS).
Definition claim_answer n id e (a : result thrown nat) d : Prop := a = Ok 1%nat → Claimed n id (claim_of n e) ∈ trail d.

Lemma own_update_last n id w f nt d (Q : result thrown nat → db → Prop) :
  (∀ d1, later n d d1 → Inv d1 → ∀ d2, later n d1 d2 → Inv d2 → Q (Ok 0%nat) d2) →
  (∀ d1 r, later n d d1 → Inv d1 → runs d1 !! id = Some r → w r = true →
     let d2 := foldr note (set_run id (f r) d1) (nt r) in guar n d1 d2 ∧ ∀ d3, later n d2 d3 → Inv d3 → Q (Ok 1%nat) d3) →
  own n (update_run id w f nt) d Q.
Proof.
  intros H0 H1 d1 Hd I1. destruct (find_by_id id w (runs d1)) as [r|] eqn:E; cbn [fst snd].
  - apply find_by_id_Some in E as [Hr Hw]. by apply H1.
  - split; [apply guar_idle|]. exact (H0 d1 Hd I1).
Qed.

Lemma own_claim n e id org r w d :
  placed id org r d → (bound (Some w) = None ∧ home r False d ∨ bound (Some w) = Some w ∧ home r True d) →
  own n (claim_run n e id org r (Some w) (claim_of n e)) d (claim_answer n id e).
Proof.
  intros Hpl Hh. unfold claim_run. destruct Hh as [[-> Hh]|[-> Hh]].
  - apply own_update_last; [intros; by intros ?|]. intros d1 x H1 I1 Hx Hq. assert (any d d1) as R1 by by eapply any_of.
    apply andb_true_iff in Hq as [_ Hq%bool_decide_eq_true]. destruct (placed_stays _ _ _ _ _ _ R1 Hpl) as [(y & Hy & Ha) _]. simplify_eq.
    split.
    + eapply (guar_shared _ _ _ _ _ _ _ r); [|exact Hx|done..|by eapply home_stays]. by apply core_claim.
    + intros d3 H3 I3 _. eapply any_in; [by eapply any_of|]. left.
  - apply own_serializable; [done|]. intros d1 k d2 H1 I1 H. assert (any d d1) as R1 by by eapply any_of.
    apply (claim_body token) in H as [Hg Hk]; [|done|by eapply home_stays|by apply (placed_stays token id org r d)|done|done].
    split; [done|]. intros d3 H3 [= ->]. eapply any_in; [exact H3|by apply Hk].
Qed.

(** ** Storing the context *)

Record ready n id (c : claim) (q : question) d : Prop := {
  rd_claimed : Claimed n id c ∈ trail d;
  rd_prepared : ∃ q' rev who v p, Prepared n id q' rev who v p ∈ trail d ∧ same_question q' q;
  rd_unasked : none (asks id) (trail d)
}.
(** Events that only this request can log are not logged by the others. *)
Lemma unlogged_stays n (p : event → bool) d d' :
  (∀ d2 e, any d d2 → inv d2 → e ∈ trail d2 → p e = true → by_request e = n) →
  later n d d' → Inv d → none p (trail d) → none p (trail d').
Proof.
  intros Hmine H. induction H as [d|d1 d2 d3 (m & Hm & Hg) _ IH]; [done|]. intros I1 Hn. pose proof (guar_Inv _ _ _ _ I1 Hg) as I2.
  apply IH; [|done|].
  - intros d4 e H4. apply Hmine. eapply rtc_l; [by exists m|done].
  - destruct (c_trail _ _ _ _ (proj1 Hg)) as (es & Ht & Hes). rewrite Ht, none_app. split; [|done].
    intros e He. destruct (p e) eqn:E; [|done]. exfalso. apply Hm. rewrite <-(Hes _ He).
    apply (Hmine d2); [by eapply any_step|apply I2|rewrite Ht, elem_of_app; by left|done].
Qed.
Lemma unasked_stays n id q' rev who v p d d' :
  later n d d' → Inv d → Prepared n id q' rev who v p ∈ trail d → none (asks id) (trail d) → none (asks id) (trail d').
Proof.
  intros H HI Hp. apply (unlogged_stays n); [|done..]. intros d2 e H2 I2 He Ha. destruct e as [| |m i q a|]; try done. cbn in Ha. apply bool_decide_eq_true in Ha as ->.
  destruct (asked_prepared _ _ _ _ _ _ (inv_trail _ _ I2) He) as (q2 & r2 & w2 & v2 & p2 & Hp2 & _).
  by destruct (prepared_unique _ _ _ _ _ _ _ _ _ _ _ _ _ _ _ (inv_trail _ _ I2) (any_in _ _ _ _ H2 Hp) Hp2) as [-> _].
Qed.
Lemma unanswered_stays n id q at_ d d' :
  later n d d' → Inv d → Asked n id q at_ ∈ trail d → none (answers id) (trail d) → none (answers id) (trail d').
Proof.
  intros H HI Hp. apply (unlogged_stays n); [|done..]. intros d2 e H2 I2 He Ha. destruct e as [| | |m i t]; try done. cbn in Ha. apply bool_decide_eq_true in Ha as ->.
  destruct (trail_at _ _ _ (inv_trail _ _ I2) He) as (l1 & l2 & E & _ & q2 & a2 & Hq).
  assert (Asked m id q2 a2 ∈ trail d2) as Hq2 by (rewrite E, elem_of_app, elem_of_cons; auto).
  by destruct (asked_unique _ _ _ _ _ _ _ _ _ (inv_trail _ _ I2) (any_in _ _ _ _ H2 Hp) Hq2) as [-> _].
Qed.
Lemma ready_stays n id c q d d' : later n d d' → Inv d → ready n id c q d → ready n id c q d'.
Proof.
  intros H HI [H1 (q' & rev & who & v & p & H2 & Hs) H3]. split; [by eapply any_in; [eapply any_of|]| |by eapply unasked_stays].
  exists q', rev, who, v, p. split; [|done]. by eapply any_in; [eapply any_of|].
Qed.

Lemma store_ok n e id org r q rev d k d' :
  Inv d → placed id org r d → Claimed n id (claim_of n e) ∈ trail d → a_question q = q_prompt (r_asked r) →
  run_alone (store_context n e id org (claim_of n e) q rev) d = (Ok k, d') →
  guar n d d' ∧ (k = 1%nat → ready n id (claim_of n e) q d').
Proof.
  intros [HI HP] [(y & Hy & Hya) _] Hc Hq. unfold store_context. rewrite run_statement. unfold store_statement. destruct (find_by_id id _ (runs d)) as [x|] eqn:E; [|intros [= <- <-]; split; [apply guar_idle|done]].
  apply find_by_id_Some in E as [Hx Hw]. change (runs d !! id = Some x) in Hx. assert (y = x) as -> by congruence. rewrite !andb_true_iff in Hw. destruct Hw as [[[_ Hrun] Hno%bool_decide_eq_true] _].
  destruct (client_agent_context_guard d x _ && _ && _) eqn:E; [|done]. intros [= <- <-]. rewrite !andb_true_iff in E. destruct E as [[Hcg Hmg] _].
  pose proof (inv_rows _ _ HI _ _ Hx) as Hrow. destruct (running_claim token id x (trail d) n (claim_of n e) (inv_trail _ _ HI) Hrow Hrun eq_refl Hc) as [Hst Hdl].
  pose proof (running_active _ _ Hrun) as Hs. destruct Hrow as (_ & [(_ & Hcn & Hmn & Hnp)|(m & q' & ? & ? & ? & ? & _ & Hat & _)] & _); [|congruence].
  assert (k_startedAt (claim_of n e) ≤ a_observedAt q < k_deadlineAt (claim_of n e) ∧ vouched q rev (users d !! q_by (r_asked x)) (conversations d !! q_conversation (r_asked x))
            (conversations d !! q_conversation (r_asked x) ≫= λ v, snd <$> profile_of d (q_org (r_asked x)) (v_client v))) as [Hat Hv].
  { unfold client_agent_context_guard in Hcg. apply andb_true_iff in Hcg as [_ Hcg]. apply orb_true_iff in Hcg as [Hcg|Hcg].
    { apply andb_true_iff in Hcg as [Hcg%bool_decide_eq_true _]. cbn in Hcg. congruence. }
    rewrite !andb_true_iff in Hcg. destruct Hcg as [[_ Ht] Hsn]. cbn [r_contextAt r_startedAt r_deadlineAt prepared r_context r_asked] in Ht, Hsn.
    rewrite Hst, Hdl in Ht. apply andb_true_iff in Ht as [Ht1%Z.leb_le Ht2%Z.ltb_lt]. split; [lia|].
    unfold client_agent_memory_guard in Hmg. apply orb_true_iff in Hmg as [Hmg|Hmg]; [apply bool_decide_eq_true in Hmg; cbn in Hmg; congruence|].
    rewrite Hmn in Hmg. cbn [r_memory prepared] in Hmg. rewrite !andb_true_iff in Hmg. destruct Hmg as [[_ Hau] _].
    unfold memory_authority in Hau. cbn [prepared r_asked r_profileRevision] in Hau. apply andb_true_iff in Hau as [Hu Hv].
    destruct (active_user d _ _) as [s|] eqn:Eu; [|done]. unfold active_user in Eu. apply find_by_id_Some in Eu as [Eu Hs1].
    apply andb_true_iff in Hs1 as [Hso%bool_decide_eq_true Hsa].
    destruct (conversations d !! q_conversation (r_asked x)) as [v|] eqn:Ev; [|done]. rewrite !andb_true_iff in Hv.
    destruct Hv as [[[Hvo%bool_decide_eq_true Hva%bool_decide_eq_true] _] Hp]. apply andb_true_iff in Hsn as [_ Hsn%bool_decide_eq_true]. cbn in Hsn.
    exists s, v. split_and!; [exact Eu|done|done|done|congruence|done|congruence|]. cbn. destruct (profile_of d _ _) as [[pi pr]|]; cbn.
    - rewrite !andb_true_iff in Hp. destruct Hp as [[? Hrev%bool_decide_eq_true] ?]. split_and!; [done|congruence|done].
    - apply bool_decide_eq_true in Hp. congruence. }
  split.
  - split; [eapply core_store; try done; congruence|]. intros _. apply (pairs_run d _ id x (prepared q rev x)); done.
  - intros _. split; [by right| |].
    + exists q, rev. do 3 eexists. split; [left|done].
    + cbn. apply none_cons. split; [done|]. apply (no_asks token); [apply (inv_trail _ _ HI)|done].
Qed.
Definition prepare_answer n id e q (a : result thrown nat) d : Prop := a = Ok 1%nat → ready n id (claim_of n e) q d.
Lemma own_prepare n e id org r w q rev d :
  placed id org r d → Claimed n id (claim_of n e) ∈ trail d → a_question q = q_prompt (r_asked r) →
  own n (prepare n e id org r (Some w) (claim_of n e) q rev) d (prepare_answer n id e q).
Proof.
  intros Hpl Hc Hq. unfold prepare.
  assert (∀ d1, later n d d1 → placed id org r d1 ∧ Claimed n id (claim_of n e) ∈ trail d1) as Hst.
  { intros d1 H1. split; [by eapply placed_stays; [eapply any_of|]|by eapply any_in; [eapply any_of|]]. }
  destruct (bound (Some w)) as [v|].
  - unfold serializable. destruct (e_aborts e 1); [by apply owned_fail|]. intros d1 H1 I1. destruct (Hst d1 H1) as [Hp1 Hc1].
    destruct (commit _ d1) as [[k|err] d2] eqn:E; cbn [fst snd].
    + apply commit_ok in E. apply run_reads in E as (u & _ & E); [|apply reading_lock]. apply run_reads in E as (u' & _ & E); [|apply reading_run_authority].
      apply store_ok with (r := r) in E as [Hg Hk]; [|done..]. split; [done|]. intros d3 H3 I3 [= ->].
      eapply ready_stays; [exact H3|exact (guar_Inv token n d1 d2 I1 Hg)|by apply Hk].
    + apply commit_err in E as [-> _]. split; [apply guar_idle|]. by intros d3 H3 I3 [=].
  - assert (∀ d1, run_alone (store_context n e id org (claim_of n e) q rev) d1 = store_statement n e id org (claim_of n e) q rev d1) as Hrun by (intros; apply run_statement).
    intros d1 H1 I1. destruct (Hst d1 H1) as [Hp1 Hc1]. specialize (Hrun d1). destruct (store_statement _ _ _ _ _ _ _ d1) as [[k|err] d2] eqn:E; cbn [fst snd].
    + apply (store_ok n e id org r q rev d1) in Hrun as [Hg Hk]; [|done..]. split; [done|]. intros d3 H3 I3 [= ->].
      eapply ready_stays; [exact H3|exact (guar_Inv token n d1 d2 I1 Hg)|by apply Hk].
    + assert (d2 = d1) as -> by (unfold store_statement in E; repeat case_match; by simplify_eq). split; [apply guar_idle|]. by intros d3 H3 I3 [=].
Qed.

(** ** The call of the provider *)

Lemma guar_notes n d id es :
  (∀ e, e ∈ es → by_request e = n ∧ about e = id) → is_Some (runs d !! id) → none (claims id) es → none (prepares id) es →
  (inv d → trail_ok (justified token) (es ++ trail d)) → guar n d (foldr note d es).
Proof.
  intros. destruct (foldr_note es d) as (Hr & Hc & Hi & Ht). split; [by eapply core_notes|]. intros _. by apply pairs_same.
Qed.
Lemma own_dispatch n e id org r q d :
  Inv d → placed id org r d → ready n id (claim_of n e) q d → own n (dispatch n e id org r (claim_of n e) q) d (job_answer id).
Proof.
  intros HI Hpl Hrd. unfold dispatch. destruct (Z.leb_spec (k_deadlineAt (claim_of n e)) (clock e 6)) as [_|Hlt]; [by apply own_expire|].
  apply own_write. intros d1 H1 I1. assert (placed id org r d1) as Hpl1 by (eapply placed_stays; [by eapply any_of|done]).
  destruct (ready_stays _ _ _ _ _ _ H1 HI Hrd) as [Hc (q' & rev & who & v & p & Hp & Hs) Hna].
  assert (guar n d1 (note (Asked n id q (clock e 6)) d1)) as Hg1.
  { apply (guar_notes n d1 id [_]); [by intros ? ->%list_elem_of_singleton|by destruct Hpl1 as [(x & Hx & _) _]|by intros ? ->%list_elem_of_singleton..|].
    intros II. split; [|apply II]. split_and!; [done|by exists q', rev, who, v, p|]. by exists (claim_of n e). }
  split; [done|]. pose proof (guar_Inv _ _ _ _ I1 Hg1) as I2. set (d2 := note _ d1) in *.
  assert (Asked n id q (clock e 6) ∈ trail d2) as Ha by left.
  assert (none (answers id) (trail d2)) as Hn2 by (apply none_cons; split; [done|by apply (no_answers token); [apply (inv_trail _ _ (proj1 I1))|]]).
  apply own_write. intros d3 H3 I3. assert (any d d3) as R3 by (etransitivity; [by eapply any_of|]; eapply rtc_l; [by exists n|by eapply any_of]).
  assert (placed id org r d3) as Hpl3 by by eapply placed_stays. pose proof (any_in _ _ _ _ (any_of _ _ _ H3) Ha) as Ha3.
  pose proof (unanswered_stays _ _ _ _ _ _ H3 I2 Ha Hn2) as Hn3.
  destruct (e_reply e) as [t| |code|] eqn:Er; [|split; [apply guar_idle|]; apply own_settle; [done|]; cbn; repeat case_match; by apply failing_ok..].
  assert (guar n d3 (note (Answered n id t) d3)) as Hg3.
  { apply (guar_notes n d3 id [_]); [by intros ? ->%list_elem_of_singleton|by destruct Hpl3 as [(x & Hx & _) _]|by intros ? ->%list_elem_of_singleton..|].
    intros II. split; [|apply II]. split; [done|]. by exists q, (clock e 6). }
  split; [done|]. apply own_settle; [by eapply placed_stays; [by eapply any_step|]|]. cbn.
  destruct (blank t || (MAX_RESPONSE_LENGTH <? len t)) eqn:Et; [by apply failing_ok|]. apply orb_false_iff in Et as [Hb Hl%Z.ltb_ge].
  split; [done|]. cbn. exists n, q, (clock e 6), t. split_and!; [by right|left|done..].
Qed.

(** ** From the claim on *)

Lemma says_preflight e id org r : says (holds (λ x, a_question x.1 = q_prompt (r_asked r))) (preflight e id org r).
Proof. unfold preflight. repeat (apply says_and_then; intros; try case_match; try done). Qed.
Lemma own_run_claimed n e id org r w d :
  Inv d → placed id org r d → Claimed n id (claim_of n e) ∈ trail d → own n (run_claimed n e id org r (Some w) (claim_of n e)) d (job_answer id).
Proof.
  intros HI Hpl Hc. unfold run_claimed. eapply own_reads; [|apply says_tried, says_preflight| |done].
  { apply reading_tried, reading_preflight. }
  intros x d1 H1 I1 Hx. assert (placed id org r d1) as Hpl1 by (eapply placed_stays; [by eapply any_of|done]).
  pose proof (any_in _ _ _ _ (any_of _ _ _ H1) Hc) as Hc1. destruct x as [[q rev]|err]; [|by apply own_settle; [|apply failing_ok]].
  apply own_lookup. intros d2 H2 I2. pose proof (placed_stays _ _ _ _ _ _ (any_of _ _ _ H2) Hpl1) as Hpl2.
  pose proof (any_in _ _ _ _ (any_of _ _ _ H2) Hc1) as Hc2. destruct (negb _); [apply own_status|].
  destruct (k_deadlineAt _ <=? _); [by apply own_expire|].
  eapply owned_tried; [by apply own_prepare|]. intros k d3 H3 I3 Hk. pose proof (placed_stays _ _ _ _ _ _ H3 Hpl2) as Hpl3.
  destruct k as [k|err]; [|by apply own_settle; [|apply failing_ok]]. destruct (Nat.eqb_spec k 1) as [->|_]; cbn [negb]; [|apply own_status].
  specialize (Hk eq_refl). apply own_lookup. intros d4 H4 I4. pose proof (placed_stays _ _ _ _ _ _ (any_of _ _ _ H4) Hpl3) as Hpl4.
  pose proof (ready_stays _ _ _ _ _ _ H4 I3 Hk) as Hr4. set (v := find_by_id _ _ _). clearbody v.
  eapply (own_reads _ _ _ (λ _, True)).
  - pose proof reading_lock. pose proof reading_run_authority. pose proof @reading_serializable. unfold still_authorized. reads.
  - apply says_true.
  - intros a d5 H5 I5 _. pose proof (placed_stays _ _ _ _ _ _ (any_of _ _ _ H5) Hpl4) as Hpl5. destruct a; [|by apply own_settle; [|apply failing_ok]].
    apply own_dispatch; [done..|]. destruct (ready_stays _ _ _ _ _ _ H5 I4 Hr4) as [? (q' & rev' & who & x & p & Hp & Hs) ?].
    split; [done| |done]. by exists q', rev', who, x, p.
  - done.
Qed.

(** ** Answers that stay true *)

(** [F] of a returned value; nothing of an error. *)
Definition answered {A} (F : A → db → Prop) (a : result thrown A) d : Prop := match a with Ok x => F x d | Err _ => True end.
Definition stays {A} (F : A → db → Prop) : Prop := ∀ x d d', any d d' → F x d → F x d'.

Lemma own_sequence {A B} n (p : act A) (k : A → act B) d (F : A → db → Prop) (H : B → db → Prop) :
  own n p d (answered F) → (∀ a d', any d d' → Inv d' → F a d' → own n (k a) d' (answered H)) → own n (and_then p k) d (answered H).
Proof. intros Hp Hk. by eapply owned_and_then; [exact Hp|..]. Qed.
Lemma own_catch {A} n (p : act A) (h : thrown → act A) d (F : A → db → Prop) :
  stays F → own n p d (answered F) → (∀ err d', any d d' → Inv d' → own n (h err) d' (answered F)) → own n (catch p h) d (answered F).
Proof.
  intros Hst Hp Hh. eapply owned_then; [exact Hp|]. intros [a|err] d' Hd HI HF; [|by apply Hh].
  apply owned_ok. intros d2 H2 I2. by eapply Hst; [eapply any_of|].
Qed.
Lemma own_rethrow {A} n (p : act A) (h : thrown → act A) d (F : A → db → Prop) :
  stays F → own n p d (answered F) → (∀ err, ∃ err', h err = fail err') → own n (catch p h) d (answered F).
Proof. intros Hst Hp Hh. apply own_catch; [done..|]. intros err d' _ _. destruct (Hh err) as (err' & ->). by apply owned_fail. Qed.
Lemma own_transaction {A} n e k (p : act A) d (F : A → db → Prop) :
  stays F → (∀ d1 a d2, later n d d1 → Inv d1 → run_alone p d1 = (Ok a, d2) → guar n d1 d2 ∧ F a d2) → own n (serializable e k p) d (answered F).
Proof.
  intros Hst Hp. apply own_serializable; [done|]. intros d1 a d2 H1 I1 H. destruct (Hp d1 a d2 H1 I1 H) as [Hg HF].
  split; [done|]. intros d3 H3. by eapply Hst.
Qed.
Lemma own_true {A} n (p : act A) d (F : A → db → Prop) : own n p d (answered F) → own n p d (answered (λ _ _, True)).
Proof. intros H. eapply owned_mono; [exact H|]. by intros [a|err]. Qed.

(** ** The job *)

Definition ran (x : string * option status) d : Prop := settled x.1 x.2 d.
Lemma ran_stays : stays ran.
Proof. intros x d d' H. by apply (settled_stays token). Qed.
Lemma own_process n e inside org id d :
  own n (processClientAgentRun n (token n) e inside org id) d (answered (λ x d, x.1 = id ∧ ran x d)).
Proof.
  unfold processClientAgentRun. destruct (negb _); [by apply owned_fail|]. apply own_lookup. intros d1 H1 I1.
  assert (∀ s d2, settled id s d2 → own n (ok s) d2 (job_answer id)) as Hret.
  { intros s d2 Hs. apply owned_ok. intros d3 H3 _. by eapply (settled_stays token); [eapply any_of|]. }
  apply (own_sequence n _ _ _ (settled id)).
  - destruct (find_by_id id (of_org org) (runs d1)) as [r|] eqn:E; [|by apply Hret].
    apply find_by_id_Some in E as [Hr Ho%bool_decide_eq_true]. change (runs d1 !! id = Some r) in Hr. assert (placed id org r d1) as Hpl by (split; [by exists r|done]).
    destruct (r_status r) eqn:Es; try (apply Hret; intros t [= <-] _; by exists r).
    + eapply own_conversation; [exact Hpl|]. intros d2 w H2 I2 Hp2 Hh.
      eapply owned_then; [by eapply own_claim|]. intros [k|err] d3 H3 I3 Hk; [|by apply owned_fail].
      pose proof (placed_stays _ _ _ _ _ _ H3 Hp2) as Hp3. destruct (Nat.eqb_spec k 1) as [->|_]; cbn [negb]; [|apply own_status].
      apply own_run_claimed; [done..|]. by apply Hk.
    + destruct (due _ r); [by apply own_expire|by apply Hret, settled_active].
  - intros s d2 H2 I2 Hs. apply owned_ok. intros d3 H3 _. split; [done|]. by eapply (settled_stays token); [eapply any_of|].
Qed.
End theory.
End ClientRunSafety.
