(* ===== verification/ClientRunRequests.v ===== *)
(** * Requests for the account manager, and the runs of every schedule

    The recovery sweep and the requests of staff (start, read, cancel, review,
    from the client's page or a channel) keep to the guarantee of
    ClientRunLog.v; with ClientRunSafety.v, the theorems about every reachable
    state. *)

From S2P Require Import Prelude Store Async Steps Trails Tenancy AuditLog ClientText ClientAgents ClientMemory ClientRuns ClientRunLog ClientRunSafety.
Import Trails.Trails Tenancy.Tenancy(mem, toLowerCase) ClientText.ClientText Steps.Steps ClientAgents.ClientAgents ClientMemory.ClientMemory.
Import ClientRuns.ClientRuns ClientRunLog.ClientRunLog ClientRunSafety.ClientRunSafety.

Module ClientRunRequests.

Section theory.
Context (token : nat → string).
Abbreviation inv := (inv token).
Abbreviation Inv := (Inv token).
Abbreviation guar := (guar token).
Abbreviation core := (core token).
Abbreviation own := (owned Inv guar).
Abbreviation later n := (rtc (others guar n)).
Abbreviation any := (rtc (anyone guar)).
Abbreviation stays := (stays token).
Implicit Types (d : db) (n : nat) (id : string).

(** ** The sweep *)

Lemma core_sweep n d d' (P : run → bool) o at_ :
  (∀ id, runs d' !! id = (λ r, if P r then finished o at_ r else r) <$> runs d !! id) → conversations d' = conversations d → trail d' = trail d →
  (∀ r, P r = true → active (r_status r) = true) → (∀ id, outcome_ok id o (trail d)) → core n d d'.
Proof.
  intros Hr Hc Ht HP Ho.
  assert (∀ i r0, runs d' !! i = Some r0 → ∃ r1, runs d !! i = Some r1 ∧ r_asked r0 = r_asked r1 ∧ (active (r_status r0) = true → active (r_status r1) = true) ∧
    (r0 = r1 ∨ active (r_status r1) = true ∧ r0 = finished o at_ r1)) as Hback.
  { intros i r0. rewrite Hr. destruct (runs d !! i) as [r1|]; [|done]. cbn. intros [= <-]. exists r1. destruct (P r1) eqn:E; [|by auto].
    split_and!; [done..|by intros _; apply HP|right]. by split; [apply HP|]. }
  split.
  - exists []. split; [done|by intros e ?%not_elem_of_nil].
  - intros id r Hid. rewrite Hr, Hid. cbn. eexists. split; [done|]. destruct (P r) eqn:E; [|apply moves_idle].
    apply finished_moves; [by apply HP|apply (Ho id)].
  - rewrite Hc. eauto using scope_refl.
  - intros [It Irow Iab Icv Ish Iint Ione]. split; rewrite ?Ht, ?Hc; [done|..|done| |].
    + intros i r0 (r1 & Hr1 & _ & _ & [->|[Ha ->]])%Hback; [by apply Irow|]. by apply finished_row; [apply Irow|..].
    + intros e He. rewrite Hr, fmap_is_Some. by apply Iab.
    + intros i r0 (r1 & Hr1 & -> & _)%Hback. by eapply Icv.
    + intros i j ri rj (ri' & Hi & -> & _)%Hback (rj' & Hj & -> & _)%Hback. by apply Iint.
    + intros i j ri rj (ri' & Hi & -> & Ai & _)%Hback (rj' & Hj & -> & Aj & _)%Hback ? ?. apply (Ione i j ri' rj'); auto.
Qed.
Lemma own_sweep {A} n (w : db → run → bool) s code at_ (k : nat → act A) d (Q : result thrown A → db → Prop) :
  (∀ d r, w d r = true → active (r_status r) = true ∧ unbound d (q_conversation (r_asked r)) = true) → active s = false → s ≠ SUCCEEDED →
  (∀ m d', any d d' → Inv d' → own n (k m) d' Q) → own n (and_then (update_runs w (finished (failing s code) at_)) k) d Q.
Proof.
  intros Hw Hs Hn Hk. apply owned_statement. intros d1 H1 I1. cbn [fst snd]. set (d2 := (_ : nat * db).2).
  assert (∀ id, runs d2 !! id = (λ r, if w d1 r then finished (failing s code) at_ r else r) <$> runs d1 !! id) as Hr.
  { intros id. exact (tget_update (T := gmap string run) (λ _ r, w d1 r) (λ _, finished (failing s code) at_) (runs d1) id). }
  assert (guar n d1 d2) as Hg.
  { split.
    - eapply (core_sweep n d1 d2 (w d1)); [exact Hr|done|done|by intros r [? _]%Hw|]. intros id. by apply failing_ok.
    - intros _ HP id r v. rewrite Hr. destruct (runs d1 !! id) as [x|] eqn:Ex; [|done]. cbn. intros [= <-]. destruct (w d1 x) eqn:E; [|by eapply HP].
      intros Hv Hb. apply Hw in E as [_ E]. unfold unbound in E. cbn in Hv. change (conversations d2) with (conversations d1) in Hv. rewrite Hv in E.
      by apply andb_true_iff in E as [E%bool_decide_eq_true _]. }
  split; [done|]. apply Hk; [|exact (guar_Inv token n d1 d2 I1 Hg)]. etransitivity; [by eapply any_of|by eapply any_step].
Qed.
Lemma own_expire_each n e k org at_ cutoff rows d :
  Forall (λ x : string * run, placed x.1 org x.2 d ∧ active (r_status x.2) = true) rows →
  own n (expire_each e k org at_ cutoff rows) d (answered (λ _ _, True)).
Proof.
  revert k d. induction rows as [|[id r] rows IH]; intros k d Hall; [by apply owned_ok|]. apply Forall_cons in Hall as [[Hpl Hact] Hall]. cbn [expire_each].
  apply (own_sequence _ _ _ _ _ (λ _ _, True)).
  - apply own_transaction; [done|]. intros d1 a d2 H1 I1 H. split; [|done]. eapply expire_body; [exact I1| |exact Hact|exact H].
    by eapply placed_stays; [eapply any_of|].
  - intros a d' H' I' _. apply (own_sequence _ _ _ _ _ (λ _ _, True)); [|by intros; apply owned_ok]. apply IH.
    eapply Forall_impl; [exact Hall|]. intros x [Hx ?]. split; [|done]. by eapply placed_stays.
Qed.
Lemma own_sweeping n e inside org d : own n (expireClientAgentRuns e inside org) d (answered (λ _ _, True)).
Proof.
  unfold expireClientAgentRuns. destruct (_ || _); [by apply owned_fail|].
  apply own_sweep; [|done|done|intros k d1 H1 I1; apply own_sweep; [|done|done|intros q d2 H2 I2]].
  - intros d1 r H. rewrite !andb_true_iff in H. destruct H as [[_ Hsh] Hov]. split; [|done]. unfold overdue in Hov. by apply andb_true_iff in Hov as [->%bool_decide_eq_true _].
  - intros d2 r H. rewrite !andb_true_iff in H. destruct H as [[_ Hsh] Hov]. split; [|done]. unfold old_queue in Hov. by apply andb_true_iff in Hov as [->%bool_decide_eq_true _].
  - apply (own_sequence _ _ _ _ _ (λ _ _, True)); [|by intros; apply owned_ok]. unfold expireWorkspaceAgentRuns. apply own_lookup. intros d3 H3 I3.
    apply own_expire_each. apply Forall_forall. intros [id r] Hin.
    eapply elem_of_sublist in Hin; [|apply sublist_take]. apply elem_of_isort, tselect_spec in Hin as [Hr Hw]. rewrite !andb_true_iff, orb_true_iff in Hw.
    destruct Hw as [[Ho%bool_decide_eq_true _] Hw]. split; [split; [by exists r|done]|]. unfold overdue, old_queue in Hw. rewrite !andb_true_iff in Hw.
    by destruct Hw as [[Hs%bool_decide_eq_true _]|[Hs%bool_decide_eq_true _]]; cbn; rewrite Hs.
Qed.

(** ** The parts of a transaction *)

Definition touched d d' : Prop := runs d' = runs d ∧ conversations d' = conversations d ∧ invocations d' = invocations d ∧ trail d' = trail d.
Lemma touched_refl d : touched d d.
Proof. done. Qed.
Lemma guar_touched n d d' : touched d d' → guar n d d'.
Proof. intros (Hr & Hc & Hi & Ht). split; [by apply core_same|]. intros _. by apply pairs_same. Qed.
Lemma guar_then n d1 d2 d3 : guar n d1 d2 → guar n d2 d3 → guar n d1 d3.
Proof. intros [H1 P1] [H2 P2]. split; [by eapply core_trans|]. intros HI HP. apply P2; [by apply H1|by apply P1]. Qed.

Lemma staff_ok u c a d d' : run_alone (authorizeClientAgentStaff u c) d = (Ok a, d') → d' = d ∧ a_id a = u_id u ∧ a_org a = u_org u.
Proof.
  intros H. split; [exact (run_last _ _ _ _ (reading_staff u c) H)|]. unfold authorizeClientAgentStaff in H. apply run_require in H as [_ H]. rewrite run_read in H.
  destruct (active_user _ _ _); [|done]. apply run_require in H as [_ H]. rewrite run_read in H. destruct (live_client _ _ _); [|done]. by injection H as <- <-.
Qed.
Lemma member_touches u c lock d x d' : run_alone (authorizeWorkspaceChatMember u c lock) d = (Ok x, d') → touched d d'.
Proof.
  unfold authorizeWorkspaceChatMember. intros H. apply run_reads in H as (a & _ & H); [|unfold actorScope; reads].
  apply run_reads in H as (m & _ & H); [|unfold channelForMember; reads]. apply run_then in H as (t & d1 & H1 & H). injection H as _ <-.
  destruct lock; [|by injection H1 as _ <-]. unfold lockChannel in H1. rewrite run_write in H1. apply run_last in H1 as ->; [|reads]. by case_match.
Qed.
Lemma source_touches a v lock d x d' : run_alone (authorizeSourceConversation a v lock) d = (Ok x, d') → touched d d'.
Proof.
  unfold authorizeSourceConversation. destruct (_ && _); [by intros [= _ <-]|]. destruct (_ || _); [done|]. intros H.
  apply run_then in H as (an & d1 & H1%member_touches & H). apply run_last in H as ->; [done|reads].
Qed.
Lemma scope_ok u c v act lock d ac d' : run_alone (scope u c v act lock) d = (Ok ac, d') → touched d d' ∧ a_id ac.1 = u_id u ∧ a_org ac.1 = u_org u ∧
  ∃ w, conversations d !! v = Some w ∧ v_org w = a_org ac.1 ∧ v_client w = c ∧ ac.2 = channel_bound w ∧ (act = true → channel_bound w = false).
Proof.
  unfold scope. intros H. apply run_then in H as (a & d1 & (-> & Ha & Ho)%staff_ok & H). rewrite run_read in H.
  destruct (find_by_id v _ (conversations d)) as [w|] eqn:E; [|done]. apply find_by_id_Some in E as [Hw Hq]. apply andb_true_iff in Hq as [Hc%bool_decide_eq_true Ho'%bool_decide_eq_true].
  apply run_then in H as (t & d2 & H2%source_touches & H). apply run_require in H as [Hact H]. apply run_require in H as [_ H]. injection H as <- <-.
  split_and!; [done..|]. exists w. split_and!; [done..|]. intros ->. by apply negb_true_iff in Hact.
Qed.
Lemma findRun_ok a v id d r d' : run_alone (findRun a v id) d = (Ok r, d') →
  d' = d ∧ runs d !! id = Some r ∧ q_org (r_asked r) = a_org a ∧ q_conversation (r_asked r) = v.
Proof.
  unfold findRun. rewrite run_read. destruct (find_by_id id _ (runs d)) as [x|] eqn:E; [|done]. intros [= <- <-]. apply find_by_id_Some in E as [Hr Hw].
  by apply andb_true_iff in Hw as [Ho%bool_decide_eq_true Hc%bool_decide_eq_true].
Qed.

(** ** A new run *)

Lemma create_ok_run id r d t d' : run_alone (create_run id r) d = (Ok t, d') →
  d' = set_run id r d ∧ taken d id (r_asked r) = false ∧ insert_allowed d (r_asked r) = true.
Proof.
  unfold create_run. rewrite run_statement. destruct (negb _); [done|]. destruct (taken d id _) eqn:Et; [done|].
  destruct (insert_allowed d _) eqn:Ei; [|done]. by intros [= _ <-].
Qed.
Lemma core_insert n d id q rev :
  taken d id q = false → insert_allowed d q = true → core n d (set_run id (queued q rev) d).
Proof.
  unfold taken, insert_allowed. rewrite !orb_false_iff, !negb_false_iff, bool_decide_eq_false, !Nat.eqb_eq, !tcount_zero, andb_true_iff.
  intros [[Hno Hint] Hone] [_ Hv]. apply eq_None_not_Some in Hno. destruct (conversations d !! q_conversation q) as [w|] eqn:Ew; [|done].
  apply andb_true_iff in Hv as [Hvo%bool_decide_eq_true _]. split.
  - exists []. split; [done|by intros e ?%not_elem_of_nil].
  - intros i r Hr. exists r. split; [|apply moves_idle]. cbn. rewrite lookup_insert_ne; [done|congruence].
  - intros i v Hi. exists v. split; [done|apply scope_refl].
  - intros [It Irow Iab Icv Ish Iint Ione]. split; cbn [set_run runs conversations trail].
    + done.
    + intros i r. rewrite lookup_insert_Some. intros [[<- <-]|[_ Hr]]; [|by apply Irow].
      assert (∀ p : event → bool, (∀ e, p e = true → about e = id) → none p (trail d)) as Hnone.
      { intros p Hp e He. destruct (p e) eqn:E; [|done]. apply Hp in E. destruct (Iab e He) as [x Hx]. congruence. }
      split_and!; [|left; split_and!; [done..|]|done].
      * cbn. split_and!; [done..|]. apply Hnone. intros [] E; cbn in E; try done. by apply bool_decide_eq_true in E.
      * apply Hnone. intros [] E; cbn in E; try done. by apply bool_decide_eq_true in E.
    + intros e He. rewrite lookup_insert_is_Some'. right. by apply Iab.
    + intros i r. rewrite lookup_insert_Some. intros [[<- <-]|[_ Hr]]; [by exists w|by eapply Icv].
    + done.
    + assert (∀ j r, runs d !! j = Some r → same_intent q (r_asked r) = true → False) as Hnew by (intros j r Hj Hs; rewrite (Hint j r Hj) in Hs; done).
      intros i j ri rj. rewrite !lookup_insert_Some. intros [[<- <-]|[_ Hi]] [[<- <-]|[_ Hj]] Hs; [done|..|by eapply Iint].
      * by destruct (Hnew _ _ Hj Hs).
      * destruct (Hnew _ _ Hi). unfold same_intent in *. rewrite !andb_true_iff, !bool_decide_eq_true in *. cbn in Hs. naive_solver.
    + assert (∀ j r, runs d !! j = Some r → active (r_status r) = true → q_org (r_asked r) = q_org q → q_conversation (r_asked r) = q_conversation q → False) as Hnew.
      { intros j r Hj Ha Ho Hc. specialize (Hone j r Hj). unfold active_in, of_org in Hone. by rewrite Ho, Hc, !bool_decide_refl, Ha in Hone. }
      intros i j ri rj. rewrite !lookup_insert_Some. intros [[<- <-]|[_ Hi]] [[<- <-]|[_ Hj]] Ai Aj Ho Hc; [done|..|by eapply Ione].
      * by destruct (Hnew _ _ Hj Aj).
      * by destruct (Hnew _ _ Hi Ai).
Qed.
Lemma queue_ok e id a c q rev d x d' :
  run_alone (queueClientAgentRunInTransaction e id a c q rev) d = (Ok x, d') →
  x = (id, queued q rev) ∧ touched (set_run id (queued q rev) d) d' ∧ taken d id q = false ∧ insert_allowed d q = true.
Proof.
  unfold queueClientAgentRunInTransaction. intros H. apply run_then in H as (t & d1 & (-> & Ht & Hi)%create_ok_run & H).
  apply run_require in H as [_ H]. rewrite run_write in H. apply run_then in H as (t' & d2 & ->%record_audit_ok & H). by injection H as <- <-.
Qed.

(** ** Transactions *)

(** A view is the run as it was, or as it still is. *)
Definition seen (w : view) d : Prop := ∃ r, runs d !! x_id w = Some r ∧ moves (x_run w) r.
Lemma seen_stays : stays seen.
Proof. intros w d d' H (r & Hr & M). destruct (any_row _ _ _ _ _ H Hr) as (r' & Hr' & M'). exists r'. eauto using moves_on. Qed.
Lemma seen_now d id r c : runs d !! id = Some r → seen (project_run d id r c) d.
Proof. intros Hr. exists r. split; [done|apply moves_idle]. Qed.
(** A card shows a status the run had, and an answer only of a run that succeeded. *)
Definition carded (c : card) d : Prop := ∃ r x, runs d !! d_run c = Some r ∧ moves x r ∧ r_status x = d_status c ∧
  ∀ t, d_response c = Some t → r_status r = SUCCEEDED ∧ r_response r = Some t.
Lemma carded_stays : stays carded.
Proof.
  intros c d d' H (r & x & Hr & M & Hs & Ht). destruct (any_row _ _ _ _ _ H Hr) as (r' & Hr' & M'). exists r', x. split_and!; [done|by eapply moves_on|done|].
  intros t Hc. destruct (Ht t Hc) as [Hss Hrt]. rewrite (moves_final _ _ M'); [done|by rewrite Hss].
Qed.
Lemma view_ok id i d c d' : run_alone (invocationView id i) d = (Ok c, d') → d' = d ∧ carded c d.
Proof.
  unfold invocationView. cbn zeta. rewrite run_read. destruct (find_by_id id _ (runs d)) as [r|] eqn:E; [|done]. intros H. apply run_require in H as [_ H].
  injection H as <- <-. split; [done|]. apply find_by_id_Some in E as [Hr _]. exists r, r. split_and!; [done|apply moves_idle|done|].
  cbn. intros t. destruct (bool_decide (i_state i = DELIVERED)); [|done]. cbn. case_bool_decide; done.
Qed.

Section requests.
Context (hash : jv → string).

Definition input_hash (clientId conversationId : string) (question : text) : string :=
  hash (JO [("clientId", JT (units clientId)); ("conversationId", JT (units conversationId)); ("question", JT question)]).
(** The run a start request is answered with is the one its key names. *)
Definition started (u : session) (clientId conversationId : string) (question : text) (key : string) (w : view) d : Prop :=
  seen w d ∧ q_org (r_asked (x_run w)) = u_org u ∧ q_by (r_asked (x_run w)) = u_id u ∧ q_key (r_asked (x_run w)) = key ∧
  q_conversation (r_asked (x_run w)) = conversationId ∧ q_hash (r_asked (x_run w)) = input_hash clientId conversationId question.
Lemma started_stays u c v q key : stays (started u c v q key).
Proof. intros w d d' H [Hs ?]. split; [|done]. by eapply seen_stays. Qed.

Lemma intent_ok d org by_ key id r : intent_of d org by_ key = Some (id, r) →
  runs d !! id = Some r ∧ q_org (r_asked r) = org ∧ q_by (r_asked r) = by_ ∧ q_key (r_asked r) = key.
Proof.
  unfold intent_of. intros H%head_Some_elem_of. apply tselect_spec in H as [Hr Hw]. split; [exact Hr|].
  by rewrite !andb_true_iff, !bool_decide_eq_true in Hw; destruct Hw as [[? ?] ?].
Qed.
Lemma shared_conversation w : conversation_ok w → channel_bound w = false → v_channel w = None.
Proof. intros Hw Hb. apply bound_None; [done|]. unfold bound. by rewrite Hb. Qed.

Lemma start_body n e k u c v q key d w d' :
  Inv d → run_alone (start_transaction hash e k u c v q key) d = (Ok w, d') → guar n d d' ∧ started u c v q key w d'.
Proof.
  intros HI H. unfold start_transaction in H. cbn zeta in H. apply run_reads in H as (ac & Hac & H); [|apply reading_scope].
  apply scope_ok in Hac as (_ & Hid & Ho & x & Hx & Hxo & _ & _ & Hxb). specialize (Hxb eq_refl). rewrite run_read in H.
  destruct (intent_of d _ _ key) as [[id r]|] eqn:E.
  - apply run_require in H as [Hq H]. injection H as <- <-. apply intent_ok in E as (Hr & H1 & H2 & H3).
    apply andb_true_iff in Hq as [Hq1%bool_decide_eq_true Hq2%bool_decide_eq_true]. split; [apply guar_idle|].
    split; [by apply seen_now|]. cbn. by rewrite H1, H2, H3, Hid, Ho.
  - apply run_reads in H as (p & _ & H); [|apply reading_profile]. apply run_require in H as [_ H]. rewrite run_read in H. apply run_require in H as [_ H].
    apply run_then in H as (row & d1 & (-> & Ht & Hno & Hall)%queue_ok & H). rewrite Hid, Ho in *. injection H as <- <-.
    set (r := queued _ _) in *. assert (runs d1 !! e_id e k = Some r) as Hr by (rewrite (proj1 Ht); cbn; by simplify_map_eq). split.
    + eapply guar_then; [|by apply guar_touched]. split; [by apply core_insert|]. intros II HP i r0 v0. cbn. rewrite lookup_insert_Some.
      intros [[<- <-]|[Hne Hr0]]; [|by eapply HP]. cbn. rewrite Hx. intros [= <-] Hb. destruct Hb. apply shared_conversation; [by eapply (inv_shared _ _ II)|done].
    + split; [|done]. by apply seen_now.
Qed.
Lemma review_body n e k u c v id d w d' :
  run_alone (review_transaction e k u c v id) d = (Ok w, d') → guar n d d' ∧ seen w d'.
Proof.
  unfold review_transaction. intros H. apply run_then in H as (ac & d1 & (Ht & _)%scope_ok & H). cbn zeta in H.
  apply run_then in H as (r & d2 & (-> & Hr & _)%findRun_ok & H). apply run_require in H as [_ H]. apply run_require in H as [_ H]. rewrite run_read in H.
  destruct (reviews d1 !! id) as [t|].
  - injection H as <- <-. split; [by apply guar_touched|by apply seen_now].
  - rewrite run_write in H. apply run_then in H as (t & d3 & ->%record_audit_ok & H). injection H as <- <-. split; [|by apply seen_now].
    apply guar_touched. exact Ht.
Qed.
Lemma cancel_body n e u c v id d w d' :
  Inv d → run_alone (cancel_transaction e u c v id) d = (Ok w, d') → guar n d d' ∧ seen w d'.
Proof.
  intros HI H. unfold cancel_transaction in H. apply run_then in H as (ac & d1 & (Ht & _ & _ & x & Hx & Hxo & _ & Hb & _)%scope_ok & H). cbn zeta in H.
  assert (guar n d d1) as Hg by by apply guar_touched. pose proof (guar_Inv _ _ _ _ HI Hg) as [I1 P1].
  apply run_then in H as (r & d2 & (-> & Hr & Hro & Hrc)%findRun_ok & H). apply run_require in H as [_ H]. case_bool_decide as Hs.
  { injection H as <- <-. split; [done|by apply seen_now]. }
  apply run_require in H as [Hact H]. apply run_then in H as (m & d3 & H3 & H). apply run_require in H as [Hm H].
  apply update_run_ok in H3 as [(-> & _)|(_ & r' & Hr' & _ & ->)]; [done|]. assert (r' = r) as -> by congruence. cbn [foldr] in H.
  set (d4 := set_run id _ d1) in *. apply run_then in H as (r4 & d5 & (-> & Hr4 & _)%findRun_ok & H). apply run_require in H as [_ H].
  assert (r4 = cancelled (clock e 0) r) as -> by (cbn in Hr4; rewrite lookup_insert in Hr4; destruct (decide (id = id)); congruence).
  destruct Ht as (_ & Hcv & _). rewrite <-Hcv in Hx. apply run_then in H as (y & d6 & H6 & H).
  apply run_then in H as (t & d7 & ->%record_audit_ok & H). injection H as <- <-.
  assert (runs d6 = runs d4 ∧ guar n d1 d6) as [Hr6 Hg6].
  { rewrite Hb in H6. destruct (channel_bound x) eqn:Eb.
    - destruct (P1 id r x Hr) as (i & Hi & Hp); [by rewrite Hrc|unfold channel_bound in Eb; by destruct (v_channel x)|].
      apply update_invocation_ok in H6 as [(_ & -> & Hnone)|(_ & j & Hj & _ & _ & ->)].
      + exfalso. destruct Hp as (Hp1 & _ & _ & Hp4). assert (i_state i = PENDING) as Hpend by by destruct (r_status r).
        assert (find_by_id id (λ i, bool_decide (i_org (i_invoked i) = a_org ac.1) && bool_decide (i_state i = PENDING)) (invocations d4) = Some i) as E; [|congruence].
        apply find_by_id_Some. split; [exact Hi|]. rewrite Hp1, Hro, Hpend. by rewrite !bool_decide_refl.
      + split; [done|]. assert (j = i) as -> by (cbn in Hj; congruence). split.
        * eapply core_trans; [by apply core_cancel|]. by apply core_same.
        * intros _ _. destruct Hp as (Hp1 & Hp2 & Hp3 & _). eapply (pairs_both d1 _ id r (cancelled (clock e 0) r) i); done.
    - injection H6 as _ <-. split; [done|]. eapply (guar_shared token n d1 id r (cancelled (clock e 0) r) d4 r); try done; [by apply core_cancel|].
      exists x. rewrite Hrc. split; [done|]. rewrite (shared_conversation x); [done| |done]. by eapply (inv_shared _ _ I1). }
  split; [eapply guar_then; [exact Hg|]; eapply guar_then; [exact Hg6|by apply guar_touched]|].
  eexists. split; [|apply moves_idle]. cbn. by rewrite Hr6.
Qed.

Lemma channelScope_ok u c d an d' : run_alone (channelScope u c) d = (Ok an, d') → d' = d ∧ c ≠ "".
Proof.
  unfold channelScope. intros H. apply run_reads in H as (t & _ & H); [|apply reading_lock]. split; [exact (run_last _ _ _ _ (reading_member u c) H)|].
  unfold authorizeWorkspaceChatMember in H. apply run_reads in H as (a & _ & H); [|unfold actorScope; reads].
  apply run_then in H as (m & d1 & H & _). unfold channelForMember in H. apply run_require in H as [H _]. by intros ->.
Qed.
Lemma core_conversation n d id v : conversations d !! id = None → conversation_ok v → core n d (set_conversation id v d).
Proof.
  intros Hno Hv. split.
  - exists []. split; [done|by intros e ?%not_elem_of_nil].
  - intros i r Hr. exists r. eauto using moves_idle.
  - intros i w Hw. exists w. split; [|apply scope_refl]. cbn. rewrite lookup_insert_ne; [done|congruence].
  - intros [It Irow Iab Icv Ish Iint Ione]. split; try done.
    + intros i r Hr. destruct (Icv i r Hr) as (w & Hw & Ho). exists w. split; [|done]. cbn. rewrite lookup_insert_ne; [done|congruence].
    + intros i w. cbn. rewrite lookup_insert_Some. intros [[_ <-]|[_ Hw]]; [done|by eapply Ish].
Qed.
(** A conversation of a channel, its run and the run's invocation are made together. *)
Lemma guar_request n d vid v id q rev o :
  conversations d !! vid = None → conversation_ok v → q_conversation q = vid → taken (set_conversation vid v d) id q = false →
  insert_allowed (set_conversation vid v d) q = true → i_org o = q_org q → i_conversation o = q_conversation q → i_by o = q_by q →
  guar n d (set_invocation id (Invocation o PENDING None None None) (set_run id (queued q rev) (set_conversation vid v d))).
Proof.
  intros Hno Hv Hq Ht Hi H1 H2 H3. split.
  - eapply core_trans; [by apply core_conversation|]. eapply core_trans; [by apply core_insert|]. by apply core_same.
  - intros HI HP i r w. cbn. rewrite lookup_insert_Some. intros [[<- <-]|[Hne Hr]].
    + intros _ _. eexists. split; [apply lookup_insert_eq|]. by split_and!.
    + destruct (inv_conversation _ _ HI i r Hr) as (w' & Hw' & _). rewrite !lookup_insert_ne by congruence. by eapply HP.
Qed.
Lemma create_conversation_ok id v d t d' : run_alone (create_conversation id v) d = (Ok t, d') → d' = set_conversation id v d ∧ conversations d !! id = None.
Proof. unfold create_conversation. rewrite run_statement. case_bool_decide as H; [done|]. intros [= _ <-]. split; [done|by apply eq_None_not_Some]. Qed.
Lemma create_invocation_ok id o d t d' : run_alone (create_invocation id o) d = (Ok t, d') → d' = set_invocation id (Invocation o PENDING None None None) d.
Proof. unfold create_invocation. rewrite run_statement. destruct (invocation_taken _ _ _); [done|]. by intros [= _ <-]. Qed.

Lemma request_body n e u c b g key d x d' :
  run_alone (request_transaction hash e u c b g key) d = (Ok x, d') → guar n d d' ∧ carded x.1 d'.
Proof.
  unfold request_transaction. intros H. apply run_then in H as (an & d1 & (-> & Hc)%channelScope_ok & H). cbn zeta in H.
  apply run_reads in H as (bp & _ & H); [|apply reading_binding]. rewrite run_read in H. destruct (find_by_id g _ (messages d)) as [m|]; [|done].
  destruct (parse_question _) as [q|]; [|done]. cbn zeta in H. rewrite run_read in H. destruct (head _) as [[id i]|].
  - apply run_require in H as [_ H]. apply run_then in H as (y & d1 & (-> & Hy)%view_ok & H). injection H as <- <-. split; [apply guar_idle|done].
  - apply run_then in H as (t & d1 & (-> & Hno)%create_conversation_ok & H). apply run_then in H as (row & d2 & (-> & Ht & Hfree & Hall)%queue_ok & H).
    apply run_then in H as (t' & d3 & ->%create_invocation_ok & H). apply run_then in H as (t2 & d4 & ->%record_audit_ok & H).
    apply run_then in H as (y & d5 & (-> & Hy)%view_ok & H). injection H as <- <-. split; [|done].
    set (v := Conversation _ _ _ _ _ _ _ _) in *. set (o := Invoked _ _ _ _ _ _ _ _ _) in *. set (r := Asked_ _ _ _ _ _ _ _) in *.
    eapply (guar_then n d (set_invocation (e_id e 1) (Invocation o PENDING None None None) (set_run (e_id e 1) (queued r (p_revision bp.2)) (set_conversation (e_id e 0) v d)))).
    + apply guar_request; try done. right. by exists c, b.
    + apply guar_touched. destruct Ht as (Hr & Hcv & Hi & Htr). unfold touched. cbn in *. by rewrite Hr, Hcv, Hi, Htr.
Qed.
(** A new request of a channel needs its key in lower case, which its schema
    (unlike the start request's) does not see to: the table refuses the run. *)
Lemma request_key_lower e u c b g key d x d' :
  run_alone (request_transaction hash e u c b g key) d = (Ok (x, false), d') → toLowerCase key = key.
Proof.
  unfold request_transaction. intros H. apply run_then in H as (an & d1 & _ & H). cbn zeta in H. apply run_then in H as (bp & d2 & _ & H).
  rewrite run_read in H. destruct (find_by_id g _ (messages d2)) as [m|]; [|done]. destruct (parse_question _) as [q|]; [|done]. cbn zeta in H. rewrite run_read in H.
  destruct (head _) as [[id i]|].
  { apply run_require in H as [_ H]. by apply run_then in H as (y & d3 & _ & H). }
  apply run_then in H as (t & d3 & _ & H). apply run_then in H as (row & d4 & H & _). unfold queueClientAgentRunInTransaction in H.
  apply run_then in H as (t' & d5 & H & _). unfold create_run in H. rewrite run_statement in H. destruct (key_check _) eqn:E; [|done].
  by apply bool_decide_eq_true in E.
Qed.

(** ** The rest of the program *)

Lemma merged_conversation z old id v : old !! id = Some v → merge_conversations z old !! id = Some (edited z id v).
Proof. intros H. unfold merge_conversations. apply lookup_union_Some_l. by rewrite map_lookup_imap, H. Qed.
Lemma edited_scope z id v : same_conversation_scope v (edited z id v).
Proof. unfold edited. by destruct (z_conversations z !! id). Qed.
Lemma guar_elsewhere n z d : guar n d (elsewhere z d).
Proof.
  split.
  - split.
    + exists []. split; [done|by intros e ?%not_elem_of_nil].
    + intros id r Hr. exists r. eauto using moves_idle.
    + intros id v Hv. exists (edited z id v). split; [by apply merged_conversation|apply edited_scope].
    + intros [It Irow Iab Icv Ish Iint Ione]. split; try done.
      * intros id r Hr. destruct (Icv id r Hr) as (v & Hv & Ho). exists (edited z (q_conversation (r_asked r)) v). split; [by apply merged_conversation|].
        destruct (edited_scope z (q_conversation (r_asked r)) v) as [E _]. by rewrite E.
      * intros id v Hv. cbn in Hv. unfold merge_conversations in Hv. apply lookup_union_Some_raw in Hv as [Hv|[_ Hv]].
        -- rewrite map_lookup_imap in Hv. destruct (conversations d !! id) as [w|] eqn:E; [|done]. injection Hv as <-. specialize (Ish id w E).
           destruct (edited_scope z id w) as (_ & _ & Hc & Hb). unfold conversation_ok in *. by rewrite Hc, Hb.
        -- apply map_lookup_filter_Some in Hv as [_ Hv]. cbn in Hv. unfold is_shared in Hv. left. by rewrite andb_true_iff, !bool_decide_eq_true in Hv.
  - intros HI HP id r v Hr Hv Hb. destruct (inv_conversation _ _ HI id r Hr) as (w & Hw & _). cbn in Hv. rewrite (merged_conversation z _ _ _ Hw) in Hv.
    injection Hv as <-. destruct (edited_scope z (q_conversation (r_asked r)) w) as (_ & _ & Hc & _). rewrite Hc in Hb. by apply (HP id r w).
Qed.

(** ** Requests *)

Lemma own_guard {A} n (p : act A) d (F : A → db → Prop) : stays F → own n p d (answered F) → own n (guard p) d (answered F).
Proof. intros Hst Hp. apply own_rethrow; [done..|]. intros err. destruct err; eauto. Qed.
Lemma own_stage {A} n e k (p : act A) d (F : A → db → Prop) :
  stays F → (∀ d1 a d2, later n d d1 → Inv d1 → run_alone p d1 = (Ok a, d2) → guar n d1 d2 ∧ F a d2) → own n (withStageTransaction e k p) d (answered F).
Proof. intros Hst Hp. unfold withStageTransaction. apply own_rethrow; [done|by apply own_transaction|eauto]. Qed.
Lemma own_view n id i d : own n (invocationView id i) d (answered carded).
Proof.
  unfold invocationView. cbn zeta. apply own_lookup. intros d1 H1 I1. destruct (find_by_id id _ (runs d1)) as [r|] eqn:E; [|by apply owned_fail].
  destruct (bool_decide (q_by _ = _)) eqn:Eb; [|by apply owned_fail]. apply owned_ok. intros d2 H2 I2. eapply carded_stays; [by eapply any_of|].
  apply (view_ok id i d1 _ d1). unfold invocationView. cbn zeta. by rewrite run_read, E, Eb.
Qed.
Lemma own_card n u c id d : own n (readWorkspaceAccountManagerInvocation u c id) d (answered carded).
Proof.
  unfold readWorkspaceAccountManagerInvocation. eapply own_reads; [apply reading_member|apply says_true| |done]. intros an d1 H1 I1 _.
  eapply own_reads; [apply reading_own|apply says_true| |done]. intros i d2 H2 I2 _. apply own_view.
Qed.
Lemma own_cancel n e u c v id d : own n (cancel e u c v id) d (answered seen).
Proof.
  unfold cancel. destruct (parse_id c) as [c'|], (parse_id v) as [v'|], (parse_id id) as [id'|]; try by apply owned_fail.
  apply own_guard; [apply seen_stays|]. apply own_stage; [apply seen_stays|]. intros d1 w d2 _ I1. by apply cancel_body.
Qed.
Lemma own_cancel_card n e u c id d : own n (cancelWorkspaceAccountManagerInvocation e u c id) d (answered carded).
Proof.
  unfold cancelWorkspaceAccountManagerInvocation. eapply own_reads; [apply reading_member|apply says_true| |done]. intros an d1 H1 I1 _.
  eapply own_reads; [apply reading_own|apply says_true| |done]. intros i d2 H2 I2 _.
  eapply own_sequence; [apply own_cancel|]. intros w d3 H3 I3 _. apply own_card.
Qed.
Lemma own_review n e u c v id d : own n (review e u c v id) d (answered seen).
Proof.
  unfold review. destruct (parse_id c) as [c'|], (parse_id v) as [v'|], (parse_id id) as [id'|]; try by apply owned_fail. cbn zeta.
  assert (∀ k d', own n (serializable e k (review_transaction e k u c' v' id')) d' (answered seen)) as Honce.
  { intros k d'. apply own_transaction; [apply seen_stays|]. intros d1 w d2 _ I1. by apply review_body. }
  apply own_guard; [apply seen_stays|]. apply own_catch; [apply seen_stays|done|]. intros err d1 _ _. destruct (retryable err); [|by apply owned_fail].
  apply own_catch; [apply seen_stays|done|]. intros err' d2 _ _. destruct (retryable err'); [done|by apply owned_fail].
Qed.
Lemma own_read_request n e u c v id d : own n (read_request e u c v id) d (answered seen).
Proof.
  unfold read_request. destruct (parse_id c) as [c'|], (parse_id v) as [v'|], (parse_id id) as [id'|]; try by apply owned_fail.
  apply own_guard; [apply seen_stays|]. apply own_stage; [apply seen_stays|]. intros d1 w d2 _ I1 H.
  apply run_reads in H as (ac & _ & H); [|apply reading_scope]. apply run_then in H as (r & d3 & (-> & Hr & _)%findRun_ok & H). injection H as <- <-.
  split; [apply guar_idle|by apply seen_now].
Qed.
Context (is_uuid : string → bool).
Lemma own_intent n e u c v key d : own n (byIntent is_uuid e u c v key) d (answered seen).
Proof.
  unfold byIntent. destruct (parse_id c) as [c'|], (parse_id v) as [v'|], (parse_key is_uuid key) as [key'|]; try by apply owned_fail.
  apply own_guard; [apply seen_stays|]. apply own_stage; [apply seen_stays|]. intros d1 w d2 _ I1 H.
  apply run_reads in H as (ac & _ & H); [|apply reading_scope]. rewrite run_read in H. destruct (intent_of _ _ _ _) as [[id r]|] eqn:E; [|done].
  apply run_require in H as [_ H]. injection H as <- <-. split; [apply guar_idle|]. apply seen_now. by apply intent_ok in E as [Hr _].
Qed.
Definition start_answered u c v q key (w : view) d : Prop :=
  ∃ c' v' q' key', parse_id c = Some c' ∧ parse_id v = Some v' ∧ parse_question q = Some q' ∧ parse_key is_uuid key = Some key' ∧ started u c' v' q' key' w d.
Lemma start_answered_stays u c v q key : stays (start_answered u c v q key).
Proof. intros w d d' H (c' & v' & q' & key' & ? & ? & ? & ? & Hs). exists c', v', q', key'. split_and!; [done..|]. by eapply started_stays. Qed.
Lemma own_start n e u c v q key d : own n (start hash is_uuid e u c v q key) d (answered (start_answered u c v q key)).
Proof.
  unfold start. destruct (parse_id c) as [c'|] eqn:Ec, (parse_id v) as [v'|] eqn:Ev, (parse_question q) as [q'|] eqn:Eq, (parse_key is_uuid key) as [key'|] eqn:Ek;
    try by apply owned_fail.
  assert (∀ k d', own n (start_once hash e k u c' v' q' key') d' (answered (start_answered u c v q key))) as Honce.
  { intros k d'. apply own_stage; [apply start_answered_stays|]. intros d1 w d2 _ I1 H. apply (start_body n) in H as [Hg Hs]; [|done].
    split; [done|]. by exists c', v', q', key'. }
  apply own_guard; [apply start_answered_stays|]. apply own_catch; [apply start_answered_stays|done|]. intros err d1 _ _. case_bool_decide; [done|by apply owned_fail].
Qed.
Lemma own_request n e u c b g key d : own n (requestWorkspaceAccountManager hash is_uuid e u c b g key) d (answered (λ x d, carded x.1 d)).
Proof.
  unfold requestWorkspaceAccountManager. destruct (parse_id b) as [b'|], (parse_id g) as [g'|]; try by apply owned_fail.
  destruct (is_uuid key); [|by apply owned_fail]. change (own n (serializable e 0 (request_transaction hash e u c b' g' key)) d (answered (λ x d, carded x.1 d))).
  apply own_transaction; [intros x d1 d2; apply carded_stays|]. intros d1 x d2 _ I1. apply request_body.
Qed.

(** What each request is answered with. *)
Definition satisfied (i : input) (a : result thrown answer) d : Prop :=
  match a with
  | Err _ => True
  | Ok x =>
      match i with
      | Job e inside org id => ∃ s, x = Ran id s ∧ settled id s d
      | Start e u c v q key => ∃ w, x = Viewed w ∧ start_answered u c v q key w d
      | ReadRun _ _ _ _ _ | ByIntent _ _ _ _ _ | Cancel _ _ _ _ _ | Review _ _ _ _ _ => ∃ w, x = Viewed w ∧ seen w d
      | Request _ _ _ _ _ _ | ReadCard _ _ _ | CancelCard _ _ _ _ => ∃ c, x = Carded c ∧ carded c d
      | Sweep _ _ _ => ∃ k q, x = Swept k q
      | Elsewhere _ => x = Noted
      end
  end.
Lemma own_map {A} n (f : A → ClientRuns.answer) (p : act A) d (F : A → db → Prop) (G : ClientRuns.answer → db → Prop) :
  stays F → own n p d (answered F) → (∀ x d, F x d → G (f x) d) → own n (map_answer f p) d (answered G).
Proof.
  intros Hst Hp HG. eapply own_sequence; [exact Hp|]. intros x d1 _ _ Hx. apply owned_ok. intros d2 H2 _. apply HG. eapply Hst; [by eapply any_of|done].
Qed.
Lemma own_handle n i d : Inv d → own n (handle hash is_uuid token n i) d (satisfied i).
Proof.
  intros HI. change (satisfied i) with (λ a d, satisfied i a d).
  assert (∀ a d, satisfied i a d ↔ answered (λ x d, satisfied i (Ok x) d) a d) as Hs by (by intros [] ?).
  eapply owned_mono; [|intros a d1 _ _; apply Hs]. destruct i; cbn [handle].
  - eapply own_map; [|apply own_process|]; [intros x d1 d2 H [-> ?]; split; [done|by eapply ran_stays]|]. intros [i s] d1 [E Hr]. cbn in *. subst. by exists s.
  - eapply own_map; [|apply own_sweeping|]; [done|]. intros [k q] d1 _. by exists k, q.
  - eapply own_map; [|apply own_start|]; [apply start_answered_stays|]. by eexists.
  - eapply own_map; [|apply own_read_request|]; [apply seen_stays|]. by eexists.
  - eapply own_map; [|apply own_intent|]; [apply seen_stays|]. by eexists.
  - eapply own_map; [|apply own_cancel|]; [apply seen_stays|]. by eexists.
  - eapply own_map; [|apply own_review|]; [apply seen_stays|]. by eexists.
  - eapply own_map; [|apply own_request|]; [intros x d1 d2; apply carded_stays|]. by eexists.
  - eapply own_map; [|apply own_card|]; [apply carded_stays|]. by eexists.
  - eapply own_map; [|apply own_cancel_card|]; [apply carded_stays|]. by eexists.
  - intros d1 H1 I1. split; [apply guar_elsewhere|]. by intros d2 H2 I2.
Qed.

(** ** Every schedule *)

(** No run has been started yet. *)
Definition fresh d : Prop := runs d = ∅ ∧ trail d = [] ∧ ∀ id v, conversations d !! id = Some v → is_shared v = true.
Abbreviation handler := (handle hash is_uuid token).
Abbreviation runs_to := (rtc (step handler)).

Lemma fresh_Inv d : fresh d → Inv d.
Proof.
  intros (Hr & Ht & Hc). split.
  - split; rewrite ?Hr, ?Ht; try done; [by intros e ?%not_elem_of_nil|].
    intros id v Hv. left. specialize (Hc id v Hv). unfold is_shared in Hc. by rewrite andb_true_iff, !bool_decide_eq_true in Hc.
  - intros id r v. by rewrite Hr.
Qed.
Lemma reach d s : fresh d → runs_to (initial d) s → owned_sound Inv guar (λ _, satisfied) s.
Proof.
  intros Hd Hs. eapply (owned_run Inv guar handler (λ _, satisfied)); [by intros; eapply guar_Inv|intros; by apply own_handle|exact Hs|].
  by apply owned_initial, fresh_Inv.
Qed.
Lemma reach_on s s' : owned_sound Inv guar (λ _, satisfied) s → runs_to s s' → owned_sound Inv guar (λ _, satisfied) s' ∧ any (data s) (data s').
Proof. intros Hs H. by eapply (owned_run Inv guar handler (λ _, satisfied)); [intros; eapply guar_Inv|intros; apply own_handle|..]. Qed.

Lemma asks_once l id : trail_ok (justified token) l → (length (List.filter (asks id) l) ≤ 1)%nat.
Proof.
  induction l as [|e l IH]; cbn; [lia|]. intros [Hj Hl]. specialize (IH Hl). destruct (asks id e) eqn:E; [|done]. cbn.
  assert (none (asks id) l) as Hn by (destruct e; try done; cbn in E; apply bool_decide_eq_true in E as ->; apply Hj).
  assert (List.filter (asks id) l = []) as ->; [|done]. clear -Hn. induction l as [|e l IH]; [done|]. apply none_cons in Hn as [He Hn]. cbn. rewrite He. by apply IH.
Qed.
Lemma vouched_same q q' rev who v p : same_question q q' → vouched q rev who v p → vouched q' rev who v p.
Proof. intros (_ & Hs & _) (s & w & H). exists s, w. by rewrite Hs. Qed.



(** What a caller is told of a run is so, and two start
    requests of one member with the same key, whenever and however often they
    were sent, are answered with the same run, asked the same question in the
    same conversation; a conversation never has two runs under way. *)
Lemma client_agent_starts_once d s :
  fresh d → runs_to (initial d) s →
  (∀ n i a, (n, i, Done a) ∈ requests s → satisfied i a (data s)) ∧
  (∀ n n' e e' u u' c c' v v' q q' key w w',
     (n, Start e u c v q key, Done (Ok (Viewed w))) ∈ requests s → (n', Start e' u' c' v' q' key, Done (Ok (Viewed w'))) ∈ requests s →
     u_org u = u_org u' → u_id u = u_id u' →
     x_id w = x_id w' ∧ parse_id v = parse_id v' ∧ q_hash (r_asked (x_run w)) = q_hash (r_asked (x_run w'))) ∧
  ∀ id id' r r', runs (data s) !! id = Some r → runs (data s) !! id' = Some r' → active (r_status r) = true → active (r_status r') = true →
    q_org (r_asked r) = q_org (r_asked r') → q_conversation (r_asked r) = q_conversation (r_asked r') → id = id'.
Proof.
  intros Hd Hs. destruct (reach d s Hd Hs) as [[HI HP] _ _ Hall]. rewrite Forall_forall in Hall.
  assert (∀ n i a, (n, i, Done a) ∈ requests s → satisfied i a (data s)) as Hsat by (intros n i a Hin; by apply (Hall _ Hin (data s) (rtc_refl _ _))).
  split; [exact Hsat|]. split; [|by apply (inv_one_active _ _ HI)]. intros n n' e e' u u' c c' v v' q q' key w w' H1 H2 Ho Hu.
  destruct (Hsat _ _ _ H1) as (? & [= <-] & c1 & v1 & q1 & k1 & _ & Hv1 & _ & Hk1 & (r1 & Hr1 & M1) & O1 & B1 & K1 & V1 & _).
  destruct (Hsat _ _ _ H2) as (? & [= <-] & c2 & v2 & q2 & k2 & _ & Hv2 & _ & Hk2 & (r2 & Hr2 & M2) & O2 & B2 & K2 & V2 & _).
  pose proof (moves_asked _ _ M1) as A1. pose proof (moves_asked _ _ M2) as A2. assert (k1 = k2) as -> by congruence.
  assert (x_id w = x_id w') as Hid.
  { apply (inv_intents _ _ HI _ _ _ _ Hr1 Hr2). unfold same_intent. rewrite A1, A2, O1, O2, B1, B2, K1, K2, Ho, Hu. by rewrite !bool_decide_refl. }
  split; [done|]. rewrite <-Hid, Hr1 in Hr2. injection Hr2 as <-. split; congruence.
Qed.
End requests.
End theory.

(** ** Examples *)

Definition demo_reply : text := units "Two tasks are open.".
Definition demo_env (ids : list string) (at_ : Z) (answer : text) : env :=
  Env (λ k, at_ + Z.of_nat k) (λ k, nth k ids "") true true (λ _, false) false (Text answer).
Definition demo_profile : profile := Profile "org" "c1" (units "Manager") (units "Be brief.") true 1 (Some ["client-work"]).
Definition demo_db : db :=
  Db {["team" := Staff "org" "TEAM" true]} {["c1" := Client "org" (units "Acme") None false]}
     {["p1" := Project "org" (Some "c1") (units "Site") (units "ACTIVE") (Some 0) None 5 false]} {["pr1" := demo_profile]}
     {["v1" := Conversation "org" "c1" (units "Plan") "team" 0 None None None]} {["ch" := Channel "org" "CLIENT" (Some "c1") None false 0]}
     {[("ch", "team") := Member "org" false]} {["m1" := Message "org" "ch" "team" (units " Status? ")]}
     {["b1" := Binding "org" "ch" "c1" None "pr1" true 0]} ∅ ∅ ∅ [] [] [].
Definition demo_token (n : nat) : string := String (Ascii.ascii_of_nat (n + 48)) "".
Definition demo_handle := handle (λ _, "hash") (λ _, true) demo_token.
Definition run_first (i : input) (k : nat) : list (action (Input := input)) := Arrive i :: replicate k (Async.Run 0).
Definition demo_start (id : string) : input := Start (demo_env [id] 1000 []) (Session "team" "org" "TEAM") "c1" "v1" (units "What is open?") "KEY-1".
(** A question is sent twice; two workers take up the run; it is asked again in
    a channel, where a worker answers while another request cancels too late. *)
Definition demo_schedule : list (action (Input := input)) :=
  run_first (demo_start "r1") 1 ++
  [Arrive (Job (demo_env [] 2000 demo_reply) true "org" "r1"); Async.Run 0; Arrive (Job (demo_env [] 2010 (units "Late.")) true "org" "r1"); Async.Run 0; Async.Run 0; Async.Run 0; Async.Run 1; Async.Run 1; Async.Run 1] ++
  replicate 6 (Async.Run 1) ++ replicate 30 (Async.Run 0) ++ run_first (demo_start "r2") 1.
Definition demo_more : list (action (Input := input)) :=
  run_first (Request (demo_env ["v2"; "r3"] 9000 []) (Session "team" "org" "TEAM") "ch" "b1" "m1" "key-2") 1 ++
  run_first (Job (demo_env [] 9500 demo_reply) true "org" "r3") 40 ++
  run_first (CancelCard (demo_env [] 9990 []) (Session "team" "org" "TEAM") "ch" "r3") 20 ++
  run_first (ReadCard (Session "team" "org" "TEAM") "ch" "r3") 20.
Definition demo_mid := perform demo_handle demo_schedule (initial demo_db).
Definition demo_sys := perform demo_handle demo_more demo_mid.

Lemma demo_fresh : fresh demo_db.
Proof. split_and!; [done..|]. intros id v. cbn. by intros [_ <-]%lookup_singleton_Some. Qed.
Lemma demo_reached : rtc (step demo_handle) (initial demo_db) demo_sys.
Proof. transitivity demo_mid; [exact (perform_steps demo_handle demo_schedule (initial demo_db))|exact (perform_steps demo_handle demo_more demo_mid)]. Qed.
Example demo_outcomes :
  (λ r, (r.1, r_status r.2, r_token r.2)) <$> map_to_list (runs (data demo_sys)) = [("r3", SUCCEEDED, Some "5"); ("r1", SUCCEEDED, Some "2")] ∧
  i_state <$> invocations (data demo_sys) !! "r3" = Some DELIVERED ∧ reverse (about <$> trail (data demo_sys)) = replicate 4 "r1" ++ replicate 4 "r3" ∧
  (λ a, match a.2 with Ok (Viewed w) => x_id w | Ok (Carded c) => d_run c | Ok (Ran id _) => id | Ok _ => "" | Err _ => "error" end) <$> Async.answers demo_sys =
    ["r3"; "error"; "r3"; "r3"; "r1"; "r1"; "r1"; "r1"].
Proof. vm_compute. done. Qed.

Lemma client_agent_starts_once_witness :
  ∃ w w', (0%nat, demo_start "r1", Done (Ok (Viewed w))) ∈ requests demo_sys ∧ (3%nat, demo_start "r2", Done (Ok (Viewed w'))) ∈ requests demo_sys ∧ x_id w = x_id w'.
Proof.
  assert (∃ w w', (0%nat, demo_start "r1", Done (Ok (Viewed w))) ∈ requests demo_sys ∧ (3%nat, demo_start "r2", Done (Ok (Viewed w'))) ∈ requests demo_sys) as (w & w' & H1 & H2).
  { eexists. eexists. split.
    - apply (list_elem_of_lookup_2 _ 7). vm_compute. reflexivity.
    - apply (list_elem_of_lookup_2 _ 4). vm_compute. reflexivity. }
  exists w, w'. split; [exact H1|]. split; [exact H2|].
  destruct (client_agent_starts_once demo_token (λ _, "hash") (λ _, true) demo_db demo_sys demo_fresh demo_reached) as (_ & H & _).
  exact (proj1 (H _ _ _ _ _ _ _ _ _ _ _ _ _ _ _ H1 H2 eq_refl eq_refl)).
Defined.

End ClientRunRequests.
