(* ===== verification/BreakGlass.v ===== *)
(** * Break-glass recovery of administrator access

    src/src/auth/break-glass.js: single-use recovery grants.  An operator issues
    one for a named staff member, who redeems it with a new password.  Issuing
    and redeeming read the database first and write in a transaction later, so
    each takes two worlds: the one it read and the one its transaction finds. *)

From S2P Require Import Prelude Json Tenancy Tokens Mfa AuditLog Impersonation.
Import Tenancy Tokens Audit Impersonation.
Import SecondFactor(mfa, Mfa, no_mfa, mfaEnabled).

Module BreakGlass.

(* src/src/auth/break-glass.js:38-40 BREAK_GLASS_TTL_SECONDS *)
Definition BREAK_GLASS_TTL_SECONDS : Z := 30 * 60.
Definition BREAK_GLASS_REASON_MIN : nat := 10.
Definition BREAK_GLASS_REASON_MAX : nat := 500.
Definition PROVENANCE_MAX : nat := 128.

(** ** Data *)

Record user := User {
  b_org : string; b_email : string; b_name : string; b_role : string; b_active : bool; b_password : string;
  b_mfa : mfa; b_reset : option (string * Z); b_version : Z
}.
Record api_key := ApiKey { k_user : string; k_active : bool; k_revoked : option Z }.
Record grant := Grant {
  g_org : string; g_target : string; g_operator : string; g_reason : string; g_promote : bool; g_hash : string;
  g_osUser : string; g_host : string; g_created : Z; g_expires : Z; g_redeemed : option Z; g_revoked : option Z
}.
(** An in-app notification: who, its type, the grant and its target. *)
Record notification := Notification { n_user : string; n_type : string; n_grant : string; n_target : string }.

Record db := Db {
  users : gmap string user; keys : gmap string api_key; grants : gmap string grant;
  support : world;                       (** support views and the audit log *)
  notes : list notification
}.

(* src/src/auth/break-glass.js:55-63 BreakGlassError *)
Inductive bg_error :=
  | BREAK_GLASS_DISABLED | BREAK_GLASS_REASON_REQUIRED | BREAK_GLASS_NOT_OPERATOR | BREAK_GLASS_ORG_NOT_FOUND
  | BREAK_GLASS_TARGET_NOT_FOUND | BREAK_GLASS_TARGET_FORBIDDEN | BREAK_GLASS_TARGET_NOT_ADMIN | BREAK_GLASS_ADMIN_EXISTS
  | BREAK_GLASS_GRANT_NOT_FOUND | BREAK_GLASS_GRANT_CLOSED | BREAK_GLASS_INVALID
  | RecordNotFound.                      (** Prisma's P2025: the row to update is gone *)

(** ** Input and environment *)

Definition provenance_char (c : Ascii.ascii) : bool :=
  let n := Ascii.nat_of_ascii c in
  ((65 <=? n) && (n <=? 90) || (97 <=? n) && (n <=? 122) || (48 <=? n) && (n <=? 57) || (n =? 95) || (n =? 46) ||
   (n =? 58) || (n =? 47) || (n =? 64) || (n =? 43) || (n =? 45))%nat.
Fixpoint replace_others (s : string) : string :=
  match s with
  | EmptyString => EmptyString
  | String c s => String (if provenance_char c then c else Ascii.ascii_of_nat 95) (replace_others s)
  end.

(* src/src/auth/break-glass.js:50-53 provenanceValue *)
Definition provenanceValue (value : option string) : string :=
  let text := String.substring 0 PROVENANCE_MAX (replace_others (trim (default "" value))) in
  if bool_decide (text = "") then "unknown" else text.

(** The two variables of the environment. *)
Record environment := Environment { BREAK_GLASS_ENABLED : option string; PLATFORM_OPERATOR_USER_IDS : option string }.

(* src/src/auth/break-glass.js:65-67 isBreakGlassEnabled *)
Definition isBreakGlassEnabled (env : environment) : bool :=
  bool_decide (toLowerCase (trim (default "" (BREAK_GLASS_ENABLED env))) = "true").

Definition comma : Ascii.ascii := Ascii.ascii_of_nat 44.

(* src/src/auth/break-glass.js:69-74 operatorIds *)
Definition operatorIds (env : environment) : list string :=
  List.filter (λ id, negb (bool_decide (id = ""))) (trim <$> split_on comma (default "" (PLATFORM_OPERATOR_USER_IDS env))).

(* src/src/auth/break-glass.js:80-84 assertEnabled *)
Definition assertEnabled (env : environment) : result bg_error unit :=
  refuse_unless (isBreakGlassEnabled env) BREAK_GLASS_DISABLED.

(* src/src/auth/break-glass.js:86-92 normalizeReason *)
Definition normalizeReason (reason : option string) : result bg_error string :=
  let text := trim (default "" reason) in
  if ((String.length text <? BREAK_GLASS_REASON_MIN)%nat || (BREAK_GLASS_REASON_MAX <? String.length text)%nat)
  then Err BREAK_GLASS_REASON_REQUIRED else Ok text.

Definition is_admin (u : user) : bool := bool_decide (b_role u = "ADMIN").
Definition is_outsider (u : user) : bool := bool_decide (b_role u = "CLIENT") || bool_decide (b_role u = "BOT").

(* src/src/auth/break-glass.js:95-107 assertOperator *)
Definition assertOperator (operatorId : string) (env : environment) (d : db) : result bg_error string :=
  if bool_decide (operatorId = "") || negb (mem operatorId (operatorIds env)) then Err BREAK_GLASS_NOT_OPERATOR
  else match users d !! operatorId with
       | Some u => if is_admin u && b_active u then Ok operatorId else Err BREAK_GLASS_NOT_OPERATOR
       | None => Err BREAK_GLASS_NOT_OPERATOR
       end.

Definition active_admin_of (organizationId : string) (u : user) : bool :=
  bool_decide (b_org u = organizationId) && is_admin u && b_active u.

(* src/src/auth/break-glass.js:109-115 activeAdminIds *)
Definition activeAdminIds (organizationId : string) (d : db) : list string :=
  fst <$> List.filter (λ iu, active_admin_of organizationId iu.2) (map_to_list (users d)).

Section breakglass.
Context (sha256 : string → string) (iso : Z → string) (isIP : string → nat) (accepts : audit_row → bool).
(** The organizations there are, and whether a notification can be stored. *)
Context (find_organization : string → bool) (notifiable : notification → bool).

(* src/src/auth/break-glass.js:76-78 hashBreakGlassToken *)
Definition hashBreakGlassToken (token : string) : string := sha256 token.

(* src/src/auth/break-glass.js:117-125 notifyUsers *)
Definition notifyUsers (userIds : list string) (type grantId target : string) (d : db) : db :=
  Db (users d) (keys d) (grants d) (support d)
    (notes d ++ List.filter notifiable ((λ u, Notification u type grantId target) <$> unique userIds)).

Definition audit (e : event) (d : db) : db :=
  Db (users d) (keys d) (grants d) (World (views (support d)) (record isIP accepts None e (log (support d)))) (notes d).

Definition set_grants (g : gmap string grant) (d : db) : db := Db (users d) (keys d) g (support d) (notes d).

(** An event about a grant, by its operator. *)
Definition grant_event (action org operatorId grantId : string) (metadata : list (string * meta_value)) : event :=
  Event (Some org) None None (Some operatorId) "USER" action None (Some grantId) None None (Some metadata).

Definition revoke_row (now : Z) (g : grant) : grant :=
  Grant (g_org g) (g_target g) (g_operator g) (g_reason g) (g_promote g) (g_hash g) (g_osUser g) (g_host g)
    (g_created g) (g_expires g) (g_redeemed g) (Some now).
Definition is_open (g : grant) : bool := bool_decide (g_redeemed g = None) && bool_decide (g_revoked g = None).

(* src/src/auth/break-glass.js:226-241 revokeGrantRow *)
Definition revokeGrantRow (grantId organizationId operatorId targetUserId : string) (now : Z) (osUser host : string) (d : db)
  : bool * db :=
  match grants d !! grantId with
  | Some g =>
      if bool_decide (g_org g = organizationId) && is_open g then
        (true, audit (grant_event "break_glass.revoked" organizationId operatorId grantId
                        [("targetUserId", MStr targetUserId); ("operatorId", MStr operatorId);
                         ("osUser", MStr osUser); ("host", MStr host)])
                 (set_grants (<[grantId := revoke_row now g]> (grants d)) d))
      else (false, d)
  | None => (false, d)
  end.

Record issue_input := Issue {
  i_organization : string; i_targetEmail : option string; i_targetUserId : option string; i_operator : string;
  i_reason : option string; i_promote : bool; i_osUser : option string; i_host : option string
}.

(** The staff a command names: by id, or by email without regard to case. *)
Definition named (i : issue_input) (id : string) (u : user) : bool :=
  bool_decide (b_org u = i_organization i) &&
  match present (i_targetUserId i) with
  | Some t => bool_decide (id = t)
  | None => bool_decide (toLowerCase (b_email u) = toLowerCase (trim (default "" (i_targetEmail i))))
  end.

Definition supersedes (i : issue_input) (target : string) (now : Z) (g : grant) : bool :=
  bool_decide (g_org g = i_organization i) && bool_decide (g_target g = target) && is_open g && (now <? g_expires g).

(** What issuing checks before its transaction. *)
Definition issue_check (env : environment) (i : issue_input) (d : db) : result bg_error (string * string * string * user) :=
  assertEnabled env ≫= λ _,
  normalizeReason (i_reason i) ≫= λ reason,
  assertOperator (i_operator i) env d ≫= λ operatorId,
  refuse_unless (find_organization (i_organization i)) BREAK_GLASS_ORG_NOT_FOUND ≫= λ _,
  match List.filter (λ iu, named i iu.1 iu.2) (map_to_list (users d)) with
  | [(targetId, target)] =>
      if is_outsider target then Err BREAK_GLASS_TARGET_FORBIDDEN
      else if negb (is_admin target) && negb (i_promote i) then Err BREAK_GLASS_TARGET_NOT_ADMIN
      else if negb (is_admin target) && i_promote i && negb (bool_decide (activeAdminIds (i_organization i) d = []))
           then Err BREAK_GLASS_ADMIN_EXISTS
      else Ok (reason, operatorId, targetId, target)
  | _ => Err BREAK_GLASS_TARGET_NOT_FOUND
  end.

Fixpoint revoke_all (ids : list string) (org operatorId targetId : string) (now : Z) (osUser host : string) (d : db) : db :=
  match ids with
  | [] => d
  | id :: ids => revoke_all ids org operatorId targetId now osUser host
                   (revokeGrantRow id org operatorId targetId now osUser host d).2
  end.

(** The transaction: older grants of the target go, the new one is recorded. *)
Definition issue_commit (i : issue_input) (reason operatorId targetId token newId : string) (nowMs : Z) (d : db) : db :=
  let expiresAt := nowMs + BREAK_GLASS_TTL_SECONDS * 1000 in
  let osUser := provenanceValue (i_osUser i) in
  let host := provenanceValue (i_host i) in
  let superseded := fst <$> List.filter (λ ig, supersedes i targetId nowMs ig.2) (map_to_list (grants d)) in
  let d := revoke_all superseded (i_organization i) operatorId targetId nowMs osUser host d in
  let created := Grant (i_organization i) targetId operatorId reason (i_promote i) (hashBreakGlassToken token) osUser host
                   nowMs expiresAt None None in
  audit (grant_event "break_glass.granted" (i_organization i) operatorId newId
           [("targetUserId", MStr targetId); ("operatorId", MStr operatorId); ("expiresAt", MDate (Some (iso expiresAt)));
            ("promoteToAdmin", MBool (i_promote i)); ("osUser", MStr osUser); ("host", MStr host)])
    (set_grants (<[newId := created]> (grants d)) d).

(** [d0] is the database the checks read, [d] the one the transaction finds. *)
(* src/src/auth/break-glass.js:135-224 issueBreakGlassGrant *)
Definition issueBreakGlassGrant (env : environment) (i : issue_input) (token newId : string) (nowMs : Z) (d0 d : db)
  : result bg_error (string * string) * db :=
  match issue_check env i d0 with
  | Err e => (Err e, d)
  | Ok (reason, operatorId, targetId, target) =>
      let d := issue_commit i reason operatorId targetId token newId nowMs d in
      (Ok (newId, token),
       notifyUsers (activeAdminIds (i_organization i) d ++ [targetId]) "security.break_glass_granted" newId targetId d)
  end.

(* src/src/auth/break-glass.js:244-255 revokeBreakGlassGrant *)
Definition revokeBreakGlassGrant (env : environment) (grantId operatorId : string) (osUser host : option string) (nowMs : Z) (d : db)
  : result bg_error string * db :=
  match assertOperator operatorId env d with
  | Err e => (Err e, d)
  | Ok operatorId =>
      match grants d !! grantId with
      | None => (Err BREAK_GLASS_GRANT_NOT_FOUND, d)
      | Some g =>
          let '(revoked, d) := revokeGrantRow grantId (g_org g) operatorId (g_target g) nowMs
                                 (provenanceValue osUser) (provenanceValue host) d in
          (if revoked then Ok grantId else Err BREAK_GLASS_GRANT_CLOSED, d)
      end
  end.

(** ** Redeeming *)

Definition redeemable (now : Z) (g : grant) : bool := is_open g && (now <? g_expires g).

Definition find_grant (hash : string) (d : db) : option (string * grant) :=
  head (List.filter (λ ig, bool_decide (g_hash ig.2 = hash)) (map_to_list (grants d))).

(** What redeeming checks before its transaction: the grant, its target and
    whether the redemption is a promotion. *)
Definition redeem_check (token : option string) (nowMs : Z) (d : db) : option (string * grant * user) :=
  token ← token;
  if (String.length token <? 20)%nat || (200 <? String.length token)%nat then None
  else
    '(id, g) ← find_grant (hashBreakGlassToken token) d;
    if negb (redeemable nowMs g) then None
    else
      target ← users d !! g_target g;
      if negb (bool_decide (b_org target = g_org g)) || is_outsider target then None
      else if negb (is_admin target) && negb (g_promote g) then None
      else if negb (is_admin target) && negb (bool_decide (activeAdminIds (g_org g) d = [])) then None
      else Some (id, g, target).

Definition redeem_row (now : Z) (g : grant) : grant :=
  Grant (g_org g) (g_target g) (g_operator g) (g_reason g) (g_promote g) (g_hash g) (g_osUser g) (g_host g)
    (g_created g) (g_expires g) (Some now) (g_revoked g).

Definition restore (passwordHash : string) (promoted : bool) (u : user) : user :=
  User (b_org u) (b_email u) (b_name u) (if promoted then "ADMIN" else b_role u) true passwordHash no_mfa None (b_version u + 1).

Definition revoke_key (now : Z) (target : string) (k : api_key) : api_key :=
  if bool_decide (k_user k = target) && k_active k then ApiKey (k_user k) false (Some now) else k.
Definition active_keys (target : string) (d : db) : nat :=
  length (List.filter (λ ik, bool_decide (k_user ik.2 = target) && k_active ik.2) (map_to_list (keys d))).

(** The transaction under the organization's lock; [Ok None] when the grant or
    the promotion is no longer possible. *)
Definition redeem_commit (id : string) (g : grant) (promoted : bool) (passwordHash : string) (nowMs : Z) (d : db)
  : result bg_error (option nat) * db :=
  if promoted && negb (bool_decide (activeAdminIds (g_org g) d = [])) then (Ok None, d)
  else match grants d !! id with
       | Some g' =>
           if redeemable nowMs g' then
             match users d !! g_target g with
             | None => (Err RecordNotFound, d)
             | Some u =>
                 (Ok (Some (active_keys (g_target g) d)),
                  Db (<[g_target g := restore passwordHash promoted u]> (users d)) (revoke_key nowMs (g_target g) <$> keys d)
                    (<[id := redeem_row nowMs g']> (grants d)) (support d) (notes d))
             end
           else (Ok None, d)
       | None => (Ok None, d)
       end.

Record redeemed := Redeemed { r_promoted : bool; r_reactivated : bool; r_mfaReset : bool }.

(** An event about the restored account, in its own name. *)
Definition target_event (g : grant) (request ip : option string) (action entity : string) (metadata : list (string * meta_value)) : event :=
  Event (Some (g_org g)) None None (Some (g_target g)) "USER" action None (Some entity) request ip (Some metadata).

Definition redeem_events (id : string) (g : grant) (target : user) (promoted reactivated : bool) (count : nat)
    (request ip : option string) : list event :=
  let event := target_event g request ip in
  let n := MNum (pretty.pretty (Z.of_nat count)) in
  [event "break_glass.redeemed" id
     [("targetUserId", MStr (g_target g)); ("operatorId", MStr (g_operator g)); ("promoted", MBool promoted);
      ("reactivated", MBool reactivated); ("mfaReset", MBool (mfaEnabled (b_mfa target))); ("apiKeysRevoked", n)];
   event "auth.password_changed" (g_target g) [("method", MStr "break_glass"); ("sessionsRevoked", MBool true); ("apiKeysRevoked", n)]] ++
  (if mfaEnabled (b_mfa target) then [event "auth.mfa_reset" (g_target g) [("wasEnabled", MBool true)]] else []) ++
  (if promoted then [event "user.role_changed" (g_target g) [("fromRole", MStr (b_role target)); ("toRole", MStr "ADMIN")]] else []) ++
  (if reactivated then [event "user.reactivated" (g_target g) [("fromActive", MBool false); ("toActive", MBool true)]] else []).

(** [d0] is the database the checks read, [d] the one the transaction finds. *)
(* src/src/auth/break-glass.js:264-368 redeemBreakGlassGrant *)
Definition redeemBreakGlassGrant (env : environment) (token : option string) (passwordHash : string) (request ip : option string)
    (nowMs : Z) (d0 d : db) : result bg_error redeemed * db :=
  match assertEnabled env with
  | Err e => (Err e, d)
  | Ok _ =>
      match redeem_check token nowMs d0 with
      | None => (Err BREAK_GLASS_INVALID, d)
      | Some (id, g, target) =>
          let promoted := negb (is_admin target) && g_promote g in
          let reactivated := negb (b_active target) in
          match redeem_commit id g promoted passwordHash nowMs d with
          | (Err e, d) => (Err e, d)
          | (Ok None, d) => (Err BREAK_GLASS_INVALID, d)
          | (Ok (Some count), d) =>
              let '(_, s) := endImpersonationSessions isIP accepts None
                               (EndOptions (g_org g) (ByEither (g_target g)) "revoked_password_reset" None request ip nowMs) (support d) in
              let d := Db (users d) (keys d) (grants d) s (notes d) in
              let d := foldl (λ d e, audit e d) d (redeem_events id g target promoted reactivated count request ip) in
              let d := notifyUsers (activeAdminIds (g_org g) d) "security.break_glass_redeemed" id (g_target g) d in
              (Ok (Redeemed promoted reactivated (mfaEnabled (b_mfa target))), d)
          end
      end
  end.

(** A grant as the operator's list shows it: never its token's hash. *)
Record listed_grant := Listed {
  l_id : string; l_target : string; l_operator : string; l_reason : string; l_promote : bool; l_osUser : string; l_host : string;
  l_created : Z; l_expires : Z; l_redeemed : option Z; l_revoked : option Z
}.
Definition listed (id : string) (g : grant) : listed_grant :=
  Listed id (g_target g) (g_operator g) (g_reason g) (g_promote g) (g_osUser g) (g_host g) (g_created g) (g_expires g)
    (g_redeemed g) (g_revoked g).

(** The grants of an organization, newest first, at most twenty. *)
(* src/src/auth/break-glass.js:375-387 listBreakGlassGrants *)
Definition listBreakGlassGrants (env : environment) (organizationId operatorId : string) (d : db)
  : result bg_error (list listed_grant) :=
  assertOperator operatorId env d ≫= λ _,
  Ok ((λ ig, listed ig.1 ig.2) <$> take 20 (isort (λ a b, g_created b.2 <=? g_created a.2)
                 (List.filter (λ ig, bool_decide (g_org ig.2 = organizationId)) (map_to_list (grants d))))).

(** ** What grants go through *)

(** A grant's term, and what a redeemed one is. *)
Definition grant_ok (g : grant) : Prop :=
  g_expires g = g_created g + 30 * 60 * 1000 ∧
  ∀ t, g_redeemed g = Some t → g_revoked g = None ∧ t < g_expires g.

(** Two open grants for the same person never run at the same time. *)
Definition exclusive (gs : gmap string grant) : Prop := ∀ id id' g g',
  gs !! id = Some g → gs !! id' = Some g' → is_open g = true → is_open g' = true →
  g_org g = g_org g' → g_target g = g_target g' → id ≠ id' → g_expires g ≤ g_created g' ∨ g_expires g' ≤ g_created g.

Definition grants_ok (gs : gmap string grant) : Prop := (∀ id g, gs !! id = Some g → grant_ok g) ∧ exclusive gs.

(** Grants are never dropped or rewritten: only an open one changes, by being
    redeemed or revoked. *)
Definition advances (g g' : grant) : Prop :=
  g' = g ∨ (is_open g = true ∧ ∃ t, g' = redeem_row t g ∨ g' = revoke_row t g).
Definition kept (gs gs' : gmap string grant) : Prop :=
  ∀ id g, gs !! id = Some g → ∃ g', gs' !! id = Some g' ∧ rtc advances g g'.

Lemma kept_refl gs : kept gs gs.
Proof. intros id g Hg. exists g. by split; [|apply rtc_refl]. Qed.
Lemma kept_trans gs1 gs2 gs3 : kept gs1 gs2 → kept gs2 gs3 → kept gs1 gs3.
Proof.
  intros H1 H2 id g Hg. destruct (H1 id g Hg) as (g2 & Hg2 & Ha). destruct (H2 id g2 Hg2) as (g3 & Hg3 & Hb).
  exists g3. split; [done|by etransitivity].
Qed.

Lemma is_open_redeem t g : is_open (redeem_row t g) = false.
Proof. done. Qed.
Lemma is_open_revoke t g : is_open (revoke_row t g) = false.
Proof. unfold is_open. cbn. by rewrite andb_false_r. Qed.
Lemma is_open_iff g : is_open g = true ↔ g_redeemed g = None ∧ g_revoked g = None.
Proof. unfold is_open. by rewrite andb_true_iff, !bool_decide_eq_true. Qed.

Lemma advances_closed g g' : rtc advances g g' → is_open g = false → g' = g.
Proof.
  induction 1 as [|g1 g2 g3 Hs _ IH]; [done|]. intros Hc. destruct Hs as [->|[Ho _]]; [by apply IH|congruence].
Qed.

(** Rows that only close keep the invariant. *)
Lemma grants_ok_close gs gs' :
  grants_ok gs → (∀ id g', gs' !! id = Some g' → ∃ g, gs !! id = Some g ∧
    (g' = g ∨ (is_open g = true ∧ ((∃ t, g' = redeem_row t g ∧ t < g_expires g) ∨ ∃ t, g' = revoke_row t g)))) →
  grants_ok gs'.
Proof.
  intros [Hok Hex] Hsub. split.
  - intros id g' Hg'. destruct (Hsub id g' Hg') as (g & Hg & Hcase). destruct (Hok id g Hg) as [He Hr].
    destruct Hcase as [->|[Ho Hcase]]; [by split|]. apply is_open_iff in Ho as [Ho1 Ho2].
    destruct Hcase as [(t & -> & Ht)|(t & ->)]; (split; [done|]); cbn; intros t' E; [|congruence].
    by injection E as <-.
  - assert (∀ id g', gs' !! id = Some g' → is_open g' = true → gs !! id = Some g') as Hopen.
    { intros id g' Hg' Ho'. destruct (Hsub id g' Hg') as (g & Hg & [->|[_ [(t & -> & _)|(t & ->)]]]); [done|done|].
      by rewrite is_open_revoke in Ho'. }
    intros id id' g g' Hg Hg' Ho Ho'. apply Hex; auto.
Qed.

Lemma grants_audit e d : grants (audit e d) = grants d.
Proof. done. Qed.

Lemma revokeGrantRow_grants id org op target now u h d k :
  grants (revokeGrantRow id org op target now u h d).2 !! k =
  (λ g, if bool_decide (k = id) && (bool_decide (g_org g = org) && is_open g) then revoke_row now g else g) <$> grants d !! k.
Proof.
  unfold revokeGrantRow. destruct (decide (k = id)) as [->|Hne].
  - rewrite bool_decide_refl. cbn [andb]. destruct (grants d !! id) as [g|] eqn:E; [|done].
    cbn. destruct (bool_decide (g_org g = org) && is_open g); cbn; [by rewrite lookup_insert_eq|done].
  - rewrite bool_decide_neq by done. cbn [andb].
    assert ((λ g : grant, g) <$> grants d !! k = grants d !! k) as -> by (by destruct (grants d !! k)).
    destruct (grants d !! id) as [g|]; [|done]. destruct (_ && _); cbn; [|done]. by rewrite lookup_insert_ne.
Qed.

Lemma revoke_all_grants ids org op target now u h : ∀ d k,
  grants (revoke_all ids org op target now u h d) !! k =
  (λ g, if bool_decide (k ∈ ids) && (bool_decide (g_org g = org) && is_open g) then revoke_row now g else g) <$> grants d !! k.
Proof.
  induction ids as [|id ids IH]; intros d k; cbn [revoke_all].
  - rewrite bool_decide_eq_false_2 by apply not_elem_of_nil. by destruct (grants d !! k).
  - rewrite IH, revokeGrantRow_grants. destruct (grants d !! k) as [g|]; [|done]. cbn. f_equal.
    destruct (decide (k = id)) as [->|Hne].
    + rewrite bool_decide_refl, (bool_decide_eq_true_2 (id ∈ id :: ids)) by left. cbn [andb].
      destruct (bool_decide (g_org g = org) && is_open g) eqn:E; [by rewrite is_open_revoke, !andb_false_r|].
      by rewrite E, andb_false_r.
    + rewrite (bool_decide_neq k id) by done. cbn [andb].
      rewrite (bool_decide_ext (k ∈ id :: ids) (k ∈ ids)); [done|]. rewrite elem_of_cons. naive_solver.
Qed.

Lemma issue_commit_grants i reason op target token newId now d :
  grants_ok (grants d) → grants d !! newId = None →
  let d' := issue_commit i reason op target token newId now d in
  grants_ok (grants d') ∧ kept (grants d) (grants d') ∧
  (∃ g, grants d' !! newId = Some g ∧ g_org g = i_organization i ∧ g_target g = target ∧ g_hash g = hashBreakGlassToken token ∧
     g_created g = now ∧ is_open g = true ∧ g_promote g = i_promote i ∧ g_operator g = op ∧ g_reason g = reason) ∧
  ∀ id g, grants d' !! id = Some g → g_org g = i_organization i → g_target g = target → redeemable now g = true → id = newId.
Proof.
  intros Hok Hnew. cbn zeta. unfold issue_commit. rewrite grants_audit. cbn [grants set_grants].
  set (ids := fst <$> List.filter _ _).
  set (d1 := revoke_all ids _ _ _ _ _ _ d). set (created := Grant _ _ _ _ _ _ _ _ _ _ _ _).
  assert (∀ k, grants d1 !! k = (λ g, if bool_decide (k ∈ ids) && (bool_decide (g_org g = i_organization i) && is_open g)
    then revoke_row now g else g) <$> grants d !! k) as Hd1 by (intros; apply revoke_all_grants).
  assert (∀ k g, grants d1 !! k = Some g → is_open g = true → g_org g = i_organization i → g_target g = target → g_expires g ≤ now) as Hold.
  { intros k g. rewrite Hd1. destruct (grants d !! k) as [g0|] eqn:E; [|done]. cbn. intros [= <-].
    destruct (bool_decide (k ∈ ids) && _) eqn:Eb; [by rewrite is_open_revoke|]. intros Ho Horg Htar.
    destruct (Z.le_gt_cases (g_expires g0) now) as [?|Hlate]; [done|exfalso].
    rewrite Horg, bool_decide_refl, Ho, bool_decide_eq_true_2 in Eb; [done|].
    apply list_elem_of_fmap. exists (k, g0). split; [done|]. apply list_elem_of_In, filter_In. split.
    - by apply list_elem_of_In, elem_of_map_to_list.
    - unfold supersedes. cbn. rewrite Horg, Htar, !bool_decide_refl, Ho. cbn. by apply Z.ltb_lt. }
  assert (grants_ok (grants d1)) as Hok1.
  { apply (grants_ok_close (grants d)); [done|]. intros k g. rewrite Hd1. destruct (grants d !! k) as [g0|] eqn:E; [|done].
    cbn. intros [= <-]. exists g0. split; [done|]. destruct (bool_decide (k ∈ ids) && _) eqn:Eb; [|by left].
    right. bool_simplify. split; [done|]. right. by eexists. }
  assert (grants d1 !! newId = None) as Hnew1 by (by rewrite Hd1, Hnew).
  destruct Hok1 as [Hg1 Hex1]. split_and!.
  - split.
    + intros k g. destruct (decide (newId = k)) as [<-|Hne].
      * rewrite lookup_insert_eq. intros [= <-]. split; [unfold created, BREAK_GLASS_TTL_SECONDS; cbn; lia|done].
      * rewrite lookup_insert_ne by done. apply Hg1.
    + intros id id' g g'. destruct (decide (newId = id)) as [<-|Hne], (decide (newId = id')) as [<-|Hne'];
        rewrite ?lookup_insert_eq, ?lookup_insert_ne by done.
      * done.
      * intros [= <-] Hg' _ Ho' Horg Htar _. right. cbn. apply (Hold id' g'); [done..| |]; cbn in *; congruence.
      * intros Hg [= <-] Ho _ Horg Htar _. left. cbn. apply (Hold id g); [done..| |]; cbn in *; congruence.
      * apply Hex1.
  - intros k g Hg. assert (newId ≠ k) by congruence. rewrite lookup_insert_ne, Hd1, Hg by done. eexists. split; [done|].
    destruct (bool_decide (k ∈ ids) && _) eqn:Eb; [|apply rtc_refl]. apply rtc_once. right. bool_simplify.
    split; [done|]. eexists. by right.
  - exists created. by rewrite lookup_insert_eq.
  - intros id g. destruct (decide (newId = id)) as [<-|Hne]; [done|]. rewrite lookup_insert_ne by done.
    intros Hg Horg Htar Hr. apply andb_true_iff' in Hr as [Ho Hlt]. apply Z.ltb_lt in Hlt.
    pose proof (Hold id g Hg Ho Horg Htar). lia.
Qed.

(** ** Every run *)

(** The databases a run goes through, the latest first.  Issuing and redeeming
    read any earlier one; other code changes anything but the grants. *)
Inductive run : list db → Prop :=
  | run_start d : grants d = ∅ → run [d]
  | run_issue d h d0 env i token newId now : run (d :: h) → d0 ∈ d :: h → grants d !! newId = None →
      run ((issueBreakGlassGrant env i token newId now d0 d).2 :: d :: h)
  | run_revoke d h env grantId operatorId u host now : run (d :: h) →
      run ((revokeBreakGlassGrant env grantId operatorId u host now d).2 :: d :: h)
  | run_redeem d h d0 env token passwordHash request ip now : run (d :: h) → d0 ∈ d :: h →
      run ((redeemBreakGlassGrant env token passwordHash request ip now d0 d).2 :: d :: h)
  | run_other d h d' : run (d :: h) → grants d' = grants d → run (d' :: d :: h).

Lemma issue_grants env i token newId now d0 d :
  grants_ok (grants d) → grants d !! newId = None →
  grants_ok (grants (issueBreakGlassGrant env i token newId now d0 d).2) ∧
  kept (grants d) (grants (issueBreakGlassGrant env i token newId now d0 d).2).
Proof.
  intros Hok Hnew. unfold issueBreakGlassGrant. destruct (issue_check env i d0) as [[[[reason op] target] u]|e].
  - pose proof (issue_commit_grants i reason op target token newId now d Hok Hnew) as (? & ? & _). done.
  - split; [done|apply kept_refl].
Qed.

Lemma revoke_grants env grantId operatorId u host now d :
  grants_ok (grants d) →
  grants_ok (grants (revokeBreakGlassGrant env grantId operatorId u host now d).2) ∧
  kept (grants d) (grants (revokeBreakGlassGrant env grantId operatorId u host now d).2).
Proof.
  intros Hok. unfold revokeBreakGlassGrant. destruct (assertOperator operatorId env d) as [op|e]; [|by split; [|apply kept_refl]].
  destruct (grants d !! grantId) as [g|] eqn:E; [|by split; [|apply kept_refl]].
  pose proof (λ k, revokeGrantRow_grants grantId (g_org g) op (g_target g) now (provenanceValue u) (provenanceValue host) d k) as Hrow.
  destruct (revokeGrantRow grantId _ _ _ _ _ _ d) as [b d'] eqn:Er. cbn [snd] in *. split.
  - apply (grants_ok_close (grants d)); [done|]. intros k g'. rewrite Hrow. destruct (grants d !! k) as [g0|]; [|done].
    cbn. intros [= <-]. exists g0. split; [done|]. destruct (bool_decide (k = grantId) && _) eqn:Eb; [|by left].
    right. bool_simplify. split; [done|]. right. by eexists.
  - intros k g0 Hk. rewrite Hrow, Hk. cbn. eexists. split; [done|].
    destruct (bool_decide (k = grantId) && _) eqn:Eb; [|apply rtc_refl]. apply rtc_once. right. bool_simplify.
    split; [done|]. eexists. by right.
Qed.

Lemma audits_keep es : ∀ d,
  users (foldl (λ d e, audit e d) d es) = users d ∧ keys (foldl (λ d e, audit e d) d es) = keys d ∧
  grants (foldl (λ d e, audit e d) d es) = grants d ∧ views (support (foldl (λ d e, audit e d) d es)) = views (support d).
Proof. induction es as [|e es IH]; intros d; [done|]. cbn [foldl]. apply (IH (audit e d)). Qed.

(** What a redemption writes. *)
Lemma redeem_inv env token pw request ip now d0 d :
  let '(r, d') := redeemBreakGlassGrant env token pw request ip now d0 d in
  match r with
  | Err _ => d' = d
  | Ok r => ∃ id g0 target g u,
      isBreakGlassEnabled env = true ∧ redeem_check token now d0 = Some (id, g0, target) ∧
      r_promoted r = negb (is_admin target) && g_promote g0 ∧
      (r_promoted r = true → activeAdminIds (g_org g0) d = []) ∧
      grants d !! id = Some g ∧ redeemable now g = true ∧ users d !! g_target g0 = Some u ∧
      users d' = <[g_target g0 := restore pw (r_promoted r) u]> (users d) ∧
      keys d' = revoke_key now (g_target g0) <$> keys d ∧
      grants d' = <[id := redeem_row now g]> (grants d) ∧
      views (support d') = views (endImpersonationSessions isIP accepts None
        (EndOptions (g_org g0) (ByEither (g_target g0)) "revoked_password_reset" None request ip now) (support d)).2
  end.
Proof.
  unfold redeemBreakGlassGrant, assertEnabled. destruct (isBreakGlassEnabled env) eqn:Een; [|done]. cbn [refuse_unless].
  destruct (redeem_check token now d0) as [[[id g0] target]|] eqn:Ec; [|done].
  set (promoted := negb (is_admin target) && g_promote g0). unfold redeem_commit.
  destruct (promoted && negb (bool_decide (activeAdminIds (g_org g0) d = []))) eqn:Ep; [done|].
  destruct (grants d !! id) as [g|] eqn:Eg; [|done]. destruct (redeemable now g) eqn:Er; [|done].
  destruct (users d !! g_target g0) as [u|] eqn:Eu; [|done]. cbn [users keys grants support notes].
  destruct (endImpersonationSessions _ _ _ _ (support d)) as [n s] eqn:Es.
  set (d1 := Db _ _ _ s _).
  pose proof (audits_keep (redeem_events id g0 target promoted (negb (b_active target)) (active_keys (g_target g0) d) request ip) d1)
    as (H1 & H2 & H3 & H4).
  exists id, g0, target, g, u. split_and!; try done.
  - cbn [r_promoted]. intros Hp. rewrite Hp in Ep. cbn [andb] in Ep. by bool_simplify.
  - unfold notifyUsers. cbn [support]. rewrite H4. unfold d1. cbn [support]. by rewrite Es.
Qed.

Lemma redeem_grants env token pw request ip now d0 d :
  grants_ok (grants d) →
  grants_ok (grants (redeemBreakGlassGrant env token pw request ip now d0 d).2) ∧
  kept (grants d) (grants (redeemBreakGlassGrant env token pw request ip now d0 d).2).
Proof.
  intros Hok. pose proof (redeem_inv env token pw request ip now d0 d) as H.
  destruct (redeemBreakGlassGrant _ _ _ _ _ _ d0 d) as [[r|e] d']; cbn [snd]; [|subst; by split; [|apply kept_refl]].
  destruct H as (id & g0 & target & g & u & _ & _ & _ & _ & Hg & Hr & _ & _ & _ & Hgs & _).
  unfold redeemable in Hr. apply andb_true_iff' in Hr as [Ho Ht]. apply Z.ltb_lt in Ht. rewrite Hgs. split.
  - apply (grants_ok_close (grants d)); [done|]. intros k g'. destruct (decide (id = k)) as [<-|Hne].
    + rewrite lookup_insert_eq. intros [= <-]. exists g. split; [done|]. right. split; [done|]. left. by eexists.
    + rewrite lookup_insert_ne by done. intros Hk. exists g'. split; [done|by left].
  - intros k g' Hk. destruct (decide (id = k)) as [<-|Hne].
    + rewrite lookup_insert_eq. simplify_eq. eexists. split; [done|]. apply rtc_once. right. split; [done|]. eexists. by left.
    + rewrite lookup_insert_ne by done. exists g'. by split; [|apply rtc_refl].
Qed.

Lemma run_ok h : run h → ∃ d t, h = d :: t ∧ grants_ok (grants d) ∧ ∀ d0, d0 ∈ h → kept (grants d0) (grants d).
Proof.
  assert (∀ d d' h, (∃ d1 t, d :: h = d1 :: t ∧ grants_ok (grants d1) ∧ ∀ d0, d0 ∈ d :: h → kept (grants d0) (grants d1)) →
    grants_ok (grants d') ∧ kept (grants d) (grants d') →
    ∃ d1 t, d' :: d :: h = d1 :: t ∧ grants_ok (grants d1) ∧ ∀ d0, d0 ∈ d' :: d :: h → kept (grants d0) (grants d1)) as Hext.
  { intros d d' h0 (d1 & t & [= <- <-] & _ & Hk) [Hok Hk']. exists d', (d :: h0). split; [done|]. split; [done|].
    intros d0 [->|Hin]%elem_of_cons; [apply kept_refl|]. eapply kept_trans; [by apply Hk|exact Hk'].
 }
  induction 1 as [d He|d h d0 env i token newId now Hr IH Hin Hnew|d h env gid op u host now Hr IH
                 |d h d0 env token pw request ip now Hr IH Hin|d h d' Hr IH Hg].
  - exists d, []. split; [done|]. rewrite He. split; [split; [|intros ? ?]; intros; by rewrite lookup_empty in *|].
    intros d0 ->%list_elem_of_singleton. rewrite He. apply kept_refl.
  - apply Hext; [done|]. destruct IH as (? & ? & [= <- <-] & Hok & _). by apply issue_grants.
  - apply Hext; [done|]. destruct IH as (? & ? & [= <- <-] & Hok & _). by apply revoke_grants.
  - apply Hext; [done|]. destruct IH as (? & ? & [= <- <-] & Hok & _). by apply redeem_grants.
  - apply Hext; [done|]. destruct IH as (? & ? & [= <- <-] & Hok & _). rewrite Hg. by split; [|apply kept_refl].
Qed.

(** A break-glass grant works once, briefly, and alone.  In
    every run, however the reads and transactions of issuing, redeeming and
    revoking interleave: a grant lasts thirty minutes, a redeemed one was
    redeemed before its expiry and never revoked, two grants that could both
    still be redeemed for the same person never overlap in time, no grant ever
    disappears, and one that was redeemed or revoked never changes again. *)
Lemma break_glass_grants_single_use d h :
  run (d :: h) →
  (∀ id g, grants d !! id = Some g → g_expires g = g_created g + 30 * 60 * 1000 ∧
     ∀ t, g_redeemed g = Some t → g_revoked g = None ∧ t < g_expires g) ∧
  (∀ id id' g g', grants d !! id = Some g → grants d !! id' = Some g' → is_open g = true → is_open g' = true →
     g_org g = g_org g' → g_target g = g_target g' → id ≠ id' → g_expires g ≤ g_created g' ∨ g_expires g' ≤ g_created g) ∧
  (∀ d0 id g, d0 ∈ h → grants d0 !! id = Some g →
     ∃ g', grants d !! id = Some g' ∧ (is_open g = false → g' = g)).
Proof.
  intros (d1 & t & [= <- <-] & [Hok Hex] & Hk)%run_ok. split_and!; [done|done|].
  intros d0 id g Hin Hg. destruct (Hk d0 ltac:(by right) id g Hg) as (g' & Hg' & Ha). exists g'. split; [done|].
  by apply advances_closed.
Qed.

(** ** Who may issue, and what redeeming does *)

Lemma revoke_all_accounts ids org op target now u h : ∀ d,
  users (revoke_all ids org op target now u h d) = users d ∧ keys (revoke_all ids org op target now u h d) = keys d.
Proof.
  induction ids as [|id ids IH]; intros d; [done|]. cbn [revoke_all]. destruct (IH (revokeGrantRow id org op target now u h d).2) as [-> ->].
  unfold revokeGrantRow. destruct (grants d !! id) as [g|]; [|done]. by destruct (_ && _).
Qed.

Lemma assertOperator_ok op env d op' :
  assertOperator op env d = Ok op' → op' = op ∧ op ∈ operatorIds env ∧
  ∃ u, users d !! op = Some u ∧ b_role u = "ADMIN" ∧ b_active u = true.
Proof.
  unfold assertOperator, is_admin, mem. destruct (bool_decide (op = "") || _) eqn:E; [done|]. bool_simplify.
  destruct (users d !! op) as [u|]; [|done]. destruct (bool_decide (b_role u = "ADMIN") && b_active u) eqn:Eu; [|done].
  intros [= <-]. bool_simplify. split_and!; [done|done|]. by exists u.
Qed.

Lemma issue_check_ok env i d0 reason op targetId target :
  issue_check env i d0 = Ok (reason, op, targetId, target) →
  isBreakGlassEnabled env = true ∧ normalizeReason (i_reason i) = Ok reason ∧ assertOperator (i_operator i) env d0 = Ok op ∧
  users d0 !! targetId = Some target ∧ b_org target = i_organization i ∧ is_outsider target = false ∧
  (is_admin target = false → i_promote i = true ∧ activeAdminIds (i_organization i) d0 = []).
Proof.
  unfold issue_check, assertEnabled. intros H.
  apply bind_ok in H as (? & H1%refuse_unless_ok & H). apply bind_ok in H as (reason' & H2 & H).
  apply bind_ok in H as (op' & H3 & H). apply bind_ok in H as (? & _ & H).
  destruct (List.filter _ _) as [|[id u] [|? ?]] eqn:Ef; [done| |done].
  assert ((id, u) ∈ List.filter (λ iu : string * user, named i iu.1 iu.2) (map_to_list (users d0))) as Hin by (rewrite Ef; left).
  apply list_elem_of_In, filter_In in Hin as [Hin%list_elem_of_In%elem_of_map_to_list Hn].
  unfold named in Hn. cbn in Hn. apply andb_true_iff' in Hn as [Ho%bool_decide_eq_true _].
  destruct (is_outsider u) eqn:Eo; [done|]. destruct (negb (is_admin u) && negb (i_promote i)) eqn:E1; [done|].
  destruct (negb (is_admin u) && i_promote i && negb (bool_decide (activeAdminIds (i_organization i) d0 = []))) eqn:E2; [done|]. injection H as <- <- <- <-.
  split_and!; [done..|]. intros Ha. rewrite Ha in *. cbn [negb andb] in *. bool_simplify. rewrite E1 in E2. cbn [andb] in E2. by bool_simplify.
Qed.

(** Only a platform operator issues, and never for themselves to
    use.  A grant is issued only while break-glass is enabled, by a listed
    operator whose account is still an active administrator, with a reason, for
    one staff account of the organization - an administrator, or on an explicit
    promotion anyone of the staff once no active administrator is left.  No
    account and no key changes, the stored row carries the token's hash and
    thirty minutes, and it is then the only grant that could be redeemed for
    that person.  A refusal changes nothing. *)
Lemma issueBreakGlassGrant_authority env i token newId now d0 d :
  grants_ok (grants d) → grants d !! newId = None →
  match issueBreakGlassGrant env i token newId now d0 d with
  | (Err _, d') => d' = d
  | (Ok (id, t), d') => id = newId ∧ t = token ∧ isBreakGlassEnabled env = true ∧ is_ok (normalizeReason (i_reason i)) = true ∧
      i_operator i ∈ operatorIds env ∧
      (∃ u, users d0 !! i_operator i = Some u ∧ b_role u = "ADMIN" ∧ b_active u = true) ∧
      users d' = users d ∧ keys d' = keys d ∧
      ∃ targetId target g, users d0 !! targetId = Some target ∧ b_org target = i_organization i ∧ is_outsider target = false ∧
        (b_role target ≠ "ADMIN" → i_promote i = true ∧ activeAdminIds (i_organization i) d0 = []) ∧
        grants d' !! newId = Some g ∧ g_org g = i_organization i ∧ g_target g = targetId ∧ g_hash g = sha256 token ∧
        g_expires g = now + 30 * 60 * 1000 ∧ g_operator g = i_operator i ∧
        ∀ id g, grants d' !! id = Some g → g_org g = i_organization i → g_target g = targetId → redeemable now g = true → id = newId
  end.
Proof.
  intros Hok Hnew. unfold issueBreakGlassGrant. destruct (issue_check env i d0) as [[[[reason op] targetId] target]|e] eqn:Ec; [|done].
  apply issue_check_ok in Ec as (H1 & H2 & Hop & H5 & H6 & H7 & H8).
  apply assertOperator_ok in Hop as (-> & H3 & H4).
  destruct (issue_commit_grants i reason (i_operator i) targetId token newId now d Hok Hnew)
    as (Hok' & _ & (g & Hg & Horg & Htar & Hhash & Hcr & _ & _ & Hop & _) & Huniq).
  split_and!; [done|done|done|by rewrite H2|done|done| | |].
  - unfold notifyUsers, issue_commit. cbn [users audit set_grants]. by apply revoke_all_accounts.
  - unfold notifyUsers, issue_commit. cbn [keys audit set_grants]. by apply revoke_all_accounts.
  - exists targetId, target, g. split_and!; try done.
    + intros Hr. apply H8. unfold is_admin. by apply bool_decide_eq_false.
    + destruct Hok' as [Hok' _]. destruct (Hok' _ _ Hg) as [-> _]. by rewrite Hcr.
Qed.

Lemma redeem_check_some token now d0 id g0 target :
  redeem_check token now d0 = Some (id, g0, target) →
  ∃ t, token = Some t ∧ grants d0 !! id = Some g0 ∧ g_hash g0 = sha256 t ∧ redeemable now g0 = true ∧
    users d0 !! g_target g0 = Some target ∧ b_org target = g_org g0 ∧ is_outsider target = false ∧
    (is_admin target = false → g_promote g0 = true).
Proof.
  unfold redeem_check. destruct token as [t|]; [|done]. cbn [mbind option_bind].
  destruct ((String.length t <? 20)%nat || (200 <? String.length t)%nat); [done|].
  destruct (find_grant (hashBreakGlassToken t) d0) as [[id' g']|] eqn:Ef; [|done]. cbn [mbind option_bind].
  destruct (redeemable now g') eqn:Er; [|done]. cbn [negb].
  destruct (users d0 !! g_target g') as [u|] eqn:Eu; [|done]. cbn [mbind option_bind].
  destruct (negb (bool_decide (b_org u = g_org g')) || is_outsider u) eqn:E1; [done|].
  destruct (negb (is_admin u) && negb (g_promote g')) eqn:E2; [done|].
  destruct (negb (is_admin u) && negb (bool_decide (activeAdminIds (g_org g') d0 = []))); [done|]. intros H. injection H as -> -> ->. exists t. bool_simplify.
  unfold find_grant in Ef. apply head_Some_elem_of in Ef. apply list_elem_of_In, filter_In in Ef as [Hin Hh].
  apply list_elem_of_In, elem_of_map_to_list in Hin. cbn in Hh. bool_simplify. split_and!; try done.
  intros Ha. rewrite Ha in E2. cbn in E2. by bool_simplify.
Qed.

Lemma ended_by_closed o v :
  selects (o_where o) v = true → v_org v = o_organization o → open_view (ended_by o v) = false.
Proof.
  intros Hs Ho. unfold ended_by. rewrite Hs, Ho, bool_decide_refl. cbn [andb]. by destruct (open_view v) eqn:E.
Qed.

Lemma ended_by_same o v : v_org (ended_by o v) = v_org v ∧ v_actor (ended_by o v) = v_actor v ∧ v_subject (ended_by o v) = v_subject v.
Proof. unfold ended_by. by destruct (_ && _). Qed.

(** C13 (functional): redeeming restores one account and nothing else.  An
    accepted token is that of a grant still redeemable both when it was checked
    and in the transaction, which it closes.  The named account gets the new
    password, is active, loses its second factor, reset link and every session
    and API key, and no support view acts as it or on it; it becomes ADMIN only
    on a promotion, and then no active administrator was left in the
    transaction.  Every other account and grant is as before, and a refusal
    changes nothing at all. *)
Theorem redeemBreakGlassGrant_restores env token pw request ip now d0 d :
  keyed (support d) → (∀ id g, grants d0 !! id = Some g → g_org g ≠ "") →
  match redeemBreakGlassGrant env token pw request ip now d0 d with
  | (Err _, d') => d' = d
  | (Ok r, d') => ∃ t id g0 g u, token = Some t ∧ isBreakGlassEnabled env = true ∧
      grants d0 !! id = Some g0 ∧ g_hash g0 = sha256 t ∧ redeemable now g0 = true ∧
      grants d !! id = Some g ∧ redeemable now g = true ∧ grants d' = <[id := redeem_row now g]> (grants d) ∧
      users d !! g_target g0 = Some u ∧
      users d' = <[g_target g0 := User (b_org u) (b_email u) (b_name u) (if r_promoted r then "ADMIN" else b_role u) true pw
                                    no_mfa None (b_version u + 1)]> (users d) ∧
      (∀ k key, keys d' !! k = Some key → k_user key = g_target g0 → k_active key = false) ∧
      (∀ k key, keys d !! k = Some key → k_user key ≠ g_target g0 → keys d' !! k = Some key) ∧
      (∀ k v, views (support d') !! k = Some v → v_org v = g_org g0 → v_actor v = g_target g0 ∨ v_subject v = g_target g0 →
         open_view v = false) ∧
      (r_promoted r = true → g_promote g0 = true ∧ activeAdminIds (g_org g0) d = []) ∧
      (r_promoted r = false → ∃ target, users d0 !! g_target g0 = Some target ∧ b_role target = "ADMIN")
  end.
Proof.
  intros Hkeyed Horgs. pose proof (redeem_inv env token pw request ip now d0 d) as H.
  destruct (redeemBreakGlassGrant env token pw request ip now d0 d) as [[r|e] d']; [|done].
  destruct H as (id & g0 & target & g & u & Hen & Hc & Hp & Hadm & Hg & Hr & Hu & Husers & Hkeys & Hgrants & Hviews).
  apply redeem_check_some in Hc as (t & -> & Hg0 & Hhash & Hr0 & Ht & Horg & Hout & Hpromo).
  exists t, id, g0, g, u. split_and!; try done.
  - intros k key. rewrite Hkeys, lookup_fmap. destruct (keys d !! k) as [key0|]; [|done]. cbn. intros [= <-] Hk.
    unfold revoke_key in *. destruct (bool_decide (k_user key0 = g_target g0) && k_active key0) eqn:E; [done|].
    rewrite Hk, bool_decide_refl in E. exact E.
  - intros k key Hk Hne. rewrite Hkeys, lookup_fmap, Hk. cbn. unfold revoke_key. by rewrite bool_decide_neq.
  - intros k v. rewrite Hviews. set (o := EndOptions _ _ _ _ _ _ _).
    destruct (endImpersonationSessions isIP accepts None o (support d)) as [n s] eqn:Ee.
    apply end_sessions_spec in Ee as (_ & Hv & _); [|done|by eapply Horgs|by apply (bool_decide_eq_true_1 _)].
    cbn [snd]. rewrite Hv, lookup_fmap. destruct (views (support d) !! k) as [v0|]; [|done]. cbn. intros [= <-].
    destruct (ended_by_same o v0) as (-> & -> & ->). intros Ho Hsel. apply ended_by_closed; [|done].
    cbn. apply orb_true_iff. rewrite !bool_decide_eq_true. done.
  - intros E. split; [|by apply Hadm]. rewrite E in Hp. symmetry in Hp. by apply andb_true_iff' in Hp as [_ ?].
  - intros E. exists target. split; [done|]. rewrite E in Hp. unfold is_admin in *.
    destruct (bool_decide (b_role target = "ADMIN")) eqn:Ea; [by bool_simplify|]. rewrite Hpromo in Hp; done.
Qed.

End breakglass.

(** ** An organization without an administrator *)

Definition demo_user (org email role : string) (active : bool) : user :=
  User org email email role active "old" (Mfa true (Some "secret") (Some 1) None ["r1"] 0 None) None 4.
Definition demo_db : db :=
  Db (<["op" := demo_user "hub" "op@hub.test" "ADMIN" true]> {["eve" := demo_user "acme" "Eve@acme.test" "TEAM" false]})
    {["k1" := ApiKey "eve" true None]} ∅ (World ∅ []) [].
Definition demo_env : environment := Environment (Some " TRUE ") (Some "someone, op").
Definition demo_issue : issue_input :=
  Issue "acme" (Some "eve@acme.test") None "op" (Some "Sole administrator left the company") true (Some "root") None.
Definition demo_token : string := "0123456789abcdefghijklmn".
Definition demo_hash (s : string) : string := "h:" +:+ s.
Definition demo_issued := issueBreakGlassGrant demo_hash (λ _, "") (λ _, O) (λ _, true) (λ _, true) (λ _, true)
  demo_env demo_issue demo_token "g1" 1000 demo_db demo_db.
Definition demo_redeemed := redeemBreakGlassGrant demo_hash (λ _, O) (λ _, true) (λ _, true)
  demo_env (Some demo_token) "new" None None 61000 demo_issued.2 demo_issued.2.

Lemma keyed_empty w : views w = ∅ → keyed w.
Proof. intros E k v Hk. by rewrite E, lookup_empty in Hk. Qed.

Lemma demo_no_grants : grants_ok (grants demo_db).
Proof. split; [|intros id ? ? ? Hg]; [intros id g Hg|]; cbn in Hg; by rewrite lookup_empty in Hg. Qed.

Lemma demo_run : run demo_hash (λ _, "") (λ _, O) (λ _, true) (λ _, true) (λ _, true) [demo_redeemed.2; demo_issued.2; demo_db].
Proof. apply run_redeem; [|left]. apply run_issue; [by apply run_start|left|done]. Qed.

Lemma break_glass_grants_single_use_witness :
  (g_redeemed <$> grants demo_redeemed.2 !! "g1") = Some (Some 61000) ∧
  (∀ id g, grants demo_redeemed.2 !! id = Some g → g_expires g = g_created g + 30 * 60 * 1000 ∧
     ∀ t, g_redeemed g = Some t → g_revoked g = None ∧ t < g_expires g).
Proof.
  split; [by vm_compute|].
  apply (break_glass_grants_single_use demo_hash (λ _, "") (λ _, O) (λ _, true) (λ _, true) (λ _, true)
           demo_redeemed.2 [demo_issued.2; demo_db]).
  exact demo_run.
Defined.

Lemma issueBreakGlassGrant_authority_witness :
  demo_issued.1 = Ok ("g1", demo_token) ∧
  match issueBreakGlassGrant demo_hash (λ _, "") (λ _, O) (λ _, true) (λ _, true) (λ _, true)
          demo_env demo_issue demo_token "g1" 1000 demo_db demo_db with
  | (Err _, d') => d' = demo_db
  | (Ok (id, t), d') => id = "g1" ∧ i_operator demo_issue ∈ operatorIds demo_env ∧ users d' = users demo_db
  end.
Proof.
  split; [by vm_compute|].
  pose proof (issueBreakGlassGrant_authority demo_hash (λ _, "") (λ _, O) (λ _, true) (λ _, true) (λ _, true)
    demo_env demo_issue demo_token "g1" 1000 demo_db demo_db demo_no_grants eq_refl) as H.
  destruct (issueBreakGlassGrant _ _ _ _ _ _ _ _ _ _ _ _ _) as [[[id t]|e] d']; [|exact H].
  destruct H as (H1 & _ & _ & _ & H2 & _ & H3 & _). split_and!; assumption.
Defined.

Lemma redeemBreakGlassGrant_restores_witness :
  (b_role <$> users demo_redeemed.2 !! "eve") = Some "ADMIN" ∧ (k_active <$> keys demo_redeemed.2 !! "k1") = Some false ∧
  match redeemBreakGlassGrant demo_hash (λ _, O) (λ _, true) (λ _, true)
          demo_env (Some demo_token) "new" None None 61000 demo_issued.2 demo_issued.2 with
  | (Err _, d') => d' = demo_issued.2
  | (Ok r, d') => ∃ id g, grants demo_issued.2 !! id = Some g ∧ g_hash g = demo_hash demo_token ∧ redeemable 61000 g = true
  end.
Proof.
  split; [by vm_compute|]. split; [by vm_compute|].
  pose proof (keyed_empty (support demo_issued.2) ltac:(vm_compute; reflexivity)) as Hk.
  assert (∀ id g, grants demo_issued.2 !! id = Some g → g_org g ≠ "") as Ho.
  { assert (map_Forall (λ _ g, g_org g ≠ "") (grants demo_issued.2)) as Hall by (apply (bool_decide_eq_true_1 _); by vm_compute).
    exact Hall. }
  pose proof (redeemBreakGlassGrant_restores demo_hash (λ _, O) (λ _, true) (λ _, true)
    demo_env (Some demo_token) "new" None None 61000 demo_issued.2 demo_issued.2 Hk Ho) as H.
  destruct (redeemBreakGlassGrant _ _ _ _ _ _ _ _ _ _ _ _) as [[r|e] d']; [|exact H].
  destruct H as (t & id & g0 & g & u & [= <-] & _ & H1 & H2 & H3 & _). exists id, g0. split_and!; assumption.
Defined.

End BreakGlass.
