(* ===== verification/Handoffs.v ===== *)
(** * Requests for a human account manager

    src/src/services/portal-handoff.service.js with the portal principal of
    src/src/auth/portal-principal.js: a client's contact asks, staff claim,
    resolve or (administrators) requeue.  Every operation runs in its own
    serializable transaction, so it acts on one state.  The trigger of the
    migration that created the table is modelled as well: it is the database's
    own statement of which writes are legal. *)

From S2P Require Import Prelude Store Pages TenantTables Tenancy.

Module Handoffs.
Import Tenancy.Tenancy(toLowerCase).

(** ** Data *)

Inductive status := PENDING | CLAIMED | RESOLVED.
#[export] Instance status_eq_dec : EqDecision status.
Proof. solve_decision. Defined.
Inductive reason := OWNER_UNAVAILABLE | RECOVERY.
#[export] Instance reason_eq_dec : EqDecision reason.
Proof. solve_decision. Defined.

(** What a request was made with: never changed afterwards. *)
Record origin := Origin {
  h_org : string; h_client : string; h_project : string; h_requestedBy : string; h_contact : string; h_sessionVersion : Z;
  h_question : string; h_key : string; h_hash : string; h_createdAt : Z
}.
#[export] Instance origin_eq_dec : EqDecision origin.
Proof. solve_decision. Defined.
Record handoff := Handoff {
  h_origin : origin; h_status : status; h_revision : Z; h_owner : option string; h_changedBy : string;
  h_requeueReason : option reason; h_claimedAt : option Z; h_resolvedAt : option Z; h_updatedAt : Z
}.
Record user := User {
  u_org : string; u_email : string; u_role : string; u_client : option string; u_active : bool; u_sessionVersion : Z
}.
Record contact := Contact { k_email : string; k_client : string }.
Record client := Client { c_org : string; c_deleted : bool; c_status : string; c_relationship : string }.
Record project := Project { p_org : string; p_client : option string; p_deleted : bool }.
Record audit := Audit { e_action : string; e_request : string; e_actor : string; e_status : status; e_revision : Z }.

Record world := World {
  users : gmap string user; contacts : gmap string contact; clients : gmap string client; projects : gmap string project;
  handoffs : gmap string handoff; audits : list audit
}.

Inductive handoff_error :=
  | HANDOFF_UNAVAILABLE | INVALID_INPUT | PORTAL_SESSION_REVOKED | ROLE_DENIED | HANDOFF_CONFLICT | AUDIT_UNAVAILABLE
  | DatabaseRefused.                    (** the trigger or a CHECK raised *)
Definition error_status (e : handoff_error) : Z :=
  match e with
  | HANDOFF_UNAVAILABLE => 404 | INVALID_INPUT => 400 | PORTAL_SESSION_REVOKED => 401 | ROLE_DENIED => 403
  | HANDOFF_CONFLICT => 409 | AUDIT_UNAVAILABLE | DatabaseRefused => 503
  end.
Abbreviation res := (result handoff_error).
Abbreviation tx := (Eff world handoff_error).
Definition reads {A} (f : world → res A) : tx A := λ w, (f w, w).

Definition set_handoff (id : string) (h : handoff) (w : world) : world :=
  World (users w) (contacts w) (clients w) (projects w) (<[id := h]> (handoffs w)) (audits w).
Definition add_audit (a : audit) (w : world) : world :=
  World (users w) (contacts w) (clients w) (projects w) (handoffs w) (audits w ++ [a]).

(** ** Who is asking *)

(** Verified session claims. *)
Record claims := Claims {
  s_id : string; s_contact : string; s_client : string; s_role : string; s_org : option string; s_version : option Z
}.
Record principal := Principal { pr_user : string; pr_contact : string; pr_client : string; pr_org : string; pr_version : Z }.
Definition open_client (c : client) : bool :=
  negb (c_deleted c) && bool_decide (c_status c = "ACTIVE") && negb (bool_decide (c_relationship c ∈ ["ARCHIVED"; "CHURNED"])).
(* src/src/auth/portal-principal.js:15-45 resolvePortalPrincipal *)
Definition resolvePortalPrincipal (w : world) (s : claims) : option principal :=
  if bool_decide (s_id s = "") || bool_decide (s_contact s = "") || bool_decide (s_client s = "") || negb (bool_decide (s_role s = "CLIENT"))
  then None
  else
    let user := users w !! s_id s in
    let contact := find_by_id (s_contact s) (λ k, bool_decide (k_client k = s_client s)) (contacts w) in
    let client := find_by_id (s_client s) open_client (clients w) in
    match user with
    | None => None
    | Some u =>
        if negb (u_active u && bool_decide (u_role u = "CLIENT") && bool_decide (u_client u = Some (s_client s))) then None
        else match contact, client with
             | Some k, Some c =>
                 if negb (bool_decide (u_org u = c_org c)) then None
                 else if negb (bool_decide (toLowerCase (u_email u) = toLowerCase (k_email k))) then None
                 else if match s_org s with Some o => negb (bool_decide (o = "")) && negb (bool_decide (o = c_org c)) | None => false end then None
                 else if negb (bool_decide (s_version s = Some (u_sessionVersion u))) then None
                 else Some (Principal (s_id s) (s_contact s) (s_client s) (c_org c) (u_sessionVersion u))
             | _, _ => None
             end
    end.
(* src/src/auth/portal-principal.js:58-68 clientSessionHasPortalAccess *)
Definition clientSessionHasPortalAccess (w : world) (s : claims) : bool :=
  if negb (bool_decide (s_role s = "CLIENT")) then true
  else if negb (bool_decide (s_contact s = "")) then bool_decide (is_Some (resolvePortalPrincipal w s))
  else match users w !! s_id s ≫= u_client with
       | Some c => bool_decide (is_Some (find_by_id c open_client (clients w)))
       | None => false
       end.

Definition id_ok (t : string) : bool := (1 <=? String.length t)%nat && (String.length t <=? 100)%nat.
(** A project that is live, in the organization and of a live client there. *)
(* src/src/services/portal-handoff.service.js:17-17 canonical *)
Definition canonical (w : world) (org c : string) (p : project) : bool :=
  bool_decide (p_org p = org) && bool_decide (p_client p = Some c) && negb (p_deleted p) &&
  match clients w !! c with Some cl => bool_decide (c_org cl = org) && open_client cl | None => false end.
(* src/src/services/portal-handoff.service.js:30-37 portalScope *)
Definition portalScope (w : world) (s : claims) (projectId : string) : res principal :=
  if negb (id_ok projectId) then Err INVALID_INPUT
  else match resolvePortalPrincipal w s with
       | None => Err PORTAL_SESSION_REVOKED
       | Some p =>
           match find_by_id projectId (canonical w (pr_org p) (pr_client p)) (projects w) with
           | Some _ => Ok p
           | None => Err HANDOFF_UNAVAILABLE
           end
       end.
(** The rows of this contact, and those of one project. *)
(* src/src/services/portal-handoff.service.js:36-36 portalScope *)
Definition of_principal (p : principal) (o : origin) : bool :=
  bool_decide (h_org o = pr_org p) && bool_decide (h_client o = pr_client p) && bool_decide (h_requestedBy o = pr_user p) &&
  bool_decide (h_contact o = pr_contact p).
Definition in_scope (p : principal) (projectId : string) (h : handoff) : bool :=
  of_principal p (h_origin h) && bool_decide (h_project (h_origin h) = projectId).

Record staff := Staff { st_id : string; st_org : string; st_role : string }.
Definition staff_role (r : string) : bool := bool_decide (r ∈ ["ADMIN"; "TEAM"]).
Definition staff_user (w : world) (id org : string) : option user :=
  find_by_id id (λ u, bool_decide (u_org u = org) && u_active u && staff_role (u_role u)) (users w).
(* src/src/services/portal-handoff.service.js:38-43 authorizeHandoffStaff *)
Definition authorizeHandoffStaff (w : world) (u : staff) : res staff :=
  if bool_decide (st_id u = "") || bool_decide (st_org u = "") || negb (staff_role (st_role u)) then Err ROLE_DENIED
  else match staff_user w (st_id u) (st_org u) with
       | Some row => Ok (Staff (st_id u) (st_org u) (u_role row))
       | None => Err ROLE_DENIED
       end.

(** ** Views *)

Record view := View {
  v_id : string; v_project : string; v_question : string; v_status : status; v_createdAt : Z; v_updatedAt : Z
}.
(* src/src/services/portal-handoff.service.js:18-18 publicView *)
Definition publicView (id : string) (h : handoff) : view :=
  View id (h_project (h_origin h)) (h_question (h_origin h)) (h_status h) (h_createdAt (h_origin h)) (h_updatedAt h).

(** ** Pages *)

Definition limit_ok (limit : nat) : bool := (1 <=? limit)%nat && (limit <=? 50)%nat.
(* src/src/services/portal-handoff.service.js:87-93 listPortalHandoffs *)
Definition listPortalHandoffs (w : world) (s : claims) (projectId : string) (limit : nat) (after : option string)
  : res (list view * option string) :=
  if negb (limit_ok limit) then Err INVALID_INPUT else
  p ← portalScope w s projectId;
  let known := match after with Some id => bool_decide (is_Some (find_by_id id (in_scope p projectId) (handoffs w))) | None => true end in
  if negb known then Err HANDOFF_UNAVAILABLE
  else let '(rows, next) := page limit after (λ _, in_scope p projectId) (handoffs w) in
       Ok ((λ kh, publicView kh.1 kh.2) <$> rows, next).
(* src/src/services/portal-handoff.service.js:94-99 readPortalHandoff *)
Definition readPortalHandoff (w : world) (s : claims) (projectId : string) (sel : string + string) : res view :=
  p ← portalScope w s projectId;
  match sel with
  | inl id =>
      if negb (id_ok id) then Err INVALID_INPUT
      else match find_by_id id (in_scope p projectId) (handoffs w) with Some h => Ok (publicView id h) | None => Err HANDOFF_UNAVAILABLE end
  | inr k =>
      match List.find (λ kh, in_scope p projectId kh.2 && bool_decide (h_key (h_origin kh.2) = toLowerCase k)) (map_to_list (handoffs w)) with
      | Some (id, h) => Ok (publicView id h)
      | None => Err HANDOFF_UNAVAILABLE
      end
  end.

(** What staff may see: requests of live projects that still belong to the
    client the request was made for. *)
Record filters := Filters { f_project : option string; f_client : option string; f_status : option status; f_owner : option string }.
Definition no_filters : filters := Filters None None None None.
Definition matches {A} `{EqDecision A} (f : option A) (x : A) : bool := match f with Some y => bool_decide (x = y) | None => true end.
(* src/src/services/portal-handoff.service.js:53-64 canonicalHandoffIds *)
Definition canonicalHandoff (w : world) (org : string) (f : filters) (h : handoff) : bool :=
  let o := h_origin h in
  bool_decide (h_org o = org) &&
  match projects w !! h_project o with Some p => canonical w (h_org o) (h_client o) p | None => false end &&
  matches (f_project f) (h_project o) && matches (f_client f) (h_client o) && matches (f_status f) (h_status h) &&
  match f_owner f with Some x => bool_decide (h_owner h = Some x) | None => true end.
(* src/src/services/portal-handoff.service.js:100-108 listStaffHandoffs *)
Definition listStaffHandoffs (w : world) (u : staff) (f : filters) (mine : bool) (limit : nat) (after : option string)
  : res (list (string * handoff) * option string) :=
  if negb (limit_ok limit) then Err INVALID_INPUT else
  a ← authorizeHandoffStaff w u;
  let f := Filters (f_project f) (f_client f) (f_status f) (if mine then Some (st_id a) else None) in
  let known := match after with Some id => bool_decide (is_Some (find_by_id id (canonicalHandoff w (st_org a) f) (handoffs w))) | None => true end in
  if negb known then Err HANDOFF_UNAVAILABLE
  else Ok (page limit after (λ _, canonicalHandoff w (st_org a) f) (handoffs w)).
(* src/src/services/portal-handoff.service.js:109-116 staffRecord *)
Definition staffRecord (w : world) (u : staff) (requestId : string) : res (staff * handoff) :=
  a ← authorizeHandoffStaff w u;
  if negb (id_ok requestId) then Err INVALID_INPUT
  else match find_by_id requestId (canonicalHandoff w (st_org a) no_filters) (handoffs w) with
       | Some h => Ok (a, h)
       | None => Err HANDOFF_UNAVAILABLE
       end.
(* src/src/services/portal-handoff.service.js:117-117 readStaffHandoff *)
Definition readStaffHandoff (w : world) (u : staff) (requestId : string) : res handoff := snd <$> staffRecord w u requestId.

(** ** The database's own rules *)

(* src/prisma/migrations/20261016110000_portal_human_handoffs/migration.sql:8-18 portal_handoff_requests *)
Definition row_check (h : handoff) : bool :=
  (0 <=? h_sessionVersion (h_origin h)) && (0 <? h_revision h) &&
  match h_status h, h_owner h, h_claimedAt h, h_resolvedAt h with
  | PENDING, None, None, None | CLAIMED, Some _, Some _, None | RESOLVED, Some _, Some _, Some _ => true
  | _, _, _, _ => false
  end.
Section database.
(** SHA-256 in hexadecimal. *)
Context (sha256 : string → string).
(* src/prisma/migrations/20261016110000_portal_human_handoffs/migration.sql:25-48 portal_handoff_guard *)
Definition portal_handoff_guard (w : world) (old : option handoff) (new : handoff) : bool :=
  let o := h_origin new in
  match projects w !! h_project o with Some p => canonical w (h_org o) (h_client o) p | None => false end &&
  match old with
  | None =>
      bool_decide (h_status new = PENDING) && (h_revision new =? 1) && bool_decide (h_changedBy new = h_requestedBy o) &&
      bool_decide (h_requeueReason new = None) &&
      match users w !! h_requestedBy o, contacts w !! h_contact o with
      | Some u, Some k =>
          bool_decide (toLowerCase (k_email k) = toLowerCase (u_email u)) && bool_decide (u_client u = Some (k_client k)) &&
          bool_decide (u_org u = h_org o) && bool_decide (u_client u = Some (h_client o)) && u_active u && bool_decide (u_role u = "CLIENT") &&
          (u_sessionVersion u =? h_sessionVersion o)
      | _, _ => false
      end && bool_decide (h_hash o = sha256 (h_question o))
  | Some old =>
      negb (bool_decide (h_status old = RESOLVED)) && bool_decide (o = h_origin old) && (h_revision new =? h_revision old + 1) &&
      match users w !! h_changedBy new with
      | None => false
      | Some actor =>
          u_active actor && bool_decide (u_org actor = h_org o) && staff_role (u_role actor) &&
          match h_status old, h_status new with
          | PENDING, CLAIMED => bool_decide (h_owner new = Some (h_changedBy new)) && bool_decide (h_requeueReason new = None)
          | CLAIMED, RESOLVED =>
              bool_decide (h_owner new = h_owner old) && bool_decide (h_claimedAt new = h_claimedAt old) && bool_decide (h_requeueReason new = None) &&
              (bool_decide (h_owner old = Some (h_changedBy new)) || bool_decide (u_role actor = "ADMIN"))
          | CLAIMED, PENDING =>
              bool_decide (u_role actor = "ADMIN") &&
              match h_requeueReason new with
              | None => false
              | Some r => negb (bool_decide (r = OWNER_UNAVAILABLE) &&
                            match h_owner old with Some x => bool_decide (is_Some (staff_user w x (h_org o))) | None => false end)
              end
          | _, _ => false
          end
      end
  end.
(** An insert or update: the trigger, the CHECKs and the unique index. *)
Definition same_intent (a b : origin) : bool :=
  bool_decide (h_org a = h_org b) && bool_decide (h_requestedBy a = h_requestedBy b) && bool_decide (h_contact a = h_contact b) && bool_decide (h_key a = h_key b).
Definition write_handoff (id : string) (h : handoff) : tx unit :=
  allowed ← gets (λ w, portal_handoff_guard w (handoffs w !! id) h && row_check h);
  conflict ← gets (λ w, existsb (λ kh, negb (bool_decide (kh.1 = id)) && same_intent (h_origin kh.2) (h_origin h)) (map_to_list (handoffs w)));
  if negb allowed then throw DatabaseRefused
  else if (conflict : bool) then throw HANDOFF_CONFLICT      (** P2002 *)
  else modify (set_handoff id h).

(** ** Writing *)

(** The clock, the id of a new row, and whether the audit event was recorded. *)
Record env := Env { e_now : Z; e_id : string; e_ok : bool }.
Definition record (e : env) (actor action id : string) (h : handoff) : tx unit :=
  if e_ok e then modify (add_audit (Audit action id actor (h_status h) (h_revision h))) else throw AUDIT_UNAVAILABLE.

(* src/src/services/portal-handoff.service.js:68-86 createPortalHandoff *)
Definition createPortalHandoff (e : env) (s : claims) (projectId question key : string) : tx (view * bool) :=
  if negb ((1 <=? String.length question)%nat && (String.length question <=? 2000)%nat) then throw INVALID_INPUT
  else transaction (
    p ← reads (λ w, portalScope w s projectId);
    let hash := sha256 question in
    existing ← gets (λ w, List.find (λ kh, of_principal p (h_origin kh.2) && bool_decide (h_key (h_origin kh.2) = key)) (map_to_list (handoffs w)));
    match existing with
    | Some (id, h) =>
        let o := h_origin h in
        if negb (bool_decide (h_project o = projectId) && bool_decide (h_hash o = hash) && bool_decide (h_question o = question)) then throw HANDOFF_CONFLICT
        else mret (publicView id h, true)
    | None =>
        taken ← gets (λ w, bool_decide (is_Some (handoffs w !! e_id e)));
        if (taken : bool) then throw HANDOFF_CONFLICT else
        let h := Handoff (Origin (pr_org p) (pr_client p) projectId (pr_user p) (pr_contact p) (pr_version p) question key hash (e_now e))
                   PENDING 1 None (pr_user p) None None None (e_now e) in
        _ ← write_handoff (e_id e) h;
        _ ← record e (pr_user p) "portal_handoff.requested" (e_id e) h;
        mret (publicView (e_id e) h, false)
    end).

Inductive operation := Claim | Resolve | Requeue (r : reason).
(** The row after an operation, or its refusal. *)
(* src/src/services/portal-handoff.service.js:123-136 transitionHandoff *)
Definition transition (w : world) (a : staff) (h : handoff) (op : operation) (now : Z) : res handoff :=
  let next st owner claimed resolved why := Handoff (h_origin h) st (h_revision h + 1) owner (st_id a) why claimed resolved now in
  match op with
  | Claim =>
      if negb (bool_decide (h_status h = PENDING)) then Err HANDOFF_CONFLICT
      else Ok (next CLAIMED (Some (st_id a)) (Some now) None None)
  | Resolve =>
      if negb (bool_decide (h_status h = CLAIMED)) || (negb (bool_decide (h_owner h = Some (st_id a))) && negb (bool_decide (st_role a = "ADMIN")))
      then Err HANDOFF_CONFLICT
      else Ok (next RESOLVED (h_owner h) (h_claimedAt h) (Some now) None)
  | Requeue why =>
      if negb (bool_decide (st_role a = "ADMIN")) then Err ROLE_DENIED
      else if negb (bool_decide (h_status h = CLAIMED)) then Err HANDOFF_CONFLICT
      else if bool_decide (why = OWNER_UNAVAILABLE) &&
              match h_owner h with Some x => bool_decide (is_Some (staff_user w x (st_org a))) | None => false end then Err HANDOFF_CONFLICT
      else Ok (next PENDING None None None (Some why))
  end.
Definition action_of (op : operation) : string :=
  match op with Claim => "portal_handoff.claimed" | Resolve => "portal_handoff.resolved" | Requeue _ => "portal_handoff.requeued" end.
(* src/src/services/portal-handoff.service.js:118-143 transitionHandoff *)
Definition transitionHandoff (e : env) (u : staff) (requestId : string) (op : operation) (revision : Z) : tx handoff :=
  if negb ((1 <=? revision) && (revision <=? 2147483646)) then throw INVALID_INPUT
  else transaction (
    ar ← reads (λ w, staffRecord w u requestId);
    let '(a, h) := ar in
    if negb (h_revision h =? revision) || bool_decide (h_status h = RESOLVED) then throw HANDOFF_CONFLICT
    else
      new ← reads (λ w, transition w a h op (e_now e));
      current ← gets (λ w, find_by_id requestId (λ r, bool_decide (h_org (h_origin r) = st_org a) && (h_revision r =? revision) &&
                                                     bool_decide (h_status r = h_status h)) (handoffs w));
      if bool_decide (current = None) then throw HANDOFF_CONFLICT
      else
        _ ← write_handoff requestId new;
        _ ← record e (st_id a) (action_of op) requestId new;
        mret new).
End database.
End Handoffs.
