(* ===== verification/HandoffLog.v ===== *)
(** * What becomes of a handoff request

    The operations of Handoffs.v against the database's own trigger, the log a
    request leaves, who can see it, and the pages it is listed in. *)

From S2P Require Import Prelude Store Pages TenantTables Tenancy Handoffs.
Import Tenancy.Tenancy(toLowerCase) Handoffs.Handoffs.

Module HandoffLog.

Section theory.
Context (sha256 : string → string).

(** ** Reading *)

Lemma guard_unless {A} (b : bool) (e : handoff_error) (r : res A) x : (if b then Err e else r) = Ok x → b = false ∧ r = Ok x.
Proof. by destruct b. Qed.

(** A session that resolves: the user, the contact and the client it is for. *)
Lemma resolve_ok w s p :
  resolvePortalPrincipal w s = Some p → ∃ u k c,
    users w !! pr_user p = Some u ∧ contacts w !! pr_contact p = Some k ∧ clients w !! pr_client p = Some c ∧
    pr_user p = s_id s ∧ pr_contact p = s_contact s ∧ pr_client p = s_client s ∧ pr_org p = c_org c ∧ pr_version p = u_sessionVersion u ∧
    u_org u = c_org c ∧ u_client u = Some (pr_client p) ∧ k_client k = pr_client p ∧ u_active u = true ∧ u_role u = "CLIENT" ∧
    toLowerCase (u_email u) = toLowerCase (k_email k) ∧ open_client c = true ∧ s_version s = Some (u_sessionVersion u).
Proof.
  unfold resolvePortalPrincipal. destruct (_ || _ || _ || _); [done|]. cbn zeta.
  destruct (users w !! s_id s) as [u|] eqn:Eu; [|done].
  destruct (u_active u && bool_decide (u_role u = "CLIENT") && bool_decide (u_client u = Some (s_client s))) eqn:E1; cbn [negb]; [|done].
  destruct (find_by_id (s_contact s) _ _) as [k|] eqn:Ek; [|done]. destruct (find_by_id (s_client s) _ _) as [c|] eqn:Ec; [|done].
  apply find_by_id_Some in Ek as [Ek Hk], Ec as [Ec Hc]. destruct (bool_decide (u_org u = c_org c)) eqn:E2; cbn [negb]; [|done].
  destruct (bool_decide (toLowerCase _ = _)) eqn:E3; cbn [negb]; [|done]. destruct (match s_org s with Some _ => _ | None => _ end); [done|].
  destruct (bool_decide (s_version s = _)) eqn:E4; cbn [negb]; [|done]. intros [= <-]. exists u, k, c. cbn. bool_simplify. done.
Qed.
Lemma portalScope_ok w s projectId p :
  portalScope w s projectId = Ok p → resolvePortalPrincipal w s = Some p ∧
    ∃ pr, projects w !! projectId = Some pr ∧ canonical w (pr_org p) (pr_client p) pr = true.
Proof.
  unfold portalScope. destruct (negb _); [done|]. destruct (resolvePortalPrincipal w s) as [p'|]; [|done].
  destruct (find_by_id projectId _ _) as [pr|] eqn:E; [|done]. intros [= ->]. apply find_by_id_Some in E as [Hpr Hc]. by split; [|exists pr].
Qed.
Lemma authorize_ok w u a :
  authorizeHandoffStaff w u = Ok a → ∃ row, staff_user w (st_id a) (st_org a) = Some row ∧ st_role a = u_role row ∧ st_id a = st_id u ∧ st_org a = st_org u.
Proof.
  unfold authorizeHandoffStaff. destruct (_ || _ || _); [done|]. destruct (staff_user w _ _) as [row|] eqn:E; [|done].
  intros [= <-]. by exists row.
Qed.
Lemma staff_user_ok w id org u :
  staff_user w id org = Some u ↔ users w !! id = Some u ∧ u_org u = org ∧ u_active u = true ∧ staff_role (u_role u) = true.
Proof.
  unfold staff_user. rewrite find_by_id_Some. split.
  - intros [Hu Hb]. by bool_simplify.
  - intros (Hu & <- & Ha & Hr). split; [done|]. by rewrite bool_decide_refl, Ha, Hr.
Qed.
Lemma staffRecord_ok w u id a h :
  staffRecord w u id = Ok (a, h) → authorizeHandoffStaff w u = Ok a ∧ handoffs w !! id = Some h ∧
    h_org (h_origin h) = st_org a ∧ ∃ p, projects w !! h_project (h_origin h) = Some p ∧ canonical w (h_org (h_origin h)) (h_client (h_origin h)) p = true.
Proof.
  unfold staffRecord. intros H. apply bind_ok in H as (a' & Ha & H). destruct (negb _); [done|].
  destruct (find_by_id id _ _) as [h'|] eqn:E; [|done]. injection H as -> ->. apply find_by_id_Some in E as [Hh Hc].
  unfold canonicalHandoff in Hc. bool_simplify. split_and!; try done. destruct (projects w !! _) as [p|]; [|done]. by exists p.
Qed.

(** ** Writing *)

(** The invariant of the rows, with the users' session versions. *)
Definition rows_ok (w : world) : Prop :=
  (∀ id h, handoffs w !! id = Some h → row_check h = true) ∧ (∀ id u, users w !! id = Some u → 0 ≤ u_sessionVersion u).

Lemma transition_ok w a row h op now new :
  staff_user w (st_id a) (st_org a) = Some row → st_role a = u_role row → h_org (h_origin h) = st_org a → row_check h = true →
  (∃ p, projects w !! h_project (h_origin h) = Some p ∧ canonical w (h_org (h_origin h)) (h_client (h_origin h)) p = true) →
  h_status h ≠ RESOLVED → transition w a h op now = Ok new →
  portal_handoff_guard sha256 w (Some h) new = true ∧ row_check new = true ∧ h_origin new = h_origin h ∧ h_revision new = h_revision h + 1.
Proof.
  intros Hrow Hrole Horg Hcheck (p & Hp & Hcan) Hres H. apply staff_user_ok in Hrow as (Hu & Huo & Hua & Hur).
  unfold row_check in Hcheck. apply andb_true_iff in Hcheck as [Hcheck Hst]. apply andb_true_iff in Hcheck as [Hsv Hrev%Z.ltb_lt].
  unfold portal_handoff_guard, row_check.
  destruct op as [| |why]; cbn in H.
  - destruct (bool_decide (h_status h = PENDING)) eqn:E; [|done]. injection H as <-. apply bool_decide_eq_true in E.
    cbn. rewrite Hp, Hcan, Hu, Hua, Hur, E, Huo, Horg, Hsv, !bool_decide_refl, Z.eqb_refl. split_and!; [done| |done|done].
    by rewrite (proj2 (Z.ltb_lt _ _)) by lia.
  - destruct (_ || _) eqn:E; [done|]. injection H as <-. apply orb_false_iff in E as [E1%negb_false_iff%bool_decide_eq_true E2].
    rewrite E1 in Hst. destruct (h_owner h) as [owner|] eqn:Eo; [|done]. destruct (h_claimedAt h) eqn:Ec; [|done]. destruct (h_resolvedAt h); [done|].
    cbn. rewrite Hp, Hcan, Hu, Hua, Hur, E1, Huo, Horg, Hsv, ?Eo, ?Ec, !bool_decide_refl, Z.eqb_refl. split_and!; [|by rewrite (proj2 (Z.ltb_lt _ _)) by lia|done|done].
    cbn. rewrite <-Hrole. apply andb_false_iff in E2 as [E2%negb_false_iff|E2%negb_false_iff]; rewrite E2; [done|apply orb_true_r].
  - destruct (bool_decide (st_role a = "ADMIN")) eqn:E1; [|done]. cbn in H. destruct (bool_decide (h_status h = CLAIMED)) eqn:E2; [|done]. cbn in H.
    destruct (_ && _) eqn:E3; [done|]. injection H as <-. apply bool_decide_eq_true in E2. rewrite Hrole in E1.
    cbn. rewrite Hp, Hcan, Hu, Hua, Hur, E2, Huo, Horg, Hsv, E1, !bool_decide_refl, Z.eqb_refl. cbn.
    split_and!; [by rewrite E3|by rewrite (proj2 (Z.ltb_lt _ _)) by lia|done|done].
Qed.

Lemma committed {A} (m : tx A) w a w' : transaction m w = (Ok a, w') → m w = (Ok a, w').
Proof. apply transaction_ok. Qed.
Lemma write_ok id h w u w' :
  write_handoff sha256 id h w = (Ok u, w') → w' = set_handoff id h w ∧
    ∀ id' h', handoffs w !! id' = Some h' → same_intent (h_origin h') (h_origin h) = true → id' = id.
Proof.
  unfold write_handoff. cbv [mbind eff_bind gets modify throw]. destruct (negb _); [done|]. destruct (existsb _ _) eqn:E; [done|]. intros [= _ <-].
  split; [done|]. intros id' h' Hh Hs. destruct (decide (id' = id)) as [->|Hne]; [done|]. exfalso. apply not_true_iff_false in E. apply E.
  apply existsb_exists. exists (id', h'). split; [by apply list_elem_of_In, elem_of_map_to_list|]. cbn. by rewrite bool_decide_neq, Hs.
Qed.
Lemma write_allowed id h w :
  portal_handoff_guard sha256 w (handoffs w !! id) h && row_check h = true → (write_handoff sha256 id h w).1 ≠ Err DatabaseRefused.
Proof. intros H. unfold write_handoff. cbv [mbind eff_bind gets modify throw]. rewrite H. cbn [negb]. by destruct (existsb _ _). Qed.

(** The row an operation makes, with the audit event of it. *)
Definition new_request (e : env) (p : principal) (projectId question k : string) : handoff :=
  Handoff (Origin (pr_org p) (pr_client p) projectId (pr_user p) (pr_contact p) (pr_version p) question k (sha256 question) (e_now e))
    PENDING 1 None (pr_user p) None None None (e_now e).
Definition recorded (actor action id : string) (h : handoff) (w : world) : world :=
  add_audit (Audit action id actor (h_status h) (h_revision h)) (set_handoff id h w).
Lemma record_ok e actor action id h w u w' :
  record e actor action id h w = (Ok u, w') → w' = add_audit (Audit action id actor (h_status h) (h_revision h)) w.
Proof. unfold record. destruct (e_ok e); [|done]. by intros [= _ <-]. Qed.

Lemma new_request_allowed w s projectId p e question k :
  rows_ok w → portalScope w s projectId = Ok p →
  portal_handoff_guard sha256 w None (new_request e p projectId question k) && row_check (new_request e p projectId question k) = true.
Proof.
  intros [_ Hv] (Hp & pr & Hpr & Hcan)%portalScope_ok.
  apply resolve_ok in Hp as (u & kc & c & Hu & Hk & Hc & _ & _ & _ & Horg & Hver & Huo & Huc & Hkc & Hact & Hrole & Hmail & _ & _).
  unfold portal_handoff_guard, row_check. cbn. rewrite Hpr, Hcan, Hu, Hk, Hmail, Huc, Hkc, Huo, Horg, Hact, Hrole, Hver, !bool_decide_refl, Z.eqb_refl.
  cbn. rewrite !andb_true_r. apply Z.leb_le. by eapply Hv.
Qed.

(** What an accepted transition did. *)
Lemma transition_step e u id op revision w new w' :
  transitionHandoff sha256 e u id op revision w = (Ok new, w') → ∃ a h,
    staffRecord w u id = Ok (a, h) ∧ h_revision h = revision ∧ h_status h ≠ RESOLVED ∧ transition w a h op (e_now e) = Ok new ∧
    w' = recorded (st_id a) (action_of op) id new w.
Proof.
  unfold transitionHandoff. destruct (negb _); [done|]. intros H%committed.
  apply eff_bind_ok in H as ([a h] & w1 & Hr & H). injection Hr as Hr <-. destruct (_ || _) eqn:E; [done|].
  apply orb_false_iff in E as [E1%negb_false_iff%Z.eqb_eq E2%bool_decide_eq_false].
  apply eff_bind_ok in H as (new' & w1 & Ht & H). injection Ht as Ht <-.
  apply eff_bind_ok in H as (cur & w1 & Hcur & H). injection Hcur as _ <-. destruct (bool_decide _); [done|].
  apply eff_bind_ok in H as (u1 & w1 & Hw & H). apply write_ok in Hw as [-> _].
  apply eff_bind_ok in H as (u2 & w2 & Hrec & H). apply record_ok in Hrec as ->. injection H as <- <-. by exists a, h.
Qed.
Lemma create_step e s projectId question k w v fresh w' :
  createPortalHandoff sha256 e s projectId question k w = (Ok (v, fresh), w') → ∃ p, portalScope w s projectId = Ok p ∧
    if (fresh : bool) then w' = w ∧ ∃ id h, handoffs w !! id = Some h ∧ in_scope p projectId h = true ∧ h_key (h_origin h) = k ∧
         h_question (h_origin h) = question ∧ v = publicView id h
    else handoffs w !! e_id e = None ∧ v = publicView (e_id e) (new_request e p projectId question k) ∧
         (∀ id h, handoffs w !! id = Some h → same_intent (h_origin h) (h_origin (new_request e p projectId question k)) = false) ∧
         w' = recorded (pr_user p) "portal_handoff.requested" (e_id e) (new_request e p projectId question k) w.
Proof.
  unfold createPortalHandoff. destruct (negb _); [done|]. intros H%committed.
  apply eff_bind_ok in H as (p & w1 & Hp & H). injection Hp as Hp <-. exists p. split; [done|].
  apply eff_bind_ok in H as (ex & w1 & He & H). injection He as He <-. destruct ex as [[id h]|].
  - destruct (negb _) eqn:E; [done|]. injection H as <- <- <-. split; [done|]. apply find_some in He as [Hin Hb].
    apply list_elem_of_In, elem_of_map_to_list in Hin. cbn in Hb. bool_simplify. exists id, h. unfold in_scope. cbn.
    rewrite bool_decide_eq_true_2 by done. split_and!; [done|by rewrite andb_true_r|done..].
  - apply eff_bind_ok in H as (tk & w1 & Htk & H). injection Htk as Htk <-. destruct tk; [done|]. cbn zeta in H.
    apply eff_bind_ok in H as (u1 & w1 & Hw & H). apply write_ok in Hw as [-> Huniq].
    apply eff_bind_ok in H as (u2 & w2 & Hrec & H). apply record_ok in Hrec as ->. injection H as <- <- <-.
    apply bool_decide_eq_false, eq_None_not_Some in Htk as Hnone.
    split_and!; [done|done| |done]. intros id h Hh. apply not_true_iff_false. intros Hs. pose proof (Huniq id h Hh Hs). congruence.
Qed.

(** Refusals that do not come from the database. *)
Lemma transaction_fst {A} (m : tx A) w : (transaction m w).1 = (m w).1.
Proof. unfold transaction. by destruct (m w) as [[a|er] w']. Qed.
Lemma portalScope_errors w s projectId : portalScope w s projectId ≠ Err DatabaseRefused.
Proof. unfold portalScope. destruct (negb _); [done|]. destruct (resolvePortalPrincipal w s); [|done]. by destruct (find_by_id _ _ _). Qed.
Lemma authorize_errors w u : authorizeHandoffStaff w u ≠ Err DatabaseRefused.
Proof. unfold authorizeHandoffStaff. destruct (_ || _ || _); [done|]. by destruct (staff_user _ _ _). Qed.
Lemma staffRecord_errors w u id : staffRecord w u id ≠ Err DatabaseRefused.
Proof.
  unfold staffRecord. intros [Ha|(a & _ & H)]%bind_err; [by apply authorize_errors in Ha|]. destruct (negb _); [done|]. by destruct (find_by_id _ _ _).
Qed.
Lemma transition_errors w a h op now : transition w a h op now ≠ Err DatabaseRefused.
Proof. destruct op; cbn; repeat case_match; congruence. Qed.

(** ** Histories *)

Definition set_people (us : gmap string user) (ks : gmap string contact) (cs : gmap string client) (ps : gmap string project) (w : world) : world :=
  World us ks cs ps (handoffs w) (audits w).
Inductive step (w : world) : world → Prop :=
  | step_create e s projectId question k : step w (createPortalHandoff sha256 e s projectId question k w).2
  | step_transition e u id op revision : step w (transitionHandoff sha256 e u id op revision w).2
  | step_people us ks cs ps : (∀ id u, us !! id = Some u → 0 ≤ u_sessionVersion u) → step w (set_people us ks cs ps w).
Definition starts (w : world) : Prop := handoffs w = ∅ ∧ audits w = [] ∧ ∀ id u, users w !! id = Some u → 0 ≤ u_sessionVersion u.

(** What is recorded of one request, and the machine it is a run of. *)
Definition log (id : string) (w : world) : list audit := List.filter (λ a, bool_decide (e_request a = id)) (audits w).
Inductive machine := Unborn | In (st : status) (owner : option string).
Definition next (m : machine) (a : audit) : option machine :=
  match m, e_status a with
  | Unborn, PENDING => if bool_decide (e_action a = "portal_handoff.requested") then Some (In PENDING None) else None
  | In PENDING _, CLAIMED => if bool_decide (e_action a = "portal_handoff.claimed") then Some (In CLAIMED (Some (e_actor a))) else None
  | In CLAIMED owner, RESOLVED => if bool_decide (e_action a = "portal_handoff.resolved") then Some (In RESOLVED owner) else None
  | In CLAIMED _, PENDING => if bool_decide (e_action a = "portal_handoff.requeued") then Some (In PENDING None) else None
  | _, _ => None
  end.
Definition replay (l : list audit) : option machine := foldl (λ m a, m ≫= λ m, next m a) (Some Unborn) l.

Record inv (w : world) : Prop := {
  inv_rows : rows_ok w;
  inv_unique id id' h h' : handoffs w !! id = Some h → handoffs w !! id' = Some h' → same_intent (h_origin h) (h_origin h') = true → id = id';
  inv_log id : match handoffs w !! id with
               | Some h => replay (log id w) = Some (In (h_status h) (h_owner h)) ∧ e_revision <$> log id w = seqZ 1 (h_revision h)
               | None => log id w = []
               end
}.

Lemma log_recorded id' actor action id h w :
  log id' (recorded actor action id h w) =
    log id' w ++ (if decide (id = id') then [Audit action id actor (h_status h) (h_revision h)] else []).
Proof.
  unfold log, recorded, add_audit, set_handoff. cbn. rewrite List.filter_app. f_equal. cbn. case_decide as E.
  - by rewrite bool_decide_eq_true_2.
  - by rewrite bool_decide_eq_false_2.
Qed.
Lemma seqZ_snoc n : 0 ≤ n → seqZ 1 (n + 1) = seqZ 1 n ++ [n + 1].
Proof. intros Hn. rewrite seqZ_app by lia. f_equal. rewrite (seqZ_cons (1 + n)) by lia. rewrite Z.add_comm. by rewrite seqZ_nil by lia. Qed.
Lemma same_intent_comm a b : same_intent a b = same_intent b a.
Proof. unfold same_intent. repeat f_equal; apply bool_decide_ext; split; congruence. Qed.

(** A recorded write keeps the invariant. *)
Lemma inv_recorded w actor action id h :
  inv w → row_check h = true →
  (∀ id' h', handoffs w !! id' = Some h' → id' ≠ id → same_intent (h_origin h') (h_origin h) = false) →
  match handoffs w !! id with
  | Some old => h_revision h = h_revision old + 1 ∧ next (In (h_status old) (h_owner old)) (Audit action id actor (h_status h) (h_revision h)) = Some (In (h_status h) (h_owner h))
  | None => h_revision h = 1 ∧ next Unborn (Audit action id actor (h_status h) (h_revision h)) = Some (In (h_status h) (h_owner h))
  end → inv (recorded actor action id h w).
Proof.
  intros [[Hrows Hv] Huniq Hlog] Hcheck Hfresh Hnext. split.
  - split; [|exact Hv]. intros id' h'. cbn. rewrite lookup_insert_Some. intros [[<- <-]|[_ Hh]]; [done|by eapply Hrows].
  - intros id1 id2 h1 h2. cbn. rewrite !lookup_insert_Some. intros [[<- <-]|[Hn1 H1]] [[<- <-]|[Hn2 H2]] Hs; [done| | |by eapply Huniq].
    + rewrite same_intent_comm, (Hfresh id2 h2) in Hs; done.
    + rewrite (Hfresh id1 h1) in Hs; done.
  - intros id'. rewrite log_recorded. specialize (Hlog id'). cbn. case_decide as E.
    + subst id'. rewrite lookup_insert_eq. destruct (handoffs w !! id) as [old|] eqn:Eold.
      * destruct Hlog as [Hr Hseq], Hnext as [Hrev Hnext]. split; [unfold replay in *; rewrite foldl_app, Hr; exact Hnext|].
        rewrite fmap_app, Hseq, Hrev. cbn. symmetry. apply seqZ_snoc. specialize (Hrows id old Eold). unfold row_check in Hrows. bool_simplify. lia.
      * rewrite Hlog. destruct Hnext as [Hrev Hnext]. split; [exact Hnext|]. cbn. by rewrite Hrev.
    + rewrite lookup_insert_ne, app_nil_r by done. done.
Qed.

Lemma eff_result {A} (m : tx A) w : (∃ er, (m w).1 = Err er) ∨ ∃ a w', m w = (Ok a, w').
Proof. destruct (m w) as [[a|er] w']; [right; by exists a, w'|left; by exists er]. Qed.
Lemma create_refused e s projectId question k w er w' :
  createPortalHandoff sha256 e s projectId question k w = (Err er, w') → w' = w.
Proof. unfold createPortalHandoff. destruct (negb _); [by intros [= _ ->]|]. apply transaction_err. Qed.
Lemma transition_refused e u id op revision w er w' :
  transitionHandoff sha256 e u id op revision w = (Err er, w') → w' = w.
Proof. unfold transitionHandoff. destruct (negb _); [by intros [= _ ->]|]. apply transaction_err. Qed.

Lemma transition_next w a h op now new :
  transition w a h op now = Ok new → h_status h ≠ RESOLVED →
  next (In (h_status h) (h_owner h)) (Audit (action_of op) "" (st_id a) (h_status new) (h_revision new)) = Some (In (h_status new) (h_owner new)).
Proof.
  intros H _. destruct op as [| |why]; cbn in H.
  - destruct (bool_decide (h_status h = PENDING)) eqn:E; [|done]. injection H as <-. by apply bool_decide_eq_true in E as ->.
  - destruct (_ || _) eqn:E; [done|]. injection H as <-. by apply orb_false_iff in E as [->%negb_false_iff%bool_decide_eq_true _].
  - destruct (negb _); [done|]. destruct (bool_decide (h_status h = CLAIMED)) eqn:E; [|done]. cbn in H. destruct (_ && _); [done|]. injection H as <-.
    by apply bool_decide_eq_true in E as ->.
Qed.

Lemma handoff_step w w' : inv w → step w w' → inv w'.
Proof.
  intros HI [e s projectId question k|e u id op revision|us ks cs ps Hv].
  - destruct (createPortalHandoff sha256 e s projectId question k w) as [[[v fresh]|er] w1] eqn:E; [|by apply create_refused in E as ->].
    apply create_step in E as (p & Hp & E). destruct fresh; [by destruct E as [-> _]|]. destruct E as (Hnone & _ & Huniq & ->).
    pose proof (new_request_allowed w s projectId p e question k (inv_rows _ HI) Hp) as [_ Hcheck]%andb_true_iff.
    apply inv_recorded; [done|done|intros id' h' Hh _; by eapply Huniq|]. rewrite Hnone. done.
  - destruct (transitionHandoff sha256 e u id op revision w) as [[new|er] w1] eqn:E; [|by apply transition_refused in E as ->].
    apply transition_step in E as (a & h & Hr & _ & Hres & Ht & ->). apply staffRecord_ok in Hr as (Ha & Hh & Horg & Hp).
    apply authorize_ok in Ha as (row & Hrow & Hrole & _). pose proof (proj1 (inv_rows _ HI) id h Hh) as Hcheck.
    destruct (transition_ok _ _ _ _ _ _ _ Hrow Hrole Horg Hcheck Hp Hres Ht) as (_ & Hcheck' & Ho & Hrev).
    apply inv_recorded; [done|done| |rewrite Hh; split; [done|by eapply (transition_next w)]].
    intros id' h' Hh' Hne. apply not_true_iff_false. intros Hs. rewrite Ho in Hs. by pose proof (inv_unique _ HI _ _ _ _ Hh' Hh Hs).
  - destruct HI as [[Hrows _] Huniq Hlog]. by split; [split|..].
Qed.
Lemma handoff_reachable w w' : starts w → rtc step w w' → inv w'.
Proof.
  intros (Hh & Ha & Hv) H. assert (inv w) as HI.
  { split; rewrite ?Hh; [split; [intros *; by rewrite Hh, lookup_empty|done]|intros *; by rewrite lookup_empty|].
    intros id. rewrite lookup_empty. unfold log. by rewrite Ha. }
  clear Hh Ha Hv. induction H; [done|]. by eauto using handoff_step.
Qed.

(** ** Properties *)

(** The service never writes what the database forbids: in any
    state whose rows satisfy the table's CHECKs, no creation and no transition
    is refused by the trigger or by a CHECK, whoever asks for what. *)
Lemma service_writes_allowed w e s projectId question k u id op revision :
  rows_ok w →
  (createPortalHandoff sha256 e s projectId question k w).1 ≠ Err DatabaseRefused ∧
  (transitionHandoff sha256 e u id op revision w).1 ≠ Err DatabaseRefused.
Proof.
  intros Hok. split.
  - unfold createPortalHandoff. destruct (negb _); [done|]. rewrite transaction_fst.
    unfold reads. cbv [mbind eff_bind gets]. destruct (portalScope w s projectId) as [p|er] eqn:Hp; [|intros [= ->]; by apply portalScope_errors in Hp].
    destruct (List.find _ _) as [[id' h']|]; [by destruct (negb _)|].
    destruct (bool_decide (is_Some (handoffs w !! e_id e))) eqn:Htaken; [done|]. apply bool_decide_eq_false, eq_None_not_Some in Htaken.
    pose proof (write_allowed (e_id e) (new_request e p projectId question k) w) as Hw. rewrite Htaken in Hw.
    specialize (Hw (new_request_allowed w s projectId p e question k Hok Hp)). unfold new_request in Hw.
    destruct (write_handoff _ _ _ w) as [[u1|er] w1]; [|cbn in *; congruence]. unfold record. by destruct (e_ok e).
  - unfold transitionHandoff. destruct (negb _); [done|]. rewrite transaction_fst.
    unfold reads. cbv [mbind eff_bind gets]. destruct (staffRecord w u id) as [[a h]|er] eqn:Hr; [|intros [= ->]; by apply staffRecord_errors in Hr].
    destruct (_ || _) eqn:E; [done|]. apply orb_false_iff in E as [_ Hres%bool_decide_eq_false].
    destruct (transition w a h op (e_now e)) as [new|er] eqn:Ht; [|intros [= ->]; by apply transition_errors in Ht].
    destruct (bool_decide _); [done|]. apply staffRecord_ok in Hr as (Ha & Hh & Horg & Hp). apply authorize_ok in Ha as (row & Hrow & Hrole & _).
    destruct (transition_ok _ _ _ _ _ _ _ Hrow Hrole Horg (proj1 Hok id h Hh) Hp Hres Ht) as (Hg & Hc & _).
    pose proof (write_allowed id new w) as Hw. rewrite Hh, Hg, Hc in Hw. specialize (Hw eq_refl).
    destruct (write_handoff _ _ _ w) as [[u1|er] w1]; [|cbn in *; congruence]. unfold record. by destruct (e_ok e).
Qed.

(** C19 (invariant): whatever contacts, staff and administrators do, in any
    order, the audit log of each request is a run of the machine of its states:
    requested, then claimed, resolved or requeued, with each revision recorded
    exactly once and in order (so of two operations on one revision at most one
    succeeds), ending in the row's own status and owner, and a resolved request
    never moves again; and one contact's key names one request. *)
Theorem handoff_log w0 w id h :
  starts w0 → rtc step w0 w → handoffs w !! id = Some h →
  replay (log id w) = Some (In (h_status h) (h_owner h)) ∧ e_revision <$> log id w = seqZ 1 (h_revision h) ∧
  row_check h = true ∧
  (∀ id' h', handoffs w !! id' = Some h' → same_intent (h_origin h) (h_origin h') = true → id = id') ∧
  (h_status h = RESOLVED → ∀ w', rtc step w w' → handoffs w' !! id = Some h).
Proof.
  intros Hs Hr Hh. pose proof (handoff_reachable _ _ Hs Hr) as HI. pose proof (inv_log _ HI id) as Hlog. rewrite Hh in Hlog.
  destruct Hlog as [Hm Hrev]. split_and!; [done|done|by eapply inv_rows|intros id' h'; by apply (inv_unique _ HI)|].
  intros Hres w' Hw. clear Hm Hrev. clear Hs Hr w0. induction Hw as [|w w1 w2 H1 _ IH]; [done|]. pose proof (handoff_step _ _ HI H1) as HI1. apply IH; [|done].
  destruct H1 as [e s projectId question k|e u id' op revision|us ks cs ps Hv]; [| |done].
  - destruct (createPortalHandoff sha256 e s projectId question k w) as [[[v fresh]|er] w1] eqn:E; [|by apply create_refused in E as ->].
    apply create_step in E as (p & _ & E). destruct fresh; [by destruct E as [-> _]|]. destruct E as (Hnone & _ & _ & ->).
    cbn. by rewrite lookup_insert_ne by congruence.
  - destruct (transitionHandoff sha256 e u id' op revision w) as [[new|er] w1] eqn:E; [|by apply transition_refused in E as ->].
    apply transition_step in E as (a & h' & Hr & _ & Hne & _ & ->). apply staffRecord_ok in Hr as (_ & Hh' & _).
    cbn. by rewrite lookup_insert_ne by congruence.
Qed.

(** A request as the contact behind a session may see it. *)
Definition own_request (w : world) (s : claims) (projectId : string) (v : view) : Prop :=
  ∃ h u, handoffs w !! v_id v = Some h ∧ v = publicView (v_id v) h ∧ h_project (h_origin h) = projectId ∧
    h_requestedBy (h_origin h) = s_id s ∧ h_contact (h_origin h) = s_contact s ∧ h_client (h_origin h) = s_client s ∧
    users w !! s_id s = Some u ∧ u_active u = true ∧ u_role u = "CLIENT" ∧ u_org u = h_org (h_origin h) ∧
    s_version s = Some (u_sessionVersion u) ∧ ∃ c, clients w !! s_client s = Some c ∧ open_client c = true.
Lemma in_scope_own w s projectId p id h :
  portalScope w s projectId = Ok p → handoffs w !! id = Some h → in_scope p projectId h = true → own_request w s projectId (publicView id h).
Proof.
  intros (Hp & _)%portalScope_ok Hh Hin. unfold in_scope, of_principal in Hin. bool_simplify.
  apply resolve_ok in Hp as (u & k & c & Hu & _ & Hc & E1 & E2 & E3 & E4 & _ & Huo & _ & _ & Ha & Hrole & _ & Hopen & Hv).
  exists h, u. cbn. split_and!; try congruence. exists c. split; [congruence|done].
Qed.

(** The portal shows a contact its own requests only: everything a
    session lists, reads or gets back from asking again is a request of that
    very user, contact, client and project, in the user's organization, while
    the user is active, the session current and the client open; any other
    session learns nothing. *)
Lemma portal_shows_own_requests w s projectId :
  (∀ limit after items next v, listPortalHandoffs w s projectId limit after = Ok (items, next) → v ∈ items → own_request w s projectId v) ∧
  (∀ sel v, readPortalHandoff w s projectId sel = Ok v → own_request w s projectId v) ∧
  (∀ e question k v fresh w', createPortalHandoff sha256 e s projectId question k w = (Ok (v, fresh), w') → own_request w' s projectId v).
Proof.
  split_and!.
  - intros limit after items next v H Hv. unfold listPortalHandoffs in H. destruct (negb _); [done|]. apply bind_ok in H as (p & Hp & H).
    destruct (negb _); [done|]. destruct (page _ _ _ _) as [rows c] eqn:E. injection H as <- <-.
    apply list_elem_of_fmap in Hv as ([id h] & -> & Hin). assert ((id, h) ∈ listed (λ id h, in_scope p projectId h && beyond after id) (handoffs w)) as Hl.
    { injection E as <- _. apply elem_of_take in Hin as (i & Hi%list_elem_of_lookup_2 & _). by apply elem_of_take in Hi as (j & Hj%list_elem_of_lookup_2 & _). }
    apply (elem_of_listed _ _ (id, h)) in Hl as [Hh Hs]. cbn in Hs. apply andb_true_iff in Hs as [Hs _]. by eapply in_scope_own.
  - intros [id|k] v H; unfold readPortalHandoff in H; apply bind_ok in H as (p & Hp & H).
    + destruct (negb _); [done|]. destruct (find_by_id id _ _) as [h|] eqn:E; [|done]. injection H as <-. apply find_by_id_Some in E as [Hh Hs].
      by eapply in_scope_own.
    + destruct (List.find _ _) as [[id h]|] eqn:E; [|done]. injection H as <-. apply find_some in E as [Hin Hs].
      apply list_elem_of_In, elem_of_map_to_list in Hin. cbn in Hs. apply andb_true_iff in Hs as [Hs _]. by eapply in_scope_own.
  - intros e question k v fresh w' H. apply create_step in H as (p & Hp & H). destruct fresh.
    + destruct H as (-> & id & h & Hh & Hs & _ & _ & ->). by eapply in_scope_own.
    + destruct H as (_ & -> & _ & ->). eapply in_scope_own; [exact Hp|apply lookup_insert_eq|].
      unfold in_scope, of_principal. cbn. by rewrite !bool_decide_refl.
Qed.

(** Asking again with the same key changes nothing and answers
    the same request; the same key with another question or project is a
    conflict, never a second request. *)
Lemma createPortalHandoff_idempotent w0 w e e' s projectId question k v w' projectId' question' :
  starts w0 → rtc step w0 w → createPortalHandoff sha256 e s projectId question k w = (Ok (v, false), w') →
  createPortalHandoff sha256 e' s projectId question k w' = (Ok (v, true), w') ∧
  ((projectId', question') ≠ (projectId, question) →
   is_ok (createPortalHandoff sha256 e' s projectId' question' k w').1 = false ∧ (createPortalHandoff sha256 e' s projectId' question' k w').2 = w').
Proof.
  intros Hs Hr H. assert (step w w') as Hstep by (change w' with (Ok (E := handoff_error) (v, false), w').2; rewrite <-H; constructor).
  pose proof (handoff_step _ _ (handoff_reachable _ _ Hs Hr) Hstep) as HI. pose proof H as H'.
  apply create_step in H as (p & Hp & Hnone & -> & _ & ->). set (h := new_request e p projectId question k) in *. set (w' := recorded _ _ _ h w) in *.
  assert (∀ pid, portalScope w' s pid = portalScope w s pid) as Hscope by done.
  assert (handoffs w' !! e_id e = Some h) as Hh by apply lookup_insert_eq.
  assert (List.find (λ kh, of_principal p (h_origin kh.2) && bool_decide (h_key (h_origin kh.2) = k)) (map_to_list (handoffs w')) = Some (e_id e, h)) as Hfind.
  { destruct (List.find _ _) as [[id1 h1]|] eqn:E.
    - apply find_some in E as [Hin Hb]. apply list_elem_of_In, elem_of_map_to_list in Hin. cbn in Hb. unfold of_principal in Hb. bool_simplify.
      assert (id1 = e_id e) as ->; [|congruence]. apply (inv_unique _ HI id1 (e_id e) h1 h Hin Hh). unfold same_intent. cbn.
      by rewrite !bool_decide_eq_true_2 by congruence.
    - exfalso. assert ((e_id e, h) ∈ map_to_list (handoffs w')) as Hin by by apply elem_of_map_to_list.
      apply list_elem_of_In in Hin. pose proof (find_none _ _ E _ Hin) as Hb. cbn in Hb. unfold of_principal in Hb. cbn in Hb. by rewrite !bool_decide_refl in Hb. }
  split.
  - unfold createPortalHandoff in *. destruct (negb _); [done|]. unfold transaction, reads. cbv [mbind eff_bind gets]. rewrite Hscope, Hp, Hfind. cbn.
    by rewrite !bool_decide_refl.
  - intros Hne. unfold createPortalHandoff. destruct (negb _); [done|]. unfold transaction, reads. cbv [mbind eff_bind gets].
    destruct (portalScope w' s projectId') as [p'|er] eqn:Ep'; [|done]. rewrite Hscope in Ep'. apply portalScope_ok in Ep' as [Ep' _], Hp as [Hp _].
    rewrite Hp in Ep'. injection Ep' as <-. rewrite Hfind. cbn.
    destruct (bool_decide (projectId = projectId') && _ && _) eqn:E; [|done]. by bool_simplify.
Qed.

(** A contact who follows the cursors of the list gets every
    request of the project's scope exactly once, in the order of ids, and the
    reading ends, whatever the page size. *)
Lemma portal_pages_complete w s projectId p limit fuel :
  portalScope w s projectId = Ok p → limit_ok limit = true → (size (handoffs w) < fuel)%nat →
  walk fuel (listPortalHandoffs w s projectId limit) None =
    Some ((λ kh, publicView kh.1 kh.2) <$> listed (λ _, in_scope p projectId) (handoffs w)).
Proof.
  intros Hp Hlimit Hfuel. apply (walk_pages _ _ limit); [unfold limit_ok in Hlimit; bool_simplify; by apply Nat.leb_le| |exact Hfuel].
  intros after Hafter. unfold listPortalHandoffs. rewrite Hlimit. cbn [negb]. rewrite Hp. cbv [mbind result_bind].
  destruct (page _ _ _ _) as [rows next] eqn:E. cbn [fst snd].
  destruct after as [id|]; [|done]. destruct (Hafter id eq_refl) as (h & Hh & Hs).
  assert (find_by_id id (in_scope p projectId) (handoffs w) = Some h) as -> by by apply find_by_id_Some. done.
Qed.
End theory.

(** ** Examples *)

Definition demo_people : world :=
  World {["u" := User "org" "a@x.test" "CLIENT" (Some "c") true 3; "t" := User "org" "t@x.test" "TEAM" None true 0;
          "b" := User "org" "b@x.test" "ADMIN" None true 0]}
    {["k" := Contact "A@x.test" "c"]} {["c" := Client "org" false "ACTIVE" "ACTIVE"]} {["p" := Project "org" (Some "c") false]} ∅ [].
Definition demo_claims : claims := Claims "u" "k" "c" "CLIENT" (Some "org") (Some 3).
Definition demo_env (now : Z) : env := Env now "h1" true.
Definition demo_create : tx (view * bool) := createPortalHandoff id (demo_env 10) demo_claims "p" "Please call" "key-1".
Definition demo_asked : world := (demo_create demo_people).2.
Definition demo_claimed : world := (transitionHandoff id (demo_env 20) (Staff "t" "org" "TEAM") "h1" Claim 1 demo_asked).2.
Definition demo_resolved : world := (transitionHandoff id (demo_env 30) (Staff "b" "org" "ADMIN") "h1" Resolve 2 demo_claimed).2.
(** Two members of staff on one revision: the second is refused. *)
Example demo_conflict :
  (transitionHandoff id (demo_env 21) (Staff "b" "org" "ADMIN") "h1" Claim 1 demo_claimed).1 = Err HANDOFF_CONFLICT.
Proof. vm_compute. done. Qed.
Lemma demo_versions : ∀ i u, users demo_people !! i = Some u → 0 ≤ u_sessionVersion u.
Proof.
  change (map_Forall (λ _ u, 0 ≤ u_sessionVersion u) (users demo_people)). apply map_Forall_to_list.
  apply (bool_decide_unpack _). vm_compute. exact I.
Qed.
Lemma demo_people_start : starts demo_people.
Proof. split_and!; [done..|apply demo_versions]. Qed.
Lemma demo_handoff_steps : rtc (step id) demo_people demo_resolved.
Proof. eapply rtc_l; [apply step_create|]. eapply rtc_l; [apply step_transition|]. eapply rtc_l; [apply step_transition|]. constructor. Qed.

Lemma service_writes_allowed_witness :
  rows_ok demo_claimed ∧ (transitionHandoff id (demo_env 30) (Staff "b" "org" "ADMIN") "h1" Resolve 2 demo_claimed).1 ≠ Err DatabaseRefused.
Proof.
  assert (rows_ok demo_claimed) as Hok.
  { split; [|apply demo_versions]. intros i h Hh. assert (handoffs demo_claimed = {["h1" := default (new_request id (demo_env 0) (Principal "" "" "" "" 0) "" "" "") (handoffs demo_claimed !! "h1")]}) as E by (vm_compute; reflexivity).
    rewrite E, lookup_singleton_Some in Hh. destruct Hh as [_ <-]. vm_compute. reflexivity. }
  split; [exact Hok|]. exact (proj2 (service_writes_allowed id demo_claimed (demo_env 30) demo_claims "p" "q" "k" (Staff "b" "org" "ADMIN") "h1" Resolve 2 Hok)).
Defined.
Lemma handoff_log_witness :
  ∃ h, handoffs demo_resolved !! "h1" = Some h ∧ h_status h = RESOLVED ∧ replay (log "h1" demo_resolved) = Some (In RESOLVED (Some "t")).
Proof.
  destruct (handoffs demo_resolved !! "h1") as [h|] eqn:E; [|vm_compute in E; discriminate].
  assert (h_status h = RESOLVED ∧ h_owner h = Some "t") as [Hst Ho] by (vm_compute in E; injection E as <-; done).
  exists h. split_and!; [done|exact Hst|]. rewrite <-Hst, <-Ho. exact (proj1 (handoff_log id demo_people demo_resolved "h1" h demo_people_start demo_handoff_steps E)).
Defined.
Lemma createPortalHandoff_idempotent_witness :
  ∃ v, demo_create demo_people = (Ok (v, false), demo_asked) ∧ demo_create demo_asked = (Ok (v, true), demo_asked) ∧
    is_ok (createPortalHandoff id (demo_env 11) demo_claims "p" "Something else" "key-1" demo_asked).1 = false.
Proof.
  exists (View "h1" "p" "Please call" PENDING 10 10). assert (demo_create demo_people = (Ok (View "h1" "p" "Please call" PENDING 10 10, false), demo_asked)) as H by (vm_compute; reflexivity).
  split; [exact H|]. split.
  - exact (proj1 (createPortalHandoff_idempotent id demo_people demo_people (demo_env 10) (demo_env 10) demo_claims "p" "Please call" "key-1" _ _ "p" "Please call" demo_people_start (rtc_refl _ _) H)).
  - apply (proj2 (createPortalHandoff_idempotent id demo_people demo_people (demo_env 10) (demo_env 11) demo_claims "p" "Please call" "key-1" _ _ "p" "Something else" demo_people_start (rtc_refl _ _) H)).
    congruence.
Defined.
Lemma portal_pages_complete_witness :
  walk 2 (listPortalHandoffs demo_asked demo_claims "p" 1) None = Some [View "h1" "p" "Please call" PENDING 10 10].
Proof.
  assert (portalScope demo_asked demo_claims "p" = Ok (Principal "u" "k" "c" "org" 3)) as Hp by (vm_compute; reflexivity).
  rewrite (portal_pages_complete demo_asked demo_claims "p" _ 1 2 Hp eq_refl); [|vm_compute; lia]. vm_compute. reflexivity.
Defined.
Lemma portal_shows_own_requests_witness :
  readPortalHandoff demo_asked demo_claims "p" (inr "KEY-1") = Ok (View "h1" "p" "Please call" PENDING 10 10) ∧
  own_request demo_asked demo_claims "p" (View "h1" "p" "Please call" PENDING 10 10).
Proof.
  assert (readPortalHandoff demo_asked demo_claims "p" (inr "KEY-1") = Ok (View "h1" "p" "Please call" PENDING 10 10)) as H by (vm_compute; reflexivity).
  split; [exact H|]. exact (proj1 (proj2 (portal_shows_own_requests id demo_asked demo_claims "p")) (inr "KEY-1") _ H).
Defined.
End HandoffLog.
