(* ===== verification/Audiences.v ===== *)
(** * Document audiences

    src/src/shared/document-audiences.js (who may read, edit and manage a
    document, composed over its path of ancestors), the loading of that path in
    src/src/services/note-access.service.js, and the knowledge pages' version in
    src/src/services/workspace-page-authorization.js.  Access metadata is JSON
    the database stores, so its malformed shapes are part of the model. *)

From S2P Require Import Prelude.

Module Audiences.

(** ** Data *)

Record grant := Grant { g_user : string; g_role : string }.

(** An id list of a barrier: null (everyone), a list, or anything else. *)
Inductive id_value := Everyone | Ids (l : list string) | NotIds.
(** A barrier that is not an object with at most the two known keys is [BadBarrier]. *)
Inductive barrier_value := Barrier (readers editors : id_value) | BadBarrier.

(** A node of a path; [n_grants] is [None] when the column holds no array. *)
Record node := Node {
  n_id : string; n_author : string; n_org : string; n_project : option string; n_parent : option string;
  n_mode : string; n_grants : option (list grant); n_barrier : option barrier_value
}.

Record actor := Actor { a_id : string; a_org : string; a_role : string; a_active : bool }.
Record rights := Rights { canRead : bool; canEdit : bool; canManage : bool }.

(* src/src/shared/document-audiences.js:4-4 denied *)
Definition denied : rights := Rights false false false.

(* src/src/shared/document-audiences.js:5-5 validId *)
Definition validId (value : string) : bool :=
  negb (bool_decide (value = "")) && (String.length value <=? 80)%nat.

(** An audience: null is all active staff. *)
Definition audience := option (gset string).

(* src/src/shared/document-audiences.js:6-6 intersect *)
Definition intersect (a b : audience) : audience :=
  match a, b with
  | None, _ => b
  | _, None => a
  | Some a, Some b => Some (filter (λ id, id ∈ b) a)
  end.

(* src/src/shared/document-audiences.js:7-7 ids *)
Definition ids (value : id_value) : option audience :=
  match value with
  | Everyone => Some None
  | Ids l => if (Z.of_nat (length l) <=? 10000) && forallb validId l then Some (Some (list_to_set l)) else None
  | NotIds => None
  end.

(** ** The algebra *)

(** The check of one node against the ids seen and the node after it. *)
Fixpoint valid_from (first : node) (seen : list string) (nodes : list node) : bool :=
  match nodes with
  | [] => true
  | n :: rest =>
      validId (n_id n) && validId (n_author n) && validId (n_org n) && negb (bool_decide (n_id n ∈ seen)) &&
      bool_decide (n_org n = n_org first) && bool_decide (n_project n = n_project first) &&
      match rest with
      | m :: _ => bool_decide (n_parent n = Some (n_id m))
      | [] => bool_decide (n_parent n = None)
      end && valid_from first (n_id n :: seen) rest
  end.

(* src/src/shared/document-audiences.js:9-20 pathIsValid *)
Definition pathIsValid (nodes : list node) : bool :=
  match nodes with
  | [] => false
  | first :: _ => (length nodes <=? 200)%nat && valid_from first [] nodes
  end.

Definition node_metadata_ok (n : node) : bool :=
  (bool_decide (n_mode n = "TEAM") || bool_decide (n_mode n = "RESTRICTED")) &&
  match n_grants n with
  | Some gs => (length gs <=? 1000)%nat &&
               forallb (λ g, validId (g_user g) && (bool_decide (g_role g = "READ") || bool_decide (g_role g = "EDIT"))) gs
  | None => false
  end.

Definition readers_of (n : node) : gset string := list_to_set (n_author n :: (g_user <$> default [] (n_grants n))).
Definition editors_of (n : node) : gset string :=
  list_to_set (n_author n :: (g_user <$> List.filter (λ g, bool_decide (g_role g = "EDIT")) (default [] (n_grants n)))).

(** One turn of the composition's loop; [None] is a thrown error. *)
Definition compose_node (acc : audience * audience) (n : node) : option (audience * audience) :=
  if negb (node_metadata_ok n) then None
  else
    let '(read, edit) := acc in
    let '(read, edit) :=
      if bool_decide (n_mode n = "RESTRICTED")
      then (intersect read (Some (readers_of n)), intersect edit (Some (editors_of n))) else (read, edit) in
    match n_barrier n with
    | None => Some (read, edit)
    | Some BadBarrier => None
    | Some (Barrier r e) =>
        match ids r, ids e with
        | Some readers, Some editors => Some (intersect read readers, intersect edit editors)
        | _, _ => None
        end
    end.

Fixpoint compose_nodes (acc : audience * audience) (nodes : list node) : option (audience * audience) :=
  match nodes with
  | [] => Some acc
  | n :: nodes => acc ← compose_node acc n; compose_nodes acc nodes
  end.

(** [[...set].sort()] *)
Definition sorted_ids (s : gset string) : list string := isort String.leb (elements s).

Record composed := Composed { readUserIds : option (list string); editUserIds : option (list string) }.

(* src/src/shared/document-audiences.js:26-45 composeDocumentAudience *)
Definition composeDocumentAudience (nodes : list node) : option composed :=
  if negb (pathIsValid nodes) then None
  else
    '(read, edit) ← compose_nodes (None, None) nodes;
    let edit := intersect edit read in
    Some (Composed (sorted_ids <$> read) (sorted_ids <$> edit)).

Definition includes (l : option (list string)) (id : string) : bool :=
  match l with None => true | Some l => bool_decide (id ∈ l) end.

Definition is_staff (role : string) : bool := bool_decide (role = "ADMIN") || bool_decide (role = "TEAM").

(* src/src/shared/document-audiences.js:47-59 documentAudienceRights *)
Definition documentAudienceRights (nodes : list node) (a : actor) : rights :=
  match nodes with
  | [] => denied
  | root :: _ =>
      if negb (validId (a_id a)) || negb (validId (a_org a)) || negb (a_active a) || negb (is_staff (a_role a)) ||
         negb (bool_decide (n_org root = a_org a)) then denied
      else if bool_decide (a_role a = "ADMIN") then Rights true true true
      else match composeDocumentAudience nodes with
           | None => denied
           | Some au =>
               let read := includes (readUserIds au) (a_id a) in
               let edit := read && includes (editUserIds au) (a_id a) in
               Rights read edit (edit && bool_decide (n_author root = a_id a))
           end
  end.

(** ** Loading a path *)

(** The notes of the workspace that are not deleted (or all of them), by id,
    with access to the metadata only. *)
Definition notes := string → option node.
(** The request's cache is a [gmap string (option node)]: a missing key, a
    null, or a node. *)

Definition load_row (acc : gmap string (option node) * list string) (row : node) : gmap string (option node) * list string :=
  let '(c, parents) := acc in
  let c := <[n_id row := Some row]> c in
  (c, match n_parent row with
      | Some p => if bool_decide (p = "") || bool_decide (is_Some (c !! p)) then parents else parents ++ [p]
      | None => parents
      end).

(** One batch: its ids are null unless the query found them. *)
Definition load_batch (db : notes) (acc : gmap string (option node) * list string) (batch : list string) : gmap string (option node) * list string :=
  let '(c, parents) := acc in
  foldl load_row (foldl (λ c id, <[id := None]> c) c batch, parents) (omap db batch).

(** [missing.slice(offset, offset + 100)] for each offset; [fuel] is at least the length. *)
Fixpoint chunks (fuel : nat) (l : list string) : list (list string) :=
  match fuel, l with
  | S fuel, _ :: _ => take 100 l :: chunks fuel (drop 100 l)
  | _, _ => []
  end.

Definition not_cached (c : gmap string (option node)) (id : string) : bool := negb (bool_decide (is_Some (c !! id))).

Fixpoint load_rounds (db : notes) (rounds : nat) (c : gmap string (option node)) (missing : list string) : gmap string (option node) :=
  match rounds, missing with
  | S rounds, _ :: _ =>
      let '(c, parents) := foldl (load_batch db) (c, []) (chunks (length missing) missing) in
      load_rounds db rounds c (List.filter (not_cached c) (unique parents))
  | _, _ => c
  end.

(* src/src/services/note-access.service.js:19-35 noteAccessContext *)
Definition load (db : notes) (want : list string) (seeds : list node) (c : gmap string (option node)) : gmap string (option node) :=
  let c := foldl (λ c row, <[n_id row := Some row]> c) c seeds in
  let parents := omap (λ row, match n_parent row with
                              | Some p => if negb (bool_decide (p = "")) && not_cached c p then Some p else None
                              | None => None
                              end) seeds in
  load_rounds db 201 c (unique (List.filter (not_cached c) want ++ parents)).

(** The walk up from a node, at most [fuel] nodes and never twice the same. *)
Fixpoint walk (lookup : string → option node) (fuel : nat) (seen : list string) (n : option node) : list node :=
  match fuel, n with
  | S fuel, Some n =>
      if bool_decide (n_id n ∈ seen) then []
      else n :: match n_parent n with
                | Some p => if bool_decide (p = "") then [] else walk lookup fuel (n_id n :: seen) (lookup p)
                | None => []
                end
  | _, _ => []
  end.

Definition cached (c : gmap string (option node)) (id : string) : option node := default None (c !! id).

(* src/src/services/note-access.service.js:36-44 noteAccessContext *)
Definition path (c : gmap string (option node)) (id : string) : list node := walk (cached c) 200 [] (cached c id).

(** ** Authorization *)

Inductive access_error := TeamAccessRequired | DocumentNotFound | ReadOnly | OwnerOnly | AudienceUnrecoverable.

Section authorization.
(** Active staff members, and the notes that are live and the deleted ones. *)
Context (find_staff : string → string → option actor) (live deleted : notes).

(* src/src/services/workspace-page-authorization.js:2-7 currentWikiStaff *)
Definition currentWikiStaff (a : actor) : result access_error actor :=
  if bool_decide (a_org a = "") || negb (is_staff (a_role a)) then Err TeamAccessRequired
  else match find_staff (a_id a) (a_org a) with Some u => Ok u | None => Err TeamAccessRequired end.

Record access_mode := Mode { edit : bool; manage : bool; includeDeleted : bool }.

(** The notes a load sees: live ones, or with [includeDeleted] all. *)
Definition visible (m : access_mode) : notes := λ id,
  match live id with Some n => Some n | None => if includeDeleted m then deleted id else None end.

(* src/src/services/note-access.service.js:48-58 authorizeNote *)
Definition authorizeNote (id : string) (a : actor) (m : access_mode) : result access_error (node * rights * actor * list node) :=
  currentWikiStaff a ≫= λ user,
  let c := load (visible m) [id] [] ∅ in
  let permissions := documentAudienceRights (path c id) user in
  if negb (canRead permissions) then Err DocumentNotFound
  else if edit m && negb (canEdit permissions) then Err ReadOnly
  else if manage m && negb (canManage permissions) then Err OwnerOnly
  else match (if includeDeleted m then deleted id else live id) with
       | Some note => Ok (note, permissions, user, path c id)
       | None => Err DocumentNotFound
       end.

(** What restoring a deleted note writes: its parent, or none and the audience
    its path had. *)
Inductive restore_data := RestoreRoot | RestoreUnder (parent : string) | RestoreDetached (barrier : composed).

(* src/src/services/note-access.service.js:112-128 noteRestoreData *)
Definition noteRestoreData (id : string) (a : actor) : result access_error restore_data :=
  authorizeNote id a (Mode false true true) ≫= λ '(note, _, _, path),
  match n_parent note with
  | None | Some EmptyString => Ok RestoreRoot
  | Some p =>
      match live p with
      | Some parent =>
          if bool_decide (n_project parent = n_project note) then
            authorizeNote (n_id parent) a (Mode true false false) ≫= λ _, Ok (RestoreUnder (n_id parent))
          else match composeDocumentAudience path with
               | Some barrier => Ok (RestoreDetached barrier)
               | None => Err AudienceUnrecoverable
               end
      | None => match composeDocumentAudience path with
                | Some barrier => Ok (RestoreDetached barrier)
                | None => Err AudienceUnrecoverable
                end
      end
  end.
End authorization.

(** ** Reference: what each node permits *)

Definition allows (v : id_value) (id : string) : bool :=
  match v with Everyone => true | Ids l => bool_decide (id ∈ l) | NotIds => false end.
Definition node_ok (n : node) : bool :=
  node_metadata_ok n &&
  match n_barrier n with
  | None => true
  | Some (Barrier r e) => bool_decide (is_Some (ids r)) && bool_decide (is_Some (ids e))
  | Some BadBarrier => false
  end.
Definition restricted (n : node) : bool := bool_decide (n_mode n = "RESTRICTED").
Definition node_reads (id : string) (n : node) : bool :=
  (negb (restricted n) || bool_decide (id ∈ readers_of n)) &&
  match n_barrier n with Some (Barrier r _) => allows r id | _ => true end.
Definition node_edits (id : string) (n : node) : bool :=
  (negb (restricted n) || bool_decide (id ∈ editors_of n)) &&
  match n_barrier n with Some (Barrier _ e) => allows e id | _ => true end.

Definition admits (a : audience) (id : string) : bool := match a with None => true | Some s => bool_decide (id ∈ s) end.

Lemma admits_intersect a b id : admits (intersect a b) id = admits a id && admits b id.
Proof.
  destruct a as [a|], b as [b|]; cbn; rewrite ?andb_true_r; try done.
  destruct (bool_decide_reflect (id ∈ a)), (bool_decide_reflect (id ∈ b)); cbn;
    (apply bool_decide_eq_true_2 || apply bool_decide_eq_false_2); set_solver.
Qed.

Lemma ids_admits v a id : ids v = Some a → admits a id = allows v id.
Proof.
  destruct v as [|l|]; cbn; [by intros [= <-]| |done]. destruct (_ && _); [|done]. intros [= <-]. cbn.
  apply bool_decide_ext. by rewrite elem_of_list_to_set.
Qed.

Arguments admits : simpl never.
Arguments intersect : simpl never.

Lemma compose_node_spec acc n :
  match compose_node acc n with
  | None => node_ok n = false
  | Some acc' => node_ok n = true ∧ ∀ id,
      admits acc'.1 id = admits acc.1 id && node_reads id n ∧ admits acc'.2 id = admits acc.2 id && node_edits id n
  end.
Proof.
  unfold compose_node, node_ok, node_reads, node_edits, restricted. destruct acc as [read edit].
  destruct (node_metadata_ok n); [|done]. cbn [negb].
  set (acc1 := if bool_decide (n_mode n = "RESTRICTED") then _ else _).
  assert (∀ id, admits acc1.1 id = admits read id && (negb (bool_decide (n_mode n = "RESTRICTED")) || bool_decide (id ∈ readers_of n)) ∧
                admits acc1.2 id = admits edit id && (negb (bool_decide (n_mode n = "RESTRICTED")) || bool_decide (id ∈ editors_of n))) as H1.
  { intros id. unfold acc1. destruct (bool_decide (n_mode n = "RESTRICTED")); cbn [fst snd negb orb];
      rewrite ?admits_intersect, ?andb_true_r; done. }
  destruct acc1 as [read1 edit1]. cbn [fst snd] in H1. destruct (n_barrier n) as [[r e|]|]; [|done|].
  - destruct (ids r) as [rs|] eqn:Er, (ids e) as [es|] eqn:Ee; cbn; try done. split; [done|]. intros id. destruct (H1 id) as [Hr He].
    by rewrite !admits_intersect, Hr, He, (ids_admits _ _ _ Er), (ids_admits _ _ _ Ee), <- !andb_assoc.
  - split; [done|]. intros id. cbn [fst snd]. destruct (H1 id) as [-> ->]. by rewrite !andb_true_r.
Qed.

Lemma compose_nodes_spec nodes : ∀ acc,
  match compose_nodes acc nodes with
  | None => forallb node_ok nodes = false
  | Some acc' => forallb node_ok nodes = true ∧ ∀ id,
      admits acc'.1 id = admits acc.1 id && forallb (node_reads id) nodes ∧
      admits acc'.2 id = admits acc.2 id && forallb (node_edits id) nodes
  end.
Proof.
  induction nodes as [|n nodes IH]; intros acc; cbn [compose_nodes forallb].
  - split; [done|]. intros id. by rewrite !andb_true_r.
  - pose proof (compose_node_spec acc n) as Hn. destruct (compose_node acc n) as [acc1|]; cbn [mbind option_bind]; [|by rewrite Hn].
    destruct Hn as [-> Hn]. specialize (IH acc1). destruct (compose_nodes acc1 nodes) as [acc2|]; [|by rewrite IH].
    destruct IH as [-> IH]. split; [done|]. intros id. destruct (Hn id) as [H1 H2], (IH id) as [H3 H4].
    by rewrite H3, H4, H1, H2, <- !andb_assoc.
Qed.

Lemma includes_sorted a id : includes (sorted_ids <$> a) id = admits a id.
Proof.
  destruct a as [s|]; [|done]. cbn. apply bool_decide_ext. unfold sorted_ids. by rewrite elem_of_isort, elem_of_elements.
Qed.

Lemma composeDocumentAudience_spec nodes :
  match composeDocumentAudience nodes with
  | None => pathIsValid nodes && forallb node_ok nodes = false
  | Some au => pathIsValid nodes = true ∧ forallb node_ok nodes = true ∧ ∀ id,
      includes (readUserIds au) id = forallb (node_reads id) nodes ∧
      includes (editUserIds au) id = forallb (node_edits id) nodes && forallb (node_reads id) nodes
  end.
Proof.
  unfold composeDocumentAudience. destruct (pathIsValid nodes); [|done]. cbn [negb].
  pose proof (compose_nodes_spec nodes (None, None)) as H. destruct (compose_nodes (None, None) nodes) as [[read edit]|]; [|done].
  cbn [mbind option_bind readUserIds editUserIds]. destruct H as [Hok H]. split_and!; [done|done|]. intros id.
  rewrite !includes_sorted, admits_intersect. destruct (H id) as [H1 H2]. cbn in H1, H2. by rewrite H1, H2.
Qed.

Definition eligible (nodes : list node) (a : actor) : bool :=
  match nodes with
  | [] => false
  | root :: _ => validId (a_id a) && validId (a_org a) && a_active a && is_staff (a_role a) && bool_decide (n_org root = a_org a)
  end.

(** What a path gives a member: every node of it must permit. *)
Definition member_rights (nodes : list node) (id : string) : rights :=
  if pathIsValid nodes && forallb node_ok nodes then
    let read := forallb (node_reads id) nodes in
    let edit := read && forallb (node_edits id) nodes in
    Rights read edit (edit && match nodes with root :: _ => bool_decide (n_author root = id) | [] => false end)
  else denied.

Lemma member_rights_spec nodes id :
  match composeDocumentAudience nodes with
  | None => denied
  | Some au =>
      let read := includes (readUserIds au) id in
      let edit := read && includes (editUserIds au) id in
      Rights read edit (edit && match nodes with root :: _ => bool_decide (n_author root = id) | [] => false end)
  end = member_rights nodes id.
Proof.
  unfold member_rights. pose proof (composeDocumentAudience_spec nodes) as H.
  destruct (composeDocumentAudience nodes) as [au|]; [|by rewrite H]. destruct H as (-> & -> & H). destruct (H id) as [-> ->]. cbn.
  assert (∀ r e, r && (e && r) = r && e) as Hre by (by intros [] []). by rewrite Hre.
Qed.


(** ** The loaded path is the real one *)

Section loading.
Context (db : notes) (db_id : ∀ id n, db id = Some n → n_id n = id).

(** What is cached is what the table holds. *)
Definition coherent (c : gmap string (option node)) : Prop := ∀ k v, c !! k = Some v → v = db k.

(** The parent a node names. *)
Definition names (n : node) (p : string) : Prop := n_parent n = Some p ∧ p ≠ "".

(** Parents of cached nodes are cached or among [todo]. *)
Definition pending (c : gmap string (option node)) (todo : list string) : Prop := ∀ k n p,
  c !! k = Some (Some n) → names n p → is_Some (c !! p) ∨ p ∈ todo.

(** The first [k] steps up from [id] are cached. *)
Fixpoint covers (c : gmap string (option node)) (k : nat) (id : string) : Prop :=
  match k with
  | O => True
  | S k => is_Some (c !! id) ∧ ∀ n p, db id = Some n → names n p → covers c k p
  end.

Lemma load_rows_fst rows : ∀ c ps, (foldl load_row (c, ps) rows).1 = foldl (λ c row, <[n_id row := Some row]> c) c rows.
Proof. induction rows as [|r rows IH]; intros c ps; [done|]. cbn [foldl]. apply IH. Qed.

Lemma load_rows_parents rows : ∀ c ps,
  let '(c', ps') := foldl load_row (c, ps) rows in
  (∀ k, is_Some (c !! k) → is_Some (c' !! k)) ∧ (∀ p, p ∈ ps → p ∈ ps') ∧
  ∀ n p, n ∈ rows → names n p → is_Some (c' !! p) ∨ p ∈ ps'.
Proof.
  induction rows as [|r rows IH]; intros c ps; [split_and!; [done|done|by intros ? ? ?%not_elem_of_nil]|].
  cbn [foldl]. destruct (load_row (c, ps) r) as [c1 ps1] eqn:E1. specialize (IH c1 ps1).
  destruct (foldl load_row (c1, ps1) rows) as [c' ps']. destruct IH as (Hk & Hps & Hn).
  unfold load_row in E1. injection E1 as <- <-. split_and!.
  - intros k Hc. apply Hk. destruct (decide (n_id r = k)) as [->|]; [rewrite lookup_insert_eq; by eexists|by rewrite lookup_insert_ne].
  - intros p Hp. apply Hps. destruct (n_parent r) as [q|]; [|done]. destruct (_ || _); [done|]. apply elem_of_app. by left.
  - intros n p [->|Hin]%elem_of_cons [Hp Hne]; [|by apply (Hn n)]. rewrite Hp in *. rewrite bool_decide_neq in Hps by done.
    cbn [orb] in Hps. destruct (bool_decide_reflect (is_Some (<[n_id r:=Some r]> c !! p))) as [Hs|Hs].
    + left. by apply Hk.
    + right. apply Hps, elem_of_app. right. by left.
Qed.

Lemma null_all batch : ∀ (c : gmap string (option node)) k,
  foldl (λ c id, <[id := None]> c) c batch !! k = if decide (k ∈ batch) then Some None else c !! k.
Proof.
  induction batch as [|b batch IH]; intros c k; cbn [foldl]; [by rewrite decide_False by apply not_elem_of_nil|].
  rewrite IH. destruct (decide (k ∈ batch)) as [Hk|Hk].
  - by rewrite decide_True by by right.
  - destruct (decide (k = b)) as [->|Hne]; [by rewrite lookup_insert_eq, decide_True by left|].
    rewrite lookup_insert_ne, decide_False; [done| |congruence]. rewrite elem_of_cons. tauto.
Qed.

Lemma rows_set batch : ∀ (c : gmap string (option node)) k,
  foldl (λ c row, <[n_id row := Some row]> c) c (omap db batch) !! k =
    if decide (k ∈ batch ∧ is_Some (db k)) then Some (db k) else c !! k.
Proof.
  induction batch as [|b batch IH]; intros c k; cbn [omap list_omap]; [cbn; rewrite decide_False; [done|]; intros [?%not_elem_of_nil _]; done|].
  destruct (db b) as [n|] eqn:Eb; cbn [foldl]; rewrite IH.
  - destruct (decide (k ∈ batch ∧ is_Some (db k))) as [Hk|Hk]; [rewrite decide_True; [done|]; set_solver|].
    rewrite (db_id b n Eb). destruct (decide (k = b)) as [->|Hne].
    + rewrite lookup_insert_eq, Eb, decide_True; [done|]. split; [by left|done].
    + rewrite lookup_insert_ne by congruence. rewrite decide_False; [done|]. rewrite elem_of_cons. tauto.
  - destruct (decide (k ∈ batch ∧ is_Some (db k))) as [Hk|Hk]; [rewrite decide_True; [done|]; set_solver|].
    rewrite decide_False; [done|]. rewrite elem_of_cons. intros [[->|?] Hs]; [rewrite Eb in Hs; by destruct Hs|tauto].
Qed.

Lemma load_batch_spec c ps batch todo :
  coherent c → pending c (todo ++ ps) → (∀ id, id ∈ batch → id ∈ todo) →
  let '(c', ps') := load_batch db (c, ps) batch in
  coherent c' ∧ pending c' (todo ++ ps') ∧ (∀ p, p ∈ ps → p ∈ ps') ∧ ∀ k, is_Some (c' !! k) ↔ is_Some (c !! k) ∨ k ∈ batch.
Proof.
  intros Hc Hp Hb. unfold load_batch. set (c1 := foldl _ c batch).
  pose proof (load_rows_fst (omap db batch) c1 ps) as Hf. pose proof (load_rows_parents (omap db batch) c1 ps) as Hr.
  destruct (foldl load_row (c1, ps) (omap db batch)) as [c' ps']. cbn [fst] in Hf. destruct Hr as (Hk & Hps & Hn).
  assert (∀ k, c' !! k = if decide (k ∈ batch) then Some (db k) else c !! k) as Hl.
  { intros k. rewrite Hf, rows_set. unfold c1. rewrite null_all.
    destruct (decide (k ∈ batch)) as [Hin|Hin].
    - destruct (decide (k ∈ batch ∧ is_Some (db k))) as [|Hnot]; [done|].
      destruct (db k) eqn:E; [|done]. destruct Hnot. by split.
    - rewrite decide_False; [done|tauto]. }
  split_and!.
  - intros k v. rewrite Hl. case_decide; [by intros [= <-]|apply Hc].
  - intros k n p. rewrite Hl. case_decide as Hin.
    + intros [= Hd] Hnp. destruct (Hn n p) as [?|?]; [|done|by left|right; apply elem_of_app; by right].
      apply list_elem_of_omap. by exists k.
    + intros Hcn Hnp. destruct (Hp k n p Hcn Hnp) as [Hs|Hin']; [left|].
      * rewrite Hl. by case_decide.
      * right. rewrite elem_of_app in *. destruct Hin'; [by left|right; auto].
  - done.
  - intros k. rewrite Hl. case_decide; [|naive_solver]. split; [by right|by eexists].
Qed.

Lemma load_batches_spec batches : ∀ c ps todo,
  coherent c → pending c (todo ++ ps) → (∀ b id, b ∈ batches → id ∈ b → id ∈ todo) →
  let '(c', ps') := foldl (load_batch db) (c, ps) batches in
  coherent c' ∧ pending c' (todo ++ ps') ∧ ∀ k, is_Some (c' !! k) ↔ is_Some (c !! k) ∨ k ∈ concat batches.
Proof.
  induction batches as [|b bs IH]; intros c ps todo Hc Hp Hb.
  { cbn. split_and!; [done|done|]. intros k. split; [by left|]. intros [?|?%not_elem_of_nil]; done. }
  cbn [foldl concat]. pose proof (load_batch_spec c ps b todo Hc Hp (λ id, Hb b id ltac:(left))) as H1.
  destruct (load_batch db (c, ps) b) as [c1 ps1]. destruct H1 as (Hc1 & Hp1 & _ & Hk1).
  specialize (IH c1 ps1 todo Hc1 Hp1 (λ b' id Hin, Hb b' id ltac:(by right))).
  destruct (foldl (load_batch db) (c1, ps1) bs) as [c' ps']. destruct IH as (Hc' & Hp' & Hk'). split_and!; [done|done|].
  intros k. rewrite Hk', Hk1, elem_of_app. tauto.
Qed.

Lemma concat_chunks fuel : ∀ l, (length l ≤ fuel)%nat → concat (chunks fuel l) = l.
Proof.
  induction fuel as [|fuel IH]; intros [|x l] Hl; [done|cbn in Hl; lia|done|]. cbn [chunks].
  transitivity (take 100 (x :: l) ++ drop 100 (x :: l)); [|apply take_drop]. cbn [concat]. f_equal. apply IH.
  rewrite length_drop. cbn in *. lia.
Qed.

Lemma closed_covers c k : coherent c → pending c [] → ∀ id, is_Some (c !! id) → covers c k id.
Proof.
  intros Hc Hp. induction k as [|k IH]; intros id Hid; [done|]. split; [done|]. intros n p Hn Hnp. apply IH.
  destruct Hid as [v Hv]. pose proof (Hc id v Hv) as ->. rewrite Hn in Hv.
  destruct (Hp id n p Hv Hnp) as [?|?%not_elem_of_nil]; done.
Qed.

(** [r] rounds cache the first [r] steps up from every id asked for. *)
Lemma load_rounds_covers r : ∀ c todo,
  coherent c → pending c todo →
  let c' := load_rounds db r c todo in
  coherent c' ∧ (∀ k, is_Some (c !! k) → is_Some (c' !! k)) ∧ ∀ id, is_Some (c !! id) ∨ id ∈ todo → covers c' r id.
Proof.
  induction r as [|r IH]; intros c todo Hc Hp; [done|]. destruct todo as [|t todo].
  { cbn [load_rounds]. split_and!; [done|done|]. intros id [?|?%not_elem_of_nil]; [|done]. by apply closed_covers. }
  cbn [load_rounds]. set (all := t :: todo) in *.
  pose proof (load_batches_spec (chunks (length all) all) c [] all Hc) as H1.
  destruct (foldl (load_batch db) (c, []) (chunks (length all) all)) as [c1 ps].
  destruct H1 as (Hc1 & Hp1 & Hk1); [by rewrite app_nil_r| |].
  { intros b id Hb Hid. rewrite <- (concat_chunks (length all) all) by done. apply list_elem_of_In, in_concat.
    exists b. by rewrite <- !list_elem_of_In. }
  rewrite concat_chunks in Hk1 by done. set (next := List.filter _ _).
  assert (pending c1 next) as Hp2.
  { intros k n p Hcn Hnp. destruct (Hp1 k n p Hcn Hnp) as [?|Hin]; [by left|].
    destruct (bool_decide_reflect (is_Some (c1 !! p))) as [?|Hs]; [by left|]. right.
    apply elem_of_app in Hin as [Hin|Hin]; [destruct Hs; apply Hk1; by right|].
    apply list_elem_of_In, filter_In. split; [by apply list_elem_of_In, elem_of_unique|]. unfold not_cached. by rewrite bool_decide_eq_false_2. }
  destruct (IH c1 next Hc1 Hp2) as (Hc' & Hk' & Hcov). split_and!; [done| |].
  - intros k Hk. apply Hk', Hk1. by left.
  - intros id Hid. apply Hk1 in Hid. split; [by apply Hk'|]. intros n p Hn Hnp. apply Hcov.
    destruct Hid as [v Hv]. pose proof (Hc1 id v Hv) as ->. rewrite Hn in Hv. by apply (Hp2 id n p).
Qed.

Lemma walk_covers c k : coherent c → ∀ seen id,
  covers c k id → walk (cached c) k seen (cached c id) = walk db k seen (db id).
Proof.
  intros Hc. induction k as [|k IH]; intros seen id Hcov; [done|]. destruct Hcov as [[v Hv] Hcov].
  assert (cached c id = db id) as -> by (unfold cached; rewrite Hv; apply Hc, Hv).
  cbn [walk]. destruct (db id) as [n|] eqn:En; [|done]. case_bool_decide; [done|]. f_equal.
  destruct (n_parent n) as [p|] eqn:Ep; [|done]. case_bool_decide; [done|]. apply IH, (Hcov n); [done|]. by split.
Qed.

(** The path the code walks after loading is the one in the table. *)
Lemma load_path want id : id ∈ want → path (load db want [] ∅) id = walk db 200 [] (db id).
Proof.
  intros Hin. unfold path, load. cbn [foldl omap list_omap]. rewrite app_nil_r.
  set (todo := unique _).
  assert (id ∈ todo) as Htodo.
  { apply elem_of_unique, list_elem_of_In, filter_In. split; [by apply list_elem_of_In|]. unfold not_cached. by rewrite lookup_empty. }
  destruct (load_rounds_covers 201 ∅ todo) as (Hc & _ & Hcov).
  - intros k v. by rewrite lookup_empty.
  - intros k n p. by rewrite lookup_empty.
  - apply walk_covers; [exact Hc|]. specialize (Hcov id (or_intror Htodo)). clear -Hcov.
    revert Hcov. generalize 200%nat. generalize (load_rounds db 201 ∅ todo). revert id.
    assert (∀ c k id, covers c (S k) id → covers c k id) as Hmono.
    { induction k as [|k IH]; intros id; [done|]. intros [Hs H]. split; [done|]. intros n p Hn Hnp. by apply IH, (H n). }
    intros id c k. apply Hmono.
Qed.
End loading.

(** ** Audiences stay storable *)

Definition storable (a : audience) : Prop :=
  match a with None => True | Some s => Z.of_nat (size s) ≤ 10000 ∧ ∀ id, id ∈ s → validId id = true end.

Lemma size_of_list (l : list string) : (size (list_to_set l : gset string) ≤ length l)%nat.
Proof.
  apply NoDup_subset_length; [apply NoDup_elements|]. intros x. by rewrite elem_of_elements, elem_of_list_to_set.
Qed.

Lemma storable_intersect a b : storable a → storable b → storable (intersect a b).
Proof.
  destruct a as [a|], b as [b|]; try done. intros [Ha Hva] _. unfold intersect. split.
  - assert (size (filter (λ id, id ∈ b) a) ≤ size a)%nat; [|lia]. apply subseteq_size. set_solver.
  - intros id. rewrite elem_of_filter. intros [_ ?]. by apply Hva.
Qed.

Lemma storable_list (l : list string) : Z.of_nat (length l) ≤ 10000 → (∀ id, id ∈ l → validId id = true) → storable (Some (list_to_set l)).
Proof. intros Hl Hv. split; [pose proof (size_of_list l); lia|]. intros id. rewrite elem_of_list_to_set. apply Hv. Qed.

Lemma metadata_grants n : node_metadata_ok n = true →
  ∃ gs, n_grants n = Some gs ∧ (length gs ≤ 1000)%nat ∧ ∀ g, g ∈ gs → validId (g_user g) = true.
Proof.
  unfold node_metadata_ok. intros [_ H]%andb_true_iff'. destruct (n_grants n) as [gs|]; [|done].
  apply andb_true_iff' in H as [Hl Hg]. exists gs. split; [done|]. split; [by apply Nat.leb_le|].
  rewrite forallb_forall in Hg. intros g Hin. apply list_elem_of_In, Hg, andb_true_iff' in Hin. tauto.
Qed.

Lemma grantees_storable n (P : grant → bool) : node_metadata_ok n = true → validId (n_author n) = true →
  storable (Some (list_to_set (n_author n :: (g_user <$> List.filter P (default [] (n_grants n)))))).
Proof.
  intros (gs & -> & Hl & Hg)%metadata_grants Ha. cbn [default]. apply storable_list.
  - cbn [length]. rewrite length_fmap. assert (length (List.filter P gs) ≤ length gs)%nat by apply List.filter_length_le. unfold id in *. lia.
  - intros x [->|(g & -> & Hin)%list_elem_of_fmap]%elem_of_cons; [done|]. apply Hg.
    apply list_elem_of_In, filter_In in Hin as [Hin _]. by apply list_elem_of_In.
Qed.

Lemma storable_ids v a : ids v = Some a → storable a.
Proof.
  destruct v as [|l|]; cbn; [by intros [= <-]| |done]. destruct (_ && _) eqn:E; [|done]. intros [= <-].
  apply andb_true_iff' in E as [Hl%Z.leb_le Hv]. apply storable_list; [done|]. rewrite forallb_forall in Hv.
  intros x Hx. by apply Hv, list_elem_of_In.
Qed.

Lemma filter_all {A} (l : list A) : List.filter (λ _, true) l = l.
Proof. induction l as [|x l IH]; cbn; congruence. Qed.

Lemma compose_node_storable acc n acc' :
  compose_node acc n = Some acc' → validId (n_author n) = true → storable acc.1 → storable acc.2 → storable acc'.1 ∧ storable acc'.2.
Proof.
  unfold compose_node. destruct acc as [read edit]. destruct (node_metadata_ok n) eqn:Em; [|done]. cbn [negb].
  intros H Ha Hr He. set (acc1 := if bool_decide (n_mode n = "RESTRICTED") then _ else _) in H.
  assert (storable acc1.1 ∧ storable acc1.2) as [Hr1 He1].
  { unfold acc1. destruct (bool_decide _); [|done]. cbn [fst snd]. split; apply storable_intersect; try done.
    - unfold readers_of. rewrite <- (filter_all (default [] (n_grants n))). by apply grantees_storable.
    - by apply grantees_storable. }
  destruct acc1 as [read1 edit1]. cbn [fst snd] in *. destruct (n_barrier n) as [[r e|]|]; [|done|by simplify_eq].
  destruct (ids r) as [rs|] eqn:Er, (ids e) as [es|] eqn:Ee; try done. simplify_eq. cbn.
  split; apply storable_intersect; try done; by eapply storable_ids.
Qed.

Lemma compose_nodes_storable nodes : ∀ acc acc',
  compose_nodes acc nodes = Some acc' → (∀ n, n ∈ nodes → validId (n_author n) = true) → storable acc.1 → storable acc.2 →
  storable acc'.1 ∧ storable acc'.2.
Proof.
  induction nodes as [|n nodes IH]; intros acc acc' H Hv Hr He; cbn [compose_nodes] in H; [by simplify_eq|].
  destruct (compose_node acc n) as [acc1|] eqn:E1; [|done]. cbn [mbind option_bind] in H.
  destruct (compose_node_storable acc n acc1 E1) as [? ?]; [apply Hv; left|done|done|].
  apply (IH acc1); [done|intros; apply Hv; by right|done|done].
Qed.

Lemma valid_from_nodes first nodes : ∀ seen n, valid_from first seen nodes = true → n ∈ nodes →
  validId (n_id n) = true ∧ validId (n_author n) = true ∧ validId (n_org n) = true.
Proof.
  induction nodes as [|m nodes IH]; intros seen n H Hin; [by apply not_elem_of_nil in Hin|].
  cbn [valid_from] in H. bool_simplify. apply elem_of_cons in Hin as [->|Hin]; [done|by eapply IH].
Qed.

Lemma pathIsValid_nodes nodes n : pathIsValid nodes = true → n ∈ nodes →
  validId (n_id n) = true ∧ validId (n_author n) = true ∧ validId (n_org n) = true.
Proof.
  destruct nodes as [|first nodes]; [done|]. unfold pathIsValid. intros [_ H]%andb_true_iff'. by eapply valid_from_nodes.
Qed.

(** A composed audience as the barrier a restored note stores. *)
Definition id_list (l : option (list string)) : id_value := match l with None => Everyone | Some l => Ids l end.

Lemma sorted_storable a : storable a → is_Some (ids (id_list (sorted_ids <$> a))).
Proof.
  destruct a as [s|]; cbn; [|by eexists]. intros [Hs Hv]. unfold sorted_ids. rewrite length_isort.
  change (length (elements s)) with (size s). rewrite (proj2 (Z.leb_le _ _) Hs). cbn [andb].
  assert (forallb validId (isort String.leb (elements s)) = true) as ->; [|by eexists].
  apply forallb_forall. intros x Hx%list_elem_of_In. rewrite elem_of_isort, elem_of_elements in Hx. by apply Hv.
Qed.

Lemma composed_storable nodes au : composeDocumentAudience nodes = Some au →
  is_Some (ids (id_list (readUserIds au))) ∧ is_Some (ids (id_list (editUserIds au))).
Proof.
  unfold composeDocumentAudience. destruct (pathIsValid nodes) eqn:Ep; [|done]. cbn [negb].
  destruct (compose_nodes (None, None) nodes) as [[read edit]|] eqn:Ec; [|done]. cbn [mbind option_bind]. intros [= <-].
  destruct (compose_nodes_storable nodes (None, None) (read, edit) Ec) as [Hr He]; [|done|done|].
  - intros n Hn. by apply (pathIsValid_nodes nodes).
  - cbn in *. split; apply sorted_storable; [done|]. by apply storable_intersect.
Qed.

(** ** Restoring *)

Definition detach (n : node) (b : composed) : node :=
  Node (n_id n) (n_author n) (n_org n) (n_project n) None (n_mode n) (n_grants n)
    (Some (Barrier (id_list (readUserIds b)) (id_list (editUserIds b)))).

(** What a node's own restriction permits, its barrier apart. *)
Definition own_reads (id : string) (n : node) : bool := negb (restricted n) || bool_decide (id ∈ readers_of n).
Definition own_edits (id : string) (n : node) : bool := negb (restricted n) || bool_decide (id ∈ editors_of n).

Lemma allows_id_list l id : allows (id_list l) id = includes l id.
Proof. by destruct l. Qed.
Lemma detach_reads n b id : node_reads id (detach n b) = own_reads id n && includes (readUserIds b) id.
Proof. rewrite <- allows_id_list. reflexivity. Qed.
Lemma detach_edits n b id : node_edits id (detach n b) = own_edits id n && includes (editUserIds b) id.
Proof. rewrite <- allows_id_list. reflexivity. Qed.
Lemma own_reads_first id n : node_reads id n = own_reads id n && node_reads id n.
Proof. unfold node_reads, own_reads. by destruct (negb (restricted n) || _). Qed.
Lemma own_edits_first id n : node_edits id n = own_edits id n && node_edits id n.
Proof. unfold node_edits, own_edits. by destruct (negb (restricted n) || _). Qed.

Lemma detach_rights n rest b id :
  composeDocumentAudience (n :: rest) = Some b → member_rights [detach n b] id = member_rights (n :: rest) id.
Proof.
  intros Hb. pose proof (composed_storable _ _ Hb) as [Hr He]. pose proof (composeDocumentAudience_spec (n :: rest)) as H.
  rewrite Hb in H. destruct H as (Hp & Hok & Hspec). destruct (Hspec id) as [Hread Hedit].
  unfold member_rights. rewrite Hp, Hok. cbn [andb].
  destruct (pathIsValid_nodes _ n Hp) as (H1 & H2 & H3); [left|].
  assert (pathIsValid [detach n b] = true) as ->.
  { unfold pathIsValid, detach. cbn [length valid_from n_id n_author n_org n_project n_parent].
    rewrite H1, H2, H3, !bool_decide_refl, bool_decide_eq_false_2 by apply not_elem_of_nil. done. }
  cbn [forallb]. assert (node_ok (detach n b) = true) as ->.
  { assert (node_metadata_ok n = true) as Hm by (cbn in Hok; unfold node_ok in Hok; bool_simplify; done).
    unfold node_ok. change (node_metadata_ok (detach n b)) with (node_metadata_ok n). rewrite Hm.
    cbn [detach n_barrier]. by rewrite !bool_decide_eq_true_2. }
  cbn [andb forallb]. rewrite (detach_reads n b id), (detach_edits n b id), Hread, Hedit. cbn [forallb].
  rewrite (own_reads_first id n), (own_edits_first id n). change (n_author (detach n b)) with (n_author n).
  destruct (own_reads id n), (own_edits id n), (node_reads id n), (node_edits id n), (forallb (node_reads id) rest),
    (forallb (node_edits id) rest); reflexivity.
Qed.

Section authorized.
Context (find_staff : string → string → option actor) (live deleted : notes).
Context (live_id : ∀ id n, live id = Some n → n_id n = id) (deleted_id : ∀ id n, deleted id = Some n → n_id n = id).

Lemma visible_id m id n : visible live deleted m id = Some n → n_id n = id.
Proof. unfold visible. destruct (live id) eqn:E; [intros [= <-]; by apply live_id|]. destruct (includeDeleted m); [apply deleted_id|done]. Qed.

(** Rights over a note detached with the barrier its path composed. *)
Lemma detach_documentAudienceRights n rest b v :
  composeDocumentAudience (n :: rest) = Some b →
  documentAudienceRights [detach n b] v = documentAudienceRights (n :: rest) v.
Proof.
  intros Hb. pose proof (detach_rights n rest b (a_id v) Hb) as Hd. rewrite <- !member_rights_spec in Hd.
  unfold documentAudienceRights. cbn [detach n_org]. destruct (negb (validId (a_id v)) || _ || _ || _ || _); [done|].
  destruct (bool_decide (a_role v = "ADMIN")); [done|]. exact Hd.
Qed.

(** The real path of ancestors of a note. *)
Definition ancestors (m : access_mode) (id : string) : list node :=
  walk (visible live deleted m) 200 [] (visible live deleted m id).

Lemma authorizeNote_inv id a m note r u p :
  authorizeNote find_staff live deleted id a m = Ok (note, r, u, p) →
  find_staff (a_id a) (a_org a) = Some u ∧ p = ancestors m id ∧ r = documentAudienceRights p u ∧ canRead r = true ∧
  (edit m = true → canEdit r = true) ∧ (manage m = true → canManage r = true) ∧
  (if includeDeleted m then deleted id else live id) = Some note.
Proof.
  unfold authorizeNote. intros (user & Hu & H)%bind_ok. unfold currentWikiStaff in Hu.
  destruct (bool_decide (a_org a = "") || _); [done|]. destruct (find_staff (a_id a) (a_org a)) as [u'|]; [|done]. simplify_eq.
  rewrite (load_path (visible live deleted m) (visible_id m)) in H by left. fold (ancestors m id) in H.
  destruct (canRead _) eqn:E1; [|done]. cbn [negb] in H.
  destruct (edit m && _) eqn:E2; [done|]. destruct (manage m && _) eqn:E3; [done|].
  destruct (if includeDeleted m then deleted id else live id) as [n|]; [|done]. simplify_eq.
  split_and!; try done; intros E; rewrite E in *; cbn [andb] in *; by bool_simplify.
Qed.

(** A document opens only along its whole path.  Whatever a
    request asks for is granted only to current active staff, from rights
    computed over the document's real chain of ancestors - the batched,
    bounded loading loses none of it - and for a member only if that chain is
    complete and every document on it lets them read, and edit when editing is
    asked for. *)
Lemma authorizeNote_permits id a m note r u p :
  authorizeNote find_staff live deleted id a m = Ok (note, r, u, p) →
  find_staff (a_id a) (a_org a) = Some u ∧ p = ancestors m id ∧ eligible p u = true ∧
  (a_role u ≠ "ADMIN" →
     pathIsValid p = true ∧ forallb (node_reads (a_id u)) p = true ∧
     (edit m = true → forallb (node_edits (a_id u)) p = true) ∧
     (manage m = true → match p with root :: _ => n_author root = a_id u | [] => False end)).
Proof.
  intros (Hu & Hp & Hr & Hread & Hedit & Hmanage & _)%authorizeNote_inv. split_and!; [done|done| |].
  - destruct (eligible p u) eqn:E; [done|]. unfold documentAudienceRights in Hr. unfold eligible in E.
    destruct p as [|root rest]; [by subst|]. subst r.
    destruct (validId (a_id u)), (validId (a_org u)), (a_active u), (is_staff (a_role u)), (bool_decide (n_org root = a_org u)); done.
  - intros Hadm. assert (r = member_rights p (a_id u)) as Hm.
    { rewrite Hr. unfold documentAudienceRights. destruct p as [|root rest]; [done|]. rewrite <- member_rights_spec.
      destruct (negb (validId (a_id u)) || _ || _ || _ || _) eqn:E; [|rewrite bool_decide_neq by done; reflexivity].
      exfalso. unfold documentAudienceRights in Hr. rewrite E in Hr. by subst r. }
    rewrite Hm in *. unfold member_rights in *. destruct (pathIsValid p) eqn:Ev; [|done].
    destruct (forallb node_ok p); [|done]. cbn [andb canRead canEdit canManage] in *. split_and!; [done|done| |].
    + intros E. specialize (Hedit E). by bool_simplify.
    + intros E. specialize (Hmanage E). apply andb_true_iff' in Hmanage as [_ Hm2]. destruct p; [done|]. by bool_simplify.
Qed.

(** Restoring a document opens it to nobody new.  Only who may
    manage a deleted document restores it.  It comes back under its parent when
    that is a live document of the same project in which the actor may edit,
    and as a bare root only when it had no parent.  Otherwise its parents are
    gone, and the barrier stored with it makes its rights, recomputed from the
    note alone, those its whole deleted path gave - for every actor, and however
    large the audiences, for what is composed always satisfies the bounds that
    reading a barrier enforces. *)
Lemma noteRestoreData_keeps_audience id a data :
  noteRestoreData find_staff live deleted id a = Ok data →
  ∃ u note, find_staff (a_id a) (a_org a) = Some u ∧ deleted id = Some note ∧
    canManage (documentAudienceRights (ancestors (Mode false true true) id) u) = true ∧
    match data with
    | RestoreRoot => n_parent note = None ∨ n_parent note = Some ""
    | RestoreUnder parentId => n_parent note = Some parentId ∧
        (∃ parent, live parentId = Some parent ∧ n_project parent = n_project note) ∧
        canEdit (documentAudienceRights (ancestors (Mode true false false) parentId) u) = true
    | RestoreDetached b => n_parent note ≠ None ∧ ∃ n rest, ancestors (Mode false true true) id = n :: rest ∧
        ∀ v, documentAudienceRights [detach n b] v = documentAudienceRights (ancestors (Mode false true true) id) v
    end.
Proof.
  unfold noteRestoreData. intros ([[[note r] u] p] & Ha & H)%bind_ok.
  apply authorizeNote_inv in Ha as (Hu & -> & -> & _ & _ & Hm & Hn). exists u, note. split_and!; [done..|by apply Hm|].
  assert (∀ b, composeDocumentAudience (ancestors (Mode false true true) id) = Some b → n_parent note ≠ None →
    n_parent note ≠ None ∧ ∃ n rest, ancestors (Mode false true true) id = n :: rest ∧
      ∀ v, documentAudienceRights [detach n b] v = documentAudienceRights (ancestors (Mode false true true) id) v) as Hdet.
  { intros b Hb Hne. split; [done|]. destruct (ancestors _ id) as [|n rest]; [done|]. exists n, rest. split; [done|]. intros v.
    by apply detach_documentAudienceRights. }
  destruct (n_parent note) as [[|c pr]|]; [simplify_eq; by right| |simplify_eq; by left].
  destruct (live (String c pr)) as [parent|] eqn:El; [|destruct (composeDocumentAudience _) eqn:Eb; simplify_eq; by apply Hdet].
  case_bool_decide as Hproj; [|destruct (composeDocumentAudience _) eqn:Eb; simplify_eq; by apply Hdet].
  apply bind_ok in H as ([[[n' r'] u'] p'] & (Hu' & -> & -> & _ & He & _)%authorizeNote_inv & H). simplify_eq.
  rewrite (live_id _ _ El) in *. split_and!; [done|by exists parent|by apply He].
Qed.
End authorized.

(** ** A private folder with a shared page *)

Definition demo_folder : node := Node "folder" "ann" "acme" (Some "p") None "RESTRICTED" (Some [Grant "bob" "READ"]) None.
Definition demo_page : node := Node "page" "ann" "acme" (Some "p") (Some "folder") "TEAM" (Some []) None.
Definition demo_notes : notes := λ id,
  if bool_decide (id = "folder") then Some demo_folder else if bool_decide (id = "page") then Some demo_page else None.
Definition demo_staff (id org : string) : option actor :=
  if bool_decide (org = "acme") && (bool_decide (id = "bob") || bool_decide (id = "ann") || bool_decide (id = "cy"))
  then Some (Actor id "acme" "TEAM" true) else None.
Definition demo_bob : actor := Actor "bob" "acme" "TEAM" true.
Definition demo_ann : actor := Actor "ann" "acme" "TEAM" true.
Definition demo_barrier : composed := Composed (Some ["ann"; "bob"]) (Some ["ann"]).

Lemma demo_ids id n : demo_notes id = Some n → n_id n = id.
Proof. unfold demo_notes. repeat case_bool_decide; intros; by simplify_eq. Qed.
Lemma no_ids id n : (λ _ : string, None) id = Some n → n_id n = id.
Proof. done. Qed.

Lemma authorizeNote_permits_witness :
  authorizeNote demo_staff demo_notes (λ _, None) "page" (Actor "cy" "acme" "TEAM" true) (Mode false false false) = Err DocumentNotFound ∧
  authorizeNote demo_staff demo_notes (λ _, None) "page" demo_bob (Mode true false false) = Err ReadOnly ∧
  forallb (node_reads "bob") [demo_page; demo_folder] = true.
Proof.
  split; [by vm_compute|]. split; [by vm_compute|].
  destruct (authorizeNote_permits demo_staff demo_notes (λ _, None) demo_ids no_ids "page" demo_bob (Mode false false false)
    demo_page (Rights true false false) demo_bob [demo_page; demo_folder]) as (_ & _ & _ & H); [by vm_compute|].
  by apply H.
Defined.

Lemma noteRestoreData_keeps_audience_witness :
  documentAudienceRights [detach demo_page demo_barrier] demo_bob = Rights true false false ∧
  ∃ n rest, ancestors (λ _, None) demo_notes (Mode false true true) "page" = n :: rest ∧
    ∀ u, documentAudienceRights [detach n demo_barrier] u = documentAudienceRights (ancestors (λ _, None) demo_notes (Mode false true true) "page") u.
Proof.
  split; [by vm_compute|].
  destruct (noteRestoreData_keeps_audience demo_staff (λ _, None) demo_notes no_ids demo_ids "page" demo_ann
    (RestoreDetached demo_barrier)) as (? & ? & _ & _ & _ & _ & H); [by vm_compute|]. exact H.
Defined.

End Audiences.
