(* ===== verification/Recurrence.v ===== *)
(** * Recurring tasks

    src/src/shared/task-recurrence.js (when a task repeats) and
    src/src/services/task-recurrence.service.js (saving a schedule, generating
    the copies).  Dates are day numbers of [Calendar]; the code's fixed-width
    ISO texts order as the days they name. *)

From S2P Require Import Prelude Calendar.
Import Calendar.

Module Recurrence.

(** ** Rules *)

Inductive frequency := DAILY | WEEKLY | MONTHLY.
#[export] Instance frequency_eq_dec : EqDecision frequency.
Proof. solve_decision. Defined.

(** [r_after]: the trigger is [AFTER_COMPLETION]. *)
Record rule := Rule { r_after : bool; r_frequency : frequency; r_interval : Z; r_start : Z; r_zone : string }.

Definition with_start (r : rule) (start : Z) : rule := Rule (r_after r) (r_frequency r) (r_interval r) start (r_zone r).

(** The monthly occurrence [count] intervals from the start: the same day of
    the month, or the month's last. *)
Definition candidate (r : rule) (count : Z) : Z :=
  let mi := month_of (r_start r) + count * r_interval r in
  month_start mi + Z.min (date_of (r_start r)) (month_length mi) - 1.

(** The [for (;;)] of the monthly case; [fuel] turns. *)
Fixpoint monthly_loop (fuel : nat) (r : rule) (after count : Z) : option Z :=
  match fuel with
  | O => None
  | S fuel => if after <? candidate r count then Some (candidate r count) else monthly_loop fuel r after (count + 1)
  end.

(** Two turns are enough ([monthly_loop_answers]). *)
Definition MONTHLY_TURNS : nat := 2.

(* src/src/shared/task-recurrence.js:19-39 recurrenceAfter *)
Definition recurrenceAfter (r : rule) (after : Z) : Z :=
  if after <? r_start r then r_start r
  else match r_frequency r with
       | MONTHLY =>
           let elapsedMonths := month_of after - month_of (r_start r) in
           default after (monthly_loop MONTHLY_TURNS r after (Z.max 0 (elapsedMonths / r_interval r)))
       | f =>
           let days := r_interval r * (if bool_decide (f = WEEKLY) then 7 else 1) in
           let elapsed := after - r_start r in
           r_start r + (elapsed / days + 1) * days
       end.

(* src/src/shared/task-recurrence.js:40-44 firstRecurrenceOnOrAfter *)
Definition firstRecurrenceOnOrAfter (r : rule) (today : Z) : Z := recurrenceAfter r (today - 1).

(** The occurrences of a rule, in order. *)
Definition occurrence (r : rule) (k : Z) : Z :=
  match r_frequency r with
  | MONTHLY => candidate r k
  | DAILY => r_start r + k * r_interval r
  | WEEKLY => r_start r + k * (r_interval r * 7)
  end.

Lemma candidate_month r k : month_start (month_of (r_start r) + k * r_interval r) ≤ candidate r k <
  month_start (month_of (r_start r) + k * r_interval r + 1).
Proof.
  unfold candidate. generalize (month_of (r_start r) + k * r_interval r). intros mi. cbv zeta.
  pose proof (date_of_bounds (r_start r)) as Hd. pose proof (month_length_bounds mi) as Hl.
  pose proof (month_length_eq mi) as He. revert Hd Hl He.
  generalize (date_of (r_start r)), (month_length mi), (month_length (month_of (r_start r))), (month_start mi), (month_start (mi + 1)). lia.
Qed.

Lemma candidate_mono r j k : 0 < r_interval r → j ≤ k → candidate r j ≤ candidate r k.
Proof.
  intros Hi Hjk. destruct (decide (j = k)) as [->|]; [lia|].
  pose proof (candidate_month r j). pose proof (candidate_month r k).
  assert (month_of (r_start r) + j * r_interval r + 1 ≤ month_of (r_start r) + k * r_interval r) as Hm by nia.
  pose proof (month_start_mono _ _ Hm). lia.
Qed.

Lemma candidate_0 r : candidate r 0 = r_start r.
Proof.
  unfold candidate. rewrite Z.mul_0_l, Z.add_0_r. pose proof (date_of_bounds (r_start r)). rewrite Z.min_l by lia.
  symmetry. apply date_of_eq.
Qed.

(** Where the monthly search starts: earlier occurrences are over, and the
    next one but one is not. *)
Lemma monthly_bracket r after :
  0 < r_interval r → r_start r ≤ after →
  let c := (month_of after - month_of (r_start r)) / r_interval r in
  0 ≤ c ∧ after < candidate r (c + 1) ∧ ∀ k, k < c → candidate r k ≤ after.
Proof.
  intros Hi Hs c. pose proof (month_of_spec after) as Ha. pose proof (month_of_spec (r_start r)) as Hst.
  assert (month_of (r_start r) ≤ month_of after) as Hm.
  { destruct (Z.le_gt_cases (month_of (r_start r)) (month_of after)) as [?|Hgt]; [done|exfalso].
    pose proof (month_start_mono (month_of after + 1) (month_of (r_start r)) ltac:(lia)). lia. }
  assert (0 ≤ c) as Hc by (apply Z.div_pos; lia). split; [done|].
  pose proof (Z.mul_div_le (month_of after - month_of (r_start r)) (r_interval r) Hi) as Hlo.
  pose proof (Z.mul_succ_div_gt (month_of after - month_of (r_start r)) (r_interval r) Hi) as Hhi.
  fold c in Hlo, Hhi. split.
  - pose proof (candidate_month r (c + 1)). assert (month_of after + 1 ≤ month_of (r_start r) + (c + 1) * r_interval r) as Hle by nia.
    pose proof (month_start_mono _ _ Hle). lia.
  - intros k Hk. pose proof (candidate_month r k).
    assert (month_of (r_start r) + k * r_interval r + 1 ≤ month_of after) as Hle by nia.
    pose proof (month_start_mono _ _ Hle). lia.
Qed.

(** The loop answers within two turns, with the first occurrence after. *)
Lemma monthly_loop_answers r after :
  0 < r_interval r → r_start r ≤ after →
  ∃ k, 0 ≤ k ∧ monthly_loop MONTHLY_TURNS r after (Z.max 0 ((month_of after - month_of (r_start r)) / r_interval r)) = Some (candidate r k) ∧
    after < candidate r k ∧ ∀ j, 0 ≤ j → after < candidate r j → candidate r k ≤ candidate r j.
Proof.
  intros Hi Hs. destruct (monthly_bracket r after Hi Hs) as (Hc & Hnext & Hold).
  set (c := (month_of after - month_of (r_start r)) / r_interval r) in *. rewrite Z.max_r by done.
  unfold MONTHLY_TURNS. cbn [monthly_loop]. destruct (Z.ltb_spec after (candidate r c)) as [Hlt|Hge].
  - exists c. split_and!; [done|done|done|]. intros j _ Hj. apply candidate_mono; [done|].
    destruct (Z.le_gt_cases c j); [done|]. pose proof (Hold j). lia.
  - rewrite (proj2 (Z.ltb_lt _ _) Hnext). exists (c + 1). split_and!; [lia|done|done|]. intros j _ Hj.
    apply candidate_mono; [done|]. destruct (decide (j = c)) as [->|]; [lia|].
    destruct (Z.le_gt_cases c j); [lia|]. pose proof (Hold j). lia.
Qed.

Lemma stepping days start after :
  0 < days → start ≤ after →
  let d := start + ((after - start) / days + 1) * days in
  after < d ∧ (∃ k, 0 ≤ k ∧ d = start + k * days) ∧ ∀ k, 0 ≤ k → after < start + k * days → d ≤ start + k * days.
Proof.
  intros Hd Hs d. pose proof (Z.mul_div_le (after - start) days Hd). pose proof (Z.mul_succ_div_gt (after - start) days Hd).
  unfold d. split_and!; [nia| |].
  - exists ((after - start) / days + 1). split; [|done]. assert (0 ≤ (after - start) / days) by (apply Z.div_pos; lia). lia.
  - intros k _ Hk. assert ((after - start) / days < k) by (apply Z.div_lt_upper_bound; nia). nia.
Qed.

Lemma recurrenceAfter_bound r after :
  0 < r_interval r →
  after < recurrenceAfter r after ∧
  (∃ k, 0 ≤ k ∧ recurrenceAfter r after = occurrence r k) ∧
  ∀ k, 0 ≤ k → after < occurrence r k → recurrenceAfter r after ≤ occurrence r k.
Proof.
  intros Hi. unfold recurrenceAfter, occurrence. destruct (Z.ltb_spec after (r_start r)) as [Hlt|Hs].
  - split; [done|]. destruct (r_frequency r); (split; [exists 0; rewrite ?candidate_0; lia|]); intros k Hk _; [nia|nia|].
    rewrite <- (candidate_0 r) at 1. by apply candidate_mono.
  - destruct (r_frequency r) eqn:Ef.
    + rewrite bool_decide_neq, Z.mul_1_r by done. by apply stepping.
    + rewrite bool_decide_refl. apply stepping; [lia|done].
    + destruct (monthly_loop_answers r after Hi Hs) as (k & Hk & -> & Hlt & Hmin). split_and!; [done|by exists k|done].
Qed.

(** A schedule's next date is its next occurrence.  For every
    frequency, interval and date - month ends and leap years included - the
    date computed is strictly after the given one, is an occurrence of the rule
    counted from its original start, and no occurrence lies between. *)
Lemma recurrenceAfter_next r after :
  0 < r_interval r →
  after < recurrenceAfter r after ∧
  (∃ k, 0 ≤ k ∧ recurrenceAfter r after = occurrence r k) ∧
  ∀ k, 0 ≤ k → after < occurrence r k → recurrenceAfter r after ≤ occurrence r k.
Proof. apply recurrenceAfter_bound. Qed.

(** Jan 31, monthly: Feb 29 of a leap year, then Mar 31. *)
Lemma recurrenceAfter_next_witness :
  recurrenceAfter (Rule false MONTHLY 1 19753 "UTC") 19753 = 19782 ∧ recurrenceAfter (Rule false MONTHLY 1 19753 "UTC") 19782 = 19813 ∧
  19753 < recurrenceAfter (Rule false MONTHLY 1 19753 "UTC") 19753.
Proof. split; [by vm_compute|]. split; [by vm_compute|]. apply (recurrenceAfter_next (Rule false MONTHLY 1 19753 "UTC") 19753). cbn. lia. Defined.

End Recurrence.
