(* ===== verification/RecurringTasks.v ===== *)
(** * Recurring tasks: the service

    src/src/services/task-recurrence.service.js over the task table: saving a
    schedule, the daily job that copies a due task once and moves its schedule
    on, and the job that repeats completed tasks.  A job works from rows it read
    before its transactions, which other processes may have changed since. *)

From S2P Require Import Prelude Calendar Recurrence.
Import Recurrence.

Module RecurringTasks.

Section tasks.
(** What a copy takes over unchanged: title, content, tags, priority, ... *)
Context {body : Type}.

(** The rule column: empty, a valid rule, or one that does not parse (and
    whether its trigger still reads AFTER_COMPLETION). *)
Inductive stored_rule := NoRule | GoodRule (r : rule) | BadRule (after_completion : bool).

Record task := Task {
  t_project : string; t_board : option string; t_body : body; t_status : string; t_deleted : bool;
  t_assignee : option string; t_contributors : list string; t_due : option Z;
  t_rule : stored_rule; t_next : option Z; t_last : option Z; t_revision : Z;
  t_source : option string; t_scheduled : option Z;          (** of a copy: whose, and for which date *)
  t_completion : option string;                              (** of a repeat: the completed task *)
  t_first : option Z; t_processed : option Z                 (** first completion (ms), and when it was handled *)
}.

Definition with_schedule (t : task) (r : stored_rule) (next last : option Z) (revision : Z) : task :=
  Task (t_project t) (t_board t) (t_body t) (t_status t) (t_deleted t) (t_assignee t) (t_contributors t) (t_due t)
    r next last revision (t_source t) (t_scheduled t) (t_completion t) (t_first t) (t_processed t).
Definition with_processed (t : task) (now : Z) : task :=
  Task (t_project t) (t_board t) (t_body t) (t_status t) (t_deleted t) (t_assignee t) (t_contributors t) (t_due t)
    (t_rule t) (t_next t) (t_last t) (t_revision t) (t_source t) (t_scheduled t) (t_completion t) (t_first t) (Some now).

(** What a moment's queries see besides the tasks: which projects are live and
    active, which boards are not archived, who is active staff of a project's
    organization, and the local date of an instant in a zone ([dateInZone]). *)
Record surroundings := Surroundings {
  e_project : string → bool; e_board : string → bool; e_staff : string → string → bool; e_date : Z → string → Z
}.

Inductive failure := TaskNotFound | CopySchedule | Conflict | InvalidSchedule.

Definition is_after (r : stored_rule) : bool :=
  match r with GoodRule r => r_after r | BadRule b => b | NoRule => false end.

Definition active_board (env : surroundings) (t : task) : bool :=
  match t_board t with None => true | Some b => e_board env b end.

(** Every open completion of a schedule's tasks counts as handled. *)
Definition silence (id : string) (now : Z) (k : string) (t : task) : task :=
  if (bool_decide (k = id) || bool_decide (t_source t = Some id)) && bool_decide (is_Some (t_first t)) &&
     bool_decide (t_processed t = None) then with_processed t now else t.

(** The next date a saved rule gets: never one generated before. *)
Definition saved_next (env : surroundings) (r : option rule) (t : task) (now : Z) : option Z :=
  match r with
  | Some r =>
      if r_after r then None
      else
        let next := firstRecurrenceOnOrAfter r (e_date env now (r_zone r)) in
        match t_last t with
        | Some l => if next <=? l then Some (recurrenceAfter r l) else Some next
        | None => Some next
        end
  | None => None
  end.

(** The transaction is serializable; [now] is in milliseconds. *)
(* src/src/services/task-recurrence.service.js:14-31 saveTaskRecurrenceInTransaction *)
Definition saveTaskRecurrence (env : surroundings) (id : string) (r : option rule) (revision : Z) (projectId : option string)
    (now : Z) (d : gmap string task) : result failure unit * gmap string task :=
  match d !! id with
  | None => (Err TaskNotFound, d)
  | Some t =>
      if t_deleted t || negb (match projectId with Some p => bool_decide (t_project t = p) | None => true end)
      then (Err TaskNotFound, d)
      else if bool_decide (is_Some (t_source t)) then (Err CopySchedule, d)
      else if negb (t_revision t =? revision) then (Err Conflict, d)
      else
        let afterCompletion := match r with Some r => r_after r | None => false end in
        let activatingCompletion := afterCompletion && negb (is_after (t_rule t)) in
        let t' := with_schedule t (match r with Some r => GoodRule r | None => NoRule end) (saved_next env r t now) (t_last t) (t_revision t + 1) in
        let d := <[id := t']> d in
        (Ok tt, if activatingCompletion then map_imap (λ k t, Some (silence id now k t)) d else d)
  end.

(** A copy: the assignee and contributors only while they are active staff. *)
(* src/src/services/task-recurrence.service.js:33-43 copyRecurringTask *)
Definition copyRecurringTask (env : surroundings) (live : task) (due : Z) (source : string) (scheduled : option Z)
    (completion : option string) : task :=
  let active u := e_staff env (t_project live) u in
  Task (t_project live) (t_board live) (t_body live) "PENDING" false
    (match t_assignee live with Some u => if active u then Some u else None | None => None end)
    (take 30 (isort String.leb (List.filter active (t_contributors live))))
    (Some due) NoRule None None 0 (Some source) scheduled completion None None.

(** ** The calendar job *)

Definition due_source (env : surroundings) (t : task) : bool :=
  negb (t_deleted t) && active_board env t && bool_decide (is_Some (t_next t)) && e_project env (t_project t).

(** One source of the job, from the row [source] it read; [newId] is the id of
    the copy.  The answer is whether a copy was generated. *)
Definition generate_one (env : surroundings) (now : Z) (id : string) (source : task) (newId : string) (d : gmap string task)
  : result failure bool * gmap string task :=
  match t_rule source with
  | GoodRule r =>
      if r_after r then (Ok false, d)
      else
        let today := e_date env now (r_zone r) in
        let scheduled := default 0 (t_next source) in
        if today <? scheduled then (Ok false, d)
        else
          let next := recurrenceAfter r today in
          match d !! id with
          | Some live =>
              if negb (t_deleted live) && active_board env live && e_project env (t_project live) &&
                 bool_decide (t_next live = Some scheduled) && (t_revision live =? t_revision source) then
                let d := <[id := with_schedule live (t_rule live) (Some next) (Some scheduled) (t_revision live)]> d in
                (Ok true, <[newId := copyRecurringTask env live scheduled id (Some scheduled) None]> d)
              else (Ok false, d)
          | None => (Ok false, d)
          end
  | _ => (Err InvalidSchedule, d)
  end.

Record job := Job { generated : nat; examined : nat; failures : list string }.

(** A page of the job's query: the next hundred sources by id. *)
Definition page (env : surroundings) (after : option string) (d : gmap string task) : list (string * task) :=
  take 100 (isort (λ a b, String.leb a.1 b.1)
    (List.filter (λ it, due_source env it.2 && match after with Some a => String.ltb a it.1 | None => true end) (map_to_list d))).

Fixpoint generate_all (env : surroundings) (now : Z) (new_id : string → string) (sources : list (string * task)) (j : job) (d : gmap string task)
  : job * gmap string task :=
  match sources with
  | [] => (j, d)
  | (id, source) :: sources =>
      let '(r, d) := generate_one env now id source (new_id id) d in
      let j := match r with
               | Ok b => Job (generated j + if b then 1 else 0) (S (examined j)) (failures j)
               | Err _ => Job (generated j) (S (examined j)) (failures j ++ [id])
               end in
      generate_all env now new_id sources j d
  end.

(** The job with no other process writing; [fuel] pages. *)
(* src/src/services/task-recurrence.service.js:94-130 processRecurringTasks *)
Fixpoint processRecurringTasks (fuel : nat) (env : surroundings) (now : Z) (new_id : string → string) (after : option string)
    (j : job) (d : gmap string task) : option (job * gmap string task) :=
  match fuel with
  | O => None
  | S fuel =>
      let sources := page env after d in
      let '(j, d) := generate_all env now new_id sources j d in
      if (length sources <? 100)%nat then Some (j, d)
      else processRecurringTasks fuel env now new_id (fst <$> last sources) j d
  end.

(** ** The completion job *)

Definition completion_root (env : surroundings) (t : task) : bool :=
  active_board env t && negb (t_deleted t) && bool_decide (t_source t = None) && is_after (t_rule t) && e_project env (t_project t).

Definition completed_task (env : surroundings) (root id : string) (t : task) : bool :=
  active_board env t && negb (t_deleted t) && (bool_decide (id = root) || bool_decide (t_source t = Some root)) &&
  bool_decide (t_status t = "COMPLETED") && bool_decide (t_processed t = None) && e_project env (t_project t).

(* src/src/shared/task-recurrence.js:46-49 completionRepeatDate *)
Definition completionRepeatDate (env : surroundings) (r : rule) (completedAt : Z) : Z :=
  let completedDate := e_date env completedAt (r_zone r) in
  recurrenceAfter (with_start r completedDate) completedDate.

(** One completed task of a schedule, in its serializable transaction; only
    the two ids come from earlier reads. *)
Definition repeat_one (env : surroundings) (now : Z) (rootId id newId : string) (d : gmap string task) : result failure bool * gmap string task :=
  match d !! id, d !! rootId with
  | Some live, Some root =>
      if negb (completed_task env rootId id live) || negb (bool_decide (is_Some (t_first live))) then (Ok false, d)
      else if negb (completion_root env root) ||
              negb (bool_decide (t_project root = t_project live)) then (Ok false, d)
      else match t_rule root with
           | GoodRule r =>
               let d := <[id := with_processed live now]> d in
               (Ok true, <[newId := copyRecurringTask env live (completionRepeatDate env r (default 0 (t_first live))) rootId None (Some id)]> d)
           | _ => (Err InvalidSchedule, d)
           end
  | _, _ => (Ok false, d)
  end.

Fixpoint repeat_candidates (env : surroundings) (now : Z) (new_id : string → string) (rootId : string) (ids : list string)
    (j : job) (d : gmap string task) : job * gmap string task :=
  match ids with
  | [] => (j, d)
  | id :: ids =>
      let '(r, d) := repeat_one env now rootId id (new_id id) d in
      let j := match r with
               | Ok b => Job (generated j + if b then 1 else 0) (S (examined j)) (failures j)
               | Err _ => Job (generated j) (S (examined j)) (failures j ++ [id])
               end in
      repeat_candidates env now new_id rootId ids j d
  end.

(** Ids of the tasks a query selects, a page of a hundred after [after]. *)
Definition id_page (P : string → task → bool) (after : option string) (d : gmap string task) : list string :=
  take 100 (isort String.leb
    (fst <$> List.filter (λ it, P it.1 it.2 && match after with Some a => String.ltb a it.1 | None => true end) (map_to_list d))).

Fixpoint repeat_root (fuel : nat) (env : surroundings) (now : Z) (new_id : string → string) (rootId : string)
    (completedAfter : option string) (j : job) (d : gmap string task) : option (job * gmap string task) :=
  match fuel with
  | O => None
  | S fuel =>
      let completed := id_page (λ id t, completed_task env rootId id t && bool_decide (is_Some (t_first t))) completedAfter d in
      let '(j, d) := repeat_candidates env now new_id rootId completed j d in
      if (length completed <? 100)%nat then Some (j, d)
      else repeat_root fuel env now new_id rootId (last completed) j d
  end.

Fixpoint repeat_roots (fuel : nat) (env : surroundings) (now : Z) (new_id : string → string) (roots : list string)
    (j : job) (d : gmap string task) : option (job * gmap string task) :=
  match roots with
  | [] => Some (j, d)
  | root :: roots => '(j, d) ← repeat_root fuel env now new_id root None j d; repeat_roots fuel env now new_id roots j d
  end.

(* src/src/services/task-recurrence.service.js:47-91 processCompletionRepeats *)
Fixpoint processCompletionRepeats (pages fuel : nat) (env : surroundings) (now : Z) (new_id : string → string)
    (after : option string) (j : job) (d : gmap string task) : option (job * gmap string task) :=
  match pages with
  | O => None
  | S pages =>
      let roots := id_page (λ _, completion_root env) after d in
      '(j, d) ← repeat_roots fuel env now new_id roots j d;
      if (length roots <? 100)%nat then Some (j, d)
      else processCompletionRepeats pages fuel env now new_id (last roots) j d
  end.

(** ** Every interleaving *)

Definition rule_ok (r : stored_rule) : Prop := match r with GoodRule r => 0 < r_interval r | _ => True end.

(** The books of the copies. *)
Record books (d : gmap string task) : Prop := Books {
  bk_rule : ∀ id t, d !! id = Some t → rule_ok (t_rule t);
  bk_order : ∀ id t l n, d !! id = Some t → t_last t = Some l → t_next t = Some n → l < n;
  bk_source : ∀ c tc id, d !! c = Some tc → t_source tc = Some id → is_Some (d !! id);
  bk_last : ∀ c tc id s t, d !! c = Some tc → t_source tc = Some id → t_scheduled tc = Some s → d !! id = Some t →
    ∃ l, t_last t = Some l ∧ s ≤ l;
  bk_once : ∀ c c' tc tc' id s, d !! c = Some tc → d !! c' = Some tc' → t_source tc = Some id → t_source tc' = Some id →
    t_scheduled tc = Some s → t_scheduled tc' = Some s → c = c';
  bk_done : ∀ c tc id, d !! c = Some tc → t_completion tc = Some id → ∃ t, d !! id = Some t ∧ is_Some (t_processed t);
  bk_repeat : ∀ c c' tc tc' id, d !! c = Some tc → d !! c' = Some tc' → t_completion tc = Some id → t_completion tc' = Some id → c = c'
}.

(** Other code creates tasks without a history and edits the rest of a task. *)
Definition same_schedule (t t' : task) : Prop :=
  t_rule t' = t_rule t ∧ t_next t' = t_next t ∧ t_last t' = t_last t ∧ t_revision t' = t_revision t ∧
  t_source t' = t_source t ∧ t_scheduled t' = t_scheduled t ∧ t_completion t' = t_completion t ∧ t_processed t' = t_processed t.
Definition plain (t : task) : Prop :=
  t_rule t = NoRule ∧ t_next t = None ∧ t_last t = None ∧ t_source t = None ∧ t_scheduled t = None ∧ t_completion t = None.
Definition edits (d d' : gmap string task) : Prop := ∀ id,
  match d !! id, d' !! id with
  | Some t, Some t' => same_schedule t t'
  | None, Some t' => plain t'
  | Some _, None => False
  | None, None => True
  end.

(** What an earlier reading of a task still says. *)
Definition follows (t0 t : task) : Prop :=
  t_revision t0 ≤ t_revision t ∧ (t_revision t0 = t_revision t → t_rule t = t_rule t0).
Definition later (d0 d : gmap string task) : Prop := ∀ id t0, d0 !! id = Some t0 → ∃ t, d !! id = Some t ∧ follows t0 t.

Lemma follows_refl t : follows t t.
Proof. split; [lia|done]. Qed.
Lemma later_refl d : later d d.
Proof. intros id t Ht. exists t. split; [done|apply follows_refl]. Qed.
Lemma later_trans d1 d2 d3 : later d1 d2 → later d2 d3 → later d1 d3.
Proof.
  intros H1 H2 id t1 Ht1. destruct (H1 id t1 Ht1) as (t2 & Ht2 & Hle & He). destruct (H2 id t2 Ht2) as (t3 & Ht3 & Hle' & He').
  exists t3. split; [done|]. split; [lia|]. intros E. rewrite He' by lia. apply He. lia.
Qed.

(** The databases of a run, the latest first; a job's source row is one read
    in any of them. *)
Inductive run : list (gmap string task) → Prop :=
  | run_start d : (∀ id t, d !! id = Some t → plain t) → run [d]
  | run_edit d d' h : run (d :: h) → edits d d' → run (d' :: d :: h)
  | run_save d h env id r revision projectId now : run (d :: h) → (∀ r0, r = Some r0 → 0 < r_interval r0) →
      run ((saveTaskRecurrence env id r revision projectId now d).2 :: d :: h)
  | run_generate d h d0 env now id source newId : run (d :: h) → d0 ∈ d :: h → d0 !! id = Some source → d !! newId = None →
      run ((generate_one env now id source newId d).2 :: d :: h)
  | run_repeat d h env now rootId id newId : run (d :: h) → d !! newId = None →
      run ((repeat_one env now rootId id newId d).2 :: d :: h).

(** A task whose recurrence columns are those of [t], its schedule apart. *)
Lemma books_update d id t t' :
  books d → d !! id = Some t → t_source t' = t_source t → t_scheduled t' = t_scheduled t → t_completion t' = t_completion t →
  rule_ok (t_rule t') → (∀ l n, t_last t' = Some l → t_next t' = Some n → l < n) →
  (∀ l, t_last t = Some l → ∃ l', t_last t' = Some l' ∧ l ≤ l') → (is_Some (t_processed t) → is_Some (t_processed t')) →
  books (<[id := t']> d).
Proof.
  intros [H1 H2 H3 H4 H5 H6 H7] Hid Es Ec Em Hr Ho Hl Hp.
  assert (∀ c tc, <[id := t']> d !! c = Some tc → ∃ tc0, d !! c = Some tc0 ∧ t_source tc = t_source tc0 ∧
    t_scheduled tc = t_scheduled tc0 ∧ t_completion tc = t_completion tc0) as Hback.
  { intros c tc. destruct (decide (id = c)) as [<-|Hne].
    - rewrite lookup_insert_eq. intros [= <-]. by exists t.
    - rewrite lookup_insert_ne by done. intros Hc. by exists tc. }
  constructor.
  - intros c tc. destruct (decide (id = c)) as [<-|Hne]; [rewrite lookup_insert_eq; by intros [= <-]|rewrite lookup_insert_ne by done; apply H1].
  - intros c tc l n. destruct (decide (id = c)) as [<-|Hne]; [rewrite lookup_insert_eq; intros [= <-]; apply Ho|].
    rewrite lookup_insert_ne by done. apply H2.
  - intros c tc k (tc0 & Hc & -> & _)%Hback Hk. destruct (decide (id = k)) as [<-|Hne]; [rewrite lookup_insert_eq; by eexists|].
    rewrite lookup_insert_ne by done. by eapply H3.
  - intros c tc k s tk (tc0 & Hc & -> & -> & _)%Hback Hk Hs. destruct (decide (id = k)) as [<-|Hne].
    + rewrite lookup_insert_eq. intros [= <-]. destruct (H4 c tc0 id s t Hc Hk Hs Hid) as (l & Hl0 & Hle).
      destruct (Hl l Hl0) as (l' & Hl' & ?). exists l'. split; [done|lia].
    + rewrite lookup_insert_ne by done. by apply (H4 c tc0).
  - intros c c' tc tc' k s (tc0 & Hc & -> & -> & _)%Hback (tc1 & Hc' & -> & -> & _)%Hback. by apply H5.
  - intros c tc k (tc0 & Hc & _ & _ & ->)%Hback Hk. destruct (H6 c tc0 k Hc Hk) as (tk & Htk & Hpk).
    destruct (decide (id = k)) as [<-|Hne]; [rewrite lookup_insert_eq; exists t'; split; [done|]; apply Hp; congruence|].
    rewrite lookup_insert_ne by done. by exists tk.
  - intros c c' tc tc' k (tc0 & Hc & _ & _ & ->)%Hback (tc1 & Hc' & _ & _ & ->)%Hback. by apply H7.
Qed.

(** A new task that repeats nothing recorded before. *)
Lemma books_insert d id t :
  books d → d !! id = None → t_rule t = NoRule → t_next t = None → t_source t ≠ Some id → t_completion t ≠ Some id →
  (∀ k, t_source t = Some k → is_Some (d !! k)) →
  (∀ k s, t_source t = Some k → t_scheduled t = Some s →
     (∀ tk, d !! k = Some tk → ∃ l, t_last tk = Some l ∧ s ≤ l) ∧
     ∀ c tc, d !! c = Some tc → t_source tc = Some k → t_scheduled tc ≠ Some s) →
  (∀ k, t_completion t = Some k → (∃ tk, d !! k = Some tk ∧ is_Some (t_processed tk)) ∧ ∀ c tc, d !! c = Some tc → t_completion tc ≠ Some k) →
  books (<[id := t]> d).
Proof.
  intros [H1 H2 H3 H4 H5 H6 H7] Hid Hr Hn Hns Hnc Hs Hsch Hcom. constructor.
  - intros c tc. destruct (decide (id = c)) as [<-|Hne]; [rewrite lookup_insert_eq; intros [= <-]; by rewrite Hr|].
    rewrite lookup_insert_ne by done. apply H1.
  - intros c tc l n. destruct (decide (id = c)) as [<-|Hne]; [rewrite lookup_insert_eq; intros [= <-]; congruence|].
    rewrite lookup_insert_ne by done. apply H2.
  - intros c tc k. destruct (decide (id = c)) as [<-|Hne]; [rewrite lookup_insert_eq; intros [= <-]|rewrite lookup_insert_ne by done; intros Hc];
      intros Hk; (destruct (decide (id = k)) as [<-|]; [rewrite lookup_insert_eq; by eexists|rewrite lookup_insert_ne by done; eauto]).
  - intros c tc k s tk Hc Hk Hss. destruct (decide (id = k)) as [<-|Hnk].
    + exfalso. destruct (decide (id = c)) as [<-|Hne]; [rewrite lookup_insert_eq in Hc; by simplify_eq|].
      rewrite lookup_insert_ne in Hc by done. destruct (H3 c tc id Hc Hk). congruence.
    + rewrite lookup_insert_ne by done. intros Htk. destruct (decide (id = c)) as [<-|Hne].
      * rewrite lookup_insert_eq in Hc. simplify_eq. by apply (Hsch k s).
      * rewrite lookup_insert_ne in Hc by done. by apply (H4 c tc k).
  - intros c c' tc tc' k s. destruct (decide (id = c)) as [<-|Hne], (decide (id = c')) as [<-|Hne'];
      rewrite ?lookup_insert_eq, ?lookup_insert_ne by done; [done| | |by apply H5].
    + intros [= <-] Hc' Hk Hk' Hs1 Hs2. exfalso. by apply (proj2 (Hsch k s Hk Hs1) c' tc').
    + intros Hc [= <-] Hk Hk' Hs1 Hs2. exfalso. by apply (proj2 (Hsch k s Hk' Hs2) c tc).
  - intros c tc k Hc Hk. assert (∃ tk, d !! k = Some tk ∧ is_Some (t_processed tk)) as (tk & Htk & Hp).
    { destruct (decide (id = c)) as [<-|Hne]; [rewrite lookup_insert_eq in Hc; simplify_eq; by apply Hcom|].
      rewrite lookup_insert_ne in Hc by done. by apply (H6 c tc). }
    exists tk. split; [|done]. rewrite lookup_insert_ne; [done|congruence].
  - intros c c' tc tc' k. destruct (decide (id = c)) as [<-|Hne], (decide (id = c')) as [<-|Hne'];
      rewrite ?lookup_insert_eq, ?lookup_insert_ne by done; [done| | |by apply H7].
    + intros [= <-] Hc' Hk Hk'. exfalso. by apply (proj2 (Hcom k Hk) c' tc').
    + intros Hc [= <-] Hk Hk'. exfalso. by apply (proj2 (Hcom k Hk') c tc).
Qed.

(** Edits that keep the recurrence columns, a completion's handling apart. *)
Definition same_columns (t t' : task) : Prop :=
  t_rule t' = t_rule t ∧ t_next t' = t_next t ∧ t_last t' = t_last t ∧ t_revision t' = t_revision t ∧
  t_source t' = t_source t ∧ t_scheduled t' = t_scheduled t ∧ t_completion t' = t_completion t ∧
  (is_Some (t_processed t) → is_Some (t_processed t')).

Lemma books_edits d d' :
  books d →
  (∀ id, match d !! id, d' !! id with
         | Some t, Some t' => same_columns t t' | None, Some t' => plain t' | Some _, None => False | None, None => True
         end) →
  books d' ∧ later d d'.
Proof.
  intros [H1 H2 H3 H4 H5 H6 H7] He.
  assert (∀ id t', d' !! id = Some t' → (∃ t, d !! id = Some t ∧ same_columns t t') ∨ (d !! id = None ∧ plain t')) as Hback.
  { intros id t' Ht'. specialize (He id). rewrite Ht' in He. destruct (d !! id) as [t|]; [left; by exists t|by right]. }
  assert (∀ id t, d !! id = Some t → ∃ t', d' !! id = Some t' ∧ same_columns t t') as Hfwd.
  { intros id t Ht. specialize (He id). rewrite Ht in He. destruct (d' !! id) as [t'|]; [by exists t'|done]. }
  split; [constructor|].
  - intros id t' [(t & Ht & -> & _)|(_ & -> & _)]%Hback; [by eapply H1|done].
  - intros id t' l n [(t & Ht & _ & -> & -> & _)|(_ & _ & -> & _)]%Hback; [by apply (H2 id)|done].
  - intros c t' k [(t & Ht & _ & _ & _ & _ & -> & _)|(_ & _ & _ & _ & -> & _)]%Hback Hk; [|done].
    destruct (H3 c t k Ht Hk) as [tk Htk]. destruct (Hfwd k tk Htk) as (? & ? & _). by eexists.
  - intros c t' k s tk [(t & Ht & _ & _ & _ & _ & -> & -> & _)|(_ & _ & _ & _ & -> & _)]%Hback Hk Hs Htk; [|done].
    destruct (H3 c t k Ht Hk) as [tk0 Htk0]. destruct (Hfwd k tk0 Htk0) as (tk1 & Htk1 & _ & _ & Hlast & _). simplify_eq.
    rewrite Hlast. by apply (H4 c t k s).
  - intros c c' t1 t2 k s [(t & Ht & _ & _ & _ & _ & -> & -> & _)|(_ & _ & _ & _ & -> & _)]%Hback
      [(t' & Ht' & _ & _ & _ & _ & -> & -> & _)|(_ & _ & _ & _ & -> & _)]%Hback; try done. by apply H5.
  - intros c t' k [(t & Ht & _ & _ & _ & _ & _ & _ & -> & _)|(_ & _ & _ & _ & _ & _ & ->)]%Hback Hk; [|done].
    destruct (H6 c t k Ht Hk) as (tk & Htk & Hp). destruct (Hfwd k tk Htk) as (tk1 & Htk1 & _ & _ & _ & _ & _ & _ & _ & Hproc). eauto.
  - intros c c' t1 t2 k [(t & Ht & _ & _ & _ & _ & _ & _ & -> & _)|(_ & _ & _ & _ & _ & _ & ->)]%Hback
      [(t' & Ht' & _ & _ & _ & _ & _ & _ & -> & _)|(_ & _ & _ & _ & _ & _ & ->)]%Hback; try done. by apply H7.
  - intros id t Ht. destruct (Hfwd id t Ht) as (t' & Ht' & Hr & _ & _ & Hv & _). exists t'. split; [done|]. split; [lia|done].
Qed.

Lemma silence_columns id now k t : same_columns t (silence id now k t).
Proof. unfold silence. destruct (_ && _); split_and!; try done. Qed.

Lemma save_books env id r revision projectId now d :
  books d → (∀ r0, r = Some r0 → 0 < r_interval r0) →
  books (saveTaskRecurrence env id r revision projectId now d).2 ∧ later d (saveTaskRecurrence env id r revision projectId now d).2.
Proof.
  intros Hd Hr. unfold saveTaskRecurrence. destruct (d !! id) as [t|] eqn:Eid; [|by split; [|apply later_refl]].
  destruct (t_deleted t || _); [by split; [|apply later_refl]|].
  destruct (bool_decide (is_Some (t_source t))) eqn:Es; [by split; [|apply later_refl]|].
  destruct (negb (t_revision t =? revision)); [by split; [|apply later_refl]|]. cbn [snd].
  set (t' := with_schedule t _ _ _ _).
  assert (∀ l n, t_last t = Some l → saved_next env r t now = Some n → l < n) as Hnext.
  { intros l n Hl. unfold saved_next. rewrite Hl. destruct r as [r|]; [|done]. destruct (r_after r); [done|].
    destruct (Z.leb_spec (firstRecurrenceOnOrAfter r (e_date env now (r_zone r))) l) as [?|Hlt]; [|by intros [= <-]].
    intros [= <-]. exact (proj1 (recurrenceAfter_bound r l (Hr r eq_refl))). }
  assert (books (<[id := t']> d) ∧ later d (<[id := t']> d)) as [Hb Hl].
  { split.
    - apply (books_update d id t t'); try done.
      + unfold t'. cbn. destruct r as [r|]; [by apply Hr|done].
      + intros l Hl. exists l. split; [done|lia].
    - intros k t0 Hk. destruct (decide (id = k)) as [<-|Hne]; [|rewrite lookup_insert_ne by done; exists t0; split; [done|apply follows_refl]].
      rewrite lookup_insert_eq. exists t'. split; [done|]. simplify_eq. unfold t', follows. cbn. split; lia. }
  destruct (_ && negb (is_after (t_rule t))); [|done].
  destruct (books_edits (<[id := t']> d) (map_imap (λ k t, Some (silence id now k t)) (<[id := t']> d)) Hb) as [Hb' Hl'].
  { intros k. rewrite map_lookup_imap. destruct (<[id := t']> d !! k) as [tk|]; [|done]. cbn. apply silence_columns. }
  split; [done|]. by eapply later_trans.
Qed.

Lemma generate_books env now id source newId d :
  books d → (∀ r, t_rule source = GoodRule r → 0 < r_interval r) → d !! newId = None →
  books (generate_one env now id source newId d).2 ∧ later d (generate_one env now id source newId d).2.
Proof.
  intros Hd Hr Hnew. unfold generate_one. destruct (t_rule source) as [|r|b]; [by split; [|apply later_refl]| |by split; [|apply later_refl]].
  destruct (r_after r); [by split; [|apply later_refl]|].
  set (scheduled := default 0 (t_next source)). set (today := e_date env now (r_zone r)).
  destruct (Z.ltb_spec today scheduled) as [?|Hdue]; [by split; [|apply later_refl]|].
  destruct (d !! id) as [live|] eqn:Eid; [|by split; [|apply later_refl]].
  destruct (negb (t_deleted live) && _ && _ && _ && _) eqn:Ec; [|by split; [|apply later_refl]]. cbn [snd].
  apply andb_true_iff' in Ec as [Ec _]. apply andb_true_iff' in Ec as [_ Enext]. apply bool_decide_eq_true in Enext.
  set (live' := with_schedule live _ _ _ _).
  pose proof (proj1 (recurrenceAfter_bound r today (Hr r eq_refl))) as Hbound.
  assert (books (<[id := live']> d)) as Hb.
  { apply (books_update d id live live'); try done.
    - unfold live'. cbn. by apply (bk_rule d Hd id).
    - unfold live'. cbn. intros l n [= <-] [= <-]. lia.
    - intros l Hl. exists scheduled. split; [done|]. pose proof (bk_order d Hd id live l scheduled Eid Hl Enext). lia. }
  assert (id ≠ newId) as Hne by congruence.
  assert (∀ k t, <[id := live']> d !! k = Some t → ∃ t0, d !! k = Some t0 ∧ t_source t = t_source t0 ∧ t_scheduled t = t_scheduled t0) as Hback.
  { intros k t. destruct (decide (id = k)) as [<-|]; [rewrite lookup_insert_eq; intros [= <-]; by exists live|].
    rewrite lookup_insert_ne by done. intros Hk. by exists t. }
  split.
  - apply books_insert; try done.
    + by rewrite lookup_insert_ne.
    + cbn. congruence.
    + cbn. intros k [= <-]. rewrite lookup_insert_eq. by eexists.
    + cbn. intros k s [= <-] [= <-]. split.
      * intros tk. rewrite lookup_insert_eq. intros [= <-]. exists scheduled. split; [done|lia].
      * intros c tc (tc0 & Hc & -> & ->)%Hback Hk Hs. destruct (bk_last d Hd c tc0 id scheduled live Hc Hk Hs Eid) as (l & Hl & Hle).
        pose proof (bk_order d Hd id live l scheduled Eid Hl Enext). lia.
  - intros k t0 Hk. destruct (decide (newId = k)) as [<-|]; [congruence|]. rewrite lookup_insert_ne by done.
    destruct (decide (id = k)) as [<-|]; [|rewrite lookup_insert_ne by done; exists t0; split; [done|apply follows_refl]].
    rewrite lookup_insert_eq. simplify_eq. exists live'. split; [done|]. split; cbn; [lia|done].
Qed.

Lemma repeat_books env now rootId id newId d :
  books d → d !! newId = None →
  books (repeat_one env now rootId id newId d).2 ∧ later d (repeat_one env now rootId id newId d).2.
Proof.
  intros Hd Hnew. unfold repeat_one. destruct (d !! id) as [live|] eqn:Eid; [|by split; [|apply later_refl]].
  destruct (d !! rootId) as [root|] eqn:Er; [|by split; [|apply later_refl]].
  destruct (negb (completed_task env rootId id live) || _) eqn:Ec; [by split; [|apply later_refl]|].
  destruct (negb (completion_root env root) || _); [by split; [|apply later_refl]|].
  destruct (t_rule root) as [|r|b]; [by split; [|apply later_refl]| |by split; [|apply later_refl]]. cbn [snd].
  assert (t_processed live = None) as Hproc by (unfold completed_task in Ec; bool_simplify; done).
  assert (books (<[id := with_processed live now]> d)) as Hb.
  { apply (books_update d id live (with_processed live now)); try done.
    - cbn. by apply (bk_rule d Hd id).
    - cbn. intros l n. by apply (bk_order d Hd id).
    - intros l Hl. exists l. split; [done|lia]. }
  assert (id ≠ newId ∧ rootId ≠ newId) as [Hne Hne'] by (split; congruence).
  split.
  - apply books_insert; try done.
    + by rewrite lookup_insert_ne.
    + cbn. congruence.
    + cbn. congruence.
    + cbn. intros k [= <-]. destruct (decide (id = rootId)) as [->|]; [rewrite lookup_insert_eq|rewrite lookup_insert_ne by done]; by eexists.
    + cbn. intros k [= <-]. rewrite lookup_insert_eq. split; [by eexists|].
      intros c tc. destruct (decide (id = c)) as [<-|Hnc].
      * rewrite lookup_insert_eq. intros [= <-]. cbn. intros Hcomp. destruct (bk_done d Hd id live id Eid Hcomp) as (t & Ht & Hp).
        simplify_eq. rewrite Hproc in Hp. by destruct Hp.
      * rewrite lookup_insert_ne by done. intros Hc Hcomp. destruct (bk_done d Hd c tc id Hc Hcomp) as (t & Ht & Hp).
        simplify_eq. rewrite Hproc in Hp. by destruct Hp.
  - intros k t0 Hk. destruct (decide (newId = k)) as [<-|]; [congruence|]. rewrite lookup_insert_ne by done.
    destruct (decide (id = k)) as [<-|]; [|rewrite lookup_insert_ne by done; exists t0; split; [done|apply follows_refl]].
    rewrite lookup_insert_eq. simplify_eq. exists (with_processed live now). split; [done|]. split; cbn; [lia|done].
Qed.

Lemma run_books h : run h → ∃ d t, h = d :: t ∧ ∀ d0, d0 ∈ h → books d0 ∧ later d0 d.
Proof.
  assert (∀ d d' h, (∃ d1 t, d :: h = d1 :: t ∧ ∀ d0, d0 ∈ d :: h → books d0 ∧ later d0 d1) → books d' ∧ later d d' →
    ∃ d1 t, d' :: d :: h = d1 :: t ∧ ∀ d0, d0 ∈ d' :: d :: h → books d0 ∧ later d0 d1) as Hext.
  { intros d d' h0 (d1 & t & [= <- <-] & Hall) [Hb Hl]. exists d', (d :: h0). split; [done|].
    intros d0 [->|Hin]%elem_of_cons; [split; [done|apply later_refl]|]. destruct (Hall d0 Hin) as [Hb0 Hl0].
    split; [done|]. by apply (later_trans d0 d d'). }
  induction 1 as [d Hp|d d' h Hr IH He|d h env id r rev pid now Hr IH Hrule|d h d0 env now id source newId Hr IH Hin Hs Hnew
                 |d h env now rootId id newId Hr IH Hnew].
  - exists d, []. split; [done|]. intros d0 ->%list_elem_of_singleton. split; [|apply later_refl].
    destruct (books_edits ∅ d) as [Hb _]; [|intros id; rewrite lookup_empty; destruct (d !! id) eqn:E; [by eapply Hp|done]|done].
    constructor; intros *; by rewrite lookup_empty.
  - apply Hext; [done|]. destruct IH as (? & ? & [= <- <-] & Hall). apply books_edits; [apply Hall; left|].
    intros id. specialize (He id). destruct (d !! id), (d' !! id); try done.
    destruct He as (? & ? & ? & ? & ? & ? & ? & Hpr). split_and!; try done. by rewrite Hpr.
  - apply Hext; [done|]. destruct IH as (? & ? & [= <- <-] & Hall). apply save_books; [apply Hall; left|done].
  - apply Hext; [done|]. destruct IH as (? & ? & [= <- <-] & Hall). apply generate_books; [apply Hall; left| |done].
    intros r Er. pose proof (bk_rule d0 (proj1 (Hall d0 Hin)) id source Hs) as Hok. by rewrite Er in Hok.
  - apply Hext; [done|]. destruct IH as (? & ? & [= <- <-] & Hall). apply repeat_books; [apply Hall; left|done].
Qed.

(** C17 (invariant): no occurrence is generated twice.  However saves, jobs
    working from old readings and other edits interleave, each date of a
    schedule has at most one copy, ever: the date the schedule shows next is
    always later than every date already generated - also after the rule was
    changed or stopped and started again - and each completed task has at most
    one repeat. *)
Theorem recurring_copies_once d h :
  run (d :: h) →
  (∀ c c' tc tc' id s, d !! c = Some tc → d !! c' = Some tc' → t_source tc = Some id → t_source tc' = Some id →
     t_scheduled tc = Some s → t_scheduled tc' = Some s → c = c') ∧
  (∀ c c' tc tc' id, d !! c = Some tc → d !! c' = Some tc' → t_completion tc = Some id → t_completion tc' = Some id → c = c') ∧
  (∀ c tc id s, d !! c = Some tc → t_source tc = Some id → t_scheduled tc = Some s →
     ∃ t l, d !! id = Some t ∧ t_last t = Some l ∧ s ≤ l ∧ ∀ n, t_next t = Some n → s < n).
Proof.
  intros (d1 & t1 & [= <- <-] & Hall)%run_books. destruct (Hall d ltac:(left)) as [Hb _]. split_and!; [apply Hb|apply Hb|].
  intros c tc id s Hc Hid Hs. destruct (bk_source d Hb c tc id Hc Hid) as [t Ht].
  destruct (bk_last d Hb c tc id s t Hc Hid Hs Ht) as (l & Hl & Hle). exists t, l. split_and!; [done|done|done|].
  intros n Hn. pose proof (bk_order d Hb id t l n Ht Hl Hn). lia.
Qed.

End tasks.

(** ** A daily task, and a job that read it twice *)

Definition demo_task : task (body := unit) :=
  Task "site" None tt "PENDING" false (Some "ana") ["bob"] None NoRule None None 0 None None None None None.
Definition demo_env (today : Z) : surroundings := Surroundings (λ _, true) (λ _, true) (λ _ _, true) (λ _ _, today).
Definition demo_0 : gmap string (task (body := unit)) := {["t" := demo_task]}.
Definition demo_1 := (saveTaskRecurrence (demo_env 100) "t" (Some (Rule false DAILY 1 100 "UTC")) 0 None 5 demo_0).2.
Definition demo_source : task (body := unit) := default demo_task (demo_1 !! "t").
(** Three days later, one copy for the missed dates... *)
Definition demo_2 := (generate_one (demo_env 103) 6 "t" demo_source "c1" demo_1).2.
(** ... and none from the same reading again. *)
Definition demo_3 := (generate_one (demo_env 103) 7 "t" demo_source "c2" demo_2).2.

Lemma demo_generation : run [demo_3; demo_2; demo_1; demo_0].
Proof.
  apply (run_generate demo_2 _ demo_1); [|right; left|by vm_compute|by vm_compute].
  apply (run_generate demo_1 _ demo_1); [|left|by vm_compute|by vm_compute].
  apply run_save; [|intros r0 [= <-]; cbn; lia]. apply run_start. intros id t.
  unfold demo_0. rewrite lookup_singleton_Some. intros [_ <-]. done.
Qed.

Lemma recurring_copies_once_witness :
  (t_scheduled <$> demo_3 !! "c1") = Some (Some 100) ∧ demo_3 !! "c2" = None ∧ (t_next <$> demo_3 !! "t") = Some (Some 104) ∧
  (∀ c c' tc tc' id s, demo_3 !! c = Some tc → demo_3 !! c' = Some tc' → t_source tc = Some id → t_source tc' = Some id →
     t_scheduled tc = Some s → t_scheduled tc' = Some s → c = c').
Proof.
  split; [by vm_compute|]. split; [by vm_compute|]. split; [by vm_compute|].
  apply (recurring_copies_once demo_3 [demo_2; demo_1; demo_0]). exact demo_generation.
Defined.

End RecurringTasks.
