(* ===== verification/RecurringInvoices.v ===== *)
(** * Recurring invoices

    src/src/jobs/recurring-invoices.js over the invoices of Billing.v: when a
    sent invoice is billed again, the hourly job that bills it, and the routes of
    src/src/routes/invoice.routes.js that set its schedule (create, edit, send,
    void and its undo).  Functions are cut at their awaits; a [$transaction] is
    one step.  Instants are milliseconds. *)

From S2P Require Import Prelude Store Calendar Async Steps JsNumber Money Billing.
Import Js Money Calendar Steps.Steps Billing.Billing.

Module RecurringInvoices.

(** ** Dates *)

Definition DAY : Z := 86400000.

(* src/src/jobs/recurring-invoices.js:46-46 INTERVAL_MONTHS *)
Definition INTERVAL_MONTHS : list (string * Z) := [("MONTHLY", 1); ("QUARTERLY", 3); ("ANNUALLY", 12)].
Definition interval_months (interval : option string) : Z :=
  match List.find (λ im, bool_decide (Some im.1 = interval)) INTERVAL_MONTHS with Some im => im.2 | None => 1 end.

(** [setUTCMonth] on the first of the month, then the anchor's day or the
    month's last; the time of day stays. *)
(* src/src/jobs/recurring-invoices.js:48-56 addMonthsFromAnchor *)
Definition addMonthsFromAnchor (anchor months : Z) : Z :=
  let day := date_of (anchor / DAY) in
  let mi := month_of (anchor / DAY) + months in
  (month_start mi + Z.min day (month_length mi) - 1) * DAY + anchor mod DAY.

(* src/src/jobs/recurring-invoices.js:9-33 getNextRecurringDate *)
Definition getNextRecurringDate (currentDate : Z) (interval : string) : Z :=
  let advanceMonths months := addMonthsFromAnchor currentDate months in
  if bool_decide (interval = "MONTHLY") then advanceMonths 1
  else if bool_decide (interval = "QUARTERLY") then advanceMonths 3
  else if bool_decide (interval = "ANNUALLY") then advanceMonths 12
  else advanceMonths 1.

(** The [while (next <= now)]: [fuel] dates are tried. *)
(* src/src/jobs/recurring-invoices.js:69-73 firstRecurringDate *)
Fixpoint next_after (fuel : nat) (start months now k : Z) : option Z :=
  match fuel with
  | O => None
  | S fuel =>
      let next := addMonthsFromAnchor start (k * months) in
      if next <=? now then next_after fuel start months now (k + 1) else Some next
  end.
(** Two dates are enough ([next_after_answers]). *)
Definition DATES_TRIED : nat := 2.
(* src/src/jobs/recurring-invoices.js:65-68 firstRecurringDate *)
Definition first_k (start months now : Z) : Z :=
  let elapsedMonths := month_of (now / DAY) - month_of (start / DAY) in
  Z.max 1 (elapsedMonths / months).
(* src/src/jobs/recurring-invoices.js:65-76 firstRecurringDate *)
Definition firstRecurringDate (anchor : option Z) (interval : option string) (now : Z) : Z :=
  let months := interval_months interval in
  let start := default now anchor in
  default now (next_after DATES_TRIED start months now (first_k start months now)).

(** ** State *)

(* src/src/jobs/recurring-invoices.js:44-44 RECURRING_SOURCE_STATUSES *)
Definition RECURRING_SOURCE_STATUSES : list string := ["SENT"; "VIEWED"; "OVERDUE"; "PAID"].

(** The columns of an invoice that Billing.v leaves out. *)
(* src/prisma/schema.prisma:1414-1414 Invoice *)
Record schedule := Schedule { s_issue : Z; s_interval : option string; s_next : option Z }.
(** An invoice as the job's query returned it. *)
Record template := Template { o_id : string; o_invoice : invoice; o_schedule : schedule }.
(** A copy that was committed (ghost): by which request, of what, the job's
    instant, and the new invoice. *)
Record copied := Copied { y_by : nat; y_source : template; y_now : Z; y_id : string; y_copy : invoice }.

Record db := Db {
  clock : Z; books : world; schedules : gmap string schedule; organizations : list string; trail : list copied
}.
Definition set_books (w : world) (d : db) : db := Db (clock d) w (schedules d) (organizations d) (trail d).
Definition set_schedule (id : string) (f : schedule → schedule) (d : db) : db :=
  Db (clock d) (books d) (alter f id (schedules d)) (organizations d) (trail d).
Definition add_schedule (id : string) (sc : schedule) (d : db) : db :=
  Db (clock d) (books d) (<[id := sc]> (schedules d)) (organizations d) (trail d).
Definition record_copy (c : copied) (d : db) : db := Db (clock d) (books d) (schedules d) (organizations d) (c :: trail d).

(** [SomeFailed]: the invoices a run of the job could not bill. *)
Inductive failure := Refused (e : billing_error) | ForeignLink | NotADraft | IntervalRequired | UnknownOrganization | SomeFailed (ids : list string).
Abbreviation act := (steps db failure).

Definition in_books {A} (m : tx A) : act A :=
  statement (λ d, let '(r, w) := m (books d) in (match r with Ok a => Ok a | Err e => Err (Refused e) end, set_books w d)).

(** What the organization's client shows of an invoice. *)
Definition visible_invoice (org id : string) (d : db) : option (invoice * schedule) :=
  match invoices (books d) !! id, schedules d !! id with
  | Some n, Some sc => if bool_decide (n_org n = org) && negb (n_deleted n) then Some (n, sc) else None
  | _, _ => None
  end.
(** The links the scoped client checks when an invoice is created: the client
    must be visible, a project of the organization may be in the trash. *)
Definition links_owned (org : string) (w : world) (n : invoice) : bool :=
  match clients w !! n_client n with Some c => bool_decide (c_org c = org) && negb (c_deleted c) | None => false end &&
  match users w !! n_createdBy n with Some u => bool_decide (u_org u = org) | None => false end &&
  match n_project n with
  | Some p => match projects w !! p with Some p => bool_decide (p_org p = org) | None => false end
  | None => true
  end.
(** [tx.invoice.create] through the organization's client. *)
Definition create_scoped (org id : string) (n : invoice) (sc : schedule) : act invoice :=
  owned ←! read (λ d, links_owned org (books d) n);
  _ ←! require owned ForeignLink;
  n ←! in_books (insert_invoice id n);
  _ ←! write (λ d, (tt, add_schedule id sc d));
  ok n.

(** ** The job *)

(** [x || y] *)
Definition truthy_or (x y : num) : num := match x with NaN => y | _ => if eqb x zero then y else x end.
(* src/src/jobs/recurring-invoices.js:101-108 processRecurringInvoices *)
Definition copied_line (l : line) : line :=
  Line (l_description l) (if bool_decide (l_itemType l = "") then "LABOR" else l_itemType l) (l_quantity l) (l_unitPrice l) (l_total l) (l_position l).
(** The new draft; [number] is the pair of its number and organization. *)
(* src/src/jobs/recurring-invoices.js:138-163 processRecurringInvoices *)
Definition recurring_copy (n : invoice) (number : string * string) (now : Z) : invoice :=
  let lineItemsData := copied_line <$> n_lines n in
  let discount := truthy_or (n_discount n) zero in
  Invoice number.2 number.1 "DRAFT" (n_client n) (n_project n) (n_createdBy n) (n_title n) (n_currency n) (n_taxRate n) (n_taxType n)
    discount (invoiceTotals (l_total <$> lineItemsData) (n_taxRate n) discount) lineItemsData None None None None false [] false now.

(** Recurring, sent, and still due at the date that was read. *)
Definition may_recur (n : invoice) : bool := n_recurring n && bool_decide (n_status n ∈ RECURRING_SOURCE_STATUSES).
(* src/src/jobs/recurring-invoices.js:124-133 processRecurringInvoices *)
Definition claim_template (org : string) (t : template) (next : Z) : act bool :=
  write (λ d,
    match visible_invoice org (o_id t) d with
    | Some (n, sc) =>
        if may_recur n && bool_decide (s_next sc = s_next (o_schedule t)) then
          (true, set_schedule (o_id t) (λ sc, Schedule (s_issue sc) (s_interval sc) (Some next))
                   (set_books (set_invoice (o_id t) (set_status (n_status n) (n_voidedAt n) (n_voidedFrom n) (clock d) n) (books d)) d))
        else (false, d)
    | None => (false, d)
    end).

(** One due invoice, in a serializable transaction; [by_] is the request and
    [newId] the id of the new row. *)
(* src/src/jobs/recurring-invoices.js:114-164 processRecurringInvoices *)
Definition generate_copy (by_ : nat) (org : string) (now : Z) (newId : string) (t : template) : act bool :=
  let nextDate := firstRecurringDate (Some (s_issue (o_schedule t))) (s_interval (o_schedule t)) now in
  atomically (
    claimed ←! claim_template org t nextDate;
    if negb claimed then ok false
    else
      at_ ←! read clock;
      number ←! in_books (allocateInvoiceNumber (n_client (o_invoice t)) None (year_of (at_ / DAY)));
      n ←! create_scoped org newId (recurring_copy (o_invoice t) number now) (Schedule now None None);
      _ ←! write (λ d, (tt, record_copy (Copied by_ t now newId n) d));
      ok true).

Record report := Report { examined : nat; generated : nat }.
(** [catch]: a failure is noted and the next invoice is tried. *)
Fixpoint generate_all (by_ : nat) (org : string) (now : Z) (new_id : string → string) (l : list template) (done_ : nat) (failures : list string)
  : act (nat * list string) :=
  match l with
  | [] => ok (done_, failures)
  | t :: l =>
      r ←! tried (generate_copy by_ org now (new_id (o_id t)) t);
      match r with
      | Ok b => generate_all by_ org now new_id l (done_ + if (b : bool) then 1 else 0) failures
      | Err _ => generate_all by_ org now new_id l done_ (failures ++ [o_id t])
      end
  end.

Section job.
(** The order PostgreSQL answers a query in. *)
Context (arrange : list template → list template).

Definition due (org : string) (now : Z) (d : db) (id : string) (n : invoice) : option template :=
  match visible_invoice org id d with
  | Some (_, sc) => match s_next sc with
                    | Some t => if may_recur n && (t <=? now) then Some (Template id n sc) else None
                    | None => None
                    end
  | None => None
  end.
(** A list without [take] holds a hundred rows at most (soft-delete.service.js). *)
(* src/src/jobs/recurring-invoices.js:80-90 processRecurringInvoices *)
Definition dueInvoices (org : string) (now : Z) (d : db) : list template :=
  take 100 (arrange (omap (λ x, due org now d x.1 x.2) (map_to_list (invoices (books d))))).

(* src/src/jobs/recurring-invoices.js:78-195 processRecurringInvoices *)
Definition processRecurringInvoices (by_ : nat) (org : string) (new_id : string → string) : act report :=
  now ←! read clock;
  found ←! read (dueInvoices org now);
  r ←! generate_all by_ org now new_id found 0 [];
  if bool_decide (r.2 = []) then ok (Report (length found) r.1) else fail (SomeFailed r.2).

(* src/src/jobs/tenant-iteration.js:12-31 resolveTenantOrganizationIds *)
Definition resolveTenantOrganizationIds (requested : option string) : act (list string) :=
  match requested with
  | Some org => found ←! read (λ d, bool_decide (org ∈ organizations d)); _ ←! require found UnknownOrganization; ok [org]
  | None => read (λ d, isort String.leb (organizations d))
  end.
(* src/src/jobs/tenant-iteration.js:33-40 runTenantJob *)
Definition runTenantJob {A} (org : string) (callback : string → act A) : act A :=
  _ ←! resolveTenantOrganizationIds (Some org); callback org.
Fixpoint each_organization (by_ : nat) (new_id : string → string) (orgs : list string) (results : list report) : act (list report) :=
  match orgs with
  | [] => ok results
  | org :: orgs =>
      r ←! runTenantJob org (λ org, processRecurringInvoices by_ org new_id);
      each_organization by_ new_id orgs (results ++ [r])
  end.
(* src/src/jobs/recurring-invoices.js:197-204 processRecurringInvoicesForAllOrganizations *)
Definition processRecurringInvoicesForAllOrganizations (by_ : nat) (new_id : string → string) : act (list report) :=
  organizationIds ←! resolveTenantOrganizationIds None;
  each_organization by_ new_id organizationIds [].
End job.

(** ** The routes *)

(** A line as its schema parsed it. *)
Record line_request := LineRequest { w_description : string; w_itemType : string; w_quantity : num; w_unitPrice : num; w_position : option nat }.
(* src/src/routes/invoice.routes.js:117-126 processLineItems *)
Definition processLineItems (l : list line_request) : list line :=
  imap (λ idx li,
    let quantity := truthy_or (w_quantity li) (of_Z 1) in
    let unitPrice := truthy_or (w_unitPrice li) zero in
    Line (w_description li) (if bool_decide (w_itemType li = "") then "LABOR" else w_itemType li) quantity unitPrice
      (lineTotal quantity unitPrice) (default idx (w_position li))) l.

Record create_request := CreateRequest {
  v_client : string; v_project : option string; v_title : string; v_lines : list line_request; v_issue : option Z; v_taxRate : num;
  v_taxType : string; v_discount : num; v_recurring : bool; v_interval : option string; v_currency : string
}.
(** [new Date()] is read as the transaction begins. *)
(* src/src/routes/invoice.routes.js:352-417 POST / *)
Definition createInvoice (org actor id : string) (q : create_request) : act invoice :=
  found ←! read (λ d, match clients (books d) !! v_client q with
                      | Some c => if bool_decide (c_org c = org) && negb (c_deleted c) then Some (c_name c) else None
                      | None => None
                      end);
  match found with
  | None => fail (Refused ClientNotFound)
  | Some name =>
      let processedItems := processLineItems (v_lines q) in
      let title := if bool_decide (v_title q = "") then "Invoice for " +:+ name else v_title q in
      atomically (
        now ←! read clock;
        let issue := default now (v_issue q) in
        number ←! in_books (allocateInvoiceNumber (v_client q) (Some org) (year_of (now / DAY)));
        create_scoped org id
          (Invoice number.2 number.1 "DRAFT" (v_client q) (v_project q) actor title (v_currency q) (v_taxRate q) (v_taxType q) (v_discount q)
             (invoiceTotals (l_total <$> processedItems) (v_taxRate q) (v_discount q)) processedItems None None None None (v_recurring q) [] false now)
          (if v_recurring q then Schedule issue (v_interval q) (Some (firstRecurringDate (Some issue) (v_interval q) now)) else Schedule issue None None))
  end.

Record put_request := PutRequest {
  q_title : option string; q_lines : option (list line_request); q_issue : option Z; q_taxRate : option num; q_taxType : option string;
  q_discount : option num; q_project : option (option string); q_recurring : option bool; q_interval : option (option string); q_currency : option string
}.
Definition put_edit (q : put_request) : draft_edit :=
  DraftEdit (match q_title q with Some "" => None | t => t end) None (q_project q) (q_currency q) (q_taxRate q) (q_taxType q) (q_discount q)
    (q_recurring q) (option_map processLineItems (q_lines q)) (bool_decide (is_Some (q_taxRate q)) || bool_decide (is_Some (q_discount q))).
Definition nonempty (s : option string) : option string := match s with Some "" => None | _ => s end.
(** The schedule after an edit of [row], for an invoice observed with [n] and [sc]. *)
(* src/src/routes/invoice.routes.js:456-469 PUT /:id *)
Definition edited_schedule (q : put_request) (n : invoice) (sc : schedule) (now : Z) (row : schedule) : schedule :=
  let issue := default (s_issue row) (q_issue q) in
  let kept := Schedule issue (default (s_interval row) (q_interval q)) (s_next row) in
  if negb (default (n_recurring n) (q_recurring q)) then
    if bool_decide (q_recurring q = Some false) then Schedule issue None None else kept
  else if bool_decide (is_Some (q_recurring q)) || bool_decide (is_Some (q_interval q)) || bool_decide (is_Some (q_issue q)) then
    let interval := nonempty (default (s_interval sc) (q_interval q)) in
    Schedule issue interval (Some (firstRecurringDate (Some (default (s_issue sc) (q_issue q))) interval now))
  else kept.
Definition interval_missing (q : put_request) (n : invoice) (sc : schedule) : bool :=
  default (n_recurring n) (q_recurring q) &&
  (bool_decide (is_Some (q_recurring q)) || bool_decide (is_Some (q_interval q)) || bool_decide (is_Some (q_issue q))) &&
  bool_decide (nonempty (default (s_interval sc) (q_interval q)) = None).
(* src/src/routes/invoice.routes.js:422-476 PUT /:id *)
Definition putInvoice (org id : string) (q : put_request) : act unit :=
  found ←! read (visible_invoice org id);
  match found with
  | None => fail (Refused InvoiceNotFound)
  | Some (n, sc) =>
      _ ←! require (bool_decide (n_status n = "DRAFT")) NotADraft;
      _ ←! require (negb (interval_missing q n sc)) IntervalRequired;
      atomically (
        now ←! read clock;
        _ ←! in_books (updateDraftInvoice id n (put_edit q) (Some org) now);
        write (λ d, (tt, set_schedule id (edited_schedule q n sc now) d)))
  end.

(** The claim of a send; what follows it (checkout, email, audit) leaves the
    schedule alone. *)
(* src/src/routes/invoice.routes.js:568-605 sendDraftInvoice *)
Definition sendInvoice (org id : string) : act unit :=
  found ←! read (visible_invoice org id);
  match found with
  | None => fail (Refused InvoiceNotFound)
  | Some (n, sc) =>
      _ ←! require (bool_decide (n_status n = "DRAFT")) NotADraft;
      atomically (
        now ←! read clock;
        _ ←! in_books (claimDraftForSending id now);
        if n_recurring n && bool_decide (is_Some (nonempty (s_interval sc))) && bool_decide (s_next sc = None) then
          write (λ d, (tt, set_schedule id (λ row, Schedule (s_issue row) (s_interval row) (Some (firstRecurringDate (Some (s_issue sc)) (s_interval sc) now))) d))
        else ok tt)
  end.

(* src/src/routes/invoice.routes.js:516-535 DELETE /:id *)
Definition deleteInvoice (org id : string) : act unit :=
  found ←! read (visible_invoice org id);
  match found with
  | None => fail (Refused InvoiceNotFound)
  | Some (n, _) =>
      _ ←! require (bool_decide (n_status n ∈ VOIDABLE_STATUSES)) (Refused NotVoidable);
      atomically (now ←! read clock; in_books (voidInvoice id n now))
  end.
(* src/src/routes/invoice.routes.js:537-563 POST /:id/undo-void *)
Definition undoRoute (org id : string) : act unit :=
  atomically (
    found ←! read (visible_invoice org id);
    _ ←! require (bool_decide (is_Some found)) (Refused InvoiceNotFound);
    now ←! read clock;
    in_books (undoVoid id now)).

End RecurringInvoices.
