(* ===== verification/RecurringInvoiceLog.v ===== *)
(** * Recurring invoices: what is billed

    The runs of RecurringInvoices.v interleaved with each other, with edits,
    sends and voids, and with whatever else happens to the books: a due date is
    billed once; what a run that is left alone does; and two runs that go wrong. *)

From S2P Require Import Prelude Store Calendar Recurrence Async Steps JsNumber Money Billing BilledOnce RecurringInvoices.
Import Js Money Calendar Steps.Steps Billing.Billing RecurringInvoices.RecurringInvoices.

Module RecurringInvoiceLog.

(** ** Dates *)

(** The dates of a schedule are those of a monthly rule of Recurrence.v. *)
Definition months_rule (start months : Z) : Recurrence.rule := Recurrence.Rule false Recurrence.MONTHLY months (start / DAY) "".
Lemma add_months start months k :
  addMonthsFromAnchor start (k * months) = Recurrence.candidate (months_rule start months) k * DAY + start mod DAY.
Proof.
  unfold addMonthsFromAnchor, Recurrence.candidate, months_rule. cbn [Recurrence.r_start Recurrence.r_interval].
  generalize (month_of (start / DAY) + k * months). done.
Qed.
Lemma interval_months_pos i : 0 < interval_months i.
Proof.
  unfold interval_months. destruct (List.find _ INTERVAL_MONTHS) as [im|] eqn:E; [|done]. apply find_some in E as [Hin _].
  cbn in Hin. destruct Hin as [<-|[<-|[<-|[]]]]; done.
Qed.
Lemma add_months_mono start months j k : 0 < months → j ≤ k → addMonthsFromAnchor start (j * months) ≤ addMonthsFromAnchor start (k * months).
Proof.
  intros Hm Hjk. rewrite !add_months. pose proof (Recurrence.candidate_mono (months_rule start months) j k Hm Hjk). unfold DAY. lia.
Qed.
(** Until the month of [now] is over, no date after it has been tried. *)
Lemma next_bracket start months now :
  0 < months →
  let k := first_k start months now in
  1 ≤ k ∧ now < addMonthsFromAnchor start ((k + 1) * months) ∧ ∀ j, 1 ≤ j < k → addMonthsFromAnchor start (j * months) ≤ now.
Proof.
  intros Hm k. unfold first_k in k. set (e := month_of (now / DAY) - month_of (start / DAY)) in k.
  pose proof (Z.mul_div_le e months Hm) as Hlo. pose proof (Z.mul_succ_div_gt e months Hm) as Hhi.
  assert (DAY * (now / DAY) ≤ now < DAY * (now / DAY) + DAY ∧ 0 ≤ start mod DAY < DAY) as [Hd Ht] by (unfold DAY; Z.div_mod_to_equations; lia).
  pose proof (month_of_spec (now / DAY)) as Hn. split_and!; [lia| |].
  - rewrite add_months. pose proof (Recurrence.candidate_month (months_rule start months) (k + 1)) as [Hc _]. cbn [Recurrence.r_start Recurrence.r_interval months_rule] in Hc.
    assert (month_of (now / DAY) + 1 ≤ month_of (start / DAY) + (k + 1) * months) as Hle by (unfold k; nia).
    pose proof (month_start_mono _ _ Hle). unfold DAY in *. nia.
  - intros j Hj. rewrite add_months. pose proof (Recurrence.candidate_month (months_rule start months) j) as [_ Hc]. cbn [Recurrence.r_start Recurrence.r_interval months_rule] in Hc.
    assert (month_of (start / DAY) + j * months + 1 ≤ month_of (now / DAY)) as Hle by (unfold k in Hj; nia).
    pose proof (month_start_mono _ _ Hle). unfold DAY in *. nia.
Qed.
Lemma next_after_answers start months now fuel :
  0 < months → (DATES_TRIED ≤ fuel)%nat →
  ∃ k, 1 ≤ k ∧ next_after fuel start months now (first_k start months now) = Some (addMonthsFromAnchor start (k * months)) ∧
    now < addMonthsFromAnchor start (k * months) ∧
    ∀ j, 1 ≤ j → now < addMonthsFromAnchor start (j * months) → addMonthsFromAnchor start (k * months) ≤ addMonthsFromAnchor start (j * months).
Proof.
  intros Hm Hf. destruct (next_bracket start months now Hm) as (Hk & Hnext & Hold). set (k := first_k start months now) in *.
  destruct fuel as [|[|fuel]]; [unfold DATES_TRIED in Hf; lia..|]. cbn [next_after].
  destruct (Z.leb_spec (addMonthsFromAnchor start (k * months)) now) as [Hle|Hlt].
  - rewrite (proj2 (Z.leb_gt _ _) Hnext). exists (k + 1). split_and!; [lia|done|done|]. intros j Hj Ha. apply add_months_mono; [done|].
    destruct (decide (j = k)) as [->|]; [lia|]. destruct (Z.le_gt_cases k j); [lia|]. pose proof (Hold j). lia.
  - exists k. split_and!; [done|done|done|]. intros j Hj Ha. apply add_months_mono; [done|].
    destruct (Z.le_gt_cases k j); [done|]. pose proof (Hold j). lia.
Qed.
Lemma firstRecurringDate_answers anchor interval now :
  let months := interval_months interval in
  let start := default now anchor in
  ∃ k, 1 ≤ k ∧ firstRecurringDate anchor interval now = addMonthsFromAnchor start (k * months) ∧ now < addMonthsFromAnchor start (k * months) ∧
    ∀ j, 1 ≤ j → now < addMonthsFromAnchor start (j * months) → addMonthsFromAnchor start (k * months) ≤ addMonthsFromAnchor start (j * months).
Proof.
  intros months start. destruct (next_after_answers start months now DATES_TRIED (interval_months_pos interval) (le_n _)) as (k & Hk & E & H).
  exists k. split; [done|]. split; [|done]. unfold firstRecurringDate. fold months start. by rewrite E.
Qed.
Lemma firstRecurringDate_later anchor interval now : now < firstRecurringDate anchor interval now.
Proof. destruct (firstRecurringDate_answers anchor interval now) as (k & _ & -> & H & _). exact H. Qed.
Lemma added_date start months :
  month_of (addMonthsFromAnchor start months / DAY) = month_of (start / DAY) + months ∧
  date_of (addMonthsFromAnchor start months / DAY) = Z.min (date_of (start / DAY)) (month_length (month_of (start / DAY) + months)) ∧
  addMonthsFromAnchor start months mod DAY = start mod DAY.
Proof.
  unfold addMonthsFromAnchor. generalize (month_of (start / DAY) + months). intros mi. cbv zeta. pose proof (date_of_bounds (start / DAY)) as Hd.
  pose proof (month_length_bounds mi) as Hl. set (dt := Z.min _ _). assert (0 ≤ start mod DAY < DAY) as Ht by (apply Z.mod_pos_bound; done).
  destruct (month_and_date mi dt ltac:(unfold dt; lia)) as [H1 H2]. rewrite Z.div_add_l, Z.div_small, Z.add_0_r by done.
  split; [done|]. split; [done|]. by rewrite Z.add_comm, Z.mod_add, Z.mod_mod.
Qed.
(** [getNextRecurringDate] is the case of one interval. *)
Lemma next_is_one_interval current i : getNextRecurringDate current i = addMonthsFromAnchor current (1 * interval_months (Some i)).
Proof.
  unfold getNextRecurringDate, interval_months, INTERVAL_MONTHS. cbn [List.find fst].
  repeat (case_bool_decide; simplify_eq; cbn [snd]; try done).
Qed.

(** C36 (termination): The search for an invoice's next date ends after two
    dates, however long it was overdue, and its answer is the first date after
    now that is a whole number of intervals, one at least, after the anchor: on
    the anchor's day of the month, or the month's last day where that is
    earlier, at the anchor's time of day. *)
Theorem firstRecurringDate_next anchor interval now fuel :
  (2 ≤ fuel)%nat →
  let months := interval_months interval in
  let start := default now anchor in
  let next := firstRecurringDate anchor interval now in
  next_after fuel start months now (first_k start months now) = Some next ∧
  now < next ∧ (∃ k, 1 ≤ k ∧ next = addMonthsFromAnchor start (k * months) ∧
    month_of (next / DAY) = month_of (start / DAY) + k * months) ∧
  (∀ j, 1 ≤ j → now < addMonthsFromAnchor start (j * months) → next ≤ addMonthsFromAnchor start (j * months)) ∧
  date_of (next / DAY) = Z.min (date_of (start / DAY)) (month_length (month_of (next / DAY))) ∧ next mod DAY = start mod DAY.
Proof.
  intros Hf months start next. destruct (next_after_answers start months now fuel (interval_months_pos interval) Hf) as (k & Hk & E & Hlt & Hmin).
  destruct (next_after_answers start months now DATES_TRIED (interval_months_pos interval) (le_n _)) as (k' & Hk' & E' & Hlt' & Hmin').
  assert (next = addMonthsFromAnchor start (k' * months)) as En by (unfold next, firstRecurringDate; fold months start; by rewrite E').
  assert (addMonthsFromAnchor start (k * months) = next) as Ek by (rewrite En; apply Z.le_antisymm; auto).
  rewrite <-En in Hmin', Hlt'. destruct (added_date start (k' * months)) as (H1 & H2 & H3). rewrite <-En in H1, H2, H3.
  split; [by rewrite <-Ek|]. split; [exact Hlt'|]. split; [by exists k'|]. split; [exact Hmin'|]. by rewrite H1.
Qed.
Lemma firstRecurringDate_next_witness :
  (2 ≤ 5)%nat ∧ next_after 5 (19753 * DAY) 1 (19785 * DAY) 1 = Some (19813 * DAY) ∧ 19785 * DAY < firstRecurringDate (Some (19753 * DAY)) (Some "MONTHLY") (19785 * DAY).
Proof.
  split; [lia|]. split; [by vm_compute|]. apply (firstRecurringDate_next (Some (19753 * DAY)) (Some "MONTHLY") (19785 * DAY) 5). lia.
Defined.

#[local] Opaque firstRecurringDate.

(** ** Everything that is asked *)

Inductive input :=
  | Job (org : string) (new_id : string → string)
  | JobAll (new_id : string → string)
  | CreateOne (org actor id : string) (q : create_request)
  | PutOne (org id : string) (q : put_request)
  | Send (org id : string)
  | Void (org id : string)
  | Undo (org id : string)
  | Elsewhere (f : world → world)          (** payments, other documents, the trash: any change of the books *)
  | Organizations (l : list string)
  | Wait (ms : Z).
Inductive reply := Reported (l : list report) | Noted.

Definition wait (ms : Z) (d : db) : db := Db (clock d + Z.max 0 ms) (books d) (schedules d) (organizations d) (trail d).
Definition set_organizations (l : list string) (d : db) : db := Db (clock d) (books d) (schedules d) l (trail d).

Section theory.
Context (arrange : list template → list template).
Implicit Types (d : db) (id org : string) (c : copied).

Definition noted {A} (p : act A) : act reply := _ ←! p; ok Noted.
Definition handle (n : nat) (i : input) : act reply :=
  match i with
  | Job org new_id => r ←! processRecurringInvoices arrange n org new_id; ok (Reported [r])
  | JobAll new_id => l ←! processRecurringInvoicesForAllOrganizations arrange n new_id; ok (Reported l)
  | CreateOne org actor id q => noted (createInvoice org actor id q)
  | PutOne org id q => noted (putInvoice org id q)
  | Send org id => noted (sendInvoice org id)
  | Void org id => noted (deleteInvoice org id)
  | Undo org id => noted (undoRoute org id)
  | Elsewhere f => write (λ d, (Noted, set_books (f (books d)) d))
  | Organizations l => write (λ d, (Noted, set_organizations l d))
  | Wait ms => write (λ d, (Noted, wait ms d))
  end.

(** ** The state *)

Definition source_id c : string := o_id (y_source c).
Definition due_date c : option Z := s_next (o_schedule (y_source c)).
(** A source as the job takes it: sent, recurring, and due at [now]. *)
Definition ready now (t : template) : Prop := may_recur (o_invoice t) = true ∧ ∃ x, s_next (o_schedule t) = Some x ∧ x ≤ now.
Definition faithful c : Prop := ready (y_now c) (y_source c) ∧ ∃ number, y_copy c = recurring_copy (o_invoice (y_source c)) number (y_now c).
(** A later copy of the same invoice is for a date after the earlier run. *)
Definition apart (later earlier : copied) : Prop := source_id later = source_id earlier → ∃ x, due_date later = Some x ∧ y_now earlier < x.
Record inv d : Prop := {
  inv_past c : c ∈ trail d → faithful c ∧ y_now c ≤ clock d;
  inv_next c sc x : c ∈ trail d → schedules d !! source_id c = Some sc → s_next sc = Some x → y_now c < x;
  inv_order : ForallOrdPairs apart (trail d)
}.
Definition count (n : nat) d : nat := length (List.filter (λ c, (y_by c =? n)%nat) (trail d)).
Record guar (n : nat) d d' : Prop := {
  g_inv : inv d → inv d';
  g_clock : clock d ≤ clock d';
  g_count m : m ≠ n → count m d' = count m d
}.
Abbreviation own := (owned inv guar).
Abbreviation later n := (rtc (others guar n)).
Abbreviation any := (rtc (anyone guar)).

Lemma invoices_idle n d : guar n d d.
Proof. by split. Qed.
Lemma clock_any d d' : any d d' → clock d ≤ clock d'.
Proof. induction 1 as [|d1 d2 d3 (n & H) _ IH]; [lia|]. pose proof (g_clock _ _ _ H). lia. Qed.
Lemma count_others n d d' : later n d d' → count n d' = count n d.
Proof. induction 1 as [|d1 d2 d3 (m & Hm & H) _ IH]; [done|]. rewrite IH. by apply (g_count _ _ _ H). Qed.
Lemma invoices_inv n d d' : inv d → guar n d d' → inv d'.
Proof. intros HI H. by apply H. Qed.

(** Nothing is billed, and a date that is set is yet to come. *)
Lemma guar_dates n d d' :
  trail d' = trail d → clock d ≤ clock d' →
  (∀ id sc x, schedules d' !! id = Some sc → s_next sc = Some x →
     clock d < x ∨ ∃ sc0, schedules d !! id = Some sc0 ∧ s_next sc0 = Some x) →
  guar n d d'.
Proof.
  intros Ht Hc Hs. split; [|done|by intros m _; unfold count; rewrite Ht]. intros [I1 I2 I3]. split.
  - intros c. rewrite Ht. intros Hin. destruct (I1 c Hin). split; [done|lia].
  - intros c sc x. rewrite Ht. intros Hin Hsc Hx. destruct (Hs _ _ _ Hsc Hx) as [Hlt|(sc0 & H0 & Hx0)]; [|by eapply I2].
    destruct (I1 c Hin) as [_ ?]. lia.
  - by rewrite Ht.
Qed.
Lemma guar_books n w d : guar n d (set_books w d).
Proof. apply guar_dates; [done|done|]. intros id sc x H1 H2. right. by exists sc. Qed.
(** A copy is recorded, and its source's date moved past the run. *)
Lemma guar_copy n d t now next newId copy w sc m :
  (∃ number, copy = recurring_copy (o_invoice t) number now) → ready now t → now ≤ clock d → now < next →
  (∃ sc0, schedules d !! o_id t = Some sc0 ∧ s_next sc0 = s_next (o_schedule t)) → s_next sc = None →
  (∀ id, id ≠ newId → m !! id = alter (λ r, Schedule (s_issue r) (s_interval r) (Some next)) (o_id t) (schedules d) !! id) → m !! newId = Some sc →
  guar n d (Db (clock d) w m (organizations d) (Copied n t now newId copy :: trail d)).
Proof.
  intros Hn Hr Hc Hlt (sc0 & H0 & E0) Hsc Hm1 Hm2. pose proof Hr as (_ & x & Hx & Hle). split; [|done|].
  2: { intros k Hk. unfold count. cbn. by rewrite (proj2 (Nat.eqb_neq _ _)) by done. }
  intros [I1 I2 I3]. assert (∀ c, c ∈ trail d → source_id c = o_id t → y_now c < x) as Hold.
  { intros c Hin E. eapply (I2 c sc0 x Hin); [by rewrite E|congruence]. }
  split; cbn.
  - intros c [->|Hin]%elem_of_cons; [done|by apply I1].
  - intros c r y Hin Hs Hy. unfold source_id in Hs. destruct (decide (o_id (y_source c) = newId)) as [E|Hne]; [rewrite E, Hm2 in Hs; congruence|].
    rewrite Hm1 in Hs by done. destruct (decide (o_id (y_source c) = o_id t)) as [E|Hne'].
    + rewrite E, lookup_alter_eq, H0 in Hs. cbn in Hs. assert (y = next) as -> by (injection Hs as <-; cbn in Hy; congruence).
      apply elem_of_cons in Hin as [->|Hin]; [done|]. pose proof (Hold c Hin E). lia.
    + rewrite lookup_alter_ne in Hs by done. apply elem_of_cons in Hin as [->|Hin]; [done|]. by eapply (I2 c).
  - constructor; [|done]. apply Forall_forall. intros c Hin E. exists x. split; [done|]. by apply Hold.
Qed.

(** ** One step *)

Lemma in_books_ok {A} (m : tx A) d a d' : run_alone (in_books m) d = (Ok a, d') → ∃ w, m (books d) = (Ok a, w) ∧ d' = set_books w d.
Proof. unfold in_books. rewrite run_statement. destruct (m (books d)) as [[x|e] w]; [|done]. intros [= <- <-]. by exists w. Qed.
Lemma inserted_same id n w n' w' : insert_invoice id n w = (Ok n', w') → n' = n.
Proof. unfold insert_invoice. cbv [mbind eff_bind gets throw modify mret eff_ret]. by destruct (_ || _); [|intros [= <- <-]]. Qed.
Lemma create_scoped_ok org id n sc d n' d' :
  run_alone (create_scoped org id n sc) d = (Ok n', d') → n' = n ∧ ∃ w, d' = add_schedule id sc (set_books w d).
Proof.
  unfold create_scoped. rewrite run_read. intros (_ & (x & d1 & (w & Hi & ->)%in_books_ok & H)%run_then)%run_require.
  apply inserted_same in Hi as ->. rewrite run_write in H. injection H as <- <-. eauto.
Qed.
Lemma visible_schedule org id d n sc : visible_invoice org id d = Some (n, sc) → schedules d !! id = Some sc.
Proof. unfold visible_invoice. destruct (invoices (books d) !! id), (schedules d !! id); try done. case_match; [|done]. by intros [= _ <-]. Qed.

(** One due invoice: billed, or left alone. *)
Lemma generate_step n org now newId t d r d' :
  ready now t → now ≤ clock d → run_alone (generate_copy n org now newId t) d = (r, d') →
  guar n d d' ∧ count n d' = (count n d + match r with Ok true => 1 | _ => 0 end)%nat.
Proof.
  intros Hr Hc. unfold generate_copy. unfold atomically. rewrite run_statement. intros H.
  destruct r as [b|e]; [|apply commit_err in H as [-> _]; split; [apply invoices_idle|by rewrite Nat.add_0_r]].
  apply commit_ok in H. unfold claim_template in H. rewrite run_write in H. destruct (visible_invoice org (o_id t) d) as [[i sc]|] eqn:Ev.
  2: { injection H as <- <-. split; [apply invoices_idle|by rewrite Nat.add_0_r]. }
  apply visible_schedule in Ev. destruct (_ && _) eqn:Eb.
  2: { injection H as <- <-. split; [apply invoices_idle|by rewrite Nat.add_0_r]. }
  apply andb_true_iff in Eb as [_ Es%bool_decide_eq_true]. cbn [fst snd negb] in H. rewrite run_read in H.
  apply run_then in H as (number & d1 & (w & _ & ->)%in_books_ok & H1). apply run_then in H1 as (copy & d2 & (-> & w' & ->)%create_scoped_ok & H2).
  rewrite run_write in H2. injection H2 as <- <-. split.
  - set (next := firstRecurringDate _ _ now).
    eapply (guar_copy n d t now next newId _ _ (Schedule now None None)); [by exists number|done|done|apply firstRecurringDate_later|by exists sc|done| |].
    + intros id Hne. cbn. by rewrite lookup_insert_ne.
    + cbn. by rewrite lookup_insert_eq.
  - unfold count. cbn. rewrite Nat.eqb_refl. cbn. lia.
Qed.
Lemma due_ready org now d t : t ∈ omap (λ x, due org now d x.1 x.2) (map_to_list (invoices (books d))) → ready now t.
Proof.
  intros ([id n] & _ & H)%list_elem_of_omap. cbn in H. unfold due in H. destruct (visible_invoice org id d) as [[n' sc]|]; [|done].
  destruct (s_next sc) as [x|] eqn:Ex; [|done]. destruct (may_recur n && (x <=? now)) eqn:E; [|done]. injection H as <-.
  apply andb_true_iff in E as [Hr Hle%Z.leb_le]. split; [done|]. by exists x.
Qed.

(** ** Requests *)

Lemma bill_generate_all n org now new_id l k fs d :
  (∀ t, t ∈ l → ready now t) → now ≤ clock d →
  own n (generate_all n org now new_id l k fs) d (told (λ r d', (count n d' + k = count n d + r.1)%nat ∧ (r.1 ≤ k + length l)%nat)).
Proof.
  revert k fs d. induction l as [|t l IH]; intros k fs d Hl Hc.
  { apply told_ok. intros d1 H1 _. cbn. rewrite (count_others _ _ _ H1). lia. }
  cbn [generate_all].
  apply (owned_tried inv guar n (generate_copy n org now (new_id (o_id t)) t) _ d
           (λ r d', count n d' = (count n d + match r with Ok true => 1 | _ => 0 end)%nat)).
  - intros d1 H1 I1. pose proof (clock_any _ _ (others_anyone _ _ _ _ H1)).
    destruct (run_alone (generate_copy n org now (new_id (o_id t)) t) d1) as [r d2] eqn:E.
    unfold generate_copy, atomically in E. rewrite run_statement in E. cbn [statement await]. rewrite E. cbn [fst snd].
    destruct (generate_step n org now (new_id (o_id t)) t d1 r d2) as [HG Hn]; [apply Hl; left|lia|unfold generate_copy, atomically; by rewrite run_statement|].
    split; [exact HG|]. intros d3 H3 _. rewrite (count_others _ _ _ H3), Hn, (count_others _ _ _ H1). done.
  - intros r d1 H1 _ Hn. pose proof (clock_any _ _ H1). assert (∀ u, u ∈ l → ready now u) as Hl' by (intros u Hu; apply Hl; by right).
    destruct r as [b|e]; (eapply owned_mono; [apply IH; [exact Hl'|lia]|]); intros [[m fs']|] d2 _ _ HF; try done; cbn in *; destruct HF as [? ?]; [destruct b|]; lia.
Qed.

Lemma bill_process n org new_id d :
  (∀ l, arrange l ≡ₚ l) →
  own n (processRecurringInvoices arrange n org new_id) d (told (λ r d', count n d' = (count n d + generated r)%nat ∧ (generated r ≤ examined r)%nat)).
Proof.
  intros Ha. unfold processRecurringInvoices. apply told_read; [apply invoices_idle|]. intros d1 H1 _.
  apply told_read; [apply invoices_idle|]. intros d2 H2 _. set (found := dueInvoices _ _ _ d2).
  pose proof (clock_any _ _ (others_anyone _ _ _ _ H2)) as Hc.
  assert (∀ t, t ∈ found → ready (clock d1) t) as Hf.
  { intros t Hin. unfold found, dueInvoices in Hin. eapply due_ready. rewrite <-(Ha (omap _ _)). eapply subseteq_take, Hin. }
  eapply told_and_then; [by apply bill_generate_all|]. intros [m fs] d3 H3 _ [H Hm]. cbn [fst snd] in *.
  case_bool_decide; [|apply told_fail]. apply told_ok. intros d4 H4 _.
  rewrite (count_others _ _ _ H4). rewrite (count_others _ _ _ H2), (count_others _ _ _ H1) in H. cbn. lia.
Qed.

Lemma bill_each n new_id orgs rs d :
  (∀ l, arrange l ≡ₚ l) →
  own n (each_organization arrange n new_id orgs rs) d
    (told (λ r d', (count n d' + list_sum (generated <$> rs) = count n d + list_sum (generated <$> r))%nat ∧ (Forall (λ x, generated x ≤ examined x)%nat rs → Forall (λ x, generated x ≤ examined x)%nat r))).
Proof.
  intros Ha. revert rs d. induction orgs as [|org orgs IH]; intros rs d; cbn [each_organization].
  { apply told_ok. intros d1 H1 _. by rewrite (count_others _ _ _ H1). }
  eapply (told_and_then _ _ n _ _ d (λ r d', count n d' = (count n d + generated r)%nat ∧ (generated r ≤ examined r)%nat)).
  - unfold runTenantJob. eapply (told_and_then _ _ n _ _ d (λ _ d', count n d' = count n d)).
    + cbn [resolveTenantOrganizationIds]. apply told_read; [apply invoices_idle|]. intros d1 H1 _. apply told_require. intros _.
      apply told_ok. intros d2 H2 _. by rewrite (count_others _ _ _ H2), (count_others _ _ _ H1).
    + intros l d1 _ _ E. eapply owned_mono; [by apply bill_process|]. intros [r|e] d2 _ _; [|done]. cbn. by rewrite E.
  - intros r d1 _ _ [E Hle]. eapply owned_mono; [apply IH|]. intros [l|e] d2 _ _; [|done]. cbn. rewrite fmap_app, list_sum_app, E. cbn.
    intros [Hc Hf]. split; [lia|]. intros Hrs. apply Hf, Forall_app. auto.
Qed.
Lemma bill_all n new_id d :
  (∀ l, arrange l ≡ₚ l) →
  own n (processRecurringInvoicesForAllOrganizations arrange n new_id) d
    (told (λ r d', count n d' = (count n d + list_sum (generated <$> r))%nat ∧ Forall (λ x, generated x ≤ examined x)%nat r)).
Proof.
  intros Ha. unfold processRecurringInvoicesForAllOrganizations. cbn [resolveTenantOrganizationIds].
  apply told_read; [apply invoices_idle|]. intros d1 H1 _. eapply owned_mono; [by apply bill_each|]. intros [r|e] d2 _ _; [|done].
  cbn. rewrite (count_others _ _ _ H1). intros [Hc Hf]. split; [lia|]. by apply Hf.
Qed.

Definition plain {A} (_ : A) d : Prop := True.
(** A transaction that bills nothing. *)
Lemma bill_transaction {A} n (p : act A) d :
  (∀ d1 a d2, run_alone p d1 = (Ok a, d2) → guar n d1 d2) → own n (atomically p) d (told plain).
Proof.
  intros H d1 _ _. destruct (commit p d1) as [[a|e] d2] eqn:E; cbn.
  - apply commit_ok in E. by split; [eapply H|].
  - apply commit_err in E as [-> _]. by split; [apply invoices_idle|].
Qed.
Lemma guar_rescheduled n id f w d :
  (∀ sc x, schedules d !! id = Some sc → s_next (f sc) = Some x → clock d < x ∨ s_next sc = Some x) → guar n d (set_schedule id f (set_books w d)).
Proof.
  intros Hf. apply guar_dates; [done|done|]. intros i sc x. cbn. destruct (decide (i = id)) as [->|Hne].
  - rewrite lookup_alter_eq. destruct (schedules d !! id) as [sc0|] eqn:E; [|done]. intros [= <-] Hx. destruct (Hf sc0 x eq_refl Hx); [by left|]. right. by exists sc0.
  - rewrite lookup_alter_ne by done. intros Hs Hx. right. by exists sc.
Qed.
Lemma guar_scheduled n id sc w d : (∀ x, s_next sc = Some x → clock d < x) → guar n d (add_schedule id sc (set_books w d)).
Proof.
  intros Hf. apply guar_dates; [done|done|]. intros i sc' x. cbn. rewrite lookup_insert_Some. intros [[<- <-]|[_ Hs]] Hx; [left; by apply Hf|right; by exists sc'].
Qed.

Lemma bill_create n org actor id q d : own n (createInvoice org actor id q) d (told plain).
Proof.
  unfold createInvoice. apply told_read; [apply invoices_idle|]. intros d1 _ _.
  destruct (match clients (books d1) !! v_client q with Some _ => _ | None => None end) as [name|]; [|apply told_fail].
  apply bill_transaction. intros d2 a d3. rewrite run_read. intros (number & d4 & (w & _ & ->)%in_books_ok & (-> & w' & ->)%create_scoped_ok)%run_then.
  apply (guar_scheduled n id _ w' d2). intros x. destruct (v_recurring q); [|done]. intros [= <-]. apply firstRecurringDate_later.
Qed.
Lemma edited_later q n sc now row x : s_next (edited_schedule q n sc now row) = Some x → now < x ∨ s_next row = Some x.
Proof.
  unfold edited_schedule. destruct (negb _); [destruct (bool_decide _); [done|by right]|]. destruct (_ || _ || _); [|by right].
  intros [= <-]. left. apply firstRecurringDate_later.
Qed.
Lemma bill_put n org id q d : own n (putInvoice org id q) d (told plain).
Proof.
  unfold putInvoice. apply told_read; [apply invoices_idle|]. intros d1 _ _. destruct (visible_invoice org id d1) as [[i sc]|]; [|apply told_fail].
  apply told_require. intros _. apply told_require. intros _. apply bill_transaction. intros d2 a d3. rewrite run_read.
  intros (u & d4 & (w & _ & ->)%in_books_ok & [= _ <-])%run_then. apply guar_rescheduled. intros sc' x _. apply edited_later.
Qed.
Lemma bill_send n org id d : own n (sendInvoice org id) d (told plain).
Proof.
  unfold sendInvoice. apply told_read; [apply invoices_idle|]. intros d1 _ _. destruct (visible_invoice org id d1) as [[i sc]|]; [|apply told_fail].
  apply told_require. intros _. apply bill_transaction. intros d2 a d3. rewrite run_read. intros (u & d4 & (w & _ & ->)%in_books_ok & H)%run_then.
  destruct (_ && _); injection H as _ <-; [|apply guar_books]. apply guar_rescheduled. intros sc' x _ [= <-]. left. apply firstRecurringDate_later.
Qed.
Lemma bill_delete n org id d : own n (deleteInvoice org id) d (told plain).
Proof.
  unfold deleteInvoice. apply told_read; [apply invoices_idle|]. intros d1 _ _. destruct (visible_invoice org id d1) as [[i sc]|]; [|apply told_fail].
  apply told_require. intros _. apply bill_transaction. intros d2 a d3. rewrite run_read. intros (w & _ & ->)%in_books_ok. apply guar_books.
Qed.
Lemma bill_undo n org id d : own n (undoRoute org id) d (told plain).
Proof.
  apply bill_transaction. intros d2 a d3. rewrite run_read. intros (_ & H)%run_require. rewrite run_read in H. apply in_books_ok in H as (w & _ & ->). apply guar_books.
Qed.

(** What a request is told of what it billed. *)
Definition reported (n : nat) (r : reply) d : Prop :=
  match r with
  | Reported l => count n d = list_sum (generated <$> l) ∧ Forall (λ x, generated x ≤ examined x)%nat l
  | Noted => True
  end.
Lemma bill_noted {A} n (p : act A) d : own n p d (told plain) → own n (noted p) d (told (reported n)).
Proof. intros H. eapply told_and_then; [exact H|]. intros a d1 _ _ _. by apply told_ok. Qed.
Lemma bill_handle n i d : (∀ l, arrange l ≡ₚ l) → count n d = 0%nat → own n (handle n i) d (told (reported n)).
Proof.
  intros Ha H0. destruct i as [org new_id|new_id|org actor id q|org id q|org id|org id|org id|f|l|ms]; cbn [handle].
  - eapply told_and_then; [by apply bill_process|]. intros r d1 _ _ [Hc Hle]. apply told_ok. intros d2 H2 _. cbn.
    rewrite (count_others _ _ _ H2), Hc, H0. split; [lia|]. by repeat constructor.
  - eapply told_and_then; [by apply bill_all|]. intros r d1 _ _ [Hc Hle]. apply told_ok. intros d2 H2 _. cbn.
    by rewrite (count_others _ _ _ H2), Hc, H0.
  - apply bill_noted, bill_create.
  - apply bill_noted, bill_put.
  - apply bill_noted, bill_send.
  - apply bill_noted, bill_delete.
  - apply bill_noted, bill_undo.
  - intros d1 _ _. split; [apply guar_books|done].
  - intros d1 _ _. split; [apply guar_dates; [done|done|]; intros id sc x H1 H2; right; by exists sc|done].
  - intros d1 _ _. split; [|done]. apply guar_dates; [done|cbn; lia|]. intros id sc x H1 H2. right. by exists sc.
Qed.


(** ** A run left alone *)

Lemma run_tried {A B} (p : act A) (k : result failure A → act B) d :
  run_alone (and_then (tried p) k) d = run_alone (k (run_alone p d).1) (run_alone p d).2.
Proof. unfold tried. rewrite run_and_then, run_catch, run_and_then. by destruct (run_alone p d) as [[a|e] d1]. Qed.
(** The invoice is still as the job read it. *)
Definition claimable org d (t : template) : Prop :=
  ∃ i sc, visible_invoice org (o_id t) d = Some (i, sc) ∧ may_recur i = true ∧ s_next sc = s_next (o_schedule t).
(** Its date is the first one after the run. *)
Definition moved_on org now (t : template) d : Prop :=
  ∃ i sc, visible_invoice org (o_id t) d = Some (i, sc) ∧ s_next sc = Some (firstRecurringDate (Some (s_issue (o_schedule t))) (s_interval (o_schedule t)) now).

Lemma insert_invoice_fresh id n w n' w' :
  insert_invoice id n w = (Ok n', w') → invoices w !! id = None ∧ invoices w' = <[id := n]> (invoices w).
Proof.
  unfold insert_invoice. cbv [mbind eff_bind gets throw modify mret eff_ret]. destruct (_ || _) eqn:E; [done|]. intros [= <- <-].
  apply orb_false_iff in E as [E%bool_decide_eq_false _]. split; [|done]. by destruct (invoices w !! id); [destruct E; eauto|].
Qed.
Lemma visible_kept org id x d w m :
  visible_invoice org id d = Some x → invoices w !! id = invoices (books d) !! id → m !! id = schedules d !! id →
  ∀ cl os l, visible_invoice org id (Db cl w m os l) = Some x.
Proof. intros H E1 E2 cl os l. unfold visible_invoice in *. cbn. by rewrite E1, E2. Qed.

Lemma generate_alone n org now newId t d r d' :
  claimable org d t → run_alone (generate_copy n org now newId t) d = (r, d') →
  (r = Ok true ∧ (∃ c, trail d' = c :: trail d ∧ y_source c = t) ∧ moved_on org now t d' ∧
     ∀ id x, id ≠ o_id t → visible_invoice org id d = Some x → visible_invoice org id d' = Some x) ∨
  ((∃ e, r = Err e) ∧ d' = d).
Proof.
  intros (i & sc & Hv & Hm & Hs). unfold generate_copy, atomically. rewrite run_statement. intros H.
  destruct r as [b|e]; [|apply commit_err in H as [-> _]; right; eauto]. left.
  apply commit_ok in H. unfold claim_template in H. rewrite run_write, Hv, Hm, bool_decide_eq_true_2 in H by done. cbn [fst snd negb andb] in H. rewrite run_read in H.
  apply run_then in H as (number & d1 & (w & Ha & ->)%in_books_ok & H1). apply run_then in H1 as (copy & d2 & H1 & H2).
  rewrite run_write in H2. injection H2 as <- <-. split; [done|].
  apply BilledOnce.allocateInvoiceNumber_ok in Ha as [(_ & Hi & _) _]. cbn in Hi.
  unfold create_scoped in H1. rewrite run_read in H1. apply run_require in H1 as [_ H1].
  apply run_then in H1 as (c & d3 & (w' & Hins & ->)%in_books_ok & H1). rewrite run_write in H1. injection H1 as -> <-.
  apply insert_invoice_fresh in Hins as [Hf Hi']. cbn in Hf, Hi'. rewrite Hi in Hf, Hi'.
  assert (Hne : newId ≠ o_id t) by (intros ->; by rewrite lookup_insert_eq in Hf).
  assert (Hinv : ∃ i0, invoices (books d) !! o_id t = Some i0 ∧ bool_decide (n_org i = org) && negb (n_deleted i) = true ∧ i0 = i).
  { unfold visible_invoice in Hv. destruct (invoices (books d) !! o_id t) as [i0|], (schedules d !! o_id t); try done. destruct (_ && _) eqn:E; [|done].
    injection Hv as -> ->. by exists i. }
  destruct Hinv as (_ & Hi0 & Ho & ->). split; [by eexists|]. split.
  - eexists. eexists. split.
    + unfold visible_invoice. cbn. rewrite Hi', lookup_insert_ne, lookup_insert_eq by done. rewrite lookup_insert_ne, lookup_alter_eq by done. rewrite (visible_schedule _ _ _ _ _ Hv). cbn. by rewrite Ho.
    + done.
  - intros id x Hid Hx. assert (newId ≠ id) as Hn.
    { intros ->. unfold visible_invoice in Hx. rewrite lookup_insert_ne in Hf by done. by rewrite Hf in Hx. }
    apply (visible_kept org id x d); [done| |]; cbn; [by rewrite Hi', !lookup_insert_ne|by rewrite lookup_insert_ne, lookup_alter_ne].
Qed.
Lemma generate_all_alone n org now new_id l k fs d :
  NoDup (o_id <$> l) → (∀ t, t ∈ l → claimable org d t) →
  ∃ cs failed d', run_alone (generate_all n org now new_id l k fs) d = (Ok ((k + length cs)%nat, fs ++ failed), d') ∧
    trail d' = cs ++ trail d ∧ (source_id <$> cs) ++ failed ≡ₚ o_id <$> l ∧
    (∀ id x, id ∉ o_id <$> l → visible_invoice org id d = Some x → visible_invoice org id d' = Some x) ∧
    ∀ t, t ∈ l → if decide (o_id t ∈ failed) then visible_invoice org (o_id t) d' = visible_invoice org (o_id t) d else moved_on org now t d'.
Proof.
  revert k fs d. induction l as [|t l IH]; intros k fs d Hnd Hcl.
  { exists [], [], d. cbn. rewrite Nat.add_0_r, app_nil_r. split_and!; try done. by intros t ?%not_elem_of_nil. }
  cbn [generate_all]. apply NoDup_cons in Hnd as [Hni Hnd]. rewrite run_tried.
  destruct (run_alone (generate_copy n org now (new_id (o_id t)) t) d) as [r d1] eqn:E. cbn [fst snd].
  assert (∀ u, u ∈ l → o_id u ≠ o_id t) as Hne by (intros u Hu Eu; apply Hni; rewrite <-Eu; by apply list_elem_of_fmap_2).
  destruct (generate_alone n org now (new_id (o_id t)) t d r d1 (Hcl t ltac:(left)) E) as [(-> & (c & Hc & <-) & Hmv & Hk)|([e ->] & ->)].
  - destruct (IH (k + 1)%nat fs d1 Hnd) as (cs & failed & d' & Hr & Ht & Hp & Hvis & Hall).
    { intros u Hu. destruct (Hcl u ltac:(by right)) as (i & sc & Hv & Hrest). exists i, sc. split; [|done]. apply Hk; [by apply Hne|done]. }
    assert (o_id (y_source c) ∉ failed) as Hf by (intros Hin; apply Hni; rewrite <-Hp; set_solver).
    exists (cs ++ [c]), failed, d'. rewrite Hr, Ht, Hc, <-app_assoc. split; [rewrite length_app; cbn; do 3 f_equal; lia|].
    split; [done|]. split; [|split].
    + rewrite fmap_app, <-app_assoc. cbn. rewrite <-Permutation_middle. by constructor.
    + intros id x Hid Hx. cbn in Hid. apply not_elem_of_cons in Hid as [H1 H2]. apply Hvis; [done|]. by apply Hk.
    + intros u [->|Hu]%elem_of_cons.
      * rewrite decide_False by done. destruct Hmv as (i & sc & Hv & Hs). exists i, sc. split; [by apply Hvis|done].
      * specialize (Hall u Hu). case_decide; [|done]. destruct (Hcl u ltac:(by right)) as (i & sc & Hv & _). rewrite Hall, Hv. apply Hk; [by apply Hne|done].
  - destruct (IH k (fs ++ [o_id t]) d Hnd (λ u Hu, Hcl u ltac:(by right))) as (cs & failed & d' & Hr & Ht & Hp & Hvis & Hall).
    exists cs, (o_id t :: failed), d'. rewrite Hr, Ht, <-app_assoc. split; [done|]. split; [done|]. split; [|split].
    + cbn. rewrite <-Permutation_middle. by constructor.
    + intros id x Hid. cbn in Hid. apply not_elem_of_cons in Hid as [_ H2]. by apply Hvis.
    + intros u [->|Hu]%elem_of_cons.
      * rewrite decide_True by left. destruct (Hcl t ltac:(left)) as (i & sc & Hv & _). rewrite Hv. by apply Hvis.
      * specialize (Hall u Hu). assert (o_id u ∈ o_id t :: failed ↔ o_id u ∈ failed) as Hiff by (rewrite elem_of_cons; specialize (Hne u Hu); naive_solver).
        case_decide; case_decide; tauto.
Qed.
Lemma due_found org now d : (∀ l, arrange l ≡ₚ l) →
  NoDup (o_id <$> dueInvoices arrange org now d) ∧ ∀ t, t ∈ dueInvoices arrange org now d → claimable org d t ∧ ready now t.
Proof.
  intros Ha. unfold dueInvoices. set (l := omap _ _). assert (NoDup (o_id <$> l) ∧ ∀ t, t ∈ l → claimable org d t ∧ ready now t) as [Hnd Hl].
  { split.
    - unfold l. eapply sublist_NoDup; [apply (NoDup_fst_map_to_list (invoices (books d)))|]. induction (map_to_list (invoices (books d))) as [|[id n] k IH]; [done|].
      cbn. destruct (due org now d id n) as [t|] eqn:E; [|by apply sublist_cons]. cbn. replace (o_id t) with id; [by apply sublist_skip|].
      unfold due in E. repeat case_match; try done. by injection E as <-.
    - intros t Hin. split; [|by eapply due_ready]. apply list_elem_of_omap in Hin as ([id n] & Hin & H). apply elem_of_map_to_list in Hin. cbn in H.
      unfold due in H. destruct (visible_invoice org id d) as [[n' sc]|] eqn:Ev; [|done]. destruct (s_next sc) as [x|]; [|done].
      destruct (may_recur n && _) eqn:E; [|done]. injection H as <-. apply andb_true_iff in E as [Hr _]. exists n', sc. split; [done|]. split; [|done].
      unfold visible_invoice in Ev. rewrite Hin in Ev. repeat case_match; try done. by injection Ev as <- _. }
  split.
  - eapply sublist_NoDup; [|apply fmap_sublist, sublist_take]. by rewrite Ha.
  - intros t Hin%(subseteq_take 100). rewrite Ha in Hin. by apply Hl.
Qed.

(** A run of the job that nothing interferes with always
    answers. Every invoice it found - due, sent and recurring - is either billed
    exactly once or reported as failed, and nothing else is billed: one that was
    billed has moved on to the first date of its schedule after the run, one that
    failed is as it was, so that the next run finds it again; and the run
    succeeds exactly when none failed. *)
Lemma recurring_run_settles n org new_id d :
  (∀ l, arrange l ≡ₚ l) →
  let found := dueInvoices arrange org (clock d) d in
  ∃ r d' cs failed, run_alone (processRecurringInvoices arrange n org new_id) d = (r, d') ∧
    r = (if decide (failed = []) then Ok (Report (length found) (length found)) else Err (SomeFailed failed)) ∧
    trail d' = cs ++ trail d ∧ (source_id <$> cs) ++ failed ≡ₚ o_id <$> found ∧
    ∀ t, t ∈ found → if decide (o_id t ∈ failed) then visible_invoice org (o_id t) d' = visible_invoice org (o_id t) d else moved_on org (clock d) t d'.
Proof.
  intros Ha found. destruct (due_found org (clock d) d Ha) as [Hnd Hf].
  destruct (generate_all_alone n org (clock d) new_id found 0 [] d Hnd (λ t Ht, proj1 (Hf t Ht))) as (cs & failed & d' & Hr & Ht & Hp & _ & Hall).
  exists (if decide (failed = []) then Ok (Report (length found) (length found)) else Err (SomeFailed failed)), d', cs, failed.
  split; [|done]. unfold processRecurringInvoices. rewrite !run_read. fold found. rewrite run_and_then, Hr. cbn [fst snd app].
  apply Permutation_length in Hp. rewrite length_app, !length_fmap in Hp. destruct (decide (failed = [])) as [->|Hne].
  - cbn in *. by rewrite <-Hp, Nat.add_0_r.
  - by rewrite bool_decide_eq_false_2.
Qed.

End theory.

(** ** Runs *)

Section demos.
Definition demo_sent (org number client : string) (recurring : bool) : invoice :=
  Invoice org number "SENT" client None ("u-" +:+ org) "Hosting" "CAD" (of_Z 13) "HST" zero
    (invoiceTotals [of_Z 100] (of_Z 13) zero) [Line "Hosting" "LABOR" (of_Z 1) (of_Z 100) (of_Z 100) 0] None None None None recurring [] false 0.
(** Two organizations with an invoice each, issued on January 31st 2024 and due
    on February 29th; [deleted]: the client of the first is in the trash. *)
Definition demo_books (deleted : bool) : world :=
  World ∅ ∅ (<["ca" := Client "a" "Acme" deleted]> (<["cb" := Client "b" "Birch" false]> ∅)) ∅
    (<["u-a" := User "a" "Ann" true true]> (<["u-b" := User "b" "Bob" true true]> ∅))
    (<["ia" := demo_sent "a" "INV-2024-0001" "ca" true]> (<["ib" := demo_sent "b" "INV-2024-0001" "cb" true]> ∅)) ∅ [].
Definition demo_schedule_row : schedule := Schedule (19753 * DAY) (Some "MONTHLY") (Some (19782 * DAY)).
Definition demo_db (deleted : bool) : db :=
  Db (19785 * DAY) (demo_books deleted) (<["ia" := demo_schedule_row]> (<["ib" := demo_schedule_row]> ∅)) ["b"; "a"] [].
Definition demo_new (tag id : string) : string := tag +:+ id.

(** Two workers read the due invoice before either bills it; a month later the
    next run bills it again. *)
Definition demo_system :=
  perform (handle (λ l, l))
    [Arrive (Job "a" (demo_new "1-")); Arrive (Job "a" (demo_new "2-")); Run 0; Run 0; Run 1; Run 1; Run 0; Run 1;
     Arrive (Wait 3000000000); Run 0; Arrive (Job "a" (demo_new "3-")); Run 0; Run 0; Run 0]
    (initial (demo_db false)).
Example demo_billed_once :
  (λ c, (source_id c, due_date c, n_number (y_copy c))) <$> trail (data demo_system) =
    [("ia", Some (19813 * DAY), "INV-2024-0003"); ("ia", Some (19782 * DAY), "INV-2024-0002")] ∧
  (snd <$> answers demo_system) = [Ok (Reported [Report 1 1]); Ok Noted; Ok (Reported [Report 1 1]); Ok (Reported [Report 1 0])].
Proof. split; vm_compute; reflexivity. Qed.

Lemma recurring_run_settles_witness :
  length (dueInvoices (λ l, l) "a" (19785 * DAY) (demo_db false)) = 1%nat ∧
  ∃ r d', run_alone (processRecurringInvoices (λ l, l) 0 "a" (demo_new "1-")) (demo_db false) = (r, d').
Proof.
  split; [vm_compute; reflexivity|].
  destruct (recurring_run_settles (λ l, l) 0 "a" (demo_new "1-") (demo_db false) (λ l, Permutation_refl l)) as (r & d' & _ & _ & H & _). by exists r, d'.
Defined.

(** The first organization's invoice cannot be billed: the run ends there, and
    the second organization's due invoice is never looked at - in this run or in
    any retry. *)
Lemma one_organization_stops_all :
  (run_alone (processRecurringInvoicesForAllOrganizations (λ l, l) 0 (demo_new "1-")) (demo_db true)).1 = Err (SomeFailed ["ia"]) ∧
  trail (run_alone (processRecurringInvoicesForAllOrganizations (λ l, l) 0 (demo_new "1-")) (demo_db true)).2 = [] ∧
  (run_alone (processRecurringInvoices (λ l, l) 0 "b" (demo_new "1-")) (demo_db true)).1 = Ok (Report 1 1).
Proof. split_and!; vm_compute; reflexivity. Qed.

(** A draft is sent between a void's read and its transaction: the void is
    recorded as one of a draft, and undoing it makes the sent invoice a draft. *)
Definition demo_draft : invoice := set_status "DRAFT" None None 0 (demo_sent "a" "INV-2024-0001" "ca" true).
Definition demo_draft_db : db := set_books (set_invoice "ia" demo_draft (demo_books false)) (demo_db false).
Lemma sent_invoice_becomes_a_draft :
  let s := perform (handle (λ l, l)) [Arrive (Void "a" "ia"); Run 0; Arrive (Send "a" "ia"); Run 0; Run 0; Run 1; Arrive (Undo "a" "ia"); Run 0] (initial demo_draft_db) in
  (snd <$> answers s) = [Ok Noted; Ok Noted; Ok Noted] ∧ (n_status <$> invoices (books (data s)) !! "ia") = Some "DRAFT".
Proof. split; vm_compute; reflexivity. Qed.
End demos.

End RecurringInvoiceLog.
