(* ===== verification/Trash.v ===== *)
(** * Trash

    services/trash.service.js, trash-purge.service.js, jobs/trash-purge.js,
    routes/trash.routes.js and utils/entity-map.js, with the routes that delete
    through them: a record is hidden and a ledger row keeps it for thirty days,
    from which it is restored, or purged for good.  Functions are cut at their
    awaits; a [$transaction] is one step.  Notes go through Audiences.v. *)

From S2P Require Import Prelude Store Async Steps Audiences.
Import Steps.Steps Audiences.Audiences(actor, a_id, a_org, a_role, access_error, node, composed).

Module Trash.

(** ** Records *)

(* src/src/utils/entity-map.js:10-22 ENTITY_MAP *)
Definition ENTITY_MAP : list (string * string) :=
  [("CLIENT", "client"); ("PROJECT", "project"); ("INVOICE", "invoice"); ("PROPOSAL", "proposal"); ("CONTRACT", "contract");
   ("EXPENSE", "expense"); ("TASK", "task"); ("ESTIMATE", "estimate"); ("NOTE", "note"); ("MILESTONE", "milestone"); ("RETAINER_PLAN", "retainerPlan")].
Definition model_of (entity : string) : option string := option_map snd (List.find (λ em, bool_decide (em.1 = entity)) ENTITY_MAP).

(** A row of one of these models: [i_owner] is the organization its tenant path
    leads to, which never changes; [i_column] its own organizationId column. *)
Record item := Item {
  i_owner : string; i_column : option string; i_client : option string; i_project : option string; i_parent : option string;
  i_milestone : option string; i_deletedAt : option Z; i_status : string; i_body : string
}.
Definition with_deleted (at_ : option Z) (it : item) : item :=
  Item (i_owner it) (i_column it) (i_client it) (i_project it) (i_parent it) (i_milestone it) at_ (i_status it) (i_body it).
Definition with_milestone (m : option string) (it : item) : item :=
  Item (i_owner it) (i_column it) (i_client it) (i_project it) (i_parent it) m (i_deletedAt it) (i_status it) (i_body it).
Definition hidden (it : item) : bool := bool_decide (is_Some (i_deletedAt it)).
(** Model and id. *)
Abbreviation key := (string * string)%type.
Definition ref (model : string) (id : option string) : list key := match id with Some id => [(model, id)] | None => [] end.
Definition gone_ref (gone : gset key) (model : string) (id : option string) : bool := existsb (λ k, bool_decide (k ∈ gone)) (ref model id).

(** ** The foreign keys of the schema *)

(** The rows whose deletion deletes this one (ON DELETE CASCADE). *)
Definition cascades_from (k : key) (it : item) : list key :=
  if bool_decide (k.1 ∈ ["project"; "invoice"; "proposal"; "contract"; "estimate"; "retainerPlan"]) then ref "client" (i_client it)
  else if bool_decide (k.1 ∈ ["note"; "milestone"]) then ref "project" (i_project it)
  else if bool_decide (k.1 = "task") then ref "project" (i_project it) ++ ref "task" (i_parent it)
  else [].
Definition falls (gone : gset key) (k : key) (it : item) : bool := existsb (λ p, bool_decide (p ∈ gone)) (cascades_from k it).
Definition spread (m : gmap key item) (gone : gset key) : gset key := gone ∪ dom (filter (λ x, falls gone x.1 x.2 = true) m).
(** Everything a deletion takes with it; one round per row is enough
    ([removed_closed]). *)
Definition removed (m : gmap key item) (k : key) : gset key := Nat.iter (S (size m)) (spread m) {[k]}.
(** References that are emptied instead (ON DELETE SET NULL). *)
Definition detach (gone : gset key) (k : key) (it : item) : item :=
  let cut models model o := if bool_decide (k.1 ∈ models) && gone_ref gone model o then None else o in
  Item (i_owner it) (i_column it) (cut ["expense"] "client" (i_client it)) (cut ["expense"; "proposal"] "project" (i_project it)) (i_parent it)
    (cut ["task"] "milestone" (i_milestone it)) (i_deletedAt it) (i_status it) (i_body it).

(** A resource link, which nothing may delete: it restricts the deletion of its
    project and its task. *)
Record link := Link { l_org : string; l_project : string; l_task : option string }.
Definition link_refs (l : link) : list key := ("project", l_project l) :: ref "task" (l_task l).

(** ** State *)

(* src/prisma/schema.prisma:2781-2797 TrashedItem *)
Record trashed := Trashed {
  z_entity : string; z_record : string; z_org : string; z_data : item; z_tasks : option (list string); z_deletedAt : Z; z_expiresAt : Z; z_restoredAt : option Z
}.
(** What happened, newest first (ghost): a ledger row [z] was written, its record
    restored, or purged, by the job or by someone, with the rows that went. *)
Inductive event :=
  | Ledgered (z : nat) (t : trashed)
  | Restored (z : nat) (t : trashed)
  | Purged (z : nat) (t : trashed) (by_ : option actor) (at_ : Z) (rows : list (key * item)).
(** [next]: ids of ledger rows are drawn fresh; [pinned]: rows that other tables
    keep from being deleted. *)
Record db := Db {
  clock : Z; items : gmap key item; nodes : gmap string node; staff : string → string → option actor; links : list link; pinned : gset key;
  ledger : gmap nat trashed; next : nat; trail : list event
}.
Definition set_items (m : gmap key item) (d : db) : db := Db (clock d) m (nodes d) (staff d) (links d) (pinned d) (ledger d) (next d) (trail d).
Definition set_nodes (m : gmap string node) (d : db) : db := Db (clock d) (items d) m (staff d) (links d) (pinned d) (ledger d) (next d) (trail d).
Definition set_ledger (m : gmap nat trashed) (n : nat) (d : db) : db := Db (clock d) (items d) (nodes d) (staff d) (links d) (pinned d) m n (trail d).
Definition note (e : event) (d : db) : db := Db (clock d) (items d) (nodes d) (staff d) (links d) (pinned d) (ledger d) (next d) (e :: trail d).
Definition set_item (k : key) (f : item → item) (d : db) : db := set_items (alter f k (items d)) d.

Inductive failure :=
  | UnknownEntity | NoOrganization | RecordNotFound | OrganizationMismatch | NotADraft | TrashNotFound | TrashGone | OriginalGone
  | Retention | ForeignKey | Forbidden | Access (e : access_error) | AudienceLost | PurgesFailed (n : nat).
(* src/src/services/trash-purge.service.js:10-13 isResourceLinkRetention *)
Definition isResourceLinkRetention (e : failure) : bool := match e with Retention => true | _ => false end.
Abbreviation act := (steps db failure).

(** What the organization's client shows: rows that are not hidden. *)
Definition visible (org model id : string) (d : db) : option item :=
  match items d !! (model, id) with
  | Some it => if bool_decide (i_owner it = org) && negb (hidden it) then Some it else None
  | None => None
  end.
(** The notes of an organization for Audiences.v, by whether they are hidden. *)
Definition notes_of (org : string) (deleted : bool) (d : db) : Audiences.notes := λ id,
  match items d !! ("note", id) with
  | Some it => if bool_decide (i_owner it = org) && Bool.eqb (hidden it) deleted then nodes d !! id else None
  | None => None
  end.
Definition access {A} (r : result access_error A) : act A := match r with Ok a => ok a | Err e => fail (Access e) end.

(** ** Deleting *)

(* src/src/services/trash.service.js:21-21 softDelete *)
Definition THIRTY_DAYS_MS : Z := 30 * 24 * 60 * 60 * 1000.
(** The ledger row of a record that is being hidden. *)
Definition new_ledger (entity id org : string) (it : item) (tasks : option (list string)) (now : Z) : trashed :=
  Trashed entity id org it tasks now (now + THIRTY_DAYS_MS) None.
Definition hide (model id : string) (now : Z) (d : db) : db := set_item (model, id) (with_deleted (Some now)) d.
Definition write_ledger (t : trashed) (d : db) : nat * db :=
  (next d, note (Ledgered (next d) t) (set_ledger (<[next d := t]> (ledger d)) (S (next d)) d)).

(* src/src/services/trash.service.js:4-36 softDelete *)
Definition softDelete (entity recordId organizationId : string) (snapshot : act (option (list string))) (beforeDelete : act unit) : act nat :=
  match model_of entity with
  | None => fail UnknownEntity
  | Some model =>
      _ ←! require (negb (bool_decide (organizationId = ""))) NoOrganization;
      atomically (
        record ←! read (visible organizationId model recordId);
        match record with
        | None => fail RecordNotFound
        | Some it =>
            _ ←! require (match i_column it with Some o => bool_decide (o = "") || bool_decide (o = organizationId) | None => true end) OrganizationMismatch;
            snapshotData ←! snapshot;
            _ ←! beforeDelete;
            now ←! read clock;
            _ ←! write (λ d, (tt, hide model recordId now d));
            write (write_ledger (new_ledger entity recordId organizationId it snapshotData now))
        end)
  end.

(** Expenses, and what else is deleted as it is. *)
(* src/src/routes/expense.routes.js:262-276 DELETE /:id *)
Definition deleteRecord (entity model org id : string) : act nat :=
  existing ←! read (visible org model id);
  _ ←! require (bool_decide (is_Some existing)) RecordNotFound;
  softDelete entity id org (ok None) (ok tt).
(* src/src/routes/proposal.routes.js:322-345 DELETE /:id *)
Definition deleteProposal (org id : string) : act nat :=
  existing ←! read (visible org "proposal" id);
  match existing with
  | None => fail RecordNotFound
  | Some it => _ ←! require (bool_decide (i_status it = "DRAFT")) NotADraft; softDelete "PROPOSAL" id org (ok None) (ok tt)
  end.

Section queries.
(** The order PostgreSQL answers a query in. *)
Context (arrange : list string → list string).

(** The ids a tenant query without [take] lists: a hundred at most. *)
Definition listed (org model : string) (P : string → item → bool) (d : db) : list string :=
  take 100 (arrange (omap (λ x, if bool_decide (x.1.1 = model) && bool_decide (i_owner x.2 = org) && negb (hidden x.2) && P x.1.2 x.2
                                then Some x.1.2 else None) (map_to_list (items d)))).
Definition has_milestone (id : string) (it : item) : bool := bool_decide (i_milestone it = Some id).
(** [updateMany]: the soft-delete client does not look at deletedAt here. *)
Definition clear_milestone (org id : string) (d : db) : db :=
  set_items (map_imap (λ k it, Some (if bool_decide (k.1 = "task") && bool_decide (i_owner it = org) && has_milestone id it then with_milestone None it else it)) (items d)) d.
(* src/src/routes/milestone.routes.js:217-248 DELETE /milestones/:id *)
Definition deleteMilestone (org id : string) : act nat :=
  existing ←! read (visible org "milestone" id);
  _ ←! require (bool_decide (is_Some existing)) RecordNotFound;
  softDelete "MILESTONE" id org
    (tasks ←! read (listed org "task" (λ _, has_milestone id));
     _ ←! write (λ d, (tt, clear_milestone org id d));
     ok (Some tasks))
    (ok tt).

(** ** Deleting notes *)

Definition barrier_ids (l : option (list string)) : Audiences.id_value := match l with Some l => Audiences.Ids l | None => Audiences.Everyone end.
Definition to_barrier (c : composed) : Audiences.barrier_value := Audiences.Barrier (barrier_ids (Audiences.readUserIds c)) (barrier_ids (Audiences.editUserIds c)).
(** [data: { audienceBarrier, parentId: null }] *)
Definition as_root (barrier : option Audiences.barrier_value) (n : node) : node :=
  Audiences.Node (Audiences.n_id n) (Audiences.n_author n) (Audiences.n_org n) (Audiences.n_project n) None (Audiences.n_mode n) (Audiences.n_grants n)
    (match barrier with Some b => Some b | None => Audiences.n_barrier n end).
Definition under (parent : string) (n : node) : node :=
  Audiences.Node (Audiences.n_id n) (Audiences.n_author n) (Audiences.n_org n) (Audiences.n_project n) (Some parent) (Audiences.n_mode n) (Audiences.n_grants n) (Audiences.n_barrier n).
Definition set_node (id : string) (f : node → node) (d : db) : db := set_nodes (alter f id (nodes d)) d.
Definition compose (l : list node) : act composed := match Audiences.composeDocumentAudience l with Some c => ok c | None => fail AudienceLost end.
(* src/src/services/note-access.service.js:105-110 preserveNoteAudience *)
Definition preserveNoteAudience (id : string) (a : actor) : act composed :=
  found ←! read (λ d, Audiences.authorizeNote (staff d) (notes_of (a_org a) false d) (notes_of (a_org a) true d) id a (Audiences.Mode false true false));
  x ←! access found;
  compose x.2.
Fixpoint compose_each (c : gmap string (option node)) (ids : list string) : act (list (string * composed)) :=
  match ids with
  | [] => ok []
  | id :: ids => b ←! compose (Audiences.path c id); l ←! compose_each c ids; ok ((id, b) :: l)
  end.
Fixpoint promote (l : list (string * composed)) : act unit :=
  match l with
  | [] => ok tt
  | (id, b) :: l => _ ←! write (λ d, (tt, set_node id (as_root (Some (to_barrier b))) d)); promote l
  end.
(* src/src/routes/note.routes.js:370-380 DELETE /notes/:id *)
Definition promote_children (a : actor) (id : string) : act unit :=
  barrier ←! preserveNoteAudience id a;
  children ←! read (λ d, listed (a_org a) "note" (λ k _, bool_decide ((nodes d !! k ≫= Audiences.n_parent) = Some id)) d);
  user ←! read (λ d, Audiences.currentWikiStaff (staff d) a);
  _ ←! access user;
  c ←! read (λ d, Audiences.load (notes_of (a_org a) false d) children [] ∅);
  promotions ←! compose_each c children;
  _ ←! promote promotions;
  write (λ d, (tt, set_node id (as_root (Some (to_barrier barrier))) d)).
(* src/src/routes/note.routes.js:367-383 DELETE /notes/:id *)
Definition deleteNote (a : actor) (id : string) : act nat := softDelete "NOTE" id (a_org a) (ok None) (promote_children a id).
End queries.

(** The note becomes visible again, as [noteRestoreData] says. *)
Definition note_after (r : Audiences.restore_data) (n : node) : node :=
  match r with
  | Audiences.RestoreRoot => as_root None n
  | Audiences.RestoreUnder p => under p n
  | Audiences.RestoreDetached b => as_root (Some (to_barrier b)) n
  end.
Definition noteRestoreData (a : actor) (id : string) : act Audiences.restore_data :=
  data ←! read (λ d, Audiences.noteRestoreData (staff d) (notes_of (a_org a) false d) (notes_of (a_org a) true d) id a);
  access data.
(** Restoring a note from its project, not from the trash. *)
(* src/src/routes/note.routes.js:385-392 POST /notes/:id/restore *)
Definition restoreNoteRoute (a : actor) (id : string) : act unit :=
  atomically (
    data ←! noteRestoreData a id;
    found ←! read (λ d, match items d !! ("note", id) with Some it => hidden it && bool_decide (i_owner it = a_org a) | None => false end);
    _ ←! require found RecordNotFound;
    write (λ d, (tt, set_item ("note", id) (with_deleted None) (set_node id (note_after data) d)))).

(** Bulk archiving keeps no ledger. *)
(* src/src/routes/proposal.routes.js:726-741 POST /bulk/archive *)
Definition archiveProposals (org : string) (ids : list string) : act unit :=
  write (λ d, (tt, set_items (map_imap (λ k it, Some (if bool_decide (k.1 = "proposal") && bool_decide (k.2 ∈ ids) && bool_decide (i_owner it = org) && bool_decide (i_status it = "DRAFT")
                                                  then with_deleted (Some (clock d)) it else it)) (items d)) d)).

(** ** Purging and restoring *)

(** A ledger row the organization's client shows while it is open. *)
Definition open_ledger (org : string) (z : nat) (d : db) : option trashed :=
  match ledger d !! z with
  | Some t => if bool_decide (z_org t = org) && bool_decide (z_restoredAt t = None) then Some t else None
  | None => None
  end.
(** The hidden record of a ledger row: the organization is asked for where the
    row leads to one. *)
(* src/src/services/trash-purge.service.js:70-81 permanentlyDeleteTrashedItem *)
Definition original (model : string) (t : trashed) (d : db) : option item :=
  match items d !! (model, z_record t) with
  | Some it =>
      if hidden it && (negb (bool_decide (z_entity t ∈ ["MILESTONE"; "TASK"; "PROJECT"; "CLIENT"])) || bool_decide (i_owner it = z_org t))
      then Some it else None
  | None => None
  end.
(** A link below the record; the rows are locked, and hidden ones are seen. *)
Definition retains (t : trashed) (d : db) (l : link) : bool :=
  bool_decide (l_org l = z_org t) &&
  (if bool_decide (z_entity t = "TASK") then bool_decide (l_task l = Some (z_record t))
   else if bool_decide (z_entity t = "PROJECT") then bool_decide (l_project l = z_record t)
   else match items d !! ("project", l_project l) with
        | Some p => bool_decide (i_client p = Some (z_record t)) && bool_decide (i_owner p = z_org t)
        | None => false
        end).
Definition has_resources (entity : string) : bool := bool_decide (entity ∈ ["TASK"; "PROJECT"; "CLIENT"]).
(* src/src/services/trash-purge.service.js:19-40 guardRetainedResources *)
Definition guardRetainedResources (t : trashed) : act unit :=
  if has_resources (z_entity t) then
    retained ←! read (λ d, existsb (retains t d) (links d));
    require (negb retained) Retention
  else ok tt.
(** The database's delete, with what it answers when a key forbids it. *)
Definition restricts (gone : gset key) (l : link) : bool := existsb (λ k, bool_decide (k ∈ gone)) (link_refs l).
Definition drop_rows (gone : gset key) (d : db) : db :=
  set_nodes (map_imap (λ _ n, Some (match Audiences.n_parent n with Some p => if bool_decide (("note", p) ∈ gone) then as_root None n else n | None => n end)) (nodes d))
    (set_items (map_imap (λ k it, if bool_decide (k ∈ gone) then None else Some (detach gone k it)) (items d)) d).
Definition hard_delete (entity : string) (k : key) : act (list (key * item)) :=
  statement (λ d,
    let gone := removed (items d) k in
    if existsb (restricts gone) (links d) then (Err (if has_resources entity then Retention else ForeignKey), d)
    else if existsb (λ p, bool_decide (p ∈ pinned d)) (elements gone) then (Err ForeignKey, d)
    else (Ok (List.filter (λ x, bool_decide (x.1 ∈ gone)) (map_to_list (items d))), drop_rows gone d)).

Record purge := Purge { p_deleted : bool; p_record : string; p_entity : string }.
(** [by_] is the administrator who asked, none for the job (ghost). *)
(* src/src/services/trash-purge.service.js:48-101 permanentlyDeleteTrashedItem *)
Definition permanentlyDeleteTrashedItem (org : string) (by_ : option actor) (z : nat) : act purge :=
  authorizedLedger ←! read (open_ledger org z);
  _ ←! require (bool_decide (is_Some authorizedLedger)) TrashNotFound;
  atomically (
    found ←! read (open_ledger org z);
    match found with
    | None => fail TrashGone
    | Some t =>
        match model_of (z_entity t) with
        | None => fail UnknownEntity
        | Some model =>
            record ←! read (original model t);
            rows ←! match record with
                    | Some _ => _ ←! guardRetainedResources t; hard_delete (z_entity t) (model, z_record t)
                    | None => ok []
                    end;
            _ ←! write (λ d, (tt, note (Purged z t by_ (clock d) rows) (set_ledger (delete z (ledger d)) (Trash.next d) d)));
            ok (Purge (bool_decide (is_Some record)) (z_record t) (z_entity t))
        end
    end).

(** A milestone's tasks go back to it where they still may. *)
(* src/src/services/trash-purge.service.js:142-152 restoreTrashedItem *)
Definition reattach (t : trashed) (project : option string) (d : db) : db :=
  match z_tasks t with
  | Some ids =>
      set_items (map_imap (λ k it, Some (if bool_decide (k.1 = "task") && bool_decide (k.2 ∈ ids) && bool_decide (i_project it = project) &&
                                            bool_decide (i_milestone it = None) && bool_decide (i_owner it = z_org t)
                                         then with_milestone (Some (z_record t)) it else it)) (items d)) d
  | None => d
  end.
Definition set_restored (now : Z) (t : trashed) : trashed :=
  Trashed (z_entity t) (z_record t) (z_org t) (z_data t) (z_tasks t) (z_deletedAt t) (z_expiresAt t) (Some now).
(* src/src/services/trash-purge.service.js:104-159 restoreTrashedItem *)
Definition restoreTrashedItem (a : actor) (z : nat) : act (string * string) :=
  let org := a_org a in
  authorizedLedger ←! read (open_ledger org z);
  _ ←! require (bool_decide (is_Some authorizedLedger)) TrashNotFound;
  atomically (
    found ←! read (open_ledger org z);
    match found with
    | None => fail TrashGone
    | Some t =>
        match model_of (z_entity t) with
        | None => fail UnknownEntity
        | Some model =>
            record ←! read (original model t);
            match record with
            | None => fail OriginalGone
            | Some it =>
                _ ←! (if bool_decide (z_entity t = "NOTE") then
                        data ←! noteRestoreData a (z_record t);
                        write (λ d, (tt, set_node (z_record t) (note_after data) d))
                      else ok tt);
                _ ←! write (λ d, (tt, set_item (model, z_record t) (with_deleted None) d));
                _ ←! write (λ d, (tt, if bool_decide (z_entity t = "MILESTONE") then reattach t (i_project it) d else d));
                now ←! read clock;
                _ ←! write (λ d, (tt, note (Restored z t) (set_ledger (<[z := set_restored now t]> (ledger d)) (Trash.next d) d)));
                ok (z_record t, z_entity t)
            end
        end
    end).

(** ** The nightly job *)

Record purged := PurgeReport { g_examined : nat; g_purged : nat; g_retained : nat; g_failed : nat }.
Definition open_rows (org : string) (P : trashed → bool) (d : db) : list nat :=
  omap (λ x : nat * trashed, if bool_decide (z_org x.2 = org) && bool_decide (z_restoredAt x.2 = None) && P x.2 then Some x.1 else None) (map_to_list (ledger d)).
Definition expired (org : string) (cutoff : Z) (d : db) : list nat := open_rows org (λ t, z_deletedAt t <=? cutoff) d.
(* src/src/jobs/trash-purge.js:35-49 purgeExpiredTrash *)
Fixpoint purge_each (org : string) (l : list nat) (r : purged) : act purged :=
  match l with
  | [] => ok r
  | z :: l =>
      x ←! tried (permanentlyDeleteTrashedItem org None z);
      purge_each org l
        match x with
        | Ok _ => PurgeReport (g_examined r) (S (g_purged r)) (g_retained r) (g_failed r)
        | Err e => if isResourceLinkRetention e then PurgeReport (g_examined r) (g_purged r) (S (g_retained r)) (g_failed r)
                   else PurgeReport (g_examined r) (g_purged r) (g_retained r) (S (g_failed r))
        end
  end.
(* src/src/jobs/trash-purge.js:10-53 purgeExpiredTrash *)
Definition purgeExpiredTrash (org : string) : act purged :=
  now ←! read clock;
  l ←! read (expired org (now - THIRTY_DAYS_MS));
  purge_each org l (PurgeReport (length l) 0 0 0).
Fixpoint purge_organizations (orgs : list string) (results : list purged) : act (list purged) :=
  match orgs with
  | [] => ok results
  | org :: orgs => r ←! purgeExpiredTrash org; purge_organizations orgs (results ++ [r])
  end.
(** The organizations are those that exist ([resolveTenantOrganizationIds]). *)
(* src/src/jobs/trash-purge.js:55-69 purgeExpiredTrashForAllOrganizations *)
Definition purgeExpiredTrashForAllOrganizations (organizations : list string) : act (list purged) :=
  results ←! purge_organizations (isort String.leb organizations) [];
  let failed := list_sum (g_failed <$> results) in
  _ ←! require (failed =? 0)%nat (PurgesFailed failed);
  ok results.

(** ** The routes *)

(* src/src/routes/trash.routes.js:43-55 DELETE /:id/permanent *)
Definition permanentRoute (a : actor) (z : nat) : act purge :=
  _ ←! require (bool_decide (a_role a = "ADMIN")) Forbidden; permanentlyDeleteTrashedItem (a_org a) (Some a) z.
Record emptied := Emptied { e_deleted : nat; e_failures : list (nat * bool) }.
Fixpoint empty_each (a : actor) (l : list nat) (r : emptied) : act emptied :=
  match l with
  | [] => ok r
  | z :: l =>
      x ←! tried (permanentlyDeleteTrashedItem (a_org a) (Some a) z);
      empty_each a l
        match x with
        | Ok _ => Emptied (S (e_deleted r)) (e_failures r)
        | Err e => Emptied (e_deleted r) (e_failures r ++ [(z, isResourceLinkRetention e)])
        end
  end.
(* src/src/routes/trash.routes.js:57-84 DELETE /empty *)
Definition emptyTrash (a : actor) : act emptied :=
  _ ←! require (bool_decide (a_role a = "ADMIN")) Forbidden;
  rows ←! read (open_rows (a_org a) (λ _, true));
  empty_each a rows (Emptied 0 []).

End Trash.
