(* ===== verification/TrashLog.v ===== *)
(** * Trash: what is restored and what is purged

    The requests of Trash.v interleaved with each other and with what else
    happens to the records: a ledger row is settled once, and a purge takes only
    what its organization hid.  Then a deletion and its restoration alone, and
    two runs that lose more than they should. *)

From S2P Require Import Prelude Store Async Steps Audiences Trash.
Import Steps.Steps Audiences.Audiences(actor, a_id, a_org, a_role, access_error, node, composed) Trash.Trash.

Module TrashLog.

(** ** Everything that is asked *)

Inductive input :=
  | DeleteRecord (entity model org id : string)
  | DeleteProposal (org id : string)
  | DeleteMilestone (org id : string)
  | DeleteNote (a : actor) (id : string)
  | Archive (org : string) (ids : list string)
  | Restore (a : actor) (z : nat)
  | RestoreNote (a : actor) (id : string)
  | Permanent (a : actor) (z : nat)
  | Empty (a : actor)
  | PurgeJob (org : string)
  | PurgeAll (orgs : list string)
  | Insert (k : key) (it : item)                                            (** records are made, edited, *)
  | Edit (k : key) (status body : string) (milestone : option string)
  | Hide (k : key)                                                          (** and deleted without the trash *)
  | Directory (f : string → string → option actor) (ns : gmap string node)
  | AddLink (l : link)
  | Pin (g : gset key)
  | Wait (ms : Z).
Inductive reply := Trashed (z : nat) | Came (r : string * string) | Purges (p : purge) | Emptying (e : emptied) | Reports (l : list purged) | Noted.

Definition set_clock (c : Z) (d : db) : db := Db c (items d) (nodes d) (staff d) (links d) (pinned d) (ledger d) (next d) (trail d).
Definition set_directory f (ns : gmap string node) (d : db) : db := Db (clock d) (items d) ns f (links d) (pinned d) (ledger d) (next d) (trail d).
Definition set_links l (d : db) : db := Db (clock d) (items d) (nodes d) (staff d) l (pinned d) (ledger d) (next d) (trail d).
Definition set_pinned g (d : db) : db := Db (clock d) (items d) (nodes d) (staff d) (links d) g (ledger d) (next d) (trail d).
(** A ledger row that names a row. *)
Definition names (k : key) (t : trashed) : bool := bool_decide (model_of (z_entity t) = Some k.1 ∧ z_record t = k.2).
(** A new row has a new id, and its parents are there and of its organization. *)
Definition insert_item (k : key) (it : item) (d : db) : db :=
  if bool_decide (items d !! k = None) && forallb (λ x, negb (names k x.2)) (map_to_list (ledger d)) &&
     forallb (λ p, match items d !! p with Some x => bool_decide (i_owner x = i_owner it) | None => false end) (cascades_from k it)
  then set_items (<[k := it]> (items d)) d else d.
Definition edited (status body : string) (milestone : option string) (it : item) : item :=
  Item (i_owner it) (i_column it) (i_client it) (i_project it) (i_parent it) milestone (i_deletedAt it) status body.
Definition hide_now (k : key) (d : db) : db := set_item k (λ it, if hidden it then it else with_deleted (Some (clock d)) it) d.
Definition add_link (l : link) (d : db) : db :=
  if forallb (λ k, bool_decide (is_Some (items d !! k))) (link_refs l) then set_links (l :: links d) d else d.

Section theory.
Context (arrange : list string → list string).
Implicit Types (d : db) (z : nat) (t : trashed) (k : key) (it : item).

Definition mapped {A} (f : A → reply) (p : act A) : act reply := x ←! p; ok (f x).
Definition change (f : db → db) : act reply := write (λ d, (Noted, f d)).
Definition handle (n : nat) (i : input) : act reply :=
  match i with
  | DeleteRecord entity model org id => mapped Trashed (deleteRecord entity model org id)
  | DeleteProposal org id => mapped Trashed (deleteProposal org id)
  | DeleteMilestone org id => mapped Trashed (deleteMilestone arrange org id)
  | DeleteNote a id => mapped Trashed (deleteNote arrange a id)
  | Archive org ids => mapped (λ _, Noted) (archiveProposals org ids)
  | Restore a z => mapped Came (restoreTrashedItem a z)
  | RestoreNote a id => mapped (λ _, Noted) (restoreNoteRoute a id)
  | Permanent a z => mapped Purges (permanentRoute a z)
  | Empty a => mapped Emptying (emptyTrash a)
  | PurgeJob org => mapped (λ r, Reports [r]) (purgeExpiredTrash org)
  | PurgeAll orgs => mapped Reports (purgeExpiredTrashForAllOrganizations orgs)
  | Insert k it => change (insert_item k it)
  | Edit k s b m => change (set_item k (edited s b m))
  | Hide k => change (hide_now k)
  | Directory f ns => change (set_directory f ns)
  | AddLink l => change (add_link l)
  | Pin g => change (set_pinned g)
  | Wait ms => change (λ d, set_clock (clock d + Z.max 0 ms) d)
  end.

(** ** What a deletion takes with it *)

(** A row's parents are there, and of its organization. *)
Definition owners (m : gmap key item) : Prop := ∀ k it p, m !! k = Some it → p ∈ cascades_from k it → ∃ x, m !! p = Some x ∧ i_owner x = i_owner it.
Definition within (m : gmap key item) (o : string) (gone : gset key) : Prop := ∀ k, k ∈ gone → ∃ it, m !! k = Some it ∧ i_owner it = o.
Lemma in_spread m gone k : k ∈ spread m gone ↔ k ∈ gone ∨ ∃ it, m !! k = Some it ∧ falls gone k it = true.
Proof. unfold spread. rewrite elem_of_union, elem_of_dom. unfold is_Some. setoid_rewrite map_lookup_filter_Some. done. Qed.
Lemma falls_true gone k it : falls gone k it = true ↔ ∃ p, p ∈ cascades_from k it ∧ p ∈ gone.
Proof.
  unfold falls. rewrite existsb_exists. split; intros (p & H1 & H2); exists p.
  - apply list_elem_of_In in H1. by apply bool_decide_eq_true in H2.
  - split; [by apply list_elem_of_In|by apply bool_decide_eq_true].
Qed.
Lemma removed_within m o k it : owners m → m !! k = Some it → i_owner it = o → within m o (removed m k).
Proof.
  intros Hm Hk Ho. unfold removed. generalize (S (size m)). intros n. induction n as [|n IH]; cbn [Nat.iter nat_rect].
  - intros k' ->%elem_of_singleton. by exists it.
  - intros k' [Hin|(x & Hx & (p & Hp & Hin)%falls_true)]%in_spread; [by apply IH|]. destruct (IH p Hin) as (y & Hy & <-). exists x. split; [done|].
    destruct (Hm k' x p Hx Hp) as (w & Hw & <-). congruence.
Qed.
Lemma removed_self m k : k ∈ removed m k.
Proof. unfold removed. generalize (S (size m)). intros n. induction n as [|n IH]; cbn [Nat.iter nat_rect]; [by apply elem_of_singleton|]. apply in_spread. by left. Qed.
(** One round per row is enough: nothing that falls is left. *)
Lemma removed_closed m k k' it : m !! k' = Some it → falls (removed m k) k' it = true → k' ∈ removed m k.
Proof.
  set (it_ n := Nat.iter n (spread m) ({[k]} : gset key)).
  assert (∀ n, it_ n ⊆ {[k]} ∪ dom m) as Hsub.
  { intros n. induction n as [|n IH]; [set_solver|]. intros x [Hx|(y & Hy & _)]%in_spread; [by apply IH|]. apply elem_of_union_r, elem_of_dom. by exists y. }
  assert (∀ n, it_ (S n) = it_ n ∨ (n + 2 ≤ size (it_ (S n)))%nat) as Hgrow.
  { intros n. induction n as [|n [IH|IH]].
    - destruct (decide (it_ 1%nat = it_ 0%nat)) as [?|Hne]; [by left|]. right. assert (it_ 0%nat ⊂ it_ 1%nat) as Hlt.
      { split; [intros x Hx; apply in_spread; by left|]. intros Hle. apply Hne. apply set_eq. intros x. split; [apply Hle|]. intros Hx. apply in_spread. by left. }
      apply subset_size in Hlt. unfold it_ at 1 in Hlt. cbn [Nat.iter nat_rect] in Hlt. rewrite size_singleton in Hlt. lia.
    - left. unfold it_ in *. cbn [Nat.iter nat_rect] in *. by rewrite !IH.
    - destruct (decide (it_ (S (S n)) = it_ (S n))) as [?|Hne]; [by left|]. right. assert (it_ (S n) ⊂ it_ (S (S n))) as Hlt.
      { split; [intros x Hx; apply in_spread; by left|]. intros Hle. apply Hne. apply set_eq. intros x. split; [apply Hle|]. intros Hx. apply in_spread. by left. }
      apply subset_size in Hlt. lia. }
  intros Hk Hf. change (removed m k) with (it_ (S (size m))) in *. destruct (Hgrow (S (size m))) as [E|Hbig].
  - rewrite <-E. unfold it_. cbn [Nat.iter nat_rect]. apply in_spread. right. exists it. split; [done|]. exact Hf.
  - exfalso. pose proof (subseteq_size _ _ (Hsub (S (S (size m))))) as Hle. rewrite size_union_alt, size_singleton in Hle.
    assert (size (dom m ∖ {[k]} : gset key) ≤ size m)%nat by (rewrite <-size_dom; apply subseteq_size; set_solver). lia.
Qed.

(** ** The state *)

Definition settles (z : nat) (e : event) : bool := match e with Restored z' _ | Purged z' _ _ _ _ => (z' =? z)%nat | Ledgered _ _ => false end.
Definition settled z d : nat := length (List.filter (settles z) (trail d)).
Definition is_open z d : Prop := ∃ t, ledger d !! z = Some t ∧ z_restoredAt t = None.
(** Who may purge a row: an administrator of its organization, or the job once
    thirty days have passed. *)
Definition authorized (by_ : option actor) t (at_ : Z) : Prop :=
  match by_ with Some a => a_role a = "ADMIN" ∧ a_org a = z_org t | None => z_deletedAt t + THIRTY_DAYS_MS ≤ at_ end.
(** What a purge may take: rows of the ledger's organization, and only if the
    record itself was hidden. *)
Definition lawful (z : nat) t (by_ : option actor) (at_ : Z) (rows : list (key * item)) : Prop :=
  authorized by_ t at_ ∧ (∀ k it, (k, it) ∈ rows → i_owner it = z_org t) ∧
  (rows ≠ [] → ∃ model it, model_of (z_entity t) = Some model ∧ ((model, z_record t), it) ∈ rows ∧ hidden it = true).
Record inv d : Prop := {
  inv_owners : owners (items d);
  inv_ledger z t : ledger d !! z = Some t → (z < next d)%nat ∧ (z_restoredAt t = None → Ledgered z t ∈ trail d) ∧
    ∀ model it, model_of (z_entity t) = Some model → items d !! (model, z_record t) = Some it → i_owner it = z_org t;
  inv_settled z : (settled z d ≤ 1)%nat ∧ (is_open z d → settled z d = 0%nat) ∧ (next d ≤ z → settled z d = 0)%nat;
  inv_purged z t by_ at_ rows : Purged z t by_ at_ rows ∈ trail d → lawful z t by_ at_ rows ∧ Ledgered z t ∈ trail d;
  inv_restored z t : Restored z t ∈ trail d → Ledgered z t ∈ trail d;
  inv_ledgered z t : Ledgered z t ∈ trail d → (z < next d)%nat ∧ z_restoredAt t = None;
  inv_links l k : l ∈ links d → k ∈ link_refs l → is_Some (items d !! k)
}.
Record guar (n : nat) d d' : Prop := {
  g_inv : inv d → inv d';
  g_clock : clock d ≤ clock d';
  g_row z t' : ledger d' !! z = Some t' → (next d ≤ z)%nat ∨ ∃ t, ledger d !! z = Some t ∧ z_deletedAt t = z_deletedAt t';
  g_next : (next d ≤ next d')%nat
}.
Abbreviation own := (owned inv guar).
Abbreviation later n := (rtc (others guar n)).
Abbreviation any := (rtc (anyone guar)).

Lemma trash_idle n d : guar n d d.
Proof. split; [done|done|eauto|done]. Qed.
Lemma trash_any d d' : any d d' → clock d ≤ clock d' ∧ (next d ≤ next d')%nat ∧
  ∀ z t', ledger d' !! z = Some t' → (next d ≤ z)%nat ∨ ∃ t, ledger d !! z = Some t ∧ z_deletedAt t = z_deletedAt t'.
Proof.
  induction 1 as [d|d1 d2 d3 (n & H) _ (C & N & IH)]; [split; [lia|]; split; [lia|eauto]|]. pose proof (g_clock _ _ _ H). pose proof (g_next _ _ _ H). split; [lia|]. split; [lia|].
  intros z t' Ht. destruct (IH _ _ Ht) as [?|(t & Ht2 & E)]; [left; lia|]. destruct (g_row _ _ _ H _ _ Ht2) as [?|(t0 & ? & ?)]; [by left|]. right. exists t0. split; [done|congruence].
Qed.

(** ** Changes of the rows only *)

Definition same_row k it it' : Prop := i_owner it' = i_owner it ∧ cascades_from k it' = cascades_from k it.
Definition same_rows (m m' : gmap key item) : Prop :=
  ∀ k, match m !! k, m' !! k with Some it, Some it' => same_row k it it' | None, None => True | _, _ => False end.
Lemma same_rows_refl m : same_rows m m.
Proof. intros k. by destruct (m !! k). Qed.
Lemma same_rows_trans m1 m2 m3 : same_rows m1 m2 → same_rows m2 m3 → same_rows m1 m3.
Proof.
  intros H1 H2 k. specialize (H1 k). specialize (H2 k). destruct (m1 !! k), (m2 !! k), (m3 !! k); try done. destruct H1, H2. split; congruence.
Qed.
Lemma same_rows_back m m' k it' : same_rows m m' → m' !! k = Some it' → ∃ it, m !! k = Some it ∧ same_row k it it'.
Proof. intros H Hk. specialize (H k). rewrite Hk in H. destruct (m !! k) as [it|]; [by exists it|done]. Qed.
Lemma same_rows_forth m m' k it : same_rows m m' → m !! k = Some it → ∃ it', m' !! k = Some it' ∧ same_row k it it'.
Proof. intros H Hk. specialize (H k). rewrite Hk in H. destruct (m' !! k) as [it'|]; [by exists it'|done]. Qed.
Lemma same_rows_alter m k f : (∀ it, same_row k it (f it)) → same_rows m (alter f k m).
Proof.
  intros Hf k'. destruct (decide (k = k')) as [<-|Hne]; [rewrite lookup_alter_eq|rewrite lookup_alter_ne by done; by destruct (m !! k')].
  destruct (m !! k); cbn; auto.
Qed.
Lemma same_rows_imap m f : (∀ k it, same_row k it (f k it)) → same_rows m (map_imap (λ k it, Some (f k it)) m).
Proof. intros Hf k. rewrite map_lookup_imap. destruct (m !! k); cbn; auto. Qed.
Lemma same_row_deleted k it o : same_row k it (with_deleted o it).
Proof. done. Qed.
Lemma same_row_milestone k it o : same_row k it (with_milestone o it).
Proof. done. Qed.
Lemma same_rows_owners m m' : same_rows m m' → owners m → owners m'.
Proof.
  intros H Hm k it' p Hk Hp. destruct (same_rows_back _ _ _ _ H Hk) as (it & Hit & E & Ec). rewrite Ec in Hp.
  destruct (Hm k it p Hit Hp) as (x & Hx & Ex). destruct (same_rows_forth _ _ _ _ H Hx) as (x' & Hx' & E' & _). exists x'. split; [done|congruence].
Qed.

(** Nothing but rows, notes and people changes, and every row stays what it is. *)
Record quiet d d' : Prop := {
  q_rows : same_rows (items d) (items d'); q_clock : clock d' = clock d; q_ledger : ledger d' = ledger d; q_next : next d' = next d;
  q_trail : trail d' = trail d; q_links : links d' = links d
}.
Lemma quiet_refl d : quiet d d.
Proof. by split; [apply same_rows_refl|..]. Qed.
Lemma quiet_trans d1 d2 d3 : quiet d1 d2 → quiet d2 d3 → quiet d1 d3.
Proof. intros [] []. split; [by eapply same_rows_trans|congruence..]. Qed.
Lemma quiet_items m d : same_rows (items d) m → quiet d (set_items m d).
Proof. by split. Qed.
Lemma quiet_item k f d : (∀ it, same_row k it (f it)) → quiet d (set_item k f d).
Proof. intros H. apply quiet_items, same_rows_alter, H. Qed.
Lemma quiet_nodes m d : quiet d (set_nodes m d).
Proof. by split; [apply same_rows_refl|..]. Qed.
Lemma quiet_inv d d' : quiet d d' → inv d → inv d'.
Proof.
  intros [Hr Hc Hl Hn Ht Hk] [I1 I2 I3 I4 I5 I6 I7]. split.
  - by eapply same_rows_owners.
  - intros z t. rewrite Hl, Hn, Ht. intros Hz. destruct (I2 z t Hz) as (? & ? & Ho). split_and!; [done..|]. intros model it' Hm Hi.
    destruct (same_rows_back _ _ _ _ Hr Hi) as (it & Hit & E & _). rewrite E. by eapply Ho.
  - intros z. unfold settled, is_open. rewrite Hl, Hn, Ht. apply I3.
  - intros z t b a r. rewrite Ht. apply I4.
  - intros z t. rewrite Ht. apply I5.
  - intros z t. rewrite Ht, Hn. apply I6.
  - intros l k. rewrite Hk. intros Hin Hkl. destruct (I7 l k Hin Hkl) as [it Hit]. destruct (same_rows_forth _ _ _ _ Hr Hit) as (it' & -> & _). by eexists.
Qed.
Lemma quiet_guar n d d' : quiet d d' → guar n d d'.
Proof. intros H. split; [by apply quiet_inv|by rewrite (q_clock _ _ H)|rewrite (q_ledger _ _ H); eauto|by rewrite (q_next _ _ H)]. Qed.

(** A program that is quiet whenever it succeeds. *)
Definition quietly {A} (p : act A) : Prop := ∀ d a d', run_alone p d = (Ok a, d') → quiet d d'.
Lemma quietly_reading {A} (p : act A) : reading p → quietly p.
Proof. intros Hp d a d' ->%(run_last p); [apply quiet_refl|done]. Qed.
Lemma quietly_write {A} (f : db → A * db) : (∀ d, quiet d (f d).2) → quietly (write f).
Proof. intros H d a d' [= _ <-]. apply H. Qed.
Lemma quietly_and_then {A B} (p : act A) (k : A → act B) : quietly p → (∀ a, quietly (k a)) → quietly (and_then p k).
Proof. intros Hp Hk d b d' (a & d1 & H1 & H2)%run_then. eapply quiet_trans; [by eapply Hp|by eapply Hk]. Qed.
Lemma quietly_require b e : quietly (require b e).
Proof. apply quietly_reading, reading_require. Qed.

(** ** One step *)

Lemma settled_cons z e d l : trail d = l → settled z (note e d) = ((if settles z e then 1 else 0) + settled z d)%nat.
Proof. intros <-. unfold settled. cbn. by destruct (settles z e). Qed.
Lemma guar_ledgered n t d :
  z_restoredAt t = None → (∀ model it, model_of (z_entity t) = Some model → items d !! (model, z_record t) = Some it → i_owner it = z_org t) →
  guar n d (write_ledger t d).2.
Proof.
  intros Hr Ho. unfold write_ledger. cbn [snd]. set (d' := note _ _). split; [|done| |cbn; lia].
  2: { intros z t'. cbn. rewrite lookup_insert_Some. intros [[<- <-]|[_ H]]; [by left|]. right. eauto. }
  intros [I1 I2 I3 I4 I5 I6 I7]. split; [done| | | | | |done].
  - intros z t'. cbn. rewrite lookup_insert_Some. intros [[<- <-]|[Hne H]].
    + split; [lia|]. split; [by left|exact Ho].
    + destruct (I2 _ _ H) as (? & ? & ?). split; [lia|]. split; [|done]. right. auto.
  - intros z. assert (settled z d' = settled z d) as E by done. rewrite E. destruct (I3 z) as (H1 & H2 & H3). split; [done|]. split.
    + intros (t' & Ht & Hn). cbn in Ht. apply lookup_insert_Some in Ht as [[<- _]|[_ Ht]]; [by apply H3|]. apply H2. by exists t'.
    + cbn. intros ?. apply H3. lia.
  - intros z t' b a r. cbn. intros [?|H]%elem_of_cons; [done|]. destruct (I4 _ _ _ _ _ H). split; [done|]. by right.
  - intros z t'. cbn. intros [?|H]%elem_of_cons; [done|]. right. by apply I5.
  - intros z t'. cbn. intros [[= -> ->]|H]%elem_of_cons; [split; [lia|done]|]. destruct (I6 _ _ H). split; [lia|done].
Qed.
(** An open row is settled: it is gone, or keeps its date of restoring. *)
Lemma inv_settle_row z t e m d :
  inv d → ledger d !! z = Some t → z_restoredAt t = None → (∀ z', settles z' e = (z' =? z)%nat) → (∀ z t, e ≠ Ledgered z t) →
  (∀ b a r, e = Purged z t b a r → lawful z t b a r) → (∀ z' t' b a r, e = Purged z' t' b a r → z' = z ∧ t' = t) → (∀ z' t', e = Restored z' t' → z' = z ∧ t' = t) →
  (∀ z' t', m !! z' = Some t' → z' ≠ z ∧ ledger d !! z' = Some t' ∨ z' = z ∧ is_Some (z_restoredAt t') ∧ z_entity t' = z_entity t ∧ z_record t' = z_record t ∧ z_org t' = z_org t) →
  inv (note e (set_ledger m (next d) d)).
Proof.
  intros [I1 I2 I3 I4 I5 I6 I7] Hz Hr Hs Hnl Hl Hp Hre Hm. destruct (I2 z t Hz) as (Hlt & HL & Ho). specialize (HL Hr). split; [done| | | | | |done].
  - cbn. intros z' t' H. destruct (Hm _ _ H) as [[Hne H0]|(-> & Hs' & He & Hre' & Hor)].
    + destruct (I2 _ _ H0) as (? & ? & ?). split_and!; [done| |done]. intros ?. right. auto.
    + split; [done|]. split; [intros E; rewrite E in Hs'; by destruct Hs'|]. rewrite He, Hre', Hor. exact Ho.
  - intros z'. assert (settled z' (note e (set_ledger m (next d) d)) = ((if settles z' e then 1 else 0) + settled z' d)%nat) as -> by (by apply (settled_cons z' e (set_ledger m (next d) d) _ eq_refl)).
    rewrite Hs. destruct (I3 z') as (H1 & H2 & H3). destruct (Nat.eqb_spec z' z) as [->|Hne].
    + assert (settled z d = 0%nat) as -> by (apply H2; by exists t). split; [lia|]. split; [|cbn; lia].
      intros (t' & Ht & Hn). destruct (Hm _ _ Ht) as [[? _]|(_ & Hs' & _)]; [done|]. rewrite Hn in Hs'. by destruct Hs'.
    + cbn. split; [done|]. split; [|done]. intros (t' & Ht & Hn). destruct (Hm _ _ Ht) as [[_ H0]|[? _]]; [|done]. apply H2. by exists t'.
  - cbn. intros z' t' b a r [E|H]%elem_of_cons.
    + destruct (Hp _ _ _ _ _ (eq_sym E)) as [-> ->]. split; [by apply Hl|by right].
    + destruct (I4 _ _ _ _ _ H). split; [done|by right].
  - cbn. intros z' t' [E|H]%elem_of_cons; [destruct (Hre _ _ (eq_sym E)) as [-> ->]; by right|right; by apply I5].
  - cbn. intros z' t' [E|H]%elem_of_cons; [by destruct (Hnl z' t')|by apply I6].
Qed.
Lemma guar_restored n z t now d :
  ledger d !! z = Some t → z_restoredAt t = None → guar n d (note (Restored z t) (set_ledger (<[z := set_restored now t]> (ledger d)) (next d) d)).
Proof.
  intros Hz Hr. split; [|done| |done].
  - intros HI. apply (inv_settle_row z t); try done.
    + intros z'. cbn. apply Nat.eqb_sym.
    + by intros z' t' [= <- <-].
    + intros z' t'. rewrite lookup_insert_Some. intros [[<- <-]|[Hne H]]; [right|left; split; [done|exact H]]. split_and!; [done|by eexists|done..].
  - intros z' t'. cbn. rewrite lookup_insert_Some. right. destruct H as [[<- <-]|[_ H]]; [by exists t|by exists t'].
Qed.
Lemma guar_purged n z t by_ rows d :
  ledger d !! z = Some t → z_restoredAt t = None → lawful z t by_ (clock d) rows →
  guar n d (note (Purged z t by_ (clock d) rows) (set_ledger (delete z (ledger d)) (next d) d)).
Proof.
  intros Hz Hr Hl. split; [|done| |done].
  - intros HI. apply (inv_settle_row z t); try done.
    + intros z'. cbn. apply Nat.eqb_sym.
    + by intros b a r [= <- <- <-].
    + by intros z' t' b a r [= <- <- _ _ _].
    + intros z' t'. rewrite lookup_delete_Some. intros [Hne H]. by left.
  - intros z' t'. cbn. rewrite lookup_delete_Some. intros [_ H]. right. by exists t'.
Qed.

Lemma detach_cascades gone k it : cascades_from k (detach gone k it) = cascades_from k it.
Proof.
  destruct k as [m id]. destruct (decide (m = "expense")) as [->|He]; [done|]. destruct (decide (m = "proposal")) as [->|Hp]; [done|].
  unfold cascades_from, detach. cbn [fst i_client i_project i_parent].
  rewrite (bool_decide_eq_false_2 (m ∈ ["expense"])), (bool_decide_eq_false_2 (m ∈ ["expense"; "proposal"])) by (rewrite !elem_of_cons, elem_of_nil; naive_solver).
  done.
Qed.
Lemma drop_guar n gone d :
  (∀ k it, items d !! k = Some it → falls gone k it = true → k ∈ gone) → (∀ l, l ∈ links d → restricts gone l = false) → guar n d (drop_rows gone d).
Proof.
  intros Hcl Hl. assert (∀ k it', items (drop_rows gone d) !! k = Some it' → ∃ it, items d !! k = Some it ∧ (k ∉ gone) ∧ it' = detach gone k it) as Hback.
  { intros k it'. cbn. rewrite map_lookup_imap. destruct (items d !! k) as [it|]; [|done]. cbn. case_bool_decide; [done|]. intros [= <-]. by exists it. }
  split; [|done|eauto|done]. intros [I1 I2 I3 I4 I5 I6 I7]. split.
  - intros k it' p (it & Hit & Hk & ->)%Hback Hp. rewrite detach_cascades in Hp. destruct (I1 k it p Hit Hp) as (x & Hx & E).
    exists (detach gone p x). split; [|done]. cbn. rewrite map_lookup_imap, Hx. cbn. rewrite bool_decide_eq_false_2; [done|]. intros Hg. apply Hk. eapply Hcl; [exact Hit|].
    apply falls_true. by exists p.
  - intros z t Hz. destruct (I2 z t Hz) as (? & ? & Ho). split_and!; [done..|]. intros model it' Hm (it & Hit & _ & ->)%Hback. cbn. by eapply Ho.
  - exact I3.
  - exact I4.
  - exact I5.
  - exact I6.
  - intros l k Hin Hk. destruct (I7 l k Hin Hk) as [it Hit]. cbn. rewrite map_lookup_imap, Hit. cbn. rewrite bool_decide_eq_false_2; [by eexists|].
    intros Hg. specialize (Hl l Hin). apply not_true_iff_false in Hl. apply Hl. apply existsb_exists. exists k. split; [by apply list_elem_of_In|by apply bool_decide_eq_true].
Qed.

(** ** Requests *)

Lemma guar_trans n d1 d2 d3 : guar n d1 d2 → guar n d2 d3 → guar n d1 d3.
Proof.
  intros [I1 C1 R1 N1] [I2 C2 R2 N2]. split; [auto|lia| |lia]. intros z t' H. destruct (R2 _ _ H) as [?|(t & Ht & E)]; [left; lia|].
  destruct (R1 _ _ Ht) as [?|(t0 & ? & ?)]; [by left|]. right. exists t0. split; [done|congruence].
Qed.
Definition plain {A} (_ : A) d : Prop := True.
Lemma bin_transaction {A} n (p : act A) d :
  (∀ d1 a d2, rtc (others guar n) d d1 → run_alone p d1 = (Ok a, d2) → guar n d1 d2) → own n (atomically p) d (told plain).
Proof.
  intros H d1 H1 _. destruct (commit p d1) as [[a|e] d2] eqn:E; cbn.
  - apply commit_ok in E. by split; [eapply H|].
  - apply commit_err in E as [-> _]. by split; [apply trash_idle|].
Qed.
Lemma bin_mapped {A} n (f : A → reply) (p : act A) d : own n p d (told plain) → own n (mapped f p) d (told plain).
Proof. intros H. eapply told_and_then; [exact H|]. intros a d1 _ _ _. by apply told_ok. Qed.
Lemma bin_read {A B} n (f : db → A) (k : A → act B) d : (∀ d1, later n d d1 → own n (k (f d1)) d1 (told plain)) → own n (and_then (read f) k) d (told plain).
Proof. intros H. apply told_read; [apply trash_idle|]. intros d1 H1 _. by apply H. Qed.

Lemma visible_row org model id d it : visible org model id d = Some it → items d !! (model, id) = Some it ∧ i_owner it = org ∧ i_deletedAt it = None.
Proof.
  unfold visible. destruct (items d !! (model, id)) as [x|]; [|done]. destruct (_ && _) eqn:E; [|done]. intros [= <-].
  apply andb_true_iff in E as [E1%bool_decide_eq_true E2%negb_true_iff]. unfold hidden in E2. apply bool_decide_eq_false in E2. split_and!; [done..|].
  by destruct (i_deletedAt x); [destruct E2; eauto|].
Qed.
Lemma bin_softDelete n entity id org snapshot before d :
  quietly snapshot → quietly before → own n (softDelete entity id org snapshot before) d (told plain).
Proof.
  intros Hs Hb. unfold softDelete. destruct (model_of entity) as [model|] eqn:Em; [|apply told_fail]. apply told_require. intros _.
  apply bin_transaction. intros d1 a d2 _. rewrite run_read. destruct (visible org model id d1) as [it|] eqn:Ev; [|done].
  apply visible_row in Ev as (Hit & Ho & _). intros (_ & (tasks & d3 & H3%Hs & (u & d4 & H4%Hb & H)%run_then)%run_then)%run_require.
  rewrite run_read, run_write in H. cbn [fst snd] in H. injection H as _ <-. set (d5 := hide model id (clock d4) d4).
  assert (quiet d1 d5) as Hq by (eapply quiet_trans; [exact H3|]; eapply quiet_trans; [exact H4|]; by apply quiet_item).
  eapply guar_trans; [by apply quiet_guar|]. apply (guar_ledgered n (new_ledger entity id org it tasks (clock d4)) d5); [done|]. cbn. intros m x Hm Hx. rewrite Em in Hm. injection Hm as <-.
  destruct (same_rows_back _ _ _ _ (q_rows _ _ Hq) Hx) as (y & Hy & E & _).
  rewrite Hit in Hy. injection Hy as <-. by rewrite E.
Qed.
Lemma bin_record n entity model org id d : own n (deleteRecord entity model org id) d (told plain).
Proof. unfold deleteRecord. apply bin_read. intros d1 _. apply told_require. intros _. apply bin_softDelete; by apply quietly_reading. Qed.
Lemma bin_proposal n org id d : own n (deleteProposal org id) d (told plain).
Proof.
  unfold deleteProposal. apply bin_read. intros d1 _. destruct (visible org "proposal" id d1); [|apply told_fail]. apply told_require. intros _.
  apply bin_softDelete; by apply quietly_reading.
Qed.
Lemma bin_milestone n org id d : own n (deleteMilestone arrange org id) d (told plain).
Proof.
  unfold deleteMilestone. apply bin_read. intros d1 _. apply told_require. intros _. apply bin_softDelete; [|by apply quietly_reading].
  apply quietly_and_then; [apply quietly_reading; reads|]. intros l. apply quietly_and_then; [|intros _; by apply quietly_reading].
  apply quietly_write. intros d2. apply quiet_items, same_rows_imap. intros k it. by case_match.
Qed.
Lemma reading_access {A} (r : result access_error A) : reading (access r).
Proof. by destruct r. Qed.
Lemma reading_compose l : reading (compose l).
Proof. unfold compose. by case_match. Qed.
Lemma reading_compose_each c ids : reading (compose_each c ids).
Proof. induction ids as [|id ids IH]; cbn [compose_each]; [done|]. apply reading_and_then; [apply reading_compose|]. intros b. by apply reading_and_then. Qed.
Lemma quietly_node id f : quietly (write (λ d, (tt, set_node id f d))).
Proof. apply quietly_write. intros d. apply quiet_nodes. Qed.
Lemma quietly_promote l : quietly (promote l).
Proof.
  induction l as [|[id b] l IH]; cbn [promote]; [by apply quietly_reading|]. apply quietly_and_then; [apply quietly_node|]. intros _. exact IH.
Qed.
Lemma quietly_children a id : quietly (promote_children arrange a id).
Proof.
  unfold promote_children, preserveNoteAudience.
  apply quietly_and_then; [apply quietly_reading; apply reading_and_then; [reads|]; intros f; apply reading_and_then; [apply reading_access|]; intros x; apply reading_compose|]. intros b.
  apply quietly_and_then; [apply quietly_reading; reads|]. intros ch. apply quietly_and_then; [apply quietly_reading; reads|]. intros u.
  apply quietly_and_then; [apply quietly_reading, reading_access|]. intros _. apply quietly_and_then; [apply quietly_reading; reads|]. intros c.
  apply quietly_and_then; [apply quietly_reading, reading_compose_each|]. intros l. apply quietly_and_then; [apply quietly_promote|]. intros _. apply quietly_node.
Qed.
Lemma bin_note n a id d : own n (deleteNote arrange a id) d (told plain).
Proof. apply bin_softDelete; [by apply quietly_reading|apply quietly_children]. Qed.
Lemma bin_quiet {A} n (p : act A) d : quietly p → own n (atomically p) d (told plain).
Proof. intros H. apply bin_transaction. intros d1 a d2 _ Hr. by eapply quiet_guar, H. Qed.
Lemma reading_restore a id : reading (noteRestoreData a id).
Proof. unfold noteRestoreData. apply reading_and_then; [reads|]. intros x. apply reading_access. Qed.
Lemma bin_restoreNote n a id d : own n (restoreNoteRoute a id) d (told plain).
Proof.
  apply bin_quiet. apply quietly_and_then; [apply quietly_reading, reading_restore|]. intros data. apply quietly_and_then; [apply quietly_reading; reads|]. intros f.
  apply quietly_and_then; [apply quietly_require|]. intros _. apply quietly_write. intros d1. cbn [snd].
  eapply quiet_trans; [apply quiet_nodes|]. by apply quiet_item.
Qed.
Lemma bin_archive n org ids d : own n (archiveProposals org ids) d (told plain).
Proof. intros d1 _ _. split; [|done]. apply quiet_guar, quiet_items, same_rows_imap. intros k it. by case_match. Qed.

Lemma open_ledger_Some org z d t : open_ledger org z d = Some t → ledger d !! z = Some t ∧ z_org t = org ∧ z_restoredAt t = None.
Proof.
  unfold open_ledger. destruct (ledger d !! z) as [x|]; [|done]. destruct (_ && _) eqn:E; [|done]. intros [= <-].
  apply andb_true_iff in E as [E1%bool_decide_eq_true E2%bool_decide_eq_true]. done.
Qed.
Lemma original_Some model t d it : original model t d = Some it → items d !! (model, z_record t) = Some it ∧ hidden it = true.
Proof. unfold original. destruct (items d !! _) as [x|]; [|done]. destruct (_ && _) eqn:E; [|done]. intros [= <-]. by apply andb_true_iff in E as [? _]. Qed.
Lemma bin_restore n a z d : own n (restoreTrashedItem a z) d (told plain).
Proof.
  unfold restoreTrashedItem. apply bin_read. intros d0 _. apply told_require. intros _. apply bin_transaction. intros d1 r d2 _. rewrite run_read.
  destruct (open_ledger (a_org a) z d1) as [t|] eqn:El; [|done]. apply open_ledger_Some in El as (Hz & _ & Hn).
  destruct (model_of (z_entity t)) as [model|]; [|done]. rewrite run_read. destruct (original model t d1) as [it|]; [|done].
  intros (u & d3 & H3 & H)%run_then. rewrite !run_write, run_read, run_write in H. cbn [fst snd] in H. injection H as _ <-.
  assert (quiet d1 d3) as Hq.
  { destruct (bool_decide (z_entity t = "NOTE")); [|injection H3 as _ <-; apply quiet_refl]. revert H3. apply quietly_and_then; [apply quietly_reading, reading_restore|].
    intros data. apply quietly_node. }
  set (d4 := set_item _ _ d3). set (d5 := if bool_decide (z_entity t = "MILESTONE") then reattach t (i_project it) d4 else d4).
  assert (quiet d1 d5) as Hq5.
  { eapply quiet_trans; [exact Hq|]. eapply quiet_trans; [by apply (quiet_item (model, z_record t) (with_deleted None) d3)|]. fold d4. unfold d5.
    destruct (bool_decide (z_entity t = "MILESTONE")); [|apply quiet_refl].
    unfold reattach. destruct (z_tasks t); [|apply quiet_refl]. apply quiet_items, same_rows_imap. intros k x. by destruct (_ && _). }
  eapply guar_trans; [by apply quiet_guar|]. apply (guar_restored n z t (clock d5)); [by rewrite (q_ledger _ _ Hq5)|done].
Qed.

(** A physical deletion, with the rows that went. *)
Lemma hard_delete_ok n entity k d rows d' it :
  items d !! k = Some it → inv d → run_alone (hard_delete entity k) d = (Ok rows, d') →
  guar n d d' ∧ ledger d' = ledger d ∧ clock d' = clock d ∧ next d' = next d ∧ (k, it) ∈ rows ∧ ∀ k' x, (k', x) ∈ rows → i_owner x = i_owner it.
Proof.
  intros Hk HI. unfold hard_delete. rewrite run_statement. set (gone := removed (items d) k). cbv zeta.
  destruct (existsb (restricts gone) (links d)) eqn:El; [done|]. destruct (existsb _ (elements gone)); [done|]. intros [= <- <-].
  split_and!; try done.
  - apply drop_guar; [intros k' x; apply removed_closed|]. intros l Hl. apply not_true_iff_false. intros Hr. apply not_true_iff_false in El. apply El, existsb_exists. exists l. split; [by apply list_elem_of_In|done].
  - apply list_elem_of_In, List.filter_In. split; [by apply list_elem_of_In, elem_of_map_to_list|]. apply bool_decide_eq_true, removed_self.
  - intros k' x [Hx Hg%bool_decide_eq_true]%list_elem_of_In%List.filter_In. apply list_elem_of_In, elem_of_map_to_list in Hx. cbn in Hg.
    destruct (removed_within (items d) (i_owner it) k it (inv_owners _ HI) Hk eq_refl k' Hg) as (y & Hy & <-). congruence.
Qed.
(** An ask to purge that is allowed whenever the row is still open. *)
Definition may_purge (by_ : option actor) org z d : Prop :=
  ∀ d1 t, any d d1 → open_ledger org z d1 = Some t → authorized by_ t (clock d1).
Lemma may_purge_any by_ org z d d1 : any d d1 → may_purge by_ org z d → may_purge by_ org z d1.
Proof. intros H1 H d2 t H2. apply H. by etransitivity. Qed.
Lemma bin_purge n org by_ z d : may_purge by_ org z d → own n (permanentlyDeleteTrashedItem org by_ z) d (told plain).
Proof.
  intros Hmay. unfold permanentlyDeleteTrashedItem. apply told_read; [apply trash_idle|]. intros d0 H0 _. apply told_require. intros _.
  intros d1 H1 I1. match goal with |- context [commit ?p d1] => destruct (commit p d1) as [[a|e] d2] eqn:E end; cbn [fst snd statement await].
  2: { apply commit_err in E as [-> _]. by split; [apply trash_idle|]. }
  split; [|done]. apply commit_ok in E. rewrite run_read in E. destruct (open_ledger org z d1) as [t|] eqn:El; [|done].
  pose proof (Hmay d1 t (others_anyone _ _ _ _ (transitivity H0 H1)) El) as Hau. apply open_ledger_Some in El as (Hz & Ho & Hn).
  destruct (model_of (z_entity t)) as [model|] eqn:Em; [|done]. rewrite run_read in E. apply run_then in E as (rows & d3 & H3 & E).
  rewrite run_write in E. cbn [fst snd] in E. injection E as _ <-.
  destruct (original model t d1) as [it|] eqn:Eo; [|injection H3 as <- <-; apply guar_purged; [done|done|]; split_and!; [done|by intros k x ?%not_elem_of_nil|done]].
  apply original_Some in Eo as [Hit Hh]. apply run_reads in H3 as (u & _ & H3); [|unfold guardRetainedResources; reads].
  destruct (hard_delete_ok n _ _ _ _ _ it Hit I1 H3) as (HG & Hl & Hc & Hnx & Hin & Hrows).
  eapply guar_trans; [exact HG|]. apply guar_purged; [by rewrite Hl|done|]. rewrite Hc. split; [done|].
  destruct (inv_ledger _ I1 z t Hz) as (_ & _ & Hown). split.
  - intros k x Hx. rewrite (Hrows _ _ Hx). by eapply Hown.
  - intros _. exists model, it. split_and!; done.
Qed.
Lemma bin_purge_admin n a z d : a_role a = "ADMIN" → own n (permanentlyDeleteTrashedItem (a_org a) (Some a) z) d (told plain).
Proof. intros Ha. apply bin_purge. by intros d1 t _ (_ & E & _)%open_ledger_Some. Qed.
Lemma bin_empty_each n a l r d : a_role a = "ADMIN" → own n (empty_each a l r) d (told plain).
Proof.
  intros Ha. revert r d. induction l as [|z l IH]; intros r d; cbn [empty_each]; [by apply told_ok|].
  eapply owned_tried; [by apply bin_purge_admin|]. intros x d1 _ _ _. apply IH.
Qed.
Lemma bin_purge_each n org l r d : (∀ z, z ∈ l → may_purge None org z d) → own n (purge_each org l r) d (told plain).
Proof.
  revert r d. induction l as [|z l IH]; intros r d Hl; cbn [purge_each]; [by apply told_ok|].
  eapply owned_tried; [apply bin_purge, Hl; left|]. intros x d1 H1 _ _. apply IH. intros z' Hz'. eapply may_purge_any; [exact H1|]. apply Hl. by right.
Qed.
(** What the job found thirty days old stays that old. *)
Lemma bin_expired n org d : own n (purgeExpiredTrash org) d (told plain).
Proof.
  unfold purgeExpiredTrash. apply bin_read. intros d1 _. apply told_read; [apply trash_idle|]. intros d2 H2 I2. apply bin_purge_each. intros z Hz d3 t H3 (Ht & _ & _)%open_ledger_Some.
  apply list_elem_of_omap in Hz as ([z' t0] & Hin & E). apply elem_of_map_to_list in Hin. cbn in E. destruct (_ && _) eqn:Eb; [|done]. injection E as ->.
  apply andb_true_iff in Eb as [_ Hle%Z.leb_le]. destruct (trash_any _ _ (others_anyone _ _ _ _ H2)) as (Hc & _). destruct (trash_any _ _ H3) as (Hc3 & _ & Hrow).
  destruct (inv_ledger _ I2 z t0 Hin) as (Hlt & _). destruct (Hrow z t Ht) as [?|(t1 & Ht1 & Ed)]; [lia|]. unfold authorized. assert (t1 = t0) as -> by congruence. lia.
Qed.
Lemma bin_organizations n orgs rs d : own n (purge_organizations orgs rs) d (told plain).
Proof.
  revert rs d. induction orgs as [|org orgs IH]; intros rs d; cbn [purge_organizations]; [by apply told_ok|].
  eapply told_and_then; [apply bin_expired|]. intros r d1 _ _ _. apply IH.
Qed.

(** ** The rest of the program *)

Lemma guar_insert_item n k it d : guar n d (insert_item k it d).
Proof.
  unfold insert_item. destruct (_ && _) eqn:E; [|apply trash_idle]. apply andb_true_iff in E as [E Hp]. apply andb_true_iff in E as [Hk%bool_decide_eq_true Hn].
  split; [|done|eauto|done]. intros [I1 I2 I3 I4 I5 I6 I7].
  assert (∀ p x, items d !! p = Some x → <[k := it]> (items d) !! p = Some x) as Hkeep by (intros p x Hx; rewrite lookup_insert_ne; [done|congruence]).
  split; [| |exact I3|exact I4|exact I5|exact I6|].
  - intros k' x p. cbn. rewrite lookup_insert_Some. intros [[<- <-]|[Hne Hx]] Hin.
    + pose proof (proj1 (forallb_forall _ _) Hp p (proj1 (list_elem_of_In _ _) Hin)) as Hb. cbn in Hb. destruct (items d !! p) as [w|] eqn:Ew; [|done].
      apply bool_decide_eq_true in Hb. exists w. split; [by apply Hkeep|done].
    + destruct (I1 k' x p Hx Hin) as (w & Hw & E). exists w. split; [by apply Hkeep|done].
  - intros z t Hz. destruct (I2 z t Hz) as (? & ? & Ho). split_and!; [done..|]. intros model x Hm. cbn. rewrite lookup_insert_Some. intros [[-> <-]|[_ Hx]]; [|by eapply Ho].
    pose proof (proj1 (forallb_forall _ _) Hn (z, t) (proj1 (list_elem_of_In _ _) (proj2 (elem_of_map_to_list _ _ _) Hz))) as Hb.
    apply negb_true_iff, bool_decide_eq_false in Hb. by destruct Hb.
  - intros l k' Hin Hk'. destruct (I7 l k' Hin Hk') as [x Hx]. exists x. by apply Hkeep.
Qed.
Lemma guar_link n l d : guar n d (add_link l d).
Proof.
  unfold add_link. destruct (forallb _ _) eqn:E; [|apply trash_idle]. split; [|done|eauto|done]. intros [I1 I2 I3 I4 I5 I6 I7].
  split; [exact I1|exact I2|exact I3|exact I4|exact I5|exact I6|]. intros l' k. cbn. intros [->|Hin]%elem_of_cons Hk; [|by eapply I7].
  pose proof (proj1 (forallb_forall _ _) E k (proj1 (list_elem_of_In _ _) Hk)) as Hb. by apply bool_decide_eq_true in Hb.
Qed.
Lemma bin_change n f d : (∀ d1, guar n d1 (f d1)) → own n (change f) d (told plain).
Proof. intros H d1 _ _. by split. Qed.
Lemma bin_handle n i d : own n (handle n i) d (told plain).
Proof.
  destruct i as [entity model org id|org id|org id|a id|org ids|a z|a id|a z|a|org|orgs|k it|k s b m|k|f ns|l|g|ms]; cbn [handle].
  - apply bin_mapped, bin_record.
  - apply bin_mapped, bin_proposal.
  - apply bin_mapped, bin_milestone.
  - apply bin_mapped, bin_note.
  - apply bin_mapped, bin_archive.
  - apply bin_mapped, bin_restore.
  - apply bin_mapped, bin_restoreNote.
  - apply bin_mapped. unfold permanentRoute. apply told_require. intros Ha%bool_decide_eq_true. by apply bin_purge_admin.
  - apply bin_mapped. unfold emptyTrash. apply told_require. intros Ha%bool_decide_eq_true. apply bin_read. intros d1 _. by apply bin_empty_each.
  - apply bin_mapped, bin_expired.
  - apply bin_mapped. unfold purgeExpiredTrashForAllOrganizations. eapply told_and_then; [apply bin_organizations|]. intros l d1 _ _ _.
    apply told_require. intros _. by apply told_ok.
  - apply bin_change. apply guar_insert_item.
  - apply bin_change. intros d1. by apply quiet_guar, quiet_item.
  - apply bin_change. intros d1. apply quiet_guar, quiet_item. intros it. by destruct (hidden it).
  - apply bin_change. intros d1. apply quiet_guar. split; [apply same_rows_refl|done..].
  - apply bin_change. apply guar_link.
  - apply bin_change. intros d1. apply quiet_guar. split; [apply same_rows_refl|done..].
  - apply bin_change. intros d1. split; [|cbn; lia|eauto|done]. by intros [I1 I2 I3 I4 I5 I6 I7].
Qed.

(** Where a run starts: nothing in the trash, and no row without its parents. *)
Definition empty_trash d : Prop := ledger d = ∅ ∧ trail d = [] ∧ links d = [] ∧ owners (items d).
Lemma empty_inv d : empty_trash d → inv d.
Proof.
  intros (Hl & Ht & Hk & Ho). split; [exact Ho| | | | | |]; rewrite ?Hl, ?Ht, ?Hk.
  - intros z t. by rewrite lookup_empty.
  - intros z. unfold settled, is_open. rewrite Hl, Ht. split; [cbn; lia|]. by split; [intros (t & H & _); rewrite lookup_empty in H|].
  - by intros z t b a r ?%not_elem_of_nil.
  - by intros z t ?%not_elem_of_nil.
  - by intros z t ?%not_elem_of_nil.
  - by intros l k ?%not_elem_of_nil.
Qed.

(** C9 (safety): However deletions, restorations, purges and the nightly job are
    interleaved with each other and with everything else that happens to the
    records, each row of the trash is settled at most once: restored or purged,
    never both, and never while it is still open. A purge is asked for by an
    administrator of the row's organization, or by the job thirty days after the
    deletion; although it runs on the client that sees every tenant, all it ever
    takes are rows of that organization, and nothing unless the record itself was
    hidden then. A resource link always keeps its project and its task. *)
Theorem trash_settled_once d s :
  empty_trash d → rtc (step handle) (initial d) s →
  (∀ z, (settled z (data s) ≤ 1)%nat ∧ (is_open z (data s) → settled z (data s) = 0%nat)) ∧
  (∀ z t by_ at_ rows, Purged z t by_ at_ rows ∈ trail (data s) → lawful z t by_ at_ rows ∧ Ledgered z t ∈ trail (data s)) ∧
  (∀ z t, Restored z t ∈ trail (data s) → Ledgered z t ∈ trail (data s)) ∧
  (∀ l k, l ∈ links (data s) → k ∈ link_refs l → is_Some (items (data s) !! k)) ∧ owners (items (data s)).
Proof.
  intros HE Hs. apply empty_inv in HE as HI. destruct (owned_spec inv guar handle (λ n i, told plain) (λ n d d' H G, g_inv n d d' G H) (λ n i d _, bin_handle n i d) d s HI Hs) as (I & _ & _).
  split_and!; try apply I. intros z. destruct (inv_settled _ I z) as (? & ? & _). done.
Qed.

(** ** Deleting and restoring *)

(** How a record of an entity gets into the trash; notes come back as roots. *)
Definition deletion (entity org id : string) : act nat :=
  if bool_decide (entity = "MILESTONE") then deleteMilestone arrange org id
  else if bool_decide (entity = "PROPOSAL") then deleteProposal org id
  else deleteRecord entity (default "" (model_of entity)) org id.
(** The tasks of a milestone, as the application keeps them: of its project, and
    not more than a query lists. *)
Definition tasks_of (id : string) d : list (key * item) := List.filter (λ x, bool_decide (x.1.1 = "task") && has_milestone id x.2) (map_to_list (items d)).
Definition neat org id d : Prop :=
  (length (tasks_of id d) ≤ 100)%nat ∧
  ∀ x, x ∈ tasks_of id d → i_owner x.2 = org ∧ hidden x.2 = false ∧ option_map i_project (items d !! ("milestone", id)) = Some (i_project x.2).

Lemma softDelete_runs entity model org id snapshot d z d1 :
  model_of entity = Some model → run_alone (softDelete entity id org snapshot (ok tt)) d = (Ok z, d1) →
  ∃ it tasks d0, visible org model id d = Some it ∧ run_alone snapshot d = (Ok tasks, d0) ∧
    items d1 = alter (with_deleted (Some (clock d0))) (model, id) (items d0) ∧ ledger d1 !! z = Some (new_ledger entity id org it tasks (clock d0)).
Proof.
  intros Em. unfold softDelete. rewrite Em. intros (_ & H)%run_require. unfold atomically in H. rewrite run_statement in H. apply commit_ok in H.
  rewrite run_read in H. destruct (visible org model id d) as [it|]; [|done]. apply run_require in H as [_ H]. apply run_then in H as (tasks & d0 & Hs & H).
  cbn [and_then prog_bind ok] in H. rewrite run_read, run_write in H. injection H as <- <-. exists it, tasks, d0. split_and!; [done..|]. cbn. apply lookup_insert_eq.
Qed.
Lemma restore_runs a z d entity model id it tasks now :
  model_of entity = Some model → entity ≠ "NOTE" → ledger d !! z = Some (new_ledger entity id (a_org a) it tasks now) →
  (∃ x, items d !! (model, id) = Some x ∧ hidden x = true ∧ i_owner x = a_org a ∧ i_project x = i_project it) →
  ∃ d', run_alone (restoreTrashedItem a z) d = (Ok (id, entity), d') ∧
    items d' = let d1 := set_item (model, id) (with_deleted None) d in
               if bool_decide (entity = "MILESTONE") then items (reattach (new_ledger entity id (a_org a) it tasks now) (i_project it) d1) else items d1.
Proof.
  intros Em Hn Hz (x & Hx & Hh & Ho & Hp). set (t := new_ledger _ _ _ _ _ _) in *.
  assert (open_ledger (a_org a) z d = Some t) as El by (unfold open_ledger; rewrite Hz; cbn; by rewrite !bool_decide_refl).
  assert (original model t d = Some x) as Eo by (unfold original; cbn; rewrite Hx, Hh, Ho, bool_decide_refl; by destruct (bool_decide _)).
  unfold restoreTrashedItem. rewrite run_read, El. rewrite run_and_then. rewrite (bool_decide_eq_true_2 (is_Some (Some t))) by (by eexists). cbn [require ok run_alone].
  unfold atomically. rewrite run_statement. eexists. split; [apply commit_ok|].
  - rewrite run_read, El. change (z_entity t) with entity. rewrite Em, run_read, Eo, (bool_decide_eq_false_2 (entity = "NOTE")) by done.
    rewrite run_and_then. cbn [ok run_alone]. rewrite !run_write, run_read, run_write. reflexivity.
  - cbn. rewrite Hp. by case_bool_decide.
Qed.

Lemma hidden_and_back (m : gmap key item) k it now :
  m !! k = Some it → i_deletedAt it = None → alter (with_deleted None) k (alter (with_deleted (Some now)) k m) = m.
Proof.
  intros Hk Hd. apply map_eq. intros k'. destruct (decide (k = k')) as [<-|Hne]; [|by rewrite !lookup_alter_ne].
  rewrite !lookup_alter_eq, Hk. cbn. f_equal. destruct it. cbn in *. by subst.
Qed.
Lemma plain_roundtrip a entity model id d z d1 d2 :
  model_of entity = Some model → entity ≠ "NOTE" → entity ≠ "MILESTONE" →
  run_alone (softDelete entity id (a_org a) (ok None) (ok tt)) d = (Ok z, d1) → items d2 = items d1 → ledger d2 !! z = ledger d1 !! z →
  visible (a_org a) model id d1 = None ∧ ∃ d3, run_alone (restoreTrashedItem a z) d2 = (Ok (id, entity), d3) ∧ items d3 = items d.
Proof.
  intros Em Hn Hms H Hi Hl. destruct (softDelete_runs _ _ _ _ _ _ _ _ Em H) as (it & tasks & d0 & Hv & [= <- <-] & Hi1 & Hl1).
  apply visible_row in Hv as (Hit & Ho & Hd). split.
  - unfold visible. rewrite Hi1, lookup_alter_eq, Hit. cbn. unfold hidden. cbn. by rewrite andb_false_r.
  - rewrite Hl1 in Hl. destruct (restore_runs a z d2 entity model id it None (clock d) Em Hn Hl) as (d3 & Hr & Hi3).
    { exists (with_deleted (Some (clock d)) it). by rewrite Hi, Hi1, lookup_alter_eq, Hit. }
    exists d3. split; [exact Hr|]. rewrite Hi3, (bool_decide_eq_false_2 (entity = "MILESTONE")) by done. cbn. rewrite Hi, Hi1. by eapply hidden_and_back.
Qed.

Lemma length_omap_filter {A B} (f : A → option B) (P : A → bool) l :
  (∀ x y, f x = Some y → P x = true) → (length (omap f l) ≤ length (List.filter P l))%nat.
Proof.
  intros H. induction l as [|x l IH]; [done|]. cbn. destruct (f x) as [y|] eqn:E; [rewrite (H x y E); cbn; lia|]. destruct (P x); cbn; lia.
Qed.
Lemma listed_tasks org id d (k : string) it :
  (∀ l, arrange l ≡ₚ l) → neat org id d → items d !! ("task", k) = Some it →
  k ∈ listed arrange org "task" (λ _, has_milestone id) d ↔ has_milestone id it = true.
Proof.
  intros Ha [Hle Hall] Hk. unfold listed. rewrite take_ge.
  2: { rewrite (Permutation_length (Ha _)). etransitivity; [|exact Hle]. apply length_omap_filter. intros x y. cbn. destruct (_ && _) eqn:E; [|done]. intros _.
       rewrite !andb_true_iff in E. destruct E as [[[-> _] _] ->]. done. }
  rewrite Ha, list_elem_of_omap. split.
  - intros ([k' x] & Hx%elem_of_map_to_list & H). cbn in H. destruct (_ && _) eqn:E; [|done]. injection H as E'. rewrite !andb_true_iff in E.
    destruct E as [[[E1%bool_decide_eq_true _] _] Hm]. destruct k' as [m k0]. cbn in *. subst. congruence.
  - intros Hm. exists (("task", k), it). split; [by apply elem_of_map_to_list|]. cbn.
    destruct (Hall (("task", k), it)) as (Ho & Hh & _).
    { apply list_elem_of_In, List.filter_In. split; [by apply list_elem_of_In, elem_of_map_to_list|]. cbn. by rewrite Hm. }
    cbn in *. by rewrite Hh, Hm, (bool_decide_eq_true_2 _ Ho).
Qed.
Lemma milestone_roundtrip a id d z d1 d2 :
  (∀ l, arrange l ≡ₚ l) → neat (a_org a) id d →
  run_alone (deleteMilestone arrange (a_org a) id) d = (Ok z, d1) → items d2 = items d1 → ledger d2 !! z = ledger d1 !! z →
  visible (a_org a) "milestone" id d1 = None ∧ ∃ d3, run_alone (restoreTrashedItem a z) d2 = (Ok (id, "MILESTONE"), d3) ∧ items d3 = items d.
Proof.
  intros Ha Hneat H Hi Hl. unfold deleteMilestone in H. rewrite run_read in H. apply run_require in H as [_ H].
  apply (softDelete_runs "MILESTONE" "milestone") in H as (it & tasks & d0 & Hv & Hs & Hi1 & Hl1); [|done].
  rewrite run_read, run_write in Hs. cbn [fst snd] in Hs. injection Hs as <- <-. set (org := a_org a) in *. set (L := listed _ _ _ _ d) in *.
  apply visible_row in Hv as (Hit & Ho & Hd).
  assert (items (clear_milestone org id d) !! ("milestone", id) = Some it) as Hc by (cbn; by rewrite map_lookup_imap, Hit).
  split.
  - unfold visible. rewrite Hi1, lookup_alter_eq. rewrite Hc. cbn. unfold hidden. cbn. by rewrite andb_false_r.
  - rewrite Hl1 in Hl. destruct (restore_runs a z d2 "MILESTONE" "milestone" id it (Some L) (clock d)) as (d3 & Hr & Hi3); [done|done|exact Hl| |].
    { eexists. split; [rewrite Hi, Hi1, lookup_alter_eq; rewrite Hc; reflexivity|]. by split_and!. }
    exists d3. split; [exact Hr|]. rewrite Hi3. cbn. rewrite Hi, Hi1. rewrite (hidden_and_back _ _ it _ Hc Hd).
    rewrite bool_decide_refl. apply map_eq. intros k. rewrite map_lookup_imap. cbn. rewrite map_lookup_imap. destruct (items d !! k) as [x|] eqn:Ex; [|done]. cbn. f_equal.
    destruct k as [m k]. cbn. destruct (decide (m = "task")) as [->|]; [|by rewrite !(bool_decide_eq_false_2 (m = "task"))].
    cbn. pose proof (listed_tasks org id d k x Ha Hneat Ex) as HL. fold L in HL. destruct (has_milestone id x) eqn:Em.
    + destruct Hneat as [_ Hall]. destruct (Hall (("task", k), x)) as (Hox & _ & Hp).
      { apply list_elem_of_In, List.filter_In. split; [by apply list_elem_of_In, elem_of_map_to_list|]. cbn. by rewrite Em. }
      cbn in Hox, Hp. rewrite Hit in Hp. cbn in Hp. injection Hp as Hp. fold org in Hox. rewrite !(bool_decide_eq_true_2 _ Hox), bool_decide_refl. cbn [andb i_owner i_project i_milestone with_milestone].
      rewrite (bool_decide_eq_true_2 (k ∈ L)) by tauto. rewrite (bool_decide_eq_true_2 (i_project x = i_project it)) by done.
      cbn [andb]. case_bool_decide; [|done]. cbn. apply bool_decide_eq_true in Em. destruct x. cbn in *. by subst.
    + rewrite andb_false_r. rewrite (bool_decide_eq_false_2 (k ∈ L)) by (intros Hin; apply HL in Hin; congruence). done.
Qed.


End theory.

(** ** Runs *)

Section demos.
Definition owners_ok (m : gmap key item) : bool :=
  forallb (λ x : key * item, forallb (λ p, match m !! p with Some y => bool_decide (i_owner y = i_owner x.2) | None => false end) (cascades_from x.1 x.2)) (map_to_list m).
Lemma owners_decided m : owners_ok m = true → owners m.
Proof.
  unfold owners_ok. rewrite forallb_forall. intros H k it p Hk Hp.
  assert (In (k, it) (map_to_list m)) as Hin by (by apply list_elem_of_In, elem_of_map_to_list). apply H in Hin. rewrite forallb_forall in Hin. cbn in Hin.
  specialize (Hin p (proj1 (list_elem_of_In _ _) Hp)). destruct (m !! p) as [y|]; [|done]. apply bool_decide_eq_true in Hin. by exists y.
Qed.
Definition demo_item (client project milestone : option string) : item := Item "org" None client project None milestone None "DRAFT" "body".
Definition demo_tasks (n : nat) : gmap key item :=
  foldr (λ i m, <[("task", String.concat "" (replicate i "I")) := demo_item None (Some "p") (Some "m")]> m) ∅ (seq 1 n).
Definition demo_items (n : nat) : gmap key item :=
  <[("client", "c") := demo_item None None None]> (<[("project", "p") := demo_item (Some "c") None None]>
    (<[("milestone", "m") := demo_item None (Some "p") None]> (<[("note", "n") := demo_item None (Some "p") None]> (demo_tasks n)))).
Definition demo_ann : actor := Audiences.Actor "ann" "org" "ADMIN" true.
Definition demo_db (n : nat) : db :=
  Db 0 (demo_items n) (<["n" := Audiences.Node "n" "ann" "org" (Some "p") None "TEAM" (Some []) None]> ∅)
    (λ id org, if bool_decide (id = "ann" ∧ org = "org") then Some demo_ann else None) [] ∅ ∅ 0 [].
Lemma demo_empty : empty_trash (demo_db 2).
Proof. split_and!; [done..|]. apply owners_decided. by vm_compute. Qed.

(** A project is deleted elsewhere, a milestone in the trash is purged by the
    administrator, and a note is restored. *)
Definition demo_bin :=
  perform (handle (λ l, l))
    [Arrive (DeleteMilestone "org" "m"); Run 0; Run 0; Arrive (DeleteNote demo_ann "n"); Run 0; Arrive (Permanent demo_ann 0); Run 0; Run 0;
     Arrive (Restore demo_ann 1); Run 0; Run 0; Arrive (Restore demo_ann 0); Run 0]
    (initial (demo_db 2)).
Example demo_bin_answers :
  (snd <$> answers demo_bin) =
    [Err TrashNotFound; Ok (Came ("n", "NOTE")); Ok (Purges (Purge true "m" "MILESTONE")); Ok (TrashLog.Trashed 1); Ok (TrashLog.Trashed 0)] ∧
  items (data demo_bin) !! ("milestone", "m") = None ∧ option_map i_deletedAt (items (data demo_bin) !! ("note", "n")) = Some None.
Proof. split_and!; vm_compute; reflexivity. Qed.
Lemma trash_settled_once_witness :
  settled 0 (data demo_bin) = 1%nat ∧ settled 1 (data demo_bin) = 1%nat ∧ ∀ z, (settled z (data demo_bin) ≤ 1)%nat.
Proof.
  split; [vm_compute; reflexivity|]. split; [vm_compute; reflexivity|]. intros z.
  exact (proj1 (proj1 (trash_settled_once (λ l, l) (demo_db 2) demo_bin demo_empty (perform_steps (handle (λ l, l)) _ (initial (demo_db 2)))) z)).
Defined.

Definition demo_deleted : db := (run_alone (deletion (λ l, l) "MILESTONE" "org" "m") (demo_db 2)).2.

(** A note is deleted, restored from its project (which leaves the row of the
    trash open), and deleted again twenty days later. Ten days after that the
    job finds the first row thirty days old and purges the note, whose second
    row promised twenty days more. *)
Definition day : Z := 24 * 60 * 60 * 1000.
Lemma purged_before_its_time :
  let s := perform (handle (λ l, l))
    [Arrive (DeleteNote demo_ann "n"); Run 0; Arrive (RestoreNote demo_ann "n"); Run 0; Arrive (Wait (20 * day)); Run 0;
     Arrive (DeleteNote demo_ann "n"); Run 0; Arrive (Wait (10 * day)); Run 0; Arrive (PurgeJob "org"); Run 0; Run 0; Run 0; Run 0]
    (initial (demo_db 2)) in
  items (data s) !! ("note", "n") = None ∧
  option_map (λ t, (z_record t, z_restoredAt t, z_expiresAt t - clock (data s))) (ledger (data s) !! 1%nat) = Some ("n", None, 20 * day).
Proof. split; vm_compute; reflexivity. Qed.

(** A milestone with a hundred and one tasks loses one of them on the way. *)
Lemma milestone_loses_a_task :
  let d1 := (run_alone (deleteMilestone (λ l, l) "org" "m") (demo_db 101)).2 in
  let d2 := (run_alone (restoreTrashedItem demo_ann 0) d1).2 in
  length (tasks_of "m" (demo_db 101)) = 101%nat ∧ length (tasks_of "m" d2) = 100%nat.
Proof. split; vm_compute; reflexivity. Qed.
End demos.

End TrashLog.
