(* ===== verification/RecordCalculations.v ===== *)
(** * Record fields and their calculations

    shared/record-calculations.js: the field definitions of a workspace
    collection with the type checker of their formulas and rollups, and the
    evaluator that computes a record's fields.  Definitions, expressions and
    values are JSON as they are stored and sent, so every shape the code checks is
    checked here.  An operator applied to operands its own checks exclude, which
    JavaScript would coerce, is [Stuck]. *)

From S2P Require Import Prelude Calendar JsNumber TenantTables Tenancy TenantGuard AuditLog.
Import JsNumber.Js Calendar.Calendar Tenancy.Tenancy.

Module Records.

(** ** JSON values *)

Inductive value := Null | Boolean (b : bool) | Number (n : num) | Text (s : string) | Array (l : list value) | Object (o : list (string * value)).
(** [v[k]]: none is [undefined]. *)
Definition prop (v : value) (k : string) : option value :=
  match v with Object o => option_map snd (List.find (λ e : string * value, bool_decide (e.1 = k)) o) | _ => None end.
Definition text_prop (v : value) (k : string) : option string := match prop v k with Some (Text s) => Some s | _ => None end.
Definition list_prop (v : value) (k : string) : option (list value) := match prop v k with Some (Array l) => Some l | _ => None end.
Definition text_of (v : value) : option string := match v with Text s => Some s | _ => None end.
Definition is_null (v : value) : bool := match v with Null => true | _ => false end.
Definition mem (s : string) (l : list string) : bool := bool_decide (s ∈ l).

(* src/src/shared/record-calculations.js:5-5 own *)
Definition own (v : value) (k : string) : bool := bool_decide (is_Some (prop v k)).
(* src/src/shared/record-calculations.js:8-8 object *)
Definition object (v : value) : bool := match v with Object _ => true | _ => false end.
(* src/src/shared/record-calculations.js:10-10 exact *)
Definition exact (v : value) (keys : list string) : bool :=
  match v with Object o => forallb (λ e : string * value, mem e.1 keys) o | _ => false end.
Definition chars (p : nat → bool) (s : string) : bool := forallb (λ c, p (Ascii.nat_of_ascii c)) (String.list_ascii_of_string s).
Definition digit (n : nat) : bool := (48 <=? n)%nat && (n <=? 57)%nat.
Definition letter (n : nat) : bool := ((65 <=? n)%nat && (n <=? 90)%nat) || ((97 <=? n)%nat && (n <=? 122)%nat).
Definition size (s : string) : Z := Z.of_nat (String.length s).
(* src/src/shared/record-calculations.js:4-4 RESERVED *)
Definition RESERVED : list string := ["__proto__"; "prototype"; "constructor"].
(* src/src/shared/record-calculations.js:6-6 safeKey *)
Definition safeKey (key : option value) : bool :=
  match key with
  | Some (Text (String c s)) =>
      letter (Ascii.nat_of_ascii c) && chars (λ n, letter n || digit n || (n =? 95)%nat || (n =? 45)%nat) s && (size s <=? 79) && negb (mem (String c s) RESERVED)
  | _ => false
  end.

(** ** Dates

    [/^\d{4}-\d{2}-\d{2}$/] as the code points of the year, month and day; the
    day of [Date.parse], where the calendar has it. *)
Definition digits (l : list Ascii.ascii) : option Z :=
  foldl (λ n c, match n with
                | Some z => if digit (Ascii.nat_of_ascii c) then Some (10 * z + Z.of_nat (Ascii.nat_of_ascii c) - 48) else None
                | None => None
                end) (Some 0) l.
Definition parse_day (s : string) : option Z :=
  match String.list_ascii_of_string s with
  | [y1; y2; y3; y4; s1; m1; m2; s2; d1; d2] =>
      match digits [y1; y2; y3; y4], digits [m1; m2], digits [d1; d2] with
      | Some y, Some m, Some d =>
          let mi := 12 * y + m - 1 in
          if (Ascii.nat_of_ascii s1 =? 45)%nat && (Ascii.nat_of_ascii s2 =? 45)%nat && (1 <=? m) && (m <=? 12) && (1 <=? d) && (d <=? month_length mi)
          then Some (month_start mi + d - 1) else None
      | _, _, _ => None
      end
  | _ => None
  end.
(* src/src/shared/record-calculations.js:11-11 validDate *)
Definition validDate (v : value) : bool := match v with Text s => bool_decide (is_Some (parse_day s)) | _ => false end.
(** [Date.parse] of a valid date. *)
Definition date_parse (day : Z) : num := of_Z (86400000 * day).

(** ** Types and operators *)

(* src/src/shared/record-calculations.js:3-3 TYPES *)
Inductive ty := TEXT | NUMBER | BOOLEAN | DATE | URL | SELECT | MULTI_SELECT | RELATION | FORMULA | ROLLUP | LIST.
#[export] Instance ty_eq_dec : EqDecision ty.
Proof. solve_decision. Defined.
Definition TYPES : list (string * ty) :=
  [("TEXT", TEXT); ("NUMBER", NUMBER); ("BOOLEAN", BOOLEAN); ("DATE", DATE); ("URL", URL); ("SELECT", SELECT); ("MULTI_SELECT", MULTI_SELECT);
   ("RELATION", RELATION); ("FORMULA", FORMULA); ("ROLLUP", ROLLUP)].
Definition named {A} (s : option string) (l : list (string * A)) : option A :=
  s ≫= λ s, option_map snd (List.find (λ e : string * A, bool_decide (e.1 = s)) l).
Definition type_of (field : value) : option ty := named (text_prop field "type") TYPES.
(* src/src/shared/record-calculations.js:9-9 scalarType *)
Definition scalarType (t : ty) : ty := match t with URL | SELECT => TEXT | t => t end.

Inductive op := Add | Subtract | Multiply | Divide | Round | Equal | Greater | Less | And | Or | Not | Concat | If | Coalesce | DaysBetween.
(* src/src/shared/record-calculations.js:12-12 arities *)
Definition arities : list (string * (op * (nat * nat))) :=
  [("add", (Add, (2, 8))); ("subtract", (Subtract, (2, 2))); ("multiply", (Multiply, (2, 8))); ("divide", (Divide, (2, 2))); ("round", (Round, (1, 2)));
   ("equal", (Equal, (2, 2))); ("greater", (Greater, (2, 2))); ("less", (Less, (2, 2))); ("and", (And, (2, 8))); ("or", (Or, (2, 8)));
   ("not", (Not, (1, 1))); ("concat", (Concat, (2, 8))); ("if", (If, (3, 3))); ("coalesce", (Coalesce, (2, 8))); ("daysBetween", (DaysBetween, (2, 2)))]%nat.

(** A rejected definition is answered 400 with the message; [OutOfFuel] is none of
    the code's outcomes ([validation_answers]). *)
Inductive invalid := Invalid (message : string) | OutOfFuel.

Definition truthy (v : option value) : bool :=
  match v with
  | None | Some Null | Some (Boolean false) => false
  | Some (Number n) => negb (is_zero n) && negb (bool_decide (n = NaN))
  | Some (Text s) => negb (bool_decide (s = ""))
  | Some _ => true
  end.
Definition archived (field : value) : bool := truthy (prop field "archived").
Definition key_of (field : value) : string := default "" (text_prop field "key").
(** [list.find(item => item.key === key)]. *)
Definition find_key (fields : list value) (key : string) : option value :=
  List.find (λ f, bool_decide (text_prop f "key" = Some key)) fields.

(** The fields of the collections relations lead to, by id. *)
Abbreviation catalog := (gmap string value).

(** ** Checking definitions *)

Definition boolean_or_none (v : option value) : bool := match v with None | Some (Boolean _) => true | _ => false end.
Definition all_keys : list string :=
  ["key"; "name"; "type"; "archived"; "required"; "options"; "collectionId"; "target"; "expression"; "relationKey"; "targetKey"; "aggregate"].
Definition own_keys (t : ty) : list string :=
  match t with
  | SELECT | MULTI_SELECT => ["options"]
  | RELATION => ["collectionId"; "target"]
  | FORMULA => ["expression"]
  | ROLLUP => ["relationKey"; "targetKey"; "aggregate"]
  | _ => []
  end.
Definition label_ok (limit : Z) (s : string) : bool := negb (bool_decide (Audit.trim s = "")) && (size s <=? limit).
Definition choices_ok (v : option value) : bool :=
  match v with
  | Some (Array l) =>
      (0 <? length l)%nat && (Z.of_nat (length l) <=? 30) &&
      forallb (λ x, match x with Text s => label_ok 80 s | _ => false end) l && bool_decide (NoDup (omap text_of l))
  | _ => false
  end.
Definition relation_ok (c : catalog) (field : value) : bool :=
  match prop field "target" with
  | Some t => match t with Text s => mem s ["TASK"; "PROJECT"; "CLIENT"; "PERSON"] | _ => false end && negb (own field "collectionId")
  | None =>
      match prop field "collectionId" with
      | Some (Text id) => negb (bool_decide (id = "")) && (size id <=? 80) && match c !! id with Some (Array _) => true | _ => false end
      | _ => false
      end
  end.
(** One turn of the first loop: what the field says by itself. *)
(* src/src/shared/record-calculations.js:22-35 validateRecordDefinitions *)
Definition check_field (c : catalog) (field : value) (keys names : list string) : result invalid (list string * list string) :=
  match type_of field, text_prop field "key", text_prop field "name" with
  | Some t, Some key, Some name =>
      _ ← refuse_unless (exact field all_keys && safeKey (prop field "key") && label_ok 80 name &&
                         boolean_or_none (prop field "archived") && boolean_or_none (prop field "required")) (Invalid "Invalid record field.");
      _ ← refuse_unless (negb (mem (toLowerCase key) keys) && negb (mem (toLowerCase (Audit.trim name)) names)) (Invalid "Field keys and names must be unique.");
      _ ← refuse_unless (exact field (["key"; "name"; "type"; "archived"; "required"] ++ own_keys t)) (Invalid "Unexpected configuration.");
      _ ← refuse_unless (negb (bool_decide (t ∈ [SELECT; MULTI_SELECT])) || choices_ok (prop field "options")) (Invalid "Select fields need unique choices.");
      _ ← refuse_unless (negb (bool_decide (t = RELATION)) || relation_ok c field) (Invalid "Related collection is unavailable.");
      _ ← refuse_unless (negb (bool_decide (t ∈ [FORMULA; ROLLUP])) || negb (truthy (prop field "required"))) (Invalid "Computed fields cannot be required inputs.");
      Ok (toLowerCase key :: keys, toLowerCase (Audit.trim name) :: names)
  | _, _, _ => Err (Invalid "Invalid record field.")
  end.
Fixpoint check_fields (c : catalog) (fields : list value) (keys names : list string) : result invalid unit :=
  match fields with
  | [] => Ok tt
  | f :: fields => '(keys, names) ← check_field c f keys names; check_fields c fields keys names
  end.

(** The closure of [fieldType]: the fields being looked at and the types found. *)
Record checking := Checking { visiting : list string; resultTypes : gmap string ty }.
Abbreviation check := (Eff checking invalid).
Definition refuse {A} (message : string) : check A := throw (Invalid message).

(** The result type of an operator, by the switch. *)
(* src/src/shared/record-calculations.js:65-83 expressionType *)
Definition result_type (o : op) (args : list ty) : result string ty :=
  let first := default LIST (args !! 0%nat) in
  let same := forallb (λ t, bool_decide (t = first)) args in
  let all t := forallb (λ a, bool_decide (a = t)) args in
  let unless b m t := if b : bool then Ok t else Err m in
  match o with
  | Add | Subtract | Multiply | Divide | Round => unless (all NUMBER) "Arithmetic requires number fields." NUMBER
  | Greater | Less => unless (same && bool_decide (first ∈ [NUMBER; DATE])) "Ordered comparison requires matching numbers or dates." BOOLEAN
  | Equal => unless (same && bool_decide (first ∈ [NUMBER; TEXT; BOOLEAN; DATE])) "Equality requires matching scalar values." BOOLEAN
  | And | Or | Not => unless (all BOOLEAN) "Logical operations require booleans." BOOLEAN
  | Concat => unless (all TEXT) "Concatenation requires text fields." TEXT
  | If => let second := default LIST (args !! 1%nat) in
          unless (bool_decide (first = BOOLEAN) && bool_decide (args !! 1%nat = args !! 2%nat)) "If requires a boolean and matching result types." second
  | Coalesce => unless same "Coalesce requires matching result types." first
  | DaysBetween => unless (all DATE) "Days between requires date fields." NUMBER
  end.
Definition literal_type (v : option value) : option ty :=
  match v with
  | Some (Text s) => if size s <=? 2000 then Some TEXT else None
  | Some (Number n) => if is_finite n then Some NUMBER else None
  | Some (Boolean _) => Some BOOLEAN
  | _ => None
  end.

(** [args.map(...)] with the count of nodes. *)
Fixpoint thread {S E N A B} (f : N → A → Eff S E (N * B)) (l : list A) (n : N) : Eff S E (N * list B) :=
  match l with
  | [] => mret (n, [])
  | a :: l => x ← f n a; y ← thread f l x.1; mret (y.1, x.2 :: y.2)
  end.
(** Depths 0 to 12, and the one that is refused. *)
Definition DEPTHS : nat := 14.
(* src/src/shared/record-calculations.js:49-84 expressionType *)
Fixpoint expressionType (fuel : nat) (fieldType : string → check ty) (expression : value) (depth nodes : Z) : check (Z * ty) :=
  match fuel with
  | O => throw OutOfFuel
  | S fuel =>
      let nodes := nodes + 1 in
      _ ← guard_eff (negb ((100 <? nodes) || (12 <? depth) || negb (object expression))) (Invalid "Formula is too complex or invalid.");
      if own expression "literal" then
        match exact expression ["literal"], literal_type (prop expression "literal") with
        | true, Some t => mret (nodes, t)
        | _, _ => refuse "Invalid formula literal."
        end
      else if own expression "field" then
        match exact expression ["field"] && safeKey (prop expression "field"), text_prop expression "field" with
        | true, Some key => t ← fieldType key; mret (nodes, t)
        | _, _ => refuse "Invalid formula field reference."
        end
      else
        match exact expression ["op"; "args"], named (text_prop expression "op") arities, list_prop expression "args" with
        | true, Some (o, (min, max)), Some args =>
            _ ← guard_eff ((min <=? length args)%nat && (length args <=? max)%nat) (Invalid "Invalid formula argument count.");
            x ← thread (λ nodes arg, expressionType fuel fieldType arg (depth + 1) nodes) args nodes;
            match result_type o x.2 with Ok t => mret (x.1, t) | Err m => refuse m end
        | _, _, _ => refuse "Unsupported formula operation."
        end
  end.

Definition AGGREGATES : list string := ["COUNT"; "SUM"; "AVERAGE"; "MIN"; "MAX"; "UNIQUE"].
(** [catalog[id]?.find(item => item.key === key && p(item))]. *)
Definition catalog_field (c : catalog) (id key : option string) (p : value → bool) : option value :=
  match id, key with
  | Some id, Some key => match c !! id with Some (Array l) => List.find (λ f, bool_decide (text_prop f "key" = Some key) && p f) l | _ => None end
  | _, _ => None
  end.
(* src/src/shared/record-calculations.js:87-102 fieldType *)
Definition rollup_type (c : catalog) (fields : list value) (field : value) : result string ty :=
  match text_prop field "relationKey" ≫= find_key fields, text_prop field "aggregate" with
  | Some relation, Some aggregate =>
      if archived relation || negb (bool_decide (type_of relation = Some RELATION)) || truthy (prop relation "target") || negb (mem aggregate AGGREGATES)
      then Err "Rollup requires an active collection relation and supported aggregate."
      else if bool_decide (aggregate = "COUNT") then
        (if own field "targetKey" then Err "Count does not take a target field." else Ok NUMBER)
      else
        match catalog_field c (text_prop relation "collectionId") (text_prop field "targetKey") (λ f, negb (archived f)) with
        | Some target =>
            match type_of target with
            | Some t =>
                if negb (bool_decide (t ∈ [NUMBER; TEXT; SELECT; BOOLEAN; DATE])) then Err "Rollup target must be an available stored scalar field."
                else if bool_decide (aggregate = "UNIQUE") then Ok LIST
                else if bool_decide (t = NUMBER) then Ok NUMBER else Err "Numeric rollups require a number field."
            | None => Err "Rollup target must be an available stored scalar field."
            end
        | None => Err "Rollup target must be an available stored scalar field."
        end
  | _, _ => Err "Rollup requires an active collection relation and supported aggregate."
  end.

Definition get_checking : check checking := gets (λ s, s).
Definition SCALARS : list ty := [NUMBER; TEXT; BOOLEAN; DATE].
(** One round per field on the way is enough ([validation_answers]). *)
(* src/src/shared/record-calculations.js:40-106 fieldType *)
Fixpoint fieldType (fuel : nat) (c : catalog) (fields : list value) (key : string) : check ty :=
  match fuel with
  | O => throw OutOfFuel
  | S fuel =>
      match find_key fields key with
      | None => refuse "Calculation references an unknown or archived field."
      | Some field =>
          _ ← guard_eff (negb (archived field)) (Invalid "Calculation references an unknown or archived field.");
          s ← get_checking;
          match resultTypes s !! key with
          | Some t => mret t
          | None =>
              _ ← guard_eff (negb (mem key (visiting s))) (Invalid "Calculation fields cannot form a cycle.");
              _ ← modify (λ s, Checking (key :: visiting s) (resultTypes s));
              t ← match type_of field with
                  | Some FORMULA =>
                      x ← expressionType DEPTHS (fieldType fuel c fields) (default Null (prop field "expression")) 0 0;
                      if bool_decide (x.2 ∈ SCALARS) then mret x.2 else refuse "Formula result must be a scalar."
                  | Some ROLLUP => match rollup_type c fields field with Ok t => mret t | Err m => refuse m end
                  | t => mret (scalarType (default LIST t))
                  end;
              _ ← modify (λ s, Checking (List.filter (λ k, negb (bool_decide (k = key))) (visiting s)) (<[key := t]> (resultTypes s)));
              mret t
          end
      end
  end.
Fixpoint type_all (c : catalog) (all : list value) (fields : list value) : check unit :=
  match fields with
  | [] => mret tt
  | f :: fields => _ ← (if archived f then mret LIST else fieldType (S (length all)) c all (key_of f)); type_all c all fields
  end.
(* src/src/shared/record-calculations.js:18-109 validateRecordDefinitions *)
Definition validateRecordDefinitions (fields : value) (c : catalog) : result invalid (gmap string ty) :=
  match fields with
  | Array l =>
      _ ← refuse_unless (Z.of_nat (length l) <=? 40) (Invalid "Use at most 40 fields.");
      _ ← check_fields c l [] [];
      match type_all c l l (Checking [] ∅) with
      | (Ok _, s) => Ok (resultTypes s)
      | (Err e, _) => Err e
      end
  | _ => Err (Invalid "Use at most 40 fields.")
  end.

(** ** Calculating *)

Inductive code :=
  | NON_FINITE | TEXT_LIMIT | DIVISION_BY_ZERO | ROUND_PRECISION | DEPENDENCY_ERROR | UNAVAILABLE_FIELD | INVALID_INPUT | INVALID_RELATION
  | INCOMPLETE_RELATION | INVALID_RELATED_INPUT.
#[export] Instance code_eq_dec : EqDecision code.
Proof. solve_decision. Defined.
(** A [CalculationError], or none of the code's own outcomes. *)
(* src/src/shared/record-calculations.js:111-113 CalculationError *)
Inductive failure := Calculation (c : code) | Stuck | Endless.
Record outcome := Outcome { o_value : value; o_error : option code }.
Abbreviation results := (gmap string outcome).
Abbreviation calc := (Eff results failure).
Abbreviation answer := (result failure).
Definition calculationFail {A} (c : code) : answer A := Err (Calculation c).
(* src/src/shared/record-calculations.js:115-115 finite *)
Definition finite (n : num) : answer value := if is_finite n then Ok (Number n) else calculationFail NON_FINITE.
(* src/src/shared/record-calculations.js:116-116 boundedText *)
Definition boundedText (s : string) : answer value := if 2000 <? size s then calculationFail TEXT_LIMIT else Ok (Text s).

(** The operands as the operator takes them. *)
Fixpoint all_of {A} (f : value → option A) (l : list value) : answer (list A) :=
  match l with
  | [] => Ok []
  | v :: l => match f v with Some a => as_ ← all_of f l; Ok (a :: as_) | None => Err Stuck end
  end.
Definition number_of (v : value) : option num := match v with Number n => Some n | _ => None end.
Definition boolean_of (v : value) : option bool := match v with Boolean b => Some b | _ => None end.
Definition day_of (v : value) : option Z := match v with Text s => parse_day s | _ => None end.
(** [a === b] of two values of the same scalar type. *)
Definition strict_equal (a b : value) : answer bool :=
  match a, b with
  | Number x, Number y => Ok (eqb x y)
  | Text x, Text y => Ok (bool_decide (x = y))
  | Boolean x, Boolean y => Ok (Bool.eqb x y)
  | _, _ => Err Stuck
  end.
(** [a < b] of two numbers, or of two texts. *)
Definition less_than (a b : value) : answer bool :=
  match a, b with
  | Number x, Number y => Ok (ltb x y)
  | Text x, Text y => Ok (String.ltb x y)
  | _, _ => Err Stuck
  end.
Definition ONE : num := of_Z 1.
Definition ZERO : num := of_Z 0.
(** [10 ** places] of an integer from 0 to 8. *)
Definition power_of_ten (places : num) : num := of_Z (10 ^ Z.shiftl (mant places) (expn places)).
(* src/src/shared/record-calculations.js:180-184 evaluate *)
Definition round_to (x places : num) : answer value :=
  if negb (is_integer places) || ltb places ZERO || ltb (of_Z 8) places then calculationFail ROUND_PRECISION
  else
    _ ← finite (mul x (power_of_ten places));
    finite (div (round (mul x (power_of_ten places))) (power_of_ten places)).
(** The operators that evaluate every argument. *)
(* src/src/shared/record-calculations.js:173-193 evaluate *)
Definition apply_op (o : op) (inputs : list value) : answer value :=
  match o with
  | Add => l ← all_of number_of inputs; finite (fold_left add l ZERO)
  | Multiply => l ← all_of number_of inputs; finite (fold_left mul l ONE)
  | Subtract => l ← all_of number_of inputs; match l with [a; b] => finite (sub a b) | _ => Err Stuck end
  | Divide =>
      l ← all_of number_of inputs;
      match l with
      | [a; b] => if eqb b ZERO then calculationFail DIVISION_BY_ZERO else finite (div a b)
      | _ => Err Stuck
      end
  | Round => l ← all_of number_of inputs; match l with [a] => round_to a ZERO | [a; b] => round_to a b | _ => Err Stuck end
  | Equal => match inputs with [a; b] => r ← strict_equal a b; Ok (Boolean r) | _ => Err Stuck end
  | Greater => match inputs with [a; b] => r ← less_than b a; Ok (Boolean r) | _ => Err Stuck end
  | Less => match inputs with [a; b] => r ← less_than a b; Ok (Boolean r) | _ => Err Stuck end
  | And => l ← all_of boolean_of inputs; Ok (Boolean (forallb id l))
  | Or => l ← all_of boolean_of inputs; Ok (Boolean (existsb id l))
  | Not => match inputs with [Boolean a] => Ok (Boolean (negb a)) | _ => Err Stuck end
  | Concat => l ← all_of text_of inputs; boundedText (String.concat "" l)
  | DaysBetween => l ← all_of day_of inputs; match l with [a; b] => Ok (Number (div (sub (date_parse b) (date_parse a)) (of_Z 86400000))) | _ => Err Stuck end
  | If | Coalesce => Err Stuck
  end.

Definition lift {A} (r : answer A) : calc A := λ s, (r, s).
(** [try { return computed(key) } catch]. *)
Definition dependency (derived : bool) (m : calc value) : calc value :=
  λ s, match m s with
       | (Err (Calculation c), s') => (Err (Calculation (if derived then DEPENDENCY_ERROR else c)), s')
       | r => r
       end.
Definition derived (fields : list value) (key : string) : bool :=
  match find_key fields key with Some f => bool_decide (type_of f ∈ [Some FORMULA; Some ROLLUP]) | None => false end.

Section evaluating.
Context (fields : list value) (computed : string → calc value).
(** Coalesce takes the first value that is not null. *)
Fixpoint first_value (evaluate : value → calc value) (args : list value) : calc value :=
  match args with
  | [] => mret Null
  | a :: args => v ← evaluate a; if is_null v then first_value evaluate args else mret v
  end.
(* src/src/shared/record-calculations.js:154-194 evaluate *)
Fixpoint evaluate (fuel : nat) (expression : value) : calc value :=
  match fuel with
  | O => throw Endless
  | S fuel =>
      if own expression "literal" then mret (default Null (prop expression "literal"))
      else if own expression "field" then
        match text_prop expression "field" with Some key => dependency (derived fields key) (computed key) | None => throw Stuck end
      else
        match named (text_prop expression "op") arities, list_prop expression "args" with
        | Some (If, _), Some [c; t; e] =>
            condition ← evaluate fuel c;
            match condition with
            | Null => mret Null
            | Boolean b => evaluate fuel (if b then t else e)
            | _ => throw Stuck
            end
        | Some (Coalesce, _), Some args => first_value (evaluate fuel) args
        | Some (o, _), Some args =>
            inputs ← mapM (evaluate fuel) args;
            if existsb is_null inputs then mret Null else lift (apply_op o inputs)
        | _, _ => throw Stuck
        end
  end.
End evaluating.

(** A stored value is what its field says. *)
(* src/src/shared/record-calculations.js:142-143 computed *)
Definition input_ok (field : value) (type : option ty) (v : value) : bool :=
  match type with
  | Some NUMBER => match v with Number n => is_finite n | _ => false end
  | Some BOOLEAN => match v with Boolean _ => true | _ => false end
  | Some TEXT =>
      match v with
      | Text s => (size s <=? (if bool_decide (type_of field = Some URL) then 2048 else 2000)) &&
                  (negb (bool_decide (type_of field = Some SELECT)) || mem s (omap text_of (default [] (list_prop field "options"))))
      | _ => false
      end
  | Some DATE => validDate v
  | _ => true
  end.

(** A relation as the service resolved it: its records by id, with their values. *)
Record resolution := Resolution { complete : bool; items : list (string * value) }.
(** Two values of one scalar type. *)
Definition same_scalar (a b : value) : bool := match strict_equal a b with Ok r => r | Err _ => false end.
(** [[...new Set(l)]] *)
Definition unique_values (l : list value) : list value :=
  foldl (λ kept v, if existsb (same_scalar v) kept then kept else kept ++ [v]) [] l.
(* src/src/shared/record-calculations.js:205-206 rollup *)
Definition related_ok (target v : value) : bool :=
  match scalarType (default LIST (type_of target)) with
  | NUMBER => match v with Number n => is_finite n | _ => false end
  | BOOLEAN => match v with Boolean _ => true | _ => false end
  | DATE => validDate v
  | _ =>
      match v with
      | Text s => (size s <=? 2000) && (negb (bool_decide (type_of target = Some SELECT)) || mem s (omap text_of (default [] (list_prop target "options"))))
      | _ => false
      end
  end.
Definition nothing_selected (aggregate : option string) : value :=
  if bool_decide (aggregate = Some "UNIQUE") then Array []
  else if bool_decide (aggregate ∈ [Some "SUM"; Some "COUNT"]) then Number ZERO else Null.
(** The ids a relation names: none of them where it has no value. *)
Definition selected_ids (v : option value) : option (list string) :=
  match v with
  | None | Some Null => Some []
  | Some (Array l) =>
      let ids := omap text_of l in
      if (Z.of_nat (length l) <=? 100) && (length ids =? length l)%nat && forallb (λ id, negb (bool_decide (id = "")) && (size id <=? 80)) ids && bool_decide (NoDup ids)
      then Some ids else None
  | Some _ => None
  end.
Definition resolved_ok (selected : list string) (r : resolution) : bool :=
  complete r && (length (items r) =? length selected)%nat && forallb (λ x : string * value, object x.2 && mem x.1 selected) (items r) &&
  bool_decide (NoDup (fst <$> items r)).
(* src/src/shared/record-calculations.js:207-212 rollup *)
Definition aggregated (aggregate : option string) (inputs : list value) : answer value :=
  if bool_decide (aggregate = Some "UNIQUE") then Ok (Array (unique_values inputs))
  else if (length inputs =? 0)%nat then Ok (if bool_decide (aggregate = Some "SUM") then Number ZERO else Null)
  else
    l ← all_of number_of inputs;
    if bool_decide (aggregate = Some "SUM") then finite (fold_left add l ZERO)
    else if bool_decide (aggregate = Some "AVERAGE") then finite (div (fold_left add l ZERO) (of_Z (Z.of_nat (length l))))
    else if bool_decide (aggregate = Some "MIN") then Ok (Number (fold_left min l (Inf false)))
    else Ok (Number (fold_left max l (Inf true))).

Section calculating.
Context (c : catalog) (types : gmap string ty) (fields : list value) (values : value) (resolvedRelations : gmap string resolution).
(* src/src/shared/record-calculations.js:195-213 rollup *)
Definition rollup (field : value) : answer value :=
  let aggregate := text_prop field "aggregate" in
  let relationKey := default "" (text_prop field "relationKey") in
  match selected_ids (prop values relationKey) with
  | None => calculationFail INVALID_RELATION
  | Some [] => Ok (nothing_selected aggregate)
  | Some selected =>
      match resolvedRelations !! relationKey with
      | None => calculationFail INCOMPLETE_RELATION
      | Some r =>
          if negb (resolved_ok selected r) then calculationFail INCOMPLETE_RELATION
          else if bool_decide (aggregate = Some "COUNT") then Ok (Number (of_Z (Z.of_nat (length (items r)))))
          else
            match find_key fields relationKey ≫= λ relation, catalog_field c (text_prop relation "collectionId") (text_prop field "targetKey") (λ _, true) with
            | None => Err Stuck
            | Some target =>
                let inputs := List.filter (λ v, negb (is_null v)) ((λ x, default Null (prop x.2 (default "" (text_prop field "targetKey")))) <$> items r) in
                if negb (forallb (related_ok target) inputs) then calculationFail INVALID_RELATED_INPUT
                else aggregated aggregate inputs
            end
      end
  end.
(* src/src/shared/record-calculations.js:139-144 computed *)
Definition input (field : value) : answer value :=
  match prop values (key_of field) with
  | None | Some Null => Ok Null
  | Some v => if input_ok field (types !! key_of field) v then Ok v else calculationFail INVALID_INPUT
  end.
(** What is computed is remembered, and so is that it failed. *)
(* src/src/shared/record-calculations.js:146-151 computed *)
Definition remember (key : string) (m : calc value) : calc value :=
  λ s, match m s with
       | (Ok v, s') => (Ok v, <[key := Outcome v None]> s')
       | (Err (Calculation e), s') => (Err (Calculation e), <[key := Outcome Null (Some e)]> s')
       | r => r
       end.
(** One round per field on the way is enough ([calculation_total]). *)
(* src/src/shared/record-calculations.js:128-153 computed *)
Fixpoint computed (fuel : nat) (key : string) : calc value :=
  match fuel with
  | O => throw Endless
  | S fuel =>
      seen ← gets (λ s : results, s !! key);
      match seen with
      | Some r => match o_error r with Some _ => throw (Calculation DEPENDENCY_ERROR) | None => mret (o_value r) end
      | None =>
          match find_key fields key with
          | None => throw (Calculation UNAVAILABLE_FIELD)
          | Some field =>
              if archived field then throw (Calculation UNAVAILABLE_FIELD) else
              remember key
                match type_of field with
                | Some FORMULA => evaluate fields (computed fuel) DEPTHS (default Null (prop field "expression"))
                | Some ROLLUP => lift (rollup field)
                | _ => lift (input field)
                end
          end
      end
  end.
(** The fields to calculate, in the order of the definitions. *)
Definition wanted : list value := List.filter (λ f, negb (archived f) && bool_decide (type_of f ∈ [Some FORMULA; Some ROLLUP])) fields.
(* src/src/shared/record-calculations.js:214-216 calculateRecordFields *)
Fixpoint compute_all (l : list value) : calc unit :=
  match l with
  | [] => mret tt
  | f :: l =>
      _ ← λ s, match computed (S (length fields)) (key_of f) s with
               | (Ok _, s') | (Err (Calculation _), s') => (Ok tt, s')
               | (Err e, s') => (Err e, s')
               end;
      compute_all l
  end.
End calculating.

(** What the caller gets: each field's value or error, with its type. *)
Definition computed_fields : Type := list (string * (outcome * ty)).
Inductive rejection := Rejected (e : invalid) | Failed (e : failure).
(* src/src/shared/record-calculations.js:123-218 calculateRecordFields *)
Definition calculateRecordFields (fields values : value) (resolvedRelations : gmap string resolution) (c : catalog) : result rejection computed_fields :=
  match validateRecordDefinitions fields c, fields with
  | Err e, _ => Err (Rejected e)
  | Ok types, Array l =>
      if negb (object values) then Err (Rejected (Invalid "Invalid record calculation inputs."))
      else
        match compute_all c types l values resolvedRelations (wanted l) ∅ with
        | (Err e, _) => Err (Failed e)
        | (Ok _, s) => Ok ((λ f, (key_of f, (default (Outcome Null None) (s !! key_of f), default LIST (types !! key_of f)))) <$> wanted l)
        end
  | Ok _, _ => Err (Rejected (Invalid "Use at most 40 fields."))
  end.

End Records.
