(* ===== verification/RecordSoundness.v ===== *)
(** * What calculations mean

    The type system of record formulas as a relation, the checker's soundness
    and termination, and a reference semantics without memory, states or error
    codes, which the evaluator of RecordCalculations.v is compared with. *)

From S2P Require Import Prelude Calendar JsNumber Tenancy RecordCalculations.
Import Tenancy.Tenancy(toLowerCase). Import JsNumber.Js Calendar.Calendar Records.

Module RecordSoundness.

(** ** Fields by key *)

Lemma find_field_Some l key f : find_key l key = Some f → f ∈ l ∧ text_prop f "key" = Some key.
Proof. intros [Hin Hp]%find_some. split; [by apply list_elem_of_In|by apply bool_decide_eq_true in Hp]. Qed.
Lemma key_of_text f key : text_prop f "key" = Some key → key_of f = key.
Proof. unfold key_of. by intros ->. Qed.
Lemma find_key_elem l key : key ∈ (key_of <$> l) → Forall (λ f, is_Some (text_prop f "key")) l → ∃ f, find_key l key = Some f.
Proof.
  intros (f & -> & Hf)%list_elem_of_fmap HF. rewrite Forall_forall in HF. destruct (HF f Hf) as [k Hk].
  destruct (find_key l (key_of f)) as [g|] eqn:E; [eauto|]. apply list_elem_of_In in Hf. unfold find_key in E. pose proof (find_none _ _ E f Hf) as H. cbv beta in H.
  rewrite Hk, (key_of_text _ _ Hk), bool_decide_refl in H. done.
Qed.
Lemma find_key_self l f : f ∈ l → is_Some (text_prop f "key") → NoDup (key_of <$> l) → Forall (λ f, is_Some (text_prop f "key")) l → find_key l (key_of f) = Some f.
Proof.
  intros Hf [k Hk] Hnd HF. destruct (find_key_elem l (key_of f)) as [g Hg]; [by apply list_elem_of_fmap_2|done|]. rewrite Hg. f_equal.
  apply find_field_Some in Hg as [Hg1 Hg2]. apply key_of_text in Hg2. apply list_elem_of_lookup in Hf as [i Hi], Hg1 as [j Hj].
  assert (i = j) as ->; [|congruence]. eapply NoDup_lookup; [exact Hnd| |]; rewrite list_lookup_fmap, ?Hi, ?Hj; cbn; by rewrite ?Hg2.
Qed.
(** The fields of a definition that passed the first loop. *)
Record shaped (c : catalog) (f : value) : Prop := {
  shaped_key : is_Some (text_prop f "key");
  shaped_type : is_Some (type_of f);
  shaped_choices : type_of f ∈ [Some SELECT; Some MULTI_SELECT] → choices_ok (prop f "options") = true;
  shaped_relation : type_of f = Some RELATION → relation_ok c f = true
}.
Lemma check_field_ok c f keys names keys' names' :
  check_field c f keys names = Ok (keys', names') → shaped c f ∧ toLowerCase (key_of f) ∉ keys ∧ keys' = toLowerCase (key_of f) :: keys.
Proof.
  unfold check_field, key_of. destruct (type_of f) as [t|] eqn:Et; [|done]. destruct (text_prop f "key") as [k|] eqn:Ek; [|done]. destruct (text_prop f "name"); [|done].
  intros H. apply bind_ok in H as ([] & H1 & H). apply refuse_unless_ok in H1. apply bind_ok in H as ([] & H2 & H). apply refuse_unless_ok in H2.
  apply bind_ok in H as ([] & H3 & H). apply refuse_unless_ok in H3. apply bind_ok in H as ([] & H4 & H). apply refuse_unless_ok in H4.
  apply bind_ok in H as ([] & H5 & H). apply refuse_unless_ok in H5. apply bind_ok in H as ([] & _ & [= <- <-]). cbn.
  apply andb_true_iff' in H2 as [H2%negb_true_iff' _]. apply orb_true_iff' in H4, H5. split; [|split; [|done]].
  - split; [eauto|eauto| |].
    + rewrite Et. intros Hin. destruct H4 as [H4|H4]; [|done]. apply negb_true_iff', bool_decide_eq_false in H4. exfalso. apply H4.
      apply elem_of_cons in Hin as [[= ->]|Hin]; [left|]. apply elem_of_cons in Hin as [[= ->]|Hin]; [right; left|by apply not_elem_of_nil in Hin].
    + rewrite Et. intros [= ->]. by destruct H5.
  - unfold mem in H2. by apply bool_decide_eq_false in H2.
Qed.
Lemma check_fields_ok c l : ∀ keys names, check_fields c l keys names = Ok tt →
  Forall (shaped c) l ∧ NoDup (toLowerCase <$> (key_of <$> l)) ∧ ∀ f, f ∈ l → toLowerCase (key_of f) ∉ keys.
Proof.
  induction l as [|f l IH]; intros keys names; [intros _; split; [done|split; [by constructor|by intros f ?%not_elem_of_nil]]|]. cbn [check_fields].
  intros ([keys1 names1] & H1 & H)%bind_ok. apply check_field_ok in H1 as (Hs & Hk & ->). apply IH in H as (HF & Hnd & Hni).
  split; [by constructor|]. split.
  - cbn. constructor; [|done]. rewrite <-list_fmap_compose. intros (g & Hg & Hin)%list_elem_of_fmap. apply (Hni g Hin). cbn in Hg. rewrite <-Hg. left.
  - intros g [->|Hin]%elem_of_cons; [done|]. specialize (Hni g Hin). rewrite elem_of_cons in Hni. tauto.
Qed.

(** ** The type system *)

(** [typed Γ n e t]: under the types [Γ] of the fields, the expression [e], not
    deeper than [n], has type [t]. *)
Inductive typed (Γ : gmap string ty) : nat → value → ty → Prop :=
  | typed_literal n e v t : prop e "literal" = Some v → literal_type (Some v) = Some t → typed Γ (S n) e t
  | typed_field n e key t : own e "literal" = false → text_prop e "field" = Some key → Γ !! key = Some t → typed Γ (S n) e t
  | typed_op n e o low high args ts t :
      own e "literal" = false → own e "field" = false → named (text_prop e "op") arities = Some (o, (low, high)) → list_prop e "args" = Some args →
      (low ≤ length args ≤ high)%nat → Forall2 (typed Γ n) args ts → result_type o ts = Ok t → typed Γ (S n) e t.
Lemma typed_mono Γ Γ' n : Γ ⊆ Γ' → ∀ e t, typed Γ n e t → typed Γ' n e t.
Proof.
  intros Hs. induction n as [|n IH]; intros e t H; inversion H; subst; [by eapply typed_literal|eapply typed_field; [done..|by eapply lookup_weaken]|].
  eapply typed_op; [done..| |done]. eapply Forall2_impl; [done|]. apply IH.
Qed.

Section checker.
Context (c : catalog) (fields : list value).
(** The type of a field, given those of the fields it is made of. *)
Definition justified (Γ : gmap string ty) (field : value) (t : ty) : Prop :=
  match type_of field with
  | Some FORMULA => typed Γ DEPTHS (default Null (prop field "expression")) t ∧ t ∈ SCALARS
  | Some ROLLUP => rollup_type c fields field = Ok t
  | ft => t = scalarType (default LIST ft)
  end.
Lemma justified_mono Γ Γ' f t : Γ ⊆ Γ' → justified Γ f t → justified Γ' f t.
Proof. intros Hs. unfold justified. destruct (type_of f) as [[]|]; try done. intros [H ?]. split; [by eapply typed_mono|done]. Qed.
(** Types found one field after the other: what a field is made of comes before
    it, so there is no cycle. *)
Inductive built : gmap string ty → Prop :=
  | built_none : built ∅
  | built_field Γ key field t :
      built Γ → Γ !! key = None → find_key fields key = Some field → archived field = false → justified Γ field t → built (<[key := t]> Γ).
Lemma built_keys Γ : built Γ → ∀ key, is_Some (Γ !! key) → key ∈ (key_of <$> fields).
Proof.
  induction 1 as [|Γ key field t _ IH Hn Hf _ _]; intros k [t' Hk]; [by rewrite lookup_empty in Hk|].
  apply lookup_insert_Some in Hk as [[<- _]|[_ Hk]]; [|eauto]. apply find_field_Some in Hf as [Hf1 Hf2]. rewrite <-(key_of_text _ _ Hf2). by apply list_elem_of_fmap_2.
Qed.
Lemma built_size Γ : built Γ → (base.size Γ ≤ length fields)%nat.
Proof.
  intros HB. rewrite <-size_dom, <-(length_fmap key_of fields). change (base.size (dom Γ)) with (length (elements (dom Γ))).
  apply NoDup_subset_length; [apply NoDup_elements|]. intros k Hk. rewrite elem_of_elements, elem_of_dom in Hk. by eapply built_keys.
Qed.

(** ** The checker finds such types, or refuses *)

Record settled (s : checking) : Prop := {
  settled_built : built (resultTypes s);
  settled_once : NoDup (visiting s);
  settled_open key : key ∈ visiting s → key ∈ (key_of <$> fields) ∧ resultTypes s !! key = None
}.
(** From what is known in [Γ] on, with [n] rounds of fuel, [m] answers [Q] or
    refuses; it never runs out. *)
Definition finds {A} (n : nat) (Γ : gmap string ty) (m : check A) (Q : A → gmap string ty → Prop) : Prop :=
  ∀ s, settled s → Γ ⊆ resultTypes s → (length fields < n + length (visiting s))%nat →
  match m s with
  | (Ok a, s') => settled s' ∧ visiting s' = visiting s ∧ resultTypes s ⊆ resultTypes s' ∧ Q a (resultTypes s')
  | (Err e, _) => e ≠ OutOfFuel
  end.
Lemma finds_ret {A} n Γ (a : A) (Q : A → gmap string ty → Prop) : (∀ Γ', Γ ⊆ Γ' → Q a Γ') → finds n Γ (mret a) Q.
Proof. intros HQ s Hs HΓ _. by split_and!; [..|apply HQ]. Qed.
Lemma finds_refuse {A} n Γ message (Q : A → gmap string ty → Prop) : finds n Γ (refuse message) Q.
Proof. by intros s _ _ _. Qed.
Lemma finds_bind {A B} n Γ (m : check A) (f : A → check B) P Q :
  finds n Γ m P → (∀ a Γ', Γ ⊆ Γ' → P a Γ' → finds n Γ' (f a) Q) → finds n Γ (m ≫= f) Q.
Proof.
  intros Hm Hf s Hs HΓ Hn. specialize (Hm s Hs HΓ Hn). unfold mbind, eff_bind. destruct (m s) as [[a|e] s1]; [|done].
  destruct Hm as (Hs1 & Hv & Hg & HP). assert (Γ ⊆ resultTypes s1) as HΓ1 by (by etrans). rewrite <-Hv in Hn.
  specialize (Hf a (resultTypes s1) HΓ1 HP s1 Hs1 (reflexivity _) Hn). destruct (f a s1) as [[b|e] s2]; [|done].
  destruct Hf as (? & Hv2 & ? & ?). split_and!; [done|by rewrite Hv2|by etrans|done].
Qed.
Lemma finds_guard {A} n Γ b message (f : unit → check A) Q : (b = true → finds n Γ (f tt) Q) → finds n Γ (guard_eff b (Invalid message) ≫= f) Q.
Proof. intros Hf s Hs HΓ Hn. unfold mbind, eff_bind, guard_eff. destruct b; [by apply Hf|done]. Qed.
Lemma finds_impl {A} n Γ (m : check A) (P Q : A → gmap string ty → Prop) : finds n Γ m P → (∀ a Γ', P a Γ' → Q a Γ') → finds n Γ m Q.
Proof. intros Hm HPQ s Hs HΓ Hn. specialize (Hm s Hs HΓ Hn). destruct (m s) as [[a|e] s']; [|done]. destruct Hm as (? & ? & ? & ?). split_and!; eauto. Qed.
Lemma finds_thread {N A B} n (f : N → A → check (N * B)) (R : gmap string ty → A → B → Prop) l :
  (∀ Γ Γ' a b, Γ ⊆ Γ' → R Γ a b → R Γ' a b) → (∀ a x Γ, a ∈ l → finds n Γ (f x a) (λ y Γ', R Γ' a y.2)) →
  ∀ x Γ, finds n Γ (thread f l x) (λ y Γ', Forall2 (R Γ') l y.2).
Proof.
  intros HR. induction l as [|a l IH]; intros Hf x Γ; [by apply finds_ret; constructor|]. cbn [thread].
  eapply finds_bind; [apply Hf; left|]. intros y Γ1 _ Hy. eapply finds_bind; [apply IH; intros; apply Hf; by right|]. intros z Γ2 Hs Hz.
  apply finds_ret. intros Γ3 Hs3. cbn. constructor; [eapply HR; [|exact Hy]; by etrans|]. eapply Forall2_impl; [exact Hz|]. intros; by eapply HR.
Qed.

Lemma finds_expression n (field : string → check ty) :
  (∀ key Γ, finds n Γ (field key) (λ t Γ', Γ' !! key = Some t)) →
  ∀ fuel e depth nodes Γ, depth ≤ 13 → depth + Z.of_nat fuel = 14 →
  finds n Γ (expressionType fuel field e depth nodes) (λ x Γ', typed Γ' fuel e x.2).
Proof.
  intros Hfield fuel. induction fuel as [|fuel IH]; intros e depth nodes Γ Hd Hf; [lia|]. cbn [expressionType].
  apply finds_guard. intros Hg. apply negb_true_iff', orb_false_iff' in Hg as [Hg _]. apply orb_false_iff' in Hg as [_ Hg%Z.ltb_ge].
  destruct (own e "literal") eqn:E1.
  { destruct (exact e ["literal"]); [|apply finds_refuse]. destruct (literal_type (prop e "literal")) as [t|] eqn:El; [|apply finds_refuse].
    apply finds_ret. intros Γ' _. destruct (prop e "literal") as [v|] eqn:Ep; [|done]. by eapply typed_literal. }
  destruct (own e "field") eqn:E2.
  { destruct (exact e ["field"] && _); [|apply finds_refuse]. destruct (text_prop e "field") as [key|] eqn:Ek; [|apply finds_refuse].
    eapply finds_bind; [apply Hfield|]. intros t Γ1 _ Ht. apply finds_ret. intros Γ2 Hs. eapply typed_field; [done..|]. eapply lookup_weaken; [exact Ht|done]. }
  destruct (exact e ["op"; "args"]); [|apply finds_refuse]. destruct (named (text_prop e "op") arities) as [[o [low high]]|] eqn:Eo; [|apply finds_refuse].
  destruct (list_prop e "args") as [args|] eqn:Ea; [|apply finds_refuse]. apply finds_guard. intros [H1%Nat.leb_le H2%Nat.leb_le]%andb_true_iff'.
  eapply finds_bind.
  { apply (finds_thread n _ (λ Γ a t, typed Γ fuel a t)); [eauto using typed_mono|]. intros a x Γ1 _. apply IH; lia. }
  intros [x ts] Γ1 _ Hts. cbn [fst snd] in *. destruct (result_type o ts) as [t|m] eqn:Er; [|apply finds_refuse].
  apply finds_ret. intros Γ2 Hs. eapply typed_op; [done..| |done]. eapply Forall2_impl; [exact Hts|]. eauto using typed_mono.
Qed.

Lemma finds_field n : ∀ key Γ, finds n Γ (fieldType n c fields key) (λ t Γ', Γ' !! key = Some t).
Proof.
  induction n as [|n IH]; intros key Γ.
  { intros s [_ Ho Hv] _ Hlt. exfalso. pose proof (NoDup_subset_length (visiting s) (key_of <$> fields) Ho (λ k Hk, proj1 (Hv k Hk))) as H.
    rewrite length_fmap in H. lia. }
  cbn [fieldType]. destruct (find_key fields key) as [field|] eqn:Ef; [|apply finds_refuse]. apply finds_guard. intros Ha%negb_true_iff'.
  intros s Hs HΓ Hn. unfold get_checking, gets. unfold mbind at 1, eff_bind at 1. destruct (resultTypes s !! key) as [t|] eqn:Et; [by split_and!|].
  unfold mbind at 1, eff_bind at 1. unfold guard_eff at 1. destruct (mem key (visiting s)) eqn:Em; [done|]. cbn [negb refuse_unless].
  unfold mbind at 1, eff_bind at 1. unfold modify at 1. set (s1 := Checking (key :: visiting s) (resultTypes s)).
  unfold mem in Em. apply bool_decide_eq_false in Em. pose proof (find_field_Some _ _ _ Ef) as [Hin Hkey].
  assert (settled s1) as Hs1.
  { split; [apply Hs|constructor; [done|apply Hs]|]. intros k [->|Hk]%elem_of_cons; [|by apply Hs]. split; [|done].
    rewrite <-(key_of_text _ _ Hkey). by apply list_elem_of_fmap_2. }
  match goal with |- context [(?m ≫= ?f) s1] =>
    assert (finds n (resultTypes s) m (λ t Γ', justified Γ' field t)) as Hm end.
  { unfold justified. destruct (type_of field) as [[]|] eqn:Ety; try (by apply finds_ret).
    - eapply finds_bind; [apply finds_expression; [exact IH|lia|done]|]. intros x Γ1 _ Hx. case_bool_decide; [|apply finds_refuse].
      apply finds_ret. intros Γ2 Hs2. split; [by eapply typed_mono|done].
    - destruct (rollup_type c fields field) as [t|m] eqn:Er; [by apply finds_ret|apply finds_refuse]. }
  specialize (Hm s1 Hs1 (reflexivity _) ltac:(cbn; lia)). unfold mbind at 1, eff_bind at 1.
  match goal with |- match (match ?r with _ => _ end) with _ => _ end => destruct r as [[t|e] s2] end; [|done].
  destruct Hm as (Hs2 & Hv & Hg & Hj). cbn in Hg. unfold mbind, eff_bind, modify, mret, eff_ret. cbv beta iota.
  assert (resultTypes s2 !! key = None) as Hnone by (apply Hs2; rewrite Hv; left).
  assert (List.filter (λ k, negb (bool_decide (k = key))) (visiting s2) = visiting s) as Hback.
  { rewrite Hv. cbn. rewrite bool_decide_refl. cbn. clear -Em. induction (visiting s) as [|k l IH]; [done|]. cbn.
    apply not_elem_of_cons in Em as [Hne Em]. rewrite bool_decide_neq by done. cbn. by rewrite IH. }
  rewrite Hback. cbn [visiting resultTypes]. split_and!.
  - split; cbn; [by eapply built_field; [apply Hs2|..]|apply Hs|]. intros k Hk. split; [by apply Hs|].
    rewrite lookup_insert_ne by (intros ->; done). apply Hs2. rewrite Hv. by right.
  - done.
  - etrans; [exact Hg|]. by apply insert_subseteq.
  - apply lookup_insert_eq.
Qed.
Lemma finds_all l Γ : (∀ f, f ∈ l → f ∈ fields) →
  finds (S (length fields)) Γ (type_all c fields l) (λ _ Γ', ∀ f, f ∈ l → archived f = false → is_Some (Γ' !! key_of f)).
Proof.
  revert Γ. induction l as [|f l IH]; intros Γ Hl; [apply finds_ret; by intros Γ' _ f ?%not_elem_of_nil|]. cbn [type_all].
  eapply (finds_bind _ _ _ _ (λ _ Γ', archived f = false → is_Some (Γ' !! key_of f))).
  { destruct (archived f); [by apply finds_ret|]. eapply finds_impl; [apply finds_field|]. cbn. eauto. }
  intros t Γ1 _ Ht. intros s Hs HΓ Hn. specialize (IH Γ1 (λ g Hg, Hl g ltac:(by right)) s Hs HΓ Hn). destruct (type_all c fields l s) as [[u|e] s']; [|done].
  destruct IH as (? & ? & Hg & HQ). split_and!; [done..|]. intros g [->|Hin]%elem_of_cons Hga; [|by apply HQ].
  destruct (Ht Hga) as [t' Ht']. exists t'. eapply lookup_weaken; [exact Ht'|by etrans].
Qed.
End checker.

(** What an accepted definition is. *)
Record accepted (c : catalog) (fields : list value) (types : gmap string ty) : Prop := {
  accepted_shaped : Forall (shaped c) fields;
  accepted_distinct : NoDup (toLowerCase <$> (key_of <$> fields));
  accepted_built : built c fields types;
  accepted_active f : f ∈ fields → archived f = false → is_Some (types !! key_of f)
}.
Lemma definitions_ok c fields types : validateRecordDefinitions (Array fields) c = Ok types → accepted c fields types.
Proof.
  cbn [validateRecordDefinitions]. intros ([] & _ & H)%bind_ok. apply bind_ok in H as ([] & Hc & H). apply check_fields_ok in Hc as (HF & Hnd & _).
  pose proof (finds_all c fields fields ∅ (λ f Hf, Hf) (Checking [] ∅)) as Hall.
  destruct (type_all c fields fields (Checking [] ∅)) as [[u|e] s]; [|done]. injection H as <-.
  destruct Hall as (Hs & _ & _ & HQ); [|apply map_empty_subseteq|cbn; lia|].
  - split; cbn; [constructor|constructor|by intros k ?%not_elem_of_nil].
  - split; [done|done|apply Hs|done].
Qed.
Lemma refuse_answered {A} b m (k : unit → result invalid A) : k tt ≠ Err OutOfFuel → (refuse_unless b (Invalid m) ≫= k) ≠ Err OutOfFuel.
Proof. by destruct b. Qed.
Lemma check_fields_answered c l : ∀ keys names, check_fields c l keys names ≠ Err OutOfFuel.
Proof.
  induction l as [|f l IH]; intros keys names; [done|]. cbn [check_fields].
  assert (check_field c f keys names ≠ Err OutOfFuel) as Hf.
  { unfold check_field. destruct (type_of f), (text_prop f "key"), (text_prop f "name"); try done. repeat (apply refuse_answered). done. }
  destruct (check_field c f keys names) as [[? ?]|e]; [apply IH|cbn; congruence].
Qed.
Lemma definitions_answered c fields : validateRecordDefinitions fields c ≠ Err OutOfFuel.
Proof.
  destruct fields as [| | | |l|]; try done. cbn [validateRecordDefinitions]. unfold refuse_unless. destruct (_ <=? 40); [|done].
  cbn. destruct (check_fields c l [] []) as [u|e] eqn:Ec; [|cbn; intros [= ->]; by apply check_fields_answered in Ec]. cbn.
  pose proof (finds_all c l l ∅ (λ f Hf, Hf) (Checking [] ∅)) as Hall. destruct (type_all c l l (Checking [] ∅)) as [[u'|e] s]; [done|].
  intros [= ->]. apply Hall; [|apply map_empty_subseteq|cbn; lia|done]. split; cbn; [constructor|constructor|by intros k ?%not_elem_of_nil].
Qed.
Lemma accepted_keys c fields types : accepted c fields types → NoDup (key_of <$> fields) ∧ Forall (λ f, is_Some (text_prop f "key")) fields.
Proof.
  intros [HF Hnd _ _]. split; [by apply NoDup_fmap_1 in Hnd|]. eapply Forall_impl; [exact HF|]. intros f. apply shaped_key.
Qed.

(** ** Values of a type *)

Definition numeric (v : value) : Prop := ∃ n, v = Number n ∧ is_finite n = true.
(** A field without a value has every type. *)
Definition has_ty (v : value) (t : ty) : Prop :=
  v = Null ∨ match t with
             | NUMBER => numeric v
             | BOOLEAN => ∃ b, v = Boolean b
             | TEXT => ∃ s, v = Text s ∧ size s ≤ 2048
             | DATE => validDate v = true
             | LIST => ∃ l, v = Array l
             | _ => True
             end.
(** A result: a value of the type, or an error with a code in [P]. *)
Definition well (P : code → Prop) (t : ty) (r : answer value) : Prop :=
  match r with Ok v => has_ty v t | Err (Calculation e) => P e | Err _ => False end.
Lemma well_impl (P Q : code → Prop) t r : (∀ e, P e → Q e) → well P t r → well Q t r.
Proof. intros HPQ. destruct r as [v|[e| |]]; cbn; auto. Qed.
(** The errors of operators. *)
Definition arithmetic : list code := [NON_FINITE; TEXT_LIMIT; DIVISION_BY_ZERO; ROUND_PRECISION].
Ltac reported := cbn; unfold arithmetic; set_solver.
Lemma finite_well n : well (.∈ arithmetic) NUMBER (finite n).
Proof. unfold finite. destruct (is_finite n) eqn:E; [|reported]. right. by exists n. Qed.
Lemma all_of_ok {A} (f : value → option A) (P : A → Prop) l :
  Forall (λ v, ∃ a, f v = Some a ∧ P a) l → ∃ l', all_of f l = Ok l' ∧ Forall P l' ∧ length l' = length l.
Proof.
  induction 1 as [|v l (a & Ha & HP) _ (l' & IH & HF & Hl)]; [by exists []|]. exists (a :: l'). cbn. rewrite Ha, IH. cbn. rewrite Hl. split_and!; [done|by constructor|done].
Qed.
Lemma round_well x places : well (.∈ arithmetic) NUMBER (round_to x places).
Proof.
  unfold round_to. destruct (_ || _); [reported|]. pose proof (finite_well (mul x (power_of_ten places))) as H.
  destruct (finite (mul x (power_of_ten places))) as [v|e]; [apply finite_well|exact H].
Qed.
Lemma digits_bound l : ∀ n z, foldl (λ n c, match n with
    | Some z => if digit (Ascii.nat_of_ascii c) then Some (10 * z + Z.of_nat (Ascii.nat_of_ascii c) - 48) else None
    | None => None end) n l = Some z → ∃ k, n = Some k ∧ 10 ^ Z.of_nat (length l) * k ≤ z < 10 ^ Z.of_nat (length l) * (k + 1).
Proof.
  induction l as [|c l IH]; intros n z H; [exists z; cbn in H; split; [done|cbn; lia]|]. cbn in H. apply IH in H as (k & Hk & Hb).
  destruct n as [n|]; [|done]. destruct (digit _) eqn:Ed; [|done]. injection Hk as <-. unfold digit in Ed. apply andb_true_iff' in Ed as [E1%Nat.leb_le E2%Nat.leb_le].
  exists n. split; [done|]. cbn [length]. rewrite Nat2Z.inj_succ, Z.pow_succ_r by lia. pose proof (Z.pow_pos_nonneg 10 (Z.of_nat (length l))) as Hp. nia.
Qed.
Lemma parse_day_bounds s d : parse_day s = Some d → Z.abs (86400000 * d) ≤ 2 ^ 52.
Proof.
  unfold parse_day. destruct (String.list_ascii_of_string s) as [|y1 [|y2 [|y3 [|y4 [|s1 [|m1 [|m2 [|s2 [|d1 [|d2 []]]]]]]]]]]; try done.
  destruct (digits [y1; y2; y3; y4]) as [y|] eqn:Ey; [|done]. destruct (digits [m1; m2]) as [m|]; [|done]. destruct (digits [d1; d2]) as [n|]; [|done].
  destruct (_ && _) eqn:E; [|done]. intros [= <-]. bool_simplify. unfold digits in Ey. apply digits_bound in Ey as (k & [= <-] & Hb). cbn [length] in Hb.
  change (10 ^ Z.of_nat 4) with 10000 in Hb.
  assert (month_start (12 * y + m - 1) = DayFromYear y + days_before_in (leap y) (m - 1)) as ->.
  { rewrite <-month_start_in by lia. f_equal. lia. }
  pose proof (year_bounds y). assert (0 ≤ days_before_in (leap y) (m - 1) ≤ 366).
  { assert (m - 1 = 0 ∨ m - 1 = 1 ∨ m - 1 = 2 ∨ m - 1 = 3 ∨ m - 1 = 4 ∨ m - 1 = 5 ∨ m - 1 = 6 ∨ m - 1 = 7 ∨ m - 1 = 8 ∨ m - 1 = 9 ∨ m - 1 = 10 ∨ m - 1 = 11) as Hm by lia.
    destruct (leap y); repeat (destruct Hm as [->|Hm]; [by vm_compute|]); rewrite Hm; by vm_compute. }
  pose proof (month_length_bounds (12 * y + m - 1)). change (2 ^ 52) with 4503599627370496. lia.
Qed.
(** Days between two dates are a number: no rounding leaves the finite range. *)
Lemma days_well a b : Z.abs (86400000 * a) ≤ 2 ^ 52 → Z.abs (86400000 * b) ≤ 2 ^ 52 →
  is_finite (div (sub (date_parse b) (date_parse a)) (of_Z 86400000)) = true.
Proof.
  intros Ha Hb. assert (2 ^ 53 = 2 * 2 ^ 52) as E53 by done. unfold date_parse.
  destruct (of_Z_spec (86400000 * a)) as [Fa Va]; [lia|]. destruct (of_Z_spec (86400000 * b)) as [Fb Vb]; [lia|].
  destruct (of_Z_spec 86400000) as [Fd Vd]; [by vm_compute|]. pose proof one_pos as Hone.
  destruct (sub_spec _ _ Fb Fa) as (r & Hr & Hp). rewrite Va, Vb, <-Z.mul_sub_distr_r, Z.abs_mul, (Z.abs_eq one) in Hr by lia.
  set (k := Z.abs (86400000 * b - 86400000 * a)) in *. assert (0 ≤ k ≤ 2 ^ 53) as Hk by lia.
  assert (r = k * one) as ->.
  { eapply rounds_exact; [|exact Hr| |]; [lia| |lia]. apply representable_shift; [lia|]. by apply representable_int. }
  assert (k * one < 2 ^ 2098) as Hlt.
  { unfold one. replace 2098 with (1024 + 1074) by done. rewrite (Z.pow_add_r 2 1024) by lia.
    apply Z.mul_lt_mono_pos_r; [apply one_pos|]. eapply Z.le_lt_trans; [apply Hk|]. by apply Z.pow_lt_mono_r. }
  destruct (packed_fin _ _ _ Hp Hlt) as [Fs Vs]. destruct (div_spec _ _ Fs Fd) as (q & Hq & Hpq); [rewrite Vd; lia|].
  rewrite Vd in Hq. assert (Z.abs (val (sub (of_Z (86400000 * b)) (of_Z (86400000 * a)))) = k * one) as Ev.
  { rewrite Vs. destruct (_ <? 0); lia. }
  rewrite Ev in Hq. assert (q ≤ k * one) as Hle.
  { eapply rounds_le; [|exact Hq| |]; [lia|apply representable_shift; [lia|]; by apply representable_int|].
    clearbody k. clear -Hk Hone. revert Hone. generalize one as o. intros o Ho. assert (0 ≤ k * o) by nia. nia. }
  by destruct (packed_fin _ _ _ Hpq ltac:(lia)) as [[? _] _].
Qed.

(** ** Operators *)

Definition bounds (o : op) : nat * nat :=
  match o with
  | Add | Multiply | And | Or | Concat | Coalesce => (2, 8)
  | Subtract | Divide | Equal | Greater | Less | DaysBetween => (2, 2)
  | Round => (1, 2)
  | Not => (1, 1)
  | If => (3, 3)
  end%nat.
Lemma named_bounds s o m : named s arities = Some (o, m) → m = bounds o.
Proof.
  unfold named. destruct s as [s|]; [|done]. cbn. repeat (case_bool_decide; [intros [= <- <-]; done|]). done.
Qed.
Lemma forallb_Forall {A} (P : A → bool) l : forallb P l = true → Forall (λ a, P a = true) l.
Proof. induction l as [|a l IH]; [constructor|]. cbn. intros [? ?]%andb_true_iff'. constructor; auto. Qed.
(** Operands that are there and have one type. *)
Lemma operands vs ts t :
  Forall2 has_ty vs ts → existsb is_null vs = false → Forall (λ a, a = t) ts → Forall (λ v, has_ty v t ∧ v ≠ Null) vs.
Proof.
  induction 1 as [|v t' vs ts Hv _ IH]; [constructor|]. cbn. intros [Hn Hns]%orb_false_iff' HF. apply Forall_cons in HF as [-> HF].
  constructor; [|by apply IH]. split; [done|]. by intros ->.
Qed.
Lemma numbers vs : Forall (λ v, has_ty v NUMBER ∧ v ≠ Null) vs → Forall (λ v, ∃ n, number_of v = Some n ∧ is_finite n = true) vs.
Proof. intros HF. eapply Forall_impl; [exact HF|]. intros v [[->|(n & -> & Hn)] Hv]; [done|by exists n]. Qed.
Lemma booleans vs : Forall (λ v, has_ty v BOOLEAN ∧ v ≠ Null) vs → Forall (λ v, ∃ b, boolean_of v = Some b ∧ True) vs.
Proof. intros HF. eapply Forall_impl; [exact HF|]. intros v [[->|[b ->]] Hv]; [done|by exists b]. Qed.
Lemma texts vs : Forall (λ v, has_ty v TEXT ∧ v ≠ Null) vs → Forall (λ v, ∃ s, text_of v = Some s ∧ True) vs.
Proof. intros HF. eapply Forall_impl; [exact HF|]. intros v [[->|(s & -> & _)] Hv]; [done|by exists s]. Qed.
Lemma dated v : validDate v = true → ∃ s d, v = Text s ∧ parse_day s = Some d ∧ Z.abs (86400000 * d) ≤ 2 ^ 52.
Proof.
  destruct v as [| | |s| |]; try done. cbn. intros [d Hd]%bool_decide_eq_true. exists s, d. split_and!; [done|done|by eapply parse_day_bounds].
Qed.
Lemma dates vs : Forall (λ v, has_ty v DATE ∧ v ≠ Null) vs → Forall (λ v, ∃ d, day_of v = Some d ∧ Z.abs (86400000 * d) ≤ 2 ^ 52) vs.
Proof. intros HF. eapply Forall_impl; [exact HF|]. intros v [[->|Hd] Hv]; [done|]. apply dated in Hd as (s & d & -> & Hp & Hb). by exists d. Qed.
(** Ordered comparison, and equality, of operands of one type. *)
Lemma less_well a b t : t ∈ [NUMBER; DATE] → has_ty a t → a ≠ Null → has_ty b t → b ≠ Null → ∃ r, less_than a b = Ok r.
Proof.
  intros Ht [->|Ha] Hna; [done|]. intros [->|Hb] Hnb; [done|]. apply elem_of_cons in Ht as [->|Ht].
  - destruct Ha as (x & -> & _), Hb as (y & -> & _). cbn. eauto.
  - apply elem_of_cons in Ht as [->|Ht]; [|by apply not_elem_of_nil in Ht].
    apply dated in Ha as (x & ? & -> & _), Hb as (y & ? & -> & _). cbn. eauto.
Qed.
Lemma equal_well a b t : t ∈ [NUMBER; TEXT; BOOLEAN; DATE] → has_ty a t → a ≠ Null → has_ty b t → b ≠ Null → ∃ r, strict_equal a b = Ok r.
Proof.
  intros Ht [->|Ha] Hna; [done|]. intros [->|Hb] Hnb; [done|]. apply elem_of_cons in Ht as [->|Ht].
  - destruct Ha as (x & -> & _), Hb as (y & -> & _). cbn. eauto.
  - apply elem_of_cons in Ht as [->|Ht]; [destruct Ha as (x & -> & _), Hb as (y & -> & _); cbn; eauto|].
    apply elem_of_cons in Ht as [->|Ht]; [destruct Ha as [x ->], Hb as [y ->]; cbn; eauto|].
    apply elem_of_cons in Ht as [->|Ht]; [|by apply not_elem_of_nil in Ht].
    apply dated in Ha as (x & ? & -> & _), Hb as (y & ? & -> & _). cbn. eauto.
Qed.
Lemma pair_of {A} (l : list A) : length l = 2%nat → ∃ a b, l = [a; b].
Proof. destruct l as [|a [|b []]]; try done. eauto. Qed.

(** An operator applied to operands of the types the checker asked for gives a
    value of the type it promised, or one of the errors. *)
Lemma apply_op_well o vs ts t :
  o ≠ If → o ≠ Coalesce → (fst (bounds o) ≤ length vs ≤ snd (bounds o))%nat →
  Forall2 has_ty vs ts → existsb is_null vs = false → result_type o ts = Ok t → well (.∈ arithmetic) t (apply_op o vs).
Proof.
  intros Hi Hc Hl Hv Hn Ht.
  assert (∀ t', forallb (λ a, bool_decide (a = t')) ts = true → Forall (λ v, has_ty v t' ∧ v ≠ Null) vs) as Hall.
  { intros t' H%forallb_Forall. eapply operands; [done..|]. eapply Forall_impl; [exact H|]. intros a Ha. by apply bool_decide_eq_true in Ha. }
  unfold result_type in Ht. destruct o; try done; cbn [bounds fst snd] in Hl;
    match type of Ht with (if ?b then _ else _) = _ => destruct b eqn:Eb; [|done] end; injection Ht as <-.
  all: try (apply Hall, numbers, all_of_ok in Eb as (l & El & HF & Hlen); cbn [apply_op]; rewrite El; cbn [mbind result_bind]).
  all: try (apply finite_well).
  - destruct (pair_of l) as (x & y & ->); [lia|]. apply finite_well.
  - destruct (pair_of l) as (x & y & ->); [lia|]. destruct (eqb y ZERO); [reported|apply finite_well].
  - destruct l as [|x [|y []]]; cbn in Hlen; [lia|apply round_well|apply round_well|lia].
  - apply andb_true_iff' in Eb as [Hs Ht%bool_decide_eq_true]. destruct (pair_of vs) as (x & y & ->); [lia|]. apply Hall in Hs.
    apply Forall_cons in Hs as [[? ?] [[? ?] _]%Forall_cons]. cbn [apply_op]. destruct (equal_well x y _ Ht) as [r ->]; [done..|]. right. by exists r.
  - apply andb_true_iff' in Eb as [Hs Ht%bool_decide_eq_true]. destruct (pair_of vs) as (x & y & ->); [lia|]. apply Hall in Hs.
    apply Forall_cons in Hs as [[? ?] [[? ?] _]%Forall_cons]. cbn [apply_op]. destruct (less_well y x _ Ht) as [r ->]; [done..|]. right. by exists r.
  - apply andb_true_iff' in Eb as [Hs Ht%bool_decide_eq_true]. destruct (pair_of vs) as (x & y & ->); [lia|]. apply Hall in Hs.
    apply Forall_cons in Hs as [[? ?] [[? ?] _]%Forall_cons]. cbn [apply_op]. destruct (less_well x y _ Ht) as [r ->]; [done..|]. right. by exists r.
  - apply Hall, booleans, all_of_ok in Eb as (l & El & _). cbn [apply_op]. rewrite El. right. by eexists.
  - apply Hall, booleans, all_of_ok in Eb as (l & El & _). cbn [apply_op]. rewrite El. right. by eexists.
  - apply Hall in Eb. destruct vs as [|x []]; cbn in Hl; [lia| |lia]. apply Forall_cons in Eb as [[[->|[b ->]] ?] _]; [done|]. right. by eexists.
  - apply Hall, texts, all_of_ok in Eb as (l & El & _). cbn [apply_op]. rewrite El. cbn. unfold boundedText. destruct (_ <? _) eqn:E; [reported|].
    apply Z.ltb_ge in E. right. eexists. split; [done|lia].
  - apply Hall, dates, all_of_ok in Eb as (l & El & HF & Hlen). cbn [apply_op]. rewrite El. destruct (pair_of l) as (x & y & ->); [lia|].
    apply Forall_cons in HF as [Hx [Hy _]%Forall_cons]. right. eexists. split; [done|]. by apply days_well.
Qed.

(** ** A reference semantics

    What an expression means, given what its fields mean: no memory of results,
    no states, and one failure ([None]). *)

Definition value_of {A} (r : answer A) : option A := match r with Ok a => Some a | Err _ => None end.
Fixpoint first_meaning (meaning : value → option value) (args : list value) : option value :=
  match args with
  | [] => Some Null
  | a :: args => match meaning a with Some Null => first_meaning meaning args | r => r end
  end.
Fixpoint meaning (fuel : nat) (get : string → option value) (e : value) : option value :=
  match fuel with
  | O => None
  | S fuel =>
      if own e "literal" then Some (default Null (prop e "literal"))
      else if own e "field" then text_prop e "field" ≫= get
      else
        match named (text_prop e "op") arities, list_prop e "args" with
        | Some (If, _), Some [c; t; f] =>
            match meaning fuel get c with
            | Some Null => Some Null
            | Some (Boolean b) => meaning fuel get (if b then t else f)
            | _ => None
            end
        | Some (Coalesce, _), Some args => first_meaning (meaning fuel get) args
        | Some (o, _), Some args =>
            inputs ← mapM (meaning fuel get) args;
            if existsb is_null inputs then Some Null else value_of (apply_op o inputs)
        | _, _ => None
        end
  end.

Section evaluator.
Context (c : catalog) (fields : list value) (types : gmap string ty) (values : value) (relations : gmap string resolution).
(** What a field means, [n] fields deep. *)
Fixpoint field_meaning (n : nat) (key : string) : option value :=
  match n with
  | O => None
  | S n =>
      match find_key fields key with
      | None => None
      | Some field =>
          match type_of field with
          | Some FORMULA => meaning DEPTHS (field_meaning n) (default Null (prop field "expression"))
          | Some ROLLUP => value_of (rollup c fields values relations field)
          | _ => value_of (input types values field)
          end
      end
  end.
Definition means (key : string) : option value := field_meaning (S (length fields)) key.

(** What an input or a rollup fails with by itself. *)
Definition direct (f : value) : option (answer value) :=
  match type_of f with Some FORMULA => None | Some ROLLUP => Some (rollup c fields values relations f) | _ => Some (input types values f) end.

(** [allowed]: the codes that may be reported. *)
Context (allowed : code → Prop) (Hcalc : ∀ e, e ∈ DEPENDENCY_ERROR :: arithmetic → allowed e) (Hgone : ¬ allowed UNAVAILABLE_FIELD).
Definition admits : Prop := ∀ f e, f ∈ fields → archived f = false → direct f = Some (Err (Calculation e)) → allowed e.
Lemma arithmetic_allowed e : e ∈ arithmetic → allowed e.
Proof. intros He. apply Hcalc. by right. Qed.
Lemma dependency_allowed : allowed DEPENDENCY_ERROR.
Proof. apply Hcalc. left. Qed.

(** What has been remembered is what the fields mean. *)
Definition recalls (s : results) : Prop :=
  ∀ key r, s !! key = Some r → ∃ t, types !! key = Some t ∧
    match o_error r with
    | None => has_ty (o_value r) t ∧ means key = Some (o_value r)
    | Some e => means key = None ∧ o_value r = Null ∧ allowed e
    end.
(** A calculation of type [t] that means [o]: it ends, in a value of the type or
    with an error, as the reference does. *)
Definition calculates (m : calc value) (t : ty) (o : option value) : Prop :=
  ∀ s, recalls s →
  match m s with
  | (Ok v, s') => recalls s' ∧ has_ty v t ∧ o = Some v
  | (Err (Calculation e), s') => recalls s' ∧ o = None ∧ allowed e
  | (Err _, _) => False
  end.
Lemma calculates_ret v t : has_ty v t → calculates (mret v) t (Some v).
Proof. by intros Hv s Hs. Qed.
Lemma calculates_lift r t : well allowed t r → calculates (lift r) t (value_of r).
Proof. intros Hr s Hs. unfold lift. destruct r as [v|[e| |]]; done. Qed.
Lemma calculates_dependency d m t o : calculates m t o → calculates (dependency d m) t o.
Proof.
  intros Hm s Hs. specialize (Hm s Hs). unfold dependency. destruct (m s) as [[v|[e| |]] s']; try done.
  destruct Hm as (? & ? & ?). split_and!; [done..|]. destruct d; [apply dependency_allowed|done].
Qed.
Lemma calculates_bind m k t o t' o' :
  calculates m t o → (∀ v, o = Some v → has_ty v t → calculates (k v) t' (o' v)) → calculates (m ≫= k) t' (o ≫= o').
Proof.
  intros Hm Hk s Hs. specialize (Hm s Hs). unfold mbind at 1, eff_bind at 1. destruct (m s) as [[v|[e| |]] s']; try done.
  - destruct Hm as (Hs' & Hv & ->). cbn. by apply Hk.
  - by destruct Hm as (? & -> & ?).
Qed.
Lemma calculates_first (f : value → calc value) (g : value → option value) args t :
  (∀ a, a ∈ args → calculates (f a) t (g a)) → calculates (first_value f args) t (first_meaning g args).
Proof.
  induction args as [|a args IH]; intros Hf; [apply calculates_ret; by left|]. cbn [first_value first_meaning].
  intros s Hs. specialize (Hf a ltac:(left)) as Ha. specialize (Ha s Hs). unfold mbind, eff_bind. destruct (f a s) as [[v|[e| |]] s']; try done.
  - destruct Ha as (Hs' & Hv & ->). destruct (is_null v) eqn:Ev.
    + destruct v; try done. apply IH; [|done]. intros; apply Hf; by right.
    + by destruct v.
  - destruct Ha as (? & -> & ?). done.
Qed.
Lemma calculates_all (f : value → calc value) (g : value → option value) args ts :
  Forall2 (λ a t, calculates (f a) t (g a)) args ts → ∀ s, recalls s →
  match mapM f args s with
  | (Ok vs, s') => recalls s' ∧ Forall2 has_ty vs ts ∧ mapM g args = Some vs
  | (Err (Calculation e), s') => recalls s' ∧ mapM g args = None ∧ allowed e
  | (Err _, _) => False
  end.
Proof.
  induction 1 as [|a t args ts Ha _ IH]; intros s Hs; [by split_and!; [|constructor|]|]. specialize (Ha s Hs). cbn. unfold mbind, eff_bind.
  destruct (f a s) as [[v|[e| |]] s']; try done; [|destruct Ha as (? & -> & ?); by split_and!]. destruct Ha as (Hs' & Hv & ->).
  specialize (IH s' Hs'). cbn. destruct (mapM f args s') as [[vs|[e| |]] s2]; try done; [|destruct IH as (? & -> & ?); by split_and!].
  destruct IH as (? & ? & ->). cbn. split_and!; [done|by constructor|done].
Qed.

(** ** The evaluator means the same *)

Lemma literal_well v t : literal_type (Some v) = Some t → has_ty v t.
Proof.
  destruct v as [|b|n|s| |]; try done; cbn; [intros [= <-]; right; by exists b| |].
  - destruct (is_finite n) eqn:E; [|done]. intros [= <-]. right. by exists n.
  - destruct (size s <=? 2000) eqn:E; [|done]. intros [= <-]. apply Z.leb_le in E. right. exists s. split; [done|lia].
Qed.
Lemma own_prop e k : own e k = false → prop e k = None.
Proof. unfold own. intros H%bool_decide_eq_false. destruct (prop e k); [exfalso; by apply H|done]. Qed.
Lemma own_text e k s : text_prop e k = Some s → own e k = true.
Proof. unfold text_prop, own. destruct (prop e k) as [v|]; [|done]. intros _. by apply bool_decide_eq_true. Qed.

Lemma calculates_evaluate (get' : string → calc value) (get : string → option value) Γ :
  (∀ key t, Γ !! key = Some t → calculates (get' key) t (get key)) →
  ∀ n e t, typed Γ n e t → calculates (evaluate fields get' n e) t (meaning n get e).
Proof.
  intros Hget n. induction n as [|n IH]; intros e t H; [by inversion H|].
  inversion H as [n0 e0 v t0 Hp Hl|n0 e0 key t0 Ho Hk Ht|n0 e0 o low high args ts t0 H1 H2 Hn Ha Hlen Hts Hr]; subst; cbn [evaluate meaning].
  - assert (own e "literal" = true) as -> by (unfold own; rewrite Hp; by apply bool_decide_eq_true). rewrite Hp. apply calculates_ret. by apply literal_well.
  - rewrite Ho, (own_text _ _ _ Hk), Hk. cbn. apply calculates_dependency. by apply Hget.
  - rewrite H1, H2, Hn, Ha. apply named_bounds in Hn as Hb.
    assert (Forall2 (λ a t, calculates (evaluate fields get' n a) t (meaning n get a)) args ts) as Hargs by (eapply Forall2_impl; [exact Hts|exact IH]).
    assert (o ≠ If → o ≠ Coalesce → calculates (inputs ← mapM (evaluate fields get' n) args; if existsb is_null inputs then mret Null else lift (apply_op o inputs)) t
              (inputs ← mapM (meaning n get) args; if existsb is_null inputs then Some Null else value_of (apply_op o inputs))) as Hstrict.
    { intros Hi Hc s Hs. pose proof (calculates_all _ _ _ _ Hargs s Hs) as Hall. unfold mbind at 1, eff_bind at 1.
      destruct (mapM (evaluate fields get' n) args s) as [[vs|[e'| |]] s']; try done; [|by destruct Hall as (? & -> & ?)]. destruct Hall as (Hs' & Hv & ->). cbn.
      destruct (existsb is_null vs) eqn:En; [split_and!; [done|by left|done]|]. apply calculates_lift; [|done]. eapply well_impl; [apply arithmetic_allowed|]. eapply apply_op_well; [done|done| |done|done|done].
      rewrite (Forall2_length _ _ _ Hv), <-(Forall2_length _ _ _ Hts), <-Hb. done. }
    destruct o; try (by apply Hstrict).
    + injection Hb as -> ->. destruct args as [|a [|b [|d []]]]; cbn in Hlen; try lia. inversion Hargs as [|? t1 ? ? Hc1 Hargs1]; subst.
      inversion Hargs1 as [|? t2 ? ? Hc2 Hargs2]; subst. inversion Hargs2 as [|? t3 ? ? Hc3 Hargs3]; subst. inversion Hargs3; subst. cbn in Hr.
      case_bool_decide as E1; [|done]. case_bool_decide as E2; [|done]. injection Hr as <-. injection E2 as <-. subst t1.
      intros s Hs. pose proof (calculates_bind _ (λ v, match v with Null => mret Null | Boolean b0 => evaluate fields get' n (if b0 then b else d) | _ => throw Stuck end)
        _ _ t2 (λ v, match v with Null => Some Null | Boolean b0 => meaning n get (if b0 then b else d) | _ => None end) Hc1) as Hall.
      specialize (Hall ltac:(intros v _ [->|[[] ->]]; [apply calculates_ret; by left|done|done]) s Hs).
      by destruct (meaning n get a) as [[]|].
    + cbn in Hr. destruct (forallb _ ts) eqn:Es; [|done]. injection Hr as Hr. apply forallb_Forall in Es. apply calculates_first.
      intros a (i & Hi)%list_elem_of_lookup. destruct (Forall2_lookup_l _ _ _ _ _ Hargs Hi) as (t' & Ht' & Hc). rewrite Forall_lookup in Es. specialize (Es i t' Ht').
      apply bool_decide_eq_true in Es. by rewrite <-Hr, <-Es.
Qed.
Lemma meaning_ext Γ (get get' : string → option value) : (∀ key t, Γ !! key = Some t → get key = get' key) →
  ∀ n e t, typed Γ n e t → meaning n get e = meaning n get' e.
Proof.
  intros Hget n. induction n as [|n IH]; intros e t H; [done|].
  inversion H as [n0 e0 v t0 Hp Hl|n0 e0 key t0 Ho Hk Ht|n0 e0 o low high args ts t0 H1 H2 Hn Ha Hlen Hts Hr]; subst; cbn [meaning].
  - assert (own e "literal" = true) as -> by (unfold own; rewrite Hp; by apply bool_decide_eq_true). done.
  - rewrite Ho, (own_text _ _ _ Hk), Hk. cbn. by eapply Hget.
  - rewrite H1, H2, Hn, Ha. assert (∀ a, a ∈ args → meaning n get a = meaning n get' a) as Hall.
    { intros a (i & Hi)%list_elem_of_lookup. destruct (Forall2_lookup_l _ _ _ _ _ Hts Hi) as (t' & _ & Hc). by eapply IH. }
    assert (mapM (meaning n get) args = mapM (meaning n get') args) as Hmap.
    { clear -Hall. induction args as [|a args IHa]; [done|]. cbn. rewrite (Hall a) by left. rewrite IHa; [done|]. intros; apply Hall; by right. }
    assert (first_meaning (meaning n get) args = first_meaning (meaning n get') args) as Hfirst.
    { clear -Hall. induction args as [|a args IHa]; [done|]. cbn. rewrite (Hall a) by left. rewrite IHa; [done|]. intros; apply Hall; by right. }
    destruct o; try (by rewrite Hmap); [|exact Hfirst].
    destruct args as [|a [|b [|d []]]]; try (by rewrite Hmap). rewrite (Hall a) by left. destruct (meaning n get' a) as [[| [] | | | |]|]; try done; apply Hall; set_solver.
Qed.
Lemma field_meaning_stable Γ : built c fields Γ → ∀ key, is_Some (Γ !! key) →
  ∀ n m, (base.size Γ ≤ n)%nat → (base.size Γ ≤ m)%nat → field_meaning n key = field_meaning m key.
Proof.
  induction 1 as [|Γ key field t HB IH Hnone Hf Har Hj]; intros k [t' Hk] n m Hn Hm; [by rewrite lookup_empty in Hk|].
  rewrite map_size_insert_None in Hn, Hm by done. apply lookup_insert_Some in Hk as [[<- _]|[_ Hk]]; [|apply IH; [eauto|lia..]].
  destruct n as [|n], m as [|m]; try lia. cbn [field_meaning]. rewrite Hf. unfold justified in Hj.
  destruct (type_of field) as [[]|]; lazymatch goal with |- meaning _ _ _ = _ => idtac | _ => reflexivity end.
  destruct Hj as [Hty _]. eapply meaning_ext; [|exact Hty]. intros k t0 Hk. apply IH; [eauto|lia..].
Qed.

(** Inputs and rollups. *)
Lemma type_of_stored f : type_of f ≠ Some LIST.
Proof. unfold type_of, named. destruct (text_prop f "type"); [|done]. cbn. by repeat (case_bool_decide; [done|]). Qed.
Lemma input_well f t :
  accepted c fields types → find_key fields (key_of f) = Some f → type_of f = Some t → t ∉ [FORMULA; ROLLUP] → types !! key_of f = Some (scalarType t) →
  well (λ e, e = INVALID_INPUT) (scalarType t) (input types values f).
Proof.
  intros Hacc Hf Ht Hnt Hty. unfold input. rewrite Hty. assert (has_ty Null (scalarType t)) as Hnull by (by left).
  destruct (prop values (key_of f)) as [[| | | | |]|]; try exact Hnull;
    match goal with |- context [input_ok f _ ?v] => destruct (input_ok f (Some (scalarType t)) v) eqn:E; [|done]; cbn; right; revert E; unfold input_ok end.
  all: destruct t; cbn [scalarType]; try done; try (by intros _; eexists); try (intros E; eexists; split; [reflexivity|exact E]); try (by apply type_of_stored in Ht);
    intros [H%Z.leb_le _]%andb_true_iff'; exists s; (split; [done|]); case_bool_decide; lia.
Qed.
Lemma extremum_finite (pick : num → num → num) top l :
  (∀ x y, is_finite x = true → is_finite y = true → is_finite (pick x y) = true) → (∀ y, is_finite y = true → pick top y = y) →
  Forall (λ n, is_finite n = true) l → l ≠ [] → is_finite (fold_left pick l top) = true.
Proof.
  intros Hp Ht HF Hne. destruct l as [|x l]; [done|]. apply Forall_cons in HF as [Hx HF]. cbn. rewrite Ht by done. clear Hne. revert x Hx.
  induction HF as [|y l Hy _ IH]; intros x Hx; [done|]. cbn. apply IH. by apply Hp.
Qed.
Lemma min_finite x y : is_finite x = true → is_finite y = true → is_finite (min x y) = true.
Proof. intros Hx Hy. destruct x, y; try done; unfold min; repeat case_match; done. Qed.
Lemma max_finite x y : is_finite x = true → is_finite y = true → is_finite (max x y) = true.
Proof. intros Hx Hy. destruct x, y; try done; unfold max; repeat case_match; done. Qed.
Lemma aggregated_well aggregate inputs :
  (bool_decide (aggregate = Some "UNIQUE") = false → Forall numeric inputs) →
  well (.∈ arithmetic) (if bool_decide (aggregate = Some "UNIQUE") then LIST else NUMBER) (aggregated aggregate inputs).
Proof.
  unfold aggregated. destruct (bool_decide (aggregate = Some "UNIQUE")); [intros _; right; by eexists|]. intros HF. specialize (HF eq_refl).
  destruct (length inputs =? 0)%nat eqn:El; [destruct (bool_decide _); [right; by exists ZERO|by left]|]. apply Nat.eqb_neq in El.
  destruct (all_of_ok number_of (λ n, is_finite n = true) inputs) as (l & -> & Hl & Hlen).
  { eapply Forall_impl; [exact HF|]. intros v (n & -> & Hn). by exists n. }
  cbn. assert (l ≠ []) as Hne by (by intros ->). destruct (bool_decide (aggregate = Some "SUM")); [apply finite_well|].
  destruct (bool_decide (aggregate = Some "AVERAGE")); [apply finite_well|]. destruct (bool_decide (aggregate = Some "MIN")); right; eexists; (split; [done|]).
  - apply extremum_finite; [apply min_finite|by intros []|done|done].
  - apply extremum_finite; [apply max_finite|by intros []|done|done].
Qed.
Lemma nothing_well aggregate : has_ty (nothing_selected aggregate) (if bool_decide (aggregate = Some "UNIQUE") then LIST else NUMBER).
Proof. unfold nothing_selected. destruct (bool_decide (aggregate = Some "UNIQUE")); [right; by eexists|]. destruct (bool_decide _); [right; by exists ZERO|by left]. Qed.

(** Collections do not have two fields with one key. *)
Definition distinct_fields : Prop := ∀ id l, c !! id = Some (Array l) → NoDup (omap (λ f, text_prop f "key") l).
Lemma find_distinct l key p f :
  NoDup (omap (λ f, text_prop f "key") l) → List.find (λ f, bool_decide (text_prop f "key" = Some key) && p f) l = Some f →
  List.find (λ f, bool_decide (text_prop f "key" = Some key) && true) l = Some f.
Proof.
  induction l as [|g l IH]; [done|]. cbn. intros Hnd. destruct (bool_decide (text_prop g "key" = Some key)) eqn:E; cbn.
  - apply bool_decide_eq_true in E. rewrite E in Hnd. apply NoDup_cons in Hnd as [Hni _]. destruct (p g); [done|].
    intros [Hin H]%find_some. apply andb_true_iff' in H as [H%bool_decide_eq_true _]. exfalso. apply Hni, list_elem_of_omap. exists f. split; [by apply list_elem_of_In|done].
  - apply IH. destruct (text_prop g "key"); [by apply NoDup_cons in Hnd as [_ ?]|done].
Qed.
Lemma catalog_field_distinct id key p f : distinct_fields → catalog_field c id key p = Some f → catalog_field c id key (λ _, true) = Some f.
Proof.
  intros Hd. unfold catalog_field. destruct id as [id|], key as [key|]; try done. destruct (c !! id) as [[| | | |l|]|] eqn:E; try done.
  apply find_distinct. by apply (Hd id).
Qed.
Lemma related_numeric target v : type_of target = Some NUMBER → related_ok target v = true → numeric v.
Proof. unfold related_ok. intros ->. cbn. destruct v; try done. intros H. by eexists. Qed.
Lemma selected_few v ids : selected_ids v = Some ids → Z.of_nat (length ids) ≤ 100.
Proof.
  destruct v as [[| | | |l|]|]; try done; try (by intros [= <-]). cbn. destruct (_ && _) eqn:E; [|done]. intros [= <-]. bool_simplify.
  match goal with H : (_ =? _)%nat = true |- _ => apply Nat.eqb_eq in H; lia end.
Qed.
Lemma rollup_well f t : distinct_fields → rollup_type c fields f = Ok t → well (.∈ [INVALID_RELATION; INCOMPLETE_RELATION; INVALID_RELATED_INPUT] ++ arithmetic) t (rollup c fields values relations f).
Proof.
  intros Hd. unfold rollup_type, rollup. destruct (text_prop f "relationKey") as [rk|]; [|done]. cbn [option_bind mbind default].
  change (id rk) with rk.
  destruct (find_key fields rk) as [relation|]; [|done]. destruct (text_prop f "aggregate") as [aggregate|]; [|done]. cbn [option_bind]. destruct (_ || _); [done|].
  intros Ht. assert (t = if bool_decide (Some aggregate = Some "UNIQUE") then LIST else NUMBER) as ->.
  { revert Ht. destruct (bool_decide (aggregate = "COUNT")) eqn:Ec; [apply bool_decide_eq_true in Ec as ->; destruct (own f "targetKey"); [done|]; by intros [= <-]|].
    destruct (catalog_field _ _ _ _) as [target|]; [|done]. destruct (type_of target) as [t0|]; [|done]. destruct (negb _); [done|].
    repeat case_bool_decide; intros E; first [congruence|by injection E as <-]. }
  destruct (selected_ids (prop values rk)) as [[|id ids]|] eqn:Es; [apply nothing_well| |reported]. destruct (relations !! rk) as [r|]; [|reported].
  destruct (negb (resolved_ok _ r)) eqn:Er; [reported|]. apply negb_false_iff' in Er. destruct (bool_decide (Some aggregate = Some "COUNT")) eqn:Ec.
  - apply bool_decide_eq_true in Ec as [= ->]. right. eexists. split; [done|]. unfold resolved_ok in Er. bool_simplify.
    apply selected_few in Es. match goal with H : (_ =? _)%nat = true |- _ => apply Nat.eqb_eq in H; rewrite H end.
    apply of_Z_spec. change (2 ^ 53) with 9007199254740992. cbn [length] in Es. lia.
  - rewrite (bool_decide_eq_false_2 (aggregate = "COUNT")) in Ht by (intros ->; done).
    destruct (catalog_field c (text_prop relation "collectionId") (text_prop f "targetKey") (λ f0, negb (archived f0))) as [target|] eqn:Et; [|done].
    apply (catalog_field_distinct _ _ _ _ Hd) in Et. cbn [mbind option_bind]; rewrite Et. destruct (type_of target) as [t0|] eqn:Ety; [|done]. destruct (negb _); [done|].
    destruct (negb (forallb _ _)) eqn:Eok; [reported|]. apply negb_false_iff', forallb_Forall in Eok.
    eapply well_impl; [|apply aggregated_well]; [set_solver|]. intros Eu.
    rewrite (bool_decide_eq_false_2 (aggregate = "UNIQUE")) in Ht by (intros ->; by apply bool_decide_eq_false in Eu). destruct (bool_decide (t0 = NUMBER)) eqn:En; [|done]. apply bool_decide_eq_true in En as ->.
    eapply Forall_impl; [exact Eok|]. intros v. by apply related_numeric.
Qed.

#[local] Opaque meaning rollup input evaluate.
Lemma calculates_remember key m t : calculates m t (means key) → types !! key = Some t → calculates (remember key m) t (means key).
Proof.
  intros Hm Ht s Hs. specialize (Hm s Hs). unfold remember. destruct (m s) as [[v|[e| |]] s']; try done.
  - destruct Hm as (Hs' & Hv & Ho). split_and!; [|done|done]. intros k r [[<- <-]|[_ Hk]]%lookup_insert_Some; [|by apply Hs']. exists t. by split_and!.
  - destruct Hm as (Hs' & Ho & He). split_and!; [|done|done]. intros k r [[<- <-]|[_ Hk]]%lookup_insert_Some; [|by apply Hs']. exists t. by split_and!.
Qed.
Lemma computed_calculates Γ :
  admits → distinct_fields → accepted c fields types → built c fields Γ → Γ ⊆ types →
  ∀ n key t, Γ !! key = Some t → (base.size Γ ≤ n)%nat → calculates (computed c types fields values relations n key) t (means key).
Proof.
  intros Hadm Hd Hacc HB. induction HB as [|Γ key field t HB IH Hnone Hf Har Hj]; intros Hsub n k t' Hk Hn; [by rewrite lookup_empty in Hk|].
  assert (Γ ⊆ types) as HΓ by (etrans; [|exact Hsub]; by apply insert_subseteq). specialize (IH HΓ).
  assert (types !! key = Some t) as Hty by (eapply lookup_weaken; [apply lookup_insert_eq|exact Hsub]).
  assert (built c fields (<[key := t]> Γ)) as HB1 by (by eapply built_field).
  pose proof (built_size _ _ _ HB1) as Hsize. rewrite map_size_insert_None in Hn, Hsize by done.
  apply lookup_insert_Some in Hk as [[<- <-]|[_ Hk]]; [|by apply IH; [|lia]]. destruct n as [|n]; [lia|]. cbn [computed].
  intros s Hs. unfold gets. unfold mbind at 1, eff_bind at 1. destruct (s !! key) as [r|] eqn:Er.
  { destruct (Hs key r Er) as (t1 & Ht1 & Hr). rewrite Hty in Ht1. injection Ht1 as <-. destruct (o_error r); [destruct Hr as (? & ? & ?); split_and!; [done|done|apply dependency_allowed]|by destruct Hr]. }
  rewrite Hf, Har. revert s Hs Er. intros s Hs _. revert s Hs. apply calculates_remember; [|done].
  destruct (find_field_Some _ _ _ Hf) as [Hin Hkey]. pose proof (key_of_text _ _ Hkey) as Hkey'.
  assert (shaped c field) as Hshape by (destruct Hacc as [HF _ _ _]; rewrite Forall_forall in HF; by apply HF).
  destruct (shaped_type _ _ Hshape) as [ft Hft]. unfold means. cbn [field_meaning]. rewrite Hf, Hft. unfold justified in Hj. rewrite Hft in Hj.
  assert (∀ P r, direct field = Some r → well P t r → well allowed t r) as Hdirect.
  { intros P r Hr Hw. destruct r as [v|[e| |]]; [exact Hw| |done..]. by apply (Hadm field e). }
  assert (ft ≠ FORMULA → ft ≠ ROLLUP → t = scalarType ft → calculates (lift (input types values field)) t (value_of (input types values field))) as Hinput.
  { intros H1 H2 ->. apply calculates_lift. apply Hdirect with (P := λ e, e = INVALID_INPUT); [unfold direct; rewrite Hft; by destruct ft|]. eapply input_well; [done| |done| |]; rewrite ?Hkey'; [done| |done].
    intros Hi. apply elem_of_cons in Hi as [?|Hi]; [done|]. apply elem_of_cons in Hi as [?|Hi]; [done|]. by apply not_elem_of_nil in Hi. }
  destruct ft; try (by apply Hinput).
  - destruct Hj as [Htyped _]. erewrite meaning_ext; [|intros k t0 Hk|exact Htyped].
    + eapply calculates_evaluate; [|exact Htyped]. intros k t0 Hk. apply IH; [exact Hk|lia].
    + symmetry. eapply field_meaning_stable; [exact HB|by eexists|lia..].
  - apply calculates_lift. eapply Hdirect; [unfold direct; by rewrite Hft|]. by apply rollup_well.
Qed.
(** Every field that is wanted has its outcome in the end. *)
Definition outcome_of (key : string) (r : outcome) : Prop :=
  o_value r = default Null (means key) ∧ (o_error r = None ↔ is_Some (means key)) ∧ (∀ e, o_error r = Some e → allowed e).
Lemma recalls_outcome s key r t : recalls s → types !! key = Some t → s !! key = Some r → outcome_of key r ∧ has_ty (o_value r) t.
Proof.
  intros Hs Ht Hr. destruct (Hs key r Hr) as (t' & Ht' & H). rewrite Ht in Ht'. injection Ht' as <-. unfold outcome_of. destruct (o_error r) as [e|].
  - destruct H as (Ho & Hv & He). rewrite Ho, Hv. split; [|by left]. split_and!; [done| |by intros e' [= <-]]. split; [done|by intros []].
  - destruct H as (Hv & Ho). rewrite Ho. by split_and!.
Qed.
(** What is remembered stays remembered. *)
Definition grows {A} (m : calc A) : Prop := ∀ s key, is_Some (s !! key) → is_Some ((m s).2 !! key).
Lemma grows_ret {A} (a : A) : grows (mret a).
Proof. by intros s key. Qed.
Lemma grows_throw {A} e : grows (A := A) (throw e).
Proof. by intros s key. Qed.
Lemma grows_bind {A B} (m : calc A) (k : A → calc B) : grows m → (∀ a, grows (k a)) → grows (m ≫= k).
Proof.
  intros Hm Hk s key Hs. specialize (Hm s key Hs). unfold mbind, eff_bind. destruct (m s) as [[a|e] s']; [|done]. by apply Hk.
Qed.
Lemma grows_mapM (f : value → calc value) l : (∀ a, grows (f a)) → grows (mapM f l).
Proof.
  intros Hf. induction l as [|a l IH]; [apply grows_ret|]. apply grows_bind; [apply Hf|]. intros v. apply grows_bind; [exact IH|]. intros vs. apply grows_ret.
Qed.
Lemma grows_first f l : (∀ a, grows (f a)) → grows (first_value f l).
Proof.
  intros Hf. induction l as [|a l IH]; [apply grows_ret|]. apply grows_bind; [apply Hf|]. intros v. destruct (is_null v); [exact IH|apply grows_ret].
Qed.
Lemma grows_dependency d m : grows m → grows (dependency d m).
Proof. intros Hm s key Hs. specialize (Hm s key Hs). unfold dependency. by destruct (m s) as [[v|[e| |]] s']. Qed.
Lemma grows_remember key m : grows m → grows (remember key m).
Proof.
  intros Hm s k Hs. specialize (Hm s k Hs). unfold remember. destruct (m s) as [[v|[e| |]] s']; try done; cbn; destruct (decide (key = k)) as [<-|];
    rewrite ?lookup_insert_eq, ?lookup_insert_ne by done; by eauto.
Qed.
#[local] Transparent evaluate.
Lemma grows_evaluate (get : string → calc value) n : (∀ key, grows (get key)) → ∀ e, grows (evaluate fields get n e).
Proof.
  intros Hget. induction n as [|n IH]; intros e; [apply grows_throw|]. cbn [evaluate]. destruct (own e "literal"); [apply grows_ret|].
  assert (∀ o args, grows (inputs ← mapM (evaluate fields get n) args; if existsb is_null inputs then mret Null else lift (apply_op o inputs))) as Hstrict.
  { intros o args. apply grows_bind; [by apply grows_mapM|]. intros vs. destruct (existsb is_null vs); [apply grows_ret|by intros s key]. }
  destruct (own e "field"); [destruct (text_prop e "field"); [apply grows_dependency, Hget|apply grows_throw]|].
  destruct (named _ arities) as [[o m]|]; [|apply grows_throw]. destruct (list_prop e "args") as [args|]; [|by destruct o; try apply grows_throw].
  destruct o; try apply Hstrict; [|by apply grows_first]. destruct args as [|a [|b [|d []]]]; try apply Hstrict. apply grows_bind; [apply IH|].
  intros [| [] | | | |]; first [apply grows_ret|apply grows_throw|apply IH].
Qed.
#[local] Opaque evaluate.
Lemma grows_computed n : ∀ key, grows (computed c types fields values relations n key).
Proof.
  induction n as [|n IH]; intros key; [apply grows_throw|]. cbn [computed]. apply grows_bind; [by intros s k|]. intros [r|].
  - destruct (o_error r); [apply grows_throw|apply grows_ret].
  - destruct (find_key fields key) as [field|]; [|apply grows_throw]. destruct (archived field); [apply grows_throw|]. apply grows_remember.
    destruct (type_of field) as [[]|]; first [by apply grows_evaluate|by intros s k].
Qed.
Lemma computed_leaves n key s : match computed c types fields values relations n key s with
  | (Ok _, s') => is_Some (s' !! key)
  | (Err (Calculation e), s') => e = UNAVAILABLE_FIELD ∨ is_Some (s' !! key)
  | _ => True
  end.
Proof.
  destruct n as [|n]; [done|]. cbn [computed]. unfold gets. unfold mbind at 1, eff_bind at 1. destruct (s !! key) as [r|] eqn:Er.
  { destruct (o_error r); cbn; rewrite Er; [right|]; by eexists. }
  destruct (find_key fields key) as [field|]; [|by left]. destruct (archived field); [by left|].
  match goal with |- context [remember key ?m s] => generalize m as m0 end. intros m. unfold remember.
  destruct (m s) as [[v|[e| |]] s']; try done; [|right]; rewrite lookup_insert_eq; by eexists.
Qed.
Lemma compute_all_runs l : admits → distinct_fields → accepted c fields types → (∀ f, f ∈ l → is_Some (types !! key_of f)) → ∀ s, recalls s →
  ∃ s', compute_all c types fields values relations l s = (Ok tt, s') ∧ recalls s' ∧ (∀ key, is_Some (s !! key) → is_Some (s' !! key)) ∧
    ∀ f, f ∈ l → is_Some (s' !! key_of f).
Proof.
  intros Hadm Hd Hacc. induction l as [|f l IH]; intros Hl s Hs; [exists s; split_and!; [done..|by intros f ?%not_elem_of_nil]|].
  destruct (Hl f ltac:(left)) as [t Ht]. pose proof (built_size _ _ _ (accepted_built _ _ _ Hacc)) as Hsize.
  pose proof (computed_calculates types Hadm Hd Hacc (accepted_built _ _ _ Hacc) (reflexivity _) (S (length fields)) (key_of f) t Ht ltac:(lia) s Hs) as Hc.
  pose proof (grows_computed (S (length fields)) (key_of f) s) as Hg. pose proof (computed_leaves (S (length fields)) (key_of f) s) as Hlv.
  cbn [compute_all]. unfold mbind at 1, eff_bind at 1. destruct (computed c types fields values relations (S (length fields)) (key_of f) s) as [[v|[e| |]] s1]; try done.
  - destruct Hc as (Hs1 & _). destruct (IH (λ g Hg, Hl g ltac:(by right)) s1 Hs1) as (s' & -> & Hs' & Hk & Hall). exists s'. split_and!; [done|done|eauto|].
    intros g [->|Hin]%elem_of_cons; [|by apply Hall]. by apply Hk.
  - destruct Hc as (Hs1 & _ & He). destruct Hlv as [->|Hlv]; [done|]. destruct (IH (λ g Hg, Hl g ltac:(by right)) s1 Hs1) as (s' & -> & Hs' & Hk & Hall).
    exists s'. split_and!; [done|done|eauto|]. intros g [->|Hin]%elem_of_cons; [|by apply Hall]. by apply Hk.
Qed.
End evaluator.

Lemma wanted_spec fields f : f ∈ wanted fields ↔ f ∈ fields ∧ archived f = false ∧ type_of f ∈ [Some FORMULA; Some ROLLUP].
Proof. unfold wanted. rewrite list_elem_of_In, filter_In, <-list_elem_of_In, andb_true_iff', negb_true_iff', bool_decide_eq_true. tauto. Qed.

(** A calculation that goes through: an outcome for every field that is wanted. *)
Lemma calculation_runs c fields types values relations (allowed : code → Prop) :
  (∀ e, e ∈ DEPENDENCY_ERROR :: arithmetic → allowed e) → ¬ allowed UNAVAILABLE_FIELD → admits c fields types values relations allowed →
  distinct_fields c → validateRecordDefinitions (Array fields) c = Ok types → object values = true →
  ∃ out, calculateRecordFields (Array fields) values relations c = Ok out ∧ out.*1 = key_of <$> wanted fields ∧
  ∀ key r t, (key, (r, t)) ∈ out → types !! key = Some t ∧ has_ty (o_value r) t ∧ outcome_of c fields types values relations allowed key r.
Proof.
  intros Hcalc Hgone Hadm Hd Hv Ho. apply definitions_ok in Hv as Hacc. unfold calculateRecordFields. rewrite Hv, Ho. cbn [negb].
  assert (∀ f, f ∈ wanted fields → is_Some (types !! key_of f)) as Hw by (intros f (Hf & Ha & _)%wanted_spec; by apply (accepted_active _ _ _ Hacc)).
  destruct (compute_all_runs c fields types values relations allowed Hcalc Hgone (wanted fields) Hadm Hd Hacc Hw ∅) as (s & -> & Hs & _ & Hall).
  { intros key r. by rewrite lookup_empty. }
  eexists. split; [done|]. split; [by rewrite <-list_fmap_compose|]. intros key r t (f & [= -> -> ->] & Hin)%list_elem_of_fmap.
  destruct (Hw f Hin) as [t Ht], (Hall f Hin) as [r Hr]. rewrite Ht, Hr. cbn. by destruct (recalls_outcome _ _ _ _ _ _ _ _ _ _ Hs Ht Hr).
Qed.
(** Whatever is calculated, a field that is not there is never met. *)
Definition present (e : code) : Prop := e ≠ UNAVAILABLE_FIELD.
Lemma present_arithmetic e : e ∈ DEPENDENCY_ERROR :: arithmetic → present e.
Proof. unfold arithmetic, present. set_solver. Qed.
Lemma finite_codes n e : finite n = Err (Calculation e) → e = NON_FINITE.
Proof. unfold finite. destruct (is_finite n); [done|]. by intros [= <-]. Qed.
Lemma aggregated_codes aggregate l e : aggregated aggregate l = Err (Calculation e) → e = NON_FINITE.
Proof.
  unfold aggregated. destruct (bool_decide _); [done|]. destruct (_ =? _)%nat; [done|].
  assert (∀ l', all_of number_of l' ≠ Err (Calculation e)) as Hall.
  { intros l'. induction l' as [|v l' IH]; [done|]. cbn. destruct (number_of v); [|done].
    intros [H|(? & _ & H)]%bind_err; [by apply IH|done]. }
  intros [H|(ns & _ & H)]%bind_err; [by apply Hall in H|]. destruct (bool_decide _); [by apply finite_codes in H|].
  destruct (bool_decide _); [by apply finite_codes in H|]. by destruct (bool_decide _).
Qed.
Lemma admits_present c fields types values relations : admits c fields types values relations present.
Proof.
  intros f e _ _. unfold direct.
  assert (Some (input types values f) = Some (Err (Calculation e)) → present e) as Hinput.
  { unfold input, present. intros [= H]. repeat case_match; try discriminate; by injection H as <-. }
  destruct (type_of f) as [[]|]; try exact Hinput; [done|]. unfold rollup, present. intros [= H].
  repeat case_match; try discriminate; try (by injection H as <-). apply aggregated_codes in H. by subst.
Qed.
Lemma calculation_accepted c fields values relations out :
  calculateRecordFields (Array fields) values relations c = Ok out → ∃ types, validateRecordDefinitions (Array fields) c = Ok types ∧ object values = true.
Proof.
  unfold calculateRecordFields. destruct (validateRecordDefinitions (Array fields) c) as [types|e]; [|done]. destruct (object values); [|done]. eauto.
Qed.

(** C11 (type): Type soundness of record formulas. Whatever definitions the checker
    accepts, and whatever values and resolved relations they are calculated from,
    the calculation ends, never applies an operator outside the types of its
    operands, and never meets a field that is not there: every active formula and
    rollup gets a value of the type the checker found (or null), or one of the
    reported errors with no value. *)
Theorem calculation_sound c fields types values relations :
  distinct_fields c → validateRecordDefinitions (Array fields) c = Ok types → object values = true →
  ∃ out, calculateRecordFields (Array fields) values relations c = Ok out ∧ out.*1 = key_of <$> wanted fields ∧
  ∀ key r t, (key, (r, t)) ∈ out →
    types !! key = Some t ∧ has_ty (o_value r) t ∧ (is_Some (o_error r) → o_value r = Null) ∧ o_error r ≠ Some UNAVAILABLE_FIELD.
Proof.
  intros Hd Hv Ho. destruct (calculation_runs c fields types values relations present present_arithmetic ltac:(by intros H) (admits_present _ _ _ _ _) Hd Hv Ho) as (out & Hc & Hk & Hall). exists out. split_and!; [done..|].
  intros key r t Hin. destruct (Hall key r t Hin) as (Ht & Hty & Hval & Herr & Hav). split_and!; [done|done| |intros He; by apply (Hav _ He)]. intros [e He].
  rewrite Hval. destruct (means _ _ _ _ _ key) as [v|]; [|done]. assert (o_error r = None) as Hn by (apply Herr; eauto). congruence.
Qed.

(** C35 (termination): Checking definitions always ends: whatever fields are sent,
    also with cyclic references or formulas of any shape, they are refused with a
    message or accepted; and accepted ones can be put in an order in which each
    formula only refers to active fields before it, with the types it needs. *)
Theorem definitions_checked c fields :
  match validateRecordDefinitions (Array fields) c with
  | Ok types => accepted c fields types
  | Err (Invalid _) => True
  | Err OutOfFuel => False
  end.
Proof.
  destruct (validateRecordDefinitions (Array fields) c) as [types|[m|]] eqn:E; [by apply definitions_ok|done|]. by apply definitions_answered in E.
Qed.

(** ** The order of the fields *)

Lemma typed_unique Γ n : ∀ e t t', typed Γ n e t → typed Γ n e t' → t = t'.
Proof.
  induction n as [|n IH]; intros e t t' H H'; [by inversion H|].
  inversion H as [? ? v ? Hp Hl|? ? key ? Ho Hk Ht|? ? o low high args ts ? H1 H2 Hn Ha Hlen Hts Hr]; subst;
    inversion H' as [? ? v' ? Hp' Hl'|? ? key' ? Ho' Hk' Ht'|? ? o' low' high' args' ts' ? H1' H2' Hn' Ha' Hlen' Hts' Hr']; subst; try congruence;
    try (apply own_prop in Ho; congruence); try (apply own_prop in Ho'; congruence); try (apply own_prop in H1; congruence); try (apply own_prop in H1'; congruence);
    try (apply own_text in Hk; congruence); try (apply own_text in Hk'; congruence).
  rewrite Hn in Hn'. injection Hn' as <- <- <-. rewrite Ha in Ha'. injection Ha' as <-.
  assert (ts = ts') as <-; [|congruence]. clear -IH Hts Hts'. revert ts' Hts'. induction Hts as [|a t args ts Hat _ IHa]; intros ts' Hts'; inversion Hts'; subst; [done|].
  f_equal; [by eapply IH|by apply IHa].
Qed.
Lemma find_key_perm l l' key :
  l ≡ₚ l' → NoDup (key_of <$> l) → Forall (λ f, is_Some (text_prop f "key")) l → find_key l key = find_key l' key.
Proof.
  intros HP Hnd HF. assert (∀ l1 l2, l1 ≡ₚ l2 → NoDup (key_of <$> l1) → Forall (λ f, is_Some (text_prop f "key")) l1 →
    ∀ f, find_key l1 key = Some f → find_key l2 key = Some f) as Hgo.
  { intros l1 l2 HP' Hnd' HF' f (Hf & Hk)%find_field_Some. rewrite <-(key_of_text _ _ Hk). apply find_key_self; [by rewrite <-HP'|by eexists|by rewrite <-HP'|by rewrite <-HP']. }
  destruct (find_key l key) as [f|] eqn:E; [symmetry; by eapply Hgo|]. destruct (find_key l' key) as [f|] eqn:E'; [|done].
  apply (Hgo l' l) in E'; [congruence|done|by rewrite <-HP|by rewrite <-HP].
Qed.
Lemma types_perm c fields fields' types types' :
  fields ≡ₚ fields' → accepted c fields types → accepted c fields' types' → types ⊆ types'.
Proof.
  intros HP Hacc Hacc'. destruct (accepted_keys _ _ _ Hacc) as [Hnd HF]. pose proof (accepted_built _ _ _ Hacc) as HB. revert HB. generalize types as Γ.
  induction 1 as [|Γ key field t HB IH Hnone Hf Har Hj]; [apply map_empty_subseteq|]. apply insert_subseteq_l; [|done].
  destruct (find_field_Some _ _ _ Hf) as [Hin Hk]. rewrite <-(key_of_text _ _ Hk). destruct (accepted_active _ _ _ Hacc' field) as [t' Ht']; [by rewrite <-HP|done|].
  rewrite Ht'. f_equal. pose proof (accepted_built _ _ _ Hacc') as HB'. rewrite (key_of_text _ _ Hk) in Ht'. revert Ht'. assert (types' ⊆ types') as Hsub by done. revert HB' Hsub.
  generalize types' at 1 2 4 as Γ'. induction 1 as [|Γ' key' field' t0 HB' IH' Hnone' Hf' Har' Hj']; intros Hsub; [by rewrite lookup_empty|].
  intros [[-> ->]|[_ H]]%lookup_insert_Some; [|apply IH'; [|done]; etrans; [|exact Hsub]; by apply insert_subseteq].
  rewrite <-(find_key_perm fields fields' key HP Hnd HF), Hf in Hf'. injection Hf' as <-.
  apply (justified_mono _ _ Γ types') in Hj; [|done].
  assert (justified c fields' types' field t') as Hj2 by (eapply justified_mono; [|exact Hj']; etrans; [|exact Hsub]; by apply insert_subseteq).
  unfold justified in Hj, Hj2. destruct (type_of field) as [[]|]; try congruence; [by eapply typed_unique; [apply Hj2|apply Hj]|].
  assert (rollup_type c fields field = rollup_type c fields' field) as Heq; [|congruence].
  unfold rollup_type. destruct (text_prop field "relationKey") as [rk|]; [|done]. cbn. by rewrite (find_key_perm fields fields' rk HP Hnd HF).
Qed.
#[local] Transparent meaning rollup input.
Lemma meaning_pointwise (get get' : string → option value) : (∀ key, get key = get' key) → ∀ n e, meaning n get e = meaning n get' e.
Proof.
  intros Hget n. induction n as [|n IH]; intros e; [done|]. cbn [meaning].
  assert (∀ args, mapM (meaning n get) args = mapM (meaning n get') args) as Hmap by (intros args; apply mapM_ext; done).
  assert (∀ args, first_meaning (meaning n get) args = first_meaning (meaning n get') args) as Hfirst.
  { intros args. induction args as [|a args IHa]; [done|]. cbn. by rewrite IH, IHa. }
  destruct (own e "literal"); [done|]. destruct (own e "field"); [by destruct (text_prop e "field"); cbn|].
  destruct (named _ arities) as [[o m]|]; [|done]. destruct (list_prop e "args") as [args|]; [|done].
  destruct o; try (by rewrite Hmap); [|by rewrite Hfirst]. destruct args as [|a [|b [|d []]]]; try (by rewrite Hmap). rewrite IH.
  destruct (meaning n get' a) as [[| | | | |]|]; try done; apply IH.
Qed.
Lemma field_meaning_perm c fields fields' types values relations n :
  fields ≡ₚ fields' → NoDup (key_of <$> fields) → Forall (λ f, is_Some (text_prop f "key")) fields →
  ∀ key, field_meaning c fields types values relations n key = field_meaning c fields' types values relations n key.
Proof.
  intros HP Hnd HF. induction n as [|n IH]; intros key; [done|]. cbn [field_meaning]. rewrite (find_key_perm fields fields' key HP Hnd HF).
  destruct (find_key fields' key) as [field|]; [|done]. destruct (type_of field) as [[]|];
    lazymatch goal with
    | |- meaning _ _ _ = _ => by apply meaning_pointwise
    | |- value_of (rollup _ _ _ _ _) = _ => unfold rollup; by rewrite (find_key_perm fields fields' _ HP Hnd HF)
    | _ => reflexivity
    end.
Qed.

(** C28 (equivalence): The evaluator, which remembers results and errors and goes
    through the fields in the order of the definitions, computes what the
    definitions mean: every field's value is that of a reference semantics without
    memory or order, and it reports an error exactly where that fails. So listing
    the same fields in another order changes no value and no field from failing to
    not failing. *)
Theorem calculation_meaning c fields fields' values relations out out' :
  distinct_fields c → fields ≡ₚ fields' →
  calculateRecordFields (Array fields) values relations c = Ok out → calculateRecordFields (Array fields') values relations c = Ok out' →
  ∃ types, validateRecordDefinitions (Array fields) c = Ok types ∧
  (∀ key r t, (key, (r, t)) ∈ out → let v := means c fields types values relations key in o_value r = default Null v ∧ (o_error r = None ↔ is_Some v)) ∧
  ∀ key r t r' t', (key, (r, t)) ∈ out → (key, (r', t')) ∈ out' → t = t' ∧ o_value r = o_value r' ∧ (o_error r = None ↔ o_error r' = None).
Proof.
  intros Hd HP Hc Hc'. destruct (calculation_accepted _ _ _ _ _ Hc) as (types & Hv & Ho), (calculation_accepted _ _ _ _ _ Hc') as (types' & Hv' & _).
  destruct (calculation_runs c fields types values relations present present_arithmetic ltac:(by intros H) (admits_present _ _ _ _ _) Hd Hv Ho) as (o1 & Ho1 & _ & Hall),
    (calculation_runs c fields' types' values relations present present_arithmetic ltac:(by intros H) (admits_present _ _ _ _ _) Hd Hv' Ho) as (o2 & Ho2 & _ & Hall').
  rewrite Hc in Ho1. injection Ho1 as <-. rewrite Hc' in Ho2. injection Ho2 as <-. apply definitions_ok in Hv as Hacc. apply definitions_ok in Hv' as Hacc'.
  assert (types = types') as <- by (apply (anti_symm (⊆)); [by eapply types_perm|symmetry in HP; by eapply types_perm]).
  destruct (accepted_keys _ _ _ Hacc) as [Hnd HF]. exists types. split_and!; [done| |].
  - intros key r t Hin. destruct (Hall key r t Hin) as (_ & _ & H1 & H2 & _). done.
  - intros key r t r' t' Hin Hin'. destruct (Hall key r t Hin) as (Ht & _ & H1 & H2 & _), (Hall' key r' t' Hin') as (Ht' & _ & H1' & H2' & _).
    assert (means c fields types values relations key = means c fields' types values relations key) as Em.
    { unfold means. rewrite <-(Permutation_length HP). by apply field_meaning_perm. }
    rewrite Em in H1, H2. split_and!; [congruence|congruence|]. by rewrite H2, H2'.
Qed.

(** ** Examples *)

Definition demo_field (key type : string) (more : list (string * value)) : value :=
  Object ([("key", Text key); ("name", Text key); ("type", Text type)] ++ more).
Definition demo_formula (key : string) (e : value) : value := demo_field key "FORMULA" [("expression", e)].
Definition demo_ref (key : string) : value := Object [("field", Text key)].
Definition demo_literal (z : Z) : value := Object [("literal", Number (of_Z z))].
Definition demo_op (o : string) (args : list value) : value := Object [("op", Text o); ("args", Array args)].
Definition demo_relation : value := demo_field "projects" "RELATION" [("collectionId", Text "p")].
Definition demo_sum : value := demo_field "sum" "ROLLUP" [("relationKey", Text "projects"); ("targetKey", Text "hours"); ("aggregate", Text "SUM")].
Definition demo_catalog : catalog := {["p" := Array [demo_field "hours" "NUMBER" []]]}.
Definition demo_fields : list value :=
  [demo_formula "left" (demo_op "subtract" [demo_ref "budget"; demo_ref "sum"]); demo_field "budget" "NUMBER" []; demo_relation; demo_sum;
   demo_formula "share" (demo_op "divide" [demo_ref "sum"; demo_ref "left"])].
Definition demo_values (budget : value) : value := Object [("budget", budget); ("projects", Array [Text "p1"; Text "p2"])].
Definition demo_relations : gmap string resolution :=
  {["projects" := Resolution true [("p1", Object [("hours", Number (of_Z 10))]); ("p2", Object [("hours", Number (of_Z 30))])]]}.
Definition demo_calculated (fields : list value) (budget : Z) : result rejection computed_fields :=
  calculateRecordFields (Array fields) (demo_values (Number (of_Z budget))) demo_relations demo_catalog.
Example demo_calculation :
  match validateRecordDefinitions (Array demo_fields) demo_catalog with Ok t => t !! "left" | Err _ => None end = Some NUMBER ∧
  demo_calculated demo_fields 120 = Ok [("left", (Outcome (Number (of_Z 80)) None, NUMBER)); ("sum", (Outcome (Number (of_Z 40)) None, NUMBER));
                                        ("share", (Outcome (Number (div (of_Z 1) (of_Z 2))) None, NUMBER))] ∧
  demo_calculated demo_fields 40 = Ok [("left", (Outcome (Number (of_Z 0)) None, NUMBER)); ("sum", (Outcome (Number (of_Z 40)) None, NUMBER));
                                       ("share", (Outcome Null (Some DIVISION_BY_ZERO), NUMBER))].
Proof. split_and!; vm_compute; reflexivity. Qed.
Lemma demo_distinct : distinct_fields demo_catalog.
Proof. intros id l H. unfold demo_catalog in H. apply lookup_singleton_Some in H as [_ [= <-]]. apply NoDup_singleton. Qed.
Definition demo_types : gmap string ty := match validateRecordDefinitions (Array demo_fields) demo_catalog with Ok t => t | Err _ => ∅ end.
Lemma calculation_sound_witness :
  ∃ out, demo_calculated demo_fields 40 = Ok out ∧ out.*1 = ["left"; "sum"; "share"] ∧ ∀ key r t, (key, (r, t)) ∈ out → demo_types !! key = Some t ∧ has_ty (o_value r) t.
Proof.
  destruct (calculation_sound demo_catalog demo_fields demo_types (demo_values (Number (of_Z 40))) demo_relations demo_distinct) as (out & H1 & H2 & H3).
  - vm_compute. reflexivity.
  - reflexivity.
  - exists out. split; [exact H1|]. split; [exact H2|]. intros key r t Hin. destruct (H3 key r t Hin) as (Ha & Hb & _). exact (conj Ha Hb).
Defined.
Lemma calculation_meaning_witness :
  ∃ out out', demo_calculated demo_fields 40 = Ok out ∧ demo_calculated (reverse demo_fields) 40 = Ok out' ∧
  ∀ key r t r' t', (key, (r, t)) ∈ out → (key, (r', t')) ∈ out' → o_value r = o_value r'.
Proof.
  destruct (demo_calculated demo_fields 40) as [out|] eqn:E1; [|vm_compute in E1; discriminate E1].
  destruct (demo_calculated (reverse demo_fields) 40) as [out'|] eqn:E2; [|vm_compute in E2; discriminate E2].
  exists out, out'. split; [reflexivity|]. split; [reflexivity|].
  destruct (calculation_meaning demo_catalog demo_fields (reverse demo_fields) _ _ out out' demo_distinct (symmetry (reverse_Permutation _)) E1 E2) as (types & _ & _ & H).
  intros key r t r' t' Hin Hin'. exact (proj1 (proj2 (H key r t r' t' Hin Hin'))).
Defined.

(** The error a formula reports for an invalid input depends on the order of the
    fields: the first one that meets it says so, the others report a dependency. *)
Definition demo_bad : value := Object [("rate", Text "50")].
Definition demo_first : value := demo_formula "a" (demo_op "add" [demo_ref "rate"; demo_literal 1]).
Definition demo_second : value := demo_formula "b" (demo_op "add" [demo_ref "rate"; demo_literal 2]).
Lemma error_code_depends_on_order :
  let rate := demo_field "rate" "NUMBER" [] in
  let codes fields := match calculateRecordFields (Array fields) demo_bad ∅ ∅ with Ok out => (λ x, (x.1, o_error x.2.1)) <$> out | Err _ => [] end in
  codes [rate; demo_first; demo_second] = [("a", Some INVALID_INPUT); ("b", Some DEPENDENCY_ERROR)] ∧
  codes [rate; demo_second; demo_first] = [("b", Some INVALID_INPUT); ("a", Some DEPENDENCY_ERROR)].
Proof. split; vm_compute; reflexivity. Qed.
End RecordSoundness.
