(* ===== verification/RecordInputs.v ===== *)
(** * What may be stored in a record

    shared/record-inputs.js: the values a field takes, the patch of a record, the
    change of a collection's definitions, and forms.  Proved: what a patch accepts
    is calculated without an invalid input, and a change of definitions keeps the
    values that were stored.  Node's URL parser is a parameter. *)

From S2P Require Import Prelude JsNumber Tenancy AuditLog RecordCalculations RecordSoundness.
Import Tenancy.Tenancy(toLowerCase). Import JsNumber.Js Records RecordSoundness.

Module RecordInputs.

Definition invalid_of {A} (m : string) : result invalid A := Err (Invalid m).
(** [object[key] = v]. *)
Fixpoint put (o : list (string * value)) (key : string) (v : value) : list (string * value) :=
  match o with
  | [] => [(key, v)]
  | x :: o => if bool_decide (x.1 = key) then (key, v) :: o else x :: put o key v
  end.
Definition entries (v : value) : list (string * value) := match v with Object o => o | _ => [] end.

(* src/src/shared/record-inputs.js:6-6 editable *)
Definition editable (field : value) : bool := negb (archived field) && negb (bool_decide (type_of field ∈ [Some FORMULA; Some ROLLUP])).
Definition options_of (field : value) : list string := omap text_of (default [] (list_prop field "options")).
Definition texts_of (l : list value) : option (list string) := mapM text_of l.

Section inputs.
(** [new URL(text)]: its protocol, user name and password, where it parses. *)
Context (parse_url : string → option (string * (string * string))).

(** The switch over the type: what may be stored under a field. *)
(* src/src/shared/record-inputs.js:11-25 validateRecordValue *)
Definition value_ok (field v : value) : bool :=
  match type_of field, v with
  | Some TEXT, Text s => size s <=? 2000
  | Some NUMBER, Number n => is_finite n
  | Some BOOLEAN, Boolean _ => true
  | Some DATE, _ => validDate v
  | Some URL, Text s =>
      (size s <=? 2048) &&
      match parse_url s with
      | Some (protocol, (user, password)) => mem protocol ["http:"; "https:"] && bool_decide (user = "") && bool_decide (password = "")
      | None => false
      end
  | Some SELECT, Text s => mem s (options_of field)
  | Some MULTI_SELECT, Array l =>
      (Z.of_nat (length l) <=? 30) &&
      match texts_of l with Some ts => forallb (λ s, mem s (options_of field)) ts && bool_decide (NoDup ts) | None => false end
  | Some RELATION, Array l =>
      (Z.of_nat (length l) <=? 100) &&
      match texts_of l with Some ids => forallb (λ id, negb (bool_decide (id = "")) && (size id <=? 80)) ids && bool_decide (NoDup ids) | None => false end
  | _, _ => false
  end.
(* src/src/shared/record-inputs.js:8-27 validateRecordValue *)
Definition validateRecordValue (field v : value) : result invalid unit :=
  _ ← refuse_unless (editable field) (Invalid "Computed or archived fields cannot be submitted.");
  if is_null v then Ok tt else refuse_unless (value_ok field v) (Invalid "Invalid value.").

(* src/src/shared/record-inputs.js:29-29 empty *)
Definition empty (v : option value) : bool :=
  match v with
  | None | Some Null => true
  | Some (Text s) => bool_decide (Audit.trim s = "")
  | Some (Array l) => (length l =? 0)%nat
  | Some _ => false
  end.
Fixpoint apply_patch (fields : list value) (patch result_ : list (string * value)) : result invalid (list (string * value)) :=
  match patch with
  | [] => Ok result_
  | (key, v) :: patch =>
      match find_key fields key with
      | None => invalid_of "Unknown record field."
      | Some field => _ ← validateRecordValue field v; apply_patch fields patch (put result_ key v)
      end
  end.
Definition required (field : value) : bool := truthy (prop field "required").
Definition filled (values : value) (field : value) : bool := negb (editable field && required field) || negb (empty (prop values (key_of field))).
(** Every active value, also one that was not touched. *)
Definition current_ok (values : value) (field : value) : bool :=
  negb (editable field) || match prop values (key_of field) with None => true | Some v => is_ok (validateRecordValue field v) end.
(* src/src/shared/record-inputs.js:34-53 recordValuePatch *)
Definition recordValuePatch (fields : list value) (existing patch : value) (c : catalog) : result invalid value :=
  _ ← validateRecordDefinitions (Array fields) c;
  _ ← refuse_unless (object existing && object patch && (Z.of_nat (length (entries patch)) <=? 40)) (Invalid "Invalid record values.");
  o ← apply_patch fields (entries patch) (entries existing);
  _ ← refuse_unless (forallb (filled (Object o)) fields) (Invalid "A field is required.");
  _ ← refuse_unless (forallb (current_ok (Object o)) fields) (Invalid "Invalid value.");
  Ok (Object o).

(** [a !== b] of two optional texts. *)
Definition same_prop (a b : value) (k : string) : bool :=
  match prop a k, prop b k with
  | None, None => true
  | Some (Text x), Some (Text y) => bool_decide (x = y)
  | _, _ => false
  end.
Definition kept (next : list value) (old : value) : result invalid unit :=
  match find_key next (key_of old) with
  | None => invalid_of "Archive fields instead of deleting them."
  | Some current =>
      _ ← refuse_unless (same_prop current old "type" && same_prop current old "collectionId" && same_prop current old "target")
            (Invalid "Existing field types and relation targets cannot change.");
      refuse_unless (forallb (λ s, mem s (options_of current)) (options_of old)) (Invalid "Existing choices must be retained.")
  end.
Fixpoint all_kept (next previous : list value) : result invalid unit :=
  match previous with [] => Ok tt | old :: previous => _ ← kept next old; all_kept next previous end.
(* src/src/shared/record-inputs.js:58-66 validateRecordDefinitionUpdate *)
Definition validateRecordDefinitionUpdate (previous next : list value) (c : catalog) : result invalid unit :=
  _ ← validateRecordDefinitions (Array next) c; all_kept next previous.

(** ** Forms *)

Definition text_within (limit : Z) (v : option value) : bool := match v with None => true | Some (Text s) => size s <=? limit | Some _ => false end.
Definition revision_of (v : option value) : option Z :=
  match v with
  | Some (Number n) => if is_integer n && negb (ltb n ZERO) then Some (Z.shiftl (mant n) (expn n)) else None
  | _ => None
  end.
Definition form_fields (form : value) : list value := default [] (list_prop form "fields").
Definition form_item_ok (item : value) : bool :=
  exact item ["key"; "label"; "help"; "required"; "defaultValue"] && bool_decide (is_Some (text_prop item "key")) &&
  match prop item "label" with None => true | Some (Text s) => label_ok 80 s | Some _ => false end &&
  text_within 500 (prop item "help") && match prop item "required" with Some (Boolean _) => true | _ => false end.
Fixpoint check_items (fields items : list value) : result invalid unit :=
  match items with
  | [] => Ok tt
  | item :: items =>
      _ ← refuse_unless (form_item_ok item) (Invalid "Invalid form field.");
      match find_key fields (key_of item) with
      | Some field =>
          _ ← refuse_unless (editable field) (Invalid "Form fields must be active editable collection fields.");
          _ ← refuse_unless (negb (required field) || required item) (Invalid "Collection required fields must remain required in the form.");
          _ ← match prop item "defaultValue" with Some v => validateRecordValue field v | None => Ok tt end;
          check_items fields items
      | None => invalid_of "Form fields must be active editable collection fields."
      end
  end.
(* src/src/shared/record-inputs.js:72-87 validateRecordForm *)
Definition validateRecordForm (form : value) (fields : list value) (schemaRevision : Z) (c : catalog) : result invalid unit :=
  _ ← validateRecordDefinitions (Array fields) c;
  _ ← refuse_unless (exact form ["name"; "description"; "definitionRevision"; "fields"] && match prop form "name" with Some (Text s) => label_ok 80 s | _ => false end &&
                     text_within 2000 (prop form "description") && bool_decide (revision_of (prop form "definitionRevision") = Some schemaRevision))
        (Invalid "Review the form against the current collection fields.");
  let items := form_fields form in
  _ ← refuse_unless ((0 <? length items)%nat && (Z.of_nat (length items) <=? 40) && bool_decide (NoDup ((λ i, text_prop i "key") <$> items)))
        (Invalid "Choose unique form fields.");
  _ ← check_items fields items;
  refuse_unless (forallb (λ f, negb (editable f && required f) || existsb (λ i, bool_decide (text_prop i "key" = Some (key_of f))) items) fields)
    (Invalid "Form must include every required collection field.").
(** What is submitted, or the form's default, or nothing. *)
Definition submitted_value (submitted item : value) : value :=
  default (default Null (prop item "defaultValue")) (prop submitted (key_of item)).
(* src/src/shared/record-inputs.js:89-99 recordFormSubmission *)
Definition recordFormSubmission (form : value) (fields : list value) (schemaRevision : Z) (submitted : value) (c : catalog) : result invalid value :=
  _ ← validateRecordForm form fields schemaRevision c;
  let items := form_fields form in
  _ ← refuse_unless (object submitted && forallb (λ e : string * value, existsb (λ i, bool_decide (text_prop i "key" = Some e.1)) items) (entries submitted))
        (Invalid "Only configured form fields can be submitted.");
  _ ← refuse_unless (forallb (λ i, negb (required i && empty (Some (submitted_value submitted i)))) items) (Invalid "A field is required.");
  recordValuePatch fields (Object []) (Object ((λ i, (key_of i, submitted_value submitted i)) <$> items)) c.

End inputs.

(** ** What a patch accepts *)

Lemma prop_put o key v k : prop (Object (put o key v)) k = if bool_decide (key = k) then Some v else prop (Object o) k.
Proof.
  unfold prop. induction o as [|[k0 v0] o IH]; cbn; [by destruct (bool_decide (key = k))|].
  destruct (bool_decide (k0 = key)) eqn:E0; cbn.
  - apply bool_decide_eq_true in E0 as ->. by destruct (bool_decide (key = k)) eqn:Ek; cbn; rewrite ?Ek.
  - destruct (bool_decide (k0 = k)) eqn:Ek; [|exact IH]. apply bool_decide_eq_true in Ek as ->. apply bool_decide_eq_false in E0.
    by rewrite (bool_decide_eq_false_2 (key = k)) by congruence.
Qed.
Lemma texts_of_omap l ts : texts_of l = Some ts → omap text_of l = ts ∧ length ts = length l.
Proof.
  revert ts. induction l as [|v l IH]; intros ts; [by intros [= <-]|]. cbn. destruct (text_of v); [|done]. change (mapM text_of l) with (texts_of l). destruct (texts_of l) as [ts'|]; [|done].
  intros [= <-]. cbn. by destruct (IH ts' eq_refl) as [-> ->].
Qed.

Lemma forallb_false {A} (p : A → bool) l : forallb p l = false → ∃ x, In x l ∧ p x = false.
Proof. induction l as [|x l IH]; [done|]. cbn. destruct (p x) eqn:E; [intros (y & ? & ?)%IH; eauto|eauto]. Qed.

Section accepted_values.
Context (parse_url : string → option (string * (string * string))).
Abbreviation value_ok := (value_ok parse_url).
Abbreviation recordValuePatch := (recordValuePatch parse_url).
Abbreviation current_ok := (current_ok parse_url).

(** The values of a record fit the definitions. *)
Record fits (fields : list value) (values : value) : Prop := {
  fits_object : object values = true;
  fits_values f v : f ∈ fields → editable f = true → prop values (key_of f) = Some v → v = Null ∨ value_ok f v = true;
  fits_required f : f ∈ fields → editable f = true → required f = true → empty (prop values (key_of f)) = false
}.
Lemma patch_fits fields existing patch c values : recordValuePatch fields existing patch c = Ok values →
  (∃ types, validateRecordDefinitions (Array fields) c = Ok types) ∧ fits fields values.
Proof.
  unfold RecordInputs.recordValuePatch. intros (types & Ht & H)%bind_ok. split; [by exists types|]. apply bind_ok in H as ([] & _ & H). apply bind_ok in H as (o & _ & H).
  apply bind_ok in H as ([] & Hf & H). apply refuse_unless_ok in Hf. apply bind_ok in H as ([] & Hc & [= <-]). apply refuse_unless_ok in Hc.
  apply forallb_Forall in Hf, Hc. rewrite Forall_forall in Hf, Hc. split; [done| |].
  - intros f v Hin He Hv. specialize (Hc f Hin). unfold RecordInputs.current_ok, validateRecordValue in Hc. rewrite He, Hv in Hc. cbn in Hc.
    destruct (is_null v) eqn:En; [left; by destruct v|right]. by destruct (RecordInputs.value_ok parse_url f v).
  - intros f Hin He Hr. specialize (Hf f Hin). unfold filled in Hf. rewrite He, Hr in Hf. cbn in Hf. by apply negb_true_iff'.
Qed.
Lemma fits_patch c fields types values : validateRecordDefinitions (Array fields) c = Ok types → fits fields values → recordValuePatch fields values (Object []) c = Ok values.
Proof.
  intros Ht [Ho Hv Hr]. unfold RecordInputs.recordValuePatch. rewrite Ht. destruct values as [| | | | |o]; try done. cbn -[forallb].
  assert (forallb (filled (Object o)) fields = true) as ->.
  { apply forallb_forall. intros f Hf%list_elem_of_In. unfold filled. destruct (editable f) eqn:E1, (required f) eqn:E2; try done. cbn [negb andb orb]. by rewrite Hr. }
  assert (forallb (current_ok (Object o)) fields = true) as ->; [|done].
  apply forallb_forall. intros f Hf%list_elem_of_In. unfold RecordInputs.current_ok, validateRecordValue. destruct (editable f) eqn:E1; [|done]. cbn [negb orb refuse_unless].
  destruct (prop (Object o) (key_of f)) as [v|] eqn:Ev; [|done]. destruct (Hv f v Hf E1 Ev) as [->| ->]; [done|].
  by destruct (is_null v).
Qed.
(** An empty patch only checks. *)
Lemma patch_empty fields existing c values : recordValuePatch fields existing (Object []) c = Ok values → fits fields existing.
Proof.
  intros H. pose proof (patch_fits _ _ _ _ _ H) as [_ Hf]. unfold RecordInputs.recordValuePatch in H. apply bind_ok in H as (types & _ & H).
  apply bind_ok in H as ([] & Hb & H). apply refuse_unless_ok in Hb. cbn in H. apply bind_ok in H as ([] & _ & H). apply bind_ok in H as ([] & _ & [= <-]).
  by destruct existing.
Qed.
Lemma built_justified c fields Γ : built c fields Γ → ∀ key t, Γ !! key = Some t →
  ∃ field, find_key fields key = Some field ∧ archived field = false ∧ justified c fields Γ field t.
Proof.
  induction 1 as [|Γ key field t HB IH Hn Hf Ha Hj]; intros k t' Hk; [by rewrite lookup_empty in Hk|].
  assert (Γ ⊆ <[key := t]> Γ) as Hsub by (by apply insert_subseteq).
  apply lookup_insert_Some in Hk as [[<- <-]|[_ Hk]].
  - exists field. split_and!; [done|done|by eapply justified_mono].
  - destruct (IH k t' Hk) as (f & ? & ? & ?). exists f. split_and!; [done|done|by eapply justified_mono].
Qed.
Lemma accepted_type c fields types f :
  accepted c fields types → f ∈ fields → archived f = false →
  ∃ t, types !! key_of f = Some t ∧ find_key fields (key_of f) = Some f ∧ justified c fields types f t.
Proof.
  intros Hacc Hf Ha. destruct (accepted_keys _ _ _ Hacc) as [Hnd HF]. destruct (accepted_active _ _ _ Hacc f Hf Ha) as [t Ht].
  destruct (built_justified _ _ _ (accepted_built _ _ _ Hacc) _ _ Ht) as (g & Hg & _ & Hj). exists t.
  assert (find_key fields (key_of f) = Some f) as Hself by (apply find_key_self; [done| |done|done]; rewrite Forall_forall in HF; by apply HF).
  rewrite Hself in Hg. injection Hg as <-. done.
Qed.
(** What may be stored is what a calculation takes. *)
Lemma option_short f s : choices_ok (prop f "options") = true → mem s (options_of f) = true → size s ≤ 80.
Proof.
  unfold choices_ok, options_of, list_prop. destruct (prop f "options") as [[| | | |l|]|]; try done. cbn. intros Hc Hs. bool_simplify.
  unfold mem in Hs. apply bool_decide_eq_true, list_elem_of_omap in Hs as (v & Hv & Hs).
  match goal with H : forallb _ l = true |- _ => apply forallb_Forall in H; rewrite Forall_forall in H; specialize (H v Hv) end.
  destruct v; try done. injection Hs as ->. unfold label_ok in *. by bool_simplify.
Qed.
Lemma stored_input c f v t : shaped c f → type_of f = Some t → value_ok f v = true → input_ok f (Some (scalarType t)) v = true.
Proof.
  unfold RecordInputs.value_ok, input_ok. intros Hsh Ht. rewrite Ht. destruct t, v; try done; cbn [scalarType]; rewrite ?bool_decide_refl.
  - intros H. rewrite !(bool_decide_eq_false_2 (Some TEXT = _)) by done. by rewrite H.
  - intros [-> _]%andb_true_iff'. by rewrite (bool_decide_eq_false_2 (Some URL = _)).
  - intros H. rewrite (bool_decide_eq_false_2 (Some SELECT = Some URL)) by done. apply option_short in H as Hs.
    + unfold options_of in H. rewrite H, orb_true_r, andb_true_r. apply Z.leb_le. lia.
    + apply (shaped_choices _ _ Hsh). rewrite Ht. left.
Qed.
(** So is a value of a field that rollups of other collections collect. *)
Lemma stored_related c f v t : shaped c f → type_of f = Some t → t ∈ [NUMBER; TEXT; SELECT; BOOLEAN; DATE] → value_ok f v = true → related_ok f v = true.
Proof.
  unfold RecordInputs.value_ok, related_ok. intros Hsh Ht Hin. rewrite Ht. destruct t, v; try done; cbn; try (exfalso; set_solver).
  - intros H. by rewrite (bool_decide_eq_false_2 (Some TEXT = _)), H.
  - intros H. apply option_short in H as Hs; [|by apply (shaped_choices _ _ Hsh); rewrite Ht; left].
    unfold options_of in H. rewrite H, orb_true_r, andb_true_r. apply Z.leb_le. lia.
Qed.
Lemma stored_selection f v : type_of f = Some RELATION → v = Null ∨ value_ok f v = true → is_Some (selected_ids (Some v)).
Proof.
  intros Ht [->|H]; [by eexists|]. unfold RecordInputs.value_ok in H. rewrite Ht in H. destruct v as [| | | |l|]; try done. cbn.
  apply andb_true_iff' in H as [H1 H]. destruct (texts_of l) as [ids|] eqn:E; [|done]. apply texts_of_omap in E as [-> ->]. apply andb_true_iff' in H as [H2 H3].
  rewrite H1, Nat.eqb_refl, H2, H3. by eexists.
Qed.

(** The errors a calculation may still report over stored values. *)
Definition left_over (e : code) : Prop := e ∉ [UNAVAILABLE_FIELD; INVALID_INPUT; INVALID_RELATION].
Lemma left_over_arithmetic e : e ∈ DEPENDENCY_ERROR :: arithmetic → left_over e.
Proof. unfold left_over, arithmetic. intros He. set_unfold. destruct_or! He; subst; set_solver. Qed.
Lemma rollup_relation c fields f t :
  rollup_type c fields f = Ok t → ∃ rk relation, text_prop f "relationKey" = Some rk ∧ find_key fields rk = Some relation ∧ archived relation = false ∧
    type_of relation = Some RELATION.
Proof.
  unfold rollup_type. destruct (text_prop f "relationKey") as [rk|]; [|done]. cbn. destruct (find_key fields rk) as [relation|] eqn:E; [|done].
  destruct (text_prop f "aggregate"); [|done]. destruct (_ || _) eqn:Eb; [done|]. intros _. bool_simplify. eauto 10.
Qed.
(** What a rollup collects is a stored scalar of a collection. *)
Lemma rollup_target c fields f t rk relation :
  rollup_type c fields f = Ok t → text_prop f "relationKey" = Some rk → find_key fields rk = Some relation → text_prop f "aggregate" ≠ Some "COUNT" →
  truthy (prop relation "target") = false ∧ ∃ target t', catalog_field c (text_prop relation "collectionId") (text_prop f "targetKey") (λ f, negb (archived f)) = Some target ∧
    archived target = false ∧ type_of target = Some t' ∧ t' ∈ [NUMBER; TEXT; SELECT; BOOLEAN; DATE].
Proof.
  unfold rollup_type. intros H Hrk Hrel Ha. rewrite Hrk in H. cbn in H. rewrite Hrel in H. destruct (text_prop f "aggregate") as [g|]; [|done]. destruct (_ || _) eqn:Eb; [done|]. bool_simplify.
  split; [done|]. rewrite bool_decide_eq_false_2 in H by congruence. destruct (catalog_field _ _ _ _) as [target|] eqn:Et; [|done].
  destruct (type_of target) as [t'|] eqn:Ety; [|done]. destruct (negb _) eqn:Em; [done|]. bool_simplify. exists target, t'. split_and!; [done| |done|done].
  unfold catalog_field in Et. destruct (text_prop relation "collectionId"), (text_prop f "targetKey"); try done. destruct (c !! _) as [[| | | |l|]|]; try done.
  apply find_some in Et as [_ Et]. by bool_simplify.
Qed.
Lemma input_admits c fields types values f t :
  accepted c fields types → fits fields values → f ∈ fields → archived f = false → type_of f = Some t → t ∉ [FORMULA; ROLLUP] →
  ∀ e, input types values f ≠ Err (Calculation e).
Proof.
  intros Hacc Hfit Hf Ha Ht Hnt e. destruct (accepted_type _ _ _ _ Hacc Hf Ha) as (t' & Hty & _ & Hj).
  assert (t' = scalarType t) as -> by (unfold justified in Hj; rewrite Ht in Hj; destruct t; try done; set_solver).
  assert (editable f = true) as He by (unfold editable; rewrite Ha, Ht; destruct t; try done; set_solver).
  unfold input. rewrite Hty. destruct (prop values (key_of f)) as [v|] eqn:Ev; [|done].
  assert (shaped c f) as Hsh by (pose proof (accepted_shaped _ _ _ Hacc) as HF; rewrite Forall_forall in HF; by apply HF).
  destruct (fits_values _ _ Hfit f v Hf He Ev) as [->|Hok]; [done|]. rewrite (stored_input c f v t Hsh Ht Hok). by destruct v.
Qed.
Lemma rollup_codes c fields values relations f e :
  rollup c fields values relations f = Err (Calculation e) →
  (e = INVALID_RELATION ∧ selected_ids (prop values (default "" (text_prop f "relationKey"))) = None) ∨ e ∈ [INCOMPLETE_RELATION; INVALID_RELATED_INPUT; NON_FINITE].
Proof.
  unfold rollup. destruct (selected_ids _) as [[|id ids]|] eqn:Es; [done| |intros [= <-]; by left]. intros H. right. revert H.
  repeat case_match; try discriminate; try (intros [= <-]; set_solver). intros ->%aggregated_codes. set_solver.
Qed.
Lemma rollup_related c fields values relations f :
  rollup c fields values relations f = Err (Calculation INVALID_RELATED_INPUT) →
  ∃ relation target r x v, find_key fields (default "" (text_prop f "relationKey")) = Some relation ∧
    catalog_field c (text_prop relation "collectionId") (text_prop f "targetKey") (λ _, true) = Some target ∧
    relations !! default "" (text_prop f "relationKey") = Some r ∧ x ∈ items r ∧ prop x.2 (default "" (text_prop f "targetKey")) = Some v ∧
    v ≠ Null ∧ related_ok target v = false ∧ text_prop f "aggregate" ≠ Some "COUNT".
Proof.
  unfold rollup. destruct (selected_ids _) as [[|i ids]|]; [done| |done]. destruct (relations !! _) as [r|]; [|done]. destruct (negb (resolved_ok _ r)); [done|].
  case_bool_decide; [done|]. destruct (find_key fields _) as [relation|]; [|done]. cbn [mbind option_bind].
  destruct (catalog_field c _ _ _) as [target|] eqn:Et; [|done]. destruct (negb (forallb _ _)) eqn:Ef; [|by intros H1%aggregated_codes].
  intros _. apply negb_true_iff', forallb_false in Ef as (v & Hv & Hr). apply filter_In in Hv as [Hv Hn]. apply list_elem_of_In, list_elem_of_fmap in Hv as (x & -> & Hx).
  exists relation, target, r, x. destruct (prop x.2 _) as [v|]; [|done]. exists v. split_and!; try done. by intros ->.
Qed.
Lemma stored_admits c fields types values relations : accepted c fields types → fits fields values → admits c fields types values relations left_over.
Proof.
  intros Hacc Hfit f e Hf Ha. unfold direct. destruct (accepted_type _ _ _ _ Hacc Hf Ha) as (t & Hty & Hself & Hj).
  assert (shaped c f) as Hsh by (pose proof (accepted_shaped _ _ _ Hacc) as HF; rewrite Forall_forall in HF; by apply HF).
  destruct (shaped_type _ _ Hsh) as [ft Hft]. rewrite Hft. unfold justified in Hj. rewrite Hft in Hj.
  destruct (decide (ft ∈ [FORMULA; ROLLUP])) as [Hin|Hnin].
  - apply elem_of_cons in Hin as [->|Hin]; [done|]. apply elem_of_cons in Hin as [->|Hin]; [|by apply not_elem_of_nil in Hin].
    intros [= He]. apply rollup_codes in He as [[-> Hs]|He]; [|unfold left_over; set_solver]. exfalso.
    destruct (rollup_relation _ _ _ _ Hj) as (rk & relation & Hrk & Hrel & Har & Hrt). rewrite Hrk in Hs. cbn in Hs. destruct (find_field_Some _ _ _ Hrel) as [Hin Hk].
    destruct (prop values rk) as [v|] eqn:Ev; [|done]. rewrite <-(key_of_text _ _ Hk) in Ev.
    assert (is_Some (selected_ids (Some v))) as [ids Hids]; [|congruence]. apply (stored_selection relation); [done|].
    eapply fits_values; [done|done| |done]. unfold editable. by rewrite Har, Hrt.
  - intros Hd. exfalso. assert (input types values f = Err (Calculation e)) as Hi by (destruct ft; try (by injection Hd); set_solver).
    by apply (input_admits _ _ _ _ _ _ Hacc Hfit Hf Ha Hft Hnin e) in Hi.
Qed.

(** ** Changing definitions *)

Lemma same_type a b : same_prop a b "type" = true → type_of a = type_of b.
Proof.
  unfold same_prop, type_of, text_prop. destruct (prop a "type") as [[]|], (prop b "type") as [[]|]; try done. intros H. apply bool_decide_eq_true in H as ->. done.
Qed.
Lemma value_ok_kept old current v :
  type_of current = type_of old → (∀ s, mem s (options_of old) = true → mem s (options_of current) = true) → value_ok old v = true → value_ok current v = true.
Proof.
  intros Ht Ho. unfold RecordInputs.value_ok. rewrite Ht. destruct (type_of old) as [[]|], v; try done; [apply Ho|].
  intros [-> H]%andb_true_iff'. destruct (texts_of l) as [ts|]; [|done]. apply andb_true_iff' in H as [H ->]. rewrite andb_true_r. cbn. apply forallb_forall. intros s Hs.
  rewrite forallb_forall in H. by apply Ho, H.
Qed.
Lemma all_kept_spec next previous : all_kept next previous = Ok tt → ∀ old, old ∈ previous → ∃ current, find_key next (key_of old) = Some current ∧
  type_of current = type_of old ∧ same_prop current old "collectionId" = true ∧ (∀ s, mem s (options_of old) = true → mem s (options_of current) = true).
Proof.
  induction previous as [|g previous IH]; [by intros _ old ?%not_elem_of_nil|]. cbn. intros ([] & Hk & H)%bind_ok old [->|Hin]%elem_of_cons; [|by apply IH].
  unfold kept in Hk. destruct (find_key next (key_of g)) as [current|]; [|done]. apply bind_ok in Hk as ([] & H1 & H2). apply refuse_unless_ok in H1, H2.
  apply andb_true_iff' in H1 as [H1 _]. apply andb_true_iff' in H1 as [H1 H3]. exists current. split_and!; [done|by apply same_type|done|].
  intros s Hs. unfold mem in Hs. apply bool_decide_eq_true, list_elem_of_In in Hs. rewrite forallb_forall in H2. by apply H2.
Qed.
(** Definitions cannot silently reinterpret historical values: every field of before
    is still there, of its type, and takes what it took. *)
Lemma update_keeps_values previous next c :
  validateRecordDefinitionUpdate previous next c = Ok tt → ∀ old, old ∈ previous →
  ∃ current, find_key next (key_of old) = Some current ∧ type_of current = type_of old ∧ ∀ v, value_ok old v = true → value_ok current v = true.
Proof.
  unfold validateRecordDefinitionUpdate. intros (types & _ & H)%bind_ok old Hold. destruct (all_kept_spec _ _ H old Hold) as (current & Hf & Ht & _ & Ho).
  exists current. split_and!; [done|done|]. intros v. by apply value_ok_kept.
Qed.
End accepted_values.
End RecordInputs.
