(* ===== verification/WorkspaceRecordLog.v ===== *)
(** * Records stay readable

    The transactions of WorkspaceRecords.v in any order, by anyone, while people
    and the records of other parts come and go: whatever became of the fields of
    the collections, every active record fits those of its collection, and
    calculating it goes through. *)

From S2P Require Import Prelude Store Pages JsNumber RecordCalculations RecordSoundness RecordInputs WorkspaceRecords.
Import JsNumber.Js Records RecordSoundness RecordInputs WorkspaceRecords.

Module WorkspaceRecordLog.

(** ** What definitions are checked against *)

(** Two catalogs that say the same of the collections the relations lead to. *)
Definition agree (fields : list value) (c c' : catalog) : Prop :=
  ∀ f id, f ∈ fields → type_of f = Some RELATION → text_prop f "collectionId" = Some id → id ≠ "" → size id ≤ 80 → c !! id = c' !! id.
Lemma relation_agree fields c c' f : agree fields c c' → f ∈ fields → type_of f = Some RELATION → relation_ok c f = relation_ok c' f.
Proof.
  intros Ha Hf Ht. unfold relation_ok. destruct (prop f "target"); [done|]. destruct (prop f "collectionId") as [[| | |id| |]|] eqn:E; try done.
  assert (text_prop f "collectionId" = Some id) as Hid by (unfold text_prop; by rewrite E).
  destruct (bool_decide (id = "")) eqn:En; [done|]. destruct (size id <=? 80) eqn:Es; [|done]. apply bool_decide_eq_false in En. apply Z.leb_le in Es. by rewrite (Ha f id).
Qed.
Lemma check_field_agree fields c c' f keys names : agree fields c c' → f ∈ fields → check_field c f keys names = check_field c' f keys names.
Proof.
  intros Ha Hf. unfold check_field. destruct (type_of f) as [t|] eqn:Et; [|done].
  assert (negb (bool_decide (t = RELATION)) || relation_ok c f = negb (bool_decide (t = RELATION)) || relation_ok c' f) as ->; [|done].
  case_bool_decide as E; [|done]. subst t. cbn. by eapply relation_agree.
Qed.
Lemma check_fields_agree fields c c' l : agree fields c c' → (∀ f, f ∈ l → f ∈ fields) → ∀ keys names, check_fields c l keys names = check_fields c' l keys names.
Proof.
  intros Ha. induction l as [|f l IH]; intros Hl keys names; [done|]. cbn [check_fields]. rewrite (check_field_agree fields c c') by (done || apply Hl; left).
  destruct (check_field c' f keys names) as [[k n]|e]; [|done]. apply IH. intros g Hg. apply Hl. by right.
Qed.
(** The collection an accepted relation leads to. *)
Lemma relation_leads c f id : relation_ok c f = true → text_prop f "collectionId" = Some id → id ≠ "" ∧ size id ≤ 80 ∧ ∃ l, c !! id = Some (Array l).
Proof.
  unfold relation_ok, text_prop, own. destruct (prop f "target").
  - intros [_ H]%andb_true_iff' E. destruct (prop f "collectionId"); [|done]. by rewrite bool_decide_eq_true_2 in H.
  - destruct (prop f "collectionId") as [[| | |i| |]|]; try done. intros H [= ->]. bool_simplify. split_and!; [done|done|].
    destruct (c !! id) as [[| | | |l|]|]; try done. eauto.
Qed.
Lemma catalog_field_agree fields c c' relation key p :
  agree fields c c' → Forall (shaped c) fields → relation ∈ fields → type_of relation = Some RELATION →
  catalog_field c (text_prop relation "collectionId") key p = catalog_field c' (text_prop relation "collectionId") key p.
Proof.
  intros Ha HF Hin Ht. unfold catalog_field. destruct (text_prop relation "collectionId") as [id|] eqn:E; [|done]. destruct key; [|done].
  rewrite Forall_forall in HF. destruct (relation_leads c relation id) as (H1 & H2 & _); [by apply (shaped_relation _ _ (HF _ Hin))|done|]. by rewrite (Ha relation id).
Qed.
Lemma rollup_type_agree fields c c' f : agree fields c c' → Forall (shaped c) fields → rollup_type c fields f = rollup_type c' fields f.
Proof.
  intros Ha HF. unfold rollup_type. destruct (text_prop f "relationKey" ≫= find_key fields) as [relation|] eqn:E; [|done]. destruct (text_prop f "aggregate") as [g|]; [|done].
  destruct (archived relation); [done|]. destruct (bool_decide (type_of relation = Some RELATION)) eqn:Et; [|done]. apply bool_decide_eq_true in Et.
  destruct (text_prop f "relationKey") as [rk|]; [|done]. cbn in E. apply find_field_Some in E as [Hin _]. by rewrite (catalog_field_agree fields c c').
Qed.
Lemma eff_bind_ext {St Er A B} (m m' : Eff St Er A) (k k' : A → Eff St Er B) :
  (∀ s, m s = m' s) → (∀ a s, k a s = k' a s) → ∀ s, (m ≫= k) s = (m' ≫= k') s.
Proof. intros Hm Hk s. unfold mbind, eff_bind. rewrite Hm. destruct (m' s) as [[a|e] s1]; [apply Hk|reflexivity]. Qed.
Lemma thread_ext {St Er N A B} (f g : N → A → Eff St Er (N * B)) l : (∀ n a s, f n a s = g n a s) → ∀ n s, thread f l n s = thread g l n s.
Proof.
  intros H. induction l as [|a l IH]; intros n s; [reflexivity|]. cbn [thread]. apply eff_bind_ext; [apply H|]. intros x s1. apply eff_bind_ext; [apply IH|reflexivity].
Qed.
Lemma expressionType_ext (f g : string → check ty) : (∀ k s, f k s = g k s) → ∀ fuel e depth nodes s, expressionType fuel f e depth nodes s = expressionType fuel g e depth nodes s.
Proof.
  intros H fuel. induction fuel as [|fuel IH]; intros e depth nodes s; [reflexivity|]. cbn [expressionType]. apply eff_bind_ext; [reflexivity|]. intros _ s1.
  destruct (own e "literal"); [reflexivity|]. destruct (own e "field").
  - destruct (exact e ["field"] && _), (text_prop e "field"); try reflexivity. apply eff_bind_ext; [apply H|reflexivity].
  - destruct (exact e ["op"; "args"]), (named (text_prop e "op") arities) as [[o [lo hi]]|], (list_prop e "args") as [args|]; try reflexivity.
    apply eff_bind_ext; [reflexivity|]. intros _ s2. apply eff_bind_ext; [|reflexivity]. apply thread_ext. intros n a. apply IH.
Qed.
Lemma fieldType_agree fields c c' n : agree fields c c' → Forall (shaped c) fields → ∀ key s, fieldType n c fields key s = fieldType n c' fields key s.
Proof.
  intros Ha HF. induction n as [|n IH]; intros key s; [reflexivity|]. cbn [fieldType]. destruct (find_key fields key) as [f|]; [|reflexivity].
  apply eff_bind_ext; [reflexivity|]. intros _ s1. apply eff_bind_ext; [reflexivity|]. intros s2 s3. destruct (resultTypes s2 !! key); [reflexivity|].
  apply eff_bind_ext; [reflexivity|]. intros _ s4. apply eff_bind_ext; [reflexivity|]. intros _ s5. apply eff_bind_ext; [|reflexivity]. intros s6.
  destruct (type_of f) as [t|]; [|reflexivity].
  destruct (decide (t = FORMULA)) as [->|]; [apply eff_bind_ext; [|reflexivity]; apply expressionType_ext, IH|].
  destruct (decide (t = ROLLUP)) as [->|]; [by rewrite (rollup_type_agree fields c c' f Ha HF)|]. destruct t; first [contradiction|reflexivity].
Qed.
Lemma type_all_agree fields c c' l : agree fields c c' → Forall (shaped c) fields → ∀ s, type_all c fields l s = type_all c' fields l s.
Proof.
  intros Ha HF. induction l as [|f l IH]; intros s; [reflexivity|]. cbn [type_all]. apply eff_bind_ext; [|intros _; exact IH]. intros s1. destruct (archived f); [reflexivity|].
  by apply fieldType_agree.
Qed.
(** What is accepted is accepted under any catalog that says the same. *)
Lemma definitions_agree fields c c' types : agree fields c c' → validateRecordDefinitions (Array fields) c = Ok types → validateRecordDefinitions (Array fields) c' = Ok types.
Proof.
  intros Ha H. pose proof (accepted_shaped _ _ _ (definitions_ok _ _ _ H)) as HF. cbn [validateRecordDefinitions] in *.
  rewrite <-(check_fields_agree fields c c'), <-(type_all_agree fields c c') by done. exact H.
Qed.
Lemma few_fields fields c types : validateRecordDefinitions (Array fields) c = Ok types → Z.of_nat (length fields) ≤ 40.
Proof. cbn [validateRecordDefinitions]. intros ([] & H & _)%bind_ok. apply refuse_unless_ok in H. by apply Z.leb_le. Qed.

(** ** Catalogs of a state *)

Lemma lookup_rows {A} (g : string → option A) ids id :
  (list_to_map (omap (λ id, option_map (pair id) (g id)) ids) : gmap string A) !! id = if bool_decide (id ∈ ids) then g id else None.
Proof.
  induction ids as [|i ids IH]; [by rewrite bool_decide_eq_false_2 by (apply not_elem_of_nil)|]. cbn. destruct (decide (id = i)) as [->|Hne].
  - rewrite bool_decide_eq_true_2 by left. destruct (g i) as [a|] eqn:E; cbn; [by rewrite lookup_insert_eq|]. rewrite IH. by case_bool_decide.
  - rewrite (bool_decide_ext (id ∈ i :: ids) (id ∈ ids)) by (rewrite elem_of_cons; tauto). destruct (g i); cbn; [rewrite lookup_insert_ne by done|]; exact IH.
Qed.
Lemma catalogFor_lookup org d fields ov id :
  catalogFor org d fields ov !! id =
    match ov with
    | Some (o, fs) => if bool_decide (o = id) then Some (Array fs) else if bool_decide (id ∈ relation_ids fields) then collection_fields org d id else None
    | None => if bool_decide (id ∈ relation_ids fields) then collection_fields org d id else None
    end.
Proof.
  unfold catalogFor. destruct ov as [[o fs]|]; [|apply lookup_rows]. case_bool_decide as E; [subst; apply lookup_insert_eq|].
  rewrite lookup_insert_ne by done. apply lookup_rows.
Qed.
Lemma type_of_name f : type_of f = Some RELATION ↔ text_prop f "type" = Some "RELATION".
Proof.
  unfold type_of, named. destruct (text_prop f "type") as [s|]; [|done]. cbn. repeat (case_bool_decide; [subst; cbn; naive_solver|]). cbn. split; [done|]. intros [= ->]. done.
Qed.
Lemma elem_of_relation_ids fields f id :
  f ∈ fields → type_of f = Some RELATION → text_prop f "collectionId" = Some id → id ≠ "" → size id ≤ 80 → id ∈ relation_ids fields.
Proof.
  intros Hf Ht%type_of_name Hid Hn Hs. unfold relation_ids. apply list_elem_of_omap. exists f. split; [done|]. rewrite Ht, Hid, bool_decide_eq_true_2 by done.
  rewrite (bool_decide_eq_false_2 (id = "")) by done. cbn [negb andb]. by rewrite (proj2 (Z.leb_le _ _) Hs).
Qed.
(** The fields a collection's definitions are checked against. *)
Definition own_catalog (d : db) (id : string) (c : collection) : catalog := catalogFor (c_org c) d (c_fields c) (Some (id, c_fields c)).
(** Catalogs of two states agree where the states and the overrides do. *)
Lemma catalogs_agree fields org d d' ov ov' :
  (∀ id, id ∈ relation_ids fields → catalogFor org d fields ov !! id = catalogFor org d' fields ov' !! id) → agree fields (catalogFor org d fields ov) (catalogFor org d' fields ov').
Proof. intros H f id Hf Ht Hid Hn Hs. apply H. by eapply elem_of_relation_ids. Qed.

(** ** What every reachable state has *)

Section readable.
Context (parse_url : string → option (string * (string * string))).
Abbreviation fits := (fits parse_url).

Record readable (d : db) : Prop := {
  readable_definitions id c : collections d !! id = Some c → ∃ types, validateRecordDefinitions (Array (c_fields c)) (own_catalog d id c) = Ok types;
  readable_records rid r : records d !! rid = Some r → r_archived r = false →
    ∃ c, collections d !! r_collection r = Some c ∧ c_org c = r_org r ∧ fits (c_fields c) (r_values r)
}.
Lemma find_collection_Some id org b d c : find_collection id org b d = Some c ↔ collections d !! id = Some c ∧ c_org c = org ∧ (b = true ∨ c_archived c = false).
Proof.
  unfold find_collection. destruct (collections d !! id) as [c'|]; [|naive_solver].
  destruct (bool_decide (c_org c' = org)) eqn:E1, b, (c_archived c') eqn:E3; cbn; bool_simplify; naive_solver congruence.
Qed.
Lemma collection_fields_Some org d id v : collection_fields org d id = Some v ↔ ∃ c, collections d !! id = Some c ∧ c_org c = org ∧ v = Array (c_fields c).
Proof.
  unfold collection_fields. destruct (find_collection id org true d) as [c|] eqn:E; cbn.
  - apply find_collection_Some in E as (H1 & H2 & _). naive_solver.
  - split; [done|]. intros (c & H1 & H2 & _). assert (find_collection id org true d = Some c) by (apply find_collection_Some; auto). congruence.
Qed.
(** Every collection a relation of an accepted definition leads to is there. *)
Lemma relation_exists d id c f i :
  (∃ types, validateRecordDefinitions (Array (c_fields c)) (own_catalog d id c) = Ok types) → f ∈ c_fields c → type_of f = Some RELATION → text_prop f "collectionId" = Some i →
  i = id ∨ ∃ c', collections d !! i = Some c' ∧ c_org c' = c_org c.
Proof.
  intros [types H] Hf Ht Hi. pose proof (accepted_shaped _ _ _ (definitions_ok _ _ _ H)) as HF. rewrite Forall_forall in HF.
  destruct (relation_leads _ f i (shaped_relation _ _ (HF _ Hf) Ht) Hi) as (_ & _ & l & Hl). unfold own_catalog in Hl. rewrite catalogFor_lookup in Hl.
  case_bool_decide; [by left|]. right. case_bool_decide; [|done]. apply collection_fields_Some in Hl as (c' & ? & ? & _). eauto.
Qed.
(** Only collections and records matter. *)
Lemma readable_same d d' : collections d' = collections d → records d' = records d → readable d → readable d'.
Proof. destruct d, d'; cbn; intros -> -> [H1 H2]. split; [exact H1|exact H2]. Qed.
Lemma readable_record d d' rid r :
  readable d → collections d' = collections d → records d' = <[rid := r]> (records d) →
  (r_archived r = false → ∃ c, collections d !! r_collection r = Some c ∧ c_org c = r_org r ∧ fits (c_fields c) (r_values r)) → readable d'.
Proof.
  intros [H1 H2] Ec Er Hr. apply (readable_same (set_records (records d') d)); [by rewrite Ec|done|]. split; [exact H1|]. intros k r'. cbn. rewrite Er.
  intros [[<- <-]|[_ Hk]]%lookup_insert_Some; [done|by eapply H2].
Qed.
Lemma depends_spec id f fields : f ∈ fields → type_of f = Some RELATION → text_prop f "collectionId" = Some id → depends_on id fields = true.
Proof. intros Hf Ht%type_of_name Hi. unfold depends_on. apply existsb_exists. exists f. split; [by apply list_elem_of_In|]. rewrite Ht, Hi. by rewrite !bool_decide_eq_true_2. Qed.
Lemma collection_fields_insert org d d' id c k :
  collections d' = <[id := c]> (collections d) → k ≠ id → collection_fields org d' k = collection_fields org d k.
Proof. intros E Hk. unfold collection_fields, find_collection. by rewrite E, lookup_insert_ne. Qed.
(** A collection is written: what has to be checked. *)
Lemma readable_collection d d' id c :
  readable d → collections d' = <[id := c]> (collections d) → records d' = records d →
  (∀ c0, collections d !! id = Some c0 → c_org c0 = c_org c) →
  (∃ types, validateRecordDefinitions (Array (c_fields c)) (own_catalog d id c) = Ok types) →
  (∀ x cx, collections d !! x = Some cx → x ≠ id → c_org cx = c_org c → depends_on id (c_fields cx) = true →
    ∃ types, validateRecordDefinitions (Array (c_fields cx)) (catalogFor (c_org c) d (c_fields cx) (Some (id, c_fields c))) = Ok types) →
  (∀ rid r, records d !! rid = Some r → r_archived r = false → r_collection r = id → is_Some (collections d !! id) → fits (c_fields c) (r_values r)) → readable d'.
Proof.
  intros [H1 H2] Ec Er Horg [types Hown] Hdep Hrec. split.
  - intros x cx. rewrite Ec. intros [[<- <-]|[Hne Hx]]%lookup_insert_Some.
    + exists types. eapply definitions_agree; [|exact Hown]. apply catalogs_agree. intros k _. rewrite !catalogFor_lookup. case_bool_decide; [done|].
      case_bool_decide; [|done]. symmetry. by eapply collection_fields_insert.
    + destruct (decide (c_org cx = c_org c ∧ depends_on id (c_fields cx) = true)) as [[Ho Hd]|Hno].
      * destruct (Hdep x cx Hx (not_eq_sym Hne) Ho Hd) as [types' Ht]. exists types'. unfold own_catalog. rewrite Ho. eapply definitions_agree; [|exact Ht]. apply catalogs_agree. intros k Hk.
        rewrite !catalogFor_lookup. rewrite (bool_decide_eq_true_2 (k ∈ _)) by done. destruct (decide (k = id)) as [->|Hki].
        { rewrite bool_decide_eq_true_2, (bool_decide_eq_false_2 (x = id)) by done. symmetry. apply collection_fields_Some. exists c. by rewrite Ec, lookup_insert_eq. }
        rewrite (bool_decide_eq_false_2 (id = k)) by done. case_bool_decide as Ekx; [subst k; apply collection_fields_Some; by exists cx|].
        symmetry. by eapply collection_fields_insert.
      * destruct (H1 x cx Hx) as [types' Ht]. exists types'. eapply definitions_agree; [|exact Ht]. intros f k Hf Hft Hk Hn Hs.
        unfold own_catalog. rewrite !catalogFor_lookup. case_bool_decide; [done|]. case_bool_decide; [|done].
        destruct (decide (k = id)) as [->|Hki]; [|symmetry; by eapply collection_fields_insert].
        destruct (relation_exists d x cx f id (H1 x cx Hx) Hf Hft Hk) as [->|(c0 & Hc0 & Ho)]; [done|]. exfalso. apply Hno. split; [|by eapply depends_spec].
        rewrite <-Ho. by apply Horg.
  - intros rid r Hr Ha. rewrite Er in Hr. destruct (H2 rid r Hr Ha) as (c0 & Hc0 & Ho & Hf). rewrite Ec. destruct (decide (r_collection r = id)) as [E|Hne].
    + exists c. rewrite E, lookup_insert_eq. rewrite E in Hc0. split_and!; [done|by rewrite <-Ho, (Horg c0)|]. eapply Hrec; eauto.
    + exists c0. by rewrite lookup_insert_ne.
Qed.

(** ** The steps of a handler that goes through *)

Lemma staff_through a d u d' : currentRecordStaff a d = (Ok u, d') → d' = d ∧ staff d (a_id a) (a_org a) = true.
Proof. unfold currentRecordStaff, mbind, eff_bind, gets, guard_eff. destruct (negb _ && _ && staff d _ _) eqn:E; [|done]. intros [= _ <-]. bool_simplify. done. Qed.
Lemma collectionFor_ok id a b d c d' : collectionFor id a b d = (Ok c, d') → d' = d ∧ find_collection id (a_org a) b d = Some c.
Proof. unfold collectionFor, mbind, eff_bind, gets. destruct (find_collection _ _ _ _); [|done]. by intros [= <- <-]. Qed.
Lemma passes_guard b (e : failure) (d : db) u d' : guard_eff b e d = (Ok u, d') → d' = d ∧ b = true.
Proof. unfold guard_eff, refuse_unless. destruct b; [|done]. by intros [= _ <-]. Qed.
Lemma checked_ok {A} (r : result invalid A) d v d' : checked r d = (Ok v, d') → d' = d ∧ r = Ok v.
Proof. unfold checked. destruct r; [|done]. by intros [= <- <-]. Qed.
Lemma gets_ok {A} (f : db → A) d v d' : gets (E := failure) f d = (Ok v, d') → d' = d ∧ v = f d.
Proof. by intros [= <- <-]. Qed.
Lemma audit_ok b x y d u d' : audit b x y d = (Ok u, d') → d' = set_audits ((x, y) :: audits d) d.
Proof. unfold audit, mbind, eff_bind, guard_eff. destruct b; [|done]. by intros [= _ <-]. Qed.
Lemma fresh_ok {A} id (m : gmap string A) d u d' : fresh id m d = (Ok u, d') → d' = d ∧ m !! id = None.
Proof. intros [-> H]%passes_guard. split; [done|]. bool_simplify. by apply eq_None_not_Some. Qed.
Lemma relations_ok org fields values keys d u d' : validateRelations org fields values keys d = (Ok u, d') → d' = d.
Proof. unfold validateRelations, mbind, eff_bind, gets. by intros [-> _]%passes_guard. Qed.
Lemma decorate_ok id c rows a d out d' : decorate id c rows a d = (Ok out, d') → d' = d ∧ decorateRecords id c rows a d = Ok out.
Proof. unfold decorate. by intros [= -> ->]. Qed.

(** One step of a run that goes through, with what it says. *)
Ltac unroll H :=
  let x := fresh "x" in let d1 := fresh "d" in let E := fresh "E" in
  apply eff_bind_ok in H as (x & d1 & E & H);
  first
    [ apply staff_through in E as [-> E] | apply collectionFor_ok in E as [-> E] | apply fresh_ok in E as [-> E] | apply passes_guard in E as [-> E] | apply checked_ok in E as [-> E]
    | apply audit_ok in E as -> | apply relations_ok in E as -> | apply decorate_ok in E as [-> E] | apply gets_ok in E as [-> ->]
    | injection E as <- <- | idtac ].
Lemma transaction_keeps {A} (m : act A) d : readable d → (∀ v d', m d = (Ok v, d') → readable d') → readable (transaction m d).2.
Proof. intros HI H. unfold transaction. destruct (m d) as [[v|e] d'] eqn:E; [|done]. by eapply H. Qed.

Lemma createWorkspaceCollection_keeps new_id name fields recorded a d : readable d → readable (createWorkspaceCollection new_id name fields recorded a d).2.
Proof.
  intros HI. apply transaction_keeps; [done|]. intros u d' H. repeat unroll H. injection H as _ <-.
  set (c := Collection (a_org a) name fields 0 0 false).
  eapply (readable_same (set_collections (<[new_id := c]> (collections d)) d)); [done|done|].
  eapply (readable_collection d _ new_id c); [done|done|done| | | |].
  - intros c0 H0. congruence.
  - exists x0. eapply definitions_agree; [|exact E0]. intros f id Hf Ht Hid Hn Hs. unfold own_catalog. rewrite !catalogFor_lookup.
    destruct (decide (new_id = id)) as [<-|Hne]; [exfalso|by rewrite (bool_decide_eq_false_2 (new_id = id))]. rewrite forallb_forall in E1. apply list_elem_of_In in Hf. specialize (E1 f Hf). rewrite Hid, Ht in E1.
    rewrite (bool_decide_eq_true_2 (_ = Some RELATION)), (bool_decide_eq_false_2 (new_id = "")) in E1 by done. cbn in E1. bool_simplify.
    destruct E1 as [c0 E1]. apply find_collection_Some in E1 as [E1 _]. congruence.
  - intros y cy Hy Hne _ (f & Hf & Hd)%existsb_exists. exfalso. apply list_elem_of_In in Hf. bool_simplify.
    destruct (relation_exists d y cy f new_id (readable_definitions _ HI y cy Hy) Hf) as [->|(c' & Hc' & _)]; [by apply type_of_name|done|done|congruence].
  - intros rid r _ _ _ [c0 Hc0]. congruence.
Qed.

(** A change of fields that goes through has been checked against the dependents
    and the records. *)
Lemma all_ok_all {A} (l : list (result invalid A)) : all_ok l = Ok tt → ∀ r, r ∈ l → ∃ v, r = Ok v.
Proof.
  unfold all_ok. intros (vs & H & _)%bind_ok r Hr. revert vs H. induction l as [|x l IH]; intros vs H; [by apply not_elem_of_nil in Hr|].
  cbn in H. destruct x as [v|]; [|done]. apply elem_of_cons in Hr as [->|Hr]; [by exists v|]. cbn in H. destruct (mapM id l) as [ws|] eqn:E; [|done]. by eapply IH.
Qed.
Lemma change_fields_ok a id current fields d u d' :
  change_fields parse_url a id current fields d = (Ok u, d') →
  d' = d ∧ (∃ types, validateRecordDefinitions (Array fields) (catalogFor (a_org a) d fields (Some (id, fields))) = Ok types) ∧
  (∀ x cx, collections d !! x = Some cx → x ≠ id → c_org cx = a_org a → depends_on id (c_fields cx) = true →
    ∃ types, validateRecordDefinitions (Array (c_fields cx)) (catalogFor (a_org a) d (c_fields cx) (Some (id, fields))) = Ok types) ∧
  (∀ rid r, records d !! rid = Some r → r_archived r = false → r_collection r = id → r_org r = a_org a → fits fields (r_values r)).
Proof.
  unfold change_fields. intros H. repeat unroll H. apply checked_ok in H as [-> H]. split; [done|].
  unfold validateRecordDefinitionUpdate in E. apply bind_ok in E as (types & Ht & _). split; [by exists types|]. split.
  - intros y cy Hy Hne Ho Hd. destruct u, x1. eapply all_ok_all; [exact E1|]. apply list_elem_of_fmap. exists (y, cy). split; [done|].
    rewrite elem_of_isort. apply tselect_spec. split; [exact Hy|]. rewrite Hd, !bool_decide_eq_true_2, bool_decide_eq_false_2 by done. done.
  - intros rid r Hr Ha Hc Ho. destruct u. destruct (all_ok_all _ H (recordValuePatch parse_url fields (r_values r) (Object []) (catalogFor (a_org a) d fields (Some (id, fields))))) as [v Hv].
    { apply list_elem_of_fmap. exists (rid, r). split; [done|]. rewrite elem_of_isort. apply tselect_spec. split; [exact Hr|]. by rewrite Ha, !bool_decide_eq_true_2. }
    eapply patch_empty; exact Hv.
Qed.
Lemma updateWorkspaceCollection_keeps id revision name fields archived_ recorded a d :
  readable d → readable (updateWorkspaceCollection parse_url id revision name fields archived_ recorded a d).2.
Proof.
  intros HI. apply transaction_keeps; [done|]. intros u d' H. unroll H. unroll H. unroll H. unroll H. apply find_collection_Some in E0 as (Hc & Ho & _). unroll H.
  set (next := default (c_fields x0) fields).
  assert (d0 = d ∧ (∃ types, validateRecordDefinitions (Array next) (catalogFor (a_org a) d next (Some (id, next))) = Ok types) ∧
    (∀ x cx, collections d !! x = Some cx → x ≠ id → c_org cx = a_org a → depends_on id (c_fields cx) = true →
      ∃ types, validateRecordDefinitions (Array (c_fields cx)) (catalogFor (a_org a) d (c_fields cx) (Some (id, next))) = Ok types) ∧
    (∀ rid r, records d !! rid = Some r → r_archived r = false → r_collection r = id → r_org r = a_org a → fits next (r_values r))) as (-> & Hd & Hdep & Hrec).
  { unfold next. destruct fields as [fields|]; [by apply change_fields_ok in E0|]. injection E0 as _ <-. cbn [default]. split; [done|]. split; [|split].
    - rewrite <-Ho. by apply (readable_definitions _ HI).
    - intros y cy Hy Hne Hoy _. destruct (readable_definitions _ HI y cy Hy) as [types Ht]. exists types. eapply definitions_agree; [|exact Ht]. unfold own_catalog. rewrite Hoy.
      apply catalogs_agree. intros k Hk. rewrite !catalogFor_lookup, (bool_decide_eq_true_2 (k ∈ _)) by done. destruct (decide (y = k)) as [<-|Hyk].
      + rewrite bool_decide_eq_true_2, bool_decide_eq_false_2 by done. symmetry. apply collection_fields_Some. by exists cy.
      + rewrite (bool_decide_eq_false_2 (y = k)) by done. destruct (decide (id = k)) as [<-|Hik]; [rewrite bool_decide_eq_true_2 by done|by rewrite bool_decide_eq_false_2]. apply collection_fields_Some. by exists x0.
    - intros rid r Hr Ha Hcr Hor. destruct (readable_records _ HI rid r Hr Ha) as (c1 & Hc1 & _ & Hf). rewrite Hcr, Hc in Hc1. by injection Hc1 as <-. }
  repeat unroll H. injection H as _ <-. eapply (readable_same (set_collections _ d)); [reflexivity|reflexivity|].
  eapply readable_collection; [done|reflexivity|reflexivity| | | |]; cbn [c_org c_fields]; rewrite ?Ho.
  - intros c0 H0. rewrite Hc in H0. by injection H0 as <-.
  - unfold own_catalog. cbn [c_org c_fields]. exact Hd.
  - exact Hdep.
  - intros rid r Hr Ha Hcr _. eapply Hrec; [done..|]. destruct (readable_records _ HI rid r Hr Ha) as (c1 & Hc1 & Ho1 & _). rewrite Hcr, Hc in Hc1. injection Hc1 as <-. by rewrite <-Ho1.
Qed.

Lemma create_record_keeps new_id collectionId title definitionRevision values recorded a d out d' :
  readable d → create_record parse_url new_id collectionId title definitionRevision values recorded a d = (Ok out, d') → readable d'.
Proof.
  unfold create_record. intros HI H. repeat unroll H. injection H as _ <-. apply find_collection_Some in E0 as (Hc & Ho & _).
  eapply (readable_record d); [done|done|done|]. intros _. exists x0. split_and!; [done|done|]. by eapply patch_fits.
Qed.
Lemma find_record_Some rid id org d r : find_record rid id org d = Some r ↔ records d !! rid = Some r ∧ r_collection r = id ∧ r_org r = org.
Proof. unfold find_record. destruct (records d !! rid) as [r'|]; [|naive_solver]. destruct (bool_decide _ && _) eqn:E; bool_simplify; [naive_solver|]. split; [done|]. intros ([= ->] & <- & <-). by rewrite !bool_decide_eq_true_2 in E. Qed.
Lemma updateWorkspaceRecord_keeps collectionId recordId revision definitionRevision title patch archived_ recorded a d :
  readable d → readable (updateWorkspaceRecord parse_url collectionId recordId revision definitionRevision title patch archived_ recorded a d).2.
Proof.
  intros HI. apply transaction_keeps; [done|]. cbv zeta. intros out d' H. unroll H. unroll H. unroll H. unroll H. apply find_collection_Some in E0 as (Hc & Ho & _).
  destruct (find_record _ _ _ _) as [current|] eqn:Er; [|done]. apply find_record_Some in Er as (Hr & Hrc & Hro). unroll H. unroll H. unroll H.
  apply eff_bind_ok in H as (values & d0 & Ev & H).
  assert (d0 = d ∧ (patch = None → archived_ = Some true ∨ fits (c_fields x0) (r_values current)) ∧ (∀ p, patch = Some p → fits (c_fields x0) values)) as (-> & Hkeep & Hnew).
  { destruct (bool_decide (archived_ = Some true) && match patch with None => true | Some _ => false end) eqn:Eo.
    - injection Ev as <- <-. bool_simplify. split; [done|]. split; [by left|]. intros p ->. done.
    - apply checked_ok in Ev as [-> Ev]. split; [done|]. split; [intros ->; right; by eapply patch_empty|]. intros p ->. by eapply patch_fits. }
  repeat unroll H. injection H as _ <-. eapply (readable_record d); [done|reflexivity|reflexivity|]. cbn [r_archived r_collection r_org r_values]. intros Ha.
  exists x0. split_and!; [done|by rewrite Ho|]. destruct patch as [p|]; [by eapply Hnew|]. destruct (Hkeep eq_refl) as [->|Hf]; [done|exact Hf].
Qed.
(** Forms leave collections and records alone. *)
Lemma check_form_reads collectionId c configuration a d u d' : check_form parse_url collectionId c configuration a d = (Ok u, d') → d' = d.
Proof. unfold check_form. intros H. repeat unroll H. by apply relations_ok in H. Qed.
Lemma createWorkspaceRecordForm_keeps new_id collectionId configuration recorded a d :
  readable d → readable (createWorkspaceRecordForm parse_url new_id collectionId configuration recorded a d).2.
Proof.
  intros HI. apply transaction_keeps; [done|]. intros u d' H. unroll H. unroll H. apply eff_bind_ok in H as (x1 & d1 & Ec & H). apply check_form_reads in Ec as ->.
  repeat unroll H. injection H as _ <-. by eapply (readable_same d).
Qed.
Lemma updateWorkspaceRecordForm_keeps collectionId formId revision configuration archived_ recorded a d :
  readable d → readable (updateWorkspaceRecordForm parse_url collectionId formId revision configuration archived_ recorded a d).2.
Proof.
  intros HI. apply transaction_keeps; [done|]. cbv zeta. intros u d' H. unroll H. unroll H. unroll H. destruct (find_form _ _ _ _) as [current|]; [|done]. unroll H. unroll H.
  apply eff_bind_ok in H as (x4 & d1 & Ec & H). assert (d1 = d) as ->.
  { destruct configuration; [by apply check_form_reads in Ec|]. by injection Ec. }
  repeat unroll H. injection H as _ <-. by eapply (readable_same d).
Qed.
Lemma submitWorkspaceRecordForm_keeps new_id collectionId formId title revision definitionRevision submitted recorded recorded' a d :
  readable d → readable (submitWorkspaceRecordForm parse_url new_id collectionId formId title revision definitionRevision submitted recorded recorded' a d).2.
Proof.
  intros HI. apply transaction_keeps; [done|]. intros out d' H. unroll H. unroll H. unroll H. destruct (find_form _ _ _ _) as [f|]; [|done]. unroll H. unroll H. unroll H. unroll H. unroll H.
  apply eff_bind_ok in H as (out' & d1 & Ec & H). apply create_record_keeps in Ec; [|done]. repeat unroll H. injection H as _ <-. by eapply (readable_same d1).
Qed.

(** ** What a readable state reads *)

Lemma own_catalog_fields d id c k l :
  collections d !! id = Some c → own_catalog d id c !! k = Some (Array l) → ∃ ck, collections d !! k = Some ck ∧ c_org ck = c_org c ∧ l = c_fields ck.
Proof.
  intros Hc. unfold own_catalog. rewrite catalogFor_lookup. case_bool_decide as E; [intros [= <-]; subst k; by exists c|].
  case_bool_decide; [|done]. intros (ck & ? & ? & [= ->])%collection_fields_Some. eauto.
Qed.
Lemma own_distinct d id c : readable d → collections d !! id = Some c → distinct_fields (own_catalog d id c).
Proof.
  intros HI Hc k l Hk. destruct (own_catalog_fields _ _ _ _ _ Hc Hk) as (ck & Hck & _ & ->). destruct (readable_definitions _ HI _ _ Hck) as [types Ht].
  destruct (accepted_keys _ _ _ (definitions_ok _ _ _ Ht)) as [Hnd HF]. clear -Hnd HF. induction (c_fields ck) as [|f l IH]; [constructor|].
  apply Forall_cons in HF as [[key Hf] HF]. cbn in *. unfold key_of in Hnd at 1. rewrite Hf in *. cbn in Hnd. apply NoDup_cons in Hnd as [Hni Hnd]. constructor; [|by apply IH].
  intros (g & Hg & Hk)%list_elem_of_omap. apply Hni. rewrite <-(key_of_text _ _ Hk). by apply list_elem_of_fmap_2.
Qed.
Lemma resolved_lookup org d fields values key r :
  resolved org d fields values !! key = Some r → ∃ f, f ∈ fields ∧ key_of f = key ∧ r = resolve org d fields values f.
Proof. unfold resolved. intros H%elem_of_list_to_map_2. apply list_elem_of_omap in H as (f & Hf & H). destruct (_ && _ && _); [|done]. injection H as <- <-. eauto. Qed.
Lemma selected_values values ks k v :
  prop (Object (omap (λ k, option_map (pair k) (prop values k)) ks)) k = Some v → prop values k = Some v.
Proof.
  unfold prop at 1. induction ks as [|k0 ks IH]; [done|]. cbn. destruct (prop values k0) as [v0|] eqn:E; cbn; [|exact IH].
  destruct (bool_decide (k0 = k)) eqn:Ek; cbn; [|exact IH]. apply bool_decide_eq_true in Ek as ->. by intros [= <-].
Qed.
(** A row a relation to a collection leads to. *)
Lemma related_row org d f ks i v :
  truthy (prop f "target") = false → relationRow org d f ks i = Some v →
  ∃ cid r, text_prop f "collectionId" = Some cid ∧ records d !! i = Some r ∧ r_collection r = cid ∧ r_org r = org ∧ r_archived r = false ∧
    v = Object (omap (λ k, option_map (pair k) (prop (r_values r) k)) ks).
Proof.
  unfold relationRow. intros ->. destruct (text_prop f "collectionId") as [cid|]; [|done]. destruct (find_collection _ _ _ _); [|done]. destruct (records d !! i) as [r|]; [|done].
  destruct (_ && _) eqn:E; [|done]. intros [= <-]. bool_simplify. eexists _, r. by split_and!.
Qed.
(** The errors calculating a record of a readable state can report. *)
Definition CALCULATED : list code := INCOMPLETE_RELATION :: DEPENDENCY_ERROR :: arithmetic.
Lemma readable_admits d id c types values :
  readable d → collections d !! id = Some c → validateRecordDefinitions (Array (c_fields c)) (own_catalog d id c) = Ok types → fits (c_fields c) values →
  admits (own_catalog d id c) (c_fields c) types values (resolved (c_org c) d (c_fields c) values) (.∈ CALCULATED).
Proof.
  intros HI Hc Hv Hfit f e Hf Ha He. pose proof (definitions_ok _ _ _ Hv) as Hacc. pose proof (stored_admits parse_url _ _ _ _ _ Hacc Hfit f e Hf Ha He) as Hleft.
  assert (e ≠ INVALID_RELATED_INPUT) as Hne; [|unfold left_over in Hleft; unfold CALCULATED, arithmetic; destruct e; set_solver]. intros ->.
  destruct (accepted_type _ _ _ _ Hacc Hf Ha) as (t & _ & _ & Hj). unfold direct in He. unfold justified in Hj.
  destruct (type_of f) as [ft|] eqn:Hft; [|injection He as He; unfold input in He; repeat case_match; discriminate]. destruct (decide (ft = ROLLUP)) as [->|Hnr].
  2: { destruct ft; try done; injection He as He; unfold input in He; repeat case_match; discriminate. }
  injection He as He. apply rollup_related in He as (relation & target & r & x & v & Hrel & Htgt & Hr & Hx & Hprop & Hnn & Hbad & Hagg).
  destruct (rollup_relation _ _ _ _ Hj) as (rk & relation' & Hrk & Hrel' & Har & Hrt). rewrite Hrk in *. cbn in Hrel, Hr. change (Datatypes.id rk) with rk in *. rewrite Hrel in Hrel'. injection Hrel' as <-.
  destruct (rollup_target _ _ _ _ _ _ Hj Hrk Hrel Hagg) as (Htt & target' & tt & Htgt' & Hna & Htt' & Hin).
  apply (catalog_field_distinct _ _ _ _ _ (own_distinct d id c HI Hc)) in Htgt' as Hsame. rewrite Htgt in Hsame. injection Hsame as <-.
  destruct (resolved_lookup _ _ _ _ _ _ Hr) as (g & Hg & Hgk & ->).
  assert (g = relation) as ->.
  { destruct (accepted_keys _ _ _ Hacc) as [Hnd HF]. rewrite <-Hgk in Hrel. rewrite (find_key_self _ g) in Hrel; [by injection Hrel|done| |done|done]. rewrite Forall_forall in HF. by apply HF. }
  unfold resolve in Hx. cbn [items] in Hx. apply list_elem_of_omap in Hx as (i & _ & Hx). destruct (relationRow _ _ _ _ i) as [row|] eqn:Erow; [|done]. injection Hx as <-.
  apply related_row in Erow as (cid & rr & Hcid & Hrr & Hrc & _ & Hra & ->); [|done]. apply selected_values in Hprop.
  destruct (readable_records _ HI _ _ Hrr Hra) as (ck & Hck & _ & Hfitk). rewrite Hrc in Hck. unfold catalog_field in Htgt'. rewrite Hcid in Htgt'.
  destruct (text_prop f "targetKey") as [tk|]; [|done]. destruct (own_catalog d id c !! cid) as [[| | | |l|]|] eqn:El; try done.
  destruct (own_catalog_fields _ _ _ _ _ Hc El) as (ck' & Hck' & _ & ->). rewrite Hck in Hck'. injection Hck' as <-.
  apply find_some in Htgt' as [Hint Hk]. apply list_elem_of_In in Hint. bool_simplify. destruct (readable_definitions _ HI _ _ Hck) as [typesk Hvk].
  pose proof (accepted_shaped _ _ _ (definitions_ok _ _ _ Hvk)) as HFk. rewrite Forall_forall in HFk.
  assert (related_ok target v = true) as Hgood; [|congruence]. eapply stored_related; [by apply HFk|done|done|].
  destruct (fits_values _ _ _ Hfitk target v Hint) as [->|Hok]; [|by rewrite (key_of_text target tk)|done|exact Hok].
  unfold editable. rewrite Hna, Htt'. destruct tt; try done; exfalso; set_solver.
Qed.

Lemma texts_of_text l ts : texts_of l = Some ts → l = Text <$> ts.
Proof.
  revert ts. induction l as [|v l IH]; intros ts; [by intros [= <-]|]. cbn. destruct v; try done. cbn. change (mapM text_of l) with (texts_of l). destruct (texts_of l) as [ts'|]; [|done].
  intros [= <-]. cbn. by rewrite (IH ts' eq_refl).
Qed.
Lemma stored_ids fields values f :
  fits fields values → f ∈ fields → is_relation f = true → forallb id_ok (selection values f) = true ∧ Z.of_nat (length (selection values f)) ≤ 100.
Proof.
  intros Hfit Hf Hr. unfold is_relation in Hr. bool_simplify. unfold selection. destruct (prop values (key_of f)) as [v|] eqn:Ev; [|split; [done|cbn; lia]].
  destruct (fits_values _ _ _ Hfit f v Hf) as [->|Hok]; [unfold editable; rewrite H0; by rewrite H|done|split; [done|cbn; lia]|].
  unfold RecordInputs.value_ok in Hok. rewrite H in Hok. destruct v; try done. bool_simplify. split; [|done].
  destruct (texts_of l) as [ids|] eqn:E; [|done]. apply texts_of_text in E as ->. bool_simplify. rewrite forallb_forall in *. intros v (i & <- & Hi)%in_map_iff. cbn. by apply H2.
Qed.
Lemma selected_total_bound fields rows n :
  (∀ f v, f ∈ fields → v ∈ rows → is_relation f = true → Z.of_nat (length (selection v f)) ≤ n) → 0 ≤ n →
  selected_total fields rows ≤ Z.of_nat (length fields) * (Z.of_nat (length rows) * n).
Proof.
  intros H Hn. unfold selected_total. induction fields as [|f fields IH]; [cbn; lia|]. cbn [fmap list_fmap foldr length]. rewrite Nat2Z.inj_succ.
  assert ((if is_relation f then foldr Z.add 0 ((λ v, Z.of_nat (length (selection v f))) <$> rows) else 0) ≤ Z.of_nat (length rows) * n) as Hf.
  { destruct (is_relation f) eqn:E; [|nia]. assert (∀ v, v ∈ rows → Z.of_nat (length (selection v f)) ≤ n) as Hv by (intros v Hv; apply H; [left|done|done]). clear -Hv Hn.
    induction rows as [|v rows IH]; [cbn; lia|]. cbn [fmap list_fmap foldr length]. rewrite Nat2Z.inj_succ. specialize (IH (λ w Hw, Hv w ltac:(by right))). specialize (Hv v ltac:(left)). lia. }
  specialize (IH (λ g v Hg, H g v ltac:(by right))). lia.
Qed.
Lemma mapM_answers {A B E} (f : A → result E B) (P : B → Prop) l : (∀ a, a ∈ l → ∃ b, f a = Ok b ∧ P b) → ∃ bs, mapM f l = Ok bs ∧ length bs = length l ∧ Forall P bs.
Proof.
  induction l as [|a l IH]; intros H; [by exists []|]. destruct (H a ltac:(left)) as (b & Hb & HP). destruct IH as (bs & Hbs & Hl & HF); [intros; apply H; by right|].
  exists (b :: bs). cbn. rewrite Hb. cbn. rewrite Hbs. cbn. rewrite Hl. split_and!; [done|done|by constructor].
Qed.
(** Each formula and rollup of a collection has its answer: a value of its type, or
    one of the errors of a calculation and no value. *)
Definition answered (c : collection) (out : computed_fields) : Prop :=
  out.*1 = key_of <$> wanted (c_fields c) ∧
  ∀ key o t, (key, (o, t)) ∈ out → has_ty (o_value o) t ∧ (is_Some (o_error o) → o_value o = Null) ∧ ∀ e, o_error o = Some e → e ∈ CALCULATED.
Definition TOO_MANY : failure := Bad (Invalid "This page has too many relations. Use a smaller record page.").
Lemma decorate_answers d id c rows a :
  readable d → collections d !! id = Some c → c_org c = a_org a → (∀ v, v ∈ rows → fits (c_fields c) v) →
  match decorateRecords id c rows a d with
  | Ok outs => length outs = length rows ∧ Forall (answered c) outs
  | Err e => e = TOO_MANY ∧ 5000 < selected_total (c_fields c) rows
  end.
Proof.
  intros HI Hc Ho Hfit. destruct (readable_definitions _ HI _ _ Hc) as [types Hv]. unfold decorateRecords.
  assert (forallb (λ f, negb (is_relation f) || forallb (λ v, forallb id_ok (selection v f)) rows) (c_fields c) = true) as ->.
  { apply forallb_forall. intros f Hf%list_elem_of_In. destruct (is_relation f) eqn:Er; [|done]. apply forallb_forall. intros v Hin%list_elem_of_In. by apply (stored_ids (c_fields c)); [apply Hfit|..]. }
  cbn [refuse_unless mbind result_bind]. destruct (selected_total (c_fields c) rows <=? 5000) eqn:Et; [|split; [done|by apply Z.leb_gt]]. cbn [refuse_unless mbind result_bind].
  rewrite <-Ho. change (catalogFor (c_org c) d (c_fields c) (Some (id, c_fields c))) with (own_catalog d id c).
  match goal with |- context [mapM ?f rows] => destruct (mapM_answers f (answered c) rows) as (outs & -> & Hl & HF) end; [|done].
  intros v Hin. specialize (Hfit v Hin). destruct (calculation_runs (own_catalog d id c) (c_fields c) types v (resolved (c_org c) d (c_fields c) v) (.∈ CALCULATED)) as (out & -> & Hk & Hall).
  - unfold CALCULATED, arithmetic. set_solver.
  - unfold CALCULATED, arithmetic. set_solver.
  - by apply readable_admits.
  - by apply own_distinct.
  - done.
  - by apply fits_object in Hfit.
  - exists out. split; [done|]. split; [done|]. intros key o t Hout. destruct (Hall key o t Hout) as (_ & Hty & Hval & Herr & He). split_and!; [done| |done].
    intros [e Hoe]. rewrite Hval. destruct (means _ _ _ _ _ key) as [w|]; [|done]. assert (o_error o = None) as Hn by (apply Herr; eauto). congruence.
Qed.

(** ** Any order of writes *)

(** One transaction, of anyone, that goes through or not; or the staff and the
    records of other parts change. *)
Inductive step (d : db) : db → Prop :=
  | step_create_collection new_id name fields recorded a : step d (createWorkspaceCollection new_id name fields recorded a d).2
  | step_update_collection id revision name fields archived_ recorded a : step d (updateWorkspaceCollection parse_url id revision name fields archived_ recorded a d).2
  | step_create_record new_id id title revision values recorded a : step d (createWorkspaceRecord parse_url new_id id title revision values recorded a d).2
  | step_update_record id rid revision definitionRevision title patch archived_ recorded a :
      step d (updateWorkspaceRecord parse_url id rid revision definitionRevision title patch archived_ recorded a d).2
  | step_create_form new_id id configuration recorded a : step d (createWorkspaceRecordForm parse_url new_id id configuration recorded a d).2
  | step_update_form id fid revision configuration archived_ recorded a : step d (updateWorkspaceRecordForm parse_url id fid revision configuration archived_ recorded a d).2
  | step_submit new_id id fid title revision definitionRevision submitted recorded recorded' a :
      step d (submitWorkspaceRecordForm parse_url new_id id fid title revision definitionRevision submitted recorded recorded' a d).2
  | step_elsewhere staff' others' : step d (Db (collections d) (records d) (forms d) staff' others' (audits d)).
Definition reachable (d : db) : Prop := ∃ d0, collections d0 = ∅ ∧ records d0 = ∅ ∧ rtc step d0 d.
Lemma step_keeps d d' : readable d → step d d' → readable d'.
Proof.
  intros HI []; [by apply createWorkspaceCollection_keeps|by apply updateWorkspaceCollection_keeps| |by apply updateWorkspaceRecord_keeps|by apply createWorkspaceRecordForm_keeps
    |by apply updateWorkspaceRecordForm_keeps|by apply submitWorkspaceRecordForm_keeps|by eapply (readable_same d)].
  apply transaction_keeps; [done|]. intros out d1. by apply create_record_keeps.
Qed.
Lemma reachable_readable d : reachable d → readable d.
Proof.
  intros (d0 & Hc & Hr & H). assert (readable d0) as H0 by (split; rewrite ?Hc, ?Hr; by intros ? ? ?%lookup_empty_Some). clear Hc Hr.
  induction H as [|d0 d1 d2 Hs _ IH]; [done|]. apply IH. by eapply step_keeps.
Qed.
Lemma staff_passes a d : staff d (a_id a) (a_org a) = true → a_id a ≠ "" → a_org a ≠ "" → currentRecordStaff a d = (Ok tt, d).
Proof. intros H H1 H2. unfold currentRecordStaff, mbind, eff_bind, gets, guard_eff. by rewrite H, !bool_decide_eq_false_2. Qed.
Lemma collectionFor_passes id a d c : collections d !! id = Some c → c_org c = a_org a → c_archived c = false → collectionFor id a false d = (Ok c, d).
Proof.
  intros H1 H2 H3. unfold collectionFor, mbind, eff_bind, gets. by rewrite (proj2 (find_collection_Some id (a_org a) false d c)) by auto.
Qed.
(** A page's rows. *)
Lemma page_rows contains id after limit search a d x :
  x ∈ (page (Z.to_nat limit) after (listed_record contains id search false a) (records d)).1 →
  records d !! x.1 = Some x.2 ∧ r_collection x.2 = id ∧ r_archived x.2 = false.
Proof.
  unfold page. cbn [fst]. intros Hx. eapply elem_of_sublist in Hx; [|apply sublist_take]. eapply elem_of_sublist in Hx; [|apply sublist_take].
  rewrite elem_of_isort in Hx. destruct x as [k r]. apply tselect_spec in Hx as [Hk H]. unfold listed_record in H. split; [exact Hk|]. cbn [snd orb] in *.
  do 2 apply andb_true_iff' in H as [H _]. apply andb_true_iff' in H as [H Ha%negb_true_iff']. by apply andb_true_iff' in H as [H%bool_decide_eq_true _].
Qed.

(** C10 (invariant): Records stay readable. Whatever anyone does to the collections
    of a workspace, their fields, records and forms, in whatever order, with
    transactions that go through or not, and whatever becomes of the staff and of
    the tasks, projects, clients and people that records relate to: a member of
    staff who reads an active record in a state so reached is answered, and each
    of its formulas and rollups has a value of its type, or null with one of the
    errors of its arithmetic, of an incomplete relation or of what it depends on;
    never with an input, a relation or a related value that is not what its field
    says. So does every record of a page, which is refused only for too many
    relations. *)
Theorem records_stay_readable d id c a :
  reachable d → staff d (a_id a) (a_org a) = true → a_id a ≠ "" → a_org a ≠ "" →
  collections d !! id = Some c → c_org c = a_org a → c_archived c = false →
  (∀ rid r, records d !! rid = Some r → r_collection r = id → r_archived r = false →
     ∃ out, readWorkspaceRecord id rid false a d = (Ok out, d) ∧ answered c out) ∧
  (∀ contains after limit search, pageOptions after limit search = true →
     let rows := (page (Z.to_nat limit) after (listed_record contains id search false a) (records d)).1 in
     match listWorkspaceRecords contains id after limit search false a d with
     | (Ok (items, _), d') => d' = d ∧ items.*1 = rows.*1 ∧ Forall (answered c) items.*2
     | (Err e, d') => d' = d ∧ e = TOO_MANY ∧ 5000 < selected_total (c_fields c) ((λ x : string * record, r_values x.2) <$> rows)
     end).
Proof.
  intros HI%reachable_readable Hs Hi Ho Hc Hco Hca. split.
  - intros rid r Hr Hrc Hra. destruct (readable_records _ HI _ _ Hr Hra) as (c' & Hc' & Hro & Hfit). rewrite Hrc, Hc in Hc'. injection Hc' as <-.
    pose proof (decorate_answers d id c [r_values r] a HI Hc Hco) as Hd. unfold readWorkspaceRecord.
    rewrite (eff_bind_run _ _ _ _ _ (staff_passes a d Hs Hi Ho)), (eff_bind_run _ _ _ _ _ (collectionFor_passes id a d c Hc Hco Hca)).
    unfold mbind at 1, eff_bind at 1, gets at 1. 
    assert (find_record rid id (a_org a) d = Some r) as -> by (apply find_record_Some; split_and!; [exact Hr|exact Hrc|by rewrite <-Hro]). rewrite Hra. cbn [orb negb].
    unfold mbind at 1, eff_bind at 1, guard_eff. cbn [refuse_unless]. unfold mbind, eff_bind, decorate.
    destruct (decorateRecords id c [r_values r] a d) as [outs|e] eqn:E.
    + destruct Hd as [Hl HF]; [by intros v ->%list_elem_of_singleton|]. destruct outs as [|out []]; try done. exists out. split; [done|]. by apply Forall_cons in HF as [? _].
    + exfalso. destruct Hd as [_ Hd]; [by intros v ->%list_elem_of_singleton|]. destruct (readable_definitions _ HI _ _ Hc) as [types Hv]. apply few_fields in Hv.
      assert (selected_total (c_fields c) [r_values r] ≤ Z.of_nat (length (c_fields c)) * (Z.of_nat 1 * 100)) as Hb; [|lia].
      apply selected_total_bound; [|lia]. intros f v Hf ->%list_elem_of_singleton Hrel. by apply (stored_ids (c_fields c)).
  - intros contains after limit search Hp. cbv zeta. set (rows := (page _ _ _ _).1).
    assert (∀ v, v ∈ ((λ x : string * record, r_values x.2) <$> rows) → fits (c_fields c) v) as Hfit.
    { intros v (x & -> & Hx)%list_elem_of_fmap. apply page_rows in Hx as (Hr & Hrc & Hra). destruct (readable_records _ HI _ _ Hr Hra) as (c' & Hc' & _ & Hf).
      rewrite Hrc, Hc in Hc'. by injection Hc' as <-. }
    pose proof (decorate_answers d id c _ a HI Hc Hco Hfit) as Hd. unfold listWorkspaceRecords.
    rewrite (eff_bind_run _ _ _ _ _ (staff_passes a d Hs Hi Ho)). unfold mbind at 1, eff_bind at 1, guard_eff. rewrite Hp. cbn [refuse_unless].
    rewrite (eff_bind_run _ _ _ _ _ (collectionFor_passes id a d c Hc Hco Hca)). unfold mbind at 1, eff_bind at 1, gets at 1. fold rows.
    unfold mbind, eff_bind, decorate. destruct (decorateRecords id c _ a d) as [outs|e] eqn:E; [|by destruct Hd].
    destruct Hd as [Hl HF]. rewrite length_fmap in Hl. unfold mret, eff_ret. cbv beta iota. fold rows. split_and!; [done| |].
    + rewrite fst_zip; [done|]. rewrite length_fmap. lia.
    + rewrite snd_zip; [done|]. rewrite length_fmap. lia.
Qed.
End readable.

(** ** Examples

    A collection of projects, and one whose records sum their hours: a record, a
    field the projects get later, and a project that is archived. *)

Definition demo_url (s : string) : option (string * (string * string)) := None.
Definition demo_actor : actor := Actor "u1" "o1".
Definition demo_start : db := Db ∅ ∅ ∅ (λ u o, bool_decide (u = "u1") && bool_decide (o = "o1")) (λ _ _ _, false) [].
Definition demo_hours (h : Z) : value := Object [("hours", Number (of_Z h))].
Definition demo_projects : list value := [demo_field "hours" "NUMBER" []].
Definition demo_double : value := demo_formula "double" (demo_op "multiply" [demo_ref "sum"; demo_literal 2]).
Definition demo_sums : collection := Collection "o1" "Summary" [demo_relation; demo_sum; demo_double] 0 0 false.
Definition demo1 : db := (createWorkspaceCollection "p" "Projects" demo_projects true demo_actor demo_start).2.
Definition demo2 : db := (createWorkspaceCollection "s" "Summary" (c_fields demo_sums) true demo_actor demo1).2.
Definition demo3 : db := (createWorkspaceRecord demo_url "p1" "p" "One" 0 (demo_hours 10) true demo_actor demo2).2.
Definition demo4 : db := (createWorkspaceRecord demo_url "p2" "p" "Two" 0 (demo_hours 30) true demo_actor demo3).2.
Definition demo5 : db := (createWorkspaceRecord demo_url "s1" "s" "All" 0 (Object [("projects", Array [Text "p1"; Text "p2"])]) true demo_actor demo4).2.
Definition demo6 : db := (updateWorkspaceCollection demo_url "p" 0 None (Some (demo_projects ++ [demo_field "note" "TEXT" []])) None true demo_actor demo5).2.
Definition demo7 : db := (updateWorkspaceRecord demo_url "p" "p2" 0 1 None None (Some true) true demo_actor demo6).2.
Lemma demo7_reachable : reachable demo_url demo7.
Proof.
  exists demo_start. split; [done|]. split; [done|].
  apply (rtc_l _ _ demo1); [apply step_create_collection|]. apply (rtc_l _ _ demo2); [apply step_create_collection|].
  apply (rtc_l _ _ demo3); [apply step_create_record|]. apply (rtc_l _ _ demo4); [apply step_create_record|]. apply (rtc_l _ _ demo5); [apply step_create_record|].
  apply (rtc_l _ _ demo6); [apply step_update_collection|]. apply (rtc_l _ _ demo7); [apply step_update_record|]. apply rtc_refl.
Qed.
Definition demo_read (d : db) : list (string * (value * option code)) :=
  match (readWorkspaceRecord "s" "s1" false demo_actor d).1 with Ok out => (λ x, (x.1, (o_value x.2.1, o_error x.2.1))) <$> out | Err _ => [] end.
Example demo_reads :
  demo_read demo6 = [("sum", (Number (of_Z 40), None)); ("double", (Number (of_Z 80), None))] ∧
  demo_read demo7 = [("sum", (Null, Some INCOMPLETE_RELATION)); ("double", (Null, Some DEPENDENCY_ERROR))] ∧
  (createWorkspaceRecord demo_url "p3" "p" "Three" 1 (Object [("hours", Text "many")]) true demo_actor demo7).1 = Err (Bad (Invalid "Invalid value.")) ∧
  (updateWorkspaceCollection demo_url "p" 1 None (Some [demo_field "hours" "TEXT" []; demo_field "note" "TEXT" []]) None true demo_actor demo7).1 =
    Err (Bad (Invalid "Existing field types and relation targets cannot change.")).
Proof. split_and!; vm_compute; reflexivity. Qed.
Lemma records_stay_readable_witness :
  ∃ out, readWorkspaceRecord "s" "s1" false demo_actor demo7 = (Ok out, demo7) ∧ answered demo_sums out.
Proof.
  apply (proj1 (records_stay_readable demo_url demo7 "s" demo_sums demo_actor demo7_reachable ltac:(vm_compute; reflexivity) ltac:(discriminate) ltac:(discriminate)
    ltac:(vm_compute; reflexivity) ltac:(reflexivity) ltac:(reflexivity)) "s1"
    (Rec "s" "o1" "All" (Object [("projects", Array [Text "p1"; Text "p2"])]) 0 false)); vm_compute; reflexivity.
Defined.

End WorkspaceRecordLog.
